(* ===== verification/_CoqProject ===== *)
-Q . S2P
Prelude.v
Texto.v
BlockDev.v
SosofsLayout.v
SosofsAlloc.v
SosofsTree.v
SosofsNode.v
SosofsStep.v
SosofsTreeSpec.v
SosofsScan.v
SosofsFile.v
SosofsTxn.v
SosofsCow.v
SosofsCommit.v
SosofsCrash.v
SosofsVista.v
SosofsDir.v
SosofsNames.v
SosofsRead.v
SosofsData.v
SosofsFiles.v
SosofsAppend.v
SosofsMontado.v
SosofsOps.v
SosofsUso.v
SosofsBuilder.v
Ejemplo.v
SosofsTeoremas.v
OtaHash.v
OtaRecord.v
OtaManifest.v
OtaPaquete.v
OtaTxn.v
OtaJournal.v
OtaBootrec.v
OtaReconcile.v
OtaAplicador.v
OtaCortes.v
OtaPunto.v
OtaIdentidad.v
OtaKernel.v
OtaDescarga.v
OtaBajada.v
OtaEntrega.v
OtaTeoremas.v
OtaReleaseTeoremas.v
LogRing.v
LogFlujo.v
LogFs.v
LogSectores.v
LogFiel.v
LogPasada.v
LogTeoremas.v
OtaArranque.v
OtaArranqueTeoremas.v
OtaExclusion.v
Fcache.v
FcacheVivos.v
FcacheTeoremas.v
FcacheSesion.v
MemFrame.v
MemLibres.v
MemContiguo.v
MemReclaim.v
MemDma.v
MemTeoremas.v
Gpt.v
GptTabla.v
GptTeoremas.v
Resize.v
ResizeTabla.v
ResizeGpt.v
ResizeTeoremas.v
Mmap.v
MmapLibro.v
MmapTeoremas.v
Monton.v
MontonInv.v
MontonClases.v
MontonTeoremas.v
