(* ===== verification/Prelude.v ===== *)
(** * soso: verification development

    soso is an operating system in Rust. This library models and verifies, from
    the source under [src/]:

    - [sosofs], its copy-on-write file system ([crates/sosofs],
      [crates/block-dev]);
    - the update of an installed machine ([crates/soso-update-core], the
      download of [user/soso-update], and in the kernel the recovery,
      [kernel/src/drivers/txnaplica.rs], and the exclusion of writers,
      [txnlock.rs]): releases, staging, the transaction that replaces files, the
      decision at boot and carrying it out, recovery points;
    - the native logs ([crates/soso-log-core],
      [kernel/src/drivers/logfs.rs]): rings in memory, flows, rotation, the
      writer;
    - the physical memory of the kernel ([kernel/src/mm/frame.rs],
      [kernel/src/mm/reclaim.rs], [kernel/src/drivers/dma.rs]);
    - the open files ([kernel/src/task/fcache.rs] and the calls on descriptors of
      [kernel/src/task/syscall.rs]): the contents the descriptors of one file share,
      publishing them, locks;
    - the memory of a process: its map ([kernel/src/task/mmap.rs] and the calls of
      [kernel/src/task/syscall.rs]) and the heap of its program
      ([crates/soso-alloc]);
    - the disk below the file systems: partition tables ([crates/gptdisk]) and
      their resizing ([crates/soso-resize-core]).

    They meet where the machine does. The update stages, replaces and recovers
    files, and the logs append to and rotate files, through operations of the
    file system; the client theorems are proved against classes ([SistemaSpec],
    [MaquinaSpec], [AlmacenSpec], [MundoSpec], [VfsSpec]) that promise of each
    operation what [operacion_atomica] and [corte_de_luz] prove of the ones of
    sosofs: all of the effect, or an error and no effect. [OtaArranqueTeoremas]
    goes down one level: the [Sistema] of the kernel, over a tree of files,
    discharges [SistemaSpec] ([k_spec]). The heap asks the kernel for memory by
    a class, [OpsSpec], that the calls of [Mmap] discharge
    ([monton_en_el_mapa]); reclaiming and the pages for devices run over the
    allocator of frames itself.

    ** How the code is modelled

    A value of [M S E A] (this file) is a computation over a mutable state [S]:
    it ends with [Ok], with [Err] (the code's [Result]), with [Panic]
    (overflow, index out of range, [unwrap] of nothing: the kernel is built in
    the [dev] profile, overflow checks on) or with [Fuel]. What was done to the
    state before an error stays done. Integers are [N] with their width
    written out: [add64], [sub64], [mul64] panic, [wrapping_add64] and
    [saturating_add64] do what they say. Bytes are [Byte.byte], a [str] is its
    bytes ([Texto]). A trait is a class of operations over a state, what
    it promises is a second class, and each has an instance. [wp], [keeps] and
    [acaba] are the three program logics: total correctness with a condition on
    errors, invariants of any run, and runs that may stop with an error but
    never panic. [tras] ([OtaArranque]) is the fourth: what is left at any
    moment, and what an answer says, of runs that may be cut.

    ** The files

    Common: [Prelude] (outcomes, integers, slices, program logics),
    [Texto]: UTF-8 and text.

    File system. [BlockDev]: the [BlockDevice] trait, the memory and sparse
    devices, the LRU cache ([crates/block-dev/src/lib.rs],
    [sosofs/src/cache.rs]). [SosofsLayout]: [layout.rs]. [SosofsAlloc]: the
    record [Sosofs] of [fs.rs] and the allocator of [write.rs]. [SosofsTree],
    [SosofsFile], [SosofsTxn]: the tree, the files and the transactions of
    [fs.rs] and [write.rs]. [SosofsUso]: [uso.rs]. [SosofsBuilder]:
    [builder.rs]. The proofs go up in layers: [SosofsNode], [SosofsStep],
    [SosofsTreeSpec], [SosofsScan] (the tree is a sorted map: [rep]);
    [SosofsCow], [SosofsCommit], [SosofsCrash] (nothing published is
    overwritten, what a commit publishes, power loss: [imagen], [corte]);
    [SosofsVista], [SosofsDir], [SosofsNames], [SosofsRead], [SosofsData],
    [SosofsFiles], [SosofsAppend] (a volume as a map of items, well formed:
    [vista], [bien_formado], [archivo]); [SosofsMontado], [SosofsOps] (the
    public operations and their abstract specification: [montado], [efecto],
    [contenido], [falla]). [Ejemplo] is a concrete volume; [SosofsTeoremas]
    states the properties.

    Update. [OtaHash], [OtaRecord]: digests and the framed records.
    [OtaManifest]: [semver.rs], [compat.rs], [manifest.rs], [pack.rs],
    [plan.rs], [oferta.rs]; [OtaPaquete]: the facts on them. [OtaTxn],
    [OtaJournal], [OtaBootrec], [OtaReconcile], [OtaAplicador]: the state
    machine, the journal, the boot record, the decision at boot with the
    rescue, and applying and undoing ([txn/]); [OtaCortes]: any cut, and a
    concrete system. [OtaArranque]: [txnaplica.rs], what a machine promises and
    the runs of each operation. [OtaExclusion]: [txnlock.rs], what a release
    administers ([lib.rs]), absolute paths ([task/path.rs]) and the calls on names
    of [task/syscall.rs], with their properties; [Fcache] calls it with the cache
    behind it. [OtaPunto], [OtaIdentidad], [OtaKernel]: recovery
    points, live or installed, the kernel slot and its mailbox. [OtaDescarga]:
    [descarga.rs] and the download of the client; [OtaBajada], [OtaEntrega]: the
    facts on it. [OtaTeoremas], [OtaReleaseTeoremas], [OtaArranqueTeoremas]: the
    properties, the last with a machine in memory.

    Logs. [LogRing]: [ring.rs]. [LogFlujo]: [flujo.rs], [rotacion.rs],
    [texto.rs]. [LogFs]: [logfs.rs]. [LogSectores]: [sectores.rs]. [LogFiel],
    [LogPasada]: the facts. [LogTeoremas]: the properties.

    Open files. [Fcache]: [fcache.rs], and of [syscall.rs] the descriptors ([Fd] of
    [task/mod.rs]), opening, closing, duplicating, inheriting, reading, writing,
    moving, truncating, [fsync] and [flock]; the state ([Mundo]) is the disk, the
    cache, the tables of all the processes and whether [PROCS] is taken, over the
    record of the exclusion. [FcacheVivos]: references and descriptors, by a small
    logic of what each call has in hand ([trae]). [FcacheTeoremas]: the reference
    machine, any sequence of calls, and the instances that make the kernel with
    its cache one of the machines of [OtaArranque] and [OtaExclusion].
    [FcacheSesion]: from open to close, locks, concrete sessions.

    Physical memory. [MemFrame]: [frame.rs]; [MemLibres], [MemContiguo]: which
    frames are free and what each operation does to them. [MemReclaim]:
    [reclaim.rs] with [evict_page] of [addrspace.rs], and what it keeps. [MemDma]: [dma.rs]. [MemTeoremas]: the properties.

    Memory of a process. [Mmap]: [mmap.rs] and [sys_sbrk], [sys_mmap],
    [sys_munmap]; [MmapLibro]: the book as a map from addresses to pages;
    [MmapTeoremas]. [Monton]: [soso-alloc/src/lib.rs]; [MontonInv],
    [MontonClases]: who owns each byte; [MontonTeoremas], with the heap over
    [Mmap].

    Disk. [Gpt]: [gptdisk/src/lib.rs]; [GptTabla]: tables as lists of
    entries; [GptTeoremas]. [Resize]: [soso-resize-core/src/lib.rs];
    [ResizeTabla], [ResizeGpt]: the slide, the new table; [ResizeTeoremas]: the
    phases and the properties, with the saving of the journal of
    [kernel/src/fs_resize.rs].

    ** What the theorems show

    Where a property holds of part of what the code accepts only, its comment and
    its hypotheses say of which; the last item lists what happens beyond.

    - The file system refines a map of items: each of six public operations (make
      a directory, create, append, remove, rename, set the time) has exactly its
      effect and publishes it, or fails as specified and changes nothing
      ([operacion_atomica]); power may fail at any write of one, in any order of
      the unflushed ones ([corte_de_luz]); no body of an operation overwrites what
      is published, that of [truncate_file] included ([publicado_intacto]); the
      tree is a map ([arbol_es_mapa], [busquedas_exactas]); a read gives the exact
      bytes when the checksums it meets are right, and which error otherwise
      ([lectura_exacta]); a clone mounts with every file ([clon_fiel]); paths,
      listings, allocation, mount, images, cache and formats do what they promise.
    - An update leaves the whole new version or the whole old one, whatever the
      cuts while it is applied, or undone once applying has begun
      ([cortes_sin_mezcla]), and reaches its end when nothing fails
      ([arranque_termina]); over the kernel's own operations, a boot that goes on
      does so with one version entire ([arranque_entero]), and after boots that
      were cut one where nothing fails decides ([arranque_decide]); meanwhile no
      call on a path of anybody else touches what the release administers
      ([exclusion_protege]), however the path is written ([ruta_normal]); torn
      records leave the previous one in force ([registro_a_medias]); whatever is
      armed, confirmed and undone, recovery points in use are never given up nor
      collected ([retencion_segura]); a sound release is always accepted, and what
      is accepted is sound but at the edge of 64 bits ([manifiesto_exacto]); its
      pack reads back ([pack_redondo]), its plan covers what is missing
      ([plan_cubre]), and a download stages only verified files whatever the server
      answers ([descarga_verificada]) and ends when the server is honest
      ([entrega_completa]).
    - A ring refines the history of what was appended ([anillo_fiel]); a secret
      is blotted out entirely ([tachado_completo]); the logs on disk are a
      faithful account of that history with every gap marked by its size, whatever
      other processors append meanwhile and whatever writes fail ([log_fiel],
      [pasada_conserva]); the changed sectors are exactly the ones that differ.
    - Every open descriptor finds its entry, counted, and locks are well held, while
      no conversion to a stream fails halfway ([descriptores_vivos]); what the
      descriptors of all the processes write and read below the size of a stream is
      what a machine with one content by file says ([fichero_compartido]); from open
      to close a file is left whole, old or new ([sesion_entera]); [flock] gives a
      lock exactly when it may ([flock_exacto]).
    - No frame is in two hands ([marcos_exclusivos]), a contiguous request is
      refused only when no run exists ([contiguo_exacto]), reclaiming ends and
      spares what is pinned ([fijadas_a_salvo]), the pages of a device are its
      own ([dma_exclusivo]).
    - The book of a process is exact ([libro_exacto]), [mmap] gives the first
      gap ([mmap_primer_hueco]); while no large map is refused and no block of the
      arena grows large ([sin_caida], [no_salta]), the blocks of a program share no
      byte ([monton_exclusivo]), keep their contents when they change size
      ([realloc_conserva]) and lie in memory that is mapped ([monton_en_el_mapa]).
    - A table is adapted to a disk exactly when it fits ([relayout_exacto]); a
      resize of a table with the root first and nothing overlapping moves every
      sector it keeps ([redimension_exacta]) and a slide can be gone on from
      ([slide_reanudable]).
    - [preparado_no_termina], [revertir_armado_corta], [borrado_ignorado],
      [esp_perdida], [raiz_movida], [lector_publica], [salida_no_vuelve],
      [conversion_pierde], [cierres], [busqueda_fallida], [rename_en_si_mismo],
      [mkfs_enlace_duplica], [corte_pierde_modelos],
      [flush_pierde_modelos], [corte_dobla], [sin_cuarta_pisa],
      [mmap_pista_alta] and [fuera_del_contrato] prove defects that the findings
      of the manifest describe.

    ** Fuel and bounds

    Loops over a list are structural. The others take fuel, and a theorem about
    them says which is enough: recursion on the tree, the height [h < fuel],
    because a corrupt disk may hold a cycle and the code does not guard against
    it; the probing of directory names and the loops over slots, what [cabe]
    asks (one more than the entries there are); [bajar_trozos], one more than
    the bytes asked for, since every accepted answer brings one; [recibir],
    the bytes received plus the files; [tachar_bucle], one more than the live
    bytes; the walk over the regions of the boot map, one more than twice their
    number, and over the free list or the queue of pages, one more than their
    length; a slide, one more than the sectors left; the search for a gap, two
    more than the regions; the pages of a [munmap], one more than there are; the
    changed sectors, two more than the sectors; the chunks of a stream, one more than
    the whole ones ([chunks_bastan]). Numbers that only grow
    (generation, inode numbers, cursors, counters, sequence numbers) are assumed
    below their width, with the margin in the statement: [cabe], [margen],
    [cabe_], [cabe_seq].

    ** Not modelled

    SHA-256, CRC-32C (third-party crates: parameters [Sha256], [Crc32c] with
    the length or the bound they need), the list allocator of the heap
    ([linked_list_allocator]), the frames and page tables of the crate [x86_64],
    HTTP, console messages, clocks, locks (a lock that is held makes the code
    return; the model takes it; but for [PROCS] in [Fcache], where to ask for it
    twice is to wait for ever), the host file system of the
    tools. Of the client of the update, its command line, its other commands and
    the staging of the kernel. Of the calls on files, the copies from and to the
    memory of the process, [fstat], the directories, pipes, sockets and terminals a
    descriptor may be (they are calls of a class), inheriting through [spawn], and the
    memory a file needs; the calls come one after the other. Of the log writer, the pause during a clone, the
    summary and the removal of the old log. Of the pages for devices, the
    quarantine of the foreign drivers. Of the resizing, the shrinking and growing
    of mounted file systems. Of the map of a process, the shared segments
    ([shm.rs]), [mprotect], [mremap] and the page tables of [addrspace.rs].
    [MaquinaSpec] and [VfsSpec] are promises taken of the virtual file system:
    the theorems of sosofs state them of its transactions, but the dispatch of
    [vfs.rs] between two file systems and the inode numbers of a mounted tree
    are not put together with them here. The rest of the kernel (interrupts,
    paging, scheduling: unsafe code and assembly), the drivers, the language-model
    crates, the agent and the other crates are listed in the manifest and left
    out. *)
From stdpp Require Export base list gmap strings numbers fin_maps.
From Stdlib Require Export Strings.Byte.

#[export] Set Default Proof Using "Type".
#[export] Set Warnings "-clear-no-such-hyp".
Local Open Scope N_scope.

Declare Scope soso_scope.
Delimit Scope soso_scope with soso.

#[export] Instance byte_eq_dec : EqDecision byte := Byte.byte_eq_dec.
#[export] Instance byte_countable : Countable byte.
Proof.
  refine (inj_countable' Byte.to_N (fun n => match Byte.of_N n with Some b => b | None => x00 end) _).
  intros b. by rewrite Byte.of_to_N.
Defined.
#[export] Instance byte_inhabited : Inhabited byte := populate x00.

(** ** Outcomes of Rust code

    [Ok] and [Err] are the two constructors of [Result]; [Panic] is an
    arithmetic overflow, an out-of-range index or an [unwrap] of nothing (the
    kernel is built in the [dev] profile, overflow checks on); [Fuel] is a
    loop or recursion that did not finish within the fuel it was given. *)
Inductive outcome (E A : Type) : Type :=
| Ok (a : A)
| Err (e : E)
| Panic
| Fuel.
Arguments Ok {E A} a.
Arguments Err {E A} e.
Arguments Panic {E A}.
Arguments Fuel {E A}.

(** A computation over a mutable state [S]. As with [&mut self], what was
    done to the state before an error stays done. *)
Definition M (S E A : Type) : Type := S -> outcome E A * S.

#[export] Instance M_ret {S E} : MRet (M S E) := fun A a s => (Ok a, s).
#[export] Instance M_bind {S E} : MBind (M S E) := fun A B f m s =>
  match m s with
  | (Ok a, s') => f a s'
  | (Err e, s') => (Err e, s')
  | (Panic, s') => (Panic, s')
  | (Fuel, s') => (Fuel, s')
  end.

Definition throw {S E A} (e : E) : M S E A := fun s => (Err e, s).
Definition panic {S E A} : M S E A := fun s => (Panic, s).
Definition no_fuel {S E A} : M S E A := fun s => (Fuel, s).
Definition gets {S E A} (f : S -> A) : M S E A := fun s => (Ok (f s), s).
Definition modify {S E} (f : S -> S) : M S E unit := fun s => (Ok tt, f s).

(** A step that changes only a part of the state: [lens_get] reads it,
    [lens_set] stores it back; [err] maps the errors of the part
    ([map_err]). *)
Definition zoom {S T E F A} (lens_get : S -> T) (lens_set : T -> S -> S) (err : F -> E)
    (m : M T F A) : M S E A := fun s =>
  let '(r, t) := m (lens_get s) in
  (match r with Ok a => Ok a | Err e => Err (err e) | Panic => Panic | Fuel => Fuel end,
   lens_set t s).

(** [self.op(...)] inspected with [match]: the result as a value. Panics and
    exhausted fuel are not results. *)
Definition attempt {S E A} (m : M S E A) : M S E (E + A) := fun s =>
  match m s with
  | (Ok a, s') => (Ok (inr a), s')
  | (Err e, s') => (Ok (inl e), s')
  | (Panic, s') => (Panic, s')
  | (Fuel, s') => (Fuel, s')
  end.

Definition of_option {S E A} (m : M S E A) (o : option A) : M S E A :=
  match o with Some a => mret a | None => m end.

(** [for x in l { acc = f(acc, x)? }] *)
Fixpoint mfold {S E A B} (f : B -> A -> M S E B) (acc : B) (l : list A) : M S E B :=
  match l with
  | [] => mret acc
  | x :: l' => acc' ← f acc x; mfold f acc' l'
  end.

Fixpoint mfor {S E A} (f : A -> M S E unit) (l : list A) : M S E unit :=
  match l with
  | [] => mret tt
  | x :: l' => f x;; mfor f l'
  end.

(** A loop that returns at the first iteration that produces something. *)
Fixpoint mfind {S E A B} (f : A -> M S E (option B)) (l : list A) : M S E (option B) :=
  match l with
  | [] => mret None
  | x :: l' => r ← f x; match r with Some b => mret (Some b) | None => mfind f l' end
  end.

(** [0..n] *)
Definition upto (n : N) : list N := N.of_nat <$> seq 0 (N.to_nat n).

(** ** Machine integers: 64-bit, overflow panics unless the source says
    otherwise *)
Definition U64 : N := 2 ^ 64.
Definition U64_MAX : N := U64 - 1.
Definition add64 {S E} (a b : N) : M S E N := if a + b <? U64 then mret (a + b) else panic.
Definition sub64 {S E} (a b : N) : M S E N := if b <=? a then mret (a - b) else panic.
Definition mul64 {S E} (a b : N) : M S E N := if a * b <? U64 then mret (a * b) else panic.
(** [u64::next_multiple_of]. *)
Definition next_multiple_of {S E} (a m : N) : M S E N :=
  if m =? 0 then panic
  else if a mod m =? 0 then mret a else add64 a (m - a mod m).
Definition checked_add64 (a b : N) : option N := if a + b <? U64 then Some (a + b) else None.
Definition wrapping_add64 (a b : N) : N := (a + b) mod U64.
Definition wrapping_mul64 (a b : N) : N := (a * b) mod U64.
Definition saturating_add64 (a b : N) : N := N.min (a + b) U64_MAX.
Definition div_ceil (a b : N) : N := (a + b - 1) / b.

(** ** Bytes and slices *)
Definition byte_of (n : N) : byte := default x00 (Byte.of_N (n mod 256)).

Definition zeros (n : N) : list byte := replicate (N.to_nat n) x00.
Definition lenN {A} (l : list A) : N := N.of_nat (length l).

(** [&l[off..off + len]]; [None] is the panic. *)
Definition slice {A} (off len : N) (l : list A) : option (list A) :=
  if off + len <=? lenN l then Some (take (N.to_nat len) (drop (N.to_nat off) l)) else None.

(** [l[off..off + src.len()].copy_from_slice(src)]; [None] is the panic. *)
Definition put_slice {A} (off : N) (src : list A) (l : list A) : option (list A) :=
  if off + lenN src <=? lenN l
  then Some (take (N.to_nat off) l ++ src ++ drop (N.to_nat off + length src) l)
  else None.

Fixpoint le_bytes (n : nat) (v : N) : list byte :=
  match n with
  | O => []
  | S n => byte_of v :: le_bytes n (v / 256)
  end.
Fixpoint le_val (bs : list byte) : N :=
  match bs with
  | [] => 0
  | b :: bs => Byte.to_N b + 256 * le_val bs
  end.

Definition txt (s : string) : list byte := String.list_byte_of_string s.

(** ** Checksums

    The CRC-32C of the [crc] crate: a 32-bit checksum of a byte string. *)
Class Crc32c := {
  crc32c : list byte -> N;
  crc32c_lt : forall bs, crc32c bs < 2 ^ 32;
}.

(** ** Monad laws and inversion *)
Section Monad.
Context {S E : Type}.

Lemma bind_Ok_inv {A B} (m : M S E A) (f : A -> M S E B) s b s' :
  (m ≫= f) s = (Ok b, s') -> ∃ a s1, m s = (Ok a, s1) ∧ f a s1 = (Ok b, s').
Proof.
  unfold mbind, M_bind. destruct (m s) as [[a|e| |] s1]; intros H; simplify_eq; eauto.
Qed.

Lemma bind_eq {A B} (m : M S E A) (f : A -> M S E B) s :
  (m ≫= f) s = match m s with
               | (Ok a, s') => f a s' | (Err e, s') => (Err e, s')
               | (Panic, s') => (Panic, s') | (Fuel, s') => (Fuel, s')
               end.
Proof. done. Qed.

Lemma bind_run {A B} (m : M S E A) (f : A -> M S E B) s a s1 :
  m s = (Ok a, s1) -> (m ≫= f) s = f a s1.
Proof. unfold mbind, M_bind. by intros ->. Qed.

Lemma mfor_app {A} (f : A -> M S E unit) l k s : mfor f (l ++ k) s = (mfor f l ≫= fun _ => mfor f k) s.
Proof.
  revert s. induction l as [|x l IH]; intros s; [done|]. cbn [app mfor]. rewrite !bind_eq.
  destruct (f x s) as [[[]|e| |] s1]; try done.
Qed.

Lemma ret_inv {A} (a b : A) (s s' : S) :
  (mret a : M S E A) s = (Ok b, s') -> a = b ∧ s = s'.
Proof. by intros [= -> ->]. Qed.

Lemma add64_inv a b c (s s' : S) : add64 (E := E) a b s = (Ok c, s') -> c = a + b ∧ s = s'.
Proof. unfold add64. case_match; [|done]. by intros [= -> ->]. Qed.

Lemma add64_run a b (s : S) : a + b < U64 -> add64 (E := E) a b s = (Ok (a + b), s).
Proof. intros Hl. unfold add64. by rewrite (proj2 (N.ltb_lt _ _) Hl). Qed.
Lemma sub64_run a b (s : S) : b <= a -> sub64 (E := E) a b s = (Ok (a - b), s).
Proof. intros Hl. unfold sub64. by rewrite (proj2 (N.leb_le _ _) Hl). Qed.
Lemma mul64_run a b (s : S) : a * b < U64 -> mul64 (E := E) a b s = (Ok (a * b), s).
Proof. intros Hl. unfold mul64. by rewrite (proj2 (N.ltb_lt _ _) Hl). Qed.

(** [keeps I m Φ]: [m] preserves [I] on every outcome, and what it returns
    satisfies [Φ]. *)
Definition keeps {A} (I : S -> Prop) (m : M S E A) (Φ : A -> Prop) : Prop :=
  forall s, I s -> I (m s).2 ∧ forall a, (m s).1 = Ok a -> Φ a.

Lemma keeps_ret {A} I (a : A) (Φ : A -> Prop) : Φ a -> keeps I (mret a) Φ.
Proof. intros Ha s Hs. split; [done|]. by intros ? [= ->]. Qed.

Lemma keeps_bind {A B} I (m : M S E A) (f : A -> M S E B) Ψ Φ :
  keeps I m Ψ -> (forall a, Ψ a -> keeps I (f a) Φ) -> keeps I (m ≫= f) Φ.
Proof.
  intros Hm Hf s Hs. destruct (Hm s Hs) as [Hi Ha].
  unfold mbind, M_bind. destruct (m s) as [[a|e| |] s1]; simpl in *; try done.
  by apply Hf; [apply Ha|].
Qed.

Lemma keeps_mono {A} I (m : M S E A) (Ψ Φ : A -> Prop) :
  keeps I m Ψ -> (forall a, Ψ a -> Φ a) -> keeps I m Φ.
Proof. intros Hm H s Hs. destruct (Hm s Hs). eauto. Qed.

Lemma keeps_any {A} I (m : M S E A) Φ : keeps I m Φ -> keeps I m (fun _ => True).
Proof. intros H. by eapply keeps_mono. Qed.

Lemma keeps_throw {A} I e (Φ : A -> Prop) : keeps I (throw e) Φ.
Proof. by intros s Hs. Qed.
Lemma keeps_panic {A} I (Φ : A -> Prop) : keeps I panic Φ.
Proof. by intros s Hs. Qed.
Lemma keeps_no_fuel {A} I (Φ : A -> Prop) : keeps I no_fuel Φ.
Proof. by intros s Hs. Qed.
Lemma keeps_gets {A} I (f : S -> A) : keeps I (gets f) (fun _ => True).
Proof. by intros s Hs. Qed.
Lemma keeps_modify I (f : S -> S) :
  (forall s, I s -> I (f s)) -> keeps I (modify f) (fun _ => True).
Proof. intros H s Hs. split; [by apply H|done]. Qed.
Lemma keeps_attempt {A} I (m : M S E A) Φ :
  keeps I m Φ -> keeps I (attempt m) (fun r => match r with inr a => Φ a | _ => True end).
Proof.
  intros Hm s Hs. destruct (Hm s Hs) as [Hi Ha]. unfold attempt.
  destruct (m s) as [[a|e| |] s1]; simpl in *; split; try done; intros ? [= <-]; auto.
Qed.
Lemma keeps_mfold {A B} I (f : B -> A -> M S E B) l (Φ : B -> Prop) :
  forall b, Φ b -> (forall b x, x ∈ l -> Φ b -> keeps I (f b x) Φ) -> keeps I (mfold f b l) Φ.
Proof.
  induction l as [|x l IH]; simpl; intros b Hb Hf; [by apply keeps_ret|].
  eapply keeps_bind; [apply Hf; [set_solver|done]|]. intros b' Hb'. apply IH; [done|].
  intros; apply Hf; [set_solver|done].
Qed.
Lemma keeps_mfor {A} I (f : A -> M S E unit) l :
  (forall x, x ∈ l -> keeps I (f x) (fun _ => True)) -> keeps I (mfor f l) (fun _ => True).
Proof.
  induction l as [|x l IH]; simpl; intros Hf; [by apply keeps_ret|].
  eapply keeps_bind; [apply Hf; set_solver|]. intros _ _. apply IH. intros; apply Hf; set_solver.
Qed.
Lemma keeps_mfind {A B} I (f : A -> M S E (option B)) l :
  (forall x, x ∈ l -> keeps I (f x) (fun _ => True)) -> keeps I (mfind f l) (fun _ => True).
Proof.
  induction l as [|x l IH]; simpl; intros Hf; [by apply keeps_ret|].
  eapply keeps_bind; [apply Hf; set_solver|]. intros [b|] _; [by apply keeps_ret|].
  apply IH. intros; apply Hf; set_solver.
Qed.
Lemma keeps_of_option {A} I (m : M S E A) o :
  keeps I m (fun _ => True) -> keeps I (of_option m o) (fun _ => True).
Proof. intros. destruct o; [by apply keeps_ret|done]. Qed.
Lemma keeps_add64 I a b : keeps I (add64 a b) (fun r => r = a + b).
Proof. unfold add64. case_match; [by apply keeps_ret|apply keeps_panic]. Qed.
Lemma keeps_sub64 I a b : keeps I (sub64 a b) (fun r => r = a - b).
Proof. unfold sub64. case_match; [by apply keeps_ret|apply keeps_panic]. Qed.
Lemma keeps_mul64 I a b : keeps I (mul64 a b) (fun r => r = a * b).
Proof. unfold mul64. case_match; [by apply keeps_ret|apply keeps_panic]. Qed.

(** [wp Q m Φ s]: run from [s], [m] returns a value that satisfies [Φ]
    (with the state it leaves) or an error that satisfies [Q]; it neither
    panics nor runs out of fuel. *)
Definition wp {A} (Q : E -> Prop) (m : M S E A) (Φ : A -> S -> Prop) (s : S) : Prop :=
  match m s with
  | (Ok a, s') => Φ a s'
  | (Err e, _) => Q e
  | _ => False
  end.

Lemma wp_bind {A B} Q (m : M S E A) (f : A -> M S E B) Φ s :
  wp Q m (fun a => wp Q (f a) Φ) s -> wp Q (m ≫= f) Φ s.
Proof. unfold wp, mbind, M_bind. by destruct (m s) as [[]?]. Qed.
Lemma wp_ret {A} Q (a : A) (Φ : A -> S -> Prop) s : Φ a s -> wp Q (mret a) Φ s.
Proof. done. Qed.
Lemma wp_gets {A} Q (f : S -> A) (Φ : A -> S -> Prop) s : Φ (f s) s -> wp Q (gets f) Φ s.
Proof. done. Qed.
Lemma wp_modify Q (f : S -> S) (Φ : unit -> S -> Prop) s : Φ tt (f s) -> wp Q (modify f) Φ s.
Proof. done. Qed.
Lemma wp_throw {A} (Q : E -> Prop) e (Φ : A -> S -> Prop) s : Q e -> wp Q (throw e) Φ s.
Proof. done. Qed.
Lemma wp_mono {A} (Q Q' : E -> Prop) (m : M S E A) (Φ Ψ : A -> S -> Prop) s :
  wp Q m Φ s -> (forall e, Q e -> Q' e) -> (forall a s', Φ a s' -> Ψ a s') -> wp Q' m Ψ s.
Proof. unfold wp. intros H HQ HΦ. destruct (m s) as [[]?]; auto. Qed.
Lemma wp_add64 Q a b (Φ : N -> S -> Prop) s : a + b < U64 -> Φ (a + b) s -> wp Q (add64 a b) Φ s.
Proof. intros H HΦ. unfold wp, add64. by rewrite (proj2 (N.ltb_lt _ _) H). Qed.
Lemma wp_sub64 Q a b (Φ : N -> S -> Prop) s : b <= a -> Φ (a - b) s -> wp Q (sub64 a b) Φ s.
Proof. intros H HΦ. unfold wp, sub64. by rewrite (proj2 (N.leb_le _ _) H). Qed.
Lemma wp_mul64 Q a b (Φ : N -> S -> Prop) s : a * b < U64 -> Φ (a * b) s -> wp Q (mul64 a b) Φ s.
Proof. intros H HΦ. unfold wp, mul64. by rewrite (proj2 (N.ltb_lt _ _) H). Qed.
Lemma wp_of_option {A} Q (m : M S E A) a (Φ : A -> S -> Prop) s :
  Φ a s -> wp Q (of_option m (Some a)) Φ s.
Proof. done. Qed.
Lemma wp_attempt {A} Q Q' (m : M S E A) (Φ : E + A -> S -> Prop) s :
  wp Q m (fun a => Φ (inr a)) s -> (forall e s', m s = (Err e, s') -> Q e -> Φ (inl e) s') -> wp Q' (attempt m) Φ s.
Proof. unfold wp, attempt. intros Hm He. destruct (m s) as [[]?]; auto. Qed.
Lemma wp_Ok {A} Q (m : M S E A) (Φ : A -> S -> Prop) s a s' :
  wp Q m Φ s -> m s = (Ok a, s') -> Φ a s'.
Proof. unfold wp. intros H Hm. by rewrite Hm in H. Qed.

Lemma wp_mfor {A} Q (f : A -> M S E unit) (l : list A) (I : list A -> S -> Prop) (Φ : unit -> S -> Prop) s :
  I [] s ->
  (forall pre x post s, l = pre ++ x :: post -> I pre s -> wp Q (f x) (fun _ => I (pre ++ [x])) s) ->
  (forall s, I l s -> Φ tt s) -> wp Q (mfor f l) Φ s.
Proof.
  intros Hi Hf HΦ.
  assert (forall suf pre s, l = pre ++ suf -> I pre s -> wp Q (mfor f suf) Φ s) as Hgen.
  { induction suf as [|x suf IH]; intros pre s' Heq Hp; simpl.
    - apply wp_ret, HΦ. by rewrite Heq, app_nil_r.
    - apply wp_bind. eapply wp_mono; [by apply (Hf pre x suf)|done|]. intros [] s2 Hp2.
      apply (IH (pre ++ [x])); [by rewrite <- (assoc_L (++))|done]. }
  by apply (Hgen l []).
Qed.
End Monad.

Create HintDb keeps.
#[export] Hint Resolve keeps_throw keeps_panic keeps_no_fuel : keeps.

(** One step of a [wp] goal whose next operation is plain control flow. *)
Ltac wp_step :=
  lazymatch goal with
  | |- wp _ (_ ≫= _) _ _ => apply wp_bind
  | |- wp _ (mret _) _ _ => apply wp_ret
  | |- wp _ (gets _) _ _ => apply wp_gets
  | |- wp _ (modify _) _ _ => apply wp_modify
  | |- wp _ (of_option _ (Some _)) _ _ => apply wp_of_option
  end.
Ltac wp_steps := repeat (wp_step; cbv beta).

(** [minv H] opens a successful run [H : m s = (Ok a, s')] bind by bind. *)
Ltac minv H :=
  lazymatch type of H with
  | (_ ≫= _) _ = (Ok _, _) =>
      let x := fresh "x" in let s1 := fresh "s" in let H1 := fresh "Hrun" in
      apply bind_Ok_inv in H as (x & s1 & H1 & H); minv H1; minv H
  | mret _ _ = (Ok _, _) =>
      let Ha := fresh "Heq" in let Hs := fresh "Heq" in
      apply ret_inv in H as [Ha Hs]; subst
  | panic _ = _ => discriminate H
  | throw _ _ = _ => discriminate H
  | no_fuel _ = _ => discriminate H
  | gets _ _ = (Ok _, _) => unfold gets in H; simplify_eq
  | modify _ _ = (Ok _, _) => unfold modify in H; simplify_eq
  | _ => idtac
  end.

(** ** Lemmas on bytes, little-endian numbers and slices *)
Lemma byte_to_N_lt (b : byte) : Byte.to_N b < 256.
Proof. pose proof (Byte.to_N_bounded b). lia. Qed.

Lemma to_N_byte_of n : Byte.to_N (byte_of n) = n mod 256.
Proof.
  unfold byte_of. destruct (Byte.of_N (n mod 256)) as [b|] eqn:E; simpl.
  - by apply Byte.to_of_N in E.
  - apply Byte.of_N_None_iff in E. pose proof (N.mod_lt n 256). lia.
Qed.

Lemma byte_of_to_N b : byte_of (Byte.to_N b) = b.
Proof.
  unfold byte_of. rewrite N.mod_small by apply byte_to_N_lt. by rewrite Byte.of_to_N.
Qed.

Lemma byte_to_N_inj b1 b2 : Byte.to_N b1 = Byte.to_N b2 -> b1 = b2.
Proof. intros H. rewrite <- (byte_of_to_N b1), H. apply byte_of_to_N. Qed.

Lemma le_bytes_length n v : length (le_bytes n v) = n.
Proof. revert v; induction n; simpl; auto. Qed.

Lemma le_val_bytes n v : v < 256 ^ N.of_nat n -> le_val (le_bytes n v) = v.
Proof.
  revert v. induction n as [|n IH]; intros v Hv; simpl le_bytes; simpl le_val.
  - change (256 ^ N.of_nat 0) with 1 in Hv. lia.
  - rewrite Nat2N.inj_succ, N.pow_succ_r' in Hv.
    rewrite IH by (apply N.Div0.div_lt_upper_bound; lia).
    rewrite to_N_byte_of. pose proof (N.div_mod v 256). lia.
Qed.

Lemma le_val_lt bs : le_val bs < 256 ^ lenN bs.
Proof.
  unfold lenN. induction bs as [|b bs IH]; simpl length; simpl le_val; [done|].
  rewrite Nat2N.inj_succ, N.pow_succ_r'. pose proof (byte_to_N_lt b). lia.
Qed.

Lemma le_bytes_val bs : le_bytes (length bs) (le_val bs) = bs.
Proof.
  induction bs as [|b bs IH]; [done|]. simpl. f_equal.
  - apply byte_to_N_inj. rewrite to_N_byte_of. pose proof (byte_to_N_lt b).
    rewrite (N.mul_comm 256), N.Div0.mod_add. by apply N.mod_small.
  - etransitivity; [|exact IH]. f_equal. pose proof (byte_to_N_lt b).
    rewrite (N.mul_comm 256), N.div_add by lia. rewrite N.div_small by lia. lia.
Qed.

Lemma lenN_app {A} (l k : list A) : lenN (l ++ k) = lenN l + lenN k.
Proof. unfold lenN. rewrite length_app. lia. Qed.
Lemma lenN_zeros n : lenN (zeros n) = n.
Proof. unfold lenN, zeros. rewrite length_replicate. lia. Qed.
Lemma lenN_cons {A} (x : A) l : lenN (x :: l) = 1 + lenN l.
Proof. unfold lenN. simpl. lia. Qed.
Lemma lenN_nil {A} : lenN (@nil A) = 0.
Proof. done. Qed.

Lemma lenN_take {A} n (l : list A) : lenN (take (N.to_nat n) l) = N.min n (lenN l).
Proof. unfold lenN. rewrite length_take. lia. Qed.
Lemma lenN_drop {A} n (l : list A) : lenN (drop (N.to_nat n) l) = lenN l - n.
Proof. unfold lenN. rewrite length_drop. lia. Qed.

Lemma zeros_app a b : zeros (a + b) = zeros a ++ zeros b.
Proof. unfold zeros. rewrite N2Nat.inj_add, replicate_add. done. Qed.

Lemma slice_app_r {A} (l k : list A) off len :
  lenN l <= off -> slice off len (l ++ k) = slice (off - lenN l) len k.
Proof.
  unfold slice. intros H. rewrite lenN_app.
  replace (off + len <=? lenN l + lenN k) with (off - lenN l + len <=? lenN k)
    by (destruct (N.leb_spec (off - lenN l + len) (lenN k));
        destruct (N.leb_spec (off + len) (lenN l + lenN k)); lia).
  case_match; [|done]. rewrite drop_app_ge by (unfold lenN in *; lia).
  do 3 f_equal. unfold lenN in *. lia.
Qed.

Lemma slice_app_l {A} (l k : list A) off len :
  off + len <= lenN l -> slice off len (l ++ k) = slice off len l.
Proof.
  unfold slice. intros H. rewrite lenN_app.
  replace (off + len <=? lenN l + lenN k) with true by (symmetry; apply N.leb_le; lia).
  replace (off + len <=? lenN l) with true by (symmetry; apply N.leb_le; lia).
  rewrite drop_app_le by (unfold lenN in *; lia).
  rewrite take_app_le; [done|]. rewrite length_drop. unfold lenN in *. lia.
Qed.

Lemma slice_all {A} (l : list A) n : n = lenN l -> slice 0 n l = Some l.
Proof.
  intros ->. unfold slice. simpl. rewrite N.leb_refl. f_equal. rewrite drop_0.
  apply take_ge. unfold lenN. lia.
Qed.

Lemma slice_head {A} (l k : list A) n : n = lenN l -> slice 0 n (l ++ k) = Some l.
Proof. intros ->. rewrite slice_app_l by lia. by apply slice_all. Qed.

Lemma put_slice_app {A} (l m k : list A) off src :
  off = lenN l -> lenN src = lenN m -> put_slice off src (l ++ m ++ k) = Some (l ++ src ++ k).
Proof.
  intros -> Hm. unfold put_slice. rewrite !lenN_app.
  replace (_ <=? _) with true by (symmetry; apply N.leb_le; lia). f_equal.
  unfold lenN in *. rewrite take_app_length' by lia. do 2 f_equal.
  rewrite (assoc_L (++)), drop_app_length'; [done|]. rewrite length_app. lia.
Qed.

Lemma put_slice_length {A} off (src l l' : list A) :
  put_slice off src l = Some l' -> length l' = length l.
Proof.
  unfold put_slice. case_match eqn:E; [|done]. intros [= <-]. apply N.leb_le in E.
  unfold lenN in *. rewrite !length_app, length_take, length_drop. lia.
Qed.

Lemma elem_of_upto i n : i ∈ upto n ↔ i < n.
Proof.
  unfold upto. rewrite list_elem_of_fmap. split.
  - intros (k & -> & Hk%elem_of_seq). lia.
  - intros Hi. exists (N.to_nat i). rewrite elem_of_seq. lia.
Qed.

Lemma upto_succ n : upto (N.succ n) = upto n ++ [n].
Proof.
  unfold upto. rewrite N2Nat.inj_succ, seq_S, fmap_app. simpl. by rewrite N2Nat.id.
Qed.

Lemma div_ceil_le a b c : b <> 0 -> a <= c * b -> div_ceil a b <= c.
Proof. intros Hb H. unfold div_ceil. apply N.lt_succ_r, N.Div0.div_lt_upper_bound. lia. Qed.
Lemma div_ceil_mul a b : b <> 0 -> a <= div_ceil a b * b.
Proof.
  intros Hb. unfold div_ceil. pose proof (N.div_mod (a + b - 1) b Hb).
  pose proof (N.mod_lt (a + b - 1) b Hb). lia.
Qed.

Lemma lt_div_iff a b c : c <> 0 -> a < b / c <-> a * c + c <= b.
Proof.
  intros Hc. pose proof (N.div_mod b c Hc) as H1. pose proof (N.mod_lt b c Hc) as H2.
  generalize dependent (b mod c). generalize (b / c). intros q r H1 H2. nia.
Qed.

(** ** Rounding up *)
Definition redondo (m a : N) : N := div_ceil a m * m.
Section Redondo.
Context (m : N) (Hm : 0 < m).
#[local] Set Default Proof Using "Hm".
Lemma redondo_ge a : a <= redondo m a.
Proof. apply div_ceil_mul. lia. Qed.
Lemma redondo_mod a : redondo m a mod m = 0.
Proof. apply N.Div0.mod_mul. Qed.
Lemma redondo_min a b : a <= b -> b mod m = 0 -> redondo m a <= b.
Proof.
  intros Hl Hb. pose proof (N.div_mod b m ltac:(lia)) as Hd. rewrite Hb, N.add_0_r, N.mul_comm in Hd. unfold redondo.
  etrans; [apply N.mul_le_mono_r, (div_ceil_le a m (b / m))|]; lia.
Qed.
Lemma siguiente_multiplo a : a mod m ≠ 0 -> (a + (m - a mod m)) mod m = 0.
Proof.
  intros Ha. pose proof (N.mod_lt a m ltac:(lia)) as Hr. pose proof (N.div_mod a m ltac:(lia)) as Hd. revert Hd Hr Ha.
  generalize (a / m) (a mod m). intros q r -> Hr Ha. replace (m * q + r + (m - r)) with ((q + 1) * m) by lia. apply N.Div0.mod_mul.
Qed.
Lemma redondo_lt a : redondo m a < a + m.
Proof.
  destruct (N.eq_dec (a mod m) 0) as [Ha|Ha]; [pose proof (redondo_min a a ltac:(lia) Ha); lia|].
  pose proof (redondo_min a _ (N.le_add_r _ _) (siguiente_multiplo a Ha)) as Hr. pose proof (N.mod_lt a m ltac:(lia)) as Hlt.
  assert (0 < a mod m) as Hp by (by apply N.neq_0_lt_0). revert Hr Hlt Hp. generalize (a mod m). lia.
Qed.
Lemma redondo_id a : a mod m = 0 -> redondo m a = a.
Proof. intros Ha. apply N.le_antisymm; [by apply redondo_min|apply redondo_ge]. Qed.
Lemma redondo_no a : a mod m ≠ 0 -> redondo m a = a + (m - a mod m).
Proof.
  intros Ha. pose proof (N.mod_lt a m ltac:(lia)) as Hlt. assert (0 < a mod m) as Hp by (by apply N.neq_0_lt_0).
  apply N.le_antisymm; [apply redondo_min; [apply N.le_add_r|by apply siguiente_multiplo]|].
  pose proof (redondo_ge a) as Hge. pose proof (redondo_mod a) as Hr. pose proof (N.div_mod (redondo m a) m ltac:(lia)) as Hq. rewrite Hr, N.add_0_r in Hq.
  pose proof (N.div_mod a m ltac:(lia)) as Hd. revert Hge Hq Hd Hlt Hp.
  generalize (redondo m a) (redondo m a / m) (a / m) (a mod m). clear. intros x y q r Hge Hq Hd Hlt Hp.
  assert (m * q < m * y) as Hmul by lia. apply N.mul_lt_mono_pos_l in Hmul; [|lia]. assert (m * (q + 1) <= m * y) by (apply N.mul_le_mono_l; lia). lia.
Qed.
Lemma next_multiple_run {S E} a (s : S) : a + m <= U64 -> next_multiple_of (E := E) a m s = (Ok (redondo m a), s).
Proof.
  intros Hl. unfold next_multiple_of. destruct (N.eqb_spec m 0); [lia|]. destruct (N.eqb_spec (a mod m) 0) as [Ha|Ha]; [by rewrite redondo_id|].
  pose proof (N.mod_lt a m ltac:(lia)) as Hlt. assert (0 < a mod m) as Hp by (by apply N.neq_0_lt_0).
  rewrite (redondo_no a Ha). apply add64_run. revert Hlt Hp. generalize (a mod m). lia.
Qed.
End Redondo.
#[export] Hint Resolve redondo_ge redondo_mod : core.

Arguments le_bytes : simpl never.
Arguments le_val : simpl never.
Arguments zeros : simpl never.
Arguments upto : simpl never.
Arguments slice : simpl never.
Arguments put_slice : simpl never.

(** ** Runs that may stop with an error but never panic *)
Section Acaba.
Context {X E : Type}.
Definition acaba {A} (m : M X E A) (x : X) (Φ : A -> X -> Prop) (Ψ : X -> Prop) : Prop :=
  match m x with (Ok a, y) => Φ a y | (Err _, y) => Ψ y | _ => False end.

Lemma acaba_bind {A B} (m : M X E A) (f : A -> M X E B) x Φ Ψ :
  acaba m x (fun a y => acaba (f a) y Φ Ψ) Ψ -> acaba (m ≫= f) x Φ Ψ.
Proof. unfold acaba. rewrite bind_eq. by destruct (m x) as [[a|e| |] y]. Qed.
Lemma acaba_mono {A} (m : M X E A) x (Φ Φ' : A -> X -> Prop) (Ψ Ψ' : X -> Prop) :
  acaba m x Φ Ψ -> (forall a y, Φ a y -> Φ' a y) -> (forall y, Ψ y -> Ψ' y) -> acaba m x Φ' Ψ'.
Proof. unfold acaba. destruct (m x) as [[a|e| |] y]; auto. Qed.
Lemma acaba_add64 a b x (Φ : N -> X -> Prop) Ψ : a + b < U64 -> Φ (a + b) x -> acaba (add64 a b) x Φ Ψ.
Proof. intros Hl H. unfold acaba, add64. destruct (N.ltb_spec (a + b) U64); [done|lia]. Qed.
Lemma acaba_sub64 a b x (Φ : N -> X -> Prop) Ψ : b <= a -> Φ (a - b) x -> acaba (sub64 a b) x Φ Ψ.
Proof. intros Hl H. unfold acaba, sub64. destruct (N.leb_spec b a); [done|lia]. Qed.
End Acaba.

(** ** Slices of slices *)
Lemma slice_length {A} off len (l x : list A) : slice off len l = Some x -> lenN x = len ∧ off + len <= lenN l.
Proof.
  unfold slice. case_match eqn:E; [|done]. apply N.leb_le in E. intros [= <-]. split; [|done].
  unfold lenN in *. rewrite length_take, length_drop. lia.
Qed.
Lemma slice_nil {A} off (l : list A) : off <= lenN l -> slice off 0 l = Some [].
Proof. unfold slice. intros Hl. destruct (N.leb_spec (off + 0) (lenN l)); [done|lia]. Qed.
Lemma slice_join {A} a n m (l x y : list A) : slice a n l = Some x -> slice (a + n) m l = Some y -> slice a (n + m) l = Some (x ++ y).
Proof.
  intros Hx Hy. destruct (slice_length _ _ _ _ Hx) as [Lx _], (slice_length _ _ _ _ Hy) as [Ly Hl].
  unfold slice in *. case_match; [|done]. case_match; [|done]. injection Hx as <-. injection Hy as <-.
  destruct (N.leb_spec (a + (n + m)) (lenN l)); [|lia]. f_equal.
  rewrite N2Nat.inj_add, <- (take_take_drop _ (N.to_nat n) (N.to_nat m)). f_equal. rewrite drop_drop. do 2 f_equal. lia.
Qed.
Lemma slice_slice {A} s n o m (l x y : list A) : slice s n l = Some x -> slice o m x = Some y -> slice (s + o) m l = Some y.
Proof.
  intros Hx Hy. destruct (slice_length _ _ _ _ Hx) as [Lx Hl], (slice_length _ _ _ _ Hy) as [Ly Ho].
  unfold slice in *. case_match; [|done]. case_match; [|done]. injection Hx as <-. injection Hy as <-.
  destruct (N.leb_spec (s + o + m) (lenN l)); [|lia]. f_equal.
  rewrite skipn_firstn_comm, firstn_firstn, drop_drop. f_equal; [lia|f_equal; lia].
Qed.
