(* ===== verification/Texto.v ===== *)
(** * Text: what the sources use of [str] and of number formatting

    The sources keep text in [str] and [String]; the model keeps the bytes,
    UTF-8. First how the standard library of Rust reads them: [utf8_step] takes one
    scalar value, or the maximal invalid prefix, off the front of a byte string
    ([core::str::lossy]); validity and [String::from_utf8_lossy] follow. The
    separators the sources split at are ASCII, so splitting bytes is splitting
    characters; [trim] strips the characters with the Unicode property
    White_Space, byte sequence by byte sequence. Decimal and hexadecimal numbers
    are printed and read back. *)
From S2P Require Import Prelude.
Local Open Scope N_scope.

Definition in_byte (lo hi : N) (b : byte) : bool := (lo <=? Byte.to_N b) && (Byte.to_N b <=? hi).
Definition cont : byte -> bool := in_byte 0x80 0xBF.

(** What follows the first byte of a character of [len] bytes, its second
    byte within [lo..hi]: [inl n], a character of [n] bytes; [inr n], an
    invalid sequence of [n] bytes. *)
Definition utf8_tail (lo hi : N) (len : nat) (bs : list byte) : nat + nat :=
  match bs with
  | [] => inr 1%nat
  | b1 :: bs =>
      if negb (in_byte lo hi b1) then inr 1%nat
      else if (len =? 2)%nat then inl 2%nat
      else
        match bs with
        | [] => inr 2%nat
        | b2 :: bs =>
            if negb (cont b2) then inr 2%nat
            else if (len =? 3)%nat then inl 3%nat
            else
              match bs with
              | [] => inr 3%nat
              | b3 :: _ => if cont b3 then inl 4%nat else inr 3%nat
              end
        end
  end.

Definition utf8_step (bs : list byte) : option (nat + nat) :=
  match bs with
  | [] => None
  | b :: bs =>
      let n := Byte.to_N b in
      Some (if n <? 0x80 then inl 1%nat
            else if n <? 0xC2 then inr 1%nat
            else if n <? 0xE0 then utf8_tail 0x80 0xBF 2 bs
            else if n =? 0xE0 then utf8_tail 0xA0 0xBF 3 bs
            else if n =? 0xED then utf8_tail 0x80 0x9F 3 bs
            else if n <? 0xF0 then utf8_tail 0x80 0xBF 3 bs
            else if n =? 0xF0 then utf8_tail 0x90 0xBF 4 bs
            else if n <? 0xF4 then utf8_tail 0x80 0xBF 4 bs
            else if n =? 0xF4 then utf8_tail 0x80 0x8F 4 bs
            else inr 1%nat)
  end.

(** The characters, left to right; every one takes at least a byte, so the
    length of the string is fuel enough. *)
Fixpoint utf8_parts (fuel : nat) (bs : list byte) : list (list byte + list byte) :=
  match fuel with
  | O => []
  | S fuel =>
      match utf8_step bs with
      | None => []
      | Some (inl n) => inl (take n bs) :: utf8_parts fuel (drop n bs)
      | Some (inr n) => inr (take n bs) :: utf8_parts fuel (drop n bs)
      end
  end.

Definition is_char (p : list byte + list byte) : bool := match p with inl _ => true | inr _ => false end.
Definition raw (p : list byte + list byte) : list byte := match p with inl c | inr c => c end.

(** [core::str::from_utf8(bs).is_ok()] *)
Definition utf8_valid (bs : list byte) : bool := forallb is_char (utf8_parts (length bs) bs).

(** U+FFFD *)
Definition REPLACEMENT : list byte := [xef; xbf; xbd].

(** [String::from_utf8_lossy] *)
Definition from_utf8_lossy (bs : list byte) : list byte :=
  concat (map (fun p => match p with inl c => c | inr _ => REPLACEMENT end) (utf8_parts (length bs) bs)).

Lemma utf8_tail_bounds lo hi len bs :
  match utf8_tail lo hi len bs with inl n | inr n => (1 <= n <= S (length bs))%nat end.
Proof. unfold utf8_tail. repeat case_match; simplify_eq; simpl; lia. Qed.

Lemma utf8_step_bounds bs r : utf8_step bs = Some r ->
  match r with inl n | inr n => (1 <= n <= length bs)%nat end.
Proof.
  destruct bs as [|b bs]; [done|]. unfold utf8_step. intros [= <-].
  repeat match goal with
         | |- context [if ?c then _ else _] => destruct c; [first [apply utf8_tail_bounds|simpl; lia]|]
         end. simpl; lia.
Qed.

(** The parts are the whole string. *)
Lemma utf8_parts_concat fuel bs : (length bs <= fuel)%nat -> concat (map raw (utf8_parts fuel bs)) = bs.
Proof.
  revert bs. induction fuel as [|fuel IH]; intros bs Hl.
  - destruct bs; simpl in *; [done|lia].
  - simpl. destruct (utf8_step bs) as [r|] eqn:E.
    + pose proof (utf8_step_bounds bs r E) as Hb. destruct r as [n|n]; simpl;
        (rewrite IH by (rewrite length_drop; lia)); apply take_drop.
    + by destruct bs.
Qed.

(** Text that is already valid is not changed. *)
Lemma from_utf8_lossy_valid bs : utf8_valid bs = true -> from_utf8_lossy bs = bs.
Proof.
  unfold utf8_valid, from_utf8_lossy. intros Hv.
  rewrite <- (utf8_parts_concat (length bs) bs) at 3 by done. f_equal.
  induction (utf8_parts (length bs) bs) as [|[c|c] l IH]; simpl in *; [done| |done]. by rewrite IH.
Qed.

(** ASCII is valid. *)
Lemma utf8_valid_ascii bs : Forall (fun b => Byte.to_N b < 0x80) bs -> utf8_valid bs = true.
Proof.
  unfold utf8_valid. induction 1 as [|b bs Hb Hbs IH]; [done|]. simpl.
  by rewrite (proj2 (N.ltb_lt _ _) Hb).
Qed.

(** ** Text put together from valid pieces is valid *)
Lemma utf8_tail_app lo hi len bs k n : utf8_tail lo hi len bs = inl n -> utf8_tail lo hi len (bs ++ k) = inl n.
Proof. destruct bs as [|a [|b [|c bs]]]; cbn; repeat case_match; done. Qed.

Lemma utf8_step_app bs k n : utf8_step bs = Some (inl n) -> utf8_step (bs ++ k) = Some (inl n).
Proof.
  destruct bs as [|b bs]; [done|]. unfold utf8_step. cbn [app]. intros [= Hn]. f_equal. revert Hn.
  repeat match goal with
         | |- context [if ?c then _ else _] => destruct c; [first [done|apply utf8_tail_app]|]
         end. done.
Qed.

Lemma utf8_parts_fuel n : forall m bs, (length bs <= n)%nat -> (length bs <= m)%nat -> utf8_parts n bs = utf8_parts m bs.
Proof.
  induction n as [|n IH]; intros m bs Hn Hm.
  - destruct bs; [|cbn in Hn; lia]. by destruct m.
  - destruct m as [|m]; [destruct bs; [done|cbn in Hm; lia]|]. cbn [utf8_parts].
    destruct (utf8_step bs) as [r|] eqn:E; [|done]. pose proof (utf8_step_bounds bs r E) as Hb.
    destruct r as [k|k]; f_equal; apply IH; rewrite length_drop; lia.
Qed.

Lemma utf8_valid_app a k : utf8_valid a = true -> utf8_valid k = true -> utf8_valid (a ++ k) = true.
Proof.
  intros Ha Hk. remember (length a) as n eqn:Hn. assert (length a <= n)%nat as Hle by lia. clear Hn. revert a Ha Hle.
  induction n as [|n IH]; intros a Ha Hle; [by destruct a; [|cbn in Hle; lia]|].
  destruct (utf8_step a) as [r|] eqn:E; [|by destruct a].
  pose proof (utf8_step_bounds a r E) as Hb. unfold utf8_valid in Ha.
  destruct (length a) as [|la] eqn:El; [destruct r; lia|]. cbn [utf8_parts] in Ha. rewrite E in Ha.
  destruct r as [c|c]; [|done]. cbn [forallb is_char andb] in Ha. unfold utf8_valid. rewrite length_app, El. cbn [Nat.add utf8_parts].
  rewrite (utf8_step_app _ _ _ E). cbn [forallb is_char andb]. rewrite drop_app_le by lia.
  rewrite (utf8_parts_fuel _ (length (drop c a ++ k))); [|rewrite length_app, length_drop; lia|lia].
  apply (IH (drop c a)); [|rewrite length_drop; lia]. unfold utf8_valid.
  by rewrite (utf8_parts_fuel _ la); [|lia|rewrite length_drop; lia].
Qed.

Lemma utf8_valid_concat ls : Forall (fun l => utf8_valid l = true) ls -> utf8_valid (concat ls) = true.
Proof. induction 1 as [|l ls Hl _ IH]; [done|]. cbn. by apply utf8_valid_app. Qed.

(** ** Text *)
#[local] Set Default Proof Using "Type".

Abbreviation str := (list byte).
Definition LF : byte := x0a.
Definition CR : byte := x0d.
Definition SP : byte := x20.

(** ** Comparing *)
Fixpoint bytes_cmp (a b : list byte) : comparison :=
  match a, b with
  | [], [] => Eq
  | [], _ => Lt
  | _, [] => Gt
  | x :: a, y :: b => match Byte.to_N x ?= Byte.to_N y with Eq => bytes_cmp a b | c => c end
  end.

Definition starts_with (p l : list byte) : bool := bool_decide (take (length p) l = p).
Definition ends_with (p l : list byte) : bool := bool_decide (drop (length l - length p) l = p).

Definition ascii_lower (b : byte) : byte := if in_byte 65 90 b then byte_of (Byte.to_N b + 32) else b.
Definition eq_ignore_ascii_case (a b : str) : bool := bool_decide (ascii_lower <$> a = ascii_lower <$> b).

(** ** Splitting *)
Fixpoint chunks (fuel : nat) (n : nat) (l : list byte) : list (list byte) :=
  match fuel with
  | O => []
  | S fuel => match l with [] => [] | _ => take n l :: chunks fuel n (drop n l) end
  end.

Fixpoint split_byte (sep : byte) (l : list byte) : list (list byte) :=
  match l with
  | [] => [[]]
  | b :: l =>
      let parts := split_byte sep l in
      if decide (b = sep) then [] :: parts
      else match parts with [] => [[b]] | p :: ps => (b :: p) :: ps end
  end.

Fixpoint split_inclusive (sep : byte) (l : str) : list str :=
  match l with
  | [] => []
  | b :: l =>
      if decide (b = sep) then [b] :: split_inclusive sep l
      else match split_inclusive sep l with [] => [[b]] | p :: ps => (b :: p) :: ps end
  end.

Definition strip_prefix (p l : str) : option str :=
  if starts_with p l then Some (drop (length p) l) else None.
Definition strip_suffix (p l : str) : option str :=
  if ends_with p l then Some (take (length l - length p) l) else None.

(** [lines]: the line terminator is ["\n"] or ["\r\n"]; a last line without
    one is kept as it is. *)
Definition strip_eol (l : str) : str :=
  match strip_suffix [LF] l with
  | None => l
  | Some l => match strip_suffix [CR] l with None => l | Some l => l end
  end.
Definition lines (l : str) : list str := strip_eol <$> split_inclusive LF l.

Fixpoint split_once (sep : byte) (l : str) : option (str * str) :=
  match l with
  | [] => None
  | b :: l => if decide (b = sep) then Some ([], l)
              else match split_once sep l with Some (p, q) => Some (b :: p, q) | None => None end
  end.

(** [splitn(n, sep)] *)
Fixpoint splitn (n : nat) (sep : byte) (l : str) : list str :=
  match n with
  | O => []
  | S O => [l]
  | S n => match split_once sep l with Some (p, q) => p :: splitn n sep q | None => [l] end
  end.

(** ** White space *)

(** The characters of one, two and three bytes with White_Space. *)
Definition ws1 (a : byte) : bool := in_byte 9 13 a || Byte.eqb a SP.
Definition ws2 (a b : byte) : bool := Byte.eqb a xc2 && (Byte.eqb b x85 || Byte.eqb b xa0).
Definition ws3 (a b c : byte) : bool :=
  Byte.eqb a xe1 && Byte.eqb b x9a && Byte.eqb c x80
  || Byte.eqb a xe2 && Byte.eqb b x80 && (in_byte 0x80 0x8a c || Byte.eqb c xa8 || Byte.eqb c xa9 || Byte.eqb c xaf)
  || Byte.eqb a xe2 && Byte.eqb b x81 && Byte.eqb c x9f
  || Byte.eqb a xe3 && Byte.eqb b x80 && Byte.eqb c x80.

(** The rest of the text after one of them at its front. *)
Definition ws_head (l : str) : option str :=
  match l with
  | [] => None
  | a :: r =>
      if ws1 a then Some r
      else match r with
           | [] => None
           | b :: r =>
               if ws2 a b then Some r
               else match r with [] => None | c :: r => if ws3 a b c then Some r else None end
           end
  end.

(** The same at the back; the text comes reversed. *)
Definition ws_last (l : str) : option str :=
  match l with
  | [] => None
  | c :: r =>
      if ws1 c then Some r
      else match r with
           | [] => None
           | b :: r =>
               if ws2 b c then Some r
               else match r with [] => None | a :: r => if ws3 a b c then Some r else None end
           end
  end.

Fixpoint strip_while (fuel : nat) (f : str -> option str) (l : str) : str :=
  match fuel with
  | O => l
  | S fuel => match f l with Some r => strip_while fuel f r | None => l end
  end.

Definition trim_start (l : str) : str := strip_while (length l) ws_head l.
Definition trim_end (l : str) : str := reverse (strip_while (length l) ws_last (reverse l)).
Definition trim (l : str) : str := trim_end (trim_start l).
Definition trim_start_matches (c : byte) (l : str) : str :=
  strip_while (length l) (fun l => match l with b :: r => if decide (b = c) then Some r else None | [] => None end) l.

(** ** Numbers *)
Definition digit (b : byte) : option N := if in_byte 48 57 b then Some (Byte.to_N b - 48) else None.
Definition is_ascii_digit (b : byte) : bool := in_byte 48 57 b.

(** [str::parse] to an unsigned integer below [bound]: an optional ["+"],
    at least one digit, no overflow. *)
Fixpoint parse_digits (bound acc : N) (l : str) : option N :=
  match l with
  | [] => Some acc
  | b :: l => d ← digit b; let v := 10 * acc + d in if v <? bound then parse_digits bound v l else None
  end.
Definition parse_uint (bound : N) (l : str) : option N :=
  let l := match l with b :: (_ :: _) as r => if decide (b = byte_of 43) then tail l else l | _ => l end in
  match l with [] => None | _ => parse_digits bound 0 l end.
Definition U16 : N := 2 ^ 16.
Definition U32 : N := 2 ^ 32.

Definition digit_of (d : N) : byte := byte_of (48 + d).
Fixpoint dec_loop (fuel : nat) (n : N) (acc : str) : str :=
  match fuel with
  | O => acc
  | S fuel =>
      let acc := digit_of (n mod 10) :: acc in
      if n / 10 =? 0 then acc else dec_loop fuel (n / 10) acc
  end.
(** ["{}"] of an unsigned integer: the number of binary digits bounds the
    number of decimal ones. *)
Definition dec (n : N) : str := dec_loop (S (N.size_nat n)) n [].


(** ** Splitting text that was put together *)
Lemma split_inclusive_cons sep (l k : str) : sep ∉ l ->
  split_inclusive sep (l ++ sep :: k) = (l ++ [sep]) :: split_inclusive sep k.
Proof.
  induction l as [|b l IH]; cbn [app split_inclusive]; intros Hl; [by rewrite decide_True|].
  rewrite decide_False by set_solver. by rewrite IH by set_solver.
Qed.

Lemma split_inclusive_concat sep l : concat (split_inclusive sep l) = l.
Proof.
  induction l as [|b l IH]; [done|]. cbn [split_inclusive]. destruct (decide (b = sep)) as [->|].
  - cbn. by rewrite IH.
  - destruct (split_inclusive sep l) as [|p ps]; cbn in *; by rewrite IH.
Qed.

Lemma ends_with_app (l p : str) : ends_with p (l ++ p) = true.
Proof.
  unfold ends_with. rewrite length_app. replace (length l + length p - length p)%nat with (length l) by lia.
  rewrite drop_app_length. by apply bool_decide_eq_true.
Qed.

Lemma strip_suffix_app (l p : str) : strip_suffix p (l ++ p) = Some l.
Proof.
  unfold strip_suffix. rewrite ends_with_app, length_app. replace (length l + length p - length p)%nat with (length l) by lia.
  by rewrite take_app_length.
Qed.

Lemma ends_with_last (l : str) c : last l ≠ Some c -> ends_with [c] l = false.
Proof.
  intros Hl. apply bool_decide_eq_false. intros Hd. apply Hl.
  rewrite <- (take_drop (length l - length [c]) l), Hd. apply last_snoc.
Qed.

Lemma strip_eol_line (l : str) : last l ≠ Some CR -> strip_eol (l ++ [LF]) = l.
Proof.
  intros Hl. unfold strip_eol. rewrite strip_suffix_app. unfold strip_suffix. by rewrite ends_with_last.
Qed.

Lemma starts_with_app (p l : str) : starts_with p (p ++ l) = true.
Proof. unfold starts_with. rewrite take_app_length. by apply bool_decide_eq_true. Qed.

Lemma strip_prefix_app (p l : str) : strip_prefix p (p ++ l) = Some l.
Proof. unfold strip_prefix. by rewrite starts_with_app, drop_app_length. Qed.

Lemma strip_prefix_Some p l r : strip_prefix p l = Some r -> l = p ++ r.
Proof.
  unfold strip_prefix, starts_with. case_bool_decide as H; [|done]. intros [= <-]. rewrite <- H at 1. by rewrite take_drop.
Qed.

(** Two prefixes that differ at a byte they both have. *)
Fixpoint clash (p q : str) : bool :=
  match p, q with
  | a :: p, b :: q => negb (Byte.eqb a b) || clash p q
  | _, _ => false
  end.

Lemma starts_with_clash p q (l : str) : clash p q = true -> starts_with p (q ++ l) = false.
Proof.
  intros Hc. apply bool_decide_eq_false. revert q Hc. induction p as [|a p IH]; intros [|b q] Hc; try done.
  cbn in *. intros [= -> Hp]. apply (IH q); [|done]. by rewrite (Byte.byte_dec_lb (eq_refl a)) in Hc.
Qed.

Lemma strip_prefix_clash p q (l : str) : clash p q = true -> strip_prefix p (q ++ l) = None.
Proof. intros H. unfold strip_prefix. by rewrite starts_with_clash. Qed.

Lemma split_once_app sep (p q : str) : sep ∉ p -> split_once sep (p ++ sep :: q) = Some (p, q).
Proof.
  induction p as [|b p IH]; cbn [app split_once]; intros Hp; [by rewrite decide_True|].
  rewrite decide_False by set_solver. by rewrite IH by set_solver.
Qed.

Lemma splitn_app n sep (p q : str) : sep ∉ p -> splitn (S (S n)) sep (p ++ sep :: q) = p :: splitn (S n) sep q.
Proof. intros Hp. cbn [splitn]. by rewrite split_once_app. Qed.

(** ** Text that [trim] leaves alone *)
Definition recortada (l : str) : Prop := ws_head l = None ∧ ws_last (reverse l) = None.
Definition linea (l : str) : Prop := (LF ∉ l) ∧ recortada l.
#[export] Instance recortada_dec l : Decision (recortada l).
Proof. unfold recortada. apply _. Defined.
#[export] Instance linea_dec l : Decision (linea l).
Proof. unfold linea. apply _. Defined.

(** A printable ASCII character other than the space. *)
Definition visible (b : byte) : bool := in_byte 33 126 b.

Lemma strip_while_None n f l : f l = None -> strip_while n f l = l.
Proof. destruct n; cbn [strip_while]; [done|]. by intros ->. Qed.

Lemma trim_recortada l : recortada l -> trim l = l.
Proof.
  intros [Hh Hl]. unfold trim, trim_start, trim_end. rewrite (strip_while_None _ _ l) by done.
  rewrite strip_while_None by done. apply reverse_involutive.
Qed.

Lemma visible_ws1 b : visible b = true -> ws1 b = false.
Proof. by destruct b. Qed.
Lemma visible_ws2 a b : visible a = true ∨ visible b = true -> ws2 a b = false.
Proof. intros [H|H]; [by destruct a|]. unfold ws2. destruct (Byte.eqb a xc2); [|done]. by destruct b. Qed.
Lemma visible_ws3 a b c : visible a = true ∨ visible b = true ∨ visible c = true -> ws3 a b c = false.
Proof.
  unfold ws3. intros [H|[H|H]].
  - by destruct a.
  - assert (Byte.eqb b x9a = false ∧ Byte.eqb b x80 = false ∧ Byte.eqb b x81 = false) as (-> & -> & ->) by by destruct b.
    by rewrite !andb_false_r.
  - assert (Byte.eqb c x80 = false ∧ in_byte 128 138 c = false ∧ Byte.eqb c xa8 = false ∧ Byte.eqb c xa9 = false ∧
      Byte.eqb c xaf = false ∧ Byte.eqb c x9f = false) as (-> & -> & -> & -> & -> & ->) by by destruct c.
    by rewrite !andb_false_r.
Qed.

Lemma ws_head_visible b l : visible b = true -> ws_head (b :: l) = None.
Proof.
  intros Hb. unfold ws_head. rewrite visible_ws1 by done. destruct l as [|c l]; [done|].
  rewrite visible_ws2 by auto. destruct l as [|d l]; [done|]. by rewrite visible_ws3 by auto.
Qed.

Lemma ws_last_visible b l : visible b = true -> ws_last (b :: l) = None.
Proof.
  intros Hb. unfold ws_last. rewrite visible_ws1 by done. destruct l as [|c l]; [done|].
  rewrite visible_ws2 by auto. destruct l as [|d l]; [done|]. by rewrite visible_ws3 by auto.
Qed.

Lemma ws_last_app l b k : ws_last l = None -> visible b = true -> ws_last (l ++ b :: k) = None.
Proof.
  intros Hl Hb. destruct l as [|c l]; [by apply ws_last_visible|]. unfold ws_last in *. cbn [app].
  destruct (ws1 c); [done|]. destruct l as [|d l]; cbn [app].
  - rewrite visible_ws2 by auto. destruct k; [done|]. by rewrite visible_ws3 by auto.
  - destruct (ws2 d c); [done|]. destruct l as [|e l]; cbn [app]; [by rewrite visible_ws3 by auto|by destruct (ws3 e d c)].
Qed.

(** A field [key=value]: the key starts with and is closed by a visible
    character. *)
Lemma recortada_campo b p c v : visible b = true -> visible c = true -> ws_last (reverse v) = None ->
  recortada ((b :: p ++ [c]) ++ v).
Proof.
  intros Hb Hc Hv. split; [by apply ws_head_visible|].
  rewrite reverse_app. replace (reverse (b :: p ++ [c])) with (c :: reverse (b :: p)).
  - by apply ws_last_app.
  - change (b :: p ++ [c]) with ((b :: p) ++ [c]). by rewrite reverse_app.
Qed.

Lemma recortada_last l : recortada l -> last l ≠ Some CR.
Proof.
  intros [_ Hl] HC. apply last_Some in HC as [k ->]. rewrite reverse_app in Hl. by cbn in Hl.
Qed.

Lemma lines_cons l k : linea l -> lines (l ++ LF :: k) = l :: lines k.
Proof.
  intros [Hl Hr]. unfold lines. rewrite split_inclusive_cons by done. cbn [fmap list_fmap].
  by rewrite strip_eol_line by by apply recortada_last.
Qed.

(** ** Numbers that were printed *)
Lemma digit_of_spec d : d < 10 -> digit (digit_of d) = Some d ∧ visible (digit_of d) = true.
Proof.
  intros Hd. assert (d = 0 ∨ d = 1 ∨ d = 2 ∨ d = 3 ∨ d = 4 ∨ d = 5 ∨ d = 6 ∨ d = 7 ∨ d = 8 ∨ d = 9) as H by lia.
  by repeat destruct H as [->|H]; [..|subst].
Qed.

Definition es_numero (l : str) : Prop := Forall (fun b => is_ascii_digit b = true) l.
Lemma is_ascii_digit_of d : d < 10 -> is_ascii_digit (digit_of d) = true.
Proof.
  intros Hd. destruct (digit_of_spec d Hd) as [H _]. unfold digit in H. unfold is_ascii_digit. by destruct (in_byte 48 57 _).
Qed.

Lemma dec_loop_app fuel : forall n acc, dec_loop fuel n acc = dec_loop fuel n [] ++ acc.
Proof.
  induction fuel as [|fuel IH]; intros n acc; [done|]. cbn [dec_loop]. destruct (n / 10 =? 0); [done|].
  rewrite IH, (IH _ [_]), <- app_assoc. done.
Qed.

Lemma dec_loop_digits fuel n : es_numero (dec_loop fuel n []).
Proof.
  revert n. induction fuel as [|fuel IH]; intros n; [constructor|]. cbn [dec_loop].
  assert (is_ascii_digit (digit_of (n mod 10)) = true) by by apply is_ascii_digit_of, N.mod_lt.
  destruct (n / 10 =? 0); [by repeat constructor|]. rewrite dec_loop_app. apply Forall_app. split; [apply IH|by repeat constructor].
Qed.

Lemma parse_digits_app bound l : forall acc k v, parse_digits bound acc l = Some v ->
  parse_digits bound acc (l ++ k) = parse_digits bound v k.
Proof.
  induction l as [|b l IH]; intros acc k v; cbn [parse_digits app]; [by intros [= ->]|].
  destruct (digit b) as [d|]; cbn; [|done]. case_match; [|done]. apply IH.
Qed.

Lemma parse_dec_loop bound fuel : forall n, n < 2 ^ N.of_nat fuel -> n < bound -> (0 < fuel)%nat ->
  parse_digits bound 0 (dec_loop fuel n []) = Some n.
Proof.
  induction fuel as [|fuel IH]; intros n Hn Hb Hf; [lia|]. cbn [dec_loop].
  pose proof (N.mod_lt n 10 ltac:(done)) as Hm. destruct (digit_of_spec _ Hm) as [Hd _].
  pose proof (N.div_mod n 10 ltac:(done)) as Hdm. destruct (N.eqb_spec (n / 10) 0) as [Hz|Hz].
  - cbn [parse_digits]. rewrite Hd. cbn [mbind option_bind]. rewrite (proj2 (N.ltb_lt _ _)) by lia. f_equal. lia.
  - rewrite dec_loop_app. assert (n / 10 <= n / 2) as Hle by (apply N.div_le_compat_l; lia).
    rewrite Nat2N.inj_succ, N.pow_succ_r' in Hn. assert (n / 2 < 2 ^ N.of_nat fuel) as Hlt by by apply N.Div0.div_lt_upper_bound.
    rewrite (parse_digits_app _ _ _ _ (n / 10)).
    + cbn [parse_digits]. rewrite Hd. cbn [mbind option_bind]. rewrite (proj2 (N.ltb_lt _ _)) by lia. f_equal. lia.
    + apply IH; [by eapply N.le_lt_trans|apply (N.le_lt_trans _ n); [by apply N.Div0.div_le_upper_bound; lia|done]|]. destruct fuel; [|lia].
      change (2 ^ N.of_nat 0) with 1 in Hlt. clear -Hz Hle Hlt.
      apply N.lt_1_r in Hlt. rewrite Hlt in Hle. by apply N.le_0_r in Hle.
Qed.

Lemma dec_digits n : es_numero (dec n).
Proof. apply dec_loop_digits. Qed.

Lemma dec_ne n : dec n ≠ [].
Proof.
  unfold dec. cbn [dec_loop]. destruct (_ =? _); [done|]. rewrite dec_loop_app. by destruct (dec_loop _ _ _).
Qed.

Lemma size_nat_bound n : n < 2 ^ N.of_nat (S (N.size_nat n)).
Proof.
  rewrite Nat2N.inj_succ. destruct n as [|p]; [done|]. pose proof (N.size_gt (Npos p)).
  replace (N.of_nat (N.size_nat (Npos p))) with (N.size (Npos p)).
  - rewrite N.pow_succ_r'. lia.
  - cbn. clear. induction p; cbn; lia.
Qed.

Lemma parse_digits_first bound l : es_numero l -> l ≠ [] -> parse_uint bound l = parse_digits bound 0 l.
Proof.
  intros Hl Hne. unfold parse_uint. destruct l as [|b l]; [done|]. destruct l as [|c l]; [done|].
  apply Forall_cons in Hl as [Hb _]. rewrite decide_False; [done|]. intros ->. done.
Qed.

Theorem parse_dec bound n : n < bound -> parse_uint bound (dec n) = Some n.
Proof.
  intros Hn. rewrite parse_digits_first by (apply dec_digits || apply dec_ne).
  apply parse_dec_loop; [apply size_nat_bound|done|lia].
Qed.

Lemma digit_visible b : is_ascii_digit b = true -> visible b = true.
Proof. by destruct b. Qed.

Lemma recortada_visible l : Forall (fun b => visible b = true) l -> recortada l.
Proof.
  intros Hl. split.
  - destruct Hl; [done|by apply ws_head_visible].
  - destruct l as [|b l _] using rev_ind; [done|]. apply Forall_app in Hl as [_ Hb]. rewrite reverse_app.
    apply ws_last_visible. by apply Forall_cons in Hb as [? _].
Qed.

Lemma visible_LF l : Forall (fun b => visible b = true) l -> LF ∉ l.
Proof. intros Hl Hi. rewrite Forall_forall in Hl. by apply Hl in Hi. Qed.

Lemma visible_SP l : Forall (fun b => visible b = true) l -> SP ∉ l.
Proof. intros Hl Hi. rewrite Forall_forall in Hl. by apply Hl in Hi. Qed.

Lemma dec_visible n : Forall (fun b => visible b = true) (dec n).
Proof. eapply Forall_impl; [apply dec_digits|]. intros b. apply digit_visible. Qed.

(** ** Text made of lines *)
Definition unlines (ls : list str) : str := concat ((fun l => l ++ [LF]) <$> ls).

Lemma unlines_cons l ls : unlines (l :: ls) = l ++ LF :: unlines ls.
Proof. unfold unlines. cbn. by rewrite <- app_assoc. Qed.

Lemma unlines_app ls ks : unlines (ls ++ ks) = unlines ls ++ unlines ks.
Proof. unfold unlines. by rewrite fmap_app, concat_app. Qed.

Lemma lines_unlines ls : Forall linea ls -> lines (unlines ls) = ls.
Proof. induction 1 as [|l ls Hl _ IH]; [done|]. by rewrite unlines_cons, lines_cons, IH. Qed.

Lemma split_unlines ls k : Forall (fun l => LF ∉ l) ls ->
  split_inclusive LF (unlines ls ++ k) = ((fun l => l ++ [LF]) <$> ls) ++ split_inclusive LF k.
Proof.
  induction 1 as [|l ls Hl _ IH]; [done|]. rewrite unlines_cons, <- app_assoc. cbn [app fmap list_fmap].
  by rewrite split_inclusive_cons, IH.
Qed.

Lemma unlines_ends ls : ls ≠ [] -> ends_with [LF] (unlines ls) = true.
Proof.
  destruct ls as [|l ls _] using rev_ind; [done|]. intros _. rewrite unlines_app, unlines_cons.
  change (LF :: unlines []) with ([] ++ [LF]). rewrite app_assoc, app_assoc. apply ends_with_app.
Qed.

Definition es_ascii (b : byte) : bool := in_byte 0 127 b.

Lemma ascii_ws2 a b : es_ascii a = true ∨ es_ascii b = true -> ws2 a b = false.
Proof. intros [H|H]; [by destruct a|]. unfold ws2. destruct (Byte.eqb a xc2); [|done]. by destruct b. Qed.
Lemma ascii_ws3 a b c : es_ascii c = true -> ws3 a b c = false.
Proof.
  unfold ws3. intros H.
  assert (Byte.eqb c x80 = false ∧ in_byte 128 138 c = false ∧ Byte.eqb c xa8 = false ∧ Byte.eqb c xa9 = false ∧
    Byte.eqb c xaf = false ∧ Byte.eqb c x9f = false) as (-> & -> & -> & -> & -> & ->) by by destruct c.
  by rewrite !andb_false_r.
Qed.
Lemma ascii_ws3_mid a b c : es_ascii b = true -> ws3 a b c = false.
Proof.
  unfold ws3. intros H.
  assert (Byte.eqb b x9a = false ∧ Byte.eqb b x80 = false ∧ Byte.eqb b x81 = false) as (-> & -> & ->) by by destruct b.
  by rewrite !andb_false_r.
Qed.

Lemma ws_head_app l b k : ws_head l = None -> l ≠ [] -> es_ascii b = true -> ws_head (l ++ b :: k) = None.
Proof.
  intros Hl Hne Hb. destruct l as [|c l]; [done|]. unfold ws_head in *. cbn [app].
  destruct (ws1 c); [done|]. destruct l as [|d l]; cbn [app].
  - rewrite ascii_ws2 by auto. destruct k; [done|]. by rewrite ascii_ws3_mid.
  - destruct (ws2 c d); [done|]. destruct l as [|e l]; cbn [app]; [by rewrite ascii_ws3|by destruct (ws3 c d e)].
Qed.

(** A line with its terminator. *)
Lemma trim_line l : recortada l -> trim (l ++ [LF]) = l.
Proof.
  intros [Hh Hl]. unfold trim, trim_start, trim_end. destruct (decide (l = [])) as [->|Hne]; [done|].
  rewrite (strip_while_None _ ws_head) by by apply ws_head_app.
  rewrite reverse_app, length_app, Nat.add_comm. cbn [reverse rev_append app length Nat.add strip_while].
  change (ws_last (LF :: reverse l)) with (Some (reverse l)). cbn iota. rewrite strip_while_None by done.
  apply reverse_involutive.
Qed.

Fixpoint antes_de (c : byte) (l : list byte) : list byte :=
  match l with
  | [] => []
  | b :: l => if decide (b = c) then [] else b :: antes_de c l
  end.

Lemma antes_de_app c l k : c ∉ l -> antes_de c (l ++ k) = l ++ antes_de c k.
Proof.
  induction l as [|b l IH]; [done|]. intros Hc. cbn [app antes_de]. rewrite decide_False by set_solver.
  by rewrite IH by set_solver.
Qed.

Lemma antes_de_prefix c l : antes_de c l `prefix_of` l.
Proof.
  induction l as [|b l IH]; [done|]. cbn [antes_de]. destruct (decide (b = c)); [apply prefix_nil|by apply prefix_cons].
Qed.

Lemma utf8_visible l : Forall (fun b => visible b = true) l -> utf8_valid l = true.
Proof.
  intros Hl. apply utf8_valid_ascii. eapply Forall_impl; [exact Hl|]. intros b Hb. cbn in Hb.
  unfold visible, in_byte in Hb. apply andb_true_iff in Hb as [_ Hb]. apply N.leb_le in Hb. lia.
Qed.

Lemma visible_NUL l : Forall (fun b => visible b = true) l -> x00 ∉ l.
Proof. intros Hl Hi. rewrite Forall_forall in Hl. by apply Hl in Hi. Qed.

Lemma ws_last_app_ascii l b k : ws_last l = None -> l ≠ [] -> es_ascii b = true -> ws_last (l ++ b :: k) = None.
Proof.
  intros Hl Hne Hb. destruct l as [|c l]; [done|]. unfold ws_last in *. cbn [app].
  destruct (ws1 c); [done|]. destruct l as [|d l]; cbn [app].
  - rewrite ascii_ws2 by auto. destruct k; [done|]. by rewrite ascii_ws3_mid.
  - destruct (ws2 d c); [done|]. destruct l as [|e l]; cbn [app]; [|by destruct (ws3 e d c)].
    assert (ws3 b d c = false) as ->; [|done]. unfold ws3.
    assert (Byte.eqb b xe1 = false ∧ Byte.eqb b xe2 = false ∧ Byte.eqb b xe3 = false) as (-> & -> & ->) by by destruct b.
    done.
Qed.

(** A printable ASCII character. *)
Definition imprimible (b : byte) : bool := in_byte 32 126 b.
Lemma visible_imprimible b : visible b = true -> imprimible b = true.
Proof. by destruct b. Qed.
Lemma imprimible_ascii b : imprimible b = true -> es_ascii b = true.
Proof. by destruct b. Qed.

Lemma imprimible_texto l : Forall (fun b => imprimible b = true) l -> (LF ∉ l) ∧ (x00 ∉ l) ∧ utf8_valid l = true.
Proof.
  intros Hl. rewrite Forall_forall in Hl. split; [by intros ?%Hl|]. split; [by intros ?%Hl|].
  apply utf8_valid_ascii, Forall_forall. intros b Hb. apply Hl in Hb. unfold imprimible, in_byte in Hb.
  apply andb_true_iff in Hb as [_ Hb]. apply N.leb_le in Hb. lia.
Qed.

Lemma visibles_imprimibles l : Forall (fun b => visible b = true) l -> Forall (fun b => imprimible b = true) l.
Proof. intros Hl. eapply Forall_impl; [exact Hl|]. intros b. apply visible_imprimible. Qed.

(** Concatenations to the right. *)
Ltac junta := repeat first [rewrite <- app_assoc | progress cbn [app]].
