(* ===== verification/BlockDev.v ===== *)
(** * Block devices

    [crates/block-dev/src/lib.rs]: the [BlockDevice] trait as a class of
    operations, the in-memory and the sparse device, and
    [crates/sosofs/src/cache.rs]: the LRU read cache wrapped around any device.
    [BlockDeviceSpec] is what a device promises to the file system: a read
    returns the last block written there and a write touches no other block;
    the devices modelled here are proved to keep that promise. *)
From S2P Require Import Prelude.
Local Open Scope N_scope.

Definition BLOCK_SIZE : N := 4096.
Abbreviation Block := (list byte).

Inductive BlockError := Io | OutOfRange.
#[export] Instance BlockError_eq_dec : EqDecision BlockError.
Proof. solve_decision. Defined.

(** The trait. A successful read returns the filled buffer; a range read is
    told how many bytes the caller's buffer holds. *)
Class BlockDevice (D : Type) := {
  block_count : D -> N;
  read_block : N -> M D BlockError Block;
  write_block : N -> Block -> M D BlockError unit;
  flush : M D BlockError unit;
  last_read_cached : D -> bool;
  invalidate_block : N -> D -> D;
  invalidate_all : D -> D;
  max_blocks_per_request : D -> N;
  read_blocks : N -> N -> M D BlockError (list byte);
}.

(** The default methods of the trait. *)
Definition last_read_cached_default {D} (_ : D) : bool := false.
Definition invalidate_block_default {D} (_ : N) (d : D) : D := d.
Definition invalidate_all_default {D} (d : D) : D := d.
Definition max_blocks_per_request_default {D} (_ : D) : N := 1.

(** The default [read_blocks]: block by block into the chunks of the buffer. *)
Definition read_blocks_default {D} (read : N -> M D BlockError Block)
    (start len : N) : M D BlockError (list byte) :=
  if negb (len mod BLOCK_SIZE =? 0) then throw OutOfRange
  else mfold (fun buf i =>
         b ← add64 start i;
         trozo ← read b;
         mret (buf ++ trozo)) [] (upto (len / BLOCK_SIZE)).

(** ** MemBlockDevice *)
Module Mem.
Record t := mk { data : list byte; reads : N }.

Definition new (blocks : N) : t := mk (zeros (blocks * BLOCK_SIZE)) 0.
Definition read_count (d : t) : N := reads d.
Definition grow_to_blocks (blocks : N) (d : t) : t :=
  let n := N.to_nat (blocks * BLOCK_SIZE) in
  mk (take n (data d) ++ replicate (n - length (data d)) x00) (reads d).

Definition count_read {E} : M t E unit := modify (fun d => mk (data d) (reads d + 1)).

Definition block_count (d : t) : N := lenN (data d) / BLOCK_SIZE.

Definition read_block (block : N) : M t BlockError Block :=
  count_read;;
  off ← mul64 block BLOCK_SIZE;
  fin ← add64 off BLOCK_SIZE;
  d ← gets data;
  of_option (throw OutOfRange) (slice off (fin - off) d).

Definition write_block (block : N) (buf : Block) : M t BlockError unit :=
  off ← mul64 block BLOCK_SIZE;
  fin ← add64 off BLOCK_SIZE;
  d ← gets data;
  match put_slice off buf d with
  | Some d' => modify (fun s => mk d' (reads s))
  | None => throw OutOfRange
  end.

Definition flush : M t BlockError unit := mret tt.

Definition read_blocks (start len : N) : M t BlockError (list byte) :=
  if negb (len mod BLOCK_SIZE =? 0) then throw OutOfRange
  else
    count_read;;
    off ← mul64 start BLOCK_SIZE;
    fin ← add64 off len;
    d ← gets data;
    of_option (throw OutOfRange) (slice off (fin - off) d).
End Mem.

#[export] Instance Mem_BlockDevice : BlockDevice Mem.t := {
  block_count := Mem.block_count;
  read_block := Mem.read_block;
  write_block := Mem.write_block;
  flush := Mem.flush;
  last_read_cached := last_read_cached_default;
  invalidate_block := invalidate_block_default;
  invalidate_all := invalidate_all_default;
  max_blocks_per_request := fun _ => U64_MAX;
  read_blocks := Mem.read_blocks;
}.

(** ** SparseBlockDevice *)
Module Sparse.
Record t := mk { blocks : N; data : gmap N (list byte) }.

Definition new (blocks : N) : t := mk blocks ∅.

Definition read_block (block : N) : M t BlockError Block :=
  n ← gets blocks;
  if n <=? block then throw OutOfRange
  else gets (fun d => default (zeros BLOCK_SIZE) (data d !! block)).

Definition write_block (block : N) (buf : Block) : M t BlockError unit :=
  n ← gets blocks;
  if n <=? block then throw OutOfRange
  else modify (fun d => mk (blocks d) (<[block := buf]> (data d))).

Definition flush : M t BlockError unit := mret tt.
End Sparse.

#[export] Instance Sparse_BlockDevice : BlockDevice Sparse.t := {
  block_count := Sparse.blocks;
  read_block := Sparse.read_block;
  write_block := Sparse.write_block;
  flush := Sparse.flush;
  last_read_cached := last_read_cached_default;
  invalidate_block := invalidate_block_default;
  invalidate_all := invalidate_all_default;
  max_blocks_per_request := max_blocks_per_request_default;
  read_blocks := read_blocks_default Sparse.read_block;
}.

(** ** CachedBlockDevice *)
Module Cache.
Definition DEFAULT_CAPACITY : N := 256.

Record Entry := mk_entry { e_block : N; e_data : list byte; e_age : N }.

Record t (D : Type) := mk {
  inner : D;
  entries : list Entry;
  capacity : N;
  tick : N;
  ultimo_acierto : bool;
}.
Arguments mk {D}. Arguments inner {D}. Arguments entries {D}.
Arguments capacity {D}. Arguments tick {D}. Arguments ultimo_acierto {D}.

Section Cache.
Context {D : Type} `{BlockDevice D}.

Definition with_capacity (d : D) (cap : N) : t D := mk d [] (N.max cap 4) 0 false.
Definition new (d : D) : t D := with_capacity d DEFAULT_CAPACITY.

Definition set_inner (d : D) (c : t D) : t D :=
  mk d (entries c) (capacity c) (tick c) (ultimo_acierto c).
Definition set_entries (es : list Entry) (c : t D) : t D :=
  mk (inner c) es (capacity c) (tick c) (ultimo_acierto c).
Definition set_acierto (b : bool) (c : t D) : t D :=
  mk (inner c) (entries c) (capacity c) (tick c) b.

(** The clock of the cache is a [u32] that wraps. *)
Definition bump (c : t D) : t D :=
  mk (inner c) (entries c) (capacity c) ((tick c + 1) mod 2 ^ 32) (ultimo_acierto c).

Definition touch (idx : nat) (c : t D) : t D :=
  let c := bump c in
  set_entries (alter (fun e => mk_entry (e_block e) (e_data e) (tick c)) idx (entries c)) c.

(** Index of the first entry of least age; the source reads entry 0
    first, so there has to be one. *)
Fixpoint evict_from (es : list Entry) (i min_idx : nat) (min_age : N) : nat :=
  match es with
  | [] => min_idx
  | e :: es => if e_age e <? min_age then evict_from es (S i) i (e_age e)
               else evict_from es (S i) min_idx min_age
  end.
Definition evict_lru (es : list Entry) : option nat :=
  match es with
  | [] => None
  | e :: es => Some (evict_from es 1 0 (e_age e))
  end.

Definition invalidate (block : N) (c : t D) : t D :=
  set_entries (filter (fun e => e_block e ≠ block) (entries c)) c.
Definition clear (c : t D) : t D := set_entries [] c.

(** [entries.iter().position(..)] *)
Definition position (block : N) (es : list Entry) : option (nat * Entry) :=
  list_find (fun e => e_block e = block) es.

Definition inner_op {A} (m : M D BlockError A) : M (t D) BlockError A :=
  zoom inner set_inner id m.

Definition read_block (block : N) : M (t D) BlockError Block :=
  es ← gets entries;
  match position block es with
  | Some (idx, e) =>
      modify (touch idx);;
      modify (set_acierto true);;
      mret (e_data e)
  | None =>
      modify (set_acierto false);;
      buf ← inner_op (BlockDev.read_block block);
      modify bump;;
      c ← gets id;
      let fresh := mk_entry block buf (tick c) in
      if capacity c <=? lenN (entries c) then
        match evict_lru (entries c) with
        | Some idx => modify (set_entries (<[idx := fresh]> (entries c)));; mret buf
        | None => panic
        end
      else modify (set_entries (entries c ++ [fresh]));; mret buf
  end.

Definition read_blocks (start len : N) : M (t D) BlockError (list byte) :=
  modify (set_acierto false);;
  inner_op (BlockDev.read_blocks start len).

Definition write_block (block : N) (buf : Block) : M (t D) BlockError unit :=
  modify (invalidate block);;
  inner_op (BlockDev.write_block block buf).
End Cache.
End Cache.

#[export] Instance Cache_BlockDevice {D} `{BlockDevice D} : BlockDevice (Cache.t D) := {
  block_count := fun c => block_count (Cache.inner c);
  read_block := Cache.read_block;
  write_block := Cache.write_block;
  flush := Cache.inner_op flush;
  last_read_cached := Cache.ultimo_acierto;
  invalidate_block := Cache.invalidate;
  invalidate_all := Cache.clear;
  max_blocks_per_request := fun c => max_blocks_per_request (Cache.inner c);
  read_blocks := Cache.read_blocks;
}.

(** ** What a device promises *)

(** A request within range is answered: it succeeds, or, on a device that may
    fail, it reports an error. It does not panic or hang. *)
Definition answers {A} (may_fail : Prop) (r : outcome BlockError A) : Prop :=
  match r with Ok _ => True | Err _ => may_fail | _ => False end.

Fixpoint range_content (f : N -> Block) (start : N) (n : nat) : list byte :=
  match n with
  | O => []
  | S n => f start ++ range_content f (start + 1) n
  end.

Class BlockDeviceSpec (D : Type) `{BlockDevice D} := {
  dev_ok : D -> Prop;
  content : D -> N -> Block;
  may_fail : Prop;
  same_dev (d d' : D) : Prop :=
    dev_ok d' ∧ block_count d' = block_count d ∧ forall b, content d' b = content d b;
  content_length d b : dev_ok d -> b < block_count d -> lenN (content d b) = BLOCK_SIZE;
  read_spec d b : dev_ok d ->
    same_dev d (read_block b d).2 ∧
    forall blk, (read_block b d).1 = Ok blk -> b < block_count d ∧ blk = content d b;
  read_blocks_spec d start n : dev_ok d ->
    same_dev d (read_blocks start (n * BLOCK_SIZE) d).2 ∧
    forall bs, (read_blocks start (n * BLOCK_SIZE) d).1 = Ok bs ->
      bs = range_content (content d) start (N.to_nat n) ∧ (n ≠ 0 -> start + n <= block_count d);
  count_small d : dev_ok d -> block_count d < U64;
  write_spec d b blk : dev_ok d -> lenN blk = BLOCK_SIZE ->
    dev_ok (write_block b blk d).2 ∧
    block_count (write_block b blk d).2 = block_count d ∧
    (forall b', b' ≠ b -> content (write_block b blk d).2 b' = content d b') ∧
    ((write_block b blk d).1 = Ok tt -> b < block_count d ∧ content (write_block b blk d).2 b = blk);
  flush_spec d : dev_ok d -> same_dev d (flush d).2;
  invalidate_block_spec d b : dev_ok d -> same_dev d (invalidate_block b d);
  invalidate_all_spec d : dev_ok d -> same_dev d (invalidate_all d);
  read_outcome d b : dev_ok d -> b < block_count d -> answers may_fail (read_block b d).1;
  read_blocks_outcome d start n : dev_ok d -> start + n <= block_count d ->
    answers may_fail (read_blocks start (n * BLOCK_SIZE) d).1;
  write_outcome d b blk : dev_ok d -> b < block_count d -> lenN blk = BLOCK_SIZE ->
    answers may_fail (write_block b blk d).1;
  flush_outcome d : dev_ok d -> answers may_fail (flush d).1;
}.

(** A device whose requests within range do not fail. *)
Class ReliableDevice (D : Type) `{BlockDeviceSpec D} := reliable : ¬ may_fail.

Lemma same_dev_refl `{BlockDeviceSpec D} d : dev_ok d -> same_dev d d.
Proof. by split. Qed.
Lemma same_dev_trans `{BlockDeviceSpec D} d1 d2 d3 :
  same_dev d1 d2 -> same_dev d2 d3 -> same_dev d1 d3.
Proof.
  intros (_ & H2 & H3) (H4 & H5 & H6). split; [done|]. split; [congruence|].
  intros b. by rewrite H6.
Qed.

(** ** The default range read, given a sound single-block read *)
Section DefaultReads.
Context {D : Type} (read : N -> M D BlockError Block) (ok : D -> Prop) (cont : D -> N -> Block)
  (count : D -> N) (fails : Prop).
Definition same_as (d d' : D) : Prop := ok d' ∧ count d' = count d ∧ forall b, cont d' b = cont d b.
Hypothesis (Hread : forall d b, ok d -> same_as d (read b d).2 ∧
  (forall blk, (read b d).1 = Ok blk -> b < count d ∧ blk = cont d b) ∧
  (b < count d -> answers fails (read b d).1)).

Lemma read_blocks_default_ok d start (n : N) : ok d -> count d < U64 ->
  let r := read_blocks_default read start (n * BLOCK_SIZE) d in
  same_as d r.2 ∧
  (forall bs, r.1 = Ok bs -> bs = range_content (cont d) start (N.to_nat n) ∧ (n ≠ 0 -> start + n <= count d)) ∧
  (start + n <= count d -> answers fails r.1).
Proof using Hread.
  intros Hok Hcount. unfold read_blocks_default. rewrite N.Div0.mod_mul, N.div_mul by done. simpl.
  assert (forall len (from : nat) acc d1, same_as d d1 ->
    let r := mfold (fun buf i => b ← add64 start i; trozo ← read b; mret (buf ++ trozo)) acc
               (N.of_nat <$> seq from len) d1 in
    same_as d r.2 ∧
    (forall bs, r.1 = Ok bs -> bs = acc ++ range_content (cont d) (start + N.of_nat from) len ∧
       (len ≠ 0%nat -> start + N.of_nat (from + len) <= count d)) ∧
    (start + N.of_nat (from + len) <= count d -> answers fails r.1)) as Hgen.
  { induction len as [|len IH]; intros from acc d1 Hs1; simpl.
    - split_and!; [done| |done]. intros bs [= <-]. split; [by rewrite app_nil_r|done].
    - rewrite !bind_eq. unfold add64.
      destruct (N.ltb_spec (start + N.of_nat from) U64) as [Hlt|Hge]; cbn [mret M_ret]; [|split_and!; [done|done|simpl; lia]].
      rewrite !bind_eq. pose proof Hs1 as (Hok1 & Hc1 & Hb1).
      destruct (Hread d1 (start + N.of_nat from) Hok1) as (Hs2 & Hval & Hans).
      assert (same_as d (read (start + N.of_nat from) d1).2) as Hs3.
      { destruct Hs2 as (? & E & Hb). split_and!; [done|congruence|]. intros b. by rewrite Hb. }
      destruct (read (start + N.of_nat from) d1) as [[blk|e| |] d2]; simpl in *;
        try (split_and!; [done|done|intros; apply Hans; rewrite Hc1; lia]).
      destruct (Hval blk eq_refl) as [Hlt' ->]. destruct (IH (S from) (acc ++ cont d1 (start + N.of_nat from)) d2 Hs3)
        as (IH1 & IH2 & IH3). split_and!; [done| |].
      + intros bs Hbs. destruct (IH2 bs Hbs) as [-> Hle]. split.
        * rewrite Hb1, <- (assoc_L (++)). do 3 f_equal. lia.
        * intros _. destruct len; [rewrite Hc1 in Hlt'; lia|]. specialize (Hle ltac:(done)). lia.
      + intros Hle. apply IH3. lia. }
  assert (same_as d d) as Hrefl by by split_and!.
  destruct (Hgen (N.to_nat n) 0%nat [] d Hrefl) as (H1 & H2 & H3). split_and!; [exact H1| |intros; apply H3; lia].
  intros bs Hbs. destruct (H2 bs Hbs) as [-> Hle]. split; [by rewrite N.add_0_r|]. intros Hn.
  specialize (Hle ltac:(lia)). lia.
Qed.
End DefaultReads.

(** ** The in-memory device keeps the promise *)
Module MemSpec.
Definition content (d : Mem.t) (b : N) : Block :=
  take (N.to_nat BLOCK_SIZE) (drop (N.to_nat (b * BLOCK_SIZE)) (Mem.data d)).
Definition dev_ok (d : Mem.t) : Prop := lenN (Mem.data d) < U64.

Lemma count_bound d b : b < Mem.block_count d <-> b * BLOCK_SIZE + BLOCK_SIZE <= lenN (Mem.data d).
Proof.
  unfold Mem.block_count, BLOCK_SIZE. by apply lt_div_iff.
Qed.

Lemma slice_content d b :
  b < Mem.block_count d -> slice (b * BLOCK_SIZE) BLOCK_SIZE (Mem.data d) = Some (content d b).
Proof.
  intros Hb%count_bound. unfold slice, content.
  by replace (_ <=? _) with true by (symmetry; apply N.leb_le; lia).
Qed.

Lemma content_length d b : b < Mem.block_count d -> lenN (content d b) = BLOCK_SIZE.
Proof.
  intros Hb%count_bound. unfold content, lenN in *. rewrite length_take, length_drop. lia.
Qed.

Lemma read_block_run d b : dev_ok d ->
  (Mem.read_block b d).2 = Mem.mk (Mem.data d) (Mem.reads d + 1) ∧
  match (Mem.read_block b d).1 with
  | Ok blk => b < Mem.block_count d ∧ blk = content d b
  | _ => ¬ b < Mem.block_count d
  end.
Proof.
  unfold dev_ok. intros Hd. pose proof (count_bound d b) as Hc.
  unfold Mem.read_block, Mem.count_read, mul64, add64, modify, gets, mbind, M_bind; simpl.
  destruct (N.ltb_spec (b * BLOCK_SIZE) U64); simpl; [|split; [done|unfold BLOCK_SIZE in *; lia]].
  destruct (N.ltb_spec (b * BLOCK_SIZE + BLOCK_SIZE) U64); simpl;
    [|split; [done|unfold BLOCK_SIZE in *; lia]].
  replace (b * BLOCK_SIZE + BLOCK_SIZE - b * BLOCK_SIZE) with BLOCK_SIZE by lia.
  unfold slice. destruct (N.leb_spec (b * BLOCK_SIZE + BLOCK_SIZE) (lenN (Mem.data d))); simpl;
    rewrite Hc; split; try done. lia.
Qed.
Lemma range_content_drop d start n :
  start * BLOCK_SIZE + N.of_nat n * BLOCK_SIZE <= lenN (Mem.data d) ->
  range_content (content d) start n =
  take (N.to_nat (N.of_nat n * BLOCK_SIZE)) (drop (N.to_nat (start * BLOCK_SIZE)) (Mem.data d)).
Proof.
  revert start. induction n as [|n IH]; intros start Hb; [done|].
  simpl range_content. rewrite IH by lia. unfold content.
  replace (N.to_nat ((start + 1) * BLOCK_SIZE))
    with (N.to_nat (start * BLOCK_SIZE) + N.to_nat BLOCK_SIZE)%nat by lia.
  rewrite <- drop_drop.
  replace (N.to_nat (N.of_nat (S n) * BLOCK_SIZE))
    with (N.to_nat BLOCK_SIZE + N.to_nat (N.of_nat n * BLOCK_SIZE))%nat by lia.
  by rewrite take_take_drop.
Qed.

Lemma write_block_run d b blk : dev_ok d -> lenN blk = BLOCK_SIZE ->
  Mem.write_block b blk d =
    if decide (b < Mem.block_count d) then
      (Ok tt, Mem.mk (take (N.to_nat (b * BLOCK_SIZE)) (Mem.data d) ++ blk ++
                      drop (N.to_nat (b * BLOCK_SIZE) + length blk) (Mem.data d)) (Mem.reads d))
    else ((Mem.write_block b blk d).1, d).
Proof.
  unfold dev_ok. intros Hd Hlen.
  unfold Mem.write_block, mul64, add64, modify, gets, mbind, M_bind, put_slice; simpl.
  rewrite Hlen. destruct (decide _) as [Hb|Hb]; rewrite count_bound in Hb.
  - rewrite (proj2 (N.ltb_lt _ _)) by (unfold BLOCK_SIZE in *; lia). simpl.
    rewrite (proj2 (N.ltb_lt _ _)) by (unfold BLOCK_SIZE in *; lia). simpl.
    by rewrite (proj2 (N.leb_le _ _)) by lia.
  - destruct (b * BLOCK_SIZE <? U64); [|done]. simpl.
    destruct (b * BLOCK_SIZE + BLOCK_SIZE <? U64); [|done]. simpl.
    by rewrite (proj2 (N.leb_gt _ _)) by lia.
Qed.
End MemSpec.

#[export] Program Instance Mem_Spec : BlockDeviceSpec Mem.t := {
  dev_ok := MemSpec.dev_ok;
  content := MemSpec.content;
  may_fail := False;
}.
Next Obligation. intros d b _ Hb. by apply MemSpec.content_length. Qed.
Next Obligation.
  intros d b Hd. destruct (MemSpec.read_block_run d b Hd) as [Hs Hr]. simpl. split.
  - by rewrite Hs.
  - intros blk Hblk. by rewrite Hblk in Hr.
Qed.
Next Obligation.
  intros d start n Hd. unfold MemSpec.dev_ok in Hd. simpl.
  unfold Mem.read_blocks. rewrite N.Div0.mod_mul. simpl.
  unfold Mem.count_read, mul64, add64, modify, gets, mbind, M_bind; simpl.
  destruct (start * BLOCK_SIZE <? U64); simpl; [|by split].
  destruct (start * BLOCK_SIZE + n * BLOCK_SIZE <? U64); simpl; [|by split].
  split; [by unfold slice; case_match|].
  replace (start * BLOCK_SIZE + n * BLOCK_SIZE - start * BLOCK_SIZE) with (n * BLOCK_SIZE) by lia.
  unfold slice. case_match eqn:E; [|done]. apply N.leb_le in E. intros bs [= <-]. split.
  - rewrite MemSpec.range_content_drop by (unfold BLOCK_SIZE in *; lia). by rewrite N2Nat.id.
  - intros _. unfold Mem.block_count. apply N.div_le_lower_bound; unfold BLOCK_SIZE in *; lia.
Qed.
Next Obligation.
  intros d Hd. simpl. unfold MemSpec.dev_ok, Mem.block_count, BLOCK_SIZE in *. unfold U64 in *.
  apply N.Div0.div_lt_upper_bound. lia.
Qed.
Next Obligation.
  intros d b blk Hd Hlen. simpl. rewrite (MemSpec.write_block_run d b blk Hd Hlen).
  case_decide as Hb; simpl.
  - apply MemSpec.count_bound in Hb as Hb'.
    set (off := b * BLOCK_SIZE) in *.
    assert (Hl : lenN (take (N.to_nat off) (Mem.data d) ++ blk ++
                 drop (N.to_nat off + length blk) (Mem.data d)) = lenN (Mem.data d)).
    { unfold lenN in *. rewrite !length_app, length_take, length_drop. lia. }
    unfold MemSpec.dev_ok, Mem.block_count. simpl. rewrite Hl.
    split_and!; [done|done| |].
    + intros b' Hne. unfold MemSpec.content. simpl. unfold lenN in *.
      destruct (decide (b' < b)).
      * rewrite drop_app_le by (rewrite length_take; unfold off, BLOCK_SIZE in *; lia).
        rewrite take_app_le
          by (rewrite length_drop, length_take; unfold off, BLOCK_SIZE in *; lia).
        apply list_eq. intros i. rewrite !lookup_take, !lookup_drop.
        case_decide as Hi; [|done]. rewrite lookup_take. rewrite decide_True; [done|].
        unfold off, BLOCK_SIZE in *; lia.
      * rewrite drop_app_ge by (rewrite length_take; unfold off, BLOCK_SIZE in *; lia).
        rewrite drop_app_ge by (rewrite length_take; unfold off, BLOCK_SIZE in *; lia).
        rewrite drop_drop. do 2 f_equal. rewrite length_take.
        unfold off, BLOCK_SIZE in *; lia.
    + intros _. split; [done|]. unfold MemSpec.content. simpl. fold off. unfold lenN in *.
      rewrite drop_app_length' by (rewrite length_take; lia).
      apply take_app_length'. lia.
  - split_and!; try done. intros Hok. exfalso.
    revert Hok Hb. rewrite MemSpec.count_bound.
    unfold Mem.write_block, mul64, add64, gets, mbind, M_bind, put_slice; simpl. rewrite Hlen.
    destruct (b * BLOCK_SIZE <? U64); simpl; [|done].
    destruct (b * BLOCK_SIZE + BLOCK_SIZE <? U64); simpl; [|done].
    case_match eqn:E; [|done]. case_match eqn:E2; [|done]. apply N.leb_le in E2. lia.
Qed.
Next Obligation. by intros d Hd. Qed.
Next Obligation. by intros d b Hd. Qed.
Next Obligation. by intros d Hd. Qed.

Next Obligation.
  intros d b Hd Hb. destruct (MemSpec.read_block_run d b Hd) as [_ Hr]. simpl in *.
  by destruct (Mem.read_block b d).1.
Qed.
Next Obligation.
  intros d start n Hd Hb. unfold MemSpec.dev_ok in Hd. simpl in *.
  assert (Hlen : start * BLOCK_SIZE + n * BLOCK_SIZE <= lenN (Mem.data d)).
  { unfold Mem.block_count in Hb. pose proof (N.Div0.mul_div_le (lenN (Mem.data d)) BLOCK_SIZE).
    unfold BLOCK_SIZE in *. nia. }
  unfold Mem.read_blocks. rewrite N.Div0.mod_mul. simpl.
  unfold Mem.count_read, mul64, add64, modify, gets, mbind, M_bind; simpl.
  rewrite (proj2 (N.ltb_lt _ _)) by lia. simpl. rewrite (proj2 (N.ltb_lt _ _)) by lia. simpl.
  unfold slice. by rewrite (proj2 (N.leb_le _ _)) by lia.
Qed.
Next Obligation.
  intros d b blk Hd Hb Hlen. simpl in *. rewrite (MemSpec.write_block_run d b blk Hd Hlen).
  by rewrite decide_True.
Qed.
Next Obligation. done. Qed.

#[export] Instance Mem_Reliable : ReliableDevice Mem.t.
Proof. by intros []. Qed.

(** ** The read cache is transparent

    Coherence: every cached block is what the device underneath holds. *)
Module CacheSpec.
Section CacheSpec.
Context {D : Type} `{BlockDeviceSpec D}.
Implicit Types c : Cache.t D.

Definition coherent_with (d : D) (e : Cache.Entry) : Prop :=
  Cache.e_block e < block_count d ∧ Cache.e_data e = content d (Cache.e_block e).

Definition dev_ok c : Prop :=
  BlockDev.dev_ok (Cache.inner c) ∧ 4 <= Cache.capacity c ∧
  Forall (coherent_with (Cache.inner c)) (Cache.entries c).
Definition content c : N -> Block := BlockDev.content (Cache.inner c).

Lemma coherent_same d d' e :
  same_dev d d' -> coherent_with d e -> coherent_with d' e.
Proof. intros (_ & Hc & Hb) [H1 H2]. split; [by rewrite Hc|by rewrite Hb]. Qed.

Lemma dev_ok_inner c d' :
  dev_ok c -> same_dev (Cache.inner c) d' -> dev_ok (Cache.set_inner d' c).
Proof.
  intros (H1 & H2 & H3) Hs. split; [apply Hs|]. split; [done|]. simpl.
  eapply Forall_impl; [exact H3|]. intros; by eapply coherent_same.
Qed.

Lemma dev_ok_entries c es :
  dev_ok c -> Forall (coherent_with (Cache.inner c)) es -> dev_ok (Cache.set_entries es c).
Proof. intros (? & ? & ?) ?. by split_and!. Qed.

Lemma touch_ok c i : dev_ok c -> dev_ok (Cache.touch i c).
Proof.
  intros Hc. pose proof Hc as (? & ? & He). unfold Cache.touch.
  apply (dev_ok_entries (Cache.bump c)); [done|]. simpl.
  apply Forall_alter; [done|]. by intros e _ [].
Qed.

Lemma evict_from_lt es i m a (k : nat) :
  (i + length es <= k)%nat -> (m < k)%nat -> (Cache.evict_from es i m a < k)%nat.
Proof.
  revert i m a. induction es as [|e es IH]; simpl; intros i m a Hi Hm; [done|].
  case_match; apply IH; lia.
Qed.

(** A full cache always has an entry to evict. *)
Lemma evict_lru_lt es : es ≠ [] -> exists i, Cache.evict_lru es = Some i ∧ (i < length es)%nat.
Proof.
  destruct es as [|e es]; [done|]. intros _. eexists; split; [done|].
  apply evict_from_lt; simpl; lia.
Qed.

Lemma read_block_ok c b : dev_ok c ->
  let c' := (Cache.read_block b c).2 in
  (dev_ok c' ∧ block_count (Cache.inner c') = block_count (Cache.inner c) ∧
   forall b', content c' b' = content c b') ∧
  (forall blk, (Cache.read_block b c).1 = Ok blk ->
     b < block_count (Cache.inner c) ∧ blk = content c b) ∧
  (b < block_count (Cache.inner c) -> answers may_fail (Cache.read_block b c).1).
Proof.
  intros Hok. pose proof Hok as (Hd & Hcap & He).
  unfold Cache.read_block, gets, modify, mbind, M_bind. simpl.
  destruct (Cache.position b (Cache.entries c)) as [[i e]|] eqn:Hpos; simpl.
  - unfold Cache.position in Hpos. apply list_find_Some in Hpos as (Hl & <- & _).
    rewrite Forall_lookup in He. destruct (He i e Hl) as [Hb Hdat].
    split_and!; [by apply (touch_ok c i)|done|done| |].
    + intros blk [= <-]. done.
    + done.
  - unfold Cache.inner_op, zoom. simpl.
    destruct (read_spec (Cache.inner c) b Hd) as [Hsame Hres].
    pose proof (dev_ok_inner c _ Hok Hsame) as Hok'. pose proof Hsame as (_ & Hcnt & Hcont).
    pose proof (read_outcome (Cache.inner c) b Hd) as Hans.
    destruct (BlockDev.read_block b (Cache.inner c)) as [[blk|e| |] d'] eqn:Hrun; simpl in *;
      try (split_and!; done).
    destruct (Hres blk eq_refl) as [Hb ->].
    assert (Hfresh : forall a, coherent_with d' (Cache.mk_entry b (BlockDev.content (Cache.inner c) b) a)).
    { intros a. split; simpl; [by rewrite Hcnt|by rewrite Hcont]. }
    destruct Hok' as (Hd' & _ & He'). simpl in He'.
    destruct (N.leb_spec (Cache.capacity c) (lenN (Cache.entries c))) as [Hfull|Hroom]; simpl.
    + destruct (evict_lru_lt (Cache.entries c)) as (i & -> & Hi).
      { intros Hnil. rewrite Hnil in Hfull. unfold lenN in Hfull. simpl in Hfull. lia. }
      simpl. split_and!; [split_and!; [done|done|]|done|done| |done].
      * simpl. by apply Forall_insert.
      * intros ? [= <-]. done.
    + split_and!; [split_and!; [done|done|]|done|done| |done].
      * simpl. apply Forall_app. split; [done|]. constructor; [apply Hfresh|constructor].
      * intros ? [= <-]. done.
Qed.
End CacheSpec.
End CacheSpec.

#[export] Program Instance Cache_Spec {D} `{BlockDeviceSpec D} : BlockDeviceSpec (Cache.t D) := {
  dev_ok := CacheSpec.dev_ok;
  content := CacheSpec.content;
  may_fail := may_fail (D := D);
}.
Next Obligation. intros D HD HS c b (Hd & _) Hb. by apply content_length. Qed.
Next Obligation.
  intros D HD HS c b Hok. by destruct (CacheSpec.read_block_ok c b Hok) as (? & ? & _).
Qed.
Next Obligation.
  intros D HD HS c start n Hok. simpl. unfold Cache.read_blocks, modify, mbind, M_bind. simpl.
  unfold Cache.inner_op, zoom. simpl.
  destruct (read_blocks_spec (Cache.inner c) start n (proj1 Hok)) as [Hsame Hres].
  pose proof (CacheSpec.dev_ok_inner (Cache.set_acierto false c) _ Hok Hsame) as Hok'.
  pose proof Hsame as (_ & Hcnt & Hcont).
  destruct (read_blocks _ _ _) as [[bs|e| |] d'] eqn:Hrun; simpl in *; (split; [done|]);
    intros ? [=]. subst. by apply Hres.
Qed.
Next Obligation. intros D HD HS c Hok. by apply (count_small (Cache.inner c)), Hok. Qed.
Next Obligation.
  intros D HD HS c b blk Hok Hlen. simpl. unfold Cache.write_block, modify, mbind, M_bind. simpl.
  unfold Cache.inner_op, zoom. simpl. pose proof Hok as (Hd & Hcap & He).
  destruct (write_spec (Cache.inner c) b blk Hd Hlen) as (Hd' & Hcnt & Hother & Hres).
  destruct (write_block b blk (Cache.inner c)) as [r d'] eqn:Hrun. simpl in *.
  split_and!; [|done|done|].
  - split; [done|]. split; [done|]. simpl. rewrite Forall_forall in He |- *. intros e [Hne Hin]%list_elem_of_filter.
    destruct (He e Hin) as [H1 H2]. split; [by rewrite Hcnt|]. by rewrite Hother.
  - destruct r as [[]|e| |]; try done.
Qed.
Next Obligation.
  intros D HD HS c Hok. simpl. unfold Cache.inner_op, zoom.
  pose proof (flush_spec (Cache.inner c) (proj1 Hok)) as Hsame.
  pose proof (CacheSpec.dev_ok_inner c _ Hok Hsame) as Hok'. pose proof Hsame as (_ & Hcnt & Hcont).
  by destruct (flush (Cache.inner c)) as [[?|e| |] d'] eqn:Hrun.
Qed.
Next Obligation.
  intros D HD HS c b Hok. simpl. split; [|done]. apply CacheSpec.dev_ok_entries; [done|].
  destruct Hok as (_ & _ & He). rewrite Forall_forall in He |- *.
  intros e [_ Hin]%list_elem_of_filter. by apply He.
Qed.
Next Obligation.
  intros D HD HS c Hok. split; [|done]. by apply CacheSpec.dev_ok_entries.
Qed.

Next Obligation.
  intros D HD HS c b Hok Hb. by destruct (CacheSpec.read_block_ok c b Hok) as (_ & _ & Hans); apply Hans.
Qed.
Next Obligation.
  intros D HD HS c start n Hok Hb. simpl in *. unfold Cache.read_blocks, modify, mbind, M_bind. simpl.
  unfold Cache.inner_op, zoom. simpl.
  pose proof (read_blocks_outcome (Cache.inner c) start n (proj1 Hok) Hb) as Hans.
  by destruct (read_blocks start _ (Cache.inner c)) as [[?|e| |] d'].
Qed.
Next Obligation.
  intros D HD HS c b blk Hok Hb Hlen. simpl in *. unfold Cache.write_block, modify, mbind, M_bind. simpl.
  unfold Cache.inner_op, zoom. simpl.
  pose proof (write_outcome (Cache.inner c) b blk (proj1 Hok) Hb Hlen) as Hans.
  by destruct (write_block b blk (Cache.inner c)) as [[?|e| |] d'].
Qed.
Next Obligation.
  intros D HD HS c Hok. simpl. unfold Cache.inner_op, zoom.
  pose proof (flush_outcome (Cache.inner c) (proj1 Hok)) as Hans.
  by destruct (flush (Cache.inner c)) as [[?|e| |] d'].
Qed.

#[export] Instance Cache_Reliable {D} `{ReliableDevice D} : ReliableDevice (Cache.t D).
Proof. intros Hf. by apply (reliable (D := D)). Qed.
