(* ===== verification/SosofsLayout.v ===== *)
(** * sosofs: on-disk structures

    [crates/sosofs/src/layout.rs]: keys and their order, the little-endian
    records of the format, the superblock with its checksum and the name hash
    of directory entries. Decoding what was encoded gives the record back. *)
From S2P Require Import Prelude Texto BlockDev.
Local Open Scope N_scope.

Definition MAGIC : list byte := txt "SOSOFS11".
Definition MAGIC_V10 : list byte := txt "SOSOFS10".

Definition looks_like_sosofs (sector : list byte) : bool :=
  starts_with MAGIC sector || starts_with MAGIC_V10 sector.

Definition ROOT_INODE : N := 1.
Definition NAME_MAX : N := 255.
Definition EXTENT_MAX_BLOCKS : N := 32.

Definition KIND_INODE : N := 1.
Definition KIND_DIRENT : N := 2.
Definition KIND_EXTENT : N := 3.

Definition FT_FILE : N := 1.
Definition FT_DIR : N := 2.

(** ** Keys *)
Record Key := mkKey { k_inode : N; k_kind : N; k_offset : N }.

#[export] Instance Key_eq_dec : EqDecision Key.
Proof. solve_decision. Defined.

Module Key.
Definition MIN : Key := mkKey 0 0 0.
Definition MAX : Key := mkKey U64_MAX 255 U64_MAX.

Definition inode (ino : N) : Key := mkKey ino KIND_INODE 0.
Definition range (ino kind : N) : Key * Key := (mkKey ino kind 0, mkKey ino kind U64_MAX).

(** The derived [Ord]: lexicographic in (inode, kind, offset). *)
Definition cmp (a b : Key) : comparison :=
  match k_inode a ?= k_inode b with
  | Eq => match k_kind a ?= k_kind b with
          | Eq => k_offset a ?= k_offset b
          | c => c
          end
  | c => c
  end.
Definition leb (a b : Key) : bool := match cmp a b with Gt => false | _ => true end.
Definition ltb (a b : Key) : bool := match cmp a b with Lt => true | _ => false end.

Definition lt (a b : Key) : Prop :=
  k_inode a < k_inode b ∨ (k_inode a = k_inode b ∧
  (k_kind a < k_kind b ∨ (k_kind a = k_kind b ∧ k_offset a < k_offset b))).
Definition le (a b : Key) : Prop := lt a b ∨ a = b.

(** Keys as the fields of the record hold them: u64, u8, u64. *)
Definition wf (k : Key) : Prop := k_inode k < U64 ∧ k_kind k < 256 ∧ k_offset k < U64.
End Key.

Declare Scope key_scope.
Delimit Scope key_scope with key.
Infix "<" := Key.lt : key_scope.
Infix "≤" := Key.le : key_scope.

(** Order goals on keys are linear arithmetic once the records are open. *)
Ltac key_order :=
  unfold Key.le, Key.lt in *;
  repeat match goal with e : (Key * _)%type |- _ => destruct e end; simpl in *;
  repeat match goal with k : Key |- _ => destruct k end; simpl in *;
  repeat match goal with H : mkKey _ _ _ = mkKey _ _ _ |- _ => injection H as ?; subst end;
  repeat match goal with
         | |- context [mkKey ?a ?b ?c = mkKey ?d ?e ?f] =>
             let H := fresh in
             assert (H : mkKey a b c = mkKey d e f <-> a = d ∧ b = e ∧ c = f)
               by (split; [by intros [= -> -> ->]|by intros (-> & -> & ->)]);
             rewrite ?H; clear H
         | G : context [mkKey ?a ?b ?c = mkKey ?d ?e ?f] |- _ =>
             let H := fresh in
             assert (H : mkKey a b c = mkKey d e f <-> a = d ∧ b = e ∧ c = f)
               by (split; [by intros [= -> -> ->]|by intros (-> & -> & ->)]);
             rewrite ?H in G; clear H
         end; lia.

Lemma key_cmp_spec a b :
  match Key.cmp a b with Lt => Key.lt a b | Eq => a = b | Gt => Key.lt b a end.
Proof.
  unfold Key.cmp, Key.lt. destruct a as [i k o], b as [i' k' o']; simpl.
  destruct (N.compare_spec i i'); [|lia..]. destruct (N.compare_spec k k'); [|lia..].
  destruct (N.compare_spec o o'); [|lia..]. by subst.
Qed.

Lemma key_lt_irrefl a : ~ Key.lt a a.
Proof. key_order. Qed.
Lemma key_lt_trans a b c : Key.lt a b -> Key.lt b c -> Key.lt a c.
Proof. intros. key_order. Qed.
Lemma key_le_lt_trans a b c : Key.le a b -> Key.lt b c -> Key.lt a c.
Proof. intros. key_order. Qed.
Lemma key_lt_le_trans a b c : Key.lt a b -> Key.le b c -> Key.lt a c.
Proof. intros. key_order. Qed.
Lemma key_le_trans a b c : Key.le a b -> Key.le b c -> Key.le a c.
Proof. intros [H1| ->] [H2| ->]; [left; by eapply key_lt_trans|by left|by left|by right]. Qed.
Lemma key_lt_total a b : Key.lt a b ∨ a = b ∨ Key.lt b a.
Proof. pose proof (key_cmp_spec a b). destruct (Key.cmp a b); auto. Qed.
Lemma key_not_lt a b : ~ Key.lt a b -> Key.le b a.
Proof. intros. destruct (key_lt_total a b) as [|[->|]]; [done|by right|by left]. Qed.

Lemma key_leb_spec a b : Key.leb a b = true <-> Key.le a b.
Proof.
  unfold Key.leb, Key.le. pose proof (key_cmp_spec a b) as H. destruct (Key.cmp a b); subst.
  - split; auto.
  - split; auto.
  - split; [done|]. intros [H2| ->]; exfalso.
    + by apply (key_lt_irrefl b), key_lt_trans with a.
    + by apply key_lt_irrefl in H.
Qed.

Lemma key_ltb_spec a b : Key.ltb a b = true <-> Key.lt a b.
Proof.
  unfold Key.ltb. pose proof (key_cmp_spec a b) as H. destruct (Key.cmp a b); subst.
  - split; [done|]. intros H2. by apply key_lt_irrefl in H2.
  - done.
  - split; [done|]. intros H2. exfalso. by apply (key_lt_irrefl b), key_lt_trans with a.
Qed.

#[export] Instance key_lt_strict : StrictOrder Key.lt.
Proof. split; [intros ? ?; by eapply key_lt_irrefl|intros ???; apply key_lt_trans]. Qed.
#[export] Instance key_lt_dec a b : Decision (Key.lt a b).
Proof. destruct (Key.ltb a b) eqn:E; [left|right]; rewrite <- key_ltb_spec; congruence. Defined.
#[export] Instance key_le_dec a b : Decision (Key.le a b).
Proof. destruct (Key.leb a b) eqn:E; [left|right]; rewrite <- key_leb_spec; congruence. Defined.

(** ** Little-endian records *)
Definition u8 (v : N) : list byte := le_bytes 1 v.
Definition u16 (v : N) : list byte := le_bytes 2 v.
Definition u32 (v : N) : list byte := le_bytes 4 v.
Definition u64 (v : N) : list byte := le_bytes 8 v.

(** The [n]-byte field at offset [off] of a record. *)
Definition field (off n : nat) (bs : list byte) : N := le_val (take n (drop off bs)).

Definition DiskKey_SIZE : N := 24.
Definition disk_key (k : Key) : list byte :=
  u64 (k_inode k) ++ u64 (k_offset k) ++ u8 (k_kind k) ++ zeros 7.
Definition read_disk_key (bs : list byte) : Key := mkKey (field 0 8 bs) (field 16 1 bs) (field 8 8 bs).

Record Superblock := mkSuperblock {
  sb_magic : list byte;
  sb_crc : N;
  sb_generation : N;
  sb_block_count : N;
  sb_tree_root : N;
  sb_bitmap_start : N;
  sb_bitmap_blocks : N;
  sb_next_inode : N;
}.

Definition Superblock_SIZE : N := 56.
Definition CRC_FROM : N := 12.

Definition superblock_bytes (sb : Superblock) : list byte :=
  sb_magic sb ++ u32 (sb_crc sb) ++ u64 (sb_generation sb) ++ u64 (sb_block_count sb) ++
  u64 (sb_tree_root sb) ++ u64 (sb_bitmap_start sb) ++ u32 (sb_bitmap_blocks sb) ++
  u64 (sb_next_inode sb).

Definition superblock_read (bs : list byte) : Superblock :=
  mkSuperblock (take 8 bs) (field 8 4 bs) (field 12 8 bs) (field 20 8 bs) (field 28 8 bs)
    (field 36 8 bs) (field 44 4 bs) (field 48 8 bs).

Record NodeHeader := mkNodeHeader {
  h_crc : N; h_generation : N; h_expected_block : N; h_level : N; h_nkeys : N;
}.
Definition NODE_HEADER_SIZE : N := 32.
Definition node_header_bytes (h : NodeHeader) : list byte :=
  u32 (h_crc h) ++ u64 (h_generation h) ++ u64 (h_expected_block h) ++ u8 (h_level h) ++ zeros 1 ++
  u16 (h_nkeys h) ++ zeros 8.
Definition node_header_read (bs : list byte) : NodeHeader :=
  mkNodeHeader (field 0 4 bs) (field 4 8 bs) (field 12 8 bs) (field 20 1 bs) (field 22 2 bs).

Definition ITEM_PAYLOAD : N := 272.
Definition LEAF_ENTRY : N := DiskKey_SIZE + ITEM_PAYLOAD.
Definition LEAF_CAP : N := (BLOCK_SIZE - NODE_HEADER_SIZE) / LEAF_ENTRY.
Definition INT_ENTRY : N := DiskKey_SIZE + 8.
Definition INT_CAP : N := (BLOCK_SIZE - NODE_HEADER_SIZE) / INT_ENTRY.

Record InodeItem := mkInodeItem { i_file_type : N; i_size : N; i_mtime : N }.
Definition inode_item_bytes (i : InodeItem) : list byte :=
  u8 (i_file_type i) ++ zeros 7 ++ u64 (i_size i) ++ u64 (i_mtime i).
Definition inode_item_read (bs : list byte) : InodeItem :=
  mkInodeItem (field 0 1 bs) (field 8 8 bs) (field 16 8 bs).

Record DirentItem := mkDirentItem { d_child : N; d_name_len : N; d_name : list byte }.
Definition dirent_item_bytes (d : DirentItem) : list byte :=
  u64 (d_child d) ++ u8 (d_name_len d) ++ zeros 7 ++ d_name d.
Definition dirent_item_read (bs : list byte) : DirentItem :=
  mkDirentItem (field 0 8 bs) (field 8 1 bs) (take 255 (drop 16 bs)).
Definition name_bytes (d : DirentItem) : list byte :=
  take (N.to_nat (N.min (d_name_len d) NAME_MAX)) (d_name d).

Record ExtentItem := mkExtentItem { e_start_block : N; e_block_count : N; e_crc : N }.
Definition extent_item_bytes (e : ExtentItem) : list byte :=
  u64 (e_start_block e) ++ u32 (e_block_count e) ++ u32 (e_crc e).
Definition extent_item_read (bs : list byte) : ExtentItem :=
  mkExtentItem (field 0 8 bs) (field 8 4 bs) (field 12 4 bs).

(** A payload: the item's bytes at the front of a zeroed array. *)
Definition pad_payload (bs : list byte) : list byte :=
  bs ++ replicate (N.to_nat ITEM_PAYLOAD - length bs) x00.

(** The directory entry [insert_dirent] and the builder write: the name in
    a zeroed array of [NAME_MAX] bytes. *)
Definition dirent_of (name : list byte) (child : N) : DirentItem :=
  mkDirentItem child (lenN name) (name ++ replicate (N.to_nat NAME_MAX - length name) x00).

(** FNV-1a, 64 bits. *)
Definition FNV_OFFSET : N := 0xcbf29ce484222325.
Definition FNV_PRIME : N := 0x00000100000001b3.
Definition name_hash (name : list byte) : N :=
  foldl (fun h b => wrapping_mul64 (N.lxor h (Byte.to_N b)) FNV_PRIME) FNV_OFFSET name.

Section Superblock.
Context `{Crc32c}.

Definition superblock_parse (block : Block) : option Superblock :=
  let sb := superblock_read block in
  if bool_decide (sb_magic sb = MAGIC) then
    if crc32c (take (N.to_nat (Superblock_SIZE - CRC_FROM)) (drop (N.to_nat CRC_FROM) block))
       =? sb_crc sb
    then Some sb else None
  else None.

Definition superblock_write_to_block (sb : Superblock) (block : Block) : Block :=
  let block := superblock_bytes sb ++ drop (N.to_nat Superblock_SIZE) block in
  let crc := crc32c (take (N.to_nat (Superblock_SIZE - CRC_FROM)) (drop (N.to_nat CRC_FROM) block)) in
  take 8 block ++ u32 crc ++ drop 12 block.
End Superblock.

Arguments u8 : simpl never.
Arguments u16 : simpl never.
Arguments u32 : simpl never.
Arguments u64 : simpl never.
Arguments field : simpl never.

(** ** Round trips *)
Lemma field_here n v post : v < 256 ^ N.of_nat n -> field 0 n (le_bytes n v ++ post) = v.
Proof.
  intros. unfold field. rewrite drop_0, take_app_length'; [by apply le_val_bytes|by rewrite le_bytes_length].
Qed.
Lemma field_end n v : v < 256 ^ N.of_nat n -> field 0 n (le_bytes n v) = v.
Proof. intros. rewrite <- (app_nil_r (le_bytes n v)). by apply field_here. Qed.
Lemma field_skip off n pre post :
  (length pre <= off)%nat -> field off n (pre ++ post) = field (off - length pre) n post.
Proof. intros. unfold field. by rewrite drop_app_ge. Qed.
Lemma field_lt off n bs : field off n bs < 256 ^ N.of_nat n.
Proof.
  unfold field. eapply N.lt_le_trans; [apply le_val_lt|]. apply N.pow_le_mono_r; [done|].
  unfold lenN. rewrite length_take. lia.
Qed.

Ltac len_norm :=
  unfold u8, u16, u32, u64, zeros in *;
  repeat first [rewrite length_app | rewrite le_bytes_length | rewrite length_replicate
               | rewrite lenN_app
               | match goal with H : length ?m = _ |- context [length ?m] => rewrite H end].

(** [field off n record = v]: walk over the fields before it. *)
Ltac field_solve :=
  unfold u8, u16, u32, u64, zeros;
  repeat (rewrite field_skip by (len_norm; simpl; lia); len_norm; simpl Nat.sub);
  first [apply field_here | apply field_end]; simpl N.of_nat; unfold U64 in *; lia.

Lemma read_disk_key_bytes k post : Key.wf k -> read_disk_key (disk_key k ++ post) = k.
Proof.
  intros (Hi & Hk & Ho). unfold read_disk_key, disk_key. rewrite <- !(assoc_L (++)).
  destruct k as [i kd o]; cbn in *. f_equal; field_solve.
Qed.

Lemma disk_key_length k : length (disk_key k) = 24%nat.
Proof. done. Qed.

Lemma read_disk_key_wf bs : Key.wf (read_disk_key bs).
Proof.
  unfold Key.wf, read_disk_key. simpl.
  pose proof (field_lt 0 8 bs). pose proof (field_lt 16 1 bs). pose proof (field_lt 8 8 bs).
  by split_and!.
Qed.

Definition header_wf (h : NodeHeader) : Prop :=
  h_crc h < 2 ^ 32 ∧ h_generation h < U64 ∧ h_expected_block h < U64 ∧ h_level h < 256 ∧
  h_nkeys h < 65536.

Lemma node_header_read_bytes h post :
  header_wf h -> node_header_read (node_header_bytes h ++ post) = h.
Proof.
  intros (H1 & H2 & H3 & H4 & H5). unfold node_header_read, node_header_bytes.
  rewrite <- !(assoc_L (++)). destruct h as [c g e l n]; cbn in *. f_equal; field_solve.
Qed.

Definition inode_item_wf (i : InodeItem) : Prop :=
  i_file_type i < 256 ∧ i_size i < U64 ∧ i_mtime i < U64.

Lemma inode_item_read_bytes i post :
  inode_item_wf i -> inode_item_read (inode_item_bytes i ++ post) = i.
Proof.
  intros (H1 & H2 & H3). unfold inode_item_read, inode_item_bytes. rewrite <- !(assoc_L (++)).
  destruct i as [t s m]; cbn in *. f_equal; field_solve.
Qed.

Lemma extent_item_read_bytes e post :
  e_start_block e < U64 -> e_block_count e < 2 ^ 32 -> e_crc e < 2 ^ 32 ->
  extent_item_read (extent_item_bytes e ++ post) = e.
Proof.
  intros H1 H2 H3. unfold extent_item_read, extent_item_bytes. rewrite <- !(assoc_L (++)).
  destruct e as [t s m]; cbn in *. f_equal; field_solve.
Qed.

Lemma dirent_item_read_bytes name child post :
  child < U64 -> lenN name <= NAME_MAX ->
  dirent_item_read (dirent_item_bytes (dirent_of name child) ++ post) = dirent_of name child.
Proof.
  intros H1 H2. unfold dirent_item_read, dirent_item_bytes. rewrite <- !(assoc_L (++)).
  unfold dirent_of; cbn. unfold NAME_MAX in *. f_equal; [field_solve| |].
  - field_solve.
  - rewrite !drop_app_ge by (len_norm; lia). len_norm. simpl Nat.sub. rewrite drop_0.
    apply take_app_length'. rewrite length_app, length_replicate.
    unfold lenN in H2. lia.
Qed.

Lemma name_bytes_dirent_of name child :
  lenN name <= NAME_MAX -> name_bytes (dirent_of name child) = name.
Proof.
  intros H. unfold name_bytes, dirent_of. simpl. rewrite N.min_l by done.
  apply take_app_length'. unfold lenN. lia.
Qed.

Definition superblock_wf (sb : Superblock) : Prop :=
  sb_magic sb = MAGIC ∧ sb_generation sb < U64 ∧ sb_block_count sb < U64 ∧
  sb_tree_root sb < U64 ∧ sb_bitmap_start sb < U64 ∧ sb_bitmap_blocks sb < 2 ^ 32 ∧
  sb_next_inode sb < U64.

(** The superblock with the checksum sealed in, as the disk has it. *)
Definition sealed `{Crc32c} (sb : Superblock) : Superblock :=
  mkSuperblock (sb_magic sb) (crc32c (drop 12 (superblock_bytes sb))) (sb_generation sb)
    (sb_block_count sb) (sb_tree_root sb) (sb_bitmap_start sb) (sb_bitmap_blocks sb)
    (sb_next_inode sb).

(** What the checksum covers: everything after it. *)
Lemma superblock_covered sb : length (sb_magic sb) = 8%nat ->
  drop 12 (superblock_bytes sb) =
  u64 (sb_generation sb) ++ u64 (sb_block_count sb) ++ u64 (sb_tree_root sb) ++
  u64 (sb_bitmap_start sb) ++ u32 (sb_bitmap_blocks sb) ++ u64 (sb_next_inode sb).
Proof.
  intros Hm. unfold superblock_bytes.
  rewrite (drop_app_ge (sb_magic sb)) by lia. rewrite Hm.
  rewrite drop_app_ge by (len_norm; lia). len_norm. apply drop_0.
Qed.

Lemma superblock_bytes_split sb : length (sb_magic sb) = 8%nat ->
  superblock_bytes sb = sb_magic sb ++ u32 (sb_crc sb) ++ drop 12 (superblock_bytes sb).
Proof. intros Hm. by rewrite superblock_covered. Qed.

Lemma superblock_bytes_length sb : length (sb_magic sb) = 8%nat ->
  length (superblock_bytes sb) = 56%nat.
Proof. intros Hm. unfold superblock_bytes. by len_norm. Qed.

Section SuperblockCodec.
Context `{Crc32c}.

(** Writing seals the checksum and keeps the rest of the block. *)
Lemma superblock_write_eq sb block : length (sb_magic sb) = 8%nat ->
  superblock_write_to_block sb block = superblock_bytes (sealed sb) ++ drop 56 block.
Proof.
  intros Hm. pose proof (superblock_bytes_length sb Hm) as Hl.
  unfold superblock_write_to_block, Superblock_SIZE, CRC_FROM.
  change (N.to_nat (56 - 12)) with 44%nat. change (N.to_nat 12) with 12%nat.
  change (N.to_nat 56) with 56%nat. rewrite (drop_app_le _ _ 12) by lia.
  rewrite (take_app_le (drop 12 _)) by (rewrite length_drop; lia).
  rewrite (take_ge (drop 12 _)) by (rewrite length_drop; lia).
  rewrite (superblock_bytes_split (sealed sb)) by done. cbn [sealed sb_magic sb_crc].
  rewrite take_app_le by lia.
  rewrite (superblock_bytes_split sb) at 1 by done. rewrite take_app_length' by done.
  rewrite <- !(assoc_L (++)). do 3 f_equal.
  by rewrite !superblock_covered.
Qed.

Lemma superblock_read_bytes sb post :
  superblock_wf sb -> sb_crc sb < 2 ^ 32 -> superblock_read (superblock_bytes sb ++ post) = sb.
Proof.
  intros (Hm & H1 & H2 & H3 & H4 & H5 & H6) Hc.
  assert (length (sb_magic sb) = 8%nat) as Hl by by rewrite Hm.
  unfold superblock_read, superblock_bytes. rewrite <- !(assoc_L (++)).
  destruct sb as [m c g b t bs bb n]; cbn in *.
  f_equal; [by apply take_app_length'|field_solve..].
Qed.

(** What is written at the start of a block is read back, checksum
    included. *)
Lemma superblock_roundtrip sb block :
  superblock_wf sb -> superblock_parse (superblock_write_to_block sb block) = Some (sealed sb).
Proof.
  intros Hwf. assert (length (sb_magic sb) = 8%nat) as Hl by (by rewrite (proj1 Hwf)).
  rewrite superblock_write_eq by done. unfold superblock_parse.
  assert (superblock_wf (sealed sb)) as Hwf' by done.
  rewrite superblock_read_bytes; [|done|apply crc32c_lt].
  rewrite bool_decide_eq_true_2 by apply Hwf'.
  pose proof (superblock_bytes_length (sealed sb) Hl) as Hl'.
  unfold Superblock_SIZE, CRC_FROM. change (N.to_nat (56 - 12)) with 44%nat.
  change (N.to_nat 12) with 12%nat.
  rewrite drop_app_le by lia. rewrite take_app_le by (rewrite length_drop; lia).
  rewrite take_ge by (rewrite length_drop; lia).
  rewrite (superblock_bytes_split (sealed sb)) by done. cbn [sealed sb_magic sb_crc].
  rewrite (assoc_L (++)), drop_app_length' by (rewrite length_app; unfold u32; rewrite le_bytes_length; lia).
  replace (drop 12 (superblock_bytes (sealed sb))) with (drop 12 (superblock_bytes sb)).
  - by rewrite N.eqb_refl.
  - by rewrite !superblock_covered.
Qed.

(** Nothing is accepted without its magic and its checksum. *)
Lemma superblock_parse_Some block sb : superblock_parse block = Some sb ->
  sb = superblock_read block ∧ sb_magic sb = MAGIC ∧
  crc32c (take 44 (drop 12 block)) = sb_crc sb ∧ superblock_wf sb.
Proof.
  unfold superblock_parse. case_bool_decide as Hm; [|done].
  case_match eqn:E; [|done]. intros [= <-]. apply N.eqb_eq in E.
  split_and!; [done|done|done|]. unfold superblock_wf, superblock_read in *. cbn in *.
  split_and!; try done; apply (field_lt _ 8) || apply (field_lt _ 4).
Qed.
End SuperblockCodec.
