(* ===== verification/SosofsAlloc.v ===== *)
(** * sosofs: the mounted file system and its block allocator

    [Sosofs] of [crates/sosofs/src/fs.rs] as a record over any block device,
    and the dual-bitmap allocator of [crates/sosofs/src/write.rs]: a block is
    handed out only when it is free both in the generation being built
    ([bitmap]) and in the committed one ([frozen]). *)
From S2P Require Import Prelude BlockDev SosofsLayout.
Local Open Scope N_scope.

Inductive FsError :=
| Io
| NoValidSuperblock
| BadChecksum (block : N)
| MisplacedNode (block : N)
| NotFound
| NotADir
| NotAFile
| NameTooLong
| NoSpace
| Exists_
| DirNotEmpty
| Corrupt.

#[export] Instance FsError_eq_dec : EqDecision FsError.
Proof. solve_decision. Defined.

Record Sosofs (D : Type) := mkSosofs {
  dev : D;
  sb : Superblock;
  tree_root : N;
  nodos_leidos : N;
  nodos_libres : list (list byte);
  next_inode : N;
  bitmap : list byte;
  frozen : list byte;
  dirty : bool;
  alloc_hint : N;
}.
Arguments mkSosofs {D}. Arguments dev {D}. Arguments sb {D}. Arguments tree_root {D}.
Arguments nodos_leidos {D}. Arguments nodos_libres {D}. Arguments next_inode {D}.
Arguments bitmap {D}. Arguments frozen {D}. Arguments dirty {D}. Arguments alloc_hint {D}.

Abbreviation F D := (M (Sosofs D) FsError).

Section Setters.
Context {D : Type}.
Implicit Types s : Sosofs D.
Definition set_dev (d : D) s := mkSosofs d (sb s) (tree_root s) (nodos_leidos s) (nodos_libres s)
  (next_inode s) (bitmap s) (frozen s) (dirty s) (alloc_hint s).
Definition set_sb x s := mkSosofs (dev s) x (tree_root s) (nodos_leidos s) (nodos_libres s)
  (next_inode s) (bitmap s) (frozen s) (dirty s) (alloc_hint s).
Definition set_tree_root x s := mkSosofs (dev s) (sb s) x (nodos_leidos s) (nodos_libres s)
  (next_inode s) (bitmap s) (frozen s) (dirty s) (alloc_hint s).
Definition set_leidos x s := mkSosofs (dev s) (sb s) (tree_root s) x (nodos_libres s)
  (next_inode s) (bitmap s) (frozen s) (dirty s) (alloc_hint s).
Definition set_libres x s := mkSosofs (dev s) (sb s) (tree_root s) (nodos_leidos s) x
  (next_inode s) (bitmap s) (frozen s) (dirty s) (alloc_hint s).
Definition set_next_inode x s := mkSosofs (dev s) (sb s) (tree_root s) (nodos_leidos s)
  (nodos_libres s) x (bitmap s) (frozen s) (dirty s) (alloc_hint s).
Definition set_bitmap x s := mkSosofs (dev s) (sb s) (tree_root s) (nodos_leidos s)
  (nodos_libres s) (next_inode s) x (frozen s) (dirty s) (alloc_hint s).
Definition set_frozen x s := mkSosofs (dev s) (sb s) (tree_root s) (nodos_leidos s)
  (nodos_libres s) (next_inode s) (bitmap s) x (dirty s) (alloc_hint s).
Definition set_dirty x s := mkSosofs (dev s) (sb s) (tree_root s) (nodos_leidos s)
  (nodos_libres s) (next_inode s) (bitmap s) (frozen s) x (alloc_hint s).
Definition set_alloc_hint x s := mkSosofs (dev s) (sb s) (tree_root s) (nodos_leidos s)
  (nodos_libres s) (next_inode s) (bitmap s) (frozen s) (dirty s) x.
End Setters.

(** ** Bitmaps *)
Definition bit (map : list byte) (b : N) : option bool :=
  x ← map !! N.to_nat (b / 8);
  Some (negb (N.land (Byte.to_N x) (N.shiftl 1 (b mod 8)) =? 0)).

Definition set_bit (map : list byte) (b : N) (v : bool) : option (list byte) :=
  let i := N.to_nat (b / 8) in
  x ← map !! i;
  let m := N.shiftl 1 (b mod 8) in
  Some (<[i := byte_of (if v then N.lor (Byte.to_N x) m
                        else N.land (Byte.to_N x) (N.lxor 255 m))]> map).

Section Alloc.
Context {D : Type}.

(** The two tests of the candidate loop for block [b], left to right. *)
Definition en_uso (b : N) : F D bool :=
  s ← gets id;
  u ← of_option panic (bit (bitmap s) b);
  if u : bool then mret true else of_option panic (bit (frozen s) b).

(** [for i in 0..n]: the first taken block of the run, if any. *)
Fixpoint primer_ocupado (b : N) (ks : list N) : F D (option N) :=
  match ks with
  | [] => mret None
  | i :: ks => u ← en_uso (b + i); if u : bool then mret (Some i) else primer_ocupado b ks
  end.

Definition marcar (b : N) : F D unit :=
  s ← gets id;
  m ← of_option panic (set_bit (bitmap s) b true);
  modify (set_bitmap m).

(** ['candidato: while b + n <= total]. *)
Fixpoint candidato (fuel : nat) (n total b : N) : F D (option N) :=
  match fuel with
  | O => no_fuel
  | S fuel =>
      fin ← add64 b n;
      if fin <=? total then
        o ← primer_ocupado b (upto n);
        match o with
        | Some i => candidato fuel n total (b + i + 1)
        | None =>
            mfor (fun i => marcar (b + i)) (upto n);;
            modify (set_alloc_hint (b + n));;
            modify (set_dirty true);;
            mret (Some b)
        end
      else mret None
  end.

Definition alloc_run (n : N) : F D N :=
  s ← gets id;
  let total := sb_block_count (sb s) in
  r ← candidato (S (N.to_nat total)) n total (N.max (alloc_hint s) 2);
  match r with
  | Some b => mret b
  | None =>
      r ← candidato (S (N.to_nat total)) n total 2;
      match r with
      | Some b => mret b
      | None => throw NoSpace
      end
  end.

Fixpoint alloc_extent_loop (fuel : nat) (n : N) : F D (N * N) :=
  match fuel with
  | O => no_fuel
  | S fuel =>
      r ← attempt (alloc_run n);
      match r with
      | inr start => mret (start, n)
      | inl NoSpace => if 1 <? n then alloc_extent_loop fuel (n / 2) else throw NoSpace
      | inl e => throw e
      end
  end.

(** [want] consecutive blocks, halving while there is no such hole. *)
Definition alloc_extent (want : N) : F D (N * N) :=
  let n := N.max want 1 in alloc_extent_loop (S (N.to_nat n)) n.

Definition free_block (b : N) : F D unit :=
  s ← gets id;
  m ← of_option panic (set_bit (bitmap s) b false);
  modify (set_bitmap m);;
  modify (set_dirty true).

Definition asignado (s : Sosofs D) (b : N) : option bool :=
  if 2 <=? b then if b <? sb_block_count (sb s) then bit (bitmap s) b else Some false
  else Some false.

(** Blocks free in the generation being built. *)
Definition free_blocks : F D N :=
  s ← gets id;
  mfold (fun acc b =>
    u ← of_option panic (bit (bitmap s) b);
    mret (if u : bool then acc else acc + 1)) 0 (upto (sb_block_count (sb s))).
End Alloc.

(** ** Bit lemmas *)
Lemma bit_testbit map b :
  bit map b = (fun x => N.testbit (Byte.to_N x) (b mod 8)) <$> map !! N.to_nat (b / 8).
Proof.
  unfold bit. destruct (map !! _) as [x|]; simpl; [|done]. f_equal.
  rewrite N.shiftl_1_l. generalize (b mod 8). intros k.
  destruct (N.testbit (Byte.to_N x) k) eqn:E.
  - apply negb_true_iff, N.eqb_neq. intros H. apply (f_equal (fun v => N.testbit v k)) in H.
    by rewrite N.land_spec, N.pow2_bits_true, E, N.bits_0 in H.
  - apply negb_false_iff, N.eqb_eq, N.bits_inj. intros j.
    rewrite N.land_spec, N.bits_0, N.pow2_bits_eqb. destruct (N.eqb_spec k j) as [->|].
    + by rewrite E.
    + apply andb_false_r.
Qed.

Lemma bit_is_Some map b : is_Some (bit map b) <-> b < 8 * lenN map.
Proof.
  rewrite bit_testbit, fmap_is_Some, lookup_lt_is_Some. unfold lenN.
  pose proof (N.div_mod b 8 ltac:(done)). pose proof (N.mod_lt b 8 ltac:(done)).
  generalize dependent (b mod 8). generalize (b / 8). intros; lia.
Qed.

Lemma bit_true_free map b : bit map b = Some true -> bit map b ≠ Some false.
Proof. congruence. Qed.

Lemma byte_update_testbit (x : byte) k (v : bool) j : k < 8 -> j < 8 ->
  N.testbit (Byte.to_N (byte_of (if v then N.lor (Byte.to_N x) (N.shiftl 1 k)
                                 else N.land (Byte.to_N x) (N.lxor 255 (N.shiftl 1 k))))) j =
  if decide (j = k) then v else N.testbit (Byte.to_N x) j.
Proof.
  intros Hk Hj. rewrite to_N_byte_of. change 256 with (2 ^ 8).
  rewrite N.mod_pow2_bits_low by done. rewrite N.shiftl_1_l.
  assert (H255 : N.testbit 255 j = true).
  { assert (j = 0 ∨ j = 1 ∨ j = 2 ∨ j = 3 ∨ j = 4 ∨ j = 5 ∨ j = 6 ∨ j = 7) as Hc by lia.
    by destruct_or! Hc; subst. }
  destruct v.
  - rewrite N.lor_spec, N.pow2_bits_eqb. case_decide as E; subst.
    + by rewrite N.eqb_refl, orb_true_r.
    + rewrite (proj2 (N.eqb_neq k j)) by done. apply orb_false_r.
  - rewrite N.land_spec, N.lxor_spec, N.pow2_bits_eqb, H255. case_decide as E; subst.
    + rewrite N.eqb_refl. apply andb_false_r.
    + rewrite (proj2 (N.eqb_neq k j)) by done. apply andb_true_r.
Qed.

(** Setting a bit changes that bit and no other. *)
Lemma set_bit_spec map b v :
  b < 8 * lenN map ->
  exists map', set_bit map b v = Some map' ∧ length map' = length map ∧
    forall j, bit map' j = if decide (j = b) then Some v else bit map j.
Proof.
  intros Hb%bit_is_Some. rewrite bit_testbit, fmap_is_Some in Hb. destruct Hb as [x Hx].
  unfold set_bit. rewrite Hx. simpl. eexists; split; [done|]. split; [by rewrite length_insert|].
  intros j. rewrite !bit_testbit.
  pose proof (lookup_lt_Some _ _ _ Hx) as Hlt.
  destruct (decide (N.to_nat (j / 8) = N.to_nat (b / 8))) as [E|E].
  - rewrite E, list_lookup_insert_eq by done. simpl. rewrite Hx. simpl.
    rewrite byte_update_testbit by (by apply N.mod_lt).
    apply N2Nat.inj in E. pose proof (N.div_mod j 8 ltac:(done)).
    pose proof (N.div_mod b 8 ltac:(done)).
    destruct (decide (j mod 8 = b mod 8)); destruct (decide (j = b)); try done; subst; lia.
  - rewrite list_lookup_insert_ne by done. case_decide; [by subst|done].
Qed.

Lemma set_bit_None map b v : ¬ b < 8 * lenN map -> set_bit map b v = None.
Proof.
  intros Hb. rewrite <- bit_is_Some, bit_testbit, fmap_is_Some in Hb. unfold set_bit.
  destruct (map !! _) eqn:E; simpl; [|done]. by destruct Hb.
Qed.

Lemma set_bit_inv map b v map' : set_bit map b v = Some map' ->
  b < 8 * lenN map ∧ length map' = length map ∧
  forall j, bit map' j = if decide (j = b) then Some v else bit map j.
Proof.
  intros H. destruct (decide (b < 8 * lenN map)) as [Hb|Hb].
  - split; [done|]. destruct (set_bit_spec map b v Hb) as (m & Hm & ?). by simplify_eq.
  - by rewrite set_bit_None in H.
Qed.

(** ** What the allocator guarantees *)
Section AllocSpec.
Context {D : Type}.
Implicit Types s : Sosofs D.

(** Free in both generations. *)
Definition libre s (b : N) : Prop := bit (bitmap s) b = Some false ∧ bit (frozen s) b = Some false.

#[export] Instance libre_dec s b : Decision (libre s b).
Proof. apply _. Defined.

(** Both maps have a bit for every block of the volume. *)
Definition maps_ok s : Prop :=
  sb_block_count (sb s) <= 8 * lenN (bitmap s) ∧ length (bitmap s) = length (frozen s).

(** The state after [m'] became the map and [n] blocks from [b] were taken. *)
Definition tras_alloc s m' b n : Sosofs D :=
  set_dirty true (set_alloc_hint (b + n) (set_bitmap m' s)).

(** [m'] is [m] with the run [b, b + n) taken. *)
Definition run_taken (m m' : list byte) (b n : N) : Prop :=
  length m' = length m ∧
  forall j, bit m' j = if decide (b <= j < b + n) then Some true else bit m j.

Lemma en_uso_inv b s r s' : en_uso b s = (r, s') ->
  s' = s ∧ match r with
           | Ok false => libre s b
           | Ok true => ¬ libre s b
           | Err _ => False
           | Panic => bit (bitmap s) b = None ∨ bit (frozen s) b = None
           | Fuel => False
           end.
Proof.
  unfold en_uso, gets, mbind, M_bind, libre. simpl.
  destruct (bit (bitmap s) b) as [[]|]; simpl; [| |by intros [= <- <-]; naive_solver].
  - intros [= <- <-]. naive_solver.
  - destruct (bit (frozen s) b) as [[]|]; simpl; intros [= <- <-]; naive_solver.
Qed.

Lemma primer_ocupado_inv b ks s r s' : primer_ocupado b ks s = (r, s') ->
  s' = s ∧ match r with
           | Ok None => forall i, i ∈ ks -> libre s (b + i)
           | Ok (Some i) => i ∈ ks ∧ ¬ libre s (b + i)
           | Panic => exists i, i ∈ ks ∧ (bit (bitmap s) (b + i) = None ∨ bit (frozen s) (b + i) = None)
           | _ => False
           end.
Proof.
  revert r s'. induction ks as [|i ks IH]; simpl; intros r s'.
  - intros [= <- <-]. split; [done|]. intros i Hi. set_solver.
  - unfold mbind, M_bind. destruct (en_uso (b + i) s) as [r1 s1] eqn:E.
    apply en_uso_inv in E as [-> Hr1].
    destruct r1 as [[]|e| |]; try done.
    + intros [= <- <-]. split; [done|]. split; [set_solver|done].
    + intros [-> H]%IH. split; [done|]. destruct r as [[j|]|e| |]; try done.
      * destruct H. split; [set_solver|done].
      * intros k [->|Hk]%elem_of_cons; [done|by apply H].
      * destruct H as (k & ? & ?). exists k. split; [set_solver|done].
    + intros [= <- <-]. split; [done|]. exists i. split; [set_solver|done].
Qed.

Lemma marcar_run b s m : set_bit (bitmap s) b true = Some m -> marcar b s = (Ok tt, set_bitmap m s).
Proof. intros H. unfold marcar, gets, modify, mbind, M_bind. simpl. by rewrite H. Qed.

Lemma set_bitmap_twice m m' s : set_bitmap m (set_bitmap m' s) = set_bitmap m s.
Proof. done. Qed.
Lemma set_bitmap_id s : set_bitmap (bitmap s) s = s.
Proof. by destruct s. Qed.

Lemma marcar_run_blocks b n s :
  (forall j, b <= j < b + n -> j < 8 * lenN (bitmap s)) ->
  exists m', mfor (fun i => marcar (b + i)) (upto n) s = (Ok tt, set_bitmap m' s) ∧
             run_taken (bitmap s) m' b n.
Proof.
  assert (forall (l : list N) s, (forall i, i ∈ l -> b + i < 8 * lenN (bitmap s)) ->
    exists m', mfor (fun i => marcar (b + i)) l s = (Ok tt, set_bitmap m' s) ∧
      length m' = length (bitmap s) ∧
      forall j, bit m' j = if decide (b <= j ∧ j - b ∈ l) then Some true else bit (bitmap s) j)
    as Hgen.
  { intros l. induction l as [|i l IH]; intros s0 Hb.
    - exists (bitmap s0). rewrite set_bitmap_id. split_and!; [done..|]. intros j.
      rewrite decide_False; [done|]. set_solver.
    - destruct (set_bit_spec (bitmap s0) (b + i) true) as (m1 & Hm1 & Hl1 & Hj1).
      { apply Hb; set_solver. }
      destruct (IH (set_bitmap m1 s0)) as (m' & Hrun & Hl & Hj).
      { intros k Hk. simpl. unfold lenN. rewrite Hl1. apply Hb. set_solver. }
      exists m'. simpl. rewrite (bind_run _ _ _ _ _ (marcar_run _ _ _ Hm1)), Hrun.
      split; [done|]. simpl in *. split; [congruence|]. intros j. rewrite Hj, Hj1.
      pose proof (elem_of_cons l (j - b) i) as Hc.
      destruct (decide (b <= j ∧ j - b ∈ l)) as [Hin|Hin], (decide (j = b + i)) as [->|Hne],
        (decide _) as [Hin'|Hin']; try done; exfalso; try tauto.
      + apply Hin'. split; [lia|]. apply Hc. left. lia.
      + destruct Hin' as [? [?|?]%Hc]; [lia|tauto]. }
  intros Hb. destruct (Hgen (upto n) s) as (m' & Hrun & Hl & Hj).
  { intros i Hi%elem_of_upto. apply Hb. lia. }
  exists m'. split; [done|]. split; [done|]. intros j. rewrite Hj.
  pose proof (elem_of_upto (j - b) n) as Hu.
  destruct (decide (b <= j ∧ j - b ∈ upto n)) as [[? ?%Hu]|Hn]; destruct (decide (b <= j < b + n));
    try done; [lia|]. exfalso. apply Hn. split; [lia|]. apply Hu. lia.
Qed.

(** The candidate loop from [b]: a run of free blocks, or proof that there
    is none at or after [b]. *)
Lemma candidato_inv fuel n total b s r s' : candidato fuel n total b s = (r, s') ->
  match r with
  | Ok (Some c) => b <= c ∧ c + n <= total ∧ (forall j, c <= j < c + n -> libre s j) ∧
      exists m', s' = tras_alloc s m' c n ∧ run_taken (bitmap s) m' c n
  | Ok None => s' = s ∧ forall c, b <= c -> c + n <= total -> exists j, c <= j < c + n ∧ ¬ libre s j
  | Err _ => False
  | _ => True
  end.
Proof.
  revert b r s'. induction fuel as [|fuel IH]; intros b r s'; simpl; [by intros [= <- <-]|].
  unfold add64. destruct (b + n <? U64); simpl; [|by intros [= <- <-]].
  unfold mbind at 1, M_bind at 1; simpl.
  destruct (N.leb_spec (b + n) total) as [Hle|Hgt]; simpl.
  - unfold mbind at 1, M_bind at 1.
    destruct (primer_ocupado b (upto n) s) as [r1 s1] eqn:E.
    apply primer_ocupado_inv in E as [-> Hr1].
    destruct r1 as [[i|]|e| |]; try done; [| |by intros [= <- <-]].
    + destruct Hr1 as [Hi%elem_of_upto Hn]. intros Hrun%IH.
      destruct r as [[c|]|e| |]; try done.
      * destruct Hrun as (? & ? & ?). split; [lia|done].
      * destruct Hrun as [-> Hc]. split; [done|]. intros c Hbc Hcn.
        destruct (decide (c <= b + i)); [|apply Hc; lia]. exists (b + i). split; [lia|done].
    + destruct (marcar_run_blocks b n s) as (m' & Hrun & Ht).
      { intros j Hj. apply bit_is_Some. destruct (Hr1 (j - b)) as [Hlb _].
        - apply elem_of_upto. lia.
        - replace (b + (j - b)) with j in Hlb by lia. by rewrite Hlb. }
      rewrite (bind_run _ _ _ _ _ Hrun). intros [= <- <-].
      split; [lia|]. split; [done|]. split; [|by exists m'].
      intros j Hj. replace j with (b + (j - b)) by lia. apply Hr1, elem_of_upto. lia.
  - intros [= <- <-]. split; [done|]. intros; lia.
Qed.

(** The loop advances at every turn, so [total] turns are enough. *)
Lemma candidato_total fuel n total b s :
  total + n < U64 -> total <= 8 * lenN (bitmap s) -> total <= 8 * lenN (frozen s) ->
  b <= total ∨ b + n < U64 -> (N.to_nat (total - b) < fuel)%nat ->
  exists o, (candidato fuel n total b s).1 = Ok o.
Proof.
  intros Hu Hm1 Hm2. revert b. induction fuel as [|fuel IH]; intros b Hb Hf; [lia|]. simpl.
  unfold add64. rewrite (proj2 (N.ltb_lt _ _)) by lia. unfold mbind at 1, M_bind at 1; simpl.
  destruct (N.leb_spec (b + n) total) as [Hle|Hgt]; simpl; [|by eauto].
  unfold mbind at 1, M_bind at 1.
  destruct (primer_ocupado b (upto n) s) as [r1 s1] eqn:E.
  apply primer_ocupado_inv in E as [-> Hr1].
  destruct r1 as [[i|]|e| |]; try done.
  - destruct Hr1 as [Hi%elem_of_upto Hn]. apply IH; lia.
  - destruct (marcar_run_blocks b n s) as (m' & Hrun & Ht); [intros; lia|].
    rewrite (bind_run _ _ _ _ _ Hrun). by eexists.
  - destruct Hr1 as (i & Hi%elem_of_upto & Hn). exfalso.
    destruct Hn as [Hn|Hn]; apply eq_None_not_Some in Hn; apply Hn, bit_is_Some; lia.
Qed.

Definition run_free s (c n : N) : Prop :=
  2 <= c ∧ c + n <= sb_block_count (sb s) ∧ forall j, c <= j < c + n -> libre s j.

Lemma alloc_run_inv n s r s' : alloc_run n s = (r, s') ->
  match r with
  | Ok b => run_free s b n ∧ exists m', s' = tras_alloc s m' b n ∧ run_taken (bitmap s) m' b n
  | Err e => e = NoSpace ∧ s' = s ∧ forall c, ¬ run_free s c n
  | _ => True
  end.
Proof.
  unfold alloc_run, run_free, gets. unfold mbind at 1, M_bind at 1. simpl id. cbv iota beta.
  unfold mbind at 1, M_bind at 1.
  destruct (candidato _ n _ (N.max _ 2) s) as [r1 s1] eqn:E. apply candidato_inv in E.
  destruct r1 as [[c|]|e| |]; try done; [| |by intros [= <- <-]..].
  - intros [= <- <-]. destruct E as (? & ? & ? & ?). split_and!; [lia|done|done|done].
  - destruct E as [-> _]. unfold mbind, M_bind.
    destruct (candidato _ n _ 2 s) as [r2 s2] eqn:E. apply candidato_inv in E.
    destruct r2 as [[c|]|e| |]; try done; [| |by intros [= <- <-]..].
    + intros [= <- <-]. destruct E as (? & ? & ? & ?). by split_and!.
    + destruct E as [-> Hn]. intros [= <- <-]. split_and!; [done..|].
      intros c (H1 & H2 & H3). destruct (Hn c H1 H2) as (j & Hj & Hnj). by apply Hnj, H3.
Qed.

Lemma alloc_run_total n s :
  maps_ok s -> sb_block_count (sb s) + n < U64 -> N.max (alloc_hint s) 2 + n < U64 ->
  (exists b, (alloc_run n s).1 = Ok b) ∨ (alloc_run n s).1 = Err NoSpace.
Proof.
  intros [Hm Hl] Hu Hh. unfold lenN in *.
  destruct (alloc_run n s) as [[b|e| |] s'] eqn:E; simpl; [by eauto| |exfalso..].
  { apply alloc_run_inv in E as (-> & _). by right. }
  all: unfold alloc_run, gets in E; unfold mbind at 1, M_bind at 1 in E; simpl id in E;
    cbv iota beta in E; unfold mbind at 1, M_bind at 1 in E;
    destruct (candidato_total (S (N.to_nat (sb_block_count (sb s)))) n (sb_block_count (sb s))
                (N.max (alloc_hint s) 2) s) as [o Ho]; unfold lenN; try lia;
    destruct (candidato _ n _ (N.max _ 2) s) as [r1 s1] eqn:E1; simpl in Ho; subst r1;
    apply candidato_inv in E1; destruct o as [c|]; [done|]; destruct E1 as [-> _];
    unfold mbind, M_bind in E;
    destruct (candidato_total (S (N.to_nat (sb_block_count (sb s)))) n (sb_block_count (sb s))
                2 s) as [o Ho]; unfold lenN; try lia;
    destruct (candidato _ n _ 2 s) as [r2 s2] eqn:E2; simpl in Ho; subst r2;
    by destruct o.
Qed.

Lemma alloc_extent_loop_inv fuel n s r s' : alloc_extent_loop fuel n s = (r, s') ->
  match r with
  | Ok (b, got) => got <= n ∧ (1 <= n -> 1 <= got) ∧ run_free s b got ∧
      exists m', s' = tras_alloc s m' b got ∧ run_taken (bitmap s) m' b got
  | Err e => e = NoSpace ∧ s' = s ∧ (1 <= n -> forall c, ¬ run_free s c 1)
  | _ => True
  end.
Proof.
  revert n r s'. induction fuel as [|fuel IH]; intros n r s'; simpl; [by intros [= <- <-]|].
  unfold mbind, M_bind, attempt. destruct (alloc_run n s) as [r1 s1] eqn:E.
  apply alloc_run_inv in E. destruct r1 as [b|e| |]; try by intros [= <- <-].
  destruct E as (-> & -> & Hn). destruct (N.ltb_spec 1 n) as [Hlt|Hge].
  - intros Hrun%IH. assert (n / 2 < n) by (apply N.div_lt; lia).
    assert (1 <= n / 2) by (apply N.div_le_lower_bound; lia).
    destruct r as [[b got]|e| |]; try done.
    + destruct Hrun as (? & ? & ?). split_and!; [lia|auto|naive_solver..].
    + destruct Hrun as (? & ? & ?). split_and!; auto.
  - intros [= <- <-]. split_and!; [done..|]. intros. by replace n with 1 in Hn by lia.
Qed.

Lemma alloc_extent_inv want s r s' : alloc_extent want s = (r, s') ->
  match r with
  | Ok (b, got) => 1 <= got <= N.max want 1 ∧ run_free s b got ∧
      exists m', s' = tras_alloc s m' b got ∧ run_taken (bitmap s) m' b got
  | Err e => e = NoSpace ∧ s' = s ∧ forall c, ¬ run_free s c 1
  | _ => True
  end.
Proof.
  intros H%alloc_extent_loop_inv. destruct r as [[b got]|e| |]; try done.
  - destruct H as (? & Hg & ? & ?). split_and!; [apply Hg; lia|done|done|done].
  - destruct H as (? & ? & Hn). split_and!; [done..|]. apply Hn. lia.
Qed.

(** A free block anywhere is enough: the halving never ends without one. *)
Lemma alloc_extent_total want s :
  maps_ok s -> sb_block_count (sb s) + N.max want 1 < U64 ->
  N.max (alloc_hint s) 2 + N.max want 1 < U64 ->
  (exists b, (alloc_extent want s).1 = Ok b) ∨ (alloc_extent want s).1 = Err NoSpace.
Proof.
  intros Hm. unfold alloc_extent. generalize (N.max want 1). intros n.
  assert (forall fuel n, (N.to_nat n < fuel)%nat -> sb_block_count (sb s) + n < U64 ->
    N.max (alloc_hint s) 2 + n < U64 ->
    (exists b, (alloc_extent_loop fuel n s).1 = Ok b) ∨
    (alloc_extent_loop fuel n s).1 = Err NoSpace) as Hloop; [|apply Hloop; lia].
  clear n. induction fuel as [|fuel IH]; intros n Hf Hb Hh; [lia|]. simpl.
  destruct (alloc_run_total n s Hm Hb Hh) as [[b Hr]|Hr];
    unfold mbind, M_bind, attempt; destruct (alloc_run n s) as [r1 s1] eqn:E;
    simpl in Hr; subst r1; [by eauto|]. apply alloc_run_inv in E as (_ & -> & _).
  destruct (N.ltb_spec 1 n); [|by right]. assert (n / 2 < n) by (apply N.div_lt; lia).
  apply IH; lia.
Qed.

Lemma free_block_inv b s r s' : free_block b s = (r, s') ->
  match r with
  | Ok _ => b < 8 * lenN (bitmap s) ∧ exists m', s' = set_dirty true (set_bitmap m' s) ∧
      length m' = length (bitmap s) ∧
      forall j, bit m' j = if decide (j = b) then Some false else bit (bitmap s) j
  | Err _ | Fuel => False
  | Panic => s' = s ∧ ¬ b < 8 * lenN (bitmap s)
  end.
Proof.
  unfold free_block, gets, modify, mbind, M_bind. simpl.
  destruct (set_bit (bitmap s) b false) as [m|] eqn:E; simpl; intros [= <- <-].
  - apply set_bit_inv in E as (? & ? & ?). split; [done|]. by exists m.
  - split; [done|]. intros Hb. destruct (set_bit_spec _ _ false Hb) as (? & ? & _). congruence.
Qed.
End AllocSpec.
