(* ===== verification/SosofsTree.v ===== *)
(** * sosofs: the copy-on-write B+ tree

    The tree half of [crates/sosofs/src/fs.rs] (verified node reads, range
    scans, first-match search) and of [crates/sosofs/src/write.rs] (node
    encoding, insertion and deletion with path copying). Recursion on the
    blocks of a device takes fuel: a corrupt disk may hold a cycle, and the
    source does not guard against it. *)
From S2P Require Import Prelude BlockDev SosofsLayout SosofsAlloc.
Local Open Scope N_scope.

Definition NODOS_POOL : N := 8.

(** ** [slice::binary_search_by_key] of the standard library *)
Fixpoint bsearch_loop (fuel : nat) (f : nat -> comparison) (size base : nat) : option nat :=
  match fuel with
  | O => None
  | S fuel =>
      if (1 <? size)%nat then
        let half := (size / 2)%nat in
        let mid := (base + half)%nat in
        let base := match f mid with Gt => base | _ => mid end in
        bsearch_loop fuel f (size - half) base
      else Some base
  end.

(** [inl i]: found at [i]; [inr i]: absent, to be inserted at [i]. *)
Definition binary_search {A} (v : list (Key * A)) (key : Key) : option (nat + nat) :=
  match v with
  | [] => Some (inr O)
  | _ =>
      let f i := match v !! i with Some e => Key.cmp e.1 key | None => Eq end in
      base ← bsearch_loop (S (length v)) f (length v) 0;
      Some (match f base with
            | Eq => inl base
            | Lt => inr (S base)
            | Gt => inr base
            end)
  end.

(** [Ok(i) => i, Err(0) => 0, Err(i) => i - 1]: the child that covers a key. *)
Definition child_index (r : nat + nat) : nat :=
  match r with inl i => i | inr i => pred i end.

Definition vec_insert {A} (i : nat) (x : A) (v : list A) : list A := take i v ++ x :: drop i v.
Definition vec_remove {A} (i : nat) (v : list A) : list A := take i v ++ drop (S i) v.

(** ** Node contents *)
Inductive NodeData :=
| Leaf (v : list (Key * list byte))
| Internal (v : list (Key * N)).

Definition node_min (d : NodeData) : Key :=
  match d with
  | Leaf v => match v with e :: _ => e.1 | [] => Key.MIN end
  | Internal v => match v with e :: _ => e.1 | [] => Key.MIN end
  end.
Definition node_len (d : NodeData) : N :=
  match d with Leaf v => lenN v | Internal v => lenN v end.

(** The entries copied one by one into the zeroed block; [None] is a slice
    out of range. *)
Fixpoint put_entries (size : N) (i : N) (es : list (Key * list byte)) (buf : Block) : option Block :=
  match es with
  | [] => Some buf
  | (key, payload) :: es =>
      let off := NODE_HEADER_SIZE + i * size in
      buf ← put_slice off (disk_key key) buf;
      buf ← put_slice (off + DiskKey_SIZE) payload buf;
      put_entries size (i + 1) es buf
  end.

Definition fill_entries (d : NodeData) (buf : Block) : option Block :=
  match d with
  | Leaf v => put_entries LEAF_ENTRY 0 v buf
  | Internal v => put_entries INT_ENTRY 0 (prod_map id u64 <$> v) buf
  end.

Record Cow := mkCow { c_block : N; c_min_key : Key; c_split : option (Key * N) }.

Section Tree.
Context {D : Type} `{BlockDevice D} `{Crc32c}.

Definition dev_op {A} (m : M D BlockError A) : F D A := zoom dev set_dev (fun _ => Io) m.

(** ** Node buffers *)
Definition tomar_nodo : F D Block :=
  s ← gets id;
  match last (nodos_libres s) with
  | Some b => modify (set_libres (removelast (nodos_libres s)));; mret b
  | None => mret (zeros BLOCK_SIZE)
  end.

Definition soltar_nodo (buf : Block) : F D unit :=
  s ← gets id;
  if lenN (nodos_libres s) <? NODOS_POOL
  then modify (set_libres (nodos_libres s ++ [buf]))
  else mret tt.

(** ** Reading *)

(** A node as it arrives: checksum and home block are checked unless the
    device says the block came out of its cache. *)
Definition read_node (block : N) : F D Block :=
  modify (fun s => set_leidos (wrapping_add64 (nodos_leidos s) 1) s);;
  _ ← tomar_nodo;
  buf ← dev_op (read_block block);
  let hdr := node_header_read buf in
  s ← gets id;
  if last_read_cached (dev s) then mret buf
  else if negb (crc32c (drop 4 buf) =? h_crc hdr) then
    modify (fun s => set_dev (invalidate_block block (dev s)) s);;
    throw (BadChecksum block)
  else if negb (h_expected_block hdr =? block) then
    modify (fun s => set_dev (invalidate_block block (dev s)) s);;
    throw (MisplacedNode block)
  else mret buf.

Definition leaf_off (i : N) : N := NODE_HEADER_SIZE + i * LEAF_ENTRY.
Definition int_off (i : N) : N := NODE_HEADER_SIZE + i * INT_ENTRY.
Definition entry_key (off : N) (node : Block) : Key := read_disk_key (drop (N.to_nat off) node).
Definition entry_payload (off : N) (node : Block) : F D (list byte) :=
  of_option panic (slice (off + DiskKey_SIZE) ITEM_PAYLOAD node).
Definition entry_child (off : N) (node : Block) : F D N :=
  c ← of_option panic (slice (off + DiskKey_SIZE) 8 node); mret (le_val c).

Definition en_rango (min max key : Key) : bool := Key.leb min key && Key.leb key max.

(** Child [i] covers [[low, high)]; the last one has no upper bound. *)
Definition visita (node : Block) (n i : N) (min max : Key) : bool :=
  let low := entry_key (int_off i) node in
  Key.leb low max &&
  (if i + 1 <? n then Key.ltb min (entry_key (int_off (i + 1)) node) else true).

Fixpoint scan_node (fuel : nat) (block : N) (min max : Key) (out : list (Key * list byte)) :
    F D (list (Key * list byte)) :=
  match fuel with
  | O => no_fuel
  | S fuel =>
      node ← read_node block;
      let hdr := node_header_read node in
      let n := h_nkeys hdr in
      if h_level hdr =? 0 then
        if LEAF_CAP <? n then throw Corrupt
        else
          out ← mfold (fun out i =>
            let key := entry_key (leaf_off i) node in
            if en_rango min max key then
              payload ← entry_payload (leaf_off i) node; mret (out ++ [(key, payload)])
            else mret out) out (upto n);
          soltar_nodo node;; mret out
      else
        if INT_CAP <? n then throw Corrupt
        else
          out ← mfold (fun out i =>
            if visita node n i min max then
              child ← entry_child (int_off i) node; scan_node fuel child min max out
            else mret out) out (upto n);
          soltar_nodo node;; mret out
  end.

Definition scan_range (fuel : nat) (min max : Key) : F D (list (Key * list byte)) :=
  root ← gets tree_root; scan_node fuel root min max [].

Fixpoint find_node (fuel : nat) (block : N) (min max : Key) (pred : list byte -> bool) :
    F D (option (Key * list byte)) :=
  match fuel with
  | O => no_fuel
  | S fuel =>
      node ← read_node block;
      let hdr := node_header_read node in
      let n := h_nkeys hdr in
      if h_level hdr =? 0 then
        if LEAF_CAP <? n then throw Corrupt
        else
          hit ← mfind (fun i =>
            let key := entry_key (leaf_off i) node in
            if en_rango min max key then
              payload ← entry_payload (leaf_off i) node;
              mret (if pred payload then Some (key, payload) else None)
            else mret None) (upto n);
          soltar_nodo node;; mret hit
      else
        if INT_CAP <? n then throw Corrupt
        else
          hit ← mfind (fun i =>
            if visita node n i min max then
              child ← entry_child (int_off i) node; find_node fuel child min max pred
            else mret None) (upto n);
          soltar_nodo node;; mret hit
  end.

Definition find_first (fuel : nat) (min max : Key) (pred : list byte -> bool) :
    F D (option (Key * list byte)) :=
  root ← gets tree_root; find_node fuel root min max pred.

(** ** Whole nodes *)
Definition parse_node (block : N) : F D NodeData :=
  node ← read_node block;
  let hdr := node_header_read node in
  let n := h_nkeys hdr in
  if h_level hdr =? 0 then
    if LEAF_CAP <? n then throw Corrupt
    else
      v ← mfold (fun v i =>
        payload ← entry_payload (leaf_off i) node;
        mret (v ++ [(entry_key (leaf_off i) node, payload)])) [] (upto n);
      mret (Leaf v)
  else
    if INT_CAP <? n then throw Corrupt
    else
      v ← mfold (fun v i =>
        child ← entry_child (int_off i) node;
        mret (v ++ [(entry_key (int_off i) node, child)])) [] (upto n);
      mret (Internal v).

Definition node_level (block : N) : F D N :=
  node ← read_node block; mret (h_level (node_header_read node)).

(** The block image of a node: entries, header, checksum over the rest. *)
Definition node_image (gen block level : N) (data : NodeData) : option Block :=
  buf ← fill_entries data (zeros BLOCK_SIZE);
  buf ← put_slice 0 (node_header_bytes (mkNodeHeader 0 gen block level (node_len data mod 65536))) buf;
  put_slice 0 (u32 (crc32c (drop 4 buf))) buf.

Definition write_node (level : N) (data : NodeData) : F D (N * Key) :=
  block ← alloc_run 1;
  s ← gets id;
  gen ← add64 (sb_generation (sb s)) 1;
  buf ← of_option panic (node_image gen block level data);
  dev_op (write_block block buf);;
  mret (block, node_min data).

(** ** Insertion *)
Definition write_split (level : N) (overflow : bool) (data : NodeData) : F D Cow :=
  if negb overflow then
    '(block, min_key) ← write_node level data;
    mret (mkCow block min_key None)
  else
    let '(izq, der) :=
      match data with
      | Leaf v => let m := (length v / 2)%nat in (Leaf (take m v), Leaf (drop m v))
      | Internal v => let m := (length v / 2)%nat in (Internal (take m v), Internal (drop m v))
      end in
    '(lb, lmin) ← write_node level izq;
    '(rb, rmin) ← write_node level der;
    mret (mkCow lb lmin (Some (rmin, rb))).

(** [level - 1] on a [u8]. *)
Definition level_down (level : N) : F D N := if level =? 0 then panic else mret (level - 1).

Fixpoint insert_rec (fuel : nat) (block level : N) (key : Key) (payload : list byte) : F D Cow :=
  match fuel with
  | O => no_fuel
  | S fuel =>
      d ← parse_node block;
      match d with
      | Leaf v =>
          r ← of_option no_fuel (binary_search v key);
          let v := match r with
                   | inl i => alter (fun e => (e.1, payload)) i v
                   | inr i => vec_insert i (key, payload) v
                   end in
          free_block block;;
          write_split 0 (LEAF_CAP <? lenN v) (Leaf v)
      | Internal v =>
          r ← of_option no_fuel (binary_search v key);
          let idx := child_index r in
          e ← of_option panic (v !! idx);
          level' ← level_down level;
          cow ← insert_rec fuel e.2 level' key payload;
          let v := <[idx := (c_min_key cow, c_block cow)]> v in
          let v := match c_split cow with
                   | Some (sk, sblk) => vec_insert (S idx) (sk, sblk) v
                   | None => v
                   end in
          free_block block;;
          write_split level (INT_CAP <? lenN v) (Internal v)
      end
  end.

Definition tree_insert (fuel : nat) (key : Key) (payload : list byte) : F D unit :=
  root ← gets tree_root;
  level ← node_level root;
  cow ← insert_rec fuel root level key payload;
  match c_split cow with
  | None => modify (set_tree_root (c_block cow))
  | Some (sk, sblk) =>
      if 255 <? level + 1 then panic
      else
        '(nb, _) ← write_node (level + 1) (Internal [(c_min_key cow, c_block cow); (sk, sblk)]);
        modify (set_tree_root nb)
  end.

(** ** Deletion *)
Fixpoint delete_rec (fuel : nat) (block level : N) (key : Key) : F D (option (N * Key)) :=
  match fuel with
  | O => no_fuel
  | S fuel =>
      d ← parse_node block;
      match d with
      | Leaf v =>
          r ← of_option no_fuel (binary_search v key);
          match r with
          | inr _ => throw NotFound
          | inl i =>
              let v := vec_remove i v in
              free_block block;;
              if lenN v =? 0 then mret None
              else '(nb, min) ← write_node 0 (Leaf v); mret (Some (nb, min))
          end
      | Internal v =>
          r ← of_option no_fuel (binary_search v key);
          let idx := child_index r in
          e ← of_option panic (v !! idx);
          level' ← level_down level;
          o ← delete_rec fuel e.2 level' key;
          let v := match o with
                   | Some (nb, nmin) => <[idx := (nmin, nb)]> v
                   | None => vec_remove idx v
                   end in
          free_block block;;
          if lenN v =? 0 then mret None
          else '(nb, min) ← write_node level (Internal v); mret (Some (nb, min))
      end
  end.

(** Lower the tree while the root has a single child. *)
Fixpoint encoger (fuel : nat) : F D unit :=
  match fuel with
  | O => no_fuel
  | S fuel =>
      root ← gets tree_root;
      d ← parse_node root;
      match d with
      | Internal [(_, child)] =>
          free_block root;;
          modify (set_tree_root child);;
          encoger fuel
      | _ => mret tt
      end
  end.

Definition tree_delete (fuel : nat) (key : Key) : F D unit :=
  root ← gets tree_root;
  level ← node_level root;
  r ← delete_rec fuel root level key;
  match r with
  | Some (nb, _) => modify (set_tree_root nb)
  | None =>
      '(nb, _) ← write_node 0 (Leaf []);
      modify (set_tree_root nb)
  end;;
  encoger fuel.
End Tree.
