(* ===== verification/SosofsNode.v ===== *)
(** * sosofs: nodes of the tree, on disk and in memory

    Binary search over sorted entries, the image of a node and its decoding,
    and what the node operations of [SosofsTree] do to the mounted state:
    a verified read changes nothing but the read statistics and the buffers,
    a write takes one free block and puts there a node that reads back. *)
From S2P Require Import Prelude BlockDev SosofsLayout SosofsAlloc SosofsTree.
From Stdlib Require Import Sorted.
Local Open Scope N_scope.

(** ** Sorted entries and binary search *)
Section Sorted.
Context {A : Type}.
Implicit Types v l r : list (Key * A).

Definition below (k : Key) (e : Key * A) : Prop := Key.lt e.1 k.
Definition above (k : Key) (e : Key * A) : Prop := Key.lt k e.1.
Definition ksorted v : Prop := StronglySorted Key.lt v.*1.

Lemma ksorted_app l r :
  ksorted (l ++ r) <-> ksorted l ∧ ksorted r ∧ forall a b, a ∈ l -> b ∈ r -> Key.lt a.1 b.1.
Proof.
  unfold ksorted. induction l as [|e l IH]; simpl.
  - split; [|tauto]. intros H. split; [constructor|]. split; [done|]. intros a b Ha. set_solver.
  - split.
    + intros [H1 H2]%StronglySorted_inv. apply IH in H1 as (Hl & Hr & Hlr).
      rewrite fmap_app, Forall_app in H2. destruct H2 as [H2 H3].
      split; [by constructor|]. split; [done|]. intros a b [->|Ha]%elem_of_cons Hb.
      * rewrite Forall_forall in H3. apply H3. apply list_elem_of_fmap. by exists b.
      * by apply Hlr.
    + intros ([H1 H2]%StronglySorted_inv & Hr & Hlr). constructor.
      * apply IH. split_and!; [done|done|]. intros; apply Hlr; set_solver.
      * rewrite fmap_app, Forall_app. split; [done|]. apply Forall_forall.
        intros k (b & -> & Hb)%list_elem_of_fmap. apply Hlr; set_solver.
Qed.

Lemma ksorted_cons e r : ksorted (e :: r) <-> ksorted r ∧ Forall (above e.1) r.
Proof.
  change (e :: r) with ([e] ++ r). rewrite ksorted_app, Forall_forall. split.
  - intros (_ & Hr & H). split; [done|]. intros b Hb. apply H; set_solver.
  - intros (Hr & H). split_and!; [repeat constructor|done|].
    intros a b ->%list_elem_of_singleton Hb. by apply H.
Qed.

(** What binary search says of a sorted vector, in the shape the edits of
    the vector need. *)
Definition search_result (v : list (Key * A)) (k : Key) (r : nat + nat) : Prop :=
  match r with
  | inl i => exists l x r, v = l ++ (k, x) :: r ∧ i = length l ∧ Forall (below k) l ∧ Forall (above k) r
  | inr i => exists l r, v = l ++ r ∧ i = length l ∧ Forall (below k) l ∧ Forall (above k) r
  end.

Lemma ksorted_lookup v i j a b :
  ksorted v -> v !! i = Some a -> v !! j = Some b -> (i < j)%nat -> Key.lt a.1 b.1.
Proof.
  intros Hs Hi Hj Hij. rewrite <- (take_drop j v) in Hs. apply ksorted_app in Hs as (_ & _ & Hs).
  apply Hs.
  - apply list_elem_of_lookup. exists i. rewrite lookup_take. by rewrite decide_True.
  - apply list_elem_of_lookup. exists O. by rewrite lookup_drop, Nat.add_0_r.
Qed.

Lemma search_split v k j :
  ksorted v -> (forall i e, (i < j)%nat -> v !! i = Some e -> Key.lt e.1 k) ->
  (forall i e, (j <= i)%nat -> v !! i = Some e -> Key.lt k e.1) -> (j <= length v)%nat ->
  search_result v k (inr j).
Proof.
  intros Hs Hl Hr Hj. exists (take j v), (drop j v). rewrite take_drop, length_take.
  split_and!; [done|lia| |].
  - apply Forall_lookup. intros i e Hi. rewrite lookup_take in Hi. case_decide; [|done]. by eapply Hl.
  - apply Forall_lookup. intros i e Hi. rewrite lookup_drop in Hi. eapply (Hr (j + i)%nat); [lia|done].
Qed.

Lemma search_found v k i e :
  ksorted v -> v !! i = Some e -> e.1 = k -> search_result v k (inl i).
Proof.
  intros Hs Hi Hk. pose proof (lookup_lt_Some _ _ _ Hi).
  exists (take i v), e.2, (drop (S i) v). rewrite length_take. split_and!; [|lia| |].
  - rewrite <- (take_drop_middle v i e Hi) at 1. by rewrite <- Hk, <- surjective_pairing.
  - apply Forall_lookup. intros j a Hj. rewrite lookup_take in Hj. case_decide; [|done].
    unfold below. rewrite <- Hk. by eapply ksorted_lookup.
  - apply Forall_lookup. intros j a Hj. rewrite lookup_drop in Hj.
    unfold above. rewrite <- Hk. eapply ksorted_lookup; [done|done|exact Hj|lia].
Qed.

(** The loop halves [size]; everything at or after [base + size] is above
    the key, everything before [base] below it. *)
Lemma bsearch_loop_spec v k fuel size base :
  ksorted v -> (0 < size)%nat -> (base + size <= length v)%nat -> (size <= fuel)%nat -> (0 < fuel)%nat ->
  (forall i e, (base + size <= i)%nat -> v !! i = Some e -> Key.lt k e.1) ->
  (base = 0%nat ∨ forall e, v !! base = Some e -> Key.le e.1 k) ->
  exists b, bsearch_loop fuel (fun i => match v !! i with Some e => Key.cmp e.1 k | None => Eq end)
              size base = Some b ∧ (b < length v)%nat ∧
    (forall i e, (b < i)%nat -> v !! i = Some e -> Key.lt k e.1) ∧
    (b = 0%nat ∨ forall e, v !! b = Some e -> Key.le e.1 k).
Proof.
  intros Hs. revert size base. induction fuel as [|fuel IH]; intros size base H0 Hl Hf Hf0 Hr Hb; [lia|].
  cbn [bsearch_loop]. cbv beta zeta. destruct (Nat.ltb_spec 1 size).
  - assert (1 <= size / 2 < size ∧ 2 * (size / 2) <= size)%nat as Hhalf.
    { split_and!; [apply Nat.div_le_lower_bound; lia|apply Nat.div_lt; lia|apply Nat.Div0.mul_div_le]. }
    generalize dependent (size / 2)%nat. intros half Hhalf.
    destruct (lookup_lt_is_Some_2 v (base + half)%nat) as [e He]; [lia|]. rewrite He.
    pose proof (key_cmp_spec e.1 k) as Hcmp.
    apply IH; [lia|destruct (Key.cmp e.1 k); lia|lia|lia| |].
    + intros i a Hi Ha. destruct (Key.cmp e.1 k); cbv iota in Hi; [apply (Hr i a); [lia|done]..|].
      destruct (decide (i = base + half)%nat) as [->|]; [by simplify_eq|].
      apply key_lt_trans with e.1; [done|]. eapply ksorted_lookup; [done|done|done|lia].
    + destruct (Key.cmp e.1 k); [right|right|exact Hb]; intros a Ha; simplify_eq; [by right|by left].
  - exists base. split_and!; [done|lia| |done]. intros i e Hi. apply Hr. lia.
Qed.

Lemma binary_search_spec v k :
  ksorted v -> exists o, binary_search v k = Some o ∧ search_result v k o.
Proof.
  intros Hs. destruct v as [|e v]; [eexists; split; [done|]; by exists [], []|].
  unfold binary_search.
  destruct (bsearch_loop_spec (e :: v) k (S (length (e :: v))) (length (e :: v)) 0 Hs) as (b & Hrun & Hb & Hr & Hle);
    [simpl; lia..| |by left|].
  { intros i a Hi Ha. apply lookup_lt_Some in Ha. lia. }
  rewrite Hrun. simpl. eexists; split; [done|].
  destruct (lookup_lt_is_Some_2 (e :: v) b Hb) as [a Ha]. rewrite Ha.
  pose proof (key_cmp_spec a.1 k) as Hcmp. destruct (Key.cmp a.1 k).
  - by eapply search_found.
  - apply search_split; [done| |intros; eapply Hr; [|done]; lia|lia]. intros i x Hi Hx.
    destruct (decide (i = b)) as [->|]; [by simplify_eq|].
    apply key_lt_trans with a.1; [|done]. eapply ksorted_lookup; [done|done|done|lia].
  - apply search_split; [done| | |lia].
    + intros i x Hi Hx. destruct Hle as [->|Hle]; [lia|]. exfalso.
      destruct (Hle _ Ha) as [Hlt|Heq].
      * by apply (key_lt_irrefl k), key_lt_trans with a.1.
      * rewrite Heq in Hcmp. by apply key_lt_irrefl in Hcmp.
    + intros i x Hi Hx. destruct (decide (i = b)) as [->|]; [by simplify_eq|].
      eapply Hr; [|done]. lia.
Qed.
End Sorted.

(** ** Edits of a vector at the place a search found *)
Section Edits.
Context {A : Type}.
Lemma vec_insert_app (l r : list A) x : vec_insert (length l) x (l ++ r) = l ++ x :: r.
Proof. unfold vec_insert. by rewrite take_app_length, drop_app_length. Qed.
Lemma vec_insert_app_S (l r : list A) x y : vec_insert (S (length l)) x (l ++ y :: r) = l ++ y :: x :: r.
Proof.
  unfold vec_insert. rewrite (cons_middle y), (assoc_L (++)).
  rewrite take_app_length', drop_app_length' by (rewrite length_app; simpl; lia).
  by rewrite <- (assoc_L (++)).
Qed.
Lemma vec_remove_app (l r : list A) x : vec_remove (length l) (l ++ x :: r) = l ++ r.
Proof.
  unfold vec_remove. rewrite take_app_length. f_equal.
  rewrite (cons_middle x), (assoc_L (++)), drop_app_length'; [done|]. rewrite length_app; simpl; lia.
Qed.
Lemma alter_app_middle (f : A -> A) l r x : alter f (length l) (l ++ x :: r) = l ++ f x :: r.
Proof. induction l as [|y l IH]; simpl; [done|]. f_equal. exact IH. Qed.
Lemma insert_app_middle l r (x y : A) : <[length l := y]> (l ++ x :: r) = l ++ y :: r.
Proof. induction l as [|z l IH]; simpl; [done|]. f_equal. exact IH. Qed.
End Edits.

(** ** The image of a node *)
Definition leaf_entry (off : N) (blk : Block) : Key * list byte :=
  (entry_key off blk, take (N.to_nat ITEM_PAYLOAD) (drop (N.to_nat (off + DiskKey_SIZE)) blk)).
Definition int_entry (off : N) (blk : Block) : Key * N :=
  (entry_key off blk, le_val (take 8 (drop (N.to_nat (off + DiskKey_SIZE)) blk))).

Definition decode_node (blk : Block) : NodeData :=
  let hdr := node_header_read blk in
  if h_level hdr =? 0
  then Leaf ((fun i => leaf_entry (leaf_off i) blk) <$> upto (h_nkeys hdr))
  else Internal ((fun i => int_entry (int_off i) blk) <$> upto (h_nkeys hdr)).

Definition node_cap (level : N) : N := if level =? 0 then LEAF_CAP else INT_CAP.

(** What the entries of a node in memory satisfy. *)
Definition data_wf (d : NodeData) : Prop :=
  match d with
  | Leaf v => Forall (fun e => Key.wf e.1 ∧ lenN e.2 = ITEM_PAYLOAD) v
  | Internal v => Forall (fun e => Key.wf e.1 ∧ e.2 < U64) v
  end.
(** A leaf is at level 0, an inner node above. *)
Definition level_of (d : NodeData) (level : N) : Prop :=
  level < 256 ∧ match d with Leaf _ => level = 0 | Internal _ => level ≠ 0 end.

Lemma lenN_fmap {A B} (f : A -> B) l : lenN (f <$> l) = lenN l.
Proof. unfold lenN. by rewrite length_fmap. Qed.
Lemma lenN_upto n : lenN (upto n) = n.
Proof. unfold upto. rewrite lenN_fmap. unfold lenN. rewrite length_seq. lia. Qed.
Lemma upto_lookup n i : i < n -> upto n !! N.to_nat i = Some i.
Proof.
  intros Hi. unfold upto. rewrite list_lookup_fmap, lookup_seq_lt by lia. simpl. f_equal. lia.
Qed.

(** Reading the entries one by one recovers the list they came from. *)
Lemma fmap_upto_eq {A} (g : N -> A) (l : list A) :
  (forall i x, l !! N.to_nat i = Some x -> g i = x) -> g <$> upto (lenN l) = l.
Proof.
  intros Hg. apply list_eq. intros j. destruct (decide (j < length l)%nat) as [Hj|Hj].
  - destruct (lookup_lt_is_Some_2 l j Hj) as [x Hx]. rewrite Hx, list_lookup_fmap.
    replace j with (N.to_nat (N.of_nat j)) in * by lia.
    rewrite upto_lookup by (unfold lenN; lia). simpl. f_equal. by apply Hg.
  - rewrite !lookup_ge_None_2; [done|lia|]. rewrite length_fmap.
    pose proof (lenN_upto (lenN l)). unfold lenN in *. lia.
Qed.

(** A run of entries that all take [size] bytes. *)
Lemma concat_uniform_length (size : N) (enc : list (list byte)) :
  Forall (fun e => lenN e = size) enc -> lenN (concat enc) = lenN enc * size.
Proof.
  induction 1 as [|e es He Hes IH]; simpl; [done|]. rewrite lenN_app, lenN_cons, He, IH. lia.
Qed.

Lemma drop_concat_uniform (size : N) (enc : list (list byte)) i e post :
  Forall (fun e => lenN e = size) enc -> enc !! N.to_nat i = Some e ->
  exists rest, drop (N.to_nat (i * size)) (concat enc ++ post) = e ++ rest.
Proof.
  intros Hs. revert i. induction Hs as [|x es Hx Hes IH]; intros i Hi; [done|].
  destruct (decide (i = 0)) as [->|Hne].
  - simpl in Hi. simplify_eq. simpl. rewrite <- (assoc_L (++)). by eexists.
  - destruct (IH (i - 1)) as [rest Hr].
    { replace (N.to_nat i) with (S (N.to_nat (i - 1))) in Hi by lia. exact Hi. }
    exists rest. rewrite <- Hr. simpl concat. rewrite <- (assoc_L (++)).
    rewrite drop_app_ge by (unfold lenN in *; nia). f_equal. unfold lenN in *. nia.
Qed.

Definition encode_entry (e : Key * list byte) : list byte := disk_key e.1 ++ e.2.

Lemma put_entries_run (psize : N) es pre (n i : N) :
  Forall (fun e => lenN e.2 = psize) es ->
  lenN pre = NODE_HEADER_SIZE + i * (DiskKey_SIZE + psize) ->
  lenN es * (DiskKey_SIZE + psize) <= n ->
  put_entries (DiskKey_SIZE + psize) i es (pre ++ zeros n) =
  Some (pre ++ concat (encode_entry <$> es) ++ zeros (n - lenN es * (DiskKey_SIZE + psize))).
Proof.
  intros Hes. revert pre n i. induction Hes as [|[k p] es Hp Hes IH]; intros pre n i Hpre Hn.
  - simpl. do 3 f_equal. unfold lenN. simpl. lia.
  - rewrite lenN_cons in Hn. unfold DiskKey_SIZE in *. cbn [put_entries snd fst] in *.
    replace n with (24 + (psize + (n - 24 - psize))) at 1 by lia. rewrite !zeros_app.
    rewrite <- Hpre.
    rewrite put_slice_app; [|done|done]. cbn [mbind option_bind].
    rewrite (assoc_L (++)), put_slice_app; [|by rewrite lenN_app|by rewrite lenN_zeros, Hp].
    cbn [mbind option_bind]. rewrite (assoc_L (++)), IH.
    + f_equal. cbn [fmap list_fmap concat encode_entry fst snd].
      unfold encode_entry at 2. cbn [fst snd]. rewrite <- !(assoc_L (++)), lenN_cons.
      do 5 f_equal. lia.
    + rewrite !lenN_app, Hp. change (lenN (disk_key k)) with 24. unfold NODE_HEADER_SIZE in *. lia.
    + lia.
Qed.

Section NodeImage.
Context `{Crc32c}.

Definition node_at (blk : Block) (b level : N) (d : NodeData) : Prop :=
  crc32c (drop 4 blk) = h_crc (node_header_read blk) ∧
  h_expected_block (node_header_read blk) = b ∧
  h_level (node_header_read blk) = level ∧
  node_len d <= node_cap level ∧
  decode_node blk = d.

Lemma decode_len blk : node_len (decode_node blk) = h_nkeys (node_header_read blk).
Proof. unfold decode_node. case_match; simpl; by rewrite lenN_fmap, lenN_upto. Qed.

Lemma node_at_level blk b level d : node_at blk b level d -> level_of d level.
Proof.
  intros (_ & _ & Hl & _ & Hd). split.
  - rewrite <- Hl. apply (field_lt 20 1).
  - rewrite <- Hd. unfold decode_node. rewrite Hl. by destruct (N.eqb_spec level 0).
Qed.

Lemma node_at_wf blk b level d : lenN blk = BLOCK_SIZE -> node_at blk b level d -> data_wf d.
Proof.
  intros Hlen (_ & _ & Hl & Hc & Hd). assert (Hn := decode_len blk). rewrite Hd in Hn.
  rewrite <- Hd. unfold decode_node, node_cap in *. rewrite Hl. rewrite Hn in Hc.
  destruct (level =? 0); cbn [data_wf]; apply Forall_fmap, Forall_forall;
    intros i Hi%elem_of_upto; cbn [compose leaf_entry int_entry fst snd].
  - split; [apply read_disk_key_wf|]. unfold lenN in *. rewrite length_take, length_drop.
    unfold leaf_off, NODE_HEADER_SIZE, DiskKey_SIZE, ITEM_PAYLOAD, BLOCK_SIZE in *.
    change LEAF_ENTRY with 296. change LEAF_CAP with 13 in Hc. lia.
  - split; [apply read_disk_key_wf|]. eapply N.lt_le_trans; [apply le_val_lt|].
    unfold lenN. rewrite length_take. unfold U64. change (2 ^ 64) with (256 ^ 8).
    apply N.pow_le_mono_r; lia.
Qed.

Definition encode_data (d : NodeData) : list (list byte) :=
  match d with
  | Leaf v => encode_entry <$> v
  | Internal v => encode_entry <$> (prod_map id u64 <$> v)
  end.
Definition entry_size (d : NodeData) : N :=
  match d with Leaf _ => LEAF_ENTRY | Internal _ => INT_ENTRY end.

Lemma encode_data_uniform d : data_wf d -> Forall (fun e => lenN e = entry_size d) (encode_data d).
Proof.
  destruct d as [v|v]; simpl; intros Hwf.
  - apply Forall_fmap. eapply Forall_impl; [exact Hwf|]. intros e [_ He]. simpl.
    unfold encode_entry. by rewrite lenN_app, He.
  - rewrite <- list_fmap_compose. apply Forall_fmap. eapply Forall_impl; [exact Hwf|]. done.
Qed.
Lemma encode_data_len d : lenN (encode_data d) = node_len d.
Proof. destruct d; simpl; unfold lenN; by rewrite !length_fmap. Qed.

Lemma node_room d level : level_of d level -> node_len d <= node_cap level ->
  NODE_HEADER_SIZE + node_len d * entry_size d <= BLOCK_SIZE ∧ node_len d < 65536.
Proof.
  unfold node_cap, level_of, NODE_HEADER_SIZE, BLOCK_SIZE. intros [_ Hl] Hc. destruct d; simpl in *.
  - subst level. simpl in Hc. change LEAF_CAP with 13 in Hc. change LEAF_ENTRY with 296. lia.
  - apply N.eqb_neq in Hl. rewrite Hl in Hc. change INT_CAP with 127 in Hc.
    change INT_ENTRY with 32. lia.
Qed.

Lemma fill_entries_run d level : data_wf d -> level_of d level -> node_len d <= node_cap level ->
  fill_entries d (zeros BLOCK_SIZE) =
  Some (zeros NODE_HEADER_SIZE ++ concat (encode_data d) ++
        zeros (BLOCK_SIZE - NODE_HEADER_SIZE - node_len d * entry_size d)).
Proof.
  intros Hwf Hl Hc. pose proof (node_room d level Hl Hc) as [Hroom _].
  replace (zeros BLOCK_SIZE) with (zeros NODE_HEADER_SIZE ++ zeros (BLOCK_SIZE - NODE_HEADER_SIZE))
    by (by rewrite <- zeros_app).
  destruct d as [v|v]; cbn [fill_entries].
  - unfold LEAF_ENTRY. rewrite put_entries_run; [done| |done|].
    + eapply Forall_impl; [exact Hwf|]. by intros e [_ He].
    + simpl node_len in Hroom. change (entry_size (Leaf v)) with (DiskKey_SIZE + ITEM_PAYLOAD) in Hroom. lia.
  - unfold INT_ENTRY. rewrite put_entries_run; [|by apply Forall_fmap, Forall_true|done|].
    + do 4 f_equal. simpl node_len. simpl entry_size. by rewrite lenN_fmap.
    + simpl node_len in Hroom. rewrite lenN_fmap.
      change (entry_size (Internal v)) with (DiskKey_SIZE + 8) in Hroom. lia.
Qed.

Lemma node_image_eq gen b level d :
  data_wf d -> level_of d level -> node_len d <= node_cap level ->
  let body := concat (encode_data d) ++ zeros (BLOCK_SIZE - NODE_HEADER_SIZE - node_len d * entry_size d) in
  exists crc, crc < 2 ^ 32 ∧
  let hdr := node_header_bytes (mkNodeHeader crc gen b level (node_len d)) in
  crc = crc32c (drop 4 (hdr ++ body)) ∧ node_image gen b level d = Some (hdr ++ body).
Proof.
  intros Hwf Hl Hc body. pose proof (node_room d level Hl Hc) as [Hroom Hn].
  unfold node_image. rewrite (fill_entries_run d level) by done. fold body. cbn [mbind option_bind].
  rewrite N.mod_small by done.
  assert (forall c, node_header_bytes (mkNodeHeader c gen b level (node_len d)) =
            u32 c ++ drop 4 (node_header_bytes (mkNodeHeader 0 gen b level (node_len d)))) as Hsplit
    by done.
  set (h0 := node_header_bytes (mkNodeHeader 0 gen b level (node_len d))) in *.
  pose proof (put_slice_app [] (zeros NODE_HEADER_SIZE) body 0 h0 eq_refl eq_refl) as Hput.
  cbn [app] in Hput. rewrite Hput. cbn [mbind option_bind].
  exists (crc32c (drop 4 (h0 ++ body))). split; [apply crc32c_lt|]. rewrite Hsplit.
  split; [by rewrite <- (assoc_L (++))|].
  pose proof (put_slice_app [] (take 4 h0) (drop 4 h0 ++ body) 0
    (u32 (crc32c (drop 4 (h0 ++ body)))) eq_refl eq_refl) as Hput2.
  cbn [app] in Hput2. rewrite (assoc_L (++) (take 4 h0)), take_drop in Hput2.
  by rewrite Hput2, (assoc_L (++)).
Qed.

(** A node written reads back as it was. *)
Lemma node_image_at gen b level d :
  gen < U64 -> b < U64 -> data_wf d -> level_of d level -> node_len d <= node_cap level ->
  exists blk, node_image gen b level d = Some blk ∧ lenN blk = BLOCK_SIZE ∧ node_at blk b level d.
Proof.
  intros Hg Hb Hwf Hl Hc. pose proof (node_room d level Hl Hc) as [Hroom Hn].
  destruct (node_image_eq gen b level d Hwf Hl Hc) as (crc & Hcrc & Heq & Himg).
  eexists; split; [exact Himg|].
  pose proof (encode_data_uniform d Hwf) as Henc. pose proof (encode_data_len d) as Hel.
  split.
  { rewrite !lenN_app, lenN_zeros, (concat_uniform_length _ _ Henc), Hel.
    change (lenN (node_header_bytes _)) with NODE_HEADER_SIZE. lia. }
  assert (header_wf (mkNodeHeader crc gen b level (node_len d))) as Hhdr.
  { destruct Hl. by split_and!. }
  unfold node_at, decode_node. rewrite node_header_read_bytes by done. cbn [h_crc h_expected_block h_level h_nkeys].
  split_and!; [by rewrite <- Heq|done..|]. clear Heq Himg.
  set (hdr := node_header_bytes _). set (post := zeros _).
  assert (forall i e, encode_data d !! N.to_nat i = Some e ->
    exists rest, drop (N.to_nat (NODE_HEADER_SIZE + i * entry_size d)) (hdr ++ concat (encode_data d) ++ post) = e ++ rest)
    as Hdrop.
  { intros i e Hi. destruct (drop_concat_uniform _ _ i e post Henc Hi) as [rest Hr]. exists rest.
    rewrite <- Hr, drop_app_ge by (change (length hdr) with 32%nat; unfold NODE_HEADER_SIZE; lia).
    f_equal. change (length hdr) with 32%nat. unfold NODE_HEADER_SIZE. lia. }
  clearbody hdr post. destruct Hl as [_ Hl]. destruct d as [v|v]; cbn [encode_data entry_size node_len] in *.
  - subst level. cbn [N.eqb]. f_equal. apply fmap_upto_eq. intros i [k p] Hi.
    destruct (Hdrop i (encode_entry (k, p))) as [rest Hr]; [by rewrite list_lookup_fmap, Hi|].
    cbn [data_wf] in Hwf. rewrite Forall_lookup in Hwf. destruct (Hwf _ _ Hi) as [Hk Hp]. cbn [fst snd] in *.
    unfold leaf_entry, entry_key, leaf_off. rewrite (N2Nat.inj_add (NODE_HEADER_SIZE + _)), <- drop_drop, Hr.
    unfold encode_entry. cbn [fst snd]. rewrite <- (assoc_L (++)). f_equal; [by apply read_disk_key_bytes|].
    rewrite drop_app_length' by done. apply take_app_length'. unfold lenN in Hp. lia.
  - destruct (N.eqb_spec level 0); [done|]. f_equal. apply fmap_upto_eq. intros i [k c] Hi.
    destruct (Hdrop i (encode_entry (k, u64 c))) as [rest Hr]; [by rewrite !list_lookup_fmap, Hi|].
    cbn [data_wf] in Hwf. rewrite Forall_lookup in Hwf. destruct (Hwf _ _ Hi) as [Hk Hcw]. cbn [fst snd] in *.
    unfold int_entry, entry_key, int_off. rewrite (N2Nat.inj_add (NODE_HEADER_SIZE + _)), <- drop_drop, Hr.
    unfold encode_entry. cbn [fst snd]. rewrite <- (assoc_L (++)). f_equal; [by apply read_disk_key_bytes|].
    rewrite drop_app_length' by done. unfold u64. rewrite take_app_length' by done.
    by apply le_val_bytes.
Qed.
End NodeImage.
