(* ===== verification/SosofsStep.v ===== *)
(** * sosofs: what one node operation does to the mounted volume

    [quiet]: only the device's cache, the read counter and the spare buffers
    may have changed. [step s A B s']: the blocks [A] were released, the
    blocks [B] were taken from the free ones (a block of [A] may come back), and
    every other block in use keeps its content. The node operations of [SosofsTree] are given weakest
    precondition rules in these terms. *)
From S2P Require Import Prelude BlockDev SosofsLayout SosofsAlloc SosofsTree SosofsNode.
Local Open Scope N_scope.

Section Step.
Context {D : Type} `{BD : BlockDevice D} `{BS : !BlockDeviceSpec D} `{CRC : Crc32c}.
Implicit Types s : Sosofs D.

(** The content of a block of the volume. *)
Definition blk s (b : N) : Block := content (dev s) b.
(** Taken in the generation being built. *)
Definition alloc s (b : N) : Prop := bit (bitmap s) b = Some true.
Definition in_vol s (b : N) : Prop := 2 <= b < sb_block_count (sb s).

(** Errors a sound volume may still answer with. *)
Definition io_err (e : FsError) : Prop := e = SosofsAlloc.Io ∧ may_fail (D := D).
Definition space_err (e : FsError) : Prop := e = NoSpace ∨ io_err e.

Record same_but_dev s s' : Prop := {
  sbd_sb : sb s' = sb s;
  sbd_next : next_inode s' = next_inode s;
  sbd_frozen : frozen s' = frozen s;
  sbd_count : block_count (dev s') = block_count (dev s);
}.

Definition quiet s s' : Prop :=
  same_but_dev s s' ∧ same_dev (dev s) (dev s') ∧ bitmap s' = bitmap s ∧ dirty s' = dirty s ∧
  alloc_hint s' = alloc_hint s ∧ tree_root s' = tree_root s.

(** The volume as mounted: the maps cover it, the device holds it and the
    counters have room. *)
Record vol_ok s : Prop := {
  vol_dev : dev_ok (dev s);
  vol_size : sb_block_count (sb s) <= block_count (dev s);
  vol_maps : maps_ok s;
  vol_small : sb_block_count (sb s) < 2 ^ 63;
  vol_hint : alloc_hint s <= N.max 2 (sb_block_count (sb s));
  vol_gen : sb_generation (sb s) + 1 < U64;
}.

Record step s (A B : list N) s' : Prop := {
  step_same : same_but_dev s s';
  step_ok : vol_ok s';
  step_alloc : forall j, alloc s' j <-> j ∈ B ∨ (alloc s j ∧ j ∉ A);
  step_content : forall j, alloc s j -> (j ∉ A) -> blk s' j = blk s j;
  step_new : forall j, j ∈ B -> in_vol s j ∧ ¬ (alloc s j ∧ j ∉ A);
  step_nodup : NoDup B;
  step_dirty : dirty s = true -> dirty s' = true;
  step_slots : forall j, j < 2 -> blk s' j = blk s j;
}.

#[export] Instance same_but_dev_refl : Reflexive same_but_dev.
Proof. by intros s. Qed.
Lemma same_but_dev_trans s1 s2 s3 : same_but_dev s1 s2 -> same_but_dev s2 s3 -> same_but_dev s1 s3.
Proof. intros [] []. split; congruence. Qed.

Lemma quiet_set_dev s d : same_dev (dev s) d -> quiet s (set_dev d s).
Proof. intros Hd. split_and!; try done. split; try done. apply Hd. Qed.
Lemma quiet_refl s : dev_ok (dev s) -> quiet s s.
Proof. intros. split_and!; by try apply same_dev_refl. Qed.
Lemma quiet_trans s1 s2 s3 : quiet s1 s2 -> quiet s2 s3 -> quiet s1 s3.
Proof.
  intros (? & ? & ? & ? & ? & ?) (? & ? & ? & ? & ? & ?). split_and!; [by eapply same_but_dev_trans|by eapply same_dev_trans|congruence..].
Qed.
Lemma quiet_blk s s' b : quiet s s' -> blk s' b = blk s b.
Proof. intros (_ & (_ & _ & Hc) & _). apply Hc. Qed.
Lemma quiet_vol s s' : quiet s s' -> vol_ok s -> vol_ok s'.
Proof.
  intros ([] & (Hd & Hc & _) & Hb & _ & Hh & _) [? ? [? ?] ? ? ?].
  split; rewrite ?Hc, ?Hh, ?sbd_sb0; try done. unfold maps_ok. by rewrite sbd_sb0, Hb, sbd_frozen0.
Qed.
Lemma quiet_alloc s s' b : quiet s s' -> (alloc s' b <-> alloc s b).
Proof. intros (_ & _ & Hb & _). unfold alloc. by rewrite Hb. Qed.

Lemma quiet_step s s' : quiet s s' -> vol_ok s -> step s [] [] s'.
Proof.
  intros Hq Hv. split; [apply Hq|by eapply quiet_vol|..].
  - intros j. rewrite (quiet_alloc s s' j Hq). set_solver.
  - intros j _ _. by apply quiet_blk.
  - set_solver.
  - constructor.
  - by destruct Hq as (_ & _ & _ & -> & _).
  - intros j _. by apply quiet_blk.
Qed.

Lemma step_vol s A B s' j : step s A B s' -> (in_vol s' j <-> in_vol s j).
Proof. intros Hst. unfold in_vol. by rewrite (sbd_sb _ _ (step_same _ _ _ _ Hst)). Qed.

(** Blocks that are in use and not released keep their content. *)
Lemma step_kept s A B s' j : step s A B s' -> alloc s j -> j ∉ A -> (j ∉ B) ∧ blk s' j = blk s j ∧ alloc s' j.
Proof.
  intros Hst Ha Hj. assert (j ∉ B) as Hb.
  { intros Hb. destruct (step_new _ _ _ _ Hst j Hb) as [_ []]. done. }
  split_and!; [done|by eapply step_content|]. apply (step_alloc _ _ _ _ Hst). by right.
Qed.

(** Two steps in a row, the second one not releasing what the first took. *)
Lemma step_trans s A B s1 A' B' s2 :
  step s A B s1 -> step s1 A' B' s2 -> (forall j, j ∈ A' -> j ∉ B) -> step s (A ++ A') (B ++ B') s2.
Proof.
  intros H1 H2 Hd. pose proof (step_alloc _ _ _ _ H1) as Ha1. pose proof (step_alloc _ _ _ _ H2) as Ha2.
  pose proof (step_new _ _ _ _ H2) as Hn2.
  assert (forall j, j ∈ B' -> j ∉ B) as HBB.
  { intros j Hj Hb. destruct (Hn2 j Hj) as [_ []]. split; [apply Ha1; by left|]. intros Ha. by apply (Hd j). }
  split.
  - eapply same_but_dev_trans; [apply H1|apply H2].
  - apply H2.
  - intros j. rewrite Ha2, Ha1. pose proof (Hd j). pose proof (HBB j). rewrite !elem_of_app.
    destruct (decide (j ∈ A')), (decide (j ∈ B)), (decide (j ∈ A)); naive_solver.
  - intros j Ha [HA HA']%not_elem_of_app. etransitivity; [apply H2; [apply Ha1; by right|done]|by apply H1].
  - intros j Hj. rewrite elem_of_app in Hj. rewrite not_elem_of_app. destruct Hj as [Hj|Hj].
    + destruct (step_new _ _ _ _ H1 j Hj). tauto.
    + destruct (Hn2 j Hj) as [Hv Hna]. rewrite (step_vol _ _ _ _ j H1) in Hv. split; [done|].
      intros (Ha & HA & HA'). apply Hna. split; [|done]. apply Ha1. by right.
  - apply NoDup_app. split_and!; [apply H1| |apply H2]. intros j Hb Hb'. by apply (HBB j).
  - intros Hdirty. by apply H2, H1.
  - intros j Hj. etransitivity; [by apply (step_slots _ _ _ _ H2)|by apply (step_slots _ _ _ _ H1)].
Qed.

(** Two steps in a row, the second one replacing what the first took. *)
Lemma step_replace s A B s1 C s2 : step s A B s1 -> step s1 B C s2 -> step s A C s2.
Proof.
  intros H1 H2. pose proof (step_alloc _ _ _ _ H1) as Ha1. pose proof (step_alloc _ _ _ _ H2) as Ha2.
  pose proof (step_new _ _ _ _ H1) as Hn1. pose proof (step_new _ _ _ _ H2) as Hn2.
  assert (forall j, alloc s j -> (j ∉ A) -> alloc s1 j ∧ j ∉ B) as Hk.
  { intros j Ha HA. destruct (step_kept _ _ _ _ j H1 Ha HA) as (? & _ & ?). done. }
  split; [eapply same_but_dev_trans; [apply H1|apply H2]|apply H2|..].
  - intros j. rewrite Ha2, Ha1. split; [|intros [?|[??]]; [by left|]].
    + intros [?|[[?|?] ?]]; [by left|done|by right].
    + right. destruct (Hk j); [done..|]. split; [by right|done].
  - intros j Ha HA. destruct (Hk j Ha HA). etransitivity; [by apply H2|by apply H1].
  - intros j Hj. destruct (Hn2 j Hj) as [Hv Hna]. rewrite (step_vol _ _ _ _ j H1) in Hv.
    split; [done|]. intros [Ha HA]. apply Hna. by apply Hk.
  - apply H2.
  - intros Hd. by apply H2, H1.
  - intros j Hj. etransitivity; [by apply (step_slots _ _ _ _ H2)|by apply (step_slots _ _ _ _ H1)].
Qed.

Lemma step_quiet s A B s1 s2 : step s A B s1 -> quiet s1 s2 -> step s A B s2.
Proof.
  intros H1 Hq. pose proof (step_trans _ _ _ _ _ _ _ H1 (quiet_step _ _ Hq (step_ok _ _ _ _ H1))) as Ht.
  rewrite !app_nil_r in Ht. apply Ht. set_solver.
Qed.
Lemma quiet_then_step s s1 A B s2 : quiet s s1 -> vol_ok s -> step s1 A B s2 -> step s A B s2.
Proof.
  intros Hq Hv H1. apply (step_trans _ [] [] _ _ _ _ (quiet_step _ _ Hq Hv) H1). set_solver.
Qed.

(** Blocks [K] that the step left alone may be counted on both sides. *)
Lemma step_extend s A B s' K :
  step s A B s' -> NoDup K -> (forall j, j ∈ K -> alloc s j ∧ in_vol s j ∧ j ∉ A) -> step s (A ++ K) (B ++ K) s'.
Proof.
  intros Hst Hnd HK. split; [apply Hst|apply Hst|..].
  - intros j. rewrite (step_alloc _ _ _ _ Hst), !elem_of_app. specialize (HK j).
    destruct (decide (j ∈ K)); naive_solver.
  - intros j Ha [HA _]%not_elem_of_app. by eapply step_content.
  - intros j. rewrite !elem_of_app. specialize (HK j).
    pose proof (step_new _ _ _ _ Hst j). tauto.
  - apply NoDup_app. split_and!; [apply Hst| |done]. intros j Hb Hk.
    destruct (HK j Hk) as (Ha & _ & HA). by apply (step_kept _ _ _ _ j Hst Ha HA).
  - apply Hst.
  - apply Hst.
Qed.

#[export] Instance step_Proper s : Proper ((≡ₚ) ==> (≡ₚ) ==> (=) ==> iff) (step s).
Proof.
  assert (forall A A' B B' s', A ≡ₚ A' -> B ≡ₚ B' -> step s A B s' -> step s A' B' s') as Hone.
  { intros A A' B B' s' HA HB [H1 H2 H3 H4 H5 H6 H7 H8].
    split; [done|done|..|done|done]; [intros j; rewrite <- HB, <- HA; apply H3|
      intros j; rewrite <- HA; apply H4|intros j; rewrite <- HB, <- HA; apply H5|by rewrite <- HB]. }
  intros A A' HA B B' HB s1 s2 ->. split; intros Hs; (eapply Hone; [..|exact Hs]); by try symmetry.
Qed.

(** ** Rules for the node operations *)
Lemma wp_dev_read b (Φ : Block -> Sosofs D -> Prop) s :
  dev_ok (dev s) -> b < block_count (dev s) ->
  (forall s', quiet s s' -> Φ (blk s b) s') -> wp io_err (dev_op (read_block b)) Φ s.
Proof.
  intros Hd Hb HΦ. unfold wp, dev_op, zoom.
  pose proof (read_spec (dev s) b Hd) as [Hsame Hres]. pose proof (read_outcome (dev s) b Hd Hb) as Hans.
  destruct (read_block b (dev s)) as [[buf|e| |] d'] eqn:E; simpl in *; try done.
  destruct (Hres buf eq_refl) as [_ ->]. by apply HΦ, quiet_set_dev.
Qed.

Lemma wp_tomar_nodo Q (Φ : Block -> Sosofs D -> Prop) s :
  dev_ok (dev s) -> (forall buf s', quiet s s' -> Φ buf s') -> wp Q tomar_nodo Φ s.
Proof.
  intros Hd HΦ. unfold tomar_nodo. wp_steps. case_match; wp_steps; apply HΦ; [|by apply quiet_refl].
  split_and!; by try apply same_dev_refl.
Qed.
Lemma wp_soltar_nodo Q buf (Φ : unit -> Sosofs D -> Prop) s :
  dev_ok (dev s) -> (forall s', quiet s s' -> Φ tt s') -> wp Q (soltar_nodo buf) Φ s.
Proof.
  intros Hd HΦ. unfold soltar_nodo. wp_steps. case_match; wp_steps; apply HΦ; [|by apply quiet_refl].
  split_and!; by try apply same_dev_refl.
Qed.

Lemma wp_read_node b level d (Φ : Block -> Sosofs D -> Prop) s :
  dev_ok (dev s) -> b < block_count (dev s) -> node_at (blk s b) b level d ->
  (forall s', quiet s s' -> Φ (blk s b) s') -> wp io_err (read_node b) Φ s.
Proof.
  intros Hd Hb (Hcrc & Hhome & _) HΦ. unfold read_node. wp_steps.
  apply wp_tomar_nodo; [done|]. intros _ s1 Hq1.
  assert (quiet s s1) as Hq1'.
  { eapply quiet_trans; [|exact Hq1]. split_and!; by try apply same_dev_refl. }
  wp_steps. apply wp_dev_read; [apply Hq1'| |].
  { destruct Hq1' as (_ & (_ & -> & _) & _). done. }
  intros s2 Hq2. rewrite (quiet_blk s s1 b Hq1'). pose proof (quiet_trans _ _ _ Hq1' Hq2) as Hq.
  wp_steps. case_match; [by wp_steps; apply HΦ|].
  rewrite Hcrc, Hhome, !N.eqb_refl. simpl. wp_steps. by apply HΦ.
Qed.

Lemma mfold_append {T E A B} (f : list B -> A -> M T E (list B)) (g : A -> B) l t :
  (forall acc x, x ∈ l -> f acc x t = (Ok (acc ++ [g x]), t)) ->
  forall acc, mfold f acc l t = (Ok (acc ++ (g <$> l)), t).
Proof.
  induction l as [|x l IH]; simpl; intros Hf acc; [by rewrite app_nil_r|].
  rewrite (bind_run _ _ _ _ _ (Hf acc x ltac:(set_solver))), IH by (intros; apply Hf; set_solver).
  by rewrite <- (assoc_L (++)).
Qed.

Lemma entry_payload_run (off : N) node s :
  lenN node = BLOCK_SIZE -> off + LEAF_ENTRY <= BLOCK_SIZE ->
  entry_payload off node s = (Ok (leaf_entry off node).2, s).
Proof.
  intros Hl Ho. unfold entry_payload, slice. rewrite Hl, (proj2 (N.leb_le _ _)); [done|].
  unfold LEAF_ENTRY in Ho. lia.
Qed.
Lemma entry_child_run (off : N) node s :
  lenN node = BLOCK_SIZE -> off + INT_ENTRY <= BLOCK_SIZE ->
  entry_child off node s = (Ok (int_entry off node).2, s).
Proof.
  intros Hl Ho. unfold entry_child, slice. rewrite Hl, (proj2 (N.leb_le _ _)); [done|].
  unfold INT_ENTRY in Ho. lia.
Qed.
Lemma leaf_off_room (i : N) : i < LEAF_CAP -> leaf_off i + LEAF_ENTRY <= BLOCK_SIZE.
Proof. change LEAF_CAP with 13. unfold leaf_off, NODE_HEADER_SIZE, BLOCK_SIZE. change LEAF_ENTRY with 296. lia. Qed.
Lemma int_off_room (i : N) : i < INT_CAP -> int_off i + INT_ENTRY <= BLOCK_SIZE.
Proof. change INT_CAP with 127. unfold int_off, NODE_HEADER_SIZE, BLOCK_SIZE. change INT_ENTRY with 32. lia. Qed.

Lemma wp_parse_node b level d (Φ : NodeData -> Sosofs D -> Prop) s :
  dev_ok (dev s) -> b < block_count (dev s) -> node_at (blk s b) b level d ->
  (forall s', quiet s s' -> Φ d s') -> wp io_err (parse_node b) Φ s.
Proof.
  intros Hd Hb Hat HΦ. unfold parse_node. wp_steps. eapply wp_read_node; [done..|].
  intros s1 Hq. pose proof (content_length (dev s) b Hd Hb) as Hlen. fold (blk s b) in Hlen.
  destruct Hat as (_ & _ & Hl & Hcap & Hdec). rewrite <- Hdec in Hcap. rewrite decode_len in Hcap.
  unfold decode_node, node_cap in *. rewrite <- Hl in Hcap.
  destruct (h_level _ =? 0); rewrite (proj2 (N.ltb_ge _ _)) by done; wp_steps.
  - unfold wp. rewrite (mfold_append _ (fun i => leaf_entry (leaf_off i) (blk s b))); [cbn [app]; unfold mret, M_ret; rewrite Hdec; by apply HΦ|].
    intros acc i Hi%elem_of_upto. erewrite bind_run; [|apply entry_payload_run; [done|apply leaf_off_room; lia]].
    done.
  - unfold wp. rewrite (mfold_append _ (fun i => int_entry (int_off i) (blk s b))); [cbn [app]; unfold mret, M_ret; rewrite Hdec; by apply HΦ|].
    intros acc i Hi%elem_of_upto. erewrite bind_run; [|apply entry_child_run; [done|apply int_off_room; lia]].
    done.
Qed.

Lemma wp_node_level b level d (Φ : N -> Sosofs D -> Prop) s :
  dev_ok (dev s) -> b < block_count (dev s) -> node_at (blk s b) b level d ->
  (forall s', quiet s s' -> Φ level s') -> wp io_err (node_level b) Φ s.
Proof.
  intros Hd Hb Hat HΦ. unfold node_level. wp_steps. eapply wp_read_node; [done..|].
  intros s1 Hq. wp_steps. destruct Hat as (_ & _ & -> & _). by apply HΦ.
Qed.

Lemma wp_free_block Q b (Φ : unit -> Sosofs D -> Prop) s :
  vol_ok s -> in_vol s b ->
  (forall s', step s [b] [] s' -> dirty s' = true -> dev s' = dev s -> tree_root s' = tree_root s -> Φ tt s') -> wp Q (free_block b) Φ s.
Proof.
  intros Hv Hb HΦ. unfold wp. destruct (free_block b s) as [r s'] eqn:E. apply free_block_inv in E.
  destruct (vol_maps s Hv) as [Hm Hl].
  destruct r as [[]|e| |]; [|done| |done].
  - destruct E as (_ & m' & -> & Hlen & Hbit). apply HΦ; [|done..]. split; [done|..].
    + destruct Hv. split; try done. unfold maps_ok in *. simpl. unfold lenN in *. rewrite Hlen. done.
    + intros j. unfold alloc. simpl. rewrite Hbit. rewrite list_elem_of_singleton.
      case_decide; [|set_solver]. subst. split; [done|]. intros [?|[? ?]]; [set_solver|done].
    + done.
    + set_solver.
    + constructor.
    + done.
    + done.
  - destruct E as [_ []]. unfold in_vol in Hb. lia.
Qed.

(** A run of consecutive blocks. *)
Definition blocks_from (b n : N) : list N := (N.add b) <$> upto n.
Lemma elem_of_blocks_from b n j : j ∈ blocks_from b n <-> b <= j < b + n.
Proof.
  unfold blocks_from. rewrite list_elem_of_fmap. setoid_rewrite elem_of_upto. split.
  - intros (i & -> & ?). lia.
  - intros ?. exists (j - b). lia.
Qed.
Lemma NoDup_blocks_from b n : NoDup (blocks_from b n).
Proof.
  unfold blocks_from, upto. apply NoDup_fmap_2; [intros ? ? ?; lia|].
  apply NoDup_fmap_2; [intros ? ? ?; lia|]. apply NoDup_seq.
Qed.
Lemma blocks_from_1 b : blocks_from b 1 = [b].
Proof. unfold blocks_from. simpl. by rewrite N.add_0_r. Qed.

(** The state an allocation leaves. *)
Lemma tras_alloc_step s m' b n : vol_ok s -> run_free s b n -> run_taken (bitmap s) m' b n ->
  step s [] (blocks_from b n) (tras_alloc s m' b n).
Proof.
  intros Hv (Hb & Hbn & Hlib) [Hlen Hbit]. pose proof Hv as [? ? [Hm1 Hm2] ? ? ?].
  assert (forall j, j ∈ blocks_from b n -> libre s j) as Hlib'.
  { intros j Hj%elem_of_blocks_from. by apply Hlib. }
  split; [done|..].
  - split; try done; simpl; [|lia]. unfold maps_ok in *. simpl. unfold lenN in *. by rewrite Hlen.
  - intros j. unfold alloc. simpl. rewrite Hbit, elem_of_blocks_from.
    case_decide; [tauto|]. set_solver.
  - done.
  - intros j Hj. destruct (Hlib' j Hj) as [Hf _]. apply elem_of_blocks_from in Hj.
    split; [unfold in_vol; lia|]. unfold alloc. rewrite Hf. by intros [? _].
  - apply NoDup_blocks_from.
  - done.
  - done.
Qed.

Lemma wp_alloc_run n (Φ : N -> Sosofs D -> Prop) s :
  vol_ok s -> n < 2 ^ 62 ->
  (forall b s', step s [] (blocks_from b n) s' -> dirty s' = true -> dev s' = dev s -> tree_root s' = tree_root s ->
     (forall j, j ∈ blocks_from b n -> libre s j) -> Φ b s') ->
  wp (fun e => e = NoSpace) (alloc_run n) Φ s.
Proof.
  intros Hv Hn HΦ. unfold wp. pose proof Hv as [? ? Hm ? ? ?].
  pose proof (alloc_run_total n s Hm) as Htot.
  destruct (alloc_run n s) as [r s'] eqn:E. apply alloc_run_inv in E.
  destruct r as [b|e| |]; [|by destruct E| |]; [|destruct Htot as [[? ?]|?]; try done; unfold U64 in *; lia..].
  destruct E as (Hfree & m' & -> & Htk). apply HΦ; [by apply tras_alloc_step|done..|].
  intros j Hj%elem_of_blocks_from. by apply Hfree.
Qed.

Lemma wp_alloc_extent want (Φ : N * N -> Sosofs D -> Prop) s :
  vol_ok s -> want < 2 ^ 62 ->
  (forall b got s', 1 <= got <= N.max want 1 -> step s [] (blocks_from b got) s' -> dirty s' = true -> dev s' = dev s ->
     tree_root s' = tree_root s -> Φ (b, got) s') ->
  wp (fun e => e = NoSpace) (alloc_extent want) Φ s.
Proof.
  intros Hv Hn HΦ. unfold wp. pose proof Hv as [? ? Hm ? ? ?].
  pose proof (alloc_extent_total want s Hm) as Htot.
  destruct (alloc_extent want s) as [r s'] eqn:E. apply alloc_extent_inv in E.
  destruct r as [[b got]|e| |]; [|by destruct E| |]; [|destruct Htot as [[? ?]|?]; try done; unfold U64 in *; lia..].
  destruct E as (Hgot & Hfree & m' & -> & Htk). apply HΦ; [done|by apply tras_alloc_step|done..].
Qed.

(** Writing into a block the step took. *)
Lemma wp_dev_write A B b buf (Φ : unit -> Sosofs D -> Prop) s0 s :
  step s0 A B s -> b ∈ B -> lenN buf = BLOCK_SIZE ->
  (forall s', step s0 A B s' -> blk s' b = buf -> (forall j, j ≠ b -> blk s' j = blk s j) ->
     s' = set_dev (dev s') s -> Φ tt s') ->
  wp io_err (dev_op (write_block b buf)) Φ s.
Proof.
  intros Hst Hb Hlen HΦ. pose proof (step_ok _ _ _ _ Hst) as Hv.
  pose proof (write_spec (dev s) b buf (vol_dev s Hv) Hlen) as (Hd & Hc & Ho & Hres).
  pose proof (write_outcome (dev s) b buf (vol_dev s Hv)) as Hans.
  destruct (step_new _ _ _ _ Hst b Hb) as [Hbv _].
  apply (step_vol _ _ _ _ b Hst) in Hbv. unfold in_vol in Hbv. pose proof (vol_size s Hv).
  unfold wp, dev_op, zoom. destruct (write_block b buf (dev s)) as [r d'] eqn:E; simpl in *.
  specialize (Hans ltac:(lia) Hlen). destruct r as [[]|e| |]; simpl in *; try done.
  destruct (Hres eq_refl) as [_ Hbuf]. apply HΦ; [|done..].
  destruct Hst as [H1 H2 H3 H4 H5 H6 H7 H8]. split; try done.
  - eapply same_but_dev_trans; [exact H1|done].
  - destruct H2. split; try done. simpl. by rewrite Hc.
  - intros j Ha HA. unfold blk in *. simpl. rewrite Ho; [by apply H4|]. intros ->.
    by destruct (H5 b Hb) as [_ []].
  - intros j Hj. unfold blk in *. simpl. rewrite Ho; [by apply H8|]. destruct (H5 b Hb) as [[? _] _]. lia.
Qed.

Lemma wp_write_node level d (Φ : N * Key -> Sosofs D -> Prop) s :
  vol_ok s -> data_wf d -> level_of d level -> node_len d <= node_cap level ->
  (forall b s', step s [] [b] s' -> node_at (blk s' b) b level d -> dirty s' = true ->
     tree_root s' = tree_root s -> Φ (b, node_min d) s') ->
  wp space_err (write_node level d) Φ s.
Proof.
  intros Hv Hwf Hl Hc HΦ. unfold write_node. wp_steps.
  eapply wp_mono; [apply (wp_alloc_run 1 (fun b s' => step s [] [b] s' ∧ dirty s' = true ∧ tree_root s' = tree_root s)); [done|done|]
                  |by left|].
  { intros b s' Hst Hdirty _ Hroot _. by rewrite blocks_from_1 in Hst. }
  intros b s1 (Hst & Hdirty & Hroot). wp_steps. pose proof (step_ok _ _ _ _ Hst) as Hv1.
  apply wp_add64; [by apply vol_gen|]. wp_steps.
  destruct (step_new _ _ _ _ Hst b) as [Hbv _]; [set_solver|].
  destruct (node_image_at (sb_generation (sb s1) + 1) b level d) as (buf & Himg & Hlen & Hat);
    [by apply vol_gen| |done..|].
  { unfold in_vol in Hbv. pose proof (vol_small s Hv). unfold U64. lia. }
  simpl id. rewrite Himg. wp_steps.
  eapply wp_mono; [apply (wp_dev_write [] [b] b buf (fun _ s' => step s [] [b] s' ∧ blk s' b = buf ∧ dirty s' = true ∧
      tree_root s' = tree_root s)
    s s1 Hst)| |].
  - set_solver.
  - done.
  - intros s' ? ? _ Heq. split_and!; [done|done|by rewrite Heq..].
  - by right.
  - intros [] s' (? & Hb & ? & ?). wp_steps. apply HΦ; [done| |done..]. by rewrite Hb.
Qed.
End Step.
