(* ===== verification/SosofsTreeSpec.v ===== *)
(** * sosofs: the tree is a sorted map

    [rep c l b F it]: in the blocks [c], the subtree of height [l] rooted at
    block [b] occupies the blocks [F] and holds the items [it] in key order.
    Insertion, deletion, range scan and first-match search of [SosofsTree]
    are proved to act on the items as [upsert], [remove], [filter] and
    [list_find] do, to take only free blocks and to release exactly the
    blocks of the path they rewrote. *)
From S2P Require Import Prelude BlockDev SosofsLayout SosofsAlloc SosofsTree SosofsNode SosofsStep.
From Stdlib Require Import Sorted.
Local Open Scope N_scope.

Abbreviation Item := (Key * list byte)%type.

(** ** The map the tree stands for *)
Definition upsert (k : Key) (p : list byte) (it : list Item) : list Item :=
  filter (fun e => Key.lt e.1 k) it ++ (k, p) :: filter (fun e => Key.lt k e.1) it.
Definition remove (k : Key) (it : list Item) : list Item := filter (fun e => e.1 ≠ k) it.
Definition first_key (it : list Item) : option Key := fst <$> head it.

Record child := mkChild { ck : Key; cb : N; cF : list N; ci : list Item }.
Definition sep (x : child) : Key * N := (ck x, cb x).

Section Rep.
Context `{Crc32c}.
Fixpoint rep (c : N -> Block) (l : nat) (b : N) (F : list N) (it : list Item) : Prop :=
  match l with
  | O => node_at (c b) b 0 (Leaf it) ∧ F = [b]
  | S l' => exists cs,
      node_at (c b) b (N.of_nat l) (Internal (sep <$> cs)) ∧ cs ≠ [] ∧
      F = b :: concat (cF <$> cs) ∧ it = concat (ci <$> cs) ∧
      Forall (fun x => first_key (ci x) = Some (ck x) ∧ rep c l' (cb x) (cF x) (ci x)) cs
  end.
Definition child_ok (c : N -> Block) (l : nat) (x : child) : Prop :=
  first_key (ci x) = Some (ck x) ∧ rep c l (cb x) (cF x) (ci x).
End Rep.

(** ** Items *)
Lemma filter_all {A} (P : A -> Prop) `{!forall x, Decision (P x)} l : Forall P l -> filter P l = l.
Proof.
  induction 1 as [|x l Hx Hl IH]; [done|]. by rewrite filter_cons_True, IH.
Qed.
Lemma filter_none {A} (P : A -> Prop) `{!forall x, Decision (P x)} l : Forall (fun x => ¬ P x) l -> filter P l = [].
Proof.
  induction 1 as [|x l Hx Hl IH]; [done|]. by rewrite filter_cons_False.
Qed.

Lemma below_not_above k e : below (A := list byte) k e -> ¬ Key.lt k e.1.
Proof. unfold below. intros. key_order. Qed.
Lemma above_not_below k e : above (A := list byte) k e -> ¬ Key.lt e.1 k.
Proof. unfold above. intros. key_order. Qed.
Lemma below_ne {A} k (e : Key * A) : below k e -> e.1 ≠ k.
Proof. unfold below. intros. key_order. Qed.
Lemma above_ne {A} k (e : Key * A) : above k e -> e.1 ≠ k.
Proof. unfold above. intros. key_order. Qed.

Lemma upsert_app k p A M B :
  Forall (below k) A -> Forall (above k) B -> upsert k p (A ++ M ++ B) = A ++ upsert k p M ++ B.
Proof.
  intros HA HB. unfold upsert. rewrite !filter_app, (filter_all (fun e => Key.lt e.1 k) A) by done.
  rewrite (filter_all (fun e => Key.lt k e.1) B) by done.
  rewrite (filter_none _ A) by (eapply Forall_impl; [exact HA|apply below_not_above]).
  rewrite (filter_none _ B) by (eapply Forall_impl; [exact HB|apply above_not_below]).
  rewrite app_nil_r. simpl. by rewrite <- !(assoc_L (++)).
Qed.
Lemma upsert_nil k p : upsert k p [] = [(k, p)].
Proof. done. Qed.
Lemma upsert_at k p p' : upsert k p [(k, p')] = [(k, p)].
Proof.
  unfold upsert. rewrite !filter_cons_False; [done|simpl; apply key_lt_irrefl..].
Qed.

Lemma remove_app k A M B :
  Forall (below k) A -> Forall (above k) B -> remove k (A ++ M ++ B) = A ++ remove k M ++ B.
Proof.
  intros HA HB. unfold remove. rewrite !filter_app, (filter_all _ A), (filter_all _ B); [done|..].
  - eapply Forall_impl; [exact HB|]. apply above_ne.
  - eapply Forall_impl; [exact HA|]. apply below_ne.
Qed.
Lemma remove_at k p : remove k [(k, p)] = [].
Proof. unfold remove. rewrite filter_cons_False; [done|]. intros Hn. by apply Hn. Qed.

Lemma ksorted_filter {A} (P : Key * A -> Prop) `{!forall x, Decision (P x)} v : ksorted v -> ksorted (filter P v).
Proof.
  induction v as [|e v IH]; [done|]. intros [Hs Ha]%ksorted_cons. rewrite filter_cons.
  case_decide; [|by apply IH]. apply ksorted_cons. split; [by apply IH|]. 
  rewrite Forall_forall in Ha |- *. intros x [_ Hx]%list_elem_of_filter. by apply Ha.
Qed.

Lemma ksorted_upsert k p it : ksorted it -> ksorted (upsert k p it).
Proof.
  intros Hs. unfold upsert. apply ksorted_app. split_and!; [by apply ksorted_filter| |].
  - apply ksorted_cons. split; [by apply ksorted_filter|]. apply Forall_forall.
    by intros e [He _]%list_elem_of_filter.
  - intros a b [Ha _]%list_elem_of_filter [->|[Hb _]%list_elem_of_filter]%elem_of_cons; [done|].
    by eapply key_lt_trans.
Qed.
Lemma ksorted_remove k it : ksorted it -> ksorted (remove k it).
Proof. apply ksorted_filter. Qed.

Lemma not_in_below_above k (A B : list Item) : Forall (below k) A -> Forall (above k) B -> k ∉ (A ++ B).*1.
Proof.
  intros HA HB (e & -> & [He|He]%elem_of_app)%list_elem_of_fmap.
  - rewrite Forall_forall in HA. specialize (HA e He). by apply below_ne in HA.
  - rewrite Forall_forall in HB. specialize (HB e He). by apply above_ne in HB.
Qed.

(** As finite maps: [upsert] is [insert] and [remove] is [delete]. *)
#[export] Instance Key_countable : Countable Key.
Proof.
  apply (inj_countable' (fun k => (k_inode k, k_kind k, k_offset k)) (fun '(a, b, c) => mkKey a b c)).
  by intros [].
Qed.

Lemma lookup_upsert k p it :
  list_to_map (M := gmap Key (list byte)) (upsert k p it) = <[k := p]> (list_to_map it).
Proof.
  unfold upsert. rewrite list_to_map_app. simpl. apply map_eq. intros j.
  induction it as [|[k' p'] it IH]; simpl.
  - by rewrite lookup_union, lookup_empty, (left_id_L None _).
  - rewrite lookup_union in *. destruct (key_lt_total k' k) as [Hlt|[->|Hlt]].
    + rewrite filter_cons_True by done. rewrite filter_cons_False by (simpl; key_order). simpl.
      destruct (decide (j = k')) as [->|].
      * rewrite lookup_insert_eq, union_Some_l. rewrite lookup_insert_ne by (intros ->; by eapply key_lt_irrefl).
        by rewrite lookup_insert_eq.
      * rewrite lookup_insert_ne by done. rewrite IH.
        destruct (decide (j = k)) as [->|]; [by rewrite !lookup_insert_eq|].
        by rewrite !lookup_insert_ne by done.
    + rewrite !filter_cons_False by (simpl; key_order). rewrite IH.
      destruct (decide (j = k)) as [->|]; [by rewrite !lookup_insert_eq|].
      by rewrite !lookup_insert_ne by done.
    + rewrite filter_cons_False by (simpl; key_order). rewrite filter_cons_True by done. simpl.
      destruct (decide (j = k)) as [->|].
      { rewrite !lookup_insert_eq in *. done. }
      rewrite !(lookup_insert_ne _ k) in * by done. destruct (decide (j = k')) as [->|].
      * rewrite !lookup_insert_eq. rewrite not_elem_of_list_to_map_1; [done|].
        intros (e & -> & [He _]%list_elem_of_filter)%list_elem_of_fmap. key_order.
      * by rewrite !lookup_insert_ne by done.
Qed.

(** ** Children of an inner node *)
Lemma first_key_inv it k : first_key it = Some k -> exists p r, it = (k, p) :: r.
Proof. destruct it as [|[k' p] r]; [done|]. intros [= ->]. by exists p, r. Qed.
Lemma first_key_app_l it it' k : first_key it = Some k -> first_key (it ++ it') = Some k.
Proof. intros (p & r & ->)%first_key_inv. done. Qed.

Lemma first_key_below it k k' : ksorted it -> first_key it = Some k' -> Key.lt k k' -> Forall (above k) it.
Proof.
  intros Hs (p & r & ->)%first_key_inv Hlt. apply ksorted_cons in Hs as [_ Ha]. constructor; [done|].
  eapply Forall_impl; [exact Ha|]. intros e He. by eapply key_lt_trans.
Qed.

Definition items (cs : list child) : list Item := concat (ci <$> cs).
Definition blocks (cs : list child) : list N := concat (cF <$> cs).
Definition keyed (x : child) : Prop := first_key (ci x) = Some (ck x).

Lemma items_app a b : items (a ++ b) = items a ++ items b.
Proof. unfold items. by rewrite fmap_app, concat_app. Qed.
Lemma items_cons x b : items (x :: b) = ci x ++ items b.
Proof. done. Qed.
Lemma blocks_app a b : blocks (a ++ b) = blocks a ++ blocks b.
Proof. unfold blocks. by rewrite fmap_app, concat_app. Qed.
Lemma blocks_cons x b : blocks (x :: b) = cF x ++ blocks b.
Proof. done. Qed.

Lemma items_above cs k : ksorted (items cs) -> Forall keyed cs ->
  Forall (fun x => Key.lt k (ck x)) cs -> Forall (above k) (items cs).
Proof.
  intros Hs Hk. induction cs as [|x cs IH]; intros Ha; [done|].
  rewrite items_cons in *. apply ksorted_app in Hs as (Hs1 & Hs2 & _).
  apply Forall_cons in Hk as [Hk1 Hk2]. apply Forall_cons in Ha as [Ha1 Ha2].
  apply Forall_app. split; [|by apply IH]. by eapply first_key_below.
Qed.

(** Items before a child whose separator does not exceed the key. *)
Lemma items_below L x k R : ksorted (items (L ++ x :: R)) -> keyed x -> Key.le (ck x) k ->
  Forall (below k) (items L).
Proof.
  intros Hs (p & r & Hx)%first_key_inv Hle. rewrite items_app, items_cons in Hs.
  apply ksorted_app in Hs as (_ & _ & Hs). apply Forall_forall. intros e He. unfold below.
  apply key_lt_le_trans with (ck x); [|done]. apply (Hs e (ck x, p) He). rewrite Hx. set_solver.
Qed.

Lemma seps_sorted cs : ksorted (items cs) -> Forall keyed cs -> ksorted (sep <$> cs).
Proof.
  induction cs as [|x cs IH]; intros Hs Hk; [constructor|].
  rewrite items_cons in Hs. apply ksorted_app in Hs as (Hs1 & Hs2 & Hs3).
  apply Forall_cons in Hk as [Hk1 Hk2]. rewrite fmap_cons. apply ksorted_cons. split; [by apply IH|].
  apply Forall_fmap, Forall_forall. intros y Hy.
  rewrite Forall_forall in Hk2. destruct (first_key_inv _ _ Hk1) as (p & r & Hx).
  destruct (first_key_inv _ _ (Hk2 y Hy)) as (p' & r' & Hy').
  apply (Hs3 (ck x, p) (ck y, p')); [rewrite Hx; set_solver|].
  unfold items. rewrite list_elem_of_In, in_concat. exists (ci y). rewrite <- !list_elem_of_In.
  split; [by apply list_elem_of_fmap_2|]. rewrite Hy'. set_solver.
Qed.

Lemma seps_above (l : list child) k : Forall (above k) (sep <$> l) -> Forall (fun x => Key.lt k (ck x)) l.
Proof. intros Ha. exact (proj1 (Forall_fmap sep (above k) l) Ha). Qed.

(** The child the binary search picks: whatever comes before is below the
    key, whatever comes after is above. *)
Lemma child_search cs key : cs ≠ [] -> ksorted (items cs) -> Forall keyed cs ->
  exists o L x R, binary_search (sep <$> cs) key = Some o ∧ cs = L ++ x :: R ∧
    child_index o = length L ∧ Forall (below key) (items L) ∧ Forall (above key) (items R).
Proof.
  intros Hne Hs Hk. destruct (binary_search_spec _ key (seps_sorted cs Hs Hk)) as (o & Hrun & Ho).
  exists o.
  assert (forall L x R, cs = L ++ x :: R -> Forall (above key) (sep <$> R) -> Forall (above key) (items R)) as HR.
  { intros L x R Hcs Ha%seps_above. rewrite Hcs in Hs, Hk. rewrite items_app, items_cons in Hs.
    apply ksorted_app in Hs as (_ & Hs & _). apply ksorted_app in Hs as (_ & Hs & _).
    apply Forall_app in Hk as [_ Hk]. apply Forall_cons in Hk as [_ Hk]. by apply items_above. }
  destruct o as [i|i]; simpl in Ho.
  - destruct Ho as (l & b & r & Heq & -> & Hl & Hr). apply fmap_app_inv in Heq as (L & R' & -> & Heq & Hcs).
    destruct R' as [|x R]; [done|]. simpl in Heq. injection Heq as Hx Hb Hr'. subst.
    exists L, x, R. split_and!; [done|done|by rewrite length_fmap| |by eapply (HR L x)].
    eapply items_below; [exact Hs| |by right]. apply Forall_app in Hk as [_ Hk]. by apply Forall_cons in Hk as [? _].
  - destruct Ho as (l & r & Heq & -> & Hl & Hr). apply fmap_app_inv in Heq as (L & R & -> & -> & Hcs).
    destruct L as [|x L' _] using rev_ind.
    + destruct R as [|x R]; [by subst|]. exists [], x, R. split_and!; [done|done|done|constructor|].
      eapply HR; [exact Hcs|]. by apply Forall_cons in Hr as [_ Hr].
    + exists L', x, R. rewrite <- (assoc_L (++)) in Hcs. subst cs. split_and!; [done|done| | |by eapply (HR L' x)].
      * rewrite length_fmap, length_app. simpl. lia.
      * eapply items_below; [exact Hs| |].
        { apply Forall_app in Hk as [_ Hk]. by apply Forall_cons in Hk as [? _]. }
        left. rewrite fmap_app, Forall_app in Hl. destruct Hl as [_ Hl]. by apply Forall_cons in Hl as [? _].
Qed.

(** ** Frame *)
Section Frame.
Context `{Crc32c}.
Lemma rep_frame c c' l b F it : (forall j, j ∈ F -> c' j = c j) -> rep c l b F it -> rep c' l b F it.
Proof.
  revert b F it. induction l as [|l IH]; simpl; intros b F it Hc.
  - intros [Hn ->]. split; [|done]. rewrite Hc by set_solver. done.
  - intros (cs & Hn & Hne & -> & -> & Hcs). exists cs.
    split_and!; [rewrite Hc by set_solver; done|done..|]. rewrite Forall_forall in Hcs |- *.
    intros x Hx. destruct (Hcs x Hx) as [Hf Hr]. split; [done|]. apply IH; [|done].
    intros j Hj. apply Hc. right. rewrite list_elem_of_In, in_concat. exists (cF x).
    rewrite <- !list_elem_of_In. split; [by apply list_elem_of_fmap_2|done].
Qed.

Lemma children_frame c c' l cs : (forall j, j ∈ blocks cs -> c' j = c j) ->
  Forall (child_ok c l) cs -> Forall (child_ok c' l) cs.
Proof.
  intros Hc Hcs. rewrite Forall_forall in Hcs |- *. intros x Hx. destruct (Hcs x Hx) as [Hf Hr].
  split; [done|]. eapply rep_frame; [|exact Hr]. intros j Hj. apply Hc. unfold blocks.
  rewrite list_elem_of_In, in_concat. exists (cF x). rewrite <- !list_elem_of_In.
  split; [by apply list_elem_of_fmap_2|done].
Qed.

Lemma children_keyed c l cs : Forall (child_ok c l) cs -> Forall keyed cs.
Proof. intros H1. eapply Forall_impl; [exact H1|]. by intros x []. Qed.

Lemma rep_root c l b F it : rep c l b F it -> b ∈ F.
Proof. destruct l; simpl; [intros [_ ->]|intros (cs & _ & _ & -> & _)]; set_solver. Qed.

Lemma rep_node c l b F it : rep c l b F it -> exists d, node_at (c b) b (N.of_nat l) d.
Proof. destruct l; simpl; [intros [? _]|intros (cs & ? & _)]; by eexists. Qed.

(** The shape of an inner node, without unfolding [rep]. *)
Lemma rep_S_inv c l b F it : rep c (S l) b F it -> exists cs,
  node_at (c b) b (N.of_nat (S l)) (Internal (sep <$> cs)) ∧ cs ≠ [] ∧ F = b :: blocks cs ∧ it = items cs ∧
  Forall (child_ok c l) cs.
Proof. done. Qed.
Lemma rep_S_intro c l b cs :
  node_at (c b) b (N.of_nat (S l)) (Internal (sep <$> cs)) -> cs ≠ [] -> Forall (child_ok c l) cs ->
  rep c (S l) b (b :: blocks cs) (items cs).
Proof. intros. by exists cs. Qed.
End Frame.

(** ** Ownership of blocks *)
Section Ops.
Context {D : Type} `{BD : BlockDevice D} `{BS : !BlockDeviceSpec D} `{CRC : Crc32c}.
Implicit Types s : Sosofs D.

Definition owned s (F : list N) : Prop := NoDup F ∧ Forall (fun j => alloc s j ∧ in_vol s j) F.

Lemma owned_perm s F F' : F ≡ₚ F' -> owned s F -> owned s F'.
Proof. intros HF [Hn Ho]. split; by rewrite <- HF. Qed.
Lemma owned_app s F F' : owned s (F ++ F') <-> owned s F ∧ owned s F' ∧ forall j, j ∈ F -> j ∉ F'.
Proof. unfold owned. rewrite NoDup_app, Forall_app. naive_solver. Qed.
Lemma owned_elem s F j : owned s F -> j ∈ F -> alloc s j ∧ in_vol s j.
Proof. intros [_ Ho] Hj. rewrite Forall_forall in Ho. by apply Ho. Qed.
Lemma quiet_owned s s' F : quiet s s' -> owned s F -> owned s' F.
Proof.
  intros Hq [Hn Ho]. split; [done|]. eapply Forall_impl; [exact Ho|]. intros j [Ha Hv].
  split; [by apply (quiet_alloc s s')|]. unfold in_vol in *. by rewrite (sbd_sb _ _ (proj1 Hq)).
Qed.
Lemma step_new_owned s A B s' : step s A B s' -> owned s' B.
Proof.
  intros Hst. split; [apply Hst|]. apply Forall_forall. intros j Hj. split.
  - apply (step_alloc _ _ _ _ Hst). by left.
  - apply (step_vol _ _ _ _ j Hst), (step_new _ _ _ _ Hst j Hj).
Qed.

(** What is owned and not released is still owned, with its content, and
    apart from what was taken. *)
Lemma step_owned s A B s' F : step s A B s' -> owned s F -> (forall j, j ∈ F -> j ∉ A) ->
  owned s' (F ++ B) ∧ forall j, j ∈ F -> blk s' j = blk s j.
Proof.
  intros Hst Ho Hd.
  assert (forall j, j ∈ F -> (j ∉ B) ∧ blk s' j = blk s j ∧ alloc s' j) as Hk.
  { intros j Hj. eapply step_kept; [done|by eapply owned_elem|by apply Hd]. }
  split; [|intros j Hj; by apply Hk]. apply owned_app. split_and!.
  - split; [apply Ho|]. apply Forall_forall. intros j Hj. split; [by apply Hk|].
    apply (step_vol _ _ _ _ j Hst). by eapply owned_elem.
  - by eapply step_new_owned.
  - intros j Hj. by apply Hk.
Qed.

(** Replacing one child of an inner node by the children [cs']. *)
Lemma replace_child l s b L x R cs' s2 :
  owned s (b :: blocks (L ++ x :: R)) -> Forall (child_ok (blk s) l) (L ++ x :: R) ->
  step s (cF x) (blocks cs') s2 -> Forall (child_ok (blk s2) l) cs' ->
  Forall (child_ok (blk s2) l) (L ++ cs' ++ R) ∧ owned s2 (b :: blocks (L ++ cs' ++ R)) ∧
  step s (blocks (L ++ x :: R)) (blocks (L ++ cs' ++ R)) s2.
Proof.
  intros Ho Hcs Hst Hcs'.
  assert (owned s (cF x ++ (b :: blocks L ++ blocks R))) as (Hox & HoK & Hd)%owned_app.
  { eapply owned_perm; [|exact Ho]. rewrite blocks_app, blocks_cons. solve_Permutation. }
  destruct (step_owned _ _ _ _ _ Hst HoK) as [Ho2 Hkeep].
  { intros j Hj Hx. by apply (Hd j). }
  apply Forall_app in Hcs as [HL HR]. apply Forall_cons in HR as [_ HR].
  split_and!.
  - rewrite !Forall_app. split_and!; [|done|]; (eapply children_frame; [|eassumption]);
      intros j Hj; apply Hkeep; set_solver.
  - eapply owned_perm; [|exact Ho2]. rewrite !blocks_app. solve_Permutation.
  - rewrite !blocks_app, blocks_cons.
    rewrite (Permutation_app_swap_app (blocks L) (cF x)), (Permutation_app_swap_app (blocks L) (blocks cs')).
    apply step_extend; [done| |].
    + change (b :: blocks L ++ blocks R) with ([b] ++ blocks L ++ blocks R) in HoK.
      apply owned_app in HoK as (_ & [? _] & _). done.
    + intros j Hj. split_and!; [eapply owned_elem; [exact HoK|set_solver]..|].
      intros Hx. apply (Hd j Hx). set_solver.
Qed.

(** Releasing the old node and taking blocks for the new ones. *)
Lemma step_free s A B s2 b s3 : step s A B s2 -> owned s2 (b :: B) -> step s2 [b] [] s3 ->
  step s (b :: A) B s3 ∧ owned s3 B.
Proof.
  intros H1 Ho H2. change (b :: B) with ([b] ++ B) in Ho. apply owned_app in Ho as (Hb & HB & Hd). split.
  - pose proof (step_trans _ _ _ _ _ _ _ H1 H2 Hd) as Ht. rewrite app_nil_r in Ht.
    by rewrite <- Permutation_cons_append in Ht.
  - destruct (step_owned _ _ _ _ B H2 HB) as [Ho _]; [|by rewrite app_nil_r in Ho].
    intros j Hj Hb'. by apply (Hd j).
Qed.

Lemma rep_items_wf c l b F it : (forall j, j ∈ F -> lenN (c j) = BLOCK_SIZE) -> rep c l b F it ->
  Forall (fun e => Key.wf e.1 ∧ lenN e.2 = ITEM_PAYLOAD) it.
Proof.
  revert b F it. induction l as [|l IH]; intros b F it Hc.
  - intros [Hn ->]. by apply (node_at_wf _ _ _ _ (Hc b ltac:(set_solver)) Hn).
  - intros (cs & _ & _ & -> & -> & Hcs)%rep_S_inv. assert (forall j, j ∈ blocks cs -> lenN (c j) = BLOCK_SIZE) as Hc'.
    { intros j Hj. apply Hc. by right. }
    clear Hc. induction Hcs as [|x cs [Hk Hx] Hcs IHcs]; [constructor|]. rewrite items_cons, Forall_app.
    rewrite blocks_cons in Hc'. split; [eapply IH; [|exact Hx]|apply IHcs]; set_solver.
Qed.

Lemma blk_length s b : vol_ok s -> in_vol s b -> lenN (blk s b) = BLOCK_SIZE.
Proof. intros [? ? _ _ _ _] [_ Hb]. apply content_length; [done|lia]. Qed.
Lemma owned_length s F j : vol_ok s -> owned s F -> j ∈ F -> lenN (blk s j) = BLOCK_SIZE.
Proof. intros Hv Ho Hj. apply blk_length; [done|]. by eapply owned_elem. Qed.

Lemma child_wf l s x : vol_ok s -> owned s (cF x) -> child_ok (blk s) l x -> Key.wf (ck x) ∧ cb x < U64.
Proof.
  intros Hv Ho [(p & r & Hx)%first_key_inv Hr]. split.
  - assert (Forall (fun e => Key.wf e.1 ∧ lenN e.2 = ITEM_PAYLOAD) (ci x)) as Hw.
    { eapply rep_items_wf; [|exact Hr]. intros j Hj. by eapply owned_length. }
    rewrite Hx in Hw. by apply Forall_cons in Hw as [[? _] _].
  - apply rep_root in Hr. destruct (owned_elem _ _ _ Ho Hr) as [_ [_ Hb]].
    pose proof (vol_small s Hv). unfold U64. lia.
Qed.

Lemma children_wf l s cs : vol_ok s -> owned s (blocks cs) -> Forall (child_ok (blk s) l) cs ->
  data_wf (Internal (sep <$> cs)).
Proof.
  intros Hv Ho Hcs. simpl. apply Forall_fmap. induction Hcs as [|x cs Hx Hcs IH]; [constructor|].
  rewrite blocks_cons in Ho. apply owned_app in Ho as (Ho1 & Ho2 & _).
  constructor; [by eapply child_wf|by apply IH].
Qed.

(** *** Writing the node that replaces one, split in two when it overflows *)
Definition cow_list (cow : Cow) : list (Key * N) :=
  (c_min_key cow, c_block cow) :: option_list (c_split cow).

(** The nodes a node's data is cut into. *)
Definition cut (d : NodeData) (ds : list NodeData) : Prop :=
  match d with
  | Leaf v => exists vs, ds = Leaf <$> vs ∧ concat vs = v ∧ (v ≠ [] -> Forall (.≠ []) vs)
  | Internal v => exists vs, ds = Internal <$> vs ∧ concat vs = v ∧ (v ≠ [] -> Forall (.≠ []) vs)
  end.

Lemma halves_ne {A} (v : list A) : (2 <= length v)%nat ->
  take (length v / 2) v ≠ [] ∧ drop (length v / 2) v ≠ [].
Proof.
  intros Hv. assert (1 <= length v / 2 < length v)%nat as Hh.
  { split; [apply Nat.div_le_lower_bound; lia|apply Nat.div_lt; lia]. }
  split; intros Hn%(f_equal length); rewrite ?length_take, ?length_drop in Hn; cbn [length] in Hn; lia.
Qed.

Lemma data_wf_halves d (n : nat) : data_wf d ->
  match d with
  | Leaf v => data_wf (Leaf (take n v)) ∧ data_wf (Leaf (drop n v))
  | Internal v => data_wf (Internal (take n v)) ∧ data_wf (Internal (drop n v))
  end.
Proof.
  destruct d as [v|v]; simpl; intros Hw; (split; [by apply Forall_take|by apply Forall_drop]).
Qed.

Lemma halves_len {A} (v : list A) (cap : N) : lenN v <= 2 * cap ->
  lenN (take (length v / 2) v) <= cap ∧ lenN (drop (length v / 2) v) <= cap.
Proof.
  unfold lenN. rewrite length_take, length_drop. intros Hv.
  pose proof (Nat.div_mod_eq (length v) 2). pose proof (Nat.mod_upper_bound (length v) 2 ltac:(done)).
  generalize dependent (length v mod 2)%nat. generalize (length v / 2)%nat. intros; lia.
Qed.

Lemma wp_write_two level izq der (Φ : Cow -> Sosofs D -> Prop) s :
  vol_ok s -> data_wf izq -> data_wf der -> level_of izq level -> level_of der level ->
  node_len izq <= node_cap level -> node_len der <= node_cap level ->
  (forall lb rb s', step s [] [lb; rb] s' -> dirty s' = true -> node_at (blk s' lb) lb level izq ->
     node_at (blk s' rb) rb level der -> Φ (mkCow lb (node_min izq) (Some (node_min der, rb))) s') ->
  wp space_err ('(lb, lmin) ← write_node level izq; '(rb, rmin) ← write_node level der;
                mret (mkCow lb lmin (Some (rmin, rb)))) Φ s.
Proof.
  intros Hv Hwi Hwd Hli Hld Hci Hcd HΦ. wp_steps.
  apply wp_write_node; [done..|]. intros lb s1 Hs1 Hat1 _ _. wp_steps.
  apply wp_write_node; [apply Hs1|done..|]. intros rb s2 Hs2 Hat2 Hdirty _. wp_steps.
  destruct (step_owned _ _ _ _ _ Hs2 (step_new_owned _ _ _ _ Hs1)) as [_ Hkeep]; [set_solver|].
  apply HΦ; [|done| |done].
  - apply (step_trans _ _ _ _ _ _ _ Hs1 Hs2). set_solver.
  - rewrite Hkeep by set_solver. done.
Qed.

Lemma wp_write_split level d (Φ : Cow -> Sosofs D -> Prop) s :
  vol_ok s -> data_wf d -> level_of d level -> 0 < node_len d -> node_len d <= node_cap level + 1 ->
  (forall cow ds bs s', step s [] bs s' -> dirty s' = true -> cut d ds ->
     cow_list cow = zip (node_min <$> ds) bs ->
     Forall2 (fun b d => node_at (blk s' b) b level d) bs ds -> Φ cow s') ->
  wp space_err (write_split level (node_cap level <? node_len d) d) Φ s.
Proof.
  intros Hv Hwf Hl H0 Hcap HΦ. unfold write_split. destruct (N.ltb_spec (node_cap level) (node_len d)) as [Hov|Hfit]; cbn [negb].
  - assert (2 <= node_len d ∧ node_len d <= 2 * node_cap level) as [H2 Hcap2].
    { unfold node_cap in *. change LEAF_CAP with 13 in *. change INT_CAP with 127 in *. case_match; lia. }
    pose proof (fun n => data_wf_halves d n Hwf) as Hhw.
    destruct d as [v|v]; cbn [node_len] in *; cbv zeta; specialize (Hhw (length v / 2)%nat); destruct Hhw as [Hw1 Hw2];
      destruct (halves_len v _ Hcap2) as [Hc1 Hc2];
      destruct (halves_ne v ltac:(unfold lenN in H2; lia)) as [Hn1 Hn2];
      (apply wp_write_two; [done|done|done|exact Hl|exact Hl|done|done|]);
      intros lb rb s' Hst Hd Hat1 Hat2;
      [eapply (HΦ _ [Leaf _; Leaf _] [lb; rb])|eapply (HΦ _ [Internal _; Internal _] [lb; rb])];
      try done; try (constructor; [done|]; constructor; [done|]; constructor);
      exists [take (length v / 2) v; drop (length v / 2) v]; simpl; rewrite app_nil_r, take_drop;
      (split_and!; [done|done|by repeat constructor]).
  - wp_steps. apply wp_write_node; [done..|]. intros b s' Hst Hat Hd _. wp_steps.
    apply (HΦ _ [d] [b]); [done..| |done|constructor; [done|constructor]].
    destruct d as [v|v]; exists [v]; simpl; rewrite app_nil_r; (split_and!; [done|done|by repeat constructor]).
Qed.

Lemma zip_cow_children {A} (f : A -> NodeData) (g : A -> N -> child) (l : nat) s' bs (vs : list A) cow :
  (forall v b, node_at (blk s' b) b (N.of_nat l) (f v) -> v ∈ vs ->
     sep (g v b) = (node_min (f v), b) ∧ child_ok (blk s') l (g v b)) ->
  cow_list cow = zip (node_min <$> (f <$> vs)) bs ->
  Forall2 (fun b d => node_at (blk s' b) b (N.of_nat l) d) bs (f <$> vs) ->
  sep <$> zip_with g vs bs = cow_list cow ∧ Forall (child_ok (blk s') l) (zip_with g vs bs) ∧
  length bs = length vs.
Proof.
  intros Hg -> Hat. assert (length bs = length vs) as Hlen.
  { by rewrite (Forall2_length _ _ _ Hat), length_fmap. }
  split_and!; [| |done].
  - clear cow. revert bs Hat Hlen. induction vs as [|v vs IH]; intros [|b bs] Hat Hlen; try done.
    simpl in *. apply Forall2_cons in Hat as [Hb Hat]. f_equal; [apply Hg; [done|set_solver]|].
    apply IH; [intros; apply Hg; set_solver|done|lia].
  - revert bs Hat Hlen. induction vs as [|v vs IH]; intros [|b bs] Hat Hlen; try done; simpl in *.
    apply Forall2_cons in Hat as [Hb Hat]. constructor; [apply Hg; [done|set_solver]|].
    apply IH; [intros; apply Hg; set_solver|done|lia].
Qed.

(** A leaf, written: its items in one or two leaves. *)
Lemma wp_write_leaf v (Φ : Cow -> Sosofs D -> Prop) s :
  vol_ok s -> v ≠ [] -> data_wf (Leaf v) -> lenN v <= LEAF_CAP + 1 ->
  (forall cow cs s', step s [] (blocks cs) s' -> dirty s' = true -> sep <$> cs = cow_list cow ->
     Forall (child_ok (blk s') 0) cs -> items cs = v -> Φ cow s') ->
  wp space_err (write_split 0 (LEAF_CAP <? lenN v) (Leaf v)) Φ s.
Proof.
  intros Hv Hne Hwf Hcap HΦ. apply (wp_write_split 0 (Leaf v)); [done..| |done|].
  { destruct v; [done|]. simpl. rewrite lenN_cons. lia. }
  intros cow ds bs s' Hst Hd (vs & -> & Hvs & Hvne) Hcow Hat. specialize (Hvne Hne).
  rewrite Forall_forall in Hvne.
  destruct (zip_cow_children Leaf (fun v b => mkChild (node_min (Leaf v)) b [b] v) 0 s' bs vs cow) as (Hsep & Hok & Hlen);
    [|done|done|].
  { intros v' b Hb Hin. split; [done|]. split; [|done]. simpl. specialize (Hvne v' Hin). by destruct v'. }
  eapply HΦ; [|done|exact Hsep|exact Hok|].
  - unfold blocks. replace (concat _) with bs; [done|]. clear -Hlen. revert bs Hlen.
    induction vs as [|v vs IH]; intros [|b bs] Hlen; try done. simpl in *. f_equal. apply IH. lia.
  - rewrite <- Hvs. unfold items. f_equal. clear -Hlen. revert bs Hlen.
    induction vs as [|v vs IH]; intros [|b bs] Hlen; try done. simpl in *. f_equal. apply IH. lia.
Qed.

Lemma concat_fmap_split {A B} (f : A -> B) (l : list A) (vs : list (list B)) :
  concat vs = f <$> l -> exists ls : list (list A), vs = fmap (M := list) f <$> ls ∧ concat ls = l.
Proof.
  revert l. induction vs as [|v vs IH]; simpl; intros l Heq.
  - exists []. by destruct l.
  - symmetry in Heq. apply fmap_app_inv in Heq as (l1 & l2 & -> & Hvs & ->).
    destruct (IH l2 Hvs) as (ls & -> & <-). by exists (l1 :: ls).
Qed.

(** An inner node, written: its children under one or two nodes. *)
Lemma wp_write_inner l cs0 (Φ : Cow -> Sosofs D -> Prop) s :
  vol_ok s -> cs0 ≠ [] -> (S l < 256)%nat -> owned s (blocks cs0) -> Forall (child_ok (blk s) l) cs0 ->
  lenN cs0 <= INT_CAP + 1 ->
  (forall cow cs new s', step s [] new s' -> dirty s' = true -> blocks cs ≡ₚ new ++ blocks cs0 ->
     sep <$> cs = cow_list cow -> Forall (child_ok (blk s') (S l)) cs -> items cs = items cs0 -> Φ cow s') ->
  wp space_err (write_split (N.of_nat (S l)) (INT_CAP <? lenN (sep <$> cs0)) (Internal (sep <$> cs0))) Φ s.
Proof.
  intros Hv Hne Hl Ho Hok0 Hcap HΦ. pose proof (children_wf _ _ _ Hv Ho Hok0) as Hwf.
  assert (node_cap (N.of_nat (S l)) = INT_CAP) as Hnc by done.
  assert (lenN (sep <$> cs0) = lenN cs0) as Hlen0 by apply lenN_fmap.
  rewrite <- Hnc. apply (wp_write_split (N.of_nat (S l)) (Internal (sep <$> cs0))); [done|done|split; [lia|done]|..].
  { cbn [node_len]. rewrite Hlen0. destruct cs0; [done|]. rewrite lenN_cons. lia. }
  { cbn [node_len]. by rewrite Hlen0, Hnc. }
  intros cow ds bs s' Hst Hd (vs & -> & Hvs & Hvne) Hcow Hat.
  apply concat_fmap_split in Hvs as (css & -> & Hcss).
  assert (sep <$> cs0 ≠ []) as Hne' by (by destruct cs0).
  specialize (Hvne Hne'). rewrite Forall_forall in Hvne.
  destruct (step_owned _ _ _ _ _ Hst Ho) as [_ Hkeep]; [set_solver|].
  apply (children_frame _ (blk s') _ _ Hkeep) in Hok0.
  rewrite <- (list_fmap_compose (fmap (M := list) sep) Internal css) in Hcow, Hat.
  destruct (zip_cow_children (Internal ∘ fmap (M := list) sep)
    (fun cs b => mkChild (node_min (Internal (sep <$> cs))) b (b :: blocks cs) (items cs)) (S l) s' bs css cow)
    as (Hsep & Hok & Hlen); [|done|done|].
  { intros cs b Hb Hin. split; [done|].
    assert (cs ≠ []) as Hcne by (intros ->; apply (Hvne []); [exact (list_elem_of_fmap_2 (fmap (M := list) sep) css [] Hin)|done]).
    assert (Forall (child_ok (blk s') l) cs) as Hcsok.
    { rewrite <- Hcss in Hok0. rewrite Forall_concat, Forall_forall in Hok0. by apply Hok0. }
    split; [|by apply rep_S_intro]. simpl. destruct cs as [|x cs]; [done|]. rewrite items_cons.
    apply Forall_cons in Hcsok as [[Hk _] _]. by apply first_key_app_l. }
  eapply (HΦ cow _ bs s' Hst Hd); [|exact Hsep|exact Hok|].
  - rewrite <- Hcss. clear -Hlen. revert bs Hlen.
    induction css as [|cs css IH]; intros [|b bs] Hlen; try done. simpl in *.
    rewrite blocks_cons, IH by lia. simpl. rewrite blocks_app. solve_Permutation.
  - rewrite <- Hcss. clear -Hlen. revert bs Hlen.
    induction css as [|cs css IH]; intros [|b bs] Hlen; try done. simpl in *.
    rewrite items_cons, IH by lia. simpl. by rewrite items_app.
Qed.

(** One inner node over given children. *)
Definition parent (nb : N) (cs : list child) : child :=
  mkChild (node_min (Internal (sep <$> cs))) nb (nb :: blocks cs) (items cs).

Lemma wp_write_inner1 l cs (Φ : N * Key -> Sosofs D -> Prop) s :
  vol_ok s -> cs ≠ [] -> (S l < 256)%nat -> owned s (blocks cs) -> Forall (child_ok (blk s) l) cs ->
  lenN cs <= INT_CAP ->
  (forall nb s', step s [] [nb] s' -> dirty s' = true -> child_ok (blk s') (S l) (parent nb cs) ->
     Φ (nb, ck (parent nb cs)) s') ->
  wp space_err (write_node (N.of_nat (S l)) (Internal (sep <$> cs))) Φ s.
Proof.
  intros Hv Hne Hl Ho Hok Hcap HΦ.
  apply wp_write_node; [done|by eapply children_wf|split; [lia|done]| |].
  { cbn [node_len]. rewrite lenN_fmap. exact Hcap. }
  intros nb s' Hst Hat Hd _. destruct (step_owned _ _ _ _ _ Hst Ho) as [_ Hkeep]; [set_solver|].
  apply (children_frame _ (blk s') _ _ Hkeep) in Hok. apply HΦ; [done|done|]. split; [|by apply rep_S_intro].
  simpl. destruct cs as [|y rest]; [done|]. rewrite items_cons.
  apply Forall_cons in Hok as [[Hk _] _]. by apply first_key_app_l.
Qed.

(** *** Opening a node on the way down *)
Lemma vol_block s b : vol_ok s -> in_vol s b -> b < block_count (dev s).
Proof. intros [_ Hs _ _ _ _] [_ Hb]. lia. Qed.

Lemma io_space e : io_err (D := D) e -> space_err (D := D) e.
Proof. by right. Qed.

(** The children that replace the node an operation rewrote. *)
Definition rewritten s l (F : list N) (it : list Item) s' (cs : list child) : Prop :=
  step s F (blocks cs) s' ∧ Forall (child_ok (blk s') l) cs ∧ items cs = it ∧ dirty s' = true.

Lemma upsert_leaf it key payload o :
  search_result it key o -> data_wf (Leaf it) -> Key.wf key -> lenN payload = ITEM_PAYLOAD ->
  let v := match o with
           | inl i => alter (fun e => (e.1, payload)) i it
           | inr i => vec_insert i (key, payload) it
           end in
  v = upsert key payload it ∧ v ≠ [] ∧ lenN v <= lenN it + 1 ∧ data_wf (Leaf v).
Proof.
  intros Ho Hwf Hkey Hpay. simpl in Hwf. destruct o as [i|i]; simpl in Ho.
  - destruct Ho as (lo & x & hi & -> & -> & Hlo & Hhi). rewrite alter_app_middle. cbn [fst].
    pose proof (upsert_app key payload lo [(key, x)] hi Hlo Hhi) as Hu. rewrite upsert_at in Hu.
    split_and!; [exact (eq_sym Hu)|by destruct lo|rewrite !lenN_app, !lenN_cons; lia|].
    simpl. apply Forall_app in Hwf as [? [_ ?]%Forall_cons]. by apply Forall_app; split; [|constructor].
  - destruct Ho as (lo & hi & -> & -> & Hlo & Hhi). rewrite vec_insert_app.
    pose proof (upsert_app key payload lo [] hi Hlo Hhi) as Hu. rewrite upsert_nil in Hu.
    split_and!; [exact (eq_sym Hu)|by destruct lo|rewrite !lenN_app, !lenN_cons; lia|].
    simpl. apply Forall_app in Hwf as [? ?]. by apply Forall_app; split; [|constructor].
Qed.

(** Both recursions open a leaf the same way. *)
Lemma wp_enter_leaf {A} (Q : FsError -> Prop) b F it key kl ki (Φ : A -> Sosofs D -> Prop) s :
  (forall e, io_err (D := D) e -> Q e) -> vol_ok s -> rep (blk s) 0 b F it -> owned s F -> ksorted it ->
  (forall o s1, quiet s s1 -> vol_ok s1 -> in_vol s1 b -> search_result it key o -> data_wf (Leaf it) ->
     lenN it <= LEAF_CAP -> wp Q (kl it o) Φ s1) ->
  wp Q (d ← parse_node b;
        match d with
        | Leaf v => r ← of_option no_fuel (binary_search v key); kl v r
        | Internal v => ki v
        end) Φ s.
Proof.
  intros HQ Hv [Hat ->] Ho Hs Hk. wp_steps. assert (in_vol s b) as Hbv by (eapply owned_elem; [exact Ho|set_solver]).
  eapply wp_mono; [eapply (wp_parse_node b 0 _ (fun d s' => d = Leaf it ∧ quiet s s'));
    [apply Hv|by apply vol_block|done|done]|done|]. intros d s1 [-> Hq]. cbv beta iota.
  destruct (binary_search_spec it key Hs) as (o & -> & Ho'). wp_steps.
  apply (Hk o s1 Hq); [by eapply quiet_vol|unfold in_vol; by rewrite (sbd_sb _ _ (proj1 Hq))|done| |apply Hat].
  exact (node_at_wf _ _ _ _ (blk_length s b Hv Hbv) Hat).
Qed.

(** And an inner node: down to the child the search picked. *)
Record picked s l b (F : list N) (it : list Item) key s1 (L : list child) x R : Prop := {
  pk_quiet : quiet s s1;
  pk_vol : vol_ok s1;
  pk_blocks : F = b :: blocks (L ++ x :: R);
  pk_items : it = items (L ++ x :: R);
  pk_owned : owned s1 F;
  pk_children : Forall (child_ok (blk s1) l) (L ++ x :: R);
  pk_low : Forall (below key) (items L);
  pk_high : Forall (above key) (items R);
  pk_cap : lenN (L ++ x :: R) <= INT_CAP;
}.

Lemma wp_enter_inner {A} (Q : FsError -> Prop) l b F it key kl ki (Φ : A -> Sosofs D -> Prop) s :
  (forall e, io_err (D := D) e -> Q e) -> vol_ok s -> rep (blk s) (S l) b F it -> owned s F -> ksorted it ->
  (forall L x R s1 o, picked s l b F it key s1 L x R -> child_index o = length L ->
     wp Q (ki (sep <$> L ++ x :: R) o (sep x) (N.of_nat l)) Φ s1) ->
  wp Q (d ← parse_node b;
        match d with
        | Leaf v => kl v
        | Internal v =>
            r ← of_option no_fuel (binary_search v key);
            e ← of_option panic (v !! child_index r);
            level' ← level_down (N.of_nat (S l));
            ki v r e level'
        end) Φ s.
Proof.
  intros HQ Hv Hrep Ho Hs Hk. wp_steps. assert (in_vol s b) as Hbv by (eapply owned_elem; [exact Ho|by eapply rep_root]).
  apply rep_S_inv in Hrep as (cs & Hat & Hne & HF & Hit & Hcs).
  eapply wp_mono; [eapply (wp_parse_node b _ _ (fun d s' => d = Internal (sep <$> cs) ∧ quiet s s'));
    [apply Hv|by apply vol_block|done|done]|done|]. intros d s1 [-> Hq]. cbv beta iota.
  rewrite Hit in Hs.
  destruct (child_search cs key Hne Hs (children_keyed _ _ _ Hcs)) as (o & L & x & R & -> & Heq & Hidx & HL & HR).
  wp_steps. rewrite Hidx, Heq, fmap_app, fmap_cons, list_lookup_middle by (by rewrite length_fmap).
  wp_steps. unfold level_down. rewrite (proj2 (N.eqb_neq _ _)) by lia. wp_steps.
  replace (N.of_nat (S l) - 1) with (N.of_nat l) by lia. rewrite <- fmap_cons, <- fmap_app. apply Hk; [|done].
  rewrite Heq in *. split; [done|by eapply quiet_vol|done|done|by eapply quiet_owned| |done|done|].
  - eapply children_frame; [|exact Hcs]. intros j _. by apply quiet_blk.
  - destruct Hat as (_ & _ & _ & Hcap & _). cbn [node_len] in Hcap. by rewrite lenN_fmap in Hcap.
Qed.

Lemma picked_child s l b F it key s1 L x R : picked s l b F it key s1 L x R -> ksorted it ->
  owned s1 (cF x) ∧ rep (blk s1) l (cb x) (cF x) (ci x) ∧ first_key (ci x) = Some (ck x) ∧ ksorted (ci x).
Proof.
  intros [_ _ -> -> Ho Hcs _ _ _] Hs. apply (owned_app _ [b]) in Ho as (_ & Ho & _).
  rewrite blocks_app, blocks_cons in Ho. apply owned_app in Ho as (_ & [? _]%owned_app & _).
  apply Forall_app in Hcs as [_ [[Hkx Hrx] _]%Forall_cons].
  rewrite items_app, items_cons in Hs. by apply ksorted_app in Hs as (_ & [? _]%ksorted_app & _).
Qed.

(** *** Insertion *)
Lemma insert_rec_spec l : forall fuel b F it key payload s (Φ : Cow -> Sosofs D -> Prop),
  (l < fuel)%nat -> (l < 256)%nat -> vol_ok s -> rep (blk s) l b F it -> owned s F -> ksorted it ->
  Key.wf key -> lenN payload = ITEM_PAYLOAD ->
  (forall cow cs s', rewritten s l F (upsert key payload it) s' cs -> sep <$> cs = cow_list cow -> Φ cow s') ->
  wp space_err (insert_rec fuel b (N.of_nat l) key payload) Φ s.
Proof.
  induction l as [|l IH]; intros [|fuel] b F it key payload s Φ Hf Hl Hv Hrep Ho Hs Hkey Hpay HΦ; try lia;
    cbn [insert_rec].
  - eapply wp_enter_leaf; [apply io_space|done..|]. intros o s1 Hq Hv1 Hb1 Ho' Hwf Hcap.
    destruct (upsert_leaf it key payload o Ho' Hwf Hkey Hpay) as (Hv' & Hne & Hlen & Hwf').
    set (v' := match o with inl i => _ | inr i => _ end) in *. clearbody v'. wp_steps.
    apply wp_free_block; [done..|].
    intros s2 Hfree _ _ _. apply wp_write_leaf; [apply Hfree|done|done|lia|].
    intros cow cs s' Hst Hd Hsep Hok Hit. eapply HΦ; [|exact Hsep]. split_and!; [|done|by rewrite Hit|done].
    destruct Hrep as [_ ->]. eapply quiet_then_step; [exact Hq|done|].
    apply (step_trans _ _ _ _ _ _ _ Hfree Hst). set_solver.
  - cbv zeta. eapply wp_enter_inner; [apply io_space|done..|]. intros L x R s1 o Hpk Hidx.
    destruct (picked_child _ _ _ _ _ _ _ _ _ _ Hpk Hs) as (Hox & Hrx & Hkx & Hsx).
    destruct Hpk as [Hq Hv1 -> -> Ho1 Hcs1 HL HR Hcap]. wp_steps.
    apply (IH fuel (cb x) (cF x) (ci x)); [lia|lia|done..|].
    intros cow cs' s2 (Hst2 & Hok2 & Hit2 & Hd2) Hsep2.
    destruct (replace_child l s1 b L x R cs' s2 Ho1 Hcs1 Hst2 Hok2) as (Hok3 & Ho3 & Hst3). wp_steps.
    rewrite Hidx. set (v' := match c_split cow with Some _ => _ | None => _ end).
    assert (v' = sep <$> (L ++ cs' ++ R)) as ->.
    { subst v'. rewrite !fmap_app, Hsep2. unfold cow_list. rewrite <- (length_fmap sep L), fmap_cons, insert_app_middle.
      destruct (c_split cow) as [[sk sblk]|]; simpl; [by rewrite vec_insert_app_S|done]. }
    assert (lenN cs' <= 2) as Hlen'.
    { rewrite <- (lenN_fmap sep cs'), Hsep2. unfold cow_list. destruct (c_split cow); unfold lenN; simpl; lia. }
    apply wp_free_block; [apply Hst3|eapply owned_elem; [exact Ho3|by left]|]. intros s3 Hfree _ Hdev _.
    destruct (step_free _ _ _ _ _ _ Hst3 Ho3 Hfree) as [Hst4 Ho4].
    assert (cs' ≠ []) as Hcne by (by destruct cs').
    apply (wp_write_inner l (L ++ cs' ++ R)); [apply Hst4|by destruct L, cs'|done|done| | |].
    { eapply children_frame; [|exact Hok3]. intros j _. unfold blk. by rewrite Hdev. }
    { rewrite !lenN_app in *. rewrite lenN_cons in Hcap. lia. }
    intros cow2 cs2 new s4 Hst5 Hd5 Hperm Hsep5 Hok5 Hit5. apply (HΦ cow2 cs2); [|done].
    split_and!; [|done| |done].
    + eapply quiet_then_step; [exact Hq|done|]. rewrite Hperm, (Permutation_app_comm new).
      pose proof (step_trans _ _ _ _ _ _ _ Hst4 Hst5) as Ht. rewrite app_nil_r in Ht. apply Ht. set_solver.
    + rewrite Hit5, !items_app, Hit2, items_cons. by rewrite upsert_app.
Qed.

(** *** Deletion *)
Definition delete_err (key : Key) (it : list Item) (e : FsError) : Prop :=
  space_err (D := D) e ∨ (e = NotFound ∧ key ∉ it.*1).

Lemma remove_leaf it key o : search_result it key o ->
  match o with
  | inl i => vec_remove i it = remove key it ∧ key ∈ it.*1
  | inr _ => key ∉ it.*1
  end.
Proof.
  intros Ho. destruct o as [i|i]; simpl in Ho.
  - destruct Ho as (lo & x & hi & -> & -> & Hlo & Hhi). rewrite vec_remove_app.
    pose proof (remove_app key lo [(key, x)] hi Hlo Hhi) as Hu. rewrite remove_at in Hu.
    split; [exact (eq_sym Hu)|]. rewrite fmap_app. set_solver.
  - destruct Ho as (lo & hi & -> & -> & Hlo & Hhi). by apply not_in_below_above.
Qed.

Lemma vec_remove_incl {A} i (v : list A) x : x ∈ vec_remove i v -> x ∈ v.
Proof.
  unfold vec_remove. rewrite elem_of_app. intros [Hx|Hx].
  - rewrite <- (take_drop i v). set_solver.
  - rewrite <- (take_drop (S i) v). set_solver.
Qed.
Lemma vec_remove_len {A} i (v : list A) : lenN (vec_remove i v) <= lenN v.
Proof. unfold vec_remove, lenN. rewrite length_app, length_take, length_drop. lia. Qed.

Definition one_child (o : option (N * Key)) : list (Key * N) :=
  match o with Some (nb, nmin) => [(nmin, nb)] | None => [] end.

Lemma delete_leaf fuel b F it key s (Φ : option (N * Key) -> Sosofs D -> Prop) :
  vol_ok s -> rep (blk s) 0 b F it -> owned s F -> ksorted it ->
  (forall o cs s', rewritten s 0 F (remove key it) s' cs -> sep <$> cs = one_child o -> key ∈ it.*1 -> Φ o s') ->
  wp (delete_err key it) (delete_rec (S fuel) b 0 key) Φ s.
Proof.
  intros Hv Hrep Ho Hs HΦ. cbn [delete_rec].
  eapply wp_enter_leaf; [by left; right|done..|]. intros o s1 Hq Hv1 Hb1 Ho' Hwf Hcap.
  pose proof (remove_leaf it key o Ho') as Hrm. destruct o as [i|i]; [|wp_steps; by right].
  destruct Hrm as [Hrm Hin]. destruct Hrep as [_ ->]. wp_steps. apply wp_free_block; [done..|].
  intros s2 Hfree Hd2 _ _. pose proof (quiet_then_step _ _ _ _ _ Hq Hv Hfree) as Hst2.
  destruct (N.eqb_spec (lenN (vec_remove i it)) 0) as [He|Hne]; cbv zeta.
  + wp_steps. apply (HΦ None []); [|done|done]. split_and!; [exact Hst2|constructor| |done].
    rewrite <- Hrm. destruct (vec_remove i it); [done|]. by rewrite lenN_cons in He; lia.
  + wp_steps. eapply wp_mono; [apply wp_write_node|intros e He; by left|intros ? ? Hpost; exact Hpost].
    * apply Hfree.
    * simpl in *. rewrite Forall_forall in Hwf |- *. intros e He. by eapply Hwf, vec_remove_incl.
    * done.
    * cbn [node_len]. change (node_cap 0) with LEAF_CAP. pose proof (vec_remove_len i it). lia.
    * intros nb s3 Hst3 Hat Hd3 _. wp_steps.
      apply (HΦ _ [mkChild (node_min (Leaf (vec_remove i it))) nb [nb] (vec_remove i it)]); [|done|done].
      split_and!; [apply (step_trans _ _ _ _ _ _ _ Hst2 Hst3); set_solver| |by rewrite items_cons, app_nil_r|done].
      constructor; [|constructor]. split; [|done]. simpl. by destruct (vec_remove i it).
Qed.

Lemma delete_rec_spec l : forall fuel b F it key s (Φ : option (N * Key) -> Sosofs D -> Prop),
  (l < fuel)%nat -> (l < 256)%nat -> vol_ok s -> rep (blk s) l b F it -> owned s F -> ksorted it ->
  (forall o cs s', rewritten s l F (remove key it) s' cs -> sep <$> cs = one_child o -> key ∈ it.*1 -> Φ o s') ->
  wp (delete_err key it) (delete_rec fuel b (N.of_nat l) key) Φ s.
Proof.
  induction l as [|l IH]; intros [|fuel] b F it key s Φ Hf Hl Hv Hrep Ho Hs HΦ; try lia.
  - by eapply delete_leaf.
  - cbn [delete_rec]. cbv zeta. eapply wp_enter_inner; [by left; right|done..|]. intros L x R s1 o Hpk Hidx.
    destruct (picked_child _ _ _ _ _ _ _ _ _ _ Hpk Hs) as (Hox & Hrx & Hkx & Hsx).
    destruct Hpk as [Hq Hv1 -> -> Ho1 Hcs1 HL HR Hcap]. wp_steps.
    assert (key ∉ (items (L ++ x :: R)).*1 <-> key ∉ (ci x).*1) as Hin.
    { pose proof (not_in_below_above _ _ _ HL HR). rewrite items_app, items_cons, !fmap_app in *. set_solver. }
    eapply wp_mono; [apply (IH fuel (cb x) (cF x) (ci x) key s1
      (fun o s2 => exists cs', rewritten s1 l (cF x) (remove key (ci x)) s2 cs' ∧ sep <$> cs' = one_child o ∧
         key ∈ (ci x).*1)); [lia|lia|done..|by eauto]| |].
    { intros e [He|[-> Hn]]; [by left|right]. split; [done|]. by apply Hin. }
    intros r s2 (cs' & (Hst2 & Hok2 & Hit2 & Hd2) & Hsep2 & Hin2).
    destruct (replace_child l s1 b L x R cs' s2 Ho1 Hcs1 Hst2 Hok2) as (Hok3 & Ho3 & Hst3). wp_steps.
    rewrite Hidx. set (v' := match r with Some (nb, nmin) => <[length L := (nmin, nb)]> _ | None => _ end).
    assert (v' = sep <$> (L ++ cs' ++ R)) as ->.
    { subst v'. rewrite !fmap_app, Hsep2, fmap_cons. rewrite <- (length_fmap sep L).
      destruct r as [[nb nmin]|]; simpl; [by rewrite insert_app_middle|by rewrite vec_remove_app]. }
    apply wp_free_block; [apply Hst3|eapply owned_elem; [exact Ho3|by left]|]. intros s3 Hfree Hd3 Hdev _.
    destruct (step_free _ _ _ _ _ _ Hst3 Ho3 Hfree) as [Hst4 Ho4].
    apply (children_frame _ (blk s3)) in Hok3; [|intros j _; unfold blk; by rewrite Hdev].
    assert (items (L ++ cs' ++ R) = remove key (items (L ++ x :: R))) as Hit4.
    { rewrite !items_app, items_cons, Hit2. by rewrite remove_app. }
    assert (key ∈ (items (L ++ x :: R)).*1) as Hin4.
    { destruct (decide (key ∈ (items (L ++ x :: R)).*1)) as [|Hn]; [done|]. by apply Hin in Hn. }
    pose proof (quiet_then_step _ _ _ _ _ Hq Hv Hst4) as Hst4'.
    rewrite lenN_fmap. destruct (N.eqb_spec (lenN (L ++ cs' ++ R)) 0) as [He|Hne].
    + wp_steps. assert (L ++ cs' ++ R = []) as Hnil.
      { destruct (L ++ cs' ++ R); [done|]. rewrite lenN_cons in He. lia. }
      apply (HΦ None []); [|done|done]. split_and!; [|constructor| |done].
      * by rewrite Hnil in Hst4'.
      * by rewrite <- Hit4, Hnil.
    + assert (lenN cs' <= 1) as Hlen' by (rewrite <- (lenN_fmap sep cs'), Hsep2; by destruct r as [[??]|]).
      wp_steps. assert (L ++ cs' ++ R ≠ []) as Hne4 by (intros Hn; by rewrite Hn in Hne).
      eapply wp_mono; [apply (wp_write_inner1 l (L ++ cs' ++ R))|intros e He; by left|intros ? ? Hpost; exact Hpost];
        [apply Hst4|done|done|done|done|rewrite !lenN_app in *; rewrite lenN_cons in Hcap; lia|].
      intros nb s5 Hst5 Hd5 Hok5. wp_steps. apply (HΦ _ [parent nb (L ++ cs' ++ R)]); [|done|done].
      split_and!; [|by constructor|by rewrite items_cons, app_nil_r|done].
      rewrite blocks_cons, app_nil_r. pose proof (step_trans _ _ _ _ _ _ _ Hst4' Hst5) as Ht.
      rewrite app_nil_r, (Permutation_app_comm _ [nb]) in Ht. apply Ht. set_solver.
Qed.

(** *** The whole tree *)
Record tree s (l : nat) (F : list N) (it : list Item) : Prop := {
  tr_rep : rep (blk s) l (tree_root s) F it;
  tr_owned : owned s F;
  tr_sorted : ksorted it;
  tr_level : (l < 256)%nat;
}.

Lemma tree_step_root s A B s' r : step s A B s' -> step s A B (set_tree_root r s').
Proof. intros [[? ? ? ?] [? ? ? ? ? ?] H3 H4 H5 H6 H7 H8]. split; [done|done|done..]. Qed.

Lemma tree_quiet s s' l F it : quiet s s' -> tree s l F it -> tree s' l F it.
Proof.
  intros Hq [Hr Ho Hs Hl]. split; [|by eapply quiet_owned|done|done].
  destruct Hq as (Hsb & Hdev & Hb & Hd & Hh & Hroot). rewrite Hroot. eapply rep_frame; [|exact Hr].
  intros j _. by apply (quiet_blk s s').
Qed.

Lemma tree_root_vol s l F it : vol_ok s -> tree s l F it -> in_vol s (tree_root s) ∧ tree_root s < block_count (dev s).
Proof.
  intros Hv [Hr Ho _ _]. apply rep_root in Hr. destruct (owned_elem _ _ _ Ho Hr). split; [done|by apply vol_block].
Qed.

(** A single node at the top of the children an operation left. *)
Lemma tree_of_child s0 s A B l x it : step s0 A B s -> cF x ≡ₚ B -> child_ok (blk s) l x -> ci x = it -> ksorted it ->
  (l < 256)%nat -> tree (set_tree_root (cb x) s) l (cF x) it.
Proof.
  intros Hst HB [_ Hr] <- Hs Hl. split; [exact Hr| |done|done].
  eapply owned_perm; [by symmetry|]. by eapply step_new_owned, tree_step_root.
Qed.

Lemma upsert_ne k p it : upsert k p it ≠ [].
Proof. unfold upsert. by destruct (filter _ it). Qed.

Lemma sep_one cs a b : sep <$> cs = [(a, b)] -> exists x, cs = [x] ∧ ck x = a ∧ cb x = b.
Proof. destruct cs as [|x [|]]; try done. intros [= <- <-]. by exists x. Qed.

Lemma wp_tree_insert fuel l F it key payload (Φ : unit -> Sosofs D -> Prop) s :
  (l < fuel)%nat -> (l < 255)%nat -> vol_ok s -> tree s l F it -> Key.wf key -> lenN payload = ITEM_PAYLOAD ->
  (forall l' F' s', (l' <= S l)%nat -> step s F F' s' -> dirty s' = true ->
     tree s' l' F' (upsert key payload it) -> Φ tt s') ->
  wp space_err (tree_insert fuel key payload) Φ s.
Proof.
  intros Hf Hl Hv Ht Hkey Hpay HΦ. destruct (tree_root_vol _ _ _ _ Hv Ht) as [Hrv Hrb].
  unfold tree_insert. wp_steps. destruct (rep_node _ _ _ _ _ (tr_rep _ _ _ _ Ht)) as [d Hat].
  eapply wp_mono; [eapply (wp_node_level _ (N.of_nat l) d (fun lv s' => lv = N.of_nat l ∧ quiet s s'));
    [apply Hv|done|done|done]|apply io_space|]. intros lv s1 [-> Hq]. wp_steps.
  pose proof (tree_quiet _ _ _ _ _ Hq Ht) as [Hr1 Ho1 Hs1 _]. pose proof (quiet_vol _ _ Hq Hv) as Hv1.
  replace (tree_root s) with (tree_root s1) by apply Hq.
  eapply insert_rec_spec; [done|lia|done..|]. intros cow cs s2 (Hst & Hok & Hit & Hd) Hsep.
  pose proof (quiet_then_step _ _ _ _ _ Hq Hv Hst) as Hst'. pose proof (ksorted_upsert key payload it Hs1) as Hs2.
  wp_steps. unfold cow_list in Hsep. destruct (c_split cow) as [[sk sblk]|]; simpl in Hsep.
  - rewrite (proj2 (N.ltb_ge _ _)) by lia. wp_steps. replace (N.of_nat l + 1) with (N.of_nat (S l)) by lia.
    rewrite <- Hsep. apply (wp_write_inner1 l cs);
      [apply Hst|by destruct cs|lia|by eapply step_new_owned|done| |].
    { rewrite <- (lenN_fmap sep cs), Hsep. done. }
    intros nb s3 Hst3 Hd3 Hok3. wp_steps.
    assert (step s F (nb :: blocks cs) s3) as Hst4.
    { pose proof (step_trans _ _ _ _ _ _ _ Hst' Hst3) as Ht4. rewrite app_nil_r in Ht4.
      rewrite Permutation_cons_append. apply Ht4. set_solver. }
    eapply (HΦ (S l) (nb :: blocks cs)); [done|by apply tree_step_root|done|].
    by eapply (tree_of_child _ _ _ _ (S l) (parent nb cs)); [exact Hst4|done|exact Hok3| |done|lia].
  - apply sep_one in Hsep as (x & -> & Hk & Hb). wp_steps. rewrite <- Hb.
    rewrite items_cons, app_nil_r in Hit. rewrite blocks_cons, app_nil_r in Hst'.
    eapply (HΦ l (cF x)); [lia|by apply tree_step_root|done|]. apply Forall_cons in Hok as [Hok _].
    by eapply tree_of_child; [exact Hst'|done|done|done|done|lia].
Qed.

(** Shrinking frees the roots with a single child; the items stay. *)
Lemma wp_encoger l : forall fuel F it (Φ : unit -> Sosofs D -> Prop) s,
  (l < fuel)%nat -> vol_ok s -> tree s l F it ->
  (forall l' F' s', (l' <= l)%nat -> step s F F' s' -> tree s' l' F' it -> Φ tt s') ->
  wp io_err (encoger fuel) Φ s.
Proof.
  induction l as [|l IH]; intros [|fuel] F it Φ s Hf Hv Ht HΦ; try lia; cbn [encoger]; wp_steps;
    pose proof Ht as [Hrep Ho Hs Hl]; destruct (tree_root_vol _ _ _ _ Hv Ht) as [Hrv Hrb].
  - destruct Hrep as [Hat ->]. eapply wp_parse_node; [apply Hv|done|exact Hat|]. intros s1 Hq. cbv beta iota.
    wp_steps. eapply (HΦ 0%nat); [done| |by eapply tree_quiet].
    apply (step_extend s [] []); [by apply quiet_step|apply Ho|].
    intros j Hj. destruct (owned_elem _ _ _ Ho Hj). set_solver.
  - pose proof Hrep as (cs & Hat & Hne & -> & -> & Hcs)%rep_S_inv.
    eapply wp_parse_node; [apply Hv|done|exact Hat|]. intros s1 Hq. cbv beta iota.
    assert (forall K s2, owned s K -> quiet s s2 -> step s K K s2) as Hstay.
    { intros K s2 HoK Hq2. apply (step_extend s [] []); [by apply quiet_step|apply HoK|].
      intros j Hj. destruct (owned_elem _ _ _ HoK Hj). set_solver. }
    destruct cs as [|x [|y cs]]; [done| |]; simpl; wp_steps.
    + apply wp_free_block; [by eapply quiet_vol|unfold in_vol; by rewrite (sbd_sb _ _ (proj1 Hq))|].
      intros s2 Hfree _ Hdev Hroot. wp_steps. rewrite blocks_cons, app_nil_r in *.
      pose proof (quiet_then_step _ _ _ _ _ Hq Hv Hfree) as Hfree'.
      change (tree_root s :: cF x) with ([tree_root s] ++ cF x) in *.
      apply owned_app in Ho as (Hor & Hox & Hdisj).
      destruct (step_owned _ _ _ _ _ Hfree' Hox) as [Hox2 _].
      { intros j Hj Hj'. by apply (Hdisj j). }
      rewrite app_nil_r in Hox2. apply Forall_cons in Hcs as [[_ Hx] _].
      rewrite items_cons, app_nil_r in *.
      apply (IH fuel (cF x) (ci x)); [lia|apply (tree_step_root _ _ _ _ (cb x) Hfree')| |].
      * split; [|done|done|lia]. eapply rep_frame; [|exact Hx]. intros j _. unfold blk. simpl. rewrite Hdev.
        by apply (quiet_blk s s1).
      * intros l' F' s' Hl' Hst' Ht'. eapply (HΦ l' F'); [lia| |done].
        pose proof (step_trans _ _ _ _ _ _ _ (tree_step_root _ _ _ _ (cb x) Hfree') Hst') as Htr. apply Htr. set_solver.
    + eapply (HΦ (S l)); [done|by apply Hstay|by eapply tree_quiet].
Qed.

Lemma wp_tree_delete fuel l F it key (Φ : unit -> Sosofs D -> Prop) s :
  (l < fuel)%nat -> vol_ok s -> tree s l F it ->
  (forall l' F' s', (l' <= l)%nat -> step s F F' s' -> dirty s' = true ->
     tree s' l' F' (remove key it) -> key ∈ it.*1 -> Φ tt s') ->
  wp (delete_err key it) (tree_delete fuel key) Φ s.
Proof.
  intros Hf Hv Ht HΦ. destruct (tree_root_vol _ _ _ _ Hv Ht) as [Hrv Hrb].
  unfold tree_delete. wp_steps. destruct (rep_node _ _ _ _ _ (tr_rep _ _ _ _ Ht)) as [d Hat].
  eapply wp_mono; [eapply (wp_node_level _ (N.of_nat l) d (fun lv s' => lv = N.of_nat l ∧ quiet s s'));
    [apply Hv|done|done|done]|by left; right|]. intros lv s1 [-> Hq]. wp_steps.
  pose proof (tree_quiet _ _ _ _ _ Hq Ht) as [Hr1 Ho1 Hs1 Hl]. pose proof (quiet_vol _ _ Hq Hv) as Hv1.
  replace (tree_root s) with (tree_root s1) by apply Hq.
  eapply delete_rec_spec; [done|lia|done..|]. intros o cs s2 (Hst & Hok & Hit & Hd) Hsep Hin.
  pose proof (quiet_then_step _ _ _ _ _ Hq Hv Hst) as Hst'. pose proof (ksorted_remove key it Hs1) as Hs2.
  assert (forall l' F' s3, (l' <= l)%nat -> step s F F' s3 -> dirty s3 = true -> tree s3 l' F' (remove key it) ->
    wp (delete_err key it) (encoger fuel) Φ s3) as Hshrink.
  { intros l' F' s3 Hl' Hst3 Hd3 Ht3. eapply wp_mono; [eapply (wp_encoger l' fuel F' _ (fun r s' => r = tt ∧ exists l2 F2,
      (l2 <= l')%nat ∧ step s3 F' F2 s' ∧ tree s' l2 F2 (remove key it))); [lia|apply Hst3|done|by eauto 10]|by left; right|].
    intros [] s4 (_ & l2 & F2 & Hl2 & Hst4 & Ht4).
    eapply (HΦ l2 F2); [lia|by eapply step_replace|by apply Hst4|done|done]. }
  wp_steps. destruct o as [[nb nmin]|]; simpl in Hsep.
  - apply sep_one in Hsep as (x & -> & Hk & Hb). wp_steps. rewrite <- Hb.
    apply Forall_cons in Hok as [Hok _]. rewrite items_cons, app_nil_r in Hit.
    rewrite blocks_cons, app_nil_r in Hst'. eapply (Hshrink l (cF x)); [done|by apply tree_step_root|done|].
    by eapply tree_of_child; [exact Hst'|done|done|done|done|lia].
  - destruct cs; [|done]. wp_steps. eapply wp_mono; [apply (wp_write_node 0 (Leaf []))|by left|intros ? ? Hpost; exact Hpost];
      [apply Hst|by simpl|done|done|].
    intros nb s3 Hst3 Hat3 Hd3 _. wp_steps. simpl in Hit.
    pose proof (step_trans _ _ _ _ _ _ _ Hst' Hst3 ltac:(set_solver)) as Hst4. rewrite app_nil_r in Hst4.
    eapply (Hshrink 0%nat [nb]); [lia|by apply tree_step_root|done|]. rewrite <- Hit. split; [done| |constructor|lia].
    by eapply step_new_owned, tree_step_root.
Qed.
End Ops.
