(* ===== verification/SosofsScan.v ===== *)
(** * sosofs: range scans and searches of the tree

    [scan_range] returns, in order, exactly the items of the tree whose key
    lies in the range; [find_first] returns the first of them that satisfies
    the predicate. Subtrees are skipped only when their separators say that
    they hold nothing in range. Neither changes the volume. *)
From S2P Require Import Prelude BlockDev SosofsLayout SosofsAlloc SosofsTree SosofsNode SosofsStep SosofsTreeSpec.
Local Open Scope N_scope.

Section Scan.
Context {D : Type} `{BD : BlockDevice D} `{BS : !BlockDeviceSpec D} `{CRC : Crc32c}.
Implicit Types s : Sosofs D.

(** Loops over [0..n], seen as loops over the [n] elements of a list. *)
Lemma wp_mfold_upto {A B} Q (cs : list A) (f : B -> N -> F D B) (P : list A -> B -> Sosofs D -> Prop)
    (Φ : B -> Sosofs D -> Prop) b s :
  P [] b s ->
  (forall pre x post b s, cs = pre ++ x :: post -> P pre b s -> wp Q (f b (lenN pre)) (P (pre ++ [x])) s) ->
  (forall b s, P cs b s -> Φ b s) -> wp Q (mfold f b (upto (lenN cs))) Φ s.
Proof.
  intros Hb Hf HΦ.
  assert (forall suf pre b s, cs = pre ++ suf -> P pre b s ->
    wp Q (mfold f b (N.of_nat <$> seq (length pre) (length suf))) Φ s) as Hgen.
  { induction suf as [|x suf IH]; intros pre b' s' Heq Hp; simpl.
    - apply wp_ret, HΦ. by rewrite Heq, app_nil_r.
    - apply wp_bind. eapply wp_mono; [by apply (Hf pre x suf)|done|]. intros b2 s2 Hp2.
      replace (S (length pre)) with (length (pre ++ [x])) by (rewrite length_app; simpl; lia).
      apply IH; [by rewrite <- (assoc_L (++))|done]. }
  unfold upto, lenN. rewrite Nat2N.id. by apply (Hgen cs []).
Qed.

Lemma wp_mfind_upto {A B} Q (cs : list A) (f : N -> F D (option B)) (P : list A -> Sosofs D -> Prop)
    (Φ : option B -> Sosofs D -> Prop) s :
  P [] s ->
  (forall pre x post s, cs = pre ++ x :: post -> P pre s ->
     wp Q (f (lenN pre)) (fun o s' => match o with Some r => Φ (Some r) s' | None => P (pre ++ [x]) s' end) s) ->
  (forall s, P cs s -> Φ None s) -> wp Q (mfind f (upto (lenN cs))) Φ s.
Proof.
  intros Hb Hf HΦ.
  assert (forall suf pre s, cs = pre ++ suf -> P pre s ->
    wp Q (mfind f (N.of_nat <$> seq (length pre) (length suf))) Φ s) as Hgen.
  { induction suf as [|x suf IH]; intros pre s' Heq Hp; simpl.
    - apply wp_ret, HΦ. by rewrite Heq, app_nil_r.
    - apply wp_bind. eapply wp_mono; [by apply (Hf pre x suf)|done|]. intros [r|] s2 Hp2; [by apply wp_ret|].
      replace (S (length pre)) with (length (pre ++ [x])) by (rewrite length_app; simpl; lia).
      apply IH; [by rewrite <- (assoc_L (++))|done]. }
  unfold upto, lenN. rewrite Nat2N.id. by apply (Hgen cs []).
Qed.

Definition in_range (min max : Key) (e : Item) : Prop := Key.le min e.1 ∧ Key.le e.1 max.
#[export] Instance in_range_dec min max e : Decision (in_range min max e).
Proof. apply _. Defined.

Lemma en_rango_spec min max k p : en_rango min max k = true <-> in_range min max (k, p).
Proof. unfold en_rango, in_range. simpl. by rewrite andb_true_iff, !key_leb_spec. Qed.

(** What an entry of a leaf or an inner node reads as. *)
Lemma leaf_at c b it pre e post : node_at (c b) b 0 (Leaf it) -> it = pre ++ e :: post ->
  leaf_entry (leaf_off (lenN pre)) (c b) = e ∧ lenN pre < LEAF_CAP.
Proof.
  intros (_ & _ & Hl & Hc & Hd) Heq. unfold decode_node in Hd. rewrite Hl in Hd. simpl in Hd. injection Hd as Hd.
  split.
  - assert (it !! length pre = Some e) as Hlk by (rewrite Heq; by apply list_lookup_middle).
    rewrite <- Hd, list_lookup_fmap in Hlk. apply fmap_Some in Hlk as (i & Hi & ->).
    unfold upto in Hi. rewrite list_lookup_fmap in Hi. apply fmap_Some in Hi as (j & Hj & ->).
    apply lookup_seq in Hj as [-> _]. unfold lenN. by rewrite Nat.add_0_l.
  - cbn [node_len] in Hc. change (node_cap 0) with LEAF_CAP in Hc. rewrite Heq, lenN_app, lenN_cons in Hc. lia.
Qed.

Lemma inner_at c b l cs pre x post : node_at (c b) b (N.of_nat (S l)) (Internal (sep <$> cs)) -> cs = pre ++ x :: post ->
  int_entry (int_off (lenN pre)) (c b) = sep x ∧ lenN pre < INT_CAP.
Proof.
  intros (_ & _ & Hl & Hc & Hd) Heq. unfold decode_node in Hd. rewrite Hl in Hd.
  replace (N.of_nat (S l) =? 0) with false in Hd by (symmetry; apply N.eqb_neq; lia). injection Hd as Hd.
  split.
  - assert ((sep <$> cs) !! length pre = Some (sep x)) as Hlk.
    { rewrite list_lookup_fmap, Heq, list_lookup_middle; done. }
    rewrite <- Hd, list_lookup_fmap in Hlk. apply fmap_Some in Hlk as (i & Hi & ->).
    unfold upto in Hi. rewrite list_lookup_fmap in Hi. apply fmap_Some in Hi as (j & Hj & ->).
    apply lookup_seq in Hj as [-> _]. unfold lenN. by rewrite Nat.add_0_l.
  - cbn [node_len] in Hc. change (node_cap _) with INT_CAP in Hc. rewrite lenN_fmap, Heq, lenN_app, lenN_cons in Hc. lia.
Qed.

Lemma node_at_header (blk : Block) b level d : node_at blk b level d ->
  h_level (node_header_read blk) = level ∧ h_nkeys (node_header_read blk) = node_len d ∧ node_len d <= node_cap level.
Proof. intros (_ & _ & ? & ? & <-). by rewrite decode_len in *. Qed.

(** A child that is not visited holds nothing in range. *)
Lemma not_visited c b l cs pre x post min max :
  node_at (c b) b (N.of_nat (S l)) (Internal (sep <$> cs)) -> cs = pre ++ x :: post ->
  ksorted (items cs) -> Forall keyed cs ->
  visita (c b) (lenN cs) (lenN pre) min max = false -> filter (in_range min max) (ci x) = [].
Proof.
  intros Hat Heq Hs Hk Hv. unfold visita in Hv.
  destruct (inner_at _ _ _ _ _ _ _ Hat Heq) as [Hx _].
  rewrite Heq in Hs, Hk. rewrite items_app, items_cons in Hs. apply ksorted_app in Hs as (_ & Hs & _).
  apply ksorted_app in Hs as (Hsx & Hsp & Hlt). apply Forall_app in Hk as [_ [Hkx Hkp]%Forall_cons].
  apply filter_none, Forall_forall. intros e He [Hmin Hmax].
  assert (Key.le (ck x) e.1) as Hlow.
  { apply first_key_inv in Hkx as (p & r & Hci). rewrite Hci in He, Hsx. apply ksorted_cons in Hsx as [_ Ha].
    rewrite Forall_forall in Ha. apply elem_of_cons in He as [->|He]; [by right|]. left. by apply Ha. }
  unfold int_entry in Hx. injection Hx as Hx _. rewrite Hx in Hv.
  replace (Key.leb (ck x) max) with true in Hv by (symmetry; apply key_leb_spec; by eapply key_le_trans).
  destruct post as [|y post].
  - rewrite (proj2 (N.ltb_ge _ _)) in Hv by (rewrite Heq, lenN_app; unfold lenN; simpl; lia). done.
  - rewrite (proj2 (N.ltb_lt _ _)) in Hv by (rewrite Heq, lenN_app; unfold lenN; simpl; lia).
    destruct (inner_at _ _ _ cs (pre ++ [x]) y post Hat) as [Hy _]; [by rewrite <- (assoc_L (++))|].
    rewrite lenN_app in Hy. unfold int_entry in Hy. injection Hy as Hy _. change (lenN [x]) with 1 in Hy.
    simpl in Hv. rewrite Hy in Hv. apply Forall_cons in Hkp as [Hky _]. apply first_key_inv in Hky as (p & r & Hci).
    assert (Key.lt min (ck y)) as Hm.
    { eapply key_le_lt_trans; [exact Hmin|]. apply (Hlt e (ck y, p) He). rewrite items_cons, Hci. set_solver. }
    apply key_ltb_spec in Hm. congruence.
Qed.

Lemma child_in_vol l s x cs : vol_ok s -> owned s (blocks cs) -> x ∈ cs -> child_ok (blk s) l x -> owned s (cF x).
Proof.
  intros Hv Ho (pre & post & ->)%list_elem_of_split _. rewrite blocks_app, blocks_cons in Ho.
  by apply owned_app in Ho as (_ & [? _]%owned_app & _).
Qed.

Lemma scan_node_spec l : forall fuel b F it min max out s (Φ : list Item -> Sosofs D -> Prop),
  (l < fuel)%nat -> vol_ok s -> rep (blk s) l b F it -> owned s F -> ksorted it ->
  (forall s', quiet s s' -> Φ (out ++ filter (in_range min max) it) s') ->
  wp io_err (scan_node fuel b min max out) Φ s.
Proof.
  induction l as [|l IH]; intros [|fuel] b F it min max out s Φ Hf Hv Hrep Ho Hs HΦ; try lia; cbn [scan_node]; wp_steps;
    assert (in_vol s b) as Hbv by (eapply owned_elem; [exact Ho|by eapply rep_root]);
    pose proof (blk_length s b Hv Hbv) as Hlen.
  - destruct Hrep as [Hat ->]. destruct (node_at_header _ _ _ _ Hat) as (Hlv & Hn & Hc).
    eapply wp_read_node; [apply Hv|by apply vol_block|exact Hat|]. intros s1 Hq. cbv zeta.
    rewrite Hlv, Hn. cbn [N.eqb]. rewrite (proj2 (N.ltb_ge _ _)) by exact Hc. wp_steps.
    apply (wp_mfold_upto _ it _ (fun pre acc s' => quiet s s' ∧ acc = out ++ filter (in_range min max) pre)).
    + split; [done|]. by rewrite app_nil_r.
    + intros pre e post acc s2 Heq [Hq2 ->]. destruct (leaf_at _ _ _ _ _ _ Hat Heq) as [He Hi].
      assert (entry_key (leaf_off (lenN pre)) (blk s b) = e.1) as -> by (by rewrite <- He).
      rewrite filter_app. destruct (en_rango min max e.1) eqn:Hr.
      * wp_steps. unfold wp. rewrite entry_payload_run by (done || by apply leaf_off_room). rewrite He.
        split; [done|]. rewrite filter_cons_True, <- (assoc_L (++)), <- surjective_pairing; [done|].
        destruct e. by apply en_rango_spec.
      * wp_steps. split; [done|]. rewrite filter_cons_False, app_nil_r; [done|]. destruct e. simpl in Hr.
        intros Hin. by rewrite (proj2 (en_rango_spec _ _ _ _) Hin) in Hr.
    + intros acc s2 [Hq2 ->]. wp_steps. apply wp_soltar_nodo; [apply Hq2|]. intros s3 Hq3. wp_steps.
      apply HΦ. by eapply quiet_trans.
  - apply rep_S_inv in Hrep as (cs & Hat & Hne & -> & -> & Hcs).
    destruct (node_at_header _ _ _ _ Hat) as (Hlv & Hn & Hc).
    eapply wp_read_node; [apply Hv|by apply vol_block|exact Hat|]. intros s1 Hq. cbv zeta.
    rewrite Hlv, Hn. rewrite (proj2 (N.eqb_neq _ 0)) by lia. rewrite (proj2 (N.ltb_ge _ _)) by exact Hc. wp_steps.
    cbn [node_len]. rewrite lenN_fmap. apply (owned_app _ [b]) in Ho as (_ & Ho & _).
    apply (wp_mfold_upto _ cs _ (fun pre acc s' => quiet s s' ∧ acc = out ++ filter (in_range min max) (items pre))).
    + split; [done|]. by rewrite app_nil_r.
    + intros pre x post acc s2 Heq [Hq2 ->]. destruct (inner_at _ _ _ _ _ _ _ Hat Heq) as [Hx Hi].
      rewrite items_app, items_cons, app_nil_r, filter_app.
      destruct (visita _ _ _ _ _) eqn:Hvis.
      * wp_steps. unfold wp at 1. rewrite entry_child_run by (done || by apply int_off_room). rewrite Hx. cbn [snd sep].
        assert (x ∈ cs) as Hin by (rewrite Heq; set_solver). rewrite Forall_forall in Hcs.
        apply (IH fuel (cb x) (cF x) (ci x)); [lia|by eapply quiet_vol| | | |].
        -- eapply rep_frame; [intros j _; by apply (quiet_blk s s2)|]. by apply Hcs.
        -- eapply quiet_owned; [exact Hq2|]. by eapply child_in_vol; [..|apply Hcs].
        -- rewrite Heq, items_app, items_cons in Hs. by apply ksorted_app in Hs as (_ & [? _]%ksorted_app & _).
        -- intros s3 Hq3. split; [by eapply quiet_trans|]. by rewrite (assoc_L (++)).
      * wp_steps. split; [done|]. erewrite (not_visited _ _ _ cs pre x); [by rewrite app_nil_r|done..| |done].
        by eapply children_keyed.
    + intros acc s2 [Hq2 ->]. wp_steps. apply wp_soltar_nodo; [apply Hq2|]. intros s3 Hq3. wp_steps.
      apply HΦ. by eapply quiet_trans.
Qed.

(** First match. *)
Definition wanted (min max : Key) (pred : list byte -> bool) (e : Item) : Prop :=
  in_range min max e ∧ pred e.2 = true.
#[export] Instance wanted_dec min max pred e : Decision (wanted min max pred e).
Proof. apply _. Defined.
Definition first_match min max pred (it : list Item) : option Item := head (filter (wanted min max pred) it).

Lemma first_match_app min max pred it it' : first_match min max pred it = None ->
  first_match min max pred (it ++ it') = first_match min max pred it'.
Proof. unfold first_match. rewrite filter_app. by destruct (filter _ it). Qed.
Lemma first_match_app_Some min max pred it it' e : first_match min max pred it = Some e ->
  first_match min max pred (it ++ it') = Some e.
Proof. unfold first_match. rewrite filter_app. by destruct (filter _ it). Qed.
Lemma first_match_out min max pred it : filter (in_range min max) it = [] -> first_match min max pred it = None.
Proof.
  intros Hf. unfold first_match. rewrite filter_none; [done|]. apply Forall_forall. intros e He [Hin _].
  assert (e ∈ filter (in_range min max) it) as H1 by (by apply list_elem_of_filter). rewrite Hf in H1. set_solver.
Qed.

Lemma find_node_spec l : forall fuel b F it min max pred s (Φ : option Item -> Sosofs D -> Prop),
  (l < fuel)%nat -> vol_ok s -> rep (blk s) l b F it -> owned s F -> ksorted it ->
  (forall s', quiet s s' -> Φ (first_match min max pred it) s') ->
  wp io_err (find_node fuel b min max pred) Φ s.
Proof.
  induction l as [|l IH]; intros [|fuel] b F it min max pred s Φ Hf Hv Hrep Ho Hs HΦ; try lia; cbn [find_node]; wp_steps;
    assert (in_vol s b) as Hbv by (eapply owned_elem; [exact Ho|by eapply rep_root]);
    pose proof (blk_length s b Hv Hbv) as Hlen.
  - destruct Hrep as [Hat ->]. destruct (node_at_header _ _ _ _ Hat) as (Hlv & Hn & Hc).
    eapply wp_read_node; [apply Hv|by apply vol_block|exact Hat|]. intros s1 Hq. cbv zeta.
    rewrite Hlv, Hn. cbn [N.eqb]. rewrite (proj2 (N.ltb_ge _ _)) by exact Hc. wp_steps.
    assert (forall r s2, quiet s s2 -> r = first_match min max pred it ->
      wp io_err (soltar_nodo (blk s b);; mret r) Φ s2) as Hend.
    { intros r s2 Hq2 ->. wp_steps. apply wp_soltar_nodo; [apply Hq2|]. intros s3 Hq3. wp_steps.
      apply HΦ. by eapply quiet_trans. }
    apply (wp_mfind_upto _ it _ (fun pre s' => quiet s s' ∧ first_match min max pred pre = None)); [done| |].
    + intros pre e post s2 Heq [Hq2 Hpre]. destruct (leaf_at _ _ _ _ _ _ Hat Heq) as [He Hi].
      assert (entry_key (leaf_off (lenN pre)) (blk s b) = e.1) as -> by (by rewrite <- He).
      assert (forall P, en_rango min max e.1 = P -> (P = true <-> in_range min max e)) as Hr.
      { intros P <-. destruct e. apply en_rango_spec. }
      destruct (en_rango min max e.1) eqn:Er; specialize (Hr _ eq_refl).
      * wp_steps. unfold wp at 1. rewrite entry_payload_run by (done || by apply leaf_off_room). rewrite He. cbn.
        destruct (pred e.2) eqn:Hp.
        -- apply Hend; [done|]. rewrite Heq, first_match_app by done. unfold first_match.
           rewrite filter_cons_True by (split; [by apply Hr|done]). by rewrite <- surjective_pairing.
        -- split; [done|]. rewrite first_match_app by done. unfold first_match.
           rewrite filter_cons_False by (intros [_ ?]; congruence). done.
      * wp_steps. split; [done|]. rewrite first_match_app by done. unfold first_match.
        rewrite filter_cons_False by (intros [Hin _]; by apply Hr in Hin). done.
    + intros s2 [Hq2 Hit]. by apply Hend.
  - apply rep_S_inv in Hrep as (cs & Hat & Hne & -> & -> & Hcs).
    destruct (node_at_header _ _ _ _ Hat) as (Hlv & Hn & Hc).
    eapply wp_read_node; [apply Hv|by apply vol_block|exact Hat|]. intros s1 Hq. cbv zeta.
    rewrite Hlv, Hn. rewrite (proj2 (N.eqb_neq _ 0)) by lia. rewrite (proj2 (N.ltb_ge _ _)) by exact Hc. wp_steps.
    cbn [node_len]. rewrite lenN_fmap. apply (owned_app _ [b]) in Ho as (_ & Ho & _).
    assert (forall r s2, quiet s s2 -> r = first_match min max pred (items cs) ->
      wp io_err (soltar_nodo (blk s b);; mret r) Φ s2) as Hend.
    { intros r s2 Hq2 ->. wp_steps. apply wp_soltar_nodo; [apply Hq2|]. intros s3 Hq3. wp_steps.
      apply HΦ. by eapply quiet_trans. }
    apply (wp_mfind_upto _ cs _ (fun pre s' => quiet s s' ∧ first_match min max pred (items pre) = None)); [done| |].
    + intros pre x post s2 Heq [Hq2 Hpre]. destruct (inner_at _ _ _ _ _ _ _ Hat Heq) as [Hx Hi].
      rewrite items_app, items_cons, app_nil_r, first_match_app by done.
      destruct (visita _ _ _ _ _) eqn:Hvis.
      * wp_steps. unfold wp at 1. rewrite entry_child_run by (done || by apply int_off_room). rewrite Hx. cbn [snd sep].
        assert (x ∈ cs) as Hin by (rewrite Heq; set_solver). rewrite Forall_forall in Hcs.
        apply (IH fuel (cb x) (cF x) (ci x)); [lia|by eapply quiet_vol| | | |].
        -- eapply rep_frame; [intros j _; by apply (quiet_blk s s2)|]. by apply Hcs.
        -- eapply quiet_owned; [exact Hq2|]. by eapply child_in_vol; [..|apply Hcs].
        -- rewrite Heq, items_app, items_cons in Hs. by apply ksorted_app in Hs as (_ & [? _]%ksorted_app & _).
        -- intros s3 Hq3. destruct (first_match min max pred (ci x)) as [r|] eqn:Hfm.
           ++ apply Hend; [by eapply quiet_trans|]. rewrite Heq, items_app, items_cons, first_match_app by done.
              by rewrite (first_match_app_Some _ _ _ _ _ _ Hfm).
           ++ split; [by eapply quiet_trans|done].
      * wp_steps. split; [done|]. apply first_match_out. eapply (not_visited _ _ _ cs pre x); [done..| |done].
        by eapply children_keyed.
    + intros s2 [Hq2 Hit]. by apply Hend.
Qed.

Lemma wp_scan_range fuel l F it min max (Φ : list Item -> Sosofs D -> Prop) s :
  (l < fuel)%nat -> vol_ok s -> tree s l F it ->
  (forall s', quiet s s' -> Φ (filter (in_range min max) it) s') -> wp io_err (scan_range fuel min max) Φ s.
Proof.
  intros Hf Hv [Hr Ho Hs _] HΦ. unfold scan_range. wp_steps. by eapply scan_node_spec.
Qed.
Lemma wp_find_first fuel l F it min max pred (Φ : option Item -> Sosofs D -> Prop) s :
  (l < fuel)%nat -> vol_ok s -> tree s l F it ->
  (forall s', quiet s s' -> Φ (first_match min max pred it) s') -> wp io_err (find_first fuel min max pred) Φ s.
Proof.
  intros Hf Hv [Hr Ho Hs _] HΦ. unfold find_first. wp_steps. by eapply find_node_spec.
Qed.
End Scan.
