(* ===== verification/SosofsFile.v ===== *)
(** * sosofs: files and directories

    The file half of [crates/sosofs/src/fs.rs] (stat, lookup, path
    resolution, directory listing, verified reads) and the bodies of the
    operations of [crates/sosofs/src/write.rs]: what each does to the tree and
    to the data extents before the transaction is published. [usize] is 64
    bits; memory is taken to be enough up to the limit of [isize]. *)
From S2P Require Import Prelude Texto BlockDev SosofsLayout SosofsAlloc SosofsTree.
From stdpp Require Import sorting.
Local Open Scope N_scope.

Definition ISIZE_MAX : N := 2 ^ 63 - 1.

(** [vec![0; n]] *)
Definition vec_zeros {S E} (n : N) : M S E (list byte) := if n <=? ISIZE_MAX then mret (zeros n) else panic.

(** [slice.chunks(n)] *)
Definition bloques_de (l : list byte) : list Block := chunks (length l) (N.to_nat BLOCK_SIZE) l.

(** [path.split('/').filter(|c| !c.is_empty() && *c != ".")] *)
Definition componentes (path : list byte) : list (list byte) :=
  filter (fun c => c ≠ [] ∧ c ≠ txt ".") (split_byte "/" path).

(** The order of [(String, u64)]. *)
Definition entry_le (a b : list byte * N) : Prop :=
  match bytes_cmp a.1 b.1 with Lt => True | Eq => a.2 <= b.2 | Gt => False end.
#[export] Instance entry_le_dec a b : Decision (entry_le a b).
Proof. unfold entry_le. destruct (bytes_cmp a.1 b.1); apply _. Defined.

Section File.
Context {D : Type} `{BlockDevice D} `{Crc32c}.

(** ** Reading *)
Definition dirent_buscar (fuel : nat) (dir : N) (name : list byte) : F D (option (Key * DirentItem)) :=
  let pred payload := bool_decide (name_bytes (dirent_item_read payload) = name) in
  let h := name_hash name in
  hit ← find_first fuel (mkKey dir KIND_DIRENT h) (mkKey dir KIND_DIRENT U64_MAX) pred;
  match hit with
  | Some (key, payload) => mret (Some (key, dirent_item_read payload))
  | None =>
      if h =? 0 then mret None
      else
        hit ← find_first fuel (mkKey dir KIND_DIRENT 0) (mkKey dir KIND_DIRENT (h - 1)) pred;
        mret (prod_map id dirent_item_read <$> hit)
  end.

Definition stat_inode (fuel : nat) (ino : N) : F D InodeItem :=
  let k := Key.inode ino in
  hit ← find_first fuel k k (fun _ => true);
  of_option (throw NotFound) ((fun e => inode_item_read e.2) <$> hit).

Definition lookup (fuel : nat) (dir : N) (name : list byte) : F D N :=
  if NAME_MAX <? lenN name then throw NameTooLong
  else
    o ← dirent_buscar fuel dir name;
    match o with
    | Some (_, de) => mret (d_child de)
    | None => throw NotFound
    end.

Definition resolve (fuel : nat) (path : list byte) : F D N :=
  mfold (fun ino comp =>
    st ← stat_inode fuel ino;
    if negb (i_file_type st =? FT_DIR) then throw NotADir else lookup fuel ino comp)
    ROOT_INODE (componentes path).

Definition read_dir (fuel : nat) (dir : N) : F D (list (list byte * N)) :=
  st ← stat_inode fuel dir;
  if negb (i_file_type st =? FT_DIR) then throw NotADir
  else
    let '(min, max) := Key.range dir KIND_DIRENT in
    out ← scan_range fuel min max;
    mret (merge_sort entry_le
      ((fun e => let de := dirent_item_read e.2 in (from_utf8_lossy (name_bytes de), d_child de)) <$> out)).

(** The requests that fill the blocks [i..nblocks] of an extent. *)
Fixpoint leer_bloques (fuel : nat) (start nblocks max i : N) (chunk : list byte) : F D (list byte) :=
  match fuel with
  | O => no_fuel
  | S fuel =>
      if i <? nblocks then
        let n := N.min (nblocks - i) max in
        b ← add64 start i;
        trozo ← dev_op (read_blocks b (n * BLOCK_SIZE));
        leer_bloques fuel start nblocks max (i + n) (chunk ++ trozo)
      else mret chunk
  end.

(** One extent of the loop of [read_file_range]: [out] and how much of it
    is written. *)
Definition leer_extent (size offset fin : N) (acc : list byte * N) (e : Key * list byte) :
    F D (list byte * N) :=
  let '(out, written) := acc in
  let ext := extent_item_read e.2 in
  let nblocks := e_block_count ext in
  if (nblocks =? 0) || (EXTENT_MAX_BLOCKS <? nblocks) then throw Corrupt
  else
    let ext_start := k_offset e.1 in
    ext_end ← add64 ext_start (nblocks * BLOCK_SIZE);
    if (ext_end <=? offset) || (fin <=? ext_start) then mret acc
    else
      s ← gets id;
      let max := N.max (max_blocks_per_request (dev s)) 1 in
      chunk ← leer_bloques (S (N.to_nat nblocks)) (e_start_block ext) nblocks max 0 [];
      if negb (crc32c chunk =? e_crc ext) then throw (BadChecksum (e_start_block ext))
      else
        resto ← sub64 size ext_start;
        let chunk := take (N.to_nat (N.min resto (lenN chunk))) chunk in
        let copy_start := offset - ext_start in
        hasta ← sub64 fin ext_start;
        let copy_end := N.min hasta (lenN chunk) in
        if copy_start <? copy_end then
          let n := copy_end - copy_start in
          if lenN out <? written + n then throw Corrupt
          else
            trozo ← of_option panic (slice copy_start n chunk);
            out ← of_option panic (put_slice written trozo out);
            mret (out, written + n)
        else mret acc.

(** The filled buffer. [offset.saturating_sub] is the subtraction of [N]. *)
Definition read_file_range (fuel : nat) (ino offset len : N) (out : list byte) : F D (list byte) :=
  if lenN out <? len then throw Corrupt
  else
    st ← stat_inode fuel ino;
    if negb (i_file_type st =? FT_FILE) then throw NotAFile
    else
      let size := i_size st in
      if size <? offset then throw Corrupt
      else
        fin ← add64 offset len;
        if size <? fin then throw Corrupt
        else if len =? 0 then mret out
        else
          let '(min, max) := Key.range ino KIND_EXTENT in
          extents ← scan_range fuel min max;
          '(out, written) ← mfold (leer_extent size offset fin) (out, 0) extents;
          if negb (written =? len) then throw Corrupt else mret out.

Definition read_file (fuel : nat) (ino : N) : F D (list byte) :=
  st ← stat_inode fuel ino;
  let size := i_size st in
  data ← vec_zeros size;
  read_file_range fuel ino 0 size data.

(** ** Changing *)
Definition check_dir (fuel : nat) (dir : N) : F D unit :=
  st ← stat_inode fuel dir;
  if negb (i_file_type st =? FT_DIR) then throw NotADir else mret tt.

(** Linear probing from the hash of the name; the search for a free slot
    has fuel of its own. *)
Fixpoint sondear (intentos fuel : nat) (dir off : N) (payload : list byte) : F D unit :=
  match intentos with
  | O => no_fuel
  | S intentos =>
      let k := mkKey dir KIND_DIRENT off in
      out ← scan_range fuel k k;
      match out with
      | [] => tree_insert fuel k payload
      | _ => sondear intentos fuel dir (wrapping_add64 off 1) payload
      end
  end.

Definition insert_dirent (intentos fuel : nat) (dir : N) (name : list byte) (child : N) : F D unit :=
  if (NAME_MAX <? lenN name) || bool_decide (name = []) then throw NameTooLong
  else
    sondear intentos fuel dir (name_hash name) (pad_payload (dirent_item_bytes (dirent_of name child))).

Definition dirent_key (fuel : nat) (dir : N) (name : list byte) : F D Key :=
  let '(min, max) := Key.range dir KIND_DIRENT in
  out ← scan_range fuel min max;
  match list_find (fun e => name_bytes (dirent_item_read e.2) = name) out with
  | Some (_, (key, _)) => mret key
  | None => throw NotFound
  end.

Definition put_inode (fuel : nat) (ino : N) (item : InodeItem) : F D unit :=
  tree_insert fuel (Key.inode ino) (pad_payload (inode_item_bytes item)).

(** [let ino = self.next_inode; self.next_inode += 1;] *)
Definition nuevo_inode : F D N :=
  ino ← gets next_inode;
  sig ← add64 ino 1;
  modify (set_next_inode sig);;
  mret ino.

Definition mkdir_inner (intentos fuel : nat) (dir : N) (name : list byte) (mtime : N) : F D N :=
  check_dir fuel dir;;
  r ← attempt (lookup fuel dir name);
  match r with
  | inr _ => throw Exists_
  | inl _ =>
      ino ← nuevo_inode;
      put_inode fuel ino (mkInodeItem FT_DIR 0 mtime);;
      insert_dirent intentos fuel dir name ino;;
      mret ino
  end.

(** The blocks of a chunk, one write each. *)
Definition escribir_bloques (start : N) (padded : list byte) : F D unit :=
  mfor (fun e => b ← add64 start e.1; dev_op (write_block b e.2))
    (zip (upto (lenN (bloques_de padded))) (bloques_de padded)).

(** One extent: blocks, data, and the item under key [off]. What of [resto]
    fitted in the blocks obtained. *)
Definition poner_extent (fuel : nat) (ino off : N) (resto : list byte) : F D N :=
  let restante := lenN resto in
  let want := N.min (div_ceil restante BLOCK_SIZE) EXTENT_MAX_BLOCKS in
  '(start, got) ← alloc_extent want;
  let chunk_len := N.min restante (got * BLOCK_SIZE) in
  let padded := take (N.to_nat chunk_len) resto ++ zeros (got * BLOCK_SIZE - chunk_len) in
  escribir_bloques start padded;;
  let ext := mkExtentItem start got (crc32c padded) in
  tree_insert fuel (mkKey ino KIND_EXTENT off) (pad_payload (extent_item_bytes ext));;
  mret chunk_len.

(** [while off < data.len()]: the extents of [resto], from file offset
    [off] on. *)
Fixpoint poner_extents (vueltas fuel : nat) (ino off : N) (resto : list byte) : F D unit :=
  match resto with
  | [] => mret tt
  | _ =>
      match vueltas with
      | O => no_fuel
      | S vueltas =>
          n ← poner_extent fuel ino off resto;
          off ← add64 off n;
          poner_extents vueltas fuel ino off (drop (N.to_nat n) resto)
      end
  end.

(** [for i in 0..ext.block_count { free_block(ext.start_block + i) }] *)
Definition liberar_extent (ext : ExtentItem) : F D unit :=
  mfor (fun i => b ← add64 (e_start_block ext) i; free_block b) (upto (e_block_count ext)).

Definition unlink_inner (fuel : nat) (dir : N) (name : list byte) : F D unit :=
  dkey ← dirent_key fuel dir name;
  ino ← lookup fuel dir name;
  st ← stat_inode fuel ino;
  (if i_file_type st =? FT_DIR then
     let '(min, max) := Key.range ino KIND_DIRENT in
     out ← scan_range fuel min max;
     match out with [] => mret tt | _ => throw DirNotEmpty end
   else
     let '(min, max) := Key.range ino KIND_EXTENT in
     extents ← scan_range fuel min max;
     mfor (fun e => liberar_extent (extent_item_read e.2);; tree_delete fuel e.1) extents);;
  tree_delete fuel (Key.inode ino);;
  tree_delete fuel dkey.

Definition create_file_inner (intentos fuel : nat) (dir : N) (name data : list byte) (mtime : N) : F D N :=
  check_dir fuel dir;;
  r ← attempt (lookup fuel dir name);
  match r with
  | inr existing =>
      st ← stat_inode fuel existing;
      if i_file_type st =? FT_DIR then throw NotAFile else unlink_inner fuel dir name
  | inl _ => mret tt
  end;;
  ino ← nuevo_inode;
  put_inode fuel ino (mkInodeItem FT_FILE (lenN data) mtime);;
  poner_extents (length data) fuel ino 0 data;;
  insert_dirent intentos fuel dir name ino;;
  mret ino.

Definition append_file_inner (fuel : nat) (ino : N) (data : list byte) (mtime : N) : F D N :=
  match data with
  | [] => mret ino
  | _ =>
      st ← stat_inode fuel ino;
      if negb (i_file_type st =? FT_FILE) then throw NotAFile
      else
        let size := i_size st in
        new_size ← add64 size (lenN data);
        let '(min, max) := Key.range ino KIND_EXTENT in
        extents ← scan_range fuel min max;
        let base := match last extents with Some (k, _) => k_offset k | None => 0 end in
        if size <? base then throw Corrupt
        else
          let previo := size - base in
          reserva ← add64 previo (lenN data);
          if ISIZE_MAX <? reserva then throw NoSpace
          else
            buf ← (if 0 <? previo then read_file_range fuel ino base previo (zeros previo) else mret []);
            let buf := buf ++ data in
            put_inode fuel ino (mkInodeItem FT_FILE new_size mtime);;
            poner_extents (length buf) fuel ino base buf;;
            mret ino
  end.

Definition rename_inner (intentos fuel : nat) (old_dir : N) (old_name : list byte) (new_dir : N)
    (new_name : list byte) (mtime : N) : F D unit :=
  check_dir fuel old_dir;;
  check_dir fuel new_dir;;
  if bool_decide (new_name = []) || bool_decide (old_name = []) then throw NameTooLong
  else
    r ← attempt (lookup fuel new_dir new_name);
    match r with
    | inr _ => throw Exists_
    | inl _ =>
        ino ← lookup fuel old_dir old_name;
        old_key ← dirent_key fuel old_dir old_name;
        tree_delete fuel old_key;;
        insert_dirent intentos fuel new_dir new_name ino;;
        st ← stat_inode fuel ino;
        put_inode fuel ino (mkInodeItem (i_file_type st) (i_size st) mtime)
    end.

(** One extent of the loop of [truncate_inner]. *)
Definition truncar_extent (fuel : nat) (ino new_size : N) (e : Key * list byte) : F D unit :=
  let off := k_offset e.1 in
  let ext := extent_item_read e.2 in
  ext_end ← add64 off (e_block_count ext * BLOCK_SIZE);
  if new_size <=? off then
    liberar_extent ext;;
    tree_delete fuel e.1
  else if new_size <? ext_end then
    let keep := new_size - off in
    let want := N.min (div_ceil keep BLOCK_SIZE) EXTENT_MAX_BLOCKS in
    '(start, got) ← alloc_extent want;
    let chunk_len := N.min keep (got * BLOCK_SIZE) in
    let padded := zeros (got * BLOCK_SIZE) in
    trozo ← (if 0 <? chunk_len
             then read_file_range fuel ino off chunk_len (take (N.to_nat chunk_len) padded)
             else mret []);
    let padded := trozo ++ drop (N.to_nat chunk_len) padded in
    escribir_bloques start padded;;
    liberar_extent ext;;
    tree_delete fuel e.1;;
    tree_insert fuel (mkKey ino KIND_EXTENT off)
      (pad_payload (extent_item_bytes (mkExtentItem start got (crc32c padded))))
  else mret tt.

Definition truncate_inner (fuel : nat) (ino new_size mtime : N) : F D unit :=
  st ← stat_inode fuel ino;
  if negb (i_file_type st =? FT_FILE) then throw NotAFile
  else if i_size st <=? new_size then
    put_inode fuel ino (mkInodeItem FT_FILE new_size mtime)
  else
    let '(min, max) := Key.range ino KIND_EXTENT in
    extents ← scan_range fuel min max;
    mfor (truncar_extent fuel ino new_size) extents;;
    put_inode fuel ino (mkInodeItem FT_FILE new_size mtime).

Definition set_mtime_inner (fuel : nat) (ino mtime : N) : F D unit :=
  st ← stat_inode fuel ino;
  put_inode fuel ino (mkInodeItem (i_file_type st) (i_size st) mtime).
End File.
