(* ===== verification/SosofsTxn.v ===== *)
(** * sosofs: mounting and transactions

    [mount] of [crates/sosofs/src/fs.rs] and the transactions of
    [crates/sosofs/src/write.rs]: the check before publishing, the commit that
    writes a new bitmap and then the superblock of the other slot, the
    rollback, growing the volume, and the public operations, each of which is
    one transaction. *)
From S2P Require Import Prelude BlockDev SosofsLayout SosofsAlloc SosofsTree SosofsFile.
Local Open Scope N_scope.

(** [Vec::resize(n, 0)] *)
Definition vec_resize (n : N) (l : list byte) : list byte :=
  take (N.to_nat n) l ++ replicate (N.to_nat n - length l) x00.

Section Txn.
Context {D : Type} `{BlockDevice D} `{Crc32c}.

(** ** Mounting *)

(** The valid superblock of highest generation; a slot that cannot be read
    is passed over. *)
Definition elegir_slot (best : option Superblock) (slot : N) : M D FsError (option Superblock) :=
  r ← attempt (zoom id (fun d _ => d) (fun _ => Io) (read_block slot));
  mret (match r with
        | inl _ => best
        | inr buf =>
            match superblock_parse buf with
            | Some sb => match best with
                         | Some b => if sb_generation b <? sb_generation sb then Some sb else best
                         | None => Some sb
                         end
            | None => best
            end
        end).

Definition cargar_bitmap (sb : Superblock) : M D FsError (list byte) :=
  mfold (fun bitmap i =>
    b ← add64 (sb_bitmap_start sb) i;
    buf ← zoom id (fun d _ => d) (fun _ => Io) (read_block b);
    mret (bitmap ++ buf)) [] (upto (sb_bitmap_blocks sb)).

Definition mount : M D FsError (Sosofs D) :=
  best ← mfold elegir_slot None [0; 1];
  sb ← of_option (throw NoValidSuperblock) best;
  bitmap ← cargar_bitmap sb;
  d ← gets id;
  mret (mkSosofs d sb (sb_tree_root sb) 0 [] (sb_next_inode sb) bitmap bitmap false 2).

(** ** The check before publishing *)
Definition esta_asignado (b : N) : F D bool := s ← gets id; of_option panic (asignado s b).

Definition clave_minima_y_nivel (block : N) : F D (Key * N) :=
  node ← read_node block;
  let hdr := node_header_read node in
  if h_nkeys hdr =? 0 then throw Corrupt
  else mret (read_disk_key (drop (N.to_nat NODE_HEADER_SIZE) node), h_level hdr).

(** [nivel_hijo + 1] on a [u8], evaluated only when the key matches. *)
Definition comprobar_hijo (nivel : N) (e : Key * N) : F D unit :=
  a ← esta_asignado e.2;
  if negb a then throw Corrupt
  else
    modify (fun s => set_dev (invalidate_block e.2 (dev s)) s);;
    '(min, nivel_hijo) ← clave_minima_y_nivel e.2;
    if negb (bool_decide (min = e.1)) then throw Corrupt
    else if 255 <? nivel_hijo + 1 then panic
    else if negb (nivel_hijo + 1 =? nivel) then throw Corrupt
    else mret tt.

Definition comprobar_raiz_publicable (fuel : nat) : F D unit :=
  modify (fun s => set_dev (invalidate_all (dev s)) s);;
  root ← gets tree_root;
  a ← esta_asignado root;
  if negb a then throw Corrupt
  else
    nivel ← node_level root;
    (if 0 <? nivel then
       d ← parse_node root;
       match d with
       | Internal hijos => mfor (comprobar_hijo nivel) hijos
       | Leaf _ => throw Corrupt
       end
     else mret tt);;
    st ← stat_inode fuel ROOT_INODE;
    if negb (i_file_type st =? FT_DIR) then throw Corrupt else mret tt.

(** ** Commit and rollback *)
Definition rollback : F D unit :=
  s ← gets id;
  if negb (lenN (frozen s) =? lenN (bitmap s)) then panic
  else
    modify (set_bitmap (frozen s));;
    modify (set_tree_root (sb_tree_root (sb s)));;
    modify (set_next_inode (sb_next_inode (sb s)));;
    modify (set_dirty false);;
    modify (set_alloc_hint 2).

(** The bitmap of the generation being built, in a run of its own. *)
Definition publicar_bitmap : F D (N * N) :=
  s ← gets id;
  let old_start := sb_bitmap_start (sb s) in
  let nblocks := lenN (bitmap s) / BLOCK_SIZE in
  mfor (fun i => b ← add64 old_start i; free_block b) (upto (sb_bitmap_blocks (sb s)));;
  new_start ← alloc_run nblocks;
  mfor (fun i =>
    s ← gets id;
    buf ← of_option panic (slice (i * BLOCK_SIZE) BLOCK_SIZE (bitmap s));
    b ← add64 new_start i;
    dev_op (write_block b buf)) (upto nblocks);;
  dev_op flush;;
  mret (new_start, nblocks).

Definition commit (fuel : nat) : F D unit :=
  s ← gets id;
  if negb (dirty s) then mret tt
  else
    r ← attempt (comprobar_raiz_publicable fuel);
    match r with
    | inl e => rollback;; throw e
    | inr _ =>
        '(new_start, nblocks) ← publicar_bitmap;
        s ← gets id;
        new_gen ← add64 (sb_generation (sb s)) 1;
        let sb := mkSuperblock MAGIC 0 new_gen (sb_block_count (sb s)) (tree_root s) new_start
                    (nblocks mod 2 ^ 32) (next_inode s) in
        let block := superblock_write_to_block sb (zeros BLOCK_SIZE) in
        dev_op (write_block (new_gen mod 2) block);;
        dev_op flush;;
        modify (set_sb sb);;
        s ← gets id;
        if negb (lenN (bitmap s) =? lenN (frozen s)) then panic
        else
          modify (set_frozen (bitmap s));;
          modify (set_dirty false)
    end.

Definition grow_to (fuel : nat) (new_block_count : N) : F D unit :=
  s ← gets id;
  if new_block_count <=? sb_block_count (sb s) then mret tt
  else if block_count (dev s) <? new_block_count then throw NoSpace
  else
    (if dirty s then rollback else mret tt);;
    let new_bitmap_blocks := div_ceil new_block_count (BLOCK_SIZE * 8) in
    let new_bitmap_bytes := new_bitmap_blocks * BLOCK_SIZE in
    modify (fun s => set_bitmap (vec_resize new_bitmap_bytes (bitmap s)) s);;
    modify (fun s => set_frozen (vec_resize new_bitmap_bytes (frozen s)) s);;
    modify (fun s =>
      let b := sb s in
      set_sb (mkSuperblock (sb_magic b) (sb_crc b) (sb_generation b) new_block_count (sb_tree_root b)
                (sb_bitmap_start b) (sb_bitmap_blocks b) (sb_next_inode b)) s);;
    modify (set_dirty true);;
    commit fuel.

Definition finish {A} (fuel : nat) (m : F D A) : F D A :=
  r ← attempt m;
  match r with
  | inr v =>
      c ← attempt (commit fuel);
      match c with
      | inr _ => mret v
      | inl e => rollback;; throw e
      end
  | inl e => rollback;; throw e
  end.

(** ** The public operations, one transaction each *)
Definition mkdir (intentos fuel : nat) (dir : N) (name : list byte) (mtime : N) : F D N :=
  finish fuel (mkdir_inner intentos fuel dir name mtime).
Definition create_file (intentos fuel : nat) (dir : N) (name data : list byte) (mtime : N) : F D N :=
  finish fuel (create_file_inner intentos fuel dir name data mtime).
Definition append_file (fuel : nat) (ino : N) (data : list byte) (mtime : N) : F D unit :=
  finish fuel (append_file_inner fuel ino data mtime);; mret tt.
Definition unlink (fuel : nat) (dir : N) (name : list byte) : F D unit :=
  finish fuel (unlink_inner fuel dir name).
Definition rename (intentos fuel : nat) (old_dir : N) (old_name : list byte) (new_dir : N)
    (new_name : list byte) (mtime : N) : F D unit :=
  finish fuel (rename_inner intentos fuel old_dir old_name new_dir new_name mtime).
Definition truncate_file (fuel : nat) (ino new_size mtime : N) : F D unit :=
  finish fuel (truncate_inner fuel ino new_size mtime).
Definition set_mtime (fuel : nat) (ino mtime : N) : F D unit :=
  finish fuel (set_mtime_inner fuel ino mtime).

(** ** Diagnostics *)
Definition generation (s : Sosofs D) : N := sb_generation (sb s).
Definition into_device (s : Sosofs D) : D := dev s.
Definition bitmap_start (s : Sosofs D) : N := sb_bitmap_start (sb s).
Definition bitmap_blocks (s : Sosofs D) : N := sb_bitmap_blocks (sb s).
Definition bloque_en_uso (s : Sosofs D) (b : N) : option bool := asignado s b.
End Txn.
