(* ===== verification/SosofsCow.v ===== *)
(** * sosofs: the golden rule of copy on write

    "Nunca se sobreescribe un bloque marcado en [frozen]": whatever the
    operation, whatever the disk holds and however the run ends (error and
    panic included), every block written before the superblock of a commit is
    free in the committed generation. The property is proved for any
    predicate on devices that reads, flushes and writes to such blocks
    preserve; [SosofsCrash] instantiates it. *)
From S2P Require Import Prelude Texto BlockDev SosofsLayout SosofsAlloc SosofsTree SosofsNode SosofsFile SosofsTxn.
Local Open Scope N_scope.
#[local] Set Default Proof Using "Type*".

Section Cow.
Context {D : Type} `{BD : BlockDevice D} `{CRC : Crc32c}.
Context (fr : list byte) (sb0 : Superblock) (I : D -> Prop).

(** Writable while the generation [fr] is the committed one. *)
Definition escribible (b : N) : Prop := 2 <= b ∧ bit fr b = Some false.

Class Stable := {
  st_read b d : I d -> I (read_block b d).2;
  st_reads b n d : I d -> I (read_blocks b (n * BLOCK_SIZE) d).2;
  st_flush d : I d -> I (flush d).2;
  st_inv b d : I d -> I (invalidate_block b d);
  st_inv_all d : I d -> I (invalidate_all d);
  st_write b blk d : I d -> escribible b -> lenN blk = BLOCK_SIZE -> I (write_block b blk d).2;
}.
Context `{STB : Stable}.

Definition J (s : Sosofs D) : Prop :=
  I (dev s) ∧ sb s = sb0 ∧ frozen s = fr ∧ length (bitmap s) = length fr.
Definition safe {A} (m : F D A) : Prop := keeps J m (fun _ => True).

Lemma J_set_dev d s : J s -> I d -> J (set_dev d s).
Proof. intros (? & ? & ? & ?) ?. by split_and!. Qed.

Lemma safe_bind {A B} (m : F D A) (f : A -> F D B) : safe m -> (forall a, safe (f a)) -> safe (m ≫= f).
Proof. intros Hm Hf. eapply keeps_bind; [exact Hm|]. intros a _. apply Hf. Qed.
Lemma safe_ret {A} (a : A) : safe (mret a : F D A).
Proof. by apply keeps_ret. Qed.
Lemma safe_gets {A} (f : Sosofs D -> A) : safe (gets f).
Proof. apply keeps_gets. Qed.
Lemma safe_attempt {A} (m : F D A) : safe m -> safe (attempt m).
Proof. intros Hm. unfold safe. eapply keeps_any. apply (keeps_attempt _ _ (fun _ => True)). exact Hm. Qed.
Lemma safe_add64 a b : safe (add64 a b : F D N).
Proof. eapply keeps_any, keeps_add64. Qed.
Lemma safe_sub64 a b : safe (sub64 a b : F D N).
Proof. eapply keeps_any, keeps_sub64. Qed.
Lemma safe_throw {A} e : safe (throw e : F D A).
Proof. apply keeps_throw. Qed.
Lemma safe_panic {A} : safe (panic : F D A).
Proof. apply keeps_panic. Qed.
Lemma safe_no_fuel {A} : safe (no_fuel : F D A).
Proof. apply keeps_no_fuel. Qed.
Lemma safe_modify f : (forall s, J s -> J (f s)) -> safe (modify f : F D unit).
Proof. apply keeps_modify. Qed.
Lemma safe_of_option {A} (m : F D A) o : safe m -> safe (of_option m o).
Proof. apply keeps_of_option. Qed.
Lemma safe_mfold {A B} (f : B -> A -> F D B) b l : (forall b x, safe (f b x)) -> safe (mfold f b l).
Proof. intros Hf. apply (keeps_mfold J f l (fun _ => True)); [done|]. intros; apply Hf. Qed.
Lemma safe_mfor {A} (f : A -> F D unit) l : (forall x, safe (f x)) -> safe (mfor f l).
Proof. intros Hf. apply keeps_mfor. intros; apply Hf. Qed.
Lemma safe_mfind {A B} (f : A -> F D (option B)) l : (forall x, safe (f x)) -> safe (mfind f l).
Proof. intros Hf. apply keeps_mfind. intros; apply Hf. Qed.

Lemma safe_dev_op {A} (m : M D BlockError A) : (forall d, I d -> I (m d).2) -> safe (dev_op m).
Proof.
  intros Hm s Hs. unfold dev_op, zoom. pose proof (Hm (dev s) (proj1 Hs)) as Hi.
  destruct (m (dev s)) as [r d]. split; [by apply J_set_dev|done].
Qed.

Lemma safe_read b : safe (dev_op (read_block b)).
Proof. apply safe_dev_op, st_read. Qed.
Lemma safe_reads b n : safe (dev_op (read_blocks b (n * BLOCK_SIZE))).
Proof. apply safe_dev_op. intros; by apply st_reads. Qed.
Lemma safe_flush : safe (dev_op flush).
Proof. apply safe_dev_op, st_flush. Qed.
Lemma safe_write b blk : escribible b -> lenN blk = BLOCK_SIZE -> safe (dev_op (write_block b blk)).
Proof. intros. apply safe_dev_op. intros; by apply st_write. Qed.

(** Walk down the control flow; what is left are the operations that have
    a lemma of their own. *)
Create HintDb safe.
Hint Resolve safe_ret safe_gets safe_add64 safe_sub64 safe_throw safe_panic safe_no_fuel
  safe_read safe_reads safe_flush : safe.
Ltac safe_step :=
  first
    [ solve [auto with safe nocore]
    | apply safe_bind; [|intros ?]
    | apply safe_mfold; intros ? ?
    | apply safe_mfor; intros ?
    | apply safe_mfind; intros ?
    | apply safe_attempt
    | apply safe_of_option
    | apply safe_modify; by intros ? (? & ? & ? & ?)
    | progress cbv zeta
    | case_match ].
Ltac safe_tac := repeat safe_step.

(** *** The allocator hands out writable blocks *)
Lemma safe_set_bit b v : safe (s ← gets id; m ← of_option panic (set_bit (bitmap s) b v); modify (set_bitmap m) : F D unit).
Proof.
  intros s Hs. unfold gets, modify, mbind, M_bind. simpl.
  destruct (set_bit (bitmap s) b v) as [m|] eqn:E; simpl; [|done].
  apply set_bit_inv in E as (_ & Hlen & _). destruct Hs as (? & ? & ? & ?). split; [|done].
  split_and!; try done. simpl. congruence.
Qed.
Lemma safe_marcar b : safe (marcar b).
Proof. apply safe_set_bit. Qed.
Lemma safe_free_block b : safe (free_block b).
Proof.
  intros s Hs. unfold free_block, gets, modify, mbind, M_bind in *. simpl in *.
  destruct (set_bit (bitmap s) b false) as [m|] eqn:E; simpl; [|done].
  apply set_bit_inv in E as (_ & Hlen & _). destruct Hs as (? & ? & ? & ?). split; [|done].
  split_and!; try done. simpl. congruence.
Qed.
Hint Resolve safe_marcar safe_free_block : safe.

Lemma safe_en_uso b : safe (en_uso b).
Proof. unfold en_uso. safe_tac. Qed.
Hint Resolve safe_en_uso : safe.
Lemma safe_primer_ocupado b ks : safe (primer_ocupado b ks).
Proof. induction ks; simpl; safe_tac. Qed.
Hint Resolve safe_primer_ocupado : safe.
Lemma safe_candidato fuel n total b : safe (candidato fuel n total b).
Proof. revert b. induction fuel; intros b; simpl; safe_tac. Qed.
Hint Resolve safe_candidato : safe.
Lemma safe_alloc_run n : safe (alloc_run n).
Proof. unfold alloc_run. safe_tac. Qed.
Hint Resolve safe_alloc_run : safe.

Definition writable_run (b n : N) : Prop := forall j, b <= j < b + n -> escribible j.

Lemma keeps_alloc_run n : keeps J (alloc_run n) (fun b => writable_run b n).
Proof.
  intros s Hs. split; [by apply (safe_alloc_run n)|]. intros b Hb. destruct Hs as (_ & _ & Hfr & _).
  destruct (alloc_run n s) as [r s'] eqn:E. simpl in Hb. subst r. apply alloc_run_inv in E as ((Hb & _ & Hlib) & _).
  intros j Hj. destruct (Hlib j Hj) as [_ Hf]. rewrite Hfr in Hf. split; [lia|done].
Qed.

Lemma keeps_alloc_extent want : keeps J (alloc_extent want) (fun r => writable_run r.1 r.2).
Proof.
  unfold alloc_extent. generalize (S (N.to_nat (N.max want 1))). intros fuel. generalize (N.max want 1).
  induction fuel as [|fuel IH]; intros n; simpl; [apply keeps_no_fuel|].
  eapply keeps_bind; [apply keeps_attempt, keeps_alloc_run|]. intros [e|b] Hb.
  - destruct e; try apply keeps_throw. case_match; [apply IH|apply keeps_throw].
  - by apply keeps_ret.
Qed.
(** *** The tree *)
Lemma safe_tomar_nodo : safe tomar_nodo.
Proof. unfold tomar_nodo. safe_tac. Qed.
Lemma safe_soltar_nodo buf : safe (soltar_nodo buf).
Proof. unfold soltar_nodo. safe_tac. Qed.
Hint Resolve safe_tomar_nodo safe_soltar_nodo : safe.

Lemma safe_invalidate b : safe (modify (fun s => set_dev (invalidate_block b (dev s)) s)).
Proof. apply safe_modify. intros s Hs. apply J_set_dev; [done|]. apply st_inv, Hs. Qed.
Lemma safe_invalidate_all : safe (modify (fun s => set_dev (invalidate_all (dev s)) s)).
Proof. apply safe_modify. intros s Hs. apply J_set_dev; [done|]. apply st_inv_all, Hs. Qed.
Hint Resolve safe_invalidate safe_invalidate_all : safe.

Lemma safe_read_node b : safe (read_node b).
Proof. unfold read_node. safe_tac. Qed.
Hint Resolve safe_read_node : safe.
Lemma safe_entry_payload off node : safe (entry_payload off node).
Proof. unfold entry_payload. safe_tac. Qed.
Lemma safe_entry_child off node : safe (entry_child off node).
Proof. unfold entry_child. safe_tac. Qed.
Hint Resolve safe_entry_payload safe_entry_child : safe.
Lemma safe_scan_node fuel b min max out : safe (scan_node fuel b min max out).
Proof. revert b out. induction fuel; intros b out; simpl; safe_tac. Qed.
Lemma safe_scan_range fuel min max : safe (scan_range fuel min max).
Proof. unfold scan_range. safe_tac. apply safe_scan_node. Qed.
Lemma safe_find_node fuel b min max pred : safe (find_node fuel b min max pred).
Proof. revert b. induction fuel; intros b; simpl; safe_tac. Qed.
Lemma safe_find_first fuel min max pred : safe (find_first fuel min max pred).
Proof. unfold find_first. safe_tac. apply safe_find_node. Qed.
Lemma safe_parse_node b : safe (parse_node b).
Proof. unfold parse_node. safe_tac. Qed.
Lemma safe_node_level b : safe (node_level b).
Proof. unfold node_level. safe_tac. Qed.
Lemma safe_level_down l : safe (level_down l).
Proof. unfold level_down. safe_tac. Qed.
Hint Resolve safe_scan_range safe_find_first safe_parse_node safe_node_level safe_level_down : safe.

Lemma node_image_length gen b level d buf : node_image gen b level d = Some buf -> lenN buf = BLOCK_SIZE.
Proof.
  unfold node_image. intros Himg.
  destruct (fill_entries d (zeros BLOCK_SIZE)) as [b1|] eqn:E1; [|done]. simpl in Himg.
  destruct (put_slice 0 _ b1) as [b2|] eqn:E2; [|done]. simpl in Himg.
  apply put_slice_length in E2, Himg. unfold lenN. rewrite Himg, E2.
  assert (forall size es i b0 b3, put_entries size i es b0 = Some b3 -> length b3 = length b0) as Hput.
  { intros size es. induction es as [|[k p] es IH]; simpl; intros i b0 b3 He; [by simplify_eq|].
    destruct (put_slice _ (disk_key k) b0) as [b4|] eqn:E4; [|done]. simpl in He.
    destruct (put_slice _ p b4) as [b5|] eqn:E5; [|done]. simpl in He.
    apply put_slice_length in E4, E5. apply IH in He. congruence. }
  destruct d; simpl in E1; apply Hput in E1; rewrite E1; pose proof (lenN_zeros BLOCK_SIZE) as Hz;
    unfold lenN in Hz; exact Hz.
Qed.

Lemma safe_write_node level d : safe (write_node level d).
Proof.
  unfold write_node. eapply keeps_bind; [apply keeps_alloc_run|]. intros b Hb.
  apply safe_bind; [safe_tac|intros s1]. apply safe_bind; [safe_tac|intros gen].
  apply (keeps_bind _ _ _ (fun buf => lenN buf = BLOCK_SIZE)).
  - destruct (node_image gen b level d) as [buf|] eqn:E; [|apply keeps_panic].
    apply keeps_ret. by eapply node_image_length.
  - intros buf Hbuf. apply safe_bind; [|intros; safe_tac]. apply safe_write; [apply Hb; lia|done].
Qed.
Hint Resolve safe_write_node : safe.
Lemma safe_write_split level o d : safe (write_split level o d).
Proof. unfold write_split. safe_tac. Qed.
Hint Resolve safe_write_split : safe.
Lemma safe_insert_rec fuel b level k p : safe (insert_rec fuel b level k p).
Proof. revert b level. induction fuel; intros b level; simpl; safe_tac. Qed.
Hint Resolve safe_insert_rec : safe.
Lemma safe_tree_insert fuel k p : safe (tree_insert fuel k p).
Proof. unfold tree_insert. safe_tac. Qed.
Lemma safe_delete_rec fuel b level k : safe (delete_rec fuel b level k).
Proof. revert b level. induction fuel; intros b level; simpl; safe_tac. Qed.
Lemma safe_encoger fuel : safe (encoger fuel).
Proof. induction fuel; simpl; safe_tac. Qed.
Hint Resolve safe_delete_rec safe_encoger : safe.
Lemma safe_tree_delete fuel k : safe (tree_delete fuel k).
Proof. unfold tree_delete. safe_tac. Qed.
Hint Resolve safe_tree_insert safe_tree_delete : safe.

(** *** Files *)
Lemma safe_dirent_buscar fuel dir name : safe (dirent_buscar fuel dir name).
Proof. unfold dirent_buscar. safe_tac. Qed.
Lemma safe_stat_inode fuel ino : safe (stat_inode fuel ino).
Proof. unfold stat_inode. safe_tac. Qed.
Hint Resolve safe_dirent_buscar safe_stat_inode : safe.
Lemma safe_lookup fuel dir name : safe (lookup fuel dir name).
Proof. unfold lookup. safe_tac. Qed.
Lemma safe_leer_bloques fuel a n m i c : safe (leer_bloques fuel a n m i c).
Proof. revert i c. induction fuel; intros i c; simpl; safe_tac. Qed.
Hint Resolve safe_lookup safe_leer_bloques : safe.
Lemma safe_leer_extent a b c d e : safe (leer_extent a b c d e).
Proof. unfold leer_extent. destruct d. safe_tac. Qed.
Hint Resolve safe_leer_extent : safe.
Lemma safe_read_file_range fuel ino off len out : safe (read_file_range fuel ino off len out).
Proof. unfold read_file_range. safe_tac. Qed.
Lemma safe_check_dir fuel dir : safe (check_dir fuel dir).
Proof. unfold check_dir. safe_tac. Qed.
Lemma safe_sondear n fuel dir off p : safe (sondear n fuel dir off p).
Proof. revert off. induction n; intros off; simpl; safe_tac. Qed.
Hint Resolve safe_read_file_range safe_check_dir safe_sondear : safe.
Lemma safe_insert_dirent n fuel dir name c : safe (insert_dirent n fuel dir name c).
Proof. unfold insert_dirent. safe_tac. Qed.
Lemma safe_dirent_key fuel dir name : safe (dirent_key fuel dir name).
Proof. unfold dirent_key. safe_tac. Qed.
Lemma safe_put_inode fuel ino i : safe (put_inode fuel ino i).
Proof. unfold put_inode. safe_tac. Qed.
Lemma safe_nuevo_inode : safe nuevo_inode.
Proof. unfold nuevo_inode. safe_tac. Qed.
Hint Resolve safe_insert_dirent safe_dirent_key safe_put_inode safe_nuevo_inode : safe.
Lemma safe_liberar_extent e : safe (liberar_extent e).
Proof. unfold liberar_extent. safe_tac. Qed.
Hint Resolve safe_liberar_extent : safe.

(** A buffer of whole blocks is cut into whole blocks. *)
Lemma chunks_blocks fuel (l : list byte) (k : nat) : length l = (k * N.to_nat BLOCK_SIZE)%nat -> (k <= fuel)%nat ->
  Forall (fun b => lenN b = BLOCK_SIZE) (chunks fuel (N.to_nat BLOCK_SIZE) l) ∧
  length (chunks fuel (N.to_nat BLOCK_SIZE) l) = k.
Proof.
  revert l k. induction fuel as [|fuel IH]; intros l k Hl Hk; [split; [constructor|simpl; lia]|].
  change (N.to_nat BLOCK_SIZE) with 4096%nat in *.
  destruct l as [|x l]; cbn [chunks]; [split; [constructor|simpl in *; lia]|].
  destruct k as [|k]; [simpl in Hl; lia|].
  destruct (IH (drop 4096 (x :: l)) k) as [IH1 IH2]; [rewrite length_drop; lia|lia|].
  split; [|cbn [length]; by f_equal]. constructor; [|done].
  unfold lenN, BLOCK_SIZE. rewrite length_take. lia.
Qed.

Lemma bloques_de_spec (l : list byte) n : lenN l = n * BLOCK_SIZE ->
  Forall (fun b => lenN b = BLOCK_SIZE) (bloques_de l) ∧ lenN (bloques_de l) = n.
Proof.
  intros Hl. destruct (chunks_blocks (length l) l (N.to_nat n)) as [H1 H2];
    [unfold lenN in Hl; lia|unfold lenN, BLOCK_SIZE in Hl; lia|].
  split; [exact H1|]. unfold lenN, bloques_de. rewrite H2. lia.
Qed.

Lemma safe_escribir_bloques start n padded : writable_run start n -> lenN padded = n * BLOCK_SIZE ->
  safe (escribir_bloques start padded).
Proof.
  intros Hr Hl. destruct (bloques_de_spec _ _ Hl) as [Hb Hn]. unfold escribir_bloques.
  apply keeps_mfor. intros [i b] Hin. pose proof (elem_of_zip_l _ _ _ _ Hin) as Hi. apply elem_of_zip_r in Hin.
  rewrite elem_of_upto, Hn in Hi. rewrite Forall_forall in Hb.
  eapply keeps_bind; [apply keeps_add64|]. intros a ->. apply safe_write; [apply Hr; simpl; lia|by apply Hb].
Qed.

Lemma safe_poner_extent fuel ino off resto : safe (poner_extent fuel ino off resto).
Proof.
  unfold poner_extent. eapply keeps_bind; [apply keeps_alloc_extent|]. intros [start got] Hr. simpl in Hr.
  apply safe_bind; [|intros _; safe_tac]. apply (safe_escribir_bloques _ got); [done|].
  rewrite lenN_app, lenN_zeros, lenN_take. lia.
Qed.
Hint Resolve safe_poner_extent : safe.
Lemma safe_poner_extents n fuel ino off resto : safe (poner_extents n fuel ino off resto).
Proof. revert off resto. induction n; intros off resto; simpl; safe_tac. Qed.
Hint Resolve safe_poner_extents : safe.

Lemma safe_mkdir n fuel dir name t : safe (mkdir_inner n fuel dir name t).
Proof. unfold mkdir_inner. safe_tac. Qed.
Lemma safe_unlink fuel dir name : safe (unlink_inner fuel dir name).
Proof. unfold unlink_inner. safe_tac. Qed.
Hint Resolve safe_unlink : safe.
Lemma safe_create n fuel dir name data t : safe (create_file_inner n fuel dir name data t).
Proof. unfold create_file_inner. safe_tac. Qed.
Lemma safe_append fuel ino data t : safe (append_file_inner fuel ino data t).
Proof. unfold append_file_inner. safe_tac. Qed.
Lemma safe_rename n fuel a b c d t : safe (rename_inner n fuel a b c d t).
Proof. unfold rename_inner. safe_tac. Qed.
Lemma safe_set_mtime fuel ino t : safe (set_mtime_inner fuel ino t).
Proof. unfold set_mtime_inner. safe_tac. Qed.

(** The bytes a range read fills in keep the length of the buffer. *)
Lemma keeps_then {A B} (m : F D A) (f : A -> F D B) Φ : safe m -> (forall a, keeps J (f a) Φ) -> keeps J (m ≫= f) Φ.
Proof. intros Hm Hf. eapply keeps_bind; [exact Hm|]. intros a _. apply Hf. Qed.

Lemma keeps_leer_extent size off fin n acc e : length acc.1 = n ->
  keeps J (leer_extent size off fin acc e) (fun r => length r.1 = n).
Proof.
  destruct acc as [out w]. simpl. intros Hn. unfold leer_extent.
  repeat first [ progress cbv zeta | apply keeps_throw | (apply keeps_ret; exact Hn)
               | lazymatch goal with
                 | |- keeps _ (of_option _ (put_slice _ _ _) ≫= _) _ => fail
                 | _ => apply keeps_then; [by safe_tac|intros ?]
                 end | case_match ].
  destruct (put_slice _ _ out) as [o|] eqn:E; simpl of_option; [|apply keeps_panic].
  apply put_slice_length in E. eapply (keeps_bind _ _ _ (fun o' => length o' = n)); [apply keeps_ret; congruence|].
  intros o' Ho'. by apply keeps_ret.
Qed.

Lemma keeps_read_file_range fuel ino off len out :
  keeps J (read_file_range fuel ino off len out) (fun r => length r = length out).
Proof.
  unfold read_file_range.
  repeat first [ progress cbv zeta | apply keeps_throw | (apply keeps_ret; done)
               | lazymatch goal with
                 | |- keeps _ (mfold _ _ _ ≫= _) _ => fail
                 | _ => apply keeps_then; [by safe_tac|intros ?]
                 end | progress cbn [Key.range] | case_match ].
  eapply (keeps_bind _ _ _ (fun r : list byte * N => length r.1 = length out)).
  - apply (keeps_mfold J _ _ (fun r : list byte * N => length r.1 = length out)); [done|].
    intros acc e _ Hacc. by apply keeps_leer_extent.
  - intros [o w] Ho. case_match; [apply keeps_throw|by apply keeps_ret].
Qed.

Lemma safe_truncar_extent fuel ino n e : safe (truncar_extent fuel ino n e).
Proof.
  unfold truncar_extent. apply safe_bind; [safe_tac|intros ext_end]. case_match; [safe_tac|].
  case_match; [|safe_tac]. cbv zeta. eapply keeps_bind; [apply keeps_alloc_extent|]. intros [start got] Hr.
  set (chunk_len := N.min _ _). cbn [fst snd] in Hr.
  apply (keeps_bind _ _ _ (fun t : list byte => lenN t = chunk_len)).
  - destruct (N.ltb_spec 0 chunk_len) as [Hlt|Hge]; [|apply keeps_ret; rewrite lenN_nil; lia].
    eapply keeps_mono; [apply keeps_read_file_range|]. intros t Ht. unfold lenN. rewrite Ht.
    change (lenN (take (N.to_nat chunk_len) (zeros (got * BLOCK_SIZE))) = chunk_len).
    rewrite lenN_take, lenN_zeros. lia.
  - intros t Ht. apply safe_bind; [|intros _; safe_tac]. apply (safe_escribir_bloques _ got); [done|].
    rewrite lenN_app, lenN_drop, lenN_zeros. lia.
Qed.
Hint Resolve safe_truncar_extent : safe.
Lemma safe_truncate fuel ino n t : safe (truncate_inner fuel ino n t).
Proof. unfold truncate_inner. safe_tac. Qed.

(** *** Publishing *)
Lemma safe_esta_asignado b : safe (esta_asignado b).
Proof. unfold esta_asignado. safe_tac. Qed.
Hint Resolve safe_esta_asignado : safe.
Lemma safe_clave_minima b : safe (clave_minima_y_nivel b).
Proof. unfold clave_minima_y_nivel. safe_tac. Qed.
Hint Resolve safe_clave_minima : safe.
Lemma safe_comprobar_hijo n e : safe (comprobar_hijo n e).
Proof. unfold comprobar_hijo. safe_tac. Qed.
Hint Resolve safe_comprobar_hijo : safe.
Lemma safe_comprobar fuel : safe (comprobar_raiz_publicable fuel).
Proof. unfold comprobar_raiz_publicable. safe_tac. Qed.

Lemma safe_publicar_bitmap : safe publicar_bitmap.
Proof.
  unfold publicar_bitmap. apply safe_bind; [safe_tac|intros s]. cbv zeta. apply safe_bind; [safe_tac|intros _].
  eapply keeps_bind; [apply keeps_alloc_run|]. intros b Hb. apply safe_bind; [|intros; safe_tac].
  apply keeps_mfor. intros i Hi%elem_of_upto. apply safe_bind; [safe_tac|intros s1].
  apply (keeps_bind _ _ _ (fun buf => lenN buf = BLOCK_SIZE)).
  - destruct (slice _ _ _) as [buf|] eqn:E; [|apply keeps_panic]. apply keeps_ret. unfold slice in E.
    case_match eqn:Hle; [|done]. simplify_eq. apply N.leb_le in Hle. rewrite lenN_take, lenN_drop. lia.
  - intros buf Hbuf. eapply keeps_bind; [apply keeps_add64|]. intros a ->. apply safe_write; [apply Hb; lia|done].
Qed.

(** Rolling back writes nothing. *)
Lemma safe_rollback : safe rollback.
Proof.
  unfold rollback. intros s Hs. unfold gets, modify, mbind, M_bind. simpl. case_match; [done|].
  split; [|done]. destruct Hs as (? & ? & Hf & Hl). split_and!; try done. simpl. by rewrite Hf.
Qed.
End Cow.
