(* ===== verification/SosofsCommit.v ===== *)
(** * sosofs: what a commit publishes

    [imagen c n sb fr l F it]: the blocks [c] of a device of [n] blocks hold a
    committed generation: its superblock in the slot of its parity, its bitmap
    [fr] and a tree with the items [it]. A mounted volume at rest is
    [committed]. Mounting an image gives it back; committing a sound
    transaction publishes the image of the next generation; rolling back
    returns to the committed one. *)
From S2P Require Import Prelude Texto BlockDev SosofsLayout SosofsAlloc SosofsTree SosofsNode SosofsStep SosofsTreeSpec SosofsScan SosofsFile SosofsTxn SosofsCow.
Local Open Scope N_scope.

(** The items as a finite map. *)
Definition mapa (it : list Item) : gmap Key (list byte) := list_to_map it.

Lemma mapa_upsert k p it : mapa (upsert k p it) = <[k := p]> (mapa it).
Proof. apply lookup_upsert. Qed.

Lemma mapa_remove k it : mapa (remove k it) = delete k (mapa it).
Proof.
  unfold mapa, remove. induction it as [|[k' p] it IH]; [simpl; by rewrite delete_empty|].
  destruct (decide (k' = k)) as [->|Hne].
  - rewrite filter_cons_False by (intros Hn; by apply Hn). simpl. by rewrite IH, delete_insert_eq.
  - rewrite filter_cons_True by done. simpl. by rewrite IH, delete_insert_ne by done.
Qed.

Lemma mapa_lookup_Some it k p : ksorted it -> mapa it !! k = Some p <-> (k, p) ∈ it.
Proof.
  intros Hs. unfold mapa. symmetry. apply (elem_of_list_to_map (M := gmap Key)). induction it as [|e it IH]; [constructor|].
  apply ksorted_cons in Hs as [Hs Ha]. simpl. constructor; [|by apply IH].
  intros (e' & He & Hin)%list_elem_of_fmap. rewrite Forall_forall in Ha. specialize (Ha e' Hin).
  unfold above in Ha. rewrite He in Ha. by apply key_lt_irrefl in Ha.
Qed.

Lemma mapa_None it k : mapa it !! k = None <-> k ∉ it.*1.
Proof. unfold mapa. split; [apply not_elem_of_list_to_map_2|apply not_elem_of_list_to_map_1]. Qed.

(** A search for one key is a lookup. *)
Lemma first_match_key it k : ksorted it ->
  first_match k k (fun _ => true) it = (fun p => (k, p)) <$> mapa it !! k.
Proof.
  intros Hs. unfold first_match. destruct (mapa it !! k) as [p|] eqn:E; simpl.
  - apply mapa_lookup_Some in E; [|done]. apply list_elem_of_split in E as (lo & hi & ->).
    apply ksorted_app in Hs as (_ & [_ Hhi]%ksorted_cons & Hlo). rewrite filter_app, filter_none; simpl.
    + rewrite filter_cons_True; [done|]. split; [|done]. split; by right.
    + apply Forall_forall. intros e He [[Hmin _] _]. specialize (Hlo e (k, p) He ltac:(set_solver)). simpl in Hlo.
      apply (key_lt_irrefl k). by eapply key_le_lt_trans.
  - rewrite filter_none; [done|]. apply Forall_forall. intros e He [[Hmin Hmax] _]. apply mapa_None in E. apply E.
    apply list_elem_of_fmap. exists e. split; [|done]. destruct Hmin as [Hmin|]; [|done]. destruct Hmax as [Hmax|]; [|done].
    exfalso. apply (key_lt_irrefl k). by eapply key_lt_trans.
Qed.

(** ** Images *)
Section Image.
Context `{CRC : Crc32c}.

(** The choice of [mount]. *)
Definition elegir (best : option Superblock) (buf : Block) : option Superblock :=
  match superblock_parse buf with
  | Some sb => match best with
               | Some b => if sb_generation b <? sb_generation sb then Some sb else best
               | None => Some sb
               end
  | None => best
  end.
Definition elegido (c : N -> Block) : option Superblock := elegir (elegir None (c 0)) (c 1).

Definition bitmap_run (sb : Superblock) : list N := blocks_from (sb_bitmap_start sb) (sb_bitmap_blocks sb).

Record imagen (c : N -> Block) (n : N) (sb : Superblock) (fr : list byte) (l : nat) (F : list N) (it : list Item) : Prop := {
  im_wf : superblock_wf sb;
  im_slot : superblock_parse (c (sb_generation sb mod 2)) = Some (sealed sb);
  im_other sb' : superblock_parse (c ((sb_generation sb + 1) mod 2)) = Some sb' ->
    sb' = sealed sb ∨ sb_generation sb' < sb_generation sb;
  im_bitmap : range_content c (sb_bitmap_start sb) (N.to_nat (sb_bitmap_blocks sb)) = fr;
  im_bitmap_len : lenN fr = sb_bitmap_blocks sb * BLOCK_SIZE;
  im_covers : sb_block_count sb <= 8 * lenN fr;
  im_tree : rep c l (sb_tree_root sb) F it;
  im_sorted : ksorted it;
  im_level : (l < 256)%nat;
  im_nodup : NoDup (F ++ bitmap_run sb);
  im_used j : j ∈ F ++ bitmap_run sb -> bit fr j = Some true ∧ 2 <= j < sb_block_count sb;
  im_size : sb_block_count sb <= n;
  im_small : sb_block_count sb < 2 ^ 63;
}.

Lemma mod2_cases (g : N) : (g mod 2 = 0 ∧ (g + 1) mod 2 = 1) ∨ (g mod 2 = 1 ∧ (g + 1) mod 2 = 0).
Proof.
  rewrite N.Div0.add_mod. pose proof (N.mod_lt g 2 ltac:(done)).
  generalize dependent (g mod 2). intros r Hr.
  assert (r = 0 ∨ r = 1) as [->| ->] by lia; [by left|by right].
Qed.

Lemma imagen_elegido c n sb fr l F it : imagen c n sb fr l F it -> elegido c = Some (sealed sb).
Proof.
  intros [_ Hs Ho _ _ _ _ _ _ _ _ _ _]. unfold elegido, elegir.
  destruct (mod2_cases (sb_generation sb)) as [[H1 H2]|[H1 H2]]; rewrite H1 in Hs; rewrite H2 in Ho; rewrite Hs.
  - destruct (superblock_parse (c 1)) as [sb'|] eqn:E; [|done]. destruct (Ho sb' eq_refl) as [->|Hlt].
    + by rewrite N.ltb_irrefl.
    + rewrite (proj2 (N.ltb_ge _ _)); [done|]. simpl. lia.
  - destruct (superblock_parse (c 0)) as [sb'|] eqn:E; [|done]. destruct (Ho sb' eq_refl) as [->|Hlt].
    + by rewrite N.ltb_irrefl.
    + rewrite (proj2 (N.ltb_lt _ _)); [done|]. simpl. lia.
Qed.

Lemma range_content_ext c c' start n : (forall j, start <= j < start + N.of_nat n -> c' j = c j) ->
  range_content c' start n = range_content c start n.
Proof.
  revert start. induction n as [|n IH]; intros start Hc; [done|]. simpl. rewrite (Hc start), IH; [done| |lia].
  intros j Hj. apply Hc. lia.
Qed.

Lemma imagen_room c n sb fr l F it : imagen c n sb fr l F it -> 2 < n.
Proof.
  intros [_ _ _ _ _ _ Ht _ _ _ Hu Hn _]. destruct (Hu (sb_tree_root sb)); [|lia].
  apply elem_of_app. left. by eapply rep_root.
Qed.

(** Blocks the generation does not use may hold anything. *)
Lemma imagen_frame c c' n sb fr l F it : (forall j, j < n -> j < 2 ∨ bit fr j = Some true -> c' j = c j) ->
  imagen c n sb fr l F it -> imagen c' n sb fr l F it.
Proof.
  intros Hc Him. pose proof (imagen_room _ _ _ _ _ _ _ Him) as Hn.
  destruct Him as [? Hs Ho Hb ? ? Ht ? ? ? Hu ? ?].
  assert (forall g, c' (g mod 2) = c (g mod 2)) as Hslot.
  { intros g. pose proof (N.mod_lt g 2 ltac:(done)). apply Hc; [lia|by left]. }
  assert (forall j, j ∈ F ++ bitmap_run sb -> c' j = c j) as Hc'.
  { intros j Hj. destruct (Hu j Hj). apply Hc; [lia|by right]. }
  split; try done.
  - by rewrite Hslot.
  - intros sb'. rewrite Hslot. apply Ho.
  - rewrite <- Hb. apply range_content_ext. intros j Hj. apply Hc', elem_of_app. right.
    apply elem_of_blocks_from. lia.
  - eapply rep_frame; [|exact Ht]. intros j Hj. apply Hc', elem_of_app. by left.
Qed.
End Image.

Section Commit.
Context {D : Type} `{BD : BlockDevice D} `{BS : !BlockDeviceSpec D} `{CRC : Crc32c}.
Implicit Types s : Sosofs D.

(** A mounted volume between transactions. *)
Record committed s (l : nat) (F : list N) (it : list Item) : Prop := {
  cm_dev : dev_ok (dev s);
  cm_imagen : imagen (blk s) (block_count (dev s)) (sb s) (frozen s) l F it;
  cm_bitmap : bitmap s = frozen s;
  cm_root : tree_root s = sb_tree_root (sb s);
  cm_next : next_inode s = sb_next_inode (sb s);
  cm_dirty : dirty s = false;
  cm_hint : alloc_hint s <= N.max 2 (sb_block_count (sb s));
}.

Lemma committed_tree s l F it : committed s l F it -> sb_generation (sb s) + 1 < U64 ->
  vol_ok s ∧ tree s l F it ∧ owned s (F ++ bitmap_run (sb s)).
Proof.
  intros [Hd [] Hb Hr Hn _ Hh] Hg. assert (owned s (F ++ bitmap_run (sb s))) as Ho.
  { split; [done|]. apply Forall_forall. intros j Hj. unfold alloc. rewrite Hb.
    destruct (im_used0 j Hj). done. }
  split_and!; [|split|done]; try done.
  - split; try done. unfold maps_ok. by rewrite Hb.
  - by rewrite Hr.
  - by apply owned_app in Ho as [? _].
Qed.

(** *** Reading *)
Lemma wp_stat_inode fuel l F it ino (Φ : InodeItem -> Sosofs D -> Prop) s :
  (l < fuel)%nat -> vol_ok s -> tree s l F it ->
  (forall p s', quiet s s' -> mapa it !! Key.inode ino = Some p -> Φ (inode_item_read p) s') ->
  wp (fun e => io_err (D := D) e ∨ (e = NotFound ∧ mapa it !! Key.inode ino = None)) (stat_inode fuel ino) Φ s.
Proof.
  intros Hf Hv Ht HΦ. unfold stat_inode. apply wp_bind.
  eapply wp_mono; [eapply (wp_find_first fuel l F it _ _ _ (fun o s' => quiet s s' ∧ o = _)); [done..|]; intros; by split| |].
  { intros e He. by left. }
  intros o s' [Hq ->]. rewrite first_match_key by apply Ht. destruct (mapa it !! Key.inode ino) as [p|]; simpl.
  - wp_steps. by apply HΦ.
  - right. done.
Qed.

(** *** The check before publishing accepts a sound tree *)
Lemma rep_first c l b F it k : rep c l b F it -> first_key it = Some k ->
  exists d, node_at (c b) b (N.of_nat l) d ∧ node_len d ≠ 0 ∧ entry_key NODE_HEADER_SIZE (c b) = k.
Proof.
  destruct l as [|l].
  - intros [Hat _] (p & r & ->)%first_key_inv. eexists; split; [exact Hat|].
    cbn [node_len]. rewrite lenN_cons. split; [lia|].
    destruct (leaf_at _ _ _ [] (k, p) r Hat eq_refl) as [He _]. by injection He.
  - intros (cs & Hat & Hne & -> & -> & Hcs)%rep_S_inv Hk. eexists; split; [exact Hat|].
    destruct cs as [|x cs]; [done|]. cbn [node_len]. rewrite fmap_cons, lenN_cons. split; [lia|].
    apply Forall_cons in Hcs as [[Hx _] _]. rewrite items_cons in Hk.
    rewrite (first_key_app_l _ _ _ Hx) in Hk. simplify_eq.
    destruct (inner_at _ _ _ _ [] x cs Hat eq_refl) as [He _]. by injection He.
Qed.

Lemma wp_esta_asignado Q b (Φ : bool -> Sosofs D -> Prop) s :
  alloc s b -> in_vol s b -> Φ true s -> wp Q (esta_asignado b) Φ s.
Proof.
  intros Ha [H2 Hb] HΦ. unfold esta_asignado. wp_steps. unfold asignado. simpl id.
  rewrite (proj2 (N.leb_le _ _)), (proj2 (N.ltb_lt _ _)) by done. rewrite Ha. by wp_steps.
Qed.

Lemma wp_comprobar_hijo l x (Φ : unit -> Sosofs D -> Prop) s :
  vol_ok s -> owned s (cF x) -> child_ok (blk s) l x -> (S l < 256)%nat ->
  (forall s', quiet s s' -> Φ tt s') -> wp io_err (comprobar_hijo (N.of_nat (S l)) (sep x)) Φ s.
Proof.
  intros Hv Ho [Hk Hr] Hl HΦ. destruct (owned_elem _ _ _ Ho (rep_root _ _ _ _ _ Hr)) as [Ha Hb].
  unfold comprobar_hijo, sep. cbn [fst snd]. wp_steps. apply wp_esta_asignado; [done..|]. cbn [negb]. wp_steps.
  pose proof (quiet_set_dev s _ (invalidate_block_spec (dev s) (cb x) (vol_dev s Hv))) as Hq1.
  set (s1 := set_dev _ s) in *. clearbody s1. pose proof (quiet_vol _ _ Hq1 Hv) as Hv1.
  destruct (rep_first _ _ _ _ _ _ Hr Hk) as (d & Hat & Hne & Hkey).
  rewrite <- (quiet_blk s s1 (cb x) Hq1) in Hat, Hkey. unfold clave_minima_y_nivel. wp_steps.
  eapply wp_read_node; [apply Hv1|apply vol_block; [done|]|exact Hat|].
  { unfold in_vol in *. by rewrite (sbd_sb _ _ (proj1 Hq1)). }
  intros s2 Hq2. cbv zeta. destruct (node_at_header _ _ _ _ Hat) as (-> & -> & _).
  rewrite (proj2 (N.eqb_neq _ _)) by done. wp_steps. unfold entry_key in Hkey. rewrite Hkey.
  rewrite bool_decide_eq_true_2 by done. cbn [negb]. rewrite (proj2 (N.ltb_ge _ _)) by lia.
  replace (N.of_nat l + 1 =? N.of_nat (S l)) with true by (symmetry; apply N.eqb_eq; lia). cbn [negb]. wp_steps.
  apply HΦ. by eapply quiet_trans.
Qed.

Definition root_is_dir (it : list Item) : Prop :=
  exists p, mapa it !! Key.inode ROOT_INODE = Some p ∧ i_file_type (inode_item_read p) = FT_DIR.

Lemma wp_comprobar fuel l F it (Φ : unit -> Sosofs D -> Prop) s :
  (l < fuel)%nat -> vol_ok s -> tree s l F it -> root_is_dir it ->
  (forall s', quiet s s' -> Φ tt s') -> wp io_err (comprobar_raiz_publicable fuel) Φ s.
Proof.
  intros Hf Hv Ht (p & Hp & Hdir) HΦ. unfold comprobar_raiz_publicable. wp_steps.
  pose proof (quiet_set_dev s _ (invalidate_all_spec (dev s) (vol_dev s Hv))) as Hq1.
  set (s1 := set_dev _ s) in *. clearbody s1. pose proof (quiet_vol _ _ Hq1 Hv) as Hv1.
  pose proof (tree_quiet _ _ _ _ _ Hq1 Ht) as Ht1. destruct (tree_root_vol _ _ _ _ Hv1 Ht1) as [Hrv Hrb].
  pose proof Ht1 as [Hr Ho Hs Hl]. apply wp_esta_asignado; [by eapply owned_elem, rep_root|done|].
  cbn [negb]. wp_steps. destruct (rep_node _ _ _ _ _ Hr) as [d Hat].
  eapply wp_node_level; [apply Hv1|done|exact Hat|]. intros s2 Hq2. wp_steps.
  assert (forall s3, quiet s2 s3 -> wp io_err (st ← stat_inode fuel ROOT_INODE;
    (if negb (i_file_type st =? FT_DIR) then throw Corrupt else mret tt)) Φ s3) as Hend.
  { intros s3 Hq3. pose proof (quiet_trans _ _ _ Hq1 (quiet_trans _ _ _ Hq2 Hq3)) as Hq. wp_steps.
    eapply wp_mono; [eapply (wp_stat_inode fuel l F it _ (fun st s' => quiet s s' ∧ i_file_type st = FT_DIR));
      [done|by eapply quiet_vol|by eapply tree_quiet|]| |].
    - intros p' s' Hq' Hp'. split; [by eapply quiet_trans|]. congruence.
    - intros e [He|[_ Hn]]; [done|congruence].
    - intros st s4 [Hq4 ->]. cbn. wp_steps. by apply HΦ. }
  destruct l as [|l].
  - cbn. wp_steps. apply Hend, quiet_refl. by apply (quiet_vol s1).
  - rewrite (proj2 (N.ltb_lt _ _)) by lia. wp_steps.
    apply rep_S_inv in Hr as (cs & Hat' & Hne & -> & -> & Hcs).
    rewrite <- (quiet_blk s1 s2 _ Hq2) in Hat'. pose proof (quiet_vol _ _ Hq2 Hv1) as Hv2.
    eapply wp_parse_node; [apply Hv2|by destruct Hq2 as (_ & (_ & -> & _) & _)|exact Hat'|].
    intros s3 Hq3. cbv beta iota.
    apply (wp_mfor _ _ _ (fun _ s' => quiet s2 s')); [done| |intros s4 Hq4; by apply Hend].
    intros pre e post s4 Heq Hq4. apply fmap_app_inv in Heq as (cs1 & cs2 & -> & Heq & ->).
    destruct cs2 as [|x cs2]; [done|]. injection Heq as -> ->.
    pose proof (quiet_trans _ _ _ Hq2 Hq4) as Hq14.
    apply wp_comprobar_hijo; [by eapply quiet_vol| | |done|intros s5 Hq5; by eapply quiet_trans].
    + eapply quiet_owned; [exact Hq14|]. apply (owned_app _ [_]) in Ho as (_ & Ho & _).
      rewrite blocks_app, blocks_cons in Ho. by apply owned_app in Ho as (_ & [? _]%owned_app & _).
    + apply Forall_app in Hcs as [_ [[Hk Hr] _]%Forall_cons]. split; [done|].
      eapply rep_frame; [|exact Hr]. intros j _. by apply (quiet_blk s1 s4).
Qed.

(** *** Releasing and writing runs of blocks *)
Lemma wp_free_run start n (Φ : unit -> Sosofs D -> Prop) s :
  vol_ok s -> (forall j, j ∈ blocks_from start n -> in_vol s j) ->
  (forall s', step s (blocks_from start n) [] s' -> dev s' = dev s -> tree_root s' = tree_root s -> Φ tt s') ->
  wp (fun _ => False) (mfor (fun i => b ← add64 start i; free_block b) (upto n)) Φ s.
Proof.
  intros Hv Hin HΦ.
  apply (wp_mfor _ _ _ (fun pre s' => step s ((N.add start) <$> pre) [] s' ∧ dev s' = dev s ∧ tree_root s' = tree_root s)).
  - split; [|done]. apply quiet_step; [by apply quiet_refl, vol_dev|done].
  - intros pre i post s1 Heq (Hst & Hd & Hr).
    assert (in_vol s (start + i)) as Hi.
    { apply Hin, elem_of_blocks_from. assert (i ∈ upto n) as Hu by (rewrite Heq; set_solver).
      apply elem_of_upto in Hu. lia. }
    wp_steps. apply wp_add64; [pose proof (vol_small s Hv); destruct Hi; unfold U64; lia|].
    apply wp_free_block; [apply Hst|by apply (step_vol _ _ _ _ _ Hst)|]. intros s2 Hst2 _ Hd2 Hr2.
    rewrite fmap_app. split; [|split; congruence].
    apply (step_trans _ _ _ _ _ _ _ Hst Hst2). set_solver.
  - intros s' (Hst & Hd & Hr). by apply HΦ.
Qed.

Lemma range_content_of (c : N -> Block) start (n : nat) (m : list byte) :
  lenN m = N.of_nat n * BLOCK_SIZE ->
  (forall i, i < N.of_nat n -> slice (i * BLOCK_SIZE) BLOCK_SIZE m = Some (c (start + i))) -> range_content c start n = m.
Proof.
  revert start m. induction n as [|n IH]; intros start m Hm Hc.
  - destruct m; [done|]. rewrite lenN_cons in Hm. lia.
  - simpl. pose proof (Hc 0 ltac:(lia)) as H0. unfold slice in H0. case_match; [|done]. injection H0 as H0.
    rewrite N.add_0_r in H0. rewrite N.mul_0_l, drop_0 in H0.
    rewrite (IH (start + 1) (drop (N.to_nat BLOCK_SIZE) m)).
    + rewrite <- H0. apply take_drop.
    + rewrite lenN_drop. lia.
    + intros i Hi. specialize (Hc (i + 1) ltac:(lia)). replace (start + 1 + i) with (start + (i + 1)) by lia.
      rewrite <- Hc. unfold slice. rewrite lenN_drop. unfold BLOCK_SIZE in *.
      rewrite !(proj2 (N.leb_le _ _)) by lia. rewrite drop_drop. do 3 f_equal. lia.
Qed.

Lemma slice_exists (m : list byte) n i : lenN m = n * BLOCK_SIZE -> i < n ->
  exists b, slice (i * BLOCK_SIZE) BLOCK_SIZE m = Some b ∧ lenN b = BLOCK_SIZE.
Proof.
  intros Hm Hi. unfold slice, BLOCK_SIZE in *. rewrite (proj2 (N.leb_le _ _)) by lia. eexists; split; [done|].
  rewrite lenN_take, lenN_drop. lia.
Qed.

(** Writing the map [m] into the run [B] the step took. *)
Lemma wp_write_map s0 A b n m (Φ : unit -> Sosofs D -> Prop) s :
  step s0 A (blocks_from b n) s -> bitmap s = m -> lenN m = n * BLOCK_SIZE ->
  (forall s', step s0 A (blocks_from b n) s' -> s' = set_dev (dev s') s ->
     range_content (blk s') b (N.to_nat n) = m -> (forall j, j ∉ blocks_from b n -> blk s' j = blk s j) -> Φ tt s') ->
  wp io_err (mfor (fun i => s ← gets id; buf ← of_option panic (slice (i * BLOCK_SIZE) BLOCK_SIZE (bitmap s));
                            a ← add64 b i; dev_op (write_block a buf)) (upto n)) Φ s.
Proof.
  intros Hst Hb Hm HΦ. pose proof (step_ok _ _ _ _ Hst) as Hv.
  apply (wp_mfor _ _ _ (fun pre s' => step s0 A (blocks_from b n) s' ∧ s' = set_dev (dev s') s ∧
    (forall j, j ∉ blocks_from b n -> blk s' j = blk s j) ∧
    forall i, i ∈ pre -> slice (i * BLOCK_SIZE) BLOCK_SIZE m = Some (blk s' (b + i)))).
  - split_and!; [done|by destruct s|done|set_solver].
  - intros pre i post s1 Heq (Hst1 & Hs1 & Hother & Hdone). wp_steps.
    assert (i ∈ upto n ∧ i ∉ pre) as [Hi Hnew].
    { split; [rewrite Heq; set_solver|]. pose proof (NoDup_fmap_2 N.of_nat (seq 0 (N.to_nat n))) as Hnd.
      assert (NoDup (upto n)) as Hu by (apply Hnd, NoDup_seq). rewrite Heq in Hu.
      apply NoDup_app in Hu as (_ & Hu & _). intros Hin. apply (Hu i Hin). set_solver. }
    apply elem_of_upto in Hi. destruct (slice_exists m n i Hm Hi) as (buf & Hbuf & Hlen).
    simpl id. assert (bitmap s1 = m) as -> by (by rewrite Hs1). rewrite Hbuf. wp_steps.
    assert (b + i ∈ blocks_from b n) as HB by (apply elem_of_blocks_from; lia).
    destruct (step_new _ _ _ _ Hst _ HB) as [Hbi _]. destruct Hbi.
    pose proof (vol_small s Hv) as Hsm. rewrite (sbd_sb _ _ (step_same _ _ _ _ Hst)) in Hsm.
    apply wp_add64; [unfold U64; lia|].
    eapply wp_dev_write; [exact Hst1|done|done|]. intros s2 Hst2 Hw Ho2 Hs2. split_and!; [done| | |].
    + rewrite Hs2 at 1. rewrite Hs1. done.
    + intros j Hj. rewrite Ho2; [by apply Hother|]. set_solver.
    + intros k [Hk| ->%list_elem_of_singleton]%elem_of_app; [|by rewrite Hw].
      rewrite Ho2; [by apply Hdone|]. intros Hki. apply Hnew. by replace i with k by lia.
  - intros s' (Hst' & Hs' & Hother & Hdone). apply HΦ; [done|done| |done].
    apply range_content_of; [rewrite N2Nat.id; done|]. intros i Hi. apply Hdone, elem_of_upto. lia.
Qed.

Lemma wp_dev_flush (Φ : unit -> Sosofs D -> Prop) s :
  dev_ok (dev s) -> (forall s', quiet s s' -> s' = set_dev (dev s') s -> Φ tt s') -> wp io_err (dev_op flush) Φ s.
Proof.
  intros Hd HΦ. unfold wp, dev_op, zoom. pose proof (flush_spec (dev s) Hd) as Hsame.
  pose proof (flush_outcome (dev s) Hd) as Hans. destruct (flush (dev s)) as [[[]|e| |] d'] eqn:E; simpl in *; try done.
  apply HΦ; [split; [by apply quiet_set_dev|done]|done].
Qed.

(** *** The new bitmap *)
Definition map_blocks s : N := lenN (bitmap s) / BLOCK_SIZE.

Lemma wp_publicar_bitmap (Φ : N * N -> Sosofs D -> Prop) s :
  vol_ok s -> (forall j, j ∈ bitmap_run (sb s) -> in_vol s j) -> lenN (bitmap s) = map_blocks s * BLOCK_SIZE ->
  map_blocks s < 2 ^ 62 ->
  (forall b s', step s (bitmap_run (sb s)) (blocks_from b (map_blocks s)) s' -> tree_root s' = tree_root s ->
     range_content (blk s') b (N.to_nat (map_blocks s)) = bitmap s' -> Φ (b, map_blocks s) s') ->
  wp space_err publicar_bitmap Φ s.
Proof.
  intros Hv Hin Hlen Hn HΦ. unfold publicar_bitmap. wp_steps. cbv zeta. simpl id. fold (map_blocks s).
  eapply wp_mono; [apply (wp_free_run _ _ (fun _ s' => step s (bitmap_run (sb s)) [] s' ∧ tree_root s' = tree_root s) s Hv Hin)|done|].
  { intros s1 Hst _ Hr. done. }
  intros [] s1 [Hst1 Hr1]. wp_steps.
  eapply wp_mono; [apply (wp_alloc_run (map_blocks s) (fun b s2 => step s1 [] (blocks_from b (map_blocks s)) s2 ∧
    tree_root s2 = tree_root s1)); [apply Hst1|done|]|by left|].
  { intros b s2 Hst2 _ _ Hr2 _. done. }
  intros b s2 [Hst2 Hr2]. wp_steps.
  pose proof (step_trans _ _ _ _ _ _ _ Hst1 Hst2 ltac:(set_solver)) as Hst. rewrite app_nil_r in Hst.
  assert (lenN (bitmap s2) = map_blocks s * BLOCK_SIZE) as Hlen2.
  { rewrite <- Hlen. destruct (vol_maps _ (step_ok _ _ _ _ Hst)) as [_ E2]. destruct (vol_maps s Hv) as [_ E1].
    unfold lenN. rewrite E1, E2. by rewrite (sbd_frozen _ _ (step_same _ _ _ _ Hst)). }
  eapply wp_mono; [eapply (wp_write_map s (bitmap_run (sb s)) b (map_blocks s) (bitmap s2)
    (fun _ s3 => step s (bitmap_run (sb s)) (blocks_from b (map_blocks s)) s3 ∧ tree_root s3 = tree_root s ∧
       range_content (blk s3) b (N.to_nat (map_blocks s)) = bitmap s3)); [done..|]|apply io_space|].
  { intros s3 Hst3 Hs3 Hrc _. split_and!; [done| |rewrite Hrc]; rewrite Hs3; [simpl; congruence|done]. }
  intros [] s3 (Hst3 & Hr3 & Hrc). wp_steps.
  eapply wp_mono; [apply (wp_dev_flush (fun _ s4 => quiet s3 s4)); [apply Hst3|done]|apply io_space|].
  intros [] s4 Hq. wp_steps. apply HΦ; [by eapply step_quiet| |].
  - destruct Hq as (_ & _ & _ & _ & _ & ->). done.
  - rewrite (range_content_ext (blk s3)) by (intros j _; by apply quiet_blk).
    destruct Hq as (_ & _ & -> & _). done.
Qed.

(** *** The superblock *)
Lemma wp_write_slot b buf (Φ : unit -> Sosofs D -> Prop) s :
  dev_ok (dev s) -> b < block_count (dev s) -> lenN buf = BLOCK_SIZE ->
  (forall d', dev_ok d' -> block_count d' = block_count (dev s) -> content d' b = buf ->
     (forall j, j ≠ b -> content d' j = content (dev s) j) -> Φ tt (set_dev d' s)) ->
  wp io_err (dev_op (write_block b buf)) Φ s.
Proof.
  intros Hd Hb Hlen HΦ. unfold wp, dev_op, zoom.
  pose proof (write_spec (dev s) b buf Hd Hlen) as (Hd' & Hc & Ho & Hres).
  pose proof (write_outcome (dev s) b buf Hd Hb Hlen) as Hans.
  destruct (write_block b buf (dev s)) as [[[]|e| |] d']; simpl in *; try done.
  apply HΦ; [done|done|by apply Hres|done].
Qed.

(** What a transaction must leave for its commit to be sound. *)
Record publishable s (l : nat) (F : list N) (it : list Item) : Prop := {
  pb_vol : vol_ok s;
  pb_tree : tree s l F it;
  pb_root : root_is_dir it;
  pb_owned : owned s (F ++ bitmap_run (sb s));
  pb_wf : superblock_wf (sb s);
  pb_slot sb' : superblock_parse (blk s (sb_generation (sb s) mod 2)) = Some sb' ->
    sb_generation sb' <= sb_generation (sb s);
  pb_next : next_inode s < U64;
  pb_map : lenN (bitmap s) = map_blocks s * BLOCK_SIZE;
  pb_map_small : map_blocks s < 2 ^ 32;
  pb_dirty : dirty s = true;
}.

Definition next_sb s start : Superblock :=
  mkSuperblock MAGIC 0 (sb_generation (sb s) + 1) (sb_block_count (sb s)) (tree_root s) start (map_blocks s) (next_inode s).

(** The state a commit leaves: the next generation, at rest, with every
    block in use as it was but those of the old bitmap. *)
Definition published s l F it s' : Prop :=
  committed s' l F it ∧ block_count (dev s') = block_count (dev s) ∧ (exists start, sb s' = next_sb s start) ∧
  forall j, alloc s j -> in_vol s j -> j ∉ bitmap_run (sb s) ->
    (j ∉ bitmap_run (sb s')) ∧ alloc s' j ∧ blk s' j = blk s j.

Lemma superblock_block_length sb0 : length (sb_magic sb0) = 8%nat ->
  lenN (superblock_write_to_block sb0 (zeros BLOCK_SIZE)) = BLOCK_SIZE.
Proof.
  intros Hm. rewrite superblock_write_eq by done. rewrite lenN_app. unfold lenN at 1.
  rewrite superblock_bytes_length by done. change 56%nat with (N.to_nat 56). by rewrite lenN_drop, lenN_zeros.
Qed.

Lemma next_sb_wf s l F it s1 start : publishable s l F it ->
  step s (bitmap_run (sb s)) (blocks_from start (map_blocks s)) s1 -> superblock_wf (next_sb s start).
Proof.
  intros [Hv Ht _ _ _ _ Hnx Hmap Hsm _] Hst. destruct (tree_root_vol _ _ _ _ Hv Ht) as [[? ?] _].
  pose proof (vol_maps _ Hv) as [Hm _]. pose proof (vol_small _ Hv).
  assert (start ∈ blocks_from start (map_blocks s)) as Hin.
  { apply elem_of_blocks_from. unfold BLOCK_SIZE in Hmap. lia. }
  destruct (step_new _ _ _ _ Hst _ Hin) as [[? ?] _].
  unfold superblock_wf, next_sb. simpl. pose proof (vol_gen _ Hv). unfold U64 in *. split_and!; try done; lia.
Qed.

Lemma published_committed s l F it s1 start d : publishable s l F it ->
  step s (bitmap_run (sb s)) (blocks_from start (map_blocks s)) s1 -> tree_root s1 = tree_root s ->
  range_content (blk s1) start (N.to_nat (map_blocks s)) = bitmap s1 ->
  dev_ok d -> block_count d = block_count (dev s1) ->
  superblock_parse (content d ((sb_generation (sb s) + 1) mod 2)) = Some (sealed (next_sb s start)) ->
  (forall j, j ≠ (sb_generation (sb s) + 1) mod 2 -> content d j = blk s1 j) ->
  block_count (dev s1) = block_count (dev s) ->
  published s l F it (set_dirty false (set_frozen (bitmap s1) (set_sb (next_sb s start) (set_dev d s1)))).
Proof.
  intros Hpb Hst Hr Hrc Hd Hcnt Hslot Hother Hcnt1. pose proof Hpb as [Hv Ht Hdir Ho Hwf Hold Hnx Hmap Hsm _].
  pose proof (step_ok _ _ _ _ Hst) as Hv1. apply owned_app in Ho as (HoF & HoB & Hdisj).
  destruct (step_owned _ _ _ _ _ Hst HoF Hdisj) as [Ho1 Hkeep].
  pose proof (step_same _ _ _ _ Hst) as [Hsb Hnext Hfr _].
  pose proof (mod2_cases (sb_generation (sb s))) as Hpar.
  assert (forall j, 2 <= j -> content d j = blk s1 j) as Hbig.
  { intros j Hj. apply Hother. pose proof (N.mod_lt (sb_generation (sb s) + 1) 2 ltac:(done)). lia. }
  destruct (tree_root_vol _ _ _ _ Hv Ht) as [Hrv _].
  assert (lenN (bitmap s1) = map_blocks s * BLOCK_SIZE) as Hlen1.
  { rewrite <- Hmap. destruct (vol_maps _ Hv1) as [_ E1]. destruct (vol_maps _ Hv) as [_ E2].
    unfold lenN. by rewrite E1, E2, Hfr. }
  assert (forall j, j ∈ F ++ blocks_from start (map_blocks s) -> alloc s1 j ∧ 2 <= j < sb_block_count (sb s)) as Hused.
  { intros j Hj. destruct (owned_elem _ _ _ Ho1 Hj) as [Ha Hj']. split; [done|]. unfold in_vol in Hj'. by rewrite Hsb in Hj'. }
  split; [|split_and!; [etransitivity; [exact Hcnt|done]|by exists start|]].
  - split; try done; cycle 1.
    { simpl. pose proof (vol_hint _ Hv1) as Hh. by rewrite Hsb in Hh. }
    unfold blk. simpl. split; try done; simpl.
    + by eapply next_sb_wf.
    + intros sb' Hsb'. right. replace ((sb_generation (sb s) + 1 + 1) mod 2) with (sb_generation (sb s) mod 2) in Hsb'.
      * rewrite Hother in Hsb' by lia. rewrite (step_slots _ _ _ _ Hst) in Hsb' by (apply N.mod_lt; done).
        apply Hold in Hsb'. lia.
      * destruct (mod2_cases (sb_generation (sb s) + 1)); lia.
    + rewrite <- Hrc. apply range_content_ext. intros j Hj. apply Hbig.
      assert (j ∈ F ++ blocks_from start (map_blocks s)) as Hin.
      { apply elem_of_app. right. apply elem_of_blocks_from. lia. }
      by apply Hused in Hin as [_ [? _]].
    + pose proof (vol_maps _ Hv1) as [Hm _]. by rewrite Hsb in Hm.
    + eapply rep_frame; [|apply Ht]. intros j Hj. rewrite Hbig; [by apply Hkeep|].
      apply (Hused j). apply elem_of_app. by left.
    + apply Ht.
    + apply Ht.
    + apply Ho1.
    + rewrite Hcnt, Hcnt1. apply Hv.
    + apply Hv.
  - intros j Ha [Hj2 _] Hj. destruct (step_kept _ _ _ _ j Hst Ha Hj) as (HjB & Hb & Ha1). split; [exact HjB|]. split; [exact Ha1|].
    rewrite <- Hb. by apply Hbig.
Qed.

(** Whatever happens, the two maps keep the same length. *)
Lemma comprobar_maps fuel s r s' : comprobar_raiz_publicable fuel s = (r, s') ->
  length (bitmap s) = length (frozen s) -> length (bitmap s') = length (frozen s').
Proof.
  intros Hrun Hlen. assert (Stable (frozen s) (fun _ : D => True)) as Hst by by split.
  pose proof (safe_comprobar (frozen s) (sb s) (fun _ => True) fuel s) as Hk.
  destruct Hk as [(_ & _ & Hf & Hl) _]; [by split_and!|]. rewrite Hrun in Hf, Hl. simpl in *. congruence.
Qed.

Lemma wp_commit fuel l F it (Φ : unit -> Sosofs D -> Prop) s :
  (l < fuel)%nat -> publishable s l F it ->
  (forall s', published s l F it s' -> Φ tt s') -> wp space_err (commit fuel) Φ s.
Proof.
  intros Hf Hpb HΦ. pose proof Hpb as [Hv Ht Hdir Ho Hwf Hold Hnx Hmap Hsm Hdirty].
  unfold commit. wp_steps. simpl id. rewrite Hdirty. cbn [negb]. wp_steps.
  eapply (wp_attempt io_err); [eapply (wp_comprobar fuel l F it); [done..|]|].
  - intros s0 Hq. wp_steps. pose proof (quiet_vol _ _ Hq Hv) as Hv0. pose proof (sbd_sb _ _ (proj1 Hq)) as Hsb0.
    assert (bitmap s0 = bitmap s) as Hb0 by apply Hq.
    apply wp_publicar_bitmap; [done| |by unfold map_blocks in *; rewrite Hb0|unfold map_blocks in *; rewrite Hb0; lia|].
    { intros j Hj. rewrite Hsb0 in Hj. unfold in_vol. rewrite Hsb0. apply owned_app in Ho as (_ & Ho & _).
      by apply (owned_elem _ _ _ Ho Hj). }
    intros start s1 Hst Hr Hrc. wp_steps. cbv zeta. simpl id.
    rewrite Hsb0 in Hst. unfold map_blocks in *. rewrite Hb0 in *. fold (map_blocks s) in *.
    pose proof (quiet_then_step _ _ _ _ _ Hq Hv Hst) as Hst0. pose proof (step_same _ _ _ _ Hst0) as [Hsb1 Hnx1 Hfr1 Hcn1].
    assert (tree_root s1 = tree_root s) as Hr1 by (rewrite Hr; apply Hq).
    rewrite Hsb1. apply wp_add64; [apply Hv|]. wp_steps. cbv zeta.
    rewrite Hr1, Hnx1, (N.mod_small (map_blocks s)) by done. fold (next_sb s start).
    pose proof (step_ok _ _ _ _ Hst0) as Hv1. destruct (tree_root_vol _ _ _ _ Hv Ht) as [[? ?] _].
    eapply wp_mono; [eapply (wp_write_slot _ _ (fun _ s2 => exists d, s2 = set_dev d s1 ∧ dev_ok d ∧
      block_count d = block_count (dev s1) ∧ content d ((sb_generation (sb s) + 1) mod 2) =
        superblock_write_to_block (next_sb s start) (zeros BLOCK_SIZE) ∧
      forall j, j ≠ (sb_generation (sb s) + 1) mod 2 -> content d j = blk s1 j)); [apply Hv1| | |]|apply io_space|].
    { pose proof (vol_size _ Hv1) as Hsz. rewrite Hsb1 in Hsz. pose proof (N.mod_lt (sb_generation (sb s) + 1) 2). lia. }
    { by apply superblock_block_length. }
    { intros d H1 H2 H3 H4. by exists d. }
    intros [] s2 (d & -> & Hd & Hcnt & Hslot & Hother). wp_steps.
    eapply wp_mono; [apply (wp_dev_flush (fun _ s3 => exists d', s3 = set_dev d' s1 ∧ same_dev d d'))|apply io_space|].
    { done. }
    { intros s3 (_ & Hsd & _) ->. by exists (dev s3). }
    intros [] s3 (d' & -> & Hd' & Hcnt' & Hc'). wp_steps. simpl id. simpl bitmap. simpl frozen.
    destruct (vol_maps _ Hv1) as [_ Hlen]. unfold lenN at 1 2. rewrite Hlen, N.eqb_refl. cbn [negb]. wp_steps.
    apply HΦ. eapply (published_committed s l F it s1 start d'); try done.
    + congruence.
    + rewrite Hc', Hslot. apply superblock_roundtrip. by eapply next_sb_wf.
    + intros j Hj. rewrite Hc'. by apply Hother.
  - intros e s0 Hrun He. assert (lenN (frozen s0) = lenN (bitmap s0)) as Hlen.
    { destruct (vol_maps _ Hv) as [_ Hlen]. unfold lenN. f_equal. symmetry.
      by eapply comprobar_maps. }
    wp_steps. unfold rollback. wp_steps. simpl id. rewrite Hlen, N.eqb_refl. cbn [negb]. wp_steps. by right.
Qed.
End Commit.

(** ** Mounting *)
Section Mount.
Context {D : Type} `{BD : BlockDevice D} `{BS : !BlockDeviceSpec D} `{RD : !ReliableDevice D} `{CRC : Crc32c}.
#[local] Set Default Proof Using "Type*".

Lemma imagen_sealed c n sb fr l F it : imagen c n sb fr l F it -> imagen c n (sealed sb) fr l F it.
Proof.
  intros [Hwf Hs Ho ? ? ? ? ? ? ? ? ? ?].
  assert (sealed (sealed sb) = sealed sb) as Hss.
  { unfold sealed at 1 3. f_equal. destruct Hwf as [Hm _].
    rewrite !superblock_covered by (simpl; by rewrite Hm). done. }
  split; try done; by rewrite Hss.
Qed.

Lemma reliable_Ok {A} (r : outcome BlockError A) : answers (may_fail (D := D)) r -> exists a, r = Ok a.
Proof. destruct r; simpl; [by eauto| |done|done]. intros Hf. by apply (reliable (D := D)) in Hf. Qed.

Lemma read_ok d b : dev_ok d -> b < block_count d ->
  exists d', read_block b d = (Ok (content d b), d') ∧ same_dev d d'.
Proof.
  intros Hd Hb. destruct (reliable_Ok _ (read_outcome d b Hd Hb)) as [blk Hblk].
  destruct (read_spec d b Hd) as [Hs Hres]. destruct (Hres blk Hblk) as [_ ->].
  exists (read_block b d).2. split; [|done]. by destruct (read_block b d); simpl in *; subst.
Qed.

Lemma cargar_bitmap_ok sb d : dev_ok d -> sb_bitmap_start sb + sb_bitmap_blocks sb <= block_count d ->
  exists d', cargar_bitmap sb d = (Ok (range_content (content d) (sb_bitmap_start sb) (N.to_nat (sb_bitmap_blocks sb))), d') ∧
    same_dev d d'.
Proof.
  intros Hd Hb. pose proof (count_small d Hd) as Hc. unfold cargar_bitmap.
  assert (forall len (from : nat) acc d1, same_dev d d1 -> sb_bitmap_start sb + N.of_nat (from + len) <= block_count d ->
    exists d', mfold (fun bitmap i => b ← add64 (sb_bitmap_start sb) i;
      buf ← zoom id (fun d _ => d) (fun _ => SosofsAlloc.Io) (read_block b); mret (bitmap ++ buf)) acc
      (N.of_nat <$> seq from len) d1 =
      (Ok (acc ++ range_content (content d) (sb_bitmap_start sb + N.of_nat from) len), d') ∧ same_dev d d') as Hgen.
  { induction len as [|len IH]; intros from acc d1 Hs Hle; simpl.
    - exists d1. by rewrite app_nil_r.
    - unfold add64. rewrite (proj2 (N.ltb_lt _ _)) by lia. pose proof Hs as (Hok1 & Hc1 & Hb1).
      destruct (read_ok d1 (sb_bitmap_start sb + N.of_nat from) Hok1 ltac:(lia)) as (d2 & Hrun & Hs2).
      destruct (IH (S from) (acc ++ content d (sb_bitmap_start sb + N.of_nat from)) d2) as (d3 & Hrun3 & Hs3);
        [by eapply same_dev_trans|lia|].
      exists d3. split; [|done]. unfold mbind at 1, M_bind at 1. unfold mbind at 1, M_bind at 1. simpl.
      unfold mbind at 1, M_bind at 1, zoom at 1. unfold id at 1. rewrite Hrun. simpl. rewrite Hb1.
      rewrite <- (assoc_L (++)) in Hrun3.
      replace (sb_bitmap_start sb + N.of_nat from + 1) with (sb_bitmap_start sb + N.of_nat (S from)) by lia.
      exact Hrun3. }
  destruct (Hgen (N.to_nat (sb_bitmap_blocks sb)) 0%nat [] d (same_dev_refl d Hd) ltac:(lia)) as (d' & Hrun & Hs).
  rewrite N.add_0_r in Hrun. by exists d'.
Qed.

Lemma mount_imagen d sb fr l F it : dev_ok d -> imagen (content d) (block_count d) sb fr l F it ->
  exists s d', mount d = (Ok s, d') ∧ committed s l F it ∧ SosofsAlloc.sb s = sealed sb ∧ frozen s = fr ∧
    block_count (dev s) = block_count d ∧ forall j, blk s j = content d j.
Proof.
  intros Hd Him. pose proof (imagen_room _ _ _ _ _ _ _ Him) as Hn. pose proof (imagen_elegido _ _ _ _ _ _ _ Him) as Hel.
  apply imagen_sealed in Him. pose proof Him as [_ _ _ Hfr Hlen Hcov _ _ _ _ Hu Hsz _].
  set (sb1 := sealed sb) in *.
  assert (forall best slot d1, same_dev d d1 -> slot < 2 -> exists d2,
    elegir_slot best slot d1 = (Ok (elegir best (content d slot)), d2) ∧ same_dev d d2) as Hslot.
  { intros best slot d1 Hs Hlt. pose proof Hs as (Hok1 & Hc1 & Hb1).
    destruct (read_ok d1 slot Hok1 ltac:(lia)) as (d2 & Hrun & Hs2). exists d2. split; [|by eapply same_dev_trans].
    unfold elegir_slot. rewrite bind_eq. unfold attempt, zoom, id. rewrite Hrun. by rewrite Hb1. }
  destruct (Hslot None 0 d (same_dev_refl d Hd) ltac:(lia)) as (d1 & Hrun1 & Hs1).
  destruct (Hslot (elegir None (content d 0)) 1 d1 Hs1 ltac:(lia)) as (d2 & Hrun2 & Hs2).
  assert (sb_bitmap_start sb1 + sb_bitmap_blocks sb1 <= block_count d) as Hrange.
  { assert (sb_bitmap_blocks sb1 ≠ 0) as Hne by (intros E; unfold BLOCK_SIZE in Hlen; destruct (Hu (sb_tree_root sb1));
      [apply elem_of_app; left; by eapply rep_root, Him|lia]).
    destruct (Hu (sb_bitmap_start sb1 + sb_bitmap_blocks sb1 - 1)); [|lia].
    apply elem_of_app. right. apply elem_of_blocks_from. lia. }
  pose proof Hs2 as (Hok2 & Hc2 & Hb2).
  destruct (cargar_bitmap_ok sb1 d2 Hok2) as (d3 & Hrun3 & Hs3); [by rewrite Hc2|].
  rewrite (range_content_ext (content d)) in Hrun3 by (intros j _; apply Hb2). rewrite Hfr in Hrun3.
  pose proof (same_dev_trans _ _ _ Hs2 Hs3) as (Hok3 & Hc3 & Hb3).
  exists (mkSosofs d3 sb1 (sb_tree_root sb1) 0 [] (sb_next_inode sb1) fr fr false 2), d3. split_and!; [|split|done|done|done|done]; try done.
  - unfold mount. simpl mfold. rewrite bind_eq. rewrite bind_eq, Hrun1, bind_eq, Hrun2. simpl. fold (elegido (content d)).
    rewrite Hel. simpl. rewrite bind_eq. simpl. fold sb1. by rewrite bind_eq, Hrun3.
  - simpl. rewrite Hc3. eapply imagen_frame; [|exact Him]. intros j _ _. unfold blk. simpl. apply Hb3.
  - simpl. lia.
Qed.
End Mount.
