(* ===== verification/SosofsCrash.v ===== *)
(** * sosofs: a transaction is atomic

    [Rec] is the recording device of [crates/sosofs/tests/crash.rs]: it keeps
    the writes and flushes in order. A power cut leaves the writes of the
    closed epochs and any part, in any order, of the writes after the last
    flush ([corte]). Whatever the operation and wherever the power fails,
    mounting what is left gives either the generation before the transaction
    or, if it was published, the one after. *)
From S2P Require Import Prelude Texto BlockDev SosofsLayout SosofsAlloc SosofsTree SosofsNode SosofsStep SosofsTreeSpec SosofsScan SosofsFile SosofsTxn SosofsCow SosofsCommit.
Local Open Scope N_scope.
#[local] Set Default Proof Using "Type*".

(** ** The recording device *)
Module Rec.
Inductive Op := Write (b : N) (blk : Block) | Flush.
Record t (D : Type) := mk { inner : D; ops : list Op }.
Arguments mk {D}. Arguments inner {D}. Arguments ops {D}.

Section Rec.
Context {D : Type} `{BlockDevice D}.
Definition set_inner (d : D) (r : t D) : t D := mk d (ops r).
Definition on_inner {A} (m : M D BlockError A) : M (t D) BlockError A := zoom inner set_inner id m.
Definition push (o : Op) : M (t D) BlockError unit := modify (fun r => mk (inner r) (ops r ++ [o])).

Definition read_block (b : N) : M (t D) BlockError Block := on_inner (BlockDev.read_block b).
Definition write_block (b : N) (buf : Block) : M (t D) BlockError unit :=
  push (Write b buf);; on_inner (BlockDev.write_block b buf).
Definition flush : M (t D) BlockError unit := push Flush;; on_inner BlockDev.flush.
End Rec.
End Rec.

#[export] Instance Rec_BlockDevice {D} `{BlockDevice D} : BlockDevice (Rec.t D) := {
  block_count := fun r => block_count (Rec.inner r);
  read_block := Rec.read_block;
  write_block := Rec.write_block;
  flush := Rec.flush;
  last_read_cached := last_read_cached_default;
  invalidate_block := invalidate_block_default;
  invalidate_all := invalidate_all_default;
  max_blocks_per_request := max_blocks_per_request_default;
  read_blocks := read_blocks_default Rec.read_block;
}.

(** The content of the medium after the recorded writes. *)
Definition con (c : N -> Block) (o : Rec.Op) : N -> Block :=
  match o with
  | Rec.Write b blk => fun j => if decide (j = b) then blk else c j
  | Rec.Flush => c
  end.
Definition replay (c : N -> Block) (ops : list Rec.Op) : N -> Block := foldl con c ops.

(** A power cut after the prefix [settled ++ abierta] of the record: the
    epoch left open has reached the medium in part and in any order. *)
Definition corte (base : N -> Block) (ops : list Rec.Op) (c : N -> Block) : Prop :=
  exists settled abierta post kept,
    ops = settled ++ abierta ++ post ∧ (settled = [] ∨ last settled = Some Rec.Flush) ∧ (Rec.Flush ∉ abierta) ∧
    kept ⊆+ abierta ∧ c = replay (replay base settled) kept.

Lemma replay_app c a b : replay c (a ++ b) = replay (replay c a) b.
Proof. unfold replay. apply foldl_app. Qed.

(** A block no operation writes keeps its content. *)
Definition writes_at (P : N -> Prop) (o : Rec.Op) : Prop := match o with Rec.Write b _ => P b | Rec.Flush => True end.
Lemma replay_other c ops j : Forall (writes_at (.≠ j)) ops -> replay c ops j = c j.
Proof.
  intros Hops. revert c. induction Hops as [|o ops Ho Hops IH]; intros c; [done|]. simpl. unfold replay in IH. rewrite IH.
  destruct o as [b blk|]; simpl in *; [|done]. by rewrite decide_False by done.
Qed.

Lemma corte_other base ops c j : corte base ops c -> Forall (writes_at (.≠ j)) ops -> c j = base j.
Proof.
  intros (settled & ab & post & kept & -> & _ & _ & Hk & ->) Hops.
  apply Forall_app in Hops as [H1 [H2 _]%Forall_app].
  rewrite replay_other; [by apply replay_other|].
  rewrite Forall_forall in H2 |- *. intros o Ho. apply H2. by eapply elem_of_submseteq.
Qed.

#[export] Program Instance Rec_Spec {D} `{BlockDeviceSpec D} : BlockDeviceSpec (Rec.t D) := {
  dev_ok := fun r => dev_ok (Rec.inner r);
  content := fun r => content (Rec.inner r);
  may_fail := may_fail (D := D);
}.
Next Obligation. intros D BD BS r b Hr Hb. by apply content_length. Qed.
Next Obligation.
  intros D BD BS r b Hr. simpl. unfold Rec.read_block, Rec.on_inner, zoom.
  destruct (read_spec (Rec.inner r) b Hr) as [Hs Hres].
  destruct (read_block b (Rec.inner r)) as [[blk|e| |] d]; simpl in *; by split.
Qed.
Next Obligation.
  intros D BD BS r start n Hr. simpl.
  destruct (read_blocks_default_ok Rec.read_block (fun r : Rec.t D => dev_ok (Rec.inner r)) (fun r => content (Rec.inner r))
    (fun r => block_count (Rec.inner r)) (may_fail (D := D)))
    with (d := r) (start := start) (n := n) as (H1 & H2 & _); [|done|by apply (count_small (Rec.inner r))|done].
  intros d b Hd. unfold Rec.read_block, Rec.on_inner, zoom. destruct (read_spec (Rec.inner d) b Hd) as [Hs Hres].
  pose proof (read_outcome (Rec.inner d) b Hd) as Hans.
  destruct (read_block b (Rec.inner d)) as [[blk|e| |] d']; simpl in *; by split_and!.
Qed.
Next Obligation. intros D BD BS r Hr. by apply (count_small (Rec.inner r)). Qed.
Next Obligation.
  intros D BD BS r b blk Hr Hlen. simpl. unfold Rec.write_block, Rec.push, Rec.on_inner, zoom. rewrite bind_eq. simpl.
  pose proof (write_spec (Rec.inner r) b blk Hr Hlen) as Hw.
  destruct (write_block b blk (Rec.inner r)) as [[[]|e| |] d]; simpl in *; naive_solver.
Qed.
Next Obligation.
  intros D BD BS r Hr. simpl. unfold Rec.flush, Rec.push, Rec.on_inner, zoom. rewrite bind_eq. simpl.
  pose proof (flush_spec (Rec.inner r) Hr) as Hf. destruct (flush (Rec.inner r)) as [[[]|e| |] d]; simpl in *; done.
Qed.
Next Obligation. intros D BD BS r b Hr. by split. Qed.
Next Obligation. intros D BD BS r Hr. by split. Qed.
Next Obligation.
  intros D BD BS r b Hr Hb. simpl in *. unfold Rec.read_block, Rec.on_inner, zoom.
  pose proof (read_outcome (Rec.inner r) b Hr Hb) as Ha. by destruct (read_block b (Rec.inner r)) as [[blk|e| |] d].
Qed.
Next Obligation.
  intros D BD BS r start n Hr Hn. simpl in *.
  destruct (read_blocks_default_ok Rec.read_block (fun r : Rec.t D => dev_ok (Rec.inner r)) (fun r => content (Rec.inner r))
    (fun r => block_count (Rec.inner r)) (may_fail (D := D)))
    with (d := r) (start := start) (n := n) as (_ & _ & H3); [|done|by apply (count_small (Rec.inner r))|by apply H3].
  intros d b Hd. unfold Rec.read_block, Rec.on_inner, zoom. destruct (read_spec (Rec.inner d) b Hd) as [Hs Hres].
  pose proof (read_outcome (Rec.inner d) b Hd) as Hans.
  destruct (read_block b (Rec.inner d)) as [[blk|e| |] d']; simpl in *; by split_and!.
Qed.
Next Obligation.
  intros D BD BS r b blk Hr Hb Hlen. simpl in *. unfold Rec.write_block, Rec.push, Rec.on_inner, zoom. rewrite bind_eq. simpl.
  pose proof (write_outcome (Rec.inner r) b blk Hr Hb Hlen) as Ha. by destruct (write_block b blk (Rec.inner r)) as [[[]|e| |] d].
Qed.
Next Obligation.
  intros D BD BS r Hr. simpl. unfold Rec.flush, Rec.push, Rec.on_inner, zoom. rewrite bind_eq. simpl.
  pose proof (flush_outcome (Rec.inner r) Hr) as Ha. by destruct (flush (Rec.inner r)) as [[[]|e| |] d].
Qed.

#[export] Instance Rec_Reliable {D} `{ReliableDevice D} : ReliableDevice (Rec.t D).
Proof. intros Hf. by apply (reliable (D := D)). Qed.

(** ** Cuts of a record that ends with a publication *)
Lemma corte_publicacion base L b blk c :
  last L = Some Rec.Flush -> corte base (L ++ [Rec.Write b blk; Rec.Flush]) c ->
  corte base L c ∨ c = replay base (L ++ [Rec.Write b blk; Rec.Flush]).
Proof.
  intros HL (settled & ab & post & kept & Heq & Hset & Hab & Hk & ->).
  destruct (decide (length (settled ++ ab) <= length L)%nat) as [Hle|Hgt].
  { left. exists settled, ab, (drop (length (settled ++ ab)) L), kept. split_and!; try done.
    rewrite (assoc_L (++)) in Heq |- *. rewrite <- (take_drop (length (settled ++ ab)) L) at 1. f_equal.
    transitivity (take (length (settled ++ ab)) (L ++ [Rec.Write b blk; Rec.Flush])); [by rewrite take_app_le|].
    by rewrite Heq, take_app_length. }
  destruct post as [|p post].
  - rewrite app_nil_r in Heq. right. destruct ab as [|o ab _] using rev_ind.
    + apply submseteq_nil_r in Hk as ->. rewrite app_nil_r in Heq. by rewrite <- Heq.
    + exfalso. rewrite (assoc_L (++)), (cons_middle (Rec.Write b blk)), (assoc_L (++)) in Heq.
      apply app_inj_tail in Heq as [_ <-]. set_solver.
  - assert (post = [] ∧ p = Rec.Flush ∧ L ++ [Rec.Write b blk] = settled ++ ab) as (-> & -> & Heq').
    { assert (post = []) as ->.
      { apply (f_equal length) in Heq. rewrite !length_app in Heq. simpl in Heq. rewrite length_app in Hgt.
        destruct post; [done|]. simpl in Heq. lia. }
      rewrite (assoc_L (++)) in Heq. change [Rec.Write b blk; Rec.Flush] with ([Rec.Write b blk] ++ [Rec.Flush]) in Heq.
      rewrite (assoc_L (++)) in Heq. by apply app_inj_tail in Heq as [? <-]. }
    destruct ab as [|o ab _] using rev_ind.
    { exfalso. rewrite app_nil_r in Heq'. destruct Hset as [->|Hset]; [by destruct L|].
      rewrite <- Heq', last_snoc in Hset. done. }
    rewrite (assoc_L (++)) in Heq'. apply app_inj_tail in Heq' as [HeqL <-].
    destruct ab as [|o ab _] using rev_ind.
    + rewrite app_nil_r in HeqL. subst settled. simpl in Hk. destruct kept as [|k kept].
      * left. exists L, [], [], []. split_and!; [by rewrite app_nil_r|by right|set_solver|done|done].
      * right. pose proof (submseteq_length _ _ Hk) as Hlen. destruct kept; [|simpl in Hlen; lia].
        assert (k = Rec.Write b blk) as ->.
        { apply list_elem_of_singleton. eapply elem_of_submseteq; [|exact Hk]. set_solver. }
        by rewrite replay_app.
    + exfalso. rewrite HeqL, (assoc_L (++)), last_snoc in HL. injection HL as ->. set_solver.
Qed.

(** ** The record of a transaction *)
Section Crash.
Context {D : Type} `{BD : BlockDevice D} `{BS : !BlockDeviceSpec D} `{RD : !ReliableDevice D} `{CRC : Crc32c}.
Implicit Types s : Sosofs (Rec.t D).

Definition historia (base : N -> Block) (n : N) (P : Rec.Op -> Prop) (r : Rec.t D) : Prop :=
  dev_ok r ∧ block_count r = n ∧ (forall j, j < n -> content r j = replay base (Rec.ops r) j) ∧ Forall P (Rec.ops r).

Lemma historia_same base n P r d : same_dev (Rec.inner r) d -> historia base n P r -> historia base n P (Rec.set_inner d r).
Proof.
  intros (Hd & Hc & Hb) (H1 & H2 & H3 & H4). split_and!; [done| |intros j Hj; simpl; rewrite Hb; exact (H3 j Hj)|done].
  simpl. by rewrite Hc.
Qed.

Lemma answers_ok {A} (r : outcome BlockError A) : answers (may_fail (D := D)) r -> exists a, r = Ok a.
Proof. destruct r; simpl; [by eauto| |done|done]. intros Hf. by apply (reliable (D := D)) in Hf. Qed.

Lemma historia_write base n P r b blk : historia base n P r -> P (Rec.Write b blk) -> lenN blk = BLOCK_SIZE ->
  historia base n P (write_block b blk r).2 ∧ (b < n -> (write_block b blk r).1 = Ok tt) ∧
  Rec.ops (write_block b blk r).2 = Rec.ops r ++ [Rec.Write b blk].
Proof.
  intros (H1 & H2 & H3 & H4) HP Hlen. simpl. unfold Rec.write_block, Rec.push, Rec.on_inner, zoom. rewrite bind_eq. simpl.
  pose proof (write_spec (Rec.inner r) b blk H1 Hlen) as (Hd & Hc & Ho & Hres).
  assert (b < n -> (write_block b blk (Rec.inner r)).1 = Ok tt) as Hok.
  { intros Hb. destruct (answers_ok _ (write_outcome (Rec.inner r) b blk H1 ltac:(simpl in H2; lia) Hlen)) as [[] Ha]. done. }
  assert (forall j, j < n -> content (write_block b blk (Rec.inner r)).2 j = replay base (Rec.ops r ++ [Rec.Write b blk]) j) as Hcont.
  { intros j Hj. rewrite replay_app. simpl. case_decide as E; [subst j|rewrite Ho by done; exact (H3 j Hj)].
    by apply Hres, Hok. }
  destruct (write_block b blk (Rec.inner r)) as [o d]. simpl in *. split_and!.
  - split_and!; simpl; [done|congruence|done|]. apply Forall_app. split; [done|]. by constructor.
  - intros Hb. by rewrite (Hok Hb).
  - done.
Qed.

Lemma historia_flush base n P r : historia base n P r -> P Rec.Flush ->
  historia base n P (flush r).2 ∧ (flush r).1 = Ok tt ∧ Rec.ops (flush r).2 = Rec.ops r ++ [Rec.Flush].
Proof.
  intros (H1 & H2 & H3 & H4) HP. simpl. unfold Rec.flush, Rec.push, Rec.on_inner, zoom. rewrite bind_eq. simpl.
  pose proof (flush_spec (Rec.inner r) H1) as (Hd & Hc & Hb).
  destruct (answers_ok _ (flush_outcome (Rec.inner r) H1)) as [[] Ha].
  destruct (flush (Rec.inner r)) as [o d]. simpl in *. subst o. split_and!; [|done|done].
  split_and!; simpl; [done|congruence| |].
  - intros j Hj. rewrite replay_app. simpl. rewrite Hb. exact (H3 j Hj).
  - apply Forall_app. split; [done|]. by constructor.
Qed.

#[export] Instance historia_stable fr base n :
  Stable fr (historia base n (writes_at (escribible fr))).
Proof.
  split.
  - intros b r Hr. simpl. unfold Rec.read_block, Rec.on_inner, zoom.
    destruct (read_spec (Rec.inner r) b (proj1 Hr)) as [Hs _].
    destruct (read_block b (Rec.inner r)) as [o d]. by apply historia_same.
  - intros b k0 r Hr. generalize (k0 * BLOCK_SIZE). intros k. simpl. unfold read_blocks_default. case_match; [done|].
    generalize (@nil byte). generalize (upto (k / BLOCK_SIZE)). intros l. revert r Hr.
    induction l as [|i l IH]; intros r Hr acc; simpl; [done|]. rewrite bind_eq, (bind_eq (add64 b i)).
    unfold add64 at 1. destruct (b + i <? U64); cbn [mret M_ret panic]; [|done].
    rewrite bind_eq. unfold Rec.read_block at 1, Rec.on_inner, zoom.
    destruct (read_spec (Rec.inner r) (b + i) (proj1 Hr)) as [Hs _].
    destruct (read_block (b + i) (Rec.inner r)) as [[blk|e| |] d]; simpl; try by apply historia_same.
    apply IH. by apply historia_same.
  - intros r Hr. by apply (historia_flush _ _ _ _ Hr).
  - done.
  - done.
  - intros b blk r Hr Hb Hlen. by apply (historia_write _ _ _ _ _ _ Hr).
Qed.

Lemma historia_weaken base n (P Q : Rec.Op -> Prop) r : (forall o, P o -> Q o) -> historia base n P r -> historia base n Q r.
Proof. intros HPQ (? & ? & ? & HP). split_and!; try done. by eapply Forall_impl. Qed.

Lemma publicar_flush s x s1 : publicar_bitmap s = (Ok x, s1) -> last (Rec.ops (dev s1)) = Some Rec.Flush.
Proof.
  unfold publicar_bitmap. intros Hrun. minv Hrun.
  match goal with Hf : dev_op flush _ = _ |- _ => revert Hf end.
  unfold dev_op, zoom. simpl. unfold Rec.flush, Rec.push, Rec.on_inner, zoom. rewrite bind_eq. simpl.
  match goal with |- context [flush (Rec.inner (dev ?t))] => destruct (flush (Rec.inner (dev t))) as [[[]|e| |] d] end;
    try done. intros Heq. simplify_eq. exact (last_snoc _ _).
Qed.

#[local] Arguments write_block : simpl never.
#[local] Arguments flush : simpl never.

(** Until the superblock is written, only free blocks are; then the record
    is that superblock and a flush. *)
Lemma commit_cases base n fr sb0 fuel s r s' : 2 < n ->
  J fr sb0 (historia base n (writes_at (escribible fr))) s ->
  commit fuel s = (r, s') ->
  J fr sb0 (historia base n (writes_at (escribible fr))) s' ∨
  (r = Ok tt ∧ exists L slot blk, Rec.ops (dev s') = L ++ [Rec.Write slot blk; Rec.Flush] ∧
     last L = Some Rec.Flush ∧ Forall (writes_at (escribible fr)) L ∧ historia base n (fun _ => True) (dev s')).
Proof.
  intros Hn HJ. set (Ih := historia base n (writes_at (escribible fr))) in *. unfold commit.
  rewrite bind_eq. simpl. destruct (dirty s); simpl; [|by intros [= _ <-]; left].
  rewrite bind_eq. unfold attempt at 1.
  destruct (safe_comprobar fr sb0 Ih fuel s HJ) as [HJ1 _].
  destruct (comprobar_raiz_publicable fuel s) as [[[]|e| |] s1]; simpl in HJ1; [|..|by intros [= _ <-]; left|by intros [= _ <-]; left].
  2: { rewrite bind_eq. destruct (safe_rollback fr sb0 Ih s1 HJ1) as [HJ2 _].
       destruct (rollback s1) as [[[]|e'| |] s2]; intros [= _ <-]; by left. }
  rewrite bind_eq. destruct (safe_publicar_bitmap fr sb0 Ih s1 HJ1) as [HJ2 _].
  destruct (publicar_bitmap s1) as [[[start nb]|e| |] s2] eqn:Hpub; simpl in HJ2; [|by intros [= _ <-]; left..].
  apply publicar_flush in Hpub. rewrite bind_eq. simpl. rewrite bind_eq. unfold add64. simpl in HJ2.
  destruct (sb_generation (sb s2) + 1 <? U64); simpl; [|by intros [= _ <-]; left].
  set (nsb := mkSuperblock _ _ _ _ _ _ _ _). set (blk := superblock_write_to_block _ _).
  assert (lenN blk = BLOCK_SIZE) as Hblk by by apply superblock_block_length.
  pose proof (N.mod_lt (sb_generation (sb s2) + 1) 2 ltac:(done)) as Hslot.
  set (slot := (sb_generation (sb s2) + 1) mod 2) in *. clearbody slot blk nsb.
  destruct HJ2 as (Hh & Hsb & Hfr & Hlen).
  destruct (historia_write base n (fun _ => True) (dev s2) slot blk) as (Hh3 & Hok3 & Hops3); [by eapply historia_weaken|done|done|].
  specialize (Hok3 ltac:(lia)). destruct (write_block slot blk (dev s2)) as [o d3] eqn:Ew. simpl in Hok3, Hh3, Hops3. subst o.
  assert (dev_op (write_block slot blk) s2 = (Ok tt, set_dev d3 s2)) as Hw by (unfold dev_op, zoom; by rewrite Ew).
  rewrite (bind_run _ _ _ _ _ Hw).
  destruct (historia_flush base n (fun _ => True) d3 Hh3 I) as (Hh4 & Hok4 & Hops4).
  destruct (flush d3) as [o d4] eqn:Ef. simpl in Hok4, Hh4, Hops4. subst o.
  assert (dev_op flush (set_dev d3 s2) = (Ok tt, set_dev d4 s2)) as Hf by (unfold dev_op, zoom; simpl; by rewrite Ef).
  rewrite (bind_run _ _ _ _ _ Hf).
  rewrite bind_eq. simpl. rewrite bind_eq. simpl. unfold lenN. rewrite Hlen, Hfr, N.eqb_refl. simpl.
  intros [= <- <-]. right. split; [done|]. exists (Rec.ops (dev s2)), slot, blk. split_and!; [|done|apply Hh|done].
  simpl. by rewrite Hops4, Hops3, <- (assoc_L (++)).
Qed.

(** Operations that respect the golden rule. *)
Definition disciplined (fr : list byte) (sb0 : Superblock) {A} (m : F (Rec.t D) A) : Prop :=
  forall I, Stable fr I -> safe fr sb0 I m.

Lemma committed_J s l F it : committed s l F it -> Rec.ops (dev s) = [] ->
  J (frozen s) (sb s) (historia (blk s) (block_count (dev s)) (writes_at (escribible (frozen s)))) s.
Proof.
  intros Hc Hops. split; [|split_and!; [done|done|by rewrite (cm_bitmap _ _ _ _ Hc)]].
  split_and!; [exact (cm_dev _ _ _ _ Hc)|done|intros j Hj; by rewrite Hops|by rewrite Hops].
Qed.

(** Back at rest on the generation the transaction started from. *)
Lemma rollback_committed s l F it s1 n : committed s l F it -> n = block_count (dev s) ->
  J (frozen s) (sb s) (historia (blk s) n (writes_at (escribible (frozen s)))) s1 ->
  exists s2, rollback s1 = (Ok tt, s2) ∧ committed s2 l F it ∧ sb s2 = sb s ∧ frozen s2 = frozen s ∧ dev s2 = dev s1.
Proof.
  intros Hc -> (Hh & Hsb & Hfr & Hlen). unfold rollback. rewrite bind_eq. simpl. rewrite Hfr. unfold lenN.
  rewrite Hlen, N.eqb_refl. simpl. eexists; split; [reflexivity|]. split_and!; [|done|done|done].
  destruct Hh as (Hd & Hcnt & Hcont & Hall). split; try done; simpl; try congruence; [|lia].
  change (block_count (Rec.inner (dev s1))) with (block_count (dev s1)).
  rewrite Hcnt, Hsb, Hfr. unfold blk. cbn [dev set_dev set_alloc_hint set_dirty set_next_inode set_tree_root set_bitmap].
  eapply imagen_frame; [|apply (cm_imagen _ _ _ _ Hc)]. intros j Hj Hprot. rewrite Hcont by done.
  apply replay_other. eapply Forall_impl; [exact Hall|]. intros [b bl|] Hb; [|done]. simpl in *. intros ->.
  destruct Hb as [Hb2 Hbf]. destruct Hprot as [Hp|Hp]; [lia|congruence].
Qed.

(** The record of one transaction: either it only wrote free blocks, or it
    published and the last thing it wrote is the superblock. *)
Lemma finish_cases {A} fuel (m : F (Rec.t D) A) s l F it r s' :
  committed s l F it -> Rec.ops (dev s) = [] -> disciplined (frozen s) (sb s) m -> finish fuel m s = (r, s') ->
  J (frozen s) (sb s) (historia (blk s) (block_count (dev s)) (writes_at (escribible (frozen s)))) s' ∨
  exists a s1, r = Ok a ∧ m s = (Ok a, s1) ∧ commit fuel s1 = (Ok tt, s') ∧
    exists L slot bl, Rec.ops (dev s') = L ++ [Rec.Write slot bl; Rec.Flush] ∧
     last L = Some Rec.Flush ∧ Forall (writes_at (escribible (frozen s))) L ∧
     historia (blk s) (block_count (dev s)) (fun _ => True) (dev s').
Proof.
  intros Hc Hops Hm. pose proof (committed_J _ _ _ _ Hc Hops) as HJ.
  pose proof (imagen_room _ _ _ _ _ _ _ (cm_imagen _ _ _ _ Hc)) as Hn.
  set (Ih := historia _ _ _) in *. specialize (Hm Ih (historia_stable _ _ _)).
  unfold finish. rewrite bind_eq. unfold attempt at 1. destruct (Hm s HJ) as [HJ1 _].
  destruct (m s) as [[a|e| |] s1]; simpl in HJ1; [| |by intros [= _ <-]; left..].
  2: { rewrite bind_eq. destruct (safe_rollback _ _ Ih s1 HJ1) as [HJ2 _].
       destruct (rollback s1) as [[[]|e'| |] s2]; intros [= _ <-]; by left. }
  rewrite bind_eq. unfold attempt at 1. destruct (commit fuel s1) as [rc s2] eqn:Ecommit.
  destruct (commit_cases _ _ _ _ _ _ _ _ Hn HJ1 Ecommit) as [HJ2|(-> & L & slot & bl & Hrest)].
  - destruct rc as [[]|e| |]; [by intros [= _ <-]; left| |by intros [= _ <-]; left..].
    rewrite bind_eq. destruct (safe_rollback _ _ Ih s2 HJ2) as [HJ3 _].
    destruct (rollback s2) as [[[]|e'| |] s3]; intros [= _ <-]; by left.
  - intros [= <- <-]. right. exists a, s1. split_and!; [done|done|done|]. by exists L, slot, bl.
Qed.

Lemma corte_before base n fr ops c : Forall (writes_at (escribible fr)) ops -> corte base ops c ->
  forall j, j < n -> j < 2 ∨ bit fr j = Some true -> c j = base j.
Proof.
  intros Hall Hcut j _ Hprot. eapply corte_other; [exact Hcut|].
  eapply Forall_impl; [exact Hall|]. intros [b bl|] Hb; [|done]. simpl in *. intros ->.
  destruct Hb as [Hb2 Hbf]. destruct Hprot as [Hp|Hp]; [lia|congruence].
Qed.

(** Wherever the power fails, the medium holds the old generation, or all
    of what the transaction left. *)
Lemma finish_corte {A} fuel (m : F (Rec.t D) A) s l F it r s' c :
  committed s l F it -> Rec.ops (dev s) = [] -> disciplined (frozen s) (sb s) m -> finish fuel m s = (r, s') ->
  corte (blk s) (Rec.ops (dev s')) c ->
  (imagen c (block_count (dev s)) (sb s) (frozen s) l F it ∧
   forall j, j < block_count (dev s) -> j < 2 ∨ bit (frozen s) j = Some true -> c j = blk s j) ∨
  exists a s1, r = Ok a ∧ m s = (Ok a, s1) ∧ commit fuel s1 = (Ok tt, s') ∧
    forall j, j < block_count (dev s) -> c j = blk s' j.
Proof.
  intros Hc Hops Hm Hrun Hcut.
  assert (forall ops, Forall (writes_at (escribible (frozen s))) ops -> corte (blk s) ops c ->
    imagen c (block_count (dev s)) (sb s) (frozen s) l F it ∧
    forall j, j < block_count (dev s) -> j < 2 ∨ bit (frozen s) j = Some true -> c j = blk s j) as Hold.
  { intros ops Hall Hcut'. pose proof (corte_before _ (block_count (dev s)) _ _ _ Hall Hcut') as Hb. split; [|exact Hb].
    eapply imagen_frame; [exact Hb|apply (cm_imagen _ _ _ _ Hc)]. }
  destruct (finish_cases _ _ _ _ _ _ _ _ Hc Hops Hm Hrun) as [[Hh _]|(a & s1 & -> & Hm1 & Hcm & L & slot & bl & Heq & HL & Hall & Hh)].
  - left. eapply Hold; [apply Hh|done].
  - rewrite Heq in Hcut. destruct (corte_publicacion _ _ _ _ _ HL Hcut) as [Hcut'| ->]; [left; by eapply Hold|].
    right. exists a, s1. split_and!; [done..|]. intros j Hj. rewrite <- Heq. symmetry. by apply Hh.
Qed.
End Crash.

Section Atomic.
Context {D : Type} `{BD : BlockDevice D} `{BS : !BlockDeviceSpec D} `{RD : !ReliableDevice D} `{CRC : Crc32c}.
Context {E : Type} `{BE : BlockDevice E} `{SE : !BlockDeviceSpec E} `{RE : !ReliableDevice E}.

(** What mounting finds after a power cut: the generation the transaction
    started from, or the one it published. *)
Lemma corte_montado {A} fuel (m : F (Rec.t D) A) (P : A -> Sosofs (Rec.t D) -> nat -> list N -> list Item -> Prop)
    s l F it r s' c (d : E) :
  committed s l F it -> Rec.ops (dev s) = [] -> disciplined (frozen s) (sb s) m ->
  (forall a s1, m s = (Ok a, s1) -> exists l F it, (l < fuel)%nat ∧ publishable s1 l F it ∧
     block_count (dev s1) = block_count (dev s) ∧ P a s1 l F it) ->
  finish fuel m s = (r, s') -> corte (blk s) (Rec.ops (dev s')) c ->
  dev_ok d -> block_count d = block_count (dev s) -> (forall j, content d j = c j) ->
  exists s2 d', mount d = (Ok s2, d') ∧ block_count (dev s2) = block_count (dev s) ∧
    ((committed s2 l F it ∧ sb s2 = sealed (sb s) ∧ frozen s2 = frozen s ∧
      forall j, j < block_count (dev s) -> bit (frozen s) j = Some true -> blk s2 j = blk s j) ∨
     exists a s1 l1 F1 it1, r = Ok a ∧ P a s1 l1 F1 it1 ∧ publishable s1 l1 F1 it1 ∧ published s1 l1 F1 it1 s' ∧
      committed s2 l1 F1 it1 ∧ sb s2 = sealed (sb s') ∧ frozen s2 = frozen s' ∧
      forall j, j < block_count (dev s) -> blk s2 j = blk s' j).
Proof.
  intros Hc Hops Hm Hleaves Hrun Hcut Hd Hcnt Hcont.
  destruct (finish_corte _ _ _ _ _ _ _ _ _ Hc Hops Hm Hrun Hcut) as [[Him Hsame]|(a & s1 & -> & Hm1 & Hcm & Hnew)].
  - destruct (mount_imagen d (sb s) (frozen s) l F it Hd) as (s2 & d' & Hmount & Hc2 & Hsb & Hfr & Hcn & Hbk).
    { rewrite Hcnt. eapply imagen_frame; [|exact Him]. intros; apply Hcont. }
    exists s2, d'. split; [done|]. split; [congruence|]. left. split_and!; [done..|]. intros j Hj Hb. rewrite Hbk, Hcont. apply Hsame; [done|by right].
  - destruct (Hleaves a s1 Hm1) as (l' & F' & it' & Hl' & Hpb & Hcnt1 & Hsb1).
    pose proof (wp_commit fuel l' F' it' (fun _ s' => published s1 l' F' it' s') s1 Hl' Hpb (fun _ H => H)) as Hpub.
    apply (wp_Ok _ _ _ _ _ _ Hpub) in Hcm. pose proof Hcm as (Hc' & Hcnt' & _).
    destruct (mount_imagen d (sb s') (frozen s') l' F' it' Hd) as (s2 & d' & Hmount & Hc2 & Hsb & Hfr & Hcn & Hbk).
    { rewrite Hcnt, <- Hcnt1, <- Hcnt'. eapply imagen_frame; [|apply (cm_imagen _ _ _ _ Hc')].
      intros j Hj _. rewrite Hcont. apply Hnew. congruence. }
    exists s2, d'. split; [done|]. split; [congruence|]. right. exists a, s1, l', F', it'. split_and!; [done..|].
    intros j Hj. rewrite Hbk, Hcont. by apply Hnew.
Qed.
End Atomic.
