(* ===== verification/SosofsVista.v ===== *)
(** * sosofs: the volume inside a transaction, as a map of items

    [vista s h m X]: the tree of [s] is sound, holds the items [m], is at most
    [h] levels high, and the data blocks [X] are in use beside it. The tree
    operations, the allocator and the block writes are given rules in these
    terms; [sigue] says what they leave alone. *)
From S2P Require Import Prelude BlockDev SosofsLayout SosofsAlloc SosofsTree SosofsNode SosofsStep SosofsTreeSpec SosofsScan SosofsFile SosofsTxn SosofsCommit.
Local Open Scope N_scope.
#[local] Set Default Proof Using "Type*".

(** The items of a volume. *)
Abbreviation Items := (gmap Key (list byte)).

Section Vista.
Context {D : Type} `{BD : BlockDevice D} `{BS : !BlockDeviceSpec D} `{CRC : Crc32c}.
Implicit Types (s : Sosofs D) (m : Items).

Definition vista s (h : nat) m (X : list N) : Prop :=
  vol_ok s ∧ exists l F it, tree s l F it ∧ mapa it = m ∧ (l <= h)%nat ∧ owned s (F ++ bitmap_run (sb s) ++ X).

(** [s'] comes from [s] without publishing anything; the blocks [K] keep
    their content. *)
Record sigue s (K : list N) s' : Prop := {
  sg_sb : sb s' = sb s;
  sg_frozen : frozen s' = frozen s;
  sg_count : block_count (dev s') = block_count (dev s);
  sg_slots : forall j, j < 2 -> blk s' j = blk s j;
  sg_keep : forall j, j ∈ K -> blk s' j = blk s j;
  sg_dirty : dirty s = true -> dirty s' = true;
}.

Lemma sigue_refl s K : sigue s K s.
Proof. done. Qed.
Lemma sigue_trans s K s1 K' s2 K'' : sigue s K s1 -> sigue s1 K' s2 -> K'' ⊆ K -> K'' ⊆ K' -> sigue s K'' s2.
Proof.
  intros [] [] H1 H2. split; try congruence.
  - intros j Hj. rewrite sg_slots1, sg_slots0 by done. done.
  - intros j Hj. rewrite sg_keep1, sg_keep0 by set_solver. done.
  - auto.
Qed.
Lemma sigue_sub s K K' s' : sigue s K s' -> K' ⊆ K -> sigue s K' s'.
Proof. intros [] Hs. split; try done. intros j Hj. apply sg_keep0. set_solver. Qed.
Lemma sigue_nil s K s' : sigue s K s' -> sigue s [] s'.
Proof. intros Hs. by eapply sigue_sub; [|apply list_subseteq_nil]. Qed.
Lemma sigue_next x s K s' : sigue (set_next_inode x s) K s' -> sigue s K s'.
Proof. by intros []. Qed.
Lemma step_sigue s A B s' K : step s A B s' -> owned s K -> (forall j, j ∈ K -> j ∉ A) -> sigue s K s'.
Proof.
  intros Hst Ho Hd. pose proof (step_same _ _ _ _ Hst) as [? ? ? ?]. split; try done; try apply Hst.
  intros j Hj. apply (step_owned _ _ _ _ _ Hst Ho Hd). done.
Qed.
Lemma quiet_sigue s s' K : quiet s s' -> sigue s K s'.
Proof.
  intros Hq. pose proof Hq as ([? ? ? ?] & _ & _ & Hd & _). split; try done.
  - intros j _. by apply quiet_blk.
  - intros j _. by apply quiet_blk.
  - by rewrite Hd.
Qed.
Lemma quiet_next s s' : quiet s s' -> next_inode s' = next_inode s.
Proof. by intros [[] _]. Qed.

Lemma vista_vol s h m X : vista s h m X -> vol_ok s.
Proof. by intros [? _]. Qed.
Lemma vista_quiet s s' h m X : quiet s s' -> vista s h m X -> vista s' h m X.
Proof.
  intros Hq (Hv & l & F & it & Ht & Hm & Hl & Ho). split; [by eapply quiet_vol|]. exists l, F, it.
  split_and!; [by eapply tree_quiet|done|done|]. rewrite (sbd_sb _ _ (proj1 Hq)). by eapply quiet_owned.
Qed.
Lemma vista_perm s h m X X' : X ≡ₚ X' -> vista s h m X -> vista s h m X'.
Proof.
  intros Hp (Hv & l & F & it & Ht & Hm & Hl & Ho). split; [done|]. exists l, F, it. split_and!; try done.
  eapply owned_perm; [|exact Ho]. by rewrite Hp.
Qed.
Lemma vista_owned s h m X : vista s h m X -> owned s X.
Proof. intros (_ & l & F & it & _ & _ & _ & Ho). by apply owned_app in Ho as (_ & [_ [? _]]%owned_app & _). Qed.
Lemma vista_mono s h h' m X : (h <= h')%nat -> vista s h m X -> vista s h' m X.
Proof.
  intros Hh (Hv & l & F & it & ? & ? & ? & ?). split; [done|]. exists l, F, it. split_and!; try done. lia.
Qed.
Lemma vista_modify s h m X x : vista s h m X -> vista (set_next_inode x s) h m X.
Proof. intros ([] & l & F & it & [? [] ? ?] & ? & ? & ?). split; [by split|]. by exists l, F, it. Qed.

Lemma vista_items s h m X k p : vista s h m X -> m !! k = Some p -> Key.wf k ∧ lenN p = ITEM_PAYLOAD.
Proof.
  intros (Hv & l & F & it & Ht & <- & _ & Ho) Hk. apply mapa_lookup_Some in Hk; [|apply Ht].
  assert (Forall (fun e => Key.wf e.1 ∧ lenN e.2 = ITEM_PAYLOAD) it) as Hwf.
  { eapply rep_items_wf; [|apply Ht]. intros j Hj. by eapply owned_length; [..|apply Ht|]. }
  rewrite Forall_forall in Hwf. apply (Hwf (k, p) Hk).
Qed.

(** ** Reading *)
(** The items of [m] between two keys, in order. *)
Definition tramo m (min max : Key) (out : list Item) : Prop :=
  ksorted out ∧ forall k p, (k, p) ∈ out <-> m !! k = Some p ∧ Key.le min k ∧ Key.le k max.

Lemma wp_v_scan fuel h m X min max (Φ : list Item -> Sosofs D -> Prop) s :
  (h < fuel)%nat -> vista s h m X ->
  (forall out s', quiet s s' -> tramo m min max out -> Φ out s') -> wp io_err (scan_range fuel min max) Φ s.
Proof.
  intros Hf (Hv & l & F & it & Ht & <- & Hl & _) HΦ. eapply wp_scan_range; [|done..|].
  - lia.
  - intros s' Hq. apply HΦ; [done|]. split; [by apply ksorted_filter, Ht|]. intros k p.
    rewrite list_elem_of_filter, mapa_lookup_Some by apply Ht. unfold in_range. simpl. tauto.
Qed.

(** The first item between two keys whose payload satisfies [pred]. *)
Definition primero m min max (pred : list byte -> bool) (o : option Item) : Prop :=
  let busca k p := m !! k = Some p ∧ Key.le min k ∧ Key.le k max ∧ pred p = true in
  match o with
  | Some (k, p) => busca k p ∧ forall k' p', busca k' p' -> Key.le k k'
  | None => forall k p, ¬ busca k p
  end.

Lemma wp_v_find fuel h m X min max pred (Φ : option Item -> Sosofs D -> Prop) s :
  (h < fuel)%nat -> vista s h m X ->
  (forall o s', quiet s s' -> primero m min max pred o -> Φ o s') -> wp io_err (find_first fuel min max pred) Φ s.
Proof.
  intros Hf (Hv & l & F & it & Ht & <- & Hl & _) HΦ. eapply wp_find_first; [|done..|].
  - lia.
  - intros s' Hq. apply HΦ; [done|]. unfold first_match.
    assert (forall k p, (k, p) ∈ filter (wanted min max pred) it <->
      mapa it !! k = Some p ∧ Key.le min k ∧ Key.le k max ∧ pred p = true) as Hin.
    { intros k p. rewrite list_elem_of_filter, mapa_lookup_Some by apply Ht. unfold wanted, in_range. simpl. tauto. }
    assert (ksorted (filter (wanted min max pred) it)) as Hs by apply ksorted_filter, Ht.
    destruct (filter (wanted min max pred) it) as [|[k p] r]; simpl.
    + intros k p Hk. apply Hin in Hk. set_solver.
    + split; [apply Hin; set_solver|]. intros k' p' Hk. apply Hin in Hk.
      apply elem_of_cons in Hk as [[= -> ->]|Hk]; [by right|]. left.
      apply ksorted_cons in Hs as [_ Ha]. rewrite Forall_forall in Ha. apply (Ha _ Hk).
Qed.

(** ** Changing the tree *)
Lemma vista_step s h m X l' F' it' F s' : (l' <= h)%nat ->
  owned s (F ++ bitmap_run (sb s) ++ X) -> step s F F' s' -> tree s' l' F' it' -> mapa it' = m ->
  vista s' h m X ∧ sigue s X s'.
Proof.
  intros Hl Ho Hst Ht Hm. pose proof Ho as (HF & HK & Hd)%owned_app.
  assert (forall j, j ∈ bitmap_run (sb s) ++ X -> j ∉ F) as Hd' by (intros j Hj HjF; by apply (Hd j)).
  destruct (step_owned _ _ _ _ _ Hst HK Hd') as [Ho' _]. split.
  - split; [apply Hst|]. exists l', F', it'. split_and!; try done. rewrite (sbd_sb _ _ (step_same _ _ _ _ Hst)).
    eapply owned_perm; [|exact Ho']. solve_Permutation.
  - eapply step_sigue; [exact Hst|by apply owned_app in HK as (_ & ? & _)|]. intros j Hj. apply Hd', elem_of_app. by right.
Qed.

Lemma wp_v_insert fuel h m X key payload (Φ : unit -> Sosofs D -> Prop) s :
  (h < fuel)%nat -> (h < 255)%nat -> vista s h m X -> Key.wf key -> lenN payload = ITEM_PAYLOAD ->
  (forall s', vista s' (S h) (<[key := payload]> m) X -> sigue s X s' -> dirty s' = true ->
     next_inode s' = next_inode s -> Φ tt s') ->
  wp space_err (tree_insert fuel key payload) Φ s.
Proof.
  intros Hf Hh (Hv & l & F & it & Ht & <- & Hl & Ho) Hk Hp HΦ.
  eapply (wp_tree_insert fuel l F it); [lia|lia|done..|]. intros l' F' s' Hl' Hst Hdirty Ht'.
  destruct (vista_step s (S h) (mapa (upsert key payload it)) X l' F' (upsert key payload it) F s') as [Hvi Hsg]; [lia|done..|].
  rewrite mapa_upsert in Hvi. apply HΦ; [done|done|done|]. apply Hst.
Qed.

Definition delete_fail (key : Key) m (e : FsError) : Prop :=
  space_err (D := D) e ∨ (e = NotFound ∧ m !! key = None).

Lemma wp_v_delete fuel h m X key (Φ : unit -> Sosofs D -> Prop) s :
  (h < fuel)%nat -> vista s h m X ->
  (forall s', vista s' h (delete key m) X -> sigue s X s' -> dirty s' = true ->
     next_inode s' = next_inode s -> is_Some (m !! key) -> Φ tt s') ->
  wp (delete_fail key m) (tree_delete fuel key) Φ s.
Proof.
  intros Hf (Hv & l & F & it & Ht & <- & Hl & Ho) HΦ.
  eapply wp_mono; [eapply (wp_tree_delete fuel l F it key Φ); [lia|done..|]| |done].
  - intros l' F' s' Hl' Hst Hdirty Ht' Hin.
    destruct (vista_step s h (mapa (remove key it)) X l' F' (remove key it) F s') as [Hvi Hsg]; [lia|done..|].
    rewrite mapa_remove in Hvi. apply HΦ; [done|done|done|apply Hst|].
    destruct (mapa it !! key) eqn:E; [done|]. by apply mapa_None in E.
  - intros e [He|[-> Hn]]; [by left|]. right. split; [done|]. by apply mapa_None.
Qed.

(** ** Data blocks *)
Lemma vista_free s h m R X s' : vista s h m (R ++ X) -> step s R [] s' -> tree_root s' = tree_root s ->
  vista s' h m X ∧ sigue s X s'.
Proof.
  intros (Hv & l & F & it & [Hrep HoF Hs Hl'] & Hm & Hl & Ho) Hst Hroot.
  assert (owned s (R ++ (F ++ bitmap_run (sb s) ++ X))) as (HR & HK & Hd)%owned_app.
  { eapply owned_perm; [|exact Ho]. solve_Permutation. }
  assert (forall j, j ∈ F ++ bitmap_run (sb s) ++ X -> j ∉ R) as Hd' by (intros j Hj HjR; by apply (Hd j)).
  destruct (step_owned _ _ _ _ _ Hst HK Hd') as [Ho' Hkeep]. rewrite app_nil_r in Ho'. split.
  - split; [apply Hst|]. exists l, F, it. rewrite (sbd_sb _ _ (step_same _ _ _ _ Hst)). split_and!; try done.
    split; [|by apply owned_app in Ho' as [? _]|done|done]. rewrite Hroot. eapply rep_frame; [|exact Hrep].
    intros j Hj. apply Hkeep. set_solver.
  - eapply step_sigue; [exact Hst|by apply owned_app in HK as (_ & [_ [? _]]%owned_app & _)|].
    intros j Hj. apply Hd'. set_solver.
Qed.

Lemma vista_take s h m R X s' : vista s h m X -> step s [] R s' -> tree_root s' = tree_root s ->
  vista s' h m (R ++ X) ∧ sigue s X s'.
Proof.
  intros (Hv & l & F & it & [Hrep HoF Hs Hl'] & Hm & Hl & Ho) Hst Hroot.
  destruct (step_owned _ _ _ _ _ Hst Ho ltac:(set_solver)) as [Ho' Hkeep]. split.
  - split; [apply Hst|]. exists l, F, it. rewrite (sbd_sb _ _ (step_same _ _ _ _ Hst)). split_and!; try done.
    + split; [|by apply owned_app in Ho' as [[? _]%owned_app _]|done|done]. rewrite Hroot. eapply rep_frame; [|exact Hrep].
      intros j Hj. apply Hkeep. set_solver.
    + eapply owned_perm; [|exact Ho']. solve_Permutation.
  - eapply step_sigue; [exact Hst| |set_solver]. by apply owned_app in Ho as (_ & [_ [? _]]%owned_app & _).
Qed.
End Vista.
