(* ===== verification/SosofsDir.v ===== *)
(** * sosofs: directories

    What the lookups answer and what the operations on names do to the items
    of a volume, for a device that does not fail. [inodo], [es_dir] and
    [nombra] read the map of items the way the format encodes it. *)
From S2P Require Import Prelude Texto BlockDev SosofsLayout SosofsAlloc SosofsTree SosofsNode SosofsStep SosofsTreeSpec SosofsScan SosofsFile SosofsTxn SosofsCommit SosofsVista.
Local Open Scope N_scope.
#[local] Set Default Proof Using "Type*".

(** ** The items, read *)
Section Items.
Implicit Types m : Items.
Definition inodo m (ino : N) (st : InodeItem) : Prop :=
  exists p, m !! Key.inode ino = Some p ∧ inode_item_read p = st.
Definition es_dir m (ino : N) : Prop := exists st, inodo m ino st ∧ i_file_type st = FT_DIR.
(** [k] is the key of an entry of [dir] that names [child]. *)
Definition nombra m (dir : N) (name : list byte) (k : Key) (child : N) : Prop :=
  exists p, m !! k = Some p ∧ k_inode k = dir ∧ k_kind k = KIND_DIRENT ∧
    name_bytes (dirent_item_read p) = name ∧ d_child (dirent_item_read p) = child.
Definition sin_nombre m (dir : N) (name : list byte) : Prop := forall k child, ¬ nombra m dir name k child.

Lemma inodo_fun m ino st st' : inodo m ino st -> inodo m ino st' -> st = st'.
Proof. intros (p & Hp & <-) (p' & Hp' & <-). congruence. Qed.
Lemma inodo_insert m k p ino st : k ≠ Key.inode ino -> inodo (<[k := p]> m) ino st <-> inodo m ino st.
Proof. intros Hk. unfold inodo. by rewrite lookup_insert_ne by done. Qed.
Lemma inodo_new m p ino st : inodo (<[Key.inode ino := p]> m) ino st <-> inode_item_read p = st.
Proof. unfold inodo. rewrite lookup_insert_eq. naive_solver. Qed.
Lemma inodo_delete m k ino st : k ≠ Key.inode ino -> inodo (delete k m) ino st <-> inodo m ino st.
Proof. intros Hk. unfold inodo. by rewrite lookup_delete_ne by done. Qed.
Lemma nombra_insert_ne m k p dir name k' c : k_kind k ≠ KIND_DIRENT ->
  nombra (<[k := p]> m) dir name k' c <-> nombra m dir name k' c.
Proof.
  intros Hk. unfold nombra. split; intros (q & Hq & H1 & H2 & H3); exists q; (split; [|done]).
  - rewrite lookup_insert_ne in Hq; [done|]. by intros ->.
  - rewrite lookup_insert_ne; [done|]. by intros ->.
Qed.
Lemma nombra_delete m k dir name k' c :
  nombra (delete k m) dir name k' c <-> k' ≠ k ∧ nombra m dir name k' c.
Proof.
  unfold nombra. split.
  - intros (q & [? Hq]%lookup_delete_Some & Hr). split; [done|]. by exists q.
  - intros [Hk (q & Hq & Hr)]. exists q. by rewrite lookup_delete_ne.
Qed.

(** The keys between two of the same object and kind. *)
Lemma key_between ino kind a b k : Key.le (mkKey ino kind a) k ∧ Key.le k (mkKey ino kind b) <->
  k_inode k = ino ∧ k_kind k = kind ∧ a <= k_offset k <= b.
Proof.
  destruct k as [i kd o]. unfold Key.le, Key.lt. simpl. split.
  - intros [[H1|[= -> -> ->]] [H2|[=]]]; lia.
  - intros (-> & -> & H1 & H2). split.
    + destruct (decide (a = o)) as [->|]; [by right|left; lia].
    + destruct (decide (b = o)) as [->|]; [by right|left; lia].
Qed.

Lemma inode_key_ne_kind k ino : k_kind k ≠ KIND_INODE -> k ≠ Key.inode ino.
Proof. intros Hk ->. done. Qed.
End Items.

Lemma name_hash_lt name : name_hash name < U64.
Proof.
  unfold name_hash. assert (forall h, h < U64 -> foldl (fun h b => wrapping_mul64 (N.lxor h (Byte.to_N b)) FNV_PRIME) h name < U64) as H.
  { induction name as [|b name IH]; intros h Hh; [done|]. simpl. apply IH. unfold wrapping_mul64. apply N.mod_lt. done. }
  by apply H.
Qed.

Section Dir.
Context {D : Type} `{BD : BlockDevice D} `{BS : !BlockDeviceSpec D} `{CRC : Crc32c}.
Implicit Types (s : Sosofs D) (m : Items).

(** ** Lookups *)
Lemma wp_v_stat fuel h m X ino (Φ : InodeItem -> Sosofs D -> Prop) s :
  (h < fuel)%nat -> vista s h m X ->
  (forall st s', quiet s s' -> inodo m ino st -> Φ st s') ->
  wp (fun e => io_err (D := D) e ∨ (e = NotFound ∧ forall st, ¬ inodo m ino st)) (stat_inode fuel ino) Φ s.
Proof.
  intros Hf (Hv & l & F & it & Ht & <- & Hl & _) HΦ.
  eapply wp_mono; [eapply (wp_stat_inode fuel l F it ino Φ); [lia|done..|]| |done].
  - intros p s' Hq Hp. apply HΦ; [done|]. by exists p.
  - intros e [He|[-> Hn]]; [by left|]. right. split; [done|]. intros st (p & Hp & _). congruence.
Qed.

Definition encontrado m dir name (o : option (Key * DirentItem)) : Prop :=
  match o with
  | Some (k, de) => nombra m dir name k (d_child de)
  | None => sin_nombre m dir name
  end.

Lemma wp_v_buscar fuel h m X dir name (Φ : option (Key * DirentItem) -> Sosofs D -> Prop) s :
  (h < fuel)%nat -> vista s h m X ->
  (forall o s', quiet s s' -> encontrado m dir name o -> Φ o s') -> wp io_err (dirent_buscar fuel dir name) Φ s.
Proof.
  intros Hf Hvi HΦ. unfold dirent_buscar. cbv zeta.
  set (pred := fun payload => bool_decide (name_bytes (dirent_item_read payload) = name)).
  assert (forall a b k p, m !! k = Some p ∧ Key.le (mkKey dir KIND_DIRENT a) k ∧ Key.le k (mkKey dir KIND_DIRENT b) ∧
    pred p = true <-> m !! k = Some p ∧ k_inode k = dir ∧ k_kind k = KIND_DIRENT ∧ a <= k_offset k <= b ∧
    name_bytes (dirent_item_read p) = name) as Hiff.
  { intros a b k p. pose proof (key_between dir KIND_DIRENT a b k). unfold pred. rewrite bool_decide_eq_true. tauto. }
  wp_steps. eapply wp_v_find; [done|exact Hvi|]. intros o s1 Hq1 Ho. destruct o as [[k p]|].
  - destruct Ho as [Ho _]. apply Hiff in Ho as (Hm & H1 & H2 & _ & H3). wp_steps. apply HΦ; [done|]. by exists p.
  - assert (forall k p, m !! k = Some p -> k_inode k = dir -> k_kind k = KIND_DIRENT ->
      name_bytes (dirent_item_read p) = name -> k_offset k < name_hash name) as Hlow.
    { intros k p Hk H1 H2 H3. destruct (vista_items _ _ _ _ _ _ Hvi Hk) as [(_ & _ & Hwf) _].
      destruct (N.lt_ge_cases (k_offset k) (name_hash name)) as [|Hge]; [done|]. destruct (Ho k p).
      apply Hiff. split_and!; try done. unfold U64_MAX. lia. }
    destruct (N.eqb_spec (name_hash name) 0) as [H0|H0].
    + wp_steps. apply HΦ; [done|]. intros k c (p & Hk & H1 & H2 & H3 & _). specialize (Hlow k p Hk H1 H2 H3). lia.
    + wp_steps. eapply wp_v_find; [done|by eapply vista_quiet|]. intros o s2 Hq2 Ho2. wp_steps.
      apply HΦ; [by eapply quiet_trans|]. destruct o as [[k p]|]; simpl.
      * destruct Ho2 as [Ho2 _]. apply Hiff in Ho2 as (Hm & H1 & H2 & _ & H3). by exists p.
      * intros k c (p & Hk & H1 & H2 & H3 & _). pose proof (Hlow k p Hk H1 H2 H3). destruct (Ho2 k p).
        apply Hiff. split_and!; try done; lia.
Qed.

Definition lookup_fail m dir name (e : FsError) : Prop :=
  (e = NameTooLong ∧ NAME_MAX < lenN name) ∨ (e = NotFound ∧ lenN name <= NAME_MAX ∧ sin_nombre m dir name).

Lemma wp_v_lookup fuel h m X dir name (Φ : N -> Sosofs D -> Prop) s :
  (h < fuel)%nat -> vista s h m X ->
  (forall k c s', quiet s s' -> lenN name <= NAME_MAX -> nombra m dir name k c -> Φ c s') ->
  wp (fun e => io_err (D := D) e ∨ lookup_fail m dir name e) (lookup fuel dir name) Φ s.
Proof.
  intros Hf Hvi HΦ. unfold lookup. destruct (N.ltb_spec NAME_MAX (lenN name)) as [Hlen|Hlen].
  - apply wp_throw. right. by left.
  - wp_steps. eapply wp_mono; [eapply (wp_v_buscar fuel h m X dir name (fun o s' => quiet s s' ∧ encontrado m dir name o)); [done..|];
      intros; by split| |].
    + intros e He. by left.
    + intros [[k de]|] s' [Hq Ho]; simpl in Ho; wp_steps; [by eapply HΦ|]. right. by right.
Qed.

(** [self.lookup(..)] as a value, on a device that answers. *)
Lemma wp_v_lookup_value `{RD : !ReliableDevice D} Q fuel h m X dir name (Φ : FsError + N -> Sosofs D -> Prop) s :
  (h < fuel)%nat -> vista s h m X ->
  (forall r s', quiet s s' -> match r with
     | inr c => lenN name <= NAME_MAX ∧ exists k, nombra m dir name k c
     | inl e => lookup_fail m dir name e
     end -> Φ r s') -> wp Q (attempt (lookup fuel dir name)) Φ s.
Proof.
  intros Hf Hvi HΦ. unfold lookup. destruct (N.ltb_spec NAME_MAX (lenN name)) as [Hlen|Hlen].
  - unfold wp, attempt, throw. apply HΦ; [by apply quiet_refl, vol_dev, (vista_vol _ _ _ _ Hvi)|]. by left.
  - pose proof (wp_v_buscar fuel h m X dir name (fun o s' => quiet s s' ∧ encontrado m dir name o) s Hf Hvi
      ltac:(intros; by split)) as Hb.
    unfold wp, attempt in *. rewrite bind_eq. destruct (dirent_buscar fuel dir name s) as [[[[k de]|]|e| |] s']; [..|done|done].
    + destruct Hb as [Hq Ho]. simpl. apply HΦ; [done|]. split; [done|]. by exists k.
    + destruct Hb as [Hq Ho]. simpl. apply HΦ; [done|]. by right.
    + destruct Hb as [_ Hb]. by apply reliable in Hb.
Qed.

Definition check_fail m dir (e : FsError) : Prop :=
  (e = NotFound ∧ forall st, ¬ inodo m dir st) ∨ (e = NotADir ∧ (exists st, inodo m dir st) ∧ ¬ es_dir m dir).

Lemma wp_v_check fuel h m X dir (Φ : unit -> Sosofs D -> Prop) s :
  (h < fuel)%nat -> vista s h m X ->
  (forall s', quiet s s' -> es_dir m dir -> Φ tt s') ->
  wp (fun e => io_err (D := D) e ∨ check_fail m dir e) (check_dir fuel dir) Φ s.
Proof.
  intros Hf Hvi HΦ. unfold check_dir. wp_steps.
  eapply wp_mono; [eapply (wp_v_stat fuel h m X dir (fun st s' => quiet s s' ∧ inodo m dir st)); [done..|]; intros; by split| |].
  - intros e [He|He]; [by left|right; by left].
  - intros st s' [Hq Hst]. cbv beta. destruct (N.eqb_spec (i_file_type st) FT_DIR) as [Hd|Hd]; cbn [negb]; wp_steps.
    + apply HΦ; [done|]. by exists st.
    + right. right. split_and!; [done|by exists st|]. intros (st' & Hst' & Hd'). pose proof (inodo_fun _ _ _ _ Hst Hst'). by subst.
Qed.

(** The key of an entry, by scanning the directory. *)
Lemma wp_v_dirent_key fuel h m X dir name (Φ : Key -> Sosofs D -> Prop) s :
  (h < fuel)%nat -> vista s h m X ->
  (forall k c s', quiet s s' -> nombra m dir name k c -> Φ k s') ->
  wp (fun e => io_err (D := D) e ∨ (e = NotFound ∧ sin_nombre m dir name)) (dirent_key fuel dir name) Φ s.
Proof.
  intros Hf Hvi HΦ. unfold dirent_key. cbn [Key.range fst snd]. wp_steps.
  eapply wp_mono; [eapply (wp_v_scan fuel h m X _ _ (fun out s' => quiet s s' ∧ tramo m _ _ out)); [done..|]; intros; by split| |].
  { intros e He. by left. }
  intros out s' [Hq [_ Hout]]. cbv beta. case_match eqn:E.
  - destruct p as [i [k p]]. apply list_find_Some in E as (E & Hn & _). simpl in Hn. apply list_elem_of_lookup_2 in E.
    apply Hout in E as (Hk & Hr). apply key_between in Hr as (H1 & H2 & _). wp_steps. eapply HΦ; [done|]. by exists p.
  - apply list_find_None in E. wp_steps. right. split; [done|]. intros k c (p & Hk & H1 & H2 & H3 & _).
    rewrite Forall_forall in E. apply (E (k, p)); [|done]. apply Hout. split; [done|]. apply key_between.
    destruct (vista_items _ _ _ _ _ _ Hvi Hk) as [(_ & _ & Hwf) _]. split_and!; try done; [lia|]. unfold U64_MAX. lia.
Qed.

(** ** Writing an inode item *)
Lemma pad_payload_length bs : (length bs <= N.to_nat ITEM_PAYLOAD)%nat -> lenN (pad_payload bs) = ITEM_PAYLOAD.
Proof. intros Hl. unfold pad_payload, lenN. rewrite length_app, length_replicate. lia. Qed.

Lemma inode_payload_length item : lenN (pad_payload (inode_item_bytes item)) = ITEM_PAYLOAD.
Proof.
  apply pad_payload_length. unfold inode_item_bytes, u8, u64, zeros.
  rewrite !length_app, !le_bytes_length, length_replicate. unfold ITEM_PAYLOAD. lia.
Qed.

Lemma wp_v_put_inode fuel h m X ino item (Φ : unit -> Sosofs D -> Prop) s :
  (h < fuel)%nat -> (h < 255)%nat -> vista s h m X -> ino < U64 ->
  (forall s', vista s' (S h) (<[Key.inode ino := pad_payload (inode_item_bytes item)]> m) X -> sigue s X s' ->
     dirty s' = true -> next_inode s' = next_inode s -> Φ tt s') ->
  wp space_err (put_inode fuel ino item) Φ s.
Proof.
  intros Hf Hh Hvi Hino HΦ. unfold put_inode. eapply wp_v_insert; [done..| | |exact HΦ].
  - by split_and!.
  - apply inode_payload_length.
Qed.

(** ** Directory entries *)
Definition ranura (dir h : N) (i : nat) : Key := mkKey dir KIND_DIRENT ((h + N.of_nat i) mod U64).

Lemma ranuras_nodup dir h n : N.of_nat n <= U64 -> NoDup (ranura dir h <$> seq 0 n).
Proof.
  intros Hn. assert (forall i j, (i < n)%nat -> (j < n)%nat -> ranura dir h i = ranura dir h j -> i = j) as Hinj.
  { intros i j Hi Hj [= H]. 
    pose proof (N.div_mod (h + N.of_nat i) U64 ltac:(done)) as H1.
    pose proof (N.div_mod (h + N.of_nat j) U64 ltac:(done)) as H2.
    rewrite H in H1. generalize dependent ((h + N.of_nat j) mod U64). intros r _ H1 H2. unfold U64 in *. 
    generalize dependent ((h + N.of_nat i) / 2 ^ 64). generalize dependent ((h + N.of_nat j) / 2 ^ 64). intros a Ha b Hb.
    assert (a = b) by lia. lia. }
  induction n as [|n IH]; [constructor|]. rewrite seq_S, fmap_app. apply NoDup_app. split_and!.
  - apply IH; [lia|]. intros; apply Hinj; [lia..|done].
  - intros k (i & -> & Hi%elem_of_seq)%list_elem_of_fmap Hk%list_elem_of_singleton. simpl in Hk.
    apply Hinj in Hk; lia.
  - apply NoDup_singleton.
Qed.

Lemma wrapping_next h i : h < U64 -> wrapping_add64 ((h + N.of_nat i) mod U64) 1 = (h + N.of_nat (S i)) mod U64.
Proof.
  intros Hh. unfold wrapping_add64. rewrite N.Div0.add_mod_idemp_l. f_equal. lia.
Qed.

Lemma wp_v_sondear n : forall i fuel h m X dir hash payload (Φ : unit -> Sosofs D -> Prop) s,
  (h < fuel)%nat -> (h < 255)%nat -> vista s h m X -> dir < U64 -> hash < U64 -> lenN payload = ITEM_PAYLOAD ->
  (forall j, (j < i)%nat -> is_Some (m !! ranura dir hash j)) ->
  (size m < i + n)%nat -> N.of_nat (i + n) <= U64 ->
  (forall off s', off < U64 -> m !! mkKey dir KIND_DIRENT off = None ->
     vista s' (S h) (<[mkKey dir KIND_DIRENT off := payload]> m) X -> sigue s X s' -> dirty s' = true ->
     next_inode s' = next_inode s -> Φ tt s') ->
  wp space_err (sondear n fuel dir ((hash + N.of_nat i) mod U64) payload) Φ s.
Proof.
  induction n as [|n IH]; intros i fuel h m X dir hash payload Φ s Hf Hh Hvi Hdir Hhash Hpay Hocc Hsz Hu HΦ.
  - exfalso. assert ((i <= size m)%nat); [|lia].
    rewrite <- (size_dom (D := gset Key) m).
    assert (NoDup (ranura dir hash <$> seq 0 i)) as Hnd by (apply ranuras_nodup; lia).
    rewrite <- (length_seq i 0), <- (length_fmap (ranura dir hash) (seq 0 i)), <- (size_list_to_set (C := gset Key) _ Hnd).
    apply subseteq_size. intros k Hk. apply elem_of_list_to_set, list_elem_of_fmap in Hk as (j & -> & Hj%elem_of_seq).
    apply elem_of_dom, Hocc. lia.
  - cbn [sondear]. cbv zeta. wp_steps. set (off := (hash + N.of_nat i) mod U64).
    assert (off < U64) as Hoff by by apply N.mod_lt.
    eapply wp_mono; [eapply (wp_v_scan fuel h m X _ _ (fun out s' => quiet s s' ∧ tramo m _ _ out)); [done..|]; intros; by split|apply io_space|].
    intros out s1 [Hq [_ Hout]]. cbv beta. pose proof (vista_quiet _ _ _ _ _ Hq Hvi) as Hvi1. destruct out as [|[k p] out].
    + assert (m !! mkKey dir KIND_DIRENT off = None) as Hfree.
      { destruct (m !! mkKey dir KIND_DIRENT off) as [p|] eqn:E; [|done].
        assert ((mkKey dir KIND_DIRENT off, p) ∈ []) as Hin; [|set_solver]. apply Hout. split_and!; [done|by right..]. }
      eapply wp_v_insert; [done|done|exact Hvi1|by split_and!|done|]. intros s2 Hvi2 Hsg Hd Hnx. eapply HΦ; [exact Hoff|done|done| |done|].
      * eapply sigue_trans; [by apply (quiet_sigue s s1 X)|exact Hsg|done..].
      * rewrite Hnx. by apply quiet_next.
    + assert (m !! k = Some p ∧ k = mkKey dir KIND_DIRENT off) as [Hk ->].
      { destruct (Hout k p) as [Ho _]. destruct Ho as (Ho & Hr); [set_solver|]. split; [done|].
        apply key_between in Hr as (H1 & H2 & H3). destruct k; simpl in *. f_equal; [done|done|lia]. }
      unfold off at 1. rewrite wrapping_next by done. eapply IH; [done|done|exact Hvi1|done..| |lia|lia|].
      * intros j Hj. destruct (decide (j = i)) as [->|]; [by exists p|]. apply Hocc. lia.
      * intros off' s2 Ho' Hf' Hvi2 Hsg Hd Hnx. eapply HΦ; [exact Ho'|done|done| |done|].
        -- eapply sigue_trans; [by apply (quiet_sigue s s1 X)|exact Hsg|done..].
        -- rewrite Hnx. by apply quiet_next.
Qed.

Definition dirent_payload (name : list byte) (child : N) : list byte :=
  pad_payload (dirent_item_bytes (dirent_of name child)).

Definition nombre_valido (name : list byte) : Prop := 0 < lenN name <= NAME_MAX.

Lemma dirent_payload_length name child : lenN name <= NAME_MAX -> lenN (dirent_payload name child) = ITEM_PAYLOAD.
Proof.
  intros Hn. apply pad_payload_length. unfold dirent_item_bytes, dirent_of, u64, u8. simpl d_name. simpl d_child. simpl d_name_len.
  rewrite !length_app, !le_bytes_length, length_replicate. unfold zeros. rewrite length_replicate.
  unfold NAME_MAX, lenN, ITEM_PAYLOAD in *. lia.
Qed.
Lemma dirent_payload_read name child : lenN name <= NAME_MAX -> child < U64 ->
  name_bytes (dirent_item_read (dirent_payload name child)) = name ∧ d_child (dirent_item_read (dirent_payload name child)) = child.
Proof.
  intros Hn Hc. unfold dirent_payload, pad_payload. rewrite dirent_item_read_bytes by done.
  split; [by apply name_bytes_dirent_of|done].
Qed.

Lemma wp_v_insert_dirent n fuel h m X dir name child (Φ : unit -> Sosofs D -> Prop) s :
  (h < fuel)%nat -> (h < 255)%nat -> vista s h m X -> dir < U64 ->
  (size m < n)%nat -> N.of_nat n <= U64 ->
  (forall off s', nombre_valido name -> off < U64 -> m !! mkKey dir KIND_DIRENT off = None ->
     vista s' (S h) (<[mkKey dir KIND_DIRENT off := dirent_payload name child]> m) X -> sigue s X s' -> dirty s' = true ->
     next_inode s' = next_inode s -> Φ tt s') ->
  wp (fun e => space_err (D := D) e ∨ (e = NameTooLong ∧ ¬ nombre_valido name)) (insert_dirent n fuel dir name child) Φ s.
Proof.
  intros Hf Hh Hvi Hdir Hsz Hu HΦ. unfold insert_dirent. unfold nombre_valido in *.
  destruct (N.ltb_spec NAME_MAX (lenN name)) as [Hl|Hl]; cbn [orb].
  { wp_steps. right. split; [done|]. lia. }
  case_bool_decide as Hne.
  { wp_steps. right. split; [done|]. rewrite Hne. by intros [? _]. }
  assert (0 < lenN name) as Hpos by (destruct name; [done|]; rewrite lenN_cons; lia).
  pose proof (name_hash_lt name) as Hh1.
  assert (name_hash name = (name_hash name + N.of_nat 0) mod U64) as ->.
  { change (N.of_nat 0) with 0. rewrite N.add_0_r, N.mod_small; [done|exact Hh1]. }
  eapply wp_mono; [eapply (wp_v_sondear n 0 fuel h m X dir); [done|done|exact Hvi|done|done|by apply dirent_payload_length| | | |]|by left|done].
  - intros j Hj. lia.
  - lia.
  - lia.
  - intros off s' Ho Hfree Hvi' Hsg Hd Hnx. eapply HΦ; [done|exact Ho|done..].
Qed.
End Dir.
