(* ===== verification/SosofsNames.v ===== *)
(** * sosofs: the operations on names

    [bien_formado] is the invariant of the items of a volume: inode numbers
    are handed out once, every entry of a directory names an existing object,
    no name appears twice in a directory and no object has two names.
    [mkdir_inner], [set_mtime_inner] and [rename_inner] are given their
    functional behaviour on the items, errors included. *)
From S2P Require Import Prelude Texto BlockDev SosofsLayout SosofsAlloc SosofsTree SosofsNode SosofsStep SosofsTreeSpec SosofsScan SosofsFile SosofsTxn SosofsCommit SosofsVista SosofsDir.
Local Open Scope N_scope.
#[local] Set Default Proof Using "Type*".

(** ** The invariant of the items *)
Record bien_formado (m : Items) (next : N) : Prop := {
  bf_root : es_dir m ROOT_INODE;
  bf_next k p : m !! k = Some p -> k_inode k < next;
  bf_entry dir name k c : nombra m dir name k c ->
    es_dir m dir ∧ c ≠ ROOT_INODE ∧ nombre_valido name ∧ exists st, inodo m c st;
  bf_names dir name k c k' c' : nombra m dir name k c -> nombra m dir name k' c' -> k = k';
  bf_links dir name k dir' name' k' c : nombra m dir name k c -> nombra m dir' name' k' c -> k = k';
  bf_files k p : m !! k = Some p -> k_kind k = KIND_EXTENT -> exists st, inodo m (k_inode k) st ∧ i_file_type st ≠ FT_DIR;
}.

(** [m'] is [m] with one more entry. *)
Definition enlaza (m : Items) (dir : N) (name : list byte) (c : N) (m' : Items) : Prop :=
  exists off, off < U64 ∧ m !! mkKey dir KIND_DIRENT off = None ∧
    m' = <[mkKey dir KIND_DIRENT off := dirent_payload name c]> m.

Definition inode_payload (st : InodeItem) : list byte := pad_payload (inode_item_bytes st).
Lemma inode_payload_read st : inode_item_wf st -> inode_item_read (inode_payload st) = st.
Proof. intros Hwf. unfold inode_payload, pad_payload. by apply inode_item_read_bytes. Qed.

Section Pure.
Implicit Types m : Items.

Lemma nombra_fun m d n k c d' n' c' : nombra m d n k c -> nombra m d' n' k c' -> d = d' ∧ n = n' ∧ c = c'.
Proof. intros (p & Hp & <- & _ & <- & <-) (p' & Hp' & <- & _ & <- & <-). rewrite Hp in Hp'. by simplify_eq. Qed.

Lemma nombra_link m dir off name c d n k x : lenN name <= NAME_MAX -> c < U64 ->
  nombra (<[mkKey dir KIND_DIRENT off := dirent_payload name c]> m) d n k x <->
  (k = mkKey dir KIND_DIRENT off ∧ d = dir ∧ n = name ∧ x = c) ∨ (k ≠ mkKey dir KIND_DIRENT off ∧ nombra m d n k x).
Proof.
  intros Hn Hc. destruct (dirent_payload_read name c Hn Hc) as [Hr1 Hr2]. unfold nombra. split.
  - intros (p & Hp & <- & Hk & <- & <-). destruct (decide (k = mkKey dir KIND_DIRENT off)) as [->|Hne].
    + rewrite lookup_insert_eq in Hp. injection Hp as <-. rewrite Hr1, Hr2. by left.
    + rewrite lookup_insert_ne in Hp by done. right. split; [done|]. by exists p.
  - intros [(-> & -> & -> & ->)|[Hne (p & Hp & Hr)]].
    + exists (dirent_payload name c). rewrite lookup_insert_eq. done.
    + exists p. by rewrite lookup_insert_ne.
Qed.

Lemma enlaza_nombra m dir name c m' : lenN name <= NAME_MAX -> c < U64 -> sin_nombre m dir name -> enlaza m dir name c m' ->
  forall d n x, (exists k, nombra m' d n k x) <-> (d = dir ∧ n = name ∧ x = c) ∨ exists k, nombra m d n k x.
Proof.
  intros Hn Hc Hnew (off & _ & Hfree & ->) d n x. setoid_rewrite nombra_link; [|done|done]. split.
  - intros [k [(_ & ?)|[_ Hk]]]; [by left|right; by exists k].
  - intros [?|[k Hk]]; [exists (mkKey dir KIND_DIRENT off); by left|]. exists k. right. split; [|done].
    intros ->. destruct Hk as (p & Hp & _). congruence.
Qed.

Lemma es_dir_same1 m m' ino : (forall st, inodo m' ino st <-> inodo m ino st) -> es_dir m ino -> es_dir m' ino.
Proof. intros Hi (st & Hst & Hd). exists st. by rewrite Hi. Qed.
Lemma es_dir_same m m' ino : (forall x st, inodo m' x st <-> inodo m x st) -> es_dir m ino -> es_dir m' ino.
Proof. intros Hi. apply es_dir_same1. intros st. apply Hi. Qed.
Lemma dirent_key_ne dir off ino : mkKey dir KIND_DIRENT off ≠ Key.inode ino.
Proof. done. Qed.
Lemma extent_key_ne k ino : k_kind k = KIND_EXTENT -> k ≠ Key.inode ino.
Proof. by intros Hk ->. Qed.

(** An inode item under its number, old or new. *)
Lemma bf_put m next ino st : bien_formado m next -> inode_item_wf st ->
  (ino = next ∨ exists st', inodo m ino st' ∧ i_file_type st' = i_file_type st) ->
  bien_formado (<[Key.inode ino := inode_payload st]> m) (N.max next (ino + 1)).
Proof.
  intros [Hroot Hnx He Hn Hl Hf] Hwf Hino.
  assert (forall x st', inodo m x st' -> exists st'', inodo (<[Key.inode ino := inode_payload st]> m) x st'' ∧
    i_file_type st'' = i_file_type st') as Hkeep.
  { intros x st' Hx. destruct (decide (x = ino)) as [->|Hne].
    - exists st. rewrite inodo_new. split; [by apply inode_payload_read|]. destruct Hino as [->|(st2 & Hst2 & <-)].
      + destruct Hx as (p & Hp & _). apply Hnx in Hp. simpl in Hp. lia.
      + by rewrite (inodo_fun _ _ _ _ Hst2 Hx).
    - exists st'. rewrite inodo_insert; [done|]. by intros [= ->]. }
  assert (forall x, es_dir m x -> es_dir (<[Key.inode ino := inode_payload st]> m) x) as Hdir.
  { intros x (st' & Hst' & Hd). destruct (Hkeep x st' Hst') as (st2 & Hst2 & Ht). exists st2. split; [done|congruence]. }
  split.
  - by apply Hdir.
  - intros k p [[<- _]|[_ Hk]]%lookup_insert_Some; simpl; [lia|]. apply Hnx in Hk. lia.
  - intros dir name k c Hk. rewrite nombra_insert_ne in Hk by done. destruct (He _ _ _ _ Hk) as (H1 & H2 & H3 & st' & H4).
    split_and!; [by apply Hdir|done|done|]. destruct (Hkeep c st' H4) as (st2 & ? & _). by exists st2.
  - intros dir name k c k' c'. rewrite !nombra_insert_ne by done. apply Hn.
  - intros dir name k dir' name' k' c. rewrite !nombra_insert_ne by done. apply Hl.
  - intros k p [[<- _]|[_ Hk]]%lookup_insert_Some Hkind; [done|]. destruct (Hf k p Hk Hkind) as (st' & Hst' & Ht).
    destruct (Hkeep _ _ Hst') as (st2 & ? & ?). exists st2. split; [done|congruence].
Qed.

Lemma bf_extent m next k p st : bien_formado m next -> k_kind k = KIND_EXTENT -> inodo m (k_inode k) st ->
  i_file_type st ≠ FT_DIR -> bien_formado (<[k := p]> m) next.
Proof.
  intros [Hroot Hnx He Hn Hl Hf] Hk Hino Ht.
  assert (forall x st', inodo (<[k := p]> m) x st' <-> inodo m x st') as Hi.
  { intros x st'. apply inodo_insert. by apply extent_key_ne. }
  assert (forall d n k' c, nombra (<[k := p]> m) d n k' c <-> nombra m d n k' c) as Hnb.
  { intros. apply nombra_insert_ne. by rewrite Hk. }
  split.
  - by apply (es_dir_same m).
  - intros k' p' [[<- _]|[_ Hk']]%lookup_insert_Some; [|by eapply Hnx]. destruct Hino as (q & Hq & _).
    by apply Hnx in Hq.
  - intros dir name k' c. rewrite Hnb. intros (H1 & H2 & H3 & st' & H4)%He.
    split_and!; [by apply (es_dir_same m)|done|done|]. exists st'. by rewrite Hi.
  - intros dir name k1 c k' c'. rewrite !Hnb. apply Hn.
  - intros dir name k1 dir' name' k' c. rewrite !Hnb. apply Hl.
  - intros k' p' [[<- _]|[_ Hk']]%lookup_insert_Some Hkind; setoid_rewrite Hi; [by exists st|by eapply Hf].
Qed.

Lemma bf_link m next dir name c m' : bien_formado m next -> es_dir m dir -> sin_nombre m dir name ->
  nombre_valido name -> (exists st, inodo m c st) -> c ≠ ROOT_INODE -> c < U64 -> (forall d n k, ¬ nombra m d n k c) ->
  enlaza m dir name c m' -> bien_formado m' next.
Proof.
  intros [Hroot Hnx He Hn Hl Hf] Hdir Hnew [Hv0 Hv] Hino Hc Hc64 Hfree (off & Ho & Hoff & ->).
  set (dk := mkKey dir KIND_DIRENT off).
  assert (forall x st', inodo (<[dk := dirent_payload name c]> m) x st' <-> inodo m x st') as Hi by by intros; apply inodo_insert.
  assert (forall d n k x, nombra (<[dk := dirent_payload name c]> m) d n k x <->
    (k = dk ∧ d = dir ∧ n = name ∧ x = c) ∨ (k ≠ dk ∧ nombra m d n k x)) as Hnb by by intros; apply nombra_link.
  split.
  - by apply (es_dir_same m).
  - intros k p [[<- _]|[_ Hk]]%lookup_insert_Some; [|by eapply Hnx]. destruct Hdir as (st & (q & Hq & _) & _). by apply Hnx in Hq.
  - intros d n k x [(-> & -> & -> & ->)|[_ Hk]]%Hnb.
    + split_and!; [by apply (es_dir_same m)|done|by split|]. by setoid_rewrite Hi.
    + destruct (He _ _ _ _ Hk) as (H1 & H2 & H3 & st' & H4). split_and!; [by apply (es_dir_same m)|done|done|].
      exists st'. by rewrite Hi.
  - intros d n k x k' x' [(-> & -> & -> & ->)|[Hk1 Hk]]%Hnb [(-> & ? & ? & ->)|[Hk1' Hk']]%Hnb; [done| | |by eapply Hn].
    + by apply Hnew in Hk'.
    + subst. by apply Hnew in Hk.
  - intros d n k d' n' k' x [(-> & -> & -> & ->)|[Hk1 Hk]]%Hnb [(-> & ? & ? & ?)|[Hk1' Hk']]%Hnb; [done| | |by eapply Hl].
    + by apply Hfree in Hk'.
    + subst. by apply Hfree in Hk.
  - intros k p [[<- _]|[_ Hk]]%lookup_insert_Some Hkind; [done|]. setoid_rewrite Hi. by eapply Hf.
Qed.

(** Removing an item that is not an inode. *)
Lemma bf_delete m next k : bien_formado m next -> k_kind k ≠ KIND_INODE -> bien_formado (delete k m) next.
Proof.
  intros [Hroot Hnx He Hn Hl Hf] Hk.
  assert (forall x st', inodo (delete k m) x st' <-> inodo m x st') as Hi.
  { intros. by apply inodo_delete, inode_key_ne_kind. }
  split.
  - by apply (es_dir_same m).
  - intros k' p [_ Hk']%lookup_delete_Some. by eapply Hnx.
  - intros dir name k' c [_ Hk']%nombra_delete. destruct (He _ _ _ _ Hk') as (H1 & H2 & H3 & st' & H4).
    split_and!; [by apply (es_dir_same m)|done|done|]. exists st'. by rewrite Hi.
  - intros dir name k1 c k' c' [_ H1]%nombra_delete [_ H2]%nombra_delete. by eapply Hn.
  - intros dir name k1 dir' name' k' c [_ H1]%nombra_delete [_ H2]%nombra_delete. by eapply Hl.
  - intros k' p [_ Hk']%lookup_delete_Some Hkind. setoid_rewrite Hi. by eapply Hf.
Qed.

(** Removing an object nothing hangs from and nothing names. *)
Lemma bf_delete_inode m next ino : bien_formado m next -> ino ≠ ROOT_INODE -> (forall d n k, ¬ nombra m d n k ino) ->
  (forall d n k c, nombra m d n k c -> d ≠ ino) -> (forall k p, m !! k = Some p -> k_kind k = KIND_EXTENT -> k_inode k ≠ ino) ->
  bien_formado (delete (Key.inode ino) m) next.
Proof.
  intros [Hroot Hnx He Hn Hl Hf] Hr Hno Hempty Hext.
  assert (forall x st', x ≠ ino -> inodo (delete (Key.inode ino) m) x st' <-> inodo m x st') as Hi.
  { intros x st' Hx. apply inodo_delete. intros [= ->]. done. }
  split.
  - eapply es_dir_same1; [|exact Hroot]. intros. by apply Hi.
  - intros k' p [_ Hk']%lookup_delete_Some. by eapply Hnx.
  - intros dir name k' c [_ Hk']%nombra_delete. destruct (He _ _ _ _ Hk') as (H1 & H2 & H3 & st' & H4).
    split_and!; [|done|done|].
    + eapply es_dir_same1; [|exact H1]. intros. apply Hi. by eapply Hempty.
    + exists st'. rewrite Hi; [done|]. intros ->. by apply Hno in Hk'.
  - intros dir name k1 c k' c' [_ H1]%nombra_delete [_ H2]%nombra_delete. by eapply Hn.
  - intros dir name k1 dir' name' k' c [_ H1]%nombra_delete [_ H2]%nombra_delete. by eapply Hl.
  - intros k' p [_ Hk']%lookup_delete_Some Hkind. destruct (Hf _ _ Hk' Hkind) as (st & Hst & Ht). exists st.
    rewrite Hi; [done|]. by eapply Hext.
Qed.
End Pure.

(** ** The operations *)
Section Names.
Context {D : Type} `{BD : BlockDevice D} `{BS : !BlockDeviceSpec D} `{RD : !ReliableDevice D} `{CRC : Crc32c}.
Implicit Types (s : Sosofs D) (m : Items).

(** A volume in a transaction whose items are sound. *)
Record en_curso s (h : nat) m (X : list N) : Prop := {
  ec_vista : vista s h m X;
  ec_wf : bien_formado m (next_inode s);
  ec_next : next_inode s < U64;
}.
Lemma en_curso_quiet s s' h m X : quiet s s' -> en_curso s h m X -> en_curso s' h m X.
Proof.
  intros Hq []. split; [by eapply vista_quiet|..]; by rewrite (quiet_next s s' Hq).
Qed.
Lemma en_curso_root s h m X : en_curso s h m X -> 1 < next_inode s.
Proof. intros [_ [(st & (p & Hp & _) & _) Hnx _ _ _ _] _]. by apply Hnx in Hp. Qed.
Lemma inodo_lt s h m X ino st : en_curso s h m X -> inodo m ino st -> ino < next_inode s.
Proof. intros [_ [_ Hnx _ _ _ _] _] (p & Hp & _). by apply Hnx in Hp. Qed.
Lemma inodo_wf s h m X ino st : en_curso s h m X -> inodo m ino st -> inode_item_wf st.
Proof.
  intros _ (p & _ & <-). unfold inode_item_wf, inode_item_read. simpl.
  split_and!; [apply (field_lt _ 1)|apply (field_lt _ 8)|apply (field_lt _ 8)].
Qed.

Lemma no_io e : ¬ io_err (D := D) e.
Proof. intros [_ Hf]. by apply reliable in Hf. Qed.
Lemma space_no_space e : space_err (D := D) e -> e = NoSpace.
Proof. intros [?|?%no_io]; done. Qed.

(** *** A directory *)
Definition mkdir_fail m dir name (e : FsError) : Prop :=
  e = NoSpace ∨ check_fail m dir e ∨ (e = Exists_ ∧ exists k c, nombra m dir name k c) ∨
  (e = NameTooLong ∧ ¬ nombre_valido name).

Lemma lookup_fail_absent m dir name e : lookup_fail m dir name e -> nombre_valido name -> sin_nombre m dir name.
Proof. intros [[_ Hl]|(_ & _ & Hn)] [_ Hv]; [lia|done]. Qed.

Lemma wp_nuevo_inode Q h m X (Φ : N -> Sosofs D -> Prop) s : en_curso s h m X -> next_inode s + 1 < U64 ->
  (vista (set_next_inode (next_inode s + 1) s) h m X -> Φ (next_inode s) (set_next_inode (next_inode s + 1) s)) ->
  wp Q nuevo_inode Φ s.
Proof.
  intros [Hvi _ _] Hn HΦ. unfold nuevo_inode. wp_steps. apply wp_add64; [done|]. wp_steps. apply HΦ. by apply vista_modify.
Qed.

Lemma mkdir_spec n fuel h m X dir name mtime (Φ : N -> Sosofs D -> Prop) s :
  en_curso s h m X -> (h + 2 <= fuel)%nat -> (h + 2 <= 255)%nat -> next_inode s + 1 < U64 ->
  (size m + 1 < n)%nat -> N.of_nat n <= U64 ->
  (forall m' s', es_dir m dir -> sin_nombre m dir name -> nombre_valido name ->
     enlaza (<[Key.inode (next_inode s) := inode_payload (mkInodeItem FT_DIR 0 mtime)]> m) dir name (next_inode s) m' ->
     vista s' (h + 2) m' X -> sigue s X s' -> dirty s' = true -> next_inode s' = next_inode s + 1 -> Φ (next_inode s) s') ->
  wp (mkdir_fail m dir name) (mkdir_inner n fuel dir name mtime) Φ s.
Proof.
  intros Hec Hf Hh Hnx Hn Hu HΦ. unfold mkdir_inner. wp_steps.
  eapply wp_mono; [eapply (wp_v_check fuel h m X dir (fun _ s' => quiet s s' ∧ es_dir m dir)); [lia|apply Hec|by split]| |].
  { intros e [[]%no_io|He]. right. by left. }
  intros [] s1 [Hq1 Hdir]. wp_steps. pose proof (en_curso_quiet _ _ _ _ _ Hq1 Hec) as Hec1.
  eapply wp_v_lookup_value; [|apply Hec1|]; [lia|]. intros r s2 Hq2 Hr.
  destruct r as [e|c]; wp_steps; [|right; right; left; destruct Hr as [_ [k Hk]]; split; [done|by exists k, c]].
  pose proof (quiet_trans _ _ _ Hq1 Hq2) as Hq. pose proof (en_curso_quiet _ _ _ _ _ Hq Hec) as Hec2.
  rewrite <- (quiet_next s s2 Hq) in HΦ, Hnx.
  eapply wp_nuevo_inode; [exact Hec2|done|]. intros Hvi3. set (s3 := set_next_inode _ s2) in *. wp_steps.
  eapply wp_mono; [eapply (wp_v_put_inode fuel h m X _ _ (fun _ s' => vista s' (S h) _ X ∧ sigue s3 X s' ∧ dirty s' = true ∧
    next_inode s' = next_inode s2 + 1)); [lia|lia|exact Hvi3|lia|done]| |].
  { intros e' He%space_no_space. by left. }
  intros [] s4 (Hvi4 & Hsg4 & _ & Hnx4). wp_steps.
  eapply wp_mono; [eapply (wp_v_insert_dirent n fuel (S h) _ X dir name (next_inode s2) (fun _ s' => nombre_valido name ∧
    exists m', enlaza _ dir name (next_inode s2) m' ∧ vista s' (S (S h)) m' X ∧ sigue s4 X s' ∧ dirty s' = true ∧
    next_inode s' = next_inode s2 + 1)); [lia|lia|exact Hvi4| | |done|]| |].
  - destruct Hdir as (st & Hst & _). pose proof (inodo_lt _ _ _ _ _ _ Hec2 Hst). lia.
  - rewrite map_size_insert. destruct (m !! _); simpl; lia.
  - intros off s5 Hv Ho Hfree Hvi5 Hsg5 Hd5 Hnx5. split; [done|]. eexists. split; [exists off; split_and!; [exact Ho|exact Hfree|reflexivity]|]. split_and!; [done|done|done|congruence].
  - intros e' [He%space_no_space|He]; [by left|]. right. right. by right.
  - intros [] s5 (Hv & m' & Hen & Hvi5 & Hsg5 & Hd5 & Hnx5). wp_steps. apply (HΦ m').
    + done.
    + by eapply lookup_fail_absent.
    + done.
    + done.
    + by replace (h + 2)%nat with (S (S h)) by lia.
    + eapply sigue_trans; [by apply (quiet_sigue s s2)| |done..].
      eapply (sigue_trans s2 X s4); [exact (sigue_next _ _ _ _ Hsg4)|exact Hsg5|done..].
    + done.
    + done.
Qed.

(** *** The modification time *)
Definition con_mtime (st : InodeItem) (mtime : N) : InodeItem := mkInodeItem (i_file_type st) (i_size st) mtime.

Lemma put_mtime_spec fuel h m X ino mtime (Φ : unit -> Sosofs D -> Prop) s :
  vista s h m X -> (h < fuel)%nat -> (h < 255)%nat -> ino < U64 ->
  (forall st s', inodo m ino st -> vista s' (S h) (<[Key.inode ino := inode_payload (con_mtime st mtime)]> m) X ->
     sigue s X s' -> dirty s' = true -> next_inode s' = next_inode s -> Φ tt s') ->
  wp (fun e => e = NoSpace ∨ (e = NotFound ∧ forall st, ¬ inodo m ino st)) (set_mtime_inner fuel ino mtime) Φ s.
Proof.
  intros Hvi Hf Hh Hino HΦ. unfold set_mtime_inner. wp_steps.
  eapply wp_mono; [eapply (wp_v_stat fuel h m X ino (fun st s' => quiet s s' ∧ inodo m ino st)); [done..|by split]| |].
  { intros e [[]%no_io|He]. by right. }
  intros st s1 [Hq Hst]. cbv beta.
  eapply wp_mono; [eapply (wp_v_put_inode fuel h m X ino _ Φ); [done|done|by eapply vista_quiet|done|]| |done].
  - intros s2 Hvi2 Hsg Hd Hnx. apply (HΦ st); [done|done| |done|rewrite Hnx; by apply quiet_next].
    eapply sigue_trans; [by apply (quiet_sigue s s1 X)|exact Hsg|done..].
  - intros e He%space_no_space. by left.
Qed.

(** *** Moving a name *)
Definition rename_fail m od on nd nn (e : FsError) : Prop :=
  e = NoSpace ∨ check_fail m od e ∨ check_fail m nd e ∨ (e = Exists_ ∧ exists k c, nombra m nd nn k c) ∨
  (e = NotFound ∧ sin_nombre m od on) ∨ (e = NameTooLong ∧ (¬ nombre_valido nn ∨ ¬ nombre_valido on)).

Definition renombrado m od on nd nn mtime m' : Prop :=
  exists k ino st m1, nombra m od on k ino ∧ inodo m ino st ∧ enlaza (delete k m) nd nn ino m1 ∧
    m' = <[Key.inode ino := inode_payload (con_mtime st mtime)]> m1.

Lemma lenN_pos (l : list byte) : l ≠ [] -> 0 < lenN l.
Proof. destruct l; [done|]. rewrite lenN_cons. lia. Qed.

Lemma rename_spec n fuel h m X od on nd nn mtime (Φ : unit -> Sosofs D -> Prop) s :
  en_curso s h m X -> (h + 2 <= fuel)%nat -> (h + 2 <= 255)%nat -> (size m < n)%nat -> N.of_nat n <= U64 ->
  (forall m' s', es_dir m od -> es_dir m nd -> sin_nombre m nd nn -> nombre_valido nn ->
     renombrado m od on nd nn mtime m' ->
     vista s' (h + 2) m' X -> sigue s X s' -> dirty s' = true -> next_inode s' = next_inode s -> Φ tt s') ->
  wp (rename_fail m od on nd nn) (rename_inner n fuel od on nd nn mtime) Φ s.
Proof.
  intros Hec Hf Hh Hn Hu HΦ. unfold rename_inner. wp_steps.
  eapply wp_mono; [eapply (wp_v_check fuel h m X od (fun _ s' => quiet s s' ∧ es_dir m od)); [lia|apply Hec|by split]| |].
  { intros e [[]%no_io|He]. right. by left. }
  intros [] s1 [Hq1 Hod]. wp_steps. pose proof (en_curso_quiet _ _ _ _ _ Hq1 Hec) as Hec1.
  eapply wp_mono; [eapply (wp_v_check fuel h m X nd (fun _ s' => quiet s1 s' ∧ es_dir m nd)); [lia|apply Hec1|by split]| |].
  { intros e [[]%no_io|He]. right. right. by left. }
  intros [] s2 [Hq2 Hnd]. wp_steps. pose proof (quiet_trans _ _ _ Hq1 Hq2) as Hq12.
  case_bool_decide as Hnn; cbn [orb].
  { wp_steps. do 5 right. split; [done|left]. rewrite Hnn. by intros [? _]. }
  case_bool_decide as Hon; cbn [orb].
  { wp_steps. do 5 right. split; [done|right]. rewrite Hon. by intros [? _]. }
  apply lenN_pos in Hnn, Hon. wp_steps. pose proof (en_curso_quiet _ _ _ _ _ Hq12 Hec) as Hec2.
  eapply wp_v_lookup_value; [|apply Hec2|]; [lia|]. intros r s3 Hq3 Hr.
  destruct r as [e|c]; wp_steps; [|do 3 right; left; destruct Hr as [_ [k Hk]]; split; [done|by exists k, c]].
  pose proof (quiet_trans _ _ _ Hq12 Hq3) as Hq13. pose proof (en_curso_quiet _ _ _ _ _ Hq13 Hec) as Hec3.
  eapply wp_mono; [eapply (wp_v_lookup fuel h m X od on (fun c s' => quiet s3 s' ∧ exists k, nombra m od on k c)); [lia|apply Hec3|]| |].
  { intros k c s' Hq _ Hk. split; [done|by exists k]. }
  { intros e' [[]%no_io|[[-> Hl]|(-> & _ & Hno)]]; [do 5 right; split; [done|right; intros [_ ?]; lia]|].
    do 4 right. by left. }
  intros ino s4 [Hq4 [k0 Hk0]]. wp_steps. pose proof (quiet_trans _ _ _ Hq13 Hq4) as Hq14.
  pose proof (en_curso_quiet _ _ _ _ _ Hq14 Hec) as Hec4.
  eapply wp_mono; [eapply (wp_v_dirent_key fuel h m X od on (fun k s' => quiet s4 s' ∧ nombra m od on k ino)); [lia|apply Hec4|]| |].
  { intros k c' s' Hq Hk. split; [done|]. pose proof (bf_names _ _ (ec_wf _ _ _ _ Hec) _ _ _ _ _ _ Hk0 Hk) as <-.
    by destruct (nombra_fun _ _ _ _ _ _ _ _ Hk0 Hk) as (_ & _ & ->). }
  { intros e' [[]%no_io|[-> Hno]]. do 4 right. by left. }
  intros k s5 [Hq5 Hk]. wp_steps. pose proof (quiet_trans _ _ _ Hq14 Hq5) as Hq15.
  pose proof (en_curso_quiet _ _ _ _ _ Hq15 Hec) as Hec5. destruct Hk as (p & Hkp & Hki & Hkk & Hkn & Hkc).
  assert (nombra m od on k ino) as Hk by by exists p.
  eapply wp_mono; [eapply (wp_v_delete fuel h m X k (fun _ s' => vista s' h (delete k m) X ∧ sigue s5 X s' ∧
    next_inode s' = next_inode s5)); [lia|apply Hec5|done]| |].
  { intros e' [He%space_no_space|[_ Hno]]; [by left|]. rewrite Hkp in Hno. done. }
  intros [] s6 (Hvi6 & Hsg6 & Hnx6). wp_steps.
  eapply wp_mono; [eapply (wp_v_insert_dirent n fuel h (delete k m) X nd nn ino (fun _ s' => nombre_valido nn ∧
    exists m1, enlaza (delete k m) nd nn ino m1 ∧ vista s' (S h) m1 X ∧ sigue s6 X s' ∧ next_inode s' = next_inode s6));
    [lia|lia|exact Hvi6| | |done|]| |].
  - destruct Hnd as (st & Hst & _). pose proof (inodo_lt _ _ _ _ _ _ Hec Hst). pose proof (ec_next _ _ _ _ Hec). lia.
  - rewrite map_size_delete. destruct (m !! k); simpl; lia.
  - intros off s7 Hv Ho Hfree Hvi7 Hsg7 _ Hnx7. split; [done|]. eexists.
    split; [exists off; split_and!; [exact Ho|exact Hfree|reflexivity]|]. done.
  - intros e' [He%space_no_space|[-> He]]; [by left|]. do 5 right. split; [done|by left].
  - intros [] s7 (Hv & m1 & Hen & Hvi7 & Hsg7 & Hnx7). cbv beta.
    destruct (bf_entry _ _ (ec_wf _ _ _ _ Hec) _ _ _ _ Hk) as (_ & _ & _ & st & Hst).
    eapply wp_mono; [eapply (put_mtime_spec fuel (S h) m1 X ino mtime Φ); [exact Hvi7|lia|lia| |]| |done].
    + pose proof (inodo_lt _ _ _ _ _ _ Hec Hst). pose proof (ec_next _ _ _ _ Hec). lia.
    + intros st' s8 Hst' Hvi8 Hsg8 Hd8 Hnx8. eapply HΦ; [done|done|by eapply lookup_fail_absent|done| | | |done|].
      * exists k, ino, st', m1. split_and!; [done| |done|done]. destruct Hen as (off & _ & _ & ->).
        rewrite inodo_insert in Hst' by done. rewrite inodo_delete in Hst'; [done|]. apply inode_key_ne_kind. by rewrite Hkk.
      * by replace (h + 2)%nat with (S (S h)) by lia.
      * eapply (sigue_trans s X s5); [by apply quiet_sigue| |done..].
        eapply (sigue_trans s5 X s6); [done| |done..]. by eapply (sigue_trans s6 X s7).
      * rewrite Hnx8, Hnx7, Hnx6. by apply quiet_next.
    + intros e' [->|[-> Hno]]; [by left|]. exfalso. apply (Hno st). destruct Hen as (off & _ & _ & ->).
      rewrite inodo_insert by done. rewrite inodo_delete; [done|]. apply inode_key_ne_kind. by rewrite Hkk.
Qed.
End Names.
