(* ===== verification/SosofsRead.v ===== *)
(** * sosofs: the content of a file

    [archivo c m ino data]: the items [m] and the blocks [c] hold a regular
    file with the bytes [data]: its extents, in key order, cover it without
    gaps and every checksum matches. Reading a range of a file gives those
    bytes. *)
From S2P Require Import Prelude Texto BlockDev SosofsLayout SosofsAlloc SosofsTree SosofsNode SosofsStep SosofsTreeSpec SosofsScan SosofsFile SosofsTxn SosofsCommit SosofsVista SosofsDir SosofsNames.
Local Open Scope N_scope.
#[local] Set Default Proof Using "Type*".

(** ** Extents *)
Definition run (p : list byte) : list N :=
  blocks_from (e_start_block (extent_item_read p)) (e_block_count (extent_item_read p)).
Definition aporta (e : Item) : list N := if decide (k_kind e.1 = KIND_EXTENT) then run e.2 else [].
(** The data blocks of a volume. *)
Definition datos (m : Items) : list N := concat (aporta <$> map_to_list m).

Lemma concat_perm {A} (l l' : list (list A)) : l ≡ₚ l' -> concat l ≡ₚ concat l'.
Proof. induction 1; simpl; [done|by f_equiv|solve_Permutation|by etransitivity]. Qed.

Lemma datos_insert m k p : m !! k = None -> datos (<[k := p]> m) ≡ₚ aporta (k, p) ++ datos m.
Proof.
  intros Hk. unfold datos. rewrite (concat_perm _ (aporta <$> ((k, p) :: map_to_list m))); [done|].
  by apply fmap_Permutation, map_to_list_insert.
Qed.
Lemma datos_delete m k p : m !! k = Some p -> datos m ≡ₚ aporta (k, p) ++ datos (delete k m).
Proof.
  intros Hk. rewrite <- datos_insert by apply lookup_delete_eq. by rewrite insert_delete_id.
Qed.
Lemma datos_insert_other m k p : k_kind k ≠ KIND_EXTENT -> datos (<[k := p]> m) ≡ₚ datos m.
Proof.
  intros Hk. assert (forall q, aporta (k, q) = []) as Ha by (intros q; unfold aporta; simpl; by rewrite decide_False).
  destruct (m !! k) as [q|] eqn:E.
  - rewrite <- insert_delete_eq, datos_insert by apply lookup_delete_eq. by rewrite (datos_delete m k q E), !Ha.
  - rewrite datos_insert by done. by rewrite Ha.
Qed.
Lemma datos_delete_other m k : k_kind k ≠ KIND_EXTENT -> datos (delete k m) ≡ₚ datos m.
Proof.
  intros Hk. destruct (m !! k) as [q|] eqn:E; [|by rewrite delete_id].
  rewrite (datos_delete m k q E). unfold aporta. simpl. by rewrite decide_False.
Qed.
Lemma run_datos m k p j : m !! k = Some p -> k_kind k = KIND_EXTENT -> j ∈ run p -> j ∈ datos m.
Proof.
  intros Hk Hkind Hj. rewrite (datos_delete m k p Hk). apply elem_of_app. left. unfold aporta. simpl. by rewrite decide_True.
Qed.

Lemma tramo_unique (m : Items) min max l l' : tramo m min max l -> tramo m min max l' -> l = l'.
Proof.
  intros [Hs Hl] [Hs' Hl']. revert l' Hs' Hl'.
  assert (forall a b : list Item, ksorted a -> ksorted b -> (forall e, e ∈ a <-> e ∈ b) -> a = b) as Huniq.
  { induction a as [|x a IH]; intros [|y b] Ha Hb Hab; [done| | |].
    - assert (y ∈ []) by (apply Hab; by left). set_solver.
    - assert (x ∈ []) by (apply Hab; by left). set_solver.
    - apply ksorted_cons in Ha as [Ha Hax], Hb as [Hb Hby]. rewrite Forall_forall in Hax, Hby.
      assert (x = y) as ->.
      { assert (x ∈ y :: b) as [->|Hx]%elem_of_cons by (apply Hab; by left); [done|].
        assert (y ∈ x :: a) as [->|Hy]%elem_of_cons by (apply Hab; by left); [done|].
        specialize (Hax y Hy). specialize (Hby x Hx). unfold above in *.
        destruct (key_lt_irrefl x.1). by eapply key_lt_trans. }
      f_equal. apply IH; [done|done|]. intros e. specialize (Hab e). rewrite !elem_of_cons in Hab. split; intros He.
      + destruct Hab as [[->|] _]; [by right| |done]. specialize (Hax y He). by apply key_lt_irrefl in Hax.
      + destruct Hab as [_ [->|]]; [by right| |done]. specialize (Hby y He). by apply key_lt_irrefl in Hby. }
  intros l' Hs' Hl'. apply Huniq; [done|done|]. intros [k p]. by rewrite Hl, Hl'.
Qed.

Section File.
Context `{CRC : Crc32c}.

(** What the blocks of an extent hold. *)
Definition trozo (c : N -> Block) (p : list byte) : list byte :=
  range_content c (e_start_block (extent_item_read p)) (N.to_nat (e_block_count (extent_item_read p))).
Definition extent_ok (c : N -> Block) (p : list byte) : Prop :=
  1 <= e_block_count (extent_item_read p) <= EXTENT_MAX_BLOCKS ∧ crc32c (trozo c p) = e_crc (extent_item_read p).
Definition cabida (p : list byte) : N := e_block_count (extent_item_read p) * BLOCK_SIZE.

(** The extents [exts] hold [data] from file offset [off] on. *)
Fixpoint tiras (c : N -> Block) (off : N) (data : list byte) (exts : list Item) : Prop :=
  match exts with
  | [] => data = []
  | e :: r =>
      data ≠ [] ∧ k_offset e.1 = off ∧ extent_ok c e.2 ∧
      (exists resto, trozo c e.2 = take (N.to_nat (cabida e.2)) data ++ resto) ∧
      tiras c (off + cabida e.2) (drop (N.to_nat (cabida e.2)) data) r
  end.

Definition extents_de (m : Items) (ino : N) (exts : list Item) : Prop :=
  tramo m (mkKey ino KIND_EXTENT 0) (mkKey ino KIND_EXTENT U64_MAX) exts.

Definition archivo (c : N -> Block) (m : Items) (ino : N) (data : list byte) : Prop :=
  exists st exts, inodo m ino st ∧ i_file_type st = FT_FILE ∧ i_size st = lenN data ∧
    extents_de m ino exts ∧ tiras c 0 data exts.

(** The same without asking for the checksums: what a read finds, whether or not
    it is what was written. *)
Definition sana (c : N -> Block) (e : Item) : Prop := crc32c (trozo c e.2) = e_crc (extent_item_read e.2).
Fixpoint tiras_crudas (c : N -> Block) (off : N) (data : list byte) (exts : list Item) : Prop :=
  match exts with
  | [] => data = []
  | e :: r =>
      data ≠ [] ∧ k_offset e.1 = off ∧ 1 <= e_block_count (extent_item_read e.2) <= EXTENT_MAX_BLOCKS ∧
      (exists resto, trozo c e.2 = take (N.to_nat (cabida e.2)) data ++ resto) ∧
      tiras_crudas c (off + cabida e.2) (drop (N.to_nat (cabida e.2)) data) r
  end.
Definition archivo_crudo (c : N -> Block) (m : Items) (ino : N) (data : list byte) : Prop :=
  exists st exts, inodo m ino st ∧ i_file_type st = FT_FILE ∧ i_size st = lenN data ∧
    extents_de m ino exts ∧ tiras_crudas c 0 data exts.
Lemma tiras_sanas c exts : forall off data, tiras c off data exts <-> tiras_crudas c off data exts ∧ Forall (sana c) exts.
Proof.
  induction exts as [|e r IH]; intros off data; simpl; [by split; [intros ->|intros [-> _]]|]. rewrite IH, Forall_cons. unfold extent_ok, sana. tauto.
Qed.
Lemma archivo_sano c m ino data : archivo c m ino data <->
  archivo_crudo c m ino data ∧ forall exts, extents_de m ino exts -> Forall (sana c) exts.
Proof.
  split.
  - intros (st & exts & H1 & H2 & H3 & H4 & [H5 H6]%tiras_sanas). split; [by exists st, exts|]. intros exts' H7. by rewrite (tramo_unique _ _ _ _ _ H7 H4).
  - intros [(st & exts & H1 & H2 & H3 & H4 & H5) H6]. exists st, exts. split_and!; try done. apply tiras_sanas. split; [done|by apply H6].
Qed.

Lemma trozo_ext c c' p : (forall j, j ∈ run p -> c' j = c j) -> trozo c' p = trozo c p.
Proof. intros Hc. apply range_content_ext. intros j Hj. apply Hc, elem_of_blocks_from. lia. Qed.

Lemma tiras_ext c c' exts : (forall e j, e ∈ exts -> j ∈ run e.2 -> c' j = c j) ->
  forall off data, tiras c off data exts -> tiras c' off data exts.
Proof.
  induction exts as [|e r IH]; intros Hc off data; simpl; [done|]. intros (H1 & H2 & H3 & H5 & H6).
  assert (trozo c' e.2 = trozo c e.2) as Ht by (apply trozo_ext; intros; eapply Hc; [by left|done]).
  unfold extent_ok. rewrite Ht. split; [done|]. split; [done|]. split; [done|]. split; [done|]. apply IH; [|done]. intros e' j He. apply Hc. by right.
Qed.

Lemma extents_kind m ino exts e : extents_de m ino exts -> e ∈ exts -> m !! e.1 = Some e.2 ∧ k_inode e.1 = ino ∧ k_kind e.1 = KIND_EXTENT.
Proof.
  intros [_ He]. destruct e as [k p]. intros (Hk & Hr)%He. apply key_between in Hr as (H1 & H2 & _). done.
Qed.

(** A file does not depend on other blocks or other objects. *)
Lemma archivo_frame c c' m m' ino data :
  (forall j, j ∈ datos m -> c' j = c j) -> (forall k, k_inode k = ino -> k_kind k ≠ KIND_DIRENT -> m' !! k = m !! k) ->
  archivo c m ino data -> archivo c' m' ino data.
Proof.
  intros Hc Hm (st & exts & (p & Hp & Hst) & Ht & Hs & Hex & Hti). exists st, exts. split_and!; try done.
  - exists p. split; [|done]. by rewrite Hm.
  - destruct Hex as [Hso Hex]. split; [done|]. intros k q. rewrite Hex, !key_between. split.
    + intros (Hk & H1 & H2 & H3). rewrite Hm; [done|done|]. by rewrite H2.
    + intros (Hk & H1 & H2 & H3). rewrite Hm in Hk; [done|done|]. by rewrite H2.
  - eapply tiras_ext; [|exact Hti]. intros e j He Hj. destruct (extents_kind _ _ _ _ Hex He) as (Hk & _ & Hkind).
    apply Hc. by eapply run_datos.
Qed.
End File.

(** ** Reading *)
Section Read.
Context {D : Type} `{BD : BlockDevice D} `{BS : !BlockDeviceSpec D} `{CRC : Crc32c}.
Implicit Types (s : Sosofs D) (m : Items).

Lemma wp_dev_reads b n (Φ : list byte -> Sosofs D -> Prop) s :
  dev_ok (dev s) -> b + n <= block_count (dev s) ->
  (forall s', quiet s s' -> Φ (range_content (blk s) b (N.to_nat n)) s') ->
  wp io_err (dev_op (read_blocks b (n * BLOCK_SIZE))) Φ s.
Proof.
  intros Hd Hb HΦ. unfold wp, dev_op, zoom.
  pose proof (read_blocks_spec (dev s) b n Hd) as [Hsame Hres]. pose proof (read_blocks_outcome (dev s) b n Hd Hb) as Hans.
  destruct (read_blocks b (n * BLOCK_SIZE) (dev s)) as [[bs|e| |] d'] eqn:E; simpl in *; try done.
  destruct (Hres bs eq_refl) as [-> _]. by apply HΦ, quiet_set_dev.
Qed.

Lemma range_content_app (c : N -> Block) b n n' :
  range_content c b (n + n') = range_content c b n ++ range_content c (b + N.of_nat n) n'.
Proof.
  revert b. induction n as [|n IH]; intros b; simpl; [by rewrite N.add_0_r|].
  rewrite IH, <- (assoc_L (++)). do 3 f_equal. lia.
Qed.

Lemma wp_leer_bloques fuel start n max i (Φ : list byte -> Sosofs D -> Prop) s0 s :
  quiet s0 s -> dev_ok (dev s0) -> start + n <= block_count (dev s0) -> start + n < U64 -> 1 <= max -> i <= n ->
  (N.to_nat (n - i) < fuel)%nat ->
  (forall s', quiet s0 s' -> Φ (range_content (blk s0) start (N.to_nat n)) s') ->
  wp io_err (leer_bloques fuel start n max i (range_content (blk s0) start (N.to_nat i))) Φ s.
Proof.
  intros Hq Hd Hb Hu Hmax. revert i s Hq. induction fuel as [|fuel IH]; intros i s Hq Hi Hf HΦ; [lia|]. cbn [leer_bloques].
  destruct (N.ltb_spec i n) as [Hlt|Hge].
  - cbv zeta. wp_steps. apply wp_add64; [lia|]. wp_steps. destruct Hq as (Hq1 & (Hq2 & Hq3 & Hq4) & Hq5).
    assert (quiet s0 s) as Hq by done. apply wp_dev_reads; [done|lia|]. intros s1 Hq6. wp_steps.
    replace (range_content (blk s0) start (N.to_nat i) ++ range_content (blk s) (start + i) (N.to_nat (N.min (n - i) max)))
      with (range_content (blk s0) start (N.to_nat (i + N.min (n - i) max))).
    + apply IH; [by eapply quiet_trans|lia|lia|done].
    + rewrite N2Nat.inj_add, range_content_app, N2Nat.id. f_equal. apply range_content_ext. intros j _. symmetry.
      by apply quiet_blk.
  - wp_steps. replace i with n by lia. by apply HΦ.
Qed.

Lemma range_content_length (c : N -> Block) b n : (forall j, b <= j < b + N.of_nat n -> lenN (c j) = BLOCK_SIZE) ->
  lenN (range_content c b n) = N.of_nat n * BLOCK_SIZE.
Proof.
  revert b. induction n as [|n IH]; intros b Hc; [done|]. simpl. rewrite lenN_app, Hc, IH by (try intros; try apply Hc; lia). lia.
Qed.

(** The part of [0, len) of a range that the bytes up to [pos] fill. *)
Definition lleno (offset fin pos : N) : N := N.max offset (N.min pos fin) - offset.

Definition relleno (data out : list byte) (offset w : N) : list byte :=
  take (N.to_nat w) (drop (N.to_nat offset) data) ++ drop (N.to_nat w) out.

Lemma relleno_put data out offset w n : offset + (w + n) <= lenN data -> w + n <= lenN out ->
  exists t, slice (offset + w) n data = Some t ∧ put_slice w t (relleno data out offset w) = Some (relleno data out offset (w + n)).
Proof.
  intros Hd Ho. unfold slice. rewrite (proj2 (N.leb_le _ _)) by lia. eexists; split; [done|].
  unfold relleno. rewrite <- (take_drop (N.to_nat n) (drop (N.to_nat w) out)).
  rewrite (put_slice_app (take (N.to_nat w) (drop (N.to_nat offset) data)) (take (N.to_nat n) (drop (N.to_nat w) out))).
  - f_equal. rewrite !N2Nat.inj_add, drop_drop, <- (drop_drop data), (assoc_L (++)). f_equal.
    by rewrite take_take_drop.
  - rewrite lenN_take, lenN_drop. lia.
  - rewrite !lenN_take, !lenN_drop. lia.
Qed.

(** The range [offset, fin) meets the extent [e]. *)
Definition toca (offset fin : N) (e : Item) : Prop := offset < k_offset e.1 + cabida e.2 ∧ k_offset e.1 < fin.
(** One of the extents the range meets does not have its checksum. *)
Definition danado (c : N -> Block) (offset fin : N) (exts : list Item) (er : FsError) : Prop :=
  exists e, e ∈ exts ∧ toca offset fin e ∧ ¬ sana c e ∧ er = BadChecksum (e_start_block (extent_item_read e.2)).

Lemma wp_leer_extent s0 data out offset fin e resto (Φ : list byte * N -> Sosofs D -> Prop) s :
  quiet s0 s -> vol_ok s0 -> (forall j, j ∈ run e.2 -> in_vol s0 j) -> 1 <= e_block_count (extent_item_read e.2) <= EXTENT_MAX_BLOCKS ->
  trozo (blk s0) e.2 = take (N.to_nat (cabida e.2)) (drop (N.to_nat (k_offset e.1)) data) ++ resto ->
  k_offset e.1 < lenN data -> lenN data < 2 ^ 63 -> offset < fin -> fin <= lenN data -> fin - offset <= lenN out ->
  (forall s', quiet s0 s' -> (toca offset fin e -> sana (blk s0) e) ->
     let w := lleno offset fin (k_offset e.1 + cabida e.2) in Φ (relleno data out offset w, w) s') ->
  let w := lleno offset fin (k_offset e.1) in
  wp (fun er => io_err er ∨ danado (blk s0) offset fin [e] er) (leer_extent (lenN data) offset fin (relleno data out offset w, w) e) Φ s.
Proof.
  intros Hq Hv Hin [Hn1 Hn2] Htr Ha Hsz Hof Hfin Hout HΦ w. unfold leer_extent. cbv zeta in HΦ.
  set (ext := extent_item_read e.2) in *. set (a := k_offset e.1) in *. fold (trozo (blk s0) e.2) in *.
  assert (run e.2 = blocks_from (e_start_block ext) (e_block_count ext)) as Hrun by done.
  assert (cabida e.2 = e_block_count ext * BLOCK_SIZE) as Hcab by done.
  assert (e_start_block ext + e_block_count ext <= sb_block_count (sb s0)) as Hvol.
  { destruct (Hin (e_start_block ext + e_block_count ext - 1)) as [_ ?]; [rewrite Hrun; apply elem_of_blocks_from; lia|lia]. }
  unfold EXTENT_MAX_BLOCKS in *. cbv zeta.
  rewrite (proj2 (N.eqb_neq _ 0)), (proj2 (N.ltb_ge _ _)) by lia. cbn [orb]. wp_steps.
  apply wp_add64; [unfold BLOCK_SIZE, U64; lia|]. rewrite <- Hcab.
  assert (lleno offset fin a = N.max offset (N.min a fin) - offset) as Hw by done. fold w in Hw.
  assert (cabida e.2 <= 131072) as Hc32 by (rewrite Hcab; unfold BLOCK_SIZE; lia).
  assert (1 <= cabida e.2) as Hc1 by (rewrite Hcab; unfold BLOCK_SIZE; lia).
  destruct (N.leb_spec (a + cabida e.2) offset) as [Hl|Hl]; cbn [orb].
  { wp_steps. replace w with (lleno offset fin (a + cabida e.2)); [apply HΦ; [done|]; intros [Ht _]; unfold a in Hl; lia|]. unfold lleno. lia. }
  destruct (N.leb_spec fin a) as [Hr|Hr]; cbn [orb].
  { wp_steps. replace w with (lleno offset fin (a + cabida e.2)); [apply HΦ; [done|]; intros [_ Ht]; unfold a in Hr; lia|]. unfold lleno. lia. }
  wp_steps. pose proof (vol_small _ Hv) as Hsm. pose proof (vol_size _ Hv) as Hcnt. simpl id.
  eapply (wp_mono io_err); [|by left|intros ? ? HH; exact HH].
  eapply (wp_leer_bloques _ _ _ _ 0 _ s0 s Hq (vol_dev _ Hv)); [lia|unfold U64; lia|lia|lia|lia|]. intros s1 Hq1.
  change (range_content (blk s0) (e_start_block ext) (N.to_nat (e_block_count ext))) with (trozo (blk s0) e.2).
  destruct (N.eqb_spec (crc32c (trozo (blk s0) e.2)) (e_crc ext)) as [Hcrc|Hcrc]; cbn [negb].
  2: { apply wp_throw. right. exists e. split; [by left|]. split; [done|]. by split. }
  wp_steps. apply wp_sub64; [lia|]. wp_steps. cbv zeta.
  assert (lenN (trozo (blk s0) e.2) = cabida e.2) as Hlen.
  { unfold trozo. rewrite range_content_length.
    - rewrite Hcab, N2Nat.id. done.
    - intros j Hj. apply blk_length; [done|]. apply Hin. rewrite Hrun. apply elem_of_blocks_from. fold ext in Hj. lia. }
  set (d := take (N.to_nat (cabida e.2)) (drop (N.to_nat a) data)) in *.
  assert (lenN d = N.min (cabida e.2) (lenN data - a)) as Hd by (unfold d; by rewrite lenN_take, lenN_drop).
  assert (take (N.to_nat (N.min (lenN data - a) (lenN (trozo (blk s0) e.2)))) (trozo (blk s0) e.2) = d) as Hchunk.
  { rewrite Hlen, Htr. apply take_app_length'. unfold lenN in *. lia. }
  rewrite Hchunk. wp_steps. apply wp_sub64; [lia|]. rewrite Hd.
  set (cs := offset - a). set (ce := N.min (fin - a) (N.min (cabida e.2) (lenN data - a))).
  assert (cs < ce) as Hcs by (unfold cs, ce; lia). rewrite (proj2 (N.ltb_lt cs ce)) by done. cbv zeta.
  assert (w + (ce - cs) = lleno offset fin (a + cabida e.2)) as Hw'.
  { rewrite Hw. unfold lleno, cs, ce. lia. }
  assert (lenN (relleno data out offset w) = lenN out) as Hro.
  { unfold relleno. rewrite lenN_app, lenN_take, !lenN_drop, Hw. lia. }
  assert (lleno offset fin (a + cabida e.2) <= fin - offset) as Hle by (unfold lleno; lia).
  rewrite Hro, (proj2 (N.ltb_ge _ _)) by (rewrite Hw'; lia). wp_steps.
  destruct (relleno_put data out offset w (ce - cs)) as (t & Ht & Hput); [rewrite Hw'; lia..|].
  assert (slice cs (ce - cs) d = Some t) as Hsl.
  { rewrite <- Ht. unfold slice. rewrite Hd, !(proj2 (N.leb_le _ _)) by (rewrite ?Hw'; unfold ce; lia). f_equal.
    unfold d. rewrite skipn_firstn_comm, take_take, drop_drop. 
    replace (N.to_nat a + N.to_nat cs)%nat with (N.to_nat (offset + w)) by (rewrite Hw; unfold cs; lia).
    f_equal. unfold ce. lia. }
  rewrite Hsl. wp_steps. rewrite Hput. wp_steps. rewrite Hw'. by apply HΦ.
Qed.

Lemma drop_nil_ge (a : N) (l : list byte) : drop (N.to_nat a) l = [] -> lenN l <= a.
Proof. intros H. pose proof (lenN_drop a l) as Hl. rewrite H, lenN_nil in Hl. lia. Qed.

Lemma wp_leer_extents s0 data out offset fin (Φ : list byte * N -> Sosofs D -> Prop) exts : forall a s,
  quiet s0 s -> vol_ok s0 -> (forall e j, e ∈ exts -> j ∈ run e.2 -> in_vol s0 j) ->
  tiras_crudas (blk s0) a (drop (N.to_nat a) data) exts ->
  lenN data < 2 ^ 63 -> offset < fin -> fin <= lenN data -> fin - offset <= lenN out ->
  (forall s', quiet s0 s' -> (forall e, e ∈ exts -> toca offset fin e -> sana (blk s0) e) -> Φ (relleno data out offset (fin - offset), fin - offset) s') ->
  wp (fun er => io_err er ∨ danado (blk s0) offset fin exts er) (mfold (leer_extent (lenN data) offset fin)
    (relleno data out offset (lleno offset fin a), lleno offset fin a) exts) Φ s.
Proof.
  induction exts as [|e exts IH]; intros a s Hq Hv Hin Hti Hsz Hof Hfin Hout HΦ; simpl in *.
  - apply drop_nil_ge in Hti. wp_steps. replace (lleno offset fin a) with (fin - offset) by (unfold lleno; lia). apply HΦ; [done|]. intros e He. by apply elem_of_nil in He.
  - destruct Hti as (Hne & Ha & Hok & (resto & Htr) & Hti). apply wp_bind. rewrite <- Ha.
    eapply wp_mono; [eapply (wp_leer_extent s0 data out offset fin e resto (fun r s' => quiet s0 s' ∧ (toca offset fin e -> sana (blk s0) e) ∧
      r = (relleno data out offset (lleno offset fin (a + cabida e.2)), lleno offset fin (a + cabida e.2)))); [exact Hq|exact Hv| |exact Hok|rewrite Ha; exact Htr| |done|done|done|done|]| |].
    + intros j. apply Hin. by left.
    + rewrite Ha. destruct (N.lt_ge_cases a (lenN data)) as [|Hge]; [done|]. destruct Hne. apply drop_ge. unfold lenN in Hge. lia.
    + intros s1 Hq1 Hs1. rewrite Ha. by split_and!.
    + intros er [Her|(x & ->%list_elem_of_singleton & Hx)]; [by left|]. right. exists e. split; [by left|done].
    + intros r s1 (Hq1 & Hs1 & ->). rewrite drop_drop, <- N2Nat.inj_add in Hti.
      eapply wp_mono; [apply (IH (a + cabida e.2) s1)| |].
      1-2,4-8: done.
      * intros e' j He. apply Hin. by right.
      * intros s2 Hq2 Hs2. apply HΦ; [done|]. intros e' [->|He']%elem_of_cons; auto.
      * intros er [Her|(x & Hx & Hy)]; [by left|]. right. exists x. split; [by right|done].
      * by intros.
Qed.

(** Reading a range of what the extents of a file hold. *)
Definition lectura_mala (c : N -> Block) (m : Items) (ino offset len lo lf : N) (er : FsError) : Prop :=
  io_err (D := D) er ∨ (er = Corrupt ∧ (lo < len ∨ lf < offset + len)) ∨
  exists exts, extents_de m ino exts ∧ danado c offset (offset + len) exts er.

Lemma read_range_crc fuel h m X ino data offset len out s :
  (h < fuel)%nat -> vista s h m X -> datos m ⊆ X -> archivo_crudo (blk s) m ino data -> lenN data < 2 ^ 63 -> lenN out < 2 ^ 63 ->
  wp (lectura_mala (blk s) m ino offset len (lenN out) (lenN data)) (read_file_range fuel ino offset len out)
    (fun res s' => quiet s s' ∧ len <= lenN out ∧ offset + len <= lenN data ∧ res = relleno data out offset len ∧
       forall exts e, extents_de m ino exts -> e ∈ exts -> 0 < len -> toca offset (offset + len) e -> sana (blk s) e) s.
Proof.
  intros Hf Hvi HX (st & exts & Hst & Hft & Hsize & Hex & Hti) Hsz Hlo. unfold read_file_range, lectura_mala.
  destruct (N.ltb_spec (lenN out) len) as [Hlt|Hout]; [apply wp_throw; right; left; split; [done|by left]|]. apply wp_bind.
  eapply wp_mono; [eapply (wp_v_stat fuel h m X ino (fun st' s' => quiet s s' ∧ st' = st)); [done..|]| |].
  { intros st' s' Hq Hst'. split; [done|]. by eapply inodo_fun. }
  { intros e [He|[_ Hno]]; [by left|]. by apply Hno in Hst. }
  intros st' s1 [Hq ->]. rewrite Hft. change (FT_FILE =? FT_FILE) with true. cbn [negb]. cbv zeta. rewrite Hsize.
  destruct (N.ltb_spec (lenN data) offset) as [Hlt|Hof]; [apply wp_throw; right; left; split; [done|right; lia]|].
  apply wp_bind, wp_add64; [unfold U64; lia|].
  destruct (N.ltb_spec (lenN data) (offset + len)) as [Hlt|Hr]; [apply wp_throw; right; left; split; [done|by right]|].
  destruct (N.eqb_spec len 0) as [->|Hlen].
  { apply wp_ret. split_and!; try done. }
  cbn [Key.range fst snd]. apply wp_bind.
  eapply wp_mono; [eapply (wp_v_scan fuel h m X _ _ (fun o s' => quiet s s' ∧ o = exts)); [done|by eapply vista_quiet|]|by left|].
  { intros o s' Hq' Ho. split; [by eapply quiet_trans|]. by eapply tramo_unique. }
  intros o s2 [Hq2 ->]. apply wp_bind. pose proof (vista_owned _ _ _ _ Hvi) as Ho.
  assert (lleno offset (offset + len) 0 = 0) as Hl0 by (unfold lleno; lia).
  assert (relleno data out offset 0 = out) as Hr0 by done.
  pose proof (wp_leer_extents s data out offset (offset + len) (fun r s' => quiet s s' ∧ r = (relleno data out offset len, len) ∧
    forall e, e ∈ exts -> toca offset (offset + len) e -> sana (blk s) e) exts 0 s2) as Hw. rewrite Hl0, Hr0 in Hw.
  eapply wp_mono; [apply Hw; clear Hw| |].
  - done.
  - by eapply vista_vol.
  - intros e j He Hj. destruct (extents_kind _ _ _ _ Hex He) as (Hk & _ & Hkind).
    eapply owned_elem; [exact Ho|]. apply HX. by eapply run_datos.
  - done.
  - done.
  - lia.
  - lia.
  - lia.
  - intros s' Hq' Hsa. split; [done|]. split; [by replace (offset + len - offset) with len by lia|done].
  - intros er [Her|Her]; [by left|]. right. right. by exists exts.
  - intros [o w] s3 (Hq3 & [= -> ->] & Hsa). cbv beta iota. rewrite N.eqb_refl. cbn [negb]. apply wp_ret. split_and!; try done.
    intros exts' e Hex' He _. apply Hsa. by rewrite <- (tramo_unique _ _ _ _ _ Hex' Hex).
Qed.

(** What is not a file is not read. *)
Lemma read_range_no fuel h m X ino offset len out s : (h < fuel)%nat -> vista s h m X ->
  (forall st, inodo m ino st -> i_file_type st ≠ FT_FILE) ->
  wp (fun er => io_err (D := D) er ∨ (er = Corrupt ∧ lenN out < len) ∨ (er = NotFound ∧ forall st, ¬ inodo m ino st) ∨ (er = NotAFile ∧ exists st, inodo m ino st))
    (read_file_range fuel ino offset len out) (fun _ _ => False) s.
Proof.
  intros Hf Hvi Hno. unfold read_file_range. destruct (N.ltb_spec (lenN out) len) as [Hlt|Hout]; [apply wp_throw; right; by left|]. apply wp_bind.
  eapply wp_mono; [eapply (wp_v_stat fuel h m X ino (fun st' s' => inodo m ino st')); [done..|]| |].
  { by intros st' s' _ Hst'. }
  { intros e [He|He]; [by left|]. right. right. by left. }
  intros st s1 Hst. rewrite (proj2 (N.eqb_neq _ _)) by (by apply Hno). apply wp_throw. right. right. right. split; [done|by exists st].
Qed.

(** The bytes [offset, offset + len) of a sound file, at the front of the buffer. *)
Lemma read_range_spec fuel h m X ino data offset len out (Φ : list byte -> Sosofs D -> Prop) s :
  (h < fuel)%nat -> vista s h m X -> datos m ⊆ X -> archivo (blk s) m ino data -> lenN data < 2 ^ 63 -> lenN out < 2 ^ 63 ->
  offset + len <= lenN data -> len <= lenN out ->
  (forall s', quiet s s' -> Φ (relleno data out offset len) s') ->
  wp io_err (read_file_range fuel ino offset len out) Φ s.
Proof.
  intros Hf Hvi HX [Ha Hsa]%archivo_sano Hsz Hlo Hr Hout HΦ. eapply wp_mono; [by eapply read_range_crc| |].
  - intros er [Her|[(_ & [?|?])|(exts & Hex & e & He & _ & Hn & _)]]; [done|lia|lia|]. exfalso. apply Hn.
    specialize (Hsa exts Hex). rewrite Forall_forall in Hsa. by apply Hsa.
  - intros res s' (Hq & _ & _ & -> & _). by apply HΦ.
Qed.
End Read.
