(* ===== verification/SosofsData.v ===== *)
(** * sosofs: writing files

    The allocation and writing of extents, and the functional behaviour of
    [create_file_inner], [append_file_inner] and [unlink_inner]: the file holds
    the bytes asked for, the blocks of what was removed are released, and every
    other file keeps its content. *)
From S2P Require Import Prelude Texto BlockDev SosofsLayout SosofsAlloc SosofsTree SosofsNode SosofsStep SosofsTreeSpec SosofsScan SosofsFile SosofsTxn SosofsCow SosofsCommit SosofsVista SosofsDir SosofsNames SosofsRead.
Local Open Scope N_scope.
#[local] Set Default Proof Using "Type*".

Lemma concat_chunks n l : (0 < n)%nat -> forall fuel, (length l <= fuel)%nat -> concat (chunks fuel n l) = l.
Proof.
  intros Hn fuel. revert l. induction fuel as [|fuel IH]; intros l Hf; simpl; [destruct l; [done|simpl in Hf; lia]|].
  destruct l as [|b l]; [done|]. cbn [concat]. rewrite IH; [apply take_drop|]. rewrite length_drop. simpl in *. lia.
Qed.
Lemma concat_bloques l : concat (bloques_de l) = l.
Proof. apply concat_chunks; [unfold BLOCK_SIZE; lia|done]. Qed.

Lemma range_content_blocks (c : N -> Block) start bs :
  (forall i b, bs !! i = Some b -> c (start + N.of_nat i) = b) -> range_content c start (length bs) = concat bs.
Proof.
  revert start. induction bs as [|b bs IH]; intros start Hc; [done|]. simpl.
  pose proof (Hc 0%nat b eq_refl) as H0. change (N.of_nat 0) with 0 in H0. rewrite N.add_0_r in H0. rewrite H0.
  f_equal. apply IH. intros i b' Hi. rewrite <- (Hc (S i) b' Hi). f_equal. lia.
Qed.

Lemma zip_upto_elem {A} (bs : list A) i b : (i, b) ∈ zip (upto (lenN bs)) bs <-> bs !! N.to_nat i = Some b.
Proof.
  unfold upto, lenN. rewrite Nat2N.id. rewrite list_elem_of_lookup. setoid_rewrite lookup_zip_with_Some. split.
  - intros (j & a & b' & [= -> ->] & Ha & Hb). rewrite list_lookup_fmap in Ha. apply fmap_Some in Ha as (k & Hk & ->).
    apply lookup_seq in Hk as [-> _]. simpl. by rewrite Nat2N.id.
  - intros Hb. exists (N.to_nat i), i, b. split_and!; [done| |done]. rewrite list_lookup_fmap, lookup_seq_lt.
    + simpl. by rewrite N2Nat.id.
    + by eapply lookup_lt_Some.
Qed.
Lemma NoDup_zip_upto {A} (bs : list A) : NoDup (zip (upto (lenN bs)) bs).*1.
Proof.
  rewrite fst_zip.
  - unfold upto. apply NoDup_fmap_2; [intros ? ? ?; lia|]. apply NoDup_seq.
  - unfold upto, lenN. rewrite length_fmap, length_seq. lia.
Qed.

Section Blocks.
Context {D : Type} `{BD : BlockDevice D} `{BS : !BlockDeviceSpec D} `{CRC : Crc32c}.
Implicit Types (s : Sosofs D) (m : Items).

Lemma wp_escribir s0 A start n padded (Φ : unit -> Sosofs D -> Prop) s :
  step s0 A (blocks_from start n) s -> lenN padded = n * BLOCK_SIZE ->
  (forall s', step s0 A (blocks_from start n) s' -> s' = set_dev (dev s') s ->
     range_content (blk s') start (N.to_nat n) = padded -> Φ tt s') ->
  wp io_err (escribir_bloques start padded) Φ s.
Proof.
  intros Hst Hlen HΦ. pose proof (step_ok _ _ _ _ Hst) as Hv. destruct (bloques_de_spec _ _ Hlen) as [Hb Hn].
  rewrite Forall_forall in Hb. unfold escribir_bloques. set (bs := bloques_de padded) in *.
  assert (forall i b, (i, b) ∈ zip (upto (lenN bs)) bs -> start + i ∈ blocks_from start n ∧ lenN b = BLOCK_SIZE) as Hin.
  { intros i b Hi. apply zip_upto_elem in Hi. split; [|by eapply Hb, list_elem_of_lookup_2].
    apply lookup_lt_Some in Hi. apply elem_of_blocks_from. unfold lenN in Hn. lia. }
  apply (wp_mfor _ _ _ (fun pre s' => step s0 A (blocks_from start n) s' ∧ s' = set_dev (dev s') s ∧
    forall i b, (i, b) ∈ pre -> blk s' (start + i) = b)).
  - split_and!; [done|by destruct s|set_solver].
  - intros pre [i b] post s1 Heq (Hst1 & Hs1 & Hdone). cbn [fst snd]. wp_steps.
    destruct (Hin i b) as [Hi Hl]; [rewrite Heq; set_solver|].
    destruct (step_new _ _ _ _ Hst _ Hi) as [Hbi _]. destruct Hbi.
    pose proof (vol_small s Hv) as Hsm. rewrite (sbd_sb _ _ (step_same _ _ _ _ Hst)) in Hsm.
    apply wp_add64; [unfold U64; lia|].
    eapply wp_dev_write; [exact Hst1|done|done|]. intros s2 Hst2 Hw Ho2 Hs2. split_and!; [done| |].
    + rewrite Hs2 at 1. by rewrite Hs1.
    + intros j b' [Hj|[= -> ->]%list_elem_of_singleton]%elem_of_app; [|done].
      rewrite Ho2; [by apply Hdone|]. intros Hji. assert (j = i) as -> by lia.
      pose proof (NoDup_zip_upto bs) as Hnd. rewrite Heq, fmap_app in Hnd. apply NoDup_app in Hnd as (_ & Hnd & _).
      apply (Hnd i); [by apply list_elem_of_fmap; exists (i, b')|by left].
  - intros s' (Hst' & Hs' & Hdone). apply HΦ; [done|done|].
    replace (N.to_nat n) with (length bs) by (unfold lenN in Hn; lia). rewrite (range_content_blocks _ _ bs).
    + by apply concat_bloques.
    + intros i b Hi. apply Hdone, zip_upto_elem. by rewrite Nat2N.id.
Qed.

(** ** One extent *)
Definition ext_payload (start got : N) (padded : list byte) : list byte :=
  pad_payload (extent_item_bytes (mkExtentItem start got (crc32c padded))).

Lemma ext_payload_length start got padded : lenN (ext_payload start got padded) = ITEM_PAYLOAD.
Proof.
  apply pad_payload_length. unfold extent_item_bytes, u32, u64. rewrite !length_app, !le_bytes_length.
  unfold ITEM_PAYLOAD. lia.
Qed.
Lemma ext_payload_read start got padded : start < U64 -> got < 2 ^ 32 ->
  extent_item_read (ext_payload start got padded) = mkExtentItem start got (crc32c padded).
Proof. intros H1 H2. unfold ext_payload, pad_payload. by apply extent_item_read_bytes; [..|apply crc32c_lt]. Qed.

(** An extent just written: its blocks, and what of [resto] it holds. *)
Record puesto (c : N -> Block) (ino off : N) (resto : list byte) (e : Item) (n : N) : Prop := {
  pu_key : e.1 = mkKey ino KIND_EXTENT off;
  pu_ok : extent_ok c e.2;
  pu_n : n = N.min (lenN resto) (cabida e.2);
  pu_data : exists r, trozo c e.2 = take (N.to_nat (cabida e.2)) resto ++ r;
}.

Lemma wp_poner_extent fuel h m X ino off resto (Φ : N -> Sosofs D -> Prop) s :
  (h < fuel)%nat -> (h < 255)%nat -> vista s h m X -> ino < U64 -> off < U64 -> resto ≠ [] ->
  (forall e n s', puesto (blk s') ino off resto e n -> vista s' (S h) (<[e.1 := e.2]> m) (run e.2 ++ X) -> sigue s X s' ->
     dirty s' = true -> next_inode s' = next_inode s -> Φ n s') ->
  wp space_err (poner_extent fuel ino off resto) Φ s.
Proof.
  intros Hf Hh Hvi Hino Hoff Hne HΦ. unfold poner_extent. cbv zeta. wp_steps.
  set (want := N.min (div_ceil (lenN resto) BLOCK_SIZE) EXTENT_MAX_BLOCKS).
  assert (1 <= want <= 32) as Hwant.
  { assert (0 < lenN resto) as Hp by by apply lenN_pos. unfold want, EXTENT_MAX_BLOCKS.
    pose proof (div_ceil_mul (lenN resto) BLOCK_SIZE ltac:(done)). unfold BLOCK_SIZE in *. lia. }
  eapply wp_mono; [apply (wp_alloc_extent want (fun r s' => 1 <= r.2 <= 32 ∧ step s [] (blocks_from r.1 r.2) s' ∧
    tree_root s' = tree_root s ∧ dirty s' = true)); [by eapply vista_vol|lia|]|by left|].
  { intros b got s' Hgot Hst Hd _ Hr. simpl. split; [lia|done]. }
  intros [start got] s1 (Hgot & Hst1 & Hr1 & Hd1). cbn [fst snd] in *. wp_steps.
  set (chunk_len := N.min (lenN resto) (got * BLOCK_SIZE)).
  set (padded := take (N.to_nat chunk_len) resto ++ zeros (got * BLOCK_SIZE - chunk_len)).
  assert (lenN padded = got * BLOCK_SIZE) as Hpad.
  { unfold padded. rewrite lenN_app, lenN_zeros, lenN_take. unfold chunk_len. lia. }
  eapply wp_mono; [apply (wp_escribir s [] start got padded (fun _ s' => step s [] (blocks_from start got) s' ∧
    s' = set_dev (dev s') s1 ∧ range_content (blk s') start (N.to_nat got) = padded)); [done|done|done]|apply io_space|].
  intros [] s2 (Hst2 & Hs2 & Hrc). wp_steps.
  assert (start + got <= sb_block_count (sb s)) as Hvol.
  { destruct (step_new _ _ _ _ Hst2 (start + got - 1)) as [[_ ?] _]; [apply elem_of_blocks_from; lia|lia]. }
  pose proof (vol_small _ (vista_vol _ _ _ _ Hvi)) as Hsm.
  pose proof (ext_payload_read start got padded ltac:(unfold U64; lia) ltac:(lia)) as Hread.
  set (p := ext_payload start got padded) in *.
  assert (run p = blocks_from start got) as Hrun by (unfold run; by rewrite Hread).
  assert (cabida p = got * BLOCK_SIZE) as Hcab by (unfold cabida; by rewrite Hread).
  destruct (vista_take s h m (run p) X s2 Hvi) as [Hvi2 Hsg2]; [by rewrite Hrun|by rewrite Hs2|].
  fold (ext_payload start got padded). fold p.
  eapply wp_v_insert; [done|done|exact Hvi2|by split_and!|apply ext_payload_length|]. intros s3 Hvi3 Hsg3 Hd3 Hnx3. wp_steps.
  assert (trozo (blk s3) p = padded) as Htr.
  { rewrite (trozo_ext (blk s2)).
    - unfold trozo. by rewrite Hread.
    - intros j Hj. apply (sg_keep _ _ _ Hsg3). set_solver. }
  eapply (HΦ (mkKey ino KIND_EXTENT off, p) chunk_len); [| |by eapply (sigue_trans s X s2); [..|apply list_subseteq_app_r]|done|].
  - split; cbn [fst snd].
    + done.
    + unfold extent_ok. rewrite Htr, Hread. simpl. unfold EXTENT_MAX_BLOCKS. done.
    + by rewrite Hcab.
    + rewrite Htr, Hcab. unfold padded. exists (zeros (got * BLOCK_SIZE - chunk_len)). f_equal. unfold chunk_len.
      destruct (N.le_ge_cases (lenN resto) (got * BLOCK_SIZE)).
      * rewrite !take_ge; [done|unfold lenN in *; lia..].
      * by rewrite N.min_r.
  - done.
  - rewrite Hnx3. apply Hst2.
Qed.

(** ** The extents of a string of bytes *)
Definition sobre (exts : list Item) m : Items := list_to_map exts ∪ m.
Definition tramos (exts : list Item) : list N := concat ((fun e => run e.2) <$> exts).

(** Extents of [ino] laid one after another from offset [off], below [fin]. *)
Definition en_fila (ino off fin : N) (exts : list Item) : Prop :=
  ksorted exts ∧ forall e, e ∈ exts -> k_inode e.1 = ino ∧ k_kind e.1 = KIND_EXTENT ∧ off <= k_offset e.1 < fin.

Lemma en_fila_cons ino off n fin e exts : e.1 = mkKey ino KIND_EXTENT off -> 0 < n -> off + n <= fin ->
  en_fila ino (off + n) fin exts -> en_fila ino off fin (e :: exts).
Proof.
  intros He Hn Hfin [Hs Hin]. split.
  - apply ksorted_cons. split; [done|]. apply Forall_forall. intros x Hx. destruct (Hin x Hx) as (H1 & H2 & H3).
    unfold above, Key.lt. rewrite He. simpl. right. split; [done|]. right. split; [done|]. lia.
  - intros x [->|Hx]%elem_of_cons; [rewrite He; simpl; split_and!; [done|done|lia..]|].
    destruct (Hin x Hx) as (H1 & H2 & H3). split_and!; [done|done|lia..].
Qed.

Lemma sobre_cons e exts m : e.1 ∉ exts.*1 -> sobre exts (<[e.1 := e.2]> m) = sobre (e :: exts) m.
Proof.
  intros He. unfold sobre. destruct e as [k p]; simpl in *. rewrite <- insert_union_l, insert_union_r; [done|].
  by apply not_elem_of_list_to_map_1.
Qed.
Lemma sobre_lookup exts m k p : ksorted exts -> sobre exts m !! k = Some p <-> (k, p) ∈ exts ∨ ((k ∉ exts.*1) ∧ m !! k = Some p).
Proof.
  intros Hs. unfold sobre. rewrite lookup_union_Some_raw.
  rewrite <- (mapa_None exts k). fold (mapa exts). by rewrite (mapa_lookup_Some exts k p Hs).
Qed.
Lemma fila_first_notin ino off n fin k exts : en_fila ino (off + n) fin exts -> 0 < n -> ¬ (mkKey ino k off ∈ exts.*1).
Proof. intros [_ Hin] Hn (e & He & Hx)%list_elem_of_fmap. apply Hin in Hx as (_ & _ & Hx). rewrite <- He in Hx. simpl in Hx. lia. Qed.

Lemma wp_poner_extents ino : forall vueltas fuel h m X off resto (Φ : unit -> Sosofs D -> Prop) s,
  (h + N.to_nat (div_ceil (lenN resto) BLOCK_SIZE) <= fuel)%nat ->
  (h + N.to_nat (div_ceil (lenN resto) BLOCK_SIZE) <= 255)%nat ->
  vista s h m X -> ino < U64 -> off + lenN resto < U64 -> (length resto <= vueltas)%nat ->
  (forall exts s', en_fila ino off (off + lenN resto) exts -> tiras (blk s') off resto exts ->
     (length exts <= N.to_nat (div_ceil (lenN resto) BLOCK_SIZE))%nat ->
     vista s' (h + N.to_nat (div_ceil (lenN resto) BLOCK_SIZE)) (sobre exts m) (tramos exts ++ X) ->
     sigue s X s' -> next_inode s' = next_inode s -> Φ tt s') ->
  wp space_err (poner_extents vueltas fuel ino off resto) Φ s.
Proof.
  induction vueltas as [|vueltas IH]; intros fuel h m X off resto Φ s Hf Hh Hvi Hino Hoff Hlen HΦ.
  - destruct resto; [|simpl in Hlen; lia]. cbn [poner_extents]. wp_steps. apply (HΦ []); [|done|simpl; lia| | |done].
    + split; [constructor|set_solver].
    + unfold sobre, tramos. simpl. rewrite (left_id_L ∅ _), Nat.add_0_r. done.
    + done.
  - destruct resto as [|b0 resto0] eqn:Er.
    { cbn [poner_extents]. wp_steps. apply (HΦ []); [|done|simpl; lia| | |done].
      + split; [constructor|set_solver].
      + unfold sobre, tramos. simpl. rewrite (left_id_L ∅ _), Nat.add_0_r. done.
      + done. }
    rewrite <- Er in *. assert (resto ≠ []) as Hne by by rewrite Er.
    assert (poner_extents (S vueltas) fuel ino off resto = (n ← poner_extent fuel ino off resto; off ← add64 off n;
      poner_extents vueltas fuel ino off (drop (N.to_nat n) resto))) as -> by by rewrite Er.
    clear Er. pose proof (lenN_pos _ Hne) as Hpos.
    pose proof (div_ceil_mul (lenN resto) BLOCK_SIZE ltac:(done)) as Hdc.
    assert (1 <= div_ceil (lenN resto) BLOCK_SIZE) as Hdc1 by (unfold BLOCK_SIZE in *; lia).
    wp_steps. eapply wp_mono; [eapply (wp_poner_extent fuel h m X ino off resto (fun n s' => exists e,
      puesto (blk s') ino off resto e n ∧ vista s' (S h) (<[e.1 := e.2]> m) (run e.2 ++ X) ∧ sigue s X s' ∧
      next_inode s' = next_inode s)); [lia|lia|done|done|lia|done|]|done|].
    { intros e n s' Hpu Hvi' Hsg _ Hnx. by exists e. }
    intros n s1 (e & [Hkey Hok Hn (r & Hr)] & Hvi1 & Hsg1 & Hnx1). cbv beta.
    assert (BLOCK_SIZE <= cabida e.2) as Hcab by (destruct Hok as [[? _] _]; unfold cabida; unfold BLOCK_SIZE; lia).
    assert (1 <= n <= lenN resto) as Hn1 by (unfold BLOCK_SIZE in *; lia).
    wp_steps. apply wp_add64; [lia|].
    assert (lenN (drop (N.to_nat n) resto) = lenN resto - n) as Hdl by apply lenN_drop.
    assert (div_ceil (lenN resto - n) BLOCK_SIZE + 1 <= div_ceil (lenN resto) BLOCK_SIZE) as Hdc2.
    { destruct (N.le_ge_cases (lenN resto) (cabida e.2)) as [Hc|Hc].
      - rewrite (N.min_l _ _ Hc) in Hn. subst n. rewrite N.sub_diag. change (div_ceil 0 BLOCK_SIZE) with 0. lia.
      - rewrite (N.min_r _ _ Hc) in Hn. subst n.
        assert (div_ceil (lenN resto - cabida e.2) BLOCK_SIZE <= div_ceil (lenN resto) BLOCK_SIZE - 1); [|lia].
        apply div_ceil_le; [done|]. unfold BLOCK_SIZE in *. lia. }
    apply (IH fuel (S h) (<[e.1 := e.2]> m) (run e.2 ++ X)); try done; [rewrite Hdl; lia..|unfold lenN in *; rewrite length_drop; lia|].
    rewrite Hdl. intros exts s2 Hfila Hti Hle Hvi2 Hsg2 Hnx2.
    replace (off + n + (lenN resto - n)) with (off + lenN resto) in Hfila by lia.
    apply (HΦ (e :: exts)).
    + eapply (en_fila_cons ino off n); [done|lia|lia|done].
    + cbn [tiras]. assert (trozo (blk s2) e.2 = trozo (blk s1) e.2) as Ht.
      { apply trozo_ext. intros j Hj. apply (sg_keep _ _ _ Hsg2). set_solver. }
      split; [done|]. split; [by rewrite Hkey|]. split; [by unfold extent_ok; rewrite Ht|]. split; [rewrite Ht; by exists r|].
      destruct (N.le_ge_cases (lenN resto) (cabida e.2)) as [Hc|Hc].
      * rewrite (N.min_l _ _ Hc) in Hn. rewrite drop_ge by (unfold lenN in *; lia).
        rewrite drop_ge in Hti by (unfold lenN in *; lia). destruct exts as [|e' exts]; [done|]. by destruct Hti.
      * rewrite (N.min_r _ _ Hc) in Hn. by rewrite <- Hn.
    + simpl. lia.
    + rewrite <- (sobre_cons e) by (rewrite Hkey; eapply (fila_first_notin ino off n); [exact Hfila|lia]).
      eapply vista_mono; [|eapply vista_perm; [|exact Hvi2]].
      * lia.
      * unfold tramos. simpl. solve_Permutation.
    + eapply (sigue_trans s X s1); [done|exact Hsg2|done|set_solver].
    + congruence.
Qed.

(** ** Removing extents *)
Definition borra (l : list Item) m : Items := foldl (fun m e => delete e.1 m) m l.

Lemma borra_app l l' m : borra (l ++ l') m = borra l' (borra l m).
Proof. apply foldl_app. Qed.
Lemma borra_lookup l m k : borra l m !! k = if decide (k ∈ l.*1) then None else m !! k.
Proof.
  revert m. induction l as [|e l IH]; intros m; simpl; [done|]. unfold borra in *. simpl. rewrite IH.
  destruct (decide (k ∈ l.*1)) as [H1|H1].
  - rewrite decide_True; [done|]. by right.
  - destruct (decide (k = e.1)) as [->|Hne].
    + rewrite lookup_delete_eq. rewrite decide_True; [done|]. by left.
    + rewrite lookup_delete_ne by done. rewrite decide_False; [done|]. by intros [?|?]%elem_of_cons.
Qed.
Lemma datos_delete_sub m k : datos (delete k m) ⊆ datos m.
Proof.
  destruct (m !! k) as [p|] eqn:E; [|by rewrite delete_id]. intros j Hj. rewrite (datos_delete m k p E). set_solver.
Qed.
Lemma datos_borra_sub l m : datos (borra l m) ⊆ datos m.
Proof.
  revert m. induction l as [|e l IH]; intros m; simpl; [done|]. unfold borra in *. simpl.
  etransitivity; [apply IH|apply datos_delete_sub].
Qed.

Lemma wp_liberar h m X p (Φ : unit -> Sosofs D -> Prop) s :
  vista s h m (run p ++ X) ->
  (forall s', vista s' h m X -> sigue s X s' -> next_inode s' = next_inode s -> Φ tt s') ->
  wp (fun _ => False) (liberar_extent (extent_item_read p)) Φ s.
Proof.
  intros Hvi HΦ. unfold liberar_extent. pose proof (vista_owned _ _ _ _ Hvi) as Ho.
  eapply (wp_free_run (e_start_block (extent_item_read p)) (e_block_count (extent_item_read p))); [by eapply vista_vol| |].
  - intros j Hj. eapply owned_elem; [exact Ho|]. apply elem_of_app. by left.
  - intros s' Hst _ Hr. destruct (vista_free s h m (run p) X s' Hvi Hst Hr) as [Hvi' Hsg]. apply HΦ; [done|done|]. apply Hst.
Qed.

Lemma wp_borrar_extents fuel h m ino exts (Φ : unit -> Sosofs D -> Prop) s :
  (h < fuel)%nat -> vista s h m (datos m) -> extents_de m ino exts ->
  (forall s', vista s' h (borra exts m) (datos (borra exts m)) -> sigue s (datos (borra exts m)) s' ->
     next_inode s' = next_inode s -> Φ tt s') ->
  wp space_err (mfor (fun e => liberar_extent (extent_item_read e.2);; tree_delete fuel e.1) exts) Φ s.
Proof.
  intros Hf Hvi Hex HΦ.
  apply (wp_mfor _ _ _ (fun pre s' => vista s' h (borra pre m) (datos (borra pre m)) ∧ sigue s (datos (borra exts m)) s' ∧
    next_inode s' = next_inode s)).
  - done.
  - intros pre e post s1 Heq (Hvi1 & Hsg1 & Hnx1). rewrite borra_app. unfold borra at 3 5. simpl.
    assert (borra pre m !! e.1 = Some e.2 ∧ k_kind e.1 = KIND_EXTENT) as [He Hk].
    { destruct (extents_kind _ _ _ e Hex ltac:(rewrite Heq; set_solver)) as (He & _ & Hk). split; [|done].
      rewrite borra_lookup, decide_False; [done|]. intros Hin. destruct Hex as [Hs _]. rewrite Heq in Hs.
      apply ksorted_app in Hs as (_ & _ & Hs). apply list_elem_of_fmap in Hin as (x & Hx & Hin).
      specialize (Hs x e Hin ltac:(by left)). rewrite Hx in Hs. by apply key_lt_irrefl in Hs. }
    assert (datos (borra pre m) ≡ₚ run e.2 ++ datos (delete e.1 (borra pre m))) as Hd.
    { rewrite (datos_delete _ _ _ He). unfold aporta. simpl. by rewrite decide_True. }
    assert (datos (borra exts m) ⊆ datos (delete e.1 (borra pre m))) as Hsub.
    { rewrite Heq, borra_app. apply (datos_borra_sub post (delete e.1 (borra pre m))). }
    wp_steps. eapply wp_mono; [apply (wp_liberar h (borra pre m) (datos (delete e.1 (borra pre m))) e.2
      (fun _ s' => vista s' h (borra pre m) (datos (delete e.1 (borra pre m))) ∧ sigue s1 (datos (delete e.1 (borra pre m))) s' ∧
        next_inode s' = next_inode s1)); [by eapply vista_perm|done]|done|].
    intros [] s2 (Hvi2 & Hsg2 & Hnx2).
    eapply wp_mono; [eapply (wp_v_delete fuel h _ _ e.1); [done|exact Hvi2|]| |intros a s' H; exact H].
    + intros s3 Hvi3 Hsg3 _ Hnx3 _. split_and!; [done| |congruence].
      eapply (sigue_trans s _ s1); [exact Hsg1| |done|done].
      eapply (sigue_trans s1 _ s2); [exact Hsg2|exact Hsg3|done..].
    + intros e' [?|[_ Hno]]; [done|congruence].
  - intros s' (H1 & H2 & H3). by apply HΦ.
Qed.
End Blocks.
