(* ===== verification/SosofsFiles.v ===== *)
(** * sosofs: creating, extending and removing files

    [unlink_inner], [create_file_inner] and [append_file_inner] on a device that
    does not fail: which errors they answer and why, what they leave in the
    items and in the blocks, and that the invariant of the items holds after. *)
From S2P Require Import Prelude Texto BlockDev SosofsLayout SosofsAlloc SosofsTree SosofsNode SosofsStep SosofsTreeSpec SosofsScan SosofsFile SosofsTxn SosofsCommit SosofsVista SosofsDir SosofsNames SosofsRead SosofsData.
Local Open Scope N_scope.
#[local] Set Default Proof Using "Type*".

Section Pure.
Implicit Types m : Items.

(** [m'] is [m] without the object named [name] in [dir]. *)
Definition quitado m dir name m' : Prop :=
  exists k ino st exts, nombra m dir name k ino ∧ inodo m ino st ∧
    (i_file_type st = FT_DIR -> exts = [] ∧ forall n' k' c, ¬ nombra m ino n' k' c) ∧
    (i_file_type st ≠ FT_DIR -> extents_de m ino exts) ∧
    m' = delete k (delete (Key.inode ino) (borra exts m)).

Lemma bf_borra l m next : bien_formado m next -> (forall e, e ∈ l -> k_kind e.1 ≠ KIND_INODE) -> bien_formado (borra l m) next.
Proof.
  revert m. induction l as [|e l IH]; intros m Hbf Hl; [done|]. apply (IH (delete e.1 m)).
  - apply bf_delete; [done|]. apply Hl. by left.
  - intros e' He. apply Hl. by right.
Qed.
Lemma nombra_borra l m dir name k c : (forall e, e ∈ l -> k_kind e.1 ≠ KIND_DIRENT) ->
  nombra (borra l m) dir name k c <-> nombra m dir name k c.
Proof.
  intros Hl. assert (k_kind k = KIND_DIRENT -> borra l m !! k = m !! k) as Hk.
  { intros Hk. rewrite borra_lookup, decide_False; [done|]. intros (e & -> & He)%list_elem_of_fmap. by apply (Hl e). }
  unfold nombra. split; intros (p & Hp & H1 & H2 & H3); exists p; (split; [|done]).
  - by rewrite <- Hk.
  - by rewrite Hk.
Qed.

Lemma extents_kinds m ino exts e : extents_de m ino exts -> e ∈ exts -> k_kind e.1 = KIND_EXTENT.
Proof. intros Hex He. by destruct (extents_kind _ _ _ _ Hex He) as (_ & _ & ?). Qed.

Lemma bf_quitado m next dir name m' : next <= U64 -> (forall k p, m !! k = Some p -> Key.wf k) ->
  bien_formado m next -> quitado m dir name m' ->
  bien_formado m' next ∧ sin_nombre m' dir name ∧
  forall d n x, (exists k, nombra m' d n k x) <-> (exists k, nombra m d n k x) ∧ ¬ (d = dir ∧ n = name).
Proof.
  intros Hu Hwf Hbf (k & ino & st & exts & Hk & Hst & Hdir & Hfile & ->).
  destruct (bf_entry _ _ Hbf _ _ _ _ Hk) as (_ & Hroot & _ & _).
  assert (forall e, e ∈ exts -> k_kind e.1 = KIND_EXTENT) as Hkind.
  { intros e He. destruct (decide (i_file_type st = FT_DIR)) as [Hd|Hd]; [|by eapply extents_kinds; [apply Hfile|]].
    destruct (Hdir Hd) as [-> _]. set_solver. }
  assert (k_kind k = KIND_DIRENT) as Hkk by by destruct Hk as (? & _ & _ & ? & _).
  assert (forall d n k' c, nombra (delete k (delete (Key.inode ino) (borra exts m))) d n k' c <-> k' ≠ k ∧ nombra m d n k' c) as Hnb.
  { intros d n k' c. rewrite !nombra_delete, nombra_borra by (intros e He; rewrite (Hkind e He); done). split.
    - by intros (? & _ & ?).
    - intros [? Hk']. split_and!; [done| |done]. destruct Hk' as (? & _ & _ & Hk' & _). by intros ->. }
  split_and!.
  - rewrite delete_delete. apply bf_delete_inode; [|done|..].
    + apply bf_delete; [|by rewrite Hkk]. apply bf_borra; [done|]. intros e He. by rewrite (Hkind e He).
    + intros d n k' Hk'. apply nombra_delete in Hk' as [Hne Hk']. rewrite nombra_borra in Hk' by (intros e He; by rewrite (Hkind e He)).
      apply Hne. by eapply (bf_links _ _ Hbf).
    + intros d n k' c Hk' ->. apply nombra_delete in Hk' as [_ Hk']. rewrite nombra_borra in Hk' by (intros e He; by rewrite (Hkind e He)).
      destruct (bf_entry _ _ Hbf _ _ _ _ Hk') as ((st' & Hst' & Hd) & _). pose proof (inodo_fun _ _ _ _ Hst Hst'). subst st'.
      destruct (Hdir Hd) as [_ Hno]. by apply Hno in Hk'.
    + intros k' p Hk' Hkind' Hino. apply lookup_delete_Some in Hk' as [_ Hk']. rewrite borra_lookup in Hk'. case_decide as Hin; [done|].
      destruct (bf_files _ _ Hbf _ _ Hk' Hkind') as (st' & Hst' & Hnd). rewrite Hino in Hst'.
      pose proof (inodo_fun _ _ _ _ Hst Hst'). subst st'. destruct (Hfile Hnd) as [_ Hex].
      apply Hin, list_elem_of_fmap. exists (k', p). split; [done|]. apply Hex. split; [done|]. apply key_between.
      destruct (Hwf _ _ Hk') as (_ & _ & Hoff). unfold U64_MAX. split_and!; [done|done|lia|lia].
  - intros k' c [Hne Hk']%Hnb. apply Hne. by eapply (bf_names _ _ Hbf).
  - intros d n x. setoid_rewrite Hnb. split.
    + intros (k' & Hne & Hk'). split; [by exists k'|]. intros [-> ->]. apply Hne. by eapply (bf_names _ _ Hbf).
    + intros [(k' & Hk') Hne]. exists k'. split; [|done]. intros ->. destruct (nombra_fun _ _ _ _ _ _ _ _ Hk Hk') as (-> & -> & _).
      by apply Hne.
Qed.

Lemma quitado_datos m dir name m' : quitado m dir name m' -> datos m' ⊆ datos m.
Proof.
  intros (k & ino & st & exts & _ & _ & _ & _ & ->).
  etransitivity; [apply datos_delete_sub|]. etransitivity; [apply datos_delete_sub|]. apply datos_borra_sub.
Qed.
End Pure.

Section Files.
Context {D : Type} `{BD : BlockDevice D} `{BS : !BlockDeviceSpec D} `{RD : !ReliableDevice D} `{CRC : Crc32c}.
Implicit Types (s : Sosofs D) (m : Items).

Definition unlink_fail m dir name (e : FsError) : Prop :=
  e = NoSpace ∨ (e = NotFound ∧ sin_nombre m dir name) ∨
  (e = DirNotEmpty ∧ exists k ino n' k' c, nombra m dir name k ino ∧ nombra m ino n' k' c).

Lemma unlink_spec fuel h m dir name (Φ : unit -> Sosofs D -> Prop) s :
  en_curso s h m (datos m) -> (h < fuel)%nat ->
  (forall m' s', quitado m dir name m' -> vista s' h m' (datos m') -> sigue s (datos m') s' -> dirty s' = true ->
     next_inode s' = next_inode s -> Φ tt s') ->
  wp (unlink_fail m dir name) (unlink_inner fuel dir name) Φ s.
Proof.
  intros Hec Hf HΦ. pose proof (ec_wf _ _ _ _ Hec) as Hbf. unfold unlink_inner. wp_steps.
  eapply wp_mono; [eapply (wp_v_dirent_key fuel h m _ dir name (fun k s' => quiet s s' ∧ exists c, nombra m dir name k c)); [done|apply Hec|]| |].
  { intros k c s' Hq Hk. split; [done|by exists c]. }
  { intros e [[]%no_io|[-> Hno]]. right. by left. }
  intros k s1 [Hq1 [ino Hk]]. wp_steps. pose proof (en_curso_quiet _ _ _ _ _ Hq1 Hec) as Hec1.
  destruct (bf_entry _ _ Hbf _ _ _ _ Hk) as (_ & _ & Hval & st & Hst).
  eapply wp_mono; [eapply (wp_v_lookup fuel h m _ dir name (fun c s' => quiet s1 s' ∧ c = ino)); [done|apply Hec1|]| |].
  { intros k' c s' Hq _ Hk'. split; [done|]. pose proof (bf_names _ _ Hbf _ _ _ _ _ _ Hk Hk') as <-.
    by destruct (nombra_fun _ _ _ _ _ _ _ _ Hk Hk') as (_ & _ & ->). }
  { intros e [[]%no_io|[[-> Hl]|(-> & _ & Hno)]]; [destruct Hval; lia|by apply Hno in Hk]. }
  intros _ s2 [Hq2 ->]. wp_steps. pose proof (quiet_trans _ _ _ Hq1 Hq2) as Hq12.
  eapply wp_mono; [eapply (wp_v_stat fuel h m _ ino (fun st' s' => quiet s2 s' ∧ st' = st)); [done|by eapply vista_quiet; [|apply Hec]|]| |].
  { intros st' s' Hq Hst'. split; [done|]. by eapply inodo_fun. }
  { intros e [[]%no_io|[_ Hno]]. by apply Hno in Hst. }
  intros _ s3 [Hq3 ->]. wp_steps. pose proof (quiet_trans _ _ _ Hq12 Hq3) as Hq.
  pose proof (en_curso_quiet _ _ _ _ _ Hq Hec) as Hec3. rewrite <- (quiet_next s s3 Hq) in HΦ.
  assert (forall exts s4, (i_file_type st = FT_DIR -> exts = [] ∧ forall n' k' c, ¬ nombra m ino n' k' c) ->
    (i_file_type st ≠ FT_DIR -> extents_de m ino exts) -> (forall e, e ∈ exts -> k_kind e.1 = KIND_EXTENT) ->
    vista s4 h (borra exts m) (datos (borra exts m)) ->
    sigue s (datos (borra exts m)) s4 -> next_inode s4 = next_inode s3 ->
    wp (unlink_fail m dir name) (tree_delete fuel (Key.inode ino)) (fun _ => wp (unlink_fail m dir name) (tree_delete fuel k) Φ) s4) as Hend.
  { intros exts s4 Hd Hfi Hkind Hvi4 Hsg4 Hnx4.
    assert (k_kind k = KIND_DIRENT) as Hkk by by destruct Hk as (? & _ & _ & ? & _).
    assert (is_Some (borra exts m !! Key.inode ino) ∧ is_Some (delete (Key.inode ino) (borra exts m) !! k)) as [Hi1 Hi2].
    { split.
      - rewrite borra_lookup, decide_False; [|by intros (e & He & Hin%Hkind)%list_elem_of_fmap; rewrite <- He in Hin].
        destruct Hst as (p & Hp & _). by exists p.
      - rewrite lookup_delete_ne by (intros <-; done).
        rewrite borra_lookup, decide_False; [|by intros (e & He & Hin%Hkind)%list_elem_of_fmap; rewrite <- He, Hkk in Hin].
        destruct Hk as (p & Hp & _). by exists p. }
    eapply wp_mono; [eapply (wp_v_delete fuel h _ _ (Key.inode ino) (fun _ s' => vista s' h (delete (Key.inode ino) (borra exts m))
      (datos (borra exts m)) ∧ sigue s4 (datos (borra exts m)) s' ∧ next_inode s' = next_inode s4)); [done|exact Hvi4|done]| |].
    { intros e [->%space_no_space|[_ Hno]]; [by left|]. rewrite Hno in Hi1. by destruct Hi1. }
    intros [] s5 (Hvi5 & Hsg5 & Hnx5).
    eapply wp_mono; [eapply (wp_v_delete fuel h _ _ k); [done|exact Hvi5|]| |intros a s' H; exact H].
    - intros s6 Hvi6 Hsg6 Hdirty Hnx6 _.
      assert (datos (delete k (delete (Key.inode ino) (borra exts m))) ≡ₚ datos (borra exts m)) as Hperm.
      { rewrite !datos_delete_other; [done|done|by rewrite Hkk]. }
      apply (HΦ (delete k (delete (Key.inode ino) (borra exts m)))); [by exists k, ino, st, exts| | |done|congruence].
      + eapply vista_perm; [by symmetry|done].
      + eapply (sigue_trans s _ s4); [exact Hsg4| |by rewrite Hperm|by rewrite Hperm].
        by eapply (sigue_trans s4 _ s5); [exact Hsg5|exact Hsg6|..].
    - intros e [->%space_no_space|[_ Hno]]; [by left|]. rewrite Hno in Hi2. by destruct Hi2. }
  destruct (N.eqb_spec (i_file_type st) FT_DIR) as [Hd|Hd]; cbn [Key.range fst snd]; wp_steps.
  - eapply wp_mono; [eapply (wp_v_scan fuel h m _ _ _ (fun out s' => quiet s3 s' ∧ tramo m _ _ out)); [done|apply Hec3|done]| |].
    { intros e []%no_io. }
    intros out s4 [Hq4 [_ Hout]]. cbv beta. destruct out as [|[k' p'] out]; wp_steps.
    + apply (Hend []); [|done|set_solver|eapply vista_quiet; [exact Hq4|apply Hec3]| |by apply quiet_next].
      * intros _. split; [done|]. intros n' k' c (p' & Hp' & H1 & H2 & _). 
        destruct (vista_items _ _ _ _ _ _ (ec_vista _ _ _ _ Hec) Hp') as [(_ & _ & Hw) _].
        assert ((k', p') ∈ []) as Hin; [|set_solver]. apply Hout. split; [done|]. apply key_between. unfold U64_MAX.
        split_and!; [done|done|lia|lia].
      * apply quiet_sigue. by eapply quiet_trans.
    + right. right. split; [done|]. destruct (Hout k' p') as [Ho _]. destruct Ho as (Hk' & Hr); [by left|].
      apply key_between in Hr as (H1 & H2 & _). exists k, ino. do 3 eexists. split; [done|]. exists p'. by split_and!.
  - eapply wp_mono; [eapply (wp_v_scan fuel h m _ _ _ (fun out s' => quiet s3 s' ∧ extents_de m ino out)); [done|apply Hec3|done]| |].
    { intros e []%no_io. }
    intros exts s4 [Hq4 Hex]. cbv beta.
    eapply wp_mono; [eapply (wp_borrar_extents fuel h m ino exts (fun _ s' => vista s' h (borra exts m) (datos (borra exts m)) ∧
      sigue s4 (datos (borra exts m)) s' ∧ next_inode s' = next_inode s4)); [done|eapply vista_quiet; [exact Hq4|apply Hec3]|done|done]| |].
    { intros e ->%space_no_space. by left. }
    intros [] s5 (Hvi5 & Hsg5 & Hnx5). wp_steps. apply (Hend exts); [done|done|by intros; eapply extents_kinds|done| |].
    + eapply (sigue_trans s _ s4); [apply quiet_sigue; by eapply quiet_trans|exact Hsg5|done..].
    + rewrite Hnx5. by apply quiet_next.
Qed.

End Files.

(** ** Creation, on the items *)
Section Creation.
Context `{CRC : Crc32c}.
Implicit Types m : Items.

Definition create_fail m dir name (e : FsError) : Prop :=
  e = NoSpace ∨ check_fail m dir e ∨ (e = NotAFile ∧ exists k c, nombra m dir name k c ∧ es_dir m c) ∨
  (e = NameTooLong ∧ ¬ nombre_valido name).

(** What [create_file] finds: nothing of that name, or a file it removes. *)
Definition hueco m dir name m0 : Prop :=
  (sin_nombre m dir name ∧ m0 = m) ∨ (quitado m dir name m0 ∧ forall k c, nombra m dir name k c -> ¬ es_dir m c).

Definition creado m0 dir name ino (data : list byte) mtime exts m' : Prop :=
  en_fila ino 0 (lenN data) exts ∧
  enlaza (sobre exts (<[Key.inode ino := inode_payload (mkInodeItem FT_FILE (lenN data) mtime)]> m0)) dir name ino m'.

Definition bloques_de_largo (n : N) : nat := N.to_nat (div_ceil n BLOCK_SIZE).

Lemma fila_fresh ino off fin exts m k : en_fila ino off fin exts -> (forall k' p, m !! k' = Some p -> k_inode k' ≠ ino ∨ k_kind k' ≠ KIND_EXTENT) ->
  k ∈ exts.*1 -> m !! k = None.
Proof.
  intros [_ Hin] Hm (e & -> & He)%list_elem_of_fmap. destruct (Hin e He) as (H1 & H2 & _).
  destruct (m !! e.1) as [p|] eqn:E; [|done]. destruct (Hm _ _ E); done.
Qed.

Lemma datos_sobre exts m : ksorted exts -> (forall e, e ∈ exts -> k_kind e.1 = KIND_EXTENT) ->
  (forall k, k ∈ exts.*1 -> m !! k = None) -> datos (sobre exts m) ≡ₚ tramos exts ++ datos m.
Proof.
  induction exts as [|e exts IH]; intros Hs Hk Hm.
  - unfold sobre. simpl. by rewrite (left_id_L ∅ _).
  - apply ksorted_cons in Hs as [Hs Ha]. rewrite Forall_forall in Ha.
    assert (e.1 ∉ exts.*1) as Hne.
    { intros (x & Hx & Hin)%list_elem_of_fmap. specialize (Ha x Hin). unfold above in Ha. rewrite Hx in Ha. by apply key_lt_irrefl in Ha. }
    assert (sobre exts m !! e.1 = None) as Hnone.
    { unfold sobre. apply lookup_union_None. split; [by apply not_elem_of_list_to_map_1|]. apply Hm. by left. }
    assert (sobre (e :: exts) m = <[e.1 := e.2]> (sobre exts m)) as ->.
    { unfold sobre. destruct e as [k p]. simpl. by rewrite <- insert_union_l. }
    rewrite datos_insert by done. rewrite IH; [|done|intros x Hx; apply Hk; by right|intros x Hx; apply Hm; by right].
    unfold aporta, tramos. simpl. rewrite decide_True by (apply Hk; by left). solve_Permutation.
Qed.

Lemma bf_sobre m next ino st exts : bien_formado m next -> inodo m ino st -> i_file_type st ≠ FT_DIR ->
  (forall e, e ∈ exts -> k_inode e.1 = ino ∧ k_kind e.1 = KIND_EXTENT) -> bien_formado (sobre exts m) next.
Proof.
  intros Hbf Hst Ht. induction exts as [|e exts IH]; intros Hin; [unfold sobre; simpl; by rewrite (left_id_L ∅ _)|].
  assert (sobre (e :: exts) m = <[e.1 := e.2]> (sobre exts m)) as ->.
  { unfold sobre. destruct e as [k p]. simpl. by rewrite <- insert_union_l. }
  destruct (Hin e) as [H1 H2]; [by left|]. eapply (bf_extent _ _ _ _ st); [apply IH; intros; apply Hin; by right|done| |done].
  rewrite H1. clear IH. destruct Hst as (p & Hp & Hr). exists p. split; [|done]. unfold sobre.
  rewrite lookup_union_r; [done|]. apply not_elem_of_list_to_map_1. intros (x & Hx & Hi)%list_elem_of_fmap.
  destruct (Hin x) as [_ Hk]; [by right|]. by rewrite <- Hx in Hk.
Qed.

Lemma borra_sub l m : borra l m ⊆ m.
Proof.
  apply map_subseteq_spec. intros k p. rewrite borra_lookup. by case_decide.
Qed.
Lemma hueco_sub m dir name m0 : hueco m dir name m0 -> m0 ⊆ m.
Proof.
  intros [[_ ->]|[(k & ino & st & exts & _ & _ & _ & _ & ->) _]]; [done|].
  etransitivity; [apply delete_subseteq|]. etransitivity; [apply delete_subseteq|]. apply borra_sub.
Qed.
Lemma size_sobre exts m : (size (sobre exts m) <= length exts + size m)%nat.
Proof.
  induction exts as [|e exts IH]; [unfold sobre; simpl; by rewrite (left_id_L ∅ _)|].
  assert (sobre (e :: exts) m = <[e.1 := e.2]> (sobre exts m)) as ->.
  { unfold sobre. destruct e as [k p]. simpl. by rewrite <- insert_union_l. }
  rewrite map_size_insert. destruct (sobre exts m !! e.1); simpl; lia.
Qed.

(** *** What a created file holds *)
Lemma sobre_other exts m k : (forall e, e ∈ exts -> k_inode e.1 ≠ k_inode k ∨ k_kind e.1 ≠ k_kind k) -> sobre exts m !! k = m !! k.
Proof.
  intros Hk. unfold sobre. apply lookup_union_r, not_elem_of_list_to_map_1. intros (e & -> & He)%list_elem_of_fmap.
  by destruct (Hk e He).
Qed.

Section Creado.
Context (m0 : Items) (next dir : N) (name data : list byte) (mtime : N) (exts : list Item) (m' : Items).
Hypothesis (Hbf : bien_formado m0 next) (Hnx : next + 1 < U64) (Hmt : mtime < U64) (Hlen : lenN data < 2 ^ 63).
Hypothesis (Hdir : es_dir m0 dir) (Hno : sin_nombre m0 dir name) (Hval : nombre_valido name).
Hypothesis (Hcr : creado m0 dir name next data mtime exts m').

Let st := mkInodeItem FT_FILE (lenN data) mtime.
Let m1 := <[Key.inode next := inode_payload st]> m0.

Lemma creado_st_wf : inode_item_wf st.
Proof. unfold inode_item_wf, st. simpl. unfold U64 in *. split_and!; [done|lia|done]. Qed.
Lemma creado_fresh k p : m1 !! k = Some p -> k_inode k = next -> k = Key.inode next.
Proof.
  unfold m1. intros [[<- _]|[_ Hk]]%lookup_insert_Some; [done|]. intros Hi. apply (bf_next _ _ Hbf) in Hk. lia.
Qed.
Lemma creado_bf1 : bien_formado m1 (next + 1).
Proof.
  unfold m1. replace (next + 1) with (N.max next (next + 1)) by lia. apply bf_put; [done|apply creado_st_wf|by left].
Qed.
Lemma creado_inodo1 : inodo m1 next st.
Proof. unfold m1. rewrite inodo_new. apply inode_payload_read, creado_st_wf. Qed.

Lemma creado_fila e : e ∈ exts -> k_inode e.1 = next ∧ k_kind e.1 = KIND_EXTENT.
Proof. pose proof Hcr as [[_ Hin] _]. intros He. by destruct (Hin e He) as (? & ? & _). Qed.

Lemma creado_datos : datos m' ≡ₚ tramos exts ++ datos m0.
Proof.
  pose proof Hcr as [[Hs Hin] (off & _ & _ & Hm')]. rewrite Hm'. rewrite datos_insert_other by done.
  rewrite datos_sobre; [|done|by intros e He; apply creado_fila|].
  - f_equiv. unfold m1. by apply datos_insert_other.
  - intros k (e & -> & He)%list_elem_of_fmap. destruct (creado_fila e He) as [H1 H2]. fold m1.
    destruct (m1 !! e.1) as [p|] eqn:E; [|done]. apply creado_fresh in E; [|done]. by rewrite E in H2.
Qed.

Lemma creado_bf : bien_formado m' (next + 1).
Proof.
  pose proof Hcr as [Hfila Hen]. fold st in Hen. fold m1 in Hen. 
  assert (next ≠ ROOT_INODE) as Hr.
  { destruct (bf_root _ _ Hbf) as (st' & (p & Hp & _) & _). apply (bf_next _ _ Hbf) in Hp. simpl in Hp. lia. }
  assert (forall d n k c, nombra (sobre exts m1) d n k c <-> nombra m0 d n k c) as Hnb.
  { intros d n k c. split; intros (p & Hp & H1 & H2 & H3); exists p; (split; [|done]).
    - rewrite sobre_other in Hp by (intros e He; right; rewrite (proj2 (creado_fila e He)), H2; done).
      unfold m1 in Hp. rewrite lookup_insert_ne in Hp; [done|]. by intros <-.
    - rewrite sobre_other by (intros e He; right; rewrite (proj2 (creado_fila e He)), H2; done).
      unfold m1. rewrite lookup_insert_ne; [done|]. by intros <-. }
  eapply (bf_link _ _ dir name next); [| | |exact Hval| |exact Hr|lia| |exact Hen].
  - eapply bf_sobre; [apply creado_bf1|apply creado_inodo1|done|]. apply creado_fila.
  - destruct Hdir as (st' & Hst' & Hd). exists st'. split; [|done]. destruct Hst' as (p & Hp & Hr'). exists p. split; [|done].
    rewrite sobre_other by (intros e He; right; by rewrite (proj2 (creado_fila e He))). unfold m1.
    rewrite lookup_insert_ne; [done|]. intros [= <-]. apply (bf_next _ _ Hbf) in Hp. simpl in Hp. lia.
  - intros k c. rewrite Hnb. apply Hno.
  - exists st. destruct creado_inodo1 as (p & Hp & Hr'). exists p. split; [|done].
    by rewrite sobre_other by (intros e He; right; by rewrite (proj2 (creado_fila e He))).
  - intros d n k. rewrite Hnb. intros Hk. destruct (bf_entry _ _ Hbf _ _ _ _ Hk) as (_ & _ & _ & st' & (p & Hp & _)).
    apply (bf_next _ _ Hbf) in Hp. simpl in Hp. lia.
Qed.

(** The new file holds the bytes it was created with. *)
Lemma creado_archivo c : tiras c 0 data exts -> archivo c m' next data.
Proof.
  intros Hti. pose proof Hcr as [[Hs Hin] (off & _ & _ & Hm')]. rewrite Hm'. exists st, exts. split_and!; [|done|done| |done].
  - rewrite inodo_insert by done. fold m1. destruct creado_inodo1 as (p & Hp & Hr'). exists p. split; [|done].
    by rewrite sobre_other by (intros e He; right; by rewrite (proj2 (creado_fila e He))).
  - split; [done|]. intros k p. fold m1. rewrite key_between. split.
    + intros Hk. destruct (Hin _ Hk) as (H1 & H2 & H3). simpl in *. split_and!; [|done|done|lia|unfold U64_MAX, U64; lia].
      rewrite lookup_insert_ne by (by intros <-). apply sobre_lookup; [done|]. by left.
    + intros (Hk & H1 & H2 & _). rewrite lookup_insert_ne in Hk by (by intros <-).
      apply sobre_lookup in Hk as [?|[_ Hk]]; [done| |done]. apply creado_fresh in Hk; [|done]. by rewrite Hk in H2.
Qed.

(** The others are where they were. *)
Lemma creado_frame c c' ino d : ino ≠ next -> (forall j, j ∈ datos m0 -> c' j = c j) ->
  archivo c m0 ino d -> archivo c' m' ino d.
Proof.
  intros Hne Hc. pose proof Hcr as [Hfila (off & _ & _ & Hm')]. rewrite Hm'. apply archivo_frame; [done|]. intros k <- Hkk.
  rewrite lookup_insert_ne by (intros <-; by apply Hkk). fold m1.
  rewrite sobre_other by (intros e He; left; by rewrite (proj1 (creado_fila e He))). unfold m1.
  rewrite lookup_insert_ne; [done|]. by intros <-.
Qed.
End Creado.

(** Removing an object leaves the other files. *)
Lemma quitado_frame c m dir name m' ino d : quitado m dir name m' -> (forall k, ¬ nombra m dir name k ino) ->
  archivo c m ino d -> archivo c m' ino d.
Proof.
  intros (k & x & st & exts & Hk & Hst & Hdir & Hfile & ->) Hne. apply archivo_frame; [done|]. intros j Hj Hjk.
  assert (x ≠ ino) as Hx by (intros ->; by apply (Hne k)).
  rewrite lookup_delete_ne by (intros <-; destruct Hk as (_ & _ & _ & ? & _); by apply Hjk).
  rewrite lookup_delete_ne by (intros <-; by apply Hx).
  rewrite borra_lookup, decide_False; [done|]. intros (e & -> & He)%list_elem_of_fmap. apply Hx.
  destruct (decide (i_file_type st = FT_DIR)) as [Hd|Hd].
  - destruct (Hdir Hd) as [-> _]. set_solver.
  - destruct (extents_kind _ _ _ _ (Hfile Hd) He) as (_ & H1 & _). congruence.
Qed.
End Creation.

(** ** Creation, on the volume *)
Section Create.
Context {D : Type} `{BD : BlockDevice D} `{BS : !BlockDeviceSpec D} `{RD : !ReliableDevice D} `{CRC : Crc32c}.
Implicit Types (s : Sosofs D) (m : Items).

Lemma hueco_bf m dir name m0 s h X : en_curso s h m X -> hueco m dir name m0 ->
  bien_formado m0 (next_inode s) ∧ sin_nombre m0 dir name.
Proof.
  intros [Hvi Hbf Hnx] [[Hno ->]|[Hq _]]; [done|].
  destruct (bf_quitado m (next_inode s) dir name m0) as (? & ? & _); try done; [lia|].
  intros k p Hk. by destruct (vista_items _ _ _ _ _ _ Hvi Hk).
Qed.
Lemma wp_assoc {A C E} Q (x : F D A) (f : A -> F D C) (g : C -> F D E) Φ s :
  wp Q ((x ≫= f) ≫= g) Φ s -> wp Q (x ≫= fun a => f a ≫= g) Φ s.
Proof. unfold wp, mbind, M_bind. by destruct (x s) as [[]?]. Qed.

(** Making room for the new file. *)
Lemma hueco_spec fuel h m dir name (Φ : unit -> Sosofs D -> Prop) s : en_curso s h m (datos m) -> (h < fuel)%nat ->
  (forall m0 s', (hueco m dir name m0 ∨ (m0 = m ∧ ¬ nombre_valido name)) -> vista s' h m0 (datos m0) ->
     sigue s (datos m0) s' -> next_inode s' = next_inode s -> Φ tt s') ->
  wp (create_fail m dir name)
    (r ← attempt (lookup fuel dir name);
     match r with
     | inr existing =>
         st ← stat_inode fuel existing;
         if i_file_type st =? FT_DIR then throw NotAFile else unlink_inner fuel dir name
     | inl _ => mret tt
     end) Φ s.
Proof.
  intros Hec Hf HΦ. wp_steps. eapply wp_v_lookup_value; [exact Hf|apply Hec|]. intros r s1 Hq1 Hr.
  pose proof (en_curso_quiet _ _ _ _ _ Hq1 Hec) as Hec1. destruct r as [e|c].
  - wp_steps. apply (HΦ m); [|apply Hec1|by apply quiet_sigue|by apply quiet_next].
    destruct Hr as [[_ Hl]|(_ & _ & Hno)]; [right; split; [done|]; intros [_ ?]; lia|left; by left].
  - destruct Hr as [_ [k Hk]]. pose proof (ec_wf _ _ _ _ Hec) as Hbf.
    destruct (bf_entry _ _ Hbf _ _ _ _ Hk) as (_ & _ & _ & st & Hst). wp_steps.
    eapply wp_mono; [eapply (wp_v_stat fuel h m _ c (fun st' s' => quiet s1 s' ∧ st' = st)); [done|apply Hec1|]| |].
    { intros st' s' Hq Hst'. split; [done|]. by eapply inodo_fun. }
    { intros e [[]%no_io|[_ Hno]]. by apply Hno in Hst. }
    intros _ s2 [Hq2 ->]. cbv beta. destruct (N.eqb_spec (i_file_type st) FT_DIR) as [Hd|Hd].
    { apply wp_throw. right. right. left. split; [done|]. exists k, c. split; [done|]. by exists st. }
    pose proof (quiet_trans _ _ _ Hq1 Hq2) as Hq. pose proof (en_curso_quiet _ _ _ _ _ Hq Hec) as Hec2.
    eapply wp_mono; [apply (unlink_spec fuel h m dir name Φ s2 Hec2 Hf)| |done].
    + intros m' s3 Hqu Hvi3 Hsg3 _ Hnx3. apply (HΦ m'); [|done| |rewrite Hnx3; by apply quiet_next].
      * left. right. split; [done|]. intros k' c' Hk' (st' & Hst' & Hd').
        pose proof (bf_names _ _ Hbf _ _ _ _ _ _ Hk Hk') as <-. destruct (nombra_fun _ _ _ _ _ _ _ _ Hk Hk') as (_ & _ & <-).
        pose proof (inodo_fun _ _ _ _ Hst Hst'). by subst.
      * by eapply (sigue_trans s _ s2); [apply quiet_sigue|..].
    + intros e [->|[[_ Hno]|(_ & k' & ino & n' & k2 & c2 & Hk' & Hn)]]; [by left|by apply Hno in Hk|].
      pose proof (bf_names _ _ Hbf _ _ _ _ _ _ Hk Hk') as <-. destruct (nombra_fun _ _ _ _ _ _ _ _ Hk Hk') as (_ & _ & <-).
      destruct (bf_entry _ _ Hbf _ _ _ _ Hn) as ((st' & Hst' & Hd') & _). pose proof (inodo_fun _ _ _ _ Hst Hst'). by subst.
Qed.

Lemma create_spec n fuel h m dir name data mtime (Φ : N -> Sosofs D -> Prop) s :
  en_curso s h m (datos m) -> (h + 2 + bloques_de_largo (lenN data) <= fuel)%nat ->
  (h + 2 + bloques_de_largo (lenN data) <= 255)%nat -> next_inode s + 1 < U64 -> lenN data < 2 ^ 63 ->
  (size m + 1 + bloques_de_largo (lenN data) < n)%nat -> N.of_nat n <= U64 ->
  (forall m0 exts m' s', es_dir m dir -> nombre_valido name -> hueco m dir name m0 ->
     creado m0 dir name (next_inode s) data mtime exts m' -> tiras (blk s') 0 data exts ->
     vista s' (h + 2 + bloques_de_largo (lenN data)) m' (tramos exts ++ datos m0) ->
     sigue s (datos m0) s' -> dirty s' = true -> next_inode s' = next_inode s + 1 -> Φ (next_inode s) s') ->
  wp (create_fail m dir name) (create_file_inner n fuel dir name data mtime) Φ s.
Proof.
  intros Hec Hf Hh Hnx Hlen Hn Hu HΦ. unfold create_file_inner. unfold bloques_de_largo in *. set (B := N.to_nat _) in *.
  wp_steps. eapply wp_mono; [eapply (wp_v_check fuel h m _ dir (fun _ s' => quiet s s' ∧ es_dir m dir)); [lia|apply Hec|by split]| |].
  { intros e [[]%no_io|He]. right. by left. }
  intros [] s1 [Hq1 Hdir]. cbv beta. pose proof (en_curso_quiet _ _ _ _ _ Hq1 Hec) as Hec1.
  apply wp_assoc, wp_bind.
  eapply wp_mono; [apply (hueco_spec fuel h m dir name (fun _ s' => exists m0, (hueco m dir name m0 ∨ (m0 = m ∧ ¬ nombre_valido name)) ∧
    vista s' h m0 (datos m0) ∧ sigue s1 (datos m0) s' ∧ next_inode s' = next_inode s1) s1 Hec1); [lia|]|done|].
  { intros m0 s' H1 H2 H3 H4. by exists m0. }
  intros [] s2 (m0 & Hm0 & Hvi2 & Hsg2 & Hnx2). wp_steps. rewrite (quiet_next s s1 Hq1) in Hnx2.
  assert (m0 ⊆ m) as Hsub by (destruct Hm0 as [Hm0|[-> _]]; [by eapply hueco_sub|done]).
  assert (size m0 <= size m)%nat as Hsz by by apply map_subseteq_size.
  assert (bien_formado m0 (next_inode s)) as Hbf0.
  { destruct Hm0 as [Hm0|[-> _]]; [by eapply hueco_bf|apply Hec]. }
  assert (en_curso s2 h m0 (datos m0)) as Hec2.
  { split; [done|by rewrite Hnx2|]. rewrite Hnx2. apply Hec. }
  eapply wp_nuevo_inode; [exact Hec2|by rewrite Hnx2|]. intros Hvi3. rewrite Hnx2 in *. set (ino := next_inode s) in *.
  set (s3 := set_next_inode _ s2) in *. wp_steps.
  set (m1 := <[Key.inode ino := inode_payload (mkInodeItem FT_FILE (lenN data) mtime)]> m0).
  eapply wp_mono; [eapply (wp_v_put_inode fuel h m0 _ _ _ (fun _ s' => vista s' (S h) m1 (datos m0) ∧ sigue s3 (datos m0) s' ∧
    next_inode s' = ino + 1)); [lia|lia|exact Hvi3|unfold ino in *; lia|done]| |].
  { intros e He%space_no_space. by left. }
  intros [] s4 (Hvi4 & Hsg4 & Hnx4). wp_steps.
  eapply wp_mono; [eapply (wp_poner_extents ino (length data) fuel (S h) m1 (datos m0) 0 data (fun _ s' => exists exts,
    en_fila ino 0 (lenN data) exts ∧ tiras (blk s') 0 data exts ∧ (length exts <= B)%nat ∧
    vista s' (S h + B) (sobre exts m1) (tramos exts ++ datos m0) ∧ sigue s4 (datos m0) s' ∧ next_inode s' = next_inode s4));
    [fold B; lia|fold B; lia|exact Hvi4|unfold ino in *; lia|unfold U64; lia|done|]| |].
  { intros exts s' H1 H2 H3 H4 H5 H6. exists exts. by rewrite N.add_0_l in H1. }
  { intros e He%space_no_space. by left. }
  intros [] s5 (exts & Hfila & Hti & Hle & Hvi5 & Hsg5 & Hnx5). wp_steps.
  eapply wp_mono; [eapply (wp_v_insert_dirent n fuel (S h + B) (sobre exts m1) _ dir name ino (fun _ s' => nombre_valido name ∧
    exists m', enlaza (sobre exts m1) dir name ino m' ∧ vista s' (S (S h + B)) m' (tramos exts ++ datos m0) ∧
    sigue s5 (tramos exts ++ datos m0) s' ∧ dirty s' = true ∧ next_inode s' = next_inode s5));
    [lia|lia|exact Hvi5| | |done|]| |].
  - destruct Hdir as (st & Hst & _). pose proof (inodo_lt _ _ _ _ _ _ Hec Hst). unfold ino in *. lia.
  - pose proof (size_sobre exts m1) as H1. unfold m1 in H1 at 2. rewrite map_size_insert in H1.
    destruct (m0 !! Key.inode ino); simpl in H1; lia.
  - intros off s6 Hv Ho Hfree Hvi6 Hsg6 Hd6 Hnx6. split; [done|]. eexists.
    split; [exists off; split_and!; [exact Ho|exact Hfree|reflexivity]|]. done.
  - intros e' [He%space_no_space|He]; [by left|]. by do 3 right.
  - intros [] s6 (Hv & m' & Hen & Hvi6 & Hsg6 & Hd6 & Hnx6). wp_steps. destruct Hm0 as [Hm0|[_ Hnv]]; [|done].
    apply (HΦ m0 exts m'); try done.
    + eapply tiras_ext; [|exact Hti]. intros e j He Hj. apply (sg_keep _ _ _ Hsg6), elem_of_app. left.
      unfold tramos. apply list_elem_of_In, in_concat. exists (run e.2). rewrite <- !list_elem_of_In.
      split; [by apply (list_elem_of_fmap_2 (fun e => run e.2))|done].
    + by replace (h + 2 + B)%nat with (S (S h + B)) by lia.
    + eapply (sigue_trans s (datos m0) s1); [by apply quiet_sigue| |done..].
      eapply (sigue_trans s1 _ s2); [exact Hsg2| |done..].
      eapply (sigue_trans s2 (datos m0) s4); [exact (sigue_next _ _ _ _ Hsg4)| |done..].
      eapply (sigue_trans s4 _ s5); [exact Hsg5|exact Hsg6|done|set_solver].
    + congruence.
Qed.
End Create.
