(* ===== verification/SosofsAppend.v ===== *)
(** * sosofs: extending a file

    [append_file_inner] reads back what the last extent holds, and writes it
    again with the new bytes from the start of that extent on: the file then
    holds the old bytes followed by the new ones. *)
From S2P Require Import Prelude Texto BlockDev SosofsLayout SosofsAlloc SosofsTree SosofsNode SosofsStep SosofsTreeSpec SosofsScan SosofsFile SosofsTxn SosofsCommit SosofsVista SosofsDir SosofsNames SosofsRead SosofsData SosofsFiles.
Local Open Scope N_scope.
#[local] Set Default Proof Using "Type*".

Section Tiras.
Context `{CRC : Crc32c}.

(** The extents before the last one are full. *)
Lemma tiras_last c l e : forall off d, tiras c off d (l ++ [e]) -> exists d1 d2,
  d = d1 ++ d2 ∧ d2 ≠ [] ∧ k_offset e.1 = off + lenN d1 ∧
  forall d2' exts, d2' ≠ [] -> tiras c (k_offset e.1) d2' exts -> tiras c off (d1 ++ d2') (l ++ exts).
Proof.
  induction l as [|x l IH]; intros off d; cbn [app tiras].
  - intros (Hne & Hoff & Hok & Hdata & Hnil). exists [], d. split_and!; [done|done|rewrite lenN_nil; lia|].
    intros d2' exts _. by rewrite Hoff.
  - intros (Hne & Hoff & Hok & (r & Hr) & Hti). destruct (IH _ _ Hti) as (d1 & d2 & Hd & Hne2 & He & Hjoin).
    set (k := N.to_nat (cabida x.2)) in *.
    assert (length (take k d) = k) as Hlen.
    { rewrite length_take. assert (drop k d ≠ []) as Hdr by (rewrite Hd; by destruct d1, d2).
      destruct (Nat.le_gt_cases (length d) k) as [Hle|]; [|lia]. by rewrite drop_ge in Hdr. }
    exists (take k d ++ d1), d2. split_and!; [by rewrite <- (assoc_L (++)), <- Hd, take_drop|done| |].
    + rewrite lenN_app. unfold lenN at 1. rewrite Hlen. unfold k. lia.
    + intros d2' exts Hne' Hti'. rewrite <- (assoc_L (++)). split; [by destruct (take k d), d1, d2'|]. split; [done|]. split; [done|].
      fold k. rewrite take_app_length', drop_app_length' by done. split; [by exists r|]. by apply Hjoin.
Qed.

Lemma tiras_fun c exts : forall off d d', tiras c off d exts -> tiras c off d' exts -> lenN d = lenN d' -> d = d'.
Proof.
  induction exts as [|e r IH]; intros off d d'; cbn [tiras]; [by intros -> ->|].
  intros (_ & _ & _ & (x & Hx) & H1) (_ & _ & _ & (x' & Hx') & H2) Hl. set (n := N.to_nat (cabida e.2)) in *.
  rewrite <- (take_drop n d), <- (take_drop n d'). f_equal.
  - rewrite Hx in Hx'. apply app_inj_1 in Hx' as [? _]; [done|]. unfold lenN in Hl. rewrite !length_take. lia.
  - eapply IH; [done|done|]. unfold lenN in *. rewrite !length_drop. lia.
Qed.

Lemma relleno_all (data : list byte) (off n : N) out : lenN out = n -> off + n = lenN data ->
  relleno data out off n = drop (N.to_nat off) data.
Proof.
  intros Ho Hn. unfold relleno. rewrite (drop_ge out) by (unfold lenN in Ho; lia). rewrite app_nil_r.
  apply take_ge. rewrite length_drop. unfold lenN in Hn. lia.
Qed.
End Tiras.

Section Anadir.
Context `{CRC : Crc32c}.
Implicit Types m : Items.

(** Where the rewriting starts. *)
Definition base_de (exts : list Item) : N := match last exts with Some (k, _) => k_offset k | None => 0 end.

(** The items after [data] was put at the end of a file that held [old]. *)
Definition anadido m ino (old data : list byte) mtime exts nuevos m' : Prop :=
  extents_de m ino exts ∧ en_fila ino (base_de exts) (lenN (old ++ data)) nuevos ∧
  m' = sobre nuevos (<[Key.inode ino := inode_payload (mkInodeItem FT_FILE (lenN (old ++ data)) mtime)]> m).

Lemma base_cases c m ino old exts : extents_de m ino exts -> tiras c 0 old exts ->
  exists l d1 d2, old = d1 ++ d2 ∧ lenN d1 = base_de exts ∧ (d2 = [] -> exts = []) ∧
    (forall e, e ∈ l -> e ∈ exts ∧ k_offset e.1 < base_de exts) ∧
    (forall e, e ∈ exts -> e ∈ l ∨ k_offset e.1 = base_de exts) ∧ ksorted l ∧
    (forall d2' nuevos, d2' ≠ [] -> tiras c (base_de exts) d2' nuevos -> tiras c 0 (d1 ++ d2') (l ++ nuevos)).
Proof.
  intros [Hs Hin] Hti. destruct exts as [|e l _] using rev_ind.
  - exists [], [], []. cbn in Hti. subst. unfold base_de. cbn. split_and!; try done; set_solver.
  - destruct (tiras_last _ _ _ _ _ Hti) as (d1 & d2 & -> & Hne & He & Hjoin).
    assert (base_de (l ++ [e]) = k_offset e.1) as Hb by (unfold base_de; rewrite last_snoc; by destruct e).
    rewrite Hb. apply ksorted_app in Hs as (Hs & _ & Hlt). exists l, d1, d2. split_and!; try done.
    + intros x Hx. split; [set_solver|]. specialize (Hlt x e Hx ltac:(by left)).
      destruct x as [kx px], e as [ke pe].
      destruct (Hin kx px) as [Hix _]. destruct Hix as (_ & Hrx); [set_solver|].
      destruct (Hin ke pe) as [Hie _]. destruct Hie as (_ & Hre); [set_solver|].
      apply key_between in Hrx as (H1 & H2 & _), Hre as (H3 & H4 & _). unfold Key.lt in Hlt. simpl in *. lia.
    + intros x [Hx|Hx]%elem_of_app; [by left|]. right. apply list_elem_of_singleton in Hx. by subst.
Qed.


Lemma sobre_borra l m : sobre l m = sobre l (borra l m).
Proof.
  apply map_eq. intros k. unfold sobre; fold (mapa l). destruct (mapa l !! k) as [p|] eqn:E.
  - by rewrite !(lookup_union_Some_l _ _ _ p).
  - rewrite !lookup_union_r by done. rewrite borra_lookup, decide_False; [done|]. by apply not_elem_of_list_to_map.
Qed.
Lemma datos_borra_submseteq l m : datos (borra l m) ⊆+ datos m.
Proof.
  revert m. induction l as [|e l IH]; intros m; [done|]. change (borra (e :: l) m) with (borra l (delete e.1 m)).
  etransitivity; [apply IH|]. destruct (m !! e.1) as [p|] eqn:E; [|by rewrite delete_id].
  rewrite (datos_delete m _ _ E). apply submseteq_inserts_l. done.
Qed.
Section Anadido.
Context (m : Items) (ino : N) (old data : list byte) (mtime : N) (exts nuevos : list Item) (m' : Items).
Hypothesis (Hmt : mtime < U64) (Hlen : lenN (old ++ data) < U64).
Hypothesis (Han : anadido m ino old data mtime exts nuevos m').
Let st := mkInodeItem FT_FILE (lenN (old ++ data)) mtime.
Let m1 := <[Key.inode ino := inode_payload st]> m.

Lemma anadido_st : inode_item_wf st.
Proof. by split_and!. Qed.
Lemma anadido_kind e : e ∈ nuevos -> k_inode e.1 = ino ∧ k_kind e.1 = KIND_EXTENT ∧ base_de exts <= k_offset e.1 < lenN (old ++ data).
Proof. destruct Han as (_ & [_ Hin] & _). apply Hin. Qed.

Lemma anadido_inodo : inodo m' ino st.
Proof.
  destruct Han as (_ & _ & Hm'). fold st in Hm'. fold m1 in Hm'. exists (inode_payload st). split.
  - rewrite Hm', sobre_other; [unfold m1; apply lookup_insert_eq|]. intros e He. right. by destruct (anadido_kind e He) as (_ & -> & _).
  - apply inode_payload_read, anadido_st.
Qed.

Lemma anadido_datos : datos m' ⊆+ tramos nuevos ++ datos m.
Proof.
  pose proof Han as (_ & [Hs _] & Hm'). fold st in Hm'. fold m1 in Hm'. rewrite Hm', sobre_borra, datos_sobre.
  - apply submseteq_app; [done|]. etransitivity; [apply datos_borra_submseteq|]. unfold m1. by rewrite datos_insert_other.
  - done.
  - intros e He. by destruct (anadido_kind e He) as (_ & ? & _).
  - intros k Hk. rewrite borra_lookup. by rewrite decide_True.
Qed.

Lemma anadido_bf next : bien_formado m next -> (exists st', inodo m ino st' ∧ i_file_type st' = FT_FILE) -> bien_formado m' next.
Proof.
  intros Hbf (st' & Hst' & Hft). pose proof Han as (_ & _ & Hm'). fold st in Hm'. fold m1 in Hm'. rewrite Hm'.
  assert (bien_formado m1 next) as Hbf1.
  { replace next with (N.max next (ino + 1)).
    - apply bf_put; [done|apply anadido_st|]. right. exists st'. by rewrite Hft.
    - destruct Hst' as (p & Hp & _). apply (bf_next _ _ Hbf) in Hp. simpl in Hp. lia. }
  eapply (bf_sobre _ _ ino st); [done| |done|].
  - unfold m1. rewrite inodo_new. apply inode_payload_read, anadido_st.
  - intros e He. by destruct (anadido_kind e He) as (? & ? & _).
Qed.

Lemma anadido_frame c c' x d : x ≠ ino -> (forall j, j ∈ datos m -> c' j = c j) -> archivo c m x d -> archivo c' m' x d.
Proof.
  intros Hne Hc. pose proof Han as (_ & _ & Hm'). fold st in Hm'. fold m1 in Hm'. apply archivo_frame; [done|]. intros k <- _.
  rewrite Hm', sobre_other by (intros e He; left; by destruct (anadido_kind e He) as (-> & _ & _)).
  unfold m1. rewrite lookup_insert_ne; [done|]. by intros <-.
Qed.

(** The file holds the old bytes and the new ones. *)
Lemma anadido_archivo c : tiras c 0 old exts -> data ≠ [] ->
  tiras c (base_de exts) (drop (N.to_nat (base_de exts)) old ++ data) nuevos -> archivo c m' ino (old ++ data).
Proof.
  intros Hti Hne Hnew. pose proof Han as (Hex & [Hs Hin] & Hm'). fold st in Hm'. fold m1 in Hm'.
  destruct (base_cases c m ino old exts Hex Hti) as (l & d1 & d2 & Hold & Hd1 & _ & Hl & Hcases & Hsl & Hjoin).
  assert (drop (N.to_nat (base_de exts)) old = d2) as Hd2.
  { rewrite Hold. apply drop_app_length'. unfold lenN in Hd1. lia. }
  rewrite Hd2 in Hnew. exists st, (l ++ nuevos). split_and!; [apply anadido_inodo|done|done| |].
  - destruct nuevos as [|e0 nv] eqn:Env; [cbn in Hnew; by apply app_nil in Hnew as [_ ?]|]. rewrite <- Env in *.
    assert (e0.1 = mkKey ino KIND_EXTENT (base_de exts)) as He0.
    { destruct (Hin e0) as (H1 & H2 & _); [rewrite Env; by left|]. rewrite Env in Hnew. destruct Hnew as (_ & H3 & _).
      destruct e0 as [[i k o] p]; simpl in *. congruence. }
    split.
    + apply ksorted_app. split_and!; [done|done|]. intros a b Ha Hb. destruct (Hl a Ha) as [Hae Hlt].
      destruct (extents_kind _ _ _ _ Hex Hae) as (_ & H1 & H2). destruct (Hin b Hb) as (H3 & H4 & H5 & _).
      unfold Key.lt. right. split; [congruence|]. right. split; [congruence|]. lia.
    + intros k p. rewrite elem_of_app, key_between, Hm', sobre_lookup by done. split.
      * intros [Hk|Hk].
        -- destruct (Hl _ Hk) as [Hke Hlt]. destruct (extents_kind _ _ _ _ Hex Hke) as (H0 & H1 & H2). simpl in *.
           destruct Hex as [_ Hex]. destruct (Hex k p) as [Hx _]. destruct (Hx Hke) as (_ & Hr). apply key_between in Hr as (_ & _ & Hr).
           split_and!; [right|done|done|lia|lia]. split.
           ++ intros (e & Hee & He)%list_elem_of_fmap. destruct (Hin e He) as (_ & _ & H5 & _). rewrite <- Hee in H5. lia.
           ++ unfold m1. rewrite lookup_insert_ne; [done|]. by intros <-.
        -- destruct (Hin _ Hk) as (H1 & H2 & H3). simpl in *. split_and!; [by left|done|done|lia|unfold U64_MAX; lia].
      * intros ([Hk|[Hk Hm]] & H1 & H2 & H3); [by right|]. left. unfold m1 in Hm. rewrite lookup_insert_ne in Hm by (by intros <-).
        destruct Hex as [_ Hex]. assert ((k, p) ∈ exts) as Hke.
        { apply Hex. split; [done|]. by apply key_between. }
        destruct (Hcases _ Hke) as [?|Hoff]; [done|]. exfalso. apply Hk, list_elem_of_fmap. exists e0. split; [|rewrite Env; by left].
        rewrite He0. destruct k; simpl in *. congruence.
  - rewrite Hold, <- (assoc_L (++)). apply Hjoin; [by destruct d2, data|done].
Qed.
End Anadido.

End Anadir.

Section Append.
Context {D : Type} `{BD : BlockDevice D} `{BS : !BlockDeviceSpec D} `{RD : !ReliableDevice D} `{CRC : Crc32c}.
Implicit Types (s : Sosofs D) (m : Items).

Lemma vista_submseteq s h m X X' : X' ⊆+ X -> vista s h m X -> vista s h m X'.
Proof.
  intros (K & HK)%submseteq_Permutation Hvi. apply (vista_perm _ _ _ _ _ HK) in Hvi.
  destruct Hvi as (Hv & l & F & it & ? & ? & ? & Ho). split; [done|]. exists l, F, it. split_and!; try done.
  assert (owned s ((F ++ bitmap_run (sb s) ++ X') ++ K)) as [? _]%owned_app; [|done].
  eapply owned_perm; [|exact Ho]. solve_Permutation.
Qed.

Definition append_fail (e : FsError) : Prop := e = NoSpace.

Lemma append_spec fuel h m ino old data mtime (Φ : N -> Sosofs D -> Prop) s :
  en_curso s h m (datos m) -> archivo (blk s) m ino old -> data ≠ [] -> mtime < U64 ->
  lenN (old ++ data) < 2 ^ 63 -> let B := bloques_de_largo (lenN (old ++ data)) in
  (h + 1 + B <= fuel)%nat -> (h + 1 + B <= 255)%nat ->
  (forall exts nuevos m' s', anadido m ino old data mtime exts nuevos m' -> archivo (blk s') m' ino (old ++ data) ->
     vista s' (h + 1 + B) m' (datos m') -> sigue s (datos m) s' -> dirty s' = true -> next_inode s' = next_inode s -> Φ ino s') ->
  wp append_fail (append_file_inner fuel ino data mtime) Φ s.
Proof.
  intros Hec Har Hne Hmt Hlen B Hf Hh HΦ. pose proof Har as (st & exts & Hst & Hft & Hsize & Hex & Hti).
  unfold append_file_inner. destruct data as [|b0 data0]; [done|]. cbv match. set (data := b0 :: data0) in *. clearbody data. clear b0 data0.
  wp_steps. pose proof (ec_vista _ _ _ _ Hec) as Hvi.
  eapply wp_mono; [eapply (wp_v_stat fuel h m _ ino (fun st' s' => quiet s s' ∧ st' = st)); [lia|exact Hvi|]| |].
  { intros st' s' Hq Hst'. split; [done|]. by eapply inodo_fun. }
  { intros e [[]%no_io|[_ Hno]]. by apply Hno in Hst. }
  intros _ s1 [Hq1 ->]. cbv beta. rewrite Hft. change (FT_FILE =? FT_FILE) with true. cbn [negb]. cbv zeta. rewrite Hsize.
  rewrite lenN_app in Hlen. wp_steps. apply wp_add64; [unfold U64; lia|]. cbn [Key.range fst snd]. wp_steps.
  eapply wp_mono; [eapply (wp_v_scan fuel h m _ _ _ (fun o s' => quiet s1 s' ∧ o = exts)); [lia|by eapply vista_quiet|]| |].
  { intros o s' Hq Ho. split; [done|]. by eapply tramo_unique. }
  { intros e []%no_io. }
  intros _ s2 [Hq2 ->]. cbv beta zeta. fold (base_de exts). pose proof (quiet_trans _ _ _ Hq1 Hq2) as Hq12.
  destruct (base_cases _ _ _ _ _ Hex Hti) as (l & d1 & d2 & Hold & Hd1 & _).
  assert (base_de exts <= lenN old) as Hbase by (rewrite Hold, lenN_app; lia).
  assert (drop (N.to_nat (base_de exts)) old = d2) as Hd2 by (rewrite Hold; apply drop_app_length'; unfold lenN in Hd1; lia).
  assert (lenN d2 = lenN old - base_de exts) as Hld2 by (rewrite Hold, lenN_app; lia).
  rewrite (proj2 (N.ltb_ge _ _)) by done. wp_steps. apply wp_add64; [unfold U64; lia|].
  rewrite (proj2 (N.ltb_ge ISIZE_MAX _)) by (unfold ISIZE_MAX; lia). wp_steps.
  set (buf := d2 ++ data).
  assert (wp io_err (if 0 <? lenN old - base_de exts
                    then read_file_range fuel ino (base_de exts) (lenN old - base_de exts) (zeros (lenN old - base_de exts))
                    else mret []) (fun r s' => r = d2 ∧ quiet s2 s') s2) as Hread.
  { destruct (N.ltb_spec 0 (lenN old - base_de exts)) as [Hp|Hp].
    - eapply (read_range_spec fuel h m _ ino old); [lia|by eapply vista_quiet|done| |lia|rewrite lenN_zeros; lia|lia|by rewrite lenN_zeros|].
      + eapply archivo_frame; [|done|exact Har]. intros j _. by apply quiet_blk.
      + intros s' Hq. split; [|done]. rewrite <- Hd2. apply relleno_all; [apply lenN_zeros|lia].
    - wp_steps. split; [|by apply quiet_refl, vol_dev, (quiet_vol s), (vista_vol _ _ _ _ Hvi)]. destruct d2; [done|]. rewrite lenN_cons in Hld2. lia. }
  eapply wp_mono; [exact Hread|intros e []%no_io|]. clear Hread. intros r s3 [-> Hq3]. cbv beta zeta. fold buf.
  pose proof (quiet_trans _ _ _ Hq12 Hq3) as Hq. pose proof (en_curso_quiet _ _ _ _ _ Hq Hec) as Hec3. wp_steps.
  set (st2 := mkInodeItem FT_FILE (lenN old + lenN data) mtime). set (m1 := <[Key.inode ino := inode_payload st2]> m).
  pose proof (inodo_lt _ _ _ _ _ _ Hec Hst) as Hino. pose proof (ec_next _ _ _ _ Hec) as Hnx.
  eapply wp_mono; [eapply (wp_v_put_inode fuel h m _ _ _ (fun _ s' => vista s' (S h) m1 (datos m) ∧ sigue s3 (datos m) s' ∧
    dirty s' = true ∧ next_inode s' = next_inode s3)); [lia|lia|apply Hec3|lia|done]|by intros e ->%space_no_space|].
  intros [] s4 (Hvi4 & Hsg4 & Hd4 & Hnx4). wp_steps.
  assert (lenN buf = lenN old - base_de exts + lenN data) as Hbuf by (unfold buf; rewrite lenN_app; lia).
  assert (bloques_de_largo (lenN buf) <= B)%nat as HB.
  { unfold B, bloques_de_largo. assert (div_ceil (lenN buf) BLOCK_SIZE <= div_ceil (lenN (old ++ data)) BLOCK_SIZE); [|lia].
    apply div_ceil_le; [done|]. pose proof (div_ceil_mul (lenN (old ++ data)) BLOCK_SIZE ltac:(done)). rewrite lenN_app in *. lia. }
  eapply wp_mono; [eapply (wp_poner_extents ino (length buf) fuel (S h) m1 (datos m) (base_de exts) buf (fun _ s' => exists nuevos,
    en_fila ino (base_de exts) (base_de exts + lenN buf) nuevos ∧ tiras (blk s') (base_de exts) buf nuevos ∧
    vista s' (S h + bloques_de_largo (lenN buf)) (sobre nuevos m1) (tramos nuevos ++ datos m) ∧ sigue s4 (datos m) s' ∧ next_inode s' = next_inode s4));
    [unfold bloques_de_largo in *; lia|unfold bloques_de_largo in *; lia|exact Hvi4|lia|unfold U64; lia|done|]|by intros e ->%space_no_space|].
  { intros nuevos s' H1 H2 _ H4 H5 H6. by exists nuevos. }
  intros [] s5 (nuevos & Hfila & Hnew & Hvi5 & Hsg5 & Hnx5). wp_steps.
  assert (anadido m ino old data mtime exts nuevos (sobre nuevos m1)) as Han.
  { split_and!; [done| |unfold m1, st2; by rewrite lenN_app].
    replace (lenN (old ++ data)) with (base_de exts + lenN buf) by (rewrite lenN_app; lia). done. }
  assert (sigue s (datos m) s5) as Hsg.
  { eapply (sigue_trans s _ s3); [by apply quiet_sigue| |done..]. by eapply (sigue_trans s3 _ s4). }
  apply (HΦ exts nuevos (sobre nuevos m1)); [done| | |done|by apply (sg_dirty _ _ _ Hsg5)|rewrite Hnx5, Hnx4; by apply quiet_next].
  - apply (anadido_archivo m ino old data mtime exts nuevos); [done|rewrite lenN_app; unfold U64; lia|done| |done|by rewrite Hd2].
    eapply tiras_ext; [|exact Hti]. intros e j He Hj. apply (sg_keep _ _ _ Hsg).
    destruct (extents_kind _ _ _ _ Hex He) as (Hk & _ & Hkind). by eapply run_datos.
  - eapply vista_submseteq; [apply (anadido_datos m ino old data mtime exts nuevos); [done|rewrite lenN_app; unfold U64; lia|done]|]. eapply vista_mono; [|exact Hvi5]. lia.
Qed.
End Append.
