(* ===== verification/SosofsMontado.v ===== *)
(** * sosofs: transactions on a mounted volume

    [montado s h m]: a volume at rest whose committed generation holds the
    items [m], well formed and with every file readable. A public operation
    whose body is sound either publishes the next generation with the effect
    of the body, or leaves the volume at the generation it had. *)
From stdpp Require Import sorting.
From S2P Require Import Prelude Texto BlockDev SosofsLayout SosofsAlloc SosofsTree SosofsNode SosofsStep SosofsTreeSpec SosofsScan SosofsFile SosofsTxn SosofsCow SosofsCommit SosofsVista SosofsDir SosofsNames SosofsRead SosofsData SosofsFiles SosofsAppend.
Local Open Scope N_scope.
#[local] Set Default Proof Using "Type*".

(** Every regular file can be read. *)
Definition integro `{Crc32c} (c : N -> Block) (m : Items) : Prop :=
  forall ino st, inodo m ino st -> i_file_type st = FT_FILE -> exists data, archivo c m ino data ∧ lenN data < 2 ^ 63.

Section Montado.
Context {D : Type} `{BD : BlockDevice D} `{BS : !BlockDeviceSpec D} `{CRC : Crc32c}.
Implicit Types (s : Sosofs D) (m : Items).

Record montado s (h : nat) m : Prop := {
  mo_committed : exists l F it, committed s l F it ∧ mapa it = m ∧ (l <= h)%nat ∧ owned s (F ++ bitmap_run (sb s) ++ datos m);
  mo_wf : bien_formado m (next_inode s);
  mo_int : integro (blk s) m;
}.

Lemma archivo_ext c c' m ino data : (forall j, j ∈ datos m -> c' j = c j) -> archivo c m ino data -> archivo c' m ino data.
Proof. intros Hc. by apply archivo_frame. Qed.
Lemma integro_ext c c' m : (forall j, j ∈ datos m -> c' j = c j) -> integro c m -> integro c' m.
Proof.
  intros Hc Hi ino st Hst Hf. destruct (Hi ino st Hst Hf) as (data & Ha & Hl). exists data. split; [|done]. by eapply archivo_ext.
Qed.

Lemma montado_en_curso s h m : montado s h m -> sb_generation (sb s) + 1 < U64 -> en_curso s h m (datos m).
Proof.
  intros [(l & F & it & Hc & Hm & Hl & Ho) Hwf Hint] Hg. destruct (committed_tree _ _ _ _ Hc Hg) as (Hv & Ht & _).
  split; [split; [done|by exists l, F, it]|done|]. rewrite (cm_next _ _ _ _ Hc).
  by destruct (im_wf _ _ _ _ _ _ _ (cm_imagen _ _ _ _ Hc)) as (_ & _ & _ & _ & _ & _ & ?).
Qed.

(** A sound transaction can be published. *)
Lemma en_curso_publishable s h m s1 h1 m1 : montado s h m -> sb_generation (sb s) + 1 < U64 ->
  en_curso s1 h1 m1 (datos m1) -> sigue s [] s1 -> dirty s1 = true ->
  exists l F it, publishable s1 l F it ∧ mapa it = m1 ∧ (l <= h1)%nat ∧ owned s1 (F ++ bitmap_run (sb s1) ++ datos m1).
Proof.
  intros [(l0 & F0 & it0 & Hc & _ & _ & _) _ _] Hg [(Hv & l & F & it & Ht & Hm & Hl & Ho) Hwf Hnx] [Hsb Hfr Hcnt Hslots _ _] Hd.
  exists l, F, it. split_and!; [|done..]. pose proof (cm_imagen _ _ _ _ Hc) as [Hswf Hslot Hother _ Hlen _ _ _ _ _ _ _ _].
  assert (lenN (bitmap s1) = sb_bitmap_blocks (sb s) * BLOCK_SIZE) as Hlb.
  { destruct (vol_maps _ Hv) as [_ E]. unfold lenN in *. rewrite E, Hfr. done. }
  assert (map_blocks s1 = sb_bitmap_blocks (sb s)) as Hmb by (unfold map_blocks; rewrite Hlb; by apply N.div_mul).
  split; [done|done| | | | |done| | |done].
  - destruct (bf_root _ _ Hwf) as (st & (p & Hp & Hr) & Hdir). exists p. rewrite Hm. split; [done|]. by rewrite Hr.
  - apply (owned_app s1 F). apply owned_app in Ho as (? & [? _]%owned_app & Hd'). split_and!; [done|done|].
    intros j Hj Hj'. apply (Hd' j Hj). apply elem_of_app. by left.
  - by rewrite Hsb.
  - intros sb' Hsb'. rewrite Hsb in *. rewrite Hslots in Hsb' by (apply N.mod_lt; done). fold (blk s) in Hslot.
    rewrite Hslot in Hsb'. injection Hsb' as <-. simpl. lia.
  - by rewrite Hmb.
  - rewrite Hmb. by destruct Hswf as (_ & _ & _ & _ & _ & ? & _).
Qed.

Lemma published_montado s1 h1 m1 l F it s' : en_curso s1 h1 m1 (datos m1) -> integro (blk s1) m1 ->
  publishable s1 l F it -> mapa it = m1 -> (l <= h1)%nat -> owned s1 (F ++ bitmap_run (sb s1) ++ datos m1) ->
  published s1 l F it s' ->
  montado s' h1 m1 ∧ generation s' = generation s1 + 1 ∧ next_inode s' = next_inode s1 ∧
    (forall j, j ∈ datos m1 -> blk s' j = blk s1 j) ∧ owned s' (F ++ bitmap_run (sb s') ++ datos m1).
Proof.
  intros Hec Hint Hpb Hm Hl Ho (Hc & Hcnt & (start & Hsb) & Hkeep). apply owned_app in Ho as (HF & (HB & HX & HBX)%owned_app & HFX).
  assert (forall j, j ∈ datos m1 -> (j ∉ bitmap_run (sb s')) ∧ alloc s' j ∧ blk s' j = blk s1 j) as Hdat.
  { intros j Hj. destruct (owned_elem _ _ _ HX Hj) as [Ha Hv]. apply Hkeep; [done|done|]. intros Hb. by apply (HBX j). }
  assert (next_inode s' = next_inode s1) as Hnx by (rewrite (cm_next _ _ _ _ Hc), Hsb; done).
  assert (owned s' (F ++ bitmap_run (sb s') ++ datos m1)) as Hown.
  { pose proof (cm_imagen _ _ _ _ Hc) as Him. split.
    - rewrite (assoc_L (++)). apply NoDup_app. split_and!; [apply Him| |apply HX].
      intros j [Hj|Hj]%elem_of_app Hj'; [|by destruct (Hdat j Hj')].
      apply (HFX j Hj). apply elem_of_app. by right.
    - apply Forall_forall. intros j Hj. rewrite (assoc_L (++)) in Hj. apply elem_of_app in Hj as [Hj|Hj].
      + destruct (im_used _ _ _ _ _ _ _ Him j Hj) as [Hb Hv]. split; [|done]. unfold alloc. by rewrite (cm_bitmap _ _ _ _ Hc).
      + destruct (Hdat j Hj) as (_ & ? & _). split; [done|]. destruct (owned_elem _ _ _ HX Hj) as [_ Hv]. unfold in_vol in *.
        by rewrite Hsb. }
  split_and!; [split| |done| |done].
  - by exists l, F, it.
  - rewrite Hnx. apply Hec.
  - eapply integro_ext; [|exact Hint]. intros j Hj. by apply Hdat.
  - unfold generation. by rewrite Hsb.
  - intros j Hj. by apply Hdat.
Qed.

(** ** Errors leave the committed generation alone *)
Definition intacto (base : N -> Block) (n : N) (fr : list byte) (d : D) : Prop :=
  dev_ok d ∧ block_count d = n ∧ forall j, j < n -> j < 2 ∨ bit fr j = Some true -> content d j = base j.

Lemma intacto_same base n fr d d' : same_dev d d' -> intacto base n fr d -> intacto base n fr d'.
Proof. intros (Hd & Hc & Hb) (_ & Hn & Hk). split_and!; [done|congruence|]. intros j Hj Hp. rewrite Hb. by apply Hk. Qed.

#[export] Instance intacto_stable base n fr : Stable fr (intacto base n fr).
Proof.
  split.
  - intros b d Hi. eapply intacto_same; [|exact Hi]. apply (read_spec d b), Hi.
  - intros b k d Hi. eapply intacto_same; [|exact Hi]. apply (read_blocks_spec d b k), Hi.
  - intros d Hi. eapply intacto_same; [|exact Hi]. apply flush_spec, Hi.
  - intros b d Hi. eapply intacto_same; [|exact Hi]. apply invalidate_block_spec, Hi.
  - intros d Hi. eapply intacto_same; [|exact Hi]. apply invalidate_all_spec, Hi.
  - intros b buf d (Hd & Hn & Hk) [Hb2 Hbf] Hlen. destruct (write_spec d b buf Hd Hlen) as (Hd' & Hc & Ho & _).
    split_and!; [done|congruence|]. intros j Hj Hp. rewrite Ho; [by apply Hk|]. intros ->. destruct Hp as [?|?]; [lia|congruence].
Qed.

Lemma montado_J s h m : montado s h m -> J (frozen s) (sb s) (intacto (blk s) (block_count (dev s)) (frozen s)) s.
Proof.
  intros [(l & F & it & Hc & _) _ _]. split; [|split_and!; [done|done|by rewrite (cm_bitmap _ _ _ _ Hc)]].
  split_and!; [exact (cm_dev _ _ _ _ Hc)|done|done].
Qed.

Lemma rollback_montado s h m s1 : montado s h m -> J (frozen s) (sb s) (intacto (blk s) (block_count (dev s)) (frozen s)) s1 ->
  exists s2, rollback s1 = (Ok tt, s2) ∧ montado s2 h m ∧ sb s2 = sb s ∧ frozen s2 = frozen s ∧
    forall j, j ∈ datos m -> blk s2 j = blk s j.
Proof.
  intros Hmo ((Hd & Hcnt & Hk) & Hsb & Hfr & Hlen). pose proof Hmo as [(l & F & it & Hc & Hm & Hl & Ho) Hwf Hint].
  unfold rollback. rewrite bind_eq. simpl. rewrite Hfr. unfold lenN. rewrite Hlen, N.eqb_refl. simpl.
  eexists; split; [reflexivity|]. set (s2 := set_alloc_hint 2 _).
  assert (forall j, j ∈ F ++ bitmap_run (sb s) ++ datos m -> blk s2 j = blk s j) as Hsame.
  { intros j Hj. destruct (owned_elem _ _ _ Ho Hj) as [Ha [H1 H2]]. pose proof (im_size _ _ _ _ _ _ _ (cm_imagen _ _ _ _ Hc)).
    unfold s2, blk. simpl. apply Hk; [lia|]. right. unfold alloc in Ha. by rewrite (cm_bitmap _ _ _ _ Hc) in Ha. }
  split_and!; [|done|done|intros j Hj; apply Hsame; set_solver].
  assert (next_inode s2 = next_inode s) as Hnx by (unfold s2; simpl; by rewrite Hsb, (cm_next _ _ _ _ Hc)).
  split; [|by rewrite Hnx|].
  - exists l, F, it. split_and!; [|done|done|].
    + split; try done; simpl; try (by rewrite ?Hsb, ?Hfr); [|lia]. rewrite Hcnt, Hsb, Hfr.
      eapply imagen_frame; [|apply (cm_imagen _ _ _ _ Hc)]. intros j Hj Hp. unfold blk. simpl. by apply Hk.
    + change (sb s2) with (sb s1). rewrite Hsb. destruct Ho as [Hn Ho]. split; [done|]. eapply Forall_impl; [exact Ho|].
      intros j [Ha Hv]. split; [|unfold in_vol in *; simpl; by rewrite Hsb]. unfold alloc in *. simpl. by rewrite (cm_bitmap _ _ _ _ Hc) in Ha.
  - eapply integro_ext; [|exact Hint]. intros j Hj. apply Hsame. set_solver.
Qed.
End Montado.

Section Transaccion.
Context {D : Type} `{BD : BlockDevice D} `{BS : !BlockDeviceSpec D} `{RD : !ReliableDevice D} `{CRC : Crc32c}.
Implicit Types (s : Sosofs D) (m : Items).

(** A commit that answers an error has not written a superblock. *)
Lemma commit_err fr sb0 base n fuel s e s' : 2 < n -> J fr sb0 (intacto base n fr) s ->
  commit fuel s = (Err e, s') -> J fr sb0 (intacto base n fr) s'.
Proof.
  intros Hn HJ. set (Ih := intacto base n fr) in *. unfold commit.
  rewrite bind_eq. simpl. destruct (dirty s); simpl; [|by intros [=]].
  rewrite bind_eq. unfold attempt at 1.
  destruct (safe_comprobar fr sb0 Ih fuel s HJ) as [HJ1 _].
  destruct (comprobar_raiz_publicable fuel s) as [[[]|e1| |] s1]; simpl in HJ1; [|..|by intros [=]|by intros [=]].
  2: { rewrite bind_eq. destruct (safe_rollback fr sb0 Ih s1 HJ1) as [HJ2 _].
       destruct (rollback s1) as [[[]|e'| |] s2]; intros [= _ <-]; done. }
  rewrite bind_eq. destruct (safe_publicar_bitmap fr sb0 Ih s1 HJ1) as [HJ2 _].
  destruct (publicar_bitmap s1) as [[[start nb]|e1| |] s2]; simpl in HJ2; [|by intros [= _ <-]|by intros [=]..].
  rewrite bind_eq. simpl. rewrite bind_eq. unfold add64.
  destruct (sb_generation (sb s2) + 1 <? U64); simpl; [|by intros [=]].
  set (blk := superblock_write_to_block _ _).
  assert (lenN blk = BLOCK_SIZE) as Hblk by by apply superblock_block_length.
  pose proof (N.mod_lt (sb_generation (sb s2) + 1) 2 ltac:(done)) as Hslot.
  set (slot := (sb_generation (sb s2) + 1) mod 2) in *. clearbody slot blk.
  destruct HJ2 as ((Hd & Hcnt & _) & _).
  destruct (write_spec (dev s2) slot blk Hd Hblk) as (Hd3 & _). pose proof (write_outcome (dev s2) slot blk Hd ltac:(lia) Hblk) as Hans.
  destruct (write_block slot blk (dev s2)) as [o d3] eqn:Ew. simpl in Hd3, Hans. destruct o as [[]|e1| |]; [|by apply reliable in Hans|done..].
  assert (dev_op (write_block slot blk) s2 = (Ok tt, set_dev d3 s2)) as Hw by (unfold dev_op, zoom; by rewrite Ew).
  rewrite (bind_run _ _ _ _ _ Hw). pose proof (flush_outcome d3 Hd3) as Hans2.
  destruct (flush d3) as [o d4] eqn:Ef. simpl in Hans2. destruct o as [[]|e1| |]; [|by apply reliable in Hans2|done..].
  assert (dev_op flush (set_dev d3 s2) = (Ok tt, set_dev d4 s2)) as Hf by (unfold dev_op, zoom; simpl; by rewrite Ef).
  rewrite (bind_run _ _ _ _ _ Hf). rewrite bind_eq. simpl. rewrite bind_eq. simpl. by case_match.
Qed.

(** What a body must establish for its transaction to be sound. *)
Definition cuerpo_ok {A} fuel s (Q : FsError -> Prop) (R : A -> nat -> Items -> N -> (N -> Block) -> Prop) (m : F D A) : Prop :=
  wp Q m (fun a s1 => exists h1 m1, (h1 < fuel)%nat ∧ en_curso s1 h1 m1 (datos m1) ∧ sigue s [] s1 ∧ dirty s1 = true ∧
    integro (blk s1) m1 ∧ R a h1 m1 (next_inode s1) (blk s1)) s.

Definition estable {A} (R : A -> nat -> Items -> N -> (N -> Block) -> Prop) : Prop :=
  forall a h m nx c c', (forall j, j ∈ datos m -> c' j = c j) -> R a h m nx c -> R a h m nx c'.

(** A transaction: the effect of its body in the next generation, or an
    error and the generation there was. *)
Lemma finish_montado {A} fuel (m : F D A) Q (R : A -> nat -> Items -> N -> (N -> Block) -> Prop) s h0 m0 :
  montado s h0 m0 -> sb_generation (sb s) + 1 < U64 -> safe (frozen s) (sb s) (intacto (blk s) (block_count (dev s)) (frozen s)) m ->
  estable R -> cuerpo_ok fuel s Q R m ->
  match finish fuel m s with
  | (Ok a, s') => exists h1 m1, montado s' h1 m1 ∧ R a h1 m1 (next_inode s') (blk s') ∧ generation s' = generation s + 1
  | (Err e, s') => (Q e ∨ e = NoSpace) ∧ montado s' h0 m0 ∧ generation s' = generation s ∧
      forall j, j ∈ datos m0 -> blk s' j = blk s j
  | _ => False
  end.
Proof.
  intros Hmo Hg Hsafe HR Hbody. pose proof (montado_J _ _ _ Hmo) as HJ.
  assert (2 < block_count (dev s)) as Hn.
  { destruct Hmo as [(l & F & it & Hc & _) _ _]. eapply imagen_room, Hc. }
  set (I := intacto _ _ _) in *. unfold finish. rewrite bind_eq. unfold attempt at 1.
  destruct (Hsafe s HJ) as [HJ1 _]. unfold cuerpo_ok, wp in Hbody.
  destruct (m s) as [[a|e| |] s1]; [|..|done|done]; simpl in HJ1.
  - destruct Hbody as (h1 & m1 & Hh & Hec & Hsg & Hd & Hint & Hra).
    destruct (en_curso_publishable s h0 m0 s1 h1 m1 Hmo Hg Hec Hsg Hd) as (l & F & it & Hpb & Hm1 & Hl & Ho).
    rewrite bind_eq. unfold attempt at 1.
    pose proof (wp_commit fuel l F it (fun _ s' => published s1 l F it s') s1 ltac:(lia) Hpb (fun _ H => H)) as Hcm.
    unfold wp in Hcm. destruct (commit fuel s1) as [[[]|e| |] s2] eqn:Ec; [|..|done|done].
    + simpl. destruct (published_montado s1 h1 m1 l F it s2 Hec Hint Hpb Hm1 Hl Ho Hcm) as (Hmo2 & Hgen & Hnx & Hsame & _).
      exists h1, m1. split_and!; [done| |rewrite Hgen; unfold generation; by rewrite (sg_sb _ _ _ Hsg)].
      rewrite Hnx. by eapply HR.
    + assert (e = NoSpace) as -> by by apply space_no_space.
      apply (commit_err _ _ (blk s) (block_count (dev s)) fuel s1 _ s2 Hn HJ1) in Ec.
      destruct (rollback_montado s h0 m0 s2 Hmo Ec) as (s3 & Hrun & Hmo3 & Hsb3 & _ & Hsame).
      rewrite (bind_run _ _ _ _ _ Hrun). simpl. split_and!; [by right|done|unfold generation; by rewrite Hsb3|done].
  - destruct (rollback_montado s h0 m0 s1 Hmo HJ1) as (s3 & Hrun & Hmo3 & Hsb3 & _ & Hsame).
    rewrite (bind_run _ _ _ _ _ Hrun). simpl. split_and!; [by left|done|unfold generation; by rewrite Hsb3|done].
Qed.
End Transaccion.

(** * sosofs: what a mounted volume answers

    [read_file], [lookup], [resolve] and [read_dir] on a mounted volume: the
    bytes of the file, the object a path names, the entries of a directory in
    order. None of them changes the volume. *)
#[local] Set Default Proof Using "Type*".

(** The object [comps] leads to from [ino]: every step an entry of a
    directory. *)
Fixpoint camino (m : Items) (ino : N) (comps : list (list byte)) (fin : N) : Prop :=
  match comps with
  | [] => ino = fin
  | comp :: comps => es_dir m ino ∧ exists k c, nombra m ino comp k c ∧ camino m c comps fin
  end.

(** The order of the listing is total. *)
Lemma bytes_cmp_refl a : bytes_cmp a a = Eq.
Proof. induction a as [|x a IH]; simpl; [done|]. by rewrite N.compare_refl. Qed.
Lemma bytes_cmp_antisym a b : bytes_cmp b a = CompOpp (bytes_cmp a b).
Proof.
  revert b. induction a as [|x a IH]; intros [|y b]; simpl; try done. rewrite (N.compare_antisym (Byte.to_N x)), IH.
  by destruct (Byte.to_N x ?= Byte.to_N y).
Qed.
#[export] Instance entry_le_total : Total entry_le.
Proof.
  intros a b. unfold entry_le. rewrite (bytes_cmp_antisym a.1 b.1). destruct (bytes_cmp a.1 b.1); simpl; [lia|by left|by right].
Qed.

Section Reads.
Context {D : Type} `{BD : BlockDevice D} `{BS : !BlockDeviceSpec D} `{CRC : Crc32c}.
Implicit Types (s : Sosofs D) (m : Items).

Lemma quiet_montado s s' h m : quiet s s' -> montado s h m -> montado s' h m.
Proof.
  intros Hq [(l & F & it & Hc & Hm & Hl & Ho) Hwf Hint]. pose proof Hq as ([Hsb Hnx Hfr Hcn] & (Hd & _ & Hb) & Hbm & Hdi & Hah & Hr).
  split; [|by rewrite Hnx|].
  - exists l, F, it. split_and!; [|done|done|rewrite Hsb; by eapply quiet_owned]. destruct Hc.
    split; try congruence. rewrite Hcn, Hsb, Hfr. eapply imagen_frame; [|exact cm_imagen]. intros j _ _. by apply quiet_blk.
  - eapply integro_ext; [|exact Hint]. intros j _. by apply quiet_blk.
Qed.

(** The whole of a file. *)
Lemma read_file_spec fuel h m X ino data (Φ : list byte -> Sosofs D -> Prop) s :
  (h < fuel)%nat -> vista s h m X -> datos m ⊆ X -> archivo (blk s) m ino data -> lenN data < 2 ^ 63 ->
  (forall s', quiet s s' -> Φ data s') -> wp io_err (read_file fuel ino) Φ s.
Proof.
  intros Hf Hvi HX Har Hlen HΦ. pose proof Har as (st & exts & Hst & Hft & Hs & _). unfold read_file. wp_steps.
  eapply wp_mono; [eapply (wp_v_stat fuel h m X ino (fun st' s' => quiet s s' ∧ st' = st)); [done..|]| |].
  { intros st' s' Hq Hst'. split; [done|]. by eapply inodo_fun. }
  { intros e [He|[_ Hno]]; [done|]. by apply Hno in Hst. }
  intros _ s1 [Hq ->]. cbv beta zeta. wp_steps. rewrite Hs. unfold vec_zeros.
  rewrite (proj2 (N.leb_le _ _)) by (unfold ISIZE_MAX; lia). wp_steps.
  eapply (read_range_spec fuel h m X ino data 0 (lenN data)); [done|by eapply vista_quiet|done| |done|by rewrite lenN_zeros|lia|by rewrite lenN_zeros|].
  - eapply archivo_ext; [|exact Har]. intros j _. by apply quiet_blk.
  - intros s2 Hq2. replace (relleno data (zeros (lenN data)) 0 (lenN data)) with data; [apply HΦ; by eapply quiet_trans|].
    unfold relleno. rewrite drop_0, (drop_ge (zeros _)); [|unfold zeros; rewrite length_replicate; lia].
    rewrite app_nil_r, take_ge; [done|]. unfold lenN. lia.
Qed.

(** Reading past the end is refused. *)
Lemma read_past_end fuel h m X ino st offset len out (Φ : list byte -> Sosofs D -> Prop) s :
  (h < fuel)%nat -> vista s h m X -> inodo m ino st -> i_file_type st = FT_FILE -> i_size st < offset + len ->
  offset + len < U64 -> len <= lenN out ->
  wp (fun e => e = Corrupt ∨ io_err (D := D) e) (read_file_range fuel ino offset len out) Φ s.
Proof.
  intros Hf Hvi Hst Hft Hs Hu Hout. unfold read_file_range. rewrite (proj2 (N.ltb_ge _ _)) by done. wp_steps.
  eapply wp_mono; [eapply (wp_v_stat fuel h m X ino (fun st' s' => quiet s s' ∧ st' = st)); [done..|]| |].
  { intros st' s' Hq Hst'. split; [done|]. by eapply inodo_fun. }
  { intros e [He|[_ Hno]]; [by right|]. by apply Hno in Hst. }
  intros _ s1 [Hq ->]. cbv beta. rewrite Hft. change (FT_FILE =? FT_FILE) with true. cbn [negb]. cbv zeta.
  destruct (N.ltb_spec (i_size st) offset); [apply wp_throw; by left|]. wp_steps. apply wp_add64; [done|].
  rewrite (proj2 (N.ltb_lt _ _)) by done. apply wp_throw. by left.
Qed.

(** A path leads where its components lead. *)
Lemma resolve_spec fuel h m X path (Φ : N -> Sosofs D -> Prop) s :
  (h < fuel)%nat -> vista s h m X ->
  (forall fin s', quiet s s' -> camino m ROOT_INODE (componentes path) fin -> Φ fin s') ->
  wp (fun e => io_err (D := D) e ∨ e = NotFound ∨ e = NotADir ∨ e = NameTooLong) (resolve fuel path) Φ s.
Proof.
  intros Hf Hvi HΦ. unfold resolve. assert (forall comps ino s1, quiet s s1 ->
    (forall fin s', quiet s s' -> camino m ino comps fin -> Φ fin s') ->
    wp (fun e => io_err (D := D) e ∨ e = NotFound ∨ e = NotADir ∨ e = NameTooLong)
      (mfold (fun ino comp => st ← stat_inode fuel ino; if negb (i_file_type st =? FT_DIR) then throw NotADir else lookup fuel ino comp)
        ino comps) Φ s1) as Hgen.
  { induction comps as [|comp comps IH]; intros ino s1 Hq Hk; cbn [mfold].
    - wp_steps. by apply Hk.
    - wp_steps. eapply wp_mono; [eapply (wp_v_stat fuel h m X ino (fun st s' => quiet s1 s' ∧ inodo m ino st)); [done|by eapply vista_quiet|done]| |].
      { intros e [?|[-> _]]; [by left|right; by left]. }
      intros st s2 [Hq2 Hst]. cbv beta. destruct (N.eqb_spec (i_file_type st) FT_DIR) as [Hd|Hd]; cbn [negb].
      2: { wp_steps. right. right. by left. }
      pose proof (quiet_trans _ _ _ Hq Hq2) as Hq'.
      eapply wp_mono; [eapply (wp_v_lookup fuel h m X ino comp (fun c s' => quiet s2 s' ∧ exists k, nombra m ino comp k c)); [done|by eapply vista_quiet|]| |].
      { intros k c s' Hq3 _ Hn. split; [done|by exists k]. }
      { intros e [?|[[-> _]|[-> _]]]; [by left|by do 3 right|right; by left]. }
      intros c s3 [Hq3 [k Hn]]. cbv beta. apply IH; [by eapply quiet_trans|]. intros fin s' Hq4 Hc. apply Hk; [done|].
      split; [by exists st|]. by exists k, c. }
  apply Hgen; [|done]. apply quiet_refl. by eapply vol_dev, vista_vol.
Qed.

(** The entries of a directory, ordered by name and number. *)
Lemma read_dir_spec fuel h m X dir (Φ : list (list byte * N) -> Sosofs D -> Prop) s :
  (h < fuel)%nat -> vista s h m X ->
  (forall out s', quiet s s' -> es_dir m dir -> Sorted entry_le out ->
     (forall x, x ∈ out <-> exists name k c, nombra m dir name k c ∧ x = (from_utf8_lossy name, c)) -> Φ out s') ->
  wp (fun e => io_err (D := D) e ∨ check_fail m dir e) (read_dir fuel dir) Φ s.
Proof.
  intros Hf Hvi HΦ. unfold read_dir. wp_steps.
  eapply wp_mono; [eapply (wp_v_stat fuel h m X dir (fun st s' => quiet s s' ∧ inodo m dir st)); [done|done|done]| |].
  { intros e [?|He]; [by left|right; by left]. }
  intros st s1 [Hq Hst]. cbv beta. destruct (N.eqb_spec (i_file_type st) FT_DIR) as [Hd|Hd]; cbn [negb].
  2: { wp_steps. right. right. split_and!; [done|by exists st|]. intros (st' & Hst' & Hd'). pose proof (inodo_fun _ _ _ _ Hst Hst'). by subst. }
  cbn [Key.range fst snd]. wp_steps.
  eapply wp_mono; [eapply (wp_v_scan fuel h m X _ _ (fun out s' => quiet s1 s' ∧ tramo m _ _ out)); [done|by eapply vista_quiet|done]|by left|].
  intros out s2 [Hq2 [_ Hout]]. cbv beta. wp_steps. apply HΦ; [by eapply quiet_trans|by exists st|apply Sorted_merge_sort; apply _|].
  intros x. rewrite merge_sort_Permutation, list_elem_of_fmap. split.
  - intros ([k p] & -> & (Hk & Hr)%Hout). apply key_between in Hr as (H1 & H2 & _). simpl.
    exists (name_bytes (dirent_item_read p)), k, (d_child (dirent_item_read p)). split; [|done]. by exists p.
  - intros (name & k & c & (p & Hk & H1 & H2 & <- & <-) & ->). exists (k, p). split; [done|]. apply Hout. split; [done|].
    apply key_between. destruct (vista_items _ _ _ _ _ _ Hvi Hk) as [(_ & _ & Hw) _]. unfold U64_MAX. split_and!; [done|done|lia|lia].
Qed.
End Reads.
