(* ===== verification/SosofsOps.v ===== *)
(** * sosofs: the public operations

    [Op] names the transactions of the API; [efecto] and [contenido] are their
    abstract specification on the items and on the contents of files, [falla]
    says which errors they answer and when. Every operation refines it
    ([cuerpo_spec]), keeps the invariant and is atomic, also when the power
    fails in the middle. *)
From S2P Require Import Prelude Texto BlockDev SosofsLayout SosofsAlloc SosofsTree SosofsNode SosofsStep SosofsTreeSpec SosofsScan SosofsFile SosofsTxn SosofsCow SosofsCommit SosofsCrash SosofsVista SosofsDir SosofsNames SosofsRead SosofsData SosofsFiles SosofsAppend SosofsMontado.
Local Open Scope N_scope.
#[local] Set Default Proof Using "Type*".

(** ** The specification *)
Inductive Op :=
| OMkdir (dir : N) (name : list byte) (mtime : N)
| OCreate (dir : N) (name data : list byte) (mtime : N)
| OAppend (ino : N) (data : list byte) (mtime : N)
| OUnlink (dir : N) (name : list byte)
| ORename (od : N) (on : list byte) (nd : N) (nn : list byte) (mtime : N)
| OMtime (ino mtime : N).

Section Spec.
Context `{CRC : Crc32c}.
Implicit Types m : Items.

(** The items after, and what the operation returns. *)
Definition efecto (o : Op) m (next a : N) m' (next' : N) : Prop :=
  match o with
  | OMkdir dir name mtime =>
      a = next ∧ next' = next + 1 ∧ es_dir m dir ∧ sin_nombre m dir name ∧ nombre_valido name ∧
      enlaza (<[Key.inode next := inode_payload (mkInodeItem FT_DIR 0 mtime)]> m) dir name next m'
  | OCreate dir name data mtime =>
      a = next ∧ next' = next + 1 ∧ es_dir m dir ∧ nombre_valido name ∧
      exists m0 exts, hueco m dir name m0 ∧ creado m0 dir name next data mtime exts m'
  | OAppend ino data mtime =>
      a = ino ∧ next' = next ∧ exists old exts nuevos, anadido m ino old data mtime exts nuevos m'
  | OUnlink dir name => a = 0 ∧ next' = next ∧ quitado m dir name m'
  | ORename od on nd nn mtime =>
      a = 0 ∧ next' = next ∧ es_dir m od ∧ es_dir m nd ∧ sin_nombre m nd nn ∧ nombre_valido nn ∧
      renombrado m od on nd nn mtime m'
  | OMtime ino mtime =>
      a = 0 ∧ next' = next ∧ exists st, inodo m ino st ∧ m' = <[Key.inode ino := inode_payload (con_mtime st mtime)]> m
  end.

(** The object [x] is not one the operation rewrites or removes. *)
Definition respeta (o : Op) m (x : N) : Prop :=
  match o with
  | OCreate dir name _ _ | OUnlink dir name => forall k, ¬ nombra m dir name k x
  | OAppend ino _ _ => x ≠ ino
  | _ => True
  end.

(** The contents of files: what was written, and the others as they were. *)
Definition contenido (o : Op) (c : N -> Block) m (next : N) (c' : N -> Block) m' : Prop :=
  (forall x d, archivo c m x d -> respeta o m x -> archivo c' m' x d) ∧
  match o with
  | OCreate _ _ data _ => archivo c' m' next data
  | OAppend ino data _ => forall old, archivo c m ino old -> archivo c' m' ino (old ++ data)
  | _ => True
  end.

Definition falla (o : Op) m (e : FsError) : Prop :=
  match o with
  | OMkdir dir name _ => mkdir_fail m dir name e
  | OCreate dir name _ _ => create_fail m dir name e
  | OAppend ino _ _ => e = NoSpace ∨ (e = NotFound ∧ forall st, ¬ inodo m ino st) ∨
      (e = NotAFile ∧ exists st, inodo m ino st ∧ i_file_type st ≠ FT_FILE)
  | OUnlink dir name => unlink_fail m dir name e
  | ORename od on nd nn _ => rename_fail m od on nd nn e
  | OMtime ino _ => e = NoSpace ∨ (e = NotFound ∧ forall st, ¬ inodo m ino st)
  end.

(** The levels the tree may grow, and the entries an operation adds. *)
Definition crece (o : Op) (c : N -> Block) m (k : nat) : Prop :=
  match o with
  | OCreate _ _ data _ => (2 + bloques_de_largo (lenN data) <= k)%nat ∧ lenN data < 2 ^ 63
  | OAppend ino data _ => data ≠ [] ∧ forall old, archivo c m ino old ->
      (2 + bloques_de_largo (lenN (old ++ data)) <= k)%nat ∧ lenN (old ++ data) < 2 ^ 63
  | _ => (2 <= k)%nat
  end.
Definition op_mtime (o : Op) : N :=
  match o with
  | OMkdir _ _ t | OCreate _ _ _ t | OAppend _ _ t | ORename _ _ _ _ t | OMtime _ t => t
  | OUnlink _ _ => 0
  end.
Definition op_inode (o : Op) : N := match o with OAppend ino _ _ | OMtime ino _ => ino | _ => 0 end.
End Spec.

(** ** The operations *)
Section Ops.
Context {D : Type} `{BlockDevice D} `{Crc32c}.

Definition cuerpo (n fuel : nat) (o : Op) : F D N :=
  match o with
  | OMkdir dir name mtime => mkdir_inner n fuel dir name mtime
  | OCreate dir name data mtime => create_file_inner n fuel dir name data mtime
  | OAppend ino data mtime => append_file_inner fuel ino data mtime
  | OUnlink dir name => unlink_inner fuel dir name;; mret 0
  | ORename od on nd nn mtime => rename_inner n fuel od on nd nn mtime;; mret 0
  | OMtime ino mtime => set_mtime_inner fuel ino mtime;; mret 0
  end.

(** The function of the API, its result as a number. *)
Definition api (n fuel : nat) (o : Op) : F D N :=
  match o with
  | OMkdir dir name mtime => mkdir n fuel dir name mtime
  | OCreate dir name data mtime => create_file n fuel dir name data mtime
  | OAppend ino data mtime => append_file fuel ino data mtime;; mret ino
  | OUnlink dir name => unlink fuel dir name;; mret 0
  | ORename od on nd nn mtime => rename n fuel od on nd nn mtime;; mret 0
  | OMtime ino mtime => set_mtime fuel ino mtime;; mret 0
  end.

(** What runs before a superblock is written: the bodies, of [truncate_file] too,
    and the bitmap of the new generation. *)
Inductive Tarea := TOp (o : Op) | TTruncar (ino new_size mtime : N) | TPublicar.
Definition tarea (n fuel : nat) (t : Tarea) : F D unit :=
  match t with
  | TOp o => cuerpo n fuel o;; mret tt
  | TTruncar ino new_size mtime => truncate_inner fuel ino new_size mtime
  | TPublicar => publicar_bitmap;; mret tt
  end.

Lemma finish_unit fuel (m : F D unit) (x : N) s : (finish fuel m;; mret x) s = finish fuel (m;; mret x) s.
Proof.
  unfold finish, attempt, mbind, M_bind, mret, M_ret. destruct (m s) as [[[]|e| |] s1]; [| |done|done].
  - by destruct (commit fuel s1) as [[[]|e| |] s2]; [|destruct (rollback s2) as [[[]|e'| |] s3]|..].
  - by destruct (rollback s1) as [[[]|e'| |] s3].
Qed.
Lemma append_ino fuel ino data mtime s a s' : append_file_inner fuel ino data mtime s = (Ok a, s') -> a = ino.
Proof.
  unfold append_file_inner. destruct data as [|b data]; [by intros [= ->]|]. intros Hrun.
  apply bind_Ok_inv in Hrun as (st & s1 & _ & Hrun). case_match; [done|].
  apply bind_Ok_inv in Hrun as (ns & s2 & _ & Hrun). cbn [Key.range fst snd] in Hrun.
  apply bind_Ok_inv in Hrun as (ex & s3 & _ & Hrun). case_match; [done|].
  apply bind_Ok_inv in Hrun as (re & s4 & _ & Hrun). case_match; [done|].
  apply bind_Ok_inv in Hrun as (bu & s5 & _ & Hrun).
  apply bind_Ok_inv in Hrun as (? & s6 & _ & Hrun). apply bind_Ok_inv in Hrun as (? & s7 & _ & Hrun).
  by injection Hrun as ->.
Qed.

Lemma api_finish n fuel o s : api n fuel o s = finish fuel (cuerpo n fuel o) s.
Proof.
  destruct o; cbn [api cuerpo]; try done; try apply finish_unit.
  unfold append_file. pose proof (append_ino fuel ino data mtime s) as Hino.
  unfold finish, attempt, mbind, M_bind, mret, M_ret. 
  destruct (append_file_inner fuel ino data mtime s) as [[a|e| |] s1]; [| |done|done].
  - rewrite (Hino a s1 eq_refl). by destruct (commit fuel s1) as [[[]|e| |] s2]; [|destruct (rollback s2) as [[[]|e'| |] s3]|..].
  - by destruct (rollback s1) as [[[]|e'| |] s3].
Qed.
End Ops.

(** ** Files through the changes of items *)
Section Frames.
Context `{CRC : Crc32c}.
Implicit Types m : Items.

Lemma con_mtime_wf st t : inode_item_wf st -> t < U64 -> inode_item_wf (con_mtime st t).
Proof. intros (? & ? & ?) ?. by split_and!. Qed.
Lemma inodo_read_wf m ino st : inodo m ino st -> inode_item_wf st.
Proof.
  intros (p & _ & <-). unfold inode_item_wf, inode_item_read. simpl.
  split_and!; [apply (field_lt _ 1)|apply (field_lt _ 8)|apply (field_lt _ 8)].
Qed.

Lemma archivo_put c m x d ino st t : archivo c m x d -> inodo m ino st -> t < U64 ->
  archivo c (<[Key.inode ino := inode_payload (con_mtime st t)]> m) x d.
Proof.
  intros Ha Hst Ht. destruct (decide (x = ino)) as [->|Hne].
  - destruct Ha as (st' & exts & Hst' & Hft & Hs & [Hso Hex] & Hti). pose proof (inodo_fun _ _ _ _ Hst Hst') as <-.
    exists (con_mtime st t), exts. split_and!; [|done|done| |done].
    + rewrite inodo_new. apply inode_payload_read, con_mtime_wf; [by eapply inodo_read_wf|done].
    + split; [done|]. intros k p. rewrite Hex, !key_between. split; intros (Hk & H1 & H2 & H3).
      * rewrite lookup_insert_ne; [done|]. by intros <-.
      * rewrite lookup_insert_ne in Hk; [done|]. by intros <-.
  - eapply archivo_frame; [done| |exact Ha]. intros k Hk _. rewrite lookup_insert_ne; [done|]. by intros <-.
Qed.
Lemma archivo_enlaza c m dir name ch m' x d : enlaza m dir name ch m' -> archivo c m x d -> archivo c m' x d.
Proof.
  intros (off & _ & _ & ->). apply archivo_frame; [done|]. intros k _ Hk. rewrite lookup_insert_ne; [done|]. by intros <-.
Qed.
Lemma archivo_desenlaza c m k x d : k_kind k = KIND_DIRENT -> archivo c m x d -> archivo c (delete k m) x d.
Proof.
  intros Hk. apply archivo_frame; [done|]. intros k' _ Hk'. rewrite lookup_delete_ne; [done|]. intros ->. by apply Hk'.
Qed.
Lemma archivo_new c m next st x d : archivo c m x d -> x ≠ next ->
  archivo c (<[Key.inode next := inode_payload st]> m) x d.
Proof.
  intros Ha Hne. eapply archivo_frame; [done| |exact Ha]. intros k Hk _. rewrite lookup_insert_ne; [done|]. by intros <-.
Qed.
Lemma archivo_lt c m next x d : bien_formado m next -> archivo c m x d -> x < next.
Proof. intros Hbf (st & exts & (p & Hp & _) & _). by apply (bf_next _ _ Hbf) in Hp. Qed.

Lemma inodo_enlaza m dir name ch m' x st : enlaza m dir name ch m' -> inodo m' x st <-> inodo m x st.
Proof. intros (off & _ & _ & ->). by apply inodo_insert. Qed.
Lemma inodo_put m ino st t x st' : inodo m ino st -> t < U64 ->
  inodo (<[Key.inode ino := inode_payload (con_mtime st t)]> m) x st' ->
  exists st2, inodo m x st2 ∧ i_file_type st2 = i_file_type st'.
Proof.
  intros Hst Ht Hx. destruct (decide (x = ino)) as [->|Hne].
  - exists st. split; [done|]. rewrite inodo_new, inode_payload_read in Hx; [by subst|].
    apply con_mtime_wf; [by eapply inodo_read_wf|done].
  - exists st'. split; [|done]. rewrite inodo_insert in Hx; [done|]. by intros [= ->].
Qed.

(** Every file stays readable if the old ones do and the new ones are. *)
Lemma integro_step c c' m m' : integro c m ->
  (forall x d, archivo c m x d -> (exists st, inodo m' x st) -> lenN d < 2 ^ 63 -> exists d', archivo c' m' x d' ∧ lenN d' < 2 ^ 63) ->
  (forall x st, inodo m' x st -> i_file_type st = FT_FILE ->
     (exists st', inodo m x st' ∧ i_file_type st' = FT_FILE) ∨ exists d, archivo c' m' x d ∧ lenN d < 2 ^ 63) ->
  integro c' m'.
Proof.
  intros Hint Hkeep Hcases x st Hst Hf. destruct (Hcases x st Hst Hf) as [(st' & Hst' & Hf')|?]; [|done].
  destruct (Hint x st' Hst' Hf') as (d & Ha & Hl). apply (Hkeep x d); [done|by exists st|done].
Qed.
Lemma quitado_inodo m next dir name m' x st : bien_formado m next -> quitado m dir name m' -> inodo m' x st ->
  inodo m x st ∧ forall k, ¬ nombra m dir name k x.
Proof.
  intros Hbf (k & ino & st0 & exts & Hk & Hst & _ & _ & ->) (p & Hp & Hr).
  apply lookup_delete_Some in Hp as [_ Hp]. apply lookup_delete_Some in Hp as [Hne Hp]. rewrite borra_lookup in Hp.
  case_decide; [done|]. split; [by exists p|]. intros k' Hk'. pose proof (bf_names _ _ Hbf _ _ _ _ _ _ Hk Hk') as <-.
  destruct (nombra_fun _ _ _ _ _ _ _ _ Hk Hk') as (_ & _ & ->). by apply Hne.
Qed.

Lemma hueco_frame c m dir name m0 x d : hueco m dir name m0 -> (forall k, ¬ nombra m dir name k x) ->
  archivo c m x d -> archivo c m0 x d.
Proof. intros [[_ ->]|[Hq _]] Hno Ha; [done|]. by eapply quitado_frame. Qed.
Lemma hueco_inodo m next dir name m0 x st : bien_formado m next -> hueco m dir name m0 -> inodo m0 x st ->
  inodo m x st ∧ forall k, ¬ nombra m dir name k x.
Proof. intros Hbf [[Hno ->]|[Hq _]] Hx; [|by eapply quitado_inodo]. split; [done|]. intros k. apply Hno. Qed.
Lemma hueco_dir m next dir name m0 : bien_formado m next -> hueco m dir name m0 -> es_dir m dir -> es_dir m0 dir.
Proof.
  intros Hbf [[_ ->]|[Hq Hnd]] (st & Hst & Hd); [by exists st|]. exists st. split; [|done].
  destruct Hq as (k & ino & st0 & exts & Hk & Hst0 & Hdir & Hfile & ->).
  rewrite !inodo_delete; [| |by destruct Hk as (? & _ & _ & ? & _); intros ->].
  - destruct Hst as (p & Hp & Hr). exists p. split; [|done]. rewrite borra_lookup, decide_False; [done|].
    intros (e & He & Hin)%list_elem_of_fmap. destruct (decide (i_file_type st0 = FT_DIR)) as [Hd0|Hd0].
    + destruct (Hdir Hd0) as [-> _]. set_solver.
    + destruct (extents_kind _ _ _ _ (Hfile Hd0) Hin) as (_ & _ & H1). by rewrite <- He in H1.
  - intros [= ->]. apply (Hnd k dir Hk). by exists st.
Qed.

End Frames.

(** ** Every operation refines its specification *)
Section Refinement.
Context {D : Type} `{BD : BlockDevice D} `{BS : !BlockDeviceSpec D} `{RD : !ReliableDevice D} `{CRC : Crc32c}.
Implicit Types (s : Sosofs D) (m : Items).

(** Room for the operation: in the tree, in the counters and in the limits
    of the proofs (fuel, slots to probe). *)
Record cabe (n fuel : nat) (o : Op) s (h : nat) m (k : nat) : Prop := {
  ca_gen : sb_generation (sb s) + 1 < U64;
  ca_next : next_inode s + 1 < U64;
  ca_mtime : op_mtime o < U64;
  ca_inode : op_inode o < U64;
  ca_crece : crece o (blk s) m k;
  ca_fuel : (h + k < fuel)%nat;
  ca_level : (h + k <= 255)%nat;
  ca_slots : (size m + 1 + k < n)%nat;
  ca_slots64 : N.of_nat n <= U64;
}.

(** What a body leaves. *)
Definition deja (o : Op) s (h : nat) m (k : nat) (a : N) (h1 : nat) m1 (nx : N) (c : N -> Block) : Prop :=
  (h1 <= h + k)%nat ∧ efecto o m (next_inode s) a m1 nx ∧ contenido o (blk s) m (next_inode s) c m1.

Definition cuerpo_hecho (n fuel : nat) o s h m k : Prop :=
  cuerpo_ok fuel s (falla o m) (deja o s h m k) (cuerpo n fuel o).

Lemma cuerpo_mkdir n fuel dir name mtime s h m k : montado s h m -> cabe n fuel (OMkdir dir name mtime) s h m k ->
  cuerpo_hecho n fuel (OMkdir dir name mtime) s h m k.
Proof.
  intros Hmo [Hg Hnx Hmt _ Hk Hfu Hle Hsl Hs64]. simpl in *. pose proof (montado_en_curso _ _ _ Hmo Hg) as Hec.
  pose proof (ec_wf _ _ _ _ Hec) as Hbf. unfold cuerpo_hecho, cuerpo_ok, cuerpo.
  eapply mkdir_spec; [exact Hec|lia|lia|done|lia|done|].
  intros m1 s1 Hdir Hno Hval Hen Hvi Hsg Hd Hnx1. set (st := mkInodeItem FT_DIR 0 mtime) in *.
  assert (inode_item_wf st) as Hst by by split_and!.
  assert (contenido (OMkdir dir name mtime) (blk s) m (next_inode s) (blk s1) m1) as Hcont.
  { split; [|done]. intros x d Ha _. pose proof (archivo_lt _ _ _ _ _ Hbf Ha) as Hlt.
    eapply archivo_enlaza; [exact Hen|]. apply archivo_new; [|lia]. eapply archivo_ext; [|exact Ha]. apply Hsg. }
  exists (h + 2)%nat, m1. split; [lia|]. split; [|split; [by eapply sigue_nil|split; [done|split; [|split; [lia|split; [done|done]]]]]].
  - assert (datos m1 ≡ₚ datos m) as Hdat.
    { destruct Hen as (off & _ & _ & ->). by rewrite !datos_insert_other. }
    split; [by eapply vista_perm| |rewrite Hnx1; lia]. rewrite Hnx1.
    eapply (bf_link _ _ dir name (next_inode s)); [| | |exact Hval| | |lia| |exact Hen].
    + replace (next_inode s + 1) with (N.max (next_inode s) (next_inode s + 1)) by lia. apply bf_put; [done|done|by left].
    + destruct Hdir as (st' & Hst' & Hd'). exists st'. split; [|done]. rewrite inodo_insert; [done|].
      intros [= Heq]. pose proof (inodo_lt _ _ _ _ _ _ Hec Hst'). lia.
    + intros k' c. rewrite nombra_insert_ne by done. apply Hno.
    + exists st. rewrite inodo_new. by apply inode_payload_read.
    + pose proof (en_curso_root _ _ _ _ Hec). unfold ROOT_INODE. lia.
    + intros d' n' k'. rewrite nombra_insert_ne by done. intros Hkk.
      destruct (bf_entry _ _ Hbf _ _ _ _ Hkk) as (_ & _ & _ & st' & Hst'). pose proof (inodo_lt _ _ _ _ _ _ Hec Hst'). lia.
  - eapply integro_step; [apply Hmo| |].
    + intros x d Ha _ Hl. exists d. split; [|done]. by apply Hcont.
    + intros x st' Hx Hf. rewrite (inodo_enlaza _ _ _ _ _ _ _ Hen) in Hx. left. exists st'. split; [|done].
      destruct (decide (x = next_inode s)) as [->|Hne].
      * rewrite inodo_new, inode_payload_read in Hx by done. subst st'. done.
      * rewrite inodo_insert in Hx; [done|]. intros [= Heq]; by apply Hne.
Qed.

Lemma cuerpo_mtime n fuel ino mtime s h m k : montado s h m -> cabe n fuel (OMtime ino mtime) s h m k ->
  cuerpo_hecho n fuel (OMtime ino mtime) s h m k.
Proof.
  intros Hmo [Hg Hnx Hmt Hin Hk Hfu Hle Hsl Hs64]. simpl in *. pose proof (montado_en_curso _ _ _ Hmo Hg) as Hec.
  pose proof (ec_wf _ _ _ _ Hec) as Hbf. unfold cuerpo_hecho, cuerpo_ok, cuerpo. wp_steps.
  eapply put_mtime_spec; [apply Hec|lia|lia|done|]. intros st s1 Hst Hvi Hsg Hd Hnx1. wp_steps.
  pose proof (inodo_lt _ _ _ _ _ _ Hec Hst) as Hlt.
  set (m1 := <[_ := _]> m) in *.
  assert (contenido (OMtime ino mtime) (blk s) m (next_inode s) (blk s1) m1) as Hcont.
  { split; [|done]. intros x d Ha _. apply archivo_put; [|done|done]. eapply archivo_ext; [|exact Ha]. apply Hsg. }
  exists (S h), m1. split; [lia|]. split; [|split; [by eapply sigue_nil|split; [done|split; [|split; [lia|split; [|done]]]]]];
    [| |split; [done|]; split; [done|]; by exists st].
  - split; [eapply vista_perm; [|exact Hvi]; symmetry; by apply datos_insert_other| |rewrite Hnx1; lia].
    rewrite Hnx1. replace (next_inode s) with (N.max (next_inode s) (ino + 1)) by lia. apply bf_put; [done| |right; by exists st].
    apply con_mtime_wf; [by eapply inodo_read_wf|done].
  - eapply integro_step; [apply Hmo| |].
    + intros x d Ha _ Hl. exists d. split; [|done]. by apply Hcont.
    + intros x st' Hx Hf. left. destruct (inodo_put _ _ _ _ _ _ Hst Hmt Hx) as (st2 & ? & ?). exists st2. split; [done|congruence].
Qed.

Lemma cuerpo_rename n fuel od on nd nn mtime s h m k : montado s h m -> cabe n fuel (ORename od on nd nn mtime) s h m k ->
  cuerpo_hecho n fuel (ORename od on nd nn mtime) s h m k.
Proof.
  intros Hmo [Hg Hnx Hmt Hin Hk Hfu Hle Hsl Hs64]. simpl in *. pose proof (montado_en_curso _ _ _ Hmo Hg) as Hec.
  pose proof (ec_wf _ _ _ _ Hec) as Hbf. unfold cuerpo_hecho, cuerpo_ok, cuerpo. wp_steps.
  eapply rename_spec; [exact Hec|lia|lia|lia|done|]. intros m' s1 Hod Hnd Hno Hval Hren Hvi Hsg Hd Hnx1. wp_steps.
  pose proof Hren as (dk & ino & st & m1 & Hdk & Hst & Hen & Hm').
  pose proof (inodo_lt _ _ _ _ _ _ Hec Hst) as Hlt.
  assert (k_kind dk = KIND_DIRENT) as Hkk by by destruct Hdk as (? & _ & _ & ? & _).
  destruct (bf_entry _ _ Hbf _ _ _ _ Hdk) as (_ & Hroot & _ & _).
  assert (forall x st', inodo m1 x st' <-> inodo m x st') as Hi.
  { intros x st'. rewrite (inodo_enlaza _ _ _ _ _ _ _ Hen). apply inodo_delete. intros ->. done. }
  assert (contenido (ORename od on nd nn mtime) (blk s) m (next_inode s) (blk s1) m') as Hcont.
  { split; [|done]. intros x d Ha _. rewrite Hm'. apply archivo_put; [|by apply Hi|done].
    eapply archivo_enlaza; [exact Hen|]. apply archivo_desenlaza; [done|]. eapply archivo_ext; [|exact Ha]. apply Hsg. }
  exists (h + 2)%nat, m'. split; [lia|]. split; [|split; [by eapply sigue_nil|split; [done|split; [|split; [lia|split; [|done]]]]]];
    [| |split; [done|]; split; [done|]; by split_and!].
  - assert (datos m' ≡ₚ datos m) as Hdat.
    { rewrite Hm', datos_insert_other by done. destruct Hen as (off & _ & _ & ->). rewrite datos_insert_other by done.
      apply datos_delete_other. by rewrite Hkk. }
    split; [by eapply vista_perm| |rewrite Hnx1; lia]. rewrite Hnx1, Hm'.
    replace (next_inode s) with (N.max (next_inode s) (ino + 1)) by lia.
    apply bf_put; [|apply con_mtime_wf; [by eapply inodo_read_wf|done]|right; exists st; split; [by apply Hi|done]].
    eapply (bf_link _ _ nd nn ino); [| | |exact Hval| |exact Hroot|lia| |exact Hen].
    + apply bf_delete; [done|by rewrite Hkk].
    + destruct Hnd as (st' & Hst' & Hd'). exists st'. split; [|done]. apply inodo_delete; [by intros ->|done].
    + intros k' c [_ Hk']%nombra_delete. by apply Hno in Hk'.
    + exists st. apply inodo_delete; [by intros ->|done].
    + intros d' n' k' [Hne Hk']%nombra_delete. apply Hne. by eapply (bf_links _ _ Hbf).
  - eapply integro_step; [apply Hmo| |].
    + intros x d Ha _ Hl. exists d. split; [|done]. by apply Hcont.
    + intros x st' Hx Hf. left. rewrite Hm' in Hx. apply inodo_put in Hx as (st2 & Hx & Ht); [|by apply Hi|done].
      exists st2. split; [by apply Hi|congruence].
Qed.

Lemma quitado_bf s h m X dir name m' : en_curso s h m X -> quitado m dir name m' -> bien_formado m' (next_inode s).
Proof.
  intros Hec Hq. eapply (bf_quitado m (next_inode s) dir name m'); [|intros k p Hk|apply Hec|done].
  - pose proof (ec_next _ _ _ _ Hec). lia.
  - by destruct (vista_items _ _ _ _ _ _ (ec_vista _ _ _ _ Hec) Hk).
Qed.

Lemma cuerpo_unlink n fuel dir name s h m k : montado s h m -> cabe n fuel (OUnlink dir name) s h m k ->
  cuerpo_hecho n fuel (OUnlink dir name) s h m k.
Proof.
  intros Hmo [Hg Hnx Hmt Hin Hk Hfu Hle Hsl Hs64]. simpl in *. pose proof (montado_en_curso _ _ _ Hmo Hg) as Hec.
  pose proof (ec_wf _ _ _ _ Hec) as Hbf. unfold cuerpo_hecho, cuerpo_ok, cuerpo. wp_steps.
  eapply unlink_spec; [exact Hec|lia|]. intros m' s1 Hq Hvi Hsg Hd Hnx1. wp_steps.
  assert (contenido (OUnlink dir name) (blk s) m (next_inode s) (blk s1) m') as Hcont.
  { split; [|done]. intros x d Ha Hres. eapply archivo_ext; [apply Hsg|]. eapply quitado_frame; [exact Hq|exact Hres|done]. }
  exists h, m'. split; [lia|]. split; [|split; [by eapply sigue_nil|split; [done|split; [|split; [lia|split; [|done]]]]]];
    [| |by split_and!].
  - split; [done| |rewrite Hnx1; lia]. rewrite Hnx1. by eapply quitado_bf.
  - eapply integro_step; [apply Hmo| |].
    + intros x d Ha [st Hst] Hl. exists d. split; [|done]. apply Hcont; [done|]. by destruct (quitado_inodo _ _ _ _ _ _ _ Hbf Hq Hst).
    + intros x st Hx Hf. left. destruct (quitado_inodo _ _ _ _ _ _ _ Hbf Hq Hx) as [Hst _]. by exists st.
Qed.

Lemma cuerpo_create n fuel dir name data mtime s h m k : montado s h m -> cabe n fuel (OCreate dir name data mtime) s h m k ->
  cuerpo_hecho n fuel (OCreate dir name data mtime) s h m k.
Proof.
  intros Hmo [Hg Hnx Hmt Hin [Hk Hlen] Hfu Hle Hsl Hs64]. simpl in *. pose proof (montado_en_curso _ _ _ Hmo Hg) as Hec.
  pose proof (ec_wf _ _ _ _ Hec) as Hbf. unfold cuerpo_hecho, cuerpo_ok, cuerpo.
  eapply create_spec; [exact Hec|lia|lia|done|done|lia|done|].
  intros m0 exts m' s1 Hdir Hval Hhu Hcr Hti Hvi Hsg Hd Hnx1. set (next := next_inode s) in *.
  destruct (hueco_bf _ _ _ _ _ _ _ Hec Hhu) as [Hbf0 Hno0]. fold next in Hbf0.
  pose proof (hueco_dir _ _ _ _ _ Hbf Hhu Hdir) as Hdir0.
  pose proof (creado_datos _ _ _ _ _ _ _ _ Hbf0 Hnx Hmt Hlen Hdir0 Hno0 Hval Hcr) as Hdat.
  pose proof (creado_archivo _ _ _ _ _ _ _ _ Hbf0 Hnx Hmt Hlen Hdir0 Hno0 Hval Hcr _ Hti) as Har.
  assert (contenido (OCreate dir name data mtime) (blk s) m next (blk s1) m') as Hcont.
  { split; [|done]. intros x d Ha Hres. pose proof (archivo_lt _ _ _ _ _ Hbf Ha) as Hlt.
    eapply (creado_frame _ _ _ _ _ _ _ _ Hbf0 Hnx Hmt Hlen Hdir0 Hno0 Hval Hcr (blk s)); [lia|apply Hsg|]. by eapply hueco_frame. }
  exists (h + 2 + bloques_de_largo (lenN data))%nat, m'. split; [lia|].
  split; [|split; [by eapply sigue_nil|split; [done|split; [|split; [lia|split; [|done]]]]]];
    [| |split; [done|]; split; [done|]; split; [done|]; split; [done|]; by exists m0, exts].
  - split; [eapply vista_perm; [by symmetry|done]| |rewrite Hnx1; lia]. rewrite Hnx1.
    by apply (creado_bf m0 next dir name data mtime exts m').
  - eapply integro_step; [apply Hmo| |].
    + intros x d Ha [st Hst] Hl. exists d. split; [|done]. apply Hcont; [done|].
      pose proof (archivo_lt _ _ _ _ _ Hbf Ha) as Hlt. simpl. intros k' Hk'.
      destruct Hhu as [[Hno ->]|[Hq _]]; [by apply Hno in Hk'|].
      assert (inodo m0 x st) as Hst0.
      { destruct Hcr as [[_ Hex] (off & _ & _ & Hm')]. rewrite Hm' in Hst. rewrite inodo_insert in Hst by done.
        destruct Hst as (p & Hp & Hr). exists p. split; [|done].
        rewrite sobre_other in Hp by (intros e He; right; by destruct (Hex e He) as (_ & -> & _)).
        rewrite lookup_insert_ne in Hp; [done|]. intros [= Hx]. lia. }
      by destruct (quitado_inodo _ _ _ _ _ _ _ Hbf Hq Hst0) as [_ Hn]; apply Hn in Hk'.
    + intros x st Hx Hf. destruct (decide (x = next)) as [->|Hne]; [right; by exists data|]. left.
      assert (inodo m0 x st) as Hst0.
      { destruct Hcr as [[_ Hex] (off & _ & _ & Hm')]. rewrite Hm' in Hx. rewrite inodo_insert in Hx by done.
        destruct Hx as (p & Hp & Hr). exists p. split; [|done].
        rewrite sobre_other in Hp by (intros e He; right; by destruct (Hex e He) as (_ & -> & _)).
        rewrite lookup_insert_ne in Hp; [done|]. intros [= Hx]. by apply Hne. }
      exists st. split; [|done]. by destruct (hueco_inodo _ _ _ _ _ _ _ Hbf Hhu Hst0).
Qed.

Lemma cuerpo_append n fuel ino data mtime s h m k : montado s h m -> cabe n fuel (OAppend ino data mtime) s h m k ->
  cuerpo_hecho n fuel (OAppend ino data mtime) s h m k.
Proof.
  intros Hmo [Hg Hnx Hmt Hin [Hne Hk] Hfu Hle Hsl Hs64]. simpl in *. pose proof (montado_en_curso _ _ _ Hmo Hg) as Hec.
  pose proof (ec_wf _ _ _ _ Hec) as Hbf. unfold cuerpo_hecho, cuerpo_ok, cuerpo.
  destruct (m !! Key.inode ino) as [p|] eqn:Ep.
  2: { unfold append_file_inner. destruct data as [|b0 data]; [done|]. wp_steps.
    eapply wp_mono; [eapply (wp_v_stat fuel h m _ ino (fun _ _ => False)); [lia|apply Hec|]| |done].
    - intros st s' _ (p & Hp & _). congruence.
    - intros e [[]%no_io|He]. right. by left. }
  set (st := inode_item_read p). assert (inodo m ino st) as Hst by by exists p.
  destruct (decide (i_file_type st = FT_FILE)) as [Hft|Hft].
  2: { unfold append_file_inner. destruct data as [|b0 data]; [done|]. wp_steps.
    eapply wp_mono; [eapply (wp_v_stat fuel h m _ ino (fun st' s' => inodo m ino st')); [lia|apply Hec|done]| |].
    - intros e [[]%no_io|He]. right. by left.
    - intros st' s' Hst'. pose proof (inodo_fun _ _ _ _ Hst Hst') as <-. cbv beta. rewrite (proj2 (N.eqb_neq _ _)) by done.
      cbn [negb]. apply wp_throw. right. right. split; [done|]. by exists st. }
  destruct (mo_int _ _ _ Hmo ino st Hst Hft) as (old & Har & _). destruct (Hk old Har) as [Hk' Hlen].
  eapply (wp_mono append_fail); [|intros e ->; by left|intros a s' HH; exact HH].
  eapply (append_spec fuel h m ino old data mtime); [exact Hec|done|done|done|done|lia|lia|].
  { intros exts nuevos m' s1 Han Har1 Hvi Hsg Hd Hnx1.
    assert (lenN (old ++ data) < U64) as Hlen64 by (unfold U64; lia).
    assert (contenido (OAppend ino data mtime) (blk s) m (next_inode s) (blk s1) m') as Hcont.
    { split.
      - intros x d Ha Hres. eapply (anadido_frame m ino old data mtime exts nuevos m'); [done|done|done|exact Hres|apply Hsg|exact Ha].
      - intros old' Har'. enough (old' = old) as -> by done.
        destruct Har as (st1 & ex1 & Hst1 & _ & Hs1 & Hex1 & Hti1), Har' as (st2 & ex2 & Hst2 & _ & Hs2 & Hex2 & Hti2).
        pose proof (tramo_unique _ _ _ _ _ Hex1 Hex2) as <-. pose proof (inodo_fun _ _ _ _ Hst1 Hst2) as <-.
        eapply tiras_fun; [exact Hti2|exact Hti1|congruence]. }
    exists (h + 1 + bloques_de_largo (lenN (old ++ data)))%nat, m'. split; [lia|].
    split; [|split; [by eapply sigue_nil|split; [done|split; [|split; [lia|split; [|done]]]]]];
      [| |split; [done|]; split; [done|]; by exists old, exts, nuevos].
    - split; [done| |rewrite Hnx1; lia]. rewrite Hnx1. eapply (anadido_bf m ino old data mtime exts nuevos m'); [done..|by exists st].
    - eapply integro_step; [apply Hmo| |].
      + intros x d Ha _ Hl. destruct (decide (x = ino)) as [->|Hx]; [by exists (old ++ data)|]. exists d. split; [|done].
        apply Hcont; [done|exact Hx].
      + intros x st' Hx Hf. destruct (decide (x = ino)) as [->|Hne']; [right; by exists (old ++ data)|]. left. exists st'. split; [|done].
        destruct Han as (_ & [_ Hnv] & ->). destruct Hx as (q & Hq & Hr). exists q. split; [|done].
        rewrite sobre_other in Hq by (intros e He; right; by destruct (Hnv e He) as (_ & -> & _)).
        rewrite lookup_insert_ne in Hq; [done|]. intros [= Hx]. by apply Hne'. }
Qed.

(** Every body leaves what its operation says, or answers one of its errors. *)
Lemma cuerpo_spec n fuel o s h m k : montado s h m -> cabe n fuel o s h m k -> cuerpo_hecho n fuel o s h m k.
Proof.
  destruct o; [apply cuerpo_mkdir|apply cuerpo_create|apply cuerpo_append|apply cuerpo_unlink|apply cuerpo_rename|apply cuerpo_mtime].
Qed.

Lemma safe_cuerpo fr sb0 I `{!Stable fr I} n fuel o : safe fr sb0 I (cuerpo n fuel o).
Proof using BD BS CRC.
  destruct o; cbn [cuerpo]; [by apply safe_mkdir|by apply safe_create|by apply safe_append| | |];
    (apply safe_bind; [done| |by intros; apply safe_ret]); [by apply safe_unlink|by apply safe_rename|by apply safe_set_mtime].
Qed.

Lemma safe_tarea fr sb0 I `{!Stable fr I} n fuel t : safe fr sb0 I (tarea n fuel t).
Proof using BD BS CRC.
  destruct t as [o|ino z mt|]; cbn [tarea]; [|by apply safe_truncate|];
    (apply safe_bind; [done| |by intros; apply safe_ret]); [by apply safe_cuerpo|by apply safe_publicar_bitmap].
Qed.

Lemma deja_estable o s h m k : estable (deja o s h m k).
Proof.
  intros a h1 m1 nx c c' Hc (H1 & H2 & [H3 H4]). split_and!; [done|done|split].
  - intros x d Ha Hr. eapply archivo_ext; [exact Hc|]. by apply H3.
  - destruct o; try done; simpl in *; [by eapply archivo_ext|]. intros old Ha. eapply archivo_ext; [exact Hc|]. by apply H4.
Qed.

(** The API: all or nothing. *)
Lemma api_spec n fuel o s h m k : montado s h m -> cabe n fuel o s h m k ->
  match api n fuel o s with
  | (Ok a, s') => exists h' m', (h' <= h + k)%nat ∧ montado s' h' m' ∧ efecto o m (next_inode s) a m' (next_inode s') ∧
      contenido o (blk s) m (next_inode s) (blk s') m' ∧ generation s' = generation s + 1
  | (Err e, s') => (falla o m e ∨ e = NoSpace) ∧ montado s' h m ∧ generation s' = generation s ∧
      forall ino d, archivo (blk s) m ino d -> archivo (blk s') m ino d
  | _ => False
  end.
Proof.
  intros Hmo Hca. rewrite api_finish.
  pose proof (finish_montado fuel (cuerpo n fuel o) (falla o m) (deja o s h m k) s h m Hmo (ca_gen _ _ _ _ _ _ _ Hca)
    (safe_cuerpo _ _ _ n fuel o) (deja_estable o s h m k) (cuerpo_spec n fuel o s h m k Hmo Hca)) as Hfin.
  destruct (finish fuel (cuerpo n fuel o) s) as [[a|e| |] s']; [|..|done|done].
  - destruct Hfin as (h1 & m1 & Hmo1 & (H1 & H2 & H3) & Hg). exists h1, m1. by split_and!.
  - destruct Hfin as (H1 & H2 & H3 & H4). split; [done|]. split; [done|]. split; [done|]. intros ino d. by apply archivo_ext.
Qed.
End Refinement.

(** ** Power loss *)
Section Remontado.
Context {C : Type} `{BC : BlockDevice C} `{SC : !BlockDeviceSpec C} `{CRC : Crc32c}.
Context {E : Type} `{BE : BlockDevice E} `{SE : !BlockDeviceSpec E}.

(** The volume of a medium that kept the blocks of a generation. *)
Lemma remontado_en (s : Sosofs C) (s2 : Sosofs E) l F it h m :
  committed s l F it -> mapa it = m -> (l <= h)%nat -> owned s (F ++ bitmap_run (sb s) ++ datos m) ->
  bien_formado m (next_inode s) -> integro (blk s) m ->
  committed s2 l F it -> sb s2 = sealed (sb s) -> frozen s2 = frozen s ->
  (forall j, j < sb_block_count (sb s) -> bit (frozen s) j = Some true -> blk s2 j = blk s j) ->
  montado s2 h m ∧ next_inode s2 = next_inode s ∧ forall j, j ∈ datos m -> blk s2 j = blk s j.
Proof.
  intros Hc Hm Hl Ho Hwf Hint Hc2 Hsb Hfr Hsame.
  assert (next_inode s2 = next_inode s) as Hnx by (rewrite (cm_next _ _ _ _ Hc2), (cm_next _ _ _ _ Hc), Hsb; done).
  assert (forall j, j ∈ datos m -> blk s2 j = blk s j) as Hdat.
  { intros j Hj. destruct (owned_elem s (F ++ bitmap_run (sb s) ++ datos m) j Ho) as [Ha [_ Hv]]; [set_solver|].
    apply Hsame; [exact Hv|]. unfold alloc in Ha. by rewrite (cm_bitmap _ _ _ _ Hc) in Ha. }
  split_and!; [split|done|done].
  - exists l, F, it. split_and!; [done..|]. rewrite Hsb. destruct Ho as [Hn Ho]. split; [done|].
    eapply Forall_impl; [exact Ho|]. intros j [Ha Hv]. unfold alloc, in_vol in *.
    rewrite (cm_bitmap _ _ _ _ Hc2), Hfr, <- (cm_bitmap _ _ _ _ Hc), Hsb. done.
  - by rewrite Hnx.
  - eapply integro_ext; [exact Hdat|done].
Qed.
Lemma remontado (s : Sosofs C) (s2 : Sosofs E) l F it h m :
  committed s l F it -> mapa it = m -> (l <= h)%nat -> owned s (F ++ bitmap_run (sb s) ++ datos m) ->
  bien_formado m (next_inode s) -> integro (blk s) m ->
  committed s2 l F it -> sb s2 = sealed (sb s) -> frozen s2 = frozen s ->
  (forall j, j < block_count (dev s) -> bit (frozen s) j = Some true -> blk s2 j = blk s j) ->
  montado s2 h m ∧ next_inode s2 = next_inode s ∧ forall j, j ∈ datos m -> blk s2 j = blk s j.
Proof.
  intros Hc Hm Hl Ho Hwf Hint Hc2 Hsb Hfr Hsame. apply (remontado_en s s2 l F it); [done..|].
  intros j Hj. apply Hsame. pose proof (im_size _ _ _ _ _ _ _ (cm_imagen _ _ _ _ Hc)). lia.
Qed.
End Remontado.

Section PowerLoss.
Context {D : Type} `{BD : BlockDevice D} `{BS : !BlockDeviceSpec D} `{RD : !ReliableDevice D} `{CRC : Crc32c}.
Context {E : Type} `{BE : BlockDevice E} `{SE : !BlockDeviceSpec E} `{RE : !ReliableDevice E}.

Lemma api_power_loss n fuel o (s : Sosofs (Rec.t D)) h m k r s' c (d : E) :
  montado s h m -> cabe n fuel o s h m k -> Rec.ops (dev s) = [] -> api n fuel o s = (r, s') ->
  corte (blk s) (Rec.ops (dev s')) c ->
  dev_ok d -> block_count d = block_count (dev s) -> (forall j, content d j = c j) ->
  exists s2 d', mount d = (Ok s2, d') ∧
    ((montado s2 h m ∧ next_inode s2 = next_inode s ∧ generation s2 = generation s ∧
      forall ino x, archivo (blk s) m ino x -> archivo (blk s2) m ino x) ∨
     exists a h' m', r = Ok a ∧ montado s2 h' m' ∧ efecto o m (next_inode s) a m' (next_inode s2) ∧
      contenido o (blk s) m (next_inode s) (blk s2) m' ∧ generation s2 = generation s + 1).
Proof.
  intros Hmo Hca Hops Hrun Hcut Hd Hcnt Hcont. rewrite api_finish in Hrun.
  pose proof Hmo as [(l & F & it & Hc & Hm & Hl & Ho) Hwf Hint].
  pose proof (cuerpo_spec n fuel o s h m k Hmo Hca) as Hbody.
  destruct (corte_montado fuel (cuerpo n fuel o) (fun a s1 l1 F1 it1 => exists h1 m1, en_curso s1 h1 m1 (datos m1) ∧
    sb s1 = sb s ∧ block_count (dev s1) = block_count (dev s) ∧ integro (blk s1) m1 ∧ deja o s h m k a h1 m1 (next_inode s1) (blk s1) ∧ mapa it1 = m1 ∧ (l1 <= h1)%nat ∧
    owned s1 (F1 ++ bitmap_run (sb s1) ++ datos m1)) s l F it r s' c d) as (s2 & d' & Hmount & Hcnt2 & Hcases); try done.
  { intros I HI. by apply safe_cuerpo. }
  { intros a s1 Hm1. unfold cuerpo_hecho, cuerpo_ok in Hbody.
    apply (wp_Ok _ _ _ _ _ _ Hbody) in Hm1 as (h1 & m1 & Hh & Hec & Hsg & Hdirty & Hint1 & Hde).
    destruct (en_curso_publishable s h m s1 h1 m1 Hmo (ca_gen _ _ _ _ _ _ _ Hca) Hec Hsg Hdirty) as (l1 & F1 & it1 & Hpb & Hmap & Hl1 & Ho1).
    exists l1, F1, it1. split_and!; [lia|done|apply Hsg|]. exists h1, m1. split_and!; try done; apply Hsg. }
  exists s2, d'. split; [done|]. destruct Hcases as [(Hc2 & Hsb & Hfr & Hsame)|
    (a & s1 & l1 & F1 & it1 & -> & (h1 & m1 & Hec & Hsb1 & Hcnt1 & Hint1 & Hde & Hmap & Hl1 & Ho1) & Hpb & Hpub & Hc2 & Hsb & Hfr & Hsame)].
  - left. destruct (remontado s s2 l F it h m) as (Hmo2 & Hnx & Hdat); try done. split_and!; [done|done|unfold generation; by rewrite Hsb|].
    intros ino x. by apply archivo_ext.
  - right. pose proof Hpub as (Hc' & Hcnt' & _).
    destruct (published_montado s1 h1 m1 l1 F1 it1 s' Hec Hint1 Hpb Hmap Hl1 Ho1 Hpub) as ([_ Hwf' Hint'] & Hgen & Hnx & Hdat & Ho').
    destruct (remontado s' s2 l1 F1 it1 h1 m1) as (Hmo2 & Hnx2 & Hdat2); try done.
    { intros j Hj _. apply Hsame. congruence. }
    exists a, h1, m1. destruct (deja_estable o s h m k a h1 m1 (next_inode s1) (blk s1) (blk s2)) as (_ & H2 & H3); [|done|].
    { intros j Hj. by rewrite Hdat2, Hdat. }
    split_and!; [done|done|by rewrite Hnx2, Hnx|done|]. unfold generation in *. rewrite Hsb. simpl. rewrite Hgen. by rewrite Hsb1.
Qed.
End PowerLoss.
