(* ===== verification/SosofsUso.v ===== *)
(** * sosofs: how far the blocks in use reach

    [crates/sosofs/src/uso.rs]: the number of blocks from the start of a
    device that must be copied to clone its volume. Copying that many blocks
    gives an image of the same volume, whatever the rest holds. *)
From S2P Require Import Prelude BlockDev SosofsLayout SosofsAlloc SosofsStep SosofsTreeSpec SosofsCommit.
Local Open Scope N_scope.
#[local] Set Default Proof Using "Type*".

(** [buf.iter().rposition(|&b| b != 0)] *)
Fixpoint rposicion (l : list byte) : option nat :=
  match l with
  | [] => None
  | b :: l =>
      match rposicion l with
      | Some i => Some (S i)
      | None => if Byte.to_N b =? 0 then None else Some O
      end
  end.

(** [7 - b.leading_zeros()] of a byte that is not zero: its highest bit. *)
Definition bit_alto (b : byte) : N := N.log2 (Byte.to_N b).

Section Uso.
Context `{CRC : Crc32c}.

(** One block of the bitmap, the [i]-th of it; [None] is the read that
    failed. [i] is below a [u32], so [base] and [ultimo] cannot overflow. *)
Definition bloque_de_mapa (leer : N -> option Block) (inicio total : N) (acc : option N) (i : N) : M unit unit (option N) :=
  match acc with
  | None => mret None
  | Some hasta =>
      b ← add64 inicio i;
      match leer b with
      | None => mret None
      | Some buf =>
          let base := i * BLOCK_SIZE * 8 in
          mret (Some (match rposicion buf with
                      | Some j =>
                          let bit := bit_alto (nth j buf x00) in
                          let ultimo := base + N.of_nat j * 8 + bit in
                          N.max hasta (N.min (ultimo + 1) total)
                      | None => hasta
                      end))
      end
  end.

(** One slot: [inl] carries on with what is known so far, [inr] is the
    [return None]. *)
Definition ranura_en_uso (leer : N -> option Block) (fin : option N) (slot : N) : M unit unit (option N + unit) :=
  match leer slot with
  | None => mret (inr tt)
  | Some buf =>
      match superblock_parse buf with
      | None => mret (inl fin)
      | Some sb =>
          fin_mapa ← add64 (sb_bitmap_start sb) (sb_bitmap_blocks sb);
          r ← mfold (bloque_de_mapa leer (sb_bitmap_start sb) (sb_block_count sb)) (Some (N.max 2 fin_mapa))
                (upto (sb_bitmap_blocks sb));
          mret (match r with
                | None => inr tt
                | Some hasta => inl (Some (match fin with Some f => N.max f hasta | None => hasta end))
                end)
      end
  end.

Definition bloques_en_uso (leer : N -> option Block) : M unit unit (option N) :=
  r0 ← ranura_en_uso leer None 0;
  match r0 with
  | inr _ => mret None
  | inl fin =>
      r1 ← ranura_en_uso leer fin 1;
      match r1 with inr _ => mret None | inl fin => mret fin end
  end.

(** ** The last bit of a bitmap *)
Lemma rposicion_spec l :
  match rposicion l with
  | Some j => (exists b, l !! j = Some b ∧ Byte.to_N b ≠ 0) ∧ forall i b, (j < i)%nat -> l !! i = Some b -> Byte.to_N b = 0
  | None => forall i b, l !! i = Some b -> Byte.to_N b = 0
  end.
Proof.
  induction l as [|x l IH]; simpl; [done|]. destruct (rposicion l) as [j|].
  - destruct IH as [(b & Hb & Hn) Hz]. split; [by exists b|]. intros [|i] b' Hi Hl; [lia|]. apply (Hz i); [lia|done].
  - destruct (N.eqb_spec (Byte.to_N x) 0) as [H0|H0].
    + intros [|i] b Hi; simpl in Hi; [by simplify_eq|by eapply IH].
    + split; [by exists x|]. intros [|i] b Hi Hl; [lia|]. by eapply IH.
Qed.

(** A taken block of the part [i] of a map is below what that part gives. *)
Lemma bit_below buf k : bit buf k = Some true ->
  exists j, rposicion buf = Some j ∧ k <= N.of_nat j * 8 + bit_alto (nth j buf x00).
Proof.
  rewrite bit_testbit. intros (b & Hb & Ht)%fmap_Some. symmetry in Ht.
  assert (Byte.to_N b ≠ 0) as Hne by (intros H0; by rewrite H0, N.bits_0 in Ht).
  pose proof (rposicion_spec buf) as Hr. destruct (rposicion buf) as [j|]; [|by apply Hr in Hb].
  exists j. split; [done|]. destruct Hr as [(x & Hx & Hnx) Hz].
  assert (nth j buf x00 = x) as -> by (apply nth_lookup_Some; done).
  pose proof (N.div_mod k 8 ltac:(done)) as Hk. pose proof (N.mod_lt k 8 ltac:(done)) as Hm.
  destruct (Nat.lt_trichotomy (N.to_nat (k / 8)) j) as [Hlt|[Heq|Hgt]]; [|subst j|by apply Hz in Hb].
  - generalize dependent (k mod 8). generalize dependent (k / 8). intros; lia.
  - rewrite Hb in Hx. simplify_eq. assert (k mod 8 <= bit_alto x) as Hle.
    { unfold bit_alto. destruct (N.le_gt_cases (k mod 8) (N.log2 (Byte.to_N x))) as [|Hgt]; [done|].
      by rewrite N.bits_above_log2 in Ht. }
    rewrite N2Nat.id. lia.
Qed.

(** ** The whole map *)
Lemma range_content_slice (c : N -> Block) start n i :
  (forall j, start <= j < start + N.of_nat n -> lenN (c j) = BLOCK_SIZE) -> (i < n)%nat ->
  slice (N.of_nat i * BLOCK_SIZE) BLOCK_SIZE (range_content c start n) = Some (c (start + N.of_nat i)).
Proof.
  revert start i. induction n as [|n IH]; intros start i Hl Hi; [lia|]. simpl.
  assert (lenN (c start) = BLOCK_SIZE) as H0 by (apply Hl; lia). destruct i as [|i].
  - change (N.of_nat 0) with 0. rewrite N.mul_0_l, N.add_0_r. apply slice_head. done.
  - rewrite slice_app_r by (rewrite H0; unfold BLOCK_SIZE; lia).
    replace (N.of_nat (S i) * BLOCK_SIZE - lenN (c start)) with (N.of_nat i * BLOCK_SIZE) by (rewrite H0; lia).
    rewrite IH; [|intros j Hj; apply Hl; lia|lia]. do 2 f_equal. lia.
Qed.

Lemma bit_slice map i blk k : slice (i * BLOCK_SIZE) BLOCK_SIZE map = Some blk -> k < BLOCK_SIZE * 8 ->
  bit map (i * (BLOCK_SIZE * 8) + k) = bit blk k.
Proof.
  unfold slice. case_match; [|done]. intros [= <-] Hk. unfold bit.
  replace ((i * (BLOCK_SIZE * 8) + k) / 8) with (i * BLOCK_SIZE + k / 8).
  2: { unfold BLOCK_SIZE. replace (i * (4096 * 8) + k) with (k + (i * 4096) * 8) by lia. rewrite N.div_add by done. lia. }
  replace ((i * (BLOCK_SIZE * 8) + k) mod 8) with (k mod 8).
  2: { unfold BLOCK_SIZE. replace (i * (4096 * 8) + k) with (k + (i * 4096) * 8) by lia. by rewrite N.Div0.mod_add. }
  assert (k / 8 < BLOCK_SIZE) as Hd by (apply N.Div0.div_lt_upper_bound; lia).
  rewrite lookup_take_lt by lia. rewrite lookup_drop. do 2 f_equal. lia.
Qed.

(** ** What a successful run has seen *)
Definition cubre (leer : N -> option Block) (inicio total i hasta : N) : Prop :=
  exists buf, leer (inicio + i) = Some buf ∧
    forall k, k < BLOCK_SIZE * 8 -> bit buf k = Some true -> i * (BLOCK_SIZE * 8) + k < total -> i * (BLOCK_SIZE * 8) + k < hasta.

Lemma cubre_mono leer inicio total i h h' : h <= h' -> cubre leer inicio total i h -> cubre leer inicio total i h'.
Proof. intros Hh (buf & Hb & Hk). exists buf. split; [done|]. intros k H1 H2 H3. specialize (Hk k H1 H2 H3). lia. Qed.

Lemma mfold_None leer inicio total l r u :
  mfold (bloque_de_mapa leer inicio total) None l u = (Ok r, tt) -> r = None.
Proof.
  induction l as [|i l IH]; cbn [mfold]; [by intros [= ->]|]. rewrite bind_eq. simpl. destruct u. apply IH.
Qed.

Lemma bloque_de_mapa_inv leer inicio total h i r u : bloque_de_mapa leer inicio total (Some h) i u = (Ok (Some r), tt) ->
  h <= r ∧ cubre leer inicio total i r.
Proof.
  unfold bloque_de_mapa. intros (b & [] & Hadd & H)%bind_Ok_inv. apply add64_inv in Hadd as [-> _]. destruct (leer (inicio + i)) as [buf|] eqn:El; [|done]. cbv zeta in H. apply ret_inv in H as [[= H] _]. split.
  - destruct (rposicion buf); lia.
  - exists buf. split; [done|]. intros k Hk Hb Ht. destruct (bit_below buf k Hb) as (j & Hj & Hle). rewrite Hj in H. lia.
Qed.

Lemma mfold_mapa_inv leer inicio total l : forall h r u, mfold (bloque_de_mapa leer inicio total) (Some h) l u = (Ok (Some r), tt) ->
  h <= r ∧ forall i, i ∈ l -> cubre leer inicio total i r.
Proof.
  induction l as [|i l IH]; intros h r u; cbn [mfold].
  - intros [= -> _]. split; [done|set_solver].
  - intros ([h'|] & [] & H1 & H2)%bind_Ok_inv; [|by apply mfold_None in H2].
    apply bloque_de_mapa_inv in H1 as [Hle Hc]. apply IH in H2 as [Hle' Hc']. split; [lia|].
    intros j [->|Hj]%elem_of_cons; [by eapply cubre_mono|by apply Hc'].
Qed.

Lemma ranura_inv leer fin slot fin' u : ranura_en_uso leer fin slot u = (Ok (inl fin'), tt) ->
  (forall f, fin = Some f -> exists f', fin' = Some f' ∧ f <= f') ∧
  exists buf, leer slot = Some buf ∧ forall sb, superblock_parse buf = Some sb ->
    exists f', fin' = Some f' ∧ 2 <= f' ∧ sb_bitmap_start sb + sb_bitmap_blocks sb <= f' ∧
      forall i, i < sb_bitmap_blocks sb -> cubre leer (sb_bitmap_start sb) (sb_block_count sb) i f'.
Proof.
  unfold ranura_en_uso. destruct (leer slot) as [buf|]; [|by intros [= ]]. destruct (superblock_parse buf) as [sb|] eqn:Ep.
  - intros (fm & [] & Hadd & H)%bind_Ok_inv. apply add64_inv in Hadd as [-> _].
    apply bind_Ok_inv in H as ([hasta|] & [] & Hf & H); [|done]. apply ret_inv in H as [[= <-] _].
    apply mfold_mapa_inv in Hf as [Hle Hc]. split.
    + intros f ->. eexists; split; [done|]. lia.
    + exists buf. split; [done|]. rewrite Ep. intros sb' [= <-]. eexists; split; [done|].
      assert (hasta <= match fin with Some f => N.max f hasta | None => hasta end) as Hm by (destruct fin; lia).
      split_and!; [lia|lia|]. intros i Hi. eapply cubre_mono; [exact Hm|]. apply Hc. by apply elem_of_upto.
  - intros [[= <-] _]%ret_inv. split; [intros f ->; by exists f|]. exists buf. split; [done|]. congruence.
Qed.

Lemma bloques_en_uso_inv leer fin u : bloques_en_uso leer u = (Ok (Some fin), tt) ->
  forall slot, slot < 2 -> exists buf, leer slot = Some buf ∧ forall sb, superblock_parse buf = Some sb ->
    2 <= fin ∧ sb_bitmap_start sb + sb_bitmap_blocks sb <= fin ∧
    forall i, i < sb_bitmap_blocks sb -> cubre leer (sb_bitmap_start sb) (sb_block_count sb) i fin.
Proof.
  unfold bloques_en_uso. intros ([f0|] & [] & H0 & H)%bind_Ok_inv; [|done].
  apply bind_Ok_inv in H as ([f1|] & [] & H1 & H); [|done]. apply ret_inv in H as [[= ->] _].
  apply ranura_inv in H0 as [_ (b0 & Hb0 & H0)]. apply ranura_inv in H1 as [Hmono (b1 & Hb1 & H1)].
  intros slot Hs. assert (slot = 0 ∨ slot = 1) as [->| ->] by lia.
  - exists b0. split; [done|]. intros sb Hsb. destruct (H0 sb Hsb) as (f' & -> & H2 & H3 & H4).
    destruct (Hmono f' eq_refl) as (f2 & [= <-] & Hle). split_and!; [lia|lia|].
    intros i Hi. eapply cubre_mono; [exact Hle|by apply H4].
  - exists b1. split; [done|]. intros sb Hsb. destruct (H1 sb Hsb) as (f' & [= <-] & ?). done.
Qed.

(** ** Cloning *)
(** Every block the bitmap of the volume says is in use is in the prefix. *)
Lemma clon_usado leer c n sb fr l F it fin u : imagen c n sb fr l F it ->
  (forall j, j < n -> lenN (c j) = BLOCK_SIZE) -> (forall j buf, leer j = Some buf -> buf = c j) ->
  bloques_en_uso leer u = (Ok (Some fin), tt) ->
  2 <= fin ∧ forall j, j < sb_block_count sb -> bit fr j = Some true -> j < fin.
Proof.
  intros Him Hlen Hleer Hrun. pose proof (bloques_en_uso_inv _ _ _ Hrun) as Hinv.
  pose proof Him as [Hwf Hslot Hother Hbm Hbl Hcov Ht Hs Hl Hnd Hu Hsz Hsm].
  destruct (Hinv (sb_generation sb mod 2)) as (buf & Hbuf & Hsb); [by apply N.mod_lt|].
  apply Hleer in Hbuf as ->. destruct (Hsb _ Hslot) as (H2 & Hrun_end & Hcubre). simpl in Hrun_end, Hcubre. split; [done|].
  assert (forall j, j ∈ bitmap_run sb -> j < n) as Hrange by (intros j Hj; destruct (Hu j); [apply elem_of_app; by right|lia]).
  intros j Hj Hb. assert (is_Some (bit fr j)) as Hj8%bit_is_Some by by exists true. rewrite Hbl in Hj8.
  set (i := j / (BLOCK_SIZE * 8)). set (k := j mod (BLOCK_SIZE * 8)).
  assert (j = i * (BLOCK_SIZE * 8) + k) as Hjk by (unfold i, k; pose proof (N.div_mod j (BLOCK_SIZE * 8) ltac:(done)); lia).
  assert (k < BLOCK_SIZE * 8) as Hk by by apply N.mod_lt.
  assert (i < sb_bitmap_blocks sb) as Hi.
  { apply N.Div0.div_lt_upper_bound. lia. }
  destruct (Hcubre i Hi) as (bi & Hbi & Hki). apply Hleer in Hbi as ->. rewrite Hjk. apply Hki; [done| |by rewrite <- Hjk].
  rewrite <- (bit_slice fr i); [by rewrite <- Hjk| |done]. rewrite <- Hbm.
  replace i with (N.of_nat (N.to_nat i)) by lia. apply range_content_slice; [|lia].
  intros x Hx. apply Hlen, Hrange, elem_of_blocks_from. lia.
Qed.
Lemma clon_imagen leer c n sb fr l F it fin u c' n' : imagen c n sb fr l F it ->
  (forall j, j < n -> lenN (c j) = BLOCK_SIZE) -> (forall j buf, leer j = Some buf -> buf = c j) ->
  bloques_en_uso leer u = (Ok (Some fin), tt) -> (forall j, j < fin -> c' j = c j) -> sb_block_count sb <= n' ->
  imagen c' n' sb fr l F it.
Proof.
  intros Him Hlen Hleer Hrun Hc Hn'. destruct (clon_usado leer c n sb fr l F it fin u Him Hlen Hleer Hrun) as [H2 Hused].
  pose proof Him as [Hwf Hslot Hother Hbm Hbl Hcov Ht Hs Hl Hnd Hu Hsz Hsm].
  assert (forall j, j ∈ F ++ bitmap_run sb -> c' j = c j) as Hc'.
  { intros j Hj. destruct (Hu j Hj) as [Hb [_ Hj']]. by apply Hc, Hused. }
  assert (forall g, c' (g mod 2) = c (g mod 2)) as Hsl.
  { intros g. apply Hc. pose proof (N.mod_lt g 2 ltac:(done)). lia. }
  split; try done.
  - by rewrite Hsl.
  - intros sb'. rewrite Hsl. apply Hother.
  - rewrite <- Hbm. apply range_content_ext. intros j Hj. apply Hc', elem_of_app. right. apply elem_of_blocks_from. lia.
  - eapply rep_frame; [|exact Ht]. intros j Hj. apply Hc', elem_of_app. by left.
Qed.
End Uso.
