(* ===== verification/SosofsBuilder.v ===== *)
(** * sosofs: building images ([crates/sosofs/src/builder.rs])

    [build_image] walks a directory of the host, writes the data, then the
    tree from the leaves up, the bitmap and both superblocks. The host's
    directory is a tree of values: what [std::fs] answers. *)
From stdpp Require Import sorting.
From S2P Require Import Prelude Texto BlockDev SosofsLayout SosofsAlloc SosofsTree SosofsNode SosofsStep SosofsTreeSpec SosofsFile SosofsTxn SosofsCommit SosofsVista SosofsDir SosofsNames SosofsRead SosofsMontado SosofsUso.
Local Open Scope N_scope.
#[local] Set Default Proof Using "Type*".

Inductive BuildError := BIo | BDevice | DiskFull | NameTooLong (name : list byte).
Record BuildStats := mkBuildStats { st_inodes : N; st_blocks_used : N; st_block_count : N }.

(** A directory of the host, with the modification times. *)
#[warnings="-register-all"]
Inductive Fuente :=
| FDir (mtime : N) (entradas : list (list byte * Fuente))
| FFile (mtime : N) (data : list byte)
| FOtro.

Module Builder.
Record t (D : Type) := mk { dev : D; next_block : N; next_inode : N; items : list Item }.
Arguments mk {D}. Arguments dev {D}. Arguments next_block {D}. Arguments next_inode {D}. Arguments items {D}.
End Builder.
Import Builder.

Section Build.
Context {D : Type} `{BlockDevice D} `{Crc32c}.
Abbreviation B A := (M (Builder.t D) BuildError A).

Definition set_items (it : list Item) (b : Builder.t D) : Builder.t D := mk (dev b) (next_block b) (next_inode b) it.
Definition bd {A} (m : M D BlockError A) : B A :=
  zoom dev (fun d b => mk d (next_block b) (next_inode b) (items b)) (fun _ => BDevice) m.

Definition alloc_inode : B N :=
  b ← gets Datatypes.id;
  let ino := next_inode b in
  n ← add64 ino 1;
  modify (fun b => mk (dev b) (next_block b) n (items b));;
  mret ino.

Definition alloc_blocks (n : N) : B N :=
  b ← gets Datatypes.id;
  fin ← add64 (next_block b) n;
  if block_count (dev b) <? fin then throw DiskFull
  else modify (fun b => mk (dev b) fin (next_inode b) (items b));; mret (next_block b).

Definition put (key : Key) (payload : list byte) : B unit :=
  modify (fun b => set_items (upsert key (pad_payload payload) (items b)) b).

(** [while contains_key]: a free offset is found before the items run out. *)
Fixpoint hueco (fuel : nat) (it : list Item) (dir off : N) : B N :=
  match fuel with
  | O => no_fuel
  | S fuel => if bool_decide (mkKey dir KIND_DIRENT off ∈ it.*1) then hueco fuel it dir (wrapping_add64 off 1) else mret off
  end.

Definition put_dirent (dir : N) (name : list byte) (child : N) : B unit :=
  if NAME_MAX <? lenN name then throw (NameTooLong name)
  else
    b ← gets Datatypes.id;
    off ← hueco (S (length (items b))) (items b) dir (name_hash name);
    put (mkKey dir KIND_DIRENT off) (dirent_item_bytes (dirent_of name child)).

Definition add_extent (ino : N) (i : N) (trozo : list byte) : B unit :=
  let nblocks := div_ceil (lenN trozo) BLOCK_SIZE in
  start ← alloc_blocks nblocks;
  let padded := trozo ++ zeros (nblocks * BLOCK_SIZE - lenN trozo) in
  mfor (fun '(j, bloque) => k ← add64 start j; bd (write_block k bloque))
    (zip (upto (lenN (bloques_de padded))) (bloques_de padded));;
  put (mkKey ino KIND_EXTENT (i * (EXTENT_MAX_BLOCKS * BLOCK_SIZE)))
    (extent_item_bytes (mkExtentItem start (nblocks mod 2 ^ 32) (crc32c padded))).

Definition add_file (mtime : N) (data : list byte) (ino : N) : B unit :=
  put (Key.inode ino) (inode_item_bytes (mkInodeItem FT_FILE (lenN data) mtime));;
  let trozos := chunks (length data) (N.to_nat (EXTENT_MAX_BLOCKS * BLOCK_SIZE)) data in
  mfor (fun '(i, trozo) => add_extent ino i trozo) (zip (upto (lenN trozos)) trozos).

(** One entry of a directory, given how to add what it names. *)
Definition add_entrada (ino : N) (nombre : list byte) (otro : bool) (anadir : N -> B unit) : B unit :=
  if negb (utf8_valid nombre) then throw (NameTooLong (from_utf8_lossy nombre))
  else
    child ← alloc_inode;
    put_dirent ino nombre child;;
    if otro then
      b ← gets Datatypes.id;
      n ← sub64 (next_inode b) 1;
      modify (fun b => mk (dev b) (next_block b) n (items b))
    else anadir child.

Definition por_nombre (x y : list byte * B unit) : Prop := bytes_cmp x.1 y.1 ≠ Gt.
#[export] Instance por_nombre_dec x y : Decision (por_nombre x y).
Proof. unfold por_nombre. apply _. Defined.

Fixpoint add_tree (f : Fuente) (ino : N) : B unit :=
  match f with
  | FDir mtime entradas =>
      put (Key.inode ino) (inode_item_bytes (mkInodeItem FT_DIR 0 mtime));;
      let pasos :=
        (fix go (es : list (list byte * Fuente)) : list (list byte * B unit) :=
           match es with
           | [] => []
           | (nombre, f) :: es =>
               (nombre, add_entrada ino nombre (match f with FOtro => true | _ => false end) (add_tree f)) :: go es
           end) entradas in
      mfor snd (merge_sort por_nombre pasos)
  | FFile mtime data => add_file mtime data ino
  | FOtro => mret tt
  end.

(** ** The tree, from the leaves to the root *)
Definition node_block (block level : N) (entries : list (Key * list byte)) (entry_size : N) : option Block :=
  buf ← put_slice 0 (node_header_bytes (mkNodeHeader 0 1 block level (lenN entries mod 65536))) (zeros BLOCK_SIZE);
  buf ← put_entries entry_size 0 entries buf;
  put_slice 0 (u32 (crc32c (drop 4 buf))) buf.

Definition b_write_node (level : N) (entries : list (Key * list byte)) (entry_size : N) : B N :=
  block ← alloc_blocks 1;
  buf ← of_option panic (node_block block level entries entry_size);
  bd (write_block block buf);;
  mret block.

Definition grupos {A} (n : nat) (l : list A) : list (list A) :=
  (fix go (fuel : nat) (l : list A) := match fuel, l with
   | S fuel, _ :: _ => take n l :: go fuel (drop n l)
   | _, _ => []
   end) (length l) l.

Definition un_nivel (level : N) (entry_size : N) (gs : list (list (Key * list byte))) : B (list (Key * N)) :=
  mfold (fun nivel grupo =>
    block ← b_write_node level grupo entry_size;
    match grupo with [] => panic | e :: _ => mret (nivel ++ [(e.1, block)]) end) [] gs.

Fixpoint subir (fuel : nat) (level : N) (nivel : list (Key * N)) : B N :=
  match nivel with
  | [] => panic
  | [e] => mret e.2
  | _ =>
      match fuel with
      | O => no_fuel
      | S fuel =>
          siguiente ← un_nivel level INT_ENTRY (grupos (N.to_nat (N.max (INT_CAP * 85 / 100) 2)) (prod_map Datatypes.id u64 <$> nivel));
          if level =? 255 then panic else subir fuel (level + 1) siguiente
      end
  end.

Definition write_tree : B N :=
  b ← gets Datatypes.id;
  nivel ← un_nivel 0 LEAF_ENTRY (grupos (N.to_nat (N.max (LEAF_CAP * 85 / 100) 1)) (items b));
  match nivel with
  | [] => b_write_node 0 [] LEAF_ENTRY
  | _ => subir (length nivel) 1 nivel
  end.

(** ** The bitmap *)
Definition bitmap_block (usados b : N) : B Block :=
  mfold (fun buf k => if b * BLOCK_SIZE * 8 + k <? usados then of_option panic (set_bit buf k true) else mret buf)
    (zeros BLOCK_SIZE) (upto (BLOCK_SIZE * 8)).

Definition write_bitmap : B (N * N) :=
  b ← gets Datatypes.id;
  let bitmap_blocks := div_ceil (block_count (dev b)) (BLOCK_SIZE * 8) in
  start ← alloc_blocks bitmap_blocks;
  b ← gets Datatypes.id;
  let usados := next_block b in
  mfor (fun i => buf ← bitmap_block usados i; k ← add64 start i; bd (write_block k buf)) (upto bitmap_blocks);;
  mret (start, bitmap_blocks).

Definition build (src : Fuente) : B BuildStats :=
  root ← alloc_inode;
  add_tree src root;;
  tree_root ← write_tree;
  '(bitmap_start, bitmap_blocks) ← write_bitmap;
  b ← gets Datatypes.id;
  let sb := mkSuperblock MAGIC 0 1 (block_count (dev b)) tree_root bitmap_start (bitmap_blocks mod 2 ^ 32) (next_inode b) in
  let block := superblock_write_to_block sb (zeros BLOCK_SIZE) in
  bd (write_block 0 block);;
  bd (write_block 1 block);;
  bd flush;;
  b ← gets Datatypes.id;
  i ← sub64 (next_inode b) 1;
  mret (mkBuildStats i (next_block b) (block_count (dev b))).

Definition build_image (src : Fuente) : M D BuildError BuildStats := fun d =>
  let '(r, b) := build src (mk d 2 ROOT_INODE []) in (r, dev b).
End Build.

(** ** Nodes and bitmap blocks *)
Section BuildFacts.
Context `{Crc32c}.

Lemma node_block_image b level d : data_wf d -> level_of d level -> node_len d <= node_cap level ->
  node_block b level (match d with Leaf v => v | Internal v => prod_map Datatypes.id u64 <$> v end) (entry_size d) = node_image 1 b level d.
Proof.
  intros Hwf Hl Hc. pose proof (node_room d level Hl Hc) as [Hroom Hn].
  unfold node_block, node_image. rewrite (fill_entries_run d level) by done. cbn [mbind option_bind].
  set (es := match d with Leaf v => v | Internal v => _ end). assert (lenN es = node_len d) as Hes by (destruct d; [done|apply lenN_fmap]).
  rewrite Hes. set (h0 := node_header_bytes _).
  replace (zeros BLOCK_SIZE) with (zeros NODE_HEADER_SIZE ++ zeros (BLOCK_SIZE - NODE_HEADER_SIZE)) by (by rewrite <- zeros_app).
  pose proof (put_slice_app [] (zeros NODE_HEADER_SIZE) (zeros (BLOCK_SIZE - NODE_HEADER_SIZE)) 0 h0 eq_refl eq_refl) as Hput.
  cbn [app] in Hput. rewrite Hput. cbn [mbind option_bind].
  assert (put_entries (entry_size d) 0 es (h0 ++ zeros (BLOCK_SIZE - NODE_HEADER_SIZE)) =
    Some (h0 ++ concat (encode_data d) ++ zeros (BLOCK_SIZE - NODE_HEADER_SIZE - node_len d * entry_size d))) as ->.
  { assert (exists psize, entry_size d = DiskKey_SIZE + psize ∧ Forall (fun e => lenN e.2 = psize) es ∧ encode_data d = encode_entry <$> es) as (ps & Hps & Hf & Henc).
    { destruct d as [v|v]; unfold es; cbn [entry_size encode_data].
      - exists ITEM_PAYLOAD. split; [done|]. split; [|done]. eapply Forall_impl; [exact Hwf|]. by intros e [_ He].
      - exists 8. split; [done|]. split; [|done]. by apply Forall_fmap, Forall_true. }
    rewrite Henc, Hps in *. rewrite <- Hes in *. apply put_entries_run; [done|done|lia]. }
  cbn [mbind option_bind].
  pose proof (put_slice_app [] (zeros NODE_HEADER_SIZE) (concat (encode_data d) ++ zeros (BLOCK_SIZE - NODE_HEADER_SIZE - node_len d * entry_size d)) 0 h0 eq_refl eq_refl) as Hput2.
  cbn [app] in Hput2. by rewrite Hput2.
Qed.

Lemma bit_zeros n j : j < 8 * n -> bit (zeros n) j = Some false.
Proof.
  intros Hj. rewrite bit_testbit. unfold zeros. rewrite lookup_replicate_2; [cbn [fmap option_fmap option_map]; change (Byte.to_N x00) with 0; by rewrite N.bits_0|].
  assert (j / 8 < n) by (apply N.Div0.div_lt_upper_bound; lia). lia.
Qed.

Context {S : Type}.

Lemma bitmap_fold (usados b : N) ks : Forall (fun k => k < BLOCK_SIZE * 8) ks -> forall buf (s : S), lenN buf = BLOCK_SIZE ->
  exists buf', mfold (S := S) (E := BuildError) (fun buf k => if b * BLOCK_SIZE * 8 + k <? usados then of_option panic (set_bit buf k true) else mret buf) buf ks s = (Ok buf', s) ∧
    lenN buf' = BLOCK_SIZE ∧ forall j, bit buf' j = if decide (j ∈ ks ∧ b * BLOCK_SIZE * 8 + j < usados) then Some true else bit buf j.
Proof.
  induction 1 as [|k ks Hk _ IH]; intros buf s Hlen; cbn [mfold].
  { exists buf. split; [done|]. split; [done|]. intros j. by rewrite decide_False by set_solver. }
  rewrite bind_eq. destruct (_ <? usados) eqn:E.
  - apply N.ltb_lt in E. destruct (set_bit_spec buf k true) as (buf1 & -> & Hl1 & Hb1); [rewrite Hlen; lia|]. cbn.
    destruct (IH buf1 s) as (buf' & -> & Hl' & Hb'); [unfold lenN in *; lia|]. exists buf'. split; [done|]. split; [done|].
    intros j. rewrite Hb', Hb1. destruct (decide (j = k)) as [->|Hne].
    + rewrite (decide_True (P := k ∈ k :: ks ∧ _)) by (split; [set_solver|done]). by destruct (decide _).
    + apply decide_ext. set_solver.
  - apply N.ltb_ge in E. cbn. destruct (IH buf s Hlen) as (buf' & -> & Hl' & Hb'). exists buf'. split; [done|]. split; [done|].
    intros j. rewrite Hb'. apply decide_ext. split; [set_solver|]. intros [[->|?]%elem_of_cons ?]; [lia|done].
Qed.
End BuildFacts.

(** ** An empty directory *)
Section Vacio.
Context {D : Type} `{BD : BlockDevice D} `{BS : !BlockDeviceSpec D} `{RD : !ReliableDevice D} `{CRC : Crc32c}.

Lemma write_ok (d : D) b blk : dev_ok d -> b < block_count d -> lenN blk = BLOCK_SIZE ->
  exists d', write_block b blk d = (Ok tt, d') ∧ dev_ok d' ∧ block_count d' = block_count d ∧
    content d' b = blk ∧ forall j, j ≠ b -> content d' j = content d j.
Proof.
  intros Hd Hb Hl. destruct (reliable_Ok _ (write_outcome d b blk Hd Hb Hl)) as [[] Hr].
  destruct (write_spec d b blk Hd Hl) as (Hd' & Hc & Ho & Hw). destruct (Hw Hr) as [_ Hw'].
  exists (write_block b blk d).2. split; [|done]. by destruct (write_block b blk d); cbn in *; subst.
Qed.

Lemma flush_ok (d : D) : dev_ok d -> exists d', flush d = (Ok tt, d') ∧ same_dev d d'.
Proof.
  intros Hd. destruct (reliable_Ok _ (flush_outcome d Hd)) as [[] Hr]. exists (flush d).2. split; [|by apply flush_spec].
  by destruct (flush d); cbn in *; subst.
Qed.

(** The bitmap on disk: bit [j] says whether [j] was given out. *)
Definition mapa_escrito (c : N -> Block) (start usados : N) (i : N) : Prop :=
  lenN (c (start + i)) = BLOCK_SIZE ∧
  forall k, k < BLOCK_SIZE * 8 -> bit (c (start + i)) k = Some (bool_decide (i * BLOCK_SIZE * 8 + k < usados)).

Lemma bitmap_loop usados start it nx (nb : N) : forall l (b : Builder.t D), (forall i, i ∈ l -> start + i < block_count (dev b)) -> NoDup l ->
  dev_ok (dev b) -> next_block b = nb -> next_inode b = nx -> items b = it ->
  exists d', mfor (fun i => buf ← bitmap_block (D := D) usados i; k ← add64 start i; bd (write_block k buf)) l b = (Ok tt, mk d' nb nx it) ∧
    dev_ok d' ∧ block_count d' = block_count (dev b) ∧ (forall i, i ∈ l -> mapa_escrito (content d') start usados i) ∧
    (forall j, (forall i, i ∈ l -> j ≠ start + i) -> content d' j = content (dev b) j).
Proof.
  induction l as [|i l IH]; intros b Hin Hnd Hd <- <- <-; cbn [mfor].
  { exists (dev b). split; [by destruct b|]. split_and!; [done|done| |done]. intros i Hi. by apply elem_of_nil in Hi. }
  apply NoDup_cons in Hnd as [Hni Hnd]. rewrite bind_eq. unfold bitmap_block at 1. rewrite bind_eq.
  destruct (bitmap_fold (S := Builder.t D) usados i (upto (BLOCK_SIZE * 8))) with (buf := zeros BLOCK_SIZE) (s := b) as (buf & -> & Hlen & Hbits).
  { apply Forall_forall. intros k Hk. by apply elem_of_upto in Hk. } { apply lenN_zeros. }
  pose proof (count_small (dev b) Hd) as Hcs. pose proof (Hin i ltac:(set_solver)) as Hi.
  rewrite bind_eq. unfold add64. rewrite (proj2 (N.ltb_lt _ _)) by lia. cbn [mret M_ret].
  destruct (write_ok (dev b) (start + i) buf Hd Hi Hlen) as (d1 & Hw & Hd1 & Hc1 & Hb1 & Ho1).
  unfold bd, zoom. rewrite Hw.
  destruct (IH (mk d1 (next_block b) (next_inode b) (items b))) as (d' & Hrun & Hd' & Hc' & Hm' & Ho'); cbn [dev next_block next_inode items]; try done.
  { intros j Hj. rewrite Hc1. apply Hin. set_solver. }
  cbn [dev next_block next_inode items] in *.
  exists d'. split; [exact Hrun|]. split_and!; [done|by rewrite Hc', Hc1| |].
  - intros j [->|Hj]%elem_of_cons; [|by apply Hm']. unfold mapa_escrito. rewrite Ho' by (intros j' Hj' He; assert (i = j') by lia; congruence).
    cbn [dev]. rewrite Hb1. split; [done|]. intros k Hk. rewrite Hbits, bit_zeros by lia.
    destruct (decide _) as [[_ ?]|Hn]; [by rewrite bool_decide_eq_true_2|]. rewrite bool_decide_eq_false_2; [done|].
    intros ?. apply Hn. split; [by apply elem_of_upto|done].
  - intros j Hj. rewrite Ho'; [cbn [dev]; apply Ho1; apply Hj; set_solver|]. intros j' Hj'. apply Hj. set_solver.
Qed.

Definition raiz_vacia (mtime : N) : InodeItem := mkInodeItem FT_DIR 0 mtime.
Definition items_vacios (mtime : N) : list Item := [(Key.inode ROOT_INODE, inode_payload (raiz_vacia mtime))].
Definition mapas (n : N) : N := div_ceil n (BLOCK_SIZE * 8).
Definition sb_vacio (n : N) : Superblock := mkSuperblock MAGIC 0 1 n 2 3 (mapas n mod 2 ^ 32) 2.

Lemma alloc_blocks_run n (b : Builder.t D) : next_block b + n <= block_count (dev b) -> block_count (dev b) < U64 ->
  alloc_blocks n b = (Ok (next_block b), mk (dev b) (next_block b + n) (next_inode b) (items b)).
Proof.
  intros Hn Hc. unfold alloc_blocks. rewrite bind_eq. cbn [gets]. unfold Datatypes.id. rewrite bind_eq. unfold add64.
  rewrite (proj2 (N.ltb_lt _ _)) by lia. cbn [mret M_ret]. rewrite (proj2 (N.ltb_ge _ _)) by lia. by rewrite bind_eq.
Qed.

Lemma alloc_inode_run (b : Builder.t D) : next_inode b + 1 < U64 ->
  alloc_inode b = (Ok (next_inode b), mk (dev b) (next_block b) (next_inode b + 1) (items b)).
Proof.
  intros Hn. unfold alloc_inode. rewrite bind_eq. cbn [gets]. unfold Datatypes.id. rewrite bind_eq. unfold add64.
  rewrite (proj2 (N.ltb_lt _ _)) by lia. cbn [mret M_ret]. by rewrite bind_eq.
Qed.

Lemma bd_write_run (b : Builder.t D) k blk : dev_ok (dev b) -> k < block_count (dev b) -> lenN blk = BLOCK_SIZE ->
  exists d', bd (write_block k blk) b = (Ok tt, mk d' (next_block b) (next_inode b) (items b)) ∧ dev_ok d' ∧
    block_count d' = block_count (dev b) ∧ content d' k = blk ∧ forall j, j ≠ k -> content d' j = content (dev b) j.
Proof.
  intros Hd Hk Hl. destruct (write_ok (dev b) k blk Hd Hk Hl) as (d' & Hw & ?). exists d'. unfold bd, zoom. by rewrite Hw.
Qed.

(** The leaf the tree of one leaf is. *)
Lemma write_tree_hoja (b : Builder.t D) k p : items b = [(k, p)] -> Key.wf k -> lenN p = ITEM_PAYLOAD ->
  dev_ok (dev b) -> next_block b + 1 <= block_count (dev b) ->
  exists d' blk, write_tree b = (Ok (next_block b), mk d' (next_block b + 1) (next_inode b) (items b)) ∧ dev_ok d' ∧
    block_count d' = block_count (dev b) ∧ node_image 1 (next_block b) 0 (Leaf [(k, p)]) = Some blk ∧
    node_at blk (next_block b) 0 (Leaf [(k, p)]) ∧ content d' (next_block b) = blk.
Proof.
  intros Hit Hk Hp Hd Hn. pose proof (count_small _ Hd) as Hcs. unfold write_tree. rewrite bind_eq. cbn [gets]. unfold Datatypes.id at 1. rewrite Hit.
  change (grupos _ [(k, p)]) with [[(k, p)]]. cbn [un_nivel]. unfold un_nivel. cbn [mfold]. rewrite bind_eq, bind_eq, bind_eq.
  unfold b_write_node. rewrite bind_eq, alloc_blocks_run by done. rewrite bind_eq.
  assert (data_wf (Leaf [(k, p)])) as Hwf by (cbn; apply Forall_singleton; done).
  assert (level_of (Leaf [(k, p)]) 0) as Hl by done. assert (node_len (Leaf [(k, p)]) <= node_cap 0) as Hc by done.
  rewrite (node_block_image (next_block b) 0 (Leaf [(k, p)])) by done.
  destruct (node_image_at 1 (next_block b) 0 (Leaf [(k, p)]) ltac:(done) ltac:(lia) Hwf Hl Hc) as (blk & -> & Hlen & Hat).
  cbn [of_option mret M_ret]. rewrite bind_eq.
  destruct (bd_write_run (mk (dev b) (next_block b + 1) (next_inode b) (items b)) (next_block b) blk) as (d' & Hw & Hd' & Hc' & Hb' & _); [done|cbn; lia|done|].
  rewrite Hw. cbn [mret M_ret]. exists d', blk. rewrite Hit. by split_and!.
Qed.

Lemma superblock_block sb : length (sb_magic sb) = 8%nat -> lenN (superblock_write_to_block sb (zeros BLOCK_SIZE)) = BLOCK_SIZE.
Proof.
  intros Hm. rewrite superblock_write_eq by done. rewrite lenN_app. unfold lenN at 1. rewrite superblock_bytes_length by done.
  unfold lenN, zeros. rewrite length_drop, length_replicate. done.
Qed.

Lemma build_vacio mtime (d : D) : dev_ok d -> 3 + mapas (block_count d) <= block_count d ->
  exists d' st, build_image (FDir mtime []) d = (Ok st, d') ∧ dev_ok d' ∧ block_count d' = block_count d ∧
    st = mkBuildStats 1 (3 + mapas (block_count d)) (block_count d) ∧
    node_at (content d' 2) 2 0 (Leaf (items_vacios mtime)) ∧
    content d' 0 = superblock_write_to_block (sb_vacio (block_count d)) (zeros BLOCK_SIZE) ∧ content d' 1 = content d' 0 ∧
    forall i, i < mapas (block_count d) -> mapa_escrito (content d') 3 (3 + mapas (block_count d)) i.
Proof.
  intros Hd Hn. pose proof (count_small d Hd) as Hcs. set (n := block_count d) in *. unfold build_image, build.
  rewrite bind_eq, alloc_inode_run by done. cbn [dev next_block next_inode items]. rewrite bind_eq. cbn [add_tree]. rewrite bind_eq.
  unfold put, modify, set_items. cbn [dev next_block next_inode items].
  change (upsert _ _ []) with (items_vacios mtime). cbn [merge_sort mfor]. change (mfor snd (merge_sort por_nombre [])) with (mret tt : M (Builder.t D) BuildError unit).
  cbn [mret M_ret]. change (ROOT_INODE + 1) with 2. set (b1 := mk d 2 2 (items_vacios mtime)).
  destruct (write_tree_hoja b1 (Key.inode ROOT_INODE) (inode_payload (raiz_vacia mtime))) as (d1 & blk & Ht & Hd1 & Hc1 & _ & Hat & Hb1);
    [done|done|done|done|cbn; lia|]. cbn [dev next_block next_inode items b1] in *. change (2 + 1) with 3 in *.
  rewrite bind_eq, Ht. rewrite bind_eq. unfold write_bitmap. rewrite bind_eq. cbn [gets]. unfold Datatypes.id. cbn [dev].
  rewrite Hc1. fold n. fold (mapas n). rewrite bind_eq, alloc_blocks_run by (cbn [dev next_block]; rewrite ?Hc1; fold n; lia). cbn [dev next_block next_inode items].
  rewrite bind_eq. cbn [gets]. unfold Datatypes.id. cbn [next_block]. rewrite bind_eq.
  destruct (bitmap_loop (3 + mapas n) 3 (items_vacios mtime) 2 (3 + mapas n) (upto (mapas n)) (mk d1 (3 + mapas n) 2 (items_vacios mtime)))
    as (d2 & Hr2 & Hd2 & Hc2 & Hm2 & Ho2); cbn [dev next_block next_inode items]; try done.
  { intros i Hi%elem_of_upto. rewrite Hc1. fold n. lia. } { unfold upto. apply NoDup_fmap; [intros ?? ?; lia|apply NoDup_ListNoDup, seq_NoDup]. }
  cbn [dev next_block next_inode items] in *. rewrite Hr2. cbn [mret M_ret]. rewrite bind_eq. cbn [gets]. unfold Datatypes.id. cbn [dev next_inode].
  rewrite Hc2, Hc1. fold n. fold (sb_vacio n). set (sbb := superblock_write_to_block _ _).
  assert (lenN sbb = BLOCK_SIZE) as Hl by by apply superblock_block.
  rewrite bind_eq. destruct (bd_write_run (mk d2 (3 + mapas n) 2 (items_vacios mtime)) 0 sbb) as (d3 & -> & Hd3 & Hc3 & Hb3 & Ho3); [done|cbn; rewrite Hc2, Hc1; fold n; lia|done|].
  cbn [dev next_block next_inode items] in *. rewrite bind_eq.
  destruct (bd_write_run (mk d3 (3 + mapas n) 2 (items_vacios mtime)) 1 sbb) as (d4 & -> & Hd4 & Hc4 & Hb4 & Ho4); [done|cbn; rewrite Hc3, Hc2, Hc1; fold n; lia|done|].
  cbn [dev next_block next_inode items] in *. rewrite bind_eq. destruct (flush_ok d4 Hd4) as (d5 & Hf & Hd5 & Hc5 & Hb5).
  unfold bd, zoom. cbn [dev]. rewrite Hf. rewrite bind_eq. cbn [gets]. unfold Datatypes.id. cbn [next_inode]. rewrite bind_eq.
  cbn. eexists d5, _. split; [reflexivity|]. assert (block_count d5 = n) as Hcn by (rewrite Hc5, Hc4, Hc3, Hc2, Hc1; done).
  assert (forall j, 2 <= j -> content d5 j = content d2 j) as Hh by (intros j Hj; rewrite Hb5, Ho4, Ho3 by lia; done).
  split_and!; [done|done|by rewrite Hcn| | | |].
  - rewrite Hh by lia. rewrite Ho2 by lia. by rewrite Hb1.
  - rewrite Hb5, Ho4 by done. done.
  - rewrite !Hb5, Hb4, Ho4 by done. done.
  - intros i Hi. destruct (Hm2 i ltac:(by apply elem_of_upto)) as [H1 H2]. unfold mapa_escrito. rewrite Hh by lia. done.
Qed.

(** *** It mounts *)
Lemma bit_mapa (c : N -> Block) start usados n j : (forall i, i < n -> mapa_escrito c start usados i) -> j < n * (BLOCK_SIZE * 8) ->
  bit (range_content c start (N.to_nat n)) j = Some (bool_decide (j < usados)).
Proof.
  intros Hm Hj. set (w := BLOCK_SIZE * 8) in *. assert (w ≠ 0) as Hw by done.
  pose proof (N.div_mod j w Hw) as Hdm. pose proof (N.mod_lt j w Hw) as Hlt.
  assert (j / w < n) as Hi by (apply N.Div0.div_lt_upper_bound; lia).
  destruct (Hm _ Hi) as [_ Hb].
  pose proof (range_content_slice c start (N.to_nat n) (N.to_nat (j / w))) as Hs. rewrite !N2Nat.id in Hs.
  rewrite Hdm at 1. rewrite (N.mul_comm w). unfold w at 2. rewrite (bit_slice _ _ (c (start + j / w))); [|apply Hs; [|lia]|done].
  - rewrite Hb by done. f_equal. apply bool_decide_ext. unfold w in *. rewrite <- N.mul_assoc. lia.
  - intros k Hk. destruct (Hm (k - start)) as [Hl _]; [lia|]. by replace (start + (k - start)) with k in Hl by lia.
Qed.

Lemma range_content_len (c : N -> Block) start n : (forall j, start <= j < start + N.of_nat n -> lenN (c j) = BLOCK_SIZE) ->
  lenN (range_content c start n) = N.of_nat n * BLOCK_SIZE.
Proof.
  revert start. induction n as [|n IH]; intros start Hl; [done|]. cbn [range_content]. rewrite lenN_app, Hl, IH by (lia || (intros; apply Hl; lia)). lia.
Qed.

Lemma mapas_cubre n : n <= mapas n * (BLOCK_SIZE * 8).
Proof. unfold mapas. apply div_ceil_mul. done. Qed.

Lemma mapas_small n : n < 2 ^ 46 -> mapas n < 2 ^ 32.
Proof.
  intros Hn. unfold mapas. assert (div_ceil n (BLOCK_SIZE * 8) <= 2 ^ 31); [|lia]. apply div_ceil_le; [done|]. unfold BLOCK_SIZE. lia.
Qed.

Lemma imagen_vacia mtime (c : N -> Block) n : n < 2 ^ 46 -> 3 + mapas n <= n ->
  node_at (c 2) 2 0 (Leaf (items_vacios mtime)) ->
  c 0 = superblock_write_to_block (sb_vacio n) (zeros BLOCK_SIZE) -> c 1 = c 0 ->
  (forall i, i < mapas n -> mapa_escrito c 3 (3 + mapas n) i) ->
  imagen c n (sb_vacio n) (range_content c 3 (N.to_nat (mapas n))) 0 [2] (items_vacios mtime).
Proof.
  intros Hn Hroom Hat H0 H1 Hm. pose proof (mapas_small n Hn) as Hsm.
  assert (sb_bitmap_blocks (sb_vacio n) = mapas n) as Hbb by by apply N.mod_small.
  assert (superblock_wf (sb_vacio n)) as Hwf.
  { split; [done|]. unfold U64. cbn [sb_generation sb_block_count sb_tree_root sb_bitmap_start sb_vacio sb_next_inode]. split_and!; try done; [lia|rewrite Hbb; done]. }
  assert (lenN (range_content c 3 (N.to_nat (mapas n))) = mapas n * BLOCK_SIZE) as Hlen.
  { rewrite range_content_len; [by rewrite N2Nat.id|]. intros j Hj. destruct (Hm (j - 3)) as [Hl _]; [lia|]. by replace (3 + (j - 3)) with j in Hl by lia. }
  pose proof (mapas_cubre n) as Hcub.
  split; try done.
  - change (sb_generation (sb_vacio n) mod 2) with 1. rewrite H1, H0. by apply superblock_roundtrip.
  - change ((sb_generation (sb_vacio n) + 1) mod 2) with 0. rewrite H0. intros sb'. rewrite superblock_roundtrip by done. intros [= <-]. by left.
  - by rewrite Hbb.
  - by rewrite Hbb.
  - rewrite Hlen. cbn [sb_block_count sb_vacio]. lia.
  - repeat constructor.
  - lia.
  - unfold bitmap_run. rewrite Hbb. cbn [sb_bitmap_start sb_vacio app]. apply NoDup_cons. split; [|apply NoDup_blocks_from].
    rewrite elem_of_blocks_from. lia.
  - intros j Hj. assert (2 <= j < 3 + mapas n) as Hr.
    { apply elem_of_app in Hj as [->%list_elem_of_singleton|Hj]; [lia|]. unfold bitmap_run in Hj. rewrite Hbb in Hj.
      apply elem_of_blocks_from in Hj. cbn [sb_bitmap_start sb_vacio] in Hj. lia. }
    split; [|cbn [sb_block_count sb_vacio]; lia]. rewrite (bit_mapa c 3 (3 + mapas n)) by (done || lia). rewrite bool_decide_eq_true_2; [done|lia].
  - cbn [sb_block_count sb_vacio]. lia.
Qed.

Lemma vacio_lookup mtime k p : mapa (items_vacios mtime) !! k = Some p -> k = Key.inode ROOT_INODE ∧ p = inode_payload (raiz_vacia mtime).
Proof.
  unfold mapa, items_vacios. rewrite list_to_map_cons, lookup_insert_Some. by intros [[<- <-]|[_ ?]].
Qed.

Lemma vacio_bien_formado mtime : mtime < U64 -> bien_formado (mapa (items_vacios mtime)) 2.
Proof.
  intros Ht. assert (forall dir name k c, ¬ nombra (mapa (items_vacios mtime)) dir name k c) as Hno.
  { intros dir name k c (p & [-> ->]%vacio_lookup & _ & Hk & _). done. }
  split.
  - exists (raiz_vacia mtime). split; [|done]. exists (inode_payload (raiz_vacia mtime)). split; [apply lookup_insert_eq|].
    by apply inode_payload_read.
  - intros k p [-> _]%vacio_lookup. done.
  - intros dir name k c Hn. by apply Hno in Hn.
  - intros dir name k c k' c' Hn. by apply Hno in Hn.
  - intros dir name k dir' name' k' c Hn. by apply Hno in Hn.
  - intros k p [-> ->]%vacio_lookup. done.
Qed.

Lemma monta_vacio mtime n (d1 : D) : dev_ok d1 -> block_count d1 = n -> n < 2 ^ 46 -> 3 + mapas n <= n -> mtime < U64 ->
  node_at (content d1 2) 2 0 (Leaf (items_vacios mtime)) ->
  content d1 0 = superblock_write_to_block (sb_vacio n) (zeros BLOCK_SIZE) -> content d1 1 = content d1 0 ->
  (forall i, i < mapas n -> mapa_escrito (content d1) 3 (3 + mapas n) i) ->
  exists s d2, mount d1 = (Ok s, d2) ∧ montado s 0 (mapa (items_vacios mtime)) ∧ generation s = 1 ∧
    SosofsAlloc.next_inode s = 2 ∧ block_count (SosofsAlloc.dev s) = n.
Proof.
  intros Hd1 Hc1 Hn Hroom Ht Hat H0 H1 Hm.
  assert (imagen (content d1) (block_count d1) (sb_vacio n) (range_content (content d1) 3 (N.to_nat (mapas n))) 0 [2] (items_vacios mtime)) as Him.
  { rewrite Hc1. by apply imagen_vacia. }
  destruct (mount_imagen d1 _ _ _ _ _ Hd1 Him) as (s & d2 & Hmo & Hco & Hsb & Hfr & Hcnt & Hblk).
  exists s, d2. split; [done|].
  assert (SosofsAlloc.next_inode s = 2) as Hnx by (rewrite (cm_next _ _ _ _ Hco), Hsb; done).
  split_and!; [|unfold generation; by rewrite Hsb|done|congruence].
  split.
  - exists 0%nat, [2], (items_vacios mtime). split_and!; [done|done|done|].
    assert (datos (mapa (items_vacios mtime)) = []) as ->.
    { unfold datos. apply concat_nil_Forall, Forall_fmap, Forall_forall. intros [k p] [-> ->]%elem_of_map_to_list%vacio_lookup. done. }
    rewrite app_nil_r. split; [apply (cm_imagen _ _ _ _ Hco)|]. apply Forall_forall. intros j Hj.
    destruct (im_used _ _ _ _ _ _ _ (cm_imagen _ _ _ _ Hco) j Hj). split; [|done]. unfold alloc. by rewrite (cm_bitmap _ _ _ _ Hco).
  - rewrite Hnx. by apply vacio_bien_formado.
  - intros ino st' (p & [_ ->]%vacio_lookup & Hp) Hf. rewrite inode_payload_read in Hp by done. by subst.
Qed.

Lemma mkfs_vacio mtime (d : D) : dev_ok d -> block_count d < 2 ^ 46 -> 3 + mapas (block_count d) <= block_count d -> mtime < U64 ->
  exists st d' s d'', build_image (FDir mtime []) d = (Ok st, d') ∧ mount d' = (Ok s, d'') ∧
    montado s 0 (mapa (items_vacios mtime)) ∧ generation s = 1 ∧ SosofsAlloc.next_inode s = 2 ∧
    block_count (SosofsAlloc.dev s) = block_count d.
Proof.
  intros Hd Hn Hroom Ht. destruct (build_vacio mtime d Hd Hroom) as (d1 & st & Hb & Hd1 & Hc1 & _ & Hat & H0 & H1 & Hm).
  destruct (monta_vacio mtime _ d1 Hd1 Hc1 Hn Hroom Ht Hat H0 H1 Hm) as (s & d2 & Hmo & ?). by exists st, d1, s, d2.
Qed.
End Vacio.
