(* ===== verification/Ejemplo.v ===== *)
(** * A concrete volume

    CRC-32C bit by bit, an in-memory disk and the empty volume built on it:
    what the concrete runs of the theorems use. *)
From S2P Require Import Prelude Texto BlockDev SosofsLayout SosofsAlloc SosofsTree SosofsNode SosofsStep SosofsTreeSpec SosofsFile SosofsTxn SosofsCommit SosofsCrash SosofsVista SosofsDir SosofsNames SosofsRead SosofsFiles SosofsMontado SosofsOps SosofsBuilder.
Local Open Scope N_scope.

(** [CRC_32_ISCSI]: reflected, polynomial 0x1EDC6F41. *)
Definition crc_bit (c : N) : N := if N.odd c then N.lxor (N.shiftr c 1) 0x82F63B78 else N.shiftr c 1.
Definition crc_byte (c : N) (b : byte) : N :=
  crc_bit (crc_bit (crc_bit (crc_bit (crc_bit (crc_bit (crc_bit (crc_bit (N.lxor c (Byte.to_N b))))))))).
Definition crc_iscsi (bs : list byte) : N := N.lxor (foldl crc_byte 0xFFFFFFFF bs) 0xFFFFFFFF mod 2 ^ 32.
#[export] Instance Crc32c_iscsi : Crc32c.
Proof. refine {| crc32c := crc_iscsi |}. intros bs. by apply N.mod_lt. Defined.

(** The check value of the catalogue. *)
Example crc_iscsi_check : crc_iscsi (txt "123456789") = 0xE3069283.
Proof. reflexivity. Qed.

(** The empty volume as its blocks: both superblocks, the only leaf, the
    bitmap of four taken blocks and room. *)
Definition nodo_raiz : Block := default [] (node_image 1 2 0 (Leaf (items_vacios 0))).
Definition super : Block := superblock_write_to_block (sb_vacio 32) (zeros BLOCK_SIZE).
Definition disco : Mem.t := Mem.mk (super ++ super ++ nodo_raiz ++ (x0f :: zeros (BLOCK_SIZE - 1)) ++ zeros (28 * BLOCK_SIZE)) 0.
Definition m_vacio : Items := mapa (items_vacios 0).

Lemma nodo_raiz_ok : lenN nodo_raiz = BLOCK_SIZE ∧ node_at nodo_raiz 2 0 (Leaf (items_vacios 0)).
Proof.
  destruct (node_image_at 1 2 0 (Leaf (items_vacios 0))) as (blk & Himg & Hlen & Hat); [done|done|by apply Forall_singleton|done|done|].
  unfold nodo_raiz. rewrite Himg. split; [exact Hlen|exact Hat].
Qed.
Lemma super_length : lenN super = BLOCK_SIZE.
Proof. by apply superblock_block. Qed.

Lemma disco_length : lenN (Mem.data disco) = 32 * BLOCK_SIZE.
Proof.
  unfold disco. cbn [Mem.data]. destruct nodo_raiz_ok as [Hn _]. rewrite !lenN_app, lenN_cons, super_length, Hn, !lenN_zeros. done.
Qed.
Lemma disco_count : block_count disco = 32.
Proof. cbn [block_count Mem_BlockDevice]. unfold Mem.block_count. by rewrite disco_length. Qed.
Lemma disco_ok : dev_ok disco.
Proof. cbn [dev_ok Mem_Spec]. red. by rewrite disco_length. Qed.

Lemma mem_content_0 l r k : lenN l = BLOCK_SIZE -> content (Mem.mk (l ++ r) k) 0 = l.
Proof. intros Hl. cbn [content Mem_Spec]. unfold MemSpec.content. cbn [Mem.data]. rewrite N.mul_0_l, drop_0. apply take_app_length'. unfold lenN in Hl. lia. Qed.
Lemma mem_content_S l r k b : lenN l = BLOCK_SIZE -> content (Mem.mk (l ++ r) k) (b + 1) = content (Mem.mk r k) b.
Proof.
  intros Hl. cbn [content Mem_Spec]. unfold MemSpec.content. cbn [Mem.data]. rewrite N.mul_add_distr_r, N.mul_1_l.
  rewrite drop_app_ge by (unfold lenN in Hl; lia). do 2 f_equal. unfold lenN in Hl. lia.
Qed.

Lemma disco_content : content disco 0 = super ∧ content disco 1 = super ∧ content disco 2 = nodo_raiz ∧
  content disco 3 = x0f :: zeros (BLOCK_SIZE - 1).
Proof.
  destruct nodo_raiz_ok as [Hn _]. pose proof super_length as Hs.
  assert (lenN (x0f :: zeros (BLOCK_SIZE - 1)) = BLOCK_SIZE) as Hb by (by rewrite lenN_cons, lenN_zeros).
  unfold disco. split_and!.
  - apply (mem_content_0 _ _ _ Hs).
  - rewrite (mem_content_S _ _ _ 0) by done. apply (mem_content_0 _ _ _ Hs).
  - rewrite (mem_content_S _ _ _ 1), (mem_content_S _ _ _ 0) by done. apply (mem_content_0 _ _ _ Hn).
  - rewrite (mem_content_S _ _ _ 2), (mem_content_S _ _ _ 1), (mem_content_S _ _ _ 0) by done. apply (mem_content_0 _ _ _ Hb).
Qed.

Lemma disco_mapa i : i < mapas 32 -> mapa_escrito (content disco) 3 (3 + mapas 32) i.
Proof.
  change (mapas 32) with 1. intros Hi. assert (i = 0) as -> by lia. destruct disco_content as (_ & _ & _ & H3).
  unfold mapa_escrito. change (3 + 0) with 3. rewrite H3. split; [by rewrite lenN_cons, lenN_zeros|]. intros k Hk.
  change (0 * BLOCK_SIZE * 8 + k) with k. change (3 + 1) with 4. rewrite bit_testbit. destruct (N.lt_ge_cases k 8) as [Hlt|Hge].
  - rewrite (N.div_small k 8) by done. cbn [lookup list_lookup fmap option_fmap option_map]. change (N.to_nat 0) with 0%nat. cbn [lookup list_lookup fmap option_fmap option_map].
    assert (k = 0 ∨ k = 1 ∨ k = 2 ∨ k = 3 ∨ k = 4 ∨ k = 5 ∨ k = 6 ∨ k = 7) as Hc by lia. by destruct_or!; subst.
  - assert (1 <= k / 8 < BLOCK_SIZE) as Hd.
    { split; [by apply N.div_le_lower_bound|apply N.Div0.div_lt_upper_bound; lia]. }
    destruct (N.to_nat (k / 8)) as [|j] eqn:E; [lia|]. change ((x0f :: zeros (BLOCK_SIZE - 1)) !! S j) with (zeros (BLOCK_SIZE - 1) !! j). unfold zeros. rewrite lookup_replicate_2 by lia.
    cbn [fmap option_fmap option_map]. change (Byte.to_N x00) with 0. rewrite N.bits_0, bool_decide_eq_false_2 by lia. done.
Qed.

(** The empty volume, mounted. *)
Lemma volumen_vacio : exists s d', mount disco = (Ok s, d') ∧ montado s 0 m_vacio ∧ generation s = 1 ∧ next_inode s = 2 ∧
  block_count (dev s) = 32.
Proof.
  destruct disco_content as (H0 & H1 & H2 & _). apply (monta_vacio 0 32 disco disco_ok disco_count); [done|done|done| | | |exact disco_mapa].
  - rewrite H2. apply nodo_raiz_ok.
  - by rewrite H0.
  - by rewrite H1, H0.
Qed.

(** The same volume on a device that records what is written. *)
Definition graba {D} (s : Sosofs D) : Sosofs (Rec.t D) :=
  mkSosofs (Rec.mk (dev s) []) (sb s) (tree_root s) (nodos_leidos s) (nodos_libres s) (next_inode s) (bitmap s) (frozen s)
    (dirty s) (alloc_hint s).

Lemma montado_graba {D} `{BlockDeviceSpec D} (s : Sosofs D) h m : montado s h m -> montado (graba s) h m.
Proof.
  intros [(l & F & it & [Hd Hi Hb Hr Hn Hdi Hh] & Hm & Hl & Ho) Hwf Hint]. split; [|done|done].
  exists l, F, it. split; [|done]. by split.
Qed.

(** A volume with a file: the first transaction on the empty one. *)
Definition crear_hola : Op := OCreate ROOT_INODE (txt "a") (txt "hola") 0.
Definition pasa {E A} (r : outcome E A) : bool := match r with Ok _ => true | _ => false end.
Lemma hola_pasa : match mount disco with (Ok s, _) => pasa (fst (api 10 5 crear_hola s)) | _ => true end = true.
Proof. vm_compute. reflexivity. Qed.
Lemma hola_corre (s : Sosofs Mem.t) d' : mount disco = (Ok s, d') -> pasa (fst (api 10 5 crear_hola s)) = true.
Proof. intros Hm. pose proof hola_pasa as Hp. rewrite Hm in Hp. exact Hp. Qed.

Lemma m_vacio_size : size m_vacio = 1%nat.
Proof. unfold m_vacio, mapa, items_vacios. rewrite list_to_map_cons, map_size_insert_None by done. done. Qed.

Lemma cabe_vacio {D} `{BlockDevice D, !BlockDeviceSpec D} (s : Sosofs D) o k : generation s = 1 -> next_inode s = 2 -> op_mtime o < U64 -> op_inode o < U64 ->
  crece o (blk s) m_vacio k -> (k <= 4)%nat -> cabe 10 5 o s 0 m_vacio k.
Proof.
  intros Hg Hn Ht Hi Hc Hk. unfold generation in Hg. split; try done; try lia.
  - by rewrite Hg.
  - by rewrite Hn.
  - rewrite m_vacio_size. lia.
Qed.

Lemma hola_montado : exists (s0 s : Sosofs Mem.t) d' h m, mount disco = (Ok s0, d') ∧ s = (api 10 5 crear_hola s0).2 ∧
  (h < 5)%nat ∧ montado s h m ∧ archivo (blk s) m 2 (txt "hola") ∧ generation s = 2.
Proof.
  destruct volumen_vacio as (s & d' & Hmo & Hm & Hg & Hn & _). pose proof (hola_corre s d' Hmo) as Hok. exists s.
  assert (cabe 10 5 crear_hola s 0 m_vacio 3) as Hca by (apply cabe_vacio; [done|done|done|done|split; [change (bloques_de_largo _) with 1%nat; lia|done]|lia]).
  pose proof (api_spec 10 5 crear_hola s 0 m_vacio 3 Hm Hca) as Hs. destruct (api 10 5 crear_hola s) as [[a|e| |] s']; [|discriminate Hok..].
  destruct Hs as (h' & m' & Hh & Hm' & _ & [_ Ha] & Hg'). exists s', d', h', m'. split; [done|]. split; [done|]. split; [lia|]. split; [done|].
  split; [by rewrite Hn in Ha|by rewrite Hg', Hg].
Qed.
Lemma volumen_con_archivo : exists (s : Sosofs Mem.t) h m, (h < 5)%nat ∧ montado s h m ∧ archivo (blk s) m 2 (txt "hola") ∧ generation s = 2.
Proof. destruct hola_montado as (_ & s & _ & h & m & _ & _ & H). by exists s, h, m. Qed.

Lemma montado_vista {D} `{BlockDevice D, !BlockDeviceSpec D} (s : Sosofs D) h m : montado s h m -> generation s + 1 < U64 -> vista s h m (datos m).
Proof. intros Hm Hg. apply (ec_vista _ _ _ _ (montado_en_curso s h m Hm Hg)). Qed.

Lemma vista_vacia : exists s : Sosofs Mem.t, vista s 0 m_vacio (datos m_vacio).
Proof.
  destruct volumen_vacio as (s & d' & _ & Hm & Hg & _). exists s. apply montado_vista; [exact Hm|by rewrite Hg].
Qed.
