(* ===== verification/SosofsTeoremas.v ===== *)
(** * sosofs: what the file system guarantees

    The properties of the file system, each with a run on the concrete volume
    of [Ejemplo.v] where it has hypotheses. *)
From stdpp Require Import sorting.
From S2P Require Import Prelude Texto BlockDev SosofsLayout SosofsAlloc SosofsTree SosofsNode SosofsStep SosofsTreeSpec SosofsScan SosofsFile SosofsTxn SosofsCow SosofsCommit SosofsCrash SosofsVista SosofsDir SosofsNames SosofsRead SosofsData SosofsFiles SosofsAppend SosofsMontado SosofsOps SosofsUso SosofsBuilder Ejemplo.
Local Open Scope N_scope.
#[local] Set Default Proof Using "Type*".

Section Operaciones.
Context {D : Type} `{BD : BlockDevice D} `{BS : !BlockDeviceSpec D} `{CRC : Crc32c}.
Implicit Types (s : Sosofs D) (m : Items).

(** C1. Each of six operations of the API (make a directory, create a file, append
    something to one, remove, rename, set the time) on a mounted volume is atomic
    and has the specified effect: either the next generation is published with
    exactly that effect on the items and on the contents of the files, or an
    error the specification allows is answered and the volume is the one there
    was. It neither panics nor hangs. [truncate_file] and [grow_to] are not of
    these: the first has defects of its own. *)
Theorem operacion_atomica `{RD : !ReliableDevice D} n fuel o s h m k : montado s h m -> cabe n fuel o s h m k ->
  match api n fuel o s with
  | (Ok a, s') => exists h' m', (h' <= h + k)%nat ∧ montado s' h' m' ∧ efecto o m (next_inode s) a m' (next_inode s') ∧
      contenido o (blk s) m (next_inode s) (blk s') m' ∧ generation s' = generation s + 1
  | (Err e, s') => (falla o m e ∨ e = NoSpace) ∧ montado s' h m ∧ generation s' = generation s ∧
      forall ino d, archivo (blk s) m ino d -> archivo (blk s') m ino d
  | _ => False
  end.
Proof. intros Hmo Hca. exact (api_spec n fuel o s h m k Hmo Hca). Qed.

(** C3. Whatever the bodies of the operations do before a superblock is
    written, [truncate_file] and the publication of the bitmap included, in any
    sequence, also when they fail or the device does, they write neither a
    superblock nor any block the published generation uses. *)
Theorem publicado_intacto n fuel ts s h m r s' : montado s h m -> mfor (tarea n fuel) ts s = (r, s') ->
  sb s' = sb s ∧ forall j, j < block_count (dev s) -> j < 2 ∨ bit (frozen s) j = Some true -> blk s' j = blk s j.
Proof.
  intros Hmo Hrun. pose proof (keeps_mfor (J (frozen s) (sb s) (intacto (blk s) (block_count (dev s)) (frozen s))) (tarea n fuel) ts
    (fun t _ => safe_tarea _ _ _ n fuel t) s (montado_J s h m Hmo)) as Hs. rewrite Hrun in Hs. destruct Hs as [((_ & Hc & Hk) & Hsb & _) _]. split; [done|exact Hk].
Qed.

(** C4. The copy-on-write B+tree is a map: insertion and deletion are those of
    the map, at any height, the tree grows at most one level and only when
    inserting, the blocks in use outside the tree keep their content and their
    owner, and the only errors of a sound volume are lack of space and a
    missing key. *)
Theorem arbol_es_mapa fuel h m X key payload s : (h < fuel)%nat -> (h < 255)%nat -> vista s h m X -> Key.wf key ->
  lenN payload = ITEM_PAYLOAD ->
  wp space_err (tree_insert fuel key payload)
    (fun _ s' => vista s' (S h) (<[key := payload]> m) X ∧ sigue s X s' ∧ dirty s' = true) s ∧
  wp (delete_fail key m) (tree_delete fuel key)
    (fun _ s' => vista s' h (delete key m) X ∧ sigue s X s' ∧ is_Some (m !! key)) s.
Proof. intros Hf Hh Hv Hk Hp. split; [apply (wp_v_insert fuel h m X); auto|apply (wp_v_delete fuel h m X); auto]. Qed.

(** C20. A range scan gives exactly the items of the range, in key order, and
    the search of the first one that satisfies a predicate gives the least of
    them or none; neither changes anything. *)
Theorem busquedas_exactas fuel h m X min max pred s : (h < fuel)%nat -> vista s h m X ->
  wp io_err (scan_range fuel min max) (fun out s' => quiet s s' ∧ tramo m min max out) s ∧
  wp io_err (find_first fuel min max pred) (fun o s' => quiet s s' ∧ primero m min max pred o) s.
Proof. intros Hf Hv. split; [apply (wp_v_scan fuel h m X); auto|apply (wp_v_find fuel h m X); auto]. Qed.


(** A path resolves to the inode its components lead to, from the root. *)
Theorem ruta_resuelta fuel h m X path s : (h < fuel)%nat -> vista s h m X ->
  wp (fun e => io_err (D := D) e ∨ e = NotFound ∨ e = NotADir ∨ e = SosofsAlloc.NameTooLong) (resolve fuel path)
    (fun fin s' => quiet s s' ∧ camino m ROOT_INODE (componentes path) fin) s.
Proof. intros Hf Hv. apply (resolve_spec fuel h m X); auto. Qed.

(** The listing of a directory is sorted and holds its entries and nothing
    else. *)
Theorem listado_exacto fuel h m X dir s : (h < fuel)%nat -> vista s h m X ->
  wp (fun e => io_err (D := D) e ∨ check_fail m dir e) (read_dir fuel dir)
    (fun out s' => quiet s s' ∧ Sorted entry_le out ∧
       forall x, x ∈ out <-> exists name k c, nombra m dir name k c ∧ x = (from_utf8_lossy name, c)) s.
Proof. intros Hf Hv. apply (read_dir_spec fuel h m X); auto. Qed.

(** C21. The allocator gives a run inside the volume, never a superblock, free
    both in the generation being built and in the published one, marks exactly
    that run and never more than was asked; it refuses only when no block at
    all is free, and it always answers. *)
Theorem reserva_correcta want s : maps_ok s -> sb_block_count (sb s) + N.max want 1 < U64 ->
  N.max (alloc_hint s) 2 + N.max want 1 < U64 ->
  match alloc_extent want s with
  | (Ok (b, got), s') => 1 <= got <= N.max want 1 ∧ run_free s b got ∧
      exists (m' : list byte), s' = tras_alloc s m' b got ∧ run_taken (bitmap s) m' b got
  | (Err e, s') => e = NoSpace ∧ s' = s ∧ forall c, ¬ run_free s c 1
  | _ => False
  end.
Proof.
  intros Hm H1 H2. destruct (alloc_extent want s) as [r s'] eqn:E. pose proof (alloc_extent_inv _ _ _ _ E) as Hi.
  destruct (alloc_extent_total want s Hm H1 H2) as [[b Hr]|Hr]; rewrite E in Hr; cbn in Hr; subst r; [by destruct b|done].
Qed.
End Operaciones.

(** ** Power loss *)
Section Corte.
Context {D : Type} `{BD : BlockDevice D} `{BS : !BlockDeviceSpec D} `{RD : !ReliableDevice D} `{CRC : Crc32c}.
Context {E : Type} `{BE : BlockDevice E} `{SE : !BlockDeviceSpec E} `{RE : !ReliableDevice E}.

(** C2. The power may go at any moment of one of those six operations, and the
    writes since the last flush may have reached the disk in part and in any
    order: the disk left mounts, with the volume as it was or as the whole
    operation leaves it. *)
Theorem corte_de_luz n fuel o (s : Sosofs (Rec.t D)) h m k r s' c (d : E) :
  montado s h m -> cabe n fuel o s h m k -> Rec.ops (dev s) = [] -> api n fuel o s = (r, s') ->
  corte (blk s) (Rec.ops (dev s')) c ->
  dev_ok d -> block_count d = block_count (dev s) -> (forall j, content d j = c j) ->
  exists s2 d', mount d = (Ok s2, d') ∧
    ((montado s2 h m ∧ next_inode s2 = next_inode s ∧ generation s2 = generation s ∧
      forall ino x, archivo (blk s) m ino x -> archivo (blk s2) m ino x) ∨
     exists a h' m', r = Ok a ∧ montado s2 h' m' ∧ efecto o m (next_inode s) a m' (next_inode s2) ∧
      contenido o (blk s) m (next_inode s) (blk s2) m' ∧ generation s2 = generation s + 1).
Proof. intros. eapply (api_power_loss n fuel o s h m k); eauto. Qed.
End Corte.

(** ** Mounting, building and cloning *)
Section Volumen.
Context {D : Type} `{BD : BlockDevice D} `{BS : !BlockDeviceSpec D} `{RD : !ReliableDevice D} `{CRC : Crc32c}.

(** [mkfs] of an empty directory gives a volume that mounts, at generation
    one, with the root directory and nothing else, on any disk with room. *)
Theorem mkfs_monta mtime (d : D) : dev_ok d -> block_count d < 2 ^ 46 -> 3 + mapas (block_count d) <= block_count d -> mtime < U64 ->
  exists st d' s d'', build_image (FDir mtime []) d = (Ok st, d') ∧ mount d' = (Ok s, d'') ∧
    montado s 0 (mapa (items_vacios mtime)) ∧ generation s = 1 ∧ next_inode s = 2.
Proof.
  intros H1 H2 H3 H4. destruct (mkfs_vacio mtime d H1 H2 H3 H4) as (st & d' & s & d'' & ? & ? & ? & ? & ? & _).
  by exists st, d', s, d''.
Qed.

(** Mounting picks the newest generation whose superblock is whole and
    gives exactly its tree and its bitmap. *)
Theorem montaje_de_la_ultima d sb fr l F it : dev_ok d -> imagen (content d) (block_count d) sb fr l F it ->
  exists s d', mount d = (Ok s, d') ∧ committed s l F it ∧ SosofsAlloc.sb s = sealed sb ∧ frozen s = fr ∧
    forall j, blk s j = content d j.
Proof.
  intros Hd Hi. destruct (mount_imagen d sb fr l F it Hd Hi) as (s & d' & ? & ? & ? & ? & _ & ?). by exists s, d'.
Qed.
End Volumen.

(** C22. Copying only the prefix of blocks that [bloques_en_uso] answers is
    enough: whatever the rest of the new disk holds, which may be longer, it
    mounts with the same generation, the same items and the same contents of
    every file; and no block in use is beyond that prefix. *)
Theorem clon_fiel {D} `{BlockDeviceSpec D} {E} `{BE : BlockDevice E, !BlockDeviceSpec E, !ReliableDevice E} `{Crc32c} leer (s : Sosofs D) h m fin u (d : E) :
  montado s h m -> (forall j buf, leer j = Some buf -> buf = blk s j) -> bloques_en_uso leer u = (Ok (Some fin), tt) ->
  dev_ok d -> sb_block_count (sb s) <= block_count d -> (forall j, j < fin -> content d j = blk s j) ->
  (forall j, j < sb_block_count (sb s) -> bit (frozen s) j = Some true -> j < fin) ∧
  exists s2 d', mount d = (Ok s2, d') ∧ montado s2 h m ∧ next_inode s2 = next_inode s ∧ generation s2 = generation s ∧
    forall ino x, archivo (blk s) m ino x -> archivo (blk s2) m ino x.
Proof.
  intros [(l & F & it & Hc & Hm & Hl & Ho) Hwf Hint] Hleer Hrun Hd Hn Hpre. pose proof (cm_imagen _ _ _ _ Hc) as Hi.
  assert (forall j, j < block_count (dev s) -> lenN (blk s j) = BLOCK_SIZE) as Hlen by (intros j; apply content_length, (cm_dev _ _ _ _ Hc)).
  destruct (clon_usado leer _ _ _ _ _ _ _ fin u Hi Hlen Hleer Hrun) as [_ Hused]. split; [exact Hused|].
  pose proof (clon_imagen leer _ _ _ _ _ _ _ fin u (content d) (block_count d) Hi Hlen Hleer Hrun Hpre Hn) as Hi2.
  destruct (mount_imagen d _ _ _ _ _ Hd Hi2) as (s2 & d' & Hmo & Hc2 & Hsb & Hfr & _ & Hblk).
  destruct (remontado_en s s2 l F it h m) as (Hmo2 & Hnx & Hdat); try done.
  { intros j Hj Hb. by rewrite Hblk, Hpre by (by apply Hused). }
  exists s2, d'. split_and!; [done|done|done|unfold generation; by rewrite Hsb|]. intros ino x. by apply archivo_ext.
Qed.

(** What is written is read back and nothing else is accepted: a node with
    its checksum, its own address, its level and every entry, which is what
    every read of the tree checks; a superblock with its magic and its
    checksum, whatever the block held before. *)
Theorem formato_redondo `{Crc32c} gen b level d sb block : gen < U64 -> b < U64 -> data_wf d -> level_of d level ->
  node_len d <= node_cap level -> superblock_wf sb ->
  (exists blk, node_image gen b level d = Some blk ∧ lenN blk = BLOCK_SIZE ∧ node_at blk b level d ∧ decode_node blk = d) ∧
  superblock_parse (superblock_write_to_block sb block) = Some (sealed sb) ∧
  forall raw sb', superblock_parse raw = Some sb' -> sb_magic sb' = MAGIC ∧ crc32c (take 44 (drop 12 raw)) = sb_crc sb' ∧ superblock_wf sb'.
Proof.
  intros H1 H2 H3 H4 H5 Hwf. split; [|split; [by apply superblock_roundtrip|]].
  - destruct (node_image_at gen b level d H1 H2 H3 H4 H5) as (blk & ? & ? & Hat). exists blk. split_and!; [done|done|done|apply Hat].
  - intros raw sb' Hp. apply superblock_parse_Some in Hp. tauto.
Qed.

(** ** The cache *)
Inductive Peticion := PLeer (b : N) | PLeerTramo (start n : N) | PEscribir (b : N) (blk : Block) | PVaciar | POlvidar (b : N) | POlvidarTodo.
Definition peticion_ok (n : N) (p : Peticion) : Prop :=
  match p with
  | PLeer b => b < n
  | PLeerTramo start k => start + k <= n
  | PEscribir b blk => b < n ∧ lenN blk = BLOCK_SIZE
  | _ => True
  end.
Definition atender {D} `{BlockDevice D} (d : D) (p : Peticion) : outcome BlockError (list byte) * D :=
  match p with
  | PLeer b => read_block b d
  | PLeerTramo start n => read_blocks start (n * BLOCK_SIZE) d
  | PEscribir b blk => (write_block b blk;; mret []) d
  | PVaciar => (flush;; mret []) d
  | POlvidar b => (Ok [], invalidate_block b d)
  | POlvidarTodo => (Ok [], invalidate_all d)
  end.
Fixpoint sesion {D} `{BlockDevice D} (d : D) (ps : list Peticion) : list (outcome BlockError (list byte)) :=
  match ps with
  | [] => []
  | p :: ps => let '(r, d) := atender d p in r :: sesion d ps
  end.

Section Equivalencia.
Context {D : Type} `{BD : BlockDevice D} `{BS : !BlockDeviceSpec D} `{RD : !ReliableDevice D}.
Context {E : Type} `{BE : BlockDevice E} `{SE : !BlockDeviceSpec E} `{RE : !ReliableDevice E}.

Lemma atender_spec (d : D) p n : dev_ok d -> block_count d = n -> peticion_ok n p ->
  let '(r, d') := atender d p in
  dev_ok d' ∧ block_count d' = n ∧
  match p with
  | PLeer b => r = Ok (content d b) ∧ forall j, content d' j = content d j
  | PLeerTramo start k => r = Ok (range_content (content d) start (N.to_nat k)) ∧ forall j, content d' j = content d j
  | PEscribir b blk => r = Ok [] ∧ forall j, content d' j = if decide (j = b) then blk else content d j
  | _ => r = Ok [] ∧ forall j, content d' j = content d j
  end.
Proof using BD BS RD.
  intros Hd <- Hp. destruct p as [b|start k|b blk| |b|]; cbn [atender peticion_ok] in *.
  - destruct (read_ok d b Hd Hp) as (d' & -> & ? & ? & ?). by split_and!.
  - destruct (reliable_Ok _ (read_blocks_outcome d start k Hd Hp)) as [bs Hr].
    destruct (read_blocks_spec d start k Hd) as [(Hd' & Hc & Hb) Hres]. destruct (Hres _ Hr) as [-> _].
    destruct (read_blocks _ _ d) as [r d']; cbn in *; subst. by split_and!.
  - destruct Hp as [Hb Hl]. destruct (write_ok d b blk Hd Hb Hl) as (d' & Hw & ? & ? & Hc & Ho). rewrite bind_eq, Hw. cbn.
    split_and!; [done|done|done|]. intros j. case_decide; [by subst|by apply Ho].
  - destruct (flush_ok d Hd) as (d' & Hf & ? & ? & ?). rewrite bind_eq, Hf. by split_and!.
  - destruct (invalidate_block_spec d b Hd) as (? & ? & ?). by split_and!.
  - destruct (invalidate_all_spec d Hd) as (? & ? & ?). by split_and!.
Qed.
End Equivalencia.

Section Transparente.
Context {D : Type} `{BD : BlockDevice D} `{BS : !BlockDeviceSpec D} `{RD : !ReliableDevice D}.
Context {E : Type} `{BE : BlockDevice E} `{SE : !BlockDeviceSpec E} `{RE : !ReliableDevice E}.

Lemma sesion_igual ps : forall (d : D) (e : E), dev_ok d -> dev_ok e -> block_count e = block_count d ->
  (forall j, j < block_count d -> content e j = content d j) -> Forall (peticion_ok (block_count d)) ps -> sesion e ps = sesion d ps.
Proof.
  induction ps as [|p ps IH]; intros d e Hd He Hn Hc Hps; [done|]. apply Forall_cons in Hps as [Hp Hps]. cbn [sesion].
  pose proof (atender_spec d p _ Hd eq_refl Hp) as H1. pose proof (atender_spec e p _ He Hn Hp) as H2.
  destruct (atender d p) as [r d'], (atender e p) as [r' e']. destruct H1 as (Hd' & Hcd & H1), H2 as (He' & Hce & H2).
  assert (r' = r ∧ forall j, j < block_count d -> content e' j = content d' j) as [-> Hc'].
  { destruct p as [b|start k|b blk| |b|]; destruct H1 as [-> H1], H2 as [-> H2]; cbn in Hp; (split; [|intros j Hj; rewrite H1, H2; try by apply Hc]).
    - by rewrite Hc.
    - f_equal. apply range_content_ext. intros j Hj. apply Hc. lia.
    - done.
    - case_decide; [done|by apply Hc].
    - done.
    - done.
    - done. }
  f_equal. apply IH; [done|done|congruence|by rewrite Hcd|by rewrite Hcd].
Qed.
End Transparente.

(** C23. The block cache is transparent: any session of requests within the
    device gets, through a cache of any capacity, the answers the device
    itself gives. *)
Theorem cache_transparente {D} `{ReliableDevice D} (d : D) cap ps : dev_ok d -> Forall (peticion_ok (block_count d)) ps ->
  sesion (Cache.with_capacity d cap) ps = sesion d ps.
Proof.
  intros Hd Hps. apply sesion_igual; [done| |done|done|done].
  cbn [dev_ok Cache_Spec]. split; [done|]. split; [|constructor]. cbn [Cache.capacity Cache.with_capacity]. lia.
Qed.

(** ** Runs on a concrete volume *)
Definition mkdir_a : Op := OMkdir ROOT_INODE (txt "a") 0.
Lemma crece_mkdir (c : N -> Block) : crece mkdir_a c m_vacio 2.
Proof. cbn. lia. Qed.

Lemma operacion_atomica_testigo : exists s : Sosofs Mem.t, montado s 0 m_vacio ∧
  match api 10 5 mkdir_a s with
  | (Ok a, s') => exists h' m', (h' <= 0 + 2)%nat ∧ montado s' h' m' ∧ efecto mkdir_a m_vacio (next_inode s) a m' (next_inode s') ∧
      contenido mkdir_a (blk s) m_vacio (next_inode s) (blk s') m' ∧ generation s' = generation s + 1
  | (Err e, s') => (falla mkdir_a m_vacio e ∨ e = NoSpace) ∧ montado s' 0 m_vacio ∧ generation s' = generation s ∧
      forall ino d, archivo (blk s) m_vacio ino d -> archivo (blk s') m_vacio ino d
  | _ => False
  end.
Proof.
  destruct volumen_vacio as (s & d' & _ & Hm & Hg & Hn & _). exists s. split; [exact Hm|].
  exact (operacion_atomica 10 5 mkdir_a s 0 m_vacio 2 Hm
    (cabe_vacio s mkdir_a 2 Hg Hn eq_refl eq_refl (crece_mkdir (blk s)) ltac:(lia))).
Defined.

Definition tareas_a : list Tarea := [TOp mkdir_a; TTruncar 2 1 0; TPublicar].
Lemma publicado_intacto_testigo : exists (s s' : Sosofs Mem.t) r, mfor (tarea 10 5) tareas_a s = (r, s') ∧ sb s' = sb s ∧
  forall j, j < block_count (dev s) -> j < 2 ∨ bit (frozen s) j = Some true -> blk s' j = blk s j.
Proof.
  destruct volumen_vacio as (s & d' & _ & Hm & _). destruct (mfor (tarea 10 5) tareas_a s) as [r s'] eqn:E. exists s, s', r.
  split; [exact E|]. exact (publicado_intacto 10 5 tareas_a s 0 m_vacio r s' Hm E).
Defined.

Lemma corte_de_luz_testigo : exists (s s' : Sosofs (Rec.t Mem.t)) r, api 10 5 mkdir_a s = (r, s') ∧ corte (blk s) (Rec.ops (dev s')) (blk s) ∧
  exists s2 d', mount (Rec.inner (dev s)) = (Ok s2, d') ∧
    ((montado s2 0 m_vacio ∧ next_inode s2 = next_inode s ∧ generation s2 = generation s ∧
      forall ino x, archivo (blk s) m_vacio ino x -> archivo (blk s2) m_vacio ino x) ∨
     exists a h' m', r = Ok a ∧ montado s2 h' m' ∧ efecto mkdir_a m_vacio (next_inode s) a m' (next_inode s2) ∧
      contenido mkdir_a (blk s) m_vacio (next_inode s) (blk s2) m' ∧ generation s2 = generation s + 1).
Proof.
  destruct volumen_vacio as (s0 & d0 & _ & Hm0 & Hg & Hn & _). pose proof (montado_graba s0 0 m_vacio Hm0) as Hm.
  destruct (api 10 5 mkdir_a (graba s0)) as [r s'] eqn:E.
  assert (corte (blk (graba s0)) (Rec.ops (dev s')) (blk (graba s0))) as Hc.
  { exists [], [], (Rec.ops (dev s')), []. split; [reflexivity|]. split; [left; reflexivity|]. split; [apply not_elem_of_nil|]. split; [reflexivity|reflexivity]. }
  exists (graba s0), s', r. split; [exact E|]. split; [exact Hc|].
  assert (dev_ok (dev s0)) as Hd by (destruct Hm0 as [(l & F & it & [Hd _ _ _ _ _ _] & _) _ _]; exact Hd).
  exact (corte_de_luz 10 5 mkdir_a (graba s0) 0 m_vacio 2 r s' (blk (graba s0)) (dev s0) Hm
    (cabe_vacio (graba s0) mkdir_a 2 Hg Hn eq_refl eq_refl (crece_mkdir (blk (graba s0))) ltac:(lia)) eq_refl E Hc Hd eq_refl (fun j => eq_refl)).
Defined.

Lemma arbol_es_mapa_testigo : exists s : Sosofs Mem.t,
  wp space_err (tree_insert 5 (Key.inode 7) (zeros ITEM_PAYLOAD))
    (fun _ s' => vista s' 1 (<[Key.inode 7 := zeros ITEM_PAYLOAD]> m_vacio) (datos m_vacio) ∧ sigue s (datos m_vacio) s' ∧ dirty s' = true) s ∧
  wp (delete_fail (Key.inode 7) m_vacio) (tree_delete 5 (Key.inode 7))
    (fun _ s' => vista s' 0 (delete (Key.inode 7) m_vacio) (datos m_vacio) ∧ sigue s (datos m_vacio) s' ∧ is_Some (m_vacio !! Key.inode 7)) s.
Proof.
  destruct vista_vacia as (s & Hv). exists s.
  exact (arbol_es_mapa 5 0 m_vacio (datos m_vacio) (Key.inode 7) (zeros ITEM_PAYLOAD) s ltac:(lia) ltac:(lia) Hv ltac:(done) (lenN_zeros _)).
Defined.

Lemma busquedas_exactas_testigo : exists s : Sosofs Mem.t,
  wp io_err (scan_range 5 Key.MIN Key.MAX) (fun out s' => quiet s s' ∧ tramo m_vacio Key.MIN Key.MAX out) s ∧
  wp io_err (find_first 5 Key.MIN Key.MAX (fun _ => true)) (fun o s' => quiet s s' ∧ primero m_vacio Key.MIN Key.MAX (fun _ => true) o) s.
Proof.
  destruct vista_vacia as (s & Hv). exists s.
  exact (busquedas_exactas 5 0 m_vacio (datos m_vacio) Key.MIN Key.MAX (fun _ => true) s ltac:(lia) Hv).
Defined.


Lemma ruta_resuelta_testigo : exists s : Sosofs Mem.t,
  wp (fun e => io_err (D := Mem.t) e ∨ e = NotFound ∨ e = NotADir ∨ e = SosofsAlloc.NameTooLong) (resolve 5 (txt "/a/./b"))
    (fun fin s' => quiet s s' ∧ camino m_vacio ROOT_INODE [txt "a"; txt "b"] fin) s.
Proof. destruct vista_vacia as (s & Hv). exists s. exact (ruta_resuelta 5 0 m_vacio (datos m_vacio) (txt "/a/./b") s ltac:(lia) Hv). Defined.

Lemma listado_exacto_testigo : exists s : Sosofs Mem.t,
  wp (fun e => io_err (D := Mem.t) e ∨ check_fail m_vacio ROOT_INODE e) (read_dir 5 ROOT_INODE)
    (fun out s' => quiet s s' ∧ Sorted entry_le out ∧
       forall x, x ∈ out <-> exists name k c, nombra m_vacio ROOT_INODE name k c ∧ x = (from_utf8_lossy name, c)) s.
Proof. destruct vista_vacia as (s & Hv). exists s. exact (listado_exacto 5 0 m_vacio (datos m_vacio) ROOT_INODE s ltac:(lia) Hv). Defined.

Lemma reserva_correcta_testigo : exists s : Sosofs Mem.t,
  match alloc_extent 3 s with
  | (Ok (b, got), s') => 1 <= got <= 3 ∧ run_free s b got ∧ exists m' : list byte, s' = tras_alloc s m' b got ∧ run_taken (bitmap s) m' b got
  | (Err e, s') => e = NoSpace ∧ s' = s ∧ forall c, ¬ run_free s c 1
  | _ => False
  end.
Proof.
  destruct vista_vacia as (s & Hv). exists s. pose proof (vista_vol _ _ _ _ Hv) as [_ _ Hm Hs Hh _].
  exact (reserva_correcta 3 s Hm ltac:(unfold U64; lia) ltac:(unfold U64; lia)).
Defined.

Lemma mkfs_monta_testigo : exists st d' s d'', build_image (FDir 7 []) (Mem.new 16) = (Ok st, d') ∧ mount d' = (Ok s, d'') ∧
    montado s 0 (mapa (items_vacios 7)) ∧ generation s = 1 ∧ next_inode s = 2.
Proof.
  assert (block_count (Mem.new 16) = 16) as Hc by (cbn [block_count Mem_BlockDevice]; unfold Mem.block_count, Mem.new; cbn [Mem.data]; by rewrite lenN_zeros).
  assert (dev_ok (Mem.new 16)) as Hd by (cbn [dev_ok Mem_Spec]; red; unfold Mem.new; cbn [Mem.data]; by rewrite lenN_zeros).
  refine (mkfs_monta 7 (Mem.new 16) Hd _ _ eq_refl); rewrite Hc; done.
Defined.

Lemma imagen_disco : exists (s : Sosofs Mem.t) l F it, imagen (content (dev s)) (block_count (dev s)) (sb s) (frozen s) l F it ∧ dev_ok (dev s).
Proof.
  destruct volumen_vacio as (s & d' & _ & [(l & F & it & Hc & _) _ _] & _). exists s, l, F, it.
  split; [exact (cm_imagen _ _ _ _ Hc)|exact (cm_dev _ _ _ _ Hc)].
Qed.
Lemma montaje_de_la_ultima_testigo : exists (s0 s : Sosofs Mem.t) d', mount (dev s0) = (Ok s, d') ∧ frozen s = frozen s0 ∧ forall j, blk s j = content (dev s0) j.
Proof.
  destruct imagen_disco as (s0 & l & F & it & Hi & Hd).
  destruct (montaje_de_la_ultima (dev s0) (sb s0) (frozen s0) l F it Hd Hi) as (s & d' & H1 & _ & _ & H2 & H3).
  exists s0, s, d'. split; [exact H1|]. split; [exact H2|exact H3].
Defined.

Lemma formato_redondo_testigo :
  (exists blk, node_image 1 2 0 (Leaf (items_vacios 0)) = Some blk ∧ lenN blk = BLOCK_SIZE ∧
    node_at blk 2 0 (Leaf (items_vacios 0)) ∧ decode_node blk = Leaf (items_vacios 0)) ∧
  superblock_parse (superblock_write_to_block (sb_vacio 32) (zeros BLOCK_SIZE)) = Some (sealed (sb_vacio 32)).
Proof.
  assert (data_wf (Leaf (items_vacios 0))) as H1 by (apply Forall_singleton; done).
  assert (superblock_wf (sb_vacio 32)) as H2 by (by split_and!).
  destruct (formato_redondo 1 2 0 (Leaf (items_vacios 0)) (sb_vacio 32) (zeros BLOCK_SIZE) eq_refl eq_refl H1 (conj eq_refl eq_refl) ltac:(done) H2)
    as (H3 & H4 & _). split; [exact H3|exact H4].
Defined.

Lemma cache_transparente_testigo :
  sesion (Cache.with_capacity disco 4) [PLeer 1; PEscribir 9 (zeros BLOCK_SIZE); PLeerTramo 8 3; PVaciar; PLeer 9] =
  sesion disco [PLeer 1; PEscribir 9 (zeros BLOCK_SIZE); PLeerTramo 8 3; PVaciar; PLeer 9].
Proof.
  refine (cache_transparente disco 4 _ disco_ok _). rewrite disco_count.
  constructor; [cbn; lia|]. constructor; [split; [lia|exact (lenN_zeros _)]|]. constructor; [cbn; lia|]. constructor; [exact I|]. constructor; [cbn; lia|constructor].
Defined.

(** *** Cloning the volume with a file *)
Definition leer_de (s : Sosofs Mem.t) (j : N) : option Block := if j <? 32 then Some (blk s j) else None.
Definition copia_de (s : Sosofs Mem.t) : Mem.t := Mem.mk (take (N.to_nat (9 * BLOCK_SIZE)) (Mem.data (dev s)) ++ zeros (31 * BLOCK_SIZE)) 0.
Definition usa_9 (s : Sosofs Mem.t) : bool :=
  match (bloques_en_uso (leer_de s) tt).1 with
  | Ok (Some f) => (f =? 9) && (sb_block_count (sb s) <=? 40) && (lenN (Mem.data (dev s)) =? 32 * BLOCK_SIZE)
  | _ => false
  end.
Lemma uso_hola : match mount disco with (Ok s, _) => usa_9 (api 10 5 crear_hola s).2 | _ => true end = true.
Proof. vm_compute. reflexivity. Qed.
Lemma uso_corre (s : Sosofs Mem.t) d' : mount disco = (Ok s, d') -> usa_9 (api 10 5 crear_hola s).2 = true.
Proof. intros Hm. pose proof uso_hola as Hp. rewrite Hm in Hp. exact Hp. Qed.
Lemma usa_9_inv (s : Sosofs Mem.t) : usa_9 s = true ->
  bloques_en_uso (leer_de s) tt = (Ok (Some 9), tt) ∧ sb_block_count (sb s) <= 40 ∧ lenN (Mem.data (dev s)) = 32 * BLOCK_SIZE.
Proof.
  unfold usa_9. destruct (bloques_en_uso (leer_de s) tt) as [[[f|]| | |] []]; cbn [fst]; [|discriminate..].
  intros [[Hf%N.eqb_eq Hb%N.leb_le]%andb_true_iff Hl%N.eqb_eq]%andb_true_iff. subst f. split; [reflexivity|]. split; [exact Hb|exact Hl].
Qed.
Lemma copia_prefijo l k j : j < 9 -> lenN l = 32 * BLOCK_SIZE -> content (Mem.mk (take (N.to_nat (9 * BLOCK_SIZE)) l ++ zeros (31 * BLOCK_SIZE)) k) j = content (Mem.mk l 0) j.
Proof.
  intros Hj Hl. cbn [content Mem_Spec]. unfold MemSpec.content. cbn [Mem.data]. unfold BLOCK_SIZE in *.
  assert (length (take (N.to_nat (9 * 4096)) l) = N.to_nat (9 * 4096)) as Hlen by (rewrite length_take; unfold lenN in Hl; lia).
  rewrite drop_app_le by (rewrite Hlen; lia). rewrite take_app_le by (rewrite length_drop, Hlen; lia).
  rewrite skipn_firstn_comm, take_take. f_equal. lia.
Qed.
Lemma hola_uso : exists (s : Sosofs Mem.t) h m, montado s h m ∧ archivo (blk s) m 2 (txt "hola") ∧ usa_9 s = true.
Proof.
  destruct hola_montado as (s0 & s & d0 & h & m & Hmo & Hs & _ & Hm & Ha & _). exists s, h, m.
  split; [exact Hm|]. split; [exact Ha|]. rewrite Hs. exact (uso_corre s0 d0 Hmo).
Qed.
Lemma copia_ok (s : Sosofs Mem.t) : lenN (Mem.data (dev s)) = 32 * BLOCK_SIZE -> dev_ok (copia_de s) ∧ block_count (copia_de s) = 40 ∧
  forall j, j < 9 -> content (copia_de s) j = blk s j.
Proof.
  intros Hl. assert (lenN (Mem.data (copia_de s)) = 40 * BLOCK_SIZE) as Hc.
  { unfold copia_de. cbn [Mem.data]. rewrite lenN_app, lenN_take, lenN_zeros, Hl. done. }
  split_and!.
  - cbn [dev_ok Mem_Spec]. red. by rewrite Hc.
  - cbn [block_count Mem_BlockDevice]. unfold Mem.block_count. by rewrite Hc.
  - intros j Hj. unfold blk, copia_de. rewrite (copia_prefijo _ 0 j Hj Hl). destruct (dev s). reflexivity.
Qed.
Lemma leer_de_blk (s : Sosofs Mem.t) j buf : leer_de s j = Some buf -> buf = blk s j.
Proof. unfold leer_de. case_match; [|done]. by intros [= <-]. Qed.
Lemma clon_fiel_testigo : exists (s s2 : Sosofs Mem.t) d' h m, mount (copia_de s) = (Ok s2, d') ∧ montado s2 h m ∧ archivo (blk s2) m 2 (txt "hola").
Proof.
  destruct hola_uso as (s & h & m & Hm & Ha & (Hu & Hb & Hl)%usa_9_inv). destruct (copia_ok s Hl) as (Hd & Hc & Hp). rewrite <- Hc in Hb.
  destruct (clon_fiel (leer_de s) s h m 9 tt (copia_de s) Hm (leer_de_blk s) Hu Hd Hb Hp) as (_ & s2 & d' & H1 & H2 & _ & _ & H3).
  exists s, s2, d', h, m. split; [exact H1|]. split; [exact H2|]. exact (H3 _ _ Ha).
Defined.

(** *** Symbolic links in the source of [mkfs] *)
Definition fuente_enlace : Fuente := FDir 0 [(txt "a", FOtro); (txt "b", FFile 0 [])].

(** A symbolic link in the source directory breaks the image: its entry is
    kept while its inode number is given to the next file, so two names lead
    to one inode and the items are not well formed. *)
Theorem mkfs_enlace_duplica {D} `{BlockDevice D, Crc32c} (d : D) next : exists b k k',
  add_tree fuente_enlace ROOT_INODE (Builder.mk d 2 2 []) = (Ok tt, b) ∧
  nombra (mapa (Builder.items b)) ROOT_INODE (txt "a") k 2 ∧ nombra (mapa (Builder.items b)) ROOT_INODE (txt "b") k' 2 ∧ k ≠ k' ∧
  ¬ bien_formado (mapa (Builder.items b)) next.
Proof.
  set (ka := mkKey ROOT_INODE KIND_DIRENT (name_hash (txt "a"))). set (kb := mkKey ROOT_INODE KIND_DIRENT (name_hash (txt "b"))).
  assert (add_tree fuente_enlace ROOT_INODE (Builder.mk d 2 2 []) =
    (Ok tt, Builder.mk d 2 3 (upsert (Key.inode 2) (inode_payload (mkInodeItem FT_FILE 0 0)) (upsert kb (dirent_payload (txt "b") 2)
       (upsert ka (dirent_payload (txt "a") 2) (upsert (Key.inode ROOT_INODE) (inode_payload (mkInodeItem FT_DIR 0 0)) [])))))) as Hrun.
  { vm_compute. reflexivity. }
  eexists _, ka, kb. split; [exact Hrun|]. cbn [Builder.items]. rewrite !mapa_upsert.
  set (m := <[_ := _]> _).
  assert (nombra m ROOT_INODE (txt "a") ka 2) as Ha.
  { exists (dirent_payload (txt "a") 2). split; [|split; [done|split; [done|by split; vm_compute]]].
    unfold m. rewrite lookup_insert_ne by done. rewrite lookup_insert_ne by (intros [=]). apply lookup_insert_eq. }
  assert (nombra m ROOT_INODE (txt "b") kb 2) as Hb.
  { exists (dirent_payload (txt "b") 2). split; [|split; [done|split; [done|by split; vm_compute]]].
    unfold m. rewrite lookup_insert_ne by done. apply lookup_insert_eq. }
  split; [done|]. split; [done|]. split; [intros [=]|].
  intros Hbf. pose proof (bf_links _ _ Hbf _ _ _ _ _ _ _ Ha Hb) as Hk. discriminate Hk.
Qed.

(** *** A directory moved into itself *)
Definition en_si_mismo : F Mem.t (N * N * list (list byte * N) * list (list byte * N)) :=
  d ← mkdir 10 5 ROOT_INODE (txt "a") 0;
  f ← create_file 10 5 d (txt "f") (txt "hola") 0;
  rename 10 5 ROOT_INODE (txt "a") d (txt "b") 0;;
  raiz ← read_dir 5 ROOT_INODE;
  dentro ← read_dir 5 d;
  mret (d, f, raiz, dentro).

(** [rename] takes a directory into itself: the operation is published, nothing
    leads from the root to the directory or to the file in it any more, and both
    stay in the volume for ever. *)
Theorem rename_en_si_mismo : match mount disco with
  | (Ok s, _) => (en_si_mismo s).1 = Ok (2, 3, [], [(txt "b", 2); (txt "f", 3)])
  | _ => False
  end.
Proof. vm_compute. reflexivity. Qed.
