(* ===== verification/OtaHash.v ===== *)
(** * Update: hashes

    [crates/soso-update-core/src/hash.rs]. SHA-256 itself is the [sha2]
    crate, a parameter of the model; the hexadecimal form the records carry
    is written out and read back. *)
From S2P Require Import Prelude Texto.
Local Open Scope N_scope.

(** The SHA-256 of the [sha2] crate: 32 bytes for any input. *)
Class Sha256 := {
  sha256 : list byte -> list byte;
  sha256_length : forall bs, length (sha256 bs) = 32%nat;
}.

Definition HEX : list byte := txt "0123456789abcdef".
Definition hex_char (n : N) : byte := nth (N.to_nat n) HEX x00.

(** [hex::encode]: two lower-case digits a byte. *)
Definition hex_byte (b : byte) : str :=
  [hex_char (N.shiftr (Byte.to_N b) 4); hex_char (N.land (Byte.to_N b) 0xf)].
Definition hex_of (h : list byte) : str := concat (hex_byte <$> h).

Definition nibble (c : byte) : option N :=
  let n := Byte.to_N c in
  if in_byte 48 57 c then Some (n - 48)
  else if in_byte 97 102 c then Some (n - 97 + 10)
  else if in_byte 65 70 c then Some (n - 65 + 10)
  else None.

Fixpoint decode_pairs (s : str) : option (list byte) :=
  match s with
  | a :: b :: s =>
      x ← nibble a;
      y ← nibble b;
      r ← decode_pairs s;
      Some (byte_of (N.lor (N.shiftl x 4) y) :: r)
  | _ => Some []
  end.
Definition decode_hex_sha256 (s : str) : option (list byte) :=
  if negb (lenN s =? 64) then None else decode_pairs s.

Definition is_ascii_hexdigit (b : byte) : bool := in_byte 48 57 b || in_byte 97 102 b || in_byte 65 70 b.

Section Hash.
Context `{Sha256}.

Definition hex_sha256 (data : list byte) : str := hex_of (sha256 data).
End Hash.

(** ** The incremental hasher: [update] appends, [finish] hashes what was
    given. *)
Module Hasher.
Section Hasher.
Context `{Sha256}.
Definition t : Type := list byte.
Definition new : t := [].
Definition update (data : list byte) (h : t) : t := h ++ data.
Definition finish (h : t) : list byte := sha256 h.
Definition finish_hex (h : t) : str := hex_of (finish h).
End Hasher.
End Hasher.

(** ** Facts *)
Lemma hex_byte_decode b s r : decode_pairs s = Some r -> decode_pairs (hex_byte b ++ s) = Some (b :: r).
Proof. intros Hs. destruct b; cbn -[byte_of]; rewrite Hs; reflexivity. Qed.

Lemma hex_of_decode_pairs h : decode_pairs (hex_of h) = Some h.
Proof.
  unfold hex_of. induction h as [|b h IH]; [done|]. cbn [fmap list_fmap concat]. by apply hex_byte_decode.
Qed.

Lemma hex_of_length h : length (hex_of h) = (2 * length h)%nat.
Proof. unfold hex_of. induction h as [|b h IH]; [done|]. cbn [fmap list_fmap concat]. rewrite length_app, IH. cbn. lia. Qed.

Lemma decode_hex_of h : length h = 32%nat -> decode_hex_sha256 (hex_of h) = Some h.
Proof.
  intros Hl. unfold decode_hex_sha256, lenN. rewrite hex_of_length, Hl. cbn [negb]. apply hex_of_decode_pairs.
Qed.

Lemma hex_byte_digits b : forallb is_ascii_hexdigit (hex_byte b) = true.
Proof. by destruct b. Qed.

Lemma hex_of_digits h : forallb is_ascii_hexdigit (hex_of h) = true.
Proof.
  unfold hex_of. induction h as [|b h IH]; [done|]. cbn [fmap list_fmap concat].
  by rewrite forallb_app, hex_byte_digits, IH.
Qed.

Lemma hexdigit_visible b : is_ascii_hexdigit b = true -> visible b = true.
Proof. by destruct b. Qed.

Lemma hexdigits_visible l : forallb is_ascii_hexdigit l = true -> Forall (fun b => visible b = true) l.
Proof. intros Hl. apply Forall_forall. intros b Hb. apply hexdigit_visible. rewrite forallb_forall in Hl. by apply Hl, list_elem_of_In. Qed.

Lemma decode_pairs_length n s r : length s = (2 * n)%nat -> decode_pairs s = Some r -> length r = n.
Proof.
  revert s r. induction n as [|n IH]; intros s r Hl.
  - destruct s; [|done]. by intros [= <-].
  - destruct s as [|a [|b s]]; cbn in Hl; [lia|lia|]. cbn [decode_pairs].
    destruct (nibble a) as [x|]; cbn; [|done]. destruct (nibble b) as [y|]; cbn; [|done].
    destruct (decode_pairs s) as [q|] eqn:E; cbn; [|done]. intros [= <-]. cbn. f_equal. apply (IH s); [lia|done].
Qed.

Lemma decode_hex_length s h : decode_hex_sha256 s = Some h -> length h = 32%nat.
Proof.
  unfold decode_hex_sha256. destruct (N.eqb_spec (lenN s) 64) as [E|]; cbn; [|done].
  apply decode_pairs_length. unfold lenN in E. lia.
Qed.
