(* ===== verification/OtaRecord.v ===== *)
(** * Update: the frame of the durable records

    [crates/soso-update-core/src/record.rs]: magic, format version, sequence
    number, body lines and a CRC-32C over everything before it. A medium
    holds several slots written in turn. A record that is formatted is read
    back; whatever is read carries the checksum of its own bytes; and a slot
    torn while it is written never hides the previous record. *)
From S2P Require Import Prelude Texto OtaHash.
Local Open Scope N_scope.

(** ** [Result] *)
#[export] Instance sum_ret {E} : MRet (sum E) := fun A x => inr x.
#[export] Instance sum_bind {E} : MBind (sum E) := fun A B f m => match m with inl e => inl e | inr x => f x end.
Definition ok_or {E A} (e : E) (o : option A) : E + A := match o with Some x => inr x | None => inl e end.
Definition map_err {E F A} (f : E -> F) (r : E + A) : F + A := match r with inl e => inl (f e) | inr x => inr x end.

Definition SLOT_SIZE : N := 1024.
Definition SLOTS : N := 4.
Definition COPIAS : N := 2.
Definition SUM_LEN : N := 8.

Inductive RecordError :=
| Vacia
| NoTexto
| BadMagic
| FormatoDesconocido (formato : N)
| CampoAusente (campo : str)
| CampoInvalido (campo : str)
| SinSuma
| SumaIncorrecta
| Desbordado.
#[export] Instance RecordError_eq_dec : EqDecision RecordError.
Proof. solve_decision. Defined.

Record Framed := mkFramed { f_formato : N; f_seq : N; f_body : str }.

(** The value of a [clave=valor] line of the body. *)
Definition campo_linea (clave line : str) : option str :=
  v ← strip_prefix clave (trim line); strip_prefix (txt "=") v.
Fixpoint campo_de (clave : str) (ls : list str) : option str :=
  match ls with
  | [] => None
  | l :: ls => match campo_linea clave l with Some v => Some v | None => campo_de clave ls end
  end.
Definition campo (f : Framed) (clave : str) : option str := campo_de clave (lines (f_body f)).
Definition requerido (f : Framed) (clave : str) : RecordError + str := ok_or (CampoAusente clave) (campo f clave).
Definition lineas (f : Framed) (prefijo : str) : list str :=
  filter (fun l => starts_with prefijo l = true) (trim <$> lines (f_body f)).

Section Record_.
Context `{Crc32c}.

(** Eight hexadecimal digits, the highest first. *)
Definition suma (data : list byte) : str :=
  let c := crc32c data in
  (fun i => hex_char (N.land (N.shiftr c (i * 4)) 0xf)) <$> [7; 6; 5; 4; 3; 2; 1; 0].

Definition con_suma (text : str) : list byte := text ++ txt "sum=" ++ suma text ++ [LF].

Definition cabecera (magic : str) (formato seq : N) (body : str) : str :=
  magic ++ [LF] ++ txt "formato=" ++ dec formato ++ [LF] ++ txt "seq=" ++ dec seq ++ [LF]
  ++ match body with [] => [] | _ => body ++ (if ends_with [LF] body then [] else [LF]) end.

Definition frame (magic : str) (formato seq : N) (body : str) : list byte := con_suma (cabecera magic formato seq body).

Definition frame_slot (magic : str) (formato seq : N) (body : str) (slot : N) : RecordError + list byte :=
  let out := frame magic formato seq body in
  if slot <? lenN out then inl Desbordado
  else inr (out ++ replicate (N.to_nat slot - length out) LF).

(** The first line that carries [sum=]: what comes before it and its value. *)
Fixpoint buscar_suma (off : nat) (ls : list str) : option (nat * str) :=
  match ls with
  | [] => None
  | l :: ls =>
      match strip_prefix (txt "sum=") (trim l) with
      | Some v => Some (off, v)
      | None => buscar_suma (off + length l)%nat ls
      end
  end.

(** The lines between the magic and the sum. *)
Definition leer_linea (acc : option N * option N * str) (linea : str) : RecordError + (option N * option N * str) :=
  let '(formato, seq, body) := acc in
  let l := trim linea in
  match l with
  | [] => mret acc
  | _ =>
      match strip_prefix (txt "formato=") l with
      | Some v => n ← ok_or (CampoInvalido (txt "formato")) (parse_uint U16 v); mret (Some n, seq, body)
      | None =>
          match strip_prefix (txt "seq=") l with
          | Some v => n ← ok_or (CampoInvalido (txt "seq")) (parse_uint U64 v); mret (formato, Some n, body)
          | None => mret (formato, seq, body ++ l ++ [LF])
          end
      end
  end.
Fixpoint leer_lineas (acc : option N * option N * str) (ls : list str) : RecordError + (option N * option N * str) :=
  match ls with
  | [] => mret acc
  | l :: ls => acc ← leer_linea acc l; leer_lineas acc ls
  end.

Definition relleno (b : byte) : bool := Byte.eqb b x00 || Byte.eqb b LF || Byte.eqb b xff.

Definition parse (magic : str) (formato_max : N) (raw : list byte) : RecordError + Framed :=
  if forallb relleno raw then inl Vacia
  else
    let text := antes_de x00 raw in
    if negb (utf8_valid text) then inl NoTexto
    else
      pv ← ok_or SinSuma (buscar_suma 0 (split_inclusive LF text));
      let '(prefijo, valor) := pv in
      if negb (lenN valor =? SUM_LEN) || negb (bool_decide (suma (take prefijo raw) = valor)) then inl SumaIncorrecta
      else
        match lines (take prefijo text) with
        | [] => inl BadMagic
        | primera :: resto =>
            if negb (bool_decide (trim primera = magic)) then inl BadMagic
            else
              acc ← leer_lineas (None, None, []) resto;
              let '(formato, seq, body) := acc in
              formato ← ok_or (CampoAusente (txt "formato")) formato;
              if (formato =? 0) || (formato_max <? formato) then inl (FormatoDesconocido formato)
              else
                seq ← ok_or (CampoAusente (txt "seq")) seq;
                mret (mkFramed formato seq body)
        end.

Definition ranura (seq ranuras : N) : N := seq mod ranuras.

(** The valid slot of the highest sequence; with none valid, the first error
    that is not an empty slot. *)
Fixpoint pick_loop (magic : str) (formato_max i : N) (mejor : option (N * Framed)) (error : RecordError)
    (slots : list (list byte)) : RecordError + (N * Framed) :=
  match slots with
  | [] => ok_or error mejor
  | raw :: slots =>
      match parse magic formato_max raw with
      | inr f =>
          let gana := match mejor with None => true | Some (_, m) => f_seq m <? f_seq f end in
          pick_loop magic formato_max (i + 1) (if gana then Some (i, f) else mejor) error slots
      | inl Vacia => pick_loop magic formato_max (i + 1) mejor error slots
      | inl e => pick_loop magic formato_max (i + 1) mejor (if decide (error = Vacia) then e else error) slots
      end
  end.
Definition pick (magic : str) (formato_max : N) (slots : list (list byte)) : RecordError + (N * Framed) :=
  pick_loop magic formato_max 0 None Vacia slots.
End Record_.

(** ** What a line of a record may be *)
Definition reservada (l : str) : bool :=
  starts_with (txt "formato=") l || starts_with (txt "seq=") l || starts_with (txt "sum=") l.

Record linea_ok (l : str) : Prop := {
  lo_linea : linea l;
  lo_ne : l ≠ [];
  lo_nul : x00 ∉ l;
  lo_utf8 : utf8_valid l = true;
  lo_libre : reservada l = false;
}.
#[export] Instance linea_ok_dec l : Decision (linea_ok l).
Proof.
  refine (cast_if (decide (linea l ∧ l ≠ [] ∧ (x00 ∉ l) ∧ utf8_valid l = true ∧ reservada l = false))).
  - abstract (destruct_and?; by split).
  - abstract (intros [? ? ? ? ?]; tauto).
Defined.

(** A value that may close a line after [clave=]. *)
Definition valor_ok (v : str) : Prop := (LF ∉ v) ∧ ws_last (reverse v) = None ∧ (x00 ∉ v) ∧ utf8_valid v = true.

Lemma linea_ok_campo b p c v : visible b = true -> visible c = true -> Forall (fun b => visible b = true) p ->
  (forall l, reservada ((b :: p ++ [c]) ++ l) = false) -> valor_ok v -> linea_ok ((b :: p ++ [c]) ++ v).
Proof.
  intros Hb Hc Hp Hr (H1 & H2 & H3 & H4).
  assert (Forall (fun b => visible b = true) (b :: p ++ [c])) as Hk by (constructor; [done|apply Forall_app; auto]).
  split; [split|..].
  - intros [?|?]%elem_of_app; [by eapply visible_LF|done].
  - by apply recortada_campo.
  - done.
  - intros [?|?]%elem_of_app; [by eapply visible_NUL|done].
  - apply utf8_valid_app; [by apply utf8_visible|done].
  - apply Hr.
Qed.

Lemma valor_visible v : Forall (fun b => visible b = true) v -> valor_ok v.
Proof.
  intros Hv. split; [by apply visible_LF|]. split; [by apply recortada_visible|].
  split; [by apply visible_NUL|by apply utf8_visible].
Qed.

Lemma reservada_starts l p : reservada l = false -> p = txt "formato=" ∨ p = txt "seq=" ∨ p = txt "sum=" ->
  strip_prefix p l = None.
Proof.
  unfold reservada, strip_prefix. rewrite !orb_false_iff. intros ((H1 & H2) & H3) Hp.
  destruct Hp as [->|[->| ->]]; by rewrite ?H1, ?H2, ?H3.
Qed.

(** A line that ends with a text of its own. *)
Lemma linea_ok_texto b p v : visible b = true -> Forall (fun b => imprimible b = true) p -> v ≠ [] ->
  (forall l, reservada ((b :: p) ++ l) = false) -> valor_ok v -> linea_ok ((b :: p) ++ v).
Proof.
  intros Hb Hp Hne Hr (H1 & H2 & H3 & H4).
  assert (Forall (fun b => imprimible b = true) (b :: p)) as Hk by (constructor; [by apply visible_imprimible|done]).
  destruct (imprimible_texto _ Hk) as (K1 & K2 & K3). split; [split; [|split]|..].
  - by intros [?|?]%elem_of_app.
  - by apply ws_head_visible.
  - rewrite reverse_app. destruct (reverse (b :: p)) as [|c q] eqn:Eq; [by rewrite app_nil_r|].
    apply ws_last_app_ascii; [done|intros ?%(f_equal reverse); by rewrite reverse_involutive in *|].
    apply imprimible_ascii. rewrite Forall_forall in Hk. apply Hk. apply elem_of_reverse. rewrite Eq. apply list_elem_of_here.
  - done.
  - by intros [?|?]%elem_of_app.
  - by apply utf8_valid_app.
  - apply Hr.
Qed.

Lemma valor_imprimible v c : Forall (fun b => imprimible b = true) v -> visible c = true -> valor_ok (v ++ [c]).
Proof.
  intros Hv Hc. destruct (imprimible_texto (v ++ [c])) as (? & ? & ?).
  { apply Forall_app. split; [done|]. constructor; [by apply visible_imprimible|done]. }
  split; [done|]. split; [|done]. rewrite reverse_app. by apply ws_last_visible.
Qed.

(** A line [clave=valor]. *)
Lemma linea_clave b p v : visible b = true -> Forall (fun b => visible b = true) p ->
  (forall l, reservada ((b :: p ++ txt "=") ++ l) = false) -> valor_ok v -> linea_ok ((b :: p ++ txt "=") ++ v).
Proof. intros. by apply (linea_ok_campo b p "="%byte). Qed.

(** Fields of a body made of lines. *)
Lemma lineas_de_cuerpo ls : Forall linea_ok ls -> trim <$> lines (unlines ls) = ls.
Proof.
  intros Hl. rewrite lines_unlines; [|by eapply Forall_impl; [exact Hl|intros l []]].
  induction Hl as [|l ls [[_ Hr] _ _ _ _] _ IH]; [done|]. cbn [fmap list_fmap]. by rewrite trim_recortada, IH.
Qed.

Lemma campo_cuerpo f s ls clave : Forall linea_ok ls -> campo (mkFramed f s (unlines ls)) clave = campo_de clave ls.
Proof. intros Hl. unfold campo. cbn [f_body]. rewrite lines_unlines; [done|]. by eapply Forall_impl; [exact Hl|intros l []]. Qed.

Lemma campo_aqui clave k v ls : k = clave ++ txt "=" -> linea_ok (k ++ v) -> campo_de clave ((k ++ v) :: ls) = Some v.
Proof.
  intros -> [[_ Hr] _ _ _ _]. cbn [campo_de]. unfold campo_linea. rewrite trim_recortada by done. rewrite <- app_assoc.
  by rewrite !strip_prefix_app; cbn [mbind option_bind]; rewrite !strip_prefix_app.
Qed.

Lemma campo_sigue clave p v ls : linea_ok (p ++ v) -> clash clave p = true -> campo_de clave ((p ++ v) :: ls) = campo_de clave ls.
Proof.
  intros [[_ Hr] _ _ _ _] Hc. cbn [campo_de]. unfold campo_linea. rewrite trim_recortada by done.
  by rewrite strip_prefix_clash.
Qed.

Section RecordFacts.
Context `{Crc32c}.

Lemma hex_char_visible n : visible (hex_char (N.land n 0xf)) = true.
Proof.
  assert (N.land n 0xf < 16) as Hn by (change 0xf with (N.ones 4); rewrite N.land_ones; by apply N.mod_lt).
  revert Hn. generalize (N.land n 0xf). intros k Hk. unfold hex_char.
  assert (forallb visible HEX = true) as HH by done. rewrite forallb_forall in HH. apply HH, nth_In. cbn. lia.
Qed.

Lemma suma_visible data : Forall (fun b => visible b = true) (suma data).
Proof. unfold suma. cbn [fmap list_fmap]. repeat (constructor; [apply hex_char_visible|]). constructor. Qed.

Lemma suma_length data : lenN (suma data) = SUM_LEN.
Proof. done. Qed.

(** The header and the body as lines. *)
Definition renglones (magic : str) (formato seq : N) (ls : list str) : list str :=
  magic :: (txt "formato=" ++ dec formato) :: (txt "seq=" ++ dec seq) :: ls.

Lemma cabecera_renglones magic formato seq ls :
  cabecera magic formato seq (unlines ls) = unlines (renglones magic formato seq ls).
Proof.
  unfold cabecera, renglones. rewrite !unlines_cons, <- !app_assoc. cbn [app]. repeat f_equal.
  destruct (decide (ls = [])) as [->|Hne]; [done|]. rewrite unlines_ends by done.
  destruct ls as [|[|b l] ls]; [done|..]; rewrite unlines_cons; cbn [app]; by rewrite app_nil_r.
Qed.

Lemma linea_numero b p c n : visible b = true -> visible c = true -> Forall (fun b => visible b = true) p ->
  linea ((b :: p ++ [c]) ++ dec n) ∧ (x00 ∉ (b :: p ++ [c]) ++ dec n) ∧ utf8_valid ((b :: p ++ [c]) ++ dec n) = true.
Proof.
  intros Hb Hc Hp. assert (Forall (fun b => visible b = true) ((b :: p ++ [c]) ++ dec n)) as Hv.
  { apply Forall_app. split; [constructor; [done|apply Forall_app; auto]|apply dec_visible]. }
  split; [split; [by apply visible_LF|by apply recortada_visible]|]. split; [by apply visible_NUL|by apply utf8_visible].
Qed.

(** A magic that can head a record. *)
Definition magic_ok (magic : str) : Prop := linea_ok magic.

Lemma renglones_ok magic formato seq ls : magic_ok magic -> Forall linea_ok ls ->
  Forall (fun l => linea l ∧ (x00 ∉ l) ∧ utf8_valid l = true ∧ strip_prefix (txt "sum=") l = None) (renglones magic formato seq ls).
Proof.
  intros Hm Hls. assert (forall l, linea_ok l -> linea l ∧ (x00 ∉ l) ∧ utf8_valid l = true ∧ strip_prefix (txt "sum=") l = None) as Hok.
  { intros l [? ? ? ? ?]. do 3 (split; [done|]). apply reservada_starts; auto. }
  constructor; [by apply Hok|]. constructor; [|constructor; [|by eapply Forall_impl]].
  - destruct (linea_numero "f" (txt "ormato") "=" formato) as (? & ? & ?); [done|done|by repeat constructor|].
    do 3 (split; [done|]). by apply strip_prefix_clash.
  - destruct (linea_numero "s" (txt "eq") "=" seq) as (? & ? & ?); [done|done|by repeat constructor|].
    do 3 (split; [done|]). by apply strip_prefix_clash.
Qed.

Lemma buscar_suma_unlines ls : forall off resto, Forall (fun l => recortada l ∧ strip_prefix (txt "sum=") l = None) ls ->
  buscar_suma off (((fun l => l ++ [LF]) <$> ls) ++ resto) = buscar_suma (off + length (unlines ls)) resto.
Proof.
  induction ls as [|l ls IH]; intros off resto Hls; [by rewrite Nat.add_0_r|].
  apply Forall_cons in Hls as [[Hr Hs] Hls]. cbn [fmap list_fmap app buscar_suma]. rewrite trim_line, Hs by done.
  rewrite IH by done. f_equal. rewrite unlines_cons, !length_app. cbn. lia.
Qed.

(** What the body loop keeps of the lines of a record. *)
Lemma leer_lineas_cuerpo f s ls : forall body, Forall linea_ok ls ->
  leer_lineas (f, s, body) ls = inr (f, s, body ++ unlines ls).
Proof.
  induction ls as [|l ls IH]; intros body Hls; [by rewrite app_nil_r|].
  apply Forall_cons in Hls as [Hl Hls]. cbn [leer_lineas]. unfold leer_linea. destruct Hl as [[_ Hr] Hne _ _ Hlib].
  rewrite trim_recortada by done. destruct l as [|b l]; [done|]. rewrite !reservada_starts by auto. cbn [mbind sum_bind mret sum_ret].
  rewrite IH by done. rewrite unlines_cons. do 2 f_equal. by rewrite <- !app_assoc.
Qed.

Lemma leer_formato f s body n : n < U16 -> leer_linea (f, s, body) (txt "formato=" ++ dec n) = inr (Some n, s, body).
Proof.
  intros Hn. destruct (linea_numero "f" (txt "ormato") "=" n) as ([_ Hl] & _); [done|done|by repeat constructor|].
  change ("f"%byte :: txt "ormato" ++ ["="%byte]) with (txt "formato=") in Hl.
  unfold leer_linea. rewrite trim_recortada by done. rewrite strip_prefix_app, parse_dec by done. done.
Qed.

Lemma leer_seq f s body n : n < U64 -> leer_linea (f, s, body) (txt "seq=" ++ dec n) = inr (f, Some n, body).
Proof.
  intros Hn. destruct (linea_numero "s" (txt "eq") "=" n) as ([_ Hl] & _); [done|done|by repeat constructor|].
  change ("s"%byte :: txt "eq" ++ ["="%byte]) with (txt "seq=") in Hl.
  unfold leer_linea. rewrite trim_recortada by done. rewrite (strip_prefix_clash (txt "formato=") (txt "seq=")) by done.
  rewrite strip_prefix_app, parse_dec by done. done.
Qed.

Lemma leer_cabecera formato seq ls : formato < U16 -> seq < U64 -> Forall linea_ok ls ->
  leer_lineas (None, None, []) ((txt "formato=" ++ dec formato) :: (txt "seq=" ++ dec seq) :: ls)
  = inr (Some formato, Some seq, unlines ls).
Proof.
  intros Hf Hs Hls. cbn [leer_lineas]. rewrite leer_formato by done. cbn [mbind sum_bind].
  rewrite leer_seq by done. cbn [mbind sum_bind]. by rewrite leer_lineas_cuerpo.
Qed.

(** The lines of a record, with its sum, hold no zero and are text. *)
Lemma unlines_texto R : Forall (fun l => linea l ∧ (x00 ∉ l) ∧ utf8_valid l = true ∧ strip_prefix (txt "sum=") l = None) R ->
  (x00 ∉ unlines R) ∧ utf8_valid (unlines R) = true.
Proof.
  intros Hr. split.
  - intros Hi. apply list_elem_of_In, in_concat in Hi as (l & Hl & Hi). apply list_elem_of_In in Hl, Hi.
    apply list_elem_of_fmap in Hl as (k & -> & Hk). rewrite Forall_forall in Hr. destruct (Hr k Hk) as (_ & H0 & _).
    apply elem_of_app in Hi as [?|Hi]; [done|]. apply list_elem_of_singleton in Hi. done.
  - apply utf8_valid_concat, Forall_fmap. eapply Forall_impl; [exact Hr|]. intros l (_ & _ & Hl & _). by apply utf8_valid_app.
Qed.

Lemma linea_suma_visible data : Forall (fun b => visible b = true) (txt "sum=" ++ suma data).
Proof. apply Forall_app. split; [by repeat constructor|apply suma_visible]. Qed.

Lemma buscar_suma_frame R resto :
  Forall (fun l => linea l ∧ (x00 ∉ l) ∧ utf8_valid l = true ∧ strip_prefix (txt "sum=") l = None) R ->
  buscar_suma 0 (split_inclusive LF (unlines R ++ (txt "sum=" ++ suma (unlines R)) ++ LF :: resto))
  = Some (length (unlines R), suma (unlines R)).
Proof.
  intros Hr. rewrite split_unlines; [|by eapply Forall_impl; [exact Hr|intros l ([? ?] & _)]].
  rewrite buscar_suma_unlines; [|by eapply Forall_impl; [exact Hr|intros l ([? ?] & ? & ? & ?)]].
  pose proof (linea_suma_visible (unlines R)) as Hv.
  rewrite split_inclusive_cons by by apply visible_LF. cbn [buscar_suma]. rewrite trim_line by by apply recortada_visible.
  by rewrite strip_prefix_app.
Qed.

(** *** Reading back what was written *)
Lemma parse_frame magic formato_max formato seq ls resto :
  magic_ok magic -> Forall linea_ok ls -> 0 < formato <= formato_max -> formato < U16 -> seq < U64 ->
  utf8_valid (antes_de x00 resto) = true ->
  parse magic formato_max (frame magic formato seq (unlines ls) ++ resto) = inr (mkFramed formato seq (unlines ls)).
Proof.
  intros Hm Hls Hf Hf16 Hs Hresto. unfold frame. rewrite cabecera_renglones.
  pose proof (renglones_ok magic formato seq ls Hm Hls) as Hr. destruct (unlines_texto _ Hr) as [Hc0 Hcu].
  pose proof (buscar_suma_frame _ (antes_de x00 resto) Hr) as Hbus.
  pose proof (linea_suma_visible (unlines (renglones magic formato seq ls))) as Hv.
  assert (lines (unlines (renglones magic formato seq ls)) = renglones magic formato seq ls) as Hlines.
  { apply lines_unlines. by eapply Forall_impl; [exact Hr|intros l (? & _)]. }
  unfold con_suma. set (c := unlines _) in *. set (sl := txt "sum=" ++ suma c) in *.
  replace ((c ++ txt "sum=" ++ suma c ++ [LF]) ++ resto) with (c ++ sl ++ LF :: resto) by (unfold sl; by rewrite <- !app_assoc).
  assert (antes_de x00 (c ++ sl ++ LF :: resto) = c ++ sl ++ LF :: antes_de x00 resto) as Hant.
  { rewrite antes_de_app by done. by rewrite antes_de_app by by apply visible_NUL. }
  unfold parse. rewrite Hant. replace (forallb relleno (c ++ sl ++ LF :: resto)) with false.
  2: { symmetry. rewrite !forallb_app. assert (forallb relleno sl = false) as -> by done. by rewrite andb_false_r. }
  rewrite utf8_valid_app; [|done|apply utf8_valid_app; [by apply utf8_visible|by apply (utf8_valid_app [LF])]]. cbn [negb].
  rewrite Hbus. cbn [ok_or mbind sum_bind]. rewrite !take_app_length, suma_length, bool_decide_eq_true_2 by done. cbn [negb orb].
  change (negb (SUM_LEN =? SUM_LEN)) with false. cbn [orb].
  rewrite Hlines. unfold renglones. destruct Hm as [[_ Hm] _ _ _ _]. rewrite trim_recortada, bool_decide_eq_true_2 by done. cbn [negb].
  rewrite leer_cabecera by done. cbn [ok_or mbind sum_bind].
  destruct (N.eqb_spec formato 0); [lia|]. destruct (N.ltb_spec formato_max formato); [lia|]. done.
Qed.
(** Padding to the slot with line feeds changes nothing. *)
Lemma relleno_texto n : utf8_valid (antes_de x00 (replicate n LF)) = true.
Proof. induction n as [|n IH]; [done|]. cbn. by apply (utf8_valid_app [LF]). Qed.

Lemma parse_frame_slot magic formato_max formato seq ls slot raw :
  magic_ok magic -> Forall linea_ok ls -> 0 < formato <= formato_max -> formato < U16 -> seq < U64 ->
  frame_slot magic formato seq (unlines ls) slot = inr raw ->
  lenN raw = slot ∧ parse magic formato_max raw = inr (mkFramed formato seq (unlines ls)).
Proof.
  intros Hm Hls Hf Hf16 Hs. unfold frame_slot. destruct (N.ltb_spec slot (lenN (frame magic formato seq (unlines ls)))); [done|].
  intros [= <-]. split.
  - rewrite lenN_app. unfold lenN in *. rewrite length_replicate. lia.
  - apply parse_frame; try done. apply relleno_texto.
Qed.

(** Whatever is accepted carries, after [sum=], the checksum of every byte
    before that line. *)
Lemma parse_integro magic formato_max raw f : parse magic formato_max raw = inr f ->
  exists n, buscar_suma 0 (split_inclusive LF (antes_de x00 raw)) = Some (n, suma (take n raw))
            ∧ 0 < f_formato f <= formato_max.
Proof.
  unfold parse. destruct (forallb relleno raw); [done|]. destruct (utf8_valid _); [|done]. cbn [negb].
  destruct (buscar_suma 0 _) as [[n v]|]; [|done]. cbn [ok_or mbind sum_bind].
  destruct (lenN v =? SUM_LEN); [|done]. case_bool_decide as Hv; [|done]. cbn [negb orb].
  destruct (lines _) as [|primera resto]; [done|]. destruct (negb _); [done|].
  destruct (leer_lineas _ _) as [|[[fo se] body]]; [done|]. cbn [mbind sum_bind]. destruct fo as [fo|]; [|done]. cbn [ok_or mbind sum_bind].
  destruct (N.eqb_spec fo 0); [done|]. destruct (N.ltb_spec formato_max fo); [done|]. cbn [orb].
  destruct se as [se|]; [|done]. cbn [ok_or mbind sum_bind mret sum_ret]. intros [= <-]. exists n. split; [congruence|]. cbn. lia.
Qed.

(** *** The slot that is read *)
Definition valida (magic : str) (fm : N) (slots : list (list byte)) (k : N) (g : Framed) : Prop :=
  exists raw, slots !! N.to_nat k = Some raw ∧ parse magic fm raw = inr g.

Lemma valida_nil magic fm k g : ¬ valida magic fm [] k g.
Proof. by intros (raw & Hr & _). Qed.

Lemma valida_cons magic fm raw slots k g : valida magic fm (raw :: slots) k g <->
  (k = 0 ∧ parse magic fm raw = inr g) ∨ (0 < k ∧ valida magic fm slots (k - 1) g).
Proof.
  unfold valida. destruct (N.eq_dec k 0) as [->|Hk].
  - cbn. split; [intros (r & [= <-] & ?); by left|]. intros [[_ ?]|[? _]]; [by exists raw|lia].
  - replace (N.to_nat k) with (S (N.to_nat (k - 1))) by lia. cbn. split; [intros ?; right; split; [lia|done]|].
    intros [[? _]|[_ ?]]; [lia|done].
Qed.

(** [i] is the first valid slot of the highest sequence. *)
Definition primera_mejor (magic : str) (fm : N) (slots : list (list byte)) (i : N) (f : Framed) : Prop :=
  valida magic fm slots i f ∧
  forall k g, valida magic fm slots k g -> f_seq g <= f_seq f ∧ (k < i -> f_seq g < f_seq f).

Lemma primera_mejor_fun magic fm slots i f j g :
  primera_mejor magic fm slots i f -> primera_mejor magic fm slots j g -> i = j ∧ f = g.
Proof.
  intros [H1 H2] [H3 H4]. destruct (H2 _ _ H3), (H4 _ _ H1). assert (i = j) as <- by lia. split; [done|].
  destruct H1 as (r & Hr & ?), H3 as (r' & Hr' & ?). congruence.
Qed.

(** What the loop returns, from the best slot known before [base]. *)
Definition elige (magic : str) (fm base : N) (mejor : option (N * Framed)) (slots : list (list byte))
    (r : RecordError + (N * Framed)) : Prop :=
  match r with
  | inr (i, f) =>
      (mejor = Some (i, f) ∨ (base <= i ∧ valida magic fm slots (i - base) f)) ∧
      (forall j g, mejor = Some (j, g) -> f_seq g <= f_seq f ∧ (base <= i -> f_seq g < f_seq f)) ∧
      (forall k g, valida magic fm slots k g -> f_seq g <= f_seq f ∧ (base + k < i -> f_seq g < f_seq f))
  | inl _ => mejor = None ∧ forall k g, ¬ valida magic fm slots k g
  end.

Lemma elige_salta magic fm base mejor raw slots e r : parse magic fm raw = inl e ->
  (forall j g, mejor = Some (j, g) -> j < base) ->
  elige magic fm (base + 1) mejor slots r -> elige magic fm base mejor (raw :: slots) r.
Proof.
  intros He Hm. destruct r as [|[i f]]; cbn [elige].
  - intros [-> Hs]. split; [done|]. intros k g [[_ ?]|[_ ?]]%valida_cons; [congruence|by eapply Hs].
  - intros (H1 & H2 & H3). split; [|split].
    + destruct H1 as [->|[Hi Hv]]; [by left|]. right. split; [lia|]. apply valida_cons. right.
      split; [lia|]. by replace (i - base - 1) with (i - (base + 1)) by lia.
    + intros j g Hj. destruct (H2 _ _ Hj) as [? Hlt]. split; [done|]. intros Hi.
      destruct H1 as [->|[? _]]; [|by apply Hlt]. specialize (Hm _ _ eq_refl). lia.
    + intros k g [[_ ?]|[Hk Hv]]%valida_cons; [congruence|]. destruct (H3 _ _ Hv) as [? Hlt]. split; [done|]. intros. apply Hlt. lia.
Qed.

Lemma elige_prueba magic fm base mejor raw slots h r : parse magic fm raw = inr h ->
  (forall j g, mejor = Some (j, g) -> j < base) ->
  elige magic fm (base + 1) (if match mejor with None => true | Some (_, m) => f_seq m <? f_seq h end then Some (base, h) else mejor) slots r ->
  elige magic fm base mejor (raw :: slots) r.
Proof.
  intros Hh Hm. set (gana := match mejor with None => true | _ => _ end).
  assert (gana = true -> forall j g, mejor = Some (j, g) -> f_seq g < f_seq h) as Hgana.
  { intros Hg j g ->. by apply N.ltb_lt. }
  assert (gana = false -> exists j g, mejor = Some (j, g) ∧ f_seq h <= f_seq g) as Hpierde.
  { destruct mejor as [[j g]|]; [|done]. intros Hg. exists j, g. split; [done|]. by apply N.ltb_ge. }
  destruct r as [|[i f]]; cbn [elige].
  - intros [Hn _]. destruct gana; [done|]. by destruct (Hpierde eq_refl) as (j & g & -> & _).
  - intros (H1 & H2 & H3). destruct gana.
    + destruct (H2 _ _ eq_refl) as [Hle Hlt]. split; [|split].
      * right. destruct H1 as [[= <- <-]|[Hi Hv]].
        -- split; [lia|]. apply valida_cons. left. split; [lia|done].
        -- split; [lia|]. apply valida_cons. right. split; [lia|]. by replace (i - base - 1) with (i - (base + 1)) by lia.
      * intros j g Hj. specialize (Hgana eq_refl _ _ Hj). lia.
      * intros k g [[-> Hg]|[Hk Hv]]%valida_cons.
        -- assert (g = h) as -> by congruence. split; [done|]. intros. apply Hlt. lia.
        -- destruct (H3 _ _ Hv) as [? Hl]. split; [done|]. intros. apply Hl. lia.
    + destruct (Hpierde eq_refl) as (j & g & -> & Hg). destruct (H2 _ _ eq_refl) as [Hle Hlt].
      pose proof (Hm _ _ eq_refl) as Hj. split; [|split].
      * destruct H1 as [->|[Hi Hv]]; [by left|]. right. split; [lia|]. apply valida_cons. right. split; [lia|].
        by replace (i - base - 1) with (i - (base + 1)) by lia.
      * intros j' g' [= <- <-]. split; [done|]. intros Hi. destruct H1 as [[= <- _]|[? _]]; [lia|by apply Hlt].
      * intros k g' [[-> Hg']|[Hk Hv]]%valida_cons.
        -- assert (g' = h) as -> by congruence. split; [lia|]. intros. destruct H1 as [[= <- _]|[? _]]; [lia|].
           eapply N.le_lt_trans; [exact Hg|by apply Hlt].
        -- destruct (H3 _ _ Hv) as [? Hl]. split; [done|]. intros. apply Hl. lia.
Qed.

Lemma pick_loop_elige magic fm slots : forall base mejor error,
  (forall j g, mejor = Some (j, g) -> j < base) ->
  elige magic fm base mejor slots (pick_loop magic fm base mejor error slots).
Proof.
  induction slots as [|raw slots IH]; intros base mejor error Hm; cbn [pick_loop].
  - destruct mejor as [[j g]|]; cbn; [|split; [done|intros ? ?; apply valida_nil]].
    split; [by left|]. split; [|by intros k g' ?%valida_nil]. intros ? ? [= <- <-]. specialize (Hm _ _ eq_refl). lia.
  - assert (forall j g, mejor = Some (j, g) -> j < base + 1) as Hm1 by (intros j g Hj; apply Hm in Hj; lia).
    destruct (parse magic fm raw) as [e|h] eqn:Ep.
    + destruct e; (eapply elige_salta; [exact Ep|done|by apply IH]).
    + eapply elige_prueba; [exact Ep|done|]. apply IH. intros j g. case_match; [|apply Hm1]. intros [= <- <-]. lia.
Qed.

Lemma pick_spec magic fm slots i f : pick magic fm slots = inr (i, f) <-> primera_mejor magic fm slots i f.
Proof.
  pose proof (pick_loop_elige magic fm slots 0 None Vacia ltac:(done)) as He. fold (pick magic fm slots) in He.
  split.
  - intros Hp. rewrite Hp in He. destruct He as ([?|[_ Hv]] & _ & Hk); [done|]. split; [by rewrite N.sub_0_r in Hv|].
    intros k g Hg. by apply Hk.
  - intros Hb. destruct (pick magic fm slots) as [e|[j g]].
    + destruct He as [_ He]. destruct Hb as [Hb _]. by apply He in Hb.
    + destruct He as ([?|[_ Hv]] & _ & Hk); [done|]. rewrite N.sub_0_r in Hv.
      assert (primera_mejor magic fm slots j g) as Hg by (split; [done|intros k g' Hg'; by apply Hk]).
      by destruct (primera_mejor_fun _ _ _ _ _ _ _ Hb Hg) as [-> ->].
Qed.

(** Writing the next record into its turn, cut at any point: the previous
    record is still there, or the slot already reads as a valid record that
    is not older. *)
Lemma pick_rota magic fm slots i f raw : pick magic fm slots = inr (i, f) ->
  i = ranura (f_seq f) (lenN slots) -> 1 < lenN slots ->
  let j := ranura (f_seq f + 1) (lenN slots) in
  pick magic fm (<[N.to_nat j := raw]> slots) = inr (i, f) ∨
  exists f', parse magic fm raw = inr f' ∧ f_seq f <= f_seq f' ∧ pick magic fm (<[N.to_nat j := raw]> slots) = inr (j, f').
Proof.
  intros Hp Hi Hn j. apply pick_spec in Hp as [Hv Hb].
  assert (i ≠ j) as Hij.
  { unfold j, ranura in *. rewrite Hi. intros Heq.
    pose proof (N.div_mod (f_seq f) (lenN slots)) as H1. pose proof (N.div_mod (f_seq f + 1) (lenN slots)) as H2.
    rewrite <- Heq in H2. generalize dependent (f_seq f mod lenN slots). intros r. intros.
    specialize (H1 ltac:(lia)). specialize (H2 ltac:(lia)).
    assert (lenN slots * ((f_seq f + 1) / lenN slots - f_seq f / lenN slots) = 1) as Hm by (rewrite N.mul_sub_distr_l; lia).
    apply N.eq_mul_1 in Hm. lia. }
  assert (forall k g, k ≠ j -> valida magic fm (<[N.to_nat j:=raw]> slots) k g <-> valida magic fm slots k g) as Hne.
  { intros k g Hk. unfold valida. by rewrite list_lookup_insert_ne by lia. }
  assert (N.to_nat j < length slots)%nat as Hjl.
  { unfold j, ranura. pose proof (N.mod_lt (f_seq f + 1) (lenN slots) ltac:(lia)) as Hl.
    generalize dependent ((f_seq f + 1) mod lenN slots). unfold lenN. lia. }
  assert (forall g, valida magic fm (<[N.to_nat j:=raw]> slots) j g <-> parse magic fm raw = inr g) as Heq.
  { intros g. unfold valida. rewrite list_lookup_insert_eq by done. split; [by intros (r & [= <-] & ?)|by exists raw]. }
  destruct (parse magic fm raw) as [e|f'] eqn:Ep.
  - left. apply pick_spec. split; [by apply Hne|]. intros k g Hg. destruct (decide (k = j)) as [->|Hk].
    + apply Heq in Hg. done.
    + apply Hne in Hg; [by apply Hb|done].
  - destruct (decide (f_seq f < f_seq f' ∨ (f_seq f = f_seq f' ∧ j < i))) as [Hw|Hw].
    + right. exists f'. split; [done|]. split; [lia|]. apply pick_spec. split; [by apply Heq|].
      intros k g Hg. destruct (decide (k = j)) as [->|Hk].
      * apply Heq in Hg as [= <-]. lia.
      * apply Hne in Hg; [|done]. destruct (Hb _ _ Hg). split; lia.
    + left. apply pick_spec. split; [by apply Hne|]. intros k g Hg. destruct (decide (k = j)) as [->|Hk].
      * apply Heq in Hg as [= <-]. lia.
      * apply Hne in Hg; [by apply Hb|done].
Qed.
End RecordFacts.
