(* ===== verification/OtaManifest.v ===== *)
(** * Update: the release

    [crates/soso-update-core/src/semver.rs], [compat.rs], [manifest.rs],
    [pack.rs], [plan.rs] and [oferta.rs]: what a release declares, whether
    this machine may take it, the file the pack is, and which parts of it are
    downloaded. *)
From S2P Require Import Prelude Texto OtaHash OtaRecord.
Local Open Scope N_scope.

(** ** Words: [split_whitespace] *)
Fixpoint trozos_ws (fuel : nat) (actual l : str) : list str :=
  match fuel with
  | O => [actual]
  | S fuel =>
      match l with
      | [] => [actual]
      | b :: r => match ws_head l with
                  | Some r' => actual :: trozos_ws fuel [] r'
                  | None => trozos_ws fuel (actual ++ [b]) r
                  end
      end
  end.
Definition split_whitespace (l : str) : list str := filter (fun w => w ≠ []) (trozos_ws (S (length l)) [] l).

(** [parts.join(sep)] *)
Fixpoint join (sep : str) (ws : list str) : str :=
  match ws with [] => [] | [w] => w | w :: ws => w ++ sep ++ join sep ws end.

(** The part before the first of some bytes: [split(cs).next()]. *)
Fixpoint hasta (cs : list byte) (l : str) : str :=
  match l with [] => [] | b :: l => if bool_decide (b ∈ cs) then [] else b :: hasta cs l end.

(** ** Versions *)
Record SemVer := mkSemVer { major : N; minor : N; patch : N }.
#[export] Instance SemVer_eq_dec : EqDecision SemVer.
Proof. solve_decision. Defined.

Definition semver_parse (s : str) : option SemVer :=
  match split_byte "." (trim (hasta ["-"%byte; "+"%byte] s)) with
  | a :: b :: c :: _ =>
      major ← parse_uint U32 a; minor ← parse_uint U32 b; patch ← parse_uint U32 c; Some (mkSemVer major minor patch)
  | _ => None
  end.
Definition semver_cmp (a b : SemVer) : comparison :=
  match major a ?= major b with
  | Eq => match minor a ?= minor b with Eq => patch a ?= patch b | c => c end
  | c => c
  end.

(** ** Compatibility *)
Definition RECUPERADOR_VERSION : N := 1.
Definition SHIM_VERSION : N := 1.
Definition FS_FORMATO : str := txt "sosofs1".

Record Compat := mkCompat {
  co_arch : str; co_perfil : str; co_drivers : list str; co_abi : N; co_fs : str; co_min_shim : N; co_min_recuperador : N }.
Definition compat_default : Compat := mkCompat [] [] [] 0 [] 0 0.
Record Equipo := mkEquipo { eq_arch : str; eq_abi : N; eq_fs : str; eq_shim : N; eq_recuperador : N; eq_drivers : list str }.

Inductive CompatError :=
| NoDeclarada
| EArch (espera hay : str)
| EAbi (espera hay : N)
| EFs (espera hay : str)
| ShimAntiguo (min hay : N)
| RecuperadorAntiguo (min hay : N)
| DriverAusente (d : str)
| CampoInvalido (campo : str).

Definition compat_format (c : Compat) : str :=
  txt "arch=" ++ co_arch c ++ [LF]
  ++ txt "perfil=" ++ co_perfil c ++ [LF]
  ++ match co_drivers c with [] => [] | ds => txt "drivers=" ++ join (txt ",") ds ++ [LF] end
  ++ txt "abi=" ++ dec (co_abi c) ++ [LF]
  ++ txt "fs=" ++ co_fs c ++ [LF]
  ++ txt "min_shim=" ++ dec (co_min_shim c) ++ [LF]
  ++ txt "min_recuperador=" ++ dec (co_min_recuperador c) ++ [LF].

Definition num32 (campo v : str) : CompatError + N := ok_or (CampoInvalido campo) (parse_uint U32 v).
Inductive ClaveCompat := KArch | KPerfil | KDrivers | KAbi | KFs | KShim | KRecuperador.
Definition clave_compat (k : str) : option ClaveCompat :=
  if bool_decide (k = txt "arch") then Some KArch
  else if bool_decide (k = txt "perfil") then Some KPerfil
  else if bool_decide (k = txt "drivers") then Some KDrivers
  else if bool_decide (k = txt "abi") then Some KAbi
  else if bool_decide (k = txt "fs") then Some KFs
  else if bool_decide (k = txt "min_shim") then Some KShim
  else if bool_decide (k = txt "min_recuperador") then Some KRecuperador
  else None.
Definition compat_linea (cv : Compat * bool) (linea : str) : CompatError + (Compat * bool) :=
  let '(mkCompat ar pe dr ab fs sh re) := cv.1 in
  match split_once "=" (trim linea) with
  | None => inr cv
  | Some (clave, valor) =>
      match clave_compat clave with
      | Some KArch => inr (mkCompat valor pe dr ab fs sh re, true)
      | Some KPerfil => inr (mkCompat ar valor dr ab fs sh re, true)
      | Some KDrivers => inr (mkCompat ar pe (filter (fun d => d ≠ []) (trim <$> split_byte "," valor)) ab fs sh re, true)
      | Some KAbi => n ← num32 (txt "abi") valor; inr (mkCompat ar pe dr n fs sh re, true)
      | Some KFs => inr (mkCompat ar pe dr ab valor sh re, true)
      | Some KShim => n ← num32 (txt "min_shim") valor; inr (mkCompat ar pe dr ab fs n re, true)
      | Some KRecuperador => n ← num32 (txt "min_recuperador") valor; inr (mkCompat ar pe dr ab fs sh n, true)
      | None => inr cv
      end
  end.
Fixpoint compat_lineas (cv : Compat * bool) (ls : list str) : CompatError + (Compat * bool) :=
  match ls with [] => inr cv | l :: ls => cv ← compat_linea cv l; compat_lineas cv ls end.
Definition compat_parse (text : str) : option (CompatError + Compat) :=
  match compat_lineas (compat_default, false) (lines text) with
  | inl e => Some (inl e)
  | inr (c, visto) => if visto then Some (inr c) else None
  end.

Definition compat_check (c : Compat) (eq : Equipo) : CompatError + unit :=
  if negb (bool_decide (co_arch c = [])) && negb (bool_decide (co_arch c = eq_arch eq)) then inl (EArch (co_arch c) (eq_arch eq))
  else if negb (co_abi c =? eq_abi eq) then inl (EAbi (co_abi c) (eq_abi eq))
  else if negb (bool_decide (co_fs c = [])) && negb (bool_decide (co_fs c = eq_fs eq)) then inl (EFs (co_fs c) (eq_fs eq))
  else if eq_shim eq <? co_min_shim c then inl (ShimAntiguo (co_min_shim c) (eq_shim eq))
  else if eq_recuperador eq <? co_min_recuperador c then inl (RecuperadorAntiguo (co_min_recuperador c) (eq_recuperador eq))
  else match list_find (fun d => d ∉ co_drivers c) (eq_drivers eq) with
       | Some (_, d) => inl (DriverAusente d)
       | None => inr tt
       end.
Definition exigir (compat : option Compat) (eq : Equipo) : CompatError + unit :=
  match compat with None => inl NoDeclarada | Some c => compat_check c eq end.

(** ** The manifest *)
Definition MANIFEST_MAGIC : str := txt "SOSOREL v1".
Definition MAX_FILE_SIZE : N := 512 * 1024 * 1024.

Record FileEntry := mkFileEntry { f_path : str; f_offset : N; f_size : N; f_hash_hex : str }.
Record Manifest := mkManifest {
  version : SemVer; version_raw : str; build : str; fecha : str; kernel_hash : str; kernel_size : N;
  pack_hash : str; pack_size : N; compat : option Compat; files : list FileEntry }.

Inductive ParseError :=
| BadMagicM
| MissingFieldM (f : str)
| BadLine (line : N) (field expected : str)
| BadVersion (v : str)
| Compatibility (e : CompatError).
Inductive ValidateError :=
| BadHashV (field : str)
| BadPath (path : str)
| DuplicatePath (path : str)
| FileOutOfPack (path : str)
| EmptyFile (path : str)
| FileTooLarge (path : str) (size : N)
| PackSizeMismatch
| OverlappingFiles.

(** The local variables of [parse]. *)
Record Leido := mkLeido {
  l_version : str; l_build : str; l_fecha : str; l_khash : str; l_ksize : N; l_phash : str; l_psize : N;
  l_files : list FileEntry; l_magic : bool }.
Definition leido_vacio : Leido := mkLeido [] [] [] [] 0 [] 0 [] false.

Definition campo64 (n : N) (campo : str) (v : str) : ParseError + N :=
  ok_or (BadLine n campo (txt "un entero sin signo de 64 bits")) (parse_uint U64 v).

(** One line after the magic; [n] is its number. *)
Definition manifest_linea (n : N) (s : Leido) (line : str) : ParseError + Leido :=
  let '(mkLeido ve bu fe kh ks ph ps fs mg) := s in
  match strip_prefix (txt "version=") line with
  | Some v => inr (mkLeido v bu fe kh ks ph ps fs mg)
  | None =>
  match strip_prefix (txt "build=") line with
  | Some v => inr (mkLeido ve v fe kh ks ph ps fs mg)
  | None =>
  match strip_prefix (txt "fecha=") line with
  | Some v => inr (mkLeido ve bu v kh ks ph ps fs mg)
  | None =>
  if starts_with (txt "kernel ") line then
    match split_whitespace line with
    | [_; h; t] => size ← campo64 n (txt "tamaño de kernel") t; inr (mkLeido ve bu fe h size ph ps fs mg)
    | _ => inl (BadLine n (txt "kernel") (txt "kernel <sha256> <tamaño>"))
    end
  else if starts_with (txt "pack ") line then
    match split_whitespace line with
    | [_; h; t] => size ← campo64 n (txt "tamaño de pack") t; inr (mkLeido ve bu fe kh ks h size fs mg)
    | _ => inl (BadLine n (txt "pack") (txt "pack <sha256> <tamaño>"))
    end
  else if starts_with (txt "f ") line then
    match split_whitespace line with
    | _ :: h :: o :: t :: (_ :: _) as ruta =>
        offset ← campo64 n (txt "offset de fichero") o;
        size ← campo64 n (txt "tamaño de fichero") t;
        inr (mkLeido ve bu fe kh ks ph ps (fs ++ [mkFileEntry (join (txt " ") (drop 4 ruta)) offset size h]) mg)
    | _ => inl (BadLine n (txt "fichero") (txt "f <sha256> <offset> <tamaño> <ruta> (posible manifiesto truncado)"))
    end
  else inr s
  end end end.

Fixpoint manifest_lineas (n : N) (s : Leido) (ls : list str) : ParseError + Leido :=
  match ls with
  | [] => inr s
  | l :: ls =>
      let line := trim l in
      if bool_decide (line = []) then manifest_lineas (n + 1) s ls
      else if bool_decide (line = MANIFEST_MAGIC) then
        manifest_lineas (n + 1) (mkLeido (l_version s) (l_build s) (l_fecha s) (l_khash s) (l_ksize s) (l_phash s) (l_psize s) (l_files s) true) ls
      else if negb (l_magic s) then inl BadMagicM
      else s ← manifest_linea n s line; manifest_lineas (n + 1) s ls
  end.

Definition manifest_parse (text : str) : ParseError + Manifest :=
  s ← manifest_lineas 1 leido_vacio (lines text);
  if negb (l_magic s) then inl BadMagicM
  else if bool_decide (l_version s = []) then inl (MissingFieldM (txt "version"))
  else
    v ← ok_or (BadVersion (l_version s)) (semver_parse (l_version s));
    c ← match compat_parse text with
        | Some (inr c) => inr (Some c)
        | Some (inl e) => inl (Compatibility e)
        | None => inr None
        end;
    mret (mkManifest v (l_version s) (l_build s) (l_fecha s) (l_khash s) (l_ksize s) (l_phash s) (l_psize s) c (l_files s)).

Definition fichero_fmt (f : FileEntry) : str :=
  txt "f " ++ f_hash_hex f ++ txt " " ++ dec (f_offset f) ++ txt " " ++ dec (f_size f) ++ txt " " ++ f_path f ++ [LF].
Definition manifest_format (m : Manifest) : str :=
  MANIFEST_MAGIC ++ [LF]
  ++ txt "version=" ++ version_raw m ++ [LF]
  ++ txt "build=" ++ build m ++ [LF]
  ++ txt "fecha=" ++ fecha m ++ [LF]
  ++ match compat m with Some c => compat_format c | None => [] end
  ++ txt "kernel " ++ kernel_hash m ++ txt " " ++ dec (kernel_size m) ++ [LF]
  ++ txt "pack " ++ pack_hash m ++ txt " " ++ dec (pack_size m) ++ [LF]
  ++ concat (fichero_fmt <$> files m).

Definition find_file (m : Manifest) (path : str) : option FileEntry := snd <$> list_find (fun f => f_path f = path) (files m).

(** *** Validation *)
Definition hex_ok (h : str) : bool := (lenN h =? 64) && forallb is_ascii_hexdigit h.
Definition ok_hash (field h : str) : ValidateError + unit := if hex_ok h then inr tt else inl (BadHashV field).

Definition ruta_mala (p : str) : bool :=
  bool_decide (p = []) || starts_with (txt "/") p || bool_decide (x5c ∈ p) || existsb (fun s => bool_decide (s = txt "..")) (split_byte "/" p).

(** The loop over the files: paths seen so far and the furthest end. *)
Fixpoint validar_ficheros (psize : N) (seen : list str) (max_end : N) (fs : list FileEntry) : ValidateError + N :=
  match fs with
  | [] => inr max_end
  | f :: fs =>
      if ruta_mala (f_path f) then inl (BadPath (f_path f))
      else if bool_decide (f_path f ∈ seen) then inl (DuplicatePath (f_path f))
      else
        _ ← ok_hash (txt "file") (f_hash_hex f);
        if f_size f =? 0 then inl (EmptyFile (f_path f))
        else if MAX_FILE_SIZE <? f_size f then inl (FileTooLarge (f_path f) (f_size f))
        else
          let fin := saturating_add64 (f_offset f) (f_size f) in
          if psize <? fin then inl (FileOutOfPack (f_path f))
          else validar_ficheros psize (f_path f :: seen) (N.max max_end fin) fs
  end.

(** [sort_by_key]: stable. *)
Section Orden.
Context {A : Type} (le : A -> A -> bool).
Fixpoint intercalar (x : A) (l : list A) : list A :=
  match l with [] => [x] | y :: r => if le x y then x :: l else y :: intercalar x r end.
Definition ordenar (l : list A) : list A := foldr intercalar [] l.
End Orden.
Definition por_offset (a b : FileEntry) : bool := f_offset a <=? f_offset b.

(** [a.offset + a.size] panics if it overflows. *)
Fixpoint sin_solape (fs : list FileEntry) : M unit ValidateError unit :=
  match fs with
  | a :: ((b :: _) as r) =>
      fin ← add64 (f_offset a) (f_size a);
      if f_offset b <? fin then throw OverlappingFiles else sin_solape r
  | _ => mret tt
  end.

Definition de_suma {A} (x : ValidateError + A) : M unit ValidateError A := match x with inl e => throw e | inr a => mret a end.
Definition manifest_validate (m : Manifest) : M unit ValidateError unit :=
  de_suma (ok_hash (txt "kernel") (kernel_hash m));;
  de_suma (ok_hash (txt "pack") (pack_hash m));;
  max_end ← de_suma (validar_ficheros (pack_size m) [] 0 (files m));
  if negb (bool_decide (files m = [])) && (pack_size m <? max_end) then throw PackSizeMismatch
  else if (1 <? lenN (files m)) then sin_solape (ordenar por_offset (files m)) else mret tt.

(** ** The pack *)
Section Pack.
Context `{Sha256}.

(** [start.checked_add(size)?; data.get(start..end)] on 64 bits. *)
Definition read_entry (data : list byte) (e : FileEntry) : option (list byte) :=
  if f_offset e + f_size e <? U64 then slice (f_offset e) (f_size e) data else None.
Definition verify_entry (data : list byte) (e : FileEntry) : bool :=
  match read_entry data e with Some d => bool_decide (hex_sha256 d = f_hash_hex e) | None => false end.

Record PackEntry := mkPackEntry { pe_path : str; pe_data : list byte }.
Definition pack_paso (bf : list byte * list FileEntry) (e : PackEntry) : list byte * list FileEntry :=
  (bf.1 ++ pe_data e, bf.2 ++ [mkFileEntry (pe_path e) (lenN bf.1) (lenN (pe_data e)) (hex_sha256 (pe_data e))]).
Definition pack_build (es : list PackEntry) : list byte * list FileEntry := foldl pack_paso ([], []) es.
Definition por_ruta (a b : PackEntry) : bool := match bytes_cmp (pe_path a) (pe_path b) with Gt => false | _ => true end.
Definition sort_entries (es : list PackEntry) : list PackEntry := ordenar por_ruta es.
End Pack.

(** ** Which spans are downloaded *)
Definition GAP_MAX : N := 256 * 1024.
Definition SPAN_MAX : N := 8 * 1024 * 1024.
Record Span := mkSpan { s_start : N; s_end : N; s_files : list nat }.
Definition span_len (s : Span) : N := s_end s - s_start s.
Definition oversized (s : Span) (span_max : N) : bool := span_max <? span_len s.

Definition por_tramo (a b : nat * FileEntry) : bool :=
  match f_offset a.2 ?= f_offset b.2 with Lt => true | Eq => f_size a.2 <=? f_size b.2 | Gt => false end.

Definition span_paso (gap_max span_max : N) (spans : list Span) (ie : nat * FileEntry) : M unit unit (list Span) :=
  let '(i, e) := ie in
  let start := f_offset e in
  fin ← add64 start (f_size e);
  let nuevo := spans ++ [mkSpan start fin [i]] in
  match last spans with
  | Some l =>
      if (s_end l <=? start) && (start - s_end l <=? gap_max) && (fin - s_start l <=? span_max)
      then mret (removelast spans ++ [mkSpan (s_start l) (N.max fin (s_end l)) (s_files l ++ [i])])
      else if (start <? s_end l) && (fin <=? s_end l)
      then mret (removelast spans ++ [mkSpan (s_start l) (s_end l) (s_files l ++ [i])])
      else mret nuevo
  | None => mret nuevo
  end.
Definition plan_spans (pending : list FileEntry) (gap_max span_max : N) : M unit unit (list Span) :=
  mfold (span_paso gap_max span_max) [] (ordenar por_tramo (zip (seq 0 (length pending)) pending)).
Definition plan_bytes (spans : list Span) : M unit unit N := mfold (fun n s => add64 n (span_len s)) 0 spans.

(** ** What to do with the remote release *)
Inductive Oferta := ONueva | OReparar | ORepublicada | OAlDia | OBuildDistinto | OAntigua.
Definition se_aplica_sola (o : Oferta) : bool := match o with ONueva | OReparar | ORepublicada => true | _ => false end.
Record Lado := mkLado { la_version : SemVer; la_build : str; la_fecha : str }.
Definition fecha_valida (f : str) : bool :=
  (lenN f =? 10) && bool_decide (f !! 4%nat = Some "-"%byte) && bool_decide (f !! 7%nat = Some "-"%byte) &&
  forallb (fun ic => (ic.1 =? 4) || (ic.1 =? 7) || is_ascii_digit ic.2) (zip (upto (lenN f)) f).
Definition decidir (remota local : Lado) (hay_trabajo : bool) : Oferta :=
  match semver_cmp (la_version remota) (la_version local) with
  | Gt => ONueva
  | Lt => OAntigua
  | Eq =>
      if negb hay_trabajo then OAlDia
      else if negb (bool_decide (la_build local = [])) && bool_decide (la_build remota = la_build local) then OReparar
      else if fecha_valida (la_fecha remota) && fecha_valida (la_fecha local) &&
              bool_decide (bytes_cmp (la_fecha remota) (la_fecha local) = Gt) then ORepublicada
      else OBuildDistinto
  end.
