(* ===== verification/OtaPaquete.v ===== *)
(** * Update: what a valid release promises

    Facts on the definitions of [OtaManifest]: which manifests [validate]
    accepts, that the pack a build writes gives every entry back, and that the
    spans of a download plan take in every file. *)
From stdpp Require Import sorting.
From S2P Require Import Prelude Texto OtaHash OtaRecord OtaManifest.
Local Open Scope N_scope.

(** ** Sorting *)
Section OrdenFacts.
Context {A : Type} (le : A -> A -> bool).
Let R (x y : A) : Prop := le x y = true.

Lemma intercalar_perm x l : intercalar le x l ≡ₚ x :: l.
Proof.
  induction l as [|y l IH]; [done|]. cbn [intercalar]. destruct (le x y); [done|]. rewrite IH. apply Permutation_swap.
Qed.
Lemma ordenar_perm l : ordenar le l ≡ₚ l.
Proof. induction l as [|x l IH]; [done|]. cbn [ordenar foldr]. rewrite intercalar_perm. by f_equiv. Qed.

Lemma intercalar_sorted x l : (forall a b, R a b ∨ R b a) -> (forall a b c, R a b -> R b c -> R a c) ->
  StronglySorted R l -> StronglySorted R (intercalar le x l).
Proof.
  intros Htot Htr. induction 1 as [|y l Hl IH Hy]; [repeat constructor|]. cbn [intercalar].
  destruct (le x y) eqn:E; (constructor; [try done; by constructor|]).
  - constructor; [done|]. eapply Forall_impl; [exact Hy|]. intros z. by apply Htr.
  - rewrite intercalar_perm. constructor; [|done]. destruct (Htot x y) as [H|H]; [unfold R in H; congruence|done].
Qed.
Lemma ordenar_sorted l : (forall a b, R a b ∨ R b a) -> (forall a b c, R a b -> R b c -> R a c) -> StronglySorted R (ordenar le l).
Proof. intros Htot Htr. induction l as [|x l IH]; [constructor|]. by apply intercalar_sorted. Qed.
End OrdenFacts.

(** ** Which manifests are accepted *)
Definition ruta_sana (p : str) : Prop :=
  p ≠ [] ∧ p !! 0%nat ≠ Some "/"%byte ∧ (x5c ∉ p) ∧ txt ".." ∉ split_byte "/" p.
Definition f_fin (f : FileEntry) : N := f_offset f + f_size f.
Definition separados (f g : FileEntry) : Prop := f_fin f <= f_offset g ∨ f_fin g <= f_offset f.

Record fichero_sano (psize : N) (f : FileEntry) : Prop := {
  fs_ruta : ruta_sana (f_path f);
  fs_hash : hex_ok (f_hash_hex f) = true;
  fs_size : 0 < f_size f <= MAX_FILE_SIZE;
  fs_fin : f_fin f <= psize;
}.
Record manifiesto_sano (m : Manifest) : Prop := {
  ms_kernel : hex_ok (kernel_hash m) = true;
  ms_pack : hex_ok (pack_hash m) = true;
  ms_ficheros : Forall (fichero_sano (pack_size m)) (files m);
  ms_rutas : NoDup (f_path <$> files m);
  ms_separados : forall f g, f ∈ files m -> g ∈ files m -> f ≠ g -> separados f g;
}.

Lemma existsb_eq_false {A} `{EqDecision A} (x : A) l : existsb (fun s => bool_decide (s = x)) l = false ↔ x ∉ l.
Proof.
  rewrite <- not_true_iff_false, existsb_exists. setoid_rewrite <- list_elem_of_In. setoid_rewrite bool_decide_eq_true.
  naive_solver.
Qed.

Lemma ruta_mala_spec p : ruta_mala p = false ↔ ruta_sana p.
Proof.
  unfold ruta_mala, ruta_sana. rewrite !orb_false_iff, !bool_decide_eq_false, existsb_eq_false.
  assert (starts_with (txt "/") p = false ↔ p !! 0%nat ≠ Some "/"%byte) as ->.
  { unfold starts_with. rewrite bool_decide_eq_false. destruct p as [|b p]; cbn; [split; [done|intros _ [=]]|].
    split; intros H E; apply H; [by injection E as ->|by injection E as ->]. }
  tauto.
Qed.

(** The saturated end of a file is its end: the pack is below the largest size,
    or the end of the file fits in 64 bits. *)
Definition sin_saturar (psize : N) (f : FileEntry) : Prop := psize < U64_MAX ∨ psize < U64 ∧ f_fin f < U64.

Lemma saturar_fin psize f : sin_saturar psize f -> psize < saturating_add64 (f_offset f) (f_size f) <-> psize < f_fin f.
Proof. unfold sin_saturar, saturating_add64, f_fin, U64_MAX. lia. Qed.

Lemma validar_ficheros_spec psize fs : Forall (sin_saturar psize) fs -> forall seen m0,
  match validar_ficheros psize seen m0 fs with
  | inr _ => Forall (fichero_sano psize) fs ∧ NoDup (f_path <$> fs) ∧ forall p, p ∈ f_path <$> fs -> p ∉ seen
  | inl _ => ¬ (Forall (fichero_sano psize) fs ∧ NoDup (f_path <$> fs) ∧ forall p, p ∈ f_path <$> fs -> p ∉ seen)
  end.
Proof.
  induction 1 as [|f fs Hp _ IH]; intros seen m0; cbn [validar_ficheros].
  { split_and!; [constructor|constructor|]. intros p Hin. by apply elem_of_nil in Hin. }
  destruct (ruta_mala (f_path f)) eqn:Er.
  { intros (H & _). apply Forall_cons in H as [[Hr _ _ _] _]. apply ruta_mala_spec in Hr. congruence. }
  case_bool_decide as Hs; [intros (_ & _ & H); by apply (H (f_path f)); [left|]|].
  unfold ok_hash. destruct (hex_ok (f_hash_hex f)) eqn:Eh; cbn [mbind sum_bind].
  2: { intros (H & _). apply Forall_cons in H as [[_ H _ _] _]. congruence. }
  destruct (N.eqb_spec (f_size f) 0) as [E0|E0]; [intros (H & _); apply Forall_cons in H as [[_ _ H _] _]; lia|].
  destruct (N.ltb_spec MAX_FILE_SIZE (f_size f)) as [E1|E1]; [intros (H & _); apply Forall_cons in H as [[_ _ H _] _]; lia|].
  pose proof (saturar_fin psize f Hp) as Hfin.
  destruct (N.ltb_spec psize (saturating_add64 (f_offset f) (f_size f))) as [E2|E2].
  { intros (H & _). apply Forall_cons in H as [[_ _ _ H] _]. apply Hfin in E2. by apply N.lt_nge in E2. }
  specialize (IH (f_path f :: seen) (N.max m0 (saturating_add64 (f_offset f) (f_size f)))).
  assert (fichero_sano psize f) as Hf by (constructor; [by apply ruta_mala_spec|done|lia|apply N.le_ngt; rewrite <- Hfin; lia]).
  assert (forall Q : Prop, (Q ↔ Forall (fichero_sano psize) fs ∧ NoDup (f_path <$> fs) ∧ (forall p, p ∈ f_path <$> fs -> p ∉ f_path f :: seen)) ->
    (Q ↔ Forall (fichero_sano psize) (f :: fs) ∧ NoDup (f_path <$> f :: fs) ∧ (forall p, p ∈ f_path <$> f :: fs -> p ∉ seen))) as Heq.
  { intros Q ->. rewrite fmap_cons, NoDup_cons, Forall_cons. setoid_rewrite not_elem_of_cons. setoid_rewrite elem_of_cons.
    split.
    - intros (H1 & H2 & H3). split_and!; [done..| | |].
      + intros Hin. by destruct (H3 _ Hin).
      + done.
      + intros p [->|Hin]; [done|by apply H3].
    - intros ((_ & H1) & (H2 & H3) & H4). split_and!; [done..|]. intros p Hin. split; [by intros ->|apply H4; by right]. }
  destruct (validar_ficheros _ _ _ _).
  - intros H. apply IH. by apply (Heq _ (reflexivity _)).
  - by apply (Heq _ (reflexivity _)).
Qed.

Lemma por_offset_total a b : por_offset a b = true ∨ por_offset b a = true.
Proof. unfold por_offset. rewrite !N.leb_le. lia. Qed.
Lemma por_offset_trans a b c : por_offset a b = true -> por_offset b c = true -> por_offset a c = true.
Proof. unfold por_offset. rewrite !N.leb_le. lia. Qed.

Definition todos_separados (fs : list FileEntry) : Prop := forall f g, f ∈ fs -> g ∈ fs -> f ≠ g -> separados f g.

Lemma separados_sym f g : separados f g -> separados g f.
Proof. unfold separados. tauto. Qed.

Lemma todos_separados_cons f fs : f ∉ fs -> todos_separados (f :: fs) ↔ (forall g, g ∈ fs -> separados f g) ∧ todos_separados fs.
Proof.
  intros Hn. split.
  - intros H. split; [|intros x y Hx Hy; apply H; by right].
    intros g Hg. apply H; [left|by right|]. by intros ->.
  - intros [H1 H2] x y. rewrite !elem_of_cons. intros [->|Hx] [->|Hy] Hne; [done|by apply H1| |by apply H2].
    by apply separados_sym, H1.
Qed.

Lemma sin_solape_cons a b r : sin_solape (a :: b :: r) =
  (fin ← add64 (f_offset a) (f_size a); if f_offset b <? fin then throw OverlappingFiles else sin_solape (b :: r)).
Proof. done. Qed.

Lemma sin_solape_spec psize fs : psize < U64 -> Forall (fichero_sano psize) fs -> NoDup fs ->
  StronglySorted (fun a b => por_offset a b = true) fs ->
  match sin_solape fs tt with
  | (Ok _, _) => todos_separados fs
  | (Err _, _) => ¬ todos_separados fs
  | _ => False
  end.
Proof.
  intros Hp. induction fs as [|a [|b r] IH]; intros Hf Hd Hs.
  { intros f g Hx. by apply elem_of_nil in Hx. }
  { intros f g Hx%list_elem_of_singleton Hy%list_elem_of_singleton. congruence. }
  pose proof (Forall_inv Hf) as [_ _ Ha1 Ha2]. pose proof (Forall_inv_tail Hf) as Hf'. pose proof (Forall_inv Hf') as [_ _ Hb1 _].
  apply NoDup_cons in Hd as [Hn Hd]. apply StronglySorted_inv in Hs as [Hs Hall].
  unfold f_fin in Ha2. rewrite sin_solape_cons, bind_eq. unfold add64 at 1. destruct (N.ltb_spec (f_offset a + f_size a) U64) as [_|H]; [|unfold U64_MAX in *; lia].
  cbn [mret M_ret]. pose proof (Forall_inv Hall) as Hab. unfold por_offset in Hab. apply N.leb_le in Hab.
  pose proof (todos_separados_cons a (b :: r) Hn) as Hc.
  destruct (N.ltb_spec (f_offset b) (f_offset a + f_size a)) as [H|H].
  - intros [Hsep _]%Hc. destruct (Hsep b) as [E|E]; [left|unfold f_fin in E; lia..].
  - specialize (IH Hf' Hd Hs). destruct (sin_solape (b :: r) tt) as [[| | |] ?]; [|by intros [_ ?]%Hc|done..].
    apply Hc. split; [|done]. intros g Hg. left. unfold f_fin.
    assert (f_offset b <= f_offset g) as Hbg; [|lia].
    apply elem_of_cons in Hg as [->|Hg]; [lia|]. apply StronglySorted_inv in Hs as [_ Hs]. rewrite Forall_forall in Hs.
    apply N.leb_le. by apply (Hs g).
Qed.

Lemma validar_ficheros_max psize fs : forall seen m0 m1, validar_ficheros psize seen m0 fs = inr m1 -> m1 <= N.max m0 psize.
Proof.
  induction fs as [|f fs IH]; intros seen m0 m1; cbn [validar_ficheros]; [intros [= ->]; lia|].
  destruct (ruta_mala _); [done|]. case_bool_decide; [done|]. unfold ok_hash. destruct (hex_ok _); [|done].
  cbn [mbind sum_bind]. destruct (_ =? 0); [done|]. destruct (_ <? _); [done|]. destruct (N.ltb_spec psize (saturating_add64 (f_offset f) (f_size f))); [done|].
  intros ?%IH. lia.
Qed.

(** The sums of [validate] are the exact ones for the files of [m]. *)
Definition cuentas_exactas (m : Manifest) : Prop := pack_size m < U64 ∧ Forall (sin_saturar (pack_size m)) (files m).

Lemma cuentas_cortas m : pack_size m < U64_MAX -> cuentas_exactas m.
Proof. intros H. split; [unfold U64_MAX in H; lia|]. apply Forall_forall. intros f _. by left. Qed.

(** [validate] accepts exactly the sound manifests, and refuses the others with an
    error: no sum of its own overflows. *)
Lemma manifest_validate_spec m : cuentas_exactas m ->
  match manifest_validate m tt with
  | (Ok _, _) => manifiesto_sano m
  | (Err _, _) => ¬ manifiesto_sano m
  | _ => False
  end.
Proof.
  intros [H64 Hp]. unfold manifest_validate, ok_hash. rewrite bind_eq.
  destruct (hex_ok (kernel_hash m)) eqn:Ek; cbn [de_suma mret M_ret throw]; [|intros []; congruence].
  rewrite bind_eq. destruct (hex_ok (pack_hash m)) eqn:Eh; cbn [de_suma mret M_ret throw]; [|intros []; congruence].
  rewrite bind_eq. pose proof (validar_ficheros_spec (pack_size m) (files m) Hp [] 0) as Hv.
  destruct (validar_ficheros _ _ _ _) as [e|max_end] eqn:Ev; cbn [de_suma mret M_ret throw].
  { intros [_ _ H1 H2 _]. apply Hv. split_and!; [done..|]. intros p _. apply not_elem_of_nil. }
  apply validar_ficheros_max in Ev. destruct Hv as (Hf & Hd & _).
  destruct (N.ltb_spec (pack_size m) max_end) as [H|_]; [lia|]. rewrite andb_false_r.
  assert (forall P : Prop, (P ↔ todos_separados (files m)) -> (P ↔ manifiesto_sano m)) as Heq.
  { intros P ->. split; [by constructor|by intros []]. }
  destruct (N.ltb_spec 1 (lenN (files m))) as [_|Hl].
  - pose proof (ordenar_perm por_offset (files m)) as Hperm.
    assert (Forall (fichero_sano (pack_size m)) (ordenar por_offset (files m))) as Hf' by (by rewrite Hperm).
    assert (NoDup (ordenar por_offset (files m))) as Hd' by (rewrite Hperm; by eapply NoDup_fmap_1).
    pose proof (sin_solape_spec (pack_size m) _ H64 Hf' Hd' (ordenar_sorted _ _ por_offset_total por_offset_trans)) as Hs.
    assert (todos_separados (ordenar por_offset (files m)) ↔ manifiesto_sano m) as Hiff.
    { apply Heq. unfold todos_separados. by setoid_rewrite Hperm. }
    destruct (sin_solape _ _) as [[| | |] ?]; [by apply Hiff|by rewrite Hiff in Hs|done..].
  - cbn. apply (Heq _ (reflexivity _)). unfold lenN in Hl. destruct (files m) as [|f [|]]; [|..|cbn in Hl; lia].
    + intros f g Hx. by apply elem_of_nil in Hx.
    + intros x y Hx%list_elem_of_singleton Hy%list_elem_of_singleton. congruence.
Qed.

(** A file whose end does not fit in 64 bits, in a pack declared of the largest
    size there is: the one shape the saturated sum lets through. *)
Definition manifiesto_desborda (m : Manifest) : Prop := pack_size m = U64_MAX ∧ exists f, f ∈ files m ∧ U64 <= f_fin f.

Lemma cuentas_o_desborda m : pack_size m < U64 -> cuentas_exactas m ∨ manifiesto_desborda m.
Proof.
  intros H. destruct (decide (Exists (fun f => U64 <= f_fin f) (files m))) as [He|Hn].
  2: { left. split; [done|]. apply Forall_forall. intros f Hin. right. split; [done|]. apply N.nle_gt. intros Hf. apply Hn.
    apply Exists_exists. by exists f. }
  apply Exists_exists in He as (f & Hin & Hf).
  destruct (decide (pack_size m < U64_MAX)) as [Hs|Hs]; [left; by apply cuentas_cortas|].
  right. split; [|by exists f]. clear - H Hs. unfold U64_MAX in *. lia.
Qed.

Lemma desborda_no_sano m : manifiesto_desborda m -> ¬ manifiesto_sano m.
Proof.
  intros (Hp & f & Hin & Hf) [_ _ Hs _ _]. rewrite Forall_forall in Hs. pose proof (fs_fin _ _ (Hs _ Hin)) as Hx.
  rewrite Hp in Hx. pose proof (N.le_trans _ _ _ Hf Hx) as Hl. by apply N.lt_nge in Hl.
Qed.

Lemma sin_solape_para fs : (sin_solape fs tt).1 ≠ Fuel.
Proof.
  induction fs as [|a [|b r] IH]; [done..|]. rewrite sin_solape_cons, bind_eq. unfold add64.
  destruct (_ <? _); cbn [mret M_ret]; [|done]. by destruct (_ <? _).
Qed.

Lemma manifest_validate_para m : (manifest_validate m tt).1 ≠ Fuel.
Proof.
  unfold manifest_validate, ok_hash. rewrite bind_eq. destruct (hex_ok (kernel_hash m)); cbn [de_suma mret M_ret throw]; [|done].
  rewrite bind_eq. destruct (hex_ok (pack_hash m)); cbn [de_suma mret M_ret throw]; [|done].
  rewrite bind_eq. destruct (validar_ficheros _ _ _ _); cbn [de_suma mret M_ret throw]; [done|].
  destruct (_ && _); [done|]. destruct (_ <? _); [apply sin_solape_para|done].
Qed.

(** ** The pack *)
Section PackFacts.
Context `{Sha256}.

(** The entries of a pack whose first byte is at [off]. *)
Fixpoint entradas_desde (off : N) (es : list PackEntry) : list FileEntry :=
  match es with
  | [] => []
  | e :: es => mkFileEntry (pe_path e) off (lenN (pe_data e)) (hex_sha256 (pe_data e)) :: entradas_desde (off + lenN (pe_data e)) es
  end.

Lemma pack_build_run es : pack_build es = (concat (pe_data <$> es), entradas_desde 0 es).
Proof.
  unfold pack_build.
  assert (forall b fs, foldl pack_paso (b, fs) es = (b ++ concat (pe_data <$> es), fs ++ entradas_desde (lenN b) es)) as H'.
  { induction es as [|e es IH]; intros b fs; cbn [foldl fmap list_fmap concat entradas_desde].
    - by rewrite !app_nil_r.
    - unfold pack_paso at 2. cbn [fst snd]. rewrite IH, lenN_app, <- !app_assoc. done. }
  by rewrite H'.
Qed.

Lemma entradas_desde_paths off es : f_path <$> entradas_desde off es = pe_path <$> es.
Proof. revert off. induction es as [|e es IH]; intros off; [done|]. cbn. by rewrite IH. Qed.

Lemma entradas_desde_lugar off es f : f ∈ entradas_desde off es -> off <= f_offset f ∧ f_fin f <= off + lenN (concat (pe_data <$> es)).
Proof.
  revert off. induction es as [|e es IH]; intros off; cbn [entradas_desde fmap list_fmap concat]; [by intros ?%elem_of_nil|].
  rewrite lenN_app. intros [->|Hin]%elem_of_cons; [unfold f_fin; cbn; lia|]. destruct (IH _ Hin). lia.
Qed.

Lemma entradas_desde_separadas off es : todos_separados (entradas_desde off es).
Proof.
  revert off. induction es as [|e es IH]; intros off; cbn [entradas_desde]; [intros f g ?%elem_of_nil; done|].
  intros f g Hf Hg Hne. apply elem_of_cons in Hf, Hg.
  assert (forall x, x ∈ entradas_desde (off + lenN (pe_data e)) es -> off + lenN (pe_data e) <= f_offset x) as Hl
    by (intros x ?%entradas_desde_lugar; tauto).
  destruct Hf as [->|Hf], Hg as [->|Hg]; [done|left|right|by eapply IH]; unfold f_fin; cbn; by apply Hl.
Qed.

Lemma entradas_desde_read pre es suf : lenN pre + lenN (concat (pe_data <$> es)) < U64 ->
  Forall2 (fun e f => f_path f = pe_path e ∧ f_hash_hex f = hex_sha256 (pe_data e) ∧
             read_entry (pre ++ concat (pe_data <$> es) ++ suf) f = Some (pe_data e))
    es (entradas_desde (lenN pre) es).
Proof.
  revert pre. induction es as [|e es IH]; intros pre; cbn [entradas_desde fmap list_fmap concat]; [constructor|].
  rewrite lenN_app. intros Hl. constructor.
  - split_and!; [done..|]. unfold read_entry. cbn [f_offset f_size].
    destruct (N.ltb_spec (lenN pre + lenN (pe_data e)) U64); [|lia].
    rewrite (slice_app_r pre) by lia. rewrite N.sub_diag, <- app_assoc. by apply slice_head.
  - specialize (IH (pre ++ pe_data e)). rewrite lenN_app in IH. rewrite <- !app_assoc in *. apply IH. lia.
Qed.

Definition entrada_empaquetable (e : PackEntry) : Prop :=
  ruta_sana (pe_path e) ∧ 0 < lenN (pe_data e) <= MAX_FILE_SIZE.

Lemma entradas_desde_sanas off es : Forall entrada_empaquetable es ->
  Forall (fichero_sano (off + lenN (concat (pe_data <$> es)))) (entradas_desde off es).
Proof.
  intros Hes. apply Forall_forall. intros f Hin. destruct (entradas_desde_lugar _ _ _ Hin) as [_ Hfin].
  assert (exists e, e ∈ es ∧ f_path f = pe_path e ∧ f_size f = lenN (pe_data e) ∧ f_hash_hex f = hex_sha256 (pe_data e)) as (e & He & E1 & E2 & E3).
  { clear Hfin Hes. revert off Hin. induction es as [|e es IH]; intros off; cbn [entradas_desde]; [by intros ?%elem_of_nil|].
    intros [->|Hin]%elem_of_cons; [exists e; split; [left|done]|].
    destruct (IH _ Hin) as (x & ? & ?). exists x. split; [by right|done]. }
  rewrite Forall_forall in Hes. destruct (Hes e He) as [Hr Hs]. constructor; [by rewrite E1| |lia|done].
  rewrite E3. unfold hex_ok, hex_sha256, lenN. rewrite hex_of_length, sha256_length, hex_of_digits. done.
Qed.
End PackFacts.

(** ** The download plan *)
Section PlanFacts.
Context (pending : list FileEntry) (gap_max span_max : N).

(** Every file of a span lies inside it, and the span has no slack: it starts
    with one of its files and ends with one. *)
Record tramo_ok (s : Span) : Prop := {
  tr_dentro : forall i, i ∈ s_files s -> exists e, pending !! i = Some e ∧ s_start s <= f_offset e ∧ f_fin e <= s_end s;
  tr_ini : exists i e, i ∈ s_files s ∧ pending !! i = Some e ∧ f_offset e = s_start s;
  tr_fin : exists i e, i ∈ s_files s ∧ pending !! i = Some e ∧ f_fin e = s_end s;
  tr_tope : span_len s <= span_max ∨
    exists i e, i ∈ s_files s ∧ pending !! i = Some e ∧ f_offset e = s_start s ∧ f_fin e = s_end s;
}.
Definition en_orden (spans : list Span) : Prop := StronglySorted (fun s t => s_end s <= s_start t) spans.

Record plan_ok (P : Prop) (dn : list (nat * FileEntry)) (spans : list Span) : Prop := {
  pl_files : concat (s_files <$> spans) = dn.*1;
  pl_tramos : Forall tramo_ok spans;
  pl_orden : P -> en_orden spans;
}.

Definition leida (x : nat * FileEntry) : Prop := pending !! x.1 = Some x.2 ∧ f_fin x.2 < U64.

Lemma en_orden_snoc spans s : en_orden spans -> (forall t, t ∈ spans -> s_end t <= s_start s) -> en_orden (spans ++ [s]).
Proof.
  induction 1 as [|x spans Hs IH Hx]; intros H; [repeat constructor|]. cbn. constructor.
  - apply IH. intros t Ht. apply H. by right.
  - apply Forall_app. split; [done|]. constructor; [|constructor]. apply H. left.
Qed.
Lemma en_orden_snoc_inv spans s : en_orden (spans ++ [s]) -> en_orden spans ∧ forall t, t ∈ spans -> s_end t <= s_start s.
Proof.
  induction spans as [|x spans IH]; cbn; [split; [constructor|by intros t ?%elem_of_nil]|].
  intros [H1 H2]%StronglySorted_inv. apply IH in H1 as [H1 H3]. apply Forall_app in H2 as [H2 H4]. split; [by constructor|].
  intros t [->|Ht]%elem_of_cons; [exact (Forall_inv H4)|by apply H3].
Qed.

Lemma tramo_uno i e : pending !! i = Some e -> tramo_ok (mkSpan (f_offset e) (f_fin e) [i]).
Proof.
  intros He. constructor; cbn.
  - intros j ->%list_elem_of_singleton. exists e. split_and!; [done|lia..].
  - exists i, e. split; [left|done].
  - exists i, e. split; [left|done].
  - right. exists i, e. split; [left|done].
Qed.

(** A file taken in by the last span. *)
Lemma tramo_mas l i e fin : tramo_ok l -> pending !! i = Some e -> s_start l <= f_offset e -> f_fin e <= fin -> s_end l <= fin ->
  (fin = f_fin e ∧ fin - s_start l <= span_max ∨ fin = s_end l) -> tramo_ok (mkSpan (s_start l) fin (s_files l ++ [i])).
Proof.
  intros [H1 (z & w & Hz & Hw) (j & x & Hj & Hx & Hjx) H3] He Hs Hf Hl Hcase. constructor; cbn.
  - intros k [Hk|Hk%list_elem_of_singleton]%elem_of_app; [|subst k; exists e; done]. destruct (H1 k Hk) as (y & ? & ? & ?). exists y. split_and!; [done|lia..].
  - exists z, w. rewrite elem_of_app. split; [by left|done].
  - destruct Hcase as [[-> _]| ->]; [exists i, e|exists j, x]; rewrite elem_of_app; (split; [|done]); [right; left|by left].
  - unfold span_len in *. cbn. destruct Hcase as [[-> Hm]| ->]; [by left|]. destruct H3 as [H3|(k & y & Hk & ?)]; [by left|].
    right. exists k, y. rewrite elem_of_app. split; [by left|done].
Qed.

Lemma tramo_start l : tramo_ok l -> s_start l <= s_end l.
Proof. intros [H1 _ (i & e & Hi & He & <-) _]. destruct (H1 i Hi) as (x & ? & ? & ?). simplify_eq. unfold f_fin in *. lia. Qed.

Lemma span_paso_ok P dn spans i e : plan_ok P dn spans -> Forall leida dn -> leida (i, e) ->
  (P -> forall x, x ∈ dn -> f_fin x.2 <= f_offset e) -> (forall x, x ∈ dn -> f_offset x.2 <= f_offset e) ->
  exists spans', span_paso gap_max span_max spans (i, e) tt = (Ok spans', tt) ∧ plan_ok P (dn ++ [(i, e)]) spans'.
Proof.
  intros [H1 H2 H3] Hdn [He Hfin] Hsep Hord. cbn [fst snd] in *. unfold span_paso. rewrite bind_eq. unfold add64.
  destruct (N.ltb_spec (f_offset e + f_size e) U64) as [_|?]; [|unfold f_fin in *; lia]. cbn [mret M_ret].
  change (f_offset e + f_size e) with (f_fin e).
  assert (f_offset e <= f_fin e) as Hoe by (unfold f_fin; lia).
  assert (forall s j, s ∈ spans -> j ∈ s_files s -> exists y, pending !! j = Some y ∧ (j, y) ∈ dn) as Hin.
  { intros s j Hs Hj. assert (j ∈ dn.*1) as Hj'.
    { rewrite <- H1. apply list_elem_of_In, in_concat. exists (s_files s). rewrite <- !list_elem_of_In. split; [|done].
      apply list_elem_of_fmap. by exists s. }
    apply list_elem_of_fmap in Hj' as ([j' y] & -> & Hy). exists y. rewrite Forall_forall in Hdn. by destruct (Hdn _ Hy). }
  assert (P -> forall s, s ∈ spans -> s_end s <= f_offset e) as Hends.
  { intros HP s Hs. rewrite Forall_forall in H2. destruct (H2 s Hs) as [_ _ (j & x & Hj & Hx & <-) _].
    destruct (Hin s j Hs Hj) as (y & Hy & Hyd). simplify_eq. by apply (Hsep HP _ Hyd). }
  assert (plan_ok P (dn ++ [(i, e)]) (spans ++ [mkSpan (f_offset e) (f_fin e) [i]])) as Hnuevo.
  { constructor.
    - rewrite !fmap_app, concat_app, H1. done.
    - apply Forall_app. split; [done|]. constructor; [by apply tramo_uno|constructor].
    - intros HP. by apply en_orden_snoc; [apply H3|apply Hends]. }
  destruct (last spans) as [l|] eqn:El; [|eauto]. apply last_Some in El as [sp ->]. rewrite removelast_last.
  apply Forall_app in H2 as [H2 Hl%Forall_inv]. pose proof (tramo_start l Hl) as Hlse.
  assert (forall fin, tramo_ok (mkSpan (s_start l) fin (s_files l ++ [i])) ->
    plan_ok P (dn ++ [(i, e)]) (sp ++ [mkSpan (s_start l) fin (s_files l ++ [i])])) as Hmas.
  { intros fin Ht. constructor.
    - rewrite !fmap_app, !concat_app in *. cbn in *. rewrite !app_nil_r in *. by rewrite app_assoc, H1.
    - apply Forall_app. split; [done|by constructor].
    - intros [H5 H6]%H3%en_orden_snoc_inv. by apply en_orden_snoc. }
  destruct (N.leb_spec (s_end l) (f_offset e)) as [Ha|Ha]; cbn [andb].
  - destruct (N.leb_spec (f_offset e - s_end l) gap_max); cbn [andb]; [destruct (N.leb_spec (f_fin e - s_start l) span_max)|].
    + eexists. split; [done|]. apply Hmas. apply (tramo_mas l i e); try done; lia.
    + destruct (N.ltb_spec (f_offset e) (s_end l)); [lia|]. eauto.
    + destruct (N.ltb_spec (f_offset e) (s_end l)); [lia|]. eauto.
  - destruct (N.ltb_spec (f_offset e) (s_end l)) as [_|?]; [|lia]. cbn [andb].
    destruct (N.leb_spec (f_fin e) (s_end l)); [|eauto]. eexists. split; [done|]. apply Hmas.
    apply (tramo_mas l i e); try done; [|by right].
    destruct (tr_ini l Hl) as (j & x & Hj & Hx & <-). destruct (Hin l j) as (y & Hy & Hyd); [apply elem_of_app; right; left|done|].
    assert (x = y) as -> by congruence. by apply (Hord (j, y)).
Qed.

Lemma plan_loop (P : Prop) rest : forall dn spans, plan_ok P dn spans -> Forall leida dn -> Forall leida rest ->
  StronglySorted (fun x y => f_offset x.2 <= f_offset y.2 ∧ (P -> f_fin x.2 <= f_offset y.2)) (dn ++ rest) ->
  exists spans', mfold (span_paso gap_max span_max) spans rest tt = (Ok spans', tt) ∧ plan_ok P (dn ++ rest) spans'.
Proof.
  induction rest as [|[i e] rest IH]; intros dn spans Hok Hdn Hr Hs.
  { exists spans. by rewrite app_nil_r. }
  apply Forall_cons in Hr as [He Hr].
  assert (forall x, x ∈ dn -> f_offset x.2 <= f_offset e ∧ (P -> f_fin x.2 <= f_offset e)) as Hx.
  { clear - Hs. intros x Hx. induction dn as [|y dn IH]; [by apply elem_of_nil in Hx|].
    cbn in Hs. apply StronglySorted_inv in Hs as [Hs Hy]. apply elem_of_cons in Hx as [->|Hx]; [|by apply IH].
    rewrite Forall_forall in Hy. apply (Hy (i, e)). apply elem_of_app. right. left. }
  destruct (span_paso_ok P dn spans i e Hok Hdn He) as (spans1 & E1 & Hok1).
  { intros HP x Hin. by apply (Hx x Hin). }
  { intros x Hin. by apply (Hx x Hin). }
  destruct (IH (dn ++ [(i, e)]) spans1 Hok1) as (spans2 & E2 & Hok2).
  { apply Forall_app. split; [done|by constructor]. }
  { done. }
  { by rewrite <- app_assoc. }
  exists spans2. rewrite <- app_assoc in Hok2. split; [|done].
  cbn [mfold]. by rewrite (bind_run _ _ _ _ _ E1).
Qed.

Lemma por_tramo_total a b : por_tramo a b = true ∨ por_tramo b a = true.
Proof.
  unfold por_tramo. rewrite (N.compare_antisym (f_offset a.2)). destruct (f_offset a.2 ?= f_offset b.2); cbn; [|by left|by right].
  rewrite !N.leb_le. lia.
Qed.
Lemma por_tramo_trans a b c : por_tramo a b = true -> por_tramo b c = true -> por_tramo a c = true.
Proof.
  unfold por_tramo. destruct (N.compare_spec (f_offset a.2) (f_offset b.2)), (N.compare_spec (f_offset b.2) (f_offset c.2)),
    (N.compare_spec (f_offset a.2) (f_offset c.2)); try done; rewrite ?N.leb_le; lia.
Qed.

Lemma plan_spans_ok (P : Prop) : Forall (fun e => f_fin e < U64) pending ->
  (P -> NoDup pending ∧ todos_separados pending ∧ Forall (fun e => 0 < f_size e) pending) ->
  exists spans dn, plan_spans pending gap_max span_max tt = (Ok spans, tt) ∧ dn ≡ₚ seq 0 (length pending) ∧
    concat (s_files <$> spans) = dn ∧ Forall tramo_ok spans ∧
    (P -> en_orden spans ∧ StronglySorted (fun i j => forall e f, pending !! i = Some e -> pending !! j = Some f -> f_fin e <= f_offset f) dn).
Proof.
  intros Hfin HP. unfold plan_spans. set (z := zip (seq 0 (length pending)) pending).
  assert (forall x, x ∈ z -> pending !! x.1 = Some x.2) as Hz.
  { intros [i e] Hin. apply list_elem_of_lookup in Hin as [k Hk]. apply lookup_zip_with_Some in Hk as (a & b & [= -> ->] & Ha & Hb).
    apply lookup_seq in Ha as [-> _]. done. }
  assert (Forall leida (ordenar por_tramo z)) as Hl.
  { rewrite ordenar_perm. apply Forall_forall. intros x Hx. split; [by apply Hz|]. rewrite Forall_forall in Hfin.
    apply Hfin. eapply list_elem_of_lookup_2. by apply Hz. }
  assert (z.*1 = seq 0 (length pending)) as Hz1 by (apply fst_zip; by rewrite length_seq).
  assert (NoDup (ordenar por_tramo z)) as Hnd.
  { rewrite ordenar_perm. apply NoDup_fmap_1 with fst. rewrite Hz1. apply NoDup_seq. }
  assert (StronglySorted (fun x y => f_offset x.2 <= f_offset y.2 ∧ (P -> f_fin x.2 <= f_offset y.2)) (ordenar por_tramo z)) as Hsort.
  { pose proof (ordenar_sorted _ z por_tramo_total por_tramo_trans) as Hs.
    assert (forall x, x ∈ ordenar por_tramo z -> x ∈ z) as Hsub by (intros x; by rewrite ordenar_perm).
    clear - Hs Hnd Hsub Hz HP. induction Hs as [|x l Hs IH Hx]; constructor.
    - apply NoDup_cons in Hnd as [_ Hnd]. apply IH; [done|]. intros y Hy. apply Hsub. by right.
    - apply NoDup_cons in Hnd as [Hn _]. rewrite Forall_forall in Hx |- *. intros y Hy. specialize (Hx y Hy).
      assert (f_offset x.2 <= f_offset y.2) as Hxy.
      { unfold por_tramo in Hx. destruct (N.compare_spec (f_offset x.2) (f_offset y.2)); [lia|lia|done]. }
      split; [done|]. intros Hp. destruct (HP Hp) as (Hd & Hsep & Hpos).
      assert (pending !! x.1 = Some x.2) as Hx1 by (apply Hz, Hsub; left).
      assert (pending !! y.1 = Some y.2) as Hy1 by (apply Hz, Hsub; by right).
      destruct (Hsep x.2 y.2) as [?|Hyx]; [by eapply list_elem_of_lookup_2..| |done|].
      + intros E. assert (x = y) as ->; [|done]. destruct x as [i e], y as [j e']. cbn in *. subst e'. f_equal. by eapply NoDup_lookup.
      + rewrite Forall_forall in Hpos. pose proof (Hpos y.2 ltac:(by eapply list_elem_of_lookup_2)). unfold f_fin in *. lia. }
  destruct (plan_loop P (ordenar por_tramo z) [] []) as (spans & E & [H1 H2 H3]); [|constructor|done|done|].
  { constructor; [done|constructor|constructor]. }
  exists spans, (ordenar por_tramo z).*1. split_and!; [done|by rewrite ordenar_perm, Hz1|done|done|].
  intros HP'. split; [by apply H3|]. clear - Hsort Hl HP'. induction Hsort as [|x l Hs IH Hx]; constructor.
  - apply IH. by apply Forall_inv_tail in Hl.
  - rewrite Forall_forall in Hx. apply Forall_forall. intros j (y & -> & Hy)%list_elem_of_fmap e f He Hf.
    apply Forall_cons in Hl as [[Hl1 _] Hl]. rewrite Forall_forall in Hl. destruct (Hl y Hy) as [Hl2 _].
    destruct (Hx y Hy) as [_ Hxy]. assert (e = x.2) as -> by congruence. assert (f = y.2) as -> by congruence. by apply Hxy.
Qed.

Lemma plan_bytes_ok spans tope : Forall tramo_ok spans -> en_orden spans -> Forall (fun s => s_end s <= tope) spans -> tope < U64 ->
  exists n, plan_bytes spans tt = (Ok n, tt) ∧ n <= tope.
Proof.
  intros H1 H2 H3 Ht. unfold plan_bytes.
  assert (forall acc base, acc <= base -> base <= tope -> Forall (fun s => base <= s_start s) spans ->
    exists n, mfold (S := unit) (E := unit) (fun n s => add64 n (span_len s)) acc spans tt = (Ok n, tt) ∧ n <= tope) as Hg.
  { induction H2 as [|s spans Hs IH Hsp]; intros acc base Ha Hb Hst; [exists acc; split; [done|lia]|].
    apply Forall_cons in H1 as [Ht1 H1], H3 as [Hl H3], Hst as [Hst _]. pose proof (tramo_start s Ht1).
    cbn [mfold]. rewrite bind_eq. unfold add64 at 1. unfold span_len.
    destruct (N.ltb_spec (acc + (s_end s - s_start s)) U64); [|lia]. cbn [mret M_ret].
    apply (IH H1 H3 _ (s_end s)); [lia|lia|done]. }
  apply (Hg 0 0); [lia|lia|]. apply Forall_forall. intros; lia.
Qed.
End PlanFacts.
