(* ===== verification/OtaTxn.v ===== *)
(** * Update: the transaction

    [crates/soso-update-core/src/txn/mod.rs]: the durable states of an
    operation and the events that move them, its identity, the order of the
    durable writes and the capacity check made before anything starts. *)
From S2P Require Import Prelude Texto OtaHash OtaRecord.
Local Open Scope N_scope.

Inductive TxnState :=
| Descargando | Preparado | Armado | Aplicando | Probando
| Confirmado | Revirtiendo | Revertido | Descartado.
#[export] Instance TxnState_eq_dec : EqDecision TxnState.
Proof. solve_decision. Defined.

Inductive TxnEvent :=
| DescargaVerificada | RespaldoDurable | RegistroArranquePublicado | AplicacionIniciada
| AplicacionCompleta | PruebaSuperada | PruebaFallida | ReversionSolicitada
| ReversionCompleta | Abortada.
#[export] Instance TxnEvent_eq_dec : EqDecision TxnEvent.
Proof. solve_decision. Defined.

Record TransicionInvalida := mkTransicionInvalida { desde : TxnState; evento : TxnEvent }.

(** ** The machine *)
Definition next (s : TxnState) (ev : TxnEvent) : TransicionInvalida + TxnState :=
  match s, ev with
  | Descargando, DescargaVerificada => inr Preparado
  | Descargando, Abortada | Preparado, Abortada => inr Descartado
  | Preparado, RespaldoDurable => inr Preparado
  | Preparado, RegistroArranquePublicado => inr Armado
  | Armado, AplicacionIniciada => inr Aplicando
  | Aplicando, AplicacionIniciada => inr Aplicando
  | Aplicando, AplicacionCompleta => inr Probando
  | Probando, PruebaSuperada => inr Confirmado
  | Probando, PruebaFallida => inr Revirtiendo
  | Probando, ReversionSolicitada => inr Revirtiendo
  | Confirmado, ReversionSolicitada => inr Revirtiendo
  | Armado, ReversionSolicitada => inr Revertido
  | Aplicando, PruebaFallida => inr Revirtiendo
  | Aplicando, ReversionSolicitada => inr Revirtiendo
  | Revirtiendo, ReversionSolicitada => inr Revirtiendo
  | Revirtiendo, ReversionCompleta => inr Revertido
  | _, _ => inl (mkTransicionInvalida s ev)
  end.

Definition sistema_intacto (s : TxnState) : bool :=
  match s with Descargando | Preparado | Armado | Descartado => true | _ => false end.
Definition exige_respaldos (s : TxnState) : bool :=
  match s with Armado | Aplicando | Probando | Confirmado | Revirtiendo | Revertido => true | _ => false end.
Definition mezcla_posible (s : TxnState) : bool :=
  match s with Aplicando | Revirtiendo => true | _ => false end.
Definition recogible (s : TxnState) : bool :=
  match s with Confirmado | Revertido | Descartado => true | _ => false end.

Definition estado_str (s : TxnState) : str :=
  match s with
  | Descargando => txt "descargando" | Preparado => txt "preparado" | Armado => txt "armado"
  | Aplicando => txt "aplicando" | Probando => txt "probando" | Confirmado => txt "confirmado"
  | Revirtiendo => txt "revirtiendo" | Revertido => txt "revertido" | Descartado => txt "descartado"
  end.

(** A [match] on string literals: the first literal equal to the text. *)
Fixpoint literal {A} (s : str) (casos : list (str * A)) : option A :=
  match casos with
  | [] => None
  | (l, a) :: casos => if bool_decide (s = l) then Some a else literal s casos
  end.

Definition estado_parse (s : str) : option TxnState :=
  literal s [(txt "descargando", Descargando); (txt "preparado", Preparado); (txt "armado", Armado);
             (txt "aplicando", Aplicando); (txt "probando", Probando); (txt "confirmado", Confirmado);
             (txt "revirtiendo", Revirtiendo); (txt "revertido", Revertido); (txt "descartado", Descartado)].

(** ** Identity: the hash of the manifest *)
Abbreviation TxnId := (list byte).
Definition from_hex (hex : str) : option TxnId := decode_hex_sha256 hex.
Definition to_hex (id : TxnId) : str := hex_of id.
Definition id_dir (id : TxnId) : str := take 16 (to_hex id).
Definition from_manifest `{Sha256} (manifest : list byte) : TxnId := sha256 manifest.

(** An id is 32 bytes. *)
Definition id_ok (id : TxnId) : Prop := length id = 32%nat.

(** ** The order of the durable writes *)
Inductive Medio := Sosofs | Esp | Sistema_.
Record Paso := mkPaso { medio : Medio; descripcion : str }.

Definition ORDEN_ARMADO : list Paso := [
  mkPaso Sosofs (txt "artefactos verificados en el área de preparación");
  mkPaso Sosofs (txt "respaldo de cada fichero que cambia o se borra");
  mkPaso Sosofs (txt "diario PREPARADO con inventario, hashes y versión anterior");
  mkPaso Esp (txt "kernel nuevo al hueco y SOSOKRN.MET staged");
  mkPaso Esp (txt "registro de arranque ARMADO con el ID");
  mkPaso Sosofs (txt "diario ARMADO")].
Definition ORDEN_APLICACION : list Paso := [
  mkPaso Sosofs (txt "diario APLICANDO");
  mkPaso Sistema_ (txt "cada acción del inventario, idempotente, con progreso en el diario");
  mkPaso Sosofs (txt "diario PROBANDO");
  mkPaso Esp (txt "registro de arranque PROBANDO")].
Definition ORDEN_CONFIRMACION : list Paso := [
  mkPaso Sosofs (txt "diario CONFIRMADO con la evidencia del arranque");
  mkPaso Esp (txt "registro de arranque CONFIRMADO");
  mkPaso Sosofs (txt "/etc/soso-release reconciliado con la decisión")].
Definition ORDEN_REVERSION : list Paso := [
  mkPaso Esp (txt "registro de arranque REVERTIR (sólo reversión manual)");
  mkPaso Sosofs (txt "diario REVIRTIENDO");
  mkPaso Sistema_ (txt "restaurar cada acción desde su respaldo, idempotente");
  mkPaso Esp (txt "kernel anterior restaurado desde SOSOKRN.BIN");
  mkPaso Sosofs (txt "diario REVERTIDO");
  mkPaso Esp (txt "registro de arranque REVERTIDO")].

(** ** Capacity *)
Record Necesidad := mkNecesidad { preparacion : N; respaldo_bytes : N; crecimiento : N; kernel_bytes : N }.
Record Capacidad := mkCapacidad { sosofs_libre : N; hueco_kernel : N; registro_arranque : N; meta_kernel : N }.

Definition RESERVA_LOGS : N := 12 * 1024 * 1024.
Definition RESERVA_RECUPERACION : N := 8 * 1024 * 1024.
Definition META_KERNEL_MIN : N := 512.

Inductive PreflightError :=
| SinEspacio (necesita libre : N)
| KernelNoCabe (size hueco : N)
| RegistroNoCabe (size : N).

Definition total_sosofs (n : Necesidad) : N :=
  saturating_add64 (saturating_add64 (saturating_add64 (saturating_add64 (preparacion n) (respaldo_bytes n))
    (crecimiento n)) RESERVA_LOGS) RESERVA_RECUPERACION.

Definition preflight (n : Necesidad) (c : Capacidad) : PreflightError + unit :=
  let necesita := total_sosofs n in
  if sosofs_libre c <? necesita then inl (SinEspacio necesita (sosofs_libre c))
  else if (kernel_bytes n =? 0) || (hueco_kernel c <? kernel_bytes n) then inl (KernelNoCabe (kernel_bytes n) (hueco_kernel c))
  else if registro_arranque c <? SLOT_SIZE * SLOTS then inl (RegistroNoCabe (registro_arranque c))
  else if meta_kernel c <? META_KERNEL_MIN then inl (RegistroNoCabe (meta_kernel c))
  else inr tt.

(** ** Facts *)
Lemma estado_parse_str s : estado_parse (estado_str s) = Some s.
Proof. by destruct s. Qed.

Lemma literal_Some {A} s (casos : list (str * A)) a : literal s casos = Some a -> (s, a) ∈ casos.
Proof.
  induction casos as [|[l b] casos IH]; [done|]. cbn [literal]. case_bool_decide as Hs.
  - intros [= <-]. subst. apply list_elem_of_here.
  - intros Ha. by apply list_elem_of_further, IH.
Qed.

Lemma estado_parse_inv s e : estado_parse s = Some e -> s = estado_str e.
Proof. intros H%literal_Some. repeat (apply elem_of_cons in H as [[= -> ->]|H]; [done|]). by apply not_elem_of_nil in H. Qed.

Lemma to_hex_visible id : Forall (fun b => visible b = true) (to_hex id).
Proof. apply hexdigits_visible, hex_of_digits. Qed.

(** One event after another. *)
Definition paso (s s' : TxnState) : Prop := exists ev, next s ev = inr s'.

(** *** What has happened before a state is reached *)

(** A closed operation moves only if it was confirmed, and only backwards. *)
Lemma next_cerrado s ev s' : recogible s = true -> next s ev = inr s' -> s = Confirmado ∧ ev = ReversionSolicitada ∧ s' = Revirtiendo.
Proof. by destruct s, ev; intros Hr [= <-]. Qed.

(** The active system is touched only after arming. *)
Lemma next_intacto s ev s' : sistema_intacto s = true -> next s ev = inr s' ->
  sistema_intacto s' = true ∨ s = Armado.
Proof. destruct s, ev; intros Hr [= <-]; auto. Qed.

(** A rank that no step lowers: the machine has no way back to an earlier
    phase. *)
Definition fase (s : TxnState) : N :=
  match s with
  | Descargando => 0 | Preparado => 1 | Armado => 2 | Aplicando => 3 | Probando => 4
  | Confirmado => 5 | Revirtiendo => 6 | Revertido => 7 | Descartado => 7
  end.
Lemma next_fase s ev s' : next s ev = inr s' -> fase s <= fase s' ∧ (fase s = fase s' -> s = s').
Proof. destruct s, ev; intros [= <-]; cbn; split; (lia || done). Qed.

Lemma paso_fase s s' : rtc paso s s' -> fase s <= fase s' ∧ (fase s = fase s' -> s = s').
Proof.
  induction 1 as [s|s s1 s2 [ev Hev] _ IH]; [split; [lia|done]|].
  apply next_fase in Hev as [H1 H2]. destruct IH as [H3 H4]. split; [lia|]. intros He.
  rewrite H2 by lia. apply H4. lia.
Qed.

Lemma paso_a_confirmado s : paso s Confirmado -> s = Probando.
Proof. intros [ev Hev]. by destruct s, ev. Qed.
Lemma paso_a_probando s : paso s Probando -> s = Aplicando.
Proof. intros [ev Hev]. by destruct s, ev. Qed.

Lemma rtc_ultimo s s' : rtc paso s s' -> s = s' ∨ exists s1, rtc paso s s1 ∧ paso s1 s'.
Proof. intros H. apply rtc_inv_r in H as [->|(s1 & ? & ?)]; [by left|right; by exists s1]. Qed.

(** Confirming needs a trial boot of an application that was completed. *)
Lemma confirmado_pasa_por s : sistema_intacto s = true -> rtc paso s Confirmado ->
  rtc paso s Aplicando ∧ rtc paso Aplicando Probando ∧ rtc paso Probando Confirmado.
Proof.
  intros Hs H. apply rtc_ultimo in H as [->|(s1 & H1 & Hp)]; [done|]. pose proof (paso_a_confirmado _ Hp) as ->.
  apply rtc_ultimo in H1 as [->|(s2 & H2 & Hp2)]; [done|]. pose proof (paso_a_probando _ Hp2) as ->.
  split; [done|]. split; by apply rtc_once.
Qed.

(** The check passes exactly when everything fits; no sum wraps. *)
Lemma preflight_ok n c : sosofs_libre c < U64_MAX ->
  preflight n c = inr tt <->
  preparacion n + respaldo_bytes n + crecimiento n + RESERVA_LOGS + RESERVA_RECUPERACION <= sosofs_libre c ∧
  0 < kernel_bytes n <= hueco_kernel c ∧ SLOT_SIZE * SLOTS <= registro_arranque c ∧ META_KERNEL_MIN <= meta_kernel c.
Proof.
  intros Hc. unfold preflight.
  assert (sosofs_libre c < total_sosofs n <-> sosofs_libre c < preparacion n + respaldo_bytes n + crecimiento n + RESERVA_LOGS + RESERVA_RECUPERACION) as Ht.
  { unfold total_sosofs, saturating_add64. lia. }
  destruct (N.ltb_spec (sosofs_libre c) (total_sosofs n)) as [H1|H1]; [split; [done|]; intros; apply Ht in H1; lia|].
  assert (¬ sosofs_libre c < preparacion n + respaldo_bytes n + crecimiento n + RESERVA_LOGS + RESERVA_RECUPERACION) as H1' by (intros Hx; apply Ht in Hx; lia).
  destruct (N.eqb_spec (kernel_bytes n) 0); cbn [orb]; [split; [done|lia]|].
  destruct (N.ltb_spec (hueco_kernel c) (kernel_bytes n)); [split; [done|lia]|].
  destruct (N.ltb_spec (registro_arranque c) (SLOT_SIZE * SLOTS)); [split; [done|lia]|].
  destruct (N.ltb_spec (meta_kernel c) META_KERNEL_MIN); [split; [done|lia]|]. split; [lia|done].
Qed.
