(* ===== verification/OtaJournal.v ===== *)
(** * Update: the journal of an operation

    [crates/soso-update-core/src/txn/journal.rs]: what changes, with which
    hash, what there was before and how far it got. A journal is written as
    a record and read back; [validate] is what lets it be armed. *)
From S2P Require Import Prelude Texto OtaHash OtaRecord OtaTxn.
Local Open Scope N_scope.

Definition JOURNAL_MAGIC : str := txt "SOSOTXN diario".
Definition JOURNAL_FORMATO : N := 1.

Inductive Accion := Crear | Reemplazar | Borrar.
#[export] Instance Accion_eq_dec : EqDecision Accion.
Proof. solve_decision. Defined.
Definition accion_str (a : Accion) : str :=
  match a with Crear => txt "crear" | Reemplazar => txt "reemplazar" | Borrar => txt "borrar" end.
Definition accion_parse (s : str) : option Accion :=
  literal s [(txt "crear", Crear); (txt "reemplazar", Reemplazar); (txt "borrar", Borrar)].
Definition exige_respaldo (a : Accion) : bool := match a with Crear => false | _ => true end.

Inductive Progreso := Pendiente | Respaldado | Aplicado | Restaurado.
#[export] Instance Progreso_eq_dec : EqDecision Progreso.
Proof. solve_decision. Defined.
Definition progreso_str (p : Progreso) : str :=
  match p with
  | Pendiente => txt "pendiente" | Respaldado => txt "respaldado"
  | Aplicado => txt "aplicado" | Restaurado => txt "restaurado"
  end.
Definition progreso_parse (s : str) : option Progreso :=
  literal s [(txt "pendiente", Pendiente); (txt "respaldado", Respaldado);
             (txt "aplicado", Aplicado); (txt "restaurado", Restaurado)].

Record Contenido := mkContenido { c_size : N; c_hash : str }.
Record Entrada := mkEntrada {
  e_accion : Accion;
  e_progreso : Progreso;
  e_path : str;
  e_nuevo : option Contenido;
  e_respaldo : option Contenido;
}.
Record Journal := mkJournal {
  j_id : TxnId;
  j_estado : TxnState;
  j_seq : N;
  j_version_nueva : str;
  j_version_anterior : str;
  j_kernel_nuevo : option Contenido;
  j_kernel_anterior : option Contenido;
  j_entradas : list Entrada;
}.

Inductive JournalError :=
| Registro (e : RecordError)
| IdInvalido
| EstadoInvalido
| EntradaMala (que : str)
| RutaInvalida (ruta : str)
| RutaDuplicada (ruta : str)
| SinRespaldo (ruta : str)
| ProgresoInconsistente (ruta : str)
| SinKernel.

Definition contenido_fmt (c : option Contenido) : str :=
  match c with
  | Some c => dec (c_size c) ++ txt " " ++ c_hash c
  | None => txt "- -"
  end.

Definition contenido_parse (size hash : str) : JournalError + option Contenido :=
  if bool_decide (size = txt "-") && bool_decide (hash = txt "-") then inr None
  else
    size ← ok_or (EntradaMala (txt "size")) (parse_uint U64 size);
    if negb (lenN hash =? 64) || negb (forallb is_ascii_hexdigit hash) then inl (EntradaMala (txt "hash"))
    else inr (Some (mkContenido size hash)).

Definition BARRA : byte := x2f.
Definition INVERSA : byte := x5c.
Definition ruta_valida (p : str) : bool :=
  negb (bool_decide (p = []))
  && negb (starts_with [BARRA] p)
  && negb (existsb (Byte.eqb INVERSA) p)
  && negb (existsb (fun seg => bool_decide (seg = txt "..") || bool_decide (seg = [])) (split_byte BARRA p)).

Definition set_estado (e : TxnState) (j : Journal) : Journal :=
  mkJournal (j_id j) e (j_seq j) (j_version_nueva j) (j_version_anterior j) (j_kernel_nuevo j) (j_kernel_anterior j) (j_entradas j).
Definition set_seq (n : N) (j : Journal) : Journal :=
  mkJournal (j_id j) (j_estado j) n (j_version_nueva j) (j_version_anterior j) (j_kernel_nuevo j) (j_kernel_anterior j) (j_entradas j).
Definition set_entradas (es : list Entrada) (j : Journal) : Journal :=
  mkJournal (j_id j) (j_estado j) (j_seq j) (j_version_nueva j) (j_version_anterior j) (j_kernel_nuevo j) (j_kernel_anterior j) es.
Definition set_progreso (p : Progreso) (e : Entrada) : Entrada :=
  mkEntrada (e_accion e) p (e_path e) (e_nuevo e) (e_respaldo e).

Definition nuevo (id : TxnId) (version_nueva version_anterior : str) : Journal :=
  mkJournal id Descargando 0 version_nueva version_anterior None None [].

Definition entrada_fmt (e : Entrada) : str :=
  txt "a " ++ accion_str (e_accion e) ++ txt " " ++ progreso_str (e_progreso e) ++ txt " "
  ++ contenido_fmt (e_nuevo e) ++ txt " " ++ contenido_fmt (e_respaldo e) ++ txt " " ++ e_path e ++ [LF].

Definition cuerpo_diario (j : Journal) : str :=
  txt "id=" ++ to_hex (j_id j) ++ [LF]
  ++ txt "estado=" ++ estado_str (j_estado j) ++ [LF]
  ++ txt "version_nueva=" ++ j_version_nueva j ++ [LF]
  ++ txt "version_anterior=" ++ j_version_anterior j ++ [LF]
  ++ txt "kernel_nuevo=" ++ contenido_fmt (j_kernel_nuevo j) ++ [LF]
  ++ txt "kernel_anterior=" ++ contenido_fmt (j_kernel_anterior j) ++ [LF]
  ++ concat (entrada_fmt <$> j_entradas j).

(** [splitn(8, ' ')] of a line [a <accion> <progreso> <nuevo> <respaldo> <ruta>]. *)
Definition entrada_parse (linea : str) : JournalError + Entrada :=
  match splitn 8 SP linea with
  | [_; a; p; ns; nh; rs; rh; ruta] =>
      accion ← ok_or (EntradaMala (txt "accion")) (accion_parse a);
      progreso ← ok_or (EntradaMala (txt "progreso")) (progreso_parse p);
      nuevo ← contenido_parse ns nh;
      respaldo ← contenido_parse rs rh;
      mret (mkEntrada accion progreso ruta nuevo respaldo)
  | _ => inl (EntradaMala (txt "campos"))
  end.
Fixpoint entradas_parse (ls : list str) : JournalError + list Entrada :=
  match ls with
  | [] => mret []
  | l :: ls => e ← entrada_parse l; es ← entradas_parse ls; mret (e :: es)
  end.

Definition kernel_parse (f : Framed) (clave : str) : JournalError + option Contenido :=
  v ← map_err Registro (requerido f clave);
  sh ← ok_or (EntradaMala (txt "kernel")) (split_once SP v);
  contenido_parse sh.1 sh.2.

Definition from_framed (f : Framed) : JournalError + Journal :=
  idx ← map_err Registro (requerido f (txt "id"));
  id ← ok_or IdInvalido (from_hex idx);
  est ← map_err Registro (requerido f (txt "estado"));
  estado ← ok_or EstadoInvalido (estado_parse est);
  entradas ← entradas_parse (lineas f (txt "a "));
  vn ← map_err Registro (requerido f (txt "version_nueva"));
  va ← map_err Registro (requerido f (txt "version_anterior"));
  kn ← kernel_parse f (txt "kernel_nuevo");
  ka ← kernel_parse f (txt "kernel_anterior");
  mret (mkJournal id estado (f_seq f) vn va kn ka entradas).

Section Diario.
Context `{Crc32c}.

Definition diario_format (j : Journal) : list byte :=
  frame JOURNAL_MAGIC JOURNAL_FORMATO (j_seq j) (cuerpo_diario j).
Definition diario_parse (raw : list byte) : JournalError + Journal :=
  f ← map_err Registro (parse JOURNAL_MAGIC JOURNAL_FORMATO raw);
  from_framed f.
Definition diario_pick (copias : list (list byte)) : JournalError + Journal :=
  xf ← map_err Registro (pick JOURNAL_MAGIC JOURNAL_FORMATO copias);
  from_framed xf.2.
End Diario.

(** ** Validation *)
Definition validar_accion (e : Entrada) : JournalError + unit :=
  match e_accion e with
  | Crear => if bool_decide (is_Some (e_respaldo e)) || bool_decide (e_nuevo e = None) then inl (EntradaMala (txt "crear")) else mret tt
  | Reemplazar => if bool_decide (e_nuevo e = None) then inl (EntradaMala (txt "reemplazar")) else mret tt
  | Borrar => if bool_decide (is_Some (e_nuevo e)) then inl (EntradaMala (txt "borrar")) else mret tt
  end.
#[export] Instance Contenido_eq_dec : EqDecision Contenido.
Proof. solve_decision. Defined.

Fixpoint validar_entradas (exige : bool) (vistas : list str) (es : list Entrada) : JournalError + unit :=
  match es with
  | [] => mret tt
  | e :: es =>
      if negb (ruta_valida (e_path e)) then inl (RutaInvalida (e_path e))
      else if bool_decide (e_path e ∈ vistas) then inl (RutaDuplicada (e_path e))
      else
        _ ← validar_accion e;
        let sin := exige_respaldo (e_accion e) && bool_decide (e_respaldo e = None) in
        if exige && sin then inl (SinRespaldo (e_path e))
        else if bool_decide (e_progreso e = Restaurado) && sin then inl (ProgresoInconsistente (e_path e))
        else if bool_decide (e_progreso e = Aplicado) && sin then inl (ProgresoInconsistente (e_path e))
        else validar_entradas exige (e_path e :: vistas) es
  end.

Definition bien (c : Contenido) : bool := (lenN (c_hash c) =? 64) && forallb is_ascii_hexdigit (c_hash c).

Definition validate (j : Journal) : JournalError + unit :=
  _ ← validar_entradas (exige_respaldos (j_estado j)) [] (j_entradas j);
  if exige_respaldos (j_estado j) then
    if negb (match j_kernel_nuevo j with Some c => bien c | None => false end) then inl SinKernel
    else if match j_kernel_anterior j with Some c => negb (bien c) | None => false end then inl SinKernel
    else mret tt
  else mret tt.

Definition pendientes_aplicar (j : Journal) : list Entrada := filter (fun e => e_progreso e ≠ Aplicado) (j_entradas j).
Definition pendientes_restaurar (j : Journal) : list Entrada := filter (fun e => e_progreso e = Aplicado) (j_entradas j).

Definition avanzar (ev : TxnEvent) : M Journal TransicionInvalida TxnState :=
  j ← gets id;
  match next (j_estado j) ev with
  | inl e => throw e
  | inr siguiente =>
      modify (set_estado siguiente);;
      n ← add64 (j_seq j) 1;
      modify (set_seq n);;
      mret siguiente
  end.

Lemma avanzar_ok ev s' j : next (j_estado j) ev = inr s' -> j_seq j + 1 < U64 ->
  avanzar ev j = (Ok s', set_seq (j_seq j + 1) (set_estado s' j)).
Proof.
  intros Hn Hs. unfold avanzar. rewrite bind_eq. cbn [gets]. unfold id. rewrite Hn, bind_eq. cbn [modify].
  rewrite bind_eq. unfold add64. by rewrite (proj2 (N.ltb_lt _ _) Hs).
Qed.

(** ** What can be written and read back *)
Definition contenido_ok (c : Contenido) : Prop := c_size c < U64 ∧ bien c = true.
Definition opcional {A} (P : A -> Prop) (o : option A) : Prop := match o with Some a => P a | None => True end.
Record entrada_ok (e : Entrada) : Prop := {
  eo_path : valor_ok (e_path e);
  eo_ne : e_path e ≠ [];
  eo_nuevo : opcional contenido_ok (e_nuevo e);
  eo_respaldo : opcional contenido_ok (e_respaldo e);
}.
Record diario_ok (j : Journal) : Prop := {
  do_id : id_ok (j_id j);
  do_seq : j_seq j < U64;
  do_vn : valor_ok (j_version_nueva j);
  do_va : valor_ok (j_version_anterior j);
  do_kn : opcional contenido_ok (j_kernel_nuevo j);
  do_ka : opcional contenido_ok (j_kernel_anterior j);
  do_entradas : Forall entrada_ok (j_entradas j);
}.

(** ** The body as lines *)
Definition campos (c : option Contenido) : str * str :=
  match c with Some c => (dec (c_size c), c_hash c) | None => (txt "-", txt "-") end.

Lemma contenido_fmt_campos c : contenido_fmt c = (campos c).1 ++ txt " " ++ (campos c).2.
Proof. by destruct c. Qed.

Lemma bien_inv c : bien c = true -> lenN (c_hash c) = 64 ∧ Forall (fun b => visible b = true) (c_hash c) ∧ forallb is_ascii_hexdigit (c_hash c) = true.
Proof.
  unfold bien. intros [H1%N.eqb_eq H2]%andb_true_iff. split; [done|]. split; [by apply hexdigits_visible|done].
Qed.

Lemma campos_visibles c : opcional contenido_ok c ->
  Forall (fun b => visible b = true) (campos c).1 ∧ Forall (fun b => visible b = true) (campos c).2 ∧ (campos c).2 ≠ [].
Proof.
  destruct c as [c|]; cbn [opcional campos fst snd].
  - intros [_ (H1 & H2 & _)%bien_inv]. split; [apply dec_visible|]. split; [done|]. intros H. by rewrite H in H1.
  - intros _. split; [by repeat constructor|]. split; [by repeat constructor|done].
Qed.

Lemma contenido_parse_campos c : opcional contenido_ok c -> contenido_parse (campos c).1 (campos c).2 = inr c.
Proof.
  destruct c as [[n h]|]; cbn [opcional campos fst snd]; [|done]. intros [Hn (H1 & _ & H2)%bien_inv]. cbn [c_size c_hash] in *.
  unfold contenido_parse. rewrite (bool_decide_eq_false_2 (dec n = txt "-")).
  - cbn [andb]. rewrite parse_dec by done. cbn [ok_or mbind sum_bind]. by rewrite H1, H2.
  - intros Hd. pose proof (dec_digits n) as Hd'. rewrite Hd in Hd'. by apply Forall_cons in Hd' as [? _].
Qed.

Lemma contenido_valor c : opcional contenido_ok c -> valor_ok (contenido_fmt c).
Proof.
  intros (H1 & H2 & Hne)%campos_visibles. rewrite contenido_fmt_campos.
  destruct (campos c).2 as [|b h _] using rev_ind; [done|]. apply Forall_app in H2 as [H2 Hb].
  rewrite !app_assoc. apply valor_imprimible; [|by apply Forall_cons in Hb as [? _]].
  apply Forall_app. split; [apply Forall_app; split|]; [by apply visibles_imprimibles|by repeat constructor|by apply visibles_imprimibles].
Qed.

(** The line of an entry, without its line feed. *)
Definition entrada_cabeza (e : Entrada) : str :=
  txt " " ++ accion_str (e_accion e) ++ txt " " ++ progreso_str (e_progreso e) ++ txt " "
  ++ contenido_fmt (e_nuevo e) ++ txt " " ++ contenido_fmt (e_respaldo e) ++ txt " ".
Definition entrada_linea (e : Entrada) : str := ("a"%byte :: entrada_cabeza e) ++ e_path e.

Lemma entrada_fmt_linea e : entrada_fmt e = entrada_linea e ++ [LF].
Proof.
  unfold entrada_fmt, entrada_linea, entrada_cabeza. change (txt "a ") with ("a"%byte :: txt " ").
  cbn [app]. f_equal. by rewrite <- !app_assoc.
Qed.

Lemma accion_visible a : Forall (fun b => visible b = true) (accion_str a).
Proof. destruct a; by repeat constructor. Qed.
Lemma progreso_visible p : Forall (fun b => visible b = true) (progreso_str p).
Proof. destruct p; by repeat constructor. Qed.
Lemma estado_visible s : Forall (fun b => visible b = true) (estado_str s).
Proof. destruct s; by repeat constructor. Qed.

Lemma contenido_imprimible c : opcional contenido_ok c -> Forall (fun b => imprimible b = true) (contenido_fmt c).
Proof.
  intros (H1 & H2 & _)%campos_visibles. rewrite contenido_fmt_campos.
  apply Forall_app. split; [by apply visibles_imprimibles|]. apply Forall_app. split; [by repeat constructor|by apply visibles_imprimibles].
Qed.

Lemma entrada_linea_ok e : entrada_ok e -> linea_ok (entrada_linea e).
Proof.
  intros [Hp Hne Hn Hr]. apply linea_ok_texto; [done| |done|done|done].
  pose proof (visibles_imprimibles _ (accion_visible (e_accion e))). pose proof (visibles_imprimibles _ (progreso_visible (e_progreso e))).
  pose proof (contenido_imprimible _ Hn). pose proof (contenido_imprimible _ Hr).
  assert (Forall (fun b => imprimible b = true) (txt " ")) by by repeat constructor.
  unfold entrada_cabeza. repeat (apply Forall_app; split); done.
Qed.

Lemma entrada_parse_linea e : entrada_ok e -> entrada_parse (entrada_linea e) = inr e.
Proof.
  intros [Hp Hne Hn Hr]. unfold entrada_parse, entrada_linea, entrada_cabeza. rewrite !contenido_fmt_campos.
  destruct (campos_visibles _ Hn) as (N1 & N2 & _). destruct (campos_visibles _ Hr) as (R1 & R2 & _).
  assert (("a"%byte :: txt " " ++ accion_str (e_accion e) ++ txt " " ++ progreso_str (e_progreso e) ++ txt " "
     ++ ((campos (e_nuevo e)).1 ++ txt " " ++ (campos (e_nuevo e)).2) ++ txt " "
     ++ ((campos (e_respaldo e)).1 ++ txt " " ++ (campos (e_respaldo e)).2) ++ txt " ") ++ e_path e
    = txt "a" ++ SP :: accion_str (e_accion e) ++ SP :: progreso_str (e_progreso e) ++ SP :: (campos (e_nuevo e)).1
      ++ SP :: (campos (e_nuevo e)).2 ++ SP :: (campos (e_respaldo e)).1 ++ SP :: (campos (e_respaldo e)).2 ++ SP :: e_path e) as ->.
  { change (txt " ") with [SP]. change (txt "a") with ["a"%byte]. cbn [app]. by junta. }
  rewrite splitn_app by (apply visible_SP; by repeat constructor).
  rewrite splitn_app by (apply visible_SP, accion_visible). rewrite splitn_app by (apply visible_SP, progreso_visible).
  do 4 (rewrite splitn_app by by apply visible_SP). cbn [splitn].
  assert (accion_parse (accion_str (e_accion e)) = Some (e_accion e)) as -> by by destruct (e_accion e).
  assert (progreso_parse (progreso_str (e_progreso e)) = Some (e_progreso e)) as -> by by destruct (e_progreso e).
  cbn [ok_or mbind sum_bind]. rewrite !contenido_parse_campos by done. by destruct e.
Qed.

Definition renglones_diario (j : Journal) : list str :=
  [txt "id=" ++ to_hex (j_id j); txt "estado=" ++ estado_str (j_estado j);
   txt "version_nueva=" ++ j_version_nueva j; txt "version_anterior=" ++ j_version_anterior j;
   txt "kernel_nuevo=" ++ contenido_fmt (j_kernel_nuevo j); txt "kernel_anterior=" ++ contenido_fmt (j_kernel_anterior j)]
  ++ (entrada_linea <$> j_entradas j).

Lemma cuerpo_diario_unlines j : cuerpo_diario j = unlines (renglones_diario j).
Proof.
  unfold cuerpo_diario, renglones_diario. rewrite unlines_app, !unlines_cons. junta. change (unlines []) with (@nil byte). cbn [app].
  repeat f_equal. unfold unlines. rewrite <- list_fmap_compose. f_equal. apply list_fmap_ext. intros i e _. apply entrada_fmt_linea.
Qed.

Lemma renglones_diario_ok j : diario_ok j -> Forall linea_ok (renglones_diario j).
Proof.
  intros [_ _ Hvn Hva Hkn Hka He]. unfold renglones_diario. cbn [app].
  constructor; [apply (linea_clave "i" (txt "d")); [done|by repeat constructor|done|apply valor_visible, to_hex_visible]|].
  constructor; [apply (linea_clave "e" (txt "stado")); [done|by repeat constructor|done|apply valor_visible, estado_visible]|].
  constructor; [apply (linea_clave "v" (txt "ersion_nueva")); [done|by repeat constructor|done|done]|].
  constructor; [apply (linea_clave "v" (txt "ersion_anterior")); [done|by repeat constructor|done|done]|].
  constructor; [apply (linea_clave "k" (txt "ernel_nuevo")); [done|by repeat constructor|done|by apply contenido_valor]|].
  constructor; [apply (linea_clave "k" (txt "ernel_anterior")); [done|by repeat constructor|done|by apply contenido_valor]|].
  apply Forall_fmap. eapply Forall_impl; [exact He|]. apply entrada_linea_ok.
Qed.

Lemma entradas_parse_lineas es : Forall entrada_ok es -> entradas_parse (entrada_linea <$> es) = inr es.
Proof.
  induction 1 as [|e es He _ IH]; [done|]. cbn [fmap list_fmap entradas_parse]. rewrite entrada_parse_linea by done.
  cbn [mbind sum_bind]. by rewrite IH.
Qed.

Lemma lineas_entradas f s j : diario_ok j ->
  lineas (mkFramed f s (cuerpo_diario j)) (txt "a ") = entrada_linea <$> j_entradas j.
Proof.
  intros Hj. unfold lineas. cbn [f_body]. rewrite cuerpo_diario_unlines, lineas_de_cuerpo by by apply renglones_diario_ok.
  unfold renglones_diario. cbn [app].
  repeat (rewrite filter_cons_False; [|intros Hs; by rewrite starts_with_clash in Hs]).
  induction (j_entradas j) as [|e es IH]; [done|]. cbn [fmap list_fmap]. rewrite filter_cons_True; [by f_equal|].
  unfold entrada_linea, entrada_cabeza. apply (starts_with_app (txt "a ")).
Qed.

Lemma kernel_parse_fmt f clave c : opcional contenido_ok c -> campo f clave = Some (contenido_fmt c) -> kernel_parse f clave = inr c.
Proof.
  intros Hc Hv. unfold kernel_parse, requerido. rewrite Hv. cbn [ok_or map_err mbind sum_bind].
  destruct (campos_visibles _ Hc) as (H1 & _ & _). rewrite contenido_fmt_campos.
  change (txt " ") with [SP]. cbn [app]. rewrite split_once_app by by apply visible_SP. cbn [ok_or mbind sum_bind fst snd].
  by apply contenido_parse_campos.
Qed.

(** The fields of the body. *)
Ltac busca_campo Hl :=
  rewrite cuerpo_diario_unlines, campo_cuerpo by done; unfold renglones_diario in *; cbn [app] in *;
  repeat (apply Forall_cons in Hl as [? Hl];
          first [apply campo_aqui; [done|done] | rewrite campo_sigue; [|done|done]]).

Lemma from_framed_cuerpo f j : diario_ok j -> from_framed (mkFramed f (j_seq j) (cuerpo_diario j)) = inr j.
Proof.
  intros Hj. pose proof (renglones_diario_ok _ Hj) as Hl. unfold from_framed, requerido.
  assert (campo (mkFramed f (j_seq j) (cuerpo_diario j)) (txt "id") = Some (to_hex (j_id j))) as -> by busca_campo Hl.
  assert (campo (mkFramed f (j_seq j) (cuerpo_diario j)) (txt "estado") = Some (estado_str (j_estado j))) as -> by busca_campo Hl.
  assert (campo (mkFramed f (j_seq j) (cuerpo_diario j)) (txt "version_nueva") = Some (j_version_nueva j)) as -> by busca_campo Hl.
  assert (campo (mkFramed f (j_seq j) (cuerpo_diario j)) (txt "version_anterior") = Some (j_version_anterior j)) as -> by busca_campo Hl.
  pose proof Hj as [Hid Hseq Hvn Hva Hkn Hka He].
  rewrite (kernel_parse_fmt _ (txt "kernel_nuevo") (j_kernel_nuevo j)); [|done|busca_campo Hl].
  rewrite (kernel_parse_fmt _ (txt "kernel_anterior") (j_kernel_anterior j)); [|done|busca_campo Hl].
  cbn [ok_or map_err mbind sum_bind]. unfold from_hex, to_hex. rewrite decode_hex_of by done. cbn [ok_or mbind sum_bind].
  rewrite estado_parse_str, lineas_entradas, entradas_parse_lineas by done. cbn [ok_or mbind sum_bind f_seq]. by destruct j.
Qed.

Section DiarioFacts.
Context `{Crc32c}.

Lemma diario_magic : magic_ok JOURNAL_MAGIC.
Proof. split; [split; [set_solver|done]|done|set_solver|done|done]. Qed.

Lemma diario_framed j : diario_ok j -> parse JOURNAL_MAGIC JOURNAL_FORMATO (diario_format j) = inr (mkFramed JOURNAL_FORMATO (j_seq j) (cuerpo_diario j)).
Proof.
  intros Hj. unfold diario_format. rewrite cuerpo_diario_unlines.
  pose proof (parse_frame JOURNAL_MAGIC JOURNAL_FORMATO JOURNAL_FORMATO (j_seq j) (renglones_diario j) []) as Hp.
  rewrite app_nil_r in Hp. by rewrite Hp; [|apply diario_magic|apply renglones_diario_ok|..|destruct Hj|].
Qed.
Lemma diario_ida_y_vuelta j : diario_ok j -> diario_parse (diario_format j) = inr j.
Proof. intros Hj. unfold diario_parse. rewrite diario_framed by done. cbn [map_err mbind sum_bind]. by apply from_framed_cuerpo. Qed.
End DiarioFacts.
