(* ===== verification/OtaBootrec.v ===== *)
(** * Update: the boot record

    [crates/soso-update-core/src/txn/bootrec.rs]: the durable decision on the
    pair kernel + rootfs, four slots of 1 KiB written in turn on the ESP. *)
From S2P Require Import Prelude Texto OtaHash OtaRecord OtaTxn.
Local Open Scope N_scope.

Definition BOOTREC_MAGIC : str := txt "SOSOTXN arranque".
Definition BOOTREC_FORMATO : N := 2.
Definition BOOTREC_SIZE : N := SLOT_SIZE * SLOTS.

(** The source's [Decision]; the constructors carry a [D] because the states
    of the transaction share their names. *)
Inductive Decision :=
| DIdle | DArmado | DProbando | DConfirmado | DRevertir | DRevertido | DRestauradoAPrueba | DRescatar.
#[export] Instance Decision_eq_dec : EqDecision Decision.
Proof. solve_decision. Defined.

Definition decision_str (d : Decision) : str :=
  match d with
  | DIdle => txt "idle" | DArmado => txt "armado" | DProbando => txt "probando"
  | DConfirmado => txt "confirmado" | DRevertir => txt "revertir" | DRevertido => txt "revertido"
  | DRescatar => txt "rescatar" | DRestauradoAPrueba => txt "restaurado-a-prueba"
  end.
Definition decision_parse (s : str) : option Decision :=
  literal s [(txt "idle", DIdle); (txt "armado", DArmado); (txt "probando", DProbando);
             (txt "confirmado", DConfirmado); (txt "revertir", DRevertir); (txt "revertido", DRevertido);
             (txt "rescatar", DRescatar); (txt "restaurado-a-prueba", DRestauradoAPrueba)].

Record BootRecord := mkBootRecord {
  b_decision : Decision;
  b_id : TxnId;
  b_seq : N;
  b_version_nueva : str;
  b_version_anterior : str;
  b_dir : str;
  b_punto : option TxnId;
  b_formato : N;
}.

Inductive BootRecError :=
| RegistroB (e : RecordError)
| IdInvalidoB
| DecisionInvalida.

Definition bootrec_nuevo (decision : Decision) (id : TxnId) (nueva anterior : str) (seq : N) : BootRecord :=
  mkBootRecord decision id seq nueva anterior (id_dir id) None BOOTREC_FORMATO.
Definition con_punto (punto : TxnId) (r : BootRecord) : BootRecord :=
  mkBootRecord (b_decision r) (b_id r) (b_seq r) (b_version_nueva r) (b_version_anterior r) (b_dir r) (Some punto) (b_formato r).

Definition cuerpo_bootrec (r : BootRecord) : str :=
  txt "decision=" ++ decision_str (b_decision r) ++ [LF]
  ++ txt "id=" ++ to_hex (b_id r) ++ [LF]
  ++ txt "version_nueva=" ++ b_version_nueva r ++ [LF]
  ++ txt "version_anterior=" ++ b_version_anterior r ++ [LF]
  ++ txt "dir=" ++ b_dir r ++ [LF]
  ++ match b_punto r with Some p => txt "punto=" ++ to_hex p ++ [LF] | None => [] end.

Definition bootrec_ranura (r : BootRecord) : N := ranura (b_seq r) SLOTS.

Definition bootrec_from_framed (f : Framed) : BootRecError + BootRecord :=
  idx ← map_err RegistroB (requerido f (txt "id"));
  id ← ok_or IdInvalidoB (from_hex idx);
  dec ← map_err RegistroB (requerido f (txt "decision"));
  decision ← ok_or DecisionInvalida (decision_parse dec);
  vn ← map_err RegistroB (requerido f (txt "version_nueva"));
  va ← map_err RegistroB (requerido f (txt "version_anterior"));
  mret (mkBootRecord decision id (f_seq f) vn va
          (default (id_dir id) (campo f (txt "dir")))
          (p ← campo f (txt "punto"); from_hex p)
          (f_formato f)).

Definition version_efectiva (r : BootRecord) : str :=
  match b_decision r with
  | DConfirmado | DProbando => b_version_nueva r
  | DRestauradoAPrueba => b_version_anterior r
  | _ => b_version_anterior r
  end.

Definition conoce_puntos (r : BootRecord) : bool := 2 <=? b_formato r.

(** [fichero.chunks(SLOT_SIZE).take(SLOTS)] *)
Definition ranuras (fichero : list byte) : list (list byte) :=
  take (N.to_nat SLOTS) (chunks (length fichero) (N.to_nat SLOT_SIZE) fichero).

Section Bootrec.
Context `{Crc32c}.

Definition bootrec_format (r : BootRecord) : BootRecError + list byte :=
  map_err RegistroB (frame_slot BOOTREC_MAGIC BOOTREC_FORMATO (b_seq r) (cuerpo_bootrec r) SLOT_SIZE).
Definition bootrec_parse (raw : list byte) : BootRecError + BootRecord :=
  f ← map_err RegistroB (parse BOOTREC_MAGIC BOOTREC_FORMATO raw);
  bootrec_from_framed f.
Definition bootrec_pick (fichero : list byte) : BootRecError + BootRecord :=
  xf ← map_err RegistroB (pick BOOTREC_MAGIC BOOTREC_FORMATO (ranuras fichero));
  bootrec_from_framed xf.2.
End Bootrec.

(** ** Reading back *)
Record bootrec_ok (r : BootRecord) : Prop := {
  br_id : id_ok (b_id r);
  br_seq : b_seq r < U64;
  br_vn : valor_ok (b_version_nueva r);
  br_va : valor_ok (b_version_anterior r);
  br_dir : valor_ok (b_dir r);
  br_punto : match b_punto r with Some p => id_ok p | None => True end;
  br_formato : b_formato r = BOOTREC_FORMATO;
}.

Definition renglones_bootrec (r : BootRecord) : list str :=
  [txt "decision=" ++ decision_str (b_decision r); txt "id=" ++ to_hex (b_id r);
   txt "version_nueva=" ++ b_version_nueva r; txt "version_anterior=" ++ b_version_anterior r; txt "dir=" ++ b_dir r]
  ++ match b_punto r with Some p => [txt "punto=" ++ to_hex p] | None => [] end.

Lemma cuerpo_bootrec_unlines r : cuerpo_bootrec r = unlines (renglones_bootrec r).
Proof.
  unfold cuerpo_bootrec, renglones_bootrec. rewrite unlines_app, !unlines_cons. change (unlines []) with (@nil byte).
  destruct (b_punto r) as [p|]; rewrite ?unlines_cons; change (unlines []) with (@nil byte); by junta.
Qed.

Lemma decision_visible d : Forall (fun b => visible b = true) (decision_str d).
Proof. destruct d; by repeat constructor. Qed.

Lemma decision_parse_str d : decision_parse (decision_str d) = Some d.
Proof. by destruct d. Qed.

Lemma renglones_bootrec_ok r : bootrec_ok r -> Forall linea_ok (renglones_bootrec r).
Proof.
  intros [_ _ Hvn Hva Hd _ _]. unfold renglones_bootrec. cbn [app].
  constructor; [apply (linea_clave "d" (txt "ecision")); [done|by repeat constructor|done|apply valor_visible, decision_visible]|].
  constructor; [apply (linea_clave "i" (txt "d")); [done|by repeat constructor|done|apply valor_visible, to_hex_visible]|].
  constructor; [apply (linea_clave "v" (txt "ersion_nueva")); [done|by repeat constructor|done|done]|].
  constructor; [apply (linea_clave "v" (txt "ersion_anterior")); [done|by repeat constructor|done|done]|].
  constructor; [apply (linea_clave "d" (txt "ir")); [done|by repeat constructor|done|done]|].
  destruct (b_punto r); [|constructor].
  constructor; [apply (linea_clave "p" (txt "unto")); [done|by repeat constructor|done|apply valor_visible, to_hex_visible]|constructor].
Qed.

Lemma bootrec_from_cuerpo r : bootrec_ok r ->
  bootrec_from_framed (mkFramed BOOTREC_FORMATO (b_seq r) (cuerpo_bootrec r)) = inr r.
Proof.
  intros Hr. pose proof (renglones_bootrec_ok _ Hr) as Hl. destruct Hr as [Hid _ _ _ _ Hp Hf]. unfold bootrec_from_framed, requerido.
  rewrite cuerpo_bootrec_unlines, !campo_cuerpo by done. unfold renglones_bootrec in *. cbn [app] in *.
  assert (forall l, campo_de (txt "id") ((txt "decision=" ++ decision_str (b_decision r)) :: l) = campo_de (txt "id") l) as Hs1.
  { intros l. apply Forall_cons in Hl as [? Hl]. by apply campo_sigue. }
  rewrite Hs1. repeat (apply Forall_cons in Hl as [? Hl]).
  repeat first [rewrite (campo_aqui (txt "id")) by done | rewrite (campo_aqui (txt "decision")) by done
    | rewrite (campo_aqui (txt "version_nueva")) by done | rewrite (campo_aqui (txt "version_anterior")) by done
    | rewrite (campo_aqui (txt "dir")) by done | rewrite campo_sigue by done].
  cbn [ok_or map_err mbind sum_bind from_option default option_bind]. unfold from_hex, to_hex. rewrite decode_hex_of by done.
  cbn [ok_or mbind sum_bind]. rewrite decision_parse_str. cbn [ok_or mbind sum_bind f_seq f_formato mret sum_ret].
  destruct (b_punto r) as [p|] eqn:Ep.
  - apply Forall_cons in Hl as [? _]. rewrite (campo_aqui (txt "punto")) by done. cbn [mbind option_bind].
    rewrite decode_hex_of by done. destruct r; simpl in *; by subst.
  - destruct r; simpl in *; by subst.
Qed.

Section BootrecFacts.
Context `{Crc32c}.

Lemma bootrec_magic : magic_ok BOOTREC_MAGIC.
Proof. split; [split; [set_solver|done]|done|set_solver|done|done]. Qed.

Lemma bootrec_ida_y_vuelta r raw : bootrec_ok r -> bootrec_format r = inr raw ->
  lenN raw = SLOT_SIZE ∧ bootrec_parse raw = inr r.
Proof.
  intros Hr Hf. unfold bootrec_format in Hf. rewrite cuerpo_bootrec_unlines in Hf.
  destruct (frame_slot _ _ _ _ _) as [e|raw'] eqn:Es; [done|]. injection Hf as ->.
  apply (parse_frame_slot _ BOOTREC_FORMATO) in Es as [Hlen Hp]; [|apply bootrec_magic|by apply renglones_bootrec_ok|done|done|by destruct Hr].
  split; [done|]. unfold bootrec_parse. rewrite Hp. cbn [map_err mbind sum_bind]. rewrite <- cuerpo_bootrec_unlines.
  by apply bootrec_from_cuerpo.
Qed.
End BootrecFacts.
