(* ===== verification/OtaReconcile.v ===== *)
(** * Update: what to do at boot

    [crates/soso-update-core/src/txn/reconcile.rs] decides one action for any
    pair of boot record and journal a power cut may leave;
    [crates/soso-update-core/src/txn/rescate.rs] decides what a rescue request
    publishes. The system never boots straight into a mixture. *)
From S2P Require Import Prelude Texto OtaHash OtaRecord OtaTxn OtaJournal OtaBootrec.
Local Open Scope N_scope.

Inductive EstadoEsp := EspAusente | EspRoto | EspRegistro (r : BootRecord).
Inductive EstadoJournal := JAusente | JRoto | JDiario (j : Journal).

Inductive Motivo :=
| ArmadoSinDiario | MedioSinDecision | IdDiscordante | ParejaImposible
| RegistrosRotos | RestauradoNoArranca | RescateSinPunto.

Inductive Recuperacion :=
| RNormal
| RDescartar (id : TxnId)
| RRetrocederAPreparado (id : TxnId)
| RAplicar (id : TxnId)
| RPublicarProbando (id : TxnId)
| RRevertir (id : TxnId)
| RCompletarConfirmacion (id : TxnId)
| RCompletarReversion (id : TxnId)
| RRescatar (punto : TxnId)
| RDiagnostico (m : Motivo).

Definition arranca_directo (a : Recuperacion) : bool :=
  match a with RNormal | RDescartar _ => true | _ => false end.
Definition accion_id (a : Recuperacion) : option TxnId :=
  match a with
  | RDescartar i | RRetrocederAPreparado i | RAplicar i | RPublicarProbando i | RRevertir i
  | RCompletarConfirmacion i | RCompletarReversion i | RRescatar i => Some i
  | _ => None
  end.

(** With no boot record the journal decides. *)
Definition sin_registro (journal : EstadoJournal) : Recuperacion :=
  match journal with
  | JAusente | JRoto => RNormal
  | JDiario j =>
      match j_estado j with
      | Descargando | Preparado | Descartado => RDescartar (j_id j)
      | Armado => RRetrocederAPreparado (j_id j)
      | Aplicando | Probando | Revirtiendo => RRevertir (j_id j)
      | Confirmado => RCompletarConfirmacion (j_id j)
      | Revertido => RNormal
      end
  end.

Definition registro_roto (journal : EstadoJournal) : Recuperacion :=
  match journal with
  | JAusente => RNormal
  | JRoto => RDiagnostico RegistrosRotos
  | JDiario j =>
      if sistema_intacto (j_estado j) then RDescartar (j_id j)
      else if bool_decide (j_estado j = Revertido) then RCompletarReversion (j_id j)
      else RDiagnostico MedioSinDecision
  end.

Definition con_registro (r : BootRecord) (diario : option Journal) : Recuperacion :=
  match b_decision r, diario with
  | DIdle, None => RNormal
  | DIdle, Some j =>
      if sistema_intacto (j_estado j) then RDescartar (j_id j)
      else if bool_decide (j_estado j = Confirmado) then RCompletarConfirmacion (j_id j)
      else if bool_decide (j_estado j = Revertido) then RNormal
      else RRevertir (j_id j)
  | DArmado, None => RDiagnostico ArmadoSinDiario
  | DArmado, Some j =>
      match j_estado j with
      | Preparado | Armado | Aplicando => RAplicar (j_id j)
      | Probando => RPublicarProbando (j_id j)
      | Revirtiendo => RRevertir (j_id j)
      | Revertido => RCompletarReversion (j_id j)
      | Descargando | Descartado | Confirmado => RDiagnostico ParejaImposible
      end
  | DProbando, None => RDiagnostico ArmadoSinDiario
  | DProbando, Some j =>
      match j_estado j with
      | Confirmado => RCompletarConfirmacion (j_id j)
      | Aplicando | Probando | Revirtiendo => RRevertir (j_id j)
      | Revertido => RCompletarReversion (j_id j)
      | _ => RDiagnostico ParejaImposible
      end
  | DConfirmado, None => RNormal
  | DConfirmado, Some j =>
      match j_estado j with
      | Confirmado => RNormal
      | Probando => RCompletarConfirmacion (j_id j)
      | Revirtiendo => RRevertir (j_id j)
      | Revertido => RCompletarReversion (j_id j)
      | _ => RDiagnostico ParejaImposible
      end
  | DRevertir, None => RDiagnostico ArmadoSinDiario
  | DRevertir, Some j =>
      match j_estado j with
      | Armado | Aplicando | Probando | Confirmado | Revirtiendo => RRevertir (j_id j)
      | Revertido => RCompletarReversion (j_id j)
      | Preparado | Descargando | Descartado => RDescartar (j_id j)
      end
  | DRestauradoAPrueba, _ => RDiagnostico RestauradoNoArranca
  | DRescatar, _ => match b_punto r with Some p => RRescatar p | None => RDiagnostico RescateSinPunto end
  | DRevertido, None => RNormal
  | DRevertido, Some j =>
      match j_estado j with
      | Revertido | Descartado => RNormal
      | Revirtiendo => RRevertir (j_id j)
      | _ => RDiagnostico ParejaImposible
      end
  end.

Definition reconcile (esp : EstadoEsp) (journal : EstadoJournal) : Recuperacion :=
  let diario := match journal with JDiario j => Some j | _ => None end in
  match esp with
  | EspAusente => sin_registro journal
  | EspRoto => registro_roto journal
  | EspRegistro r =>
      if match diario with Some j => negb (bool_decide (j_id j = b_id r)) | None => false end
      then RDiagnostico IdDiscordante
      else con_registro r diario
  end.

Definition release_tras (esp : EstadoEsp) (accion : Recuperacion) : option str :=
  match esp with
  | EspRegistro r =>
      match accion with
      | RNormal | RCompletarConfirmacion _ => Some (version_efectiva r)
      | RRevertir _ | RCompletarReversion _ => Some (b_version_anterior r)
      | _ => None
      end
  | _ => None
  end.

(** ** Rescue *)
Definition SENAL : str := txt "rescatar".

(** [split] at white space and zeros; white space beyond ASCII separates
    characters of several bytes. *)
Fixpoint tokens (fuel : nat) (actual : str) (l : str) : list str :=
  match fuel with
  | O => [actual]
  | S fuel =>
      match l with
      | [] => [actual]
      | b :: r =>
          if Byte.eqb b x00 then actual :: tokens fuel [] r
          else match ws_head l with
               | Some r' => actual :: tokens fuel [] r'
               | None => tokens fuel (actual ++ [b]) r
               end
      end
  end.
Definition es_senal (texto : str) : bool :=
  existsb (fun t => eq_ignore_ascii_case t SENAL) (tokens (S (length texto)) [] texto).

Inductive Sin := FormatoAntiguo | SinPunto | YaRestaurado (version : str).
Inductive Plan :=
| Pedir (registro : BootRecord) (desde_version hasta : str)
| YaPedido (hasta : str)
| PlanNo (s : Sin).

(** [rec.seq + 1] on a [u64]. *)
Definition planear (rec : BootRecord) : M unit unit Plan :=
  if negb (conoce_puntos rec) then mret (PlanNo FormatoAntiguo)
  else
    match b_punto rec with
    | None => mret (PlanNo SinPunto)
    | Some punto =>
        if bool_decide (b_decision rec = DRescatar) then mret (YaPedido (b_version_anterior rec))
        else if bool_decide (b_decision rec = DRevertido) || bool_decide (b_decision rec = DRestauradoAPrueba)
        then mret (PlanNo (YaRestaurado (version_efectiva rec)))
        else
          let desde_version := version_efectiva rec in
          n ← add64 (b_seq rec) 1;
          let registro := con_punto punto (bootrec_nuevo DRescatar (b_id rec) desde_version (b_version_anterior rec) n) in
          mret (Pedir registro desde_version (b_version_anterior rec))
    end.

(** [true] when the journal changed and has to be written again. *)
Definition es_ok {S E A} (m : M S E A) : M S E bool := r ← attempt m; mret (match r with inr _ => true | inl _ => false end).
Definition cerrar_diario : M Journal TransicionInvalida bool :=
  j ← gets id;
  match j_estado j with
  | Revertido | Descartado => mret false
  | Descargando | Preparado => es_ok (avanzar Abortada)
  | _ =>
      cambio ← es_ok (avanzar ReversionSolicitada);
      j ← gets id;
      if bool_decide (j_estado j = Revirtiendo)
      then c ← es_ok (avanzar ReversionCompleta); mret (cambio || c)
      else mret cambio
  end.

(** ** Facts *)

(** Booting straight on means the root holds one version entire: either
    nothing was ever written over it, or the operation was confirmed, or it
    was undone to the end. *)
Lemma directo_sin_mezcla esp j : arranca_directo (reconcile esp (JDiario j)) = true ->
  sistema_intacto (j_estado j) = true ∨ j_estado j = Confirmado ∨ j_estado j = Revertido.
Proof.
  unfold reconcile. destruct esp as [| |r].
  - unfold sin_registro. destruct (j_estado j); cbn; auto.
  - unfold registro_roto. destruct (j_estado j); cbn; auto; discriminate.
  - case_bool_decide; cbn [negb]; [|discriminate]. unfold con_registro.
    destruct (b_decision r), (j_estado j); cbn; auto; try discriminate; destruct (b_punto r); discriminate.
Qed.

(** The version announced after a normal boot is the one on disk. *)
Lemma normal_version r j : reconcile (EspRegistro r) (JDiario j) = RNormal ->
  release_tras (EspRegistro r) RNormal = Some (if bool_decide (j_estado j = Confirmado) then b_version_nueva r else b_version_anterior r).
Proof.
  unfold reconcile. case_bool_decide; cbn [negb]; [|discriminate]. unfold con_registro, release_tras, version_efectiva.
  destruct (b_decision r), (j_estado j); cbn; try discriminate; try done; destruct (b_punto r); discriminate.
Qed.

(** An action names the operation of both records, or the retained point of
    the boot record. *)
Lemma accion_de_la_operacion r jr a i : reconcile (EspRegistro r) jr = a -> accion_id a = Some i ->
  (exists j, jr = JDiario j ∧ i = j_id j ∧ i = b_id r) ∨ (a = RRescatar i ∧ b_decision r = DRescatar ∧ b_punto r = Some i).
Proof.
  intros <-. unfold reconcile. destruct jr as [| |j].
  3: case_bool_decide as He; cbn [negb]; [|discriminate].
  all: unfold con_registro; destruct (b_decision r); try discriminate;
    try (destruct (b_punto r); [|discriminate]; intros [= ->]; right; auto).
  all: destruct (j_estado j); cbn; try discriminate; intros [= <-]; left; exists j; auto.
Qed.

(** New files are written only for an operation the boot record arms. *)
Lemma aplicar_solo_armado esp jr i : reconcile esp jr = RAplicar i ->
  exists r j, esp = EspRegistro r ∧ jr = JDiario j ∧ b_decision r = DArmado ∧ b_id r = i ∧ j_id j = i ∧
    (j_estado j = Preparado ∨ j_estado j = Armado ∨ j_estado j = Aplicando).
Proof.
  unfold reconcile. destruct esp as [| |r].
  - destruct jr as [| |j]; cbn; try discriminate. destruct (j_estado j); discriminate.
  - destruct jr as [| |j]; cbn; try discriminate. destruct (j_estado j); discriminate.
  - destruct jr as [| |j]; [..|case_bool_decide as He; cbn [negb]; [|discriminate]];
      unfold con_registro; destruct (b_decision r) eqn:Ed; try discriminate; try (destruct (b_punto r); discriminate);
      destruct (j_estado j) eqn:Ee; cbn; try discriminate; intros [= <-]; exists r, j; rewrite <- He; auto 10.
Qed.

(** A journal in the middle of writing is never passed over: it is carried
    on, undone, rescued, or the boot stops for a diagnosis. *)
Lemma mezcla_atendida esp j : mezcla_posible (j_estado j) = true ->
  match reconcile esp (JDiario j) with
  | RAplicar _ | RRevertir _ | RRescatar _ | RDiagnostico _ => True
  | _ => False
  end.
Proof.
  unfold reconcile. intros Hm. destruct esp as [| |r].
  - unfold sin_registro. by destruct (j_estado j).
  - unfold registro_roto. by destruct (j_estado j).
  - case_bool_decide; cbn [negb]; [|done]. unfold con_registro. destruct (b_decision r); try (by destruct (b_punto r));
      by destruct (j_estado j).
Qed.

(** Closing the journal of a rescued operation leaves it closed: undone if
    it had been armed, discarded if not. *)
Lemma es_ok_avanzar ev s' j : next (j_estado j) ev = inr s' -> j_seq j + 1 < U64 ->
  es_ok (avanzar ev) j = (Ok true, set_seq (j_seq j + 1) (set_estado s' j)).
Proof. intros Hn Hs. unfold es_ok, attempt. rewrite bind_eq. by rewrite (avanzar_ok _ s'). Qed.

Lemma cerrar_diario_cierra j : j_seq j + 2 < U64 ->
  exists c j', cerrar_diario j = (Ok c, j') ∧
    j_estado j' = (if bool_decide (fase (j_estado j) < 2) || bool_decide (j_estado j = Descartado) then Descartado else Revertido) ∧
    c = negb (bool_decide (j_estado j = Revertido) || bool_decide (j_estado j = Descartado)) ∧ j_entradas j' = j_entradas j.
Proof.
  intros Hs. unfold cerrar_diario. rewrite bind_eq. cbn [gets]. unfold id.
  destruct (j_estado j) eqn:Ee.
  1-2: eexists _, _; split; [apply (es_ok_avanzar _ Descartado); [by rewrite Ee|lia]|done].
  6-7: eexists _, _; split; [done|]; by rewrite Ee.
  all: rewrite bind_eq.
  1: rewrite (es_ok_avanzar _ Revertido); [|by rewrite Ee|lia].
  2-5: rewrite (es_ok_avanzar _ Revirtiendo); [|by rewrite Ee|lia].
  all: rewrite bind_eq; cbn [gets set_seq set_estado j_estado]; unfold id; cbn [j_estado].
  1: eexists _, _; done.
  all: rewrite bool_decide_eq_true_2 by done; rewrite bind_eq; rewrite (es_ok_avanzar _ Revertido); [|done|cbn; lia]; eexists _, _; done.
Qed.

(** What a rescue publishes reads back as a request for the same point, in
    the next turn. *)
Lemma planear_pide rec plan registro d h u u' : planear rec u = (Ok plan, u') -> plan = Pedir registro d h ->
  b_decision registro = DRescatar ∧ b_seq registro = b_seq rec + 1 ∧ b_id registro = b_id rec ∧
  (exists p, b_punto rec = Some p ∧ reconcile (EspRegistro registro) JAusente = RRescatar p) ∧
  b_version_anterior registro = b_version_anterior rec ∧ d = version_efectiva rec ∧
  conoce_puntos rec = true ∧ (b_decision rec ∉ [DRescatar; DRevertido; DRestauradoAPrueba]).
Proof.
  unfold planear. intros Hp ->. destruct (conoce_puntos rec); [|done]. cbn [negb] in Hp.
  destruct (b_punto rec) as [p|]; [|done].
  case_bool_decide as H1; [done|]. case_bool_decide as H2; [done|]. case_bool_decide as H3; [done|]. cbn [orb] in Hp.
  apply bind_Ok_inv in Hp as (n & s1 & Hn & Hr). apply add64_inv in Hn as [-> _]. injection Hr as <- <- <- <-.
  do 3 (split; [done|]). split; [by exists p|]. do 3 (split; [done|]). set_solver.
Qed.
