(* ===== verification/OtaAplicador.v ===== *)
(** * Update: applying and undoing

    [crates/soso-update-core/src/txn/aplicador.rs]. The [Sistema] trait is a
    class of operations; [SistemaSpec] is what it promises, and what it may
    leave behind when an operation fails or the power goes: the file being
    written may hold anything, the journal being saved is the old one or the
    new one. Whatever the cuts, once [aplicar] returns the new version is
    there entire, and once [revertir] returns, the previous one. *)
From S2P Require Import Prelude Texto OtaHash OtaRecord OtaTxn OtaJournal.
Local Open Scope N_scope.

Inductive De := DePreparado | DeRespaldo.
#[export] Instance De_eq_dec : EqDecision De.
Proof. solve_decision. Defined.

Class Sistema (S : Type) := {
  leer : De -> str -> S -> option (list byte) * S;
  escribir : str -> list byte -> M S unit unit;
  borrar : str -> M S unit unit;
  guardar_diario : Journal -> M S unit unit;
}.

Inductive Fallo :=
| FaltaPreparado (ruta : str)
| FaltaRespaldo (ruta : str)
| HashDistinto (ruta : str)
| Escritura (ruta : str)
| Borrado (ruta : str)
| Diario.

Section Aplicador.
Context {S : Type} `{Sistema S} `{Sha256}.

Definition leyendo {E} (de : De) (ruta : str) : M S E (option (list byte)) := fun s => let '(o, s) := leer de ruta s in (Ok o, s).
Definition con_error {A} (e : Fallo) (m : M S unit A) : M S Fallo A := zoom id (fun s _ => s) (fun _ => e) m.

(** The journal in memory and the system. *)
Abbreviation P := (M (Journal * S) Fallo).
Definition en_sistema {A} (m : M S Fallo A) : P A := zoom snd (fun s js => (js.1, s)) id m.
Definition en_diario {A} (m : M Journal TransicionInvalida A) : P A := zoom fst (fun j js => (j, js.2)) (fun _ => Diario) m.

Definition guardar : P unit := j ← gets fst; en_sistema (con_error Diario (guardar_diario j)).
Definition subir_seq : P unit :=
  j ← gets fst;
  n ← add64 (j_seq j) 1;
  modify (fun js => (set_seq n js.1, js.2)).
Definition entrada (i : nat) : P Entrada := j ← gets fst; of_option panic (j_entradas j !! i).
Definition marcar_entrada (i : nat) (p : Progreso) : P unit :=
  modify (fun js => (set_entradas (alter (set_progreso p) i (j_entradas js.1)) js.1, js.2)).

(** The content matches what the journal declares. *)
Definition cuadra (datos : list byte) (c : Contenido) : bool :=
  (lenN datos =? c_size c) && bool_decide (hex_sha256 datos = c_hash c).

Definition escribir_nuevo (e : Entrada) : M S Fallo unit :=
  nuevo ← of_option (throw (FaltaPreparado (e_path e))) (e_nuevo e);
  o ← leyendo DePreparado (e_path e);
  datos ← of_option (throw (FaltaPreparado (e_path e))) o;
  if negb (cuadra datos nuevo) then throw (HashDistinto (e_path e))
  else con_error (Escritura (e_path e)) (escribir (e_path e) datos).

Definition paso_aplicar (i : nat) : P unit :=
  e ← entrada i;
  en_sistema (match e_accion e with
              | Crear | Reemplazar => escribir_nuevo e
              | Borrar => con_error (Borrado (e_path e)) (borrar (e_path e))
              end);;
  marcar_entrada i Aplicado.

Definition aplicar_entrada (i : nat) : P unit :=
  e ← entrada i;
  if bool_decide (e_progreso e = Aplicado) then mret tt
  else paso_aplicar i;; subir_seq;; guardar.

Definition aplicar : P unit :=
  j ← gets fst;
  if bool_decide (j_estado j = Probando) || bool_decide (j_estado j = Confirmado) then mret tt
  else
    (if bool_decide (j_estado j = Aplicando) then mret tt
     else _ ← attempt (en_diario (avanzar AplicacionIniciada)); guardar);;
    mfor aplicar_entrada (seq 0 (length (j_entradas j)));;
    j ← gets fst;
    if bool_decide (j_estado j = Probando) then mret tt
    else en_diario (avanzar AplicacionCompleta);; guardar.

(** ** Undoing *)
Definition leer_respaldo (e : Entrada) : M S Fallo (list byte) :=
  resp ← of_option (throw (FaltaRespaldo (e_path e))) (e_respaldo e);
  o ← leyendo DeRespaldo (e_path e);
  datos ← of_option (throw (FaltaRespaldo (e_path e))) o;
  if negb (cuadra datos resp) then throw (HashDistinto (e_path e)) else mret datos.

Definition restaurar_una (e : Entrada) : M S Fallo unit :=
  match e_accion e with
  | Crear => con_error (Borrado (e_path e)) (borrar (e_path e))
  | Reemplazar | Borrar =>
      datos ← leer_respaldo e;
      con_error (Escritura (e_path e)) (escribir (e_path e) datos)
  end.

Definition restaurar (entradas : list Entrada) : M S Fallo unit := mfor restaurar_una entradas.

Definition paso_revertir (i : nat) : P unit :=
  e ← entrada i;
  en_sistema (restaurar_una e);;
  marcar_entrada i Restaurado.

Definition revertir_entrada (i : nat) : P unit :=
  e ← entrada i;
  if bool_decide (e_progreso e = Restaurado) then mret tt
  else paso_revertir i;; subir_seq;; guardar.

Definition revertir : P unit :=
  j ← gets fst;
  if bool_decide (j_estado j = Revertido) then mret tt
  else
    (if bool_decide (j_estado j = Revirtiendo) then mret tt
     else _ ← attempt (en_diario (avanzar ReversionSolicitada)); guardar);;
    mfor revertir_entrada (seq 0 (length (j_entradas j)));;
    j ← gets fst;
    if bool_decide (j_estado j = Revertido) then mret tt
    else en_diario (avanzar ReversionCompleta);; guardar.

(** Every entry that needs a backup has one that can be read whole. *)
Definition comprobar_respaldo (e : Entrada) : M S Fallo unit :=
  if negb (exige_respaldo (e_accion e)) then mret tt else _ ← leer_respaldo e; mret tt.
Definition se_puede_deshacer (j : Journal) : M S Fallo unit := mfor comprobar_respaldo (j_entradas j).
End Aplicador.

(** ** What a system promises *)

(** The journals saved after one: another state, or one more entry marked. *)
Inductive siguiente (j : Journal) : Journal -> Prop :=
| sig_estado st : j_seq j + 1 < U64 -> siguiente j (set_seq (j_seq j + 1) (set_estado st j))
| sig_entrada i p : j_seq j + 1 < U64 -> siguiente j (set_seq (j_seq j + 1) (set_entradas (alter (set_progreso p) i (j_entradas j)) j)).

Class SistemaSpec (S : Type) `{Sistema S} := {
  (** An operation may fail, or the power go in the middle of it. *)
  puede_fallar : Prop;
  activo : S -> str -> option (list byte);
  copia : S -> De -> str -> option (list byte);
  durable : S -> Journal;
  (** The paths an operation may be about. *)
  activa : str -> Prop;
  (** The saved journal is whole and another can follow it. *)
  sano : S -> Prop;
  leer_spec d p s : sano s -> let '(o, s') := leer d p s in
    sano s' ∧ (o = copia s d p ∨ (puede_fallar ∧ o = None)) ∧ activo s' = activo s ∧ copia s' = copia s ∧ durable s' = durable s;
  escribir_spec p datos s : sano s -> activa p -> let '(r, s') := escribir p datos s in
    sano s' ∧ copia s' = copia s ∧ durable s' = durable s ∧ (forall q, q ≠ p -> activo s' q = activo s q) ∧
    match r with Ok _ => activo s' p = Some datos | _ => puede_fallar end;
  borrar_spec p s : sano s -> activa p -> let '(r, s') := borrar p s in
    sano s' ∧ copia s' = copia s ∧ durable s' = durable s ∧ (forall q, q ≠ p -> activo s' q = activo s q) ∧
    match r with Ok _ => activo s' p = None | _ => puede_fallar end;
  guardar_spec j s : sano s -> siguiente (durable s) j -> let '(r, s') := guardar_diario j s in
    sano s' ∧ copia s' = copia s ∧ activo s' = activo s ∧
    match r with Ok _ => durable s' = j | _ => puede_fallar ∧ (durable s' = j ∨ durable s' = durable s) end;
}.
