(* ===== verification/OtaCortes.v ===== *)
(** * Update: any cut leaves a whole pair

    The runs of [aplicar] and [revertir] over any system that keeps
    [SistemaSpec], interrupted anywhere and taken up again from the journal
    that survived: the frame, what each durable state says of the files, and
    what is there when a run ends. *)
From S2P Require Import Prelude Texto OtaHash OtaRecord OtaTxn OtaJournal OtaAplicador.
Local Open Scope N_scope.
#[local] Set Default Proof Using "Type*".

Abbreviation Contenidos := (str -> option (list byte)).

(** The content an entry leaves, and the one it had. *)
Definition objetivo (C : De -> Contenidos) (e : Entrada) : option (list byte) :=
  match e_accion e with Borrar => None | _ => C DePreparado (e_path e) end.
Definition previo (C : De -> Contenidos) (e : Entrada) : option (list byte) :=
  match e_accion e with Crear => None | _ => C DeRespaldo (e_path e) end.

Definition sin_progreso (es : list Entrada) : list Entrada := set_progreso Pendiente <$> es.

Section Operacion.
Context {S : Type} `{SS : SistemaSpec S} `{Sha256}.

(** An operation that was prepared: every path once, every content in its
    place with the size and hash the journal declares. *)
Record operacion (C : De -> Contenidos) (es : list Entrada) : Prop := {
  op_nodup : NoDup (e_path <$> es);
  op_rutas e : e ∈ es -> activa (e_path e);
  op_nuevo e : e ∈ es -> e_accion e ≠ Borrar ->
    exists c x, e_nuevo e = Some c ∧ C DePreparado (e_path e) = Some x ∧ cuadra x c = true;
  op_respaldo e : e ∈ es -> e_accion e ≠ Crear ->
    exists c x, e_respaldo e = Some c ∧ C DeRespaldo (e_path e) = Some x ∧ cuadra x c = true;
}.

Lemma sin_progreso_elem es e : e ∈ es -> set_progreso Pendiente e ∈ sin_progreso es.
Proof. intros He. apply list_elem_of_fmap. by exists e. Qed.

Lemma operacion_de C es e : operacion C (sin_progreso es) -> e ∈ es ->
  activa (e_path e) ∧
  (e_accion e ≠ Borrar -> exists c x, e_nuevo e = Some c ∧ C DePreparado (e_path e) = Some x ∧ cuadra x c = true) ∧
  (e_accion e ≠ Crear -> exists c x, e_respaldo e = Some c ∧ C DeRespaldo (e_path e) = Some x ∧ cuadra x c = true).
Proof.
  intros [_ Ha Hn Hr] He%sin_progreso_elem. split; [exact (Ha _ He)|]. split; intros Hx; [apply (Hn _ He Hx)|apply (Hr _ He Hx)].
Qed.

Lemma sin_progreso_paths es : e_path <$> sin_progreso es = e_path <$> es.
Proof. unfold sin_progreso. rewrite <- list_fmap_compose. by apply list_fmap_ext. Qed.

Lemma sin_progreso_alter es i p : sin_progreso (alter (set_progreso p) i es) = sin_progreso es.
Proof.
  unfold sin_progreso. apply list_eq. intros k. rewrite !list_lookup_fmap. destruct (decide (k = i)) as [->|Hk].
  - rewrite list_lookup_alter_eq. by destruct (es !! i).
  - by rewrite list_lookup_alter_ne.
Qed.

Lemma mismo_path es i k e e' : NoDup (e_path <$> es) -> es !! i = Some e -> es !! k = Some e' -> e_path e = e_path e' -> i = k.
Proof.
  intros Hnd Hi Hk He. eapply NoDup_lookup; [exact Hnd|..]; rewrite list_lookup_fmap; [by rewrite Hi|]. rewrite Hk. cbn. by rewrite He.
Qed.
End Operacion.

(** ** Runs that may be cut *)
Section Corre.
Context {S : Type} `{SS : SistemaSpec S}.
Implicit Types (js : Journal * S).

(** Whatever the outcome, [D] holds of the system left behind; the run stops
    short only if something failed. *)
Definition corre {A E} (D : S -> Prop) (m : M (Journal * S) E A) js (Φ : A -> Journal * S -> Prop) : Prop :=
  let '(r, js') := m js in D js'.2 ∧ match r with Ok a => Φ a js' | _ => puede_fallar end.

Lemma corre_bind {A B E} D (m : M (Journal * S) E A) (f : A -> M (Journal * S) E B) js Φ :
  corre D m js (fun a js1 => corre D (f a) js1 Φ) -> corre D (m ≫= f) js Φ.
Proof. unfold corre. rewrite bind_eq. destruct (m js) as [[a|e| |] js1]; cbn; [|done|done|done]. by intros [_ ?]. Qed.

Lemma corre_ret {A E} D (a : A) js Φ : D js.2 -> Φ a js -> corre D (mret a : M (Journal * S) E A) js Φ.
Proof. by intros. Qed.

Lemma corre_gets {A E} D (f : Journal * S -> A) js Φ : D js.2 -> Φ (f js) js -> corre (E := E) D (gets f) js Φ.
Proof. by intros. Qed.

Lemma corre_modify {E} D (f : Journal * S -> Journal * S) js Φ : D (f js).2 -> Φ tt (f js) -> corre (E := E) D (modify f) js Φ.
Proof. by intros. Qed.

Lemma corre_mono {A E} D (m : M (Journal * S) E A) js Φ Ψ : corre D m js Φ -> (forall a js', D js'.2 -> Φ a js' -> Ψ a js') -> corre D m js Ψ.
Proof. unfold corre. destruct (m js) as [[a|e| |] js1]; intros [? ?] Hw; auto. Qed.

Lemma corre_mfor {A E} D (f : A -> M (Journal * S) E unit) (L : nat -> Journal * S -> Prop) l n js Φ :
  (forall i x js, l !! i = Some x -> L (n + i)%nat js -> corre D (f x) js (fun _ => L (n + Datatypes.S i)%nat)) ->
  D js.2 -> L n js -> (forall js', D js'.2 -> L (n + length l)%nat js' -> Φ tt js') -> corre D (mfor f l) js Φ.
Proof.
  revert n js. induction l as [|x l IH]; intros n js Hf HD HL HΦ; cbn [mfor].
  - apply corre_ret; [done|]. apply HΦ; [done|]. by rewrite Nat.add_0_r.
  - apply corre_bind. refine (corre_mono _ _ _ _ _ (Hf 0%nat x js _ _) _); [done|by rewrite Nat.add_0_r|]. intros u js1 HD1 HL1. cbn beta.
    apply (IH (n + 1)%nat); [|done|done|].
    + intros i y js2 Hi HL2. replace (n + 1 + i)%nat with (n + Datatypes.S i)%nat in * by lia.
      replace (n + 1 + Datatypes.S i)%nat with (n + Datatypes.S (Datatypes.S i))%nat by lia. by apply Hf.
    + intros js2 HD2 HL2. apply HΦ; [done|]. cbn [length]. by replace (n + Datatypes.S (length l))%nat with (n + 1 + length l)%nat by lia.
Qed.

Lemma corre_add64 {E} D a b js Φ : a + b < U64 -> D js.2 -> Φ (a + b) js -> corre (E := E) D (add64 a b) js Φ.
Proof. intros Hl HD HΦ. unfold corre, add64. by rewrite (proj2 (N.ltb_lt _ _) Hl). Qed.

Lemma corre_guardar (D : S -> Prop) js (Φ : unit -> Journal * S -> Prop) : sano js.2 -> siguiente (durable js.2) js.1 ->
  (forall s', sano s' -> copia s' = copia js.2 -> activo s' = activo js.2 -> durable s' = js.1 ∨ durable s' = durable js.2 -> D s') ->
  (forall s', sano s' -> copia s' = copia js.2 -> activo s' = activo js.2 -> durable s' = js.1 -> Φ tt (js.1, s')) ->
  corre D guardar js Φ.
Proof.
  intros Hsa Hsi HD HΦ. unfold guardar. unfold corre. rewrite bind_eq. cbn [gets]. unfold en_sistema, con_error, zoom, id.
  pose proof (guardar_spec js.1 js.2 Hsa Hsi) as Hs. destruct (guardar_diario js.1 js.2) as [r s'].
  destruct Hs as (Hn & Hc & Ha & Hr). destruct r as [[]|e| |]; cbn.
  1: split; [apply HD; auto|by apply HΦ].
  all: destruct Hr as [? ?]; split; [by apply HD|done].
Qed.

(** A step that may change one file, and leaves [v] there if it ends; the
    copies it reads are [C]. *)
Definition toca (C : De -> Contenidos) (m : M S Fallo unit) (p : str) (v : option (list byte)) : Prop :=
  forall s, sano s -> copia s = C -> let '(r, s') := m s in
    sano s' ∧ copia s' = copia s ∧ durable s' = durable s ∧ (forall q, q ≠ p -> activo s' q = activo s q) ∧
    match r with Ok _ => activo s' p = v | _ => puede_fallar end.

Lemma corre_toca (D : S -> Prop) C m p v js (Φ : unit -> Journal * S -> Prop) : toca C m p v -> sano js.2 -> copia js.2 = C ->
  (forall s', sano s' -> copia s' = copia js.2 -> durable s' = durable js.2 -> (forall q, q ≠ p -> activo s' q = activo js.2 q) -> D s') ->
  (forall s', sano s' -> copia s' = copia js.2 -> durable s' = durable js.2 -> (forall q, q ≠ p -> activo s' q = activo js.2 q) ->
     activo s' p = v -> Φ tt (js.1, s')) ->
  corre D (en_sistema m) js Φ.
Proof.
  intros Ht Hsa HC HD HΦ. specialize (Ht js.2 Hsa HC). unfold corre, en_sistema, zoom, id. destruct (m js.2) as [r s'].
  destruct Ht as (Hn & Hc & Hd & Hf & Hr). cbn. split; [by apply HD|]. destruct r as [[]|e| |]; [by apply HΦ|done..].
Qed.

Lemma toca_escribir C p x : activa p -> toca C (con_error (Escritura p) (escribir p x)) p (Some x).
Proof.
  intros Hp s Hs _. unfold con_error, zoom, id. pose proof (escribir_spec p x s Hs Hp) as H1. destruct (escribir p x s) as [[[]|e| |] s']; done.
Qed.
Lemma toca_borrar C p : activa p -> toca C (con_error (Borrado p) (borrar p)) p None.
Proof.
  intros Hp s Hs _. unfold con_error, zoom, id. pose proof (borrar_spec p s Hs Hp) as H1. destruct (borrar p s) as [[[]|e| |] s']; done.
Qed.
Lemma toca_throw C e p v : puede_fallar -> toca C (throw e) p v.
Proof. by intros Hf s Hs _. Qed.

(** Reading first. *)
Lemma toca_leyendo C d p v (f : option (list byte) -> M S Fallo unit) x :
  C d p = Some x -> toca C (f (Some x)) p v -> (puede_fallar -> toca C (f None) p v) -> toca C (o ← leyendo d p; f o) p v.
Proof.
  intros Hx Hs Hn s Hsa Hc. rewrite bind_eq. unfold leyendo. pose proof (leer_spec d p s Hsa) as Hl. destruct (leer d p s) as [o s1].
  destruct Hl as (Hsa1 & Ho & Ha & Hcp & Hd).
  assert (toca C (f o) p v) as Ht. { destruct Ho as [->|[Hf ->]]; [|by apply Hn]. by rewrite Hc, Hx. }
  specialize (Ht s1 Hsa1 ltac:(congruence)). destruct (f o s1) as [r s']. destruct Ht as (T0 & T1 & T2 & T3 & T4).
  split; [done|]. split; [congruence|]. split; [congruence|]. split; [intros q Hq; rewrite T3 by done; by rewrite Ha|done].
Qed.

Context `{Sha256}.

Lemma toca_escribir_nuevo C e c x : activa (e_path e) -> e_nuevo e = Some c -> C DePreparado (e_path e) = Some x -> cuadra x c = true ->
  toca C (escribir_nuevo e) (e_path e) (Some x).
Proof.
  intros Hp Hc Hx Hcu. unfold escribir_nuevo. rewrite Hc. cbn [of_option].
  apply (toca_leyendo C DePreparado (e_path e) (Some x) (fun o => datos ← of_option (throw (FaltaPreparado (e_path e))) o;
    if negb (cuadra datos c) then throw (HashDistinto (e_path e)) else con_error (Escritura (e_path e)) (escribir (e_path e) datos)) x Hx).
  - cbn [of_option]. unfold mbind, M_bind, mret, M_ret. rewrite Hcu. by apply toca_escribir.
  - intros Hf. by apply (toca_throw C).
Qed.

Lemma toca_ext C m m' p v : (forall s, m s = m' s) -> toca C m' p v -> toca C m p v.
Proof. intros Hm Ht s Hsa Hs. rewrite Hm. by apply Ht. Qed.

Lemma toca_escribir_respaldo C e c x : activa (e_path e) -> e_respaldo e = Some c -> C DeRespaldo (e_path e) = Some x -> cuadra x c = true ->
  toca C (datos ← leer_respaldo e; con_error (Escritura (e_path e)) (escribir (e_path e) datos)) (e_path e) (Some x).
Proof.
  intros Hp Hc Hx Hcu. unfold leer_respaldo. rewrite Hc. cbn [of_option].
  set (g := fun datos => con_error (Escritura (e_path e)) (escribir (e_path e) datos)).
  apply (toca_ext C _ (o ← leyendo DeRespaldo (e_path e);
    (datos ← of_option (throw (FaltaRespaldo (e_path e))) o; if negb (cuadra datos c) then throw (HashDistinto (e_path e)) else mret datos) ≫= g)).
  { intros s. unfold mbind, M_bind, mret, M_ret. destruct (leyendo DeRespaldo (e_path e) s) as [[o|e0| |] s1]; done. }
  apply (toca_leyendo C DeRespaldo (e_path e) (Some x) _ x Hx).
  - cbn [of_option]. unfold mbind, M_bind, mret, M_ret. rewrite Hcu. by apply toca_escribir.
  - intros Hf. by apply (toca_throw C).
Qed.

Lemma toca_restaurar C es e : operacion C (sin_progreso es) -> e ∈ es -> toca C (restaurar_una e) (e_path e) (previo C e).
Proof.
  intros Hop He. destruct (operacion_de _ _ _ Hop He) as (Hp & _ & Hr). unfold restaurar_una, previo.
  destruct (e_accion e); [by apply toca_borrar|..]; (destruct Hr as (c & x & Hc & Hx & Hcu); [done|]); rewrite Hx;
    by apply (toca_escribir_respaldo C e c).
Qed.

Lemma toca_aplicar C es e : operacion C (sin_progreso es) -> e ∈ es ->
  toca C (match e_accion e with
          | Crear | Reemplazar => escribir_nuevo e
          | Borrar => con_error (Borrado (e_path e)) (borrar (e_path e))
          end) (e_path e) (objetivo C e).
Proof.
  intros Hop He. destruct (operacion_de _ _ _ Hop He) as (Hp & Hn & _). unfold objetivo.
  destruct (e_accion e); [..|by apply toca_borrar]; destruct Hn as (c & x & Hc & Hx & Hcu); try done;
    rewrite Hx; by apply (toca_escribir_nuevo C e c).
Qed.
End Corre.

(** ** What each durable state says of the files *)
Section Coherente.
Context {S : Type} `{SS : SistemaSpec S} `{Sha256}.
Variables (A : Contenidos) (C : De -> Contenidos) (es0 : list Entrada).

Definition marcas (mk : Progreso) (val : Entrada -> option (list byte)) (resto : Progreso -> Prop) (es : list Entrada) (s : S) : Prop :=
  forall e, e ∈ es -> resto (e_progreso e) ∧ (e_progreso e = mk -> activo s (e_path e) = val e).

Definition no_restaurado (p : Progreso) : Prop := p ≠ Restaurado.

Definition por_estado (j : Journal) (s : S) : Prop :=
  match j_estado j with
  | Armado => forall e, e ∈ j_entradas j -> no_restaurado (e_progreso e) ∧ e_progreso e ≠ Aplicado ∧ activo s (e_path e) = A (e_path e)
  | Aplicando => marcas Aplicado (objetivo C) no_restaurado (j_entradas j) s
  | Probando | Confirmado => forall e, e ∈ j_entradas j -> no_restaurado (e_progreso e) ∧ activo s (e_path e) = objetivo C e
  | Revirtiendo => marcas Restaurado (previo C) (fun _ => True) (j_entradas j) s
  | Revertido => forall e, e ∈ j_entradas j -> activo s (e_path e) = previo C e
  | _ => False
  end.

(** The copies are intact, the files the operation does not name are as they
    were, and the durable journal tells no lie. *)
Record coherente (s : S) : Prop := {
  co_sano : sano s;
  co_copia : copia s = C;
  co_plan : sin_progreso (j_entradas (durable s)) = es0;
  co_marco q : q ∉ e_path <$> es0 -> activo s q = A q;
  co_estado : por_estado (durable s) s;
}.

Hypothesis Hop : operacion C es0.

Lemma entradas_nodup s : coherente s -> NoDup (e_path <$> j_entradas (durable s)).
Proof. intros [_ _ <- _ _]. rewrite <- sin_progreso_paths. apply Hop. Qed.

Lemma coherente_path s e : coherente s -> e ∈ j_entradas (durable s) -> e_path e ∈ e_path <$> es0.
Proof. intros [_ _ <- _ _] He. rewrite sin_progreso_paths. by apply list_elem_of_fmap_2. Qed.

Section Bucle.
Variables (st : TxnState) (mk : Progreso) (val : Entrada -> option (list byte)) (resto : Progreso -> Prop)
  (hacer : Entrada -> M S Fallo unit).
Hypothesis Hresto : resto mk.
Hypothesis Hval : forall p e, val (set_progreso p e) = val e.
Hypothesis Hst : forall j s, j_estado j = st -> por_estado j s <-> marcas mk val resto (j_entradas j) s.
Hypothesis Hhacer : forall es e, sin_progreso es = es0 -> e ∈ es -> toca C (hacer e) (e_path e) (val e).

Definition bucle_entrada (i : nat) : M (Journal * S) Fallo unit :=
  e ← entrada i;
  if bool_decide (e_progreso e = mk) then mret tt
  else (e ← entrada i; en_sistema (hacer e);; marcar_entrada i mk);; subir_seq;; guardar.

(** The journal in memory is the durable one between two entries. *)
Record bucle (i : nat) (js : Journal * S) : Prop := {
  bu_durable : js.1 = durable js.2;
  bu_coherente : coherente js.2;
  bu_estado : j_estado js.1 = st;
  bu_hechas k e : (k < i)%nat -> j_entradas js.1 !! k = Some e -> e_progreso e = mk;
  bu_seq : j_seq js.1 + N.of_nat (length es0 - i) + 1 < U64;
}.

(** A file whose entry is not marked may hold anything. *)
Lemma coherente_toca s s' e : coherente s -> j_estado (durable s) = st -> e ∈ j_entradas (durable s) -> e_progreso e ≠ mk ->
  sano s' -> copia s' = copia s -> durable s' = durable s -> (forall q, q ≠ e_path e -> activo s' q = activo s q) -> coherente s'.
Proof.
  intros Hco Hes He Hmk Hn Hc Hd Ha. pose proof (entradas_nodup _ Hco) as Hnd. pose proof (coherente_path _ _ Hco He) as Hp.
  destruct Hco as [Hz H1 H2 H3 H4]. split; [done|congruence|by rewrite Hd| |].
  - intros q Hq. rewrite Ha; [by apply H3|]. by intros ->.
  - rewrite Hd. apply Hst; [done|]. apply Hst in H4; [|done]. intros e' He'. destruct (H4 e' He') as [Hr Hm]. split; [done|].
    intros Hmk'. rewrite Ha; [by apply Hm|]. intros Heq. apply Hmk. apply list_elem_of_lookup in He as [i Hi], He' as [k Hk].
    rewrite (mismo_path _ _ _ _ _ Hnd Hi Hk) in Hi by done. congruence.
Qed.

Lemma coherente_marca s s' i e n : coherente s -> j_estado (durable s) = st -> j_entradas (durable s) !! i = Some e ->
  activo s (e_path e) = val e -> sano s' -> copia s' = copia s -> activo s' = activo s ->
  durable s' = set_seq n (set_entradas (alter (set_progreso mk) i (j_entradas (durable s))) (durable s)) -> coherente s'.
Proof.
  intros [Hz H1 H2 H3 H4] Hes Hi Hv Hn Hc Ha Hd. split; [done|congruence| |by rewrite Ha|].
  - rewrite Hd. cbn [set_seq set_entradas j_entradas]. by rewrite sin_progreso_alter.
  - apply Hst; [by rewrite Hd|]. apply Hst in H4; [|done]. rewrite Hd. cbn [set_seq set_entradas j_entradas].
    intros e' [k Hk]%list_elem_of_lookup. rewrite Ha. destruct (decide (k = i)) as [->|Hne].
    + rewrite list_lookup_alter_eq, Hi in Hk. injection Hk as <-. rewrite Hval. by split.
    + rewrite list_lookup_alter_ne in Hk by done. apply H4. by apply list_elem_of_lookup_2 in Hk.
Qed.

Lemma bucle_paso i js : (i < length es0)%nat -> bucle i js -> corre coherente (bucle_entrada i) js (fun _ => bucle (Datatypes.S i)).
Proof.
  intros Hi [Hd Hco Hes Hdone Hseq]. destruct js as [j s]. cbn [fst snd] in *.
  assert (exists e, j_entradas j !! i = Some e) as [e He].
  { apply lookup_lt_is_Some_2. destruct Hco as [_ _ Hp _ _]. rewrite <- Hp, <- Hd in Hi. unfold sin_progreso in Hi. by rewrite length_fmap in Hi. }
  assert (corre coherente (entrada (S := S) i) (j, s) (fun x js => x = e ∧ js = (j, s))) as Hent.
  { unfold entrada. apply corre_bind, corre_gets; [done|]. cbn [fst]. rewrite He. by apply corre_ret. }
  unfold bucle_entrada. apply corre_bind. eapply corre_mono; [exact Hent|]. intros ? ? _ [-> ->].
  case_bool_decide as Hm.
  - apply corre_ret; [done|]. split; try done.
    + cbn [fst]. intros k e' Hk Hke. destruct (decide (k = i)) as [->|]; [congruence|]. apply (Hdone k); [lia|done].
    + cbn [fst]. lia.
  - assert (e ∈ j_entradas (durable s)) as Hin by (rewrite <- Hd; by apply list_elem_of_lookup_2 in He).
    rewrite Hd in Hes, He. pose proof (co_plan _ Hco) as Hplan.
    apply corre_bind, corre_bind. eapply corre_mono; [exact Hent|]. intros ? ? _ [-> ->].
    apply corre_bind. eapply (corre_toca coherente C); [by apply (Hhacer _ _ Hplan)|by apply Hco|by apply Hco|..]; cbn [snd fst].
    + intros s' Hn' Hc' Hd' Ha'. by apply (coherente_toca s s' e).
    + intros s' Hn' Hc' Hd' Ha' Hv. assert (coherente s') as Hco' by by apply (coherente_toca s s' e).
      apply corre_modify; [done|]. cbn [fst snd]. apply corre_bind. unfold subir_seq. apply corre_bind, corre_gets; [done|].
      apply corre_bind. cbn [fst set_entradas j_seq]. apply corre_add64; [lia|done|]. apply corre_modify; [done|]. cbn [fst snd].
      assert (forall s2, sano s2 -> copia s2 = copia s' -> activo s2 = activo s' ->
        durable s2 = set_seq (j_seq j + 1) (set_entradas (alter (set_progreso mk) i (j_entradas j)) j) -> coherente s2) as Hmark.
      { intros s2 Hn2 Hc2 Ha2 Hd2. apply (coherente_marca s' s2 i e (j_seq j + 1)); rewrite ?Hd'; try done. by rewrite <- Hd. }
      apply corre_guardar; cbn [fst snd].
      * done.
      * rewrite Hd', <- Hd. apply sig_entrada. lia.
      * intros s2 Hn2 Hc2 Ha2 [Hd2|Hd2]; [by apply Hmark|]. destruct Hco' as [C0 C1 C2 C3 C4].
        split; [done|congruence|by rewrite Hd2|by rewrite Ha2|]. rewrite Hd2. apply Hst; [by rewrite Hd'|]. apply Hst in C4; [|by rewrite Hd'].
        unfold marcas in *. by rewrite Ha2.
      * intros s2 Hn2 Hc2 Ha2 Hd2. split; cbn [fst snd]; [done|by apply Hmark|by rewrite <- Hd in Hes| |cbn; lia].
        cbn [set_seq set_entradas j_entradas]. intros k e' Hk Hke. destruct (decide (k = i)) as [->|].
        -- rewrite list_lookup_alter_eq, Hd, He in Hke. by injection Hke as <-.
        -- rewrite list_lookup_alter_ne in Hke by done. apply (Hdone k); [lia|done].
Qed.

Lemma bucle_entero js Φ : bucle 0 js -> (forall js', bucle (length es0) js' -> Φ tt js') ->
  corre coherente (mfor bucle_entrada (seq 0 (length es0))) js Φ.
Proof.
  intros Hb HΦ. apply (corre_mfor _ _ bucle _ 0); [|apply Hb|done|].
  - intros i x js' Hx Hb'. cbn [Nat.add] in *. apply lookup_seq in Hx as [-> Hi]. by apply bucle_paso.
  - intros js' _ Hb'. rewrite length_seq in Hb'. by apply HΦ.
Qed.
End Bucle.
(** ** The two runs *)
Lemma corre_avanzar (D : S -> Prop) ev st j s Φ : next (j_estado j) ev = inr st -> j_seq j + 1 < U64 -> D s ->
  Φ st (set_seq (j_seq j + 1) (set_estado st j), s) -> corre D (en_diario (avanzar ev)) (j, s) Φ.
Proof. intros Hn Hs HD HΦ. unfold corre, en_diario, zoom. cbn [fst snd]. by rewrite (avanzar_ok ev st). Qed.

Lemma corre_attempt_avanzar (D : S -> Prop) ev st j s Φ : next (j_estado j) ev = inr st -> j_seq j + 1 < U64 -> D s ->
  Φ (inr st) (set_seq (j_seq j + 1) (set_estado st j), s) -> corre D (attempt (en_diario (avanzar ev))) (j, s) Φ.
Proof. intros Hn Hs HD HΦ. unfold corre, attempt, en_diario, zoom. cbn [fst snd]. by rewrite (avanzar_ok ev st). Qed.

Lemma coherente_estado s s' st n : coherente s -> sano s' -> copia s' = copia s -> activo s' = activo s ->
  durable s' = set_seq n (set_estado st (durable s)) ->
  (por_estado (durable s) s -> por_estado (set_estado st (durable s)) s) -> coherente s'.
Proof.
  intros [Hz H1 H2 H3 H4] Hn Hc Ha Hd Hp. split; [done|congruence|by rewrite Hd|by rewrite Ha|].
  rewrite Hd. specialize (Hp H4). clear -Hp Ha. unfold por_estado, marcas in *. cbn [set_seq set_estado j_estado j_entradas] in *.
  by rewrite Ha.
Qed.

Lemma coherente_igual s s' : coherente s -> sano s' -> copia s' = copia s -> activo s' = activo s -> durable s' = durable s -> coherente s'.
Proof.
  intros [Hz H1 H2 H3 H4] Hn Hc Ha Hd. split; [done|congruence|by rewrite Hd|by rewrite Ha|]. rewrite Hd. unfold por_estado, marcas in *. by rewrite Ha.
Qed.

Lemma plan_length s : coherente s -> length (j_entradas (durable s)) = length es0.
Proof. intros [_ _ <- _ _]. unfold sin_progreso. by rewrite length_fmap. Qed.

(** Moving to another state and saving. *)
Lemma corre_mueve s ev st (Φ : unit -> Journal * S -> Prop) : coherente s -> next (j_estado (durable s)) ev = inr st -> j_seq (durable s) + 1 < U64 ->
  (por_estado (durable s) s -> por_estado (set_estado st (durable s)) s) ->
  (forall s', coherente s' -> activo s' = activo s -> durable s' = set_seq (j_seq (durable s) + 1) (set_estado st (durable s)) -> Φ tt (durable s', s')) ->
  corre coherente (_ ← attempt (en_diario (avanzar ev)); guardar) (durable s, s) Φ ∧
  corre coherente (_ ← en_diario (avanzar ev); guardar) (durable s, s) Φ.
Proof.
  intros Hco Hn Hs Hp HΦ.
  assert (forall u : unit, corre coherente guardar (set_seq (j_seq (durable s) + 1) (set_estado st (durable s)), s) Φ) as Hg.
  { intros _. apply corre_guardar; cbn [fst snd].
    - apply Hco.
    - by apply sig_estado.
    - intros s' Hn' Hc Ha [Hd|Hd]; [by eapply coherente_estado|by eapply coherente_igual].
    - intros s' Hn' Hc Ha Hd. rewrite <- Hd. apply HΦ; [by eapply coherente_estado|done|done]. }
  split; apply corre_bind.
  - eapply corre_attempt_avanzar; [done|done|done|]. by apply (Hg tt).
  - eapply corre_avanzar; [done|done|done|]. by apply (Hg tt).
Qed.

Lemma aplicar_corre s : coherente s -> j_estado (durable s) = Armado ∨ j_estado (durable s) = Aplicando ->
  j_seq (durable s) + N.of_nat (length es0) + 2 < U64 ->
  corre coherente aplicar (durable s, s) (fun _ js => js.1 = durable js.2 ∧ coherente js.2 ∧ j_estado js.1 = Probando).
Proof.
  intros Hco Hes Hseq. unfold aplicar. apply corre_bind, corre_gets; [done|]. cbn [fst].
  rewrite (bool_decide_eq_false_2 (j_estado _ = Probando)), (bool_decide_eq_false_2 (j_estado _ = Confirmado)) by (destruct Hes as [-> | ->]; done).
  cbn [orb]. rewrite plan_length by done.
  assert (forall js, bucle Aplicando Aplicado 0 js -> corre coherente (mfor aplicar_entrada (seq 0 (length es0));;
    j ← gets fst; if bool_decide (j_estado j = Probando) then mret tt else en_diario (avanzar AplicacionCompleta);; guardar)
    js (fun _ js => js.1 = durable js.2 ∧ coherente js.2 ∧ j_estado js.1 = Probando)) as Hrest.
  { intros js Hb. apply corre_bind.
    refine (bucle_entero Aplicando Aplicado (objetivo C) no_restaurado _ _ _ _ _ js _ Hb _); [done|done|intros j s' Hj; unfold por_estado; by rewrite Hj|intros es e Hes' He'; eapply toca_aplicar; [by rewrite Hes'|done]|].
    intros [j s'] [Hd Hco' He Hall Hs']. cbn [fst snd] in *. subst j. apply corre_bind, corre_gets; [done|]. cbn [fst].
    rewrite bool_decide_eq_false_2 by (rewrite He; done).
    refine (proj2 (corre_mueve s' AplicacionCompleta Probando _ Hco' _ _ _ _)); [by rewrite He|lia| |].
    - unfold por_estado. rewrite He. cbn [set_estado j_estado j_entradas]. intros Hm e [k Hk]%list_elem_of_lookup.
      destruct (Hm e) as [H1 H2]; [by apply list_elem_of_lookup_2 in Hk|]. split; [done|]. apply H2. apply (Hall k); [|done].
      rewrite <- (plan_length s') by done. by apply lookup_lt_Some in Hk.
    - intros s2 Hco2 _ Hd2. cbn [fst snd]. rewrite Hd2. done. }
  apply corre_bind. destruct Hes as [Hes|Hes].
  - rewrite bool_decide_eq_false_2 by (by rewrite Hes).
    refine (proj1 (corre_mueve s AplicacionIniciada Aplicando _ Hco _ _ _ _)); [by rewrite Hes|lia| |].
    + unfold por_estado. rewrite Hes. cbn [set_estado j_estado j_entradas]. intros Hm e He. destruct (Hm e He) as (? & ? & _). by split.
    + intros s' Hco' _ Hd'. apply Hrest. split; cbn [fst snd]; [done|done|by rewrite Hd'|lia|rewrite Hd'; cbn; lia].
  - rewrite bool_decide_eq_true_2 by done. apply corre_ret; [done|]. apply Hrest. split; cbn [fst snd]; [done|done|done|lia|lia].
Qed.

Lemma revertir_corre s : coherente s ->
  j_estado (durable s) ∈ [Aplicando; Probando; Confirmado; Revirtiendo] ->
  j_seq (durable s) + N.of_nat (length es0) + 2 < U64 ->
  corre coherente revertir (durable s, s) (fun _ js => js.1 = durable js.2 ∧ coherente js.2 ∧ j_estado js.1 = Revertido).
Proof.
  intros Hco Hes Hseq. unfold revertir. apply corre_bind, corre_gets; [done|]. cbn [fst].
  rewrite (bool_decide_eq_false_2 (j_estado _ = Revertido)) by (intros Hx; rewrite Hx in Hes; set_solver).
  rewrite plan_length by done.
  assert (forall js, bucle Revirtiendo Restaurado 0 js -> corre coherente (mfor revertir_entrada (seq 0 (length es0));;
    j ← gets fst; if bool_decide (j_estado j = Revertido) then mret tt else en_diario (avanzar ReversionCompleta);; guardar)
    js (fun _ js => js.1 = durable js.2 ∧ coherente js.2 ∧ j_estado js.1 = Revertido)) as Hrest.
  { intros js Hb. apply corre_bind.
    refine (bucle_entero Revirtiendo Restaurado (previo C) (fun _ => True) restaurar_una _ _ _ _ js _ Hb _); [done|done|intros j s' Hj; unfold por_estado; by rewrite Hj|intros es e Hes' He'; eapply toca_restaurar; [by rewrite Hes'|done]|].
    intros [j s'] [Hd Hco' He Hall Hs']. cbn [fst snd] in *. subst j. apply corre_bind, corre_gets; [done|]. cbn [fst].
    rewrite bool_decide_eq_false_2 by (rewrite He; done).
    refine (proj2 (corre_mueve s' ReversionCompleta Revertido _ Hco' _ _ _ _)); [by rewrite He|lia| |].
    - unfold por_estado. rewrite He. cbn [set_estado j_estado j_entradas]. intros Hm e [k Hk]%list_elem_of_lookup.
      destruct (Hm e) as [_ H2]; [by apply list_elem_of_lookup_2 in Hk|]. apply H2. apply (Hall k); [|done].
      rewrite <- (plan_length s') by done. by apply lookup_lt_Some in Hk.
    - intros s2 Hco2 _ Hd2. cbn [fst snd]. rewrite Hd2. done. }
  apply corre_bind. destruct (decide (j_estado (durable s) = Revirtiendo)) as [He|He].
  - rewrite bool_decide_eq_true_2 by done. apply corre_ret; [done|]. apply Hrest. split; cbn [fst snd]; [done|done|done|lia|lia].
  - rewrite bool_decide_eq_false_2 by done.
    refine (proj1 (corre_mueve s ReversionSolicitada Revirtiendo _ Hco _ _ _ _)); [|lia| |].
    + repeat (apply elem_of_cons in Hes as [->|Hes]; [done|]). set_solver.
    + unfold por_estado, marcas. cbn [set_estado j_estado j_entradas].
      assert (j_estado (durable s) = Aplicando ∨ j_estado (durable s) = Probando ∨ j_estado (durable s) = Confirmado) as [->|[->| ->]] by set_solver;
        intros Hm e Hin; (split; [done|]); intros Hr; destruct (Hm e Hin) as [Hx _]; by apply Hx in Hr.
    + intros s' Hco' _ Hd'. apply Hrest. split; cbn [fst snd]; [done|done|by rewrite Hd'|lia|rewrite Hd'; cbn; lia].
Qed.
End Coherente.

(** ** Boot after boot *)
Section Arranques.
Context {S : Type} `{SS : SistemaSpec S} `{Sha256}.
Variables (A : Contenidos) (C : De -> Contenidos) (es0 : list Entrada).

(** One boot: the journal is read again and what the reconciliation asks for
    is run, to its end or to the cut. *)
Inductive arranque (s s' : S) : Prop :=
| arr_aplicar :
    j_estado (durable s) = Armado ∨ j_estado (durable s) = Aplicando ->
    j_seq (durable s) + N.of_nat (length es0) + 2 < U64 ->
    (aplicar (durable s, s)).2.2 = s' -> arranque s s'
| arr_revertir :
    j_estado (durable s) ∈ [Aplicando; Probando; Confirmado; Revirtiendo] ->
    j_seq (durable s) + N.of_nat (length es0) + 2 < U64 ->
    (revertir (durable s, s)).2.2 = s' -> arranque s s'.

Lemma corre_final {B E} (D : S -> Prop) (m : M (Journal * S) E B) js Φ : corre D m js Φ -> D (m js).2.2.
Proof. unfold corre. destruct (m js) as [r js']. by intros [? _]. Qed.

Lemma arranque_coherente s s' : operacion C es0 -> coherente A C es0 s -> arranque s s' -> coherente A C es0 s'.
Proof.
  intros Hop Hco [Hes Hs <-|Hes Hs <-].
  - by eapply corre_final, aplicar_corre.
  - by eapply corre_final, revertir_corre.
Qed.

Lemma arranques_coherente s s' : operacion C es0 -> coherente A C es0 s -> rtc arranque s s' -> coherente A C es0 s'.
Proof. intros Hop Hco Hr. induction Hr as [|s s1 s2 H1 _ IH]; [done|]. apply IH. by eapply arranque_coherente. Qed.

(** An armed operation, before anything is written. *)
Lemma coherente_armado s : sano s -> j_estado (durable s) = Armado ->
  (forall e, e ∈ j_entradas (durable s) -> e_progreso e ≠ Aplicado ∧ e_progreso e ≠ Restaurado) ->
  coherente (activo s) (copia s) (sin_progreso (j_entradas (durable s))) s.
Proof.
  intros Hsa Hes He. split; [done|done|done|done|]. unfold por_estado. rewrite Hes. intros e Hin. destruct (He e Hin). by split.
Qed.

(** The version an operation leaves. *)
Definition nueva (q : str) : option (list byte) :=
  match list_find (fun e => e_path e = q) es0 with Some (_, e) => objetivo C e | None => A q end.

Lemma marco_o_entrada s q : coherente A C es0 s -> (q ∉ e_path <$> es0) ∨ exists e, e ∈ j_entradas (durable s) ∧ e_path e = q.
Proof.
  intros [_ _ Hp _ _]. destruct (decide (q ∈ e_path <$> es0)) as [Hin|]; [right|by left].
  rewrite <- Hp, sin_progreso_paths in Hin. apply list_elem_of_fmap in Hin as (e & -> & ?). by exists e.
Qed.

Lemma coherente_nueva s q : operacion C es0 -> coherente A C es0 s -> j_estado (durable s) = Probando ∨ j_estado (durable s) = Confirmado -> activo s q = nueva q.
Proof.
  intros Hop Hco Hes. unfold nueva. pose proof Hco as [_ _ Hp Hm Hst].
  assert (forall e, e ∈ j_entradas (durable s) -> no_restaurado (e_progreso e) ∧ activo s (e_path e) = objetivo C e) as Hst'.
  { unfold por_estado in Hst. by destruct Hes as [Hes|Hes]; rewrite Hes in Hst. }
  clear Hst. rename Hst' into Hst.
  destruct (marco_o_entrada s q Hco) as [Hq|(e & He & <-)].
  - rewrite Hm by done. destruct (list_find _ es0) as [[i e]|] eqn:El; [|done].
    apply list_find_Some in El as (Hi & <- & _). exfalso. apply Hq. apply list_elem_of_fmap_2. by apply list_elem_of_lookup_2 in Hi.
  - destruct (Hst e He) as [_ ->]. destruct (list_find _ es0) as [[i e']|] eqn:El.
    + apply list_find_Some in El as (Hi & He' & _). pose proof (sin_progreso_elem _ _ He) as Hin. rewrite Hp in Hin.
      apply list_elem_of_lookup in Hin as [k Hk]. assert (i = k) as ->.
      { eapply mismo_path; [apply Hop|done|done|]. by rewrite He'. }
      assert (e' = set_progreso Pendiente e) as -> by congruence. done.
    + exfalso. apply list_find_None in El. rewrite Forall_forall in El. apply (El (set_progreso Pendiente e)); [|done].
      rewrite <- Hp. by apply sin_progreso_elem.
Qed.

Lemma coherente_anterior s q : coherente A C es0 s -> (forall e, e ∈ es0 -> previo C e = A (e_path e)) ->
  j_estado (durable s) = Revertido ∨ j_estado (durable s) = Armado -> activo s q = A q.
Proof.
  intros Hco HA Hes. pose proof Hco as [_ _ Hp Hm Hst]. destruct (marco_o_entrada s q Hco) as [Hq|(e & He & <-)]; [by apply Hm|].
  unfold por_estado in Hst. destruct Hes as [Hes|Hes]; rewrite Hes in Hst; [|apply (Hst e He)].
  rewrite Hst by done. pose proof (sin_progreso_elem _ _ He) as Hin. rewrite Hp in Hin. apply (HA _ Hin).
Qed.
End Arranques.

(** ** Applying a journal that was never marked as armed *)
Section Preparado.
Context {S : Type} `{Sistema S} `{Sha256}.

Definition sigue_preparado (js : Journal * S) : Prop := j_estado js.1 = Preparado.

Lemma keeps_en_sistema {B} (m : M S Fallo B) : keeps sigue_preparado (en_sistema m) (fun _ => True).
Proof. intros [j s] Hj. unfold en_sistema, zoom. destruct (m _) as [r s']. by split. Qed.

Lemma keeps_aplicar_entrada i : keeps sigue_preparado (aplicar_entrada i) (fun _ => True).
Proof.
  assert (keeps sigue_preparado (entrada i) (fun _ => True)) as Hent.
  { unfold entrada. eapply keeps_bind; [apply keeps_gets|]. intros j _. apply keeps_of_option, keeps_panic. }
  assert (forall f : Journal * S -> Journal * S, (forall js, j_estado (f js).1 = j_estado js.1) -> keeps (E := Fallo) sigue_preparado (modify f) (fun _ => True)) as Hmod.
  { intros f Hf. apply keeps_modify. intros js Hj. unfold sigue_preparado. by rewrite Hf. }
  unfold aplicar_entrada. eapply keeps_bind; [exact Hent|]. intros e _. case_bool_decide; [by apply keeps_ret|].
  eapply keeps_bind.
  - unfold paso_aplicar. eapply keeps_bind; [exact Hent|]. intros e' _. eapply keeps_bind; [apply keeps_en_sistema|]. intros _ _. by apply Hmod.
  - intros _ _. eapply keeps_bind.
    + unfold subir_seq. eapply keeps_bind; [apply keeps_gets|]. intros j _. eapply keeps_bind; [apply keeps_add64|]. intros n _. by apply Hmod.
    + intros _ _. unfold guardar. eapply keeps_bind; [apply keeps_gets|]. intros j _. apply keeps_en_sistema.
Qed.

Lemma aplicar_desde_preparado j (s : S) : j_estado j = Preparado -> (aplicar (j, s)).1 ≠ Ok tt.
Proof.
  intros Hj. unfold aplicar. rewrite bind_eq. cbn [gets fst]. rewrite Hj. cbn [orb].
  rewrite !bool_decide_eq_false_2 by done. cbn [orb].
  assert (forall js, sigue_preparado js ->
    ((mfor aplicar_entrada (seq 0 (length (j_entradas j)));; j ← gets fst;
      if bool_decide (j_estado j = Probando) then mret tt else en_diario (avanzar AplicacionCompleta);; guardar) js).1 ≠ Ok tt) as Hrest.
  { intros js Hs. rewrite bind_eq.
    destruct (keeps_mfor sigue_preparado aplicar_entrada (seq 0 (length (j_entradas j))) (fun i _ => keeps_aplicar_entrada i) js Hs) as [Hs' _].
    destruct (mfor _ _ js) as [[[]|e| |] [j' s']]; try done. cbn [snd] in Hs'. unfold sigue_preparado in Hs'. cbn [fst] in Hs'.
    rewrite bind_eq. cbn [gets fst]. rewrite Hs'. rewrite bool_decide_eq_false_2 by done. rewrite bind_eq.
    unfold en_diario, zoom, avanzar. rewrite bind_eq. cbn [gets fst]. unfold id. by rewrite Hs'. }
  rewrite bind_eq. rewrite bind_eq. unfold attempt, en_diario, zoom, avanzar. rewrite bind_eq. cbn [gets fst]. unfold id at 1. rewrite Hj. cbn [next throw].
  unfold guardar. rewrite bind_eq. cbn [gets fst snd].
  destruct (keeps_en_sistema (con_error Diario (guardar_diario j)) (j, s) Hj) as [Hs _].
  destruct (en_sistema _ _) as [[[]|e| |] js']; try done. by apply Hrest.
Qed.
End Preparado.

(** * Update: a system in memory, with cuts

    A [Sistema] like the one of the test bench of the crate and of
    [Vfs] in [kernel/src/drivers/txnaplica.rs]: writing a file removes the
    old one first, and power may go between any two operations. It keeps
    [SistemaSpec]. *)
#[local] Set Default Proof Using "Type".

(** [cortable]: whether the power can go; then [w_quedan] operations are
    left. *)
Record Mundo (cortable : bool) := mkMundo {
  w_activo : gmap str (list byte);
  w_preparado : gmap str (list byte);
  w_respaldo : gmap str (list byte);
  w_diario : Journal;
  w_quedan : N;
}.
Arguments mkMundo {cortable}. Arguments w_activo {cortable}. Arguments w_preparado {cortable}.
Arguments w_respaldo {cortable}. Arguments w_diario {cortable}. Arguments w_quedan {cortable}.

Section Mundo.
Context {cortable : bool}.
Abbreviation W := (Mundo cortable).

Definition gastar : M W unit unit := fun w =>
  if cortable && (w_quedan w =? 0) then (Err tt, w)
  else (Ok tt, mkMundo (w_activo w) (w_preparado w) (w_respaldo w) (w_diario w) (w_quedan w - 1)).
Definition con_activo (f : gmap str (list byte) -> gmap str (list byte)) : M W unit unit :=
  modify (fun w => mkMundo (f (w_activo w)) (w_preparado w) (w_respaldo w) (w_diario w) (w_quedan w)).

Definition m_leer (d : De) (ruta : str) (w : W) : option (list byte) * W :=
  (match d with DePreparado => w_preparado w !! ruta | DeRespaldo => w_respaldo w !! ruta end, w).
Definition m_borrar (ruta : str) : M W unit unit := gastar;; con_activo (delete ruta).
Definition m_escribir (ruta : str) (datos : list byte) : M W unit unit :=
  m_borrar ruta;; gastar;; con_activo <[ruta := datos]>.
Definition m_guardar (j : Journal) : M W unit unit :=
  gastar;; modify (fun w => mkMundo (w_activo w) (w_preparado w) (w_respaldo w) j (w_quedan w)).

#[export] Instance Mundo_Sistema : Sistema W := {
  leer := m_leer; escribir := m_escribir; borrar := m_borrar; guardar_diario := m_guardar;
}.

Definition m_copia (w : W) (d : De) (p : str) : option (list byte) :=
  match d with DePreparado => w_preparado w !! p | DeRespaldo => w_respaldo w !! p end.

Lemma gastar_cases w : (exists n, gastar w = (Ok tt, mkMundo (w_activo w) (w_preparado w) (w_respaldo w) (w_diario w) n)) ∨
  (cortable = true ∧ gastar w = (Err tt, w)).
Proof.
  unfold gastar. destruct cortable; cbn [andb]; [|left; by eexists]. destruct (w_quedan w =? 0); [by right|left; by eexists].
Qed.

#[export] Instance Mundo_Spec : SistemaSpec W.
Proof.
  refine {| puede_fallar := cortable = true; activo := fun w p => w_activo w !! p; copia := m_copia; durable := w_diario; activa := fun _ => True; sano := fun _ => True |}.
  - intros d p s _. cbn. destruct d; auto.
  - intros p datos s _ _. cbn [escribir Mundo_Sistema]. unfold m_escribir, m_borrar. rewrite !bind_eq.
    destruct (gastar_cases s) as [[n ->]|[? ->]]; [|done]. cbn [con_activo modify].
    rewrite bind_eq. set (s1 := mkMundo _ _ _ _ _). destruct (gastar_cases s1) as [[n1 ->]|[? ->]]; cbn.
    + do 3 (split; [done|]). split; [|apply lookup_insert_eq]. intros q Hq. by rewrite lookup_insert_ne, lookup_delete_ne.
    + do 3 (split; [done|]). split; [|done]. intros q Hq. by rewrite lookup_delete_ne.
  - intros p s _ _. cbn [borrar Mundo_Sistema]. unfold m_borrar. rewrite bind_eq.
    destruct (gastar_cases s) as [[n ->]|[? ->]]; cbn; [|done].
    do 3 (split; [done|]). split; [|apply lookup_delete_eq]. intros q Hq. by rewrite lookup_delete_ne.
  - intros j s _ _. cbn [guardar_diario Mundo_Sistema]. unfold m_guardar. rewrite bind_eq.
    destruct (gastar_cases s) as [[n ->]|[? ->]]; cbn; [done|]. do 3 (split; [done|]). split; [done|by right].
Defined.
End Mundo.

(** A concrete hash for concrete runs: the sum and the length. *)
Definition hash_de_prueba (bs : list byte) : list byte :=
  le_bytes 32 (foldl (fun h b => h * 31 + Byte.to_N b) (lenN bs) bs).
#[export] Instance Sha256_de_prueba : Sha256.
Proof. refine {| sha256 := hash_de_prueba |}. intros bs. apply le_bytes_length. Defined.
