(* ===== verification/OtaPunto.v ===== *)
(** * Update: retained recovery points

    [crates/soso-update-core/src/txn/punto.rs]: what it takes to go back to a
    version, kept while the next one is active. [crear_punto] copies, reads
    everything back and only then makes the record durable; nothing is
    collected that the active system or a pending operation may need. *)
From S2P Require Import Prelude Texto OtaHash OtaRecord OtaTxn OtaJournal OtaBootrec OtaAplicador.
Local Open Scope N_scope.

Definition PUNTO_MAGIC : str := txt "SOSOPUNTO".
Definition PUNTO_FORMATO : N := 1.

Record Punto := mkPunto {
  p_id : TxnId;
  p_version : str;
  p_build : str;
  p_guid_destino : str;
  p_kernel : Contenido;
  p_entradas : list Entrada;
  p_seq : N;
  p_formato : N;
}.

Inductive PuntoError :=
| RegistroP (e : RecordError)
| IdInvalidoP
| Campo (que : str)
| OtroDestino (espera hay : str).

Definition contenido_p_fmt (c : Contenido) : str :=
  match c_hash c with
  | [] => txt "- -"
  | _ => dec (c_size c) ++ txt " " ++ c_hash c
  end.

Definition contenido_p_parse (s : str) : PuntoError + Contenido :=
  let s := trim s in
  if bool_decide (s = txt "- -") || bool_decide (s = txt "-") then inr (mkContenido 0 [])
  else
    sh ← ok_or (Campo (txt "contenido")) (split_once SP s);
    size ← ok_or (Campo (txt "size")) (parse_uint U64 sh.1);
    mret (mkContenido size (trim sh.2)).

Definition punto_nuevo (id : TxnId) (version build guid_destino : str) (kernel : Contenido) (entradas : list Entrada) : Punto :=
  mkPunto id version build guid_destino kernel entradas 1 PUNTO_FORMATO.

Definition accion_punto (a : Accion) : str :=
  match a with Crear => txt "quitar" | Reemplazar => txt "restaurar" | Borrar => txt "reponer" end.

Definition respaldo_fmt (o : option Contenido) : str := match o with Some c => contenido_p_fmt c | None => txt "- -" end.

Definition entrada_p_fmt (e : Entrada) : str :=
  txt "p " ++ accion_punto (e_accion e) ++ txt " " ++ respaldo_fmt (e_respaldo e) ++ txt " " ++ e_path e ++ [LF].

Definition cuerpo_punto (p : Punto) : str :=
  txt "id=" ++ to_hex (p_id p) ++ [LF]
  ++ txt "version=" ++ p_version p ++ [LF]
  ++ txt "build=" ++ p_build p ++ [LF]
  ++ txt "guid=" ++ p_guid_destino p ++ [LF]
  ++ txt "kernel=" ++ contenido_p_fmt (p_kernel p) ++ [LF]
  ++ concat (entrada_p_fmt <$> p_entradas p).

Definition accion_punto_parse (s : str) : option Accion :=
  literal s [(txt "quitar", Crear); (txt "restaurar", Reemplazar); (txt "reponer", Borrar)].

Definition entrada_p_parse (linea : str) : PuntoError + Entrada :=
  match splitn 5 SP linea with
  | [_; a; s; h; ruta] =>
      accion ← ok_or (Campo (txt "accion")) (accion_punto_parse a);
      respaldo ← (if bool_decide (s = txt "-") then mret None
                  else c ← contenido_p_parse (s ++ txt " " ++ h); mret (Some c));
      mret (mkEntrada accion Respaldado ruta None respaldo)
  | _ => inl (Campo (txt "entrada"))
  end.
Fixpoint entradas_p_parse (ls : list str) : PuntoError + list Entrada :=
  match ls with
  | [] => mret []
  | l :: ls => e ← entrada_p_parse l; es ← entradas_p_parse ls; mret (e :: es)
  end.

Definition punto_from_framed (f : Framed) : PuntoError + Punto :=
  entradas ← entradas_p_parse (lineas f (txt "p "));
  idx ← map_err RegistroP (requerido f (txt "id"));
  id ← ok_or IdInvalidoP (from_hex idx);
  version ← map_err RegistroP (requerido f (txt "version"));
  build ← map_err RegistroP (requerido f (txt "build"));
  guid ← map_err RegistroP (requerido f (txt "guid"));
  k ← map_err RegistroP (requerido f (txt "kernel"));
  kernel ← contenido_p_parse k;
  mret (mkPunto id version build guid kernel entradas (f_seq f) (f_formato f)).

Section Registro_.
Context `{Crc32c}.
Definition punto_format (p : Punto) : list byte := frame PUNTO_MAGIC PUNTO_FORMATO (p_seq p) (cuerpo_punto p).
Definition punto_parse (raw : list byte) : PuntoError + Punto :=
  f ← map_err RegistroP (parse PUNTO_MAGIC PUNTO_FORMATO raw);
  punto_from_framed f.
End Registro_.

Definition comprobar_destino (p : Punto) (guid : str) : PuntoError + unit :=
  if eq_ignore_ascii_case (p_guid_destino p) guid then mret tt else inl (OtroDestino (p_guid_destino p) guid).

(** The sum of the backups, and the kernel; [sum] and [+] panic on overflow. *)
Definition tamanos (es : list Entrada) : list N := omap (fun e => c_size <$> e_respaldo e) es.
Definition suma64 {S E} (l : list N) : M S E N := mfold add64 0 l.
Definition bytes_a_restaurar {S E} (p : Punto) : M S E N :=
  n ← suma64 (tamanos (p_entradas p)); add64 n (c_size (p_kernel p)).

Definition reserva_efectiva {S E} (p : Punto) : M S E N :=
  datos ← bytes_a_restaurar p;
  let cow := datos in
  mret (saturating_add64 (saturating_add64 (saturating_add64 datos cow) RESERVA_LOGS) RESERVA_RECUPERACION).

Definition punto_recogible (p : Punto) (referencias : list TxnId) : bool :=
  negb (existsb (fun r => bool_decide (r = p_id p)) referencias).

(** ** Retention *)
Record Retencion := mkRetencion { r_activo : option TxnId; r_armado : option TxnId }.

Definition referencias (r : Retencion) : list TxnId :=
  let v := match r_activo r with Some a => [a] | None => [] end in
  match r_armado r with
  | Some b => if bool_decide (b ∈ v) then v else v ++ [b]
  | None => v
  end.

Definition al_confirmar (armado_verificado : bool) (r : Retencion) : list TxnId * Retencion :=
  match r_armado r with
  | None => ([], r)
  | Some nuevo =>
      if negb armado_verificado then ([], mkRetencion (r_activo r) (Some nuevo))
      else
        (match r_activo r with
         | Some a => if bool_decide (a ≠ nuevo) then [a] else []
         | None => []
         end, mkRetencion (Some nuevo) None)
  end.

Definition al_revertir (r : Retencion) : list TxnId * Retencion :=
  (match r_armado r with
   | Some b => if bool_decide (Some b ≠ r_activo r) then [b] else []
   | None => []
   end, mkRetencion (r_activo r) None).

Definition a_recoger (todos refs : list TxnId) : list TxnId :=
  match refs with
  | [] => []
  | _ => filter (fun p => p ∉ refs) todos
  end.

Definition candidata_fallida (decision : Decision) (version_registro version : str) : bool :=
  match decision with
  | DRevertido | DRescatar | DRestauradoAPrueba => negb (bool_decide (version = [])) && bool_decide (version_registro = version)
  | _ => false
  end.

(** ** Creating a point *)
Class Almacen (S : Type) := {
  leer_sistema : str -> S -> option (list byte) * S;
  guardar_copia : TxnId -> str -> list byte -> M S unit unit;
  releer_copia : TxnId -> str -> S -> option (list byte) * S;
  guardar_punto : Punto -> M S unit unit;
  borrar_punto : TxnId -> M S unit unit;
  espacio_libre : S -> N * S;
}.

Inductive CrearError :=
| SinEspacioP (necesita libre : N)
| Copia (ruta : str)
| Incompleto (ruta : str)
| RegistroC.

Inductive Cambio := Trae (ruta : str) | Retira (ruta : str).
Definition cambio_ruta (c : Cambio) : str := match c with Trae r | Retira r => r end.
Definition cambio_retira (c : Cambio) : bool := match c with Trae _ => false | Retira _ => true end.

Section CrearPunto.
Context {S : Type} `{Almacen S} `{Sha256}.

Definition total {A} (f : S -> A * S) : M S CrearError A := fun s => let '(a, s) := f s in (Ok a, s).
Definition con_fallo {A} (e : CrearError) (m : M S unit A) : M S CrearError A := zoom id (fun s _ => s) (fun _ => e) m.

(** One change: its entry, and the copy it needs. *)
Definition inventariar (acc : list Entrada * list (str * list byte)) (c : Cambio) : M S CrearError (list Entrada * list (str * list byte)) :=
  let ruta := cambio_ruta c in
  o ← total (leer_sistema ruta);
  match o with
  | Some datos =>
      let e := mkEntrada (if cambio_retira c then Borrar else Reemplazar) Respaldado ruta None
                 (Some (mkContenido (lenN datos) (hex_sha256 datos))) in
      mret (acc.1 ++ [e], acc.2 ++ [(ruta, datos)])
  | None => mret (acc.1 ++ [mkEntrada Crear Respaldado ruta None None], acc.2)
  end.

Definition releer_una (id : TxnId) (e : Entrada) : M S CrearError unit :=
  match e_respaldo e with
  | None => mret tt
  | Some resp =>
      o ← total (releer_copia id (e_path e));
      leido ← of_option (throw (Incompleto (e_path e))) o;
      if negb (cuadra leido resp) then throw (Incompleto (e_path e)) else mret tt
  end.

Definition crear_punto (id : TxnId) (version build guid_destino : str) (kernel : Contenido) (cambios : list Cambio) : M S CrearError Punto :=
  ec ← mfold inventariar ([], []) cambios;
  let '(entradas, copias) := ec in
  let punto := punto_nuevo id version build guid_destino kernel entradas in
  n ← suma64 (lenN ∘ snd <$> copias);
  reserva ← reserva_efectiva punto;
  necesita ← add64 n reserva;
  libre ← total espacio_libre;
  if libre <? necesita then throw (SinEspacioP necesita libre)
  else
    mfor (fun rd => con_fallo (Copia rd.1) (guardar_copia id rd.1 rd.2)) copias;;
    mfor (releer_una id) (p_entradas punto);;
    con_fallo RegistroC (guardar_punto punto);;
    mret punto.
End CrearPunto.

(** [verificar]: every backup of the point, read whole. *)
Section Verificar.
Context {S : Type} `{Sistema S} `{Sha256}.
Definition verificar_una (e : Entrada) : M S Fallo unit :=
  match e_respaldo e with
  | None => mret tt
  | Some resp =>
      o ← leyendo DeRespaldo (e_path e);
      datos ← of_option (throw (FaltaRespaldo (e_path e))) o;
      if negb (cuadra datos resp) then throw (HashDistinto (e_path e)) else mret tt
  end.
Definition verificar (p : Punto) : M S Fallo unit := mfor verificar_una (p_entradas p).
End Verificar.

(** ** What an [Almacen] promises *)
Class AlmacenSpec (S : Type) `{Almacen S} := {
  sistema : S -> str -> option (list byte);
  copia_de : S -> TxnId -> str -> option (list byte);
  punto_de : S -> TxnId -> option Punto;
  leer_sistema_spec p s : let '(o, s') := leer_sistema p s in
    o = sistema s p ∧ sistema s' = sistema s ∧ copia_de s' = copia_de s ∧ punto_de s' = punto_de s;
  (** Nothing is promised of the copies, not even of the one just made. *)
  guardar_copia_spec id p datos s : let '(r, s') := guardar_copia id p datos s in
    sistema s' = sistema s ∧ punto_de s' = punto_de s ∧ match r with Ok _ | Err _ => True | _ => False end;
  releer_copia_spec id p s : let '(o, s') := releer_copia id p s in
    (o = copia_de s id p ∨ o = None) ∧ sistema s' = sistema s ∧ copia_de s' = copia_de s ∧ punto_de s' = punto_de s;
  guardar_punto_spec p s : let '(r, s') := guardar_punto p s in
    sistema s' = sistema s ∧ copia_de s' = copia_de s ∧
    match r with
    | Ok _ => punto_de s' (p_id p) = Some p
    | Err _ => punto_de s' (p_id p) = Some p ∨ punto_de s' (p_id p) = punto_de s (p_id p)
    | _ => False
    end;
  espacio_libre_spec s : let '(_, s') := espacio_libre s in
    sistema s' = sistema s ∧ copia_de s' = copia_de s ∧ punto_de s' = punto_de s;
}.

(** The entry a change needs, and its copy. *)
Section Inventario.
Context `{Sha256} (leo : str -> option (list byte)).
Definition entrada_del_cambio (c : Cambio) : Entrada :=
  match leo (cambio_ruta c) with
  | Some datos => mkEntrada (if cambio_retira c then Borrar else Reemplazar) Respaldado (cambio_ruta c) None
                    (Some (mkContenido (lenN datos) (hex_sha256 datos)))
  | None => mkEntrada Crear Respaldado (cambio_ruta c) None None
  end.
Definition copia_del_cambio (c : Cambio) : option (str * list byte) := (fun d => (cambio_ruta c, d)) <$> leo (cambio_ruta c).
End Inventario.

Section CrearFacts.
Context {S : Type} `{AlmacenSpec S} `{Sha256}.

(** What a reading leaves alone. *)
Definition igual (s s' : S) : Prop := sistema s' = sistema s ∧ copia_de s' = copia_de s ∧ punto_de s' = punto_de s.
Definition mismo_registro (s s' : S) : Prop := sistema s' = sistema s ∧ punto_de s' = punto_de s.

Lemma inventario_run cs : forall acc s, exists s',
  mfold inventariar acc cs s = (Ok (acc.1 ++ (entrada_del_cambio (sistema s) <$> cs), acc.2 ++ omap (copia_del_cambio (sistema s)) cs), s')
  ∧ igual s s'.
Proof.
  induction cs as [|c cs IH]; intros acc s; [exists s; cbn; rewrite !app_nil_r; by destruct acc|].
  cbn [mfold]. rewrite bind_eq. unfold inventariar at 1. rewrite bind_eq. unfold total.
  pose proof (leer_sistema_spec (cambio_ruta c) s) as Hl. destruct (leer_sistema (cambio_ruta c) s) as [o s1]. destruct Hl as (-> & Hi).
  unfold copia_del_cambio at 1, entrada_del_cambio at 1. cbn [fmap list_fmap omap list_omap].
  assert (forall acc', exists s', mfold inventariar acc' cs s1 = (Ok (acc'.1 ++ (entrada_del_cambio (sistema s) <$> cs), acc'.2 ++ omap (copia_del_cambio (sistema s)) cs), s') ∧ igual s s') as IH'.
  { intros acc'. destruct (IH acc' s1) as (s' & -> & Hi'). exists s'. destruct Hi as (Ha & ? & ?). rewrite Ha. split; [done|].
    destruct Hi' as (? & ? & ?). split; [congruence|split; congruence]. }
  destruct (sistema s (cambio_ruta c)) as [datos|]; cbn [mret M_ret fmap option_fmap option_map].
  - edestruct IH' as (s' & -> & Hi'). exists s'. cbn [fst snd]. by rewrite <- !app_assoc.
  - edestruct IH' as (s' & -> & Hi'). exists s'. cbn [fst snd]. by rewrite <- !app_assoc.
Qed.

Lemma guardar_copias_run id cs : forall s r s',
  mfor (fun rd => con_fallo (Copia rd.1) (guardar_copia id rd.1 rd.2)) cs s = (r, s') ->
  mismo_registro s s' ∧ match r with Ok _ => True | Err e => exists ruta, e = Copia ruta | _ => False end.
Proof.
  induction cs as [|[ruta d] cs IH]; intros s r s'; cbn [mfor]; [by intros [= <- <-]|]. rewrite bind_eq. unfold con_fallo at 1, zoom, Datatypes.id at 1.
  cbn [fst snd]. pose proof (guardar_copia_spec id ruta d s) as Hg. destruct (guardar_copia id ruta d s) as [[[]|[]| |] s1];
    destruct Hg as (Ha & Hb & ?); try done.
  - intros (Hi & Hr)%IH. destruct Hi. split; [split; congruence|done].
  - intros [= <- <-]. split; [done|by eexists].
Qed.

Definition copia_buena (s : S) (id : TxnId) (e : Entrada) : Prop :=
  match e_respaldo e with
  | Some c => exists datos, copia_de s id (e_path e) = Some datos ∧ cuadra datos c = true
  | None => True
  end.

Lemma releer_run id es : forall s r s', mfor (releer_una id) es s = (r, s') ->
  igual s s' ∧ match r with Ok _ => Forall (copia_buena s' id) es | Err e => exists ruta, e = Incompleto ruta | _ => False end.
Proof.
  induction es as [|e es IH]; intros s r s'; cbn [mfor]; [by intros [= <- <-]|]. rewrite bind_eq. unfold releer_una at 1, copia_buena.
  destruct (e_respaldo e) as [c|] eqn:Ec; cbn [mret M_ret].
  - rewrite bind_eq. unfold total. pose proof (releer_copia_spec id (e_path e) s) as Hr.
    destruct (releer_copia id (e_path e) s) as [o s1]. destruct Hr as (Ho & Hi).
    destruct o as [leido|]; cbn [of_option]; rewrite bind_eq; cbn [mret M_ret throw]; [|intros [= <- <-]; split; [done|by eexists]].
    destruct (cuadra leido c) eqn:Eq; cbn [negb mret M_ret throw]; [|intros [= <- <-]; split; [done|by eexists]].
    intros (Hi' & Hr)%IH. destruct Hi as (? & Hc & ?), Hi' as (? & Hc' & ?). split; [split; [congruence|split; congruence]|].
    destruct r as [[]| | |]; try done. constructor; [|done]. rewrite Ec. exists leido. split; [|done].
    destruct Ho as [Ho|Ho]; [|done]. by rewrite Hc', Hc, <- Ho.
  - intros (Hi' & Hr)%IH. split; [done|]. destruct r as [[]| | |]; try done. constructor; [|done]. by rewrite Ec.
Qed.

Lemma suma64_run {E} l : forall n (s : S), exists r, mfold add64 n l s = ((r : outcome E N), s) ∧ match r with Err _ => False | _ => True end.
Proof.
  induction l as [|x l IH]; intros n s; cbn [mfold]; [by eexists|]. rewrite bind_eq. unfold add64 at 1.
  destruct (n + x <? U64); cbn; [apply IH|]. by eexists.
Qed.

Lemma reserva_run {E} p (s : S) : exists r, reserva_efectiva p s = ((r : outcome E N), s) ∧ match r with Err _ => False | _ => True end.
Proof.
  unfold reserva_efectiva, bytes_a_restaurar, suma64. rewrite !bind_eq. destruct (suma64_run (E := E) (tamanos (p_entradas p)) 0 s) as (r & -> & Hr).
  destruct r as [n| | |]; try done; [|by eexists|by eexists]. unfold add64. destruct (_ <? _); cbn; by eexists.
Qed.

(** The record a new point should have. *)
Definition punto_esperado (s : S) (id : TxnId) (version build guid : str) (kernel : Contenido) (cs : list Cambio) : Punto :=
  punto_nuevo id version build guid kernel (entrada_del_cambio (sistema s) <$> cs).

Lemma crear_punto_run id version build guid kernel cs s r s' :
  crear_punto id version build guid kernel cs s = (r, s') ->
  sistema s' = sistema s ∧
  match r with
  | Ok p => p = punto_esperado s id version build guid kernel cs ∧ punto_de s' id = Some p ∧ Forall (copia_buena s' id) (p_entradas p)
  | Err RegistroC => punto_de s' id = punto_de s id ∨
      (punto_de s' id = Some (punto_esperado s id version build guid kernel cs) ∧
       Forall (copia_buena s' id) (entrada_del_cambio (sistema s) <$> cs))
  | _ => punto_de s' = punto_de s
  end.
Proof.
  unfold crear_punto. rewrite bind_eq. destruct (inventario_run cs ([], []) s) as (s1 & -> & Ha & _ & Hp). cbn [app fst snd].
  fold (punto_esperado s id version build guid kernel cs).
  rewrite bind_eq. unfold suma64. destruct (suma64_run (E := CrearError) (lenN ∘ snd <$> omap (copia_del_cambio (sistema s)) cs) 0 s1) as (r1 & -> & Hr1).
  destruct r1 as [n| | |]; try done; try by (intros [= <- <-]).
  rewrite bind_eq. destruct (reserva_run (E := CrearError) (punto_esperado s id version build guid kernel cs) s1) as (r2 & -> & Hr2).
  destruct r2 as [m| | |]; try done; try by (intros [= <- <-]).
  rewrite bind_eq. unfold add64. destruct (_ <? U64); cbn [mret M_ret panic]; [|by intros [= <- <-]].
  rewrite bind_eq. unfold total. pose proof (espacio_libre_spec s1) as He. destruct (espacio_libre s1) as [libre s2]. destruct He as (Ha2 & _ & Hp2).
  destruct (libre <? n + m); [intros [= <- <-]; by rewrite Ha2, Hp2|].
  rewrite bind_eq. destruct (mfor _ _ s2) as [r3 s3] eqn:E3. apply guardar_copias_run in E3 as ([Ha3 Hp3] & Hr3).
  destruct r3 as [[]|e| |]; try done; [|intros [= <- <-]; destruct Hr3 as [? ->]; split; congruence].
  rewrite bind_eq. destruct (mfor _ _ s3) as [r4 s4] eqn:E4. apply releer_run in E4 as ((Ha4 & Hc4 & Hp4) & Hr4).
  destruct r4 as [[]|e| |]; try done; [|intros [= <- <-]; destruct Hr4 as [? ->]; split; congruence].
  rewrite bind_eq. unfold con_fallo, zoom, Datatypes.id at 1.
  pose proof (guardar_punto_spec (punto_esperado s id version build guid kernel cs) s4) as Hg.
  destruct (guardar_punto (punto_esperado s id version build guid kernel cs) s4) as [r5 s5]. destruct Hg as (Ha5 & Hc5 & Hg). cbn [p_id punto_esperado punto_nuevo] in Hg.
  assert (Forall (copia_buena s5 id) (entrada_del_cambio (sistema s) <$> cs)) as Hb.
  { cbn [p_entradas punto_esperado punto_nuevo] in Hr4. eapply Forall_impl; [exact Hr4|]. intros e. unfold copia_buena. by rewrite Hc5. }
  destruct r5 as [[]|[]| |]; try done; intros [= <- <-]; (split; [congruence|]).
  - split; [done|]. split; [done|]. done.
  - cbn. destruct Hg as [Hg|Hg]; [right; done|left]. rewrite Hg. congruence.
Qed.
End CrearFacts.

(** ** Retention *)
Lemma elem_of_referencias a r : a ∈ referencias r ↔ r_activo r = Some a ∨ r_armado r = Some a.
Proof.
  unfold referencias. destruct (r_activo r) as [x|], (r_armado r) as [y|]; cbn; try case_bool_decide as Hb; set_solver.
Qed.

Lemma elem_of_a_recoger todos refs p : p ∈ a_recoger todos refs ↔ p ∈ todos ∧ (p ∉ refs) ∧ refs ≠ [].
Proof.
  unfold a_recoger. destruct refs as [|x refs]; [split; [by intros ?%not_elem_of_nil|by intros (_ & _ & ?)]|].
  rewrite list_elem_of_filter. naive_solver.
Qed.

(** Nothing is lost from the accounts in a step. *)
Lemma al_confirmar_cuenta ok r : (al_confirmar ok r).1 ++ referencias (al_confirmar ok r).2 ≡ₚ referencias r.
Proof.
  unfold al_confirmar, referencias. destruct r as [[a|] [n|]]; cbn; try done; destruct ok; cbn; try done.
  all: repeat case_bool_decide; cbn; set_solver || (try done); try (by f_equiv); subst; done.
Qed.
Lemma al_revertir_cuenta r : (al_revertir r).1 ++ referencias (al_revertir r).2 ≡ₚ referencias r.
Proof.
  unfold al_revertir, referencias. destruct r as [[a|] [n|]]; cbn; try done.
  repeat case_bool_decide; cbn in *; try set_solver; try done. apply Permutation_swap.
Qed.

(** The life of the retained points from [r0]: the points armed, each a new one; the
    ones given up, in order; and what is retained. [bueno] says of which points
    every backup reads back with its size and hash, what the confirmation is told. *)
Section Vida.
Variable bueno : TxnId -> bool.
Inductive vida (r0 : Retencion) : list TxnId -> list TxnId -> Retencion -> Prop :=
| vida_nada : vida r0 [] [] r0
| vida_armar n ar fu r : vida r0 ar fu r -> r_armado r = None -> n ∉ referencias r0 ++ ar ->
    vida r0 (ar ++ [n]) fu (mkRetencion (r_activo r) (Some n))
| vida_confirmar ok ar fu r : vida r0 ar fu r -> (forall n, r_armado r = Some n -> ok = bueno n) ->
    vida r0 ar (fu ++ (al_confirmar ok r).1) (al_confirmar ok r).2
| vida_revertir ar fu r : vida r0 ar fu r -> vida r0 ar (fu ++ (al_revertir r).1) (al_revertir r).2.

Lemma vida_cuenta r0 ar fu r : vida r0 ar fu r -> fu ++ referencias r ≡ₚ referencias r0 ++ ar ∧ NoDup (referencias r0 ++ ar) ∧
  ((forall p, r_activo r0 = Some p -> bueno p = true) -> forall p, r_activo r = Some p -> bueno p = true) ∧
  (is_Some (r_activo r0) -> is_Some (r_activo r)).
Proof.
  induction 1 as [|n ar fu r _ (IH & Hd & Hb & Ha) Hn Hf|ok ar fu r _ (IH & Hd & Hb & Ha) Hok|ar fu r _ (IH & Hd & Hb & Ha)].
  - rewrite app_nil_r. split; [done|]. split; [|done]. unfold referencias.
    destruct (r_activo r0) as [x|], (r_armado r0) as [y|]; cbn; repeat case_bool_decide; repeat constructor; set_solver.
  - split; [|split; [rewrite app_assoc; apply NoDup_app; split; [done|]; split; [set_solver|apply NoDup_singleton]|done]].
    rewrite (app_assoc (referencias r0)), <- IH, <- app_assoc. f_equiv. unfold referencias at 1. cbn.
    assert (referencias r = match r_activo r with Some a => [a] | None => [] end) as Hr by (unfold referencias; by rewrite Hn).
    rewrite bool_decide_eq_false_2; [by rewrite Hr|]. intros Hin. apply Hf. rewrite <- IH, Hr. apply elem_of_app. by right.
  - rewrite <- app_assoc, al_confirmar_cuenta. split; [done|]. split; [done|]. unfold al_confirmar.
    destruct r as [ac [n|]]; cbn [r_armado r_activo] in *; [|done]. rewrite (Hok n eq_refl). destruct (bueno n) eqn:Eb; cbn; [|done].
    split; [by intros _ p [= <-]|by eexists].
  - rewrite <- app_assoc, al_revertir_cuenta. split; [done|]. split; [done|done].
Qed.
End Vida.
