(* ===== verification/OtaIdentidad.v ===== *)
(** * Update: who is booting

    [crates/soso-update-core/src/identity.rs]: live or installed, declared in
    a record of the ESP that names its own partition. Only an explicit and
    own identity lets the FAT log be retired. *)
From S2P Require Import Prelude Texto OtaHash OtaRecord OtaTxn OtaBootrec.
Local Open Scope N_scope.

Definition MODE_MAGIC : str := txt "SOSOMODE".
Definition MODE_FORMATO : N := 1.
Definition MODE_SIZE : N := SLOT_SIZE * SLOTS.

Inductive BootMode := Live | Installed.
#[export] Instance BootMode_eq_dec : EqDecision BootMode.
Proof. solve_decision. Defined.
Definition modo_str (m : BootMode) : str := match m with Live => txt "live" | Installed => txt "installed" end.
Definition modo_parse (s : str) : option BootMode := literal s [(txt "live", Live); (txt "installed", Installed)].
Definition usa_fatlog (m : BootMode) : bool := match m with Live => true | _ => false end.

Record ModeRecord := mkModeRecord { m_modo : BootMode; m_seq : N; m_fecha : str; m_esp_guid : str }.

Inductive ModeError := RegistroM (e : RecordError) | ModoInvalido.
Inductive Identidad := Explicita (r : ModeRecord) | Heredada | Rota (e : ModeError) | Ajena (r : ModeRecord).

Definition identidad_modo (i : Identidad) : BootMode :=
  match i with Explicita r => m_modo r | Ajena _ | Heredada | Rota _ => Live end.
Definition puede_retirar_fatlog (i : Identidad) : bool :=
  match i with Explicita r => bool_decide (m_modo r = Installed) | _ => false end.

Definition cuerpo_modo (r : ModeRecord) : str :=
  txt "modo=" ++ modo_str (m_modo r) ++ [LF]
  ++ txt "fecha=" ++ m_fecha r ++ [LF]
  ++ txt "esp_guid=" ++ m_esp_guid r ++ [LF].
Definition modo_ranura (r : ModeRecord) : N := ranura (m_seq r) SLOTS.

Section Identidad.
Context `{Crc32c}.

Definition modo_format (r : ModeRecord) : ModeError + list byte :=
  map_err RegistroM (frame_slot MODE_MAGIC MODE_FORMATO (m_seq r) (cuerpo_modo r) SLOT_SIZE).

Definition resolver (fichero : option (list byte)) (esp_guid : str) : Identidad :=
  match fichero with
  | None => Heredada
  | Some bytes =>
      match pick MODE_MAGIC MODE_FORMATO (ranuras bytes) with
      | inl Vacia => Heredada
      | inl e => Rota (RegistroM e)
      | inr (_, f) =>
          match (m ← campo f (txt "modo"); modo_parse m) with
          | None => Rota ModoInvalido
          | Some modo =>
              let rec := mkModeRecord modo (f_seq f) (default [] (campo f (txt "fecha"))) (default [] (campo f (txt "esp_guid"))) in
              if negb (bool_decide (m_esp_guid rec = [])) && negb (eq_ignore_ascii_case (m_esp_guid rec) esp_guid)
              then Ajena rec
              else Explicita rec
          end
      end
  end.
End Identidad.

(** ** Facts *)
Lemma retirar_exige_propia `{Crc32c} fichero guid : puede_retirar_fatlog (resolver fichero guid) = true ->
  exists r bytes i f, fichero = Some bytes ∧ resolver fichero guid = Explicita r ∧ m_modo r = Installed ∧
    (m_esp_guid r = [] ∨ eq_ignore_ascii_case (m_esp_guid r) guid = true) ∧
    pick MODE_MAGIC MODE_FORMATO (ranuras bytes) = inr (i, f) ∧ campo f (txt "modo") = Some (txt "installed").
Proof.
  unfold resolver. destruct fichero as [bytes|]; [|done].
  destruct (pick MODE_MAGIC MODE_FORMATO (ranuras bytes)) as [e|[i f]] eqn:Ep; [by destruct e|].
  destruct (campo f (txt "modo")) as [m|] eqn:Em; cbn [mbind option_bind]; [|done].
  destruct (modo_parse m) as [modo|] eqn:Ed; [|done].
  set (rec := mkModeRecord _ _ _ _). destruct (negb (bool_decide (m_esp_guid rec = [])) && negb (eq_ignore_ascii_case (m_esp_guid rec) guid)) eqn:Eg; [done|].
  intros Hp. unfold puede_retirar_fatlog in Hp. apply bool_decide_eq_true in Hp as Hm. exists rec, bytes, i, f. split; [done|]. split; [done|]. split; [done|]. split; [|split; [done|]].
  - apply andb_false_iff in Eg as [Eg|Eg]; apply negb_false_iff in Eg; [left; by apply bool_decide_eq_true in Eg|by right].
  - rewrite Em. apply literal_Some in Ed. cbn in Hm.
    repeat (apply elem_of_cons in Ed as [Ed|Ed]; [injection Ed as -> ?; congruence|]). by apply not_elem_of_nil in Ed.
Qed.

(** Reading the records a machine has written. *)
Definition modo_ok (r : ModeRecord) : Prop := m_seq r < U64 ∧ valor_ok (m_fecha r) ∧ valor_ok (m_esp_guid r).

Definition renglones_modo (r : ModeRecord) : list str :=
  [txt "modo=" ++ modo_str (m_modo r); txt "fecha=" ++ m_fecha r; txt "esp_guid=" ++ m_esp_guid r].
Lemma cuerpo_modo_unlines r : cuerpo_modo r = unlines (renglones_modo r).
Proof. unfold cuerpo_modo, renglones_modo. rewrite !unlines_cons. change (unlines []) with (@nil byte). by junta. Qed.

Lemma renglones_modo_ok r : modo_ok r -> Forall linea_ok (renglones_modo r).
Proof.
  intros (_ & Hf & Hg). unfold renglones_modo.
  constructor; [apply (linea_clave "m" (txt "odo")); [done|by repeat constructor|done|apply valor_visible; destruct (m_modo r); by repeat constructor]|].
  constructor; [apply (linea_clave "f" (txt "echa")); [done|by repeat constructor|done|done]|].
  constructor; [apply (linea_clave "e" (txt "sp_guid")); [done|by repeat constructor|done|done]|constructor].
Qed.

Section IdentidadFacts.
Context `{Crc32c}.

Lemma modo_magic : magic_ok MODE_MAGIC.
Proof. split; [split; [set_solver|done]|done|set_solver|done|done]. Qed.

Lemma modo_parse_format r raw : modo_ok r -> modo_format r = inr raw ->
  lenN raw = SLOT_SIZE ∧ parse MODE_MAGIC MODE_FORMATO raw = inr (mkFramed MODE_FORMATO (m_seq r) (cuerpo_modo r)).
Proof.
  intros Hr Hf. unfold modo_format in Hf. rewrite cuerpo_modo_unlines in *.
  destruct (frame_slot _ _ _ _ _) as [e|raw'] eqn:Es; [done|]. injection Hf as ->.
  apply (parse_frame_slot _ MODE_FORMATO) in Es; [done|apply modo_magic|by apply renglones_modo_ok|done|done|by destruct Hr].
Qed.

Lemma resolver_explicita bytes i r guid : modo_ok r ->
  pick MODE_MAGIC MODE_FORMATO (ranuras bytes) = inr (i, mkFramed MODE_FORMATO (m_seq r) (cuerpo_modo r)) ->
  resolver (Some bytes) guid =
    (if negb (bool_decide (m_esp_guid r = [])) && negb (eq_ignore_ascii_case (m_esp_guid r) guid) then Ajena r else Explicita r).
Proof.
  intros Hr Hp. unfold resolver. rewrite Hp. rewrite cuerpo_modo_unlines, !campo_cuerpo by by apply renglones_modo_ok.
  pose proof (renglones_modo_ok _ Hr) as Hl. unfold renglones_modo in *.
  apply Forall_cons in Hl as [? Hl]. apply Forall_cons in Hl as [? Hl]. apply Forall_cons in Hl as [? _].
  repeat first [rewrite (campo_aqui (txt "modo")) by done | rewrite (campo_aqui (txt "fecha")) by done
    | rewrite (campo_aqui (txt "esp_guid")) by done | rewrite campo_sigue by done].
  cbn [mbind option_bind default f_seq]. assert (modo_parse (modo_str (m_modo r)) = Some (m_modo r)) as -> by by destruct (m_modo r).
  by destruct r.
Qed.
End IdentidadFacts.
