(* ===== verification/OtaKernel.v ===== *)
(** * Update: the kernel slot and its mailbox

    [crates/soso-update-core/src/mailbox.rs], [kernel_meta.rs] and
    [kernel_apply.rs]: the commands the client, the shim and init pass each
    other, the durable phase of a kernel update and what to do after a cut. *)
From S2P Require Import Prelude Texto OtaHash OtaRecord OtaTxn.
Local Open Scope N_scope.

(** ** The mailbox *)
Definition UPD_MAILBOX_SIZE : N := 4096.
Definition MAILBOX_MAGIC : str := txt "SOSOUPD v1".

Inductive MailboxCmd :=
| CIdle
| CKernel (size : N) (hash version : str)
| CProbando (version : str)
| COk (version : str)
| CRevertir
| CRevertido (version : str).
#[export] Instance MailboxCmd_eq_dec : EqDecision MailboxCmd.
Proof. solve_decision. Defined.

Definition buzon_linea (cmd : MailboxCmd) (line : str) : MailboxCmd :=
  let line := trim line in
  if bool_decide (line = []) || bool_decide (line = MAILBOX_MAGIC) then cmd
  else
    match strip_prefix (txt "KERNEL ") line with
    | Some rest =>
        match split_once SP rest with
        | Some (size, rest) =>
            match split_once SP rest with
            | Some (hash, ver) => CKernel (default 0 (parse_uint U64 size)) hash ver
            | None => cmd
            end
        | None => cmd
        end
    | None =>
        match strip_prefix (txt "PROBANDO ") line with
        | Some ver => CProbando (trim ver)
        | None =>
            match strip_prefix (txt "OK ") line with
            | Some ver => COk (trim ver)
            | None =>
                if bool_decide (line = txt "REVERTIR") then CRevertir
                else match strip_prefix (txt "REVERTIDO ") line with
                     | Some ver => CRevertido (trim ver)
                     | None => cmd
                     end
            end
        end
    end.
Definition buzon_parse (text : str) : MailboxCmd := foldl buzon_linea CIdle (lines text).

Definition format_payload (body : str) : list byte :=
  let out := MAILBOX_MAGIC ++ [LF] ++ match body with [] => [] | _ => body ++ [LF] end in
  take (N.to_nat UPD_MAILBOX_SIZE) (out ++ replicate (N.to_nat UPD_MAILBOX_SIZE - length out) LF).

Definition format_kernel (size : N) (hash version : str) : list byte :=
  format_payload (txt "KERNEL " ++ dec size ++ txt " " ++ hash ++ txt " " ++ version).
Definition format_probando (version : str) : list byte := format_payload (txt "PROBANDO " ++ version).
Definition format_ok (version : str) : list byte := format_payload (txt "OK " ++ version).
Definition format_revertir : list byte := format_payload (txt "REVERTIR").
Definition format_revertido (version : str) : list byte := format_payload (txt "REVERTIDO " ++ version).
Definition format_idle : list byte := format_payload [].

(** ** The metadata of the slot *)
Definition KERNEL_META_MAGIC : str := txt "SOSOKRN v1".
Definition KERNEL_META_SIZE : N := 512.

Inductive KernelPhase := KIdle | KStaged | KBackupReady | KApplying | KProbando.
#[export] Instance KernelPhase_eq_dec : EqDecision KernelPhase.
Proof. solve_decision. Defined.
Definition phase_str (p : KernelPhase) : str :=
  match p with
  | KIdle => txt "idle" | KStaged => txt "staged" | KBackupReady => txt "backup"
  | KApplying => txt "applying" | KProbando => txt "probando"
  end.
Definition phase_parse (s : str) : option KernelPhase :=
  literal s [(txt "idle", KIdle); (txt "staged", KStaged); (txt "backup", KBackupReady);
             (txt "applying", KApplying); (txt "probando", KProbando)].

Record KernelMeta := mkKernelMeta {
  k_phase : KernelPhase;
  k_version : str;
  k_new_size : N;
  k_new_hash : str;
  k_backup_size : N;
  k_backup_hash : str;
}.

Inductive MetaError := MBadMagic | MBadPhase | MMissingField | MBadHash | MBackupTooShort | MBackupHashMismatch | MBackupEmpty.

Definition meta_idle : KernelMeta := mkKernelMeta KIdle [] 0 [] 0 [].
Definition meta_staged (version : str) (new_size : N) (new_hash : str) : KernelMeta :=
  mkKernelMeta KStaged version new_size new_hash 0 [].

Definition needs_recovery (m : KernelMeta) : bool :=
  match k_phase m with KApplying | KBackupReady => true | _ => false end
  && (0 <? k_backup_size m) && (lenN (k_backup_hash m) =? 64).

(** One field of a line, after the magic was seen. *)
Definition meta_campo (m : KernelMeta) (line : str) : MetaError + KernelMeta :=
  let '(mkKernelMeta ph ve ns nh bs bh) := m in
  match strip_prefix (txt "phase=") line with
  | Some v => p ← ok_or MBadPhase (phase_parse v); mret (mkKernelMeta p ve ns nh bs bh)
  | None =>
  match strip_prefix (txt "version=") line with
  | Some v => mret (mkKernelMeta ph v ns nh bs bh)
  | None =>
  match strip_prefix (txt "new_size=") line with
  | Some v => n ← ok_or MMissingField (parse_uint U64 v); mret (mkKernelMeta ph ve n nh bs bh)
  | None =>
  match strip_prefix (txt "new_hash=") line with
  | Some v => mret (mkKernelMeta ph ve ns v bs bh)
  | None =>
  match strip_prefix (txt "backup_size=") line with
  | Some v => n ← ok_or MMissingField (parse_uint U64 v); mret (mkKernelMeta ph ve ns nh n bh)
  | None =>
  match strip_prefix (txt "backup_hash=") line with
  | Some v => mret (mkKernelMeta ph ve ns nh bs v)
  | None => mret m
  end end end end end end.

Fixpoint meta_lineas (saw_magic : bool) (m : KernelMeta) (ls : list str) : MetaError + (bool * KernelMeta) :=
  match ls with
  | [] => mret (saw_magic, m)
  | l :: ls =>
      let line := trim l in
      if bool_decide (line = []) then meta_lineas saw_magic m ls
      else if bool_decide (line = KERNEL_META_MAGIC) then meta_lineas true m ls
      else if negb saw_magic then inl MBadMagic
      else m ← meta_campo m line; meta_lineas saw_magic m ls
  end.
Definition meta_parse (text : str) : MetaError + KernelMeta :=
  sm ← meta_lineas false meta_idle (lines text);
  if negb sm.1 then inl MBadMagic else mret sm.2.

Definition si {A} (b : bool) (l : list A) : list A := if b then l else [].
Definition cuerpo_meta (m : KernelMeta) : str :=
  KERNEL_META_MAGIC ++ [LF]
  ++ txt "phase=" ++ phase_str (k_phase m) ++ [LF]
  ++ si (negb (bool_decide (k_version m = []))) (txt "version=" ++ k_version m ++ [LF])
  ++ si (0 <? k_new_size m) (txt "new_size=" ++ dec (k_new_size m) ++ [LF])
  ++ si (negb (bool_decide (k_new_hash m = []))) (txt "new_hash=" ++ k_new_hash m ++ [LF])
  ++ si (0 <? k_backup_size m) (txt "backup_size=" ++ dec (k_backup_size m) ++ [LF])
  ++ si (negb (bool_decide (k_backup_hash m = []))) (txt "backup_hash=" ++ k_backup_hash m ++ [LF]).
Definition meta_format (m : KernelMeta) : list byte :=
  let out := cuerpo_meta m in
  if KERNEL_META_SIZE <? lenN out then take (N.to_nat KERNEL_META_SIZE) out
  else out ++ replicate (N.to_nat KERNEL_META_SIZE - length out) LF.

Section Kernel.
Context `{Sha256}.

Definition verify_new_kernel (m : KernelMeta) (data : list byte) : MetaError + unit :=
  if (k_new_size m =? 0) || (lenN data <? k_new_size m) then inl MMissingField
  else
    let slice := take (N.to_nat (k_new_size m)) data in
    if bool_decide (decode_hex_sha256 (k_new_hash m) = None) then inl MBadHash
    else if negb (bool_decide (hex_sha256 slice = k_new_hash m)) then inl MBadHash
    else inr tt.

Definition verify_backup (m : KernelMeta) (slot : list byte) : MetaError + list byte :=
  if k_backup_size m =? 0 then inl MBackupEmpty
  else if lenN slot <? k_backup_size m then inl MBackupTooShort
  else if bool_decide (decode_hex_sha256 (k_backup_hash m) = None) then inl MBadHash
  else
    let slice := take (N.to_nat (k_backup_size m)) slot in
    if negb (bool_decide (hex_sha256 slice = k_backup_hash m)) then inl MBackupHashMismatch
    else inr slice.

Definition backup_digest (data : list byte) : N * str := (lenN data, hex_sha256 data).

(** ** After a cut *)
Inductive AfterInterrupt := RecoverBackup | CompleteProbandoMailbox (version : str) | ContinueMailbox.

Definition after_interrupt (meta : KernelMeta) (mb : MailboxCmd) : AfterInterrupt :=
  if needs_recovery meta then RecoverBackup
  else if bool_decide (k_phase meta = KProbando) then
    match mb with
    | CKernel _ _ _ | CIdle => CompleteProbandoMailbox (k_version meta)
    | CProbando _ | COk _ | CRevertir | CRevertido _ => ContinueMailbox
    end
  else ContinueMailbox.

Inductive ApplyError := InvalidSize | HashMismatch | AMeta (e : MetaError).

Definition sha256_eq (data : list byte) (size : N) (expect : list byte) : bool :=
  bool_decide (sha256 (take (N.to_nat size) data) = expect).
Definition verify_staged_kernel (data : list byte) (size : N) (hash_hex : str) : ApplyError + unit :=
  if (size =? 0) || (lenN data <? size) then inl InvalidSize
  else
    expect ← ok_or HashMismatch (decode_hex_sha256 hash_hex);
    if sha256_eq data size expect then inr tt else inl HashMismatch.

Record ApplyPlan := mkApplyPlan {
  a_backup : list byte;
  a_backup_size : N;
  a_backup_hash : str;
  a_new_kernel : list byte;
  a_meta_after_backup : KernelMeta;
  a_meta_probando : KernelMeta;
}.

Definition plan_apply (old_kernel staged : list byte) (size : N) (hash_hex version : str) : ApplyError + ApplyPlan :=
  _ ← verify_staged_kernel staged size hash_hex;
  let '(backup_size, backup_hash) := backup_digest old_kernel in
  let st := meta_staged version size hash_hex in
  let meta := mkKernelMeta KBackupReady (k_version st) (k_new_size st) (k_new_hash st) backup_size backup_hash in
  let probando := mkKernelMeta KProbando (k_version meta) (k_new_size meta) (k_new_hash meta) (k_backup_size meta) (k_backup_hash meta) in
  mret (mkApplyPlan old_kernel backup_size backup_hash (take (N.to_nat size) staged) meta probando).

Definition restore_from_slot (slot : list byte) (meta : KernelMeta) : ApplyError + list byte :=
  map_err AMeta (verify_backup meta slot).
End Kernel.

(** ** Reading the mailbox back *)
Definition una_linea (l : str) : Prop := linea l ∧ l ≠ [] ∧ l ≠ MAILBOX_MAGIC.

Lemma buzon_relleno n cmd : foldl buzon_linea cmd (lines (replicate n LF)) = cmd.
Proof.
  induction n as [|n IH]; [done|]. cbn [replicate].
  change (LF :: replicate n LF) with ([] ++ LF :: replicate n LF). rewrite lines_cons by (split; [set_solver|done]). cbn [foldl].
  change (buzon_linea cmd []) with cmd. apply IH.
Qed.

Lemma buzon_payload body : una_linea body -> lenN MAILBOX_MAGIC + 2 + lenN body <= UPD_MAILBOX_SIZE ->
  lenN (format_payload body) = UPD_MAILBOX_SIZE ∧ buzon_parse (format_payload body) = buzon_linea CIdle body.
Proof.
  intros (Hl & Hne & _) Hlen. unfold format_payload.
  assert (match body with [] => [] | _ => body ++ [LF] end = body ++ [LF]) as -> by by destruct body.
  set (n := (_ - _)%nat).
  assert (length (MAILBOX_MAGIC ++ [LF] ++ body ++ [LF]) <= N.to_nat UPD_MAILBOX_SIZE)%nat as Hout.
  { rewrite !length_app. unfold lenN in Hlen. cbn [length]. lia. }
  rewrite take_ge by (rewrite length_app, length_replicate; lia). split.
  - unfold lenN. rewrite length_app, length_replicate. lia.
  - clearbody n. unfold buzon_parse. rewrite <- !app_assoc. cbn [app].
    change (lines ?l) with (lines (MAILBOX_MAGIC ++ LF :: body ++ LF :: replicate n LF)).
    rewrite lines_cons by (split; [set_solver|done]).
    cbn [foldl]. change (buzon_linea CIdle MAILBOX_MAGIC) with CIdle.
    rewrite lines_cons by done. cbn [foldl]. apply buzon_relleno.
Qed.

(** A word: printable, not empty. *)
Definition palabra (v : str) : Prop := v ≠ [] ∧ Forall (fun b => visible b = true) v.

Lemma palabra_linea c k v : visible c = true -> Forall (fun b => imprimible b = true) k -> palabra v -> linea ((c :: k) ++ v).
Proof.
  intros Hc Hk [Hne Hv]. assert (Forall (fun b => imprimible b = true) ((c :: k) ++ v)) as Hp.
  { apply Forall_app. split; [constructor; [by apply visible_imprimible|done]|by apply visibles_imprimibles]. }
  destruct (imprimible_texto _ Hp) as (H1 & _ & _). split; [done|]. split; [by apply ws_head_visible|].
  destruct v as [|b v _] using rev_ind; [done|]. apply Forall_app in Hv as [_ Hb]. apply Forall_cons in Hb as [Hb _].
  rewrite app_assoc, reverse_app. by apply ws_last_visible.
Qed.

Lemma palabra_trim v : palabra v -> trim v = v.
Proof. intros [_ Hv]. by apply trim_recortada, recortada_visible. Qed.

Lemma buzon_kernel size hash version : palabra hash -> palabra version -> size < U64 ->
  lenN (txt "KERNEL " ++ dec size ++ txt " " ++ hash ++ txt " " ++ version) <= 4000 ->
  buzon_parse (format_kernel size hash version) = CKernel size hash version.
Proof.
  intros Hh Hv Hs Hlen. unfold format_kernel. set (body := txt "KERNEL " ++ _) in *.
  assert (linea body) as Hl.
  { replace body with (("K"%byte :: txt "ERNEL " ++ dec size ++ txt " " ++ hash ++ txt " ") ++ version) by (unfold body; by junta).
    apply palabra_linea; [done| |done]. destruct Hh as [_ Hh]. repeat (apply Forall_app; split); try (by repeat constructor).
    - apply visibles_imprimibles, dec_visible.
    - by apply visibles_imprimibles. }
  destruct (buzon_payload body) as [_ ->]; [split; [done|split; [done|done]]|unfold UPD_MAILBOX_SIZE; change (lenN MAILBOX_MAGIC) with 10; lia|].
  unfold buzon_linea. destruct Hl as [_ Hr]. rewrite (trim_recortada body) by done.
  rewrite !bool_decide_eq_false_2 by done. cbn [orb]. unfold body at 1. rewrite strip_prefix_app.
  change (txt " ") with [SP]. cbn [app]. rewrite split_once_app by apply visible_SP, dec_visible.
  rewrite split_once_app by (destruct Hh; by apply visible_SP). by rewrite parse_dec.
Qed.

(** ** The slot keeps the old kernel *)
Section KernelFacts.
Context `{Sha256}.

Lemma decode_hex_of_sha (d : list byte) : decode_hex_sha256 (hex_sha256 d) = Some (sha256 d).
Proof. apply decode_hex_of, sha256_length. Qed.

Lemma verify_backup_digest m data rest : k_backup_size m = lenN data -> k_backup_hash m = hex_sha256 data -> data ≠ [] ->
  verify_backup m (data ++ rest) = inr data.
Proof.
  intros Hs Hh Hne. unfold verify_backup. rewrite Hs, Hh.
  destruct (lenN data =? 0) eqn:E0; [apply N.eqb_eq in E0; unfold lenN in E0; destruct data; [done|cbn [length] in E0; lia]|].
  destruct (_ <? _) eqn:El; [apply N.ltb_lt in El; unfold lenN in El; rewrite length_app in El; lia|].
  rewrite decode_hex_of_sha. cbn [bool_decide]. rewrite bool_decide_eq_false_2 by done.
  unfold lenN. rewrite Nat2N.id, take_app_length. by rewrite bool_decide_eq_true_2.
Qed.

(** A planned update: the slot as the plan leaves it always gives the old
    kernel back, whatever follows it, and until the new one is on the ESP
    an interrupted update recovers it. *)
Definition plan_recuperable (old staged : list byte) (size : N) (hash : str) (p : ApplyPlan) : Prop :=
  (forall rest, restore_from_slot (a_backup p ++ rest) (a_meta_after_backup p) = inr old) ∧
  (forall mb, after_interrupt (a_meta_after_backup p) mb = RecoverBackup) ∧
  (forall mb, after_interrupt (a_meta_probando p) mb ≠ RecoverBackup) ∧
  a_new_kernel p `prefix_of` staged ∧ lenN (a_new_kernel p) = size ∧
  decode_hex_sha256 hash = Some (sha256 (a_new_kernel p)).

Lemma plan_apply_recuperable old staged size hash version p : old ≠ [] ->
  plan_apply old staged size hash version = inr p -> plan_recuperable old staged size hash p.
Proof.
  intros Hne Hp. unfold plan_apply, verify_staged_kernel in Hp.
  destruct ((size =? 0) || (lenN staged <? size)) eqn:Es; [done|]. apply orb_false_iff in Es as [_ Es]. apply N.ltb_ge in Es.
  destruct (decode_hex_sha256 hash) as [e|] eqn:Eh; [|done].
  destruct (sha256_eq staged size e) eqn:Eq; cbn in Hp; rewrite ?Eq in Hp; [|done].
  unfold sha256_eq in Eq. apply bool_decide_eq_true in Eq. injection Hp as <-.
  repeat split; cbn [a_backup a_meta_after_backup a_meta_probando a_new_kernel].
  - intros rest. unfold restore_from_slot. by rewrite verify_backup_digest.
  - intros mb. unfold after_interrupt, needs_recovery. cbn [k_phase k_backup_size k_backup_hash].
    assert ((0 <? lenN old) = true) as -> by (apply N.ltb_lt; unfold lenN; destruct old; [done|cbn [length]; lia]).
    assert ((lenN (hex_sha256 old) =? 64) = true) as ->; [|done].
    apply N.eqb_eq. unfold lenN, hex_sha256. by rewrite hex_of_length, sha256_length.
  - intros mb. unfold after_interrupt, needs_recovery. cbn [k_phase k_version andb]. by destruct mb.
  - apply prefix_take.
  - unfold lenN in *. rewrite length_take. lia.
  - by rewrite Eh, Eq.
Qed.

Lemma plan_apply_err old staged size hash version e : plan_apply old staged size hash version = inl e ->
  verify_staged_kernel staged size hash = inl e.
Proof.
  unfold plan_apply. destruct (verify_staged_kernel staged size hash) as [e'|[]]; cbn; [|by destruct (backup_digest old)].
  by intros [= ->].
Qed.
End KernelFacts.

(** ** The metadata, read back *)
Definition palabra_o_nada (v : str) : Prop := v = [] ∨ palabra v.
Definition meta_ok (m : KernelMeta) : Prop :=
  palabra_o_nada (k_version m) ∧ palabra_o_nada (k_new_hash m) ∧ palabra_o_nada (k_backup_hash m) ∧
  k_new_size m < U64 ∧ k_backup_size m < U64.

Definition renglones_meta (m : KernelMeta) : list str :=
  KERNEL_META_MAGIC :: (txt "phase=" ++ phase_str (k_phase m)) ::
  si (negb (bool_decide (k_version m = []))) [txt "version=" ++ k_version m]
  ++ si (0 <? k_new_size m) [txt "new_size=" ++ dec (k_new_size m)]
  ++ si (negb (bool_decide (k_new_hash m = []))) [txt "new_hash=" ++ k_new_hash m]
  ++ si (0 <? k_backup_size m) [txt "backup_size=" ++ dec (k_backup_size m)]
  ++ si (negb (bool_decide (k_backup_hash m = []))) [txt "backup_hash=" ++ k_backup_hash m].

Lemma unlines_si b l : unlines (si b [l]) = si b (l ++ [LF]).
Proof. destruct b; [|done]. cbn [si]. rewrite unlines_cons. done. Qed.

Lemma cuerpo_meta_unlines m : cuerpo_meta m = unlines (renglones_meta m).
Proof.
  unfold cuerpo_meta, renglones_meta. rewrite !unlines_cons, !unlines_app, !unlines_si. by junta.
Qed.

Lemma linea_si (b : bool) c k v : (b = true -> palabra v) -> visible c = true -> Forall (fun b => imprimible b = true) k ->
  Forall linea (si b [(c :: k) ++ v]).
Proof. destruct b; [|constructor]. intros Hv Hc Hk. constructor; [|constructor]. apply palabra_linea; auto. Qed.

Lemma palabra_si v : palabra_o_nada v -> negb (bool_decide (v = [])) = true -> palabra v.
Proof. intros [-> |Hv] Hn; [done|done]. Qed.
Lemma palabra_dec n : palabra (dec n).
Proof. split; [apply dec_ne|apply dec_visible]. Qed.

Lemma renglones_meta_lineas m : meta_ok m -> Forall linea (renglones_meta m).
Proof.
  intros (Hv & Hh & Hb & _). unfold renglones_meta.
  constructor; [split; [set_solver|done]|].
  constructor; [apply (palabra_linea "p" (txt "hase=")); [done|by repeat constructor|split; [by destruct (k_phase m)|by destruct (k_phase m); repeat constructor]]|].
  repeat (apply Forall_app; split).
  - apply (linea_si _ "v" (txt "ersion=")); [by apply palabra_si|done|by repeat constructor].
  - apply (linea_si _ "n" (txt "ew_size=")); [intros _; apply palabra_dec|done|by repeat constructor].
  - apply (linea_si _ "n" (txt "ew_hash=")); [by apply palabra_si|done|by repeat constructor].
  - apply (linea_si _ "b" (txt "ackup_size=")); [intros _; apply palabra_dec|done|by repeat constructor].
  - apply (linea_si _ "b" (txt "ackup_hash=")); [by apply palabra_si|done|by repeat constructor].
Qed.

Lemma meta_lineas_si (b : bool) m m' c k v ls : (b = true -> linea ((c :: k) ++ v)) -> c ≠ "S"%byte ->
  (b = true -> meta_campo m ((c :: k) ++ v) = inr m') -> (b = false -> m' = m) ->
  meta_lineas true m (si b [(c :: k) ++ v] ++ ls) = meta_lineas true m' ls.
Proof.
  intros Hl Hc Hm Hm'. destruct b; [|by rewrite Hm']. cbn [si app meta_lineas]. destruct Hl as [_ Hr]; [done|].
  rewrite (trim_recortada (c :: k ++ v)) by done. rewrite bool_decide_eq_false_2 by done.
  rewrite bool_decide_eq_false_2 by (intros [= Heq]; done). cbn [negb]. change (c :: k ++ v) with ((c :: k) ++ v). by rewrite Hm.
Qed.

Lemma meta_campo_new_size ph ve ns nh bs bh n : n < U64 ->
  meta_campo (mkKernelMeta ph ve ns nh bs bh) (txt "new_size=" ++ dec n) = inr (mkKernelMeta ph ve n nh bs bh).
Proof. intros Hn. unfold meta_campo. rewrite !strip_prefix_clash by done. by rewrite strip_prefix_app, parse_dec. Qed.
Lemma meta_campo_backup_size ph ve ns nh bs bh n : n < U64 ->
  meta_campo (mkKernelMeta ph ve ns nh bs bh) (txt "backup_size=" ++ dec n) = inr (mkKernelMeta ph ve ns nh n bh).
Proof. intros Hn. unfold meta_campo. rewrite !strip_prefix_clash by done. by rewrite strip_prefix_app, parse_dec. Qed.

Lemma meta_relleno n m : meta_lineas true m (lines (replicate n LF)) = inr (true, m).
Proof.
  induction n as [|n IH]; [done|]. cbn [replicate]. change (LF :: replicate n LF) with ([] ++ LF :: replicate n LF).
  rewrite lines_cons by (split; [set_solver|done]). cbn [meta_lineas]. change (trim []) with (@nil byte). by rewrite bool_decide_eq_true_2.
Qed.

Lemma lines_unlines_app ls k : Forall linea ls -> lines (unlines ls ++ k) = ls ++ lines k.
Proof. induction 1 as [|l ls Hl _ IH]; [done|]. rewrite unlines_cons. junta. by rewrite lines_cons, IH. Qed.

Lemma meta_ida_y_vuelta m : meta_ok m -> lenN (cuerpo_meta m) <= KERNEL_META_SIZE ->
  lenN (meta_format m) = KERNEL_META_SIZE ∧ meta_parse (meta_format m) = inr m.
Proof.
  intros Hm Hlen. unfold meta_format. destruct (_ <? _) eqn:E; [apply N.ltb_lt in E; lia|]. split.
  { unfold lenN in *. rewrite length_app, length_replicate. lia. }
  unfold meta_parse. rewrite cuerpo_meta_unlines, lines_unlines_app by by apply renglones_meta_lineas.
  generalize (N.to_nat KERNEL_META_SIZE - length (unlines (renglones_meta m)))%nat. intros n.
  pose proof (renglones_meta_lineas m Hm) as Hl. destruct Hm as (Hv & Hh & Hb & Hns & Hbs).
  unfold renglones_meta in *. apply Forall_cons in Hl as [_ Hl]. apply Forall_cons in Hl as [Hl1 Hl].
  repeat (apply Forall_app in Hl as [? Hl]).
  rewrite <- app_comm_cons. cbn [meta_lineas]. change (trim KERNEL_META_MAGIC) with KERNEL_META_MAGIC.
  rewrite bool_decide_eq_false_2, bool_decide_eq_true_2 by done.
  destruct m as [ph ve ns nh bs bh]. cbn [k_phase k_version k_new_size k_new_hash k_backup_size k_backup_hash] in *.
  assert (forall b l, Forall linea (si b [l]) -> b = true -> linea l) as Hsi.
  { intros b l Hf ->. by apply Forall_cons in Hf as [? _]. }
  rewrite <- app_comm_cons. change (?l :: ?r) with (si true [l] ++ r) at 1.
  rewrite (meta_lineas_si true _ (mkKernelMeta ph [] 0 [] 0 []) "p" (txt "hase=")); [|done|done|by destruct ph|done].
  rewrite <- !app_assoc.
  rewrite (meta_lineas_si _ _ (mkKernelMeta ph ve 0 [] 0 []) "v" (txt "ersion=")); [|by apply Hsi|done|done|];
    [|intros Hf; apply negb_false_iff in Hf; apply bool_decide_eq_true in Hf; by subst].
  rewrite (meta_lineas_si _ _ (mkKernelMeta ph ve ns [] 0 []) "n" (txt "ew_size=")); [|by apply Hsi|done|intros _|];
    [|by apply meta_campo_new_size|intros Hf; apply N.ltb_ge in Hf; by assert (ns = 0) as -> by lia].
  rewrite (meta_lineas_si _ _ (mkKernelMeta ph ve ns nh 0 []) "n" (txt "ew_hash=")); [|by apply Hsi|done|done|];
    [|intros Hf; apply negb_false_iff in Hf; apply bool_decide_eq_true in Hf; by subst].
  rewrite (meta_lineas_si _ _ (mkKernelMeta ph ve ns nh bs []) "b" (txt "ackup_size=")); [|by apply Hsi|done|intros _|];
    [|by apply meta_campo_backup_size|intros Hf; apply N.ltb_ge in Hf; by assert (bs = 0) as -> by lia].
  rewrite (meta_lineas_si _ _ (mkKernelMeta ph ve ns nh bs bh) "b" (txt "ackup_hash=")); [|by apply Hsi|done|done|];
    [|intros Hf; apply negb_false_iff in Hf; apply bool_decide_eq_true in Hf; by subst].
  by rewrite meta_relleno.
Qed.
