(* ===== verification/OtaDescarga.v ===== *)
(** * Update: downloading a release

    [crates/soso-update-core/src/descarga.rs] (what is left to download, how
    an answer to a range request is judged) and the download of
    [user/soso-update]: [https_download_span_a] of [net.rs], which asks for a
    span piece by piece, and [bajar_span] of [main.rs], which deals its bytes
    out to the files of the staging area. The HTTP exchange and the file
    system calls are operations of two classes. *)
From S2P Require Import Prelude Texto OtaHash OtaRecord OtaManifest OtaTxn OtaJournal OtaBootrec OtaKernel.
Local Open Scope N_scope.

Definition TROZO_MAX : N := 1024 * 1024.
Definition ETAPA_MAGIC : str := txt "SOSOETAPA".
Definition ETAPA_FORMATO : N := 1.

(** ** The record of the staging area *)
Record Etapa := mkEtapa { et_id : TxnId; et_version : str; et_pack_size : N; et_seq : N }.
Inductive EtapaError := RegistroE (e : RecordError) | IdInvalidoE | CampoInvalidoE.

Definition etapa_nueva (id : TxnId) (version : str) (pack_size : N) : Etapa := mkEtapa id version pack_size 1.
Definition cuerpo_etapa (e : Etapa) : str :=
  txt "id=" ++ to_hex (et_id e) ++ [LF] ++ txt "version=" ++ et_version e ++ [LF]
  ++ txt "pack_size=" ++ dec (et_pack_size e) ++ [LF].

Section EtapaRegistro.
Context `{Crc32c}.
Definition etapa_format (e : Etapa) : list byte := frame ETAPA_MAGIC ETAPA_FORMATO (et_seq e) (cuerpo_etapa e).
Definition etapa_parse (raw : list byte) : EtapaError + Etapa :=
  f ← map_err RegistroE (parse ETAPA_MAGIC ETAPA_FORMATO raw);
  idx ← map_err RegistroE (requerido f (txt "id"));
  id ← ok_or IdInvalidoE (from_hex idx);
  v ← map_err RegistroE (requerido f (txt "version"));
  p ← map_err RegistroE (requerido f (txt "pack_size"));
  n ← ok_or CampoInvalidoE (parse_uint U64 p);
  mret (mkEtapa id v n (f_seq f)).
End EtapaRegistro.

Definition sirve_para `{Sha256} (e : Etapa) (man_bytes : list byte) : bool := bool_decide (et_id e = from_manifest man_bytes).

(** ** What is left *)
Definition pendientes_de {S E} (ya_listo : FileEntry -> M S E bool) (fs : list FileEntry) : M S E (list FileEntry) :=
  mfold (fun acc f => b ← ya_listo f; mret (if b : bool then acc else acc ++ [f])) [] fs.
Definition pendientes {S E} (man : Manifest) (ya_listo : FileEntry -> M S E bool) : M S E (list FileEntry) :=
  pendientes_de ya_listo (files man).

Definition bytes_pendientes {S E} (fs : list FileEntry) : M S E N := mfold (fun n f => add64 n (f_size f)) 0 fs.

(** The backup and the growth, one changed file at a time. *)
Definition necesidad_paso (tam_actual : str -> option N) (rc : N * N) (f : FileEntry) : N * N :=
  match tam_actual (f_path f) with
  | Some actual => (saturating_add64 rc.1 actual, saturating_add64 rc.2 (f_size f - actual))
  | None => (rc.1, saturating_add64 rc.2 (f_size f))
  end.
Definition necesidad {S E} (man : Manifest) (cambian pend : list FileEntry) (tam_actual : str -> option N) : M S E Necesidad :=
  n ← bytes_pendientes pend;
  prep ← add64 n (kernel_size man);
  let '(resp, crec) := foldl (necesidad_paso tam_actual) (0, 0) cambian in
  mret (mkNecesidad prep resp crec (kernel_size man)).

(** [while off < fin]: at least one byte a turn. *)
Fixpoint trozos_bucle (fuel : nat) (off fin max : N) (out : list (N * N)) : M unit unit (list (N * N)) :=
  match fuel with
  | O => no_fuel
  | S fuel =>
      if off <? fin then
        let n := N.min max (fin - off) in
        off' ← add64 off n;
        trozos_bucle fuel off' fin max (out ++ [(off, n)])
      else mret out
  end.
Definition trozos (start len max : N) : M unit unit (list (N * N)) :=
  if (len =? 0) || (max =? 0) then mret []
  else fin ← add64 start len; trozos_bucle (S (N.to_nat len)) start fin max [].

(** ** Judging an answer *)
Record Peticion := mkPeticion { desde : N; hasta_ : N; restante : N; desde_el_principio : bool }.
Inductive FalloRango := Estado (s : N) | VaciaR | RangoAjeno (pedido recibido : N).
Record Aceptado := mkAceptado { usar : N; completo : bool }.

Definition parse_content_range (v : str) : option N :=
  r ← strip_prefix (txt "bytes") (trim v);
  parse_uint U64 (trim (hasta ["-"%byte; "/"%byte] (trim_start r))).

Definition juzgar_rango (p : Peticion) (status : N) (content_range : option str) (cuerpo : N) : FalloRango + Aceptado :=
  if status =? 206 then
    if cuerpo =? 0 then inl VaciaR
    else
      match content_range ≫= parse_content_range with
      | Some inicio => if negb (inicio =? desde p) then inl (RangoAjeno (desde p) inicio)
                       else inr (mkAceptado (N.min cuerpo (restante p)) false)
      | None => inr (mkAceptado (N.min cuerpo (restante p)) false)
      end
  else if (status =? 200) && desde_el_principio p && (desde p =? 0) && (restante p <=? cuerpo)
  then inr (mkAceptado (restante p) true)
  else inl (Estado status).

(** The message for each reason. *)
Definition fallo_rango (e : FalloRango) : str :=
  match e with
  | VaciaR => txt "el servidor devolvió un tramo vacío"
  | RangoAjeno _ _ => txt "el servidor devolvió otro tramo del pedido"
  | Estado s =>
      if s =? 404 then txt "el artefacto no está en el servidor (404)"
      else if s =? 429 then txt "el servidor pide esperar (429)"
      else if 500 <=? s then txt "el servidor falla (5xx)"
      else if (300 <=? s) && (s <? 400) then txt "el servidor redirige y no seguimos redirecciones aquí"
      else txt "el servidor no respeta Range"
  end.

Definition UPD_KERNEL_SLOT_SIZE : N := 64 * 1024 * 1024.

(** ** The outside world *)

(** The answer to a range request: its status, its [content-range] header and
    its body. *)
Record Respuesta := mkRespuesta { status : N; content_range : option str; body : list byte }.

Class Servidor (S : Type) := {
  https_get_range_full : str -> N -> N -> M S str Respuesta;
}.
Class Ficheros (S : Type) := {
  read_file_bytes : str -> N -> S -> option (list byte) * S;
  read_file_span : str -> N -> N -> S -> option (list byte) * S;
  escribir_fichero : str -> list byte -> M S unit unit;
  mkdir : str -> S -> S;
  (** Free blocks and block size of the root volume, when they are known. *)
  fsinfo : S -> option (N * N);
  stat : str -> S -> option N;
}.

(** [path.rfind('/').filter(|&i| i > 0).map(|i| &path[..i])] *)
Fixpoint rfind (c : byte) (l : str) : option nat :=
  match l with
  | [] => None
  | b :: r => match rfind c r with
              | Some i => Some (S i)
              | None => if bool_decide (b = c) then Some O else None
              end
  end.
Definition parent_dir (path : str) : option str :=
  i ← rfind "/" path; if (0 <? i)%nat then Some (take i path) else None.

Definition ruta_etapa (etapa : str) (f : FileEntry) : str := etapa ++ txt "/" ++ f_path f.

(** ** The client *)
Section Cliente.
Context {T : Type} `{Servidor T, Ficheros T, Sha256}.

(** Every directory of the path, from the top; [mkdir] may well fail. *)
Definition crear_arbol (dir : str) (s : T) : T :=
  (foldl (fun '(acc, s) parte => let acc := acc ++ txt "/" ++ parte in (acc, mkdir acc s)) ([], s)
    (filter (fun parte => parte ≠ []) (split_byte "/" (trim_start_matches "/" dir)))).2.

(** Downloaded and verified: only that counts as done. *)
Definition etapa_lista (etapa : str) (f : FileEntry) : M T str bool := fun s =>
  let '(o, s) := read_file_bytes (ruta_etapa etapa f) (f_size f + 1) s in
  (Ok match o with
      | Some d => (lenN d =? f_size f) && bool_decide (hex_sha256 d = f_hash_hex f)
      | None => false
      end, s).

(** *** A span, piece by piece, to whoever receives it *)
Section Tramo.
Context {R : Type}.
Abbreviation P := (M (R * T) str).
Definition en_red {A} (m : M T str A) : P A := zoom snd (fun s rs => (rs.1, s)) id m.

(** [while off < fin]. *)
Fixpoint bajar_trozos (fuel : nat) (url : str) (start fin off : N) (recibe : list byte -> P unit) : P unit :=
  match fuel with
  | O => no_fuel
  | S fuel =>
      if off <? fin then
        tope ← add64 off TROZO_MAX;
        let fin_trozo := N.min tope fin - 1 in
        resp ← en_red (https_get_range_full url off fin_trozo);
        let pet := mkPeticion off fin_trozo (fin - off) (start =? 0) in
        match juzgar_rango pet (status resp) (content_range resp) (lenN (body resp)) with
        | inl e => throw (fallo_rango e)
        | inr ac =>
            trozo ← of_option panic (slice 0 (usar ac) (body resp));
            recibe trozo;;
            if completo ac then mret tt
            else
              off' ← add64 off (usar ac);
              bajar_trozos fuel url start fin off' recibe
        end
      else mret tt
  end.
Definition https_download_span_a (url : str) (start len : N) (recibe : list byte -> P unit) : P unit :=
  if len =? 0 then mret tt
  else fin ← add64 start len; bajar_trozos (S (N.to_nat len)) url start fin start recibe.
End Tramo.

(** *** Dealing the bytes of a span out to its files

    The local variables of [bajar_span]: the file in turn, the position in
    the pack and the bytes of that file received so far. *)
Record Reparto := mkReparto { idx : nat; pos : N; buf : list byte }.
Abbreviation P := (M (Reparto * T) str).
Definition en_disco {E A} (e : str) (m : M T E A) : P A := zoom snd (fun s rs => (rs.1, s)) (fun _ => e) m.

Definition volcar (etapa : str) (f : FileEntry) : P unit :=
  r ← gets fst;
  if negb (bool_decide (hex_sha256 (buf r) = f_hash_hex f)) then throw (txt "hash corrupto en fichero descargado")
  else
    let ruta := ruta_etapa etapa f in
    match parent_dir ruta with
    | Some padre => modify (fun rs => (rs.1, crear_arbol padre rs.2))
    | None => mret tt
    end;;
    en_disco (txt "no pude escribir en el área de preparación") (escribir_fichero ruta (buf r));;
    modify (fun rs => (mkReparto (idx rs.1) (pos rs.1) [], rs.2)).

(** [while !resto.is_empty()]: a byte or a file at every turn. *)
Fixpoint recibir (fuel : nat) (etapa : str) (pend : list FileEntry) (fs : list nat) (resto : list byte) : P unit :=
  match resto with
  | [] => mret tt
  | _ =>
      match fuel with
      | O => no_fuel
      | S fuel =>
          r ← gets fst;
          match fs !! idx r with
          | None => mret tt
          | Some i =>
              f ← of_option panic (pend !! i);
              fin ← add64 (f_offset f) (f_size f);
              if pos r <? f_offset f then
                let salto := N.min (f_offset f - pos r) (lenN resto) in
                modify (fun rs => (mkReparto (idx rs.1) (pos rs.1 + salto) (buf rs.1), rs.2));;
                recibir fuel etapa pend fs (drop (N.to_nat salto) resto)
              else
                falta ← sub64 fin (pos r);
                let cabe := N.min falta (lenN resto) in
                modify (fun rs => (mkReparto (idx rs.1) (pos rs.1 + cabe) (buf rs.1 ++ take (N.to_nat cabe) resto), rs.2));;
                (if pos r + cabe =? fin
                 then volcar etapa f;;
                      modify (fun rs => (mkReparto (S (idx rs.1)) (pos rs.1) (buf rs.1), rs.2))
                 else mret tt);;
                recibir fuel etapa pend fs (drop (N.to_nat cabe) resto)
          end
      end
  end.
Definition recibe_de (etapa : str) (pend : list FileEntry) (fs : list nat) (trozo : list byte) : P unit :=
  recibir (length trozo + length fs) etapa pend fs trozo.

(** Where the pack comes from: a local directory or a server. *)
Definition bajar_span (local : bool) (artefacto etapa : str) (pend : list FileEntry) (span : Span) : M T str unit := fun s =>
  let recibe := recibe_de etapa pend (s_files span) in
  let m : P unit :=
    if local then
      o ← (fun rs => let '(o, s) := read_file_span artefacto (s_start span) (span_len span) rs.2 in (Ok o, (rs.1, s)));
      datos ← of_option (throw (txt "rootfs.pack local")) o;
      recibe datos
    else https_download_span_a artefacto (s_start span) (span_len span) recibe in
  let '(r, rs) := m (mkReparto 0 (s_start span) [], s) in (r, rs.2).

(** Without room to prepare and to undo, nothing is begun. *)
Definition comprobar_espacio (man : Manifest) (cambian pend : list FileEntry) : M T str unit :=
  s ← gets Datatypes.id;
  match fsinfo s with
  | None => mret tt
  | Some (free_blocks, block_size) =>
      n ← necesidad man cambian pend (fun ruta => stat (txt "/" ++ ruta) s);
      let cap := mkCapacidad (N.min (free_blocks * block_size) U64_MAX) UPD_KERNEL_SLOT_SIZE BOOTREC_SIZE KERNEL_META_SIZE in
      match preflight n cap with
      | inr _ => mret tt
      | inl (SinEspacio _ _) => throw (txt "sin espacio para preparar la actualización y poder deshacerla")
      | inl (KernelNoCabe _ _) => throw (txt "el kernel de la release no cabe en el hueco de la ESP")
      | inl (RegistroNoCabe _) => throw (txt "los huecos de la ESP no tienen el tamaño esperado")
      end
  end.

(** The download of [cmd_aplicar]: what is not staged yet, span by span. *)
Definition sin_error {A} (m : M unit unit A) : M T str A := zoom (fun _ => tt) (fun _ s => s) (fun _ => []) m.
Definition descargar (man : Manifest) (local : bool) (artefacto etapa : str) (cambian : list FileEntry) : M T str unit :=
  pend ← pendientes_de (etapa_lista etapa) cambian;
  comprobar_espacio man cambian pend;;
  if bool_decide (pend = []) then mret tt
  else
    spans ← sin_error (plan_spans pend GAP_MAX SPAN_MAX);
    _ ← sin_error (plan_bytes spans);
    mfor (bajar_span local artefacto etapa pend) spans.
End Cliente.
