(* ===== verification/OtaBajada.v ===== *)
(** * Update: what a download leaves behind

    The promises of the server and of the files, and the facts on the
    download of [OtaDescarga]: whatever the server answers, only verified
    bytes are staged; an honest server is enough for the download to end. *)
From stdpp Require Import sorting.
From S2P Require Import Prelude Texto OtaHash OtaRecord OtaManifest OtaTxn OtaDescarga OtaPaquete.
Local Open Scope N_scope.
#[local] Set Default Proof Using "Type*".

(** An accepted answer is used within what is asked for and what came; it
    moves on unless it was all. *)
Lemma juzgar_usar p st cr n ac : juzgar_rango p st cr n = inr ac ->
  usar ac <= n ∧ usar ac <= restante p ∧
  (if completo ac then usar ac = restante p else 0 < restante p -> 0 < usar ac).
Proof.
  unfold juzgar_rango. destruct (st =? 206).
  - destruct (N.eqb_spec n 0); [done|]. destruct (cr ≫= parse_content_range) as [i|]; [destruct (negb _); [done|]|];
      intros [= <-]; cbn; lia.
  - destruct (_ && _) eqn:E; [|done]. intros [= <-]. apply andb_prop in E as [_ E]. apply N.leb_le in E. cbn. lia.
Qed.

(** ** What the outside world promises

    A write may fail when [falla_escritura]; reads and answers may always
    fail. [sirve s url b]: the server answers the ranges of [url] with the
    bytes of [b]. *)
Class MundoSpec (T : Type) `{Servidor T, Ficheros T} := {
  contenido : T -> str -> option (list byte);
  falla_escritura : Prop;
  sirve : T -> str -> list byte -> Prop;
  leer_ok p max s : let '(o, s') := read_file_bytes p max s in
    contenido s' = contenido s ∧ (forall u b, sirve s u b -> sirve s' u b) ∧
    forall d, o = Some d -> lenN d < max -> contenido s p = Some d;
  tramo_ok_ p start len s : let '(o, s') := read_file_span p start len s in
    contenido s' = contenido s ∧ (forall u b, sirve s u b -> sirve s' u b) ∧
    forall d, o = Some d -> exists b, contenido s p = Some b ∧ slice start len b = Some d;
  escribir_ok p d s : let '(r, s') := escribir_fichero p d s in
    (forall q, q ≠ p -> contenido s' q = contenido s q) ∧ (forall u b, sirve s u b -> sirve s' u b) ∧
    match r with Ok _ => contenido s' p = Some d | Err _ => falla_escritura | _ => False end;
  mkdir_ok p s : contenido (mkdir p s) = contenido s ∧ forall u b, sirve s u b -> sirve (mkdir p s) u b;
  red_ok u a b s : let '(r, s') := https_get_range_full u a b s in
    contenido s' = contenido s ∧ (forall v d, sirve s v d -> sirve s' v d) ∧
    match r with
    | Ok resp => forall d, sirve s u d -> a <= b < lenN d ->
        status resp = 206 ∧ slice a (b + 1 - a) d = Some (body resp) ∧ from_option (fun i => i = a) True (content_range resp ≫= parse_content_range)
    | Err _ => forall d, sirve s u d -> a <= b < lenN d -> False
    | _ => False
    end;
}.

Section Bajada.
Context {T : Type} `{MundoSpec T, Sha256}.

(** From one world to a later one: only the files of [ps] may have changed. *)
Record avanza (ps : list str) (s s' : T) : Prop := {
  av_resto : forall p, p ∉ ps -> contenido s' p = contenido s p;
  av_sirve : forall u b, sirve s u b -> sirve s' u b;
}.
Lemma avanza_refl ps s : avanza ps s s.
Proof. by constructor. Qed.
Lemma avanza_trans ps s s1 s2 : avanza ps s s1 -> avanza ps s1 s2 -> avanza ps s s2.
Proof. intros [A1 A2] [B1 B2]. constructor; [intros p Hp; by rewrite B1, A1|auto]. Qed.
Lemma avanza_same ps s s' : contenido s' = contenido s -> (forall u b, sirve s u b -> sirve s' u b) -> avanza ps s s'.
Proof. intros E Hs. constructor; [by rewrite E|done]. Qed.
Lemma avanza_mono ps qs s s' : (forall p, p ∈ ps -> p ∈ qs) -> avanza ps s s' -> avanza qs s s'.
Proof. intros Hsub [A1 A2]. constructor; [|done]. intros p Hp. apply A1. auto. Qed.

Lemma crear_arbol_same dir s : contenido (crear_arbol dir s) = contenido s ∧ forall u b, sirve s u b -> sirve (crear_arbol dir s) u b.
Proof.
  unfold crear_arbol. generalize (filter (fun parte => parte ≠ []) (split_byte "/" (trim_start_matches "/" dir))). intros l.
  generalize (@nil byte). revert s. induction l as [|x l IH]; intros s acc; cbn [foldl snd]; [done|].
  set (p := acc ++ txt "/" ++ x). destruct (mkdir_ok p s) as [E1 E2], (IH (mkdir p s) p) as [F1 F2].
  split; [by rewrite F1|auto].
Qed.

(** ** One span *)
Section Span.
Context (etapa : str) (pend : list FileEntry) (fs : list nat) (gs : list FileEntry) (start fin : N).
Hypothesis Hgs : Forall2 (fun i f => pend !! i = Some f) fs gs.
Hypothesis Hdentro : forall f, f ∈ gs -> start <= f_offset f ∧ f_fin f <= fin ∧ 0 < f_size f.
Hypothesis Horden : StronglySorted (fun f g => f_fin f <= f_offset g) gs.
Hypothesis Hrutas : NoDup (f_path <$> gs).
Hypothesis Hfin : fin + TROZO_MAX < U64.

Definition rutas : list str := ruta_etapa etapa <$> gs.

(** The bytes of the pack received so far, from [start] on. *)
Definition su_parte (D : list byte) (f : FileEntry) : option (list byte) := slice (f_offset f - start) (f_size f) D.
Definition entregado (D : list byte) (f : FileEntry) (s : T) : Prop :=
  exists d, su_parte D f = Some d ∧ hex_sha256 d = f_hash_hex f ∧ contenido s (ruta_etapa etapa f) = Some d.
(** Why a run stops: a write failed, or a file came with other bytes. *)
Definition culpa (D : list byte) : Prop :=
  falla_escritura ∨ exists f d, f ∈ gs ∧ su_parte D f = Some d ∧ hex_sha256 d ≠ f_hash_hex f.

Record en_reparto (s0 : T) (D : list byte) (rs : Reparto * T) : Prop := {
  er_avanza : avanza rutas s0 rs.2;
  er_hechos : forall k f, (k < idx rs.1)%nat -> gs !! k = Some f -> entregado D f rs.2;
  er_turno : forall f, gs !! idx rs.1 = Some f ->
    pos rs.1 = start + lenN D ∧ pos rs.1 < f_fin f ∧ buf rs.1 = drop (N.to_nat (f_offset f - start)) D;
}.

Lemma ruta_etapa_inj f g : f ∈ gs -> g ∈ gs -> ruta_etapa etapa f = ruta_etapa etapa g -> f = g.
Proof.
  intros Hf Hg E. unfold ruta_etapa in E. apply (inj (app _)), (inj (app _)) in E.
  apply list_elem_of_lookup in Hf as [i Hi], Hg as [j Hj].
  assert (i = j) as <-; [|congruence]. eapply (NoDup_lookup (f_path <$> gs)); [done|by rewrite list_lookup_fmap, Hi|].
  rewrite list_lookup_fmap, Hj. cbn. by rewrite E.
Qed.

Lemma su_parte_app D k f d : su_parte D f = Some d -> su_parte (D ++ k) f = Some d.
Proof.
  unfold su_parte, slice. rewrite lenN_app. case_match eqn:E; [|done]. apply N.leb_le in E. intros [= <-].
  destruct (N.leb_spec (f_offset f - start + f_size f) (lenN D + lenN k)); [|lia]. f_equal.
  rewrite drop_app_le by (unfold lenN in *; lia). rewrite take_app_le; [done|]. rewrite length_drop. unfold lenN in *. lia.
Qed.
Lemma entregado_app D k f s : entregado D f s -> entregado (D ++ k) f s.
Proof. intros (d & ? & ?). exists d. split; [by apply su_parte_app|done]. Qed.

Lemma fs_turno k f : gs !! k = Some f -> exists i, fs !! k = Some i ∧ pend !! i = Some f.
Proof. intros Hk. destruct (Forall2_lookup_r _ _ _ _ _ Hgs Hk) as (i & ? & ?). eauto. Qed.
Lemma fs_fin k : gs !! k = None -> fs !! k = None.
Proof. rewrite !lookup_ge_None. by rewrite (Forall2_length _ _ _ Hgs). Qed.

(** A file whose last byte has come is verified and written. *)
Lemma volcar_ok f rs :
  acaba (volcar etapa f) rs
    (fun _ rs' => rs'.1 = mkReparto (idx rs.1) (pos rs.1) [] ∧ avanza [ruta_etapa etapa f] rs.2 rs'.2 ∧
      contenido rs'.2 (ruta_etapa etapa f) = Some (buf rs.1) ∧ hex_sha256 (buf rs.1) = f_hash_hex f)
    (fun rs' => avanza [ruta_etapa etapa f] rs.2 rs'.2 ∧ (falla_escritura ∨ hex_sha256 (buf rs.1) ≠ f_hash_hex f)).
Proof.
  unfold volcar. apply acaba_bind. cbn [acaba gets]. case_bool_decide as Hh; cbn [negb]; [|split; [apply avanza_refl|by right]].
  apply acaba_bind.
  set (mk := match parent_dir _ with Some _ => _ | None => _ end).
  assert (exists s1, mk rs = (Ok tt, (rs.1, s1)) ∧ avanza [ruta_etapa etapa f] rs.2 s1) as (s1 & E1 & A1).
  { unfold mk. destruct (parent_dir _) as [d|]; [|exists rs.2; split; [by destruct rs|apply avanza_refl]].
    exists (crear_arbol d rs.2). split; [done|]. apply avanza_same; apply crear_arbol_same. }
  unfold acaba at 1. rewrite E1. clear mk E1. apply acaba_bind. unfold acaba at 1, en_disco, zoom. cbn [snd fst].
  pose proof (escribir_ok (ruta_etapa etapa f) (buf rs.1) s1) as Hw.
  destruct (escribir_fichero _ _ _) as [r s2]. destruct Hw as (W1 & W2 & W3).
  assert (avanza [ruta_etapa etapa f] rs.2 s2) as A2.
  { eapply avanza_trans; [exact A1|]. constructor; [|done]. intros p Hp. apply W1. by rewrite list_elem_of_singleton in Hp. }
  destruct r; [|by split; [|left]|done|done]. cbn. by split_and!.
Qed.

Lemma avanza_ruta f s s' : f ∈ gs -> avanza [ruta_etapa etapa f] s s' -> avanza rutas s s'.
Proof. intros Hf. apply avanza_mono. intros p ->%list_elem_of_singleton. by apply list_elem_of_fmap_2. Qed.

Lemma entregado_avanza D f g s s' : f ∈ gs -> g ∈ gs -> f ≠ g -> avanza [ruta_etapa etapa g] s s' -> entregado D f s -> entregado D f s'.
Proof.
  intros Hf Hg Hne [A _] (d & ? & ? & Hd). exists d. split_and!; [done..|]. rewrite A; [done|].
  rewrite list_elem_of_singleton. intros E. by apply Hne, ruta_etapa_inj.
Qed.

Lemma culpa_app D k : culpa D -> culpa (D ++ k).
Proof. intros [|(f & d & ? & ? & ?)]; [by left|right]. exists f, d. split_and!; [done|by apply su_parte_app|done]. Qed.

(** The part of a file that ends where what was received ends. *)
Lemma su_parte_fin D f : start <= f_offset f -> start + lenN D = f_fin f -> su_parte D f = Some (drop (N.to_nat (f_offset f - start)) D).
Proof.
  unfold su_parte, slice, f_fin. intros Ho Hl. destruct (N.leb_spec (f_offset f - start + f_size f) (lenN D)); [|lia].
  f_equal. apply take_ge. rewrite length_drop. unfold lenN in *. lia.
Qed.

(** After the last file the bytes that come are dropped. *)
Lemma en_reparto_fin s0 D k rs : gs !! idx rs.1 = None -> en_reparto s0 D rs -> en_reparto s0 (D ++ k) rs.
Proof.
  intros Ef [I1 I2 I3]. constructor; [done| |].
  - intros j g Hj Hg. apply entregado_app. by eapply I2.
  - intros g Hg. by rewrite Ef in Hg.
Qed.

(** Bytes between two files. *)
Lemma en_reparto_hueco s0 D resto rs f : gs !! idx rs.1 = Some f -> pos rs.1 < f_offset f -> start <= f_offset f -> 0 < f_size f ->
  en_reparto s0 D rs -> let salto := N.min (f_offset f - pos rs.1) (lenN resto) in
  en_reparto s0 (D ++ take (N.to_nat salto) resto) (mkReparto (idx rs.1) (pos rs.1 + salto) (buf rs.1), rs.2).
Proof.
  intros Ef Hgap Hs Hz [I1 I2 I3] salto. destruct (I3 _ Ef) as (Hp & Hlt & Hbuf). constructor; cbn; [done| |].
  - intros k g Hk Hg. apply entregado_app. by eapply I2.
  - intros g Hg. rewrite Ef in Hg. injection Hg as <-. rewrite lenN_app, lenN_take.
    split_and!; [lia|unfold f_fin; lia|]. rewrite Hbuf, !drop_ge; [done|..].
    + rewrite length_app, length_take. unfold lenN, salto in *. lia.
    + unfold lenN in *. lia.
Qed.

(** A file done, the next in turn. *)
Lemma en_reparto_siguiente s0 D D1 rs f rs2 : gs !! idx rs.1 = Some f -> en_reparto s0 D rs -> (exists k, D1 = D ++ k) ->
  start <= f_offset f -> start + lenN D1 = f_fin f ->
  rs2.1 = mkReparto (idx rs.1) (f_fin f) [] -> avanza [ruta_etapa etapa f] rs.2 rs2.2 ->
  contenido rs2.2 (ruta_etapa etapa f) = Some (drop (N.to_nat (f_offset f - start)) D1) ->
  hex_sha256 (drop (N.to_nat (f_offset f - start)) D1) = f_hash_hex f ->
  en_reparto s0 D1 (mkReparto (S (idx rs2.1)) (pos rs2.1) (buf rs2.1), rs2.2).
Proof.
  intros Ef [I1 I2 I3] [k ->] Hs Hl E1 A1 Hc Hh. assert (f ∈ gs) as Hf by (by eapply list_elem_of_lookup_2).
  rewrite E1. constructor; cbn.
  - eapply avanza_trans; [exact I1|]. by apply (avanza_ruta f).
  - intros j g Hj Hg. assert (j < idx rs.1 ∨ j = idx rs.1)%nat as [Hj'| ->] by lia.
    + apply entregado_app. eapply (entregado_avanza _ g f rs.2); [by eapply list_elem_of_lookup_2|done| |done|by eapply I2].
      intros ->. assert (j = idx rs.1); [|lia]. eapply (NoDup_lookup gs); [by eapply NoDup_fmap_1|done..].
    + rewrite Ef in Hg. injection Hg as <-. eexists. split; [by apply su_parte_fin|done].
  - intros g Hg. assert (f_fin f <= f_offset g) as Hfg.
    { assert (idx rs.1 < S (idx rs.1))%nat as Hlt by lia. revert Hg Ef Hlt. generalize (idx rs.1) (S (idx rs.1)). clear - Horden.
      induction Horden as [|x l Hs IH Hx]; intros [|a] [|b] Hb Ha Hab; try done; try lia; cbn in *.
      - injection Ha as ->. rewrite Forall_forall in Hx. apply Hx. by eapply list_elem_of_lookup_2.
      - eapply (IH Hs a b); try done. lia. }
    assert (g ∈ gs) as Hg' by (by eapply list_elem_of_lookup_2). destruct (Hdentro g Hg') as (? & ? & ?).
    split_and!; [done|unfold f_fin in *; lia|]. symmetry. apply drop_ge. unfold lenN in *. lia.
Qed.

Lemma recibir_ok fuel : forall resto s0 D rs, (length resto <= fuel)%nat -> start + lenN D + lenN resto < U64 -> en_reparto s0 D rs ->
  acaba (recibir fuel etapa pend fs resto) rs (fun _ => en_reparto s0 (D ++ resto))
    (fun rs' => avanza rutas s0 rs'.2 ∧ culpa (D ++ resto)).
Proof.
  induction fuel as [|fuel IH]; intros [|b r] s0 D rs Hfuel Hlim Hin; cbn [recibir].
  1,3: unfold acaba; cbn; by rewrite app_nil_r.
  { cbn in Hfuel. lia. }
  set (resto := b :: r) in *. assert (0 < lenN resto) as Hpos by (unfold resto, lenN; cbn; lia).
  apply acaba_bind. cbn [acaba gets]. destruct (gs !! idx rs.1) as [f|] eqn:Ef.
  2: { unfold acaba. cbn. rewrite (fs_fin _ Ef). by apply en_reparto_fin. }
  unfold acaba at 1. cbn. destruct (fs_turno _ _ Ef) as (i & -> & Hi). apply acaba_bind. rewrite Hi.
  unfold acaba at 1. cbn [of_option mret M_ret].
  assert (f ∈ gs) as Hfin' by (by eapply list_elem_of_lookup_2). destruct (Hdentro f Hfin') as (Hd1 & Hd2 & Hd3).
  destruct (er_turno _ _ _ Hin _ Ef) as (Hp & Hlt & Hbuf).
  apply acaba_bind, acaba_add64; [unfold f_fin in *; lia|]. change (f_offset f + f_size f) with (f_fin f).
  assert (forall n rs1, 0 < n <= lenN resto -> en_reparto s0 (D ++ take (N.to_nat n) resto) rs1 ->
    acaba (recibir fuel etapa pend fs (drop (N.to_nat n) resto)) rs1 (fun _ => en_reparto s0 (D ++ resto))
      (fun rs' => avanza rutas s0 rs'.2 ∧ culpa (D ++ resto))) as Hsigue.
  { intros n rs1 Hn Hr1. assert (D ++ resto = (D ++ take (N.to_nat n) resto) ++ drop (N.to_nat n) resto) as -> by (by rewrite <- app_assoc, take_drop).
    apply IH; [|rewrite lenN_app, lenN_take, lenN_drop; lia|done]. rewrite length_drop. unfold lenN in *. lia. }
  destruct (N.ltb_spec (pos rs.1) (f_offset f)) as [Hgap|Hbody].
  - apply acaba_bind. unfold acaba at 1. cbn [modify]. apply Hsigue; [lia|]. by apply en_reparto_hueco.
  - apply acaba_bind, acaba_sub64; [lia|]. set (cabe := N.min (f_fin f - pos rs.1) (lenN resto)).
    apply acaba_bind. unfold acaba at 1. cbn [modify]. set (rs1 := (_, _)).
    assert (buf rs1.1 = drop (N.to_nat (f_offset f - start)) (D ++ take (N.to_nat cabe) resto)) as Hbuf1.
    { unfold rs1. cbn. rewrite Hbuf, drop_app_le; [done|]. unfold lenN in *. lia. }
    assert (lenN (D ++ take (N.to_nat cabe) resto) = lenN D + cabe) as HlenD by (rewrite lenN_app, lenN_take; lia).
    apply acaba_bind. destruct (N.eqb_spec (pos rs.1 + cabe) (f_fin f)) as [Hend|Hend].
    + apply acaba_bind. eapply acaba_mono; [apply volcar_ok| |].
      * intros [] rs2 (E1 & A1 & Hc & Hh). unfold acaba at 1. cbn [modify]. apply Hsigue; [lia|].
        rewrite Hbuf1 in Hc, Hh. change (pos rs1.1) with (pos rs.1 + cabe) in E1. rewrite Hend in E1.
        by apply (en_reparto_siguiente s0 D _ rs f rs2); [done|done|eexists|done|rewrite HlenD; lia|..].
      * intros rs2 [A1 Hwhy]. split.
        { eapply avanza_trans; [by apply (er_avanza _ _ _ Hin)|]. by apply (avanza_ruta f). }
        destruct Hwhy as [?|Hh]; [by left|]. rewrite <- (take_drop (N.to_nat cabe) resto), app_assoc. apply culpa_app. right.
        exists f, (buf rs1.1). split_and!; [done| |done]. rewrite Hbuf1. apply su_parte_fin; [done|rewrite HlenD; lia].
    + unfold acaba at 1. cbn [mret M_ret]. apply Hsigue; [lia|]. unfold rs1. constructor; cbn.
      * by apply (er_avanza _ _ _ Hin).
      * intros k g Hk Hg. apply entregado_app. by eapply (er_hechos _ _ _ Hin).
      * intros g Hg. rewrite Ef in Hg. injection Hg as <-. split_and!; [rewrite HlenD; lia|lia|done].
Qed.

(** An honest server: what was received is the pack from [start] on. *)
Definition fiel (s0 : T) (url : str) (D : list byte) : Prop :=
  forall b, sirve s0 url b -> fin <= lenN b -> slice start (lenN D) b = Some D.
(** The file as the pack holds it is not the file announced. *)
Definition pack_roto (b : list byte) : Prop :=
  exists f d, f ∈ gs ∧ slice (f_offset f) (f_size f) b = Some d ∧ hex_sha256 d ≠ f_hash_hex f.
Definition disculpa (s0 : T) (url : str) : Prop := forall b, sirve s0 url b -> fin <= lenN b -> falla_escritura ∨ pack_roto b.

Lemma culpa_disculpa s0 url D : fiel s0 url D -> culpa D -> disculpa s0 url.
Proof.
  intros HD [Hw|(f & d & Hf & Hd & Hh)] b Hb Hl; [by left|right]. exists f, d. split_and!; [done| |done].
  destruct (Hdentro f Hf) as (Hs & _ & _). replace (f_offset f) with (start + (f_offset f - start)) by lia.
  eapply slice_slice; [by apply HD|done].
Qed.

Lemma recibe_de_ok trozo s0 D rs : start + lenN D + lenN trozo < U64 -> en_reparto s0 D rs ->
  acaba (recibe_de etapa pend fs trozo) rs (fun _ => en_reparto s0 (D ++ trozo))
    (fun rs' => avanza rutas s0 rs'.2 ∧ culpa (D ++ trozo)).
Proof. intros Hl Hin. apply recibir_ok; [lia|done|done]. Qed.

Lemma bajar_trozos_ok fuel url : forall off s0 D rs, off <= fin -> (N.to_nat (fin - off) < fuel)%nat -> off = start + lenN D ->
  en_reparto s0 D rs -> fiel s0 url D ->
  acaba (bajar_trozos fuel url start fin off (recibe_de etapa pend fs)) rs
    (fun _ rs' => exists D', lenN D' = fin - start ∧ en_reparto s0 D' rs' ∧ fiel s0 url D')
    (fun rs' => avanza rutas s0 rs'.2 ∧ disculpa s0 url).
Proof.
  induction fuel as [|fuel IH]; intros off s0 D rs Hof Hfuel Hoff Hin HD; [lia|]. cbn [bajar_trozos].
  destruct (N.ltb_spec off fin) as [Hlt|Hge]; [|exists D; split_and!; [lia|done|done]].
  apply acaba_bind, acaba_add64; [lia|]. set (ult := N.min (off + TROZO_MAX) fin - 1).
  assert (TROZO_MAX = 1048576) as Htm by done.
  apply acaba_bind. unfold acaba at 1, en_red, zoom. pose proof (red_ok url off ult rs.2) as Hred.
  destruct (https_get_range_full _ _ _ _) as [r s1]. destruct Hred as (R1 & R2 & R3).
  assert (avanza rutas s0 s1) as Hav by (eapply avanza_trans; [by apply (er_avanza _ _ _ Hin)|by apply avanza_same]).
  assert (forall b, sirve s0 url b -> sirve rs.2 url b) as Hsv by (intros b; apply (av_sirve _ _ _ (er_avanza _ _ _ Hin))).
  destruct r as [resp|e| |]; [| |done|done].
  2: { split; [done|]. intros b Hb Hl. exfalso. apply (R3 b); [by apply Hsv|lia]. }
  assert (en_reparto s0 D (rs.1, s1)) as Hin1.
  { destruct Hin as [I1 I2 I3]. constructor; cbn; [done| |done]. intros k f Hk Hf. destruct (I2 k f Hk Hf) as (d & ? & ? & Hd).
    exists d. split_and!; [done..|by rewrite R1]. }
  set (pet := mkPeticion _ _ _ _).
  (* an honest answer is accepted whole *)
  assert (forall b, sirve s0 url b -> fin <= lenN b -> slice off (ult + 1 - off) b = Some (body resp) ∧
    juzgar_rango pet (status resp) (content_range resp) (lenN (body resp)) = inr (mkAceptado (lenN (body resp)) false)) as Hbuena.
  { intros b Hb Hl. destruct (R3 b (Hsv b Hb)) as (E1 & E2 & E3); [lia|]. split; [done|].
    destruct (slice_length _ _ _ _ E2) as [Hlb _]. unfold juzgar_rango. rewrite E1. cbn [N.eqb Pos.eqb].
    destruct (N.eqb_spec (lenN (body resp)) 0); [lia|]. unfold pet. cbn [desde restante].
    replace (N.min (lenN (body resp)) (fin - off)) with (lenN (body resp)) by lia.
    destruct (content_range resp ≫= parse_content_range) as [i|]; cbn in *; [|done]. by rewrite E3, N.eqb_refl. }
  destruct (juzgar_rango _ _ _ _) as [e|ac] eqn:Ej.
  { split; [done|]. intros b Hb Hl. by destruct (Hbuena b Hb Hl). }
  destruct (juzgar_usar _ _ _ _ _ Ej) as (Hu1 & Hu2 & Hu3). unfold pet in Hu2, Hu3. cbn [restante] in Hu2, Hu3.
  apply acaba_bind. unfold slice. rewrite N.add_0_l. destruct (N.leb_spec (usar ac) (lenN (body resp))); [|lia].
  unfold acaba at 1. cbn [of_option mret M_ret]. set (trozo := take _ (drop _ _)).
  assert (trozo = take (N.to_nat (usar ac)) (body resp)) as Htr by (unfold trozo; by rewrite drop_0).
  assert (lenN trozo = usar ac) as Hlt' by (rewrite Htr, lenN_take; lia).
  assert (fiel s0 url (D ++ trozo)) as HD'.
  { intros b Hb Hl. destruct (Hbuena b Hb Hl) as [E1 E2]. injection E2 as E2. destruct (slice_length _ _ _ _ E1) as [Hlb _].
    rewrite lenN_app. apply slice_join; [by apply HD|]. rewrite <- Hoff, Hlt', Htr.
    rewrite E2. cbn [usar]. rewrite take_ge by (unfold lenN; lia). rewrite Hlb. done. }
  apply acaba_bind. eapply acaba_mono; [apply (recibe_de_ok trozo s0 D); [lia|exact Hin1]| |].
  - intros [] rs2 Hin2. destruct (completo ac) eqn:Ec.
    + unfold acaba. cbn. exists (D ++ trozo). split_and!; [rewrite lenN_app; lia|done|done].
    + apply acaba_bind, acaba_add64; [lia|]. apply (IH _ s0 (D ++ trozo)); [lia|lia|rewrite lenN_app; lia|done|done].
  - intros rs2 [A Hc]. split; [done|]. by eapply culpa_disculpa.
Qed.

Definition verificado (f : FileEntry) (s : T) : Prop :=
  exists d, contenido s (ruta_etapa etapa f) = Some d ∧ lenN d = f_size f ∧ hex_sha256 d = f_hash_hex f.

(** When the last byte of the span has come every file is there. *)
Lemma reparto_acabado s0 D rs f : lenN D = fin - start -> en_reparto s0 D rs -> f ∈ gs -> verificado f rs.2.
Proof.
  intros HD [_ I2 I3] Hf. apply list_elem_of_lookup in Hf as [k Hk].
  assert (k < idx rs.1)%nat as Hlt.
  { destruct (gs !! idx rs.1) as [g|] eqn:Eg.
    - destruct (I3 g eq_refl) as (Hp & Hl & _). assert (g ∈ gs) as Hg by (by eapply list_elem_of_lookup_2).
      destruct (Hdentro g Hg) as (? & ? & ?). unfold f_fin in *. lia.
    - apply lookup_ge_None in Eg. apply lookup_lt_Some in Hk. lia. }
  destruct (I2 k f Hlt Hk) as (d & Hd & ? & ?). exists d. split_and!; [done|by destruct (slice_length _ _ _ _ Hd)|done].
Qed.

Lemma reparto_inicial s : en_reparto s [] (mkReparto 0 start [], s).
Proof.
  constructor; cbn; [apply avanza_refl|lia|]. intros f Hf. assert (f ∈ gs) as Hg by (by eapply list_elem_of_lookup_2).
  destruct (Hdentro f Hg) as (? & ? & ?). unfold f_fin in *. rewrite drop_nil, lenN_nil. split_and!; [lia|lia|done].
Qed.

Lemma bajar_span_ok local url s : start <= fin ->
  acaba (bajar_span local url etapa pend (mkSpan start fin fs)) s
    (fun _ s' => avanza rutas s s' ∧ forall f, f ∈ gs -> verificado f s')
    (fun s' => avanza rutas s s' ∧ (local = false -> disculpa s url)).
Proof.
  intros Hsf. unfold acaba at 1, bajar_span. cbv beta. set (m := if local then _ else _). set (rs0 := (mkReparto 0 (s_start (mkSpan start fin fs)) [], s)).
  assert (acaba m rs0 (fun _ rs' => exists D, lenN D = fin - start ∧ en_reparto s D rs')
    (fun rs' => avanza rutas s rs'.2 ∧ (local = false -> disculpa s url))) as Hm.
  2: { unfold acaba in Hm. destruct (m rs0) as [[u|e| |] rs']; [|exact Hm|exact Hm|exact Hm]. destruct Hm as (D & HD & Hr).
       split; [by apply (er_avanza _ _ _ Hr)|]. intros f. by apply (reparto_acabado s D). }
  pose proof (reparto_inicial s) as Hini. unfold m, rs0, span_len. cbn [s_start s_end s_files]. clear m rs0. destruct local.
  - apply acaba_bind. unfold acaba at 1. cbn [snd fst].
    pose proof (tramo_ok_ url start (fin - start) s) as Ht. destruct (read_file_span _ _ _ _) as [o s1]. destruct Ht as (T1 & T2 & T3).
    assert (avanza rutas s s1) as Hav by (by apply avanza_same).
    apply acaba_bind. destruct o as [d|]; [|unfold acaba; cbn; by split].
    unfold acaba at 1. cbn [of_option mret M_ret]. destruct (T3 d eq_refl) as (b & _ & Hd). apply slice_length in Hd as [Hd _].
    eapply acaba_mono; [apply (recibe_de_ok d s [])| |].
    + rewrite lenN_nil. lia.
    + destruct Hini as [_ _ I3]. constructor; [done|cbn; lia|done].
    + intros u rs' Hr. exists d. by split.
    + intros rs' [A _]. by split.
  - unfold https_download_span_a. destruct (N.eqb_spec (fin - start) 0) as [E|E].
    { unfold acaba. cbn. exists []. split; [rewrite lenN_nil; lia|done]. }
    apply acaba_bind, acaba_add64; [lia|]. replace (start + (fin - start)) with fin by lia.
    eapply acaba_mono; [apply (bajar_trozos_ok _ url start s [])| |].
    + done.
    + lia.
    + rewrite lenN_nil. lia.
    + done.
    + intros b _ Hl. by apply slice_nil; lia.
    + intros u rs' (D & ? & ? & _). by exists D.
    + intros rs' [? ?]. by split.
Qed.
End Span.
End Bajada.
