(* ===== verification/OtaEntrega.v ===== *)
(** * Update: a release downloaded whole

    The download of [OtaDescarga.descargar] over the spans of a sound
    manifest: what is already staged is not asked for again, the spans cover
    the rest, and the only files that change are those of the staging area. *)
From stdpp Require Import sorting.
From S2P Require Import Prelude Texto OtaHash OtaRecord OtaManifest OtaTxn OtaKernel OtaDescarga OtaPaquete OtaBajada.
Local Open Scope N_scope.
#[local] Set Default Proof Using "Type*".

#[export] Instance FileEntry_eq_dec : EqDecision FileEntry.
Proof. solve_decision. Defined.

(** ** The plan, in files instead of indices *)
Definition ficheros_de (pend : list FileEntry) (s : Span) : list FileEntry := omap (pend !!.) (s_files s).

Lemma omap_seq {A} (l : list A) : omap (l !!.) (seq 0 (length l)) = l.
Proof.
  assert (forall pre, omap ((pre ++ l) !!.) (seq (length pre) (length l)) = l) as Hg.
  { induction l as [|x l IH]; intros pre; [done|]. cbn. rewrite list_lookup_middle by done. f_equal.
    specialize (IH (pre ++ [x])). rewrite <- app_assoc, length_app in IH. cbn in IH. rewrite <- IH at 2. f_equal. f_equal. lia. }
  apply (Hg []).
Qed.

Lemma omap_lookups {A} (l : list A) ks : (forall i, i ∈ ks -> is_Some (l !! i)) -> Forall2 (fun i x => l !! i = Some x) ks (omap (l !!.) ks).
Proof.
  induction ks as [|i ks IH]; intros H; cbn; [constructor|]. destruct (H i ltac:(left)) as [x E]. rewrite E. constructor; [done|].
  apply IH. intros j Hj. apply H. by right.
Qed.

(** Files one after the other take as much room as they add up to. *)
Fixpoint suma (fs : list FileEntry) : N :=
  match fs with [] => 0 | f :: fs => f_size f + suma fs end.
Lemma suma_perm fs gs : fs ≡ₚ gs -> suma fs = suma gs.
Proof. induction 1; cbn; lia. Qed.
Lemma suma_en_fila base tope fs : StronglySorted (fun f g => f_fin f <= f_offset g) fs ->
  Forall (fun f => base <= f_offset f ∧ f_fin f <= tope) fs -> base <= tope -> base + suma fs <= tope.
Proof.
  intros Hs. revert base. induction Hs as [|f fs Hs IH Hf]; intros base Hb Ht; cbn; [lia|].
  apply Forall_cons in Hb as [Hb1 Hb]. specialize (IH (f_fin f)). unfold f_fin in IH at 2.
  assert (f_fin f + suma fs <= tope); [|unfold f_fin in *; lia]. apply IH; [|lia].
  rewrite Forall_forall in Hb, Hf |- *. intros g Hg. split; [by apply Hf|by apply Hb].
Qed.

Lemma bytes_pendientes_ok {X E} fs (x : X) : suma fs < U64 -> bytes_pendientes (S := X) (E := E) fs x = (Ok (suma fs), x).
Proof.
  unfold bytes_pendientes. assert (forall n, n + suma fs < U64 ->
    mfold (S := X) (E := E) (fun n f => add64 n (f_size f)) n fs x = (Ok (n + suma fs), x)) as Hg.
  { induction fs as [|f fs IH]; intros n Hn; cbn [mfold suma] in *; [cbn; by rewrite N.add_0_r|].
    rewrite bind_eq. unfold add64 at 1. destruct (N.ltb_spec (n + f_size f) U64); [|lia]. cbn [mret M_ret]. rewrite IH by lia.
    by rewrite N.add_assoc. }
  intros Hn. by rewrite (Hg 0) by lia.
Qed.

Record plan_en_ficheros (pend : list FileEntry) (spans : list Span) : Prop := {
  pf_todos : mbind (ficheros_de pend) spans ≡ₚ pend;
  pf_fila : StronglySorted (fun f g => f_fin f <= f_offset g) (mbind (ficheros_de pend) spans);
  pf_indices : Forall (fun s => Forall2 (fun i f => pend !! i = Some f) (s_files s) (ficheros_de pend s)) spans;
  pf_dentro : Forall (fun s => Forall (fun f => s_start s <= f_offset f ∧ f_fin f <= s_end s) (ficheros_de pend s)) spans;
  pf_tramos : Forall (fun s => s_start s <= s_end s) spans;
}.

Lemma mbind_cat {A B} (f : A -> list B) l : mbind f l = concat (f <$> l).
Proof. induction l as [|x l IH]; cbn; [done|]. by rewrite <- IH. Qed.

Lemma plan_spans_ficheros pend gap_max span_max tope : NoDup pend -> todos_separados pend ->
  Forall (fun f => 0 < f_size f ∧ f_fin f <= tope) pend -> tope < U64 ->
  exists spans n, plan_spans pend gap_max span_max tt = (Ok spans, tt) ∧ plan_bytes spans tt = (Ok n, tt) ∧
    plan_en_ficheros pend spans ∧ Forall (fun s => s_end s <= tope) spans.
Proof.
  intros Hnd Hsep Hf Ht. destruct (plan_spans_ok pend gap_max span_max True) as (spans & dn & E & Hdn & Hcat & Htr & Hord).
  { eapply Forall_impl; [done|]. cbn. lia. }
  { intros _. split_and!; [done..|]. eapply Forall_impl; [done|]. cbn. lia. }
  destruct (Hord I) as [Hen Hfila].
  assert (Forall (fun s => s_end s <= tope) spans) as Hend.
  { eapply Forall_impl; [done|]. intros s [_ _ (i & e & _ & He & <-) _]. rewrite Forall_forall in Hf. apply Hf. by eapply list_elem_of_lookup_2. }
  destruct (plan_bytes_ok _ _ spans tope Htr Hen Hend Ht) as (n & En & _). exists spans, n.
  assert (Forall (fun i => is_Some (pend !! i)) dn) as Hsome.
  { rewrite Hdn. apply Forall_forall. intros i Hi. apply lookup_lt_is_Some. apply elem_of_seq in Hi. lia. }
  assert (mbind (ficheros_de pend) spans = omap (pend !!.) dn) as Hb.
  { rewrite <- Hcat. clear. rewrite mbind_cat. induction spans as [|s spans IH]; cbn; [done|]. rewrite omap_app. by rewrite IH. }
  split_and!; [done..| |done]. constructor.
  - rewrite Hb, Hdn. by rewrite omap_seq.
  - rewrite Hb. clear - Hfila Hsome. induction Hfila as [|i l Hs IH Hi]; cbn; [constructor|].
    apply Forall_cons in Hsome as [[f Hf] Hsome]. rewrite Hf. constructor; [by apply IH|].
    rewrite Forall_forall in Hi. apply Forall_forall. intros g (j & Hj & Hg)%list_elem_of_omap. by apply (Hi j Hj).
  - apply Forall_forall. intros s Hs. apply omap_lookups. rewrite Forall_forall in Htr. intros i Hi.
    destruct (tr_dentro _ _ _ (Htr s Hs) i Hi) as (f & -> & _). done.
  - apply Forall_forall. intros s Hs. apply Forall_forall. intros f (i & Hi & Hfi)%list_elem_of_omap. rewrite Forall_forall in Htr.
    destruct (tr_dentro _ _ _ (Htr s Hs) i Hi) as (g & Hg & ?). by simplify_eq.
  - eapply Forall_impl; [exact Htr|]. intros s. apply tramo_start.
Qed.

(** ** The download *)
Section Entrega.
Context {T : Type} `{MundoSpec T, Sha256}.
Context (man : Manifest) (etapa : str) (cambian : list FileEntry).
Hypothesis Hsano : manifiesto_sano man.

Hypothesis Htam : pack_size man + kernel_size man + TROZO_MAX < U64.
Hypothesis Hcambian : NoDup cambian.
Hypothesis Hsub : forall f, f ∈ cambian -> f ∈ files man.

Lemma sub_rutas pend : NoDup pend -> (forall f, f ∈ pend -> f ∈ files man) -> NoDup (f_path <$> pend).
Proof using Hsano.
  intros Hn Hs. apply NoDup_fmap_2_strong; [|done]. intros f g Hf Hg E.
  apply Hs, list_elem_of_lookup in Hf as [i Hi]. apply Hs, list_elem_of_lookup in Hg as [j Hj].
  assert (i = j) as <-; [|congruence]. eapply (NoDup_lookup _ _ _ _ (ms_rutas _ Hsano)); rewrite list_lookup_fmap, ?Hi, ?Hj; cbn; [done|].
  by rewrite E.
Qed.

Lemma sub_separados pend : (forall f, f ∈ pend -> f ∈ files man) -> todos_separados pend.
Proof using Hsano. intros Hs f g Hf Hg. apply (ms_separados _ Hsano); auto. Qed.

Lemma sub_dentro pend : (forall f, f ∈ pend -> f ∈ files man) -> Forall (fun f => 0 < f_size f ∧ f_fin f <= pack_size man) pend.
Proof using Hsano.
  intros Hs. apply Forall_forall. intros f Hf. pose proof (ms_ficheros _ Hsano) as Ha. rewrite Forall_forall in Ha.
  destruct (Ha f (Hs f Hf)) as [_ _ [? _] ?]. by split.
Qed.

Lemma misma_ruta f g : f ∈ files man -> g ∈ files man -> ruta_etapa etapa f = ruta_etapa etapa g -> f = g.
Proof using Hsano.
  intros Hf Hg E. unfold ruta_etapa in E. apply (inj (app _)), (inj (app _)) in E.
  apply list_elem_of_lookup in Hf as [i Hi], Hg as [j Hj]. assert (i = j) as <-; [|congruence].
  eapply (NoDup_lookup _ _ _ _ (ms_rutas _ Hsano)); rewrite list_lookup_fmap, ?Hi, ?Hj; cbn; [done|]. by rewrite E.
Qed.

Lemma verificado_avanza ps f s s' : ruta_etapa etapa f ∉ ps -> avanza ps s s' -> verificado etapa f s -> verificado etapa f s'.
Proof. intros Hn [Ha _] (d & ? & ?). exists d. by rewrite Ha. Qed.

(** What is staged already is left out. *)
Lemma pendientes_ok s : acaba (pendientes_de (etapa_lista etapa) cambian) s
  (fun pend s' => avanza [] s s' ∧ pend `sublist_of` cambian ∧
    forall f, f ∈ cambian -> f ∉ pend -> verificado etapa f s') (fun _ => False).
Proof.
  unfold pendientes_de. assert (forall l acc s, acaba (mfold (fun acc f => b ← etapa_lista etapa f; mret (if b : bool then acc else acc ++ [f])) acc l) s
    (fun pend s' => avanza [] s s' ∧ (exists l', pend = acc ++ l' ∧ l' `sublist_of` l) ∧
      forall f, f ∈ l -> f ∉ pend -> verificado etapa f s') (fun _ => False)) as Hg.
  2: { eapply acaba_mono; [apply Hg| |done]. intros pend s' (A & (l' & -> & Hl) & Hv). cbn in *. by split_and!. }
  clear. induction l as [|f l IH]; intros acc s; cbn [mfold].
  { unfold acaba. cbn. split_and!; [apply avanza_refl|exists []; by rewrite app_nil_r|]. intros f Hf. by apply elem_of_nil in Hf. }
  apply acaba_bind, acaba_bind. unfold acaba at 1, etapa_lista.
  pose proof (leer_ok (ruta_etapa etapa f) (f_size f + 1) s) as Hl. destruct (read_file_bytes _ _ _) as [o s1]. destruct Hl as (L1 & L2 & L3).
  unfold acaba at 1. cbn [mret M_ret]. set (b := match o with Some d => _ | None => _ end).
  assert (b = true -> verificado etapa f s1) as Hb.
  { unfold b. destruct o as [d|]; [|done]. intros [E1%N.eqb_eq E2%bool_decide_eq_true]%andb_prop. exists d. split_and!; [|done|done].
    rewrite L1. apply L3; [done|lia]. }
  eapply acaba_mono; [apply IH| |done]. intros pend s' (A & (l' & -> & Hs) & Hv). split_and!.
  - eapply avanza_trans; [|exact A]. by apply avanza_same.
  - destruct b; [exists l'; split; [done|by apply sublist_cons]|]. exists (f :: l'). rewrite <- app_assoc. split; [done|by apply sublist_skip].
  - intros g [->|Hg]%elem_of_cons Hn; [|by apply Hv]. destruct b eqn:Eb.
    + apply (verificado_avanza [] f s1); [by intros ?%elem_of_nil|done|by apply Hb].
    + exfalso. apply Hn. rewrite !elem_of_app. left. right. left.
Qed.

Lemma comprobar_espacio_ok pend s : suma pend + kernel_size man < U64 ->
  comprobar_espacio man cambian pend s = (Ok tt, s) ∨ exists e, comprobar_espacio man cambian pend s = (Err e, s).
Proof.
  intros Hs. unfold comprobar_espacio. rewrite bind_eq. cbn [gets Datatypes.id]. destruct (fsinfo s) as [[fb bs]|]; [|by left].
  unfold necesidad. rewrite !bind_eq.
  rewrite bytes_pendientes_ok by lia.
  rewrite bind_eq. unfold add64. destruct (N.ltb_spec (suma pend + kernel_size man) U64); [|lia]. cbn [mret M_ret].
  destruct (foldl _ _ _) as [a b]. cbn [mret M_ret].
  set (q := preflight _ _). destruct q as [[| |]|]; eauto.
Qed.

(** Span after span. *)
Section Tramos.
Context (pend : list FileEntry) (local : bool) (artefacto : str).
Hypothesis Hpend : pend `sublist_of` cambian.

Lemma pend_files f : f ∈ pend -> f ∈ files man.
Proof using Hpend Hsub. intros Hf. apply Hsub. by eapply elem_of_sublist. Qed.

(** Why the download of the whole may stop, with an honest server. *)
Definition excusa (s : T) : Prop := forall b, sirve s artefacto b -> pack_size man <= lenN b ->
  falla_escritura ∨ exists f d, f ∈ pend ∧ slice (f_offset f) (f_size f) b = Some d ∧ hex_sha256 d ≠ f_hash_hex f.

Record tramo_de (fs : list FileEntry) (s : Span) : Prop := {
  td_indices : Forall2 (fun i f => pend !! i = Some f) (s_files s) fs;
  td_dentro : Forall (fun f => s_start s <= f_offset f ∧ f_fin f <= s_end s) fs;
  td_fila : StronglySorted (fun f g => f_fin f <= f_offset g) fs;
  td_pend : fs ⊆ pend;
  td_rutas : NoDup (f_path <$> fs);
  td_start : s_start s <= s_end s;
  td_tope : s_end s <= pack_size man;
}.

Lemma tramo_un s0 fs s : tramo_de fs s ->
  acaba (bajar_span local artefacto etapa pend s) s0
    (fun _ s' => avanza (ruta_etapa etapa <$> fs) s0 s' ∧ forall f, f ∈ fs -> verificado etapa f s')
    (fun s' => avanza (ruta_etapa etapa <$> fs) s0 s' ∧ (local = false -> excusa s0)).
Proof.
  intros [E1 E2 E3 E4 E5 E6 E7]. destruct s as [a b ks]. cbn [s_start s_end s_files] in *.
  eapply acaba_mono; [apply (bajar_span_ok etapa pend ks fs a b E1); [|done|done|lia|done]|done|].
  - intros f Hf. rewrite Forall_forall in E2. destruct (E2 f Hf). split_and!; [done..|].
    pose proof (sub_dentro pend pend_files) as Hd. rewrite Forall_forall in Hd. by apply Hd, E4.
  - intros s' [A B]. split; [done|]. intros Hloc d Hd Hl. destruct (B Hloc d Hd) as [?|(f & x & Hf & ?)]; [lia|by left|].
    right. exists f, x. split; [by apply E4|done].
Qed.

Definition ruta_de (spans : list Span) : list str := ruta_etapa etapa <$> mbind (ficheros_de pend) spans.

Lemma excusa_antes ps s s1 : avanza ps s s1 -> excusa s1 -> excusa s.
Proof. intros [_ A] E b Hb. apply E. by apply A. Qed.

(** A file of this span is none of the next ones. *)
Lemma ruta_ajena s spans f : tramo_de (ficheros_de pend s) s -> NoDup (f_path <$> mbind (ficheros_de pend) (s :: spans)) ->
  (forall g, g ∈ mbind (ficheros_de pend) spans -> g ∈ pend) ->
  f ∈ ficheros_de pend s -> ruta_etapa etapa f ∉ ruta_de spans.
Proof.
  intros Hs Hnd Hall Hf (g & E & Hg)%list_elem_of_fmap. rewrite bind_cons, fmap_app in Hnd. apply NoDup_app in Hnd as (_ & Hdis & _).
  apply misma_ruta in E as <-; [|apply pend_files; by apply (td_pend _ _ Hs)|by apply pend_files, Hall].
  by apply (Hdis (f_path f)); apply list_elem_of_fmap_2.
Qed.

Lemma tramos_ok spans : forall s0, NoDup (f_path <$> mbind (ficheros_de pend) spans) ->
  Forall (fun s => tramo_de (ficheros_de pend s) s) spans ->
  acaba (mfor (bajar_span local artefacto etapa pend) spans) s0
    (fun _ s' => avanza (ruta_de spans) s0 s' ∧ forall f, f ∈ mbind (ficheros_de pend) spans -> verificado etapa f s')
    (fun s' => avanza (ruta_de spans) s0 s' ∧ (local = false -> excusa s0)).
Proof.
  induction spans as [|s spans IH]; intros s0 Hnd Hf; cbn [mfor].
  { unfold acaba. cbn. split; [apply avanza_refl|]. intros f Hf'. by apply elem_of_nil in Hf'. }
  apply Forall_cons in Hf as [Hs Hf].
  assert (forall s1 s2, avanza (ruta_etapa etapa <$> ficheros_de pend s) s1 s2 -> avanza (ruta_de (s :: spans)) s1 s2) as Hm1.
  { intros s1 s2. apply avanza_mono. intros p (f & -> & Hf')%list_elem_of_fmap. apply list_elem_of_fmap_2. rewrite bind_cons. apply elem_of_app. by left. }
  assert (forall s1 s2, avanza (ruta_de spans) s1 s2 -> avanza (ruta_de (s :: spans)) s1 s2) as Hm2.
  { intros s1 s2. apply avanza_mono. intros p (f & -> & Hf')%list_elem_of_fmap. apply list_elem_of_fmap_2. rewrite bind_cons. apply elem_of_app. by right. }
  assert (forall g, g ∈ mbind (ficheros_de pend) spans -> g ∈ pend) as Hall.
  { intros g (x & Hg & Hx)%list_elem_of_bind. rewrite Forall_forall in Hf. by apply (td_pend _ _ (Hf x Hx)). }
  assert (NoDup (f_path <$> mbind (ficheros_de pend) spans)) as Hnd'.
  { rewrite bind_cons, fmap_app in Hnd. by apply NoDup_app in Hnd as (_ & _ & ?). }
  apply acaba_bind. eapply acaba_mono; [by apply tramo_un| |intros s1 [A B]; auto].
  intros u s1 [A B]. eapply acaba_mono; [by apply IH| |].
  - intros v s2 [A2 B2]. split; [by eapply avanza_trans; [apply Hm1|apply Hm2]|].
    intros f. rewrite bind_cons. intros [Hf'|Hf']%elem_of_app; [|by apply B2].
    eapply verificado_avanza; [by eapply ruta_ajena|exact A2|by apply B].
  - intros s2 [A2 B2]. split; [by eapply avanza_trans; [apply Hm1|apply Hm2]|]. intros Hl. eapply excusa_antes; [exact A|auto].
Qed.
End Tramos.

Lemma plan_tramos pend spans : pend `sublist_of` cambian -> plan_en_ficheros pend spans -> Forall (fun s => s_end s <= pack_size man) spans ->
  NoDup (f_path <$> mbind (ficheros_de pend) spans) ∧ Forall (fun s => tramo_de pend (ficheros_de pend s) s) spans.
Proof.
  intros Hpend [P1 P2 P3 P4 P5] Hend.
  assert (NoDup (f_path <$> mbind (ficheros_de pend) spans)) as Hnd.
  { rewrite P1. apply sub_rutas; [by eapply sublist_NoDup|]. by apply pend_files. }
  split; [done|]. assert (forall f, f ∈ mbind (ficheros_de pend) spans -> f ∈ pend) as Hin by (intros f; by rewrite P1). clear P1.
  induction spans as [|s spans IH]; [constructor|]. rewrite bind_cons in *.
  apply Forall_cons in P3 as [? P3], P4 as [? P4], P5 as [? P5], Hend as [? Hend].
  rewrite fmap_app in Hnd. apply NoDup_app in Hnd as (? & _ & Hnd). apply StronglySorted_app in P2 as (_ & ? & ?).
  constructor.
  - constructor; try done. intros f Hf. apply Hin, elem_of_app. by left.
  - apply IH; try done. intros f Hf. apply Hin, elem_of_app. by right.
Qed.

(** The files of the staging area. *)
Definition todo_verificado (s : T) : Prop := forall f, f ∈ cambian -> verificado etapa f s.

Lemma descargar_ok local artefacto s :
  exists pend s1, pendientes_de (etapa_lista etapa) cambian s = (Ok pend, s1) ∧ pend `sublist_of` cambian ∧
  acaba (descargar man local artefacto etapa cambian) s
    (fun _ s' => avanza (ruta_etapa etapa <$> pend) s s' ∧ todo_verificado s')
    (fun s' => avanza (ruta_etapa etapa <$> pend) s s' ∧ (forall f, f ∈ cambian -> f ∉ pend -> verificado etapa f s') ∧
      (local = false -> excusa pend artefacto s ∨ exists e, comprobar_espacio man cambian pend s1 = (Err e, s1))).
Proof.
  pose proof (pendientes_ok s) as Hp. unfold acaba in Hp.
  destruct (pendientes_de (etapa_lista etapa) cambian s) as [[pend|e| |] s1] eqn:Ep; [|done..].
  destruct Hp as (A1 & Hpend & Hv). exists pend, s1. split_and!; [done..|].
  unfold descargar. apply acaba_bind. unfold acaba at 1. rewrite Ep.
  assert (forall ps s', avanza [] s s' -> avanza ps s s') as Hnil by (intros ps s'; apply avanza_mono; by intros p ?%elem_of_nil).
  assert (suma pend <= pack_size man) as Hsuma.
  { destruct (plan_spans_ficheros pend 0 0 (pack_size man)) as (sp & n & _ & _ & [P1 P2 _ _ _] & _).
    - by eapply sublist_NoDup.
    - by apply sub_separados, pend_files.
    - by apply sub_dentro, pend_files.
    - lia.
    - rewrite <- (suma_perm _ _ P1). apply (suma_en_fila 0); [done| |lia]. apply Forall_forall. intros f Hf. rewrite P1 in Hf.
      pose proof (sub_dentro pend (pend_files pend Hpend)) as Hd. rewrite Forall_forall in Hd. split; [lia|by apply Hd]. }
  apply acaba_bind. destruct (comprobar_espacio_ok pend s1) as [E|[e E]]; [lia| |]; unfold acaba at 1; rewrite E.
  2: { split_and!; [by apply Hnil|done|eauto]. }
  case_bool_decide as Hnone.
  { unfold acaba. cbn. split; [by apply Hnil|]. intros f Hf. apply Hv; [done|]. subst pend. by intros ?%elem_of_nil. }
  destruct (plan_spans_ficheros pend GAP_MAX SPAN_MAX (pack_size man)) as (sp & n & Es & En & Hpf & Hend).
  { by eapply sublist_NoDup. }
  { by apply sub_separados, pend_files. }
  { by apply sub_dentro, pend_files. }
  { lia. }
  apply acaba_bind. unfold acaba at 1, sin_error, zoom. rewrite Es. apply acaba_bind. unfold acaba at 1. rewrite En.
  destruct (plan_tramos _ _ Hpend Hpf Hend) as [Hnd Htr].
  assert (forall s', avanza (ruta_de pend sp) s1 s' -> avanza (ruta_etapa etapa <$> pend) s s' ∧
    forall f, f ∈ cambian -> f ∉ pend -> verificado etapa f s') as Hav.
  { intros s' A2. assert (avanza (ruta_etapa etapa <$> pend) s1 s') as A3.
    { revert A2. apply avanza_mono. intros p (f & -> & Hf)%list_elem_of_fmap. apply list_elem_of_fmap_2. by rewrite (pf_todos _ _ Hpf) in Hf. }
    split; [by eapply avanza_trans; [apply Hnil|]|]. intros f Hf Hn.
    eapply verificado_avanza; [|exact A3|by apply Hv]. intros (g & Eg & Hg)%list_elem_of_fmap.
    apply misma_ruta in Eg as ->; [done|by apply Hsub|by eapply pend_files]. }
  eapply acaba_mono; [by apply tramos_ok| |].
  - intros u s' [A2 B2]. destruct (Hav s' A2) as [A3 B3]. split; [done|]. intros f Hf.
    destruct (decide (f ∈ pend)) as [Hin|Hn]; [|by apply B3]. apply B2. by rewrite (pf_todos _ _ Hpf).
  - intros s' [A2 B2]. destruct (Hav s' A2) as [A3 B3]. split_and!; [done..|]. intros Hl. left. eapply excusa_antes; [exact Hpend|exact A1|auto].
Qed.
End Entrega.
