(* ===== verification/OtaTeoremas.v ===== *)
(** * Update: what the update guarantees

    The properties of the transaction, of its records, of the boot decision
    and of the kernel slot, each with a concrete run where it has
    hypotheses. *)
From S2P Require Import Prelude Texto OtaHash OtaRecord OtaTxn OtaJournal OtaBootrec OtaReconcile OtaAplicador OtaCortes OtaPunto OtaIdentidad OtaKernel.
From S2P Require Ejemplo.
Local Open Scope N_scope.
#[local] Existing Instance Ejemplo.Crc32c_iscsi.

(** ** Applying and undoing, with the power failing *)
Section Cortes.
Context {S : Type} `{SS : SistemaSpec S} `{Sha256}.
Implicit Types s : S.

(** The journal of [s], with its entries as they were before any progress. *)
Abbreviation plan s := (sin_progreso (j_entradas (durable s))).

(** C5. From an armed operation, after any number of boots that apply it, or that
    undo it once applying has begun, each cut anywhere: when the journal says the
    version is on trial the whole new version is on disk, and when it says it was
    undone every file is as it was. No order of such boots and no cut leaves a
    mixture under either name. Undoing while the journal still says armed is left
    out: a cut there does lose files ([revertir_armado_corta]). *)
Theorem cortes_sin_mezcla s s' : sano s -> operacion (copia s) (plan s) -> j_estado (durable s) = Armado ->
  (forall e, e ∈ j_entradas (durable s) -> e_progreso e ≠ Aplicado ∧ e_progreso e ≠ Restaurado) ->
  rtc (arranque (plan s)) s s' ->
  (j_estado (durable s') = Probando -> forall q, activo s' q = nueva (activo s) (copia s) (plan s) q) ∧
  (j_estado (durable s') = Revertido -> (forall e, e ∈ plan s -> previo (copia s) e = activo s (e_path e)) ->
     forall q, activo s' q = activo s q).
Proof.
  intros Hsa Hop Ha He Hr. pose proof (coherente_armado s Hsa Ha He) as Hc.
  pose proof (arranques_coherente (activo s) (copia s) (plan s) s s' Hop Hc Hr) as Hc'. split.
  - intros Hp q. apply coherente_nueva; [done|done|by left].
  - intros Hv HA q. apply (coherente_anterior (activo s) (copia s) (plan s)); [done|done|by left].
Qed.

(** With nothing failing, applying an operation from any state a cut left
    ends with the whole new version and the journal on trial, and undoing one
    ends with every file as it was. *)
Theorem arranque_termina A C es0 s : ¬ puede_fallar -> operacion C es0 -> coherente A C es0 s ->
  j_seq (durable s) + N.of_nat (length es0) + 2 < U64 ->
  (j_estado (durable s) = Armado ∨ j_estado (durable s) = Aplicando ->
   exists s', aplicar (durable s, s) = (Ok tt, (durable s', s')) ∧ j_estado (durable s') = Probando ∧ forall q, activo s' q = nueva A C es0 q) ∧
  (j_estado (durable s) ∈ [Aplicando; Probando; Confirmado; Revirtiendo] -> (forall e, e ∈ es0 -> previo C e = A (e_path e)) ->
   exists s', revertir (durable s, s) = (Ok tt, (durable s', s')) ∧ j_estado (durable s') = Revertido ∧ forall q, activo s' q = A q).
Proof.
  intros Hno Hop Hc Hq. split.
  - intros He. pose proof (aplicar_corre A C es0 Hop s Hc He Hq) as Hcr. unfold corre in Hcr.
    destruct (aplicar (durable s, s)) as [[[]|e| |] [j' s']]; destruct Hcr as [_ Hcr]; try done.
    cbn [fst snd] in Hcr. destruct Hcr as (-> & Hc' & Hp). exists s'. split; [done|]. split; [done|]. intros q. apply coherente_nueva; [done|done|by left].
  - intros He HA. pose proof (revertir_corre A C es0 Hop s Hc He Hq) as Hcr. unfold corre in Hcr.
    destruct (revertir (durable s, s)) as [[[]|e| |] [j' s']]; destruct Hcr as [_ Hcr]; try done.
    cbn [fst snd] in Hcr. destruct Hcr as (-> & Hc' & Hp). exists s'. split; [done|]. split; [done|].
    intros q. apply (coherente_anterior A C es0); [done|done|by left].
Qed.

(** An operation whose boot record was armed but whose journal was left
    prepared never finishes: every boot decides to apply it, and applying it
    never returns successfully, whatever the system does. *)
Theorem preparado_no_termina r j s : b_decision r = DArmado -> b_id r = j_id j -> j_estado j = Preparado ->
  reconcile (EspRegistro r) (JDiario j) = RAplicar (j_id j) ∧ (aplicar (j, s)).1 ≠ Ok tt.
Proof.
  intros Hd Hi He. split; [|by apply aplicar_desde_preparado].
  unfold reconcile. rewrite bool_decide_eq_true_2 by done. cbn [negb]. unfold con_registro. by rewrite Hd, He.
Qed.
End Cortes.

(** A file replaced, in the world where the power may go. *)
Definition viejo : list byte := txt "viejo".
Definition flamante : list byte := txt "flamante".
Definition id0 : TxnId := replicate 32 x07.
Definition cont (d : list byte) : Contenido := mkContenido (lenN d) (hex_sha256 d).
Definition cambio_a : Entrada := mkEntrada Reemplazar Respaldado (txt "bin/a") (Some (cont flamante)) (Some (cont viejo)).
Definition diario_a (st : TxnState) : Journal := mkJournal id0 st 5 (txt "2.0") (txt "1.0") (Some (cont flamante)) (Some (cont viejo)) [cambio_a].
Definition mundo_a (b : bool) (st : TxnState) (quedan : N) : Mundo b :=
  mkMundo {[txt "bin/a" := viejo]} {[txt "bin/a" := flamante]} {[txt "bin/a" := viejo]} (diario_a st) quedan.

(** Undoing an operation that was only armed makes the journal say it was
    undone before any file is restored: with a cut in the middle of the first
    file, that file is gone and the next boot finds the operation closed. *)
Theorem revertir_armado_corta : let '(r, (j, w)) := revertir (diario_a Armado, mundo_a true Armado 2) in
  r = Err (Escritura (txt "bin/a")) ∧ j_estado (durable w) = Revertido ∧ activo w (txt "bin/a") = None ∧
  reconcile (EspRegistro (bootrec_nuevo DRevertir id0 (txt "2.0") (txt "1.0") 6)) (JDiario (durable w)) = RCompletarReversion id0.
Proof. vm_compute. done. Qed.

Lemma operacion_a b st : operacion (S := Mundo b) (copia (mundo_a b st 99)) (sin_progreso [cambio_a]).
Proof.
  split.
  - apply NoDup_singleton.
  - by intros e ->%list_elem_of_singleton.
  - intros e ->%list_elem_of_singleton _. exists (cont flamante), flamante. split; [done|]. split; [done|]. by vm_compute.
  - intros e ->%list_elem_of_singleton _. exists (cont viejo), viejo. split; [done|]. split; [done|]. by vm_compute.
Qed.

Lemma plan_a b st n : sin_progreso (j_entradas (durable (mundo_a b st n))) = sin_progreso [cambio_a].
Proof. reflexivity. Qed.

Lemma cortes_sin_mezcla_testigo : exists w : Mundo true, rtc (arranque (sin_progreso [cambio_a])) (mundo_a true Armado 2) w ∧
  w ≠ mundo_a true Armado 2 ∧
  (j_estado (durable w) = Probando -> forall q, activo w q = nueva (activo (mundo_a true Armado 2)) (copia (mundo_a true Armado 2)) (sin_progreso [cambio_a]) q).
Proof.
  exists (aplicar (durable (mundo_a true Armado 2), mundo_a true Armado 2)).2.2.
  assert (rtc (arranque (sin_progreso [cambio_a])) (mundo_a true Armado 2) (aplicar (durable (mundo_a true Armado 2), mundo_a true Armado 2)).2.2) as Hr.
  { apply rtc_once. apply arr_aplicar; [left; reflexivity|vm_compute; reflexivity|reflexivity]. }
  split; [exact Hr|]. split; [intros Heq; apply (f_equal (fun w => j_estado (durable w))) in Heq; vm_compute in Heq; discriminate Heq|].
  refine (proj1 (cortes_sin_mezcla (mundo_a true Armado 2) _ I _ _ _ Hr)).
  - apply (operacion_a true Armado).
  - reflexivity.
  - intros e ->%list_elem_of_singleton. split; discriminate.
Defined.

Lemma coherente_a : coherente (activo (mundo_a false Armado 0)) (copia (mundo_a false Armado 0)) (sin_progreso [cambio_a]) (mundo_a false Armado 0).
Proof.
  refine (coherente_armado (mundo_a false Armado 0) I eq_refl _). intros e ->%list_elem_of_singleton. split; discriminate.
Qed.

Definition activo_a : str -> option (list byte) := fun q => ({[txt "bin/a" := viejo]} : gmap str (list byte)) !! q.
Definition mundo_probando : Mundo false :=
  mkMundo {[txt "bin/a" := flamante]} {[txt "bin/a" := flamante]} {[txt "bin/a" := viejo]} (diario_a Probando) 0.
Lemma coherente_probando : coherente activo_a (copia mundo_probando) (sin_progreso [cambio_a]) mundo_probando.
Proof.
  split; [exact I|reflexivity|reflexivity| |].
  - intros q Hq. unfold activo_a. cbn [activo Mundo_Spec w_activo mundo_probando].
    assert (txt "bin/a" ≠ q) by (intros <-; apply Hq; set_solver). by rewrite !lookup_singleton_ne.
  - intros e ->%list_elem_of_singleton. split; [discriminate|reflexivity].
Qed.

Lemma arranque_termina_testigo :
  (exists s' : Mundo false, aplicar (diario_a Armado, mundo_a false Armado 0) = (Ok tt, (durable s', s')) ∧ j_estado (durable s') = Probando ∧
    forall q, activo s' q = nueva (activo (mundo_a false Armado 0)) (copia (mundo_a false Armado 0)) (sin_progreso [cambio_a]) q) ∧
  exists s' : Mundo false, revertir (diario_a Probando, mundo_probando) = (Ok tt, (durable s', s')) ∧ j_estado (durable s') = Revertido ∧
    forall q, activo s' q = activo_a q.
Proof.
  assert (¬ puede_fallar (S := Mundo false)) as Hno by discriminate. split.
  - exact (proj1 (arranque_termina _ _ _ (mundo_a false Armado 0) Hno (operacion_a false Armado) coherente_a eq_refl) (or_introl eq_refl)).
  - refine (proj2 (arranque_termina _ _ _ mundo_probando Hno (operacion_a false Armado) coherente_probando eq_refl) _ _).
    + right. left.
    + intros e ->%list_elem_of_singleton. reflexivity.
Defined.

Lemma preparado_no_termina_testigo :
  let r := bootrec_nuevo DArmado id0 (txt "2.0") (txt "1.0") 4 in
  reconcile (EspRegistro r) (JDiario (diario_a Preparado)) = RAplicar id0 ∧ (aplicar (diario_a Preparado, mundo_a false Preparado 0)).1 ≠ Ok tt.
Proof. exact (preparado_no_termina (bootrec_nuevo DArmado id0 (txt "2.0") (txt "1.0") 4) (diario_a Preparado) (mundo_a false Preparado 0) eq_refl eq_refl eq_refl). Defined.

(** ** The decision at boot *)

(** The system boots straight on only when nothing was ever written over
    the active version, or the operation was confirmed, or undone to the end;
    and a journal in the middle of writing is always carried on, undone,
    rescued or stopped for a diagnosis. *)
Theorem arranque_sin_mezcla esp j :
  (arranca_directo (reconcile esp (JDiario j)) = true ->
     sistema_intacto (j_estado j) = true ∨ j_estado j = Confirmado ∨ j_estado j = Revertido) ∧
  (mezcla_posible (j_estado j) = true ->
     match reconcile esp (JDiario j) with RAplicar _ | RRevertir _ | RRescatar _ | RDiagnostico _ => True | _ => False end).
Proof. split; [apply directo_sin_mezcla|apply mezcla_atendida]. Qed.

Lemma arranque_sin_mezcla_testigo : arranca_directo (reconcile EspAusente (JDiario (diario_a Preparado))) = true ∧
  sistema_intacto (j_estado (diario_a Preparado)) = true.
Proof.
  split; [reflexivity|]. destruct (proj1 (arranque_sin_mezcla EspAusente (diario_a Preparado)) eq_refl) as [H|[H|H]]; [exact H|discriminate H|discriminate H].
Defined.

(** Whatever the boot does is done for the operation both records name, or
    for the recovery point of a rescue; files are written only for an
    operation whose boot record is armed with the same identity; and after a
    normal boot the release announced is the one the journal says is on disk,
    the new one exactly when the operation was confirmed. *)
Theorem accion_identificada r jr i :
  (accion_id (reconcile (EspRegistro r) jr) = Some i ->
     (exists j, jr = JDiario j ∧ i = j_id j ∧ i = b_id r) ∨
     (reconcile (EspRegistro r) jr = RRescatar i ∧ b_decision r = DRescatar ∧ b_punto r = Some i)) ∧
  (forall esp, reconcile esp jr = RAplicar i ->
     exists r j, esp = EspRegistro r ∧ jr = JDiario j ∧ b_decision r = DArmado ∧ b_id r = i ∧ j_id j = i ∧
       (j_estado j = Preparado ∨ j_estado j = Armado ∨ j_estado j = Aplicando)) ∧
  (forall j, jr = JDiario j -> reconcile (EspRegistro r) jr = RNormal ->
     release_tras (EspRegistro r) RNormal = Some (if bool_decide (j_estado j = Confirmado) then b_version_nueva r else b_version_anterior r)).
Proof.
  split; [by apply accion_de_la_operacion|]. split; [intros esp; apply aplicar_solo_armado|]. intros j ->. apply normal_version.
Qed.

Lemma accion_identificada_testigo :
  (exists r j, EspRegistro (bootrec_nuevo DArmado id0 (txt "2.0") (txt "1.0") 4) = EspRegistro r ∧
    JDiario (diario_a Armado) = JDiario j ∧ b_decision r = DArmado ∧ b_id r = id0 ∧ j_id j = id0 ∧
    (j_estado j = Preparado ∨ j_estado j = Armado ∨ j_estado j = Aplicando)) ∧
  release_tras (EspRegistro (bootrec_nuevo DConfirmado id0 (txt "2.0") (txt "1.0") 4)) RNormal = Some (txt "2.0").
Proof.
  split.
  - exact (proj1 (proj2 (accion_identificada (bootrec_nuevo DArmado id0 (txt "2.0") (txt "1.0") 4) (JDiario (diario_a Armado)) id0))
      (EspRegistro (bootrec_nuevo DArmado id0 (txt "2.0") (txt "1.0") 4)) eq_refl).
  - exact (proj2 (proj2 (accion_identificada (bootrec_nuevo DConfirmado id0 (txt "2.0") (txt "1.0") 4) (JDiario (diario_a Confirmado)) id0))
      (diario_a Confirmado) eq_refl eq_refl).
Defined.

(** The machine of the operation never goes back to an earlier phase, and
    no operation is confirmed without having been applied in full and having
    passed its trial boot. *)
Theorem fases_en_orden s s' : rtc paso s s' ->
  fase s <= fase s' ∧ (fase s = fase s' -> s = s') ∧
  (sistema_intacto s = true -> s' = Confirmado -> rtc paso s Aplicando ∧ rtc paso Aplicando Probando ∧ rtc paso Probando Confirmado).
Proof.
  intros H. destruct (paso_fase s s' H) as [H1 H2]. split; [done|]. split; [done|]. intros Hs ->. by apply confirmado_pasa_por.
Qed.

Lemma fases_en_orden_testigo : rtc paso Armado Confirmado ∧ fase Armado <= fase Confirmado.
Proof.
  assert (rtc paso Armado Confirmado) as H.
  { apply (rtc_l _ _ Aplicando); [exists AplicacionIniciada; reflexivity|]. apply (rtc_l _ _ Probando); [exists AplicacionCompleta; reflexivity|].
    apply rtc_once. exists PruebaSuperada. reflexivity. }
  split; [exact H|]. exact (proj1 (fases_en_orden Armado Confirmado H)).
Defined.

(** The capacity check passes exactly when everything fits; no sum of the
    sizes wraps around. *)
Theorem capacidad_exacta n c : sosofs_libre c < U64_MAX ->
  preflight n c = inr tt <->
  preparacion n + respaldo_bytes n + crecimiento n + RESERVA_LOGS + RESERVA_RECUPERACION <= sosofs_libre c ∧
  0 < kernel_bytes n <= hueco_kernel c ∧ SLOT_SIZE * SLOTS <= registro_arranque c ∧ META_KERNEL_MIN <= meta_kernel c.
Proof. apply preflight_ok. Qed.

Lemma capacidad_exacta_testigo :
  preflight (mkNecesidad U64_MAX 1 0 5) (mkCapacidad (2 ^ 40) 10 4096 512) = inr tt <->
  U64_MAX + 1 + 0 + RESERVA_LOGS + RESERVA_RECUPERACION <= 2 ^ 40 ∧ 0 < 5 <= 10 ∧ SLOT_SIZE * SLOTS <= 4096 ∧ META_KERNEL_MIN <= 512.
Proof. exact (capacidad_exacta (mkNecesidad U64_MAX 1 0 5) (mkCapacidad (2 ^ 40) 10 4096 512) eq_refl). Defined.

(** ** The records *)
(** A journal written is read back entire: its identity, state, versions,
    kernels and every entry with its progress. *)
Theorem diario_redondo `{Crc32c} j : diario_ok j -> diario_parse (diario_format j) = inr j.
Proof. apply diario_ida_y_vuelta. Qed.

Lemma diario_a_ok st : diario_ok (diario_a st).
Proof.
  assert (valor_ok (txt "2.0")) as Hv by (apply valor_visible; by repeat constructor).
  assert (valor_ok (txt "1.0")) as Hw by (apply valor_visible; by repeat constructor).
  assert (contenido_ok (cont flamante)) as Hf by (split; vm_compute; reflexivity).
  assert (contenido_ok (cont viejo)) as Hg by (split; vm_compute; reflexivity).
  split; try done. apply Forall_singleton. split; try done. apply valor_visible. by repeat constructor.
Qed.
Lemma diario_redondo_testigo : diario_parse (diario_format (diario_a Aplicando)) = inr (diario_a Aplicando).
Proof. exact (diario_redondo (diario_a Aplicando) (diario_a_ok Aplicando)). Defined.

(** A boot record written fills its slot exactly and is read back
    entire. *)
Theorem registro_redondo `{Crc32c} r raw : bootrec_ok r -> bootrec_format r = inr raw ->
  lenN raw = SLOT_SIZE ∧ bootrec_parse raw = inr r.
Proof. apply bootrec_ida_y_vuelta. Qed.

Definition registro_a : BootRecord := con_punto id0 (bootrec_nuevo DArmado id0 (txt "2.0") (txt "1.0") 4).
Lemma registro_a_ok : bootrec_ok registro_a.
Proof.
  split; try done; apply valor_visible; by repeat constructor.
Qed.
Lemma registro_redondo_testigo : exists raw, bootrec_format registro_a = inr raw ∧ lenN raw = SLOT_SIZE ∧ bootrec_parse raw = inr registro_a.
Proof.
  assert (exists raw, bootrec_format registro_a = inr raw) as [raw Hr].
  { destruct (bootrec_format registro_a) as [e|raw] eqn:E; [|by exists raw]. vm_compute in E. discriminate E. }
  exists raw. split; [exact Hr|]. exact (registro_redondo registro_a raw registro_a_ok Hr).
Defined.

(** C38. A cut while the next record is written leaves the previous one in
    force: whatever bytes end in the slot of the turn, the file still answers
    the record it answered, unless those bytes are themselves a whole record,
    not older; and no record is accepted without the checksum, after [sum=],
    of every byte before that line, nor with a format this code does not
    know. *)
Theorem registro_a_medias `{Crc32c} magic fm slots i f raw : pick magic fm slots = inr (i, f) ->
  i = ranura (f_seq f) (lenN slots) -> 1 < lenN slots ->
  let j := ranura (f_seq f + 1) (lenN slots) in
  pick magic fm (<[N.to_nat j := raw]> slots) = inr (i, f) ∨
  exists f' n, parse magic fm raw = inr f' ∧ f_seq f <= f_seq f' ∧ pick magic fm (<[N.to_nat j := raw]> slots) = inr (j, f') ∧
    buscar_suma 0 (split_inclusive LF (antes_de x00 raw)) = Some (n, suma (take n raw)) ∧ 0 < f_formato f' <= fm.
Proof.
  intros Hp Hi Hn j. destruct (pick_rota magic fm slots i f raw Hp Hi Hn) as [Hl|(f' & Hf & Hs & Hpk)]; [by left|].
  right. destruct (parse_integro _ _ _ _ Hf) as (n & ? & ?). by exists f', n.
Qed.

Definition ranuras_a : list (list byte) :=
  [match bootrec_format registro_a with inr raw => raw | inl _ => [] end; replicate 1024 x00; replicate 1024 xff; []].
Lemma registro_a_medias_testigo :
  pick BOOTREC_MAGIC BOOTREC_FORMATO (<[1%nat := txt "basura"]> ranuras_a) = inr (0, mkFramed 2 4 (cuerpo_bootrec registro_a)).
Proof.
  assert (pick BOOTREC_MAGIC BOOTREC_FORMATO ranuras_a = inr (0, mkFramed 2 4 (cuerpo_bootrec registro_a))) as Hp by (vm_compute; reflexivity).
  destruct (registro_a_medias BOOTREC_MAGIC BOOTREC_FORMATO ranuras_a 0 (mkFramed 2 4 (cuerpo_bootrec registro_a)) (txt "basura") Hp eq_refl eq_refl)
    as [H|(f' & n & Hf & _)]; [exact H|]. vm_compute in Hf. discriminate Hf.
Defined.

(** ** Rescue *)
(** A rescue publishes, in the next turn, a request for the retained point
    of the record in force, and only when there is one to go back to; and
    closing the journal of the rescued operation leaves it discarded if it
    had not been armed and undone otherwise, with its inventory intact. *)
Theorem rescate_cierra rec plan registro d h u u' j : planear rec u = (Ok plan, u') -> plan = Pedir registro d h -> j_seq j + 2 < U64 ->
  (b_decision registro = DRescatar ∧ b_seq registro = b_seq rec + 1 ∧ b_id registro = b_id rec ∧
   exists p, b_punto rec = Some p ∧ reconcile (EspRegistro registro) JAusente = RRescatar p) ∧
  exists c j', cerrar_diario j = (Ok c, j') ∧ recogible (j_estado j') = true ∧
    j_estado j' = (if bool_decide (fase (j_estado j) < 2) || bool_decide (j_estado j = Descartado) then Descartado else Revertido) ∧
    j_entradas j' = j_entradas j.
Proof.
  intros Hp Hpl Hs. destruct (planear_pide rec plan registro d h u u' Hp Hpl) as (H1 & H2 & H3 & H4 & _). split; [done|].
  destruct (cerrar_diario_cierra j Hs) as (c & j' & Hc & He & _ & Hn). exists c, j'. split; [done|]. split; [|done].
  rewrite He. by case_match.
Qed.

Lemma rescate_cierra_testigo : exists registro c j', planear registro_a tt = (Ok (Pedir registro (txt "1.0") (txt "1.0")), tt) ∧
  b_decision registro = DRescatar ∧ cerrar_diario (diario_a Aplicando) = (Ok c, j') ∧ recogible (j_estado j') = true.
Proof.
  eexists.
  assert (planear registro_a tt = (Ok (Pedir (con_punto id0 (bootrec_nuevo DRescatar id0 (txt "1.0") (txt "1.0") 5)) (txt "1.0") (txt "1.0")), tt)) as Hp by reflexivity.
  destruct (rescate_cierra registro_a _ _ _ _ tt tt (diario_a Aplicando) Hp eq_refl eq_refl) as [[H1 _] (c & j' & H2 & H3 & _)].
  exists c, j'. split; [exact Hp|]. split; [exact H1|]. split; [exact H2|exact H3].
Defined.

(** ** Recovery points *)
(** C24. Creating a recovery point never touches the active system; if it
    answers a point, the record is durable and every backup it needs was read
    back with its size and hash, and whatever fails before the record leaves
    the points as they were. *)
Theorem punto_verificado {S} `{AlmacenSpec S, Sha256} id version build guid kernel cs (s : S) r s' :
  crear_punto id version build guid kernel cs s = (r, s') ->
  sistema s' = sistema s ∧
  match r with
  | Ok p => p = punto_esperado s id version build guid kernel cs ∧ punto_de s' id = Some p ∧ Forall (copia_buena s' id) (p_entradas p)
  | Err RegistroC => punto_de s' id = punto_de s id ∨
      (punto_de s' id = Some (punto_esperado s id version build guid kernel cs) ∧
       Forall (copia_buena s' id) (entrada_del_cambio (sistema s) <$> cs))
  | _ => punto_de s' = punto_de s
  end.
Proof. apply crear_punto_run. Qed.

(** C25. Retention: whatever is armed, confirmed and undone, and in whatever order,
    each point there was or that was armed is either retained or was given up, just
    once, and none is both; if every backup of the point of the active version
    verifies, the same holds ever after, and a machine that could go back still
    can; a confirmed operation whose point verifies makes it the way back; and what
    is collected is exactly what nobody retains, and nothing when nothing is retained. *)
Theorem retencion_segura bueno r0 armados fuera r : vida bueno r0 armados fuera r ->
  (forall p, r_activo r0 = Some p -> bueno p = true) ->
  NoDup (fuera ++ referencias r) ∧ fuera ++ referencias r ≡ₚ referencias r0 ++ armados ∧
  (forall p, r_activo r = Some p -> bueno p = true) ∧ (is_Some (r_activo r0) -> is_Some (r_activo r)) ∧
  (forall p, r_armado r = Some p -> bueno p = true -> (al_confirmar (bueno p) r).2 = mkRetencion (Some p) None) ∧
  forall todos p, p ∈ a_recoger todos (referencias r) <-> p ∈ todos ∧ p ∉ referencias r ∧ referencias r ≠ [].
Proof.
  intros Hv Hb. destruct (vida_cuenta bueno r0 armados fuera r Hv) as (H1 & H2 & H3 & H4).
  split; [by rewrite H1|]. split; [done|]. split; [by apply H3|]. split; [done|]. split; [|intros; apply elem_of_a_recoger].
  intros p Hp Hg. unfold al_confirmar. by rewrite Hp, Hg.
Qed.

Definition bueno_prueba (p : TxnId) : bool := bool_decide (p ≠ [x03]).
Lemma retencion_segura_testigo : exists r, vida bueno_prueba (mkRetencion (Some [x01]) None) [[x02]; [x03]] [[x01]] r ∧
  [[x01]] ++ referencias r ≡ₚ [[x01]] ++ [[x02]; [x03]] ∧ r_activo r = Some [x02].
Proof.
  set (r0 := mkRetencion (Some [x01]) None).
  assert (vida bueno_prueba r0 [[x02]; [x03]] [[x01]] (mkRetencion (Some [x02]) (Some [x03]))) as Hv.
  { pose proof (vida_armar bueno_prueba r0 [x02] [] [] r0 (vida_nada _ _) eq_refl ltac:(apply (bool_decide_unpack _); reflexivity)) as V1.
    pose proof (vida_confirmar bueno_prueba r0 true _ _ _ V1 ltac:(intros n [= <-]; reflexivity)) as V2.
    pose proof (vida_armar bueno_prueba r0 [x03] _ _ _ V2 eq_refl ltac:(apply (bool_decide_unpack _); reflexivity)) as V3.
    exact (vida_confirmar bueno_prueba r0 false _ _ _ V3 ltac:(intros n [= <-]; reflexivity)). }
  exists (mkRetencion (Some [x02]) (Some [x03])). split; [exact Hv|]. split; [|reflexivity].
  exact (proj1 (proj2 (retencion_segura bueno_prueba r0 _ _ _ Hv ltac:(intros p [= <-]; reflexivity)))).
Defined.

(** ** The kernel slot and the identity of the machine *)
(** From a planned kernel update the old kernel can always be recovered
    from its slot, whatever follows it there; until the new kernel is on
    trial an interruption recovers it, and afterwards it never does; and what
    is written is a prefix of what was staged, with the declared size and
    hash. *)
Theorem kernel_recuperable `{Sha256} old staged size hash version p : old ≠ [] ->
  plan_apply old staged size hash version = inr p -> plan_recuperable old staged size hash p.
Proof. apply plan_apply_recuperable. Qed.

Lemma kernel_recuperable_testigo : exists p, plan_apply viejo (flamante ++ txt "relleno") 8 (hex_sha256 flamante) (txt "2.0") = inr p ∧
  plan_recuperable viejo (flamante ++ txt "relleno") 8 (hex_sha256 flamante) p.
Proof.
  assert (exists p, plan_apply viejo (flamante ++ txt "relleno") 8 (hex_sha256 flamante) (txt "2.0") = inr p) as [p Hp].
  { eexists. vm_compute. reflexivity. }
  exists p. split; [exact Hp|]. refine (kernel_recuperable viejo _ _ _ _ p _ Hp). discriminate.
Defined.

(** The metadata of the kernel slot, and the command of the mailbox, are
    read back from the fixed-size block they are written in. *)
Theorem ranura_kernel_redonda m size hash version : meta_ok m -> lenN (cuerpo_meta m) <= KERNEL_META_SIZE ->
  palabra hash -> palabra version -> size < U64 ->
  lenN (txt "KERNEL " ++ dec size ++ txt " " ++ hash ++ txt " " ++ version) <= 4000 ->
  (lenN (meta_format m) = KERNEL_META_SIZE ∧ meta_parse (meta_format m) = inr m) ∧
  buzon_parse (format_kernel size hash version) = CKernel size hash version.
Proof. intros. split; [by apply meta_ida_y_vuelta|by apply buzon_kernel]. Qed.

Lemma ranura_kernel_redonda_testigo :
  let m := mkKernelMeta KBackupReady (txt "2.0") 8 (hex_sha256 flamante) 5 (hex_sha256 viejo) in
  meta_parse (meta_format m) = inr m ∧ buzon_parse (format_kernel 8 (hex_sha256 flamante) (txt "2.0")) = CKernel 8 (hex_sha256 flamante) (txt "2.0").
Proof.
  intros m. assert (palabra (txt "2.0")) as Hv by (split; [discriminate|by repeat constructor]).
  assert (forall d, palabra (hex_sha256 d)) as Hx.
  { intros d. unfold hex_sha256. split; [|apply hexdigits_visible, hex_of_digits].
    intros Hn. apply (f_equal length) in Hn. rewrite hex_of_length, sha256_length in Hn. discriminate Hn. }
  assert (meta_ok m) as Hm by (split_and!; [right; exact Hv|right; apply Hx|right; apply Hx|reflexivity|reflexivity]).
  assert (lenN (cuerpo_meta m) <= KERNEL_META_SIZE) as Hl by (vm_compute; discriminate).
  assert (lenN (txt "KERNEL " ++ dec 8 ++ txt " " ++ hex_sha256 flamante ++ txt " " ++ txt "2.0") <= 4000) as Hk by (vm_compute; discriminate).
  destruct (ranura_kernel_redonda m 8 (hex_sha256 flamante) (txt "2.0") Hm Hl (Hx flamante) Hv eq_refl Hk) as [[_ H1] H2].
  split; [exact H1|exact H2].
Defined.

(** A store of points in memory. *)
Record Deposito := mkDeposito {
  d_sistema : gmap str (list byte);
  d_copias : gmap (TxnId * str) (list byte);
  d_puntos : gmap TxnId Punto;
}.
Definition d_guardar (id : TxnId) (p : str) (d : list byte) : M Deposito unit unit :=
  modify (fun s => mkDeposito (d_sistema s) (<[(id, p) := d]> (d_copias s)) (d_puntos s)).
#[export] Instance Deposito_Almacen : Almacen Deposito := {
  leer_sistema p s := (d_sistema s !! p, s);
  guardar_copia := d_guardar;
  releer_copia id p s := (d_copias s !! (id, p), s);
  guardar_punto p := modify (fun s => mkDeposito (d_sistema s) (d_copias s) (<[p_id p := p]> (d_puntos s)));
  borrar_punto id := modify (fun s => mkDeposito (d_sistema s) (d_copias s) (delete id (d_puntos s)));
  espacio_libre s := (2 ^ 40, s);
}.
#[export] Instance Deposito_Spec : AlmacenSpec Deposito.
Proof.
  refine {| sistema s p := d_sistema s !! p; copia_de s id p := d_copias s !! (id, p); punto_de s id := d_puntos s !! id |}; cbn.
  - by intros p s.
  - by intros id p d s.
  - intros id p s. split; [by left|done].
  - intros p s. do 2 (split; [done|]). apply lookup_insert_eq.
  - done.
Defined.

Definition deposito_a : Deposito := mkDeposito {[txt "bin/a" := viejo]} ∅ ∅.
Lemma punto_verificado_testigo : exists p (s' : Deposito),
  crear_punto id0 (txt "1.0") (txt "b") (txt "g") (cont viejo) [Trae (txt "bin/a"); Trae (txt "/bin/n")] deposito_a = (Ok p, s') ∧
  punto_de s' id0 = Some p ∧ Forall (copia_buena s' id0) (p_entradas p).
Proof.
  destruct (crear_punto id0 (txt "1.0") (txt "b") (txt "g") (cont viejo) [Trae (txt "bin/a"); Trae (txt "/bin/n")] deposito_a) as [r s'] eqn:E.
  pose proof (punto_verificado id0 (txt "1.0") (txt "b") (txt "g") (cont viejo) [Trae (txt "bin/a"); Trae (txt "/bin/n")] deposito_a r s' E) as [_ H].
  destruct r as [p|e| |]; [|exfalso..]; [|apply (f_equal fst) in E; vm_compute in E; discriminate E..].
  destruct H as (_ & H1 & H2). exists p, s'. split; [reflexivity|]. split; [exact H1|exact H2].
Defined.
