(* ===== verification/OtaReleaseTeoremas.v ===== *)
(** * Update: what a release guarantees

    The properties of the manifest, of the pack, of the plan of the download
    and of the download itself, each with a concrete run where it has
    hypotheses. *)
From stdpp Require Import sorting gmap strings.
From S2P Require Import Prelude Texto OtaHash OtaRecord OtaManifest OtaTxn OtaKernel OtaCortes OtaDescarga OtaPaquete OtaBajada OtaEntrega.
Local Open Scope N_scope.

(** ** The manifest and the pack *)

(** C35. A sound manifest (its digests hexadecimal of the right length, every
    file with a relative path without dot-dot or back slash, a size within
    bounds and inside the pack, no path repeated and no two files overlapping)
    is always accepted, and what is refused with an error is not sound. What
    is accepted is sound, and no sum of the check overflows, but for one shape
    of manifest, which is never sound: a pack declared of the largest size of
    64 bits, with a file whose end does not fit in them. *)
Theorem manifiesto_exacto m : pack_size m < U64 ->
  (manifiesto_sano m -> manifest_validate m tt = (Ok tt, tt)) ∧
  match manifest_validate m tt with
  | (Ok _, _) => manifiesto_sano m ∨ manifiesto_desborda m
  | (Err _, _) => ¬ manifiesto_sano m
  | (Panic, _) => manifiesto_desborda m
  | (Fuel, _) => False
  end.
Proof.
  intros H. pose proof (manifest_validate_para m) as Hf. destruct (cuentas_o_desborda m H) as [Hc|Hd].
  - pose proof (manifest_validate_spec m Hc) as Hv.
    destruct (manifest_validate m tt) as [[[]| | |] []]; [split; [done|by left]|split; [by intros ?|done]|done..].
  - pose proof (desborda_no_sano m Hd) as Hn. split; [by intros ?|].
    destruct (manifest_validate m tt) as [[[]| | |] []]; [by right|done..].
Qed.

(** C36. A pack built from sound entries reads every one of them back, whole and
    with its digest, and a manifest with the files it returns is accepted. *)
Theorem pack_redondo `{Sha256} es m : Forall entrada_empaquetable es -> NoDup (pe_path <$> es) ->
  files m = (pack_build es).2 -> pack_size m = lenN (pack_build es).1 -> pack_size m < U64_MAX ->
  hex_ok (kernel_hash m) = true -> hex_ok (pack_hash m) = true ->
  Forall2 (fun e f => f_path f = pe_path e ∧ read_entry (pack_build es).1 f = Some (pe_data e) ∧ verify_entry (pack_build es).1 f = true)
    es (files m) ∧
  manifest_validate m tt = (Ok tt, tt).
Proof.
  intros Hes Hnd Hf Hp Hmax Hk Hh. rewrite pack_build_run in *. cbn [fst snd] in *. split.
  - rewrite Hf. pose proof (entradas_desde_read [] es []) as Hr. cbn in Hr. rewrite app_nil_r in Hr.
    assert (lenN (concat (pe_data <$> es)) < U64) as Hlt by (unfold U64_MAX in Hmax; lia).
    eapply Forall2_impl; [apply Hr; change (lenN (@nil byte)) with 0; lia|]. intros e f (E1 & E2 & E3). split_and!; [done..|].
    unfold verify_entry. rewrite E3, E2. by apply bool_decide_eq_true.
  - pose proof (manifest_validate_spec m (cuentas_cortas m Hmax)) as Hv.
    assert (manifiesto_sano m) as Hs.
    { constructor; rewrite ?Hf; [done|done| | |].
      - rewrite Hp. apply (entradas_desde_sanas 0 es Hes).
      - by rewrite entradas_desde_paths.
      - apply entradas_desde_separadas. }
    destruct (manifest_validate m tt) as [[[]| | |] []]; [done|by exfalso|done..].
Qed.

(** ** The plan of the download *)

(** C34. The plan of a download asks for every pending file in exactly one span,
    inside it; no span has slack at its ends, none is longer than the bound
    unless one of its files alone is; and for the files of a sound manifest
    the spans come in order without overlapping, and what is announced to be
    downloaded does not overflow nor exceed the pack. *)
Theorem plan_cubre pend gap_max span_max tope : Forall (fun f => f_fin f <= tope) pend -> tope < U64 ->
  exists spans, plan_spans pend gap_max span_max tt = (Ok spans, tt) ∧
    concat (s_files <$> spans) ≡ₚ seq 0 (length pend) ∧
    Forall (fun s => (forall i, i ∈ s_files s -> exists f, pend !! i = Some f ∧ s_start s <= f_offset f ∧ f_fin f <= s_end s) ∧
      (exists i f, i ∈ s_files s ∧ pend !! i = Some f ∧ f_offset f = s_start s) ∧
      (exists i f, i ∈ s_files s ∧ pend !! i = Some f ∧ f_fin f = s_end s) ∧
      (oversized s span_max = true -> exists i f, i ∈ s_files s ∧ pend !! i = Some f ∧ f_size f = span_len s)) spans ∧
    (NoDup pend ∧ todos_separados pend ∧ Forall (fun f => 0 < f_size f) pend ->
       StronglySorted (fun s t => s_end s <= s_start t) spans ∧
       exists n, plan_bytes spans tt = (Ok n, tt) ∧ n <= tope).
Proof.
  intros Hf Ht. destruct (plan_spans_ok pend gap_max span_max (NoDup pend ∧ todos_separados pend ∧ Forall (fun f => 0 < f_size f) pend))
    as (spans & dn & E & Hdn & Hcat & Htr & Hord); [|done|].
  { eapply Forall_impl; [exact Hf|]. cbn. lia. }
  exists spans. split_and!; [done|by rewrite Hcat| |].
  - eapply Forall_impl; [exact Htr|]. intros s [H1 H2 H3 H4]. split_and!; [done..|]. intros Ho. unfold oversized in Ho.
    apply N.ltb_lt in Ho. destruct H4 as [?|(i & f & Hi & Hfi & E1 & E2)]; [lia|]. exists i, f. split_and!; [done..|].
    unfold span_len, f_fin in *. lia.
  - intros HP. destruct (Hord HP) as [Hen _]. split; [done|]. apply (plan_bytes_ok pend span_max); [done..| |done].
    eapply Forall_impl; [exact Htr|]. intros s [_ _ (i & f & _ & Hfi & <-) _]. rewrite Forall_forall in Hf. apply Hf.
    by eapply list_elem_of_lookup_2.
Qed.

(** ** The download *)

(** C32. For a sound manifest whose pack, kernel and one piece more of 1 MiB add up
    to less than 2^64 bytes (beyond that the sum of the room check overflows),
    and whatever the server answers, a download of files of it, none twice,
    never panics. When it ends well every changed file is staged with its size
    and its digest; when it stops, what was staged and verified before still
    is; and nothing but the staging files still missing is ever written. *)
Theorem descarga_verificada `{MundoSpec T, Sha256} man etapa cambian local artefacto (s : T) :
  manifiesto_sano man -> pack_size man + kernel_size man + TROZO_MAX < U64 -> NoDup cambian ->
  (forall f, f ∈ cambian -> f ∈ files man) ->
  exists pend s1, pendientes_de (etapa_lista etapa) cambian s = (Ok pend, s1) ∧
  match descargar man local artefacto etapa cambian s with
  | (Ok _, s') => (forall f, f ∈ cambian -> verificado etapa f s') ∧
      forall p, (forall f, f ∈ pend -> p ≠ ruta_etapa etapa f) -> contenido s' p = contenido s p
  | (Err _, s') => (forall f, f ∈ cambian -> f ∉ pend -> verificado etapa f s') ∧
      forall p, (forall f, f ∈ pend -> p ≠ ruta_etapa etapa f) -> contenido s' p = contenido s p
  | _ => False
  end.
Proof.
  intros Hs Ht Hn Hc. destruct (descargar_ok man etapa cambian Hs Ht Hn Hc local artefacto s) as (pend & s1 & E & _ & Hd).
  exists pend, s1. split; [done|].
  assert (forall s', avanza (ruta_etapa etapa <$> pend) s s' ->
    forall p, (forall f, f ∈ pend -> p ≠ ruta_etapa etapa f) -> contenido s' p = contenido s p) as Hav.
  { intros s' [Ha _] p Hp. apply Ha. intros (f & -> & Hf)%list_elem_of_fmap. by apply (Hp f). }
  unfold acaba in Hd. destruct (descargar _ _ _ _ _ s) as [[u|e| |] s']; [| |done|done].
  - destruct Hd as [A B]. split; [exact B|by apply Hav].
  - destruct Hd as (A & B & _). split; [exact B|by apply Hav].
Qed.

(** C33. From entries to staged files: the pack built from sound entries, served
    by a server that answers its ranges honestly and described by a manifest
    with the files the builder gives, is downloaded to the end and every
    changed file is verified, provided that there is room and that writes do
    not fail. *)
Theorem entrega_completa `{MundoSpec T, Sha256} es man etapa cambian artefacto (s : T) :
  Forall entrada_empaquetable es -> NoDup (pe_path <$> es) ->
  files man = (pack_build es).2 -> pack_size man = lenN (pack_build es).1 ->
  hex_ok (kernel_hash man) = true -> hex_ok (pack_hash man) = true ->
  pack_size man + kernel_size man + TROZO_MAX < U64 -> NoDup cambian -> (forall f, f ∈ cambian -> f ∈ files man) ->
  sirve s artefacto (pack_build es).1 -> ¬ falla_escritura ->
  (forall pend s1 e, pendientes_de (etapa_lista etapa) cambian s = (Ok pend, s1) -> comprobar_espacio man cambian pend s1 ≠ (Err e, s1)) ->
  exists s', descargar man false artefacto etapa cambian s = (Ok tt, s') ∧ forall f, f ∈ cambian -> verificado etapa f s'.
Proof.
  intros Hes Hnd Hf Hp Hk Hh Ht Hn Hc Hsv Hno Hesp. rewrite pack_build_run in *. cbn [fst snd] in *.
  assert (manifiesto_sano man) as Hs.
  { constructor; rewrite ?Hf; [done|done| | |].
    - rewrite Hp. apply (entradas_desde_sanas 0 es Hes).
    - by rewrite entradas_desde_paths.
    - apply entradas_desde_separadas. }
  destruct (descargar_ok man etapa cambian Hs Ht Hn Hc false artefacto s) as (pend & s1 & E & Hpend & Hd).
  unfold acaba in Hd. destruct (descargar _ _ _ _ _ s) as [[[]|e| |] s'] eqn:Ed; [| |done|done].
  { exists s'. split; [done|apply Hd]. }
  exfalso. destruct Hd as (_ & _ & Hm). destruct (Hm eq_refl) as [Hx|[e' Hx]]; [|by apply (Hesp pend s1 e')].
  destruct (Hx _ Hsv) as [?|(f & d & Hfp & Hsl & Hh')]; [lia|done|].
  pose proof (entradas_desde_read [] es []) as Hr. cbn in Hr. rewrite app_nil_r in Hr.
  assert (f ∈ entradas_desde 0 es) as Hfe by (rewrite <- Hf; eapply pend_files; [exact Hc|exact Hpend|exact Hfp]).
  apply list_elem_of_lookup in Hfe as [i Hi]. destruct (Forall2_lookup_r _ _ _ _ _ (Hr ltac:(change (lenN (@nil byte)) with 0; lia)) Hi) as (e0 & _ & _ & E2 & E3).
  unfold read_entry in E3. case_match; [|done]. apply Hh'. rewrite E2. congruence.
Qed.

(** ** A concrete disk and server *)

(** Files by path and artefacts by address. *)
Record Disco := mkDisco { en_disco_ : gmap str (list byte); en_red_ : gmap str (list byte) }.

#[local] Instance Disco_Servidor : Servidor Disco := {|
  https_get_range_full url a b := fun d =>
    (Ok match en_red_ d !! url ≫= slice a (b + 1 - a) with
        | Some x => mkRespuesta 206 None x
        | None => mkRespuesta 416 None []
        end, d)
|}.
#[local] Instance Disco_Ficheros : Ficheros Disco := {|
  read_file_bytes p max d := (take (N.to_nat max) <$> en_disco_ d !! p, d);
  read_file_span p start len d := (en_disco_ d !! p ≫= slice start len, d);
  escribir_fichero p x := modify (fun d => mkDisco (<[p := x]> (en_disco_ d)) (en_red_ d));
  mkdir _ d := d;
  fsinfo _ := Some (100000, 4096);
  stat p d := lenN <$> en_disco_ d !! p
|}.

#[local] Instance Disco_Mundo : MundoSpec Disco.
Proof.
  refine {| contenido d p := en_disco_ d !! p; falla_escritura := False; sirve d u b := en_red_ d !! u = Some b |}; cbn.
  - intros p max d. split_and!; [done..|]. intros x Hx Hl. destruct (en_disco_ d !! p) as [y|]; [|done]. cbn in Hx.
    injection Hx as <-. f_equal. symmetry. apply take_ge. rewrite lenN_take in Hl. unfold lenN in *. lia.
  - intros p start len d. split_and!; [done..|]. intros x Hx. destruct (en_disco_ d !! p) as [y|]; [by exists y|done].
  - intros p x d. cbn. split_and!; [|done|apply lookup_insert_eq]. intros q Hq. by apply lookup_insert_ne.
  - done.
  - intros u a b d. split_and!; [done..|]. intros x -> [Hab Hb]. cbn.
    unfold slice. destruct (N.leb_spec (a + (b + 1 - a)) (lenN x)); [done|lia].
Defined.

Definition entradas_a : list PackEntry :=
  [mkPackEntry (txt "bin/init") (txt "arranca"); mkPackEntry (txt "bin/ls") (txt "lista"); mkPackEntry (txt "etc/motd") (txt "hola")].
Definition manifiesto_a : Manifest :=
  mkManifest (mkSemVer 2 0 0) (txt "2.0.0") [] [] (hex_sha256 (txt "kernel")) 6 (hex_sha256 (pack_build entradas_a).1) (lenN (pack_build entradas_a).1)
    None (pack_build entradas_a).2.
Definition red_a : str := txt "rootfs.pack".
Definition disco_a : Disco := mkDisco ∅ {[ red_a := (pack_build entradas_a).1 ]}.

Lemma entradas_a_ok : Forall entrada_empaquetable entradas_a.
Proof.
  assert (forall e, ruta_mala (pe_path e) = false ∧ 0 < lenN (pe_data e) <= MAX_FILE_SIZE -> entrada_empaquetable e) as Hx
    by (intros e [H1 H2]; split; [by apply ruta_mala_spec|done]).
  repeat constructor; apply Hx; (split; [vm_compute; reflexivity|split; vm_compute; [reflexivity|discriminate]]).
Qed.
Lemma entradas_a_rutas : NoDup (pe_path <$> entradas_a).
Proof. apply (bool_decide_unpack _). vm_compute. exact I. Qed.
Lemma manifiesto_a_valido : manifest_validate manifiesto_a tt = (Ok tt, tt).
Proof. vm_compute. reflexivity. Qed.

Lemma manifiesto_exacto_testigo : pack_size manifiesto_a < U64 ∧ manifiesto_sano manifiesto_a.
Proof.
  split; [vm_compute; reflexivity|]. pose proof (manifiesto_exacto manifiesto_a ltac:(vm_compute; reflexivity)) as [_ Hv].
  rewrite manifiesto_a_valido in Hv. destruct Hv as [Hv|[Hv _]]; [exact Hv|]. exfalso. vm_compute in Hv. discriminate Hv.
Defined.

Lemma pack_redondo_testigo : Forall2 (fun e f => f_path f = pe_path e ∧ read_entry (pack_build entradas_a).1 f = Some (pe_data e) ∧
    verify_entry (pack_build entradas_a).1 f = true) entradas_a (files manifiesto_a).
Proof.
  refine (proj1 (pack_redondo entradas_a manifiesto_a entradas_a_ok entradas_a_rutas eq_refl eq_refl _ _ _)); vm_compute; reflexivity.
Defined.

Lemma manifiesto_a_cabe : Forall (fun f => f_fin f <= pack_size manifiesto_a) (files manifiesto_a).
Proof. repeat constructor; vm_compute; discriminate. Qed.

Lemma plan_cubre_testigo : exists spans, plan_spans (files manifiesto_a) GAP_MAX SPAN_MAX tt = (Ok spans, tt) ∧
  concat (s_files <$> spans) ≡ₚ seq 0 3.
Proof.
  destruct (plan_cubre (files manifiesto_a) GAP_MAX SPAN_MAX (pack_size manifiesto_a) manifiesto_a_cabe) as (spans & E & Hp & _).
  - vm_compute. reflexivity.
  - exists spans. split; [exact E|exact Hp].
Defined.

Lemma manifiesto_a_sano : manifiesto_sano manifiesto_a.
Proof.
  pose proof (manifest_validate_spec manifiesto_a (cuentas_cortas manifiesto_a ltac:(vm_compute; reflexivity))) as Hv. rewrite manifiesto_a_valido in Hv. exact Hv.
Qed.
Lemma manifiesto_a_nodup : NoDup (files manifiesto_a).
Proof. apply NoDup_fmap_1 with f_path. apply ms_rutas, manifiesto_a_sano. Qed.

Lemma descarga_verificada_testigo : exists pend s1, pendientes_de (etapa_lista (txt "/etapa")) (files manifiesto_a) disco_a = (Ok pend, s1) ∧
  match descargar manifiesto_a false red_a (txt "/etapa") (files manifiesto_a) disco_a with
  | (Ok _, s') => forall f, f ∈ files manifiesto_a -> verificado (txt "/etapa") f s'
  | (Err _, s') => forall f, f ∈ files manifiesto_a -> f ∉ pend -> verificado (txt "/etapa") f s'
  | _ => False
  end.
Proof.
  destruct (descarga_verificada manifiesto_a (txt "/etapa") (files manifiesto_a) false red_a disco_a manifiesto_a_sano)
    as (pend & s1 & E & Hd); [vm_compute; reflexivity|exact manifiesto_a_nodup|intros f Hf; exact Hf|].
  exists pend, s1. split; [exact E|]. destruct (descargar _ _ _ _ _ _) as [[u|e| |] s']; [apply Hd|apply Hd|exact Hd|exact Hd].
Defined.

Lemma espacio_a pend s1 e : pendientes_de (etapa_lista (txt "/etapa")) (files manifiesto_a) disco_a = (Ok pend, s1) ->
  comprobar_espacio manifiesto_a (files manifiesto_a) pend s1 ≠ (Err e, s1).
Proof.
  intros E. assert (pendientes_de (etapa_lista (txt "/etapa")) (files manifiesto_a) disco_a = (Ok (files manifiesto_a), disco_a)) as E2
    by (vm_compute; reflexivity).
  rewrite E2 in E. assert (pend = files manifiesto_a ∧ s1 = disco_a) as [-> ->] by (split; congruence). clear E E2.
  assert (comprobar_espacio manifiesto_a (files manifiesto_a) (files manifiesto_a) disco_a = (Ok tt, disco_a)) as -> by (vm_compute; reflexivity).
  discriminate.
Qed.

Lemma entrega_completa_testigo : exists s', descargar manifiesto_a false red_a (txt "/etapa") (files manifiesto_a) disco_a = (Ok tt, s') ∧
  forall f, f ∈ files manifiesto_a -> verificado (txt "/etapa") f s'.
Proof.
  refine (entrega_completa entradas_a manifiesto_a (txt "/etapa") (files manifiesto_a) red_a disco_a entradas_a_ok entradas_a_rutas
    eq_refl eq_refl _ _ _ manifiesto_a_nodup _ _ _ espacio_a).
  - vm_compute. reflexivity.
  - vm_compute. reflexivity.
  - vm_compute. reflexivity.
  - intros f Hf. exact Hf.
  - reflexivity.
  - intros [].
Defined.
