(* ===== verification/LogRing.v ===== *)
(** * Logs: the ring of bytes

    [crates/soso-log-core/src/ring.rs]: a ring of fixed capacity that
    overwrites the oldest bytes, with a cursor that never goes back. The ring
    is related to the history of everything appended since the boot: what is
    alive is the end of that history, and a read by cursor gives the history
    from there on, or says how many bytes were overwritten. *)
From S2P Require Import Prelude.
Local Open Scope N_scope.

(** [data[i] = b], [data[i]]: out of range they panic. *)
Definition poner {A} (i : N) (x : A) (l : list A) : option (list A) :=
  if i <? lenN l then Some (<[N.to_nat i := x]> l) else None.

Record Ring := mkRing { data : list byte; pos : N; len : N; escritos : N }.
Record Lectura := mkLectura { copiados : N; perdidos : N; cursor : N; pendientes : N }.

Section Operaciones.
Context (CAP : N) {E : Type}.
Abbreviation R := (M Ring E).

Definition ring_new : Ring := mkRing (zeros CAP) 0 0 0.

Definition append_byte (b : byte) : R unit :=
  r ← gets Datatypes.id;
  d ← of_option panic (poner (pos r) b (data r));
  p ← add64 (pos r) 1;
  modify (fun r => mkRing d (p mod CAP) (if len r <? CAP then len r + 1 else len r) (escritos r)).
Definition append (bytes : list byte) : R unit :=
  mfor append_byte bytes;;
  modify (fun r => mkRing (data r) (pos r) (len r) (saturating_add64 (escritos r) (lenN bytes))).

Definition start : R N :=
  r ← gets Datatypes.id; s ← add64 (pos r) CAP; d ← sub64 s (len r); mret (d mod CAP).
Definition byte_len (r : Ring) : N := len r.
Definition cursor_minimo : R N := r ← gets Datatypes.id; sub64 (escritos r) (len r).

(** [for slot in out.iter_mut().take(n)]. *)
Fixpoint copiar (n : nat) (idx : N) : R (list byte) :=
  match n with
  | O => mret []
  | S n =>
      r ← gets Datatypes.id;
      b ← of_option panic (data r !! N.to_nat idx);
      i ← add64 idx 1;
      bs ← copiar n (i mod CAP);
      mret (b :: bs)
  end.
(** The count, and [out] as the call leaves it. *)
Definition copy_from (offset : N) (out : list byte) : R (N * list byte) :=
  r ← gets Datatypes.id;
  if (len r <=? offset) || bool_decide (out = []) then mret (0, out)
  else
    resto ← sub64 (len r) offset;
    let n := N.min (lenN out) resto in
    s ← start;
    i ← add64 s offset;
    bs ← copiar (N.to_nat n) (i mod CAP);
    mret (n, bs ++ drop (N.to_nat n) out).

Definition leer_desde (c : N) (out : list byte) : R (Lectura * list byte) :=
  minimo ← cursor_minimo;
  e ← gets escritos;
  cp ← (if c <? minimo then d ← sub64 minimo c; mret (minimo, d) else mret (N.min c e, 0));
  offset ← sub64 cp.1 minimo;
  no ← copy_from offset out;
  c' ← add64 cp.1 no.1;
  p ← sub64 e c';
  mret (mkLectura no.1 cp.2 c' p, no.2).

(** The byte [j] of an occurrence at [i]. *)
Definition indice (i j : N) : R N := s ← start; a ← add64 s i; b ← add64 a j; mret (b mod CAP).
Fixpoint coincide (secreto : list byte) (i j : N) : R bool :=
  match secreto with
  | [] => mret true
  | b :: bs =>
      idx ← indice i j;
      r ← gets Datatypes.id;
      x ← of_option panic (data r !! N.to_nat idx);
      if bool_decide (x = b) then coincide bs i (j + 1) else mret false
  end.
Definition borrar_uno (i j : N) : R unit :=
  idx ← indice i j;
  r ← gets Datatypes.id;
  d ← of_option panic (poner idx "*"%byte (data r));
  modify (fun r => mkRing d (pos r) (len r) (escritos r)).
Definition tapar (n i : N) : R unit := mfor (borrar_uno i) (upto n).
(** [while i + secreto.len() <= n]: [i] moves on at every turn. *)
Fixpoint tachar_bucle (fuel : nat) (secreto : list byte) (n i : N) : R unit :=
  match fuel with
  | O => no_fuel
  | S fuel =>
      k ← add64 i (lenN secreto);
      if k <=? n then
        c ← coincide secreto i 0;
        if (c : bool) then tapar (lenN secreto) i;; tachar_bucle fuel secreto n k
        else i' ← add64 i 1; tachar_bucle fuel secreto n i'
      else mret tt
  end.
Definition tachar (secreto : list byte) : R unit :=
  r ← gets Datatypes.id;
  if bool_decide (secreto = []) || (len r =? 0) then mret tt
  else tachar_bucle (S (N.to_nat (len r))) secreto (len r) 0.
End Operaciones.

(** ** The live content *)
Section Contenido.
Context (CAP : N).

Definition hueco (r : Ring) (k : N) : N := (pos r + CAP - len r + k) mod CAP.
Definition vivo (r : Ring) : list byte := (fun k => default x00 (data r !! N.to_nat (hueco r k))) <$> upto (len r).

Record ring_ok (r : Ring) : Prop := {
  ro_data : lenN (data r) = CAP;
  ro_pos : pos r < CAP;
  ro_len : len r <= CAP;
}.

(** The end of a list. *)
Definition ultimos (n : N) (l : list byte) : list byte := drop (length l - N.to_nat n) l.

(** The ring after the history [h]. *)
Record ring_de (h : list byte) (r : Ring) : Prop := {
  rd_ok : ring_ok r;
  rd_esc : escritos r = lenN h;
  rd_vivo : vivo r = ultimos CAP h;
}.
End Contenido.

(** ** Wrapping around *)
Lemma mod_vuelta x c : x < 2 * c -> x mod c = if x <? c then x else x - c.
Proof.
  intros H. destruct (N.ltb_spec x c); [by apply N.mod_small|].
  replace x with (x - c + 1 * c) at 1 by lia. rewrite N.Div0.mod_add. apply N.mod_small. lia.
Qed.

Lemma ultimos_corta n l : lenN l <= n -> ultimos n l = l.
Proof. unfold ultimos, lenN. intros H. replace (length l - N.to_nat n)%nat with 0%nat by lia. done. Qed.
Lemma ultimos_length n l : lenN (ultimos n l) = N.min n (lenN l).
Proof. unfold ultimos, lenN. rewrite length_drop. lia. Qed.
Lemma ultimos_app n l k : ultimos n (ultimos n l ++ k) = ultimos n (l ++ k).
Proof.
  unfold ultimos. rewrite !length_app, length_drop. set (m := (length l - N.to_nat n)%nat).
  transitivity (drop (m + (length l - m + length k - N.to_nat n)) ((take m l ++ drop m l) ++ k)).
  - rewrite <- app_assoc, drop_app_add'; [done|]. rewrite length_take. lia.
  - rewrite take_drop. f_equal. lia.
Qed.
(** ** Blotting out, on lists

    From left to right every occurrence becomes asterisks; [salto] counts the
    bytes still to blot of the one under way. *)
Definition empieza (s l : list byte) : bool := bool_decide (take (length s) l = s).
Fixpoint tachado (s : list byte) (salto : nat) (l : list byte) : list byte :=
  match l with
  | [] => []
  | b :: r =>
      match salto with
      | S k => "*"%byte :: tachado s k r
      | O => if empieza s l then "*"%byte :: tachado s (length s - 1) r else b :: tachado s 0 r
      end
  end.

Lemma tachado_length s l : forall k, length (tachado s k l) = length l.
Proof. induction l as [|b l IH]; intros [|k]; cbn [tachado]; [done|done| |]; [case_match|]; cbn; by rewrite IH. Qed.
Lemma tachado_salto s l : forall k, (k <= length l)%nat -> tachado s k l = replicate k "*"%byte ++ tachado s 0 (drop k l).
Proof.
  induction l as [|b l IH]; intros [|k] Hk; cbn [tachado]; [done|cbn in Hk; lia|done|]. cbn. f_equal. apply IH. cbn in Hk. lia.
Qed.
Lemma tachado_corto s l : (length l < length s)%nat -> tachado s 0 l = l.
Proof.
  induction l as [|b l IH]; intros Hl; cbn [tachado]; [done|]. unfold empieza. case_bool_decide as Hs.
  - exfalso. apply (f_equal length) in Hs. rewrite length_take in Hs. lia.
  - f_equal. apply IH. cbn in Hl. lia.
Qed.
Lemma empieza_length s l : empieza s l = true -> (length s <= length l)%nat.
Proof. unfold empieza. intros H%bool_decide_eq_true. apply (f_equal length) in H. rewrite length_take in H. lia. Qed.
Lemma tachado_si s l : s ≠ [] -> empieza s l = true ->
  tachado s 0 l = replicate (length s) "*"%byte ++ tachado s 0 (drop (length s) l).
Proof.
  intros Hs He. pose proof (empieza_length _ _ He). destruct s as [|c s]; [done|]. destruct l as [|b l]; [cbn in *; lia|].
  cbn [tachado]. rewrite He. cbn [length] in *. rewrite Nat.sub_succ, Nat.sub_0_r. cbn. f_equal. apply tachado_salto. lia.
Qed.

(** Bytes that are not asterisks were there before. *)
Lemma tachado_prefijo s l : forall k p c, ("*"%byte ∉ p) -> tachado s k l = p ++ c -> take (length p) l = p.
Proof.
  induction l as [|b l IH]; intros k [|x p] c Hp E; [done|done|done|].
  assert (x ≠ "*"%byte) as Hx by (intros ->; apply Hp; left).
  assert ("*"%byte ∉ p) as Hp' by (intros H; apply Hp; by right).
  cbn [tachado] in E. destruct k as [|k]; [destruct (empieza s (b :: l))|]; cbn in E; injection E as E1 E2; [congruence| |congruence].
  cbn. f_equal; [done|]. by apply (IH 0%nat p c).
Qed.

(** A secret without asterisks is nowhere in what is left. *)
Lemma tachado_sin s : s ≠ [] -> ("*"%byte ∉ s) -> forall l k a c, tachado s k l = a ++ s ++ c -> False.
Proof.
  intros Hne Hast. induction l as [|b l IH]; intros k a c E.
  { apply (f_equal length) in E. rewrite !length_app in E. destruct s; [done|cbn in E; lia]. }
  destruct s as [|x s]; [done|].
  assert (forall k', "*"%byte :: tachado (x :: s) k' l = a ++ (x :: s) ++ c -> False) as Hno.
  { intros k' E'. destruct a as [|y a]; cbn in E'; injection E' as E1 E2; [|by apply (IH k' a c)].
    apply Hast. rewrite E1. left. }
  destruct k as [|k]; cbn [tachado] in E; [|by apply (Hno k)].
  destruct (empieza (x :: s) (b :: l)) eqn:He; [by apply (Hno (length (x :: s) - 1)%nat)|].
  destruct a as [|y a]; cbn [app] in E; injection E as E1 E2; [|by apply (IH 0%nat a c)].
  assert (empieza (x :: s) (b :: l) = true); [|congruence]. unfold empieza. apply bool_decide_eq_true. cbn. f_equal; [done|].
  apply (tachado_prefijo (x :: s) l 0 s c); [|done]. intros H. apply Hast. by right.
Qed.

(** Only asterisks are new. *)
Lemma tachado_bytes s l : forall k, Forall2 (fun x y => y = x ∨ y = "*"%byte) l (tachado s k l).
Proof.
  induction l as [|b l IH]; intros [|k]; cbn [tachado]; [constructor|constructor| |constructor; [by right|apply IH]].
  case_match; constructor; [by right|apply IH|by left|apply IH].
Qed.

Section Hechos.
#[local] Set Default Proof Using "Type*".
Context (CAP : N).
Hypothesis Hcap : 0 < CAP.
Hypothesis Hmax : 4 * CAP < U64.

Lemma hueco_lt r k : hueco CAP r k < CAP.
Proof. unfold hueco. apply N.mod_lt. lia. Qed.

Lemma hueco_eq r k : ring_ok CAP r -> k < len r ->
  hueco CAP r k = let x := pos r + CAP - len r + k in if x <? CAP then x else x - CAP.
Proof. intros [_ ? ?] Hk. unfold hueco. cbv zeta. apply mod_vuelta. lia. Qed.

(** Two live bytes have two places. *)
Lemma hueco_inj r k j : ring_ok CAP r -> k < len r -> j < len r -> hueco CAP r k = hueco CAP r j -> k = j.
Proof.
  intros Hr Hk Hj. rewrite !hueco_eq by done. destruct Hr as [_ ? ?]. cbv zeta.
  repeat case_match; rewrite ?N.ltb_lt, ?N.ltb_ge in *; lia.
Qed.

Lemma vivo_length r : length (vivo CAP r) = N.to_nat (len r).
Proof. unfold vivo, upto. by rewrite !length_fmap, length_seq. Qed.
Lemma vivo_lookup r k : k < len r -> vivo CAP r !! N.to_nat k = Some (default x00 (data r !! N.to_nat (hueco CAP r k))).
Proof.
  intros Hk. unfold vivo, upto. rewrite !list_lookup_fmap, lookup_seq_lt by lia. cbn. by rewrite N2Nat.id.
Qed.
Lemma vivo_data r k : ring_ok CAP r -> k < len r -> data r !! N.to_nat (hueco CAP r k) = vivo CAP r !! N.to_nat k.
Proof.
  intros Hr Hk. rewrite vivo_lookup by done. destruct (lookup_lt_is_Some_2 (data r) (N.to_nat (hueco CAP r k))) as [b ->]; [|done].
  pose proof (hueco_lt r k). pose proof (ro_data _ _ Hr). unfold lenN in *. lia.
Qed.
(** To know the live content it is enough to know every byte. *)
Lemma vivo_ext r l : lenN l = len r -> (forall k, k < len r -> data r !! N.to_nat (hueco CAP r k) = l !! N.to_nat k) -> vivo CAP r = l.
Proof.
  intros Hl H. apply list_eq. intros i. destruct (decide (i < N.to_nat (len r))%nat) as [Hi|Hi].
  - replace i with (N.to_nat (N.of_nat i)) by lia. rewrite vivo_lookup by lia. rewrite H by lia.
    destruct (lookup_lt_is_Some_2 l (N.to_nat (N.of_nat i))) as [b ->]; [|done]. unfold lenN in Hl. lia.
  - rewrite !lookup_ge_None_2; [done|unfold lenN in Hl; lia|rewrite vivo_length; lia].
Qed.

(** ** A new ring, and one byte more *)
Lemma ring_new_de : ring_de CAP [] (ring_new CAP).
Proof.
  constructor; [constructor; cbn; rewrite ?lenN_zeros; lia|done|]. unfold vivo. cbn. done.
Qed.

Lemma append_byte_ok {E} b r : ring_ok CAP r ->
  exists r', append_byte CAP (E := E) b r = (Ok tt, r') ∧ vivo CAP r' = ultimos CAP (vivo CAP r ++ [b]) ∧ escritos r' = escritos r ∧ ring_ok CAP r'.
Proof.
  intros Hr. pose proof Hr as [H1 H2 H3]. unfold append_byte. rewrite bind_eq. cbn [gets Datatypes.id]. unfold poner.
  destruct (N.ltb_spec (pos r) (lenN (data r))); [|lia]. cbn [of_option]. rewrite bind_eq. cbn [mret M_ret].
  rewrite bind_eq. unfold add64. destruct (N.ltb_spec (pos r + 1) U64); [|lia]. 
  set (r' := mkRing (<[N.to_nat (pos r) := b]> (data r)) ((pos r + 1) mod CAP) (if len r <? CAP then len r + 1 else len r) (escritos r)). exists r'. cbn [data pos len escritos r'].
  assert (lenN (data r') = CAP) as Hd by (unfold r', lenN in *; cbn; rewrite length_insert; lia).
  assert (pos r' = if pos r + 1 <? CAP then pos r + 1 else pos r + 1 - CAP) as Hp by (apply mod_vuelta; lia).
  assert (len r' = N.min CAP (len r + 1)) as Hl by (unfold r'; cbn; destruct (N.ltb_spec (len r) CAP); lia).
  split; [done|]. split; [|split; [done|constructor; [done|apply N.mod_lt; lia|lia]]].
  apply vivo_ext.
  { rewrite Hl, ultimos_length, lenN_app. unfold lenN at 1. rewrite vivo_length. change (lenN [b]) with 1. lia. }
  intros k Hk. unfold hueco. rewrite Hp, Hl. cbn [data r'].
  assert (length (vivo CAP r) = N.to_nat (len r)) as Hvl by apply vivo_length.
  unfold ultimos. rewrite lookup_drop, length_app. cbn [length].
  set (j := len r + 1 - N.min CAP (len r + 1) + k).
  replace (length (vivo CAP r) + 1 - N.to_nat CAP + N.to_nat k)%nat with (N.to_nat j) by lia.
  assert (((if pos r + 1 <? CAP then pos r + 1 else pos r + 1 - CAP) + CAP - N.min CAP (len r + 1) + k) mod CAP =
    (pos r + CAP - len r + j) mod CAP) as ->.
  { destruct (N.ltb_spec (pos r + 1) CAP); [f_equal; lia|]. rewrite <- (N.Div0.mod_add _ 1). f_equal. lia. }
  destruct (decide (j = len r)) as [->|Hne].
  - replace ((pos r + CAP - len r + len r) mod CAP) with (pos r).
    2: { replace (pos r + CAP - len r + len r) with (pos r + 1 * CAP) by lia. rewrite N.Div0.mod_add. symmetry. by apply N.mod_small. }
    rewrite list_lookup_insert_eq by (unfold lenN in *; lia). by rewrite lookup_app_r, Hvl, Nat.sub_diag by lia.
  - fold (hueco CAP r j). assert (len r = CAP -> 1 <= j) as Hj1 by lia. assert (j < len r) as Hj by lia. rewrite lookup_app_l by lia. rewrite <- vivo_data by done.
    apply list_lookup_insert_ne. intros Heq. apply N2Nat.inj in Heq. revert Heq. rewrite hueco_eq by done. cbv zeta.
    destruct (N.ltb_spec (pos r + CAP - len r + j) CAP); lia.
Qed.

Lemma append_ok {E} bs h r : ring_de CAP h r -> lenN h + lenN bs < U64 ->
  exists r', append CAP (E := E) bs r = (Ok tt, r') ∧ ring_de CAP (h ++ bs) r'.
Proof.
  intros [Hok He Hv] Hb. unfold append.
  assert (forall pre r0, ring_ok CAP r0 -> vivo CAP r0 = ultimos CAP (h ++ pre) -> exists r1, mfor (append_byte CAP (E := E)) bs r0 = (Ok tt, r1) ∧
    ring_ok CAP r1 ∧ vivo CAP r1 = ultimos CAP (h ++ pre ++ bs) ∧ escritos r1 = escritos r0) as Hloop.
  { clear - Hcap Hmax. induction bs as [|b bs IH]; intros pre r0 Hok Hv; cbn [mfor].
    - exists r0. by rewrite app_nil_r.
    - destruct (append_byte_ok (E := E) b r0 Hok) as (r1 & E1 & Hv1 & He1 & Hok1).
      destruct (IH (pre ++ [b]) r1 Hok1) as (r2 & E2 & Hok2 & Hv2 & He2).
      + by rewrite Hv1, Hv, ultimos_app, <- app_assoc.
      + exists r2. rewrite (bind_run _ _ _ _ _ E1), E2. rewrite <- app_assoc in Hv2. split_and!; [done|done|done|congruence]. }
  destruct (Hloop [] r Hok) as (r1 & E1 & Hok1 & Hv1 & He1); [by rewrite app_nil_r|].
  eexists. rewrite (bind_run _ _ _ _ _ E1). cbn [modify]. split; [done|]. destruct Hok1 as [O1 O2 O3]. constructor; [by constructor| |exact Hv1].
  cbn. rewrite He1, He, lenN_app. unfold saturating_add64, U64_MAX. lia.
Qed.

Lemma ring_de_len h r : ring_de CAP h r -> len r = N.min CAP (lenN h).
Proof. intros [Hok _ Hv]. rewrite <- ultimos_length, <- Hv. unfold lenN. rewrite vivo_length. lia. Qed.

(** ** Reading *)
Lemma start_ok {E} r : ring_ok CAP r -> start CAP (E := E) r = (Ok (hueco CAP r 0), r).
Proof.
  intros [? ? ?]. unfold start. rewrite bind_eq. cbn [gets Datatypes.id]. rewrite bind_eq. unfold add64 at 1.
  destruct (N.ltb_spec (pos r + CAP) U64); [|lia]. cbn [mret M_ret]. rewrite bind_eq. unfold sub64 at 1.
  destruct (N.leb_spec (len r) (pos r + CAP)); [|lia]. cbn [mret M_ret]. unfold hueco. by rewrite N.add_0_r.
Qed.
Lemma hueco_mas r k n : (hueco CAP r k + n) mod CAP = hueco CAP r (k + n).
Proof. unfold hueco. rewrite N.Div0.add_mod_idemp_l. f_equal. lia. Qed.

Lemma copiar_ok {E} n : forall r k, ring_ok CAP r -> k + N.of_nat n <= len r ->
  copiar CAP (E := E) n (hueco CAP r k) r = (Ok (take n (drop (N.to_nat k) (vivo CAP r))), r).
Proof.
  induction n as [|n IH]; intros r k Hok Hk; cbn [copiar]; [done|]. rewrite bind_eq. cbn [gets Datatypes.id].
  rewrite vivo_data by (done || lia). rewrite vivo_lookup by lia. cbn [of_option]. rewrite bind_eq. cbn [mret M_ret].
  rewrite bind_eq. unfold add64 at 1. pose proof (hueco_lt r k). destruct (N.ltb_spec (hueco CAP r k + 1) U64); [|lia]. cbn [mret M_ret].
  rewrite hueco_mas, bind_eq, IH by (done || lia). cbn [mret M_ret].
  assert (vivo CAP r !! N.to_nat k = Some (default x00 (data r !! N.to_nat (hueco CAP r k)))) as Hx by (apply vivo_lookup; lia).
  rewrite (drop_S _ _ _ Hx). by replace (N.to_nat (k + 1)) with (S (N.to_nat k)) by lia.
Qed.

Lemma copy_from_ok {E} r offset out : ring_ok CAP r -> offset + lenN out < U64 ->
  let bs := take (length out) (drop (N.to_nat offset) (vivo CAP r)) in
  copy_from CAP (E := E) offset out r = (Ok (lenN bs, bs ++ drop (length bs) out), r).
Proof.
  intros Hok Hlt bs. unfold copy_from. rewrite bind_eq. cbn [gets Datatypes.id].
  assert (length (vivo CAP r) = N.to_nat (len r)) as Hvl by apply vivo_length.
  destruct (N.leb_spec (len r) offset) as [Ho|Ho]; cbn [orb].
  { subst bs. rewrite drop_ge by lia. rewrite take_nil. done. }
  case_bool_decide as Hout; [subst bs out; done|].
  rewrite bind_eq. unfold sub64 at 1. destruct (N.leb_spec offset (len r)); [|lia]. cbn [mret M_ret].
  rewrite bind_eq, start_ok by done. rewrite bind_eq. unfold add64 at 1. pose proof (hueco_lt r 0). pose proof (ro_len _ _ Hok).
  destruct (N.ltb_spec (hueco CAP r 0 + offset) U64); [|lia]. cbn [mret M_ret]. rewrite hueco_mas, N.add_0_l, bind_eq.
  rewrite copiar_ok by (done || lia). cbn [mret M_ret].
  assert (take (N.to_nat (N.min (lenN out) (len r - offset))) (drop (N.to_nat offset) (vivo CAP r)) = bs) as ->.
  { subst bs. unfold lenN. destruct (decide (length out <= N.to_nat (len r - offset))%nat); [f_equal; lia|].
    rewrite !take_ge; [done|rewrite length_drop; lia|rewrite length_drop; lia]. }
  assert (lenN bs = N.min (lenN out) (len r - offset)) as Hb by (subst bs; unfold lenN; rewrite length_take, length_drop; lia).
  rewrite <- Hb. by replace (N.to_nat (lenN bs)) with (length bs) by (unfold lenN; lia).
Qed.

(** Reading from a cursor gives the history from there on; what the ring
    overwrote before is counted, and the reading goes on at the oldest byte
    there is. *)
Definition desde_cursor (h : list byte) (c : N) : N := N.max (lenN h - N.min CAP (lenN h)) (N.min c (lenN h)).
Lemma leer_desde_ok {E} c out h r : ring_de CAP h r -> lenN h + lenN out < U64 ->
  let c' := desde_cursor h c in
  let bs := take (length out) (drop (N.to_nat c') h) in
  leer_desde CAP (E := E) c out r =
    (Ok (mkLectura (lenN bs) (lenN h - N.min CAP (lenN h) - c) (c' + lenN bs) (lenN h - (c' + lenN bs)), bs ++ drop (length bs) out), r).
Proof.
  intros Hr Hlt c' bs. pose proof (ring_de_len h r Hr) as Hl. destruct Hr as [Hok He Hv]. pose proof (ro_len _ _ Hok) as Hlc.
  set (minimo := lenN h - N.min CAP (lenN h)) in *.
  assert (escritos r - len r = minimo) as Hm by (subst minimo; lia).
  assert (c' + lenN bs <= lenN h) as Hle.
  { subst bs. unfold lenN at 1. rewrite length_take, length_drop. subst c'. unfold desde_cursor. unfold lenN in *. lia. }
  unfold leer_desde. rewrite bind_eq. unfold cursor_minimo. rewrite bind_eq. cbn [gets Datatypes.id]. unfold sub64 at 1.
  destruct (N.leb_spec (len r) (escritos r)); [|lia]. cbn [mret M_ret]. rewrite Hm, bind_eq. cbn [gets].
  assert ((if c <? minimo then d ← sub64 minimo c; mret (minimo, d) else mret (N.min c (escritos r), 0)) r = (Ok (c', minimo - c), r) :> outcome E (N * N) * Ring) as Hcp.
  { subst c'. unfold desde_cursor. fold minimo. destruct (N.ltb_spec c minimo).
    - rewrite bind_eq. unfold sub64. destruct (N.leb_spec c minimo); [|lia]. cbn [mret M_ret]. unfold mret, M_ret. repeat f_equal. lia.
    - unfold mret, M_ret. rewrite He. repeat f_equal; lia. }
  rewrite (bind_run _ _ _ _ _ Hcp). cbn [fst snd]. rewrite bind_eq. unfold sub64 at 1.
  destruct (N.leb_spec minimo c'); [|subst c'; unfold desde_cursor in *; lia]. cbn [mret M_ret].
  rewrite bind_eq, copy_from_ok by (done || lia).
  assert (drop (N.to_nat (c' - minimo)) (vivo CAP r) = drop (N.to_nat c') h) as ->.
  { rewrite Hv. unfold ultimos. rewrite drop_drop. f_equal. unfold lenN in *. lia. }
  fold bs. cbn [fst snd]. rewrite bind_eq. unfold add64. destruct (N.ltb_spec (c' + lenN bs) U64); [|lia]. cbn [mret M_ret].
  rewrite bind_eq. unfold sub64. rewrite He. destruct (N.leb_spec (c' + lenN bs) (lenN h)); [|lia]. done.
Qed.

(** ** Blotting a secret out *)
Lemma indice_ok {E} r i j : ring_ok CAP r -> i + j < len r -> indice CAP (E := E) i j r = (Ok (hueco CAP r (i + j)), r).
Proof.
  intros Hok Hij. pose proof (ro_len _ _ Hok). pose proof (hueco_lt r 0). unfold indice. rewrite bind_eq, start_ok by done.
  rewrite bind_eq. unfold add64 at 1. destruct (N.ltb_spec (hueco CAP r 0 + i) U64); [|lia]. cbn [mret M_ret].
  rewrite bind_eq. unfold add64 at 1. destruct (N.ltb_spec (hueco CAP r 0 + i + j) U64); [|lia]. cbn [mret M_ret].
  rewrite <- N.add_assoc, hueco_mas. done.
Qed.

Lemma coincide_ok {E} secreto : forall r i j, ring_ok CAP r -> i + j + lenN secreto <= len r ->
  coincide CAP (E := E) secreto i j r = (Ok (bool_decide (take (length secreto) (drop (N.to_nat (i + j)) (vivo CAP r)) = secreto)), r).
Proof.
  induction secreto as [|b bs IH]; intros r i j Hok Hl; cbn [coincide]; [done|]. rewrite lenN_cons in Hl.
  rewrite bind_eq, indice_ok by (done || lia). rewrite bind_eq. cbn [gets Datatypes.id]. rewrite vivo_data by (done || lia).
  pose proof (vivo_lookup r (i + j) ltac:(lia)) as Hx. rewrite Hx. cbn [of_option]. rewrite bind_eq. cbn [mret M_ret].
  rewrite (drop_S _ _ _ Hx). cbn [length take firstn]. case_bool_decide as Hb.
  - rewrite IH by (done || lia). replace (N.to_nat (i + (j + 1))) with (S (N.to_nat (i + j))) by lia. do 2 f_equal.
    apply bool_decide_ext. rewrite Hb. split; [by intros ->|by intros [= ->]].
  - rewrite bool_decide_eq_false_2; [done|]. by intros [= ? _].
Qed.

(** A byte of the live content changed in place. *)
Lemma borrar_uno_ok {E} r i j : ring_ok CAP r -> i + j < len r ->
  exists r', borrar_uno CAP (E := E) i j r = (Ok tt, r') ∧ ring_ok CAP r' ∧ len r' = len r ∧ escritos r' = escritos r ∧
    vivo CAP r' = <[N.to_nat (i + j) := "*"%byte]> (vivo CAP r).
Proof.
  intros Hok Hij. unfold borrar_uno. rewrite bind_eq, indice_ok by done. rewrite bind_eq. cbn [gets Datatypes.id]. unfold poner.
  pose proof (hueco_lt r (i + j)). pose proof (ro_data _ _ Hok) as Hd. destruct (N.ltb_spec (hueco CAP r (i + j)) (lenN (data r))); [|lia].
  cbn [of_option]. rewrite bind_eq. cbn [mret M_ret modify]. set (d := <[_ := _]> (data r)).
  exists (mkRing d (pos r) (len r) (escritos r)). split; [done|].
  assert (ring_ok CAP (mkRing d (pos r) (len r) (escritos r))) as Hok'.
  { destruct Hok as [H1 H2 H3]. constructor; cbn; [|done..]. unfold d, lenN in *. by rewrite length_insert. }
  split_and!; [done|done|done|]. apply vivo_ext.
  - unfold lenN. rewrite length_insert, vivo_length. cbn. lia.
  - cbn [len]. intros k Hk. change (hueco CAP (mkRing d (pos r) (len r) (escritos r)) k) with (hueco CAP r k). cbn [data]. unfold d.
    destruct (decide (k = i + j)) as [->|Hne].
    + rewrite !list_lookup_insert_eq; [done|rewrite vivo_length; lia|unfold lenN in *; lia].
    + rewrite !list_lookup_insert_ne; [by apply vivo_data|lia|]. intros Heq. apply Hne, (hueco_inj r); [done..|]. lia.
Qed.

Lemma tapar_ok {E} n r i : ring_ok CAP r -> i + N.of_nat n <= len r ->
  exists r', tapar CAP (E := E) (N.of_nat n) i r = (Ok tt, r') ∧ ring_ok CAP r' ∧ len r' = len r ∧ escritos r' = escritos r ∧
    vivo CAP r' = take (N.to_nat i) (vivo CAP r) ++ replicate n "*"%byte ++ drop (N.to_nat i + n) (vivo CAP r).
Proof.
  intros Hok Hi. unfold tapar, upto. rewrite Nat2N.id.
  assert (forall m k r1, ring_ok CAP r1 -> len r1 = len r -> (k + m <= n)%nat ->
    exists r', mfor (borrar_uno CAP (E := E) i) (N.of_nat <$> seq k m) r1 = (Ok tt, r') ∧ ring_ok CAP r' ∧ len r' = len r ∧ escritos r' = escritos r1 ∧
      vivo CAP r' = take (N.to_nat i + k) (vivo CAP r1) ++ replicate m "*"%byte ++ drop (N.to_nat i + k + m) (vivo CAP r1)) as Hl.
  2: { destruct (Hl n 0%nat r Hok eq_refl ltac:(lia)) as (r' & H1 & H2 & H3 & H4 & H5). exists r'. rewrite Nat.add_0_r in H5. by split_and!. }
  induction m as [|m IH]; intros k r1 Hok1 Hl1 Hk; cbn [seq fmap list_fmap mfor].
  { exists r1. split_and!; [done..|]. cbn. by rewrite Nat.add_0_r, take_drop. }
  destruct (borrar_uno_ok (E := E) r1 i (N.of_nat k) Hok1) as (r2 & E2 & Hok2 & Hl2 & He2 & Hv2); [lia|].
  destruct (IH (S k) r2 Hok2) as (r3 & E3 & Hok3 & Hl3 & He3 & Hv3); [congruence|lia|].
  exists r3. change (seq (S k) m) with (seq (S k) m) in E3. rewrite (bind_run _ _ _ _ _ E2). split_and!; [exact E3|done|done|congruence|].
  rewrite Hv3, Hv2. replace (N.to_nat (i + N.of_nat k)) with (N.to_nat i + k)%nat by lia.
  assert (N.to_nat i + k < length (vivo CAP r1))%nat as Hlt by (rewrite vivo_length; lia).
  rewrite drop_insert_lt by lia. rewrite (Nat.add_succ_r (N.to_nat i) k). erewrite take_S_r by by apply list_lookup_insert_eq.
  rewrite take_insert_ge by lia. rewrite <- app_assoc. cbn. do 4 f_equal. lia.
Qed.

(** From [i] on, the loop blots out what is left of the live content. *)
Lemma tachar_bucle_ok {E} secreto : secreto ≠ [] -> forall fuel r i, ring_ok CAP r -> i <= len r -> (N.to_nat (len r - i) < fuel)%nat ->
  len r + lenN secreto < U64 ->
  exists r', tachar_bucle CAP (E := E) fuel secreto (len r) i r = (Ok tt, r') ∧ ring_ok CAP r' ∧ len r' = len r ∧ escritos r' = escritos r ∧
    vivo CAP r' = take (N.to_nat i) (vivo CAP r) ++ tachado secreto 0 (drop (N.to_nat i) (vivo CAP r)).
Proof.
  intros Hs. assert (0 < lenN secreto) as Hs1 by (destruct secreto; [done|unfold lenN; cbn; lia]).
  induction fuel as [|fuel IH]; intros r i Hok Hi Hf Hlt; [lia|]. cbn [tachar_bucle]. pose proof (ro_len _ _ Hok).
  rewrite bind_eq. unfold add64 at 1. destruct (N.ltb_spec (i + lenN secreto) U64); [|lia]. cbn [mret M_ret].
  assert (length (vivo CAP r) = N.to_nat (len r)) as Hvl by apply vivo_length.
  destruct (N.leb_spec (i + lenN secreto) (len r)) as [Hk|Hk].
  2: { exists r. split_and!; [done..|]. rewrite tachado_corto; [by rewrite take_drop|]. rewrite length_drop. unfold lenN in *. lia. }
  rewrite bind_eq, coincide_ok by (done || lia). rewrite N.add_0_r. fold (empieza secreto (drop (N.to_nat i) (vivo CAP r))).
  destruct (empieza _ _) eqn:He.
  - destruct (tapar_ok (E := E) (length secreto) r i Hok) as (r1 & E1 & Hok1 & Hl1 & He1 & Hv1); [unfold lenN in Hk; lia|].
    destruct (IH r1 (i + lenN secreto) Hok1) as (r2 & E2 & Hok2 & Hl2 & He2 & Hv2); [lia|lia|lia|].
    fold (lenN secreto) in E1. rewrite Hl1 in E2. exists r2. rewrite (bind_run _ _ _ _ _ E1). split_and!; [exact E2|done|congruence|congruence|].
    rewrite Hv2, Hv1. replace (N.to_nat (i + lenN secreto)) with (N.to_nat i + length secreto)%nat by (unfold lenN; lia).
    rewrite (tachado_si _ _ Hs He), drop_drop.
    assert (length (take (N.to_nat i) (vivo CAP r) ++ replicate (length secreto) "*"%byte) = N.to_nat i + length secreto)%nat as Hpl.
    { rewrite length_app, length_take, length_replicate. lia. }
    rewrite app_assoc, take_app_length', drop_app_length' by done. by rewrite <- app_assoc.
  - rewrite bind_eq. unfold add64. destruct (N.ltb_spec (i + 1) U64); [|lia]. cbn [mret M_ret].
    assert (i < len r) as Hi' by lia.
    destruct (IH r (i + 1) Hok) as (r2 & E2 & Hok2 & Hl2 & He2 & Hv2); [lia|lia|lia|].
    exists r2. split_and!; [exact E2|done|done|done|]. rewrite Hv2. replace (N.to_nat (i + 1)) with (S (N.to_nat i)) by lia.
    assert (is_Some (vivo CAP r !! N.to_nat i)) as [b Hb] by (apply lookup_lt_is_Some; lia).
    rewrite (take_S_r _ _ _ Hb), (drop_S _ _ _ Hb) in *. cbn [tachado]. rewrite He, <- app_assoc. done.
Qed.

Lemma tachar_ok {E} secreto r : ring_ok CAP r -> len r + lenN secreto < U64 ->
  exists r', tachar CAP (E := E) secreto r = (Ok tt, r') ∧ ring_ok CAP r' ∧ len r' = len r ∧ escritos r' = escritos r ∧
    vivo CAP r' = (if bool_decide (secreto = []) then vivo CAP r else tachado secreto 0 (vivo CAP r)).
Proof.
  intros Hok Hlt. unfold tachar. rewrite bind_eq. cbn [gets Datatypes.id]. case_bool_decide as Hs; cbn [orb]; [by exists r|].
  destruct (N.eqb_spec (len r) 0) as [H0|H0].
  { exists r. split_and!; [done..|]. assert (vivo CAP r = []) as ->; [|done]. apply nil_length_inv. rewrite vivo_length. lia. }
  destruct (tachar_bucle_ok (E := E) secreto Hs (S (N.to_nat (len r))) r 0 Hok) as (r' & H); [lia|lia|done|]. by exists r'.
Qed.
End Hechos.
