(* ===== verification/LogFlujo.v ===== *)
(** * Logs: the flows, the rotation and the marks

    [flujo.rs], [rotacion.rs] and [texto.rs] of [crates/soso-log-core]: the
    durable state of a log flow and what a pass of it has to do, when the
    files rotate and in which order, and the lines the writer adds itself. *)
From S2P Require Import Prelude Texto LogRing.
Local Open Scope N_scope.

Definition add32 {S E} (a b : N) : M S E N := if a + b <? U32 then mret (a + b) else panic.

(** ** Rotation *)
Definition MAX_ACTIVO : N := 1024 * 1024.
Definition ROTACIONES : N := 3.
Definition TECHO_POR_FLUJO : N := MAX_ACTIVO * (ROTACIONES + 1).

Inductive Accion := Anexar | RotarYAnexar.
Definition decidir {S E} (activo_bytes lote : N) : M S E Accion :=
  if activo_bytes =? 0 then mret Anexar
  else t ← add64 activo_bytes lote; mret (if t <=? MAX_ACTIVO then Anexar else RotarYAnexar).

Inductive Paso := Borrar (n : N) | Renombrar (de a : N).
(** [while n >= 1], from the oldest to the newest. *)
Fixpoint renombres (n : nat) : list Paso :=
  match n with
  | O => []
  | S m => Renombrar (N.of_nat m) (N.of_nat n) :: renombres m
  end.
Definition pasos : list Paso := Borrar ROTACIONES :: renombres (N.to_nat ROTACIONES).

(** The bytes of the suffix. *)
Definition sufijo (indice : N) : list byte := if indice =? 0 then [] else ["."%byte; byte_of (48 + indice)].

(** ** The lines of the writer

    A buffer of fixed size: what does not fit is dropped. *)
Record EscritorSlice := mkEscritor { es_buf : list byte; es_pos : N }.
Definition es_nuevo (buf : list byte) : EscritorSlice := mkEscritor buf 0.
Definition write_str (w : EscritorSlice) (s : list byte) : EscritorSlice :=
  let n := N.min (lenN s) (lenN (es_buf w) - es_pos w) in
  mkEscritor (take (N.to_nat (es_pos w)) (es_buf w) ++ take (N.to_nat n) s ++ drop (N.to_nat (es_pos w + n)) (es_buf w)) (es_pos w + n).
(** [write!]: the pieces of the format, one after the other. *)
Definition escribe (w : EscritorSlice) (piezas : list (list byte)) : EscritorSlice := foldl write_str w piezas.

Definition nibble (n : N) : byte := byte_of (if n <? 10 then 48 + n else 87 + n).
(** [{:016x}]. *)
Definition hex16 (v : N) : list byte := (fun i => nibble (N.shiftr v (4 * (15 - i)) mod 16)) <$> upto 16.

Record Cabecera := mkCabecera { c_flujo : str; c_boot_id : N; c_version : str; c_uptime_ms : N; c_fecha : option str }.
Definition cabecera (out : list byte) (c : Cabecera) : EscritorSlice :=
  let w := escribe (es_nuevo out) [txt "=== soso "; c_version c; txt " arranque "; hex16 (c_boot_id c); txt " flujo "; c_flujo c;
    txt " monotónico "; dec (c_uptime_ms c); txt "ms"] in
  let w := match c_fecha c with Some f => escribe w [txt " fecha "; f] | None => w end in
  escribe w [txt " ==="; [LF]].
Definition marca_perdida (out : list byte) (bytes : N) : EscritorSlice :=
  escribe (es_nuevo out) [txt "=== se perdieron "; dec bytes; txt " bytes por sobrescritura del ring ==="; [LF]].
Definition marca_fallo (out : list byte) (flujo : str) (fallos : N) : EscritorSlice :=
  escribe (es_nuevo out) [txt "logfs: "; flujo; txt ": escritura fallida ("; dec fallos; txt " seguidos)"; [LF]].

(** ** A flow *)
Definition LOTE_MAX : N := 64 * 1024.
Definition MAX_FALLOS : N := 3.
Definition REINTENTO_MS : N := 30000.

Inductive Estado := Inactivo | Activo | Suspendido (desde_ms : N).
#[export] Instance Estado_eq_dec : EqDecision Estado.
Proof. solve_decision. Defined.
Record Flujo := mkFlujo {
  nombre : str; estado : Estado; fl_cursor : N; fl_perdidos : N; activo_bytes : N; fl_escritos : N;
  fallos_seguidos : N; fallos_totales : N; descartados : N }.
Record Trabajo := mkTrabajo { t_accion : Accion; t_bytes : N; marcar_perdida : N; mas_pendiente : bool }.

Definition flujo_nuevo (nombre : str) : Flujo := mkFlujo nombre Inactivo 0 0 0 0 0 0 0.
Definition disponible (f : Flujo) (ahora_ms : N) : bool :=
  match estado f with
  | Inactivo => false
  | Activo => true
  | Suspendido desde_ms => REINTENTO_MS <=? ahora_ms - desde_ms
  end.

Definition planificar {S E} (f : Flujo) (ring_escritos ring_minimo : N) : M S E (option Trabajo) :=
  let cursor := N.max (fl_cursor f) ring_minimo in
  let pendientes := ring_escritos - cursor in
  let marcar_perdida := ring_minimo - fl_cursor f in
  if (pendientes =? 0) && (marcar_perdida =? 0) then mret None
  else
    let bytes := N.min pendientes LOTE_MAX in
    a ← decidir (activo_bytes f) bytes;
    mret (Some (mkTrabajo a bytes marcar_perdida (bytes <? pendientes))).

Definition exito {S E} (f : Flujo) (l : Lectura) (escritos_en_fichero : N) (roto : bool) : M S E Flujo :=
  p ← add64 (fl_perdidos f) (perdidos l);
  a ← (if roto then mret escritos_en_fichero else add64 (activo_bytes f) escritos_en_fichero);
  e ← add64 (fl_escritos f) escritos_en_fichero;
  mret (mkFlujo (nombre f) Activo (cursor l) p a e 0 (fallos_totales f) (descartados f)).

Definition fallo {S E} (f : Flujo) (ahora_ms bytes_del_lote : N) : M S E Flujo :=
  fs ← add32 (fallos_seguidos f) 1;
  ft ← add32 (fallos_totales f) 1;
  d ← add64 (descartados f) bytes_del_lote;
  mret (if MAX_FALLOS <=? fs
        then mkFlujo (nombre f) (Suspendido ahora_ms) (fl_cursor f) (fl_perdidos f) (activo_bytes f) (fl_escritos f) 0 ft d
        else mkFlujo (nombre f) (estado f) (fl_cursor f) (fl_perdidos f) (activo_bytes f) (fl_escritos f) fs ft d).

Definition activar (f : Flujo) (activo_bytes : N) : Flujo :=
  mkFlujo (nombre f) Activo (fl_cursor f) (fl_perdidos f) activo_bytes (fl_escritos f) (fallos_seguidos f) (fallos_totales f) (descartados f).

(** ** The text of a line is its pieces, cut to the buffer *)
Lemma write_str_ok w s : es_pos w <= lenN (es_buf w) ->
  let w' := write_str w s in
  es_pos w' <= lenN (es_buf w') ∧ lenN (es_buf w') = lenN (es_buf w) ∧
  take (N.to_nat (es_pos w')) (es_buf w') = take (length (es_buf w)) (take (N.to_nat (es_pos w)) (es_buf w) ++ s).
Proof.
  intros Hw. unfold write_str. cbn [es_pos es_buf]. set (n := N.min _ _).
  assert (length (take (N.to_nat (es_pos w)) (es_buf w)) = N.to_nat (es_pos w)) as Hp by (rewrite length_take; unfold lenN in *; lia).
  assert (length (take (N.to_nat n) s) = N.to_nat n) as Hn by (rewrite length_take; unfold lenN in *; lia).
  split_and!.
  - rewrite !lenN_app, lenN_drop. unfold lenN in *. lia.
  - rewrite !lenN_app, lenN_drop. unfold lenN in *. lia.
  - rewrite app_assoc, take_app_length' by (rewrite length_app; lia).
    rewrite take_app. rewrite (take_ge (take _ _)) by (unfold lenN in *; lia). f_equal. rewrite Hp.
    unfold n, lenN in *. destruct (decide (length s <= length (es_buf w) - N.to_nat (es_pos w))%nat).
    + rewrite !take_ge; [done|lia|lia].
    + f_equal. lia.
Qed.
Lemma escribe_ok piezas : forall w, es_pos w <= lenN (es_buf w) ->
  let w' := escribe w piezas in
  es_pos w' <= lenN (es_buf w') ∧ lenN (es_buf w') = lenN (es_buf w) ∧
  take (N.to_nat (es_pos w')) (es_buf w') = take (length (es_buf w)) (take (N.to_nat (es_pos w)) (es_buf w) ++ concat piezas).
Proof.
  induction piezas as [|s ps IH]; intros w Hw; cbn [escribe foldl concat].
  - split_and!; [done|done|]. rewrite app_nil_r. symmetry. apply take_ge. rewrite length_take. lia.
  - destruct (write_str_ok w s Hw) as (H1 & H2 & H3). destruct (IH (write_str w s) H1) as (I1 & I2 & I3). cbv zeta in *.
    split_and!; [exact I1|by rewrite <- H2|]. unfold escribe in I3. rewrite I3, H3.
    assert (length (es_buf (write_str w s)) = length (es_buf w)) as -> by (unfold lenN in H2; lia).
    rewrite app_assoc. apply list_eq. intros i. destruct (decide (i < length (es_buf w))%nat) as [Hi|Hi].
    + rewrite !lookup_take_lt by done. set (A := take (N.to_nat (es_pos w)) (es_buf w) ++ s).
      destruct (decide (i < length A)%nat) as [Hj|Hj].
      * rewrite !lookup_app_l; [by apply lookup_take_lt|done|rewrite length_take; lia].
      * rewrite (take_ge A) by lia. done.
    + rewrite !lookup_take_ge; [done|lia|lia].
Qed.

(** What the buffer of a line holds when it is done. *)
Definition texto_de (w : EscritorSlice) : list byte := take (N.to_nat (es_pos w)) (es_buf w).
Lemma escribe_nuevo out piezas : texto_de (escribe (es_nuevo out) piezas) = take (length out) (concat piezas) ∧
  es_pos (escribe (es_nuevo out) piezas) = N.min (lenN out) (lenN (concat piezas)).
Proof.
  destruct (escribe_ok piezas (es_nuevo out)) as (H1 & H2 & H3); [cbn; lia|]. cbn [es_nuevo es_pos es_buf] in *.
  rewrite take_0 in H3. cbn [app] in H3. split; [exact H3|]. apply (f_equal length) in H3. rewrite !length_take in H3. unfold lenN in *. lia.
Qed.
