(* ===== verification/LogFs.v ===== *)
(** * Logs: the writer

    [kernel/src/drivers/logfs.rs] over the rings of [logbuf.rs], [applog.rs]
    and [otalog.rs]: opening the files of the flows, a pass of a flow (what
    to write, reading the ring, rotating, appending, accounting), the drain
    and the periodic dump. The virtual file system is a class; other
    processors append to the rings while a pass runs: [llegadas] lists what
    they append at each point where a pass takes the lock of a ring. *)
From S2P Require Import Prelude Texto LogRing LogFlujo.
Local Open Scope N_scope.

Definition DIR_LOG : str := txt "/var/log".
Definition FLUJO_KERNEL : str := txt "kernel.log".
Definition FLUJO_APPS : str := txt "aplicaciones.log".
Definition FLUJO_OTA : str := txt "actualizaciones.log".
Definition POLL_MS : N := 2000.
Definition MAX_PASADAS : nat := 64.

(** [crate::vfs], the clock and the identifier of the boot. *)
Class Vfs (T : Type) := {
  vfs_resolve : str -> M T unit N;
  vfs_lookup : N -> str -> M T unit N;
  vfs_mkdir : N -> str -> N -> M T unit N;
  vfs_create_file : N -> str -> list byte -> N -> M T unit N;
  vfs_append_file : N -> list byte -> N -> M T unit unit;
  vfs_unlink : N -> str -> M T unit unit;
  vfs_rename : N -> str -> N -> str -> N -> M T unit unit;
  (** [stat_inode(ino)?.size]. *)
  vfs_size : N -> M T unit N;
  wall_secs : T -> N;
}.

Inductive Fuente := Kernel | Apps | Ota.
#[export] Instance Fuente_eq_dec : EqDecision Fuente.
Proof. solve_decision. Defined.
Definition capacidad (f : Fuente) : N := match f with Kernel => 256 * 1024 | Apps => 64 * 1024 | Ota => 8 * 1024 end.

Record Canal := mkCanal { fuente : Fuente; flujo : Flujo; ino : N }.
Record Escritor := mkEscritor_ { dir : N; canales : list Canal; lote : list byte }.

Section Logs.
Context {T : Type} `{Vfs T}.

(** The rings, what is still to arrive, the disk and the writer. *)
Record Nucleo := mkNucleo { anillo : Fuente -> Ring; llegadas : list (list (Fuente * list byte)); disco : T; esc : Escritor }.
Abbreviation K := (M Nucleo unit).

Definition set_anillo (f : Fuente) (r : Ring) (n : Nucleo) : Nucleo :=
  mkNucleo (fun g => if decide (g = f) then r else anillo n g) (llegadas n) (disco n) (esc n).
Definition set_disco (d : T) (n : Nucleo) : Nucleo := mkNucleo (anillo n) (llegadas n) d (esc n).
Definition set_esc (e : Escritor) (n : Nucleo) : Nucleo := mkNucleo (anillo n) (llegadas n) (disco n) e.
Definition en_anillo {A} (f : Fuente) (m : M Ring unit A) : K A := zoom (fun n => anillo n f) (set_anillo f) Datatypes.id m.
Definition en_vfs {A} (m : M T unit A) : K A := zoom disco set_disco Datatypes.id m.

(** The other processors, before this one takes the lock of a ring. *)
Definition llegan : K unit :=
  n ← gets Datatypes.id;
  match llegadas n with
  | [] => mret tt
  | l :: r => modify (fun n => mkNucleo (anillo n) r (disco n) (esc n));;
              mfor (fun fb : Fuente * list byte => en_anillo fb.1 (append (capacidad fb.1) fb.2)) l
  end.
Definition fuente_escritos (f : Fuente) : K N := llegan;; en_anillo f (gets escritos).
Definition fuente_cursor_minimo (f : Fuente) : K N := llegan;; en_anillo f cursor_minimo.
Definition fuente_leer_desde (f : Fuente) (c : N) (out : list byte) : K (Lectura * list byte) :=
  llegan;; en_anillo f (leer_desde (capacidad f) c out).

(** ** Names and files *)

(** A buffer of 64 bytes; a name that is not text is empty. *)
Definition ruta_en (nombre : str) (indice : N) : str :=
  let r := take (N.to_nat (N.min (lenN nombre) 60)) nombre ++ sufijo indice in if utf8_valid r then r else [].

Definition paso_rotacion (d : N) (nombre : str) (mtime : N) (p : Paso) : K unit :=
  match p with
  | Borrar n => r ← attempt (en_vfs (vfs_unlink d (ruta_en nombre n))); mret tt
  | Renombrar de a =>
      r ← attempt (en_vfs (vfs_lookup d (ruta_en nombre de)));
      match r with
      | inr _ => en_vfs (vfs_rename d (ruta_en nombre de) d (ruta_en nombre a) mtime)
      | inl _ => mret tt
      end
  end.
Definition rotar_flujo (d : N) (nombre : str) : K unit :=
  mtime ← gets (fun n => wall_secs (disco n));
  mfor (paso_rotacion d nombre mtime) pasos;;
  r ← en_vfs (vfs_create_file d nombre [] mtime);
  mret tt.

(** [None] when there is no file to write in. *)
Definition abrir (d : N) (nombre : str) : K (option (N * N)) :=
  mtime ← gets (fun n => wall_secs (disco n));
  r ← attempt (en_vfs (vfs_lookup d nombre));
  o ← (match r with
       | inr i => mret (Some i)
       | inl _ => c ← attempt (en_vfs (vfs_create_file d nombre [] mtime)); mret (match c with inr i => Some i | inl _ => None end)
       end);
  match o with
  | None => mret None
  | Some i => z ← attempt (en_vfs (vfs_size i)); mret (match z with inr n => Some (i, n) | inl _ => None end)
  end.

Definition asegurar_dir : K (option N) :=
  r ← attempt (en_vfs (vfs_resolve DIR_LOG));
  match r with
  | inr i => mret (Some i)
  | inl _ =>
      mtime ← gets (fun n => wall_secs (disco n));
      r ← attempt (en_vfs (vfs_resolve (txt "/")));
      match r with
      | inl _ => mret None
      | inr raiz =>
          r ← attempt (en_vfs (vfs_lookup raiz (txt "var")));
          o ← (match r with
               | inr i => mret (Some i)
               | inl _ => c ← attempt (en_vfs (vfs_mkdir raiz (txt "var") mtime)); mret (match c with inr i => Some i | inl _ => None end)
               end);
          match o with
          | None => mret None
          | Some var =>
              r ← attempt (en_vfs (vfs_lookup var (txt "log")));
              match r with
              | inr i => mret (Some i)
              | inl _ => c ← attempt (en_vfs (vfs_mkdir var (txt "log") mtime)); mret (match c with inr i => Some i | inl _ => None end)
              end
          end
      end
  end.

(** ** A pass *)
Definition canal (i : nat) : K Canal := e ← gets esc; of_option panic (canales e !! i).
Definition set_canal (i : nat) (c : Canal) : K unit :=
  modify (fun n => set_esc (mkEscritor_ (dir (esc n)) (<[i := c]> (canales (esc n))) (lote (esc n))) n).
Definition set_flujo (i : nat) (f : Flujo) : K unit := c ← canal i; set_canal i (mkCanal (fuente c) f (ino c)).
Definition set_ino (i : nat) (x : N) : K unit := c ← canal i; set_canal i (mkCanal (fuente c) (flujo c) x).

(** The batch is read into the first [n] bytes of the buffer. *)
Definition leer_lote (f : Fuente) (c n : N) : K Lectura :=
  e ← gets esc;
  out ← of_option panic (slice 0 n (lote e));
  lo ← fuente_leer_desde f c out;
  modify (fun n' => set_esc (mkEscritor_ (dir (esc n')) (canales (esc n')) (lo.2 ++ drop (N.to_nat n) (lote (esc n')))) n');;
  mret lo.1.

(** [print!]: the ring of the console captures it. *)
Definition imprime (aviso : list byte) : K unit :=
  if utf8_valid aviso then en_anillo Kernel (append (capacidad Kernel) aviso) else mret tt.

(** What goes to the disk: rotating first if it does not fit, the mark of
    what was lost, the batch. *)
Definition escribir_lote (i : nat) (rotar : bool) (marca : list byte) (copiados : N) : K unit :=
  e ← gets esc;
  (if rotar
   then
     c ← canal i;
     rotar_flujo (dir e) (nombre (flujo c));;
     o ← abrir (dir e) (nombre (flujo c));
     ab ← of_option (throw tt) o;
     set_ino i ab.1
   else mret tt);;
  c ← canal i;
  mtime ← gets (fun n => wall_secs (disco n));
  (if 0 <? lenN marca then en_vfs (vfs_append_file (ino c) marca mtime) else mret tt);;
  (if 0 <? copiados
   then datos ← of_option panic (slice 0 copiados (lote e));
        en_vfs (vfs_append_file (ino c) datos mtime)
   else mret tt).

Definition pasada_canal (i : nat) (ahora_ms : N) : K bool :=
  c ← canal i;
  if negb (disponible (flujo c) ahora_ms) then mret false
  else
    es ← fuente_escritos (fuente c);
    mn ← fuente_cursor_minimo (fuente c);
    t ← planificar (flujo c) es mn;
    match t with
    | None => mret false
    | Some t =>
        l ← leer_lote (fuente c) (fl_cursor (flujo c)) (t_bytes t);
        let marca := if 0 <? perdidos l then texto_de (marca_perdida (zeros 96) (perdidos l)) else [] in
        total ← add64 (lenN marca) (copiados l);
        if total =? 0 then mret false
        else
          let rotar := match t_accion t with RotarYAnexar => true | Anexar => false end in
          r ← attempt (escribir_lote i rotar marca (copiados l));
          c ← canal i;
          match r with
          | inr _ => f ← exito (flujo c) l total rotar; set_flujo i f;; mret (mas_pendiente t)
          | inl _ =>
              f ← fallo (flujo c) ahora_ms total;
              set_flujo i f;;
              imprime (texto_de (marca_fallo (zeros 96) (nombre f) (fallos_totales f)));;
              mret false
          end
    end.

Fixpoint pasadas (n : nat) (i : nat) (ahora_ms : N) : K unit :=
  match n with
  | O => mret tt
  | S n => mas ← pasada_canal i ahora_ms; if (mas : bool) then pasadas n i ahora_ms else mret tt
  end.
Definition pasada_global (max_pasadas : nat) (ahora_ms : N) : K unit :=
  e ← gets esc; mfor (fun i => pasadas max_pasadas i ahora_ms) (seq 0 (length (canales e))).

(** [ahora - prev] since the last dump. *)
Definition poll (activo : bool) (prev ahora : N) : K N :=
  if negb activo then mret prev
  else if ahora - prev <? POLL_MS then mret prev
  else pasada_global 1 ahora;; mret ahora.
Definition drenar_todo (activo : bool) (ahora : N) : K unit :=
  if negb activo then mret tt else pasada_global MAX_PASADAS ahora.

(** ** The start *)
Definition cabecera_canal (version : str) (boot_id uptime : N) (fecha : option str) (i : nat) : K unit :=
  c ← canal i;
  if bool_decide (estado (flujo c) = Inactivo) then mret tt
  else
    let t := texto_de (cabecera (zeros 192) (mkCabecera (nombre (flujo c)) boot_id version uptime fecha)) in
    mtime ← gets (fun n => wall_secs (disco n));
    r ← attempt (en_vfs (vfs_append_file (ino c) t mtime));
    match r with
    | inr _ =>
        let f := flujo c in
        a ← add64 (activo_bytes f) (lenN t);
        e ← add64 (fl_escritos f) (lenN t);
        set_flujo i (mkFlujo (nombre f) (estado f) (fl_cursor f) (fl_perdidos f) a e (fallos_seguidos f) (fallos_totales f) (descartados f))
    | inl _ => mret tt
    end.
Definition cabeceras (version : str) (boot_id uptime : N) (fecha : option str) : K unit :=
  e ← gets esc; mfor (cabecera_canal version boot_id uptime fecha) (seq 0 (length (canales e))).

Definition abrir_canal (d : N) (ca : list Canal * N) (fn : Fuente * str) : K (list Canal * N) :=
  o ← abrir d fn.2;
  match o with
  | Some (i, size) => n ← add32 ca.2 1; mret (ca.1 ++ [mkCanal fn.1 (activar (flujo_nuevo fn.2) size) i], n)
  | None => mret (ca.1 ++ [mkCanal fn.1 (flujo_nuevo fn.2) 0], ca.2)
  end.
(** Whether the logs are active when it ends; nothing is tried without a
    mounted file system. *)
Definition init (hay_fs : bool) (version : str) (boot_id uptime ahora : N) (fecha : option str) : K bool :=
  if negb hay_fs then mret false
  else
  o ← asegurar_dir;
  match o with
  | None => mret false
  | Some d =>
      ca ← mfold (abrir_canal d) ([], 0) [(Kernel, FLUJO_KERNEL); (Apps, FLUJO_APPS); (Ota, FLUJO_OTA)];
      if ca.2 =? 0 then mret false
      else
        modify (set_esc (mkEscritor_ d ca.1 (zeros LOTE_MAX)));;
        cabeceras version boot_id uptime fecha;;
        drenar_todo true ahora;;
        mret true
  end.
End Logs.
Arguments Nucleo : clear implicits.
