(* ===== verification/LogSectores.v ===== *)
(** * Logs: changed sectors

    [crates/soso-log-core/src/sectores.rs]: the runs of sectors that differ between
    two snapshots of the same size, and that writing those runs, and nothing
    else, takes the old one to the new. *)
From S2P Require Import Prelude.
Local Open Scope N_scope.

Record Tramo := mkTramo { t_offset : N; t_len : N }.

Section Sectores.
Context {X E : Type}.

(** [anterior[off..end] == nuevo[off..end]] of the sector [i]. *)
Definition mismo_sector (anterior nuevo : list byte) (sector i : N) : M X E bool :=
  off ← mul64 i sector;
  _ ← add64 off sector;
  a ← of_option panic (slice off sector anterior);
  b ← of_option panic (slice off sector nuevo);
  mret (bool_decide (a = b)).
(** The inner [while]: where the run ends. *)
Fixpoint fin_tramo (fuel : nat) (anterior nuevo : list byte) (sector nsect i : N) : M X E N :=
  match fuel with
  | O => no_fuel
  | S fuel =>
      if i <? nsect then
        igual ← mismo_sector anterior nuevo sector i;
        if igual : bool then mret i else fin_tramo fuel anterior nuevo sector nsect (i + 1)
      else mret i
  end.
(** The outer one. *)
Fixpoint recorrer (fuel : nat) (anterior nuevo : list byte) (sector nsect : N) (f : Tramo -> M X E unit) (i : N) : M X E unit :=
  match fuel with
  | O => no_fuel
  | S fuel =>
      if i <? nsect then
        igual ← mismo_sector anterior nuevo sector i;
        if igual : bool then recorrer fuel anterior nuevo sector nsect f (i + 1)
        else
          start ← mul64 i sector;
          j ← fin_tramo fuel anterior nuevo sector nsect i;
          fin ← mul64 j sector;
          n ← sub64 fin start;
          f (mkTramo start n);;
          recorrer fuel anterior nuevo sector nsect f j
      else mret tt
  end.
Definition por_cada_tramo_cambiado (anterior nuevo : list byte) (sector : N) (f : Tramo -> M X E unit) : M X E unit :=
  if (sector =? 0) || negb (lenN anterior =? lenN nuevo) || (lenN anterior =? 0) then mret tt
  else if negb (lenN anterior mod sector =? 0) then panic
  else let nsect := lenN anterior / sector in recorrer (S (S (N.to_nat nsect))) anterior nuevo sector nsect f 0.
End Sectores.
Definition tramos_cambiados (anterior nuevo : list byte) (sector : N) : outcome unit unit * list Tramo :=
  por_cada_tramo_cambiado anterior nuevo sector (fun t => modify (fun v => v ++ [t])) [].

(** ** What the runs are *)
(** Runs in order from the sector [i] on, with a gap between each two. *)
Fixpoint tramos_ok (sector nsect i : N) (ts : list Tramo) : Prop :=
  match ts with
  | [] => True
  | t :: ts => exists s k, t = mkTramo (s * sector) (k * sector) ∧ i <= s ∧ 0 < k ∧ s + k <= nsect ∧ tramos_ok sector nsect (s + k + 1) ts
  end.
Definition en_tramos (sector j : N) (ts : list Tramo) : Prop := exists t, t ∈ ts ∧ t_offset t <= j * sector ∧ j * sector < t_offset t + t_len t.
(** The bytes of the new snapshot written over the old one. *)
Definition escribir_tramo (nuevo : list byte) (v : list byte) (t : Tramo) : list byte :=
  match slice (t_offset t) (t_len t) nuevo with Some bs => default v (put_slice (t_offset t) bs v) | None => v end.

Lemma slice_lookup {X} off n i (l x : list X) : slice off n l = Some x -> i < n -> l !! N.to_nat (off + i) = x !! N.to_nat i.
Proof.
  unfold slice. case_match; [|done]. intros [= <-] Hi. rewrite lookup_take_lt by lia. rewrite lookup_drop. f_equal. lia.
Qed.

Section Prueba.
Context (anterior nuevo : list byte) (sector nsect : N).
Context (Hs : 0 < sector) (Ha : lenN anterior = nsect * sector) (Hn : lenN nuevo = nsect * sector) (Hu : nsect * sector < U64).
#[local] Set Default Proof Using "Type*".
Definition difiere (i : N) : Prop := slice (i * sector) sector anterior ≠ slice (i * sector) sector nuevo.

Lemma cabe_sector i : i < nsect -> i * sector + sector <= nsect * sector.
Proof. intros Hi. rewrite <- N.mul_succ_l. apply N.mul_le_mono_r. lia. Qed.
Lemma mismo_run {X E} i (x : X) : i < nsect -> exists b : bool, mismo_sector (E := E) anterior nuevo sector i x = (Ok b, x) ∧ (b = false <-> difiere i).
Proof.
  intros Hi. pose proof (cabe_sector i Hi) as Hc. unfold mismo_sector, mul64. rewrite (proj2 (N.ltb_lt _ _)) by lia. rewrite bind_eq. cbn [mret M_ret].
  rewrite bind_eq, add64_run by lia. unfold difiere, slice. rewrite Ha, Hn, (proj2 (N.leb_le _ _) Hc). cbn [of_option]. rewrite bind_eq. cbn [mret M_ret]. rewrite bind_eq. cbn [mret M_ret].
  eexists. split; [done|]. rewrite bool_decide_eq_false. split; [intros Hne [= He]; done|intros Hne He; apply Hne; by rewrite He].
Qed.
Lemma fin_spec {X E} (x : X) : forall fuel i, (N.to_nat (nsect - i) < fuel)%nat -> i <= nsect ->
  exists j, fin_tramo (E := E) fuel anterior nuevo sector nsect i x = (Ok j, x) ∧ i <= j ∧ j <= nsect ∧ (forall k, i <= k -> k < j -> difiere k) ∧ (j < nsect -> ~ difiere j).
Proof.
  induction fuel as [|fuel IH]; intros i Hf Hi; [lia|]. cbn [fin_tramo]. destruct (N.ltb_spec i nsect) as [Hl|Hl].
  - destruct (mismo_run (X := X) (E := E) i x Hl) as (b & Hb & Hd). rewrite bind_eq, Hb. destruct b.
    + exists i. split; [done|]. split_and!; [done|done|intros; lia|]. intros _ Hdi. by apply Hd in Hdi.
    + destruct (IH (i + 1)) as (j & Hj & J1 & J2 & J3 & J4); [lia|lia|]. exists j. split; [done|]. split_and!; [lia|done| |done].
      intros k K1 K2. destruct (N.eq_dec k i) as [->|]; [by apply Hd|apply J3; lia].
  - exists i. split; [done|]. split_and!; [done|done|intros; lia|lia].
Qed.

Lemma en_tramos_cons j s k ts : en_tramos sector j (mkTramo (s * sector) (k * sector) :: ts) <-> (s <= j ∧ j < s + k) ∨ en_tramos sector j ts.
Proof.
  unfold en_tramos. split.
  - intros (t & [->|Ht]%elem_of_cons & H1 & H2); [left|right; eauto]. cbn in H1, H2. rewrite <- N.mul_add_distr_r in H2.
    apply N.mul_le_mono_pos_r in H1; [|done]. apply N.mul_lt_mono_pos_r in H2; done.
  - intros [[H1 H2]|(t & Ht & H)]; [|exists t; split; [by right|done]]. eexists. split; [by left|]. cbn. rewrite <- N.mul_add_distr_r. split; [by apply N.mul_le_mono_r|by apply N.mul_lt_mono_pos_r].
Qed.
Lemma tramos_ok_desde i j ts : j <= i -> tramos_ok sector nsect i ts -> tramos_ok sector nsect j ts.
Proof. intros Hij. destruct ts as [|t ts]; [done|]. cbn. intros (s & k & ? & ? & ?). exists s, k. split; [done|]. split; [lia|done]. Qed.
Lemma no_antes j i ts : j < i -> tramos_ok sector nsect i ts -> ~ en_tramos sector j ts.
Proof.
  revert i. induction ts as [|t ts IH]; intros i Hj; [intros _ (t & Ht & _); by apply elem_of_nil in Ht|]. cbn. intros (s & k & -> & H1 & H2 & H3 & H4).
  rewrite en_tramos_cons. intros [?|?]; [lia|]. by apply (IH (s + k + 1)); [lia| |].
Qed.
Lemma recorrer_spec : forall fuel i (v : list Tramo), (N.to_nat (nsect - i) + 1 < fuel)%nat -> i <= nsect ->
  exists ts, recorrer (E := unit) fuel anterior nuevo sector nsect (fun t => modify (fun v => v ++ [t])) i v = (Ok tt, v ++ ts) ∧
    tramos_ok sector nsect i ts ∧ forall j, i <= j -> j < nsect -> difiere j <-> en_tramos sector j ts.
Proof.
  induction fuel as [|fuel IH]; intros i v Hf Hi; [lia|]. cbn [recorrer]. destruct (N.ltb_spec i nsect) as [Hl|Hl].
  2: { exists []. rewrite app_nil_r. split; [done|]. split; [done|]. intros; lia. }
  destruct (mismo_run (X := list Tramo) (E := unit) i v Hl) as (b & Hb & Hd). rewrite bind_eq, Hb. destruct b.
  - destruct (IH (i + 1) v) as (ts & Ht & T1 & T2); [lia|lia|]. exists ts. split; [done|]. split; [apply (tramos_ok_desde (i + 1)); [lia|done]|].
    intros j J1 J2. destruct (N.eq_dec j i) as [->|]; [|apply T2; lia]. split; [intros Hdi; by apply Hd in Hdi|]. intros Hen. by destruct (no_antes i (i + 1) ts ltac:(lia) T1).
  - pose proof (cabe_sector i Hl). cbv iota. rewrite bind_eq. unfold mul64 at 1. rewrite (proj2 (N.ltb_lt (i * sector) U64)) by lia. cbn [mret M_ret].
    destruct (fin_spec (X := list Tramo) (E := unit) v fuel i) as (j & Hj & J1 & J2 & J3 & J4); [lia|done|]. rewrite bind_eq, Hj.
    assert (i < j) as Hij. { destruct (N.eq_dec i j) as [->|]; [|lia]. destruct (J4 Hl). by apply Hd. }
    assert (j * sector <= nsect * sector) as Hjs by (by apply N.mul_le_mono_r). assert (i * sector <= j * sector) as His by (apply N.mul_le_mono_r; lia).
    rewrite bind_eq. unfold mul64. rewrite (proj2 (N.ltb_lt _ _)) by lia. cbn [mret M_ret]. rewrite bind_eq, sub64_run by done. rewrite bind_eq. cbn [modify].
    destruct (IH j (v ++ [mkTramo (i * sector) (j * sector - i * sector)])) as (ts & Ht & T1 & T2); [lia|done|].
    exists (mkTramo (i * sector) ((j - i) * sector) :: ts). split; [rewrite Ht, <- (assoc_L (++)), N.mul_sub_distr_r; done|].
    (* the sector after a run is equal, so the next run starts beyond it *)
    assert (tramos_ok sector nsect (j + 1) ts) as T1'.
    { destruct ts as [|t ts]; [done|]. cbn in T1 |- *. destruct T1 as (s & k & -> & S1 & S2 & S3 & S4). exists s, k. split; [done|]. split; [|done].
      destruct (N.eq_dec s j) as [->|]; [|lia]. exfalso. assert (j < nsect) as Hjn by lia. apply (J4 Hjn), T2; [done|done|]. apply en_tramos_cons. left. lia. }
    split.
    + cbn. exists i, (j - i). split; [done|]. split; [done|]. split; [lia|]. split; [lia|]. by replace (i + (j - i) + 1) with (j + 1) by lia.
    + intros k K1 K2. rewrite en_tramos_cons. replace (i + (j - i)) with j by lia. destruct (N.lt_ge_cases k j) as [Hk|Hk].
      * split; [by left|intros _; by apply J3].
      * rewrite T2 by done. split; [by right|]. intros [?|?]; [lia|done].
Qed.

(** Writing the runs. *)
Lemma escribir_run v s k : lenN v = nsect * sector -> s + k <= nsect ->
  lenN (escribir_tramo nuevo v (mkTramo (s * sector) (k * sector))) = nsect * sector ∧
  forall b, b < nsect * sector -> escribir_tramo nuevo v (mkTramo (s * sector) (k * sector)) !! N.to_nat b =
    if (s * sector <=? b) && (b <? (s + k) * sector) then nuevo !! N.to_nat b else v !! N.to_nat b.
Proof.
  intros Hv Hk. assert (s * sector + k * sector <= nsect * sector) as Hle by (rewrite <- N.mul_add_distr_r; by apply N.mul_le_mono_r).
  unfold escribir_tramo. cbn [t_offset t_len]. unfold slice. rewrite Hn, (proj2 (N.leb_le _ _) Hle).
  set (bs := take _ _). assert (lenN bs = k * sector) as Hbs by (unfold bs, lenN in *; rewrite length_take, length_drop; lia).
  unfold put_slice. rewrite Hbs, Hv, (proj2 (N.leb_le _ _) Hle). cbn [default from_option id]. split.
  - unfold lenN in *. rewrite !length_app, length_take, length_drop. lia.
  - intros b Hb. rewrite N.mul_add_distr_r. destruct (N.leb_spec (s * sector) b) as [H1|H1]; cbn [andb].
    + rewrite lookup_app_r by (rewrite length_take; lia). rewrite length_take, Nat.min_l by (unfold lenN in *; lia).
      destruct (N.ltb_spec b (s * sector + k * sector)) as [H2|H2].
      * rewrite lookup_app_l by (unfold lenN in *; lia). unfold bs. rewrite lookup_take_lt by lia. rewrite lookup_drop. f_equal. lia.
      * rewrite lookup_app_r by (unfold lenN in *; lia). rewrite lookup_drop. f_equal. unfold lenN in *. lia.
    + rewrite lookup_app_l by (rewrite length_take; unfold lenN in *; lia). rewrite lookup_take_lt by lia. done.
Qed.
Lemma sector_de b s : s * sector <= b <-> s <= b / sector.
Proof.
  pose proof (N.div_mod b sector ltac:(lia)) as Hd. pose proof (N.mod_lt b sector ltac:(lia)) as Hm. revert Hd Hm. generalize (b / sector) (b mod sector). intros q r -> Hm. rewrite (N.mul_comm sector). split.
  - intros Hle. destruct (N.le_gt_cases s q); [done|]. assert ((q + 1) * sector <= s * sector) by (apply N.mul_le_mono_r; lia). lia.
  - intros Hle. apply (N.mul_le_mono_r _ _ sector) in Hle. lia.
Qed.
Lemma escribir_todos ts : forall i v, tramos_ok sector nsect i ts -> lenN v = nsect * sector ->
  lenN (foldl (escribir_tramo nuevo) v ts) = nsect * sector ∧
  forall b, b < nsect * sector -> (en_tramos sector (b / sector) ts -> foldl (escribir_tramo nuevo) v ts !! N.to_nat b = nuevo !! N.to_nat b) ∧
    (~ en_tramos sector (b / sector) ts -> foldl (escribir_tramo nuevo) v ts !! N.to_nat b = v !! N.to_nat b).
Proof.
  induction ts as [|t ts IH]; intros i v Ht Hv.
  { split; [done|]. intros b _. split; [|done]. intros (t & Ht' & _). by apply elem_of_nil in Ht'. }
  cbn in Ht. destruct Ht as (s & k & -> & H1 & H2 & H3 & H4). destruct (escribir_run v s k Hv H3) as [E1 E2]. cbn [foldl].
  destruct (IH (s + k + 1) _ H4 E1) as [I1 I2]. split; [done|]. intros b Hb. destruct (I2 b Hb) as [J1 J2]. specialize (E2 b Hb). rewrite en_tramos_cons.
  assert ((s * sector <=? b) && (b <? (s + k) * sector) = true <-> s <= b / sector ∧ b / sector < s + k) as Hin.
  { rewrite andb_true_iff, N.leb_le, N.ltb_lt. by rewrite (sector_de b s), !N.lt_nge, (sector_de b (s + k)). }
  destruct ((s * sector <=? b) && (b <? (s + k) * sector)).
  - destruct Hin as [Hin _]. specialize (Hin eq_refl). assert (~ en_tramos sector (b / sector) ts) as Hno by (apply (no_antes _ (s + k + 1)); [lia|done]).
    split; [intros _|intros Hn']; [by rewrite J2|]. destruct Hn'. by left.
  - split; [intros [Hh|?]; [by apply Hin in Hh|auto]|]. intros Hno. rewrite J2, E2; [done|tauto].
Qed.
Lemma iguales b : b < nsect * sector -> ~ difiere (b / sector) -> anterior !! N.to_nat b = nuevo !! N.to_nat b.
Proof.
  intros Hb Hd. pose proof (N.div_mod b sector ltac:(lia)) as Hm. pose proof (N.mod_lt b sector ltac:(lia)) as Hr. rewrite (N.mul_comm sector) in Hm.
  assert (b / sector < nsect) as Hl by (by apply N.Div0.div_lt_upper_bound; rewrite (N.mul_comm sector)). pose proof (cabe_sector _ Hl) as Hc.
  assert (exists x, slice (b / sector * sector) sector anterior = Some x) as [x Hx] by (unfold slice; rewrite Ha, (proj2 (N.leb_le _ _) Hc); eauto).
  assert (slice (b / sector * sector) sector nuevo = Some x) as Hy.
  { unfold difiere in Hd. rewrite Hx in Hd. destruct (decide (Some x = slice (b / sector * sector) sector nuevo)); [done|by destruct Hd]. }
  rewrite Hm. by rewrite (slice_lookup _ _ _ _ _ Hx Hr), (slice_lookup _ _ _ _ _ Hy Hr).
Qed.
End Prueba.

(** Two snapshots of the same size, a whole number of sectors: the search
    ends without panicking, and its runs are in order, apart from each other and
    made of whole sectors; they cover exactly the sectors that differ, and
    writing them over the old snapshot gives the new one. *)
Theorem tramos_exactos anterior nuevo sector nsect : 0 < sector -> lenN anterior = nsect * sector -> lenN nuevo = nsect * sector -> nsect * sector < U64 ->
  exists ts, tramos_cambiados anterior nuevo sector = (Ok tt, ts) ∧ tramos_ok sector nsect 0 ts ∧
    (forall j, j < nsect -> slice (j * sector) sector anterior ≠ slice (j * sector) sector nuevo <-> en_tramos sector j ts) ∧
    foldl (escribir_tramo nuevo) anterior ts = nuevo.
Proof.
  intros Hs Ha Hn Hu. unfold tramos_cambiados, por_cada_tramo_cambiado. rewrite (proj2 (N.eqb_neq sector 0)) by lia. rewrite Ha, Hn, N.eqb_refl. cbn [negb orb].
  destruct (N.eqb_spec (nsect * sector) 0) as [H0|H0].
  { assert (nsect = 0) as -> by (apply N.mul_eq_0 in H0 as [?|?]; lia). exists []. split; [done|]. split; [done|]. split; [intros; lia|].
    unfold lenN in *. destruct anterior, nuevo; [done|cbn in *; lia..]. }
  rewrite N.Div0.mod_mul. change (0 =? 0) with true. cbn [negb]. cbv zeta. rewrite N.div_mul by lia.
  destruct (recorrer_spec anterior nuevo sector nsect Hs Ha Hn Hu (S (S (N.to_nat nsect))) 0 []) as (ts & Hr & T1 & T2); [lia|lia|]. exists ts. rewrite Hr. split; [done|]. split; [done|].
  split; [intros j Hj; apply (T2 j); [lia|done]|]. destruct (escribir_todos anterior nuevo sector nsect Hs Ha Hn Hu ts 0 anterior T1 Ha) as [E1 E2].
  apply list_eq. intros b. destruct (Nat.lt_ge_cases b (N.to_nat (nsect * sector))) as [Hb|Hb].
  2: { unfold lenN in *. rewrite !lookup_ge_None_2 by lia. done. }
  specialize (E2 (N.of_nat b) ltac:(lia)). rewrite Nat2N.id in E2. destruct E2 as [L1 L2]. destruct (decide (slice (N.of_nat b / sector * sector) sector anterior = slice (N.of_nat b / sector * sector) sector nuevo)) as [He|He].
  - assert (N.of_nat b / sector < nsect) as Hl by (apply N.Div0.div_lt_upper_bound; lia). rewrite L2 by (rewrite <- (T2 _ (N.le_0_l _) Hl); by intros []).
    pose proof (iguales anterior nuevo sector nsect Hs Ha Hn Hu (N.of_nat b) ltac:(lia) ltac:(by intros [])) as Hi. by rewrite Nat2N.id in Hi.
  - apply L1. apply T2; [apply N.le_0_l|apply N.Div0.div_lt_upper_bound; lia|done].
Qed.

(** Five sectors of two bytes; the second and third differ, and the last. *)
Definition antes_prueba : list byte := ["000"; "000"; "000"; "000"; "000"; "000"; "000"; "000"; "000"; "000"]%byte.
Definition luego_prueba : list byte := ["000"; "000"; "000"; "001"; "001"; "000"; "000"; "000"; "001"; "001"]%byte.
Lemma tramos_exactos_testigo : lenN antes_prueba = 5 * 2 ∧ tramos_cambiados antes_prueba luego_prueba 2 = (Ok tt, [mkTramo 2 4; mkTramo 8 2]) ∧
  foldl (escribir_tramo luego_prueba) antes_prueba [mkTramo 2 4; mkTramo 8 2] = luego_prueba.
Proof.
  split; [done|]. destruct (tramos_exactos antes_prueba luego_prueba 2 5) as (ts & Ht & _ & _ & Hf); [done..|].
  assert (tramos_cambiados antes_prueba luego_prueba 2 = (Ok tt, [mkTramo 2 4; mkTramo 8 2])) as Hc by (by vm_compute). split; [exact Hc|]. rewrite Hc in Ht. by injection Ht as <-.
Defined.
