(* ===== verification/LogFiel.v ===== *)
(** * Logs: what the writer leaves on disk

    The promises of the file system, the files of a flow as one history from
    the oldest to the active one, and the steps of a rotation and of a write:
    the history only grows at its end and only loses at its beginning. *)
From S2P Require Import Prelude Texto LogRing LogFlujo LogFs.
Local Open Scope N_scope.

(** [entrada s d n]: the inode a name of a directory stands for; [texto s i]:
    the content of an inode that exists; [usado s i]: it has been given at
    some time. An operation does all of its effect or fails and does
    nothing. *)
Class VfsSpec (T : Type) `{Vfs T} := {
  entrada : T -> N -> str -> option N;
  texto : T -> N -> option (list byte);
  usado : T -> N -> Prop;
  mismo (s s' : T) : Prop := (forall d n, entrada s' d n = entrada s d n) ∧ (forall i, texto s' i = texto s i) ∧ (forall i, usado s i -> usado s' i);
  lookup_ok d n s : let '(r, s') := vfs_lookup d n s in
    mismo s s' ∧ match r with Ok i => entrada s d n = Some i | Err _ => entrada s d n = None | _ => False end;
  size_ok i s : let '(r, s') := vfs_size i s in
    mismo s s' ∧ match r with Ok z => exists x, texto s i = Some x ∧ z = lenN x | Err _ => True | _ => False end;
  (** A file that was there is replaced. *)
  create_ok d n x t s : let '(r, s') := vfs_create_file d n x t s in
    match r with
    | Ok i => ¬ usado s i ∧ texto s' i = Some x ∧ entrada s' d n = Some i ∧ usado s' i ∧
        (forall e m, (e, m) ≠ (d, n) -> entrada s' e m = entrada s e m) ∧
        (forall j, j ≠ i -> entrada s d n ≠ Some j -> texto s' j = texto s j) ∧
        (forall j, usado s j -> usado s' j)
    | Err _ => mismo s s'
    | _ => False
    end;
  append_ok_ i x t s : let '(r, s') := vfs_append_file i x t s in
    match r with
    | Ok _ => exists old, texto s i = Some old ∧ texto s' i = Some (old ++ x) ∧ (forall d n, entrada s' d n = entrada s d n) ∧
        (forall j, j ≠ i -> texto s' j = texto s j) ∧ (forall j, usado s j -> usado s' j)
    | Err _ => mismo s s'
    | _ => False
    end;
  unlink_ok d n s : let '(r, s') := vfs_unlink d n s in
    match r with
    | Ok _ => exists i, entrada s d n = Some i ∧ entrada s' d n = None ∧ texto s' i = None ∧
        (forall e m, (e, m) ≠ (d, n) -> entrada s' e m = entrada s e m) ∧ (forall j, j ≠ i -> texto s' j = texto s j) ∧
        (forall j, usado s j -> usado s' j)
    | Err _ => mismo s s'
    | _ => False
    end;
  rename_ok d n e m t s : let '(r, s') := vfs_rename d n e m t s in
    match r with
    | Ok _ => exists i, entrada s d n = Some i ∧ entrada s e m = None ∧ entrada s' d n = None ∧ entrada s' e m = Some i ∧
        (forall f o, (f, o) ≠ (d, n) -> (f, o) ≠ (e, m) -> entrada s' f o = entrada s f o) ∧ (forall j, texto s' j = texto s j) ∧
        (forall j, usado s j -> usado s' j)
    | Err _ => mismo s s'
    | _ => False
    end;
}.

Section Disco.
Context {T : Type} `{VfsSpec T}.
Context (d : N).
Implicit Types s : T.

(** What a name holds; a name that is not there holds nothing. *)
Definition leer s (n : str) : list byte := default [] (entrada s d n ≫= texto s).
(** The files of a flow, from the oldest to the active one. *)
Definition historial s (nm : str) : list byte :=
  leer s (ruta_en nm 3) ++ leer s (ruta_en nm 2) ++ leer s (ruta_en nm 1) ++ leer s (ruta_en nm 0).
Definition nombres (nm : str) : list str := ruta_en nm <$> [0; 1; 2; 3].

Record dir_ok s : Prop := {
  do_iny : forall n n' i, entrada s d n = Some i -> entrada s d n' = Some i -> n = n';
  do_texto : forall n i, entrada s d n = Some i -> is_Some (texto s i);
  do_usado : forall i, is_Some (texto s i) -> usado s i;
}.

(** The inode a flow appends to is its last file with anything in it, or is
    gone. *)
Record al_final s (nm : str) (i : N) : Prop := {
  af_usado : usado s i;
  af_lugar : forall n, entrada s d n = Some i -> exists k, k <= 3 ∧ n = ruta_en nm k ∧ forall j, j < k -> leer s (ruta_en nm j) = [];
  af_ido : (forall n, entrada s d n ≠ Some i) -> texto s i = None;
}.

(** From one disk to a later one nothing changes but the files of [ns]. *)
Record toca (ns : list str) s s' : Prop := {
  to_entrada : forall n, n ∉ ns -> entrada s' d n = entrada s d n;
  to_texto : forall i, usado s i -> (forall n, n ∈ ns -> entrada s d n ≠ Some i) -> texto s' i = texto s i;
  to_usado : forall i, usado s i -> usado s' i;
  to_viejo : forall n i, n ∈ ns -> entrada s' d n = Some i -> usado s i -> exists n', n' ∈ ns ∧ entrada s d n' = Some i;
}.
Lemma toca_trans ns s1 s2 s3 : toca ns s1 s2 -> toca ns s2 s3 -> toca ns s1 s3.
Proof.
  intros [A1 A2 A3 A4] [B1 B2 B3 B4]. constructor.
  - intros n Hn. by rewrite B1, A1.
  - intros i Hi Hn. rewrite B2; [by apply A2|auto|]. intros n Hin E. destruct (A4 n i Hin E Hi) as (n' & Hn' & E'). by apply (Hn n').
  - auto.
  - intros n i Hn E Hi. destruct (B4 n i Hn E (A3 i Hi)) as (n' & Hn' & E'). by apply (A4 n').
Qed.
Lemma toca_mismo ns s s' : mismo s s' -> toca ns s s'.
Proof.
  intros (E & X & U). constructor; [done|done|done|]. intros n i Hn Hi _. rewrite E in Hi. eauto.
Qed.
Lemma toca_refl ns s : toca ns s s.
Proof. by apply toca_mismo. Qed.

Lemma leer_mismo s s' n : mismo s s' -> leer s' n = leer s n.
Proof. intros (E & X & _). unfold leer. rewrite E. by destruct (entrada s d n); cbn; rewrite ?X. Qed.
Lemma dir_ok_mismo s s' : mismo s s' -> dir_ok s -> dir_ok s'.
Proof.
  intros (E & X & U) [D1 D2 D3]. constructor.
  - intros n n' i. rewrite !E. apply D1.
  - intros n i. rewrite E, X. apply D2.
  - intros i. rewrite X. auto.
Qed.

(** The other flows do not notice. *)
Lemma leer_toca ns s s' n : dir_ok s -> toca ns s s' -> n ∉ ns -> leer s' n = leer s n.
Proof.
  intros [D1 D2 D3] [A1 A2 _ _] Hn. unfold leer. rewrite A1 by done. destruct (entrada s d n) as [i|] eqn:E; [|done]. cbn.
  rewrite A2; [done|by eapply D3, D2|]. intros m Hm Em. by rewrite (D1 _ _ _ E Em) in Hn.
Qed.
Lemma historial_toca ns s s' nm : dir_ok s -> toca ns s s' -> (forall n, n ∈ nombres nm -> n ∉ ns) -> historial s' nm = historial s nm.
Proof.
  intros Hd Ht Hn. unfold historial. rewrite !(leer_toca ns s s') by (done || apply Hn; unfold nombres; set_solver). done.
Qed.
Lemma en_nombres nm k : k <= 3 -> ruta_en nm k ∈ nombres nm.
Proof. intros Hk. apply list_elem_of_fmap_2. assert (k = 0 ∨ k = 1 ∨ k = 2 ∨ k = 3) as [-> |[-> |[-> | ->]]] by lia; set_solver. Qed.
Lemma al_final_toca ns s s' nm i : dir_ok s -> toca ns s s' -> (forall n, n ∈ nombres nm -> n ∉ ns) -> al_final s nm i -> al_final s' nm i.
Proof.
  intros Hd Ht Hn [F1 F2 F3]. pose proof Ht as [A1 A2 A3 A4].
  assert (forall n, n ∈ ns -> entrada s d n ≠ Some i) as Hno.
  { intros n Hin E. destruct (F2 n E) as (k & Hk & -> & _). by apply (Hn (ruta_en nm k)); [apply en_nombres|]. }
  constructor.
  - auto.
  - intros n E. destruct (decide (n ∈ ns)) as [Hin|Hni].
    + destruct (A4 n i Hin E F1) as (n' & Hn' & E'). by apply Hno in E'.
    + rewrite A1 in E by done. destruct (F2 n E) as (k & Hk & -> & Hj). exists k. split_and!; [done..|]. intros j Hjk.
      rewrite (leer_toca ns s s'); [by apply Hj|done|done|]. apply Hn, en_nombres. lia.
  - intros Hno'. rewrite A2 by done. apply F3. intros n E. destruct (F2 n E) as (k & Hk & -> & _).
    apply (Hno' (ruta_en nm k)). rewrite A1; [done|]. by apply Hn, en_nombres.
Qed.

(** ** The steps of a flow on its own files *)
Section Propio.
#[local] Set Default Proof Using "Type*".
Context (nm : str).
Hypothesis Hnd : NoDup (nombres nm).

Lemma ruta_inj j k : j <= 3 -> k <= 3 -> ruta_en nm j = ruta_en nm k -> j = k.
Proof.
  intros Hj Hk E. assert (forall x, x <= 3 -> nombres nm !! N.to_nat x = Some (ruta_en nm x)) as Hl.
  { intros x Hx. unfold nombres. assert (x = 0 ∨ x = 1 ∨ x = 2 ∨ x = 3) as [-> |[-> |[-> | ->]]] by lia; done. }
  apply N2Nat.inj. eapply NoDup_lookup; [exact Hnd|by apply Hl|]. rewrite E. by apply Hl.
Qed.

(** A disk on the way from [s0]: [Q] is what it lost, [L], and its history. *)
Record va (s0 : T) (i : N) (L Q : list byte) (s : T) : Prop := {
  va_dir : dir_ok s;
  va_fin : al_final s nm i;
  va_hist : L ++ historial s nm = Q;
  va_toca : toca (nombres nm) s0 s;
}.

Lemma va_mismo s0 i L Q s s' : mismo s s' -> va s0 i L Q s -> va s0 i L Q s'.
Proof.
  intros Hm [V1 V2 V3 V4]. constructor.
  - by eapply dir_ok_mismo.
  - destruct V2 as [F1 F2 F3]. pose proof Hm as (E & X & U). constructor; [auto| |].
    + intros n. rewrite E. intros Hn. destruct (F2 n Hn) as (k & ? & ? & Hj). exists k. split_and!; [done..|]. intros j Hjk.
      rewrite (leer_mismo s s') by done. auto.
    + intros Hn. rewrite X. apply F3. intros n. rewrite <- E. apply Hn.
  - unfold historial. by rewrite !(leer_mismo s s') by done.
  - eapply toca_trans; [exact V4|]. by apply toca_mismo.
Qed.

Lemma leer_otra s s' n : entrada s' d n = entrada s d n -> (forall i, entrada s d n = Some i -> texto s' i = texto s i) -> leer s' n = leer s n.
Proof. intros E Ht. unfold leer. rewrite E. destruct (entrada s d n) as [i|]; [cbn; by rewrite Ht|done]. Qed.

(** The oldest file goes: the history loses its beginning. *)
Lemma va_unlink s0 i L Q s : va s0 i L Q s ->
  let '(r, s') := vfs_unlink d (ruta_en nm 3) s in
  match r with Ok _ => va s0 i (L ++ leer s (ruta_en nm 3)) Q s' | Err _ => va s0 i L Q s' | _ => False end.
Proof.
  intros Hv. pose proof (unlink_ok d (ruta_en nm 3) s) as Hu. destruct (vfs_unlink _ _ _) as [[u|e| |] s']; [|by eapply va_mismo|done|done].
  destruct Hu as (x & E & E' & X & Eo & Xo & U). destruct Hv as [[D1 D2 D3] [F1 F2 F3] V3 V4].
  assert (forall n, n ≠ ruta_en nm 3 -> entrada s' d n = entrada s d n) as Hen by (intros n Hn; apply Eo; congruence).
  assert (forall n, n ≠ ruta_en nm 3 -> leer s' n = leer s n) as Hle.
  { intros n Hn. apply leer_otra; [by apply Hen|]. intros j Hj. apply Xo. intros ->. by apply Hn, (D1 _ _ x). }
  constructor.
  - constructor.
    + intros n n' j. destruct (decide (n = ruta_en nm 3)) as [->|Hn]; [congruence|]. destruct (decide (n' = ruta_en nm 3)) as [->|Hn']; [congruence|].
      rewrite !Hen by done. apply D1.
    + intros n j. destruct (decide (n = ruta_en nm 3)) as [->|Hn]; [congruence|]. rewrite Hen by done. intros Hj. rewrite Xo; [by eapply D2|].
      intros ->. by apply Hn, (D1 _ _ x).
    + intros j. destruct (decide (j = x)) as [->|Hj]; [rewrite X; by intros []|]. rewrite Xo by done. auto.
  - constructor; [auto| |].
    + intros n. destruct (decide (n = ruta_en nm 3)) as [->|Hn]; [congruence|]. rewrite Hen by done. intros Hi.
      destruct (F2 n Hi) as (k & Hk & -> & Hj). exists k. split_and!; [done..|]. intros j Hjk. rewrite Hle; [by apply Hj|].
      intros E3. apply ruta_inj in E3; lia.
    + intros Hno. destruct (decide (i = x)) as [->|Hne]; [done|]. rewrite Xo by done. apply F3. intros n Hn.
      destruct (decide (n = ruta_en nm 3)) as [->|Hn3]; [congruence|]. apply (Hno n). by rewrite Hen.
  - assert (historial s nm = leer s (ruta_en nm 3) ++ historial s' nm) as Heq.
    { assert (forall j, j < 3 -> leer s' (ruta_en nm j) = leer s (ruta_en nm j)) as Hlej.
      { intros j Hj. apply Hle. intros E3. apply ruta_inj in E3; lia. }
      unfold historial. rewrite (Hlej 2), (Hlej 1), (Hlej 0) by lia. assert (leer s' (ruta_en nm 3) = []) as -> by (unfold leer; by rewrite E'). done. }
    rewrite Heq in V3. by rewrite <- app_assoc.
  - eapply toca_trans; [exact V4|]. constructor.
    + intros n Hn. apply Hen. intros ->. by apply Hn, en_nombres.
    + intros j Hj Hn. apply Xo. intros ->. apply (Hn (ruta_en nm 3)); [by apply en_nombres|done].
    + done.
    + intros n j Hn Hj _. exists n. split; [done|]. destruct (decide (n = ruta_en nm 3)) as [->|Hn3]; [congruence|]. by rewrite <- Hen.
Qed.

(** A file moves one place to the past: the history is the same. *)
Lemma va_rename s0 i L Q s k t : k < 3 -> va s0 i L Q s ->
  let '(r, s') := vfs_rename d (ruta_en nm k) d (ruta_en nm (k + 1)) t s in match r with Ok _ | Err _ => va s0 i L Q s' | _ => False end.
Proof.
  intros Hk Hv. pose proof (rename_ok d (ruta_en nm k) d (ruta_en nm (k + 1)) t s) as Hu.
  destruct (vfs_rename _ _ _ _ _ _) as [[u|e| |] s']; [|by eapply va_mismo|done|done].
  destruct Hu as (x & E1 & E2 & E1' & E2' & Eo & X & U). destruct Hv as [[D1 D2 D3] [F1 F2 F3] V3 V4].
  set (a := ruta_en nm k) in *. set (b := ruta_en nm (k + 1)) in *.
  assert (a ≠ b) as Hab by (intros Hab; apply ruta_inj in Hab; lia).
  assert (forall n, n ≠ a -> n ≠ b -> entrada s' d n = entrada s d n) as Hen by (intros n Hn Hn'; apply Eo; congruence).
  assert (forall n, n ≠ a -> n ≠ b -> leer s' n = leer s n) as Hle by (intros n Hn Hn'; apply leer_otra; [by apply Hen|by intros]).
  assert (forall n j, entrada s' d n = Some j -> n = b ∧ j = x ∨ n ≠ a ∧ n ≠ b ∧ entrada s d n = Some j) as Hinv.
  { intros n j Hj. destruct (decide (n = a)) as [->|Hna]; [congruence|]. destruct (decide (n = b)) as [->|Hnb]; [left; split; [done|congruence]|].
    right. split_and!; [done..|]. by rewrite <- Hen. }
  assert (leer s b = [] ∧ leer s' a = [] ∧ leer s' b = leer s a) as (Lb & La' & Lb').
  { unfold leer. rewrite E1, E2, E1', E2'. cbn. by rewrite X. }
  assert (forall j, j <= 3 -> j ≠ k -> j ≠ k + 1 -> leer s' (ruta_en nm j) = leer s (ruta_en nm j)) as Hlej.
  { intros j Hj Hjk Hjk'. apply Hle; intros Hx; apply ruta_inj in Hx; lia. }
  constructor.
  - constructor.
    + intros n n' j [[-> ->]|(? & ? & Hj)]%Hinv [[-> ?]|(? & ? & Hj')]%Hinv; [done| | |by eapply D1].
      * exfalso. by apply (D1 _ _ _ E1) in Hj'.
      * subst j. exfalso. by apply (D1 _ _ _ E1) in Hj.
    + intros n j [[-> ->]|(? & ? & Hj)]%Hinv; rewrite X; by eapply D2.
    + intros j. rewrite X. auto.
  - constructor; [auto| |].
    + intros n [[-> ->]|(Hna & Hnb & Hj)]%Hinv.
      * destruct (F2 a E1) as (k' & Hk' & Ek & Hjs). apply ruta_inj in Ek; [subst k'|lia|lia]. exists (k + 1). split_and!; [lia|done|]. intros j Hj.
        destruct (decide (j = k)) as [->|Hne]; [done|]. rewrite Hlej by lia. apply Hjs. lia.
      * destruct (F2 n Hj) as (k' & Hk' & -> & Hjs). exists k'. split_and!; [done..|]. intros j Hjk.
        destruct (decide (j = k)) as [->|Hne]; [done|]. destruct (decide (j = k + 1)) as [->|Hne'].
        { fold b. rewrite Lb'. apply Hjs. lia. }
        rewrite Hlej by lia. by apply Hjs.
    + intros Hno. rewrite X. apply F3. intros n Hn. destruct (decide (n = a)) as [->|Hna].
      * apply (Hno b). congruence.
      * destruct (decide (n = b)) as [->|Hnb]; [congruence|]. apply (Hno n). by rewrite Hen.
  - assert (historial s' nm = historial s nm) as ->; [|done]. unfold historial, a, b in *.
    assert (k = 0 ∨ k = 1 ∨ k = 2) as [-> |[-> | ->]] by lia.
    + change (0 + 1) with 1 in *. rewrite (Hlej 3), (Hlej 2), La', Lb', Lb by lia. by rewrite app_nil_r.
    + change (1 + 1) with 2 in *. rewrite (Hlej 3), (Hlej 0), La', Lb', Lb by lia. done.
    + change (2 + 1) with 3 in *. rewrite (Hlej 1), (Hlej 0), La', Lb', Lb by lia. done.
  - eapply toca_trans; [exact V4|].
    assert (a ∈ nombres nm) as Ha by (apply en_nombres; lia). assert (b ∈ nombres nm) as Hb by (apply en_nombres; lia). constructor.
    + intros n Hn. apply Hen; intros ->; by apply Hn.
    + intros j _ _. apply X.
    + done.
    + intros n j Hn [[-> ->]|(? & ? & Hj)]%Hinv _; eauto.
Qed.

(** A new empty file in the active place. *)
Lemma va_create s0 i L Q s t : va s0 i L Q s -> entrada s d (ruta_en nm 0) = None ->
  let '(r, s') := vfs_create_file d (ruta_en nm 0) [] t s in match r with Ok _ | Err _ => va s0 i L Q s' | _ => False end.
Proof.
  intros Hv E. pose proof (create_ok d (ruta_en nm 0) [] t s) as Hu.
  destruct (vfs_create_file _ _ _ _ _) as [[x|e| |] s']; [|by eapply va_mismo|done|done].
  destruct Hu as (Hx & X & E' & Ux & Eo & Xo' & U). assert (forall j, j ≠ x -> texto s' j = texto s j) as Xo by (intros j Hj; apply Xo'; congruence). clear Xo'. destruct Hv as [[D1 D2 D3] [F1 F2 F3] V3 V4].
  assert (forall n, n ≠ ruta_en nm 0 -> entrada s' d n = entrada s d n) as Hen by (intros n Hn; apply Eo; congruence).
  assert (forall n j, entrada s' d n = Some j -> n = ruta_en nm 0 ∧ j = x ∨ n ≠ ruta_en nm 0 ∧ j ≠ x ∧ entrada s d n = Some j) as Hinv.
  { intros n j Hj. destruct (decide (n = ruta_en nm 0)) as [->|Hn]; [left; split; [done|congruence]|]. right. rewrite Hen in Hj by done.
    split_and!; [done| |done]. intros ->. by eapply Hx, D3, D2. }
  assert (forall n, leer s' n = leer s n) as Hle.
  { intros n. destruct (decide (n = ruta_en nm 0)) as [->|Hn]; [unfold leer; rewrite E, E'; cbn; by rewrite X|].
    apply leer_otra; [by apply Hen|]. intros j Hj. apply Xo. intros ->. by eapply Hx, D3, D2. }
  constructor.
  - constructor.
    + intros n n' j [[-> ->]|(? & ? & Hj)]%Hinv [[-> ?]|(? & ? & Hj')]%Hinv; [done|done|done|by eapply D1].
    + intros n j [[-> ->]|(? & ? & Hj)]%Hinv; [by rewrite X|]. rewrite Xo by done. by eapply D2.
    + intros j. destruct (decide (j = x)) as [->|Hj]; [done|]. rewrite Xo by done. auto.
  - constructor; [auto| |].
    + intros n [[-> ->]|(? & ? & Hj)]%Hinv; [done|]. destruct (F2 n Hj) as (k & ? & -> & Hjs). exists k. split_and!; [done..|].
      intros j Hjk. rewrite Hle. by apply Hjs.
    + intros Hno. rewrite Xo by congruence. apply F3. intros n Hn. destruct (decide (n = ruta_en nm 0)) as [->|Hn0]; [congruence|].
      apply (Hno n). by rewrite Hen.
  - unfold historial in *. by rewrite !Hle.
  - eapply toca_trans; [exact V4|]. constructor.
    + intros n Hn. apply Hen. intros ->. apply Hn, en_nombres. lia.
    + intros j Hj _. apply Xo. by intros ->.
    + done.
    + intros n j Hn [[-> ->]|(? & ? & Hj)]%Hinv Hu; [done|]. eauto.
Qed.

(** What is appended comes after all that there was. *)
Lemma va_append s0 i L Q s x t : va s0 i L Q s ->
  let '(r, s') := vfs_append_file i x t s in match r with Ok _ => va s0 i L (Q ++ x) s' | Err _ => va s0 i L Q s' | _ => False end.
Proof.
  intros Hv. pose proof (append_ok_ i x t s) as Hu. destruct (vfs_append_file _ _ _ _) as [[u|e| |] s']; [|by eapply va_mismo|done|done].
  destruct Hu as (old & X & X' & E & Xo & U). destruct Hv as [[D1 D2 D3] [F1 F2 F3] V3 V4].
  assert (exists k, k <= 3 ∧ entrada s d (ruta_en nm k) = Some i ∧ forall j, j < k -> leer s (ruta_en nm j) = []) as (k & Hk & Ek & Hj).
  { destruct (decide (Exists (fun n => entrada s d n = Some i) (nombres nm))) as [(n & _ & Hn)%Exists_exists|Hno].
    - destruct (F2 _ Hn) as (k & Hk & -> & Hjs). by exists k.
    - exfalso. assert (texto s i = None); [|congruence]. apply F3. intros n Hn. destruct (F2 n Hn) as (k & Hk & -> & _). apply Hno.
      apply Exists_exists. exists (ruta_en nm k). split; [by apply en_nombres|done]. }
  assert (forall j, j <= 3 -> j ≠ k -> leer s' (ruta_en nm j) = leer s (ruta_en nm j)) as Hle.
  { intros j Hj3 Hjk. apply leer_otra; [by rewrite E|]. intros z Hz. apply Xo. intros ->. apply Hjk, ruta_inj; [done..|]. by eapply D1. }
  assert (leer s' (ruta_en nm k) = leer s (ruta_en nm k) ++ x) as Hlk by (unfold leer; rewrite E, Ek; cbn; by rewrite X, X').
  constructor.
  - constructor.
    + intros n n' j. rewrite !E. apply D1.
    + intros n j. rewrite E. intros Hn. destruct (decide (j = i)) as [->|Hji]; [by rewrite X'|]. rewrite Xo by done. by eapply D2.
    + intros j. destruct (decide (j = i)) as [->|Hji]; [auto|]. rewrite Xo by done. auto.
  - constructor; [auto| |].
    + intros n. rewrite E. intros Hn. destruct (F2 n Hn) as (k' & ? & -> & Hjs). exists k'. split_and!; [done..|]. intros j Hjk.
      assert (k' = k) as ->. { apply ruta_inj; [done..|]. by eapply D1. }
      rewrite Hle by lia. by apply Hj.
    + intros Hno. exfalso. apply (Hno (ruta_en nm k)). by rewrite E.
  - assert (historial s' nm = historial s nm ++ x) as ->.
    { unfold historial. assert (k = 0 ∨ k = 1 ∨ k = 2 ∨ k = 3) as [-> |[-> |[-> | ->]]] by lia.
      - rewrite (Hle 3), (Hle 2), (Hle 1), Hlk by lia. by rewrite !app_assoc.
      - rewrite (Hle 3), (Hle 2), (Hle 0), Hlk, (Hj 0) by lia. by rewrite !app_nil_r, !app_assoc.
      - rewrite (Hle 3), (Hle 1), (Hle 0), Hlk, (Hj 0), (Hj 1) by lia. by rewrite !app_nil_r, !app_assoc.
      - rewrite (Hle 2), (Hle 1), (Hle 0), Hlk, (Hj 0), (Hj 1), (Hj 2) by lia. by rewrite !app_nil_r. }
    by rewrite app_assoc, V3.
  - eapply toca_trans; [exact V4|]. constructor.
    + intros n _. apply E.
    + intros j Hu Hn. apply Xo. intros ->. by apply (Hn (ruta_en nm k)); [apply en_nombres|].
    + done.
    + intros n j Hn. rewrite E. eauto.
Qed.

(** The active file is always a good place to write in. *)
Lemma va_activo s0 i i' L Q s : va s0 i L Q s -> entrada s d (ruta_en nm 0) = Some i' -> va s0 i' L Q s.
Proof.
  intros [[D1 D2 D3] _ V3 V4] E. constructor; [done| |done|done]. constructor.
  - by eapply D3, D2.
  - intros n Hn. exists 0. split_and!; [lia|by eapply D1|lia].
  - intros Hno. by apply Hno in E.
Qed.
End Propio.
End Disco.

(** Everything appended to each ring since the boot. *)
Abbreviation Historia := (Fuente -> list byte).

(** ** The steps of a pass *)
Section Pasada.
#[local] Set Default Proof Using "Type*".
Context {T : Type} `{VfsSpec T}.
Implicit Types n : Nucleo T.

Lemma acaba_vfs {A} (m : M T unit A) n (Φ : A -> Nucleo T -> Prop) Ψ :
  (let '(r, s') := m (disco n) in
   match r with Ok a => Φ a (set_disco s' n) | Err _ => Ψ (set_disco s' n) | _ => False end) -> acaba (en_vfs m) n Φ Ψ.
Proof. unfold acaba, en_vfs, zoom. by destruct (m (disco n)) as [[a|e| |] s']. Qed.
Lemma acaba_attempt {X A} (m : M X unit A) (x : X) (Φ : unit + A -> X -> Prop) (Ψ Ψ' : X -> Prop) :
  acaba m x (fun a => Φ (inr a)) (Φ (inl tt)) -> acaba (attempt m) x Φ Ψ'.
Proof. unfold acaba, attempt. by destruct (m x) as [[a|[]| |] y]. Qed.
Lemma acaba_gets {X E A} (f : X -> A) (x : X) (Φ : A -> X -> Prop) (Ψ : X -> Prop) : Φ (f x) x -> acaba (E := E) (gets f) x Φ Ψ.
Proof. done. Qed.
Lemma acaba_ret {X E A} (a : A) (x : X) (Φ : A -> X -> Prop) (Ψ : X -> Prop) : Φ a x -> acaba (E := E) (mret a) x Φ Ψ.
Proof. done. Qed.

(** Only the disk has changed. *)
Definition solo n n' : Prop := anillo n' = anillo n ∧ llegadas n' = llegadas n ∧ esc n' = esc n.
Lemma solo_disco n s : solo n (set_disco s n).
Proof. done. Qed.
Lemma solo_trans n1 n2 n3 : solo n1 n2 -> solo n2 n3 -> solo n1 n3.
Proof. unfold solo. intuition congruence. Qed.

Section Ficheros.
Context (d : N) (nm : str) (s0 : T).
Hypothesis Hnd : NoDup (nombres nm).
Hypothesis Hnm : ruta_en nm 0 = nm.

Definition sigue (n : Nucleo T) (i : N) (L Q : list byte) (n' : Nucleo T) : Prop := solo n n' ∧ va d nm s0 i L Q (disco n').
Lemma sigue_de_va n1 i L Q n2 n3 : solo n1 n2 -> sigue n2 i L Q n3 -> sigue n1 i L Q n3.
Proof. intros Hs [H1 H2]. split; [by eapply solo_trans|done]. Qed.
Lemma sigue_disco n i L Q s : va d nm s0 i L Q s -> sigue n i L Q (set_disco s n).
Proof. done. Qed.

(** A rotation loses at most the oldest file. *)
Definition perdida n (L : list byte) : Prop := L = [] ∨ L = leer d (disco n) (ruta_en nm 3).
Lemma borrar_ok mtime n i Q : va d nm s0 i [] Q (disco n) ->
  acaba (paso_rotacion d nm mtime (Borrar 3)) n (fun _ n' => exists L, perdida n L ∧ sigue n i L Q n') (fun _ => False).
Proof.
  intros Hv. cbn [paso_rotacion]. apply acaba_bind, acaba_attempt with (Ψ := fun _ => False), acaba_vfs.
  pose proof (va_unlink d nm Hnd s0 i [] Q (disco n) Hv) as Hu. destruct (vfs_unlink _ _ _) as [[u|[]| |] s']; [| |done|done]; apply acaba_ret.
  - exists (leer d (disco n) (ruta_en nm 3)). split; [by right|done].
  - exists []. split; [by left|done].
Qed.
Lemma renombrar_ok mtime k n i L Q : k < 3 -> va d nm s0 i L Q (disco n) ->
  acaba (paso_rotacion d nm mtime (Renombrar k (k + 1))) n (fun _ n' => sigue n i L Q n' ∧ entrada (disco n') d (ruta_en nm k) = None) (sigue n i L Q).
Proof.
  intros Hk Hv. cbn [paso_rotacion]. apply acaba_bind, acaba_attempt with (Ψ := fun _ => False), acaba_vfs.
  pose proof (lookup_ok d (ruta_en nm k) (disco n)) as Hl. destruct (vfs_lookup _ _ _) as [[x|[]| |] s1]; destruct Hl as [Hm Hl]; try done.
  - apply acaba_vfs. cbn [disco set_disco].
    pose proof (va_rename d nm Hnd s0 i L Q s1 k mtime Hk (va_mismo _ _ Hnd _ _ _ _ _ _ Hm Hv)) as Hr.
    pose proof (rename_ok d (ruta_en nm k) d (ruta_en nm (k + 1)) mtime s1) as Hr'.
    destruct (vfs_rename _ _ _ _ _ _) as [[u|[]| |] s2]; [|done..]. split; [done|]. by destruct Hr' as (j & _ & _ & E & _).
  - split; [split; [done|by eapply va_mismo]|]. destruct Hm as (E & _ & _). cbn. by rewrite E.
Qed.

Lemma rotar_ok n i Q : va d nm s0 i [] Q (disco n) ->
  acaba (rotar_flujo d nm) n (fun _ n' => exists L, perdida n L ∧ sigue n i L Q n') (fun n' => exists L, perdida n L ∧ sigue n i L Q n').
Proof.
  intros Hv. unfold rotar_flujo. apply acaba_bind, acaba_gets. set (mtime := wall_secs _). apply acaba_bind.
  assert (forall L l n1, perdida n L -> (forall p, p ∈ l -> exists k, k < 3 ∧ p = Renombrar k (k + 1)) -> sigue n i L Q n1 ->
    acaba (mfor (paso_rotacion d nm mtime) l) n1
      (fun _ n' => (exists L, perdida n L ∧ sigue n i L Q n') ∧ forall k k', last l = Some (Renombrar k k') -> entrada (disco n') d (ruta_en nm k) = None) (fun n' => exists L, perdida n L ∧ sigue n i L Q n')) as Hloop.
  { intros L. induction l as [|p l IH]; intros n1 HL Hl [Hs1 Hv1]; cbn [mfor]; [apply acaba_ret; split; [by exists L|done]|].
    destruct (Hl p ltac:(left)) as (k & Hk & ->). apply acaba_bind. eapply acaba_mono; [by apply renombrar_ok| |].
    - intros u n2 [H2 E2]. assert (sigue n i L Q n2) as H2' by (by eapply sigue_de_va). destruct l as [|p' l]; [apply acaba_ret; split; [by exists L|by intros ? ? [= <- _]]|].
      change (last (Renombrar k (k + 1) :: p' :: l)) with (last (p' :: l)). apply IH; [done|intros q Hq; apply Hl; by right|done].
    - intros n2 H2. exists L. split; [done|]. by eapply sigue_de_va. }
  unfold pasos. cbn [mfor]. apply acaba_bind. eapply acaba_mono; [by apply borrar_ok| |done]. intros u n1 (L & HL & H1).
  eapply acaba_mono; [apply (Hloop L); [done| |done]| |done].
  - intros p Hp. apply list_elem_of_In in Hp. change (In p [Renombrar 2 3; Renombrar 1 2; Renombrar 0 1]) in Hp.
    destruct Hp as [<-|[<-|[<-|[]]]]; [exists 2|exists 1|exists 0]; (split; [lia|done]).
  - intros u' n2 [(L2 & HL2 & Hs2 & Hv2) E0]. apply acaba_bind, acaba_vfs. specialize (E0 0 1 eq_refl).
    pose proof (va_create d nm Hnd s0 i L2 Q (disco n2) mtime Hv2 E0) as Hc. rewrite Hnm in Hc.
    destruct (vfs_create_file _ _ _ _ _) as [[x|[]| |] s']; [| |done|done]; exists L2; (split; [done|split; [by eapply solo_trans|done]]).
Qed.

Lemma abrir_ok n i L Q : va d nm s0 i L Q (disco n) -> acaba (abrir d nm) n
  (fun o n' => sigue n i L Q n' ∧ match o with Some (i', _) => sigue n i' L Q n' | None => True end) (fun _ => False).
Proof.
  intros Hv. unfold abrir. apply acaba_bind, acaba_gets. set (mtime := wall_secs _).
  assert (forall n1 i', solo n n1 -> va d nm s0 i L Q (disco n1) -> entrada (disco n1) d nm = Some i' ->
    acaba (z ← attempt (en_vfs (vfs_size i')); mret (match z with inr x => Some (i', x) | inl _ => None end)) n1
    (fun o n' => sigue n i L Q n' ∧ match o with Some (i', _) => sigue n i' L Q n' | None => True end) (fun _ => False)) as Hfin.
  { intros n1 i' Hs1 Hv1 He. apply acaba_bind, acaba_attempt with (Ψ := fun _ => False), acaba_vfs.
    pose proof (size_ok i' (disco n1)) as Hz. destruct (vfs_size _ _) as [[x|[]| |] s2]; destruct Hz as [Hm Hz]; try done.
    - assert (va d nm s0 i L Q s2) as Hv2 by (by eapply va_mismo). split; [by split|]. split; [done|].
      eapply (va_activo d nm Hnd); [exact Hv2|]. rewrite Hnm. destruct Hm as (E & _ & _). by rewrite E.
    - split; [|done]. split; [done|]. by eapply va_mismo. }
  apply acaba_bind, acaba_attempt with (Ψ := fun _ => False), acaba_vfs.
  pose proof (lookup_ok d nm (disco n)) as Hl. destruct (vfs_lookup _ _ _) as [[x|[]| |] s1]; destruct Hl as [Hm Hl]; try done.
  - apply acaba_bind, acaba_ret, Hfin; [done|by eapply va_mismo|]. destruct Hm as (E & _ & _). cbn. by rewrite E.
  - apply acaba_bind, acaba_bind, acaba_attempt with (Ψ := fun _ => False), acaba_vfs. cbn [disco set_disco].
    assert (va d nm s0 i L Q s1) as Hv1 by (by eapply va_mismo).
    assert (entrada s1 d (ruta_en nm 0) = None) as E0 by (destruct Hm as (E & _ & _); by rewrite Hnm, E).
    pose proof (va_create d nm Hnd s0 i L Q s1 mtime Hv1 E0) as Hc. rewrite Hnm in Hc. pose proof (create_ok d nm [] mtime s1) as Hc'.
    destruct (vfs_create_file _ _ _ _ _) as [[x|[]| |] s']; [| |done|done].
    + apply acaba_ret, Hfin; [done|done|]. cbn. tauto.
    + apply acaba_ret, acaba_ret. by split.
Qed.
End Ficheros.

(** Only the disk and the channel [idx] have changed. *)
Record solo_canal (idx : nat) (c' : Canal) n n' : Prop := {
  sc_anillo : anillo n' = anillo n;
  sc_llegadas : llegadas n' = llegadas n;
  sc_dir : dir (esc n') = dir (esc n);
  sc_canales : canales (esc n') = <[idx := c']> (canales (esc n));
  sc_lote : lote (esc n') = lote (esc n);
}.
Lemma solo_canal_solo idx c n n' : canales (esc n) !! idx = Some c -> solo n n' -> solo_canal idx c n n'.
Proof. intros Hc (E1 & E2 & E3). constructor; rewrite ?E3; [done..| |done]. by rewrite list_insert_id. Qed.
Lemma solo_canal_trans idx c1 c2 n n1 n2 : solo_canal idx c1 n n1 -> solo_canal idx c2 n1 n2 -> solo_canal idx c2 n n2.
Proof. intros [A1 A2 A3 A4 A5] [B1 B2 B3 B4 B5]. constructor; [congruence..| |congruence]. by rewrite B4, A4, list_insert_insert_eq. Qed.

Lemma acaba_canal idx c n (Φ : Canal -> Nucleo T -> Prop) Ψ : canales (esc n) !! idx = Some c -> Φ c n -> acaba (canal idx) n Φ Ψ.
Proof. intros Hc HΦ. unfold canal. apply acaba_bind, acaba_gets. by rewrite Hc. Qed.
Lemma acaba_set_canal idx c n (Φ : unit -> Nucleo T -> Prop) Ψ :
  Φ tt (set_esc (mkEscritor_ (dir (esc n)) (<[idx := c]> (canales (esc n))) (lote (esc n))) n) -> acaba (set_canal idx c) n Φ Ψ.
Proof. done. Qed.
Lemma solo_canal_set idx c n : solo_canal idx c n (set_esc (mkEscritor_ (dir (esc n)) (<[idx := c]> (canales (esc n))) (lote (esc n))) n).
Proof. done. Qed.

Definition con_ino (c : Canal) (i : N) : Canal := mkCanal (fuente c) (flujo c) i.
Definition con_flujo (c : Canal) (f : Flujo) : Canal := mkCanal (fuente c) f (ino c).

(** A write: the mark and the batch, in that order, or nothing, or only the
    mark. *)
Lemma escribir_lote_ok idx c n s0 Q rotar marca copiados datos :
  let nm := nombre (flujo c) in let d := dir (esc n) in
  NoDup (nombres nm) -> ruta_en nm 0 = nm -> canales (esc n) !! idx = Some c ->
  slice 0 copiados (lote (esc n)) = Some datos -> va d nm s0 (ino c) [] Q (disco n) ->
  acaba (escribir_lote idx rotar marca copiados) n
    (fun _ n' => exists i L, (L = [] ∨ rotar = true ∧ L = leer d (disco n) (ruta_en nm 3)) ∧ solo_canal idx (con_ino c i) n n' ∧ va d nm s0 i L (Q ++ marca ++ datos) (disco n'))
    (fun n' => exists i L, (L = [] ∨ rotar = true ∧ L = leer d (disco n) (ruta_en nm 3)) ∧ solo_canal idx (con_ino c i) n n' ∧ (va d nm s0 i L Q (disco n') ∨ va d nm s0 i L (Q ++ marca) (disco n'))).
Proof.
  intros nm d Hnd Hnm Hc Hdatos Hv. set (R := fun L : list byte => L = [] ∨ rotar = true ∧ L = leer d (disco n) (ruta_en nm 3)). unfold escribir_lote. apply acaba_bind, acaba_gets, acaba_bind. fold d.
  assert (forall L n1 i, R L -> solo_canal idx (con_ino c i) n n1 -> va d nm s0 i L Q (disco n1) ->
    acaba (c ← canal idx;
      mtime ← gets (fun n => wall_secs (disco n));
      (if 0 <? lenN marca then en_vfs (vfs_append_file (ino c) marca mtime) else mret tt);;
      (if 0 <? copiados
       then datos ← of_option panic (slice 0 copiados (lote (esc n))); en_vfs (vfs_append_file (ino c) datos mtime)
       else mret tt)) n1
    (fun _ n' => exists i L, R L ∧ solo_canal idx (con_ino c i) n n' ∧ va d nm s0 i L (Q ++ marca ++ datos) (disco n'))
    (fun n' => exists i L, R L ∧ solo_canal idx (con_ino c i) n n' ∧ (va d nm s0 i L Q (disco n') ∨ va d nm s0 i L (Q ++ marca) (disco n')))) as Hfin.
  { intros L n1 i HL Hs Hv1. assert (canales (esc n1) !! idx = Some (con_ino c i)) as Hc1.
    { rewrite (sc_canales _ _ _ _ Hs). apply list_lookup_insert_eq. by eapply lookup_lt_Some. }
    apply acaba_bind, (acaba_canal idx _ _ _ _ Hc1), acaba_bind, acaba_gets. set (mtime := wall_secs _). cbn [ino con_ino].
    assert (forall s', solo_canal idx (con_ino c i) n (set_disco s' n1)) as Hs'.
    { intros s'. destruct Hs as [A1 A2 A3 A4 A5]. by constructor. }
    assert (forall n2, (exists s2, n2 = set_disco s2 n1) -> va d nm s0 i L (Q ++ marca) (disco n2) ->
      acaba (if 0 <? copiados
       then datos ← of_option panic (slice 0 copiados (lote (esc n))); en_vfs (vfs_append_file i datos mtime)
       else mret tt) n2
      (fun _ n' => exists i L, R L ∧ solo_canal idx (con_ino c i) n n' ∧ va d nm s0 i L (Q ++ marca ++ datos) (disco n'))
      (fun n' => exists i L, R L ∧ solo_canal idx (con_ino c i) n n' ∧ (va d nm s0 i L Q (disco n') ∨ va d nm s0 i L (Q ++ marca) (disco n')))) as Hdos.
    { intros n2 (s2 & ->) Hv2. cbn in Hv2. destruct (N.ltb_spec 0 copiados) as [Hpos|Hz].
      - apply acaba_bind. rewrite Hdatos. apply acaba_ret, acaba_vfs. cbn [disco set_disco].
        pose proof (va_append d nm Hnd s0 i L (Q ++ marca) s2 datos mtime Hv2) as Ha.
        destruct (vfs_append_file _ _ _ _) as [[u|[]| |] s3]; [| |done|done]; exists i, L; (split; [done|]); (split; [apply Hs'|]); [by rewrite app_assoc|by right].
      - apply acaba_ret. exists i, L. split; [done|]. split; [apply Hs'|]. assert (copiados = 0) as -> by lia.
        destruct (slice_length _ _ _ _ Hdatos) as [Hl _]. destruct datos; [by rewrite app_nil_r|discriminate Hl]. }
    apply acaba_bind. destruct (N.ltb_spec 0 (lenN marca)) as [Hpos|Hz].
    - apply acaba_vfs. pose proof (va_append d nm Hnd s0 i L Q (disco n1) marca mtime Hv1) as Ha.
      destruct (vfs_append_file _ _ _ _) as [[u|[]| |] s2]; [| |done|done].
      + apply Hdos; [by exists s2|done].
      + exists i, L. split; [done|]. split; [apply Hs'|by left].
    - apply acaba_ret, Hdos; [exists (disco n1); by destruct n1|]. destruct marca; [by rewrite app_nil_r|unfold lenN in Hz; cbn in Hz; lia]. }
  destruct rotar; [|apply acaba_ret, (Hfin [] n (ino c)); [by left|apply solo_canal_solo; [by destruct c|done]|done]].
  apply acaba_bind, (acaba_canal idx _ _ _ _ Hc), acaba_bind. fold nm.
  assert (forall L n1, R L -> sigue d nm s0 n (ino c) L Q n1 ->
    exists i L, R L ∧ solo_canal idx (con_ino c i) n n1 ∧ (va d nm s0 i L Q (disco n1) ∨ va d nm s0 i L (Q ++ marca) (disco n1))) as Hmal.
  { intros L n1 HL [Hs1 Hv1]. exists (ino c), L. split; [done|]. split; [apply solo_canal_solo; [by destruct c|done]|by left]. }
  eapply acaba_mono; [by apply (rotar_ok d nm s0 Hnd Hnm)| |].
  2: { intros n1 (L & HL & H1). apply (Hmal L); [destruct HL; [by left|by right]|done]. }
  intros u n1 (L & HL' & Hs1 & Hv1). assert (R L) as HL by (destruct HL'; [by left|by right]). apply acaba_bind. eapply acaba_mono; [by apply (abrir_ok d nm s0 Hnd Hnm)| |done].
  intros o n2 [[Hs2 Hv2] Ho]. apply acaba_bind. destruct o as [[i' z]|].
  - apply acaba_ret. unfold set_ino. destruct Ho as [Hs2' Hv2']. assert (solo n n2) as Hs by (by eapply solo_trans).
    assert (canales (esc n2) !! idx = Some c) as Hc2 by (destruct Hs as (_ & _ & ->); done).
    apply acaba_bind, (acaba_canal idx _ _ _ _ Hc2), acaba_set_canal. apply (Hfin L _ i'); [done| |done].
    eapply solo_canal_trans; [by apply (solo_canal_solo idx c)|apply solo_canal_set].
  - apply (Hmal L); [done|]. split; [by eapply solo_trans|done].
Qed.

(** *** The rings while a pass runs *)
Lemma cap_pos f : 0 < capacidad f.
Proof. by destruct f. Qed.
Lemma cap_max f : 4 * capacidad f < U64.
Proof. by destruct f. Qed.

Definition anillos_ok (h : Historia) n : Prop := forall f, ring_de (capacidad f) (h f) (anillo n f).
Fixpoint suma_de (f : Fuente) (l : list (Fuente * list byte)) : N :=
  match l with [] => 0 | (g, b) :: l => (if decide (g = f) then lenN b else 0) + suma_de f l end.
Fixpoint por_llegar (f : Fuente) (ls : list (list (Fuente * list byte))) : N :=
  match ls with [] => 0 | l :: ls => suma_de f l + por_llegar f ls end.
Definition total (h : Historia) n (f : Fuente) : N := lenN (h f) + por_llegar f (llegadas n).
Definition crece (h h' : Historia) : Prop := forall f, exists k, h' f = h f ++ k.

(** Bytes may have come; disk and writer are the same. *)
Record quieto (h : Historia) n (h' : Historia) n' : Prop := {
  qu_crece : crece h h';
  qu_anillos : anillos_ok h' n';
  qu_disco : disco n' = disco n;
  qu_esc : esc n' = esc n;
  qu_total : forall f, total h' n' f = total h n f;
}.
Lemma crece_refl h : crece h h.
Proof. intros f. exists []. by rewrite app_nil_r. Qed.
Lemma crece_trans h1 h2 h3 : crece h1 h2 -> crece h2 h3 -> crece h1 h3.
Proof. intros A B f. destruct (A f) as [k E], (B f) as [k' E']. exists (k ++ k'). by rewrite E', E, app_assoc. Qed.
Lemma quieto_trans h1 n1 h2 n2 h3 n3 : quieto h1 n1 h2 n2 -> quieto h2 n2 h3 n3 -> quieto h1 n1 h3 n3.
Proof.
  intros [A1 A2 A3 A4 A5] [B1 B2 B3 B4 B5]. constructor; [by eapply crece_trans|done|congruence|congruence|].
  intros f. by rewrite B5.
Qed.

Lemma acaba_anillo {A} f (m : M Ring unit A) n (Φ : A -> Nucleo T -> Prop) Ψ :
  (let '(r, x) := m (anillo n f) in
   match r with Ok a => Φ a (set_anillo f x n) | Err _ => Ψ (set_anillo f x n) | _ => False end) -> acaba (en_anillo f m) n Φ Ψ.
Proof. unfold acaba, en_anillo, zoom. by destruct (m (anillo n f)) as [[a|e| |] x]. Qed.

Definition anade (h : Historia) (f : Fuente) (b : list byte) : Historia := fun g => if decide (g = f) then h g ++ b else h g.
Lemma crece_anade h f b : crece h (anade h f b).
Proof. intros g. unfold anade. case_decide; [by exists b|exists []; by rewrite app_nil_r]. Qed.

Lemma append_anillo_ok f b h n (Φ : unit -> Nucleo T -> Prop) Ψ : anillos_ok h n -> lenN (h f) + lenN b < U64 ->
  (forall n', anillos_ok (anade h f b) n' -> llegadas n' = llegadas n -> disco n' = disco n -> esc n' = esc n -> Φ tt n') ->
  acaba (en_anillo f (append (capacidad f) b)) n Φ Ψ.
Proof.
  intros Hr Hb HΦ. apply acaba_anillo.
  destruct (append_ok (capacidad f) (cap_pos f) (cap_max f) (E := unit) b (h f) (anillo n f) (Hr f) Hb) as (r & -> & Hr').
  apply HΦ; [|done..]. intros g. unfold anade. cbn. case_decide; [by subst g|apply Hr].
Qed.

Definition cabe_ h n (m : N) : Prop := forall f, total h n f + m < U64.

Lemma llegan_ok h n : anillos_ok h n -> cabe_ h n 0 -> acaba llegan n (fun _ n' => exists h', quieto h n h' n') (fun _ => False).
Proof.
  intros Hr Hc. unfold llegan. apply acaba_bind, acaba_gets. cbn [Datatypes.id].
  destruct (llegadas n) as [|l ls] eqn:El; [apply acaba_ret; exists h; constructor; [apply crece_refl|done..]|].
  apply acaba_bind. unfold acaba at 1. cbn [modify]. set (n0 := mkNucleo _ _ _ _).
  assert (forall l h1 n1, anillos_ok h1 n1 -> llegadas n1 = ls -> disco n1 = disco n -> esc n1 = esc n ->
    (forall f, lenN (h1 f) + suma_de f l + por_llegar f ls = total h n f) -> crece h h1 ->
    acaba (mfor (fun fb : Fuente * list byte => en_anillo fb.1 (append (capacidad fb.1) fb.2)) l) n1
      (fun _ n' => exists h', quieto h n h' n') (fun _ => False)) as Hloop.
  { clear l El n0. induction l as [|[f b] l IH]; intros h1 n1 Hr1 Hl1 Hd1 He1 Ht Hcr; cbn [mfor suma_de] in *.
    - apply acaba_ret. exists h1. constructor; [done..|]. intros f. rewrite <- Ht. unfold total. rewrite Hl1. lia.
    - apply acaba_bind. cbn [fst snd]. apply (append_anillo_ok f b h1 n1); [done| |].
      { pose proof (Ht f) as Htf. pose proof (Hc f) as Hcf. rewrite decide_True in Htf by done. lia. }
      intros n2 Hr2 Hl2 Hd2 He2. apply (IH (anade h1 f b)); [done|congruence..| |].
      + intros g. rewrite <- Ht. unfold anade. repeat case_decide; subst; try done; rewrite ?lenN_app; lia.
      + eapply crece_trans; [exact Hcr|apply crece_anade]. }
  apply (Hloop l h n0); [done..| |apply crece_refl]. intros f. unfold total. rewrite El. cbn [por_llegar]. lia.
Qed.

Lemma cabe_quieto h n h' n' m : quieto h n h' n' -> cabe_ h n m -> cabe_ h' n' m.
Proof. intros Hq Hc f. rewrite (qu_total _ _ _ _ Hq). apply Hc. Qed.
Lemma cabe_len h n m f : cabe_ h n m -> lenN (h f) + m < U64.
Proof. intros Hc. specialize (Hc f). unfold total in Hc. lia. Qed.
Lemma cabe_menos h n m m' : m' <= m -> cabe_ h n m -> cabe_ h n m'.
Proof. intros Hm Hc f. specialize (Hc f). lia. Qed.

Lemma quieto_lee h n f r : anillos_ok h n -> r = anillo n f -> quieto h n h (set_anillo f r n).
Proof.
  intros Hr ->. constructor; [apply crece_refl| |done..]. intros g. cbn. case_decide; [by subst g|apply Hr].
Qed.

Lemma fuente_escritos_ok f h n : anillos_ok h n -> cabe_ h n 0 ->
  acaba (fuente_escritos f) n (fun v n' => exists h', quieto h n h' n' ∧ v = lenN (h' f)) (fun _ => False).
Proof.
  intros Hr Hc. unfold fuente_escritos. apply acaba_bind. eapply acaba_mono; [by apply llegan_ok| |done].
  intros u n1 (h1 & Hq). apply acaba_anillo. cbn [gets]. exists h1. pose proof (qu_anillos _ _ _ _ Hq) as Hr1.
  split; [eapply quieto_trans; [exact Hq|by apply quieto_lee]|]. apply (rd_esc _ _ _ (Hr1 f)).
Qed.

Lemma fuente_minimo_ok f h n : anillos_ok h n -> cabe_ h n 0 ->
  acaba (fuente_cursor_minimo f) n (fun v n' => exists h', quieto h n h' n' ∧ v = lenN (h' f) - N.min (capacidad f) (lenN (h' f))) (fun _ => False).
Proof.
  intros Hr Hc. unfold fuente_cursor_minimo. apply acaba_bind. eapply acaba_mono; [by apply llegan_ok| |done].
  intros u n1 (h1 & Hq). apply acaba_anillo. pose proof (qu_anillos _ _ _ _ Hq) as Hr1. pose proof (Hr1 f) as Hf.
  pose proof (ring_de_len _ (cap_pos f) (cap_max f) _ _ Hf) as Hl. unfold cursor_minimo. rewrite bind_eq. cbn [gets Datatypes.id]. unfold sub64.
  rewrite (rd_esc _ _ _ Hf). destruct (N.leb_spec (len (anillo n1 f)) (lenN (h1 f))); [|lia]. cbn [mret M_ret].
  exists h1. split; [eapply quieto_trans; [exact Hq|by apply quieto_lee]|]. by rewrite Hl.
Qed.

(** How many bytes of its history a ring no longer holds. *)
Definition olvidado (f : Fuente) (x : list byte) : N := lenN x - N.min (capacidad f) (lenN x).
Lemma olvidado_crece f h h' : crece h h' -> olvidado f (h f) <= olvidado f (h' f).
Proof. intros Hc. destruct (Hc f) as [x ->]. unfold olvidado. rewrite lenN_app. lia. Qed.

Lemma leer_lote_ok f c k h n : anillos_ok h n -> cabe_ h n LOTE_MAX -> lenN (lote (esc n)) = LOTE_MAX -> k <= LOTE_MAX -> c <= lenN (h f) ->
  acaba (leer_lote f c k) n (fun l n' => exists h' lo, crece h h' ∧ anillos_ok h' n' ∧ disco n' = disco n ∧ (forall g, total h' n' g = total h n g) ∧
    esc n' = mkEscritor_ (dir (esc n)) (canales (esc n)) lo ∧ lenN lo = LOTE_MAX ∧
    cursor l = c + perdidos l + copiados l ∧ cursor l <= lenN (h' f) ∧ perdidos l = olvidado f (h' f) - c ∧ copiados l <= k ∧
    slice 0 (copiados l) lo = Some (take (N.to_nat (copiados l)) (drop (N.to_nat (c + perdidos l)) (h' f)))) (fun _ => False).
Proof.
  intros Hr Hc Hlo Hk Hcu. unfold leer_lote. apply acaba_bind, acaba_gets, acaba_bind. unfold slice at 1.
  destruct (N.leb_spec (0 + k) (lenN (lote (esc n)))); [|lia]. apply acaba_ret. change (N.to_nat 0) with 0%nat. rewrite drop_0.
  set (out := take (N.to_nat k) (lote (esc n))). assert (lenN out = k) as Hout by (unfold out; rewrite lenN_take; lia).
  apply acaba_bind. unfold fuente_leer_desde. apply acaba_bind. eapply acaba_mono; [apply llegan_ok; [done|by eapply cabe_menos; [|exact Hc]]| |done].
  intros u n1 (h1 & Hq). apply acaba_anillo. pose proof (qu_anillos _ _ _ _ Hq) as Hr1.
  pose proof (cabe_len _ _ _ f (cabe_quieto _ _ _ _ _ Hq Hc)) as Hlen.
  rewrite (leer_desde_ok _ (cap_pos f) (cap_max f) c out (h1 f) (anillo n1 f) (Hr1 f)) by (rewrite Hout; lia).
  set (c' := desde_cursor (capacidad f) (h1 f) c). set (bs := take (length out) (drop (N.to_nat c') (h1 f))).
  apply acaba_bind. unfold acaba at 1. cbn [modify]. apply acaba_ret. cbn [fst snd].
  destruct (qu_crece _ _ _ _ Hq f) as [ext Hext]. assert (c <= lenN (h1 f)) as Hcu1 by (rewrite Hext, lenN_app; lia).
  set (m := lenN (h1 f) - N.min (capacidad f) (lenN (h1 f))) in *. assert (c' = c + (m - c)) as Hc' by (unfold c', desde_cursor; fold m; lia).
  assert (length bs <= length out)%nat as Hbl by (unfold bs; rewrite length_take; lia).
  exists h1, ((bs ++ drop (length bs) out) ++ drop (N.to_nat k) (lote (esc n1))). cbn [copiados perdidos cursor]. change (olvidado f (h1 f)) with m. fold m.
  assert (esc n1 = esc n) as Eesc by apply (qu_esc _ _ _ _ Hq).
  assert (quieto h1 n1 h1 (set_anillo f (anillo n1 f) n1)) as Hq1 by (by apply quieto_lee).
  split_and!.
  - apply (qu_crece _ _ _ _ Hq).
  - exact (qu_anillos _ _ _ _ Hq1).
  - exact (qu_disco _ _ _ _ Hq).
  - intros g. exact (qu_total _ _ _ _ Hq g).
  - cbn. by rewrite Eesc.
  - rewrite Eesc, !lenN_app, lenN_drop. replace (lenN (drop (length bs) out)) with (lenN out - lenN bs) by (unfold lenN; rewrite length_drop; lia).
    unfold lenN in *. lia.
  - lia.
  - unfold bs. unfold lenN at 1. rewrite length_take, length_drop. unfold lenN in *. lia.
  - done.
  - unfold lenN in *. lia.
  - rewrite <- Hc'. assert (bs = take (N.to_nat (lenN bs)) (drop (N.to_nat c') (h1 f))) as <-.
    { unfold bs at 1, lenN. rewrite Nat2N.id. unfold bs. rewrite length_take. rewrite <- take_take. f_equal. symmetry. apply take_ge. lia. }
    rewrite <- app_assoc. by apply slice_head.
Qed.
End Pasada.

(** ** What a flow has made durable

    [persistido h c l m P]: [P] is what was written of the history [h] up to
    [c]: batches of [h] in order, each next to the previous one but for [l]
    bytes lost in all, and a batch that does not come next to the previous one
    right after a mark with exactly how many are missing between them. When a
    batch cannot be written its mark is left alone, and the next attempt
    writes one more: [m] is the number of the last such mark, or 0. Those
    numbers never go down, and the batch that is written at last starts no
    earlier than the last of them says. A boot header may come at any time. *)
Definition marca (d : N) : list byte := if 0 <? d then texto_de (marca_perdida (zeros 96) d) else [].
Inductive persistido (h : list byte) : N -> N -> N -> list byte -> Prop :=
| pe_nada : persistido h 0 0 0 []
| pe_lote c l m P d k : persistido h c l m P -> m <= d -> c + d + k <= lenN h ->
    persistido h (c + d + k) (l + d) 0 (P ++ marca d ++ take (N.to_nat k) (drop (N.to_nat (c + d)) h))
| pe_marca c l m P d : persistido h c l m P -> m <= d -> c + d <= lenN h -> persistido h c l d (P ++ marca d)
| pe_cabecera c l m P v : persistido h c l m P -> persistido h c l m (P ++ texto_de (cabecera (zeros 192) v)).

Lemma persistido_le h c l m P : persistido h c l m P -> c + m <= lenN h ∧ l <= c.
Proof. induction 1; lia. Qed.
Lemma persistido_crece h k c l m P : persistido h c l m P -> persistido (h ++ k) c l m P.
Proof.
  induction 1 as [|c l m P d j Hp IH Hm Hl|c l m P d Hp IH Hm Hl|c l m P v Hp IH]; [constructor| | |by constructor].
  - assert (take (N.to_nat j) (drop (N.to_nat (c + d)) h) = take (N.to_nat j) (drop (N.to_nat (c + d)) (h ++ k))) as ->.
    { rewrite drop_app_le by (unfold lenN in *; lia). rewrite take_app_le; [done|]. rewrite length_drop. unfold lenN in *. lia. }
    eapply pe_lote; [exact IH|exact Hm|]. rewrite lenN_app. lia.
  - eapply pe_marca; [exact IH|exact Hm|]. rewrite lenN_app. lia.
Qed.
