(* ===== verification/LogPasada.v ===== *)
(** * Logs: passes, whatever fails

    The state of the writer and of the rings is kept by any pass of any flow,
    whatever arrives while it runs and whatever the file system refuses. *)
From S2P Require Import Prelude Texto LogRing LogFlujo LogFs LogFiel.
Local Open Scope N_scope.
#[local] Set Default Proof Using "Type*".

Definition MARGEN : N := 2 ^ 17.
(** Room in the counters of a flow for [k] passes more. *)
Record margen (k : N) (f : Flujo) : Prop := {
  mg_activo : activo_bytes f + (k + 1) * MARGEN < U64;
  mg_escritos : fl_escritos f + (k + 1) * MARGEN < U64;
  mg_descartados : descartados f + (k + 1) * MARGEN < U64;
  mg_fallos : fallos_totales f + k < U32;
  mg_seguidos : fallos_seguidos f < MAX_FALLOS;
}.
Lemma margen_menos k f : margen (k + 1) f -> margen k f.
Proof. intros []. assert (0 < MARGEN) by done. constructor; try lia; nia. Qed.

Lemma sufijo_tras {A} (L x y q t : list A) : L ++ x = y ++ t -> y `suffix_of` q -> x `suffix_of` q ++ t.
Proof. intros E [z ->]. exists (z ++ L). by rewrite <- !app_assoc, E. Qed.

Section Pasadas.
Context {T : Type} `{VfsSpec T}.
Implicit Types n : Nucleo T.

(** A flow that was opened: what it has made durable, and where it is. A mark
    left alone says no more than what the ring has lost by now. *)
Definition canal_ok (h : Historia) (s : T) (d : N) (pre : list byte) (c : Canal) : Prop :=
  let nm := nombre (flujo c) in
  NoDup (nombres nm) ∧ ruta_en nm 0 = nm ∧
  (estado (flujo c) ≠ Inactivo -> exists P m, persistido (h (fuente c)) (fl_cursor (flujo c)) (fl_perdidos (flujo c)) m P ∧
     m <= olvidado (fuente c) (h (fuente c)) - fl_cursor (flujo c) ∧ al_final d s nm (ino c) ∧ historial d s nm `suffix_of` pre ++ P).

Record estado_ok (k : N) (h : Historia) (pre : nat -> list byte) n : Prop := {
  eo_anillos : anillos_ok h n;
  eo_dir : dir_ok (dir (esc n)) (disco n);
  eo_lote : lenN (lote (esc n)) = LOTE_MAX;
  eo_tres : length (canales (esc n)) = 3%nat;
  eo_cabe : cabe_ h n (LOTE_MAX + 96 * k);
  eo_canales : forall i c, canales (esc n) !! i = Some c -> canal_ok h (disco n) (dir (esc n)) (pre i) c ∧ margen k (flujo c);
  eo_ajenos : forall i j c c', canales (esc n) !! i = Some c -> canales (esc n) !! j = Some c' -> i ≠ j ->
    forall x, x ∈ nombres (nombre (flujo c)) -> x ∉ nombres (nombre (flujo c'));
}.

Lemma canal_ok_crece h h' s d pre c : crece h h' -> canal_ok h s d pre c -> canal_ok h' s d pre c.
Proof.
  intros Hcr (H1 & H2 & H3). split_and!; [done..|]. intros He. destruct (H3 He) as (P & m & Hp & Hm & ?). exists P, m.
  pose proof (olvidado_crece (fuente c) h h' Hcr). split_and!; [|lia|tauto..]. destruct (Hcr (fuente c)) as [x ->]. by apply persistido_crece.
Qed.

(** One flow changes; the others are as they were. *)
Lemma estado_cambio k h h' pre n n' idx c c' : estado_ok (k + 1) h pre n -> canales (esc n) !! idx = Some c ->
  crece h h' -> anillos_ok h' n' -> cabe_ h' n' (LOTE_MAX + 96 * k) -> dir (esc n') = dir (esc n) -> lenN (lote (esc n')) = LOTE_MAX ->
  canales (esc n') = <[idx := c']> (canales (esc n)) -> nombre (flujo c') = nombre (flujo c) ->
  dir_ok (dir (esc n)) (disco n') -> toca (dir (esc n)) (nombres (nombre (flujo c))) (disco n) (disco n') ->
  canal_ok h' (disco n') (dir (esc n)) (pre idx) c' -> margen k (flujo c') -> estado_ok k h' pre n'.
Proof.
  intros [E1 E2 E3 E0 E4 E5 E6] Hc Hcr Ha Hca Hd Hl Hcs Hnm Hdk Ht Hok Hmg. rewrite <- Hnm in Ht.
  assert (forall j x, canales (esc n') !! j = Some x -> j = idx ∧ x = c' ∨ j ≠ idx ∧ canales (esc n) !! j = Some x) as Hinv.
  { intros j x. rewrite Hcs. destruct (decide (j = idx)) as [->|Hne]; [|rewrite list_lookup_insert_ne by done; tauto].
    rewrite list_lookup_insert_eq by (by eapply lookup_lt_Some). intros [= <-]. by left. }
  constructor; [done|by rewrite Hd|done|by rewrite Hcs, length_insert|done| |].
  - intros j x [[-> ->]|[Hne Hj]]%Hinv; rewrite Hd; [by split|]. destruct (E5 j x Hj) as [Hx Hm]. split; [|by apply margen_menos].
    apply (canal_ok_crece h h') in Hx; [|done]. destruct Hx as (X1 & X2 & X3). split_and!; [done..|]. intros He.
    destruct (X3 He) as (P & m & Hp & Hm' & Hf & Hh). exists P, m. rewrite Hnm in Ht.
    assert (forall y, y ∈ nombres (nombre (flujo x)) -> y ∉ nombres (nombre (flujo c))) as Haj by (apply (E6 j idx); done).
    split_and!; [exact Hp|exact Hm'|exact (al_final_toca _ _ _ _ _ _ E2 Ht Haj Hf)|]. by rewrite (historial_toca _ _ _ _ _ E2 Ht Haj).
  - intros i j a b [[-> ->]|[Hni Hi]]%Hinv [[-> ->]|[Hnj Hj]]%Hinv Hne; rewrite ?Hnm.
    + done.
    + exact (E6 idx j c b Hc Hj Hne).
    + exact (E6 i idx a c Hi Hc Hne).
    + exact (E6 i j a b Hi Hj Hne).
Qed.

Lemma planificar_ok {X E} f e m (x : X) : activo_bytes f + LOTE_MAX < U64 ->
  acaba (X := X) (E := E) (planificar f e m) x (fun t y => y = x ∧ forall tr, t = Some tr -> t_bytes tr <= LOTE_MAX ∧
    (t_accion tr = RotarYAnexar -> MAX_ACTIVO < activo_bytes f + LOTE_MAX)) (fun _ => False).
Proof.
  intros Hf. unfold planificar. set (p := e - _). set (mp := m - _). destruct (_ && _); [by apply acaba_ret|].
  apply acaba_bind. unfold decidir. destruct (activo_bytes f =? 0).
  - apply acaba_ret, acaba_ret. split; [done|]. intros tr [= <-]. split; [cbn; lia|done].
  - apply acaba_bind, acaba_add64; [lia|]. apply acaba_ret, acaba_ret. split; [done|]. intros tr [= <-]. cbn [t_bytes t_accion].
    split; [lia|]. destruct (N.leb_spec (activo_bytes f + N.min p LOTE_MAX) MAX_ACTIVO); [done|lia].
Qed.

Lemma marca_length d : lenN (marca d) <= 96.
Proof.
  unfold marca. case_match; [|rewrite lenN_nil; lia].
  destruct (escribe_nuevo (zeros 96) [txt "=== se perdieron "; dec d; txt " bytes por sobrescritura del ring ==="; [LF]]) as [E _].
  unfold marca_perdida. rewrite E. unfold lenN. rewrite length_take. unfold zeros. rewrite length_replicate. lia.
Qed.
Lemma aviso_length nm x : lenN (texto_de (marca_fallo (zeros 96) nm x)) <= 96.
Proof.
  destruct (escribe_nuevo (zeros 96) [txt "logfs: "; nm; txt ": escritura fallida ("; dec x; txt " seguidos)"; [LF]]) as [E _].
  unfold marca_fallo. rewrite E. unfold lenN. rewrite length_take. unfold zeros. rewrite length_replicate. lia.
Qed.

Lemma exito_ok {X E} k f l e roto (x : X) : margen (k + 1) f -> e <= LOTE_MAX + 96 -> fl_perdidos f + perdidos l < U64 ->
  acaba (X := X) (E := E) (exito f l e roto) x (fun f' y => y = x ∧ margen k f' ∧ nombre f' = nombre f ∧ estado f' = Activo ∧
    fl_cursor f' = cursor l ∧ fl_perdidos f' = fl_perdidos f + perdidos l) (fun _ => False).
Proof.
  intros [M1 M2 M3 M4 M5] He Hp. assert (LOTE_MAX + 96 < MARGEN) as Hlm by done. assert (0 < MARGEN) as Hm0 by done.
  assert ((k + 1 + 1) * MARGEN = (k + 1) * MARGEN + MARGEN) as Hk by lia. rewrite Hk in *.
  unfold exito. apply acaba_bind, acaba_add64; [done|]. apply acaba_bind.
  assert (forall a, a <= activo_bytes f + e -> acaba (X := X) (E := E) (e0 ← add64 (fl_escritos f) e;
    mret (mkFlujo (nombre f) Activo (cursor l) (fl_perdidos f + perdidos l) a e0 0 (fallos_totales f) (descartados f))) x
    (fun f' y => y = x ∧ margen k f' ∧ nombre f' = nombre f ∧ estado f' = Activo ∧
    fl_cursor f' = cursor l ∧ fl_perdidos f' = fl_perdidos f + perdidos l) (fun _ => False)) as Hg.
  { intros a Ha. apply acaba_bind, acaba_add64; [lia|]. apply acaba_ret. split_and!; [done| |done..]. constructor; cbn; lia. }
  destruct roto; [apply acaba_ret, Hg; lia|apply acaba_add64; [lia|apply Hg; lia]].
Qed.

Lemma fallo_ok {X E} k f ahora e (x : X) : margen (k + 1) f -> e <= LOTE_MAX + 96 ->
  acaba (X := X) (E := E) (fallo f ahora e) x (fun f' y => y = x ∧ margen k f' ∧ nombre f' = nombre f ∧
    fl_cursor f' = fl_cursor f ∧ fl_perdidos f' = fl_perdidos f ∧ (estado f ≠ Inactivo -> estado f' ≠ Inactivo)) (fun _ => False).
Proof.
  intros [M1 M2 M3 M4 M5] He. assert (LOTE_MAX + 96 < MARGEN) as Hlm by done. assert (MAX_FALLOS = 3) as H3 by done. assert (U32 = 4294967296) as H32 by done.
  assert ((k + 1 + 1) * MARGEN = (k + 1) * MARGEN + MARGEN) as Hk by lia. rewrite Hk in *.
  unfold fallo, add32. apply acaba_bind. destruct (N.ltb_spec (fallos_seguidos f + 1) U32); [|lia]. apply acaba_ret, acaba_bind.
  destruct (N.ltb_spec (fallos_totales f + 1) U32); [|lia]. apply acaba_ret, acaba_bind, acaba_add64; [lia|]. apply acaba_ret.
  split; [done|]. destruct (N.leb_spec MAX_FALLOS (fallos_seguidos f + 1)); (split; [constructor; cbn; lia|]); by split_and!.
Qed.

(** The history of a flow gains at its end, and loses its oldest file at
    most, when the active one was about to be full. *)
Definition retiene (idx : nat) n n' : Prop := forall c, canales (esc n) !! idx = Some c ->
  let h := historial (dir (esc n)) in let nm := nombre (flujo c) in
  exists L Tx, L ++ h (disco n') nm = h (disco n) nm ++ Tx ∧
    (L = [] ∨ MAX_ACTIVO < activo_bytes (flujo c) + LOTE_MAX ∧ L = leer (dir (esc n)) (disco n) (ruta_en nm 3)).
Lemma retiene_disco idx n n' : disco n' = disco n -> retiene idx n n'.
Proof. intros E c Hc. cbv zeta. exists [], []. rewrite E, app_nil_r. split; [done|by left]. Qed.

(** A pass that changed nothing but what the rings hold and the buffer. *)
Lemma estado_quieto k h h' pre n n' : estado_ok (k + 1) h pre n -> crece h h' -> anillos_ok h' n' -> disco n' = disco n ->
  (forall g, total h' n' g = total h n g) -> dir (esc n') = dir (esc n) -> canales (esc n') = canales (esc n) ->
  lenN (lote (esc n')) = LOTE_MAX -> estado_ok k h' pre n'.
Proof.
  intros [E1 E2 E3 E0 E4 E5 E6] Hcr Ha Hd Ht Hdir Hcs Hl. constructor; rewrite ?Hd, ?Hdir, ?Hcs; try done.
  - intros f. rewrite Ht. specialize (E4 f). lia.
  - intros i c Hc. destruct (E5 i c Hc) as [Hok Hm]. split; [by eapply canal_ok_crece|by apply margen_menos].
Qed.

Lemma imprime_ok aviso h n : anillos_ok h n -> cabe_ h n 96 -> lenN aviso <= 96 ->
  acaba (imprime aviso) n (fun _ n' => exists h', crece h h' ∧ anillos_ok h' n' ∧ disco n' = disco n ∧ esc n' = esc n ∧
    forall g, total h' n' g <= total h n g + 96) (fun _ => False).
Proof.
  intros Hr Hc Ha. unfold imprime. destruct (utf8_valid aviso); [|apply acaba_ret; exists h; split_and!; [apply crece_refl|done..|intros; lia]].
  apply (append_anillo_ok Kernel aviso h n); [done|pose proof (cabe_len _ _ _ Kernel Hc); lia|].
  intros n' Hr' Hl Hd He. exists (anade h Kernel aviso). split_and!; [apply crece_anade|done..|].
  intros g. unfold total, anade. rewrite Hl. case_decide; rewrite ?lenN_app; lia.
Qed.

Lemma persistido_perdidos h n c P l m f : anillos_ok h n -> cabe_ h n 0 -> persistido (h f) c l m P -> l < U64.
Proof. intros Hr Hc Hp. pose proof (cabe_len _ _ _ f Hc). apply persistido_le in Hp. lia. Qed.

(** What is left after a write that went well. *)
Lemma pasada_exito k h h' pre n n4 n5 idx c i P m l f' L (HL : L = [] ∨ MAX_ACTIVO < activo_bytes (flujo c) + LOTE_MAX ∧ L = leer (dir (esc n)) (disco n) (ruta_en (nombre (flujo c)) 3)) :
  estado_ok (k + 1) h pre n -> canales (esc n) !! idx = Some c -> estado (flujo c) ≠ Inactivo ->
  persistido (h (fuente c)) (fl_cursor (flujo c)) (fl_perdidos (flujo c)) m P -> m <= perdidos l ->
  historial (dir (esc n)) (disco n) (nombre (flujo c)) `suffix_of` pre idx ++ P ->
  crece h h' -> anillos_ok h' n4 -> (forall g, total h' n4 g = total h n g) ->
  esc n4 = mkEscritor_ (dir (esc n)) (canales (esc n)) (lote (esc n4)) -> lenN (lote (esc n4)) = LOTE_MAX ->
  cursor l = fl_cursor (flujo c) + perdidos l + copiados l -> cursor l <= lenN (h' (fuente c)) ->
  solo_canal idx (con_ino c i) n4 n5 ->
  va (dir (esc n)) (nombre (flujo c)) (disco n) i L
    (historial (dir (esc n)) (disco n) (nombre (flujo c)) ++ marca (perdidos l) ++ take (N.to_nat (copiados l)) (drop (N.to_nat (fl_cursor (flujo c) + perdidos l)) (h' (fuente c)))) (disco n5) ->
  margen k f' -> nombre f' = nombre (flujo c) -> fl_cursor f' = cursor l -> fl_perdidos f' = fl_perdidos (flujo c) + perdidos l ->
  acaba (set_flujo idx f') n5 (fun _ n6 => retiene idx n n6 ∧ exists h', crece h h' ∧ estado_ok k h' pre n6) (fun _ => False).
Proof.
  intros Heo Hc Hact Hp Hmp Hhist Hcr Ha Ht He Hl Hcu Hle [S1 S2 S3 S4 S5] [V1 V2 V3 V4] Hm Hn Hfc Hfp.
  rewrite He in S3, S4, S5. cbn [dir canales lote] in S3, S4, S5.
  assert (canales (esc n5) !! idx = Some (con_ino c i)) as Hc5 by (rewrite S4; apply list_lookup_insert_eq; by eapply lookup_lt_Some).
  unfold set_flujo. apply acaba_bind, (acaba_canal idx _ _ _ _ Hc5), acaba_set_canal. split; [intros c0 Hc0; simplify_eq; cbv zeta; exists L; eexists; split; [exact V3|exact HL]|]. exists h'. split; [done|].
  apply (estado_cambio k h h' pre n _ idx c (mkCanal (fuente c) f' i)); cbn [esc dir lote canales set_esc disco flujo ino fuente con_ino]; try done.
  - intros f. cbn [anillo set_esc]. rewrite S1. apply Ha.
  - intros f. assert (total h' n5 f = total h n f) as E5 by (unfold total at 1; rewrite S2; apply Ht).
    pose proof (eo_cabe _ _ _ _ Heo f) as Hcf. rewrite <- E5 in Hcf. unfold total in Hcf |- *. cbn [llegadas set_esc]. lia.
  - by rewrite S5.
  - rewrite S4. by rewrite list_insert_insert_eq.
  - pose proof (eo_canales _ _ _ _ Heo idx c Hc) as [(X1 & X2 & _) _]. unfold canal_ok. cbn. rewrite Hn. split_and!; [done..|]. intros _.
    exists (P ++ marca (perdidos l) ++ take (N.to_nat (copiados l)) (drop (N.to_nat (fl_cursor (flujo c) + perdidos l)) (h' (fuente c)))).
    exists 0. split_and!; [|lia|done|rewrite app_assoc; eapply sufijo_tras; [exact V3|exact Hhist]].
    rewrite Hfc, Hfp, Hcu. eapply pe_lote; [|exact Hmp|lia]. destruct (Hcr (fuente c)) as [x ->]. by apply persistido_crece.
Qed.

(** What is left after a write that failed: at most the mark was written. *)
Lemma pasada_fallo k h h' pre n n4 n5 idx c i P m l f' Tm L (HL : L = [] ∨ MAX_ACTIVO < activo_bytes (flujo c) + LOTE_MAX ∧ L = leer (dir (esc n)) (disco n) (ruta_en (nombre (flujo c)) 3)) :
  estado_ok (k + 1) h pre n -> canales (esc n) !! idx = Some c -> estado (flujo c) ≠ Inactivo ->
  persistido (h (fuente c)) (fl_cursor (flujo c)) (fl_perdidos (flujo c)) m P -> m <= perdidos l ->
  historial (dir (esc n)) (disco n) (nombre (flujo c)) `suffix_of` pre idx ++ P ->
  perdidos l = olvidado (fuente c) (h' (fuente c)) - fl_cursor (flujo c) -> fl_cursor (flujo c) + perdidos l <= lenN (h' (fuente c)) ->
  crece h h' -> anillos_ok h' n4 -> (forall g, total h' n4 g = total h n g) ->
  esc n4 = mkEscritor_ (dir (esc n)) (canales (esc n)) (lote (esc n4)) -> lenN (lote (esc n4)) = LOTE_MAX ->
  solo_canal idx (con_ino c i) n4 n5 -> (Tm = [] ∨ Tm = marca (perdidos l)) ->
  va (dir (esc n)) (nombre (flujo c)) (disco n) i L (historial (dir (esc n)) (disco n) (nombre (flujo c)) ++ Tm) (disco n5) ->
  margen k f' -> nombre f' = nombre (flujo c) -> fl_cursor f' = fl_cursor (flujo c) -> fl_perdidos f' = fl_perdidos (flujo c) ->
  acaba (set_flujo idx f';; imprime (texto_de (marca_fallo (zeros 96) (nombre f') (fallos_totales f')));; mret false) n5
    (fun _ n6 => retiene idx n n6 ∧ exists h', crece h h' ∧ estado_ok k h' pre n6) (fun _ => False).
Proof.
  intros Heo Hc Hact Hp Hmp Hhist Hpl Hcp Hcr Ha Ht He Hl [S1 S2 S3 S4 S5] HTm [V1 V2 V3 V4] Hm Hn Hfc Hfp.
  rewrite He in S3, S4, S5. cbn [dir canales lote] in S3, S4, S5.
  assert (canales (esc n5) !! idx = Some (con_ino c i)) as Hc5 by (rewrite S4; apply list_lookup_insert_eq; by eapply lookup_lt_Some).
  unfold set_flujo. apply acaba_bind, acaba_bind, (acaba_canal idx _ _ _ _ Hc5), acaba_set_canal, acaba_bind.
  set (n6 := set_esc _ n5).
  assert (forall g, total h' n6 g = total h n g) as Ht6.
  { intros g. assert (total h' n5 g = total h n g) as E5 by (unfold total at 1; rewrite S2; apply Ht). exact E5. }
  eapply acaba_mono; [apply (imprime_ok _ h' n6)| |done].
  - intros f. change (anillo n6 f) with (anillo n5 f). rewrite S1. apply Ha.
  - intros f. rewrite Ht6. pose proof (eo_cabe _ _ _ _ Heo f). lia.
  - apply aviso_length.
  - intros u n7 (h7 & Hcr7 & Ha7 & Hd7 & He7 & Ht7). apply acaba_ret. assert (crece h h7) as Hcr' by (by eapply crece_trans).
    split; [intros c0 Hc0; simplify_eq; cbv zeta; exists L, Tm; rewrite Hd7; split; [exact V3|exact HL]|].
    exists h7. split; [done|].
    apply (estado_cambio k h h7 pre n _ idx c (mkCanal (fuente c) f' i)); rewrite ?Hd7, ?He7;
      unfold n6; cbn [esc dir lote canales set_esc disco flujo ino fuente con_ino]; try done.
    + intros f. specialize (Ht7 f). rewrite Ht6 in Ht7. pose proof (eo_cabe _ _ _ _ Heo f). lia.
    + by rewrite S5.
    + rewrite S4. by rewrite list_insert_insert_eq.
    + pose proof (eo_canales _ _ _ _ Heo idx c Hc) as [(X1 & X2 & _) _]. unfold canal_ok. cbn. rewrite Hn. split_and!; [done..|]. intros _.
      pose proof (olvidado_crece (fuente c) h' h7 Hcr7) as Hol. rewrite Hfc, Hfp.
      assert (exists m', persistido (h7 (fuente c)) (fl_cursor (flujo c)) (fl_perdidos (flujo c)) m' (P ++ Tm) ∧ m' <= perdidos l) as (m' & Hp' & Hm').
      { destruct HTm as [->| ->].
        - exists m. rewrite app_nil_r. destruct (Hcr' (fuente c)) as [x ->]. split; [by apply persistido_crece|done].
        - exists (perdidos l). split; [|done]. destruct (Hcr7 (fuente c)) as [x ->]. apply persistido_crece. eapply pe_marca; [|exact Hmp|exact Hcp].
          destruct (Hcr (fuente c)) as [y ->]. by apply persistido_crece. }
      exists (P ++ Tm), m'. split_and!; [exact Hp'|lia|done|rewrite app_assoc; eapply sufijo_tras; [exact V3|exact Hhist]].
Qed.

Lemma pasada_ok k h pre n idx ahora : estado_ok (k + 1) h pre n -> (idx < length (canales (esc n)))%nat ->
  acaba (pasada_canal idx ahora) n (fun _ n' => retiene idx n n' ∧ exists h', crece h h' ∧ estado_ok k h' pre n') (fun _ => False).
Proof.
  intros Heo Hidx. destruct (lookup_lt_is_Some_2 _ _ Hidx) as [c Hc]. pose proof (eo_canales _ _ _ _ Heo idx c Hc) as [(X1 & X2 & X3) Hmg].
  unfold pasada_canal. apply acaba_bind, (acaba_canal idx _ _ _ _ Hc).
  destruct (disponible (flujo c) ahora) eqn:Hdis; cbn [negb].
  2: { apply acaba_ret. split; [by apply retiene_disco|]. exists h. split; [apply crece_refl|]. apply (estado_quieto k h h pre n n Heo); try done; [apply crece_refl|apply Heo|apply Heo]. }
  assert (estado (flujo c) ≠ Inactivo) as Hact by (intros E; unfold disponible in Hdis; by rewrite E in Hdis).
  destruct (X3 Hact) as (P & m & Hp & Hm & Hfin & Hhist).
  pose proof (eo_anillos _ _ _ _ Heo) as Ha. pose proof (eo_cabe _ _ _ _ Heo) as Hca.
  assert (cabe_ h n LOTE_MAX) as Hca1 by (eapply cabe_menos; [|exact Hca]; lia).
  apply acaba_bind. assert (cabe_ h n 0) as Hca0 by (eapply cabe_menos; [|exact Hca1]; apply N.le_0_l).
  eapply acaba_mono; [exact (fuente_escritos_ok (fuente c) h n Ha Hca0)| |done].
  intros es n1 (h1 & Hq1 & _). apply acaba_bind.
  eapply acaba_mono; [exact (fuente_minimo_ok (fuente c) h1 n1 (qu_anillos _ _ _ _ Hq1) (cabe_quieto _ _ _ _ _ Hq1 Hca0))| |done].
  intros mn n2 (h2 & Hq2' & _). pose proof (quieto_trans _ _ _ _ _ _ Hq1 Hq2') as Hq2. apply acaba_bind.
  assert (activo_bytes (flujo c) + LOTE_MAX < U64) as Hab.
  { destruct Hmg as [M1 _ _ _ _]. assert (LOTE_MAX < MARGEN) by done. nia. }
  eapply acaba_mono; [by apply (planificar_ok (flujo c) es mn n2)| |done]. intros t y [-> Htb].
  assert (disco n2 = disco n ∧ esc n2 = esc n) as [Ed2 Ee2] by (split; apply Hq2).
  destruct t as [t|].
  2: { apply acaba_ret. split; [by apply retiene_disco|]. exists h2. split; [apply Hq2|]. apply (estado_quieto k h h2 pre n n2 Heo); try apply Hq2; by rewrite Ee2; try apply Heo. }
  destruct (Htb t eq_refl) as [Htb' Hrot]. clear Htb. rename Htb' into Htb. apply acaba_bind.
  assert (fl_cursor (flujo c) <= lenN (h2 (fuente c))) as Hcur.
  { destruct (qu_crece _ _ _ _ Hq2 (fuente c)) as [x ->]. rewrite lenN_app. apply persistido_le in Hp. lia. }
  eapply acaba_mono; [apply (leer_lote_ok (fuente c) _ (t_bytes t) h2 n2); try done;
    [apply Hq2|by eapply cabe_quieto|rewrite Ee2; apply Heo]| |done].
  intros l n4 (h4 & lo & Hcr4 & Ha4 & Ed4 & Ht4 & Ee4 & Hlo & Hcu & Hle & Hpl & Hck & Hsl).
  fold (marca (perdidos l)). assert (crece h h4) as Hcr by (eapply crece_trans; [apply Hq2|done]).
  assert (forall g, total h4 n4 g = total h n g) as Ht by (intros g; by rewrite Ht4, (qu_total _ _ _ _ Hq2)).
  assert (esc n4 = mkEscritor_ (dir (esc n)) (canales (esc n)) (lote (esc n4))) as Ee by (by rewrite Ee4, Ee2).
  assert (dir (esc n4) = dir (esc n) ∧ canales (esc n4) = canales (esc n)) as [Edir Ecan] by (by rewrite Ee4, Ee2).
  assert (lenN (lote (esc n4)) = LOTE_MAX) as Hlo4 by (by rewrite Ee4).
  assert (m <= perdidos l) as Hmp by (pose proof (olvidado_crece (fuente c) h h4 Hcr); lia).
  pose proof (marca_length (perdidos l)) as Hml.
  assert (LOTE_MAX + 96 < U64) as Hlim by done.
  apply acaba_bind, acaba_add64; [lia|]. destruct (lenN (marca (perdidos l)) + copiados l =? 0).
  { apply acaba_ret. split; [apply retiene_disco; by rewrite Ed4|]. exists h4. split; [done|]. apply (estado_quieto k h h4 pre n n4 Heo); try done. by rewrite Ed4. }
  apply acaba_bind, acaba_attempt with (Ψ := fun _ => False).
  assert (canales (esc n4) !! idx = Some c) as Hc4 by (by rewrite Ecan).
  assert (forall L, (L = [] ∨ match t_accion t with RotarYAnexar => true | Anexar => false end = true ∧ L = leer (dir (esc n)) (disco n) (ruta_en (nombre (flujo c)) 3)) ->
    L = [] ∨ MAX_ACTIVO < activo_bytes (flujo c) + LOTE_MAX ∧ L = leer (dir (esc n)) (disco n) (ruta_en (nombre (flujo c)) 3)) as Hlost.
  { intros L [->|[Hr ->]]; [by left|right]. split; [|done]. apply Hrot. by destruct (t_accion t). }
  assert (forall n5 i, solo_canal idx (con_ino c i) n4 n5 -> canales (esc n5) !! idx = Some (con_ino c i)) as Hc5.
  { intros n5 i S. rewrite (sc_canales _ _ _ _ S). apply list_lookup_insert_eq. by eapply lookup_lt_Some. }
  eapply acaba_mono; [eapply (escribir_lote_ok idx c n4 (disco n) (historial (dir (esc n)) (disco n) (nombre (flujo c)))); try done| |].
  - by rewrite Ee4.
  - rewrite Edir, Ed4, Ed2. constructor; [apply Heo|done|done|apply toca_refl].
  - intros u n5 (i & L & HL & S & V). rewrite Edir, Ed4, Ed2 in HL. apply Hlost in HL. apply acaba_bind, (acaba_canal idx _ _ _ _ (Hc5 n5 i S)). apply acaba_bind. cbn [flujo con_ino].
    eapply acaba_mono; [apply (exito_ok k); [done|lia|]| |done].
    { pose proof (cabe_len _ _ _ (fuente c) Hca1). apply persistido_le in Hp. pose proof (cabe_len h4 n4 0 (fuente c)) as Hc40.
      assert (lenN (h4 (fuente c)) < U64) by (rewrite <- (N.add_0_r (lenN _)); apply Hc40; intros g; rewrite Ht; pose proof (Hca1 g); lia). lia. }
    intros f' y (-> & Hm' & Hn' & He' & Hcu' & Hpe'). apply acaba_bind.
    rewrite Edir in V.
    eapply acaba_mono; [by eapply (pasada_exito k h h4 pre n n4 n5 idx c i P m l f' L HL)| |done].
    intros u' n6 Hres. by apply acaba_ret.
  - intros n5 (i & L & HL & S & V). rewrite Edir, Ed4, Ed2 in HL. apply Hlost in HL. apply acaba_bind, (acaba_canal idx _ _ _ _ (Hc5 n5 i S)). apply acaba_bind. cbn [flujo con_ino].
    eapply acaba_mono; [apply (fallo_ok k (flujo c) ahora); [done|lia]| |done].
    intros f' y (-> & Hm' & Hn' & Hcu' & Hpe' & _). rewrite Edir in V.
    assert (exists Tm, (Tm = [] ∨ Tm = marca (perdidos l)) ∧ va (dir (esc n)) (nombre (flujo c)) (disco n) i L (historial (dir (esc n)) (disco n) (nombre (flujo c)) ++ Tm) (disco n5)) as (Tm & HTm & V').
    { destruct V as [V|V]; [exists []; rewrite app_nil_r; split; [by left|done]|exists (marca (perdidos l)); split; [by right|done]]. }
    eapply (pasada_fallo k h h4 pre n n4 n5 idx c i P m l f' Tm L HL); try done; lia.
Qed.

(** The header of a boot, in one flow. *)
Lemma cabecera_ok k h pre n idx version boot_id uptime fecha : estado_ok (k + 1) h pre n -> (idx < length (canales (esc n)))%nat ->
  acaba (cabecera_canal version boot_id uptime fecha idx) n (fun _ n' => estado_ok k h pre n') (fun _ => False).
Proof.
  intros Heo Hidx. destruct (lookup_lt_is_Some_2 _ _ Hidx) as [c Hc]. pose proof (eo_canales _ _ _ _ Heo idx c Hc) as [(X1 & X2 & X3) Hmg].
  assert (estado_ok k h pre n) as Hsame by (apply (estado_quieto k h h pre n n Heo); try done; [apply crece_refl|apply Heo|apply Heo]).
  unfold cabecera_canal. apply acaba_bind, (acaba_canal idx _ _ _ _ Hc). case_bool_decide as Hact; [by apply acaba_ret|].
  destruct (X3 Hact) as (P & m & Hp & Hm & Hfin & Hhist). set (v := mkCabecera _ _ _ _ _). set (txt_ := texto_de _).
  assert (lenN txt_ <= 192) as Hl.
  { unfold txt_, texto_de. rewrite lenN_take.
    assert (lenN (es_buf (cabecera (zeros 192) v)) = 192) as ->; [|lia].
    unfold cabecera. set (w0 := escribe (es_nuevo (zeros 192)) _).
    assert (forall w ps, es_pos w <= lenN (es_buf w) -> es_pos (escribe w ps) <= lenN (es_buf (escribe w ps)) ∧ lenN (es_buf (escribe w ps)) = lenN (es_buf w)) as He
      by (intros w ps Hw; destruct (escribe_ok ps w Hw) as (? & ? & _); by split).
    destruct (He (es_nuevo (zeros 192)) [txt "=== soso "; c_version v; txt " arranque "; hex16 (c_boot_id v); txt " flujo "; c_flujo v;
      txt " monotónico "; dec (c_uptime_ms v); txt "ms"]) as [H1 H2]; [cbn; lia|]. fold w0 in H1, H2.
    destruct (c_fecha v) as [f|].
    - destruct (He w0 [txt " fecha "; f] H1) as [H3 H4]. destruct (He _ [txt " ==="; [LF]] H3) as [_ ->]. rewrite H4, H2. apply lenN_zeros.
    - destruct (He w0 [txt " ==="; [LF]] H1) as [_ ->]. rewrite H2. apply lenN_zeros. }
  apply acaba_bind, acaba_gets, acaba_bind, acaba_attempt with (Ψ := fun _ => False), acaba_vfs.
  pose proof (va_append (dir (esc n)) (nombre (flujo c)) X1 (disco n) (ino c) [] (historial (dir (esc n)) (disco n) (nombre (flujo c))) (disco n) txt_ (wall_secs (disco n))) as Hva.
  destruct (vfs_append_file _ _ _ _) as [[u|[]| |] s']; [| |by apply Hva; constructor; [apply Heo|done|done|apply toca_refl]..].
  - destruct Hva as [V1 V2 V3 V4]; [constructor; [apply Heo|done|done|apply toca_refl]|].
    destruct Hmg as [M1 M2 M3 M4 M5]. assert (192 < MARGEN) as HM by done.
    assert ((k + 1 + 1) * MARGEN = (k + 1) * MARGEN + MARGEN) as Hk by lia. rewrite Hk in *.
    apply acaba_bind, acaba_add64; [lia|]. apply acaba_bind, acaba_add64; [lia|].
    unfold set_flujo. apply acaba_bind, (acaba_canal idx c); [done|]. apply acaba_set_canal.
    eapply (estado_cambio k h h pre n _ idx c); [done|done|apply crece_refl|apply Heo| |done|apply Heo|done|done|exact V1|exact V4| |].
    + intros f. pose proof (eo_cabe _ _ _ _ Heo f) as Hcf. unfold total in *. cbn [llegadas set_esc set_disco] in *. lia.
    + unfold canal_ok. cbn [flujo nombre estado fl_cursor fl_perdidos fuente ino]. split_and!; [done..|]. intros _.
      exists (P ++ txt_), m. split_and!; [by constructor|exact Hm|exact V2|rewrite app_assoc; eapply (sufijo_tras []); [exact V3|exact Hhist]].
    + constructor; cbn [flujo activo_bytes fl_escritos descartados fallos_totales fallos_seguidos]; lia.
  - destruct Hva as [V1 V2 V3 V4]; [constructor; [apply Heo|done|done|apply toca_refl]|]. apply acaba_ret.
    eapply (estado_cambio k h h pre n _ idx c c); [done|done|apply crece_refl|apply Heo| |done|apply Heo| |done|exact V1|exact V4| |by apply margen_menos].
    + intros f. pose proof (eo_cabe _ _ _ _ Heo f) as Hcf. unfold total in *. cbn [llegadas set_esc set_disco] in *. lia.
    + cbn. by rewrite list_insert_id.
    + unfold canal_ok. split_and!; [done..|]. intros _. exists P, m. cbn [app] in V3. split_and!; [done..|]. cbn [disco set_disco]. by rewrite V3.
Qed.

(** Any sequence of passes and headers. *)
Inductive Tarea := TPasada (idx : nat) (ahora : N) | TCabecera (idx : nat) (version : str) (boot_id uptime : N) (fecha : option str).
Definition canal_de (t : Tarea) : nat := match t with TPasada i _ | TCabecera i _ _ _ _ => i end.
Definition hace (t : Tarea) : M (Nucleo T) unit unit :=
  match t with
  | TPasada i ahora => pasada_canal i ahora;; mret tt
  | TCabecera i v b u f => cabecera_canal v b u f i
  end.

Lemma tareas_ok ts : forall k h pre n, estado_ok (k + lenN ts) h pre n -> Forall (fun t => canal_de t < 3)%nat ts ->
  acaba (mfor hace ts) n (fun _ n' => exists h', crece h h' ∧ estado_ok k h' pre n') (fun _ => False).
Proof.
  induction ts as [|t ts IH]; intros k h pre n Heo Hts; cbn [mfor].
  { apply acaba_ret. exists h. split; [apply crece_refl|]. change (lenN (@nil Tarea)) with 0 in Heo. by rewrite N.add_0_r in Heo. }
  rewrite lenN_cons, (N.add_comm 1), N.add_assoc in Heo. apply Forall_cons in Hts as [Ht Hts]. rewrite <- (eo_tres _ _ _ _ Heo) in Ht.
  assert (acaba (hace t) n (fun _ n' => exists h', crece h h' ∧ estado_ok (k + lenN ts) h' pre n') (fun _ => False)) as H1.
  { destruct t as [i a|i v b u f]; cbn [hace canal_de] in *.
    - apply acaba_bind. eapply acaba_mono; [by eapply pasada_ok| |done]. intros r n1 [_ Hr]. by apply acaba_ret.
    - eapply acaba_mono; [by eapply cabecera_ok| |done]. intros r n1 Hr. exists h. split; [apply crece_refl|done]. }
  apply acaba_bind. eapply acaba_mono; [exact H1| |done]. intros r n1 (h1 & Hcr & Heo1).
  eapply acaba_mono; [by apply (IH k h1 pre n1)| |done]. intros r' n2 (h2 & Hcr2 & Heo2). exists h2. split; [by eapply crece_trans|done].
Qed.
End Pasadas.
