(* ===== verification/LogTeoremas.v ===== *)
(** * Logs: what the logs guarantee

    The properties of the ring and of the writer, each with a concrete run
    where it has hypotheses. *)
From S2P Require Import Prelude Texto LogRing LogFlujo LogFs LogFiel LogPasada.
Local Open Scope N_scope.

(** ** The ring *)

(** C40. Whatever is appended to a new ring, and in how many pieces, a read from
    any cursor gives the history from there on, as much as fits; what was
    overwritten before is counted exactly and the read goes on at the oldest
    byte there is; the new cursor and what is pending are those of the
    history. *)
Theorem anillo_fiel CAP bss c out : 0 < CAP -> 4 * CAP < U64 -> lenN (concat bss) + lenN out < U64 ->
  let h := concat bss in
  let minimo := lenN h - N.min CAP (lenN h) in
  let c' := N.max minimo (N.min c (lenN h)) in
  let bs := take (length out) (drop (N.to_nat c') h) in
  exists r, mfor (E := unit) (append CAP) bss (ring_new CAP) = (Ok tt, r) ∧
    leer_desde CAP (E := unit) c out r =
      (Ok (mkLectura (lenN bs) (minimo - c) (c' + lenN bs) (lenN h - (c' + lenN bs)), bs ++ drop (length bs) out), r).
Proof.
  intros H0 H4 Hlim h minimo c' bs.
  assert (forall pre r, ring_de CAP pre r -> lenN pre + lenN (concat bss) < U64 ->
    exists r', mfor (E := unit) (append CAP) bss r = (Ok tt, r') ∧ ring_de CAP (pre ++ concat bss) r') as Hloop.
  { clear - H0 H4. induction bss as [|b bss IH]; intros pre r Hr Hl; cbn [mfor concat].
    - exists r. by rewrite app_nil_r.
    - cbn [concat] in Hl. rewrite lenN_app in Hl.
      destruct (append_ok CAP H0 H4 (E := unit) b pre r Hr) as (r1 & E1 & Hr1); [lia|].
      destruct (IH (pre ++ b) r1 Hr1) as (r2 & E2 & Hr2); [rewrite lenN_app; lia|].
      exists r2. rewrite (bind_run _ _ _ _ _ E1), E2, app_assoc. by split. }
  destruct (Hloop [] (ring_new CAP) (ring_new_de CAP H0 H4)) as (r & E & Hr); [rewrite lenN_nil; lia|].
  exists r. split; [exact E|]. by apply (leer_desde_ok CAP H0 H4).
Qed.

(** Blotting a secret out changes nothing but bytes into asterisks, keeps
    the length and the cursor, and leaves no occurrence of a secret that has
    no asterisk of its own. *)
Theorem tachado_completo CAP secreto r : 0 < CAP -> 4 * CAP < U64 -> ring_ok CAP r -> len r + lenN secreto < U64 ->
  exists r', tachar CAP (E := unit) secreto r = (Ok tt, r') ∧ ring_ok CAP r' ∧ escritos r' = escritos r ∧
    Forall2 (fun x y => y = x ∨ y = "*"%byte) (vivo CAP r) (vivo CAP r') ∧
    (secreto ≠ [] -> ("*"%byte ∉ secreto) -> forall a b, vivo CAP r' ≠ a ++ secreto ++ b).
Proof.
  intros H0 H4 Hr Hlim. destruct (tachar_ok CAP H0 H4 (E := unit) secreto r Hr Hlim) as (r' & E & Hr' & _ & He & Hv).
  exists r'. split_and!; [exact E|exact Hr'|exact He| |].
  - rewrite Hv. case_bool_decide; [by apply Forall2_same_length_lookup_2; [|intros i x y Hx Hy; left; congruence]|].
    apply tachado_bytes.
  - intros Hs Ha a b Heq. rewrite Hv, bool_decide_eq_false_2 in Heq by done. by apply (tachado_sin _ Hs Ha _ _ _ _ Heq).
Qed.

(** ** The writer *)

(** C39. Whatever arrives at the rings while the writer works, whatever writes the
    file system refuses (it may refuse any creation, append, removal or
    renaming, doing nothing; a search fails only when the name is not there)
    and whatever passes and headers are run, no pass panics. For every open
    flow, what was written is a faithful account of the history of its ring:
    its bytes in order and none twice, each batch next to the previous one or
    right after a mark with exactly the number of bytes missing between them.
    A batch that could not be written may leave its mark behind; the marks
    before the batch that is written at last never say less than the ones
    before, nor more than what it skips. The files of the flow, from the
    oldest to the active one, are the end of that account. *)
Theorem log_fiel `{VfsSpec T} ts h pre (n : Nucleo T) : estado_ok (lenN ts) h pre n -> Forall (fun t => canal_de t < 3)%nat ts ->
  exists n' h', mfor hace ts n = (Ok tt, n') ∧ crece h h' ∧ anillos_ok h' n' ∧
    forall i c, canales (esc n') !! i = Some c -> estado (flujo c) ≠ Inactivo ->
      exists P m, persistido (h' (fuente c)) (fl_cursor (flujo c)) (fl_perdidos (flujo c)) m P ∧
        historial (dir (esc n')) (disco n') (nombre (flujo c)) `suffix_of` pre i ++ P.
Proof.
  intros Heo Hts. pose proof (tareas_ok ts 0 h pre n Heo Hts) as Hok. unfold acaba in Hok.
  destruct (mfor hace ts n) as [[[]|e| |] n']; [|done..]. destruct Hok as (h' & Hcr & Heo').
  exists n', h'. split_and!; [done|done|apply Heo'|]. intros i c Hc Hact.
  destruct (eo_canales _ _ _ _ Heo' i c Hc) as [(_ & _ & X) _]. destruct (X Hact) as (P & m & Hp & _ & _ & Hh). by exists P, m.
Qed.

(** A pass only adds at the end of the history a flow has on disk, and it
    loses at most the oldest of its files, and that only when what the active
    one holds and one batch are more than its bound. *)
Theorem pasada_conserva `{VfsSpec T} k h pre (n : Nucleo T) idx ahora : estado_ok (k + 1) h pre n -> (idx < 3)%nat ->
  exists r n', pasada_canal idx ahora n = (Ok r, n') ∧ retiene idx n n' ∧ exists h', crece h h' ∧ estado_ok k h' pre n'.
Proof.
  intros Heo Hidx. rewrite <- (eo_tres _ _ _ _ Heo) in Hidx. pose proof (pasada_ok k h pre n idx ahora Heo Hidx) as Hok.
  unfold acaba in Hok. destruct (pasada_canal idx ahora n) as [[r|e| |] n']; [|done..]. exists r, n'. by split.
Qed.

(** ** A concrete disk *)
Record LogDisco := mkLogDisco { ld_nombres : gmap (N * str) N; ld_textos : gmap N (list byte); ld_sig : N }.

#[local] Instance LogDisco_Vfs : Vfs LogDisco := {|
  vfs_resolve _ := throw tt;
  vfs_lookup d n s := (match ld_nombres s !! (d, n) with Some i => Ok i | None => Err tt end, s);
  vfs_mkdir _ _ _ := throw tt;
  vfs_create_file d n x _ s :=
    let t := match ld_nombres s !! (d, n) with Some i => delete i (ld_textos s) | None => ld_textos s end in
    (Ok (ld_sig s), mkLogDisco (<[(d, n) := ld_sig s]> (ld_nombres s)) (<[ld_sig s := x]> t) (ld_sig s + 1));
  vfs_append_file i x _ s :=
    match ld_textos s !! i with
    | Some old => (Ok tt, mkLogDisco (ld_nombres s) (<[i := old ++ x]> (ld_textos s)) (ld_sig s))
    | None => (Err tt, s)
    end;
  vfs_unlink d n s :=
    match ld_nombres s !! (d, n) with
    | Some i => (Ok tt, mkLogDisco (delete (d, n) (ld_nombres s)) (delete i (ld_textos s)) (ld_sig s))
    | None => (Err tt, s)
    end;
  vfs_rename d n e m _ s :=
    match ld_nombres s !! (d, n), ld_nombres s !! (e, m) with
    | Some i, None => (Ok tt, mkLogDisco (<[(e, m) := i]> (delete (d, n) (ld_nombres s))) (ld_textos s) (ld_sig s))
    | _, _ => (Err tt, s)
    end;
  vfs_size i s := (match ld_textos s !! i with Some x => Ok (lenN x) | None => Err tt end, s);
  wall_secs _ := 0;
|}.

#[local] Instance LogDisco_Spec : VfsSpec LogDisco.
Proof.
  refine {| entrada s d n := ld_nombres s !! (d, n); texto s i := ld_textos s !! i; usado s i := i < ld_sig s |}; cbn.
  - intros d n s. split; [done|]. by destruct (ld_nombres s !! (d, n)).
  - intros i s. split; [done|]. destruct (ld_textos s !! i) as [x|]; [by exists x|done].
  - intros d n x _ s. split_and!; [lia|apply lookup_insert_eq..|lia| | |lia].
    + intros e m Hne. by apply lookup_insert_ne.
    + intros j Hj Hd. rewrite lookup_insert_ne by done. destruct (ld_nombres s !! (d, n)) as [i|]; [|done]. rewrite lookup_delete_ne; congruence.
  - intros i x _ s. destruct (ld_textos s !! i) as [old|] eqn:E; [|done]. exists old. cbn. split_and!; [done|apply lookup_insert_eq|done| |done].
    intros j Hj. by apply lookup_insert_ne.
  - intros d n s. destruct (ld_nombres s !! (d, n)) as [i|] eqn:E; [|done]. exists i. cbn. split_and!; [done|apply lookup_delete_eq..| | |done].
    + intros e m Hne. by apply lookup_delete_ne.
    + intros j Hj. by apply lookup_delete_ne.
  - intros d n e m _ s. destruct (ld_nombres s !! (d, n)) as [i|] eqn:E; [|done]. destruct (ld_nombres s !! (e, m)) eqn:E'; [done|].
    exists i. cbn. assert ((e, m) ≠ (d, n)) as Hne by congruence. split_and!; [done|done| |apply lookup_insert_eq| |done|done].
    + rewrite lookup_insert_ne by done. apply lookup_delete_eq.
    + intros f o H1 H2. rewrite lookup_insert_ne, lookup_delete_ne by done. done.
Defined.

(** Three flows just opened over an empty directory, with nothing appended
    yet but something on the way. *)
Definition flujo_a (nm : str) : Flujo := activar (flujo_nuevo nm) 0.
Definition disco_log : LogDisco :=
  mkLogDisco {[ (2, FLUJO_KERNEL) := 3; (2, FLUJO_APPS) := 4; (2, FLUJO_OTA) := 5 ]} {[ 3 := []; 4 := []; 5 := [] ]} 6.
Definition escritor_a (lo : list byte) : Escritor :=
  mkEscritor_ 2 [mkCanal Kernel (flujo_a FLUJO_KERNEL) 3; mkCanal Apps (flujo_a FLUJO_APPS) 4; mkCanal Ota (flujo_a FLUJO_OTA) 5] lo.
Definition llegadas_a : list (list (Fuente * list byte)) := [[(Kernel, txt "hola"); (Apps, txt "uno")]; [(Kernel, txt "adios")]].
Definition nucleo_a (lo : list byte) : Nucleo LogDisco :=
  mkNucleo (fun f => ring_new (capacidad f)) llegadas_a disco_log (escritor_a lo).
Definition nada : Historia := fun _ => [].
Definition de_cero : nat -> list byte := fun _ => [].

Lemma disco_log_ok : dir_ok 2 disco_log.
Proof.
  assert (forall n i, entrada disco_log 2 n = Some i -> n = FLUJO_KERNEL ∧ i = 3 ∨ n = FLUJO_APPS ∧ i = 4 ∨ n = FLUJO_OTA ∧ i = 5) as Hinv.
  { intros n i. cbn. rewrite !lookup_insert_Some, lookup_singleton_Some. intuition congruence. }
  constructor.
  - intros n n' i H1%Hinv H2%Hinv. intuition congruence.
  - intros n i [[_ ->]|[[_ ->]|[_ ->]]]%Hinv; vm_compute; eauto.
  - intros i. cbn. intros [x Hx]. rewrite !lookup_insert_Some, lookup_singleton_Some in Hx. lia.
Qed.

Lemma canal_a_ok f nm i : (nm = FLUJO_KERNEL ∧ i = 3 ∨ nm = FLUJO_APPS ∧ i = 4 ∨ nm = FLUJO_OTA ∧ i = 5) ->
  canal_ok nada disco_log 2 [] (mkCanal f (flujo_a nm) i).
Proof.
  intros Hnm. assert (NoDup (nombres nm) ∧ ruta_en nm 0 = nm ∧ historial 2 disco_log nm = [] ∧ entrada disco_log 2 nm = Some i ∧ i < 6) as (H1 & H2 & H3 & H4 & H5).
  { destruct Hnm as [[-> ->]|[[-> ->]|[-> ->]]]; (split; [apply (bool_decide_unpack _); vm_compute; exact I|]); vm_compute; done. }
  split_and!; [exact H1|exact H2|]. intros _. exists [], 0. split; [constructor|]. split; [apply N.le_0_l|]. split; [|cbn [flujo flujo_a activar nombre flujo_nuevo]; rewrite H3; by exists []].
  constructor; [exact H5| |].
  - intros n Hn. exists 0. split_and!; [lia| |lia]. cbn [flujo flujo_a activar nombre flujo_nuevo]. rewrite H2. by apply (do_iny _ _ disco_log_ok n nm i).
  - intros Hno. by destruct (Hno nm).
Qed.

Definition flujos : list str := [FLUJO_KERNEL; FLUJO_APPS; FLUJO_OTA].
Lemma flujos_ajenos i j a b : flujos !! i = Some a -> flujos !! j = Some b -> i ≠ j -> forall x, x ∈ nombres a -> x ∉ nombres b.
Proof.
  assert (NoDup (flujos ≫= nombres)) as Hnd by (apply (bool_decide_unpack _); vm_compute; exact I).
  intros Ha Hb Hij x Hx Hx'. apply list_elem_of_lookup in Hx as [p Hp], Hx' as [q Hq].
  assert (forall k y, flujos !! k = Some y -> forall r, (r < 4)%nat -> (flujos ≫= nombres) !! (4 * k + r)%nat = nombres y !! r) as Hl.
  { clear. intros [|[|[|k]]] y [= <-] [|[|[|[|r]]]] Hr; try reflexivity; lia. }
  assert (p < 4 ∧ q < 4)%nat as [Hp4 Hq4] by (split; [apply lookup_lt_Some in Hp|apply lookup_lt_Some in Hq]; assumption).
  rewrite <- (Hl i a Ha p Hp4) in Hp. rewrite <- (Hl j b Hb q Hq4) in Hq.
  pose proof (NoDup_lookup _ _ _ _ Hnd Hp Hq). lia.
Qed.

Lemma llegan_pocas f : por_llegar f llegadas_a <= 100.
Proof. apply N.leb_le. by destruct f; vm_compute. Qed.

Lemma estado_a lo k : lenN lo = LOTE_MAX -> k <= 1000 -> estado_ok k nada de_cero (nucleo_a lo).
Proof.
  intros Hlo Hk. assert (LOTE_MAX = 65536) as HL by done. assert (MARGEN = 131072) as HM by done.
  assert (U64 = 18446744073709551616) as HU by done. assert (U32 = 4294967296) as HU32 by done.
  constructor.
  - intros f. apply ring_new_de; [apply cap_pos|apply cap_max].
  - exact disco_log_ok.
  - exact Hlo.
  - reflexivity.
  - intros f. unfold total, nada. rewrite HL, HU. pose proof (llegan_pocas f) as Hp. rewrite lenN_nil. cbn [llegadas nucleo_a]. lia.
  - intros i c Hc. assert (exists f nm j, c = mkCanal f (flujo_a nm) j ∧ (nm = FLUJO_KERNEL ∧ j = 3 ∨ nm = FLUJO_APPS ∧ j = 4 ∨ nm = FLUJO_OTA ∧ j = 5)) as (f & nm & j & -> & Hnm).
    { apply list_elem_of_lookup_2 in Hc. apply list_elem_of_In in Hc. destruct Hc as [<-|[<-|[<-|[]]]]; eauto 10. }
    split; [by apply canal_a_ok|]. constructor; cbn [flujo flujo_a activar flujo_nuevo activo_bytes fl_escritos descartados fallos_totales fallos_seguidos];
      rewrite ?HM, ?HU, ?HU32; [lia..|done].
  - intros i j c c' Hc Hc' Hne x Hx.
    assert (forall i c, canales (esc (nucleo_a lo)) !! i = Some c -> flujos !! i = Some (nombre (flujo c))) as Hn.
    { clear. intros [|[|[|i]]] c [= <-]; reflexivity. }
    apply (flujos_ajenos i j _ _ (Hn i c Hc) (Hn j c' Hc') Hne x Hx).
Qed.

(** ** Concrete runs *)
Lemma anillo_fiel_testigo : exists r, mfor (E := unit) (append 4) [txt "abc"; txt "de"] (ring_new 4) = (Ok tt, r) ∧
  leer_desde 4 (E := unit) 0 (zeros 3) r = (Ok (mkLectura 3 1 4 1, txt "bcd"), r).
Proof. exact (anillo_fiel 4 [txt "abc"; txt "de"] 0 (zeros 3) eq_refl eq_refl eq_refl). Defined.

Definition anillo_a : Ring := mkRing (txt "clave=ab") 0 8 8.
Lemma tachado_completo_testigo : exists r', tachar 8 (E := unit) (txt "ab") anillo_a = (Ok tt, r') ∧ forall a b, vivo 8 r' ≠ a ++ txt "ab" ++ b.
Proof.
  destruct (tachado_completo 8 (txt "ab") anillo_a eq_refl eq_refl) as (r' & E & _ & _ & _ & Hno).
  - constructor; vm_compute; [reflexivity|reflexivity|discriminate].
  - reflexivity.
  - exists r'. split; [exact E|]. apply Hno; [discriminate|]. apply (bool_decide_unpack _). vm_compute. exact I.
Defined.

Lemma log_fiel_testigo : exists n' h', mfor hace [TPasada 0 10; TCabecera 1 (txt "2.0") 7 10 None; TPasada 1 10] (nucleo_a (zeros LOTE_MAX)) = (Ok tt, n') ∧
  forall i c, canales (esc n') !! i = Some c -> estado (flujo c) ≠ Inactivo ->
    exists P m, persistido (h' (fuente c)) (fl_cursor (flujo c)) (fl_perdidos (flujo c)) m P ∧
      historial (dir (esc n')) (disco n') (nombre (flujo c)) `suffix_of` P.
Proof.
  destruct (log_fiel [TPasada 0 10; TCabecera 1 (txt "2.0") 7 10 None; TPasada 1 10] nada de_cero (nucleo_a (zeros LOTE_MAX)))
    as (n' & h' & E & _ & _ & Hc).
  - apply estado_a; [apply lenN_zeros|discriminate].
  - repeat constructor.
  - exists n', h'. split; [exact E|exact Hc].
Defined.

Lemma pasada_conserva_testigo : exists r n', pasada_canal 0 10 (nucleo_a (zeros LOTE_MAX)) = (Ok r, n') ∧ retiene 0 (nucleo_a (zeros LOTE_MAX)) n'.
Proof.
  destruct (pasada_conserva 0 nada de_cero (nucleo_a (zeros LOTE_MAX)) 0 10) as (r & n' & E & Hr & _).
  - apply estado_a; [apply lenN_zeros|discriminate].
  - repeat constructor.
  - exists r, n'. split; [exact E|exact Hr].
Defined.

(** ** A disk that cannot be searched *)
Record LogSordo := mkSordo { oido : LogDisco }.
Definition en_sordo {A} (m : M LogDisco unit A) : M LogSordo unit A := fun s => let '(r, d) := m (oido s) in (r, mkSordo d).
#[local] Instance LogSordo_Vfs : Vfs LogSordo := {|
  vfs_resolve p := en_sordo (vfs_resolve p); vfs_lookup _ _ := throw tt; vfs_mkdir d n t := en_sordo (vfs_mkdir d n t);
  vfs_create_file d n x t := en_sordo (vfs_create_file d n x t); vfs_append_file i x t := en_sordo (vfs_append_file i x t);
  vfs_unlink d n := en_sordo (vfs_unlink d n); vfs_rename d n e m t := en_sordo (vfs_rename d n e m t); vfs_size i := en_sordo (vfs_size i);
  wall_secs s := wall_secs (oido s);
|}.

(** Opening a flow takes any failure to find its file for the file not being
    there, and makes an empty one, which replaces it: a directory that cannot be
    read for a moment costs the log it holds. *)
Theorem busqueda_fallida : let n := mkNucleo (fun f => ring_new (capacidad f)) [] (mkSordo (mkLogDisco {[ (2, FLUJO_OTA) := 3 ]} {[ 3 := txt "viejo" ]} 4)) (mkEscritor_ 2 [] []) in
  let '(r, n') := abrir 2 FLUJO_OTA n in
  r = Ok (Some (4, 0)) ∧ ld_textos (oido (disco n)) !! 3 = Some (txt "viejo") ∧ ld_textos (oido (disco n')) !! 3 = None ∧ ld_nombres (oido (disco n')) !! (2, FLUJO_OTA) = Some 4.
Proof. vm_compute. done. Qed.
