(* ===== verification/OtaArranque.v ===== *)
(** * Update: the recovery at boot

    [kernel/src/drivers/txnaplica.rs]: what the kernel does between mounting
    sosofs and starting [/bin/init]. It reads the boot record of the ESP and the
    journal of the operation, asks [reconcile] what to do and does it: the
    [Sistema] of the applier over the files of the machine. The virtual file
    system and the sectors of the ESP are classes of operations. A power cut is
    the outcome [Panic] of a write: nothing of the program runs after it. *)
From S2P Require Import Prelude Texto OtaHash OtaRecord OtaTxn OtaJournal OtaBootrec OtaReconcile OtaAplicador OtaPunto.
From S2P Require OtaDescarga LogFs SosofsFile.
Local Open Scope N_scope.

(** The rest of [vfs.rs] the recovery uses, the ESP by sectors
    ([drivers/espfat.rs]) and the exclusion of writers ([drivers/txnlock.rs]),
    which lives in memory. *)
Class Maquina (T : Type) `{LogFs.Vfs T} := {
  (** [crate::fs::FS.get().is_some()] *)
  hay_fs : T -> bool;
  vfs_read_file : N -> M T unit (list byte);
  vfs_read_dir : N -> M T unit (list (str * N));
  (** [Slot::data_lba] *)
  esp_locate : str -> str -> N -> T -> option N;
  esp_read : N -> M T unit (list byte);
  esp_write : N -> list byte -> M T unit unit;
  tomar_por_el_kernel : T -> T;
  liberar_del_kernel : T -> T;
}.

Definition DIR_BASE : str := txt "/var/lib/soso-update".
Definition SECTOR : N := 512.

(** [path.rfind('/').filter(|&i| i > 0).map_or("/", |i| &path[..i])] *)
Definition parent_of (path : str) : str := default (txt "/") (OtaDescarga.parent_dir path).
Definition split_padre (path : str) : option (str * str) :=
  i ← OtaDescarga.rfind BARRA path;
  let nombre := drop (S i) path in
  match nombre with [] => None | _ => Some (if bool_decide (i = 0%nat) then txt "/" else take i path, nombre) end.

Section Arranque.
Context {T : Type} `{Maquina T} `{Sha256} `{Crc32c}.
Abbreviation K := (M T unit).

(** [.ok()] *)
Definition ok {A} (m : K A) : K (option A) := r ← attempt m; mret (match r with inr a => Some a | inl _ => None end).

(** ** The system of the applier *)
Definition ruta (d : str) (de : De) (rel : str) : str :=
  match de with
  | DePreparado => DIR_BASE ++ txt "/" ++ d ++ txt "/etapa/" ++ rel
  | DeRespaldo => DIR_BASE ++ txt "/" ++ d ++ txt "/respaldo/" ++ rel
  end.

(** [vfs::resolve(p).ok().and_then(|i| vfs::read_file(i).ok())] *)
Definition leer_ruta (p : str) : K (option (list byte)) :=
  o ← ok (LogFs.vfs_resolve p);
  match o with Some ino => ok (vfs_read_file ino) | None => mret None end.
Definition k_leer (d : str) (de : De) (rel : str) (s : T) : option (list byte) * T :=
  let '(r, s) := leer_ruta (ruta d de rel) s in (match r with Ok o => o | _ => None end, s).

Fixpoint crear_partes (mtime actual : N) (partes : list str) : K unit :=
  match partes with
  | [] => mret tt
  | [] :: partes => crear_partes mtime actual partes
  | parte :: partes =>
      o ← ok (LogFs.vfs_lookup actual parte);
      o ← match o with Some i => mret (Some i) | None => ok (LogFs.vfs_mkdir actual parte mtime) end;
      match o with Some i => crear_partes mtime i partes | None => mret tt end
  end.
Definition crear_arbol (dir : str) : K unit :=
  mtime ← gets LogFs.wall_secs;
  o ← ok (LogFs.vfs_resolve (txt "/"));
  match o with
  | Some raiz => crear_partes mtime raiz (split_byte BARRA (trim_start_matches BARRA dir))
  | None => mret tt
  end.

(** The old file goes first, though [create_file] would replace it: for a moment
    there is none. *)
Definition reponer (padre : N) (nombre : str) (datos : list byte) : K unit :=
  mtime ← gets LogFs.wall_secs;
  _ ← ok (LogFs.vfs_unlink padre nombre);
  _ ← LogFs.vfs_create_file padre nombre datos mtime;
  mret tt.

Definition k_escribir (rel : str) (datos : list byte) : K unit :=
  let destino := txt "/" ++ rel in
  crear_arbol (parent_of destino);;
  '(dir, nombre) ← of_option (throw tt) (split_padre destino);
  padre ← LogFs.vfs_resolve dir;
  reponer padre nombre datos.

Definition k_borrar (rel : str) : K unit :=
  match split_padre (txt "/" ++ rel) with
  | None => mret tt
  | Some (dir, nombre) =>
      o ← ok (LogFs.vfs_resolve dir);
      match o with
      | None => mret tt
      | Some padre => _ ← ok (LogFs.vfs_unlink padre nombre); mret tt
      end
  end.

(** ** Records *)
Definition copias (d : str) : str * str := (DIR_BASE ++ txt "/" ++ d ++ txt "/diario.0", DIR_BASE ++ txt "/" ++ d ++ txt "/diario.1").

Definition leer_diario (d : str) : K EstadoJournal :=
  a ← leer_ruta (copias d).1;
  b ← leer_ruta (copias d).2;
  let da := default [] a in
  let db := default [] b in
  if bool_decide (da = []) && bool_decide (db = []) then mret JAusente
  else match diario_pick [da; db] with inr j => mret (JDiario j) | inl _ => mret JRoto end.

Definition escribir_diario (d : str) (j : Journal) : K unit :=
  let destino := if j_seq j mod 2 =? 0 then (copias d).1 else (copias d).2 in
  '(dir, nombre) ← of_option (throw tt) (split_padre destino);
  padre ← LogFs.vfs_resolve dir;
  reponer padre nombre (diario_format j).

Definition k_sistema (d : str) : Sistema T := {|
  leer := k_leer d; escribir := k_escribir; borrar := k_borrar; guardar_diario := escribir_diario d;
|}.

(** [None]: a sector could not be read. *)
Fixpoint leer_sectores (lba : N) (ks : list N) : K (option (list byte)) :=
  match ks with
  | [] => mret (Some [])
  | k :: ks =>
      l ← add64 lba k;
      o ← ok (esp_read l);
      match o with
      | None => mret None
      | Some x => r ← leer_sectores lba ks; mret (app x <$> r)
      end
  end.
Definition BOOTREC : str := txt "SOSOTXN ".
Definition leer_bootrec : K EstadoEsp :=
  s ← gets id;
  match esp_locate BOOTREC (txt "BIN") BOOTREC_SIZE s with
  | None => mret EspAusente
  | Some lba =>
      o ← leer_sectores lba (upto (BOOTREC_SIZE / SECTOR));
      match o with
      | None => mret EspRoto
      | Some buf =>
          match bootrec_pick buf with
          | inr r => mret (EspRegistro r)
          | inl (RegistroB Vacia) => mret EspAusente
          | inl _ => mret EspRoto
          end
      end
  end.

(** The loop stops at the first sector that cannot be written. *)
Fixpoint escribir_sectores (base i : N) (trozos : list (list byte)) : K unit :=
  match trozos with
  | [] => mret tt
  | x :: trozos =>
      l ← add64 base i;
      o ← ok (esp_write l x);
      match o with None => mret tt | Some _ => escribir_sectores base (i + 1) trozos end
  end.
Definition con_decision (dec : Decision) (i : TxnId) (n : N) (r : BootRecord) : BootRecord :=
  mkBootRecord dec i n (b_version_nueva r) (b_version_anterior r) (b_dir r) (b_punto r) (b_formato r).
Definition publicar (esp : EstadoEsp) (decision : Decision) (i : TxnId) : K unit :=
  match esp with
  | EspRegistro actual =>
      n ← add64 (b_seq actual) 1;
      let nuevo := con_decision decision i n actual in
      match bootrec_format nuevo with
      | inl _ => mret tt
      | inr bytes =>
          s ← gets id;
          match esp_locate BOOTREC (txt "BIN") BOOTREC_SIZE s with
          | None => mret tt
          | Some lba =>
              base ← add64 lba (bootrec_ranura nuevo * SLOT_SIZE / SECTOR);
              escribir_sectores base 0 (chunks (length bytes) (N.to_nat SECTOR) bytes)
          end
      end
  | _ => mret tt
  end.

(** The only operation there is in sosofs. *)
Definition buscar_dir_unico : K (option str) :=
  o ← ok (LogFs.vfs_resolve DIR_BASE);
  match o with
  | None => mret None
  | Some ino =>
      es ← ok (vfs_read_dir ino);
      match filter (fun n => n ≠ txt "." ∧ n ≠ txt "..") (fst <$> default [] es) with
      | [primero] => mret (Some primero)
      | _ => mret None
      end
  end.

(** ** What to do *)
Definition ejecutar (d : str) (diario : EstadoJournal) (aplica : bool) : K bool :=
  match diario with
  | JDiario j => fun s =>
      let '(r, (_, s)) := (if aplica then aplicar (H := k_sistema d) else revertir (H := k_sistema d)) (j, s) in
      (match r with Ok _ => Ok true | Err _ => Ok false | Panic => Panic | Fuel => Fuel end, s)
  | _ => mret false
  end.

(** An operation of the system whose failure is a value. *)
Definition intentar {E} (m : M T E unit) : K bool := fun s =>
  let '(r, s) := m s in (match r with Ok _ => Ok true | Err _ => Ok false | Panic => Panic | Fuel => Fuel end, s).

Definition rescatar (esp : EstadoEsp) (punto : TxnId) (diario : EstadoJournal) (dir_op : str) : K bool :=
  let d := id_dir punto in
  datos ← leer_ruta (DIR_BASE ++ txt "/" ++ d ++ txt "/punto.rec");
  match datos with
  | None => mret false
  | Some datos =>
      match punto_parse datos with
      | inl _ => mret false
      | inr p =>
          completo ← intentar (verificar (H := k_sistema d) p);
          if negb completo then mret false
          else
            hecho ← intentar (restaurar (H := k_sistema d) (p_entradas p));
            if negb hecho then mret false
            else
              cerrado ←
                match diario with
                | JDiario j =>
                    match cerrar_diario j with
                    | (Ok true, j) => intentar (escribir_diario dir_op j)
                    | (Panic, _) => panic
                    | _ => mret true
                    end
                | _ => mret true
                end;
              if negb cerrado then mret false
              else publicar esp DRestauradoAPrueba punto;; modify tomar_por_el_kernel;; mret true
      end
  end.

Definition recuperar : K bool :=
  s ← gets id;
  if negb (hay_fs s) then mret true
  else
    esp ← leer_bootrec;
    od ← match esp with EspRegistro r => mret (Some (b_dir r)) | _ => buscar_dir_unico end;
    match od with
    | None => mret true
    | Some d =>
        diario ← leer_diario d;
        match esp, diario with
        | EspAusente, JAusente => mret true
        | _, _ =>
            match reconcile esp diario with
            | RNormal | RDescartar _ | RRetrocederAPreparado _ => mret true
            | RAplicar i =>
                hecho ← ejecutar d diario true;
                (if hecho : bool then publicar esp DProbando i;; modify tomar_por_el_kernel else mret tt);;
                mret hecho
            | RRevertir i =>
                hecho ← ejecutar d diario false;
                (if hecho : bool then publicar esp DRevertido i else mret tt);;
                mret hecho
            | RPublicarProbando i => publicar esp DProbando i;; modify tomar_por_el_kernel;; mret true
            | RCompletarConfirmacion i => publicar esp DConfirmado i;; mret true
            | RCompletarReversion i => publicar esp DRevertido i;; mret true
            | RRescatar punto => rescatar esp punto diario d
            | RDiagnostico _ => mret false
            end
        end
    end.

(** The evidence in sosofs first, then the decision in the ESP. *)
Definition confirmar : K bool :=
  esp ← leer_bootrec;
  match esp with
  | EspRegistro rec =>
      match b_decision rec with
      | DProbando =>
          diario ← leer_diario (b_dir rec);
          (match diario with
           | JDiario j =>
               match avanzar PruebaSuperada j with
               | (Ok _, j) => _ ← ok (escribir_diario (b_dir rec) j); mret tt
               | (Err _, _) => mret tt
               | _ => panic
               end
           | _ => mret tt
           end);;
          publicar esp DConfirmado (b_id rec);;
          modify liberar_del_kernel;;
          mret true
      | DRestauradoAPrueba => publicar esp DRevertido (b_id rec);; modify liberar_del_kernel;; mret true
      | _ => mret true
      end
  | _ => mret true
  end.
End Arranque.

(** ** Paths *)
Abbreviation comps := SosofsFile.componentes.

Lemma split_junta sep a b : split_byte sep (a ++ sep :: b) = split_byte sep a ++ split_byte sep b.
Proof.
  induction a as [|c a IH]; cbn [app split_byte]; [by rewrite decide_True|]. rewrite IH. destruct (decide (c = sep)); [done|].
  destruct (split_byte sep a) as [|p ps] eqn:E; [|done]. exfalso. destruct a as [|x a]; cbn in E; [done|].
  destruct (decide (x = sep)); [done|]. by destruct (split_byte sep a).
Qed.
Lemma split_uno sep n : sep ∉ n -> split_byte sep n = [n].
Proof.
  induction n as [|c n IH]; [done|]. intros [Hc Hn]%not_elem_of_cons. cbn. rewrite IH by done. by rewrite decide_False.
Qed.
Lemma split_ne sep l : split_byte sep l ≠ [].
Proof. destruct l as [|c l]; [done|]. cbn. destruct (decide (c = sep)); [done|]. by destruct (split_byte sep l). Qed.
Lemma split_iny sep a : forall b, split_byte sep a = split_byte sep b -> a = b.
Proof.
  assert (forall b, split_byte sep b = [[]] -> b = []) as Hnil.
  { intros [|c b]; [done|]. cbn. destruct (decide (c = sep)) as [_|_].
    - intros [= E]. by apply split_ne in E.
    - destruct (split_byte sep b) as [|p ps]; intros [= E]. }
  induction a as [|c a IH]; intros b E; [symmetry; by apply Hnil|]. destruct b as [|e b]; [by apply Hnil in E|]. cbn in E.
  destruct (decide (c = sep)) as [->|Hc], (decide (e = sep)) as [->|He].
  - f_equal. apply IH. congruence.
  - destruct (split_byte sep b); discriminate.
  - destruct (split_byte sep a); discriminate.
  - pose proof (split_ne sep a). pose proof (split_ne sep b). destruct (split_byte sep a) as [|x xs] eqn:Ea; [done|].
    destruct (split_byte sep b) as [|y ys] eqn:Eb; [done|]. injection E as -> <- <-. f_equal. apply IH. by rewrite Eb.
Qed.

Lemma comps_junta a b : comps (a ++ BARRA :: b) = comps a ++ comps b.
Proof. unfold comps. change "/"%byte with BARRA. by rewrite split_junta, filter_app. Qed.

(** A name: a component of a path. *)
Definition nombre_ok (n : str) : Prop := (BARRA ∉ n) ∧ n ≠ [] ∧ n ≠ txt ".".
Lemma comps_nombre n : nombre_ok n -> comps n = [n].
Proof. intros (Hn & H1 & H2). unfold comps. change "/"%byte with BARRA. rewrite split_uno by done. by rewrite filter_cons_True. Qed.

Lemma rfind_Some c l i : OtaDescarga.rfind c l = Some i -> l = take i l ++ (c :: drop (S i) l) ∧ (c ∉ drop (S i) l).
Proof.
  revert i. induction l as [|b l IH]; [done|]. intros i. cbn. destruct (OtaDescarga.rfind c l) as [k|] eqn:E.
  - intros [= <-]. destruct (IH k eq_refl) as [E1 E2]. cbn. split; [by f_equal|done].
  - case_bool_decide as Hb; [|done]. intros [= <-]. subst. cbn. split; [done|].
    clear IH. induction l as [|x l IH]; [by apply not_elem_of_nil|]. cbn in E. destruct (OtaDescarga.rfind c l); [done|].
    case_bool_decide; [done|]. apply not_elem_of_cons. split; [congruence|]. by apply IH.
Qed.
Lemma rfind_app c a n : c ∉ n -> OtaDescarga.rfind c (a ++ c :: n) = Some (length a).
Proof.
  intros Hn. assert (OtaDescarga.rfind c n = None) as E.
  { induction n as [|x n IH]; [done|]. apply not_elem_of_cons in Hn as [Hx Hn]. cbn. rewrite IH by done. by rewrite bool_decide_eq_false_2. }
  induction a as [|x a IH]; cbn; [|by rewrite IH]. rewrite E. by rewrite bool_decide_eq_true_2.
Qed.

(** The directory of a path and its last component. *)
Lemma split_padre_spec a n : nombre_ok n ->
  exists dir, split_padre (a ++ BARRA :: n) = Some (dir, n) ∧ parent_of (a ++ BARRA :: n) = dir ∧ comps dir = comps a ∧ (dir = a ∨ a = [] ∧ dir = txt "/").
Proof.
  intros (Hn & H1 & H2). unfold split_padre, parent_of, OtaDescarga.parent_dir. change "/"%byte with BARRA. rewrite rfind_app by done.
  cbn [mbind option_bind]. assert (drop (S (length a)) (a ++ BARRA :: n) = n) as ->.
  { rewrite drop_app_ge by lia. replace (S (length a) - length a)%nat with 1%nat by lia. done. }
  rewrite take_app_length. destruct n as [|x n]; [done|]. destruct (decide (a = [])) as [->|Ha].
  - eexists. split; [reflexivity|]. split; [done|]. split; [done|by right].
  - assert (length a ≠ 0)%nat as Hl by (by destruct a). rewrite bool_decide_eq_false_2 by done. eexists. split; [reflexivity|].
    split; [|by auto]. destruct (Nat.ltb_spec 0 (length a)); [done|lia].
Qed.

Lemma ultima_barra p : exists a n, BARRA :: p = a ++ BARRA :: n ∧ BARRA ∉ n.
Proof.
  destruct (OtaDescarga.rfind BARRA (BARRA :: p)) as [i|] eqn:E.
  - apply rfind_Some in E as [E1 E2]. by eexists _, _.
  - exfalso. cbn in E. by destruct (OtaDescarga.rfind BARRA p).
Qed.

(** A path of the active system: whole components, neither in the area of the
    updates nor on the way to it. *)
Definition AREA : list str := [txt "var"; txt "lib"; txt "soso-update"].
Definition ruta_activa (p : str) : bool :=
  let l := split_byte BARRA p in
  forallb (fun c => negb (bool_decide (c = []) || bool_decide (c = txt "."))) l && negb (bool_decide (take 3 l = take (length l) AREA)).

Lemma ruta_activa_inv p : ruta_activa p = true -> comps p = split_byte BARRA p ∧ take 3 (comps p) ≠ take (length (comps p)) AREA ∧ Forall (fun c => c ≠ [] ∧ c ≠ txt ".") (comps p).
Proof.
  unfold ruta_activa. intros [H1 H2%negb_true_iff%bool_decide_eq_false]%andb_true_iff. rewrite forallb_forall in H1.
  assert (Forall (fun c => c ≠ [] ∧ c ≠ txt ".") (split_byte BARRA p)) as Hf.
  { apply Forall_forall. intros c Hc%list_elem_of_In. specialize (H1 c Hc). apply negb_true_iff, orb_false_iff in H1 as [?%bool_decide_eq_false ?%bool_decide_eq_false]. done. }
  assert (comps p = split_byte BARRA p) as E.
  { unfold comps. change "/"%byte with BARRA. clear -Hf. induction Hf as [|c l Hc _ IH]; [done|]. rewrite filter_cons_True by done. by f_equal. }
  by rewrite E.
Qed.

Lemma split_trim l : filter (fun c => c ≠ []) (split_byte BARRA (trim_start_matches BARRA l)) = filter (fun c => c ≠ []) (split_byte BARRA l).
Proof.
  unfold trim_start_matches. induction l as [|b l IH]; [done|]. cbn [length strip_while]. destruct (decide (b = BARRA)) as [->|]; [|done].
  rewrite IH. change (BARRA :: l) with ([] ++ BARRA :: l). by rewrite split_junta, filter_app.
Qed.

(** The path of a file of the system, as [escribir] and [borrar] take it apart. *)
Lemma destino_activo p : ruta_activa p = true -> exists dir n,
  split_padre (txt "/" ++ p) = Some (dir, n) ∧ parent_of (txt "/" ++ p) = dir ∧ comps p = comps dir ++ [n] ∧ nombre_ok n ∧
  filter (fun c => c ≠ []) (split_byte BARRA (trim_start_matches BARRA dir)) = comps dir.
Proof.
  intros Hp. destruct (ruta_activa_inv p Hp) as (E & _ & Hf). change (txt "/" ++ p) with (BARRA :: p).
  destruct (ultima_barra p) as (a & n & Ha & Hn).
  assert ([] :: comps p = split_byte BARRA a ++ [n]) as Es.
  { rewrite E, <- (split_uno BARRA n Hn), <- split_junta, <- Ha. change (BARRA :: p) with ([] ++ BARRA :: p). by rewrite split_junta. }
  assert (nombre_ok n ∧ Forall (fun c => c ≠ txt ".") (split_byte BARRA a)) as [Hok Hsa].
  { assert (Forall (fun c => c ≠ txt ".") ([] :: comps p)) as Hall by (constructor; [done|]; eapply Forall_impl; [exact Hf|by intros ? []]).
    rewrite Es in Hall. apply Forall_app in Hall as [Hsa _]. split; [|done]. pose proof (split_ne BARRA a) as Hne.
    destruct (split_byte BARRA a) as [|x xs]; [done|]. injection Es as _ Es. rewrite Es in Hf. apply Forall_app in Hf as [_ [[? ?] _]%Forall_cons]. done. }
  assert (comps p = comps a ++ comps n) as Ec.
  { rewrite <- comps_junta, <- Ha. change (BARRA :: p) with ([] ++ BARRA :: p). by rewrite comps_junta. }
  rewrite Ha. destruct (split_padre_spec a n Hok) as (dir & D1 & D2 & D3 & D4). exists dir, n. split; [done|]. split; [done|].
  split; [by rewrite Ec, D3, (comps_nombre n)|]. split; [done|]. rewrite split_trim.
  assert (Forall (fun c => c ≠ txt ".") (split_byte BARRA dir)) as Hsd by (destruct D4 as [->|[_ ->]]; [done|by repeat constructor]).
  unfold comps. change "/"%byte with BARRA. clear -Hsd. induction Hsd as [|c l Hc _ IH]; [done|]. rewrite !filter_cons, IH.
  destruct (decide (c ≠ [])), (decide (c ≠ [] ∧ c ≠ txt ".")); tauto.
Qed.

(** ** What the machine promises

    The file system is a tree, [arbol], of directories ([None]) and files;
    [nodo s i] is the path of the inode [i]. Every operation does all of its
    effect or none, also when the power goes in the middle of it ([Panic]), as
    [SosofsTeoremas.corte_de_luz] proves of sosofs. [averias]: a read or a
    removal may fail with what it names there. [fallos]: a write may fail without a
    cause, and the power may go. *)
Abbreviation Arbol := (gmap (list str) (option (list byte))).
Definition en_arbol (t : Arbol) (q : list str) : option (list byte) := mjoin (t !! q).

Class MaquinaSpec (T : Type) `{Maquina T} := {
  averias : Prop;
  fallos : Prop;
  arbol : T -> Arbol;
  nodo : T -> N -> option (list str);
  sigue (q : list str) (s s' : T) : Prop := forall i r, r ≠ q -> nodo s i = Some r -> nodo s' i = Some r;
  igual (s s' : T) : Prop := arbol s' = arbol s ∧ forall i r, nodo s i = Some r -> nodo s' i = Some r;
  pone (q : list str) (v : option (list byte)) (s s' : T) : Prop :=
    arbol s !! q = None ∧ arbol s' = <[q := v]> (arbol s) ∧ forall i r, nodo s i = Some r -> nodo s' i = Some r;
  quita (q : list str) (s s' : T) : Prop := arbol s' = delete q (arbol s) ∧ sigue q s s';
  (** A new file, in the place of the old one if there was one. *)
  fija (q : list str) (x : list byte) (s s' : T) : Prop := arbol s !! q ≠ Some None ∧ arbol s' = <[q := Some x]> (arbol s) ∧ sigue q s s';
  resolve_ok p s : let '(r, s') := LogFs.vfs_resolve p s in igual s s' ∧
    match r with
    | Ok i => nodo s' i = Some (comps p)
    | Err _ => averias ∨ forall q, comps p `prefix_of` q -> arbol s !! q = None
    | _ => False
    end;
  lookup_ok d n s : let '(r, s') := LogFs.vfs_lookup d n s in igual s s' ∧
    match r with
    | Ok i => forall q, nodo s d = Some q -> nodo s' i = Some (q ++ [n]) ∧ is_Some (arbol s !! (q ++ [n]))
    | Err _ => averias ∨ forall q, nodo s d = Some q -> arbol s !! (q ++ [n]) = None
    | _ => False
    end;
  read_file_ok i s : let '(r, s') := vfs_read_file i s in igual s s' ∧
    match r with
    | Ok x => forall q, nodo s i = Some q -> arbol s !! q = Some (Some x)
    | Err _ => averias ∨ forall q x, nodo s i = Some q -> arbol s !! q ≠ Some (Some x)
    | _ => False
    end;
  read_dir_ok i s : let '(r, s') := vfs_read_dir i s in igual s s' ∧ match r with Ok _ | Err _ => True | _ => False end;
  mkdir_ok d n t s : let '(r, s') := LogFs.vfs_mkdir d n t s in
    match r with
    | Ok i => exists q, nodo s d = Some q ∧ pone (q ++ [n]) None s s' ∧ nodo s' i = Some (q ++ [n])
    | Err _ => igual s s' ∧ (fallos ∨ forall q, nodo s d = Some q -> arbol s !! q = Some None -> is_Some (arbol s !! (q ++ [n])))
    | Panic => fallos ∧ (igual s s' ∨ exists q, nodo s d = Some q ∧ pone (q ++ [n]) None s s')
    | Fuel => False
    end;
  create_ok d n x t s : let '(r, s') := LogFs.vfs_create_file d n x t s in
    match r with
    | Ok _ => exists q, nodo s d = Some q ∧ fija (q ++ [n]) x s s'
    | Err _ => igual s s' ∧ (fallos ∨ forall q, nodo s d = Some q -> arbol s !! q = Some None -> arbol s !! (q ++ [n]) = Some None)
    | Panic => fallos ∧ (igual s s' ∨ exists q, nodo s d = Some q ∧ fija (q ++ [n]) x s s')
    | Fuel => False
    end;
  unlink_ok d n s : let '(r, s') := LogFs.vfs_unlink d n s in
    match r with
    | Ok _ => exists q, nodo s d = Some q ∧ quita (q ++ [n]) s s'
    | Err _ => igual s s' ∧ (averias ∨ forall q x, nodo s d = Some q -> arbol s !! (q ++ [n]) ≠ Some (Some x))
    | Panic => fallos ∧ (igual s s' ∨ exists q, nodo s d = Some q ∧ quita (q ++ [n]) s s')
    | Fuel => False
    end;
  esp_locate_ok name ext n s lba : esp_locate name ext n s = Some lba -> lba + 16 < U64;
  esp_read_ok a s : let '(r, s') := esp_read a s in igual s s' ∧ match r with Ok _ | Err _ => True | _ => False end;
  esp_write_ok a x s : let '(r, s') := esp_write a x s in igual s s' ∧ match r with Panic => fallos | Fuel => False | _ => True end;
  tomar_ok s : igual s (tomar_por_el_kernel s);
  liberar_ok s : igual s (liberar_del_kernel s);
}.

#[local] Set Default Proof Using "Type*".
Section Maquina.
Context {T : Type} `{MaquinaSpec T}.
Implicit Types s : T.
Abbreviation K := (M T unit).

Definition fichero s (q : list str) : option (list byte) := en_arbol (arbol s) q.

Lemma igual_refl s : igual s s.
Proof. by split. Qed.
Lemma igual_trans s1 s2 s3 : igual s1 s2 -> igual s2 s3 -> igual s1 s3.
Proof. intros [A1 N1] [A2 N2]. split; [congruence|auto]. Qed.

(** *** Runs

    [D] holds of whatever is left; an answer satisfies [Φ], an error leaves [Ψ],
    and only a failing machine stops the run. *)
Definition tras {A} (D : T -> Prop) (m : K A) s (Φ : A -> T -> Prop) (Ψ : T -> Prop) : Prop :=
  let '(r, s') := m s in D s' ∧ match r with Ok a => Φ a s' | Err _ => Ψ s' | Panic | Fuel => fallos end.

Lemma tras_bind {A B} D (m : K A) (f : A -> K B) s Φ Ψ :
  tras D m s (fun a s' => tras D (f a) s' Φ Ψ) Ψ -> tras D (m ≫= f) s Φ Ψ.
Proof. unfold tras. rewrite bind_eq. destruct (m s) as [[a|e| |] s1]; cbn; [by intros [_ ?]|done..]. Qed.
Lemma tras_ret {A} (D : T -> Prop) (a : A) s (Φ : A -> T -> Prop) Ψ : D s -> Φ a s -> tras D (mret a) s Φ Ψ.
Proof. by split. Qed.
Lemma tras_gets {A} (D : T -> Prop) (f : T -> A) s (Φ : A -> T -> Prop) Ψ : D s -> Φ (f s) s -> tras D (gets f) s Φ Ψ.
Proof. by split. Qed.
Lemma tras_modify (D : T -> Prop) f s (Φ : unit -> T -> Prop) Ψ : D (f s) -> Φ tt (f s) -> tras D (modify f) s Φ Ψ.
Proof. by split. Qed.
Lemma tras_mono {A} (D D' : T -> Prop) (m : K A) s Φ Φ' (Ψ Ψ' : T -> Prop) : tras D m s Φ Ψ ->
  (forall s', D s' -> D' s') -> (forall a s', D s' -> Φ a s' -> Φ' a s') -> (forall s', D s' -> Ψ s' -> Ψ' s') -> tras D' m s Φ' Ψ'.
Proof. unfold tras. destruct (m s) as [[a|e| |] s1]; intros [? ?] ? ? ?; auto. Qed.
Lemma tras_ok {A} D (m : K A) s Φ Ψ : tras D m s (fun a => Φ (Some a)) (Φ None) -> tras D (ok m) s Φ Ψ.
Proof. unfold tras, ok, attempt. rewrite bind_eq. by destruct (m s) as [[a|e| |] s1]. Qed.
Lemma tras_throw {A} (D : T -> Prop) s (Φ : A -> T -> Prop) (Ψ : T -> Prop) : D s -> Ψ s -> tras D (throw tt) s Φ Ψ.
Proof. by split. Qed.
Lemma tras_add64 (D : T -> Prop) a b s (Φ : N -> T -> Prop) Ψ : a + b < U64 -> D s -> Φ (a + b) s -> tras D (add64 a b) s Φ Ψ.
Proof. intros Hl HD HΦ. unfold tras, add64. by rewrite (proj2 (N.ltb_lt _ _) Hl). Qed.

(** Runs that change nothing. *)
Abbreviation callado m s Φ Ψ := (tras (igual s) m s Φ Ψ).
Lemma callado_bind {A B} (m : K A) (f : A -> K B) s Φ Ψ :
  callado m s (fun a s' => callado (f a) s' Φ Ψ) Ψ -> callado (m ≫= f) s Φ Ψ.
Proof.
  intros Hm. apply tras_bind. eapply tras_mono; [exact Hm|done| |done]. cbn beta. intros a s1 Hi Hf.
  eapply tras_mono; [exact Hf| |done|done]. intros s2. by apply igual_trans.
Qed.
Lemma tras_callado {A} (D : T -> Prop) (m : K A) s (Φ : A -> T -> Prop) (Ψ : T -> Prop) Φ' Ψ' : callado m s Φ' Ψ' -> (forall s', igual s s' -> D s') ->
  (forall a s', igual s s' -> Φ' a s' -> Φ a s') -> (forall s', igual s s' -> Ψ' s' -> Ψ s') -> tras D m s Φ Ψ.
Proof. intros. by eapply tras_mono. Qed.

(** *** Writes

    From [s] to [s'] the file [p] may change and directories be made on the way to
    it, nothing else. *)
Definition cambia (p : list str) s s' : Prop :=
  (forall q, q ≠ p -> arbol s' !! q = arbol s !! q ∨ (arbol s !! q = None ∧ arbol s' !! q = Some None ∧ q `prefix_of` p)) ∧
  (arbol s' !! p = Some None -> arbol s !! p = Some None).
Lemma cambia_igual p s s' : igual s s' -> cambia p s s'.
Proof. intros [E _]. split; [intros q _; left; by rewrite E|by rewrite E]. Qed.
Lemma cambia_trans p s1 s2 s3 : cambia p s1 s2 -> cambia p s2 s3 -> cambia p s1 s3.
Proof.
  intros [A1 A2] [B1 B2]. split; [|auto]. intros q Hq. destruct (A1 q Hq) as [E|(E1 & E2 & E3)], (B1 q Hq) as [F|(F1 & F2 & F3)].
  - left. congruence.
  - right. rewrite <- E. done.
  - right. rewrite F. done.
  - congruence.
Qed.
Lemma cambia_fichero p s s' q : cambia p s s' -> q ≠ p -> fichero s' q = fichero s q.
Proof. intros [A _] Hq. unfold fichero, en_arbol. destruct (A q Hq) as [->|(-> & -> & _)]; done. Qed.
Lemma fija_cambia p x s s' : fija p x s s' -> cambia p s s'.
Proof. intros (_ & E & _). unfold cambia. rewrite E. split; [intros q Hq; left; by rewrite lookup_insert_ne|by rewrite lookup_insert_eq]. Qed.
Lemma quita_cambia p s s' : quita p s s' -> cambia p s s'.
Proof. intros (E & _). unfold cambia. rewrite E. split; [intros q Hq; left; by rewrite lookup_delete_ne|by rewrite lookup_delete_eq]. Qed.
Lemma pone_dir p q s s' : pone q None s s' -> q `prefix_of` p -> q ≠ p -> cambia p s s'.
Proof.
  intros (E0 & E & _) Hp Hq. unfold cambia. rewrite E. split; [|by rewrite lookup_insert_ne]. intros r Hr.
  destruct (decide (r = q)) as [->|]; [right; by rewrite lookup_insert_eq|left; by rewrite lookup_insert_ne].
Qed.

(** Nothing is in the way of the directories that lead to [p]. *)
Definition despejado (p : list str) s : Prop := forall q, q `prefix_of` p -> q ≠ p -> fichero s q = None.

Lemma fichero_dir s q : fichero s q = None -> is_Some (arbol s !! q) -> arbol s !! q = Some None.
Proof. unfold fichero, en_arbol. intros E [v Hv]. rewrite Hv in *. by destruct v. Qed.

(** At any moment the file holds what it held, nothing or all of the new. *)
Definition repone (p : list str) (x : list byte) s s' : Prop :=
  cambia p s s' ∧ (fichero s' p = fichero s p ∨ fichero s' p = None ∨ fichero s' p = Some x).
Lemma repone_igual p x s s1 s2 : repone p x s s1 -> igual s1 s2 -> repone p x s s2.
Proof. intros [Hc Hf] Hi. split; [eapply cambia_trans; [exact Hc|by apply cambia_igual]|]. destruct Hi as [Ha _]. unfold fichero in *. by rewrite Ha. Qed.

Section Lecturas.
Hypothesis sin_averias : ¬ averias.

Lemma resolve_run p s : callado (LogFs.vfs_resolve p) s (fun i s' => nodo s' i = Some (comps p)) (fun _ => forall q, comps p `prefix_of` q -> arbol s !! q = None).
Proof. pose proof (resolve_ok p s) as Hr. unfold tras. destruct (LogFs.vfs_resolve p s) as [[i|e| |] s']; destruct Hr as [? Hr]; try done. split; [done|]. by destruct Hr. Qed.

Lemma leer_ruta_run p s : callado (leer_ruta p) s (fun o _ => o = fichero s (comps p)) (fun _ => False).
Proof.
  unfold leer_ruta. apply callado_bind, tras_ok. eapply tras_mono; [apply resolve_run|done|..]; cbn beta.
  - intros i s1 [Ha Hn] Hi. apply tras_ok. unfold tras. pose proof (read_file_ok i s1) as Hr. destruct (vfs_read_file i s1) as [[x|e| |] s2]; destruct Hr as [? Hr]; try done.
    + split; [done|]. specialize (Hr _ Hi). unfold fichero, en_arbol. by rewrite <- Ha, Hr.
    + split; [done|]. destruct Hr as [|Hr]; [done|]. unfold fichero, en_arbol. rewrite <- Ha. symmetry.
      destruct (arbol s1 !! comps p) as [[x|]|] eqn:E; [|done|done]. by destruct (Hr _ x Hi).
  - intros s1 [Ha Hn] Hq. apply tras_ret; [by apply igual_refl|]. unfold fichero, en_arbol. by rewrite (Hq (comps p)).
Qed.

(** Removing a file that may not be there. *)
Lemma unlink_run d n q s (Φ : option unit -> T -> Prop) Ψ : nodo s d = Some q ->
  (forall r s', cambia (q ++ [n]) s s' -> fichero s' (q ++ [n]) = None -> arbol s' !! q = arbol s !! q -> nodo s' d = Some q ->
     (arbol s !! (q ++ [n]) ≠ Some None -> arbol s' !! (q ++ [n]) = None) -> Φ r s') ->
  tras (cambia (q ++ [n]) s) (ok (LogFs.vfs_unlink d n)) s Φ Ψ.
Proof.
  intros Hd HΦ. assert (q ≠ q ++ [n]) as Hne by (intros E; apply (f_equal length) in E; rewrite length_app in E; cbn in E; lia).
  apply tras_ok. unfold tras. pose proof (unlink_ok d n s) as Hu. destruct (LogFs.vfs_unlink d n s) as [[[]|e| |] s'].
  - destruct Hu as (q' & Hq' & Hq). rewrite Hd in Hq'. injection Hq' as <-. pose proof (quita_cambia _ _ _ Hq) as Hc. destruct Hq as [Ha Hn].
    split; [done|]. apply HΦ; [done| | | |].
    + unfold fichero, en_arbol. by rewrite Ha, lookup_delete_eq.
    + by rewrite Ha, lookup_delete_ne.
    + by apply (Hn d q).
    + intros _. by rewrite Ha, lookup_delete_eq.
  - destruct Hu as [[Ha Hn] Hu]. destruct Hu as [|Hu]; [done|]. split; [by apply cambia_igual|].
    assert (fichero s (q ++ [n]) = None) as Hf.
    { unfold fichero, en_arbol. destruct (arbol s !! (q ++ [n])) as [[x|]|] eqn:E; [|done|done]. by destruct (Hu q x Hd). }
    apply HΦ; [by apply cambia_igual| |by rewrite Ha|auto|].
    + unfold fichero. by rewrite Ha.
    + rewrite Ha. intros Hnd. destruct (arbol s !! (q ++ [n])) as [[x|]|] eqn:E; [|done|done]. by destruct (Hu q x Hd).
  - destruct Hu as [Hf [Hu|(q' & Hq' & Hq)]]; (split; [|done]); [by apply cambia_igual|]. rewrite Hd in Hq'. injection Hq' as <-. by apply quita_cambia.
  - done.
Qed.

Lemma reponer_run d n q x s (Φ : unit -> T -> Prop) (Ψ : T -> Prop) : nodo s d = Some q ->
  (forall s', cambia (q ++ [n]) s s' -> fichero s' (q ++ [n]) = Some x -> Φ tt s') ->
  (forall s', repone (q ++ [n]) x s s' -> fallos ∨ (arbol s !! q = Some None -> arbol s !! (q ++ [n]) = Some None) -> Ψ s') ->
  tras (repone (q ++ [n]) x s) (reponer d n x) s Φ Ψ.
Proof.
  intros Hd HΦ HΨ. unfold reponer. assert (repone (q ++ [n]) x s s) as H0' by (split; [by apply cambia_igual, igual_refl|by left]).
  apply tras_bind, tras_gets; [done|]. apply tras_bind. set (Φ1 := fun (_ : option unit) s1 => cambia (q ++ [n]) s s1 ∧ fichero s1 (q ++ [n]) = None ∧ arbol s1 !! q = arbol s !! q ∧
    nodo s1 d = Some q ∧ (arbol s !! (q ++ [n]) ≠ Some None -> arbol s1 !! (q ++ [n]) = None)).
  assert (tras (repone (q ++ [n]) x s) (ok (LogFs.vfs_unlink d n)) s Φ1 (fun _ => False)) as Hu.
  { pose proof (unlink_run d n q s Φ1 (fun _ => False) Hd) as Hu. unfold tras in *. pose proof (unlink_ok d n s) as Hw. unfold ok, attempt in *. rewrite bind_eq in *.
    destruct (LogFs.vfs_unlink d n s) as [[[]|e| |] s1]; cbn in *.
    - specialize (Hu ltac:(unfold Φ1; auto 10)) as [Hc HΦ1]. split; [|done]. split; [done|]. right. left. apply HΦ1.
    - specialize (Hu ltac:(unfold Φ1; auto 10)) as [Hc HΦ1]. split; [|done]. split; [done|]. right. left. apply HΦ1.
    - specialize (Hu ltac:(unfold Φ1; auto 10)) as [Hc Hf]. split; [|done]. split; [done|]. destruct Hw as [_ [[Ha _]|(q' & Hq' & Ha & _)]].
      + left. unfold fichero. by rewrite Ha.
      + right. left. rewrite Hd in Hq'. injection Hq' as <-. unfold fichero, en_arbol. by rewrite Ha, lookup_delete_eq.
    - done. }
  eapply tras_mono; [exact Hu|done| |done]. clear Hu. intros r s1 _ (Hc & Hf & Hq & Hd1 & Hab). apply tras_bind. unfold tras.
  pose proof (create_ok d n x (LogFs.wall_secs s) s1) as Hr. destruct (LogFs.vfs_create_file d n x (LogFs.wall_secs s) s1) as [[i|e| |] s2].
  - destruct Hr as (q' & Hq' & Hp). rewrite Hd1 in Hq'. injection Hq' as <-. assert (cambia (q ++ [n]) s s2) as Hc2 by (eapply cambia_trans; [exact Hc|by eapply fija_cambia]).
    assert (fichero s2 (q ++ [n]) = Some x) as Hf2 by (destruct Hp as (_ & E & _); unfold fichero, en_arbol; by rewrite E, lookup_insert_eq).
    split; [split; auto|]. cbn. split; [split; auto|]. by apply HΦ.
  - destruct Hr as [Hi Hr]. assert (repone (q ++ [n]) x s s2) as Hc2 by (eapply repone_igual; [|exact Hi]; split; auto). split; [done|]. apply HΨ; [done|].
    destruct Hr as [|Hr]; [by left|right]. intros Hqd. rewrite <- Hq in Hqd. specialize (Hr q Hd1 Hqd).
    destruct (decide (arbol s !! (q ++ [n]) = Some None)) as [|Hnd]; [done|]. by rewrite (Hab Hnd) in Hr.
  - destruct Hr as [Hf' [Hi|(q' & Hq' & Hp)]]; (split; [|done]); [by eapply repone_igual; [|exact Hi]; split; auto|].
    rewrite Hd1 in Hq'. injection Hq' as <-. split; [eapply cambia_trans; [exact Hc|by eapply fija_cambia]|]. right. right. destruct Hp as (_ & E & _).
    unfold fichero, en_arbol. by rewrite E, lookup_insert_eq.
  - done.
Qed.

(** Each missing directory in turn. *)
Lemma crear_partes_run mtime p : forall partes actual q s, nodo s actual = Some q ->
  (exists n, p = (q ++ filter (fun c => c ≠ []) partes) ++ [n]) ->
  tras (cambia p s) (crear_partes mtime actual partes) s
    (fun _ s' => fallos ∨ (despejado p s -> arbol s !! q = Some None -> arbol s' !! (q ++ filter (fun c => c ≠ []) partes) = Some None)) (fun _ => False).
Proof.
  induction partes as [|c partes IH]; intros actual q s Hq [n Hp].
  { cbn. split; [by apply cambia_igual, igual_refl|]. right. intros _ Ha. by rewrite app_nil_r. }
  destruct c as [|b c]; [cbn [crear_partes]; apply IH; [done|by exists n]|]. cbn [crear_partes]. set (nm := b :: c) in *.
  rewrite filter_cons_True in * by done. set (ns := filter (fun c => c ≠ []) partes) in *.
  replace (q ++ nm :: ns) with ((q ++ [nm]) ++ ns) in * by (by rewrite <- app_assoc).
  assert ((q ++ [nm]) `prefix_of` p) as Hpre by (rewrite Hp, <- app_assoc; by apply prefix_app_r).
  assert (q ++ [nm] ≠ p) as Hne by (intros E; apply (f_equal length) in E; rewrite Hp, !length_app in E; cbn in E; lia).
  assert (forall i s1, cambia p s s1 -> nodo s1 i = Some (q ++ [nm]) -> fallos ∨ (despejado p s -> arbol s !! q = Some None -> arbol s1 !! (q ++ [nm]) = Some None) ->
    tras (cambia p s) (crear_partes mtime i partes) s1 (fun _ s' => fallos ∨ (despejado p s -> arbol s !! q = Some None -> arbol s' !! ((q ++ [nm]) ++ ns) = Some None)) (fun _ => False)) as Hrest.
  { intros i s1 Hc Hi Hd. eapply tras_mono; [apply (IH i (q ++ [nm]) s1 Hi); by exists n|..]; cbn beta; [intros s2; by apply cambia_trans| |done].
    intros _ s2 _ [|H2]; [by left|]. destruct Hd as [|Hd]; [by left|]. right. intros Hdes Hqd. apply H2; [|by apply Hd].
    intros r Hr Hrp. rewrite (cambia_fichero p s) by done. by apply Hdes. }
  apply tras_bind, tras_ok. unfold tras at 1. pose proof (lookup_ok actual nm s) as Hl. destruct (LogFs.vfs_lookup actual nm s) as [[i|e| |] s1]; destruct Hl as [Hi Hl]; try done.
  - destruct (Hl q Hq) as [Hni Hso]. split; [by apply cambia_igual|]. cbn beta iota. apply tras_bind, tras_ret; [by apply cambia_igual|]. cbn beta iota.
    apply Hrest; [by apply cambia_igual|done|]. right. intros Hdes _. destruct Hi as [Ha _]. rewrite Ha. by apply fichero_dir; [apply Hdes|].
  - destruct Hl as [|Hl]; [done|]. specialize (Hl q Hq). split; [by apply cambia_igual|]. cbn beta iota. destruct Hi as [Ha Hn]. apply tras_bind, tras_ok. unfold tras at 1.
    pose proof (mkdir_ok actual nm mtime s1) as Hm. destruct (LogFs.vfs_mkdir actual nm mtime s1) as [[i|e'| |] s2].
    + destruct Hm as (q' & Hq' & Hpo & Hni). rewrite (Hn _ _ Hq) in Hq'. injection Hq' as <-.
      assert (cambia p s s2) as Hc by (eapply cambia_trans; [by apply (cambia_igual p s s1)|]; by eapply pone_dir).
      split; [done|]. cbn beta iota. apply Hrest; [done|done|]. right. intros _ _. destruct Hpo as (_ & E & _). by rewrite E, lookup_insert_eq.
    + destruct Hm as [Hi2 Hm]. assert (cambia p s s2) as Hc by (eapply cambia_trans; by apply cambia_igual). split; [done|]. cbn beta iota.
      apply tras_ret; [done|]. destruct Hm as [|Hm]; [by left|]. right. intros _ Hqd. rewrite <- Ha in Hqd. destruct (Hm q (Hn _ _ Hq) Hqd) as [v Hv].
      rewrite Ha, Hl in Hv. done.
    + destruct Hm as [Hf [Hm|(q' & Hq' & Hpo)]]; (split; [|done]); (eapply cambia_trans; [by apply (cambia_igual p s s1)|]); [by apply cambia_igual|].
      rewrite (Hn _ _ Hq) in Hq'. injection Hq' as <-. by eapply pone_dir.
    + done.
Qed.

Lemma crear_arbol_run dir n p s : filter (fun c => c ≠ []) (split_byte BARRA (trim_start_matches BARRA dir)) = comps dir -> p = comps dir ++ [n] ->
  tras (cambia p s) (crear_arbol dir) s (fun _ s' => fallos ∨ (despejado p s -> arbol s !! [] = Some None -> arbol s' !! comps dir = Some None)) (fun _ => False).
Proof.
  intros Hf Hp. unfold crear_arbol. apply tras_bind, tras_gets; [by apply cambia_igual, igual_refl|]. apply tras_bind, tras_ok.
  eapply tras_callado; [apply resolve_run|..]; cbn beta; [by apply cambia_igual| |].
  - intros i s1 Hi Hn. change (comps (txt "/")) with (@nil str) in Hn. eapply tras_mono; [apply (crear_partes_run _ p _ _ [] s1 Hn); exists n; by rewrite Hf|..]; cbn beta.
    + intros s2. eapply cambia_trans. by apply cambia_igual.
    + intros _ s2 _ [|Hd]; [by left|]. right. intros H1' H2'. rewrite <- Hf. destruct Hi as [Ha _]. apply Hd; [|by rewrite Ha].
      intros r Hr1 Hr2. unfold fichero. rewrite Ha. by apply H1'.
    + done.
  - intros s1 Hi Hq. apply tras_ret; [by apply cambia_igual|]. right. intros _ Hd. by rewrite Hq in Hd by apply prefix_nil.
Qed.

(** *** The operations of the system *)
Lemma k_escribir_run p x s (Φ : unit -> T -> Prop) (Ψ : T -> Prop) : ruta_activa p = true ->
  (forall s', cambia (comps p) s s' -> fichero s' (comps p) = Some x -> Φ tt s') ->
  (forall s', cambia (comps p) s s' -> fallos ∨ ¬ (despejado (comps p) s ∧ arbol s !! [] = Some None ∧ arbol s !! comps p ≠ Some None) -> Ψ s') ->
  tras (cambia (comps p) s) (k_escribir p x) s Φ Ψ.
Proof.
  intros Hp HΦ HΨ. destruct (destino_activo p Hp) as (dir & n & D1 & D2 & D3 & D4 & D5). unfold k_escribir. rewrite D1, D2. apply tras_bind.
  eapply tras_mono; [by apply (crear_arbol_run dir n (comps p))|done| |done]; cbn beta. intros _ s1 Hc1 Hdir. cbn [of_option]. apply tras_bind, tras_ret; [done|].
  apply tras_bind. eapply tras_mono; [apply resolve_run|..]; cbn beta.
  - intros s2 Hi. eapply cambia_trans; [exact Hc1|by apply cambia_igual].
  - intros i s2 Hi Hn. assert (cambia (comps p) s s2) as Hc2 by (eapply cambia_trans; [exact Hc1|by apply cambia_igual]).
    eapply tras_mono; [apply (reponer_run i n (comps dir) x s2 (fun _ s' => cambia (comps p) s s' ∧ fichero s' (comps p) = Some x)
      (fun s' => cambia (comps p) s s' ∧ (fallos ∨ (arbol s2 !! comps dir = Some None -> arbol s2 !! comps p = Some None)))) ; [done|..]|..]; cbn beta; rewrite <- ?D3.
    + intros s3 Hc3 Hx. split; [by eapply cambia_trans|done].
    + intros s3 [Hc3 _] Hd. split; [by eapply cambia_trans|done].
    + intros s3 [Hc3 _]. by eapply cambia_trans.
    + intros [] s3 _ [Hc3 Hx]. by apply HΦ.
    + intros s3 _ [Hc3 Hd]. apply HΨ; [done|]. destruct Hd as [|Hd]; [by left|]. destruct Hdir as [|Hdir]; [by left|]. right. intros (N1 & N2 & N3).
      apply N3. destruct Hc2 as [_ Hc2]. apply Hc2, Hd. destruct Hi as [Ha _]. rewrite Ha. by apply Hdir.
  - intros s2 Hi Hq. apply HΨ; [eapply cambia_trans; [exact Hc1|by apply cambia_igual]|]. destruct Hdir as [|Hdir]; [by left|]. right. intros (N1 & N2 & N3).
    specialize (Hdir N1 N2). by rewrite Hq in Hdir by done.
Qed.

Lemma k_borrar_run p s (Φ : unit -> T -> Prop) (Ψ : T -> Prop) : ruta_activa p = true ->
  (forall s', cambia (comps p) s s' -> fichero s' (comps p) = None -> Φ tt s') -> tras (cambia (comps p) s) (k_borrar p) s Φ Ψ.
Proof.
  intros Hp HΦ. destruct (destino_activo p Hp) as (dir & n & D1 & D2 & D3 & D4 & D5). unfold k_borrar. rewrite D1. apply tras_bind, tras_ok.
  eapply tras_callado; [apply resolve_run|..]; cbn beta; [by apply cambia_igual|..].
  - intros i s1 Hi Hn. apply tras_bind. eapply tras_mono; [apply (unlink_run i n (comps dir) s1 (fun _ s' => cambia (comps p) s s' ∧ fichero s' (comps p) = None) (fun _ => False) Hn)|..]; cbn beta; rewrite <- ?D3.
    + intros r s2 Hc2 Hf _ _ _. split; [|done]. eapply cambia_trans; [by apply (cambia_igual _ s s1)|done].
    + intros s2 Hc2. eapply cambia_trans; [by apply (cambia_igual _ s s1)|done].
    + intros r s2 _ [Hc2 Hf]. apply tras_ret; [done|]. by apply HΦ.
    + done.
  - intros s1 Hi Hq. apply tras_ret; [by apply cambia_igual|]. apply HΦ; [by apply cambia_igual|]. destruct Hi as [Ha _]. unfold fichero, en_arbol.
    rewrite Ha, (Hq (comps p)); [done|]. rewrite D3. by apply prefix_app_r.
Qed.

Lemma guardar_run ruta_j dir c x s (Φ : unit -> T -> Prop) (Ψ : T -> Prop) : split_padre ruta_j = Some (dir, c) ->
  (forall s', cambia (comps dir ++ [c]) s s' -> fichero s' (comps dir ++ [c]) = Some x -> Φ tt s') ->
  (forall s', repone (comps dir ++ [c]) x s s' -> fallos ∨ (arbol s !! comps dir = Some None -> arbol s !! (comps dir ++ [c]) = Some None) -> Ψ s') ->
  tras (repone (comps dir ++ [c]) x s) ('(dir, nombre) ← of_option (throw tt) (split_padre ruta_j); padre ← LogFs.vfs_resolve dir; reponer padre nombre x) s Φ Ψ.
Proof.
  intros -> HΦ HΨ. cbn [of_option]. assert (forall s1, igual s s1 -> repone (comps dir ++ [c]) x s s1) as Hi0.
  { intros s1 Hi. eapply repone_igual; [|exact Hi]. split; [by apply cambia_igual, igual_refl|by left]. }
  apply tras_bind, tras_ret; [by apply Hi0, igual_refl|]. apply tras_bind. eapply tras_callado; [apply resolve_run|..]; cbn beta; [done|..].
  - intros i s1 [Ha Hn] Hi. eapply tras_mono; [apply (reponer_run i c (comps dir) x s1 (fun _ s' => cambia (comps dir ++ [c]) s1 s' ∧ fichero s' (comps dir ++ [c]) = Some x)
      (fun s' => repone (comps dir ++ [c]) x s1 s' ∧ (fallos ∨ (arbol s1 !! comps dir = Some None -> arbol s1 !! (comps dir ++ [c]) = Some None)))); [done|auto|auto]|..]; cbn beta.
    + intros s2 [Hc Hf]. split; [eapply cambia_trans; [by apply (cambia_igual _ s s1)|done]|]. unfold fichero in *. by rewrite <- Ha.
    + intros [] s2 _ [Hc Hf]. apply HΦ; [eapply cambia_trans; [by apply (cambia_igual _ s s1)|done]|done].
    + intros s2 _ [[Hc Hf] Hx]. rewrite Ha in Hx. apply HΨ; [|done]. split; [eapply cambia_trans; [by apply (cambia_igual _ s s1)|done]|]. unfold fichero in *. by rewrite <- Ha.
  - intros s1 Hi Hq. apply HΨ; [by apply Hi0|]. right. intros Hdd. by rewrite Hq in Hdd.
Qed.
End Lecturas.
End Maquina.
