(* ===== verification/OtaArranqueTeoremas.v ===== *)
(** * Update: what the recovery at boot guarantees

    The [Sistema] of the kernel, over the files of the machine, keeps what
    [SistemaSpec] promises; from that, and from the two copies of the journal,
    whatever the cuts, a boot that goes on does so with one version entire. *)
From S2P Require Import Prelude Texto OtaHash OtaRecord OtaTxn OtaJournal OtaBootrec OtaReconcile OtaAplicador OtaCortes OtaPunto OtaArranque.
From S2P Require LogFs Ejemplo.
From Stdlib Require Import FunctionalExtensionality.
Local Open Scope N_scope.
#[local] Set Default Proof Using "Type*".

Section Kernel.
Context {T : Type} `{MaquinaSpec T} `{Sha256} `{Crc32c}.
Hypothesis sin_averias : ¬ averias.
(** The directory of the operation and the paths it is about. *)
Variables (d : str) (rutas : list str).
Hypothesis Hd : nombre_ok d.
Hypothesis Hactivas : forall p, p ∈ rutas -> ruta_activa p = true.
(** No file of the operation has to be a directory for another. *)
Hypothesis Hrutas : forall p p', p ∈ rutas -> p' ∈ rutas -> comps p `prefix_of` comps p' -> comps p = comps p'.
Implicit Types s : T.

Definition activo_k s (p : str) : option (list byte) := if ruta_activa p then fichero s (comps p) else None.
Definition copia_k s (de : De) (p : str) : option (list byte) := fichero s (comps (ruta d de p)).
Definition ranura_k (n : N) : list str := AREA ++ [d; if n mod 2 =? 0 then txt "diario.0" else txt "diario.1"].
Definition copia_diario s (n : N) : list byte := default [] (fichero s (ranura_k n)).
Definition durable_k s : Journal :=
  match diario_pick [copia_diario s 0; copia_diario s 1] with inr j => j | inl _ => nuevo [] [] [] end.

(** A copy that does not win over [j]. *)
Definition vieja (j : Journal) (x : list byte) : Prop :=
  match parse JOURNAL_MAGIC JOURNAL_FORMATO x with inr f => f_seq f < j_seq j | inl _ => True end.
(** [j] is whole in its copy and the other one is older or broken. *)
Record vigente s (j : Journal) : Prop := {
  vi_ok : diario_ok j;
  vi_copia : fichero s (ranura_k (j_seq j)) = Some (diario_format j);
  vi_otra : vieja j (copia_diario s (j_seq j + 1));
}.
Record sano_k s : Prop := {
  sa_raiz : arbol s !! [] = Some None;
  sa_area : arbol s !! (AREA ++ [d]) = Some None;
  sa_paso p : p ∈ rutas -> despejado (comps p) s;
  sa_hoja p : p ∈ rutas -> arbol s !! comps p ≠ Some None;
  sa_ranuras n : arbol s !! ranura_k n ≠ Some None;
  sa_diario : exists j, vigente s j;
}.

Lemma comps_area : comps DIR_BASE = AREA.
Proof. by vm_compute. Qed.
Lemma comps_dir x : nombre_ok x -> comps (DIR_BASE ++ txt "/" ++ d ++ BARRA :: x) = AREA ++ [d; x].
Proof.
  intros Hx. change (DIR_BASE ++ txt "/" ++ d ++ BARRA :: x) with (DIR_BASE ++ BARRA :: (d ++ BARRA :: x)).
  by rewrite !comps_junta, comps_area, (comps_nombre d), (comps_nombre x).
Qed.
Lemma comps_copia de p : exists c, comps (ruta d de p) = AREA ++ d :: c :: comps p ∧ c ≠ txt "diario.0" ∧ c ≠ txt "diario.1".
Proof.
  destruct de; unfold ruta; [exists (txt "etapa")|exists (txt "respaldo")]; (split; [|by split]).
  - change (DIR_BASE ++ txt "/" ++ d ++ txt "/etapa/" ++ p) with (DIR_BASE ++ BARRA :: (d ++ BARRA :: (txt "etapa" ++ BARRA :: p))).
    by rewrite !comps_junta, comps_area, (comps_nombre d).
  - change (DIR_BASE ++ txt "/" ++ d ++ txt "/respaldo/" ++ p) with (DIR_BASE ++ BARRA :: (d ++ BARRA :: (txt "respaldo" ++ BARRA :: p))).
    by rewrite !comps_junta, comps_area, (comps_nombre d).
Qed.
Lemma copias_ranura n : comps (if n mod 2 =? 0 then (copias d).1 else (copias d).2) = ranura_k n ∧
  exists dir c, split_padre (if n mod 2 =? 0 then (copias d).1 else (copias d).2) = Some (dir, c) ∧ comps dir = AREA ++ [d] ∧ ranura_k n = (AREA ++ [d]) ++ [c].
Proof.
  unfold ranura_k, copias. assert (nombre_ok (txt "diario.0") ∧ nombre_ok (txt "diario.1")) as [N0 N1].
  { split; (split; [apply (bool_decide_unpack _); by vm_compute|done]). }
  assert (forall x, nombre_ok x -> exists dir, split_padre (DIR_BASE ++ txt "/" ++ d ++ BARRA :: x) = Some (dir, x) ∧ comps dir = AREA ++ [d]) as Hs.
  { intros x Hx. replace (DIR_BASE ++ txt "/" ++ d ++ BARRA :: x) with ((DIR_BASE ++ BARRA :: d) ++ BARRA :: x) by (by rewrite <- app_assoc).
    destruct (split_padre_spec (DIR_BASE ++ BARRA :: d) x Hx) as (dir & D1 & _ & D3 & _). exists dir. split; [done|].
    by rewrite D3, comps_junta, comps_area, (comps_nombre d). }
  destruct (n mod 2 =? 0); cbn [fst snd].
  - split; [by apply (comps_dir (txt "diario.0"))|]. destruct (Hs (txt "diario.0") N0) as (dir & D1 & D2). by exists dir, (txt "diario.0").
  - split; [by apply (comps_dir (txt "diario.1"))|]. destruct (Hs (txt "diario.1") N1) as (dir & D1 & D2). by exists dir, (txt "diario.1").
Qed.

Lemma mod2 n : (n mod 2 = 0 ∧ (n + 1) mod 2 = 1) ∨ (n mod 2 = 1 ∧ (n + 1) mod 2 = 0).
Proof.
  rewrite N.Div0.add_mod. pose proof (N.mod_lt n 2 ltac:(done)) as Hl. revert Hl. generalize (n mod 2). intros m Hm.
  assert (m = 0 ∨ m = 1) as [->| ->] by lia; [by left|by right].
Qed.
Lemma ranuras_dos n : ranura_k n ≠ ranura_k (n + 1) ∧ ((ranura_k n = ranura_k 0 ∧ ranura_k (n + 1) = ranura_k 1) ∨ (ranura_k n = ranura_k 1 ∧ ranura_k (n + 1) = ranura_k 0)).
Proof. unfold ranura_k. destruct (mod2 n) as [[-> ->]|[-> ->]]; (split; [done|auto]). Qed.
Lemma ranura_mas2 n : ranura_k (n + 1 + 1) = ranura_k n.
Proof. unfold ranura_k. destruct (mod2 n) as [[E1 E2]|[E1 E2]], (mod2 (n + 1)) as [[F1 F2]|[F1 F2]]; rewrite E1, F2; congruence || lia. Qed.

(** *** The journal in force *)
Lemma vigente_pick s j : vigente s j -> diario_pick [copia_diario s 0; copia_diario s 1] = inr j.
Proof.
  intros [Hok Hc Ho]. pose proof (diario_framed j Hok) as Hp. unfold vieja in Ho. unfold diario_pick, pick.
  assert (from_framed (mkFramed JOURNAL_FORMATO (j_seq j) (cuerpo_diario j)) = inr j) as Hf by by apply from_framed_cuerpo.
  assert (copia_diario s (j_seq j) = diario_format j) as E by (unfold copia_diario; by rewrite Hc). unfold copia_diario in *.
  destruct (ranuras_dos (j_seq j)) as [_ [[E1 E2]|[E1 E2]]]; rewrite E1 in E; rewrite E2 in Ho; rewrite E; cbn [pick_loop]; rewrite Hp.
  - destruct (parse _ _ (default [] (fichero s (ranura_k 1)))) as [e|f].
    + destruct e; cbn [ok_or map_err mbind sum_bind snd]; done.
    + cbn [f_seq]. destruct (N.ltb_spec (j_seq j) (f_seq f)); [lia|]. cbn [ok_or map_err mbind sum_bind snd]. done.
  - destruct (parse _ _ (default [] (fichero s (ranura_k 0)))) as [e|f].
    + destruct e; cbn [decide]; cbn [ok_or map_err mbind sum_bind snd]; done.
    + cbn [f_seq]. destruct (N.ltb_spec (f_seq f) (j_seq j)); [|lia]. cbn [ok_or map_err mbind sum_bind snd]. done.
Qed.
Lemma durable_vigente s j : vigente s j -> durable_k s = j.
Proof. intros Hv. unfold durable_k. by rewrite (vigente_pick s j). Qed.
Lemma sano_vigente s : sano_k s -> vigente s (durable_k s).
Proof. intros [_ _ _ _ _ [j Hj]]. by rewrite (durable_vigente s j). Qed.
Lemma vigente_ext s s' j : vigente s j -> (forall n, fichero s' (ranura_k n) = fichero s (ranura_k n)) -> vigente s' j.
Proof. intros [V1 V2 V3] E. split; [done|by rewrite E|]. unfold copia_diario. by rewrite E. Qed.

(** *** What an operation leaves alone *)
Lemma activa_aparte p q : ruta_activa p = true -> (AREA ++ q) `prefix_of` comps p -> False.
Proof. intros Hp [r Hr]. destruct (ruta_activa_inv p Hp) as (_ & Ha & _). apply Ha. rewrite Hr. cbn. by rewrite take_nil. Qed.
Lemma activa_de_paso p q : ruta_activa p = true -> comps p `prefix_of` (AREA ++ q) -> False.
Proof.
  intros Hp [r Hr]. destruct (ruta_activa_inv p Hp) as (_ & Ha & _). apply Ha. assert (comps p = take (length (comps p)) (AREA ++ q)) as E by (by rewrite Hr, take_app_length).
  rewrite E at 1. rewrite take_take, Nat.min_comm, <- take_take. done.
Qed.
Lemma ranura_activa p n : ruta_activa p = true -> ranura_k n ≠ comps p.
Proof. intros Hp E. eapply (activa_aparte p); [done|]. rewrite <- E. unfold ranura_k. reflexivity. Qed.
Lemma ranura_hoja n m : ranura_k n `prefix_of` ranura_k m -> ranura_k n = ranura_k m.
Proof. intros [r Hr]. pose proof (f_equal length Hr) as Hl. unfold ranura_k in Hl. rewrite !length_app in Hl. cbn in Hl. destruct r; [by rewrite app_nil_r in Hr|cbn in Hl; lia]. Qed.
Lemma copia_ranura de p n : comps (ruta d de p) ≠ ranura_k n.
Proof.
  destruct (comps_copia de p) as (c & E & H1' & H2'). rewrite E. unfold ranura_k. intros [= E' _]. destruct (n mod 2 =? 0); congruence.
Qed.
Lemma comps_iny p q : ruta_activa p = true -> ruta_activa q = true -> comps p = comps q -> p = q.
Proof. intros Hp Hq. destruct (ruta_activa_inv p Hp) as (-> & _). destruct (ruta_activa_inv q Hq) as (-> & _). apply split_iny. Qed.

(** Changes that [sano_k] survives. *)
Lemma sano_salvo c s s' : sano_k s -> cambia c s s' -> c ≠ [] -> c ≠ AREA ++ [d] ->
  (forall p, p ∈ rutas -> c `prefix_of` comps p -> c = comps p) -> (forall p, p ∈ rutas -> comps p `prefix_of` c -> comps p = c) ->
  (forall n, ranura_k n `prefix_of` c -> ranura_k n = c) -> (exists j, vigente s' j) -> sano_k s'.
Proof.
  intros [S1 S2 S3 S4 S5 _] Hc C1 C2 C3 C4 C5 Hj. pose proof Hc as [A1 A2]. split.
  - destruct (A1 [] ltac:(done)) as [->|(E & _)]; [done|]. by rewrite S1 in E.
  - destruct (A1 (AREA ++ [d]) ltac:(done)) as [->|(E & _)]; [done|]. by rewrite S2 in E.
  - intros p Hp q Hq Hne. rewrite (cambia_fichero c s s'); [by apply (S3 p)|done|]. intros ->. by apply Hne, C3.
  - intros p Hp E. destruct (decide (comps p = c)) as [Ec|Ec]; [rewrite Ec in E; apply A2 in E; rewrite <- Ec in E; by apply (S4 p)|].
    destruct (A1 (comps p) Ec) as [E1|(_ & _ & E1)]; [rewrite E1 in E; by apply (S4 p)|by apply Ec, C4].
  - intros n E. destruct (decide (ranura_k n = c)) as [Ec|Ec]; [rewrite Ec in E; apply A2 in E; rewrite <- Ec in E; by apply (S5 n)|].
    destruct (A1 (ranura_k n) Ec) as [E1|(_ & _ & E1)]; [rewrite E1 in E; by apply (S5 n)|by apply Ec, C5].
  - done.
Qed.

(** Writing or removing a file of the operation. *)
Lemma activa_deja p s s' : sano_k s -> p ∈ rutas -> cambia (comps p) s s' ->
  sano_k s' ∧ copia_k s' = copia_k s ∧ durable_k s' = durable_k s ∧ forall q, q ≠ p -> activo_k s' q = activo_k s q.
Proof.
  intros Hs Hin Hc. pose proof (Hactivas p Hin) as Hp.
  assert (forall n, fichero s' (ranura_k n) = fichero s (ranura_k n)) as Hr by (intros n; apply (cambia_fichero (comps p)); [done|by apply ranura_activa]).
  split; [|split; [|split]].
  - apply (sano_salvo (comps p) s); try done.
    + intros E. destruct (ruta_activa_inv p Hp) as (E' & _). rewrite E' in E. by apply split_ne in E.
    + intros E. apply (activa_aparte p [d]); [done|]. by rewrite <- E.
    + intros p' Hp'. by apply Hrutas.
    + intros p' Hp'. by apply Hrutas.
    + intros n Hn. exfalso. by apply (activa_aparte p _ Hp Hn).
    + destruct Hs as [_ _ _ _ _ [j Hj]]. exists j. by eapply vigente_ext.
  - extensionality de. extensionality q. unfold copia_k. apply (cambia_fichero (comps p)); [done|]. destruct (comps_copia de q) as (c & E & _). rewrite E.
    intros E'. apply (activa_aparte p (d :: c :: comps q)); [done|]. by rewrite <- E'.
  - unfold durable_k, copia_diario. by rewrite !Hr.
  - intros q Hq. unfold activo_k. destruct (ruta_activa q) eqn:Hqa; [|done]. apply (cambia_fichero (comps p)); [done|]. intros E. by apply Hq, comps_iny.
Qed.

Lemma siguiente_seq j j' : siguiente j j' -> j_seq j' = j_seq j + 1 ∧ j_seq j + 1 < U64.
Proof. by intros [st Hl|i p Hl]. Qed.
Lemma siguiente_ok j j' : diario_ok j -> siguiente j j' -> diario_ok j'.
Proof.
  intros [D1 D2 D3 D4 D5 D6 D7] [st Hl|i p Hl]; split; try done. cbn. apply Forall_lookup. intros k e Hk. destruct (decide (k = i)) as [->|Hki].
  - rewrite list_lookup_alter_eq in Hk. destruct (j_entradas j !! i) as [e0|] eqn:E0; [|done]. injection Hk as <-. rewrite Forall_lookup in D7. destruct (D7 i e0 E0). by split.
  - rewrite list_lookup_alter_ne in Hk by done. rewrite Forall_lookup in D7. by apply (D7 k).
Qed.

(** Saving the next journal in its copy, or stopping on the way. *)
Lemma guardar_deja j s s' : sano_k s -> siguiente (durable_k s) j -> repone (ranura_k (j_seq j)) (diario_format j) s s' ->
  sano_k s' ∧ copia_k s' = copia_k s ∧ activo_k s' = activo_k s ∧ (durable_k s' = j ∨ durable_k s' = durable_k s) ∧
  (fichero s' (ranura_k (j_seq j)) = Some (diario_format j) -> durable_k s' = j).
Proof.
  intros Hs Hsig [Hc Hf]. pose proof (sano_vigente s Hs) as Hv. set (j0 := durable_k s) in *. destruct (siguiente_seq _ _ Hsig) as [Hq Hu]. pose proof Hv as [V1 V2 V3].
  pose proof (siguiente_ok _ _ V1 Hsig) as Hok. destruct (ranuras_dos (j_seq j0)) as [Hne _]. rewrite Hq in *.
  assert (forall q, q ≠ ranura_k (j_seq j0 + 1) -> fichero s' q = fichero s q) as Hm by (intros q ?; by apply (cambia_fichero (ranura_k (j_seq j0 + 1)))).
  assert (fichero s' (ranura_k (j_seq j0 + 1)) = Some (diario_format j) -> vigente s' j) as Hnew.
  { intros E. split; [done|by rewrite Hq|]. rewrite Hq. unfold copia_diario. rewrite ranura_mas2, Hm, V2 by done.
    change (default [] (Some (diario_format j0))) with (diario_format j0). unfold vieja. rewrite diario_framed by done. cbn [f_seq]. lia. }
  assert (vigente s' j ∨ vigente s' j0) as Hj.
  { destruct Hf as [E|[E|E]]; [right|right|left; by apply Hnew]; (split; [done|by rewrite Hm|]); unfold copia_diario in *; rewrite E; done. }
  split; [|split; [|split; [|split]]].
  - apply (sano_salvo (ranura_k (j_seq j0 + 1)) s); try done.
    + intros p Hp Hpre. exfalso. by apply (activa_aparte p _ (Hactivas p Hp) Hpre).
    + intros p Hp Hpre. exfalso. by apply (activa_de_paso p _ (Hactivas p Hp) Hpre).
    + intros n. apply ranura_hoja.
    + destruct Hj as [Hj|Hj]; eauto.
  - extensionality de. extensionality q. apply Hm, copia_ranura.
  - extensionality q. unfold activo_k. destruct (ruta_activa q) eqn:Hqa; [|done]. apply Hm. intros E. by apply (ranura_activa q (j_seq j0 + 1)).
  - destruct Hj as [Hj|Hj]; [left|right]; by apply durable_vigente.
  - intros E. by apply durable_vigente, Hnew.
Qed.

Lemma sano_arbol s s' : sano_k s -> arbol s' = arbol s -> sano_k s' ∧ copia_k s' = copia_k s ∧ activo_k s' = activo_k s ∧ durable_k s' = durable_k s.
Proof.
  intros [S1 S2 S3 S4 S5 [j Hj]] E. unfold copia_k, activo_k, durable_k, copia_diario, fichero. rewrite !E. split; [|done].
  split; rewrite ?E; try done.
  - intros p Hp q. unfold fichero. rewrite E. by apply (S3 p).
  - exists j. apply (vigente_ext s); [done|]. intros n. unfold fichero. by rewrite E.
Qed.
Lemma sano_igual s s' : sano_k s -> igual s s' -> sano_k s' ∧ copia_k s' = copia_k s ∧ activo_k s' = activo_k s ∧ durable_k s' = durable_k s.
Proof. intros Hs [E _]. by apply sano_arbol. Qed.

(** The [Sistema] of the kernel keeps its promises. *)
#[local] Instance sistema_k : Sistema T := k_sistema d.
#[local] Instance k_spec : SistemaSpec T.
Proof using Type* Hactivas Hrutas.
  refine {| puede_fallar := fallos; activo := activo_k; copia := copia_k; durable := durable_k; activa := fun p => p ∈ rutas; sano := sano_k |}.
  - intros de p s Hs. cbn [leer sistema_k k_sistema]. unfold k_leer. pose proof (leer_ruta_run sin_averias (ruta d de p) s) as Hr. unfold tras in Hr.
    destruct (leer_ruta (ruta d de p) s) as [[o|e| |] s']; destruct Hr as [Hi Hr]; destruct (sano_igual s s' Hs Hi) as (N1 & N2 & N3 & N4); try done.
    1: split; [done|]; split; [by left|done].
    all: split; [done|]; split; [by right|done].
  - intros p x s Hs Hp. cbn [escribir sistema_k k_sistema]. pose proof (Hactivas p Hp) as Hpa.
    pose proof (k_escribir_run sin_averias p x s (fun _ s' => fichero s' (comps p) = Some x) (fun _ => fallos) Hpa) as Hr. unfold tras in Hr.
    destruct (k_escribir p x s) as [[[]|e| |] s']; (destruct Hr as [Hc Hr]; [done| |]);
      try (intros s1 _ [|Hn]; [done|]; exfalso; apply Hn; split; [by apply (sa_paso s)|split; [by apply sa_raiz|by apply (sa_hoja s)]]);
      destruct (activa_deja p s s' Hs Hp Hc) as (N1 & N2 & N3 & N4); try done.
    split; [done|]. split; [done|]. split; [done|]. split; [done|]. unfold activo_k. by rewrite Hpa.
  - intros p s Hs Hp. cbn [borrar sistema_k k_sistema]. pose proof (Hactivas p Hp) as Hpa.
    pose proof (k_borrar_run sin_averias p s (fun _ s' => fichero s' (comps p) = None) (fun _ => False) Hpa) as Hr. unfold tras in Hr.
    destruct (k_borrar p s) as [[[]|e| |] s']; (destruct Hr as [Hc Hr]; [done|]);
      destruct (activa_deja p s s' Hs Hp Hc) as (N1 & N2 & N3 & N4); try done.
    split; [done|]. split; [done|]. split; [done|]. split; [done|]. unfold activo_k. by rewrite Hpa.
  - intros j s Hs Hsig. cbn [guardar_diario sistema_k k_sistema].
    destruct (copias_ranura (j_seq j)) as (_ & dir & c & Hsp & Hdir & Hra).
    pose proof (guardar_run sin_averias _ dir c (diario_format j) s (fun _ s' => fichero s' (ranura_k (j_seq j)) = Some (diario_format j)) (fun _ => fallos) Hsp) as Hr.
    rewrite Hdir, <- Hra in Hr. change (tras ?D _ s ?F ?G) with (tras D (escribir_diario d j) s F G) in Hr. unfold tras in Hr.
    destruct (escribir_diario d j s) as [[[]|e| |] s']; (destruct Hr as [Hc Hr]; [done| |]);
      try (intros s1 _ [|Hn]; [done|]; exfalso; apply (sa_ranuras s Hs (j_seq j)), Hn, sa_area, Hs);
      destruct (guardar_deja j s s' Hs Hsig Hc) as (N1 & N2 & N3 & N4 & N5); try done; auto.
Defined.

(** ** The boot *)
Lemma tras_sin {A} (m : M T unit A) s : (let '(r, s') := m s in igual s s' ∧ match r with Ok _ | Err _ => True | _ => False end) ->
  tras (igual s) m s (fun _ _ => True) (fun _ => True).
Proof using Type. unfold tras. destruct (m s) as [[a|e| |] s']; by intros []. Qed.

Lemma leer_diario_run s : sano_k s -> tras (igual s) (leer_diario d) s (fun e _ => e = JDiario (durable_k s)) (fun _ => False).
Proof using Type* Hd.
  intros Hs. pose proof (sano_vigente s Hs) as Hv. unfold leer_diario.
  assert (forall n s1, igual s s1 -> tras (igual s1) (leer_ruta (if n mod 2 =? 0 then (copias d).1 else (copias d).2)) s1 (fun o _ => default [] o = copia_diario s n) (fun _ => False)) as Hr.
  { intros n s1 [E _]. eapply tras_mono; [by apply leer_ruta_run|done| |done]; cbn beta. intros o s2 _ ->. destruct (copias_ranura n) as [-> _]. unfold copia_diario, fichero. by rewrite E. }
  apply callado_bind. eapply tras_mono; [apply (Hr 0 s), igual_refl|done| |done]; cbn beta. intros a s1 Hi1 Ha.
  apply callado_bind. eapply tras_mono; [apply (Hr 1 s1 Hi1)|done| |done]; cbn beta. intros b s2 Hi2 Hb. rewrite Ha, Hb, (vigente_pick s (durable_k s) Hv).
  assert (bool_decide (copia_diario s 0 = []) && bool_decide (copia_diario s 1 = []) = false) as ->.
  { apply andb_false_iff. destruct Hv as [_ V _]. assert (forall n, fichero s (ranura_k n) = Some (diario_format (durable_k s)) -> bool_decide (copia_diario s n = []) = false) as Hne.
    { intros n E. apply bool_decide_eq_false. unfold copia_diario. rewrite E. change (diario_format (durable_k s) ≠ []). unfold diario_format, frame, con_suma, cabecera. by intros E'%(f_equal length). }
    destruct (ranuras_dos (j_seq (durable_k s))) as [_ [[E _]|[E _]]]; rewrite E in V; [left|right]; by apply Hne. }
  apply tras_ret; [by apply igual_refl|done].
Qed.

Lemma leer_sectores_run lba : forall ks s, Forall (fun k => k < 16) ks -> lba + 16 < U64 -> tras (igual s) (leer_sectores lba ks) s (fun _ _ => True) (fun _ => False).
Proof using Type.
  induction ks as [|k ks IH]; intros s Hk Hl; [by apply tras_ret; [apply igual_refl|]|]. apply Forall_cons in Hk as [Hk Hks]. cbn [leer_sectores].
  apply callado_bind, tras_add64; [lia|by apply igual_refl|]. apply callado_bind, tras_ok. eapply tras_mono; [apply tras_sin, esp_read_ok|done|..]; cbn beta.
  - intros x s1 _ _. apply callado_bind. eapply tras_mono; [by apply IH|done| |done]. intros o s2 _ _. by apply tras_ret; [apply igual_refl|].
  - intros s1 _ _. by apply tras_ret; [apply igual_refl|].
Qed.
Lemma leer_bootrec_run s : tras (igual s) leer_bootrec s (fun _ _ => True) (fun _ => False).
Proof using Type.
  unfold leer_bootrec. apply callado_bind, tras_gets; [by apply igual_refl|]. unfold id. destruct (esp_locate _ _ _ s) as [lba|] eqn:E; [|by apply tras_ret; [apply igual_refl|]].
  apply esp_locate_ok in E. apply callado_bind. eapply tras_mono; [apply leer_sectores_run; [|done]|done| |done].
  { apply Forall_forall. intros k Hk%elem_of_upto. assert (BOOTREC_SIZE / SECTOR = 8) as E' by done. lia. }
  intros [buf|] s1 _ _; [|by apply tras_ret; [apply igual_refl|]]. destruct (bootrec_pick buf) as [[[]| |]|r]; by apply tras_ret; [apply igual_refl|].
Qed.
Lemma buscar_run s : tras (igual s) buscar_dir_unico s (fun _ _ => True) (fun _ => False).
Proof using Type* sin_averias.
  unfold buscar_dir_unico. apply callado_bind, tras_ok. eapply tras_mono; [by apply resolve_run|done|..]; cbn beta.
  - intros i s1 _ _. apply callado_bind, tras_ok. eapply tras_mono; [apply tras_sin, read_dir_ok|done|..]; cbn beta; intros; destruct (filter _ _) as [|? []]; by apply tras_ret; [apply igual_refl|].
  - intros s1 _ _. by apply tras_ret; [apply igual_refl|].
Qed.

Lemma escribir_sectores_run base : forall trozos i s, base + i + lenN trozos < U64 -> tras (igual s) (escribir_sectores base i trozos) s (fun _ _ => True) (fun _ => False).
Proof using Type.
  induction trozos as [|x trozos IH]; intros i s Hl; [by apply tras_ret; [apply igual_refl|]|]. rewrite lenN_cons in Hl. cbn [escribir_sectores].
  apply callado_bind, tras_add64; [lia|by apply igual_refl|]. apply callado_bind, tras_ok. unfold tras at 1. pose proof (esp_write_ok (base + i) x s) as Hw.
  destruct (esp_write (base + i) x s) as [[[]|e| |] s1]; destruct Hw as [Hi Hw]; split; try done. apply IH. lia.
Qed.
Lemma chunks_len n : forall fuel k l, (length l <= k * n)%nat -> (length (chunks fuel n l) <= k)%nat.
Proof using Type.
  induction fuel as [|fuel IH]; intros k l Hl; [cbn; lia|]. destruct l as [|x l]; [cbn; lia|]. destruct k as [|k]; [cbn in Hl; lia|]. cbn [chunks length].
  apply le_n_S, IH. rewrite length_drop. lia.
Qed.
Definition seq_ok (esp : EstadoEsp) : Prop := match esp with EspRegistro r => b_seq r + 1 < U64 | _ => True end.
Lemma publicar_run esp dec i s : seq_ok esp -> tras (igual s) (publicar esp dec i) s (fun _ _ => True) (fun _ => False).
Proof using Type.
  intros Hq. unfold publicar. destruct esp as [| |r]; [by apply tras_ret; [apply igual_refl|]..|]. apply callado_bind, tras_add64; [done|by apply igual_refl|].
  set (r' := con_decision _ _ _ _). destruct (bootrec_format r') as [|bytes] eqn:Ef; [by apply tras_ret; [apply igual_refl|]|].
  apply callado_bind, tras_gets; [by apply igual_refl|]. unfold id. destruct (esp_locate _ _ _ s) as [lba|] eqn:E; [|by apply tras_ret; [apply igual_refl|]].
  apply esp_locate_ok in E. assert (bootrec_ranura r' * SLOT_SIZE / SECTOR <= 6) as Hr.
  { unfold bootrec_ranura, ranura. pose proof (N.mod_lt (b_seq r') SLOTS ltac:(done)) as Hm. revert Hm. change SLOTS with 4. generalize (b_seq r' mod 4). intros m Hm.
    change (m * SLOT_SIZE) with (m * 1024). apply N.lt_succ_r, N.Div0.div_lt_upper_bound. change SECTOR with 512. lia. }
  apply callado_bind, tras_add64; [lia|by apply igual_refl|]. apply escribir_sectores_run.
  assert (length bytes = 1024%nat) as Hb.
  { unfold bootrec_format, frame_slot in Ef. revert Ef. generalize (frame BOOTREC_MAGIC BOOTREC_FORMATO (b_seq r') (cuerpo_bootrec r')). intros out.
    destruct (N.ltb_spec SLOT_SIZE (lenN out)) as [|Hl]; [done|]. cbn [map_err]. intros [= <-]. rewrite length_app, length_replicate. unfold lenN in Hl. assert (SLOT_SIZE = 1024) as E' by done. lia. }
  pose proof (chunks_len (N.to_nat SECTOR) (length bytes) 2 bytes) as Hc. rewrite Hb in Hc at 1. specialize (Hc ltac:(change (N.to_nat SECTOR) with 512%nat; lia)).
  unfold lenN. lia.
Qed.

(** *** One boot *)
Section Operacion.
Variables (A : Contenidos) (C : De -> Contenidos) (es0 : list Entrada).
Hypothesis Hop : operacion C es0.
Abbreviation co := (coherente A C es0).

Lemma co_arbol s s' : co s -> arbol s' = arbol s -> co s'.
Proof using Type*. intros Hc Hi. destruct (sano_arbol s s' (co_sano _ _ _ _ Hc) Hi) as (N1 & N2 & N3 & N4). by apply (coherente_igual A C es0 Hop s). Qed.
Lemma co_igual s s' : co s -> igual s s' -> co s'.
Proof using Type*. intros Hc [E _]. by apply (co_arbol s). Qed.
Lemma tras_co {X} (m : M T unit X) s (Φ : X -> T -> Prop) (Ψ : T -> Prop) Φ' Ψ' : co s -> tras (igual s) m s Φ' Ψ' ->
  (forall a s', co s' -> igual s s' -> Φ' a s' -> Φ a s') -> (forall s', Ψ' s' -> Ψ s') -> tras co m s Φ Ψ.
Proof using Type*. intros Hc Hm HΦ HΨ. eapply tras_callado; [exact Hm|by intros; eapply co_igual|intros; apply HΦ; eauto using co_igual|auto]. Qed.

(** What the boot may be told: the record of this operation, with a decision this
    module writes or the one that armed it; or no record, and this directory the
    only one. *)
Definition de_esta (esp : EstadoEsp) : Prop :=
  match esp with EspRegistro r => b_dir r = d ∧ b_decision r ≠ DRevertir ∧ b_decision r ≠ DRescatar ∧ b_seq r + 1 < U64 | _ => True end.
Definition guia s : Prop := forall esp s1, leer_bootrec s = (Ok esp, s1) -> de_esta esp ∧
  match esp with EspRegistro _ => True | _ => exists s2, buscar_dir_unico s1 = (Ok (Some d), s2) end.

(** The state of the journal, and what an action makes of it. *)
Definition en (e : TxnState) s : Prop := j_estado (durable_k s) = e.
Definition estado_tras (a : Recuperacion) (e : TxnState) : TxnState := match a with RAplicar _ => Probando | RRevertir _ => Revertido | _ => e end.
Definition diagnostica (a : Recuperacion) : bool := match a with RDiagnostico _ => true | _ => false end.
Definition cabe_seq s : Prop := j_seq (durable_k s) + N.of_nat (length es0) + 2 < U64.

Lemma co_estado s : co s -> j_estado (durable_k s) ∈ [Armado; Aplicando; Probando; Confirmado; Revirtiendo; Revertido].
Proof using Type*. intros [_ _ _ _ He]. unfold por_estado in He. change (durable s) with (durable_k s) in He. destruct (j_estado (durable_k s)); set_solver. Qed.

(** What [reconcile] may answer about it. *)
Lemma reconcile_esta esp j : de_esta esp -> j_estado j ∈ [Armado; Aplicando; Probando; Confirmado; Revirtiendo; Revertido] ->
  match reconcile esp (JDiario j) with
  | RNormal | RDescartar _ | RRetrocederAPreparado _ | RPublicarProbando _ | RCompletarConfirmacion _ | RCompletarReversion _ =>
      j_estado j ∈ [Armado; Probando; Confirmado; Revertido]
  | RAplicar _ => j_estado j = Armado ∨ j_estado j = Aplicando
  | RRevertir _ => j_estado j ∈ [Aplicando; Probando; Confirmado; Revirtiendo]
  | RRescatar _ => False
  | RDiagnostico _ => True
  end.
Proof using Type.
  clear -d. intros He Hj. unfold reconcile. destruct esp as [| |r].
  - unfold sin_registro. destruct (j_estado j); set_solver.
  - unfold registro_roto. destruct (j_estado j); cbn; set_solver.
  - destruct He as (_ & He1 & He2 & _). case_bool_decide; cbn [negb]; [|done]. unfold con_registro.
    destruct (b_decision r), (j_estado j); cbn; try done; try set_solver; auto.
Qed.

Lemma ejecutar_run aplica s : co s -> cabe_seq s ->
  (if aplica : bool then j_estado (durable_k s) = Armado ∨ j_estado (durable_k s) = Aplicando else j_estado (durable_k s) ∈ [Aplicando; Probando; Confirmado; Revirtiendo]) ->
  tras co (ejecutar d (JDiario (durable_k s)) aplica) s (fun b s' => if b : bool then en (if aplica then Probando else Revertido) s' else fallos) (fun _ => False).
Proof using Type*.
  intros Hc Hq Hst. unfold tras, ejecutar. destruct aplica.
  - pose proof (aplicar_corre A C es0 Hop s Hc Hst Hq) as Hr. unfold corre in Hr. change (durable s) with (durable_k s) in Hr. change sistema_k with (k_sistema d) in Hr.
    destruct (aplicar (durable_k s, s)) as [[u|e| |] [j' s']]; cbn [snd fst] in *; destruct Hr as [Hc' Hr]; (split; [done|]); try done.
    destruct Hr as (-> & _ & Hr). done.
  - pose proof (revertir_corre A C es0 Hop s Hc Hst Hq) as Hr. unfold corre in Hr. change (durable s) with (durable_k s) in Hr. change sistema_k with (k_sistema d) in Hr.
    destruct (revertir (durable_k s, s)) as [[u|e| |] [j' s']]; cbn [snd fst] in *; destruct Hr as [Hc' Hr]; (split; [done|]); try done.
    destruct Hr as (-> & _ & Hr). done.
Qed.

Lemma en_igual e s s' : co s -> igual s s' -> en e s -> en e s'.
Proof using Type*. intros Hc Hi. destruct (sano_igual s s' (co_sano _ _ _ _ Hc) Hi) as (_ & _ & _ & E). unfold en. by rewrite E. Qed.

(** Writing the decision, and taking the lock. *)
Lemma publica_run esp dec i e s : co s -> seq_ok esp -> en e s -> tras co (publicar esp dec i) s (fun _ => en e) (fun _ => False).
Proof using Type*. intros Hc Hq He. eapply (tras_co _ s); [done|by apply publicar_run| |done]. intros [] s1 Hc1 Hi1 _. by apply (en_igual e s). Qed.
Lemma cerrojo_run f e s : (forall s1, igual s1 (f s1)) -> co s -> en e s -> tras co (modify f) s (fun _ => en e) (fun _ => False).
Proof using Type*. intros Hf Hc He. apply tras_modify; [by apply (co_igual s)|by apply (en_igual e s)]. Qed.

Lemma recuperar_run s : co s -> guia s -> hay_fs s = true -> cabe_seq s ->
  tras co recuperar s (fun b s' => exists esp s1, leer_bootrec s = (Ok esp, s1) ∧ de_esta esp ∧ let a := reconcile esp (JDiario (durable_k s)) in
      if b : bool then diagnostica a = false ∧ en (estado_tras a (j_estado (durable_k s))) s' else fallos ∨ diagnostica a = true) (fun _ => False).
Proof using Type*.
  intros Hc Hg Hfs Hq. unfold recuperar. apply tras_bind, tras_gets; [done|]. unfold id. rewrite Hfs. cbn [negb]. apply tras_bind.
  pose proof (leer_bootrec_run s) as Hb. unfold tras at 1. unfold tras in Hb. destruct (leer_bootrec s) as [[esp|e| |] s1] eqn:Eb; destruct Hb as [Hi1 Hb]; try done.
  2-3: split; [by eapply co_igual|done].
  destruct (Hg esp s1 Eb) as [He Hdir]. split; [by eapply co_igual|]. pose proof (co_igual _ _ Hc Hi1) as Hc1. apply tras_bind.
  assert (tras (igual s1) (match esp with EspRegistro r => mret (Some (b_dir r)) | _ => buscar_dir_unico end) s1 (fun o _ => o = Some d) (fun _ => False)) as Hod.
  { pose proof (buscar_run s1) as Hbu. unfold tras in *. destruct esp as [| |r].
    - destruct Hdir as [s2 Hdir]. rewrite Hdir in *. by destruct Hbu.
    - destruct Hdir as [s2 Hdir]. rewrite Hdir in *. by destruct Hbu.
    - destruct He as (E & _). rewrite E. by split; [apply igual_refl|]. }
  eapply (tras_co _ s1); [done|exact Hod| |done]. intros ? s2 Hc2 Hi2 ->. apply tras_bind.
  eapply (tras_co _ s2); [done|apply leer_diario_run, Hc2| |done]. intros ? s3 Hc3 Hi3 ->.
  assert (igual s s3) as Hi by (eapply igual_trans; [exact Hi1|]; by eapply igual_trans).
  destruct (sano_igual s s3 (co_sano _ _ _ _ Hc) Hi) as (_ & _ & _ & E3). destruct (sano_igual s2 s3 (co_sano _ _ _ _ Hc2) Hi3) as (_ & _ & _ & E23).
  rewrite <- E23. clear E23 s2 Hi1 Hi2 Hi3 Hc1 Hc2 Hod Hdir Hb. pose proof (reconcile_esta esp _ He (co_estado s3 Hc3)) as Hre.
  assert (seq_ok esp) as Hseq by (destruct esp; try done; by destruct He as (_ & _ & _ & ?)). unfold cabe_seq in Hq. rewrite <- E3 in Hq. fold (cabe_seq s3) in Hq. rewrite <- E3.
  cbn beta iota. assert (forall B (y : B), match esp with EspAusente => y | _ => y end = y) as -> by (intros; by destruct esp).
  eapply (tras_mono co co _ s3 (fun b s' => let a := reconcile esp (JDiario (durable_k s3)) in
      if b : bool then diagnostica a = false ∧ en (estado_tras a (j_estado (durable_k s3))) s' else fallos ∨ diagnostica a = true) _ (fun _ => False)); [|done|intros b s' _ Hb'; by exists esp, s1|done].
  cbv zeta. assert (en (j_estado (durable_k s3)) s3) as Hen by done. revert Hen. generalize (j_estado (durable_k s3)) at 1 2. intros e Hen.
  destruct (reconcile esp (JDiario (durable_k s3))) as [| | | | | | | | |m] eqn:Er; try done; cbn [diagnostica estado_tras].
  all: try (by apply tras_ret).
  - apply tras_bind. eapply tras_mono; [by apply (ejecutar_run true)|done| |done]. intros [] s4 Hc4 He4; cbn beta iota.
    + apply tras_bind, tras_bind. eapply tras_mono; [by apply publica_run|done| |done]. intros [] s5 Hc5 He5.
      eapply tras_mono; [by apply cerrojo_run; [apply tomar_ok|..]|done| |done]. intros [] s6 Hc6 He6. by apply tras_ret.
    + apply tras_bind, tras_ret; [done|]. apply tras_ret; [done|by left].
  - apply tras_bind. eapply tras_mono; [by apply publica_run|done| |done]. intros [] s5 Hc5 He5.
    apply tras_bind. eapply tras_mono; [by apply cerrojo_run; [apply tomar_ok|..]|done| |done]. intros [] s6 Hc6 He6. by apply tras_ret.
  - apply tras_bind. eapply tras_mono; [by apply (ejecutar_run false)|done| |done]. intros [] s4 Hc4 He4; cbn beta iota.
    + apply tras_bind. eapply tras_mono; [by apply publica_run|done| |done]. intros [] s5 Hc5 He5. by apply tras_ret.
    + apply tras_bind, tras_ret; [done|]. apply tras_ret; [done|by left].
  - apply tras_bind. eapply tras_mono; [by apply publica_run|done| |done]. intros [] s5 Hc5 He5. by apply tras_ret.
  - apply tras_bind. eapply tras_mono; [by apply publica_run|done| |done]. intros [] s5 Hc5 He5. by apply tras_ret.
  - apply tras_ret; [done|by right].
Qed.

(** Saving the trial as passed. *)
Lemma confirma_run s : co s -> j_estado (durable_k s) = Probando -> j_seq (durable_k s) + 1 < U64 ->
  tras co (escribir_diario d (set_seq (j_seq (durable_k s) + 1) (set_estado Confirmado (durable_k s)))) s (fun _ _ => True) (fun _ => True).
Proof using Type*.
  intros Hc He Hq. set (j := set_seq _ _). assert (siguiente (durable_k s) j) as Hsig by by apply sig_estado.
  pose proof (guardar_spec j s (co_sano _ _ _ _ Hc) Hsig) as Hg. change (guardar_diario j) with (escribir_diario d j) in Hg. unfold tras.
  destruct (escribir_diario d j s) as [r s']. destruct Hg as (N1 & N2 & N3 & Hr).
  assert (durable s' = j ∨ durable s' = durable s -> co s') as Hco.
  { intros [E|E]; [|by apply (coherente_igual A C es0 Hop s)]. apply (coherente_estado A C es0 Hop s s' Confirmado (j_seq (durable_k s) + 1)); try done.
    unfold por_estado. change (durable s) with (durable_k s). by rewrite He. }
  destruct r as [[]|e| |]; (split; [apply Hco; tauto|]); tauto.
Qed.
Lemma confirmar_run s : co s -> guia s -> cabe_seq s -> tras co confirmar s (fun b _ => b = true) (fun _ => False).
Proof using Type*.
  intros Hc Hg Hq. unfold confirmar. apply tras_bind. pose proof (leer_bootrec_run s) as Hb. unfold tras at 1. unfold tras in Hb.
  destruct (leer_bootrec s) as [[esp|e| |] s1] eqn:Eb; destruct Hb as [Hi1 Hb]; try done. 2-3: split; [by eapply co_igual|done].
  destruct (Hg esp s1 Eb) as [He _]. pose proof (co_igual _ _ Hc Hi1) as Hc1. split; [done|]. destruct esp as [| |r]; [by apply tras_ret..|]. destruct He as (E & _ & _ & Hseq).
  assert (forall dec i s2, co s2 -> tras co (publicar (EspRegistro r) dec i;; modify liberar_del_kernel;; mret true) s2 (fun b _ => b = true) (fun _ => False)) as Hpub.
  { intros dec i s2 Hc2. apply tras_bind. eapply (tras_co _ s2); [done|by apply publicar_run| |done]. intros [] s3 Hc3 _ _.
    assert (co (liberar_del_kernel s3)) as Hc4 by (apply (co_igual s3); [done|apply liberar_ok]). apply tras_bind, tras_modify; [done|]. by apply tras_ret. }
  destruct (b_decision r); try (by apply tras_ret); [|by apply Hpub]. rewrite E. apply tras_bind.
  eapply (tras_co _ s1); [done|apply leer_diario_run, Hc1| |done]. intros ? s2 Hc2 Hi2 ->. cbn beta iota. apply tras_bind.
  eapply (tras_mono co co _ s2 (fun _ _ => True) _ (fun _ => False)); [|done| |done].
  2: { intros [] s3 Hc3 _. by apply Hpub. }
  destruct (sano_igual s1 s2 (co_sano _ _ _ _ Hc1) Hi2) as (_ & _ & _ & E2). destruct (sano_igual s s1 (co_sano _ _ _ _ Hc) Hi1) as (_ & _ & _ & E1).
  unfold cabe_seq in Hq. rewrite <- E1 in Hq. rewrite <- E2 in *. clear E1 E2 Hi1 Hi2 Hc1.
  destruct (decide (j_estado (durable_k s2) = Probando)) as [Hp|Hp].
  - rewrite (avanzar_ok PruebaSuperada Confirmado) by (by rewrite ?Hp || lia). apply tras_bind, tras_ok. eapply tras_mono; [by apply confirma_run; [..|lia]|done| |]; intros; by apply tras_ret.
  - pose proof (co_estado s2 Hc2) as Hst. unfold avanzar. rewrite bind_eq. cbn [gets]. unfold id at 1. destruct (j_estado (durable_k s2)); try done; by apply tras_ret.
Qed.

(** ** Many boots *)

(** A boot, to its end or to a cut; the confirmation the client asks for; and the
    machine starting again, with what is on its disks. *)
Inductive vida s s' : Prop :=
| vi_arranque : guia s -> hay_fs s = true -> cabe_seq s -> (recuperar s).2 = s' -> vida s s'
| vi_confirmar : guia s -> cabe_seq s -> (confirmar s).2 = s' -> vida s s'
| vi_reinicio : arbol s' = arbol s -> vida s s'.

Lemma vida_co s s' : co s -> rtc vida s s' -> co s'.
Proof using Type*.
  intros Hc Hr. induction Hr as [|s s1 s2 H1' _ IH]; [done|]. apply IH. destruct H1' as [Hg Hf Hq <-|Hg Hq <-|E].
  - pose proof (recuperar_run s Hc Hg Hf Hq) as Hr. unfold tras in Hr. destruct (recuperar s) as [r s']. apply Hr.
  - pose proof (confirmar_run s Hc Hg Hq) as Hr. unfold tras in Hr. destruct (confirmar s) as [r s']. apply Hr.
  - by apply (co_arbol s).
Qed.

(** A run of the recovery that goes on. *)
Lemma recuperar_entero s s' : co s -> guia s -> hay_fs s = true -> cabe_seq s -> recuperar s = (Ok true, s') ->
  co s' ∧ j_estado (durable_k s') ∈ [Armado; Probando; Confirmado; Revertido].
Proof using Type*.
  intros Hc Hg Hf Hq Hr. pose proof (recuperar_run s Hc Hg Hf Hq) as H'. unfold tras in H'. rewrite Hr in H'. destruct H' as (Hc' & esp & s1 & _ & He & Hd' & Hen).
  split; [done|]. unfold en in Hen. rewrite Hen. pose proof (reconcile_esta esp _ He (co_estado s Hc)) as Hre.
  destruct (reconcile esp _); cbn [estado_tras diagnostica] in *; try done; clear; set_solver.
Qed.
End Operacion.

(** An operation the client left armed: its files are the ones it keeps copies
    of. *)
Abbreviation plan s := (sin_progreso (j_entradas (durable_k s))).
Record armada s : Prop := {
  ar_sano : sano_k s;
  ar_operacion : operacion (copia_k s) (plan s);
  ar_estado : j_estado (durable_k s) = Armado;
  ar_nueva e : e ∈ j_entradas (durable_k s) -> e_progreso e ≠ Aplicado ∧ e_progreso e ≠ Restaurado;
  ar_previo e : e ∈ plan s -> previo (copia_k s) e = activo_k s (e_path e);
}.
Lemma armada_co s : armada s -> coherente (activo_k s) (copia_k s) (plan s) s.
Proof using Type*. intros [A1 A2 A3 A4 A5]. exact (coherente_armado s A1 A3 A4). Qed.

(** C6. From an operation left armed, after any number of boots, confirmations and
    restarts, each cut before or after any write: a boot that goes on does so with the
    whole new version, and then the journal says it is on trial or confirmed, or
    with every file as it was before the operation, and then the journal says armed
    or undone. *)
Theorem arranque_entero s0 s s' : armada s0 -> rtc (vida (plan s0)) s0 s -> guia s -> hay_fs s = true -> cabe_seq (plan s0) s ->
  recuperar s = (Ok true, s') ->
  (j_estado (durable_k s') ∈ [Probando; Confirmado] ∧ forall q, activo_k s' q = nueva (activo_k s0) (copia_k s0) (plan s0) q) ∨
  (j_estado (durable_k s') ∈ [Armado; Revertido] ∧ forall q, activo_k s' q = activo_k s0 q).
Proof using Type*.
  intros Ha Hv Hg Hf Hq Hr. pose proof (vida_co _ _ _ (ar_operacion _ Ha) s0 s (armada_co _ Ha) Hv) as Hc.
  destruct (recuperar_entero _ _ _ (ar_operacion _ Ha) s s' Hc Hg Hf Hq Hr) as [Hc' He].
  assert (j_estado (durable_k s') = Probando ∨ j_estado (durable_k s') = Confirmado ∨ j_estado (durable_k s') = Revertido ∨ j_estado (durable_k s') = Armado) as [E|[E|[E|E]]] by (clear -He; set_solver).
  1-2: left; split; [rewrite E; clear; set_solver|]; intros q; exact (coherente_nueva (activo_k s0) (copia_k s0) (plan s0) s' q (ar_operacion _ Ha) Hc' ltac:(tauto)).
  all: right; split; [rewrite E; clear; set_solver|]; intros q; exact (coherente_anterior (activo_k s0) (copia_k s0) (plan s0) s' q Hc' (ar_previo _ Ha) ltac:(tauto)).
Qed.

End Kernel.

(** ** The disks in another machine

    What the boots keep is a matter of the files: it passes to any machine with the
    same ones. *)
Section Relevo.
Context {T1 T2 : Type} `{M1 : MaquinaSpec T1} `{M2 : MaquinaSpec T2} `{Sha256} `{Crc32c}.
Hypothesis sin_averias1 : ¬ averias (T := T1).
Hypothesis sin_averias2 : ¬ averias (T := T2).
Variables (d : str) (rutas : list str).
Hypothesis Hd : nombre_ok d.
Hypothesis Hactivas : forall p, p ∈ rutas -> ruta_activa p = true.
Hypothesis Hrutas : forall p p', p ∈ rutas -> p' ∈ rutas -> comps p `prefix_of` comps p' -> comps p = comps p'.

Lemma fichero_relevo (s : T1) (s' : T2) q : arbol s' = arbol s -> fichero s' q = fichero s q.
Proof using Type. intros E. unfold fichero. by rewrite E. Qed.
Lemma activo_relevo (s : T1) (s' : T2) : arbol s' = arbol s -> activo_k s' = activo_k s.
Proof using Type. intros E. apply functional_extensionality. intros p. unfold activo_k. by rewrite (fichero_relevo s s' _ E). Qed.
Lemma copia_relevo (s : T1) (s' : T2) : arbol s' = arbol s -> copia_k d s' = copia_k d s.
Proof using Type. intros E. apply functional_extensionality. intros de. apply functional_extensionality. intros p. unfold copia_k. by rewrite (fichero_relevo s s' _ E). Qed.
Lemma durable_relevo (s : T1) (s' : T2) : arbol s' = arbol s -> durable_k d s' = durable_k d s.
Proof using Type. intros E. unfold durable_k, copia_diario. by rewrite !(fichero_relevo s s' _ E). Qed.
Lemma sano_relevo (s : T1) (s' : T2) : arbol s' = arbol s -> sano_k d rutas s -> sano_k d rutas s'.
Proof using Type.
  intros E [S1 S2 S3 S4 S5 [j [V1 V2 V3]]]. split; rewrite ?E; try done.
  - intros p Hp q. rewrite (fichero_relevo s s' _ E). by apply (S3 p).
  - exists j. split; [done|by rewrite (fichero_relevo s s' _ E)|]. unfold copia_diario. by rewrite (fichero_relevo s s' _ E).
Qed.
Lemma co_relevo A C es0 (s : T1) (s' : T2) : arbol s' = arbol s ->
  coherente (SS := k_spec sin_averias1 d rutas Hd Hactivas Hrutas) A C es0 s -> coherente (SS := k_spec sin_averias2 d rutas Hd Hactivas Hrutas) A C es0 s'.
Proof using Type.
  intros E [C1 C2 C3 C4 C5]. pose proof (activo_relevo s s' E) as Ea. pose proof (copia_relevo s s' E) as Ec. pose proof (durable_relevo s s' E) as Ed.
  split.
  - by apply (sano_relevo s).
  - change (copia_k d s' = C). by rewrite Ec.
  - change (sin_progreso (j_entradas (durable_k d s')) = es0). by rewrite Ed.
  - change (forall q, q ∉ e_path <$> es0 -> activo_k s' q = A q). by rewrite Ea.
  - unfold por_estado, marcas, durable, activo in *. cbn [k_spec] in *. rewrite Ed, Ea. exact C5.
Qed.

(** C7. After any number of such boots on a machine whose power may go at any write,
    the recovery on a machine with the same files on its disks where nothing fails
    returns an answer: it stops the boot exactly when the record and the journal
    call for a diagnosis, and otherwise it leaves the journal in the state that the
    action [reconcile] chose must end in. *)
Theorem arranque_decide (s0 s1 : T1) (s : T2) : armada sin_averias1 d rutas Hd Hactivas Hrutas s0 ->
  rtc (vida d (sin_progreso (j_entradas (durable_k d s0)))) s0 s1 -> arbol s = arbol s1 ->
  guia d s -> hay_fs s = true -> cabe_seq d (sin_progreso (j_entradas (durable_k d s0))) s -> ¬ fallos (T := T2) ->
  exists esp s2 b s', leer_bootrec s = (Ok esp, s2) ∧ recuperar s = (Ok b, s') ∧ let a := reconcile esp (JDiario (durable_k d s)) in
    b = negb (diagnostica a) ∧ (b = true -> j_estado (durable_k d s') = estado_tras a (j_estado (durable_k d s))).
Proof using Type*.
  intros Ha Hv He Hg Hf Hq Hn. pose proof (ar_operacion _ _ _ _ _ _ _ Ha) as Hop.
  pose proof (vida_co sin_averias1 d rutas Hd Hactivas Hrutas _ _ _ Hop s0 s1 (armada_co _ _ _ _ _ _ _ Ha) Hv) as Hc.
  apply (co_relevo _ _ _ s1 s He) in Hc.
  assert (operacion (SS := k_spec sin_averias2 d rutas Hd Hactivas Hrutas) (copia_k d s0) (sin_progreso (j_entradas (durable_k d s0)))) as Hop2 by (by destruct Hop; split).
  pose proof (recuperar_run sin_averias2 d rutas Hd Hactivas Hrutas _ _ _ Hop2 s Hc Hg Hf Hq) as H'. unfold tras in H'. destruct (recuperar s) as [[b|e| |] s'] eqn:Er; destruct H' as [Hc' H']; try done.
  destruct H' as (esp & s2 & E & _ & Hb). exists esp, s2, b, s'. split; [done|]. split; [done|]. cbv zeta in *. destruct b.
  - destruct Hb as [-> Hb]. by split.
  - destruct Hb as [|Hb]; [done|]. by rewrite Hb.
Qed.
End Relevo.

(** ** A machine in memory

    A tree, the sectors of the ESP and what is left until the power goes
    ([cortable]); [averiada] says whether the medium may refuse to remove the file
    [q_malo]. The inode of a path is its code. *)
Record Equipo (cortable averiada : bool) := mkEquipo {
  q_arbol : Arbol;
  q_sectores : gmap N (list byte);
  q_malo : option (list str);
  q_cerrojo : bool;
  q_quedan : N;
}.
Arguments mkEquipo {cortable averiada}. Arguments q_arbol {cortable averiada}. Arguments q_sectores {cortable averiada}.
Arguments q_malo {cortable averiada}. Arguments q_cerrojo {cortable averiada}. Arguments q_quedan {cortable averiada}.

Section Equipo.
Context {cortable averiada : bool}.
Abbreviation Q := (Equipo cortable averiada).
Implicit Types s : Q.

Definition nodo_q (_ : Q) (i : N) : option (list str) := match i with N0 => None | N.pos p => decode p end.
Definition inodo (q : list str) : N := N.pos (encode q).
Definition con_arbol (f : Arbol -> Arbol) s : Q := mkEquipo (f (q_arbol s)) (q_sectores s) (q_malo s) (q_cerrojo s) (q_quedan s).
Definition con_sectores (f : gmap N (list byte) -> gmap N (list byte)) s : Q := mkEquipo (q_arbol s) (f (q_sectores s)) (q_malo s) (q_cerrojo s) (q_quedan s).
Definition con_cerrojo (b : bool) s : Q := mkEquipo (q_arbol s) (q_sectores s) (q_malo s) b (q_quedan s).
Definition con_quedan (n : N) s : Q := mkEquipo (q_arbol s) (q_sectores s) (q_malo s) (q_cerrojo s) n.

(** One write less until the cut. *)
Definition gasta : M Q unit unit := fun s =>
  if cortable && (q_quedan s =? 0) then (Panic, s) else (Ok tt, con_quedan (q_quedan s - 1) s).
(** An operation on the inode [i]. *)
Definition en_nodo {A} (i : N) (f : list str -> M Q unit A) : M Q unit A := fun s => match nodo_q s i with Some q => f q s | None => (Err tt, s) end.

Definition q_resolve (p : str) : M Q unit N := fun s =>
  (if decide (filter (fun kv => comps p `prefix_of` kv.1) (q_arbol s) = ∅) then Err tt else Ok (inodo (comps p)), s).
Definition q_lookup (d : N) (n : str) : M Q unit N := en_nodo d (fun q s =>
  (match q_arbol s !! (q ++ [n]) with Some _ => Ok (inodo (q ++ [n])) | None => Err tt end, s)).
Definition q_read_file (i : N) : M Q unit (list byte) := en_nodo i (fun q s =>
  (match q_arbol s !! q with Some (Some x) => Ok x | _ => Err tt end, s)).
Definition q_read_dir (i : N) : M Q unit (list (str * N)) := en_nodo i (fun q s =>
  (Ok (omap (fun kv => n ← last kv.1; if decide (kv.1 = q ++ [n]) then Some (n, inodo kv.1) else None) (map_to_list (q_arbol s))), s)).
(** A file may take the place of another; a directory, of nothing. *)
Definition libre (v : option (list byte)) (o : option (option (list byte))) : bool :=
  match v, o with _, None | Some _, Some (Some _) => true | _, _ => false end.
Definition q_poner (v : option (list byte)) (d : N) (n : str) : M Q unit N := en_nodo d (fun q s =>
  match q_arbol s !! q, libre v (q_arbol s !! (q ++ [n])) with
  | Some None, true => (gasta;; modify (con_arbol <[q ++ [n] := v]>);; mret (inodo (q ++ [n]))) s
  | _, _ => (Err tt, s)
  end).
Definition q_unlink (d : N) (n : str) : M Q unit unit := en_nodo d (fun q s =>
  if averiada && bool_decide (q_malo s = Some (q ++ [n])) then (Err tt, s)
  else match q_arbol s !! (q ++ [n]) with
  | Some (Some _) => (gasta;; modify (con_arbol (delete (q ++ [n])))) s
  | _ => (Err tt, s)
  end).
(** What is below the name goes with it. *)
Definition mudado (o n : list str) (t : Arbol) : Arbol :=
  list_to_map (omap (fun kv => if decide (o `prefix_of` kv.1) then Some (n ++ drop (length o) kv.1, kv.2) else None) (map_to_list t)) ∪
  filter (fun kv => ¬ o `prefix_of` kv.1) t.
Definition q_rename (d : N) (n : str) (d' : N) (n' : str) : M Q unit unit := en_nodo d (fun q => en_nodo d' (fun q' s =>
  match q_arbol s !! (q ++ [n]), q_arbol s !! (q' ++ [n']) with
  | Some _, None => (gasta;; modify (con_arbol (mudado (q ++ [n]) (q' ++ [n'])))) s
  | _, _ => (Err tt, s)
  end)).

#[export] Instance Equipo_Vfs : LogFs.Vfs Q := {|
  LogFs.vfs_resolve := q_resolve; LogFs.vfs_lookup := q_lookup;
  LogFs.vfs_mkdir := fun d n _ => q_poner None d n;
  LogFs.vfs_create_file := fun d n x _ => q_poner (Some x) d n;
  LogFs.vfs_append_file := fun _ _ _ => throw tt; LogFs.vfs_unlink := q_unlink;
  LogFs.vfs_rename := fun d n d' n' _ => q_rename d n d' n'; LogFs.vfs_size := fun _ => throw tt; LogFs.wall_secs := fun _ => 0;
|}.
#[export] Instance Equipo_Maquina : Maquina Q := {|
  hay_fs := fun _ => true; vfs_read_file := q_read_file; vfs_read_dir := q_read_dir;
  esp_locate := fun n e _ s => if bool_decide (n = BOOTREC ∧ e = txt "BIN" ∧ q_sectores s ≠ ∅) then Some 64 else None;
  esp_read := fun l s => (match q_sectores s !! l with Some x => Ok x | None => Err tt end, s);
  esp_write := fun l x => gasta;; modify (con_sectores <[l := x]>);
  tomar_por_el_kernel := con_cerrojo true; liberar_del_kernel := con_cerrojo false;
|}.

Lemma nodo_inodo s q : nodo_q s (inodo q) = Some q.
Proof. apply decode_encode. Qed.
Lemma gasta_casos s : (cortable = true ∧ gasta s = (Panic, s)) ∨ exists n, gasta s = (Ok tt, con_quedan n s).
Proof. unfold gasta. destruct (cortable && _) eqn:E; [left; by apply andb_true_iff in E as [? _]|right; by eexists]. Qed.
Lemma poner_ok v d n s : let '(r, s') := q_poner v d n s in
  match r with
  | Ok i => exists q, nodo_q s d = Some q ∧ (libre v (q_arbol s !! (q ++ [n])) = true ∧ q_arbol s' = <[q ++ [n] := v]> (q_arbol s)) ∧ i = inodo (q ++ [n])
  | Err _ => s' = s ∧ forall q, nodo_q s d = Some q -> q_arbol s !! q = Some None -> libre v (q_arbol s !! (q ++ [n])) = false
  | Panic => cortable = true ∧ s' = s
  | Fuel => False
  end.
Proof.
  unfold q_poner, en_nodo. destruct (nodo_q s d) as [q|] eqn:E; [|done].
  destruct (q_arbol s !! q) as [[?|]|] eqn:E1; [by split; [|intros q' [= <-]; congruence]| |by split; [|intros q' [= <-]; congruence]].
  destruct (libre v (q_arbol s !! (q ++ [n]))) eqn:E2; [|split; [done|]; by intros q' [= <-] _].
  rewrite bind_eq. destruct (gasta_casos s) as [[? ->]|[m ->]]; [done|]. cbn. by exists q.
Qed.

#[export] Instance Equipo_Spec : MaquinaSpec Q.
Proof.
  refine {| averias := averiada = true; fallos := cortable = true; arbol := q_arbol; nodo := nodo_q |}.
  - intros p s. cbn. unfold q_resolve. split; [done|]. case_decide as Hf; [|apply nodo_inodo]. right. intros q Hq.
    rewrite map_empty in Hf. specialize (Hf q). rewrite map_lookup_filter_None in Hf. destruct Hf as [|Hf]; [done|].
    destruct (q_arbol s !! q) as [v|] eqn:E; [|done]. by destruct (Hf v).
  - intros d n s. cbn. unfold q_lookup, en_nodo. destruct (nodo_q s d) as [q|]; [|by split; [|right]].
    destruct (q_arbol s !! (q ++ [n])) as [v|] eqn:E; (split; [done|]).
    + intros q' [= <-]. rewrite nodo_inodo, E. split; [done|by eexists].
    + right. by intros q' [= <-].
  - intros i s. cbn. unfold q_read_file, en_nodo. destruct (nodo_q s i) as [q|]; [|by split; [|right]].
    destruct (q_arbol s !! q) as [[x|]|] eqn:E; (split; [done|]); [by intros q' [= <-]|right; intros q' x' [= <-]; congruence..].
  - intros i s. cbn. unfold q_read_dir, en_nodo. by destruct (nodo_q s i).
  - intros d n t s. pose proof (poner_ok None d n s) as Hp. cbn. destruct (q_poner None d n s) as [[i|e| |] s']; [| | |done].
    + destruct Hp as (q & Hq & [E1 E2] & ->). exists q. split; [done|]. split; [|apply nodo_inodo]. split; [|done]. cbn in E1. by destruct (q_arbol s !! (q ++ [n])) as [[?|]|].
    + destruct Hp as [-> Hp]. split; [done|right]. intros q Hq Hdir. specialize (Hp q Hq Hdir). destruct (q_arbol s !! (q ++ [n])); [by eexists|done].
    + destruct Hp as [Hc ->]. split; [done|by left].
  - intros d n x t s. pose proof (poner_ok (Some x) d n s) as Hp. cbn. destruct (q_poner (Some x) d n s) as [[i|e| |] s']; [| | |done].
    + destruct Hp as (q & Hq & [E1 E2] & ->). exists q. split; [done|]. split; [|done]. intros E. change (q_arbol s !! (q ++ [n]) = Some None) in E. by rewrite E in E1.
    + destruct Hp as [-> Hp]. split; [done|right]. intros q Hq Hdir. specialize (Hp q Hq Hdir). by destruct (q_arbol s !! (q ++ [n])) as [[?|]|].
    + destruct Hp as [Hc ->]. split; [done|by left].
  - intros d n s. cbn. unfold q_unlink, en_nodo. destruct (nodo_q s d) as [q|]; [|by split; [|right]].
    destruct (averiada && _) eqn:Ea; [apply andb_true_iff in Ea as [? _]; by split; [|left]|].
    destruct (q_arbol s !! (q ++ [n])) as [[x|]|] eqn:E; [|split; [done|]; right; intros q' x' [= <-]; congruence..].
    rewrite bind_eq; destruct (gasta_casos s) as [[Hc ->]|[m ->]]; [by split; [|left]|]; cbn; exists q; by split.
  - intros n e k s lba. cbn. by case_bool_decide; intros [= <-].
  - intros a s. cbn. by destruct (q_sectores s !! a).
  - intros a x s. cbn. rewrite bind_eq. by destruct (gasta_casos s) as [[Hc ->]|[m ->]].
  - done.
  - done.
Defined.
End Equipo.

(** ** A machine that updates one program *)
#[local] Existing Instance Ejemplo.Crc32c_iscsi.

Definition id0 : TxnId := replicate 32 x07.
Definition d0 : str := id_dir id0.
Definition viejo : list byte := txt "viejo".
Definition flamante : list byte := txt "flamante".
Definition cont (x : list byte) : Contenido := mkContenido (lenN x) (hex_sha256 x).
Definition cambio_a (p : Progreso) : Entrada := mkEntrada Reemplazar p (txt "bin/a") (Some (cont flamante)) (Some (cont viejo)).
Definition alta_b (p : Progreso) : Entrada := mkEntrada Crear p (txt "bin/b") (Some (cont flamante)) None.
Definition diario_de (st : TxnState) (es : list Entrada) : Journal :=
  mkJournal id0 st 4 (txt "2.0") (txt "1.0") (Some (cont flamante)) (Some (cont viejo)) es.

(** The files of the area and of [bin]; [extra] are more directories of the
    area. *)
Definition arbol_de (j : Journal) (activos : list (str * list byte)) (extra : list str) : Arbol :=
  list_to_map (((fun q => (q, None)) <$> [[]; [txt "bin"]; [txt "var"]; [txt "var"; txt "lib"]; AREA; AREA ++ [d0];
      AREA ++ [d0; txt "etapa"]; AREA ++ [d0; txt "etapa"; txt "bin"]; AREA ++ [d0; txt "respaldo"]; AREA ++ [d0; txt "respaldo"; txt "bin"]]
    ++ ((fun n => AREA ++ [n]) <$> extra))
  ++ [(AREA ++ [d0; txt "diario.0"], Some (diario_format j));
      (AREA ++ [d0; txt "etapa"; txt "bin"; txt "a"], Some flamante); (AREA ++ [d0; txt "etapa"; txt "bin"; txt "b"], Some flamante);
      (AREA ++ [d0; txt "respaldo"; txt "bin"; txt "a"], Some viejo)]
  ++ ((fun px => (comps px.1, Some px.2)) <$> activos)).
(** The eight sectors of the boot record, with [r] in its slot. *)
Definition registro (dec : Decision) : BootRecord := bootrec_nuevo dec id0 (txt "2.0") (txt "1.0") 6.
Definition sectores_de (r : BootRecord) : gmap N (list byte) :=
  let bytes := zeros (bootrec_ranura r * SLOT_SIZE) ++ (match bootrec_format r with inr b => b | inl _ => [] end) ++ zeros (BOOTREC_SIZE - (bootrec_ranura r + 1) * SLOT_SIZE) in
  list_to_map (imap (fun i x => (64 + N.of_nat i, x)) (chunks (length bytes) 512 bytes)).

(** Armed, and the power goes after [n] writes. *)
Definition equipo_armado {c} (n : N) : Equipo c false :=
  mkEquipo (arbol_de (diario_de Armado [cambio_a Respaldado]) [(txt "bin/a", viejo)] []) (sectores_de (registro DArmado)) None false n.

Definition plan_a : list Entrada := [cambio_a Pendiente].

Lemma d0_ok : nombre_ok d0.
Proof. apply (bool_decide_unpack _). by vm_compute. Qed.
Definition rutas0 : list str := [txt "bin/a"].
Lemma rutas0_activas p : p ∈ rutas0 -> ruta_activa p = true.
Proof. by intros ->%list_elem_of_singleton. Qed.
Lemma rutas0_sueltas p p' : p ∈ rutas0 -> p' ∈ rutas0 -> comps p `prefix_of` comps p' -> comps p = comps p'.
Proof. by intros ->%list_elem_of_singleton ->%list_elem_of_singleton _. Qed.

Lemma diario_de_ok st : diario_ok (diario_de st [cambio_a Respaldado]).
Proof.
  assert (contenido_ok (cont flamante)) as Hf by (split; vm_compute; reflexivity).
  assert (contenido_ok (cont viejo)) as Hg by (split; vm_compute; reflexivity).
  assert (valor_ok (txt "2.0") ∧ valor_ok (txt "1.0") ∧ valor_ok (txt "bin/a")) as (V1 & V2 & V3) by (split_and!; apply valor_visible; by repeat constructor).
  split; try done. apply Forall_singleton. by split.
Qed.

Lemma equipo_sano {c} n : sano_k d0 rutas0 (@equipo_armado c n).
Proof.
  split.
  - by vm_compute.
  - by vm_compute.
  - intros p ->%list_elem_of_singleton q Hq Hne. change (comps (txt "bin/a")) with [txt "bin"; txt "a"] in *.
    destruct q as [|x [|y q]]; [by vm_compute|apply prefix_cons_inv_1 in Hq as ->; by vm_compute|].
    pose proof Hq as ->%prefix_cons_inv_1. apply prefix_cons_inv_2 in Hq. pose proof Hq as ->%prefix_cons_inv_1. apply prefix_cons_inv_2, prefix_nil_inv in Hq as ->. done.
  - intros p ->%list_elem_of_singleton. by vm_compute.
  - intros k. unfold ranura_k. destruct (k mod 2 =? 0); by vm_compute.
  - exists (diario_de Armado [cambio_a Respaldado]). split; [apply diario_de_ok|by vm_compute|by vm_compute].
Qed.
Lemma equipo_durable {c} n : durable_k d0 (@equipo_armado c n) = diario_de Armado [cambio_a Respaldado].
Proof. by vm_compute. Qed.
Lemma sin_averias0 {c} : ¬ averias (T := Equipo c false).
Proof. by unfold averias; cbn. Qed.
Lemma equipo_armada {c} n : armada sin_averias0 d0 rutas0 d0_ok rutas0_activas rutas0_sueltas (@equipo_armado c n).
Proof.
  split.
  - apply equipo_sano.
  - rewrite equipo_durable. split.
    + apply NoDup_singleton.
    + intros e ->%list_elem_of_singleton. change (txt "bin/a" ∈ rutas0). by apply list_elem_of_singleton.
    + intros e ->%list_elem_of_singleton _. exists (cont flamante), flamante. by split_and!; vm_compute.
    + intros e ->%list_elem_of_singleton _. exists (cont viejo), viejo. by split_and!; vm_compute.
  - by rewrite equipo_durable.
  - rewrite equipo_durable. intros e ->%list_elem_of_singleton. by split.
  - rewrite equipo_durable. intros e ->%list_elem_of_singleton. by vm_compute.
Qed.

(** The power goes with the program removed and not yet written again; the
    machine starts. *)
Definition equipo_cortado : Equipo true false := (recuperar (equipo_armado 2)).2.
Definition equipo_reiniciado : Equipo true false := con_quedan 99 equipo_cortado.

Lemma guia_de {c} s r : (leer_bootrec s).1 = Ok (EspRegistro r) -> b_dir r = d0 ∧ b_decision r ≠ DRevertir ∧ b_decision r ≠ DRescatar ∧ b_seq r + 1 < U64 ->
  guia d0 (s : Equipo c false).
Proof. intros E Hr esp s2 E2. rewrite E2 in E. by injection E as ->. Qed.
Lemma corre_de {A} (m : M (Equipo true false) unit A) s a : (m s).1 = Ok a -> m s = (Ok a, (m s).2).
Proof. destruct (m s). by intros [= ->]. Qed.

Lemma arranque_entero_testigo : exists s',
  rtc (vida d0 (sin_progreso [cambio_a Respaldado])) (equipo_armado 2) equipo_reiniciado ∧ activo_k equipo_reiniciado (txt "bin/a") = None ∧
  recuperar equipo_reiniciado = (Ok true, s') ∧
  ((j_estado (durable_k d0 s') ∈ [Probando; Confirmado] ∧
     forall q, activo_k s' q = nueva (activo_k (@equipo_armado true 2)) (copia_k d0 (@equipo_armado true 2)) (sin_progreso (j_entradas (durable_k d0 (@equipo_armado true 2)))) q) ∨
   (j_estado (durable_k d0 s') ∈ [Armado; Revertido] ∧ forall q, activo_k s' q = activo_k (@equipo_armado true 2) q)).
Proof.
  exists (recuperar equipo_reiniciado).2.
  assert (recuperar equipo_reiniciado = (Ok true, (recuperar equipo_reiniciado).2)) as Hr by (apply corre_de; by vm_compute).
  assert (rtc (vida d0 (sin_progreso [cambio_a Respaldado])) (equipo_armado 2) equipo_reiniciado) as Hv.
  { apply (rtc_l _ _ equipo_cortado); [|apply rtc_once, vi_reinicio; reflexivity]. apply vi_arranque; [|reflexivity|vm_compute; reflexivity|reflexivity].
    apply (guia_de _ (registro DArmado)); [vm_compute; reflexivity|split_and!; vm_compute; done]. }
  split; [exact Hv|]. split; [by vm_compute|]. split; [exact Hr|].
  refine (arranque_entero sin_averias0 d0 rutas0 d0_ok rutas0_activas rutas0_sueltas (equipo_armado 2) equipo_reiniciado _ (equipo_armada 2) _ _ _ _ Hr).
  - rewrite equipo_durable. exact Hv.
  - apply (guia_de _ (registro DArmado)); [vm_compute; reflexivity|split_and!; vm_compute; done].
  - done.
  - by vm_compute.
Defined.

(** The same disks, where nothing fails any more. *)
Definition equipo_firme : Equipo false false := mkEquipo (q_arbol equipo_cortado) (q_sectores equipo_cortado) None false 0.
Lemma arranque_decide_testigo : exists esp s2 b s', activo_k equipo_firme (txt "bin/a") = None ∧
  leer_bootrec equipo_firme = (Ok esp, s2) ∧ recuperar equipo_firme = (Ok b, s') ∧
  let a := reconcile esp (JDiario (durable_k d0 equipo_firme)) in
  b = negb (diagnostica a) ∧ (b = true -> j_estado (durable_k d0 s') = estado_tras a (j_estado (durable_k d0 equipo_firme))).
Proof.
  assert (rtc (vida d0 (sin_progreso [cambio_a Respaldado])) (@equipo_armado true 2) equipo_cortado) as Hv.
  { apply rtc_once, vi_arranque; [|reflexivity|vm_compute; reflexivity|reflexivity].
    apply (guia_de _ (registro DArmado)); [vm_compute; reflexivity|split_and!; vm_compute; done]. }
  assert (exists esp s2 b s', leer_bootrec equipo_firme = (Ok esp, s2) ∧ recuperar equipo_firme = (Ok b, s') ∧
    let a := reconcile esp (JDiario (durable_k d0 equipo_firme)) in
    b = negb (diagnostica a) ∧ (b = true -> j_estado (durable_k d0 s') = estado_tras a (j_estado (durable_k d0 equipo_firme)))) as (esp & s2 & b & s' & Hr).
  { refine (arranque_decide sin_averias0 sin_averias0 d0 rutas0 d0_ok rutas0_activas rutas0_sueltas (@equipo_armado true 2) equipo_cortado equipo_firme (equipo_armada 2) _ _ _ _ _ _).
    - rewrite equipo_durable. exact Hv.
    - reflexivity.
    - apply (guia_de _ (registro DArmado)); [vm_compute; reflexivity|split_and!; vm_compute; done].
    - done.
    - by vm_compute.
    - done. }
  exists esp, s2, b, s'. split; [by vm_compute|exact Hr].
Defined.

(** ** What does not hold *)

(** A version on trial: one program replaced, another added. The medium may
    refuse to remove the one added. *)
Definition equipo_a_prueba : Equipo false true :=
  mkEquipo (arbol_de (diario_de Probando [cambio_a Aplicado; alta_b Aplicado]) [(txt "bin/a", flamante); (txt "bin/b", flamante)] [])
    (sectores_de (registro DProbando)) (Some [txt "bin"; txt "b"]) false 0.

(** An error of the medium when the reversion removes a file the update
    added is taken for the file not being there: the boot goes on, the journal and
    the boot record say the version was undone, and the file stays beside the old
    versions of the others. *)
Theorem borrado_ignorado : let '(r, s) := recuperar equipo_a_prueba in
  r = Ok true ∧ j_estado (durable_k d0 s) = Revertido ∧ activo_k s (txt "bin/a") = Some viejo ∧ activo_k s (txt "bin/b") = Some flamante ∧
  (match (leer_bootrec s).1 with Ok (EspRegistro r) => b_decision r = DRevertido | _ => False end) ∧
  j_entradas (durable_k d0 s) = [cambio_a Restaurado; alta_b Restaurado].
Proof. vm_compute. done. Qed.

(** An update half applied, and the ESP without its record; [extra] are the
    recovery points kept beside it. *)
Definition equipo_sin_esp (extra : list str) : Equipo false false :=
  mkEquipo (arbol_de (diario_de Aplicando [cambio_a Aplicado; alta_b Respaldado]) [(txt "bin/a", flamante)] extra) ∅ None false 0.

(** Without the boot record the operation is looked for as the only
    directory of the area. Alone there it is found and undone; with one recovery
    point kept beside it nothing is found, and the boot goes on over a system half
    updated that the journal says is being applied. *)
Theorem esp_perdida :
  (let '(r, s) := recuperar (equipo_sin_esp []) in
   r = Ok true ∧ j_estado (durable_k d0 s) = Revertido ∧ activo_k s (txt "bin/a") = Some viejo ∧ activo_k s (txt "bin/b") = None) ∧
  (let '(r, s) := recuperar (equipo_sin_esp [id_dir (replicate 32 x09)]) in
   r = Ok true ∧ j_estado (durable_k d0 s) = Aplicando ∧ activo_k s (txt "bin/a") = Some flamante ∧ activo_k s (txt "bin/b") = None).
Proof. vm_compute. done. Qed.
