(* ===== verification/OtaExclusion.v ===== *)
(** * Update: who may write meanwhile

    [kernel/src/drivers/txnlock.rs]: from the moment an update copies the files a
    release administers until the boot that applies it, nobody else writes them.
    [es_administrada] is the one of [crates/soso-update-core/src/lib.rs]; the
    paths reach it through [kernel/src/task/path.rs]; the system calls on names are
    the ones of [kernel/src/task/syscall.rs]. *)
From S2P Require Import Prelude Texto OtaJournal OtaReconcile OtaArranque.
From S2P Require OtaDescarga LogFs OtaArranqueTeoremas.
Local Open Scope N_scope.

(** ** What a release administers *)
Inductive Excluido := Log | EstadoOta | Cache | Temporal | ConfigLocal | Volumen | Fuente.

Definition PACK_SKIP_DIRS : list (str * Excluido) :=
  [(txt "var/log/", Log); (txt "var/lib/soso-update/", EstadoOta); (txt "var/actualiza-", EstadoOta);
   (txt "var/forja-cache/", Cache); (txt "var/forja-out/", Cache); (txt "var/cache/", Cache); (txt "var/paquetes/", ConfigLocal);
   (txt "var/self-improvement/", Cache); (txt "var/t41/", Cache); (txt "var/t42/", Cache); (txt "var/t80/", Cache);
   (txt "tmp/", Temporal); (txt "src/soso/", Fuente); (txt "models/", Volumen)].
Definition PACK_SKIP : list (str * Excluido) :=
  [(txt "etc/ssh_host_key", ConfigLocal); (txt "etc/ssh_host_mldsa", ConfigLocal); (txt "etc/authorized_key", ConfigLocal);
   (txt "etc/authorized_mldsa", ConfigLocal); (txt "etc/wifi.conf", ConfigLocal); (txt "etc/llm.conf", ConfigLocal);
   (txt "etc/voz.conf", ConfigLocal); (txt "etc/actualiza.conf", ConfigLocal); (txt "etc/paquetes.conf", ConfigLocal);
   (txt "etc/notifybug.conf", ConfigLocal); (txt "etc/soso-live.bytes", ConfigLocal); (txt "etc/grub-linux.txt", ConfigLocal);
   (txt "etc/soso-release", ConfigLocal); (txt "etc/actualiza.estado", EstadoOta); (txt "etc/soso-hw", ConfigLocal)].
Definition PACK_SKIP_SUFIJOS : list (str * Excluido) := [(txt ".log", Log); (txt "_key", ConfigLocal); (txt ".key", ConfigLocal)].
Definition RAICES_ADMINISTRADAS : list str := [txt "bin/"; txt "lib/"; txt "etc/"].

Definition por_que_se_excluye (rel : str) : option Excluido :=
  let rel := trim_start_matches BARRA rel in
  match list_find (fun p => p.1 = rel) PACK_SKIP with
  | Some (_, (_, m)) => Some m
  | None =>
      match list_find (fun d => starts_with d.1 rel) PACK_SKIP_DIRS with
      | Some (_, (_, m)) => Some m
      | None => match list_find (fun s => ends_with s.1 rel) PACK_SKIP_SUFIJOS with Some (_, (_, m)) => Some m | None => None end
      end
  end.
Definition es_administrada (ruta : str) : bool :=
  let rel := trim_start_matches BARRA ruta in
  existsb (fun r => starts_with r rel) RAICES_ADMINISTRADAS && match por_que_se_excluye rel with None => true | Some _ => false end.

(** ** Absolute paths *)
Definition PATH_MAX : N := 256.
Definition empujar (out comp : str) : str :=
  if decide (comp = [] ∨ comp = txt ".") then out
  else if decide (comp = txt "..") then match OtaDescarga.rfind BARRA out with Some i => take i out | None => out end
  else out ++ BARRA :: comp.

(** [None]: [ENAMETOOLONG]. *)
Definition abs_path (cwd path : str) : option str :=
  if PATH_MAX <? lenN path then None
  else
    let absoluta := starts_with [BARRA] path in
    let largo_crudo := if absoluta then lenN path else if bool_decide (cwd = [BARRA]) then 1 + lenN path else lenN cwd + 1 + lenN path in
    if PATH_MAX <? largo_crudo then None
    else
      let out := if absoluta then [] else foldl empujar [] (split_byte BARRA cwd) in
      let out := foldl empujar out (split_byte BARRA path) in
      let out := match out with [] => [BARRA] | _ => out end in
      if PATH_MAX <? lenN out then None else Some out.

(** ** The exclusion *)
Inductive EstadoExcl := Libre | Dueno (pid : N) | Armada.
#[export] Instance EstadoExcl_eq_dec : EqDecision EstadoExcl.
Proof. solve_decision. Defined.
Record Exclusion := mkExclusion { estado : EstadoExcl; reserva : N }.

(** An error code of the kernel, or the one of an error of the file system. *)
Inductive Errno := Codigo (c : Z) | Del_vfs.
Definition EBUSY : Errno := Codigo (-16).
Definition EINVAL : Errno := Codigo (-22).
Definition ENOSPC : Errno := Codigo (-28).
Definition EROFS : Errno := Codigo (-30).
Definition ENAMETOOLONG : Errno := Codigo (-36).

(** [vive]: [task::exists] at that moment. *)
Definition vigente (vive : N -> bool) (e : Exclusion) : EstadoExcl * Exclusion :=
  match estado e with
  | Dueno pid => if vive pid then (Dueno pid, e) else (Libre, mkExclusion Libre 0)
  | st => (st, e)
  end.
Abbreviation X := (M Exclusion Errno).

Definition tomar (vive : N -> bool) (pid res : N) : X unit := fun e =>
  match vigente vive e with
  | (Libre, e) => (Ok tt, mkExclusion (Dueno pid) res)
  | (Dueno d, e) => if d =? pid then (Ok tt, mkExclusion (estado e) res) else (Err EBUSY, e)
  | (Armada, e) => (Err EBUSY, e)
  end.
Definition armado (vive : N -> bool) (pid : N) : X unit := fun e =>
  match vigente vive e with
  | (Dueno d, e) => if d =? pid then (Ok tt, mkExclusion Armada (reserva e)) else (Err EBUSY, e)
  | (Armada, e) => (Ok tt, e)
  | (Libre, e) => (Err EBUSY, e)
  end.
Definition soltar (vive : N -> bool) (pid : N) : X unit := fun e =>
  match vigente vive e with
  | (Dueno d, e) => if d =? pid then (Ok tt, mkExclusion Libre 0) else (Err EBUSY, e)
  | (Libre, e) => (Ok tt, e)
  | (Armada, e) => (Err EBUSY, e)
  end.
Definition tomar_por_el_kernel (_ : Exclusion) : Exclusion := mkExclusion Armada 0.
Definition liberar_del_kernel (_ : Exclusion) : Exclusion := mkExclusion Libre 0.
Definition TXN_LOCK_LIBRE : N := 0.
Definition TXN_LOCK_MIA : N := 1.
Definition TXN_LOCK_AJENA : N := 2.
Definition TXN_LOCK_ARMADA : N := 3.
Definition estado_de (vive : N -> bool) (pid : N) : X N := fun e =>
  let '(st, e) := vigente vive e in
  (Ok match st with Libre => TXN_LOCK_LIBRE | Dueno d => if d =? pid then TXN_LOCK_MIA else TXN_LOCK_AJENA | Armada => TXN_LOCK_ARMADA end, e).
Definition comprobar_ruta_administrada (vive : N -> bool) (pid : N) : X unit := fun e =>
  match vigente vive e with
  | (Libre, e) => (Ok tt, e)
  | (Dueno d, e) => if d =? pid then (Ok tt, e) else (Err EROFS, e)
  | (Armada, e) => (Err EROFS, e)
  end.

(** ** The system calls on names *)

(** The rest of the virtual file system they use, and the free blocks of sosofs
    ([None]: not mounted). *)
Class Disco (T : Type) `{LogFs.Vfs T} := {
  (** [stat_inode(ino)?.file_type == FT_FILE] *)
  vfs_es_fichero : N -> M T unit bool;
  vfs_truncate_path : str -> N -> N -> M T unit unit;
  free_blocks : T -> option N;
  fcache_renombrar : N -> N -> str -> T -> T;
}.

Section Llamadas.
Context {T : Type} `{Disco T}.
Record Kernel := mkKernel { k_excl : Exclusion; k_disco : T }.
Abbreviation K := (M Kernel Errno).
(** The processes alive, and the one that calls. *)
Variables (vive : N -> bool) (pid : N).

Definition en_excl {A} (m : X A) : K A := fun s => let '(r, e) := m (k_excl s) in (r, mkKernel e (k_disco s)).
Definition with_vfs {A} (m : M T unit A) : K A := fun s =>
  let '(r, d) := m (k_disco s) in
  (match r with Ok a => Ok a | Err _ => Err Del_vfs | Panic => Panic | Fuel => Fuel end, mkKernel (k_excl s) d).

Definition libres (s : Kernel) : N := default (U64 - 1) (free_blocks (k_disco s)).
Definition comprobar_escritura (ruta : str) : K unit := fun s =>
  let '(st, e) := vigente vive (k_excl s) in
  let s := mkKernel e (k_disco s) in
  match st with
  | Libre => (Ok tt, s)
  | _ =>
      if bool_decide (st = Dueno pid) then (Ok tt, s)
      else if es_administrada ruta then (Err EROFS, s)
      else if (0 <? reserva e) && (libres s <? reserva e) then (Err ENOSPC, s)
      else (Ok tt, s)
  end.

Definition sys_txn_lock (op res : N) : K N :=
  match op with
  | 1 => en_excl (tomar vive pid res);; mret 0
  | 2 => en_excl (armado vive pid);; mret 0
  | 3 => en_excl (soltar vive pid);; mret 0
  | 4 => en_excl (estado_de vive pid)
  | _ => throw EINVAL
  end.

Definition trim_end_matches (c : byte) (l : str) : str := reverse (trim_start_matches c (reverse l)).
Definition resolve_user_path (cwd raw : str) : K str := of_option (throw ENAMETOOLONG) (abs_path cwd raw).
Definition resolve_parent (abs : str) : K (N * str) :=
  let path := trim_end_matches BARRA abs in
  if bool_decide (path = [] ∨ path = txt ".") then throw EINVAL
  else
    '(parent, name) ← match OtaDescarga.rfind BARRA path with
                      | Some 0%nat => mret (txt "/", drop 1 path)
                      | Some i => mret (take i path, drop (S i) path)
                      | None => throw EINVAL
                      end;
    if bool_decide (name = [] ∨ name = txt ".") then throw EINVAL
    else dir ← with_vfs (LogFs.vfs_resolve parent); mret (dir, name).

Definition sys_mkdir (cwd raw : str) : K N :=
  path ← resolve_user_path cwd raw;
  comprobar_escritura path;;
  '(dir, name) ← resolve_parent path;
  mtime ← gets (fun s => LogFs.wall_secs (k_disco s));
  with_vfs (LogFs.vfs_mkdir dir name mtime);;
  mret 0.
Definition sys_unlink (cwd raw : str) : K N :=
  path ← resolve_user_path cwd raw;
  comprobar_escritura path;;
  '(dir, name) ← resolve_parent path;
  with_vfs (LogFs.vfs_unlink dir name);;
  mret 0.
Definition sys_truncate (cwd raw : str) (size : N) : K N :=
  path ← resolve_user_path cwd raw;
  comprobar_escritura path;;
  mtime ← gets (fun s => LogFs.wall_secs (k_disco s));
  with_vfs (vfs_truncate_path path size mtime);;
  mret 0.
Definition sys_rename (cwd raw_old raw_new : str) : K N :=
  old ← resolve_user_path cwd raw_old;
  new ← resolve_user_path cwd raw_new;
  comprobar_escritura old;;
  comprobar_escritura new;;
  '(old_dir, old_name) ← resolve_parent old;
  '(new_dir, new_name) ← resolve_parent new;
  mtime ← gets (fun s => LogFs.wall_secs (k_disco s));
  destino ← attempt (with_vfs (LogFs.vfs_lookup new_dir new_name));
  match destino with
  | inr destino =>
      fichero ← with_vfs (vfs_es_fichero destino);
      if (fichero : bool) && negb (bool_decide ((old_dir, old_name) = (new_dir, new_name)))
      then with_vfs (LogFs.vfs_unlink new_dir new_name) else mret tt
  | inl _ => mret tt
  end;;
  movido ← attempt (with_vfs (LogFs.vfs_lookup old_dir old_name));
  with_vfs (LogFs.vfs_rename old_dir old_name new_dir new_name mtime);;
  match movido with
  | inr ino => modify (fun s => mkKernel (k_excl s) (fcache_renombrar ino new_dir new_name (k_disco s)))
  | inl _ => mret tt
  end;;
  mret 0.

Inductive Llamada :=
| TxnLock (op res : N)
| Mkdir (cwd raw : str)
| Unlink (cwd raw : str)
| Truncate (cwd raw : str) (size : N)
| Rename (cwd raw_old raw_new : str).
Definition llama (c : Llamada) : K N :=
  match c with
  | TxnLock op res => sys_txn_lock op res
  | Mkdir cwd raw => sys_mkdir cwd raw
  | Unlink cwd raw => sys_unlink cwd raw
  | Truncate cwd raw size => sys_truncate cwd raw size
  | Rename cwd old new => sys_rename cwd old new
  end.
End Llamadas.
Arguments Kernel T : clear implicits.

(** ** Paths as lists of names *)
Definition nombre_propio (n : str) : Prop := (BARRA ∉ n) ∧ n ≠ [] ∧ n ≠ txt "." ∧ n ≠ txt "..".
Definition une (l : list str) : str := concat (cons BARRA <$> l).
Definition ruta_de (l : list str) : str := match l with [] => [BARRA] | _ => une l end.
(** A component applied to the names so far, and a whole path. *)
Definition paso_ruta (l : list str) (c : str) : list str :=
  if decide (c = [] ∨ c = txt ".") then l else if decide (c = txt "..") then take (length l - 1) l else l ++ [c].
Definition normaliza (l : list str) (path : str) : list str :=
  foldl paso_ruta (if starts_with [BARRA] path then [] else l) (split_byte BARRA path).

Lemma une_app a b : une (a ++ b) = une a ++ une b.
Proof. unfold une. by rewrite fmap_app, concat_app. Qed.
Lemma une_snoc a n : une (a ++ [n]) = une a ++ BARRA :: n.
Proof. rewrite une_app. unfold une at 2. cbn. by rewrite app_nil_r. Qed.
Lemma split_piezas sep l : Forall (fun c => sep ∉ c) (split_byte sep l).
Proof.
  induction l as [|x l IH]; cbn; [repeat constructor; by apply not_elem_of_nil|]. destruct (decide (x = sep)) as [|Hx]; [constructor; [by apply not_elem_of_nil|done]|].
  destruct (split_byte sep l) as [|p ps]; [repeat constructor; set_solver|]. apply Forall_cons in IH as [H1 H2]. constructor; [|done]. by apply not_elem_of_cons.
Qed.
Lemma split_suma sep l : sum_list_with (fun c => S (length c)) (split_byte sep l) = S (length l).
Proof.
  induction l as [|x l IH]; [done|]. cbn. destruct (decide (x = sep)); cbn; [by rewrite IH|]. destruct (split_byte sep l) as [|p ps]; cbn in *; lia.
Qed.

Lemma empujar_paso l c : (BARRA ∉ c) -> Forall (fun n => BARRA ∉ n) l -> empujar (une l) c = une (paso_ruta l c).
Proof.
  intros Hc Hl. unfold empujar, paso_ruta. destruct (decide (c = [] ∨ c = txt ".")); [done|]. destruct (decide (c = txt "..")); [|by rewrite une_snoc].
  destruct l as [|m l _] using rev_ind; [done|]. rewrite une_snoc. apply Forall_app in Hl as [_ [Hn _]%Forall_cons]. rewrite rfind_app by done.
  rewrite take_app_length, length_app. cbn. rewrite Nat.add_sub. by rewrite take_app_length.
Qed.
Lemma paso_propios l c : (BARRA ∉ c) -> Forall nombre_propio l -> Forall nombre_propio (paso_ruta l c).
Proof.
  intros Hc Hl. unfold paso_ruta. repeat case_decide; [done|by apply Forall_take|]. apply Forall_app. split; [done|]. repeat constructor; tauto.
Qed.
Lemma propios_sin l : Forall nombre_propio l -> Forall (fun n => BARRA ∉ n) l.
Proof. intros Hl. eapply Forall_impl; [exact Hl|]. by intros ? []. Qed.
Lemma empujar_todos cs : Forall (fun c => BARRA ∉ c) cs -> forall l, Forall nombre_propio l ->
  foldl empujar (une l) cs = une (foldl paso_ruta l cs) ∧ Forall nombre_propio (foldl paso_ruta l cs) ∧
  (length (une (foldl paso_ruta l cs)) <= length (une l) + sum_list_with (fun c => S (length c)) cs)%nat.
Proof.
  induction 1 as [|c cs Hc _ IH]; intros l Hl; [split; [done|split; [done|apply Nat.le_add_r]]|]. cbn [foldl]. rewrite empujar_paso by (done || by apply propios_sin).
  destruct (IH (paso_ruta l c) (paso_propios l c Hc Hl)) as (E & F & G). split; [done|]. split; [done|].
  assert (length (une (paso_ruta l c)) <= length (une l) + S (length c))%nat as G1; [|cbn in *; lia]. unfold paso_ruta. repeat case_decide; [lia| |rewrite une_snoc, length_app; cbn; lia].
  pose proof (une_app (take (length l - 1) l) (drop (length l - 1) l)) as Eu. rewrite take_drop in Eu. rewrite Eu, length_app. lia.
Qed.

Lemma split_une l : Forall (fun n => BARRA ∉ n) l -> split_byte BARRA (une l) = [] :: l.
Proof.
  induction l as [|n l IH] using rev_ind; [done|]. intros [Hl [Hn _]%Forall_cons]%Forall_app. rewrite une_snoc, split_junta, IH by done. by rewrite split_uno.
Qed.
Lemma ruta_de_ne l : l ≠ [] -> ruta_de l = une l.
Proof. by destruct l. Qed.
Lemma comps_ruta l : Forall nombre_propio l -> comps (ruta_de l) = l.
Proof.
  intros Hl. destruct (decide (l = [])) as [->|Hne]; [done|]. rewrite ruta_de_ne by done. unfold comps. change "/"%byte with BARRA. rewrite split_une by by apply propios_sin.
  rewrite filter_cons_False by tauto. clear Hne. induction Hl as [|n l (H1 & H2 & H3 & H4) _ IH]; [done|]. rewrite filter_cons_True by done. by rewrite IH.
Qed.
Lemma foldl_propios l cs : Forall nombre_propio cs -> foldl paso_ruta l cs = l ++ cs.
Proof.
  intros Hcs. revert l. induction Hcs as [|c cs (H1 & H2 & H3 & H4) _ IH]; intros l; [by rewrite app_nil_r|]. cbn [foldl]. rewrite IH. unfold paso_ruta.
  rewrite decide_False by tauto. rewrite decide_False by done. by rewrite <- app_assoc.
Qed.
Lemma foldl_cwd l : Forall nombre_propio l -> foldl paso_ruta [] (split_byte BARRA (ruta_de l)) = l.
Proof.
  intros Hl. destruct (decide (l = [])) as [->|Hne]; [done|]. rewrite ruta_de_ne, split_une by (done || by apply propios_sin). cbn [foldl].
  unfold paso_ruta at 2. rewrite decide_True by tauto. by rewrite foldl_propios.
Qed.
Lemma starts_barra p : starts_with [BARRA] p = true -> exists p', p = BARRA :: p'.
Proof. unfold starts_with. intros E%bool_decide_eq_true. destruct p as [|b p]; [done|]. injection E as ->. by exists p. Qed.

(** Whatever the directory of the process, a path is a list of names. *)
Lemma abs_path_forma cwd p r : abs_path cwd p = Some r -> exists l, Forall nombre_propio l ∧ r = ruta_de l.
Proof.
  unfold abs_path. cbv zeta. do 3 (match goal with |- context [if (PATH_MAX <? ?x) then _ else _] => destruct (PATH_MAX <? x); [done|] end). intros [= <-].
  destruct (empujar_todos (split_byte BARRA cwd) (split_piezas _ _) []) as (E1 & F1 & _); [done|]. change (une []) with (@nil byte) in E1.
  set (l0 := if starts_with [BARRA] p then [] else foldl paso_ruta [] (split_byte BARRA cwd)).
  assert ((if starts_with [BARRA] p then [] else foldl empujar [] (split_byte BARRA cwd)) = une l0) as -> by (unfold l0; by destruct (starts_with [BARRA] p)).
  assert (Forall nombre_propio l0) as H0 by (unfold l0; by destruct (starts_with [BARRA] p)).
  destruct (empujar_todos (split_byte BARRA p) (split_piezas _ _) l0 H0) as (-> & F & _). eexists. split; [exact F|].
  by destruct (foldl paso_ruta l0 (split_byte BARRA p)).
Qed.

Lemma abs_path_run l p : Forall nombre_propio l ->
  Forall nombre_propio (normaliza l p) ∧
  abs_path (ruta_de l) p = if PATH_MAX <? (if starts_with [BARRA] p then lenN p else lenN (une l) + 1 + lenN p) then None else Some (ruta_de (normaliza l p)).
Proof.
  intros Hl. unfold normaliza. set (l0 := if starts_with [BARRA] p then [] else l). assert (Forall nombre_propio l0) as H0 by (unfold l0; by destruct (starts_with [BARRA] p)).
  destruct (empujar_todos (split_byte BARRA p) (split_piezas _ _) l0 H0) as (E & F & G). rewrite split_suma in G. split; [done|]. unfold abs_path.
  assert ((if starts_with [BARRA] p then lenN p else if bool_decide (ruta_de l = [BARRA]) then 1 + lenN p else lenN (ruta_de l) + 1 + lenN p) =
          (if starts_with [BARRA] p then lenN p else lenN (une l) + 1 + lenN p)) as ->.
  { destruct (starts_with [BARRA] p); [done|]. destruct (decide (l = [])) as [->|Hne]; [done|]. rewrite ruta_de_ne by done. rewrite bool_decide_eq_false_2; [done|].
    intros E1. pose proof (comps_ruta l Hl) as E2. rewrite ruta_de_ne, E1 in E2 by done. by subst l. }
  set (largo := if starts_with [BARRA] p then lenN p else _). assert (lenN p <= largo) as Hlp by (unfold largo; destruct (starts_with [BARRA] p); lia).
  assert (lenN (une (foldl paso_ruta l0 (split_byte BARRA p))) <= largo) as Hout.
  { unfold largo, l0 in *. destruct (starts_with [BARRA] p) eqn:Es; [|unfold lenN in *; lia]. apply starts_barra in Es as [p' ->]. cbn [split_byte foldl] in *. rewrite decide_True in * by done. cbn [foldl] in *.
    destruct (empujar_todos (split_byte BARRA p') (split_piezas _ _) [] ltac:(done)) as (_ & _ & G'). rewrite split_suma in G'. unfold paso_ruta at 2. rewrite decide_True by tauto.
    unfold lenN in *. cbn in *. lia. }
  destruct (N.ltb_spec PATH_MAX largo) as [|Hok]; [by case_match|]. destruct (N.ltb_spec PATH_MAX (lenN p)); [lia|].
  assert ((if starts_with [BARRA] p then [] else foldl empujar [] (split_byte BARRA (ruta_de l))) = une l0) as ->.
  { unfold l0. destruct (starts_with [BARRA] p); [done|]. destruct (empujar_todos (split_byte BARRA (ruta_de l)) (split_piezas _ _) [] ltac:(done)) as (E1 & _). change (une []) with (@nil byte) in E1.
    by rewrite E1, foldl_cwd. }
  rewrite E. set (l1 := foldl paso_ruta l0 (split_byte BARRA p)) in *.
  assert (match une l1 with [] => [BARRA] | _ => une l1 end = ruta_de l1) as -> by (by destruct l1). destruct (N.ltb_spec PATH_MAX (lenN (ruta_de l1))) as [Hc|]; [|done].
  exfalso. destruct l1 as [|n l1]; [by vm_compute in Hc|]. change (ruta_de (n :: l1)) with (une (n :: l1)) in Hc. lia.
Qed.

(** The path without what trails, and never one of the refused. *)
Lemma trim_final l : Forall nombre_propio l -> trim_end_matches BARRA (ruta_de l) = une l.
Proof.
  intros Hl. destruct l as [|n l _] using rev_ind; [done|]. rewrite ruta_de_ne by (by destruct l). unfold trim_end_matches, trim_start_matches. rewrite une_snoc, reverse_app, reverse_cons.
  apply Forall_app in Hl as [_ [(Hn & Hne & _) _]%Forall_cons]. destruct n as [|x n _] using rev_ind; [done|]. rewrite reverse_snoc. cbn [app length strip_while].
  rewrite decide_False by (intros ->; apply Hn; set_solver). rewrite <- (reverse_involutive (une l ++ _)). f_equal. rewrite reverse_app, reverse_cons, reverse_snoc. done.
Qed.
Lemma une_lleno m n : une m ++ BARRA :: n ≠ [] ∧ une m ++ BARRA :: n ≠ txt ".".
Proof. split; [by destruct (une m)|]. destruct m as [|x m]; [done|]. by unfold une. Qed.

(** ** What the calls leave alone *)
Class DiscoSpec (T : Type) `{MaquinaSpec T, !Disco T} := {
  es_fichero_ok i s : igual s (vfs_es_fichero i s).2;
  truncate_ok p z t s r : r ≠ comps p -> arbol (vfs_truncate_path p z t s).2 !! r = arbol s !! r;
  (** Moving a name moves what is below it, and nothing else. *)
  rename_ok d n d' n' t s q q' r : nodo s d = Some q -> nodo s d' = Some q' -> ¬ (q ++ [n]) `prefix_of` r -> ¬ (q' ++ [n']) `prefix_of` r ->
    arbol (LogFs.vfs_rename d n d' n' t s).2 !! r = arbol s !! r;
  fcache_ok i d n s : arbol (fcache_renombrar i d n s) = arbol s;
}.

(** [pid] is not the one who may write. *)
Definition sujeta (vive : N -> bool) (pid : N) (e : Exclusion) : Prop :=
  match estado e with Armada => True | Dueno d => d ≠ pid ∧ vive d = true | Libre => False end.
Lemma vigente_sujeta vive pid e : sujeta vive pid e -> vigente vive e = (estado e, e) ∧ estado e ≠ Libre ∧ estado e ≠ Dueno pid.
Proof. unfold sujeta, vigente. destruct (estado e) as [|d|]; [done| |done]. intros [Hd ->]. split; [done|]. split; [done|congruence]. Qed.

(** A file a release administers, by its names. *)
Definition administrado (q : list str) : bool := es_administrada (ruta_de q).
(** The call moves a directory on the way to [q], or puts one there, or one in
    the way of what it moves. *)
Definition sobre (p q : list str) : Prop := p `prefix_of` q ∧ p ≠ q.
Definition mueve (q : list str) (c : Llamada) : Prop :=
  match c with
  | Rename cwd old new => exists o n, abs_path cwd old = Some o ∧ abs_path cwd new = Some n ∧
      (sobre (comps o) q ∨ sobre (comps n) q ∨ sobre (comps n) (comps o))
  | _ => False
  end.

Section Deja.
Context {T : Type} `{DiscoSpec T}.
Variables (vive : N -> bool) (pid : N) (q : list str).
Hypothesis Hq : administrado q = true.
Implicit Types s : Kernel T.
Abbreviation K := (M (Kernel T) Errno).

Definition fijo s s' : Prop := k_excl s' = k_excl s ∧ fichero (k_disco s') q = fichero (k_disco s) q.
Definition deja {A} (m : K A) s (Φ : A -> Kernel T -> Prop) : Prop :=
  let '(r, s') := m s in fijo s s' ∧ match r with Ok a => Φ a s' | _ => True end.

Lemma fijo_refl s : fijo s s.
Proof using Type. done. Qed.
Lemma deja_bind {A B} (m : K A) (f : A -> K B) s Φ : deja m s (fun a s' => deja (f a) s' Φ) -> deja (m ≫= f) s Φ.
Proof using Type.
  unfold deja. rewrite bind_eq. destruct (m s) as [[a|e| |] s1]; [|done..]. intros [[E1 E2] Hf]. destruct (f a s1) as [r s2]. destruct Hf as [[F1 F2] Hf].
  split; [|done]. split; congruence.
Qed.
Lemma deja_ret {A} (a : A) s (Φ : A -> Kernel T -> Prop) : Φ a s -> deja (mret a) s Φ.
Proof using Type. by split. Qed.
Lemma deja_mono {A} (m : K A) s (Φ Φ' : A -> Kernel T -> Prop) : deja m s Φ -> (forall a s', fijo s s' -> Φ a s' -> Φ' a s') -> deja m s Φ'.
Proof using Type. unfold deja. destruct (m s) as [[a|e| |] s1]; intros [? ?] ?; auto. Qed.
Lemma deja_attempt {A} (m : K A) s (Φ : _ -> Kernel T -> Prop) : deja m s (fun a => Φ (inr a)) -> (forall e s', fijo s s' -> (m s) = (Err e, s') -> Φ (inl e) s') -> deja (attempt m) s Φ.
Proof using Type. unfold deja, attempt. destruct (m s) as [[a|e| |] s1]; intros [? ?] He; eauto. Qed.

(** An operation of the file system. *)
Lemma deja_vfs {A} (m : M T unit A) s (Φ : A -> Kernel T -> Prop) :
  (let '(r, d) := m (k_disco s) in fichero d q = fichero (k_disco s) q ∧ match r with Ok a => Φ a (mkKernel (k_excl s) d) | _ => True end) -> deja (with_vfs m) s Φ.
Proof using Type. unfold deja, with_vfs. destruct (m (k_disco s)) as [[a|e| |] d]; intros [? ?]; (split; [by split|done]). Qed.
Lemma igual_fichero (d d' : T) r : igual d d' -> fichero d' r = fichero d r.
Proof using Type. intros [E _]. unfold fichero. by rewrite E. Qed.

Lemma deja_ruta cwd raw s (Φ : str -> Kernel T -> Prop) : (forall l, Forall nombre_propio l -> abs_path cwd raw = Some (ruta_de l) -> Φ (ruta_de l) s) -> deja (resolve_user_path cwd raw) s Φ.
Proof using Type.
  intros HΦ. unfold resolve_user_path, of_option. destruct (abs_path cwd raw) as [r|] eqn:E; [|by split]. destruct (abs_path_forma _ _ _ E) as (l & Hl & ->).
  apply deja_ret. by apply HΦ.
Qed.

(** Who is kept out only gets past with what is not administered. *)
Lemma deja_comprobar l s (Φ : unit -> Kernel T -> Prop) : sujeta vive pid (k_excl s) -> (es_administrada (ruta_de l) = false -> Φ tt s) -> deja (comprobar_escritura vive pid (ruta_de l)) s Φ.
Proof using Type.
  intros Hs HΦ. unfold comprobar_escritura, deja. destruct (vigente_sujeta _ _ _ Hs) as (-> & H1' & H2'). destruct s as [e d]. cbn [k_excl k_disco] in *.
  destruct (estado e) as [|o|] eqn:E; [done| |].
  all: rewrite bool_decide_eq_false_2 by done; destruct (es_administrada (ruta_de l)); [split; [apply fijo_refl|done]|]; match goal with |- context [if ?b then _ else _] => destruct b end; (split; [apply fijo_refl|auto]).
Qed.

(** The directory and the name of a path. *)
Lemma deja_padre l s (Φ : N * str -> Kernel T -> Prop) : Forall nombre_propio l ->
  (forall m n i d, l = m ++ [n] -> igual (k_disco s) d -> nodo d i = Some m -> Φ (i, n) (mkKernel (k_excl s) d)) -> deja (resolve_parent (ruta_de l)) s Φ.
Proof using Type.
  intros Hl HΦ. clear vive pid Hq. unfold resolve_parent. rewrite trim_final by done. destruct l as [|n m _] using rev_ind; [by split|]. rewrite une_snoc. pose proof Hl as [Hm [(Hn & Hne & Hd & _) _]%Forall_cons]%Forall_app.
  cbv zeta. rewrite bool_decide_eq_false_2 by (destruct (une_lleno m n); tauto).
  rewrite rfind_app by done. apply deja_bind.
  assert (exists dir, comps dir = m ∧ (match length (une m) with 0%nat => mret (txt "/", drop 1 (une m ++ BARRA :: n)) | S _ => mret (take (length (une m)) (une m ++ BARRA :: n), drop (S (length (une m))) (une m ++ BARRA :: n)) end : K (str * str)) = mret (dir, n)) as (dir & Hc & ->).
  { destruct (decide (m = [])) as [->|Hm0]; [by exists (txt "/")|]. exists (une m). split; [by rewrite <- ruta_de_ne, comps_ruta|].
    destruct m as [|x m]; [done|]. change (une (x :: m)) with (BARRA :: (x ++ une m)). cbn [length]. f_equal. f_equal; [by rewrite (take_app_length (BARRA :: (x ++ une m)))|].
    by rewrite (drop_app_ge (BARRA :: (x ++ une m))) by (cbn; lia); cbn [length]; replace (S (S (length (x ++ une m))) - S (length (x ++ une m)))%nat with 1%nat by lia. }
  apply deja_ret. rewrite bool_decide_eq_false_2 by tauto. apply deja_bind, deja_vfs. pose proof (resolve_ok dir (k_disco s)) as Hr.
  destruct (LogFs.vfs_resolve dir (k_disco s)) as [[i|e| |] d]; destruct Hr as [Hi Hr]; (split; [by apply igual_fichero|]); try done. apply deja_ret. apply (HΦ m); [done|done|by rewrite Hr, Hc].
Qed.

(** *** Each call *)
Lemma no_es l : es_administrada (ruta_de l) = false -> l ≠ q.
Proof using Hq. intros E ->. unfold administrado in Hq. congruence. Qed.
Lemma pone_dir_fichero r (d d' : T) : pone r None d d' -> fichero d' q = fichero d q.
Proof using Type.
  clear vive pid Hq. intros (E1 & E2 & _). unfold fichero, en_arbol. rewrite E2. destruct (decide (q = r)) as [->|]; [by rewrite lookup_insert_eq, E1|by rewrite lookup_insert_ne].
Qed.
Lemma quita_fichero r (d d' : T) : r ≠ q -> quita r d d' -> fichero d' q = fichero d q.
Proof using Type. clear vive pid Hq. intros Hr (E & _). unfold fichero, en_arbol. by rewrite E, lookup_delete_ne. Qed.
Lemma unlink_fichero m n i (d : T) : nodo d i = Some m -> m ++ [n] ≠ q -> fichero (LogFs.vfs_unlink i n d).2 q = fichero d q.
Proof using Type.
  clear vive pid Hq. intros Hi Hr. pose proof (unlink_ok i n d) as Hu. destruct (LogFs.vfs_unlink i n d) as [[[]|e| |] d']; cbn [snd].
  - destruct Hu as (m' & E & Hu). rewrite Hi in E. injection E as <-. by apply (quita_fichero (m ++ [n])).
  - destruct Hu as [Hu _]. by apply igual_fichero.
  - destruct Hu as [_ [Hu|(m' & E & Hu)]]; [by apply igual_fichero|]. rewrite Hi in E. injection E as <-. by apply (quita_fichero (m ++ [n])).
  - done.
Qed.

Lemma mkdir_deja cwd raw s : sujeta vive pid (k_excl s) -> deja (sys_mkdir vive pid cwd raw) s (fun _ _ => True).
Proof using Type.
  clear Hq. intros Hs. apply deja_bind, deja_ruta. intros l Hl _. apply deja_bind, deja_comprobar; [done|]. intros _. apply deja_bind, deja_padre; [done|].
  intros m n i d -> Hi Hn. apply deja_bind. split; [apply fijo_refl|]. apply deja_bind, deja_vfs. cbn [k_disco]. generalize (LogFs.wall_secs d) at 1. intros t.
  pose proof (mkdir_ok i n t d) as Hm. destruct (LogFs.vfs_mkdir i n t d) as [[j|e| |] d'].
  - destruct Hm as (m' & _ & Hp & _). split; [by eapply pone_dir_fichero|by apply deja_ret].
  - split; [|done]. destruct Hm as [Hm _]. by apply igual_fichero.
  - split; [|done]. destruct Hm as [_ [Hm|(m' & _ & Hp)]]; [by apply igual_fichero|by eapply pone_dir_fichero].
  - done.
Qed.
Lemma unlink_deja cwd raw s : sujeta vive pid (k_excl s) -> deja (sys_unlink vive pid cwd raw) s (fun _ _ => True).
Proof using Hq.
  intros Hs. apply deja_bind, deja_ruta. intros l Hl _. apply deja_bind, deja_comprobar; [done|]. intros Hna. apply deja_bind, deja_padre; [done|].
  intros m n i d -> Hi Hn. apply deja_bind, deja_vfs. cbn [k_disco]. pose proof (unlink_fichero m n i d Hn (no_es _ Hna)) as Hu.
  destruct (LogFs.vfs_unlink i n d) as [[j|e| |] d']; (split; [done|]); done.
Qed.
Lemma truncate_deja cwd raw z s : sujeta vive pid (k_excl s) -> deja (sys_truncate vive pid cwd raw z) s (fun _ _ => True).
Proof using Hq H2.
  intros Hs. apply deja_bind, deja_ruta. intros l Hl _. apply deja_bind, deja_comprobar; [done|]. intros Hna. apply deja_bind. split; [apply fijo_refl|].
  apply deja_bind, deja_vfs. generalize (LogFs.wall_secs (k_disco s)) at 1. intros t. assert (fichero (vfs_truncate_path (ruta_de l) z t (k_disco s)).2 q = fichero (k_disco s) q) as Hu.
  { unfold fichero, en_arbol. rewrite truncate_ok; [done|]. rewrite comps_ruta by done. intros E. by apply (no_es l Hna). }
  destruct (vfs_truncate_path (ruta_de l) z t (k_disco s)) as [[j|e| |] d']; (split; [done|]); done.
Qed.

(** Moving [o] to [n], two names none of which is on the way to [q]. *)
Lemma rename_deja cwd old new s : sujeta vive pid (k_excl s) -> ¬ mueve q (Rename cwd old new) -> deja (sys_rename vive pid cwd old new) s (fun _ _ => True).
Proof using Hq H2.
  intros Hs Hmv. apply deja_bind, deja_ruta. intros lo Hlo Eo. apply deja_bind, deja_ruta. intros ln Hln En.
  assert (¬ sobre lo q ∧ ¬ sobre ln q ∧ ¬ sobre ln lo) as (M1 & M2 & M3).
  { rewrite <- (comps_ruta lo Hlo), <- (comps_ruta ln Hln). split_and!; intros M; apply Hmv; exists (ruta_de lo), (ruta_de ln); auto. }
  clear Hmv Eo En. apply deja_bind, deja_comprobar; [done|]. intros Ho%no_es. apply deja_bind, deja_comprobar; [done|]. intros Hn%no_es.
  apply deja_bind, deja_padre; [done|]. intros mo no io d1 -> Hi1 Hio. apply deja_bind, deja_padre; [done|]. intros mn nn inn d2 -> Hi2 Hin. cbn [k_excl k_disco] in *.
  assert (nodo d2 io = Some mo) as Hio2 by (by apply Hi2). clear Hio Hi1 Hi2 d1. apply deja_bind. split; [apply fijo_refl|]. cbn [k_disco]. generalize (LogFs.wall_secs d2) at 1. intros t.
  (* what is read leaves the tree *)
  assert (forall A (m : M T unit A) d (Φ : A -> Kernel T -> Prop), igual d (m d).2 ->
    (forall a d', igual d d' -> Φ a (mkKernel (k_excl s) d')) -> deja (with_vfs m) (mkKernel (k_excl s) d) Φ) as Hlee.
  { intros A m d Φ Hm HΦ. apply deja_vfs. cbn [k_disco k_excl]. destruct (m d) as [r d']. split; [by apply igual_fichero|]. destruct r; auto. }
  assert (forall i c d, igual d (LogFs.vfs_lookup i c d).2) as Hlk.
  { intros i c d. pose proof (lookup_ok i c d) as Hl. destruct (LogFs.vfs_lookup i c d). apply Hl. }
  assert (forall d, nodo d io = Some mo -> nodo d inn = Some mn ->
    deja (movido ← attempt (with_vfs (LogFs.vfs_lookup io no));
          with_vfs (LogFs.vfs_rename io no inn nn t);;
          match movido with inr ino => modify (fun s => mkKernel (k_excl s) (fcache_renombrar ino inn nn (k_disco s))) | inl _ => mret tt end;;
          mret 0) (mkKernel (k_excl s) d) (fun _ _ => True)) as Hfin.
  { intros d Hd1 Hd2. assert (forall mv d, nodo d io = Some mo -> nodo d inn = Some mn -> deja (with_vfs (LogFs.vfs_rename io no inn nn t);;
          match mv : (Errno + N)%type with inr ino => modify (fun s => mkKernel (k_excl s) (fcache_renombrar ino inn nn (k_disco s))) | inl _ => mret tt end;;
          mret 0) (mkKernel (k_excl s) d) (fun _ _ => True)) as Hre.
    { intros mv d' H1' H2'. apply deja_bind, deja_vfs. cbn [k_disco k_excl]. pose proof (fun N1 N2 => rename_ok io no inn nn t d' mo mn q H1' H2' N1 N2) as Hr.
      destruct (LogFs.vfs_rename io no inn nn t d') as [r d'']. cbn [snd] in Hr. split.
      - unfold fichero, en_arbol. rewrite Hr; [done|..]; intros Hpre; [apply M1|apply M2]; by split.
      - destruct r; try done. apply deja_bind. destruct mv as [|ino]; (split; [|done]); [done|]. split; [done|]. unfold fichero. cbn [k_disco]. by rewrite fcache_ok. }
    apply deja_bind, deja_attempt.
    - apply Hlee; [done|]. intros a d' [_ Hi]. apply (Hre (inr a) d'); by apply Hi.
    - intros e [e' d'] [E1 _] Er. cbn in E1. subst e'. unfold with_vfs in Er. cbn [k_disco k_excl] in Er. pose proof (Hlk io no d) as [_ Hi]. destruct (LogFs.vfs_lookup io no d) as [r d'']. cbn [snd] in Hi.
      destruct r as [|u| |]; simplify_eq. apply (Hre (inl Del_vfs) d'); by apply Hi. }
  apply deja_bind, deja_attempt.
  - apply Hlee; [done|]. intros dest d3 [_ Hi3]. apply deja_bind, deja_bind, Hlee; [apply es_fichero_ok|]. intros f d4 [_ Hi4].
    destruct (_ && _); [|apply deja_ret, (Hfin d4); by apply Hi4, Hi3]. apply deja_vfs. cbn [k_disco k_excl].
    assert (nodo d4 inn = Some mn) as Hn4 by (by apply Hi4, Hi3). pose proof (unlink_fichero mn nn inn d4 Hn4 Hn) as Hu. pose proof (unlink_ok inn nn d4) as Ho4.
    destruct (LogFs.vfs_unlink inn nn d4) as [[[]|e| |] d5]; (split; [exact Hu|]); try done. destruct Ho4 as (m' & E & _ & Hsg). rewrite Hn4 in E. injection E as <-.
    assert (forall (l : list str) x, l ≠ l ++ [x]) as Hlen by (intros l x E; apply (f_equal length) in E; rewrite length_app in E; cbn in E; lia).
    apply (Hfin d5); (apply Hsg; [|by auto]); [|by apply Hlen]. intros E. apply M3. rewrite E. split; [by apply prefix_app_r|apply Hlen].
  - intros e [e' d'] [E1 _] Er. cbn in E1. subst e'. apply deja_bind, deja_ret. unfold with_vfs in Er. cbn [k_disco k_excl] in Er. pose proof (Hlk inn nn d2) as [_ Hi].
    destruct (LogFs.vfs_lookup inn nn d2) as [r d'']. cbn [snd] in Hi. destruct r as [|u| |]; simplify_eq. apply (Hfin d'); by apply Hi.
Qed.

Lemma txn_deja op res s : sujeta vive pid (k_excl s) -> deja (sys_txn_lock vive pid op res) s (fun _ _ => True).
Proof using Type.
  clear Hq. intros Hs. destruct (vigente_sujeta _ _ _ Hs) as (Hv & H1' & H2'). destruct s as [e d]. cbn [k_excl] in *.
  assert (forall d0, estado e = Dueno d0 -> (d0 =? pid) = false) as Hne by (intros d0 E; apply N.eqb_neq; congruence).
  assert (forall A (m : X A) (f : A -> N), (m e).2 = e -> deja (en_excl m ≫= (fun x => mret (f x))) (mkKernel e d) (fun _ (_ : Kernel T) => True)) as Hex.
  { intros A m f Hm. apply deja_bind. unfold deja, en_excl. cbn [k_excl k_disco]. destruct (m e) as [r e']. cbn in Hm. subst e'. split; [apply fijo_refl|by destruct r]. }
  assert ((tomar vive pid res e).2 = e ∧ (armado vive pid e).2 = e ∧ (soltar vive pid e).2 = e ∧ (estado_de vive pid e).2 = e) as (E1 & E2 & E3 & E4).
  { unfold tomar, armado, soltar, estado_de. rewrite Hv. destruct (estado e) as [|o|] eqn:Ee; [done| |done]. by rewrite (Hne o). }
  unfold sys_txn_lock. destruct op as [|[[?|?|]|[?|[?|?|]|]|]]; try (split; [apply fijo_refl|done]); try by apply (Hex _ _ (fun _ => 0)).
  unfold deja, en_excl. cbn [k_excl k_disco]. destruct (estado_de vive pid e) as [r e']. cbn in E4. subst e'. split; [apply fijo_refl|by destruct r].
Qed.
End Deja.

(** ** Any sequence of calls *)
Record Turno := mkTurno { quien : N; vivos : N -> bool; llamada : Llamada }.
Fixpoint turnos {T} `{Disco T} (ts : list Turno) (s : Kernel T) : Kernel T :=
  match ts with [] => s | t :: ts => turnos ts (llama (vivos t) (quien t) (llamada t) s).2 end.
(** Nobody of [ts] is the one who may write, and that one stays alive. *)
Definition ajenos (e : Exclusion) (ts : list Turno) : Prop :=
  match estado e with Armada => True | Dueno d => Forall (fun t => quien t ≠ d ∧ vivos t d = true) ts | Libre => False end.

(** C26. While an update holds the exclusion, armed or in the hands of a live process,
    no sequence of the calls of the others that take a path (create a directory,
    remove, truncate, rename) or ask for the exclusion takes it away or touches a
    file the release administers, unless it moves one of the directories on the way
    to it. The calls on open descriptors are not among them: through one of those a
    reader does write such a file ([FcacheSesion.lector_publica]). *)
Theorem exclusion_protege {T} `{DiscoSpec T} ts (s : Kernel T) q : ajenos (k_excl s) ts -> administrado q = true -> Forall (fun t => ¬ mueve q (llamada t)) ts ->
  k_excl (turnos ts s) = k_excl s ∧ fichero (k_disco (turnos ts s)) q = fichero (k_disco s) q.
Proof.
  revert s. induction ts as [|t ts IH]; intros s Ha Hq Hm; [done|]. apply Forall_cons in Hm as [Hm Hms]. cbn [turnos].
  assert (sujeta (vivos t) (quien t) (k_excl s) ∧ ajenos (k_excl s) ts) as [Hs Ha'].
  { unfold ajenos, sujeta in *. destruct (estado (k_excl s)) as [|d|]; [done| |done]. by apply Forall_cons in Ha as [[? ?] ?]. }
  assert (deja q (llama (vivos t) (quien t) (llamada t)) s (fun _ _ => True)) as Hd.
  { destruct (llamada t); [by apply txn_deja|by apply mkdir_deja|by apply unlink_deja|by apply truncate_deja|by apply rename_deja]. }
  unfold deja in Hd. destruct (llama _ _ _ s) as [r s1]. destruct Hd as [[E1 E2] _]. cbn [snd]. rewrite <- E1 in Ha'.
  destruct (IH s1 Ha' Hq Hms) as [F1 F2]. split; congruence.
Qed.

(** C31. A path given to a call becomes the list of its names, applied to the ones of
    the directory of the process: without empty names, [.] or [..], which goes up and
    never above the root; it is refused only when it is too long, and what comes
    out is a path of the same form that names what it should. *)
Theorem ruta_normal l p : Forall nombre_propio l ->
  abs_path (ruta_de l) p = (if PATH_MAX <? (if starts_with [BARRA] p then lenN p else lenN (une l) + 1 + lenN p) then None else Some (ruta_de (normaliza l p))) ∧
  Forall nombre_propio (normaliza l p) ∧ comps (ruta_de (normaliza l p)) = normaliza l p.
Proof. intros Hl. destruct (abs_path_run l p Hl) as [H1 H2]. split; [done|]. split; [done|]. by apply comps_ruta. Qed.

(** ** The machine in memory *)
Import OtaArranqueTeoremas.
Section Equipo.
Context {cortable averiada : bool}.
Abbreviation Q := (Equipo cortable averiada).
Implicit Types s : Q.

#[export] Instance Equipo_Disco : Disco Q := {|
  vfs_es_fichero := fun i => en_nodo i (fun q s => (match q_arbol s !! q with Some v => Ok (bool_decide (is_Some v)) | None => Err tt end, s));
  vfs_truncate_path := fun p z _ s =>
    match q_arbol s !! comps p with
    | Some (Some x) => (gasta;; modify (con_arbol <[comps p := Some (take (N.to_nat z) x)]>)) s
    | _ => (Err tt, s)
    end;
  free_blocks := fun _ => Some 64;
  fcache_renombrar := fun _ _ _ s => s;
|}.

Lemma mudado_fuera (o n : list str) (t : Arbol) (r : list str) : ¬ o `prefix_of` r -> ¬ n `prefix_of` r -> mudado o n t !! r = t !! r.
Proof.
  intros Ho Hn. unfold mudado. rewrite lookup_union_r.
  - destruct (t !! r) as [v|] eqn:E.
    + by apply map_lookup_filter_Some.
    + apply map_lookup_filter_None. by left.
  - apply not_elem_of_list_to_map_1. intros Hin. apply list_elem_of_fmap in Hin as ([k v] & -> & Hin). apply list_elem_of_omap in Hin as ([k' v'] & _ & E).
    cbn in E. case_decide; [|done]. injection E as <- _. apply Hn. cbn. by apply prefix_app_r.
Qed.

#[export] Instance Equipo_DiscoSpec : DiscoSpec Q.
Proof.
  split.
  - intros i s. cbn. unfold en_nodo. destruct (nodo_q s i) as [q|]; [|done]. by destruct (q_arbol s !! q).
  - intros p z t s r Hr. cbn. destruct (q_arbol s !! comps p) as [[x|]|]; [|done..]. rewrite bind_eq. destruct (gasta_casos s) as [[Hc ->]|[m ->]]; [done|]. cbn. by rewrite lookup_insert_ne.
  - intros d n d' n' t s q q' r Hq Hq' Ho Hn. cbn in *. unfold q_rename, en_nodo. rewrite Hq, Hq'. destruct (q_arbol s !! (q ++ [n])); [|done]. destruct (q_arbol s !! (q' ++ [n'])); [done|].
    rewrite bind_eq. destruct (gasta_casos s) as [[Hc ->]|[m ->]]; [done|]. cbn. by apply mudado_fuera.
  - done.
Qed.
End Equipo.

(** An update armed in the machine of [OtaArranqueTeoremas]. *)
Definition en_curso (st : EstadoExcl) : Kernel (Equipo false false) := mkKernel (mkExclusion st 8) (equipo_armado 0).
Definition raiz : str := txt "/".

(** Three calls of a process that has nothing to do with the update: none is let
    through where it would matter. *)
Definition intentos : list Turno :=
  (fun c => mkTurno 7 (fun p => bool_decide (p = 3)) c) <$> [Unlink raiz (txt "bin/./a"); TxnLock 1 0; Rename raiz (txt "/var/lib") (txt "var/../tmp"); Truncate (txt "/var") (txt "../bin/a") 0].
Lemma exclusion_protege_testigo : k_excl (turnos intentos (en_curso (Dueno 3))) = mkExclusion (Dueno 3) 8 ∧
  fichero (k_disco (turnos intentos (en_curso (Dueno 3)))) [txt "bin"; txt "a"] = Some viejo ∧
  arbol (k_disco (turnos intentos (en_curso (Dueno 3)))) !! [txt "var"; txt "lib"] = None.
Proof.
  destruct (exclusion_protege intentos (en_curso (Dueno 3)) [txt "bin"; txt "a"]) as [E1 E2].
  - unfold ajenos, intentos. cbn [estado en_curso k_excl]. apply Forall_fmap, Forall_true. intros c. by split.
  - by vm_compute.
  - repeat constructor; cbn [llamada mueve]; try tauto. intros (o & n & Eo & En & Hm). vm_compute in Eo. injection Eo as <-. vm_compute in En. injection En as <-.
    assert (comps (txt "/var/lib") = [txt "var"; txt "lib"] ∧ comps (txt "/tmp") = [txt "tmp"]) as [Ec1 Ec2] by by vm_compute.
    destruct Hm as [[[k Hk] _]|[[[k Hk] _]|[[k Hk] _]]]; vm_compute in Hk; discriminate Hk.
  - split; [by rewrite E1|]. split; [rewrite E2; by vm_compute|by vm_compute].
Defined.

Lemma ruta_normal_testigo : Forall nombre_propio [txt "var"; txt "lib"] ∧ abs_path (txt "/var/lib") (txt ".././../..//bin/a/") = Some (txt "/bin/a").
Proof.
  assert (Forall nombre_propio [txt "var"; txt "lib"]) as Hl by (apply (bool_decide_unpack _); by vm_compute).
  split; [exact Hl|]. exact (proj1 (ruta_normal [txt "var"; txt "lib"] (txt ".././../..//bin/a/") Hl)).
Defined.

(** The directories themselves are not administered, only what is in them: with an
    update armed any process renames [/bin] and the files the update copied are no
    longer there, and then writes them at will under the new name. *)
Theorem raiz_movida :
  let s1 := turnos [mkTurno 7 (fun _ => true) (Rename raiz (txt "/bin") (txt "/otro"))] (en_curso Armada) in
  let s2 := turnos [mkTurno 7 (fun _ => true) (Unlink raiz (txt "/otro/a"))] s1 in
  administrado [txt "bin"; txt "a"] = true ∧ fichero (k_disco (en_curso Armada)) [txt "bin"; txt "a"] = Some viejo ∧
  estado (k_excl s2) = Armada ∧ fichero (k_disco s1) [txt "bin"; txt "a"] = None ∧ fichero (k_disco s1) [txt "otro"; txt "a"] = Some viejo ∧
  fichero (k_disco s2) [txt "otro"; txt "a"] = None.
Proof. vm_compute. done. Qed.
