(* ===== verification/Fcache.v ===== *)
(** * Kernel: open files

    [kernel/src/task/fcache.rs]: the contents of the open files, by inode; and the
    descriptors and their system calls, of [kernel/src/task/mod.rs] and
    [kernel/src/task/syscall.rs]. The paths, the virtual file system and the
    exclusion of writers are the ones of [OtaExclusion]. *)
From S2P Require Import Prelude Texto.
From S2P Require SosofsLayout LogFs OtaArranque OtaExclusion.
Local Open Scope N_scope.

(** ** The contents by inode *)
Record Entrada := mkEntrada {
  data : list byte;
  refs : N;
  sucio : bool;
  dir : N;
  name : str;
  titulares : list N;
  exclusivo : bool;
}.
Abbreviation Cache := (gmap N Entrada).

(** [Vec::resize] with zeros. *)
Definition resize (n : N) (l : list byte) : list byte := take (N.to_nat n) l ++ zeros (n - lenN l).

(** [Vec::truncate]. *)
Definition truncate (n : N) (l : list byte) : list byte := if lenN l <=? n then l else take (N.to_nat n) l.

(** [cargar] is what the closure would give. *)
Definition abrir (ino d : N) (n : str) (cargar : list byte) (c : Cache) : Cache :=
  match c !! ino with
  | Some e =>
      let conocida := bool_decide (name e = []) && bool_decide (n ≠ []) in
      <[ino := mkEntrada (data e) (refs e + 1) (sucio e) (if conocida then d else dir e) (if conocida then n else name e) (titulares e) (exclusivo e)]> c
  | None => <[ino := mkEntrada cargar 1 false d n [] false]> c
  end.
Definition largo (ino : N) (c : Cache) : option N := e ← c !! ino; Some (lenN (data e)).
(** [None]: the file is not open. *)
Definition leer {E} (ino pos n : N) : M Cache E (option (list byte)) := fun c =>
  match c !! ino with
  | None => (Ok None, c)
  | Some e => let n := N.min n (lenN (data e) - pos) in
      match slice pos n (data e) with Some x => (Ok (Some x), c) | None => (Panic, c) end
  end.
Definition renombrar (ino d : N) (n : str) (c : Cache) : Cache :=
  match c !! ino with Some e => <[ino := mkEntrada (data e) (refs e) (sucio e) d n (titulares e) (exclusivo e)]> c | None => c end.
Definition con_datos (e : Entrada) (x : list byte) : Entrada := mkEntrada x (refs e) true (dir e) (name e) (titulares e) (exclusivo e).
Definition escribir {E} (ino pos : N) (datos : list byte) : M Cache E (option N) := fun c =>
  match c !! ino with
  | None => (Ok None, c)
  | Some e =>
      match checked_add64 pos (lenN datos) with
      | None => (Ok None, c)
      | Some fin =>
          let x := if lenN (data e) <? fin then resize fin (data e) else data e in
          match put_slice pos datos x with
          | Some x => (Ok (Some (lenN datos)), <[ino := con_datos e x]> c)
          | None => (Panic, c)
          end
      end
  end.
Definition truncar {E} (ino len : N) : M Cache E (option unit) := fun c =>
  match c !! ino with None => (Ok None, c) | Some e => (Ok (Some tt), <[ino := con_datos e (resize len (data e))]> c) end.
Definition pendiente (ino : N) (c : Cache) : option (N * str * list byte) :=
  e ← c !! ino; if sucio e then Some (dir e, name e, data e) else None.
Definition limpio (ino : N) (c : Cache) : Cache :=
  match c !! ino with Some e => <[ino := mkEntrada (data e) (refs e) false (dir e) (name e) (titulares e) (exclusivo e)]> c | None => c end.
(** [true]: it was the last. *)
Definition cerrar {E} (ino : N) : M Cache E bool := fun c =>
  match c !! ino with
  | None => (Ok false, c)
  | Some e =>
      let refs := refs e - 1 in
      if refs =? 0 then (Ok true, delete ino c)
      else (Ok false, <[ino := mkEntrada (data e) refs (sucio e) (dir e) (name e) (titulares e) (exclusivo e)]> c)
  end.
Definition refs_de (ino : N) (c : Cache) : N := match c !! ino with Some e => refs e | None => 0 end.
Definition con_cerrojo (e : Entrada) (t : list N) (x : bool) : Entrada := mkEntrada (data e) (refs e) (sucio e) (dir e) (name e) t x.
(** [false]: another process has the lock. *)
Definition bloquear {E} (ino pid : N) (excl : bool) : M Cache E bool := fun c =>
  match c !! ino with
  | None => (Ok false, c)
  | Some e =>
      let ajenos := lenN (filter (fun t => t ≠ pid) (titulares e)) in
      if (0 <? ajenos) && (excl || exclusivo e) then (Ok false, c)
      else
        let t := if bool_decide (pid ∈ titulares e) then titulares e else titulares e ++ [pid] in
        (Ok true, <[ino := con_cerrojo e t (excl && (lenN t =? 1))]> c)
  end.
Definition sin_titular (pid : N) (e : Entrada) : Entrada :=
  let t := filter (fun t => t ≠ pid) (titulares e) in con_cerrojo e t (match t with [] => false | _ => exclusivo e end).
Definition desbloquear (ino pid : N) (c : Cache) : Cache := match c !! ino with Some e => <[ino := sin_titular pid e]> c | None => c end.
Definition soltar_todos (pid : N) (c : Cache) : Cache := sin_titular pid <$> c.

(** ** The descriptors *)
Definition NAME_MAX : N := 255.
Record Dirent := mkDirent { d_ino : N; d_file_type : N; d_name : str }.
Inductive Fd :=
| Tty
| File (inode pos : N)
| LazyFile (inode size pos : N)
| WriteBuf (inode dir : N) (name : str) (pos : N) (protegida : bool)
| StreamWrite (dir : N) (name : str) (inode : option N) (pos : N) (buf : list byte) (protegida : bool)
| Dir (entries : list Dirent) (pos : N)
| PipeRead (id : N)
| PipeWrite (id : N)
| Tcp (slot : N)
| Log
| PtyMaster (slot : N).

Definition MAX_FDS : N := 256.
Definition STREAM_FLUSH : N := 256 * 1024.
Definition MAX_SYSCALL_BUF : N := 16 * 1024 * 1024.
Definition THRESH : N := 256 * 1024 * 1024.
Definition CARGA_MAX : N := 1024 * 1024.
Definition LAZY_FILE_THRESHOLD : N := 64 * 1024.
Definition EIO : OtaExclusion.Errno := OtaExclusion.Codigo (-5).
Definition EBADF : OtaExclusion.Errno := OtaExclusion.Codigo (-9).
Definition EAGAIN : OtaExclusion.Errno := OtaExclusion.Codigo (-11).
Definition EEXIST : OtaExclusion.Errno := OtaExclusion.Codigo (-17).
Definition EISDIR : OtaExclusion.Errno := OtaExclusion.Codigo (-21).
Definition EMFILE : OtaExclusion.Errno := OtaExclusion.Codigo (-24).
Definition ESPIPE : OtaExclusion.Errno := OtaExclusion.Codigo (-29).
Definition ENOSYS : OtaExclusion.Errno := OtaExclusion.Codigo (-38).

Record Stat := mkStat { file_type : N; size : N }.

(** What the calls use of the rest of the kernel: the file system beyond
    [OtaArranque.Maquina], and what is not a file (pipes, sockets, terminals). *)
Class Discos (T : Type) `{OtaArranque.Maquina T} := {
  vfs_stat_inode : N -> M T unit Stat;
  (** [read_file_range(ino, offset, len, out)] *)
  vfs_read_range : N -> N -> N -> M T unit (list byte);
  vfs_truncate : str -> N -> N -> M T unit unit;
  libres : T -> option N;
  pipe_close_reader : N -> T -> T;
  pipe_close_writer : N -> T -> T;
  pipe_add_reader : N -> T -> T;
  pipe_add_writer : N -> T -> T;
  tcp_close : N -> T -> T;
  pty_close_master : N -> T -> T;
  pty_cerrar_master_diferido : N -> T -> T;
  otro_write : Fd -> list byte -> M T unit N;
  otro_read : Fd -> N -> M T unit (list byte);
}.

(** The disk, the cache, the table of descriptors of each process and whether the
    lock of the processes, [PROCS], is taken. *)
Record Mundo (T : Type) := mkMundo { disco : T; cache : Cache; fds : gmap N (list (option Fd)); procs : bool }.
Arguments mkMundo {T}. Arguments disco {T}. Arguments cache {T}. Arguments fds {T}. Arguments procs {T}.

Section Llamadas.
Context {T : Type} `{Discos T}.
Abbreviation S := (OtaExclusion.Kernel (Mundo T)).
Abbreviation K := (M S OtaExclusion.Errno).

Definition en_disco {A} (m : M T unit A) : M (Mundo T) unit A := fun s => let '(r, d) := m (disco s) in (r, mkMundo d (cache s) (fds s) (procs s)).
#[export] Instance Mundo_Vfs : LogFs.Vfs (Mundo T) := {|
  LogFs.vfs_resolve p := en_disco (LogFs.vfs_resolve p); LogFs.vfs_lookup d n := en_disco (LogFs.vfs_lookup d n);
  LogFs.vfs_mkdir d n t := en_disco (LogFs.vfs_mkdir d n t); LogFs.vfs_create_file d n x t := en_disco (LogFs.vfs_create_file d n x t);
  LogFs.vfs_append_file i x t := en_disco (LogFs.vfs_append_file i x t); LogFs.vfs_unlink d n := en_disco (LogFs.vfs_unlink d n);
  LogFs.vfs_rename d n d' n' t := en_disco (LogFs.vfs_rename d n d' n' t); LogFs.vfs_size i := en_disco (LogFs.vfs_size i);
  LogFs.wall_secs s := LogFs.wall_secs (disco s);
|}.
Definition stat_inode (i : N) : M (Mundo T) unit Stat := en_disco (vfs_stat_inode i).
#[export] Instance Mundo_Disco : OtaExclusion.Disco (Mundo T) := {|
  OtaExclusion.vfs_es_fichero i := st ← stat_inode i; mret (file_type st =? SosofsLayout.FT_FILE);
  OtaExclusion.vfs_truncate_path p z t := en_disco (vfs_truncate p z t);
  OtaExclusion.free_blocks s := libres (disco s);
  OtaExclusion.fcache_renombrar i d n s := mkMundo (disco s) (renombrar i d n (cache s)) (fds s) (procs s);
|}.

Definition mundo : S -> Mundo T := OtaExclusion.k_disco.
Definition con_mundo (f : Mundo T -> Mundo T) (s : S) : S := OtaExclusion.mkKernel (OtaExclusion.k_excl s) (f (mundo s)).
Definition con_cache (f : Cache -> Cache) : S -> S := con_mundo (fun m => mkMundo (disco m) (f (cache m)) (fds m) (procs m)).
Definition con_fds (f : gmap N (list (option Fd)) -> gmap N (list (option Fd))) : S -> S := con_mundo (fun m => mkMundo (disco m) (cache m) (f (fds m)) (procs m)).
Definition con_disco (f : T -> T) : S -> S := con_mundo (fun m => mkMundo (f (disco m)) (cache m) (fds m) (procs m)).
Definition con_procs (b : bool) : S -> S := con_mundo (fun m => mkMundo (disco m) (cache m) (fds m) b).
Definition en_cache {A} (m : M Cache OtaExclusion.Errno A) : K A := fun s => let '(r, c) := m (cache (mundo s)) in (r, con_cache (fun _ => c) s).
Definition with_vfs {A} (m : M T unit A) : K A := OtaExclusion.with_vfs (en_disco m).
Definition wall_secs (s : S) : N := LogFs.wall_secs (mundo s).

(** The processes alive. *)
Variable vive : N -> bool.

(** *** Tables of descriptors

    [PROCS] is a spin lock: who asks for it while holding it waits for ever, and no
    fuel is enough. *)
Definition con_cerrojo_de_procs {A} (m : K A) : K A := fun s =>
  if procs (mundo s) then (Fuel, s) else let '(r, s') := m (con_procs true s) in (r, con_procs false s').
Definition tabla (pid : N) : K (list (option Fd)) := fun s => match fds (mundo s) !! pid with Some t => (Ok t, s) | None => (Panic, s) end.
Definition set_tabla (pid : N) (t : list (option Fd)) : S -> S := con_fds <[pid := t]>.
Definition ranura (s : S) (pid fd : N) : option Fd := t ← fds (mundo s) !! pid; mjoin (t !! N.to_nat fd).

(** What is done to a descriptor under the lock of the processes. *)
Abbreviation KF := (M (Fd * S) OtaExclusion.Errno).
Definition en {A} (m : K A) : KF A := fun s => let '(r, s') := m s.2 in (r, (s.1, s')).
Definition yo : KF Fd := gets fst.
Definition pon (f : Fd) : KF unit := modify (fun s => (f, s.2)).
Definition with_fd {A} (pid fd : N) (m : KF A) : K A :=
  con_cerrojo_de_procs (
    t ← tabla pid;
    match mjoin (t !! N.to_nat fd) with
    | None => throw EBADF
    | Some f => (fun s => let '(r, (f', s')) := m (f, s) in (r, set_tabla pid (<[N.to_nat fd := Some f']> t) s')) : K A
    end).
(** What the slot held, if anything. *)
Definition take_fd (pid fd : N) : K (option Fd) :=
  t ← tabla pid;
  match mjoin (t !! N.to_nat fd) with
  | None => mret None
  | Some f => modify (set_tabla pid (<[N.to_nat fd := None]> t));; mret (Some f)
  end.
Definition put_fd (pid fd : N) (f : Fd) : K unit := t ← tabla pid; modify (set_tabla pid (<[N.to_nat fd := Some f]> t)).
Definition primero_libre (t : list (option Fd)) : option nat := fst <$> list_find (fun o => o = None) t.
Definition alloc_fd (pid : N) (f : Fd) : K N :=
  t ← tabla pid;
  match primero_libre t with
  | Some i => modify (set_tabla pid (<[i := Some f]> t));; mret (N.of_nat i)
  | None => if lenN t <? MAX_FDS then modify (set_tabla pid (t ++ [Some f]));; mret (lenN t) else throw EMFILE
  end.

(** *** Publishing

    To know whether the owner of the exclusion is alive [PROCS] is asked for. *)
Definition sigue_pudiendo_publicar (pid : N) (protegida : bool) : K unit :=
  if protegida then
    fun s => match OtaExclusion.estado (OtaExclusion.k_excl s), procs (mundo s) with
             | OtaExclusion.Dueno _, true => (Fuel, s)
             | _, _ => OtaExclusion.en_excl (OtaExclusion.comprobar_ruta_administrada vive pid) s
             end
  else mret tt.
Definition volcar_si_es_el_ultimo (inode : N) : K unit :=
  n ← gets (fun s => refs_de inode (cache (mundo s)));
  (if n <=? 1 then
     p ← gets (fun s => pendiente inode (cache (mundo s)));
     match p with
     | Some (d, n, datos) =>
         mtime ← gets wall_secs;
         if bool_decide (n = []) then mret tt
         else with_vfs (LogFs.vfs_create_file d n datos mtime);; modify (con_cache (limpio inode))
     | None => mret tt
     end
   else mret tt);;
  en_cache (cerrar inode);;
  mret tt.
(** What is left in the descriptor: the inode and the buffer. *)
Definition flush_stream_write (d : N) (n : str) (inode : option N) (buf : list byte) : K (option N * list byte) :=
  match buf with
  | [] =>
      match inode with
      | Some _ => mret (inode, buf)
      | None =>
          l ← attempt (with_vfs (LogFs.vfs_lookup d n));
          match l with
          | inr _ => mret (inode, buf)
          | inl _ => mtime ← gets wall_secs; ino ← with_vfs (LogFs.vfs_create_file d n [] mtime); mret (Some ino, buf)
          end
      end
  | _ =>
      mtime ← gets wall_secs;
      match inode with
      | Some ino => with_vfs (LogFs.vfs_append_file ino buf mtime);; mret (inode, [])
      | None => ino ← with_vfs (LogFs.vfs_create_file d n buf mtime); mret (Some ino, [])
      end
  end.

Definition drop_fd (pid : N) (f : Fd) : K unit :=
  match f with
  | WriteBuf inode _ _ _ protegida => sigue_pudiendo_publicar pid protegida;; volcar_si_es_el_ultimo inode
  | StreamWrite d n inode _ buf protegida => sigue_pudiendo_publicar pid protegida;; flush_stream_write d n inode buf;; mret tt
  | File inode _ => volcar_si_es_el_ultimo inode
  | PipeRead id => modify (con_disco (pipe_close_reader id))
  | PipeWrite id => modify (con_disco (pipe_close_writer id))
  | Tcp slot => modify (con_disco (tcp_close slot))
  | PtyMaster slot => modify (con_disco (pty_close_master slot))
  | _ => mret tt
  end.
(** The table of the process is emptied slot by slot. *)
Definition close_all_fds (pid : N) : K unit :=
  t ← tabla pid;
  mfor (fun i =>
    o ← take_fd pid i;
    match o with
    | None => mret tt
    | Some (PtyMaster pty) => modify (con_disco (pty_cerrar_master_diferido pty))
    | Some f => attempt (drop_fd pid f);; mret tt
    end) (upto (lenN t)).
(** The part of the end of a process that is about files. *)
Definition exit_current (pid : N) : K unit :=
  con_cerrojo_de_procs (modify (con_cache (soltar_todos pid));; close_all_fds pid;; modify (con_fds (delete pid))).
Definition sys_close (pid fd : N) : K N :=
  o ← con_cerrojo_de_procs (take_fd pid fd);
  match o with None => throw EBADF | Some f => drop_fd pid f;; mret 0 end.
Definition clone_fd (f : Fd) : K Fd :=
  match f with
  | File inode _ => modify (con_cache (abrir inode 0 [] []));; mret f
  | WriteBuf inode d n _ _ => modify (con_cache (abrir inode d n []));; mret f
  | PipeRead id => modify (con_disco (pipe_add_reader id));; mret f
  | PipeWrite id => modify (con_disco (pipe_add_writer id));; mret f
  | _ => mret f
  end.
Definition sys_dup2 (pid oldfd newfd : N) : K N :=
  if 255 <? newfd then throw EBADF
  else con_cerrojo_de_procs (
    t ← tabla pid;
    match mjoin (t !! N.to_nat oldfd) with
    | None => throw EBADF
    | Some old =>
        cloned ← clone_fd old;
        modify (set_tabla pid (t ++ replicate (N.to_nat (newfd + 1 - lenN t)) None));;
        o ← take_fd pid newfd;
        match o with Some prev => drop_fd pid prev | None => mret tt end;;
        put_fd pid newfd cloned;;
        mret newfd
    end).
(** The table of a new thread of [pid]. *)
Definition fds_para_hilo (pid : N) : K (list (option Fd)) :=
  t ← tabla pid;
  mfold (fun out f =>
    f ← match f with
        | None | Some (Tcp _) | Some (StreamWrite _ _ _ _ _ _) => mret None
        | Some f => f ← clone_fd f; mret (Some f)
        end;
    mret (out ++ [f])) [] t.

(** *** Writing *)
(** The whole chunks of what waits in a [StreamWrite]. *)
Fixpoint vaciar (fuel : nat) : KF unit :=
  match fuel with
  | O => no_fuel
  | Datatypes.S fuel =>
      f ← yo;
      match f with
      | StreamWrite d n inode pos buf protegida =>
          if STREAM_FLUSH <=? lenN buf then
            let chunk := take (N.to_nat STREAM_FLUSH) buf in
            let buf := drop (N.to_nat STREAM_FLUSH) buf in
            pon (StreamWrite d n inode pos buf protegida);;
            mtime ← en (gets wall_secs);
            match inode with
            | Some ino => en (with_vfs (LogFs.vfs_append_file ino chunk mtime))
            | None =>
                ino ← en (with_vfs (LogFs.vfs_create_file d n chunk mtime));
                pon (StreamWrite d n (Some ino) pos buf protegida)
            end;;
            vaciar fuel
          else mret tt
      | _ => mret tt
      end
  end.
Definition chunks_de (buf : list byte) : nat := Datatypes.S (N.to_nat (lenN buf / STREAM_FLUSH)).
Definition convert_writebuf_to_stream (datos : list byte) : KF unit :=
  f ← yo;
  match f with
  | WriteBuf inode d n written protegida =>
      p ← en (gets (fun s => pendiente inode (cache (mundo s))));
      let prefix := truncate written (match p with Some (_, _, x) => x | None => [] end) in
      en (en_cache (cerrar inode));;
      mtime ← en (gets wall_secs);
      inode ← match prefix with
              | [] => mret None
              | _ => ino ← en (with_vfs (LogFs.vfs_create_file d n prefix mtime)); mret (Some ino)
              end;
      new_pos ← add64 written (lenN datos);
      pon (StreamWrite d n inode new_pos datos protegida);;
      vaciar (chunks_de datos)
  | _ => mret tt
  end.
Definition sys_write (pid fd : N) (datos : list byte) : K N :=
  let datos := truncate MAX_SYSCALL_BUF datos in
  with_fd pid fd (
    f ← yo;
    match f with
    | Tty | PipeWrite _ | Tcp _ | Log | PtyMaster _ => en (with_vfs (otro_write f datos))
    | WriteBuf inode d n pos protegida =>
        fin ← add64 pos (lenN datos);
        if THRESH <? fin then convert_writebuf_to_stream datos;; mret (lenN datos)
        else
          o ← en (en_cache (escribir inode pos datos));
          of_option (throw EIO) o;;
          pon (WriteBuf inode d n fin protegida);;
          mret (lenN datos)
    | StreamWrite d n inode pos buf protegida =>
        en (sigue_pudiendo_publicar pid protegida);;
        pos ← add64 pos (lenN datos);
        let buf := buf ++ datos in
        pon (StreamWrite d n inode pos buf protegida);;
        vaciar (chunks_de buf);;
        mret (lenN datos)
    | _ => throw EBADF
    end).
Definition sys_pwrite (pid fd : N) (datos : list byte) (offset : N) : K N :=
  match datos with
  | [] => mret 0
  | _ =>
    with_fd pid fd (
      f ← yo;
      match f with
      | WriteBuf inode _ _ _ _ | File inode _ =>
          o ← en (en_cache (escribir inode offset datos)); of_option (throw EIO) o;; mret (lenN datos)
      | StreamWrite d n inode pos out protegida =>
          fin ← of_option (throw OtaExclusion.EINVAL) (checked_add64 offset (lenN datos));
          let out := if lenN out <? fin then resize fin out else out in
          match put_slice offset datos out with
          | Some out => pon (StreamWrite d n inode pos out protegida);; mret (lenN datos)
          | None => panic
          end
      | _ => throw EBADF
      end)
  end.
Definition sys_ftruncate (pid fd len : N) : K N :=
  with_fd pid fd (
    f ← yo;
    match f with
    | WriteBuf inode _ _ _ _ | File inode _ => o ← en (en_cache (truncar inode len)); of_option (throw EIO) o;; mret 0
    | StreamWrite d n inode pos buf protegida => pon (StreamWrite d n inode pos (resize len buf) protegida);; mret 0
    | _ => throw EBADF
    end).
Definition sys_fsync (pid fd : N) : K N :=
  with_fd pid fd (
    f ← yo;
    match f with
    | WriteBuf inode _ _ _ _ =>
        p ← en (gets (fun s => pendiente inode (cache (mundo s))));
        match p with
        | Some (d, n, datos) =>
            mtime ← en (gets wall_secs);
            en (with_vfs (LogFs.vfs_create_file d n datos mtime));;
            en (modify (con_cache (limpio inode)))
        | None => mret tt
        end
    | StreamWrite d n inode pos buf protegida =>
        '(inode, buf) ← en (flush_stream_write d n inode buf);
        pon (StreamWrite d n inode pos buf protegida)
    | _ => mret tt
    end;;
    mret 0).

(** *** Reading and moving *)
Definition sys_read (pid fd len : N) : K (list byte) :=
  let len := N.min len MAX_SYSCALL_BUF in
  with_fd pid fd (
    f ← yo;
    match f with
    | Tty | PipeRead _ | Tcp _ | PtyMaster _ => en (with_vfs (otro_read f len))
    | File inode pos =>
        o ← en (en_cache (leer inode pos len)); x ← of_option (throw EIO) o;
        pon (File inode (pos + lenN x));; mret x
    | WriteBuf inode d n pos protegida =>
        o ← en (en_cache (leer inode pos len)); x ← of_option (throw EIO) o;
        pon (WriteBuf inode d n (pos + lenN x) protegida);; mret x
    | LazyFile inode size pos =>
        let n := N.min len (size - pos) in
        if n =? 0 then mret []
        else x ← en (with_vfs (vfs_read_range inode pos n)); pon (LazyFile inode size (pos + n));; mret x
    | Dir _ _ => throw EISDIR
    | _ => throw EBADF
    end).
(** [as i64]. *)
Definition as_i64 (n : N) : Z := if n <? 2 ^ 63 then Z.of_N n else (Z.of_N n - 2 ^ 64)%Z.
Definition con_pos (f : Fd) (p : N) : Fd :=
  match f with
  | File i _ => File i p
  | LazyFile i z _ => LazyFile i z p
  | WriteBuf i d n _ x => WriteBuf i d n p x
  | StreamWrite d n i _ b x => StreamWrite d n i p b x
  | Dir es _ => Dir es p
  | _ => f
  end.
Definition sys_seek (pid fd : N) (off : Z) (whence : N) : K N :=
  with_fd pid fd (
    f ← yo;
    c ← en (gets (fun s => cache (mundo s)));
    '(pos, len) ← match f with
                  | File inode pos | WriteBuf inode _ _ pos _ => mret (pos, default 0 (largo inode c))
                  | LazyFile _ size pos => mret (pos, size)
                  | StreamWrite _ _ _ pos buf _ => len ← add64 pos (lenN buf); mret (pos, len)
                  | _ => throw ESPIPE
                  end;
    base ← match whence with 0 => mret 0%Z | 1 => mret (as_i64 pos) | 2 => mret (as_i64 len) | _ => throw OtaExclusion.EINVAL end;
    let nuevo := (base + off)%Z in
    if bool_decide (- 2 ^ 63 <= nuevo < 2 ^ 63)%Z then
      if (nuevo <? 0)%Z then throw OtaExclusion.EINVAL
      else pon (con_pos f (Z.to_N nuevo));; mret (Z.to_N nuevo)
    else panic).

(** *** Locks *)
Definition LOCK_SH : N := 1.
Definition LOCK_EX : N := 2.
Definition LOCK_NB : N := 4.
Definition LOCK_UN : N := 8.
Definition sys_flock (pid fd op : N) : K N :=
  ino ← with_fd pid fd (f ← yo; match f with File inode _ | WriteBuf inode _ _ _ _ => mret inode | _ => throw OtaExclusion.EINVAL end);
  let modo := N.ldiff op LOCK_NB in
  if modo =? LOCK_UN then modify (con_cache (desbloquear ino pid));; mret 0
  else if negb (modo =? LOCK_SH) && negb (modo =? LOCK_EX) then throw OtaExclusion.EINVAL
  else if N.land op LOCK_NB =? 0 then throw ENOSYS
  else b ← en_cache (bloquear ino pid (modo =? LOCK_EX)); if b : bool then mret 0 else throw EAGAIN.

(** *** Opening *)
Definition O_WRONLY : N := 1.
Definition O_APPEND : N := 2.
Definition O_CREAT : N := 4.
Definition O_TRUNC : N := 8.
Definition O_EXCL : N := 16.
Definition SOSOMFS_BIT : N := 2 ^ 63.
Definition is_sosomfs (ino : N) : bool := negb (N.land ino SOSOMFS_BIT =? 0).

Definition abrir_escritura (pid : N) (path : str) (flags : N) : K Fd :=
  let con f := negb (N.land flags f =? 0) in
  OtaExclusion.comprobar_escritura vive pid path;;
  '(d, n) ← OtaExclusion.resolve_parent path;
  lookup ← attempt (with_vfs (LogFs.vfs_lookup d n));
  let existe := match lookup with inr ino => Some ino | inl _ => None end in
  if con O_EXCL && con O_CREAT && bool_decide (is_Some existe) then throw EEXIST
  else
    match existe with
    | Some ino => st ← with_vfs (vfs_stat_inode ino); if file_type st =? SosofsLayout.FT_DIR then throw EISDIR else mret tt
    | None => mret tt
    end;;
    reservado ← (if con O_CREAT && con O_EXCL && negb (bool_decide (is_Some existe)) then
                   mtime ← gets wall_secs; ino ← with_vfs (LogFs.vfs_create_file d n [] mtime); mret (Some ino)
                 else mret None);
    let suelto := starts_with (txt "/var/") path || starts_with (txt "/tmp/") path in
    '(datos, append_ino, append_pos) ←
      match existe with
      | Some ino =>
          if con O_APPEND then
            st ← with_vfs (vfs_stat_inode ino);
            if file_type st =? SosofsLayout.FT_FILE then
              st ← with_vfs (vfs_stat_inode ino);
              x ← (if suelto then mret [] else with_vfs (OtaArranque.vfs_read_file ino));
              mret (x, Some ino, size st)
            else mret ([], reservado, 0)
          else mret ([], reservado, 0)
      | None => mret ([], reservado, 0)
      end;
    '(datos, cargado) ←
      match existe, reservado with
      | Some ino, None =>
          if negb (con O_APPEND) && negb (con O_TRUNC) then
            st ← with_vfs (vfs_stat_inode ino);
            if (file_type st =? SosofsLayout.FT_FILE) && (size st <=? CARGA_MAX) then x ← with_vfs (OtaArranque.vfs_read_file ino); mret (x, Some ino)
            else mret (datos, None)
          else mret (datos, None)
      | _, _ => mret (datos, None)
      end;
    let '(datos, append_pos) := if con O_TRUNC then ([], 0) else (datos, append_pos) in
    let pos :=
      if bool_decide (is_Some cargado) then 0
      else if bool_decide (is_Some append_ino) && suelto then append_pos
      else if con O_TRUNC || negb (bool_decide (is_Some existe)) then 0
      else lenN datos in
    let protegida := OtaExclusion.es_administrada path in
    match cargado with
    | Some ino => modify (con_cache (abrir ino d n datos));; mret (WriteBuf ino d n pos protegida)
    | None =>
        if (negb (bool_decide (is_Some existe)) || con O_TRUNC) && negb (con O_APPEND) && negb (starts_with (txt "/var/models") path) then
          ino ← match reservado, existe with
                | Some ino, _ => mret ino
                | None, Some ino => mret ino
                | None, None => mtime ← gets wall_secs; with_vfs (LogFs.vfs_create_file d n [] mtime)
                end;
          modify (con_cache (abrir ino d n []));;
          (if bool_decide (is_Some existe) then o ← en_cache (truncar ino 0); of_option (throw EIO) o else mret tt);;
          mret (WriteBuf ino d n 0 protegida)
        else mret (StreamWrite d n append_ino pos [] protegida)
    end.
Definition abrir_lectura (path : str) : K Fd :=
  ino ← with_vfs (LogFs.vfs_resolve path);
  st ← with_vfs (vfs_stat_inode ino);
  if file_type st =? SosofsLayout.FT_DIR then
    es ← with_vfs (OtaArranque.vfs_read_dir ino);
    entries ← mfold (fun out e => st ← with_vfs (vfs_stat_inode e.2); mret (out ++ [mkDirent e.2 (file_type st) (take (N.to_nat NAME_MAX) e.1)])) [] es;
    mret (Dir entries 0)
  else
    st ← with_vfs (vfs_stat_inode ino);
    if (LAZY_FILE_THRESHOLD <? size st) || is_sosomfs ino then mret (LazyFile ino (size st) 0)
    else
      datos ← with_vfs (OtaArranque.vfs_read_file ino);
      padre ← attempt (OtaExclusion.resolve_parent path);
      let '(pdir, pname) := match padre with inr p => p | inl _ => (0, []) end in
      modify (con_cache (abrir ino pdir pname datos));;
      mret (File ino 0).
Definition sys_open (pid : N) (cwd raw : str) (flags : N) : K N :=
  path ← OtaExclusion.resolve_user_path cwd raw;
  f ← (if negb (N.land flags O_WRONLY =? 0) then abrir_escritura pid path flags else abrir_lectura path);
  con_cerrojo_de_procs (alloc_fd pid f).

(** *** What a process may ask for *)
Definition sys_thread_create (pid tid : N) : K N :=
  t ← con_cerrojo_de_procs (fds_para_hilo pid);
  modify (con_fds <[tid := t]>);;
  mret tid.
Inductive Peticion :=
| Open (cwd raw : str) (flags : N)
| Close (fd : N)
| Dup2 (oldfd newfd : N)
| Write (fd : N) (datos : list byte)
| Pwrite (fd : N) (datos : list byte) (offset : N)
| Ftruncate (fd len : N)
| Fsync (fd : N)
| Read (fd len : N)
| Seek (fd : N) (off : Z) (whence : N)
| Flock (fd op : N)
| Hilo (tid : N)
| Exit
| Nombre (c : OtaExclusion.Llamada).
(** A number, or what was read. *)
Definition Respuesta : Type := N + list byte.
Definition num (m : K N) : K Respuesta := n ← m; mret (inl n).
Definition atiende (pid : N) (p : Peticion) : K Respuesta :=
  match p with
  | Open cwd raw flags => num (sys_open pid cwd raw flags)
  | Close fd => num (sys_close pid fd)
  | Dup2 oldfd newfd => num (sys_dup2 pid oldfd newfd)
  | Write fd datos => num (sys_write pid fd datos)
  | Pwrite fd datos offset => num (sys_pwrite pid fd datos offset)
  | Ftruncate fd len => num (sys_ftruncate pid fd len)
  | Fsync fd => num (sys_fsync pid fd)
  | Read fd len => x ← sys_read pid fd len; mret (inr x)
  | Seek fd off whence => num (sys_seek pid fd off whence)
  | Flock fd op => num (sys_flock pid fd op)
  | Hilo tid => num (sys_thread_create pid tid)
  | Exit => exit_current pid;; mret (inl 0)
  | Nombre c => num (OtaExclusion.llama vive pid c)
  end.
End Llamadas.
