(* ===== verification/FcacheVivos.v ===== *)
(** * Kernel: what every descriptor can count on

    The references an entry of the cache counts are at least the descriptors that
    are open on it, whatever calls the processes make. *)
From S2P Require Import Prelude Texto Fcache.
From S2P Require LogFs OtaArranque OtaExclusion.
Local Open Scope N_scope.
#[local] Set Default Proof Using "Type".

(** The inode a descriptor keeps open. *)
Definition clave (f : Fd) : option N := match f with File i _ | WriteBuf i _ _ _ _ => Some i | _ => None end.
Definition cuenta (ino : N) (l : list Fd) : N := lenN (filter (fun f => clave f = Some ino) l).
Definition todos (t : gmap N (list (option Fd))) : list Fd := map_to_list t ≫= fun kv => omap id kv.2.
(** A lock has each of its holders once, and only one if it is exclusive. *)
Definition cerrojo_ok (e : Entrada) : Prop := NoDup (titulares e) ∧ (exclusivo e = true -> exists p, titulares e = [p]).

(** *** Lists of descriptors *)
Definition cubre (l : list Fd) (c : Cache) : Prop := (forall ino, cuenta ino l <= refs_de ino c) ∧ map_Forall (fun _ => cerrojo_ok) c.

Lemma cuenta_app ino l k : cuenta ino (l ++ k) = cuenta ino l + cuenta ino k.
Proof. unfold cuenta. by rewrite filter_app, lenN_app. Qed.
Lemma cuenta_perm ino l k : l ≡ₚ k -> cuenta ino l = cuenta ino k.
Proof. intros E. unfold cuenta, lenN. by rewrite E. Qed.
Lemma cuenta_uno ino f : cuenta ino [f] = if decide (clave f = Some ino) then 1 else 0.
Proof. unfold cuenta. rewrite filter_cons, filter_nil. by case_decide. Qed.
Lemma cuenta_cons ino f l : cuenta ino (f :: l) = cuenta ino [f] + cuenta ino l.
Proof. apply (cuenta_app ino [f]). Qed.
#[global] Instance cubre_perm : Proper ((≡ₚ) ==> eq ==> iff) cubre.
Proof. intros l k E c ? <-. unfold cubre. split; intros [H1 H2]; (split; [|done]); intros ino; specialize (H1 ino); by rewrite (cuenta_perm _ l k E) in *. Qed.
Lemma cubre_app l k c : cubre (l ++ k) c -> cubre k c.
Proof. intros [H1 H2]. split; [|done]. intros ino. specialize (H1 ino). rewrite cuenta_app in H1. lia. Qed.
Lemma cubre_tiene f i l c : cubre (f :: l) c -> clave f = Some i -> exists e, c !! i = Some e.
Proof.
  intros [H1 _] Hf. specialize (H1 i). rewrite cuenta_cons, cuenta_uno, decide_True in H1 by done. unfold refs_de in H1. destruct (c !! i) as [e|]; [by exists e|lia].
Qed.

(** *** The operations on the cache *)
Lemma refs_insert ino i e c : refs_de ino (<[i := e]> c) = if decide (i = ino) then refs e else refs_de ino c.
Proof. unfold refs_de. destruct (decide (i = ino)) as [->|]; [by rewrite lookup_insert_eq|by rewrite lookup_insert_ne]. Qed.
(** An entry whose references and lock are the same. *)
Lemma cubre_igual l i e e' c : cubre l c -> c !! i = Some e -> refs e' = refs e -> titulares e' = titulares e -> exclusivo e' = exclusivo e -> cubre l (<[i := e']> c).
Proof.
  intros [H1 H2] Hi Hr Ht Hx. split.
  - intros ino. rewrite refs_insert. case_decide as E; [|done]. subst i. specialize (H1 ino). unfold refs_de in H1. rewrite Hi in H1. by rewrite Hr.
  - apply map_Forall_insert_2; [|done]. unfold cerrojo_ok. rewrite Ht, Hx. by apply (H2 i).
Qed.
Lemma cubre_cerrojo l i e t x c : cubre l c -> c !! i = Some e -> NoDup t ∧ (x = true -> exists p, t = [p]) -> cubre l (<[i := con_cerrojo e t x]> c).
Proof.
  intros [H1 H2] Hi Ht. split; [|by apply map_Forall_insert_2]. intros ino. rewrite refs_insert. case_decide as E; [|done]. subst i. specialize (H1 ino). unfold refs_de in H1. by rewrite Hi in H1.
Qed.
Lemma cubre_abrir f i d n x l c : clave f = Some i -> cubre l c -> cubre (f :: l) (abrir i d n x c).
Proof.
  intros Hf [H1 H2]. unfold abrir. destruct (c !! i) as [e|] eqn:Hi.
  - split; [|apply map_Forall_insert_2; [|done]; exact (H2 i e Hi)]. intros ino. specialize (H1 ino). rewrite refs_insert, cuenta_cons, cuenta_uno, Hf. cbn. repeat case_decide; simplify_eq; [|lia].
    unfold refs_de in H1. rewrite Hi in H1. lia.
  - split; [|apply map_Forall_insert_2; [|done]; split; [apply NoDup_nil_2|done]]. intros ino. specialize (H1 ino). rewrite refs_insert, cuenta_cons, cuenta_uno, Hf. cbn. repeat case_decide; simplify_eq; [|lia].
    unfold refs_de in H1. rewrite Hi in H1. lia.
Qed.
Lemma cubre_cerrar {E} f i l c : clave f = Some i -> cubre (f :: l) c -> cubre l (cerrar (E := E) i c).2.
Proof.
  intros Hf [H1 H2]. unfold cerrar. destruct (c !! i) as [e|] eqn:Hi; [|by apply (cubre_app [f])].
  assert (forall ino, ino ≠ i -> cuenta ino l <= refs_de ino c) as Hl by (intros ino Hn; specialize (H1 ino); rewrite cuenta_cons in H1; lia).
  assert (cuenta i l + 1 <= refs e) as Hc.
  { specialize (H1 i). rewrite cuenta_cons, cuenta_uno, decide_True in H1 by done. unfold refs_de in H1. rewrite Hi in H1. lia. }
  destruct (N.eqb_spec (refs e - 1) 0) as [E0|E0]; cbn [snd].
  - split; [|by apply map_Forall_delete]. intros ino. destruct (decide (ino = i)) as [->|Hn]; [lia|]. unfold refs_de. rewrite lookup_delete_ne by done. by apply Hl.
  - split; [|apply map_Forall_insert_2; [|done]; exact (H2 i e Hi)]. intros ino. rewrite refs_insert. case_decide as En; [subst i; cbn; lia|]. apply Hl. congruence.
Qed.
Lemma cubre_renombrar l i d n c : cubre l c -> cubre l (renombrar i d n c).
Proof. intros Hc. unfold renombrar. destruct (c !! i) as [e|] eqn:Hi; [|done]. by eapply cubre_igual. Qed.
Lemma cubre_limpio l i c : cubre l c -> cubre l (limpio i c).
Proof. intros Hc. unfold limpio. destruct (c !! i) as [e|] eqn:Hi; [|done]. by eapply cubre_igual. Qed.
Lemma cubre_escribir {E} l i p x c : cubre l c -> cubre l (escribir (E := E) i p x c).2.
Proof. intros Hc. unfold escribir. destruct (c !! i) as [e|] eqn:Hi; [|done]. destruct (checked_add64 _ _); [|done]. destruct (put_slice _ _ _); [|done]. by eapply cubre_igual. Qed.
Lemma cubre_truncar {E} l i n c : cubre l c -> cubre l (truncar (E := E) i n c).2.
Proof. intros Hc. unfold truncar. destruct (c !! i) as [e|] eqn:Hi; [|done]. by eapply cubre_igual. Qed.
Lemma cubre_leer {E} l i p n c : cubre l c -> cubre l (leer (E := E) i p n c).2.
Proof. intros Hc. unfold leer. destruct (c !! i); [|done]. by destruct (slice _ _ _). Qed.

Lemma sin_titular_ok p e : cerrojo_ok e -> cerrojo_ok (sin_titular p e).
Proof.
  intros [H1 H2]. unfold sin_titular, cerrojo_ok. cbn. split; [by apply NoDup_filter|]. destruct (filter _ _) as [|q t] eqn:E; [done|]. intros [r Hr]%H2. rewrite Hr in E.
  rewrite filter_cons, filter_nil in E. case_decide; [|done]. exists q. congruence.
Qed.
Lemma cubre_desbloquear l i p c : cubre l c -> cubre l (desbloquear i p c).
Proof. intros Hc. unfold desbloquear. destruct (c !! i) as [e|] eqn:Hi; [|done]. eapply cubre_cerrojo; [done..|]. destruct Hc as [_ Hc]. by apply (sin_titular_ok p e), (Hc i). Qed.
Lemma cubre_soltar l p c : cubre l c -> cubre l (soltar_todos p c).
Proof.
  intros [H1 H2]. unfold soltar_todos. split.
  - intros ino. specialize (H1 ino). unfold refs_de in *. rewrite lookup_fmap. by destruct (c !! ino).
  - intros i e Hi. rewrite lookup_fmap in Hi. destruct (c !! i) as [e0|] eqn:E; [|done]. injection Hi as <-. by apply sin_titular_ok, (H2 i).
Qed.
Lemma cubre_bloquear {E} l i p x c : cubre l c -> cubre l (bloquear (E := E) i p x c).2.
Proof.
  intros Hc. unfold bloquear. destruct (c !! i) as [e|] eqn:Hi; [|done]. destruct (_ && _); [done|]. cbn [snd]. apply cubre_cerrojo; [done..|].
  destruct Hc as [_ Hc]. destruct (Hc i e Hi) as [Hn _]. set (t := if bool_decide (p ∈ titulares e) then titulares e else titulares e ++ [p]). split.
  - unfold t. case_bool_decide as Hp; [done|]. apply NoDup_app. split; [done|]. split; [|apply NoDup_singleton]. intros q Hq ->%list_elem_of_singleton. done.
  - intros [_ Ht%N.eqb_eq]%andb_true_iff. unfold lenN in Ht. destruct t as [|q [|? t]]; cbn in Ht; [lia| |lia]. by exists q.
Qed.

Create HintDb quieto.

(** ** The calls

    [trae l m Φ lE]: of the descriptors in hand [l], [m] leaves [Φ] of its answer, or
    [lE] when it fails; the ones of the tables are not touched. *)
Section Llamadas.
Context {T : Type} `{Discos T}.
Abbreviation S := (OtaExclusion.Kernel (Mundo T)).
Abbreviation K := (M S OtaExclusion.Errno).
Abbreviation KF := (M (Fd * S) OtaExclusion.Errno).
Variable vive : N -> bool.
Implicit Types s : S.
Abbreviation la_cache s := (cache (mundo s)).
Definition mismas s s' : Prop := fds (mundo s') = fds (mundo s) ∧ procs (mundo s') = procs (mundo s).
Definition trae {A} (l : list Fd) (m : K A) (Φ : A -> list Fd) (lE : list Fd) : Prop := forall s R, cubre (l ++ R) (la_cache s) ->
  let '(r, s') := m s in mismas s s' ∧ match r with Ok a => cubre (Φ a ++ R) (la_cache s') | Err _ => cubre (lE ++ R) (la_cache s') | _ => True end.
(** What holds no descriptor. *)
Abbreviation quieto m := (trae [] m (fun _ => []) []).

Lemma mismas_trans s1 s2 s3 : mismas s1 s2 -> mismas s2 s3 -> mismas s1 s3.
Proof. intros [E1 E2] [F1 F2]. split; congruence. Qed.
Lemma trae_bind {A B} l (m : K A) (k : A -> K B) Φ Ψ lE : trae l m Φ lE -> (forall a, trae (Φ a) (k a) Ψ lE) -> trae l (m ≫= k) Ψ lE.
Proof.
  intros Hm Hk s R Hs. rewrite bind_eq. specialize (Hm s R Hs). destruct (m s) as [[a|e| |] s1]; destruct Hm as [Hs1 Hm]; try done. specialize (Hk a s1 R Hm).
  destruct (k a s1) as [r s2]. destruct Hk as [Hs2 Hk]. split; [by eapply mismas_trans|done].
Qed.
Lemma trae_marco {A} k l (m : K A) Φ lE : trae l m Φ lE -> trae (l ++ k) m (fun a => Φ a ++ k) (lE ++ k).
Proof. intros Hm s R Hs. rewrite <- app_assoc in Hs. specialize (Hm s (k ++ R) Hs). destruct (m s) as [[a|e| |] s1]; rewrite <- ?app_assoc; done. Qed.
Lemma trae_mono {A} l (m : K A) Φ Φ' lE lE' : trae l m Φ lE -> (forall a R c, cubre (Φ a ++ R) c -> cubre (Φ' a ++ R) c) -> (forall R c, cubre (lE ++ R) c -> cubre (lE' ++ R) c) -> trae l m Φ' lE'.
Proof. intros Hm H1' H2' s R Hs. specialize (Hm s R Hs). destruct (m s) as [[a|e| |] s1]; destruct Hm as [? Hm]; auto. Qed.
Lemma trae_con {A} k (m : K A) Φ : trae [] m Φ [] -> trae k m (fun a => Φ a ++ k) [].
Proof. intros Hm. eapply trae_mono; [apply (trae_marco k [] m Φ [] Hm)|done|]. intros R c. apply cubre_app. Qed.
(** After something quiet, with [l] in hand all along. *)
Lemma trae_tras {A B} l (m : K A) (k : A -> K B) Ψ : quieto m -> (forall a, trae l (k a) Ψ []) -> trae l (m ≫= k) Ψ [].
Proof.
  intros Hm Hk. eapply trae_bind; [|exact Hk]. eapply trae_mono; [apply (trae_marco l [] m (fun _ => []) [] Hm)|done|]. intros R c. apply cubre_app.
Qed.
Lemma trae_ret {A} (a : A) Φ lE : trae (Φ a) (mret a) Φ lE.
Proof. by intros s R Hs. Qed.
Lemma quieto_ret {A} (a : A) : quieto (mret a : K A).
Proof. by intros s R Hs. Qed.
Lemma trae_throw {A} l e Φ : trae l (throw e : K A) Φ [].
Proof. intros s R Hs. split; [done|]. by apply (cubre_app l). Qed.
Lemma trae_gets {A} l (f : S -> A) lE : trae l (gets f) (fun _ => l) lE.
Proof. by intros s R Hs. Qed.
Lemma quieto_vfs {A} (m : M T unit A) : quieto (with_vfs m).
Proof. intros s R Hs. unfold with_vfs, OtaExclusion.with_vfs, en_disco. change (OtaExclusion.k_disco s) with (mundo s). destruct (m (disco (mundo s))) as [[a|e| |] d]; done. Qed.
Lemma quieto_disco f : quieto (modify (con_disco f)).
Proof. by intros s R Hs. Qed.
Lemma quieto_attempt {A} (m : K A) : quieto m -> quieto (attempt m).
Proof. intros Hm s R Hs. specialize (Hm s R Hs). unfold attempt. destruct (m s) as [[a|e| |] s1]; done. Qed.
Lemma quieto_excl {A} (m : M OtaExclusion.Exclusion OtaExclusion.Errno A) : quieto (OtaExclusion.en_excl m).
Proof. intros s R Hs. unfold OtaExclusion.en_excl. destruct (m (OtaExclusion.k_excl s)) as [[a|e| |] x]; done. Qed.
Lemma trae_cache {A} l l' (m : M Cache OtaExclusion.Errno A) : (forall c R, cubre (l ++ R) c -> cubre (l' ++ R) (m c).2) -> trae l (en_cache m) (fun _ => l') l'.
Proof. intros Hm s R Hs. unfold en_cache. specialize (Hm _ _ Hs). destruct (m (la_cache s)) as [r c]. split; [done|]. by destruct r. Qed.
Lemma trae_modify l l' f lE : (forall c R, cubre (l ++ R) c -> cubre (l' ++ R) (f c)) -> trae l (modify (con_cache f)) (fun _ => l') lE.
Proof. intros Hf s R Hs. split; [done|]. by apply Hf. Qed.
Lemma trae_of_option {A} (m : K A) o : quieto m -> quieto (of_option m o).
Proof. intros Hm. destruct o; [apply quieto_ret|done]. Qed.

Lemma quieto_publicar pid x : quieto (sigue_pudiendo_publicar vive pid x).
Proof.
  destruct x; [|apply quieto_ret]. intros s R Hs. unfold sigue_pudiendo_publicar. pose proof (quieto_excl (OtaExclusion.comprobar_ruta_administrada vive pid) s R Hs) as Hq.
  destruct (OtaExclusion.estado _) as [|d|], (procs (mundo s)); done.
Qed.
Lemma trae_volcar f i : clave f = Some i -> trae [f] (volcar_si_es_el_ultimo i) (fun _ => []) [].
Proof.
  intros Hf. unfold volcar_si_es_el_ultimo. eapply trae_tras; [apply (trae_gets [])|]. intros n. apply trae_tras.
  - destruct (n <=? 1); [|apply quieto_ret]. eapply trae_tras; [apply (trae_gets [])|]. intros [[[d nm] x]|]; [|apply quieto_ret].
    eapply trae_tras; [apply (trae_gets [])|]. intros t. case_bool_decide; [apply quieto_ret|]. apply trae_tras; [apply quieto_vfs|]. intros _.
    apply (trae_modify [] []). intros c R. apply cubre_limpio.
  - intros _. eapply trae_bind; [apply (trae_cache [f] [])|intros ?; apply quieto_ret]. intros c R. by apply cubre_cerrar.
Qed.
Lemma quieto_flush d n i b : quieto (flush_stream_write d n i b).
Proof.
  unfold flush_stream_write. destruct b as [|x b].
  - destruct i as [i|]; [apply quieto_ret|]. apply trae_tras; [apply quieto_attempt, quieto_vfs|]. intros [_|_]; [|apply quieto_ret]. eapply trae_tras; [apply (trae_gets [])|]. intros t.
    apply trae_tras; [apply quieto_vfs|]. intros; apply quieto_ret.
  - eapply trae_tras; [apply (trae_gets [])|]. intros t. destruct i as [i|]; (apply trae_tras; [apply quieto_vfs|intros; apply quieto_ret]).
Qed.
Lemma trae_suelta {A} f (m : K A) : quieto m -> trae [f] m (fun _ => []) [].
Proof. intros Hm s R Hs. apply Hm. by apply (cubre_app [f]). Qed.
Lemma trae_drop pid f : trae [f] (drop_fd vive pid f) (fun _ => []) [].
Proof.
  destruct f; cbn [drop_fd]; try by apply trae_suelta, quieto_ret.
  - by apply trae_volcar.
  - apply trae_tras; [apply quieto_publicar|]. intros _. by apply trae_volcar.
  - apply trae_suelta. apply trae_tras; [apply quieto_publicar|]. intros _. apply trae_tras; [apply quieto_flush|]. intros; apply quieto_ret.
Qed.
(** A descriptor that counts for nothing. *)
Lemma cubre_sin f l c : clave f = None -> cubre l c -> cubre (f :: l) c.
Proof. intros Hf [A1 A2]. split; [|done]. intros ino. rewrite cuenta_cons, cuenta_uno, Hf, decide_False by done. apply A1. Qed.
Lemma trae_sin {A} (m : K A) f : clave f = None -> quieto m -> trae [] (m;; mret f) (fun f => [f]) [].
Proof. intros Hf Hm. apply trae_tras; [done|]. intros _ s R Hs. split; [done|]. by apply cubre_sin. Qed.
Lemma trae_sin_ret f : clave f = None -> trae [] (mret f : K Fd) (fun f => [f]) [].
Proof. intros Hf s R Hs. split; [done|]. by apply cubre_sin. Qed.
Lemma trae_clone f : trae [] (clone_fd f) (fun f' => [f']) [].
Proof.
  destruct f; cbn [clone_fd]; try by apply trae_sin_ret.
  - eapply trae_bind; [|intros ?; by apply (trae_ret (File inode pos) (fun f => [f]))]. apply trae_modify. intros c R. by apply cubre_abrir.
  - eapply trae_bind; [|intros ?; by apply (trae_ret (WriteBuf inode dir name pos protegida) (fun f => [f]))]. apply trae_modify. intros c R. by apply cubre_abrir.
Qed.

(** *** Opening *)
Lemma quieto_comprobar pid p : quieto (OtaExclusion.comprobar_escritura vive pid p).
Proof.
  intros s R Hs. unfold OtaExclusion.comprobar_escritura. destruct (OtaExclusion.vigente vive (OtaExclusion.k_excl s)) as [st e].
  destruct st as [|d|]; [done| |]; case_bool_decide; try done; destruct (OtaExclusion.es_administrada p); try done; destruct (_ && _); done.
Qed.
Lemma quieto_padre p : quieto (OtaExclusion.resolve_parent p).
Proof.
  unfold OtaExclusion.resolve_parent. cbv zeta. case_bool_decide; [apply trae_throw|]. apply trae_tras.
  - destruct (OtaDescarga.rfind _ _) as [[|i]|]; [apply quieto_ret|apply quieto_ret|apply trae_throw].
  - intros [pa n]. case_bool_decide; [apply trae_throw|]. apply trae_tras; [|intros; apply quieto_ret]. apply (quieto_vfs (LogFs.vfs_resolve pa)).
Qed.
Lemma quieto_ruta cwd raw : quieto (OtaExclusion.resolve_user_path cwd raw : K str).
Proof. apply trae_of_option, trae_throw. Qed.
Lemma quieto_mfold {A B} (g : B -> A -> K B) l : (forall b a, quieto (g b a)) -> forall b, quieto (mfold g b l).
Proof. intros Hg. induction l as [|a l IH]; intros b; [apply quieto_ret|]. cbn [mfold]. by apply trae_tras. Qed.
Lemma quieto_gets {A} (f : S -> A) : quieto (gets f).
Proof. by intros s R Hs. Qed.
Lemma quieto_cache {A} (m : M Cache OtaExclusion.Errno A) : (forall l c, cubre l c -> cubre l (m c).2) -> quieto (en_cache m).
Proof. intros Hm. apply trae_cache. intros c R. apply Hm. Qed.
Lemma quieto_truncar i n : quieto (en_cache (truncar i n)).
Proof. apply quieto_cache. intros l c. apply cubre_truncar. Qed.
#[local] Hint Resolve quieto_truncar quieto_ret quieto_vfs trae_throw quieto_gets quieto_attempt quieto_excl quieto_publicar quieto_flush quieto_comprobar quieto_padre quieto_ruta trae_of_option : quieto.
(** One step at a time: something quiet, then the rest. *)
Ltac quieto := repeat first [by auto with quieto | apply trae_tras; [|intros ?] | match goal with |- trae _ (match ?x with _ => _ end) _ _ => destruct x end | progress cbv zeta].

Lemma trae_abre {A} l i d n x (m : K A) Φ f : clave f = Some i -> trae (f :: l) m Φ [] -> trae l (modify (con_cache (abrir i d n x));; m) Φ [].
Proof. intros Hf Hm s R Hs. apply (Hm (con_cache (abrir i d n x) s) R). by apply cubre_abrir. Qed.
Lemma trae_lectura p : trae [] (abrir_lectura p) (fun f => [f]) [].
Proof.
  unfold abrir_lectura. do 2 (apply trae_tras; [auto with quieto|intros ?]). destruct (_ =? _).
  - apply trae_tras; [auto with quieto|intros es]. apply trae_tras; [|intros; by apply trae_sin_ret]. apply quieto_mfold. intros out e. quieto.
  - apply trae_tras; [auto with quieto|intros ?]. destruct (_ || _); [by apply trae_sin_ret|]. do 2 (apply trae_tras; [auto with quieto|intros ?]).
    destruct (match _ with inl _ => _ | inr _ => _ end) as [d n]. eapply (trae_abre []); [|apply (trae_ret (File a 0) (fun f => [f]))]. done.
Qed.
Lemma trae_escritura pid p flags : trae [] (abrir_escritura vive pid p flags) (fun f => [f]) [].
Proof.
  unfold abrir_escritura. cbv zeta. generalize (fun f => negb (N.land flags f =? 0)). intros con. apply trae_tras; [auto with quieto|intros _]. apply trae_tras; [auto with quieto|intros [d n]].
  apply trae_tras; [auto with quieto|intros lk]. generalize (match lk with inl _ => None | inr ino => Some ino end). intros ex. destruct (_ && _); [apply trae_throw|].
  apply trae_tras; [quieto|intros _]. apply trae_tras; [quieto|intros res]. apply trae_tras; [quieto|intros [[x0 ai] ap]]; cbv beta iota. apply trae_tras; [quieto|intros [x1 ca]]; cbv beta iota.
  match goal with |- trae _ (match ?z with _ => _ end) _ _ => destruct z as [x ap0] end. destruct ca as [i|].
  - eapply (trae_abre []); [|match goal with |- trae _ (mret ?g) _ _ => apply (trae_ret g (fun f => [f])) end]. done.
  - destruct (_ && _); [|by apply trae_sin_ret]. apply trae_tras; [quieto|intros i]. eapply (trae_abre []); [|eapply trae_tras; [quieto|intros ?; match goal with |- trae _ (mret ?g) _ _ => apply (trae_ret g (fun f => [f])) end]]. done.
Qed.

(** *** Under the lock of the processes

    The descriptor of the slot goes on counting, unless [malo]. *)
Definition vale (malo : Prop) {A} (m : KF A) (f : Fd) (Φ : A -> Fd -> Prop) : Prop := forall s R, cubre (f :: R) (la_cache s) ->
  let '(r, (f', s')) := m (f, s) in mismas s s' ∧
  match r with Ok a => Φ a f' ∧ cubre (f' :: R) (la_cache s') | Err _ => malo ∨ cubre (f' :: R) (la_cache s') | _ => True end.
(** The descriptor of the slot counts for nothing. *)
Definition suelto {A} (m : KF A) (f : Fd) (Φ : A -> Fd -> Prop) : Prop := forall s R, cubre R (la_cache s) ->
  let '(r, (f', s')) := m (f, s) in mismas s s' ∧ match r with Ok a => Φ a f' ∧ cubre R (la_cache s') | _ => True end.
Lemma vale_bind malo {A B} (m : KF A) (k : A -> KF B) f Φ Ψ : vale malo m f Φ -> (forall a f', Φ a f' -> vale malo (k a) f' Ψ) -> vale malo (m ≫= k) f Ψ.
Proof.
  intros Hm Hk s R Hs. rewrite bind_eq. specialize (Hm s R Hs). destruct (m (f, s)) as [[a|e| |] [f1 s1]]; destruct Hm as [Hs1 Hm]; try done. destruct Hm as [Ha Hm].
  specialize (Hk a f1 Ha s1 R Hm). destruct (k a (f1, s1)) as [r [f2 s2]]. destruct Hk as [Hs2 Hk]. split; [by eapply mismas_trans|done].
Qed.
Lemma suelto_bind {A B} (m : KF A) (k : A -> KF B) f Φ Ψ : suelto m f Φ -> (forall a f', Φ a f' -> suelto (k a) f' Ψ) -> suelto (m ≫= k) f Ψ.
Proof.
  intros Hm Hk s R Hs. rewrite bind_eq. specialize (Hm s R Hs). destruct (m (f, s)) as [[a|e| |] [f1 s1]]; destruct Hm as [Hs1 Hm]; try done. destruct Hm as [Ha Hm].
  specialize (Hk a f1 Ha s1 R Hm). destruct (k a (f1, s1)) as [r [f2 s2]]. destruct Hk as [Hs2 Hk]. split; [by eapply mismas_trans|done].
Qed.
Lemma vale_ret malo {A} (a : A) f (Φ : A -> Fd -> Prop) : Φ a f -> vale malo (mret a) f Φ.
Proof. by intros Ha s R Hs. Qed.
Lemma suelto_ret {A} (a : A) f (Φ : A -> Fd -> Prop) : Φ a f -> suelto (mret a) f Φ.
Proof. by intros Ha s R Hs. Qed.
Lemma vale_throw malo {A} e f (Φ : A -> Fd -> Prop) : vale malo (throw e) f Φ.
Proof. intros s R Hs. split; [done|by right]. Qed.
Lemma vale_panic malo {A} f (Φ : A -> Fd -> Prop) : vale malo panic f Φ.
Proof. by intros s R Hs. Qed.
Lemma vale_yo malo f : vale malo yo f (fun a f' => a = f ∧ f' = f).
Proof. by intros s R Hs. Qed.
Lemma cubre_cambia f f' l c : clave f' = clave f \/ clave f' = None -> cubre (f :: l) c -> cubre (f' :: l) c.
Proof.
  intros Hf Hc. destruct Hf as [Hf|Hf]; [|by apply cubre_sin, (cubre_app [f])]. destruct Hc as [A1 A2]. split; [|done].
  intros ino. specialize (A1 ino). by rewrite cuenta_cons, cuenta_uno, Hf, <- cuenta_uno, <- cuenta_cons.
Qed.
Lemma vale_pon malo f f' (Φ : unit -> Fd -> Prop) : clave f' = clave f \/ clave f' = None -> Φ tt f' -> vale malo (pon f') f Φ.
Proof. intros Hf HΦ s R Hs. split; [done|]. split; [done|]. by eapply cubre_cambia. Qed.
Lemma suelto_pon f f' (Φ : unit -> Fd -> Prop) : Φ tt f' -> suelto (pon f') f Φ.
Proof. by intros HΦ s R Hs. Qed.
Lemma vale_en malo {A} (m : K A) f (Φ : A -> Fd -> Prop) : quieto m -> (forall a, Φ a f) -> vale malo (en m) f Φ.
Proof. intros Hm HΦ s R Hs. unfold en. cbn. specialize (Hm s (f :: R) Hs). destruct (m s) as [[a|e| |] s1]; destruct Hm as [? Hm]; (split; [done|]); auto. Qed.
Lemma suelto_en {A} (m : K A) f (Φ : A -> Fd -> Prop) : quieto m -> (forall a, Φ a f) -> suelto (en m) f Φ.
Proof. intros Hm HΦ s R Hs. unfold en. cbn. specialize (Hm s R Hs). destruct (m s) as [[a|e| |] s1]; destruct Hm as [? Hm]; (split; [done|]); auto. Qed.
Lemma vale_add64 malo a b f (Φ : N -> Fd -> Prop) : Φ (a + b) f -> vale malo (add64 a b) f Φ.
Proof. intros HΦ. unfold add64. destruct (_ <? _); [by apply vale_ret|by apply vale_panic]. Qed.
Lemma suelto_add64 a b f (Φ : N -> Fd -> Prop) : Φ (a + b) f -> suelto (add64 a b) f Φ.
Proof. intros HΦ. unfold add64. destruct (_ <? _); [by apply suelto_ret|by intros s R Hs]. Qed.
Lemma vale_of_option malo {A} (m : KF A) o f (Φ : A -> Fd -> Prop) : vale malo m f Φ -> (forall a, Φ a f) -> vale malo (of_option m o) f Φ.
Proof. intros Hm HΦ. destruct o; [by apply vale_ret|done]. Qed.

(** A stream keeps being one. *)
Definition es_stream (f : Fd) : Prop := match f with StreamWrite _ _ _ _ _ _ => True | _ => False end.
Lemma vale_vaciar malo fuel : forall f, es_stream f -> vale malo (vaciar fuel) f (fun _ f' => es_stream f').
Proof.
  induction fuel as [|fuel IH]; intros f Hf; [by intros s R Hs|]. cbn [vaciar]. eapply vale_bind; [apply vale_yo|]. intros ? ? [-> ->]. destruct f as [| | | |d n i pos b x| | | | | |]; try done.
  destruct (_ <=? _); [|by apply vale_ret]. cbv zeta. eapply vale_bind; [eapply (vale_pon _ _ _ (fun _ f => es_stream f)); [by right|done]|]. intros ? f1 ?.
  eapply (vale_bind _ _ _ _ (fun _ f => es_stream f)); [apply vale_en; [apply quieto_gets|done]|]. intros t f2 ?.
  eapply (vale_bind _ _ _ _ (fun _ f => es_stream f)); [|intros _; apply IH]. destruct i as [i|]; [apply vale_en; [auto with quieto|done]|].
  eapply (vale_bind _ _ _ _ (fun _ f => es_stream f)); [apply vale_en; [auto with quieto|done]|]. intros i f3 H3'. by destruct f3.
Qed.
Lemma suelto_vale {A} (m : KF A) f (Φ : A -> Fd -> Prop) : clave f = None -> (forall a f', Φ a f' -> clave f' = None) -> vale True m f Φ -> suelto m f Φ.
Proof.
  intros Hf HΦ Hm s R Hs. specialize (Hm s R (cubre_sin _ _ _ Hf Hs)). destruct (m (f, s)) as [[a|e| |] [f1 s1]]; destruct Hm as [? Hm]; (split; [done|]); try done.
  destruct Hm as [Ha Hm]. split; [done|]. by apply (cubre_app [f1]).
Qed.
Lemma stream_sin f : es_stream f -> clave f = None.
Proof. by destruct f. Qed.
Lemma vale_convertir datos i d n pos x : vale True (convert_writebuf_to_stream datos) (WriteBuf i d n pos x) (fun _ f => es_stream f).
Proof.
  intros s R Hs. unfold convert_writebuf_to_stream. rewrite bind_eq. cbn [yo gets fst]. rewrite bind_eq. unfold en at 1. cbn [gets fst snd].
  set (prefix := truncate _ _). clearbody prefix. rewrite bind_eq. unfold en at 1. cbn [fst snd].
  assert (cubre R (la_cache (en_cache (cerrar i) s).2)) as Hc.
  { unfold en_cache. pose proof (cubre_cerrar (E := OtaExclusion.Errno) (WriteBuf i d n pos x) i R (la_cache s) eq_refl Hs) as Hc. destruct (cerrar i (la_cache s)). exact Hc. }
  assert (mismas s (en_cache (cerrar i) s).2) as Hm by (unfold en_cache; by destruct (cerrar i (la_cache s))).
  destruct (en_cache (cerrar i) s) as [[b|e| |] s1]; cbn [snd] in *; [|split; [done|by left]|done..].
  assert (suelto (mtime ← en (gets wall_secs);
      inode ← match prefix with [] => mret None | _ => ino ← en (with_vfs (LogFs.vfs_create_file d n prefix mtime)); mret (Some ino) end;
      new_pos ← add64 pos (lenN datos);
      pon (StreamWrite d n inode new_pos datos x);; vaciar (chunks_de datos)) (WriteBuf i d n pos x) (fun _ f => es_stream f)) as Hk.
  { eapply (suelto_bind _ _ _ (fun _ _ => True)); [by apply suelto_en; [apply quieto_gets|]|]. intros t f1 _. eapply (suelto_bind _ _ _ (fun _ _ => True)).
    - destruct prefix; [by apply suelto_ret|]. eapply (suelto_bind _ _ _ (fun _ _ => True)); [apply suelto_en; [auto with quieto|done]|]. intros; by apply suelto_ret.
    - intros j f2 _. eapply (suelto_bind _ _ _ (fun _ _ => True)); [by apply suelto_add64|]. intros np f3 _.
      eapply (suelto_bind _ _ _ (fun _ f => es_stream f)); [by apply suelto_pon|]. intros _ f4 H4. apply suelto_vale; [by apply stream_sin|intros _; apply stream_sin|by apply vale_vaciar]. }
  specialize (Hk s1 R Hc). match goal with |- context [?k (WriteBuf i d n pos x, s1)] => destruct (k (WriteBuf i d n pos x, s1)) as [[a|e| |] [f1 s2]] end; destruct Hk as [Hm2 Hk]; (split; [by eapply mismas_trans|]); try done; [|by left].
  destruct Hk as [Hf Hk]. split; [done|]. apply cubre_sin; [by apply stream_sin|done].
Qed.

(** *** The tables *)
Definition vivos s : Prop := procs (mundo s) = false ∧ cubre (todos (fds (mundo s))) (la_cache s).
Lemma todos_tabla m (pid : N) t : m !! pid = Some t ->
  todos m ≡ₚ omap id t ++ todos (delete pid m) ∧ forall t', todos (<[pid := t']> m) ≡ₚ omap id t' ++ todos (delete pid m).
Proof.
  intros Hm. unfold todos. split.
  - rewrite <- (map_to_list_delete m pid t Hm). done.
  - intros t'. rewrite <- insert_delete_eq, map_to_list_insert by apply lookup_delete_eq. done.
Qed.
Lemma todos_nueva m (pid : N) t : m !! pid = None -> todos (<[pid := t]> m) ≡ₚ omap id t ++ todos m.
Proof. intros Hm. unfold todos. by rewrite map_to_list_insert by done. Qed.
Lemma omap_app {A B} (g : A -> option B) l k : omap g (l ++ k) = omap g l ++ omap g k.
Proof. induction l as [|a l IH]; [done|]. cbn. destruct (g a); [cbn; by f_equal|done]. Qed.
Lemma tabla_ranura (t : list (option Fd)) i : (i < length t)%nat -> exists R, omap id t ≡ₚ option_list (mjoin (t !! i)) ++ R ∧ forall o, omap id (<[i := o]> t) ≡ₚ option_list o ++ R.
Proof.
  intros Hi. destruct (lookup_lt_is_Some_2 t i Hi) as [a Ha]. exists (omap id (take i t) ++ omap id (drop (Datatypes.S i) t)). split.
  - rewrite Ha. rewrite <- (take_drop_middle t i a Ha) at 1. rewrite omap_app. destruct a as [f|]; cbn; [by rewrite Permutation_middle|done].
  - intros o. rewrite insert_take_drop by done. rewrite omap_app. destruct o as [f|]; cbn; [by rewrite Permutation_middle|done].
Qed.
(** The slot of a descriptor, and the same table with something else there. *)
Lemma todos_ranura m (pid : N) t i : m !! pid = Some t -> (i < length t)%nat ->
  exists R, todos m ≡ₚ option_list (mjoin (t !! i)) ++ R ∧ forall o, todos (<[pid := <[i := o]> t]> m) ≡ₚ option_list o ++ R.
Proof.
  intros Hm Hi. destruct (todos_tabla m pid t Hm) as [E1 E2]. destruct (tabla_ranura t i Hi) as (R & F1 & F2). exists (R ++ todos (delete pid m)). split.
  - by rewrite E1, F1, app_assoc.
  - intros o. by rewrite E2, F2, app_assoc.
Qed.
Lemma mjoin_dentro {A} (t : list (option A)) i f : mjoin (t !! i) = Some f -> (i < length t)%nat ∧ t !! i = Some (Some f).
Proof. intros Hf. destruct (t !! i) as [o|] eqn:E; [|done]. cbn in Hf. subst o. split; [by eapply lookup_lt_Some|done]. Qed.

Definition tras_llamada (malo : Prop) {A} (rs : outcome OtaExclusion.Errno A * S) : Prop := match rs.1 with Ok _ => vivos rs.2 | Err _ => malo \/ vivos rs.2 | _ => True end.
(** The same while the lock is held, with [l] in hand. *)
Definition dentro l s : Prop := cubre (l ++ todos (fds (mundo s))) (la_cache s).
Definition queda {A} s (rs : outcome OtaExclusion.Errno A * S) (Φ : A -> list Fd) : Prop :=
  match rs.1 with Ok a => procs (mundo rs.2) = procs (mundo s) ∧ dentro (Φ a) rs.2 | Err _ => procs (mundo rs.2) = procs (mundo s) ∧ dentro [] rs.2 | _ => True end.
Definition trae_todo {A} (l : list Fd) (m : K A) (Φ : A -> list Fd) : Prop := forall s, dentro l s ->
  queda s (m s) Φ.
Lemma todo_bind {A B} l (m : K A) (k : A -> K B) Φ Ψ : trae_todo l m Φ -> (forall a, trae_todo (Φ a) (k a) Ψ) -> trae_todo l (m ≫= k) Ψ.
Proof.
  intros Hm Hk s Hs. rewrite bind_eq. specialize (Hm s Hs). unfold queda in *. destruct (m s) as [[a|e| |] s1]; cbn in *; try done. destruct Hm as [Hs1 Hm]. specialize (Hk a s1 Hm). unfold queda in Hk.
  destruct (k a s1) as [[b|e| |] s2]; cbn in *; rewrite <- ?Hs1; done.
Qed.
Lemma todo_trae {A} l (m : K A) Φ : trae l m Φ [] -> trae_todo l m Φ.
Proof. intros Hm s Hs. specialize (Hm s _ Hs). unfold queda, dentro. destruct (m s) as [[a|e| |] s']; destruct Hm as [[Ef Ep] Hm]; cbn; rewrite ?Ef; done. Qed.
Lemma todo_mono {A} l (m : K A) Φ Φ' : trae_todo l m Φ -> (forall a s, dentro (Φ a) s -> dentro (Φ' a) s) -> trae_todo l m Φ'.
Proof. intros Hm HΦ s Hs. specialize (Hm s Hs). unfold queda in *. destruct (m s) as [[a|e| |] s']; cbn in *; [destruct Hm; auto|done..]. Qed.
Lemma todo_tabla {A} l pid (k : list (option Fd) -> K A) Φ : (forall t s, fds (mundo s) !! pid = Some t -> dentro l s -> queda s (k t s) Φ) -> trae_todo l (tabla pid ≫= k) Φ.
Proof. intros Hk s Hs. unfold queda. rewrite bind_eq. unfold tabla. destruct (fds (mundo s) !! pid) as [t|] eqn:E; [|done]. by apply Hk. Qed.
Lemma todo_vivos {A} (m : K A) Φ s : trae_todo [] m Φ -> vivos s -> tras_llamada False (m s).
Proof.
  intros Hm [Hp Hc]. unfold tras_llamada. specialize (Hm s Hc). unfold queda in Hm. rewrite Hp in Hm. destruct (m s) as [[a|e| |] s']; cbn in *; [|right|done..]; destruct Hm as [? Hm]; (split; [done|]).
  - by apply (cubre_app (Φ a)).
  - done.
Qed.
(** Taking a descriptor out of its slot, and putting one there. *)
Lemma todo_take pid fd l : trae_todo l (take_fd pid fd) (fun o => option_list o ++ l).
Proof.
  apply todo_tabla. intros t s Ht Hs. destruct (mjoin (t !! N.to_nat fd)) as [f|] eqn:Ef; [|by split].
  rewrite bind_eq. split; [done|]. destruct (mjoin_dentro _ _ _ Ef) as [Hi _]. destruct (todos_ranura _ pid t _ Ht Hi) as (R & E1 & E2). rewrite Ef in E1.
  unfold dentro in *. cbn. rewrite E2. rewrite E1 in Hs. cbn in *. by rewrite <- Permutation_middle in Hs.
Qed.
Lemma todo_put pid fd f : trae_todo [f] (put_fd pid fd f) (fun _ => []).
Proof.
  apply todo_tabla. intros t s Ht Hs. split; [done|]. unfold dentro in *. cbn. destruct (decide (N.to_nat fd < length t)%nat) as [Hi|Hi].
  - destruct (todos_ranura _ pid t _ Ht Hi) as (R & E1 & E2). cbn. rewrite E2. rewrite E1 in Hs. cbn in *. destruct (mjoin _) as [g|]; cbn in Hs; [|done].
    rewrite Permutation_swap in Hs. by apply (cubre_app [g]).
  - cbn. rewrite list_insert_ge, insert_id by (done || lia). by apply (cubre_app [f]).
Qed.
Lemma with_fd_vivos malo {A} pid fd (m : KF A) s : vivos s -> (forall f, ranura s pid fd = Some f -> vale malo m f (fun _ _ => True)) -> tras_llamada malo (with_fd pid fd m s).
Proof.
  intros [Hp Hc] Hm. unfold with_fd, con_cerrojo_de_procs, tras_llamada. rewrite Hp, bind_eq. unfold tabla. cbn. unfold ranura in Hm.
  destruct (fds (mundo s) !! pid) as [t|] eqn:Ht; [|done]. cbn in Hm. destruct (mjoin (t !! N.to_nat fd)) as [f|] eqn:Ef; [|by right; split].
  specialize (Hm f eq_refl (con_procs true s)). destruct (mjoin_dentro _ _ _ Ef) as [Hi _]. destruct (todos_ranura _ pid t _ Ht Hi) as (R & E1 & E2). rewrite Ef in E1. cbn in E1.
  rewrite E1 in Hc. specialize (Hm R Hc). destruct (m (f, con_procs true s)) as [[a|e| |] [f' s']]; destruct Hm as [[E3 E4] Hm]; try done; cbn in *.
  - split; [done|]. cbn. rewrite E3, E2. by destruct Hm as [_ Hm].
  - destruct Hm as [|Hm]; [by left|right]. split; [done|]. cbn. by rewrite E3, E2.
Qed.

(** *** Each call *)
Lemma todo_cerrojo {A} l (m : K A) Φ : trae_todo l m Φ -> trae_todo l (con_cerrojo_de_procs m) Φ.
Proof.
  intros Hm s Hs. unfold con_cerrojo_de_procs. destruct (procs (mundo s)) eqn:Hp; [done|]. specialize (Hm (con_procs true s) Hs). unfold queda in *. rewrite Hp.
  destruct (m (con_procs true s)) as [[a|e| |] s']; cbn in *; [by destruct Hm|by destruct Hm|done..].
Qed.
Lemma todo_ret {A} (a : A) Φ : trae_todo (Φ a) (mret a) Φ.
Proof. by intros s Hs. Qed.
Lemma todo_throw {A} l e (Φ : A -> list Fd) : trae_todo l (throw e) Φ.
Proof. intros s Hs. split; [done|]. by apply (cubre_app l). Qed.
Lemma todo_tras {A B} l (m : K A) (k : A -> K B) Ψ : quieto m -> (forall a, trae_todo l (k a) Ψ) -> trae_todo l (m ≫= k) Ψ.
Proof.
  intros Hm Hk. eapply todo_bind; [apply todo_trae|exact Hk]. eapply trae_mono; [apply (trae_marco l [] m (fun _ => []) [] Hm)|done|]. intros R c. apply cubre_app.
Qed.
Lemma todo_with_fd {A} pid fd (m : KF A) : (forall f, vale False m f (fun _ _ => True)) -> trae_todo [] (with_fd pid fd m) (fun _ => []).
Proof.
  intros Hm s Hs. destruct (procs (mundo s)) eqn:Hp; [unfold with_fd, con_cerrojo_de_procs; by rewrite Hp|]. pose proof (with_fd_vivos False pid fd m s (conj Hp Hs) (fun f _ => Hm f)) as Hw.
  unfold tras_llamada, queda in *. rewrite Hp. destruct (with_fd pid fd m s) as [[a|e| |] s']; cbn in *; [by destruct Hw|by destruct Hw as [|[]]|done..].
Qed.

Lemma todo_close pid fd : trae_todo [] (sys_close vive pid fd) (fun _ => []).
Proof.
  unfold sys_close. eapply todo_bind; [apply todo_cerrojo, todo_take|]. intros [f|]; [|apply todo_throw]. rewrite app_nil_r. cbn [option_list].
  eapply todo_bind; [apply todo_trae, trae_drop|]. intros ?. apply (todo_ret 0 (fun _ => [])).
Qed.
Lemma todo_modify_fds l l' f : (forall m, exists R, todos m ≡ₚ todos (f m) ++ R) -> l' = l -> trae_todo l (modify (con_fds f)) (fun _ => l').
Proof.
  intros Hf -> s Hs. split; [done|]. unfold dentro in *. cbn. destruct (Hf (fds (mundo s))) as [R E]. rewrite E in Hs.
  rewrite app_assoc, Permutation_app_comm in Hs. by apply (cubre_app R).
Qed.
Lemma todo_close_all pid : trae_todo [] (close_all_fds vive pid) (fun _ => []).
Proof.
  apply todo_tabla. intros t s _ Hs. revert s Hs. change (trae_todo [] (mfor (fun i => o ← take_fd pid i; match o with None => mret tt | Some (PtyMaster pty) => modify (con_disco (pty_cerrar_master_diferido pty)) | Some f => attempt (drop_fd vive pid f);; mret tt end) (upto (lenN t))) (fun _ => [])).
  induction (upto (lenN t)) as [|i l IH]; [by apply (todo_ret tt (fun _ => []))|]. cbn [mfor]. eapply (todo_bind _ _ _ (fun _ => [])); [|by intros ?].
  eapply todo_bind; [apply todo_take|]. intros [f|]; [|apply (todo_ret tt (fun _ => []))]. cbn [option_list]. rewrite app_nil_r.
  assert (trae_todo [f] (attempt (drop_fd vive pid f);; mret tt) (fun _ => [])) as Hf; [|destruct f; try exact Hf; apply todo_trae, trae_suelta, quieto_disco].
  eapply todo_bind; [|intros ?; apply (todo_ret tt (fun _ => []))]. apply todo_trae. intros s R Hs. pose proof (trae_drop pid f s R Hs) as Hd. unfold attempt. destruct (drop_fd vive pid f s) as [[a|e| |] s']; done.
Qed.
Lemma todos_delete m (pid : N) : exists R, todos m ≡ₚ todos (delete pid m) ++ R.
Proof.
  destruct (m !! pid) as [t|] eqn:Hm; [|exists []; by rewrite delete_id, app_nil_r]. destruct (todos_tabla m pid t Hm) as [E _]. exists (omap id t). rewrite E. apply Permutation_app_comm.
Qed.
Lemma todo_exit pid : trae_todo [] (exit_current vive pid) (fun _ => []).
Proof.
  unfold exit_current. apply todo_cerrojo. eapply todo_bind; [apply todo_trae, (trae_modify [] []); intros c R; apply cubre_soltar|]. intros ?. eapply todo_bind; [apply todo_close_all|]. intros ?.
  apply todo_modify_fds; [intros m; apply todos_delete|done].
Qed.
Lemma todo_dup2 pid a b : trae_todo [] (sys_dup2 vive pid a b) (fun _ => []).
Proof.
  unfold sys_dup2. destruct (255 <? b); [apply todo_throw|]. apply todo_cerrojo. apply todo_tabla. intros t s Ht Hs. destruct (mjoin _) as [f|]; [|by split].
  unfold queda. rewrite bind_eq. pose proof (trae_clone f s (todos (fds (mundo s))) Hs) as Hc. destruct (clone_fd f s) as [[f'|e| |] s1]; destruct Hc as [[E1 E2] Hc]; try done;
    [|cbn; split; [done|]; unfold dentro; by rewrite E1].
  assert (trae_todo [f'] (o ← take_fd pid b; match o with Some prev => drop_fd vive pid prev | None => mret tt end;; put_fd pid b f';; mret b) (fun _ => [])) as Hk.
  { eapply todo_bind; [apply todo_take|]. intros o. eapply (todo_bind _ _ _ (fun _ => [f'])).
    - destruct o as [g|]; [|apply (todo_ret tt (fun _ => [f']))]. apply todo_trae. eapply trae_mono; [apply (trae_marco [f'] [g] (drop_fd vive pid g) (fun _ => []) []), trae_drop|done|]. intros R c. apply cubre_app.
    - intros ?. eapply todo_bind; [apply todo_put|]. intros ?. apply (todo_ret b (fun _ => [])). }
  rewrite bind_eq. cbn [modify]. rewrite <- E2. apply (Hk (set_tabla pid _ s1)). unfold dentro. cbn. rewrite E1. destruct (todos_tabla _ pid t Ht) as [F1 F2]. rewrite F2, omap_app.
  assert (forall n, omap id (replicate n (@None Fd)) = []) as -> by (induction n; done). rewrite app_nil_r, <- F1. exact Hc.
Qed.
Lemma todo_hilo pid tid : trae_todo [] (sys_thread_create pid tid) (fun _ => []).
Proof.
  unfold sys_thread_create. eapply (todo_bind _ _ _ (fun t => omap id t)).
  - apply todo_cerrojo. unfold fds_para_hilo. apply todo_tabla. intros t s _ Hs. match goal with |- context [mfold ?g [] t] => set (paso := g) end.
    assert (forall out f, trae_todo (omap id out) (paso out f) (fun t => omap id t)) as Hpaso.
    { intros out f. unfold paso. eapply (todo_bind _ _ _ (fun f => option_list f ++ omap id out)).
      - assert (forall f, trae_todo (omap id out) (f ← clone_fd f; mret (Some f)) (fun f => option_list f ++ omap id out)) as Hc.
        { intros g. eapply todo_bind; [|intros g'; apply (todo_ret (Some g') (fun f => option_list f ++ omap id out))]. apply todo_trae.
          apply (trae_con (omap id out) (clone_fd g) (fun f => [f])), trae_clone. }
        assert (trae_todo (omap id out) (mret None : K (option Fd)) (fun f => option_list f ++ omap id out)) as Hn by (by intros s1 Hs1).
        destruct f as [f|]; [destruct f; first [exact Hn|apply Hc]|exact Hn].
      - intros g s1 Hs1. split; [done|]. unfold dentro in *. cbn. rewrite omap_app. destruct g as [g|]; cbn in *; [|by rewrite app_nil_r]. by rewrite (Permutation_app_comm _ [g]). }
    assert (forall out, trae_todo (omap id out) (mfold paso out t) (fun t => omap id t)) as Hf; [|by apply (Hf [])].
    clearbody paso. clear s Hs. induction t as [|f t IH]; intros out; [apply (todo_ret out (fun t => omap id t))|]. cbn [mfold]. eapply todo_bind; [apply Hpaso|exact IH].
  - intros t. eapply todo_bind; [|intros ?; apply (todo_ret tid (fun _ => []))]. intros s Hs. split; [done|]. unfold dentro in *. cbn.
    destruct (todos_delete (fds (mundo s)) tid) as [R E]. rewrite <- insert_delete_eq, todos_nueva by apply lookup_delete_eq. rewrite E, app_assoc, Permutation_app_comm in Hs. by apply (cubre_app R).
Qed.

Lemma todo_alloc pid f : trae_todo [f] (alloc_fd pid f) (fun _ => []).
Proof.
  apply todo_tabla. intros t s Ht Hs. unfold dentro in Hs. destruct (todos_tabla _ pid t Ht) as [E1 E2]. destruct (primero_libre t) as [i|] eqn:Ei.
  - unfold primero_libre in Ei. destruct (list_find _ t) as [[j o]|] eqn:El; [|done]. injection Ei as ->. apply list_find_Some in El as (Hi & -> & _). pose proof (lookup_lt_Some _ _ _ Hi) as Hl.
    destruct (todos_ranura _ pid t i Ht Hl) as (R & F1 & F2). rewrite bind_eq. split; [done|]. unfold dentro. cbn. rewrite F2. rewrite F1, Hi in Hs. exact Hs.
  - destruct (_ <? _); [|by split; [|apply (cubre_app [f])]]. rewrite bind_eq. split; [done|]. unfold dentro. cbn. rewrite E2, omap_app, <- app_assoc. rewrite E1 in Hs. cbn in *. by rewrite <- Permutation_middle.
Qed.
Lemma todo_open pid cwd raw flags : trae_todo [] (sys_open vive pid cwd raw flags) (fun _ => []).
Proof.
  unfold sys_open. apply todo_tras; [apply quieto_ruta|intros p]. eapply (todo_bind _ _ _ (fun f => [f])).
  - apply todo_trae. destruct (negb _); [apply trae_escritura|apply trae_lectura].
  - intros f. apply todo_cerrojo, todo_alloc.
Qed.

(** The calls on one descriptor. *)
Lemma vale_cache malo {A} (m : M Cache OtaExclusion.Errno A) f (Φ : A -> Fd -> Prop) : (forall l c, cubre l c -> cubre l (m c).2) -> (forall a, Φ a f) -> vale malo (en (en_cache m)) f Φ.
Proof. intros Hm HΦ. apply vale_en; [by apply quieto_cache|done]. Qed.
Abbreviation nada := (fun _ f' => True).
Lemma vale_fin malo {A} (a : A) f f' : clave f' = clave f \/ clave f' = None -> vale malo (pon f';; mret a) f nada.
Proof. intros Hf. eapply (vale_bind _ _ _ _ nada); [by apply vale_pon|]. intros; by apply vale_ret. Qed.
(** An access to the cache that may find nothing. *)
Lemma vale_acceso malo {A B} (m : M Cache OtaExclusion.Errno (option A)) f (k : A -> KF B) : (forall l c, cubre l c -> cubre l (m c).2) ->
  (forall a, vale malo (k a) f nada) -> vale malo (o ← en (en_cache m); x ← of_option (throw EIO) o; k x) f nada.
Proof.
  intros Hm Hk. eapply (vale_bind _ _ _ _ (fun _ f' => f' = f)); [by apply vale_cache|]. intros o ? ->.
  eapply (vale_bind _ _ _ _ (fun _ f' => f' = f)); [apply vale_of_option; [apply vale_throw|done]|]. by intros x ? ->.
Qed.
Lemma todo_read pid fd len : trae_todo [] (sys_read pid fd len) (fun _ => []).
Proof.
  apply todo_with_fd. intros f. eapply vale_bind; [apply vale_yo|]. intros ? ? [-> ->]. destruct f; try apply vale_throw; try (apply vale_en; [apply quieto_vfs|done]).
  - apply vale_acceso; [intros l c; apply cubre_leer|]. intros x. apply vale_fin. by left.
  - cbv zeta. destruct (_ =? _); [by apply vale_ret|]. eapply (vale_bind _ _ _ _ (fun _ f' => f' = LazyFile inode size pos)); [apply vale_en; [apply quieto_vfs|done]|]. intros x ? ->. apply vale_fin. by left.
  - apply vale_acceso; [intros l c; apply cubre_leer|]. intros x. apply vale_fin. by left.
Qed.
Lemma clave_con_pos f p : clave (con_pos f p) = clave f.
Proof. by destruct f. Qed.
Lemma todo_seek pid fd off w : trae_todo [] (sys_seek pid fd off w) (fun _ => []).
Proof.
  apply todo_with_fd. intros f. eapply vale_bind; [apply vale_yo|]. intros ? ? [-> ->]. eapply (vale_bind _ _ _ _ (fun _ f' => f' = f)); [by apply vale_en; [apply quieto_gets|]|]. intros c ? ->.
  eapply (vale_bind _ _ _ _ (fun _ f' => f' = f)).
  { destruct f; first [by apply vale_ret|apply vale_throw|idtac]. eapply (vale_bind _ _ _ _ (fun _ f' => f' = StreamWrite dir name inode pos buf protegida)); [by apply vale_add64|]. intros n ? ->. by apply vale_ret. }
  intros [pos len] ? ->. eapply (vale_bind _ _ _ _ (fun _ f' => f' = f)); [destruct w as [|[[|?|]|[|?|]|]]; by first [apply vale_ret|apply vale_throw]|]. intros base ? ->. cbv zeta.
  case_bool_decide; [|apply vale_panic]. destruct (_ <? 0)%Z; [apply vale_throw|]. apply vale_fin. left. apply clave_con_pos.
Qed.
Lemma todo_flock pid fd op : trae_todo [] (sys_flock pid fd op) (fun _ => []).
Proof.
  unfold sys_flock. eapply (todo_bind _ _ _ (fun _ => [])).
  - apply todo_with_fd. intros f. eapply vale_bind; [apply vale_yo|]. intros ? ? [-> ->]. destruct f; first [apply vale_throw|by apply vale_ret].
  - intros i. cbv zeta. destruct (_ =? LOCK_UN).
    + eapply todo_bind; [apply todo_trae, (trae_modify [] []); intros c R; apply cubre_desbloquear|]. intros ?. apply (todo_ret 0 (fun _ => [])).
    + destruct (_ && _); [apply todo_throw|]. destruct (_ =? 0); [apply todo_throw|]. apply todo_tras; [apply quieto_cache; intros l c; apply cubre_bloquear|].
      intros [|]; [apply (todo_ret 0 (fun _ => []))|apply todo_throw].
Qed.
Lemma todo_ftruncate pid fd len : trae_todo [] (sys_ftruncate pid fd len) (fun _ => []).
Proof.
  apply todo_with_fd. intros f. eapply vale_bind; [apply vale_yo|]. intros ? ? [-> ->]. destruct f; try apply vale_throw.
  1-2: apply vale_acceso; [intros l c; apply cubre_truncar|]; intros x; by apply vale_ret.
  apply vale_fin. by left.
Qed.
Lemma todo_fsync pid fd : trae_todo [] (sys_fsync pid fd) (fun _ => []).
Proof.
  apply todo_with_fd. intros f. eapply vale_bind; [apply vale_yo|]. intros ? ? [-> ->]. eapply (vale_bind _ _ _ _ nada); [|intros; by apply vale_ret]. destruct f; try by apply vale_ret.
  - eapply (vale_bind _ _ _ _ (fun _ f' => f' = WriteBuf inode dir name pos protegida)); [by apply vale_en; [apply quieto_gets|]|]. intros [[[d n] x]|] ? ->; [|by apply vale_ret].
    eapply (vale_bind _ _ _ _ (fun _ f' => f' = WriteBuf inode dir name pos protegida)); [by apply vale_en; [apply quieto_gets|]|]. intros t ? ->.
    eapply (vale_bind _ _ _ _ (fun _ f' => f' = WriteBuf inode dir name pos protegida)); [apply vale_en; [apply quieto_vfs|done]|]. intros i ? ->.
    apply vale_en; [apply (trae_modify [] []); intros c R; apply cubre_limpio|done].
  - eapply (vale_bind _ _ _ _ (fun _ f' => f' = StreamWrite dir name inode pos buf protegida)); [apply vale_en; [apply quieto_flush|done]|]. intros [i b] ? ->. apply vale_pon; [by left|done].
Qed.
Lemma todo_pwrite pid fd x off : trae_todo [] (sys_pwrite pid fd x off) (fun _ => []).
Proof.
  destruct x as [|b x]; [apply (todo_ret 0 (fun _ => []))|]. cbn [sys_pwrite]. generalize (b :: x). intros datos. apply todo_with_fd. intros f. eapply vale_bind; [apply vale_yo|].
  intros ? ? [-> ->]. destruct f; try apply vale_throw.
  1-2: apply vale_acceso; [intros l c; apply cubre_escribir|]; intros y; by apply vale_ret.
  eapply (vale_bind _ _ _ _ (fun _ f' => f' = StreamWrite dir name inode pos buf protegida)); [apply vale_of_option; [apply vale_throw|done]|]. intros fin ? ->. cbv zeta.
  destruct (put_slice _ _ _); [|apply vale_panic]. apply vale_fin. by left.
Qed.
(** A conversion into a stream that goes wrong leaves a descriptor without its
    entry. *)
Definition mala pid (p : Peticion) s : Prop :=
  match p with
  | Write fd x => exists i d n pos w, ranura s pid fd = Some (WriteBuf i d n pos w) ∧ THRESH < pos + lenN (truncate MAX_SYSCALL_BUF x)
  | _ => False
  end.
Lemma vale_mono malo malo' {A} (m : KF A) f (Φ Φ' : A -> Fd -> Prop) : vale malo m f Φ -> (malo -> malo') -> (forall a f', Φ a f' -> Φ' a f') -> vale malo' m f Φ'.
Proof.
  intros Hm H1' H2' s R Hs. specialize (Hm s R Hs). destruct (m (f, s)) as [[a|e| |] [f1 s1]]; destruct Hm as [? Hm]; (split; [done|]); try done.
  - destruct Hm. auto.
  - destruct Hm; auto.
Qed.
Lemma write_vivos pid fd x s : vivos s -> tras_llamada (mala pid (Write fd x) s) (sys_write vive pid fd x s).
Proof.
  intros Hs. apply with_fd_vivos; [done|]. intros f Hf. cbn [mala]. set (datos := truncate _ x). set (malo := exists i, _). eapply vale_bind; [apply vale_yo|]. intros ? ? [-> ->].
  destruct f; try apply vale_throw; try (apply vale_en; [apply quieto_vfs|done]).
  - eapply (vale_bind _ _ _ _ (fun fin f' => fin = pos + lenN datos ∧ f' = WriteBuf inode dir name pos protegida)); [by apply vale_add64|]. intros fin ? [-> ->]. destruct (N.ltb_spec THRESH (pos + lenN datos)).
    + eapply (vale_bind _ _ _ _ nada); [|intros; by apply vale_ret]. eapply vale_mono; [apply vale_convertir| |done]. intros _. unfold malo. eauto 10.
    + apply vale_acceso; [intros l c; apply cubre_escribir|]. intros y. apply vale_fin. by left.
  - eapply (vale_bind _ _ _ _ (fun _ f' => f' = StreamWrite dir name inode pos buf protegida)); [apply vale_en; [apply quieto_publicar|done]|]. intros ? ? ->.
    eapply (vale_bind _ _ _ _ (fun _ f' => f' = StreamWrite dir name inode pos buf protegida)); [by apply vale_add64|]. intros p ? ->. cbv zeta.
    eapply (vale_bind _ _ _ _ (fun _ f => es_stream f)); [apply vale_pon; [by left|done]|]. intros ? f' Hf'. eapply (vale_bind _ _ _ _ nada); [|intros; by apply vale_ret].
    eapply vale_mono; [apply (vale_vaciar malo _ f' Hf')|done|done].
Qed.

(** The calls on names. *)
Lemma quieto_nombre {A} (m : M (Mundo T) unit A) : (forall w, let '(_, w') := m w in cache w' = cache w ∧ fds w' = fds w ∧ procs w' = procs w) -> quieto (OtaExclusion.with_vfs m).
Proof.
  intros Hm s R Hs. unfold OtaExclusion.with_vfs. specialize (Hm (OtaExclusion.k_disco s)). unfold mismas, mundo in *. destruct (m (OtaExclusion.k_disco s)) as [[a|e| |] w]; destruct Hm as (E1 & E2 & E3); cbn; rewrite ?E1; done.
Qed.
Lemma quieto_nombres c pid : quieto (OtaExclusion.llama vive pid c).
Proof.
  assert (forall A (m : M T unit A), quieto (OtaExclusion.with_vfs (en_disco m))) as Hd by (intros; apply quieto_vfs).
  destruct c as [op res|cwd raw|cwd raw|cwd raw z|cwd o n]; cbn [OtaExclusion.llama].
  - unfold OtaExclusion.sys_txn_lock. destruct op as [|[[?|?|]|[?|[?|?|]|]|]]; quieto.
  - unfold OtaExclusion.sys_mkdir. quieto. apply Hd.
  - unfold OtaExclusion.sys_unlink. quieto. apply Hd.
  - unfold OtaExclusion.sys_truncate. quieto. apply Hd.
  - unfold OtaExclusion.sys_rename. quieto; try apply Hd; try apply quieto_attempt, Hd.
    + apply quieto_nombre. intros w. cbn. unfold stat_inode. rewrite bind_eq. unfold en_disco. by destruct (vfs_stat_inode _ (disco w)) as [[st|e| |] d].
    + intros s R Hs. split; [done|]. by apply cubre_renombrar.
Qed.

(** Whatever calls the processes make, open descriptors are counted and locks are
    well held, unless turning a buffer into a stream fails half way. *)
Lemma atiende_vivos pid p s : vivos s -> tras_llamada (mala pid p s) (atiende vive pid p s).
Proof.
  intros Hs. assert (forall A (m : K A) (g : A -> Respuesta) malo, tras_llamada malo (m s) -> tras_llamada malo ((x ← m; mret (g x)) s)) as Hg.
  { intros A m g malo Hm. unfold tras_llamada in *. rewrite bind_eq. by destruct (m s) as [[a|e| |] s']. }
  assert (forall A (m : K A) (g : A -> Respuesta), trae_todo [] m (fun _ => []) -> tras_llamada False ((x ← m; mret (g x)) s)) as Ht.
  { intros A m g Hm. apply Hg. by eapply todo_vivos. }
  destruct p; cbn [atiende mala]; unfold num; try apply Ht; auto using todo_open, todo_close, todo_dup2, todo_pwrite, todo_ftruncate, todo_fsync, todo_read, todo_seek, todo_flock, todo_hilo, todo_exit.
  - apply Hg. by apply write_vivos.
  - apply todo_trae, quieto_nombres.
Qed.
End Llamadas.
