(* ===== verification/FcacheTeoremas.v ===== *)
(** * Kernel: what the open files guarantee

    The contents several descriptors share are those of the file a reference machine
    keeps; every descriptor finds its entry; what is published when the last one is
    closed. *)
From S2P Require Import Prelude Texto Fcache FcacheVivos.
From S2P Require SosofsLayout LogFs OtaArranque OtaExclusion OtaArranqueTeoremas.
Local Open Scope N_scope.
#[local] Set Default Proof Using "Type".

(** ** The reference

    A file is a length and a byte for each position. *)
Record Fichero := mkFichero { f_largo : N; f_byte : N -> byte }.
Definition es (x : list byte) (F : Fichero) : Prop := lenN x = f_largo F ∧ forall i b, x !! N.to_nat i = Some b -> f_byte F i = b.
Definition f_write (pos : N) (d : list byte) (F : Fichero) : Fichero :=
  mkFichero (N.max (f_largo F) (pos + lenN d)) (fun i =>
    if (pos <=? i) && (i <? pos + lenN d) then default x00 (d !! N.to_nat (i - pos)) else if i <? f_largo F then f_byte F i else x00).
Definition f_trunc (n : N) (F : Fichero) : Fichero := mkFichero n (fun i => if i <? f_largo F then f_byte F i else x00).
Definition f_read (pos n : N) (F : Fichero) : list byte := (fun k => f_byte F (pos + k)) <$> upto (N.min n (f_largo F - pos)).

Lemma lookup_resize n x i b : resize n x !! i = Some b -> N.of_nat i < n ∧ (x !! i = Some b ∨ (lenN x <= N.of_nat i ∧ b = x00)).
Proof.
  unfold resize, zeros. intros Hi. apply lookup_app_Some in Hi as [Hi|[Hl Hi]].
  - apply lookup_take_Some in Hi as [Hi Hn]. split; [lia|by left].
  - apply lookup_replicate in Hi as [-> Hi]. rewrite length_take in *. unfold lenN in *. split; [lia|right]. split; [lia|done].
Qed.
Lemma length_resize n x : lenN (resize n x) = n.
Proof. unfold resize. rewrite lenN_app, lenN_zeros, lenN_take. lia. Qed.
Lemma es_trunc n x F : es x F -> es (resize n x) (f_trunc n F).
Proof.
  intros [E1 E2]. split; [apply length_resize|]. intros i b Hi. apply lookup_resize in Hi as [Hn [Hi|[Hi ->]]]; cbn; rewrite N2Nat.id in *.
  - pose proof (lookup_lt_Some _ _ _ Hi) as Hl. destruct (N.ltb_spec i (f_largo F)); [by apply E2|]. unfold lenN in *. lia.
  - destruct (N.ltb_spec i (f_largo F)); [lia|done].
Qed.
Lemma es_write pos d x F : es x F -> exists y, put_slice pos d (if lenN x <? pos + lenN d then resize (pos + lenN d) x else x) = Some y ∧ es y (f_write pos d F).
Proof.
  intros He. set (z := if lenN x <? pos + lenN d then _ else x).
  assert (lenN z = N.max (lenN x) (pos + lenN d) ∧ forall i b, z !! N.to_nat i = Some b -> (if i <? f_largo F then f_byte F i else x00) = b) as [Hz Hb].
  { unfold z. pose proof He as [E1 E2]. destruct (N.ltb_spec (lenN x) (pos + lenN d)) as [Hl|Hl].
    - destruct (es_trunc (pos + lenN d) x F He) as [F1 F2]. split; [cbn in F1; lia|]. intros i b Hi. by apply (F2 i b).
    - split; [lia|]. intros i b Hi. pose proof (lookup_lt_Some _ _ _ Hi). destruct (N.ltb_spec i (f_largo F)); [by apply E2|]. unfold lenN in *. lia. }
  destruct He as [E1 _]. unfold put_slice. destruct (N.leb_spec (pos + lenN d) (lenN z)); [|lia].
  eexists. split; [done|]. split.
  - cbn. rewrite !lenN_app. unfold lenN in *. rewrite length_take, length_drop. lia.
  - intros i b Hi. cbn. apply lookup_app_Some in Hi as [Hi|[Hl Hi]]; [|apply lookup_app_Some in Hi as [Hi|[Hl2 Hi]]].
    + apply lookup_take_Some in Hi as [Hi Hn]. destruct (N.leb_spec pos i); [lia|]. cbn. by apply Hb.
    + pose proof (lookup_lt_Some _ _ _ Hi) as Hd. rewrite length_take in *. destruct (N.leb_spec pos i); [|unfold lenN in *; lia]. destruct (N.ltb_spec i (pos + lenN d)); [|unfold lenN in *; lia]. cbn.
      replace (N.to_nat (i - pos)) with (N.to_nat i - N.to_nat pos `min` length z)%nat by (unfold lenN in *; lia). by rewrite Hi.
    + rewrite length_take in *. destruct (N.ltb_spec i (pos + lenN d)); [unfold lenN in *; lia|]. rewrite andb_false_r. apply Hb. rewrite lookup_drop in Hi. rewrite <- Hi. f_equal. unfold lenN in *. lia.
Qed.
Lemma es_read pos n x F : es x F -> slice pos (N.min n (lenN x - pos)) x = if pos <=? f_largo F then Some (f_read pos n F) else None.
Proof.
  intros [E1 E2]. unfold slice. destruct (N.leb_spec pos (f_largo F)) as [Hp|Hp].
  - destruct (N.leb_spec (pos + N.min n (lenN x - pos)) (lenN x)); [|lia]. f_equal. apply list_eq. intros k. unfold f_read, upto. rewrite list_lookup_fmap, list_lookup_fmap.
    destruct (decide (N.of_nat k < N.min n (f_largo F - pos))) as [Hk|Hk].
    + rewrite lookup_seq_lt by lia. cbn. rewrite lookup_take_lt, lookup_drop by lia. destruct (x !! (N.to_nat pos + k)%nat) as [b|] eqn:Eb; [|apply lookup_ge_None in Eb; unfold lenN in *; lia].
      f_equal. symmetry. apply E2. rewrite <- Eb. f_equal. lia.
    + rewrite lookup_take_ge by lia. by rewrite (proj2 (lookup_ge_None _ _)) by (rewrite length_seq; lia).
  - destruct (N.leb_spec (pos + N.min n (lenN x - pos)) (lenN x)); [lia|done].
Qed.

(** The files by inode, and the inode and the position of each descriptor of a
    process, with whether [sys_write] takes it. *)
Record Referencia := mkReferencia { r_fich : N -> option Fichero; r_desc : N -> N -> option (N * N * bool) }.
Definition con_fich (i : N) (F : Fichero) (A : Referencia) : Referencia := mkReferencia (fun j => if j =? i then Some F else r_fich A j) (r_desc A).
Definition con_desc (pid fd : N) (v : N * N * bool) (A : Referencia) : Referencia :=
  mkReferencia (r_fich A) (fun p f => if (p =? pid) && (f =? fd) then Some v else r_desc A p f).
Abbreviation Salida := (outcome OtaExclusion.Errno Respuesta).
Definition en_ref (pid fd : N) (A : Referencia) (k : N -> N -> bool -> Fichero -> Salida * Referencia) : Salida * Referencia :=
  match r_desc A pid fd with
  | Some (i, pos, w) => match r_fich A i with Some F => k i pos w F | None => (Err EBADF, A) end
  | None => (Err EBADF, A)
  end.
Definition referencia (pid : N) (p : Peticion) (A : Referencia) : Salida * Referencia :=
  match p with
  | Write fd x => en_ref pid fd A (fun i pos w F =>
      let x := truncate MAX_SYSCALL_BUF x in
      if w then (Ok (inl (lenN x)), con_desc pid fd (i, pos + lenN x, w) (con_fich i (f_write pos x F) A)) else (Err EBADF, A))
  | Pwrite fd [] off => (Ok (inl 0), A)
  | Pwrite fd x off => en_ref pid fd A (fun i pos w F =>
      if off + lenN x <? U64 then (Ok (inl (lenN x)), con_fich i (f_write off x F) A) else (Err EIO, A))
  | Ftruncate fd n => en_ref pid fd A (fun i pos w F => (Ok (inl 0), con_fich i (f_trunc n F) A))
  (** Beyond the end there is nothing to read: the kernel stops. *)
  | Read fd n => en_ref pid fd A (fun i pos w F =>
      if pos <=? f_largo F then let x := f_read pos (N.min n MAX_SYSCALL_BUF) F in (Ok (inr x), con_desc pid fd (i, pos + lenN x, w) A) else (Panic, A))
  | Seek fd off whence => en_ref pid fd A (fun i pos w F =>
      match (match whence with 0 => Some 0 | 1 => Some pos | 2 => Some (f_largo F) | _ => None end) with
      | None => (Err OtaExclusion.EINVAL, A)
      | Some base =>
          let n := (Z.of_N base + off)%Z in
          if bool_decide (- 2 ^ 63 <= n < 2 ^ 63)%Z then
            if (n <? 0)%Z then (Err OtaExclusion.EINVAL, A) else (Ok (inl (Z.to_N n)), con_desc pid fd (i, Z.to_N n, w) A)
          else (Panic, A)
      end)
  | _ => (Ok (inl 0), A)
  end.
(** The calls the reference answers: on the descriptor of a file, without growing
    into a stream, and with positions an [i64] can say. *)
Definition cabe (pid : N) (p : Peticion) (A : Referencia) : bool :=
  let con fd k := match r_desc A pid fd with Some (i, pos, _) => k i pos | None => false end in
  match p with
  | Write fd x => con fd (fun _ pos => pos + lenN (truncate MAX_SYSCALL_BUF x) <=? THRESH)
  | Pwrite fd _ _ | Ftruncate fd _ | Read fd _ => con fd (fun _ _ => true)
  | Seek fd _ _ => con fd (fun i pos => match r_fich A i with Some F => (pos <? 2 ^ 63) && (f_largo F <? 2 ^ 63) | None => false end)
  | _ => false
  end.
Lemma cabe_desc pid p A : cabe pid p A = true ->
  match p with
  | Write fd x => exists i pos w, r_desc A pid fd = Some (i, pos, w) ∧ pos + lenN (truncate MAX_SYSCALL_BUF x) <= THRESH
  | Pwrite fd _ _ | Ftruncate fd _ | Read fd _ => exists i pos w, r_desc A pid fd = Some (i, pos, w)
  | Seek fd _ _ => exists i pos w F, r_desc A pid fd = Some (i, pos, w) ∧ r_fich A i = Some F ∧ pos < 2 ^ 63 ∧ f_largo F < 2 ^ 63
  | _ => False
  end.
Proof.
  destruct p; try done; unfold cabe; destruct (r_desc A pid fd) as [[[i pos] w]|]; try done.
  - intros Hl%N.leb_le. eauto.
  - eauto.
  - eauto.
  - eauto.
  - destruct (r_fich A i) as [F|] eqn:EF; [|done]. intros [H1%N.ltb_lt H2%N.ltb_lt]%andb_true_iff. eauto 10.
Qed.

Section Ficheros.
Context {T : Type} `{Discos T}.
Abbreviation S := (OtaExclusion.Kernel (Mundo T)).
Abbreviation K := (M S OtaExclusion.Errno).
Abbreviation KF := (M (Fd * S) OtaExclusion.Errno).
Abbreviation la_cache s := (cache (mundo s)).
Implicit Types s : S.

Definition desc (f : Fd) : option (N * N * bool) := match f with File i p => Some (i, p, false) | WriteBuf i _ _ p _ => Some (i, p, true) | _ => None end.
Definition refleja s (A : Referencia) : Prop :=
  (forall i, match la_cache s !! i, r_fich A i with Some e, Some F => es (data e) F | None, None => True | _, _ => False end) ∧
  forall pid fd, r_desc A pid fd = (f ← ranura s pid fd; desc f).

(** *** Reached states *)
(** The machine with nothing open. *)
Definition arrancada s : Prop := procs (mundo s) = false ∧ la_cache s = ∅ ∧ forall pid fd f, ranura s pid fd = Some f -> clave f = None.
(** A call that comes back, of any process and with any others alive, unless it is
    the conversion of a buffer into a stream and it fails. *)
Inductive paso : S -> S -> Prop :=
| paso_ok vive pid p s a s' : atiende vive pid p s = (Ok a, s') -> paso s s'
| paso_err vive pid p s e s' : atiende vive pid p s = (Err e, s') -> ¬ mala pid p s -> paso s s'.

Lemma todos_elem m f : f ∈ todos m -> exists (pid : N) t i, m !! pid = Some t ∧ t !! i = Some (Some f).
Proof.
  unfold todos. intros ([pid t] & Hf & Hin)%list_elem_of_bind. apply elem_of_map_to_list in Hin. cbn in Hf. apply list_elem_of_omap in Hf as (o & Ho & E). cbn in E. subst o.
  apply list_elem_of_lookup in Ho as [i Hi]. by exists pid, t, i.
Qed.
Lemma ranura_todos s pid fd f : ranura s pid fd = Some f -> exists R, todos (fds (mundo s)) ≡ₚ f :: R.
Proof.
  unfold ranura. destruct (fds (mundo s) !! pid) as [t|] eqn:Ht; [|done]. cbn. intros Hf. destruct (mjoin_dentro _ _ _ Hf) as [Hi _]. destruct (todos_ranura _ pid t _ Ht Hi) as (R & E & _).
  rewrite Hf in E. by exists R.
Qed.
Lemma arrancada_vivos s : arrancada s -> vivos s.
Proof.
  intros (Hp & Hc & Hf). split; [done|]. rewrite Hc. split; [|apply map_Forall_empty]. intros ino. unfold cuenta. destruct (filter _ _) as [|f l] eqn:E; [unfold lenN; cbn; lia|]. exfalso.
  assert (f ∈ filter (fun f => clave f = Some ino) (todos (fds (mundo s)))) as Hin by (rewrite E; by left). apply list_elem_of_filter in Hin as [Hk Hin]. apply todos_elem in Hin as (pid & t & i & Ht & Hi).
  specialize (Hf pid (N.of_nat i) f). unfold ranura in Hf. rewrite Ht in Hf. cbn in Hf. rewrite Nat2N.id, Hi in Hf. by rewrite Hf in Hk.
Qed.
Lemma paso_vivos s s' : paso s s' -> vivos s -> vivos s'.
Proof.
  intros Hp Hs. destruct Hp as [vive pid p s a s' E|vive pid p s e s' E Hm]; pose proof (atiende_vivos vive pid p s Hs) as Hv; unfold tras_llamada in Hv; rewrite E in Hv; [done|]. by destruct Hv.
Qed.
Lemma alcanza_vivos s s' : rtc paso s s' -> vivos s -> vivos s'.
Proof. induction 1; eauto using paso_vivos. Qed.
Lemma vivos_entrada s pid fd f i : vivos s -> ranura s pid fd = Some f -> clave f = Some i -> exists e, la_cache s !! i = Some e.
Proof. intros [_ Hc] Hf Hk. destruct (ranura_todos s pid fd f Hf) as [R E]. rewrite E in Hc. by eapply cubre_tiene. Qed.

(** C29. However the processes open, duplicate, inherit, write, rename, lock and close,
    as long as no conversion of a file into a stream fails halfway, each open
    descriptor of a small file has its entry in the cache, which counts at least as
    many references as there are descriptors of any process on it, and each lock is
    held once by each holder, and by one only if it is exclusive. *)
Theorem descriptores_vivos s0 s : arrancada s0 -> rtc paso s0 s ->
  (forall pid fd f i, ranura s pid fd = Some f -> clave f = Some i -> exists e, la_cache s !! i = Some e ∧ cuenta i (todos (fds (mundo s))) <= refs e) ∧
  (forall i e, la_cache s !! i = Some e -> NoDup (titulares e) ∧ (exclusivo e = true -> exists p, titulares e = [p])).
Proof.
  intros Ha Hr. pose proof (alcanza_vivos s0 s Hr (arrancada_vivos s0 Ha)) as Hv.
  split; [|by destruct Hv as [_ [_ Hl]]]. intros pid fd f i Hf Hk. destruct (vivos_entrada s pid fd f i Hv Hf Hk) as [e He]. exists e. split; [done|]. destruct Hv as [_ [Hc _]]. specialize (Hc i). unfold refs_de in Hc. by rewrite He in Hc.
Qed.

(** *** One call *)
Record puesto (pid fd : N) (f : Fd) (i : N) (e : Entrada) s s' : Prop := {
  pu_excl : OtaExclusion.k_excl s' = OtaExclusion.k_excl s;
  pu_disco : disco (mundo s') = disco (mundo s);
  pu_procs : procs (mundo s') = false;
  pu_cache : la_cache s' = <[i := e]> (la_cache s);
  pu_ranura p g : ranura s' p g = if decide (p = pid ∧ g = fd) then Some f else ranura s p g;
}.
Lemma with_fd_puesto {A} pid fd f f' i e' (m : KF A) r s : procs (mundo s) = false -> ranura s pid fd = Some f ->
  m (f, con_procs true s) = (r, (f', con_cache <[i := e']> (con_procs true s))) ->
  exists s', with_fd pid fd m s = (r, s') ∧ puesto pid fd f' i e' s s'.
Proof.
  intros Hp Hf Hm. unfold with_fd, con_cerrojo_de_procs. rewrite Hp, bind_eq. unfold tabla, ranura in *. cbn. destruct (fds (mundo s) !! pid) as [t|] eqn:Ht; [|done]. cbn in Hf. rewrite Hf.
  rewrite Hm. eexists. split; [done|]. split; try done. intros p g. unfold ranura. cbn. destruct (mjoin_dentro _ _ _ Hf) as [Hi _]. destruct (decide (p = pid)) as [->|Hn].
  - rewrite lookup_insert_eq, Ht. cbn. destruct (decide (g = fd)) as [->|Hg].
    + rewrite decide_True by done. by rewrite list_lookup_insert_eq.
    + rewrite decide_False by tauto. by rewrite list_lookup_insert_ne by lia.
  - rewrite lookup_insert_ne by done. by rewrite decide_False by tauto.
Qed.
Lemma con_cache_igual f s : f (la_cache s) = la_cache s -> con_cache f s = s.
Proof. intros Hf. unfold con_cache, con_mundo, mundo in *. rewrite Hf. by destruct s as [x []]. Qed.
Lemma en_cache_run {A} (m : M Cache OtaExclusion.Errno A) f s r c : m (la_cache s) = (r, c) -> en (en_cache m) (f, s) = (r, (f, con_cache (fun _ => c) s)).
Proof. intros Hm. unfold en, en_cache. cbn. by rewrite Hm. Qed.

Lemma escribir_fichero {E} i pos d c e F : c !! i = Some e -> es (data e) F -> pos + lenN d < U64 ->
  exists x, escribir (E := E) i pos d c = (Ok (Some (lenN d)), <[i := con_datos e x]> c) ∧ es x (f_write pos d F).
Proof.
  intros Hi He Hu. unfold escribir. rewrite Hi. unfold checked_add64. rewrite (proj2 (N.ltb_lt _ _) Hu). destruct (es_write pos d (data e) F He) as (y & -> & Hy). by exists y.
Qed.

(** What a call may do to an entry besides the contents: to say they are not those
    of the disk. *)
Definition tocada (e e' : Entrada) : Prop := e' = e ∨ exists x, e' = con_datos e x.
(** The call does to the reference what it does to the machine, and it only reaches
    its descriptor and the entry of its inode. *)
Definition sigue (pid : N) (r : Salida) s s' (A' : Referencia) : Prop := refleja s' A' ∧
  OtaExclusion.k_excl s' = OtaExclusion.k_excl s ∧ disco (mundo s') = disco (mundo s) ∧ procs (mundo s') = false ∧
  (forall j, match la_cache s !! j, la_cache s' !! j with Some e, Some e' => tocada e e' | None, None => True | _, _ => False end) ∧
  forall p g, match ranura s p g, ranura s' p g with Some f, Some f' => exists q, f' = con_pos f q | None, None => True | _, _ => False end.

(** The reference follows what is put. *)
Lemma puesto_sigue pid fd f q i e e' F' v s s' A r : refleja s A -> la_cache s !! i = Some e -> ranura s pid fd = Some f -> puesto pid fd (con_pos f q) i e' s s' -> tocada e e' -> es (data e') F' ->
  desc (con_pos f q) = Some v -> sigue pid r s s' (con_desc pid fd v (con_fich i F' A)).
Proof.
  intros [R1 R2] He Hf [P1 P2 P3 P4 P5] Ht Hes Hv. split; [split|split; [done|split; [done|split; [done|split]]]].
  - intros j. rewrite P4. cbn. destruct (N.eqb_spec j i) as [->|Hj]; [by rewrite lookup_insert_eq|]. rewrite lookup_insert_ne by done. apply R1.
  - intros p g. rewrite P5. cbn. destruct (N.eqb_spec p pid) as [->|Hp], (N.eqb_spec g fd) as [->|Hg]; cbn; [rewrite decide_True by done; by cbn; rewrite Hv|rewrite decide_False by tauto; apply R2..].
  - intros j. rewrite P4. destruct (decide (j = i)) as [->|Hj]; [by rewrite lookup_insert_eq, He|]. rewrite lookup_insert_ne by done. destruct (la_cache s !! j); [by left|done].
  - intros p g. rewrite P5. case_decide as E; [destruct E as [-> ->]; rewrite Hf; by exists q|]. destruct (ranura s p g) as [f0|]; [|done]. exists (match f0 with File _ p | LazyFile _ _ p | WriteBuf _ _ _ p _ | StreamWrite _ _ _ p _ _ | Dir _ p => p | _ => 0 end). by destruct f0.
Qed.
Lemma refleja_ext s A B : refleja s A -> (forall i, r_fich B i = r_fich A i) -> (forall p g, r_desc B p g = r_desc A p g) -> refleja s B.
Proof. intros [R1 R2] Hf Hd. split; [intros i; rewrite Hf; apply R1|intros p g; rewrite Hd; apply R2]. Qed.
Lemma sigue_ext pid r s s' A B : sigue pid r s s' A -> (forall i, r_fich B i = r_fich A i) -> (forall p g, r_desc B p g = r_desc A p g) -> sigue pid r s s' B.
Proof. intros (R & Hr) Hf Hd. split; [by eapply refleja_ext|done]. Qed.
(** Nothing but the position of the descriptor, or not even that. *)
Lemma desc_igual s A pid fd f i pos w : refleja s A -> ranura s pid fd = Some f -> r_desc A pid fd = Some (i, pos, w) -> con_pos f pos = f ∧ desc f = Some (i, pos, w) ∧ clave f = Some i.
Proof. intros [_ R2] Hf Hd. rewrite R2, Hf in Hd. cbn in Hd. destruct f; try done; by injection Hd as -> -> <-. Qed.
Lemma ref_desc_igual A pid fd v p g : r_desc A pid fd = Some v -> r_desc (con_desc pid fd v A) p g = r_desc A p g.
Proof. intros Hd. cbn. destruct (N.eqb_spec p pid) as [->|], (N.eqb_spec g fd) as [->|]; done. Qed.
Lemma ref_fich_igual A i F j : r_fich A i = Some F -> r_fich (con_fich i F A) j = r_fich A j.
Proof. intros Hf. cbn. destruct (N.eqb_spec j i) as [->|]; done. Qed.

Lemma descriptor s A pid fd i pos w : vivos s -> refleja s A -> r_desc A pid fd = Some (i, pos, w) ->
  exists f e F, ranura s pid fd = Some f ∧ la_cache s !! i = Some e ∧ r_fich A i = Some F ∧ es (data e) F ∧ con_pos f pos = f ∧ desc f = Some (i, pos, w).
Proof.
  intros Hv Hr Hd. pose proof Hr as [R1 R2]. pose proof Hd as Hd'. rewrite R2 in Hd'. destruct (ranura s pid fd) as [f|] eqn:Hf; [|done]. destruct (desc_igual s A pid fd f i pos w Hr Hf Hd) as (D1 & D2 & D3).
  destruct (vivos_entrada s pid fd f i Hv Hf D3) as [e He]. specialize (R1 i). rewrite He in R1. destruct (r_fich A i) as [F|]; [|done]. by exists f, e, F.
Qed.
(** What is put, when the closure is done. *)
Lemma sigue_puesto {A} pid fd f i pos w (m : KF A) (h : A -> Respuesta) r q e' F' e s R : vivos s -> refleja s R -> ranura s pid fd = Some f -> desc f = Some (i, pos, w) -> la_cache s !! i = Some e ->
  m (f, con_procs true s) = (r, (con_pos f q, con_cache <[i := e']> (con_procs true s))) -> tocada e e' -> es (data e') F' ->
  let r' := match r with Ok a => Ok (h a) | Err e => Err e | Panic => Panic | Fuel => Fuel end in
  exists s', (x ← with_fd pid fd m; mret (h x)) s = (r', s') ∧ sigue pid r' s s' (con_desc pid fd (i, q, w) (con_fich i F' R)).
Proof.
  intros [Hp _] Hr Hf Hd He Hm Ht Hes r'. destruct (with_fd_puesto pid fd f (con_pos f q) i e' m r s Hp Hf Hm) as (s' & E & P). exists s'. split.
  - rewrite bind_eq, E. by destruct r.
  - eapply puesto_sigue; try done. by destruct f; try done; injection Hd as -> -> <-.
Qed.
Lemma igual_cache s i e : la_cache s !! i = Some e -> con_cache <[i := e]> s = s.
Proof. intros He. by apply con_cache_igual, insert_id. Qed.

Lemma sigue_nada {A} pid fd f i pos w (m : KF A) (h : A -> Respuesta) r e F s R : vivos s -> refleja s R -> ranura s pid fd = Some f -> desc f = Some (i, pos, w) -> con_pos f pos = f ->
  la_cache s !! i = Some e -> r_fich R i = Some F -> r_desc R pid fd = Some (i, pos, w) -> es (data e) F -> m (f, con_procs true s) = (r, (f, con_procs true s)) ->
  let r' := match r with Ok a => Ok (h a) | Err e => Err e | Panic => Panic | Fuel => Fuel end in
  exists s', (x ← with_fd pid fd m; mret (h x)) s = (r', s') ∧ sigue pid r' s s' R.
Proof.
  intros Hv Hr Hf Hd Hp He HF HD Hes Hm r'. destruct (sigue_puesto pid fd f i pos w m h r pos e F e s R Hv Hr Hf Hd He) as (s' & E & G); [|by left|done|].
  - rewrite Hm, Hp, igual_cache; done.
  - exists s'. split; [done|]. eapply sigue_ext; [exact G|..].
    + intros j. symmetry. by apply ref_fich_igual.
    + intros p g. symmetry. by apply (ref_desc_igual (con_fich i F R)).
Qed.

Variable vive : N -> bool.
Lemma write_sigue pid fd x s A : vivos s -> refleja s A -> cabe pid (Write fd x) A = true ->
  exists s', atiende vive pid (Write fd x) s = ((referencia pid (Write fd x) A).1, s') ∧ sigue pid (referencia pid (Write fd x) A).1 s s' (referencia pid (Write fd x) A).2.
Proof.
  intros Hv Hr (i & pos & w & Hd & Hl)%cabe_desc. destruct (descriptor s A pid fd i pos w Hv Hr Hd) as (f & e & F & Hf & He & HF & Hes & Hp & Hde).
  cbn [atiende referencia]. unfold num, sys_write, en_ref. rewrite Hd, HF. set (datos := truncate _ x) in *. destruct w.
  - destruct f as [| | |j d n p g| | | | | | |]; try done. injection Hde as -> ->. assert (pos + lenN datos < U64) as Hu by (unfold THRESH, U64 in *; lia).
    destruct (escribir_fichero (E := OtaExclusion.Errno) i pos datos (la_cache s) e F He Hes Hu) as (y & Ey & Hy).
    apply (sigue_puesto pid fd (WriteBuf i d n pos g) i pos true _ inl (Ok (lenN datos)) (pos + lenN datos) (con_datos e y) (f_write pos datos F) e s A Hv Hr Hf eq_refl He); [|by right; exists y|done].
    rewrite bind_eq. cbn [yo gets fst]. rewrite bind_eq, add64_run by done. destruct (N.ltb_spec THRESH (pos + lenN datos)); [lia|]. rewrite bind_eq, (en_cache_run _ _ (con_procs true s) _ _ Ey). done.
  - destruct f; try done. by apply (sigue_nada pid fd (File inode pos0) i pos false _ inl (Err EBADF) e F s A).
Qed.

Lemma pwrite_sigue pid fd x off s A : vivos s -> refleja s A -> cabe pid (Pwrite fd x off) A = true ->
  exists s', atiende vive pid (Pwrite fd x off) s = ((referencia pid (Pwrite fd x off) A).1, s') ∧ sigue pid (referencia pid (Pwrite fd x off) A).1 s s' (referencia pid (Pwrite fd x off) A).2.
Proof.
  intros Hv Hr (i & pos & w & Hd)%cabe_desc. destruct (descriptor s A pid fd i pos w Hv Hr Hd) as (f & e & F & Hf & He & HF & Hes & Hp & Hde). destruct x as [|b x].
  { exists s. split; [done|]. split; [done|]. split_and!; try done; [by destruct Hv|..].
    - intros j. destruct (la_cache s !! j); [by left|done].
    - intros p g. destruct (ranura s p g) as [f0|]; [|done]. exists (match f0 with File _ p | LazyFile _ _ p | WriteBuf _ _ _ p _ | StreamWrite _ _ _ p _ _ | Dir _ p => p | _ => 0 end). by destruct f0. }
  cbn [atiende referencia]. unfold num, sys_pwrite, en_ref. rewrite Hd, HF. set (datos := b :: x) in *. clearbody datos. clear b x. set (m := yo ≫= _).
  destruct (N.ltb_spec (off + lenN datos) U64) as [Hu|Hu].
  - destruct (escribir_fichero (E := OtaExclusion.Errno) i off datos (la_cache s) e F He Hes Hu) as (y & Ey & Hy).
    destruct (sigue_puesto pid fd f i pos w m inl (Ok (lenN datos)) pos (con_datos e y) (f_write off datos F) e s A Hv Hr Hf Hde He) as (s' & E & G); [|by right; exists y|done|].
    + rewrite Hp. unfold m. destruct f; try done; injection Hde as -> -> <-; rewrite bind_eq; cbn [yo gets fst]; by rewrite bind_eq, (en_cache_run _ _ (con_procs true s) _ _ Ey).
    + exists s'. split; [done|]. eapply sigue_ext; [exact G|done|]. intros p g. symmetry. by apply (ref_desc_igual (con_fich i _ A)).
  - apply (sigue_nada pid fd f i pos w m inl (Err EIO) e F s A); try done. assert (escribir (E := OtaExclusion.Errno) i off datos (la_cache s) = (Ok None, la_cache s)) as Ey.
    { unfold escribir, checked_add64. rewrite He. destruct (N.ltb_spec (off + lenN datos) U64); [lia|done]. }
    unfold m. destruct f; try done; injection Hde as -> -> <-; rewrite bind_eq; cbn [yo gets fst]; by rewrite bind_eq, (en_cache_run _ _ (con_procs true s) _ _ Ey), con_cache_igual.
Qed.
Lemma ftruncate_sigue pid fd n s A : vivos s -> refleja s A -> cabe pid (Ftruncate fd n) A = true ->
  exists s', atiende vive pid (Ftruncate fd n) s = ((referencia pid (Ftruncate fd n) A).1, s') ∧ sigue pid (referencia pid (Ftruncate fd n) A).1 s s' (referencia pid (Ftruncate fd n) A).2.
Proof.
  intros Hv Hr (i & pos & w & Hd)%cabe_desc. destruct (descriptor s A pid fd i pos w Hv Hr Hd) as (f & e & F & Hf & He & HF & Hes & Hp & Hde).
  cbn [atiende referencia]. unfold num, sys_ftruncate, en_ref. rewrite Hd, HF. set (m := yo ≫= _).
  assert (truncar (E := OtaExclusion.Errno) i n (la_cache s) = (Ok (Some tt), <[i := con_datos e (resize n (data e))]> (la_cache s))) as Ey by (unfold truncar; by rewrite He).
  destruct (sigue_puesto pid fd f i pos w m inl (Ok 0) pos (con_datos e (resize n (data e))) (f_trunc n F) e s A Hv Hr Hf Hde He) as (s' & E & G); [|right; by eexists|by apply es_trunc|].
  - rewrite Hp. unfold m. destruct f; try done; injection Hde as -> -> <-; rewrite bind_eq; cbn [yo gets fst]; by rewrite bind_eq, (en_cache_run _ _ (con_procs true s) _ _ Ey).
  - exists s'. split; [done|]. eapply sigue_ext; [exact G|done|]. intros p g. symmetry. by apply (ref_desc_igual (con_fich i _ A)).
Qed.
Lemma read_sigue pid fd n s A : vivos s -> refleja s A -> cabe pid (Read fd n) A = true ->
  exists s', atiende vive pid (Read fd n) s = ((referencia pid (Read fd n) A).1, s') ∧ sigue pid (referencia pid (Read fd n) A).1 s s' (referencia pid (Read fd n) A).2.
Proof.
  intros Hv Hr (i & pos & w & Hd)%cabe_desc. destruct (descriptor s A pid fd i pos w Hv Hr Hd) as (f & e & F & Hf & He & HF & Hes & Hp & Hde).
  cbn [atiende referencia]. unfold sys_read, en_ref. rewrite Hd, HF. set (k := N.min n MAX_SYSCALL_BUF). cbv zeta. set (m := yo ≫= _).
  assert (leer (E := OtaExclusion.Errno) i pos k (la_cache s) = (if pos <=? f_largo F then Ok (Some (f_read pos k F)) else Panic, la_cache s)) as Ey.
  { unfold leer. rewrite He, (es_read pos k (data e) F Hes). by destruct (pos <=? f_largo F). }
  destruct (N.leb_spec pos (f_largo F)) as [Hl|Hl].
  - destruct (sigue_puesto pid fd f i pos w m inr (Ok (f_read pos k F)) (pos + lenN (f_read pos k F)) e F e s A Hv Hr Hf Hde He) as (s' & E & G); [|by left|done|].
    + unfold m. destruct f; try done; injection Hde as -> -> <-; rewrite bind_eq; cbn [yo gets fst]; rewrite bind_eq, (en_cache_run _ _ (con_procs true s) _ _ Ey); cbn -[f_read]; by rewrite (igual_cache (con_procs true s)), con_cache_igual.
    + exists s'. split; [done|]. eapply sigue_ext; [exact G| |done]. intros j. symmetry. exact (ref_fich_igual A i F j HF).
  - apply (sigue_nada pid fd f i pos w m inr Panic e F s A); try done.
    unfold m. destruct f; try done; injection Hde as -> -> <-; rewrite bind_eq; cbn [yo gets fst]; by rewrite bind_eq, (en_cache_run _ _ (con_procs true s) _ _ Ey), con_cache_igual.
Qed.
Lemma seek_sigue pid fd off wh s A : vivos s -> refleja s A -> cabe pid (Seek fd off wh) A = true ->
  exists s', atiende vive pid (Seek fd off wh) s = ((referencia pid (Seek fd off wh) A).1, s') ∧ sigue pid (referencia pid (Seek fd off wh) A).1 s s' (referencia pid (Seek fd off wh) A).2.
Proof.
  intros Hv Hr (i & pos & w & F & Hd & HF & Hl1 & Hl2)%cabe_desc. destruct (descriptor s A pid fd i pos w Hv Hr Hd) as (f & e & F' & Hf & He & HF' & Hes & Hp & Hde). rewrite HF in HF'. injection HF' as <-.
  cbn [atiende referencia]. unfold num, sys_seek, en_ref. rewrite Hd, HF. set (m := yo ≫= _). assert (forall k, k < 2 ^ 63 -> as_i64 k = Z.of_N k) as H64 by (intros k Hk; unfold as_i64; by rewrite (proj2 (N.ltb_lt _ _) Hk)).
  assert (largo i (la_cache s) = Some (f_largo F)) as Hla by (unfold largo; rewrite He; cbn; f_equal; apply Hes).
  assert (m (f, con_procs true s) = (base ← match wh with 0 => mret 0%Z | 1 => mret (as_i64 pos) | 2 => mret (as_i64 (f_largo F)) | _ => throw OtaExclusion.EINVAL end;
    let nuevo := (base + off)%Z in
    if bool_decide (- 2 ^ 63 <= nuevo < 2 ^ 63)%Z then if (nuevo <? 0)%Z then throw OtaExclusion.EINVAL else pon (con_pos f (Z.to_N nuevo));; mret (Z.to_N nuevo) else panic) (f, con_procs true s)) as Hm.
  { unfold m. rewrite bind_eq. cbn [yo gets fst]. rewrite bind_eq. cbn [en gets fst snd]. destruct f; try done; injection Hde as -> -> <-; rewrite bind_eq; cbn; by rewrite Hla. }
  assert (forall base, (match wh with 0 => Some 0 | 1 => Some pos | 2 => Some (f_largo F) | _ => None end) = Some base ->
    m (f, con_procs true s) = (let nuevo := (Z.of_N base + off)%Z in
      if bool_decide (- 2 ^ 63 <= nuevo < 2 ^ 63)%Z then if (nuevo <? 0)%Z then throw OtaExclusion.EINVAL else pon (con_pos f (Z.to_N nuevo));; mret (Z.to_N nuevo) else panic) (f, con_procs true s)) as Hb.
  { intros base Eb. rewrite Hm. destruct wh as [|[[?|?|]|[?|?|]|]]; try done; injection Eb as <-; rewrite ?H64 by done; done. }
  destruct (match wh with 0 => Some 0 | 1 => Some pos | 2 => Some (f_largo F) | _ => None end) as [base|] eqn:Eb.
  - specialize (Hb base eq_refl). cbv zeta in *. case_bool_decide; [destruct (_ <? 0)%Z|].
    + by apply (sigue_nada pid fd f i pos w m inl (Err OtaExclusion.EINVAL) e F s A).
    + destruct (sigue_puesto pid fd f i pos w m inl (Ok (Z.to_N (Z.of_N base + off))) (Z.to_N (Z.of_N base + off)) e F e s A Hv Hr Hf Hde He) as (s' & E & G); [|by left|done|].
      * rewrite Hb, (igual_cache (con_procs true s)) by done. done.
      * exists s'. split; [done|]. eapply sigue_ext; [exact G| |done]. intros j. symmetry. exact (ref_fich_igual A i F j HF).
    + by apply (sigue_nada pid fd f i pos w m inl Panic e F s A).
  - apply (sigue_nada pid fd f i pos w m inl (Err OtaExclusion.EINVAL) e F s A); try done. rewrite Hm. by destruct wh as [|[[?|?|]|[?|?|]|]].
Qed.
Lemma llamada_sigue pid p s A : vivos s -> refleja s A -> cabe pid p A = true ->
  exists s', atiende vive pid p s = ((referencia pid p A).1, s') ∧ sigue pid (referencia pid p A).1 s s' (referencia pid p A).2.
Proof. intros Hv Hr Hc. destruct p; try done; [by apply write_sigue|by apply pwrite_sigue|by apply ftruncate_sigue|by apply read_sigue|by apply seek_sigue]. Qed.

(** *** Sequences

    The calls one after the other, by their processes, until one does not come back. *)
Fixpoint corre (ts : list (N * Peticion)) s : list Salida * S :=
  match ts with
  | [] => ([], s)
  | (pid, p) :: ts =>
      let '(r, s') := atiende vive pid p s in
      match r with Ok _ | Err _ => let '(rs, s') := corre ts s' in (r :: rs, s') | _ => ([r], s') end
  end.
Fixpoint corre_ref (ts : list (N * Peticion)) (A : Referencia) : list Salida * Referencia :=
  match ts with
  | [] => ([], A)
  | (pid, p) :: ts =>
      let '(r, A') := referencia pid p A in
      match r with Ok _ | Err _ => let '(rs, A') := corre_ref ts A' in (r :: rs, A') | _ => ([r], A') end
  end.
Fixpoint caben (ts : list (N * Peticion)) (A : Referencia) : bool :=
  match ts with [] => true | (pid, p) :: ts => cabe pid p A && caben ts (referencia pid p A).2 end.

(** What all goes well is a way to reach a state. *)
Definition bien (r : Salida) : bool := match r with Ok _ => true | _ => false end.
Lemma corre_alcanza ts : forall s, forallb bien (corre ts s).1 = true -> rtc paso s (corre ts s).2.
Proof.
  induction ts as [|[pid p] ts IH]; intros s Hb; [apply rtc_refl|]. cbn [corre] in *. destruct (atiende vive pid p s) as [r s1] eqn:E. destruct r as [a|e| |]; [|by destruct (corre ts s1)|done..].
  specialize (IH s1). destruct (corre ts s1) as [rs s2]. cbn in *. eapply rtc_l; [by eapply paso_ok|by apply IH].
Qed.

(** All along, an entry is the one there was, or has other contents that are yet to
    be published. *)
Definition posterior (e e' : Entrada) : Prop :=
  refs e' = refs e ∧ dir e' = dir e ∧ name e' = name e ∧ titulares e' = titulares e ∧ exclusivo e' = exclusivo e ∧ (e' = e ∨ sucio e' = true).
Lemma posterior_tocada e e1 e2 : tocada e e1 -> posterior e1 e2 -> posterior e e2.
Proof. intros [->|[x ->]]; [done|]. intros (E1 & E2 & E3 & E4 & E5 & E6). split_and!; try done. right. by destruct E6 as [->|]. Qed.
Definition solo_ficheros s s' : Prop :=
  OtaExclusion.k_excl s' = OtaExclusion.k_excl s ∧ disco (mundo s') = disco (mundo s) ∧ procs (mundo s') = false ∧
  (forall j, match la_cache s !! j, la_cache s' !! j with Some e, Some e' => posterior e e' | None, None => True | _, _ => False end) ∧
  forall p g, match ranura s p g, ranura s' p g with Some f, Some f' => exists q, f' = con_pos f q | None, None => True | _, _ => False end.
Lemma con_pos_dos f p q : con_pos (con_pos f p) q = con_pos f q.
Proof. by destruct f. Qed.
Lemma sigue_solo pid r s s1 s' A : sigue pid r s s1 A -> solo_ficheros s1 s' -> solo_ficheros s s'.
Proof.
  intros (_ & E1 & E2 & E3 & E4 & E5) (F1 & F2 & F3 & F4 & F5). split; [congruence|]. split; [congruence|]. split; [done|]. split.
  - intros j. specialize (E4 j). specialize (F4 j). destruct (la_cache s !! j), (la_cache s1 !! j), (la_cache s' !! j); try done. by eapply posterior_tocada.
  - intros p g. specialize (E5 p g). specialize (F5 p g). destruct (ranura s p g), (ranura s1 p g), (ranura s' p g); try done. destruct E5 as [q ->], F5 as [q' ->]. exists q'. apply con_pos_dos.
Qed.
Lemma cabe_no_mala pid p s A : refleja s A -> cabe pid p A = true -> ¬ mala pid p s.
Proof.
  intros [_ R2] Hc%cabe_desc. destruct p; try (by intros []). intros (i & d & n & pos & w & Hf & Hl). destruct Hc as (i' & pos' & w' & Hd & Hl'). rewrite R2, Hf in Hd. cbn in Hd. simplify_eq. lia.
Qed.
Lemma corre_sigue ts : forall s A, vivos s -> refleja s A -> caben ts A = true ->
  (corre ts s).1 = (corre_ref ts A).1 ∧ refleja (corre ts s).2 (corre_ref ts A).2 ∧ solo_ficheros s (corre ts s).2.
Proof.
  induction ts as [|[pid p] ts IH]; intros s A Hv Hr Hc.
  { split; [done|]. split; [done|]. split; [done|]. split; [done|]. split; [by destruct Hv|]. split.
    - intros j. destruct (corre [] s).2 eqn:E. cbn in E. subst s. destruct (_ !! j); [split_and!; try done; by left|done].
    - intros q g. cbn. destruct (ranura s q g) as [f0|]; [|done]. exists (match f0 with File _ p | LazyFile _ _ p | WriteBuf _ _ _ p _ | StreamWrite _ _ _ p _ _ | Dir _ p => p | _ => 0 end). by destruct f0. }
  cbn [caben] in Hc. apply andb_true_iff in Hc as [Hc Hcs]. destruct (llamada_sigue pid p s A Hv Hr Hc) as (s1 & E & G). pose proof (atiende_vivos vive pid p s Hv) as Hv1. cbn [corre corre_ref]. unfold tras_llamada in Hv1. rewrite E in *.
  destruct (referencia pid p A) as [r A1] eqn:Er. cbn [fst snd] in *. pose proof G as (R1 & _).
  assert (r = Panic ∨ r = Fuel ∨ (vivos s1 ∧ (exists a, r = Ok a ∨ exists e, r = Err e))) as Hcase.
  { destruct r as [a|e| |]; [|destruct Hv1 as [Hm|Hv1]; [by destruct (cabe_no_mala _ _ _ _ Hr Hc)|]|by left|by right; left]; right; right; (split; [done|]); [exists a; by left|exists (inl 0); right; by exists e]. }
  assert (solo_ficheros s s1) as Hs1.
  { destruct G as (_ & G1 & G2 & G3 & G4 & G5). split; [done|]. split; [done|]. split; [done|]. split; [|done]. intros j. specialize (G4 j). destruct (la_cache s !! j), (la_cache s1 !! j); try done.
    eapply posterior_tocada; [done|]. split_and!; try done. by left. }
  destruct Hcase as [->|[->|[Hv' Hr']]]; [done..|]. destruct (IH s1 A1 Hv' R1 Hcs) as (I1 & I2 & I3). destruct (corre ts s1) as [rs s2], (corre_ref ts A1) as [rs' A2]. cbn [fst snd] in *. subst rs'.
  destruct Hr' as [a [->|[e ->]]]; (split; [done|]; split; [done|]); by eapply sigue_solo.
Qed.

(** *** The reference of a state *)
Definition de_bytes (x : list byte) : Fichero := mkFichero (lenN x) (fun i => default x00 (x !! N.to_nat i)).
Definition ref_de s : Referencia := mkReferencia (fun i => e ← la_cache s !! i; Some (de_bytes (data e))) (fun p fd => f ← ranura s p fd; desc f).
Lemma ref_de_refleja s : refleja s (ref_de s).
Proof.
  split; [|done]. intros i. cbn. destruct (la_cache s !! i) as [e|]; [|done]. cbn. split; [done|]. intros k b Hk. cbn. by rewrite Hk.
Qed.

(** C27. What the processes write, truncate, read and seek through their descriptors of
    cached files, while no write goes past the size from which a file becomes a
    stream nor a position beyond an [i64], and where each one is, is what the reference machine says: one content by
    inode, which all its descriptors share, a position of each descriptor, writes that
    only extend where they must; also what fails. And nothing of it reaches the disk.
    A write that makes a stream does lose contents ([FcacheSesion.conversion_pierde]). *)
Theorem fichero_compartido s0 s ts A : arrancada s0 -> rtc paso s0 s -> refleja s A -> caben ts A = true ->
  (corre ts s).1 = (corre_ref ts A).1 ∧ refleja (corre ts s).2 (corre_ref ts A).2 ∧ disco (mundo (corre ts s).2) = disco (mundo s).
Proof.
  intros Ha Hs Hr Hc. pose proof (alcanza_vivos s0 s Hs (arrancada_vivos s0 Ha)) as Hv. destruct (corre_sigue ts s A Hv Hr Hc) as (E1 & E2 & _ & E3 & _). done.
Qed.
End Ficheros.

(** *** The fuel of a stream is enough *)
Section Vaciar.
Context {T : Type} `{Discos T}.
Hypothesis append_acaba : forall i x t (d : T), (LogFs.vfs_append_file i x t d).1 ≠ Fuel.
Hypothesis create_acaba : forall i n x t (d : T), (LogFs.vfs_create_file i n x t d).1 ≠ Fuel.
Lemma vaciar_basta fuel : forall d n i pos buf w (s : OtaExclusion.Kernel (Mundo T)), lenN buf < N.of_nat fuel * STREAM_FLUSH -> (vaciar fuel (StreamWrite d n i pos buf w, s)).1 ≠ Fuel.
Proof using Type*.
  induction fuel as [|fuel IH]; intros d n i pos buf w s Hl; [lia|]. cbn [vaciar]. rewrite bind_eq. cbn [yo gets fst]. destruct (N.leb_spec STREAM_FLUSH (lenN buf)) as [Hb|]; [|done].
  cbv zeta. rewrite bind_eq. cbn [pon modify]. rewrite bind_eq. cbn [en gets fst snd]. generalize (wall_secs s). intros t.
  assert (lenN (drop (N.to_nat STREAM_FLUSH) buf) < N.of_nat fuel * STREAM_FLUSH) as Hl' by (rewrite lenN_drop; lia).
  assert (forall A (m : M T unit A) s0, (m (disco (mundo s0))).1 ≠ Fuel -> exists r s1, with_vfs m s0 = (r, s1) ∧ r ≠ Fuel) as Hv.
  { intros A m s0 Hm. unfold with_vfs, OtaExclusion.with_vfs, en_disco. change (OtaExclusion.k_disco s0) with (mundo s0). destruct (m (disco (mundo s0))) as [[a|e| |] d0]; [by eexists _, _..|done]. }
  rewrite bind_eq. destruct i as [i|].
  - unfold en at 1. cbn [snd fst]. match goal with |- context [with_vfs ?m s] => destruct (Hv _ m s) as (r & s1 & -> & Hr) end; [apply append_acaba|]. destruct r as [a|e| |]; try done. by apply IH.
  - rewrite bind_eq. unfold en at 1. cbn [snd fst]. match goal with |- context [with_vfs ?m s] => destruct (Hv _ m s) as (r & s1 & -> & Hr) end; [apply create_acaba|]. destruct r as [a|e| |]; try done.
    cbn [pon modify snd]. by apply IH.
Qed.
(** [chunks_de] is. *)
Lemma chunks_bastan d n i pos buf w (s : OtaExclusion.Kernel (Mundo T)) : (vaciar (chunks_de buf) (StreamWrite d n i pos buf w, s)).1 ≠ Fuel.
Proof using Type*.
  apply vaciar_basta. unfold chunks_de. rewrite Nat2N.inj_succ, N2Nat.id. pose proof (N.div_mod (lenN buf) STREAM_FLUSH ltac:(done)). pose proof (N.mod_lt (lenN buf) STREAM_FLUSH ltac:(done)). nia.
Qed.
End Vaciar.

(** ** With the disk

    What is asked of the rest of the file system, and with it the kernel with its
    cache is one of the machines [OtaExclusion] speaks of. *)
Class DiscosSpec (T : Type) `{OtaArranque.MaquinaSpec T, !Discos T} := {
  stat_ok i s : let '(r, s') := vfs_stat_inode i s in OtaArranque.igual s s' ∧
    match r with
    | Ok st => forall q, OtaArranque.nodo s i = Some q -> match OtaArranque.arbol s !! q with
        | Some (Some x) => file_type st = SosofsLayout.FT_FILE ∧ size st = lenN x
        | Some None => file_type st = SosofsLayout.FT_DIR
        | None => False
        end
    | Err _ => True
    | _ => False
    end;
  truncate_ok p z t s r : r ≠ OtaArranque.comps p -> OtaArranque.arbol (vfs_truncate p z t s).2 !! r = OtaArranque.arbol s !! r;
  rename_ok d n d' n' t s q q' r : OtaArranque.nodo s d = Some q -> OtaArranque.nodo s d' = Some q' -> ¬ (q ++ [n]) `prefix_of` r -> ¬ (q' ++ [n']) `prefix_of` r ->
    OtaArranque.arbol (LogFs.vfs_rename d n d' n' t s).2 !! r = OtaArranque.arbol s !! r;
}.

Section Disco.
Context {T : Type} `{DiscosSpec T}.
Abbreviation W := (Mundo T).
Abbreviation S := (OtaExclusion.Kernel (Mundo T)).
Abbreviation K := (M S OtaExclusion.Errno).

Definition en_el_disco (f : T -> T) (w : W) : W := mkMundo (f (disco w)) (cache w) (fds w) (procs w).
#[export] Instance Mundo_Maquina : OtaArranque.Maquina W := {|
  OtaArranque.hay_fs w := OtaArranque.hay_fs (disco w); OtaArranque.vfs_read_file i := en_disco (OtaArranque.vfs_read_file i); OtaArranque.vfs_read_dir i := en_disco (OtaArranque.vfs_read_dir i);
  OtaArranque.esp_locate n e k w := OtaArranque.esp_locate n e k (disco w); OtaArranque.esp_read a := en_disco (OtaArranque.esp_read a); OtaArranque.esp_write a x := en_disco (OtaArranque.esp_write a x);
  OtaArranque.tomar_por_el_kernel := en_el_disco OtaArranque.tomar_por_el_kernel; OtaArranque.liberar_del_kernel := en_el_disco OtaArranque.liberar_del_kernel;
|}.
#[export] Instance Mundo_MaquinaSpec : OtaArranque.MaquinaSpec W.
Proof using Type*.
  refine {| OtaArranque.averias := OtaArranque.averias (T := T); OtaArranque.fallos := OtaArranque.fallos (T := T);
            OtaArranque.arbol w := OtaArranque.arbol (disco w); OtaArranque.nodo w := OtaArranque.nodo (disco w) |}.
  - intros p w. pose proof (OtaArranque.resolve_ok p (disco w)) as Hr. cbn. unfold en_disco. by destruct (LogFs.vfs_resolve p (disco w)).
  - intros d n w. pose proof (OtaArranque.lookup_ok d n (disco w)) as Hr. cbn. unfold en_disco. by destruct (LogFs.vfs_lookup d n (disco w)).
  - intros i w. pose proof (OtaArranque.read_file_ok i (disco w)) as Hr. cbn. unfold en_disco. by destruct (OtaArranque.vfs_read_file i (disco w)).
  - intros i w. pose proof (OtaArranque.read_dir_ok i (disco w)) as Hr. cbn. unfold en_disco. by destruct (OtaArranque.vfs_read_dir i (disco w)).
  - intros d n t w. pose proof (OtaArranque.mkdir_ok d n t (disco w)) as Hr. cbn. unfold en_disco. by destruct (LogFs.vfs_mkdir d n t (disco w)) as [[]].
  - intros d n x t w. pose proof (OtaArranque.create_ok d n x t (disco w)) as Hr. cbn. unfold en_disco. by destruct (LogFs.vfs_create_file d n x t (disco w)) as [[]].
  - intros d n w. pose proof (OtaArranque.unlink_ok d n (disco w)) as Hr. cbn. unfold en_disco. by destruct (LogFs.vfs_unlink d n (disco w)) as [[]].
  - intros n e k w lba. exact (OtaArranque.esp_locate_ok (T := T) n e k (disco w) lba).
  - intros a w. pose proof (OtaArranque.esp_read_ok a (disco w)) as Hr. cbn. unfold en_disco. by destruct (OtaArranque.esp_read a (disco w)).
  - intros a x w. pose proof (OtaArranque.esp_write_ok a x (disco w)) as Hr. cbn. unfold en_disco. by destruct (OtaArranque.esp_write a x (disco w)).
  - intros w. exact (OtaArranque.tomar_ok (T := T) (disco w)).
  - intros w. exact (OtaArranque.liberar_ok (T := T) (disco w)).
Defined.
#[export] Instance Mundo_DiscoSpec : OtaExclusion.DiscoSpec W.
Proof using Type*.
  split.
  - intros i w. cbn. unfold stat_inode. rewrite bind_eq. unfold en_disco. pose proof (stat_ok i (disco w)) as Hs. by destruct (vfs_stat_inode i (disco w)) as [[st|e| |] d]; destruct Hs as [Hs _].
  - intros p z t w r Hr. cbn. unfold en_disco. pose proof (truncate_ok p z t (disco w) r Hr) as Ht. by destruct (vfs_truncate p z t (disco w)).
  - intros d n d' n' t w q q' r Hq Hq' H1' H2'. cbn in *. unfold en_disco. pose proof (rename_ok d n d' n' t (disco w) q q' r Hq Hq' H1' H2') as Hr. by destruct (LogFs.vfs_rename d n d' n' t (disco w)).
  - done.
Qed.
End Disco.

(** ** The machine in memory *)
#[local] Existing Instances OtaArranqueTeoremas.Equipo_Vfs OtaArranqueTeoremas.Equipo_Maquina OtaArranqueTeoremas.Equipo_Spec OtaExclusion.Equipo_Disco OtaExclusion.Equipo_DiscoSpec.
Section Equipo.
Context {cortable averiada : bool}.
Abbreviation Q := (OtaArranqueTeoremas.Equipo cortable averiada).
Abbreviation callada := (fun (_ : N) (s : Q) => s).
#[export] Instance Equipo_Discos : Discos Q := {|
  vfs_stat_inode := fun i => OtaArranqueTeoremas.en_nodo i (fun q s =>
    (match OtaArranqueTeoremas.q_arbol s !! q with Some (Some x) => Ok (mkStat SosofsLayout.FT_FILE (lenN x)) | Some None => Ok (mkStat SosofsLayout.FT_DIR 0) | None => Err tt end, s));
  vfs_read_range := fun i off n => x ← OtaArranqueTeoremas.q_read_file i; of_option (throw tt) (slice off n x);
  vfs_truncate := OtaExclusion.vfs_truncate_path; libres := OtaExclusion.free_blocks;
  pipe_close_reader := callada; pipe_close_writer := callada; pipe_add_reader := callada; pipe_add_writer := callada;
  tcp_close := callada; pty_close_master := callada; pty_cerrar_master_diferido := callada;
  otro_write := fun _ x => mret (lenN x); otro_read := fun _ _ => mret [];
|}.
#[export] Instance Equipo_DiscosSpec : DiscosSpec Q.
Proof.
  split.
  - intros i s. cbn. unfold OtaArranqueTeoremas.en_nodo. destruct (OtaArranqueTeoremas.nodo_q s i) as [q|]; [|done].
    destruct (OtaArranqueTeoremas.q_arbol s !! q) as [[x|]|] eqn:E; (split; [done|]); [intros r [= <-]; by rewrite E..|done].
  - intros p z t s r. apply OtaExclusion.truncate_ok.
  - intros d n d' n' t s q q' r. apply OtaExclusion.rename_ok.
Qed.
End Equipo.

(** The tree of the update, and two processes with nothing open. *)
Definition sesion (e : OtaExclusion.EstadoExcl) : OtaExclusion.Kernel (Mundo (OtaArranqueTeoremas.Equipo false false)) :=
  OtaExclusion.mkKernel (OtaExclusion.mkExclusion e 0) (mkMundo (OtaArranqueTeoremas.equipo_armado 0) ∅ {[ 7 := [Some Tty]; 8 := [Some Tty] ]} false).
Definition vive0 : N -> bool := fun _ => true.
Definition ruta_a : str := txt "/bin/a".
Definition raiz : str := txt "/".
Lemma sesion_arrancada e : arrancada (sesion e).
Proof.
  split; [done|]. split; [done|]. intros pid fd f. unfold ranura. cbn. destruct (decide (pid = 7)) as [->|]; [|destruct (decide (pid = 8)) as [->|]].
  1-2: cbn; destruct (N.to_nat fd) as [|[]]; cbn; by intros [= <-].
  by rewrite lookup_insert_ne, lookup_singleton_ne by done.
Qed.
(** The state after some calls. *)
Definition tras (ts : list (N * Peticion)) e := (corre vive0 ts (sesion e)).2.
Definition abren : list (N * Peticion) := [(7, Open raiz ruta_a O_WRONLY); (8, Open raiz ruta_a 0); (7, Dup2 1 5)].
Lemma abren_alcanza : rtc paso (sesion OtaExclusion.Libre) (tras abren OtaExclusion.Libre).
Proof. apply corre_alcanza. by vm_compute. Qed.

Definition ino_a : N := OtaArranqueTeoremas.inodo [txt "bin"; txt "a"].
Lemma descriptores_vivos_testigo : let s := tras abren OtaExclusion.Libre in
  cuenta ino_a (todos (fds (mundo s))) = 3 ∧ exists e, cache (mundo s) !! ino_a = Some e ∧ cuenta ino_a (todos (fds (mundo s))) <= refs e ∧ titulares e = [].
Proof.
  intros s. split; [by vm_compute|].
  destruct (descriptores_vivos (sesion OtaExclusion.Libre) s (sesion_arrancada _) abren_alcanza) as [Hd _].
  destruct (Hd 7 5 (WriteBuf ino_a (OtaArranqueTeoremas.inodo [txt "bin"]) (txt "a") 0 true) ino_a) as (e & He & Hr); [by vm_compute|done|]. exists e. split; [exact He|]. split; [exact Hr|].
  assert (cache (mundo s) !! ino_a = Some (mkEntrada OtaArranqueTeoremas.viejo 3 false (OtaArranqueTeoremas.inodo [txt "bin"]) (txt "a") [] false)) as E by by vm_compute. rewrite E in He. by injection He as <-.
Defined.

(** Two processes on one file: each sees what the other writes, and a read beyond the
    end stops the kernel. *)
Definition escriben : list (N * Peticion) :=
  [(7, Seek 1 3 0); (7, Write 1 (txt "XY!")); (8, Read 1 100); (7, Write 5 (txt "__")); (8, Write 1 (txt "no")); (8, Pwrite 1 (txt "si") 8); (8, Seek 1 (-8) 2); (8, Read 1 7); (8, Ftruncate 1 4); (7, Read 1 1)].
Lemma fichero_compartido_testigo : caben escriben (ref_de (tras abren OtaExclusion.Libre)) = true ∧
  (corre vive0 escriben (tras abren OtaExclusion.Libre)).1 =
    [Ok (inl 3); Ok (inl 3); Ok (inr (txt "vieXY!")); Ok (inl 2); Err EBADF; Ok (inl 2); Ok (inl 2); Ok (inr (txt "eXY!" ++ [x00; x00] ++ txt "s")); Ok (inl 0); Panic].
Proof.
  assert (caben escriben (ref_de (tras abren OtaExclusion.Libre)) = true) as Hc by (by vm_compute).
  split; [exact Hc|]. destruct (fichero_compartido vive0 (sesion OtaExclusion.Libre) _ escriben _ (sesion_arrancada _) abren_alcanza (ref_de_refleja _) Hc) as (-> & _). by vm_compute.
Defined.
