(* ===== verification/FcacheSesion.v ===== *)
(** * Kernel: a file from open to close

    What a process that opens a file, writes it and closes it leaves on the disk:
    all of its work or none of it. *)
From S2P Require Import Prelude Texto OtaArranque OtaExclusion Fcache FcacheVivos FcacheTeoremas.
From S2P Require SosofsLayout LogFs OtaArranqueTeoremas.
Local Open Scope N_scope.
#[local] Set Default Proof Using "Type*".

Section Sesion.
Context {T : Type} `{DiscosSpec T}.
Abbreviation S := (Kernel (Mundo T)).
Abbreviation K := (M S Errno).
Abbreviation la_cache s := (cache (mundo s)).
Abbreviation el_disco s := (disco (mundo s)).
Implicit Types s : S.
Hypothesis sin_averias : ¬ averias (T := T).
Variables (vive : N -> bool) (pid : N).

(** *** Opening only looks at the disk *)
Definition leido s s' : Prop := la_cache s' = la_cache s ∧ fds (mundo s') = fds (mundo s) ∧ procs (mundo s') = procs (mundo s) ∧ igual (el_disco s) (el_disco s').
Definition si {A} (m : K A) s (Φ : A -> S -> Prop) : Prop := let '(r, s') := m s in match r with Ok a => Φ a s' | _ => True end.
Lemma leido_refl s : leido s s.
Proof using Type. done. Qed.
Lemma leido_trans s1 s2 s3 : leido s1 s2 -> leido s2 s3 -> leido s1 s3.
Proof using Type. intros (E1 & E2 & E3 & E4) (F1 & F2 & F3 & F4). split; [congruence|]. split; [congruence|]. split; [congruence|]. by eapply igual_trans. Qed.
Lemma si_bind {A B} (m : K A) (k : A -> K B) s Φ : si m s (fun a s1 => si (k a) s1 Φ) -> si (m ≫= k) s Φ.
Proof using Type. unfold si. rewrite bind_eq. by destruct (m s) as [[a|e| |] s1]. Qed.
Lemma si_ret {A} (a : A) s (Φ : A -> S -> Prop) : Φ a s -> si (mret a) s Φ.
Proof using Type. done. Qed.
Lemma si_mono {A} (m : K A) s (Φ Φ' : A -> S -> Prop) : si m s Φ -> (forall a s', Φ a s' -> Φ' a s') -> si m s Φ'.
Proof using Type. unfold si. destruct (m s) as [[a|e| |] s1]; auto. Qed.
Lemma si_vfs {A} (m : M T unit A) s (Φ : A -> S -> Prop) : igual (el_disco s) (m (el_disco s)).2 ->
  (forall a d s', m (el_disco s) = (Ok a, d) -> el_disco s' = d -> leido s s' -> Φ a s') -> si (Fcache.with_vfs m) s Φ.
Proof using Type.
  intros Hi HΦ. unfold si, Fcache.with_vfs, OtaExclusion.with_vfs, en_disco. change (k_disco s) with (mundo s). destruct (m (el_disco s)) as [[a|e| |] d] eqn:E; try done.
  by apply (HΦ a d).
Qed.
Lemma si_comprobar p s (Φ : unit -> S -> Prop) : (forall s', leido s s' -> Φ tt s') -> si (comprobar_escritura vive pid p) s Φ.
Proof using Type.
  intros HΦ. unfold si, comprobar_escritura. destruct (vigente vive (k_excl s)) as [st e]. destruct st as [|d|]; [by apply HΦ| |]; case_bool_decide; try (by apply HΦ); destruct (es_administrada p); try done; destruct (_ && _); try done; by apply HΦ.
Qed.
Lemma padre_disco p s : exists d, (resolve_parent p s).2 = con_disco (fun _ => d) s.
Proof using Type.
  assert (s = con_disco (fun _ => el_disco s) s) as Hs by (unfold con_disco, con_mundo, mundo; by destruct s as [x []]).
  unfold resolve_parent. cbv zeta. case_bool_decide; [by eexists|]. rewrite bind_eq. set (m := match OtaDescarga.rfind _ _ with Some _ => _ | None => _ end : K (str * str)).
  assert ((m s).2 = s) as Hm by (unfold m; by destruct (OtaDescarga.rfind _ _) as [[|i]|]). destruct (m s) as [[[pa n]|e| |] s1]; cbn in Hm; subst s1; try by eexists.
  case_bool_decide; [by eexists|]. rewrite bind_eq. unfold OtaExclusion.with_vfs. cbn. unfold en_disco. destruct (LogFs.vfs_resolve pa (disco (k_disco s))) as [[i|e| |] d]; by exists d.
Qed.
Lemma si_padre l s (Φ : N * str -> S -> Prop) : Forall nombre_propio l ->
  (forall q n d s', l = q ++ [n] -> leido s s' -> nodo (el_disco s') d = Some q -> Φ (d, n) s') -> si (resolve_parent (ruta_de l)) s Φ.
Proof.
  intros Hl HΦ. destruct (padre_disco (ruta_de l) s) as [d0 Ed].
  assert (deja [] (resolve_parent (ruta_de l)) s (fun dn s' => exists q, l = q ++ [dn.2] ∧ igual (k_disco s) (k_disco s') ∧ nodo (k_disco s') dn.1 = Some q)) as Hd.
  { apply deja_padre; [done|]. intros m n i d -> Hi Hn. by exists m. }
  unfold deja in Hd. unfold si. destruct (resolve_parent (ruta_de l) s) as [[[d n]|e| |] s']; try done. destruct Hd as [_ (q & E & Hi & Hn)]. cbn in Ed. subst s'. by apply (HΦ q n).
Qed.
Lemma stat_igual i s : igual (el_disco s) (vfs_stat_inode i (el_disco s)).2.
Proof. pose proof (stat_ok i (el_disco s)) as Hs. destruct (vfs_stat_inode i (el_disco s)). by destruct Hs. Qed.

(** The file is not among the open ones. *)
Definition cerrado (q : list str) s : Prop := forall i e s', la_cache s !! i = Some e -> leido s s' -> nodo (el_disco s') i ≠ Some q.
(** Just opened: one descriptor, on an entry with what the disk has. *)
Definition abierto (q : list str) (n : str) (x : list byte) s s1 (f : Fd) : Prop := exists i d w,
  f = WriteBuf i d n 0 w ∧ n ≠ [] ∧ nodo (el_disco s1) d = Some q ∧ igual (el_disco s) (el_disco s1) ∧ la_cache s !! i = None ∧
  la_cache s1 = <[i := mkEntrada x 1 false d n [] false]> (la_cache s) ∧ fds (mundo s1) = fds (mundo s) ∧ procs (mundo s1) = procs (mundo s).
Lemma abrir_escritura_run l x s : Forall nombre_propio l -> arbol (el_disco s) !! l = Some (Some x) -> lenN x <= CARGA_MAX -> cerrado l s ->
  si (abrir_escritura vive pid (ruta_de l) O_WRONLY) s (fun f s1 => exists q n, l = q ++ [n] ∧ abierto q n x s s1 f).
Proof.
  intros Hl Hx Hle Hc. unfold abrir_escritura. cbv zeta. apply si_bind, si_comprobar. intros s1 L1. apply si_bind, si_padre; [done|]. intros q n d s2 -> L2 Hd. cbv beta iota.
  apply Forall_app in Hl as [_ [(_ & Hn & _) _]%Forall_cons].
  assert (leido s s2) as L02 by (by eapply leido_trans). clear s1 L1 L2. apply si_bind. pose proof (lookup_ok d n (el_disco s2)) as Hlk.
  unfold si at 1, attempt, Fcache.with_vfs, OtaExclusion.with_vfs, en_disco. change (k_disco s2) with (mundo s2).
  assert (arbol (el_disco s2) !! (q ++ [n]) = Some (Some x)) as Hx2 by (destruct L02 as (_ & _ & _ & [-> _]); done).
  destruct (LogFs.vfs_lookup d n (el_disco s2)) as [[i|e| |] d3]; destruct Hlk as [Hi3 Hlk]; try done; [|destruct Hlk as [|Hlk]; [done|]; by rewrite (Hlk q Hd) in Hx2].
  destruct (Hlk q Hd) as [Hi _]. clear Hlk. set (s3 := mkKernel _ _). assert (leido s s3) as L3 by (eapply leido_trans; [exact L02|]; by split).
  assert (nodo (el_disco s3) i = Some (q ++ [n]) ∧ nodo (el_disco s3) d = Some q) as [Hi' Hd'] by (split; [done|by apply Hi3]). clearbody s3. clear Hi Hd Hi3 d3 Hx2 L02 s2.
  change (negb (N.land O_WRONLY O_EXCL =? 0)) with false. change (negb (N.land O_WRONLY O_APPEND =? 0)) with false. change (negb (N.land O_WRONLY O_TRUNC =? 0)) with false. change (negb (N.land O_WRONLY O_CREAT =? 0)) with false.
  cbn [andb negb orb]. cbv beta iota.
  (* a file, and not a directory *)
  assert (forall s4, leido s3 s4 -> forall B (k : Stat -> K B) Φ, (forall st s5, file_type st = SosofsLayout.FT_FILE -> size st = lenN x -> leido s4 s5 -> si (k st) s5 Φ) -> si (st ← Fcache.with_vfs (vfs_stat_inode i); k st) s4 Φ) as Hst.
  { intros s4 L4 B k Φ Hk. apply si_bind, si_vfs; [apply stat_igual|]. intros st d5 s5 E E5 L5. pose proof (stat_ok i (el_disco s4)) as Hs. rewrite E in Hs. destruct Hs as [_ Hs].
    destruct L3 as (_ & _ & _ & [L3a _]). destruct L4 as (_ & _ & _ & [L4a L4n]). specialize (Hs _ (L4n _ _ Hi')). rewrite L4a, L3a, Hx in Hs. destruct Hs. by apply Hk. }
  apply si_bind, (Hst s3 (leido_refl s3)). intros st s4 Ht _ L4. rewrite Ht. change (SosofsLayout.FT_FILE =? SosofsLayout.FT_DIR) with false. cbv beta iota. apply si_ret. apply si_bind, si_ret, si_bind, si_ret. cbv beta iota.
  apply si_bind, (Hst s4 L4). intros st' s5 Ht' Hz L5. rewrite Ht', Hz. change (SosofsLayout.FT_FILE =? SosofsLayout.FT_FILE) with true. rewrite (proj2 (N.leb_le _ _) Hle). cbn [andb]. cbv beta iota.
  assert (leido s3 s5) as L35 by (by eapply leido_trans). pose proof L35 as (_ & _ & _ & [L35a L35n]). pose proof L3 as (_ & _ & _ & [L3a _]).
  apply si_bind, si_vfs. { pose proof (read_file_ok i (el_disco s5)) as Hr. destruct (vfs_read_file i (el_disco s5)). by destruct Hr. }
  intros y d6 s6 Ey E6 L6. pose proof (read_file_ok i (el_disco s5)) as Hr. rewrite Ey in Hr. destruct Hr as [_ Hr]. specialize (Hr _ (L35n _ _ Hi')). rewrite L35a, L3a, Hx in Hr. injection Hr as <-.
  apply si_ret. cbv beta iota. assert (leido s3 s6) as L36 by (by eapply leido_trans). assert (leido s s6) as L06 by (by eapply leido_trans). clear s4 L4 s5 L5 L35 L35a L35n L6 Ey E6 Hst.
  pose proof L36 as (_ & _ & _ & [_ L36n]). pose proof L06 as (C6 & F6 & P6 & I6). apply si_bind. unfold si at 1. cbn [modify]. apply si_ret. exists q, n. split; [done|].
  assert (la_cache s !! i = None) as Hno. { destruct (la_cache s !! i) as [e|] eqn:E; [|done]. destruct (Hc i e s6 E L06). by apply L36n. }
  exists i, d, (es_administrada (ruta_de (q ++ [n]))). split; [done|]. split; [done|]. split; [by apply L36n|]. split; [done|]. split; [done|]. split; [|done].
  cbn. unfold abrir. by rewrite C6, Hno.
Qed.

(** What [sys_open] gives is what was opened, in a slot of its own. *)
Lemma alloc_run f s : procs (mundo s) = false -> let '(r, s') := con_cerrojo_de_procs (alloc_fd pid f) s in
  match r with Ok fd => la_cache s' = la_cache s ∧ el_disco s' = el_disco s ∧ procs (mundo s') = false ∧ ranura s' pid fd = Some f | _ => True end.
Proof using Type.
  intros Hp. unfold con_cerrojo_de_procs. rewrite Hp. unfold alloc_fd. rewrite bind_eq. unfold tabla. cbn. destruct (fds (mundo s) !! pid) as [t|] eqn:Ht; [|done].
  destruct (primero_libre t) as [i|] eqn:Ei; cbn.
  - split; [done|]. split; [done|]. split; [done|]. unfold ranura. cbn. rewrite lookup_insert_eq. cbn. rewrite Nat2N.id. rewrite list_lookup_insert_eq; [done|].
    unfold primero_libre in Ei. destruct (list_find _ t) as [[j o]|] eqn:El; [|done]. injection Ei as ->. apply list_find_Some in El as (Hi & _). by eapply lookup_lt_Some.
  - destruct (_ <? _); [|done]. cbn. split; [done|]. split; [done|]. split; [done|]. unfold ranura. cbn. rewrite lookup_insert_eq. cbn. unfold lenN. by rewrite Nat2N.id, lookup_app_r, Nat.sub_diag.
Qed.
Lemma sys_open_run cwd raw l x s : Forall nombre_propio l -> abs_path cwd raw = Some (ruta_de l) -> arbol (el_disco s) !! l = Some (Some x) -> lenN x <= CARGA_MAX -> cerrado l s -> procs (mundo s) = false ->
  si (sys_open vive pid cwd raw O_WRONLY) s (fun fd s1 => exists q n i d w, l = q ++ [n] ∧ n ≠ [] ∧ nodo (el_disco s1) d = Some q ∧ igual (el_disco s) (el_disco s1) ∧ procs (mundo s1) = false ∧
    ranura s1 pid fd = Some (WriteBuf i d n 0 w) ∧ la_cache s1 !! i = Some (mkEntrada x 1 false d n [] false)).
Proof.
  intros Hl Ha Hx Hle Hc Hp. unfold sys_open, resolve_user_path. rewrite Ha. apply si_bind, si_ret, si_bind. change (negb (N.land O_WRONLY O_WRONLY =? 0)) with true. cbv beta iota.
  eapply si_mono; [by apply abrir_escritura_run|]. cbv beta. intros f s1 (q & n & E & i & d & w & -> & Hn & Hd & Hi & _ & Hca & _ & Hp1). unfold si. pose proof (alloc_run (WriteBuf i d n 0 w) s1) as Hal. rewrite Hp1, Hp in Hal.
  specialize (Hal eq_refl). destruct (con_cerrojo_de_procs _ s1) as [[fd|e| |] s2]; try done. destruct Hal as (H1' & H2' & H3' & H4'). exists q, n, i, d, w. rewrite H2', H1', Hca. split_and!; try done. apply lookup_insert_eq.
Qed.

(** *** Closing the only descriptor *)
(** The file is as it was, or all of the new. *)
Definition deja_fichero (l : list str) (x y : list byte) (d d' : T) (r : outcome Errno N) : Prop :=
  (forall q, q ≠ l -> fichero d' q = fichero d q) ∧
  match r with
  | Ok _ => fichero d' l = Some y
  | Err _ => fichero d' l = Some x
  | Panic => fallos (T := T) ∧ (fichero d' l = Some x ∨ fichero d' l = Some y)
  | Fuel => False
  end.
Lemma ficheros_igual (d d' : T) q : igual d d' -> fichero d' q = fichero d q.
Proof using Type. intros [E _]. unfold fichero. by rewrite E. Qed.
Lemma volcar_run i q n d e x s : la_cache s !! i = Some e -> refs e = 1 -> dir e = d -> name e = n -> n ≠ [] -> nodo (el_disco s) d = Some q -> fichero (el_disco s) (q ++ [n]) = Some x ->
  (sucio e = true ∨ data e = x) -> let '(r, s') := volcar_si_es_el_ultimo i s in
  deja_fichero (q ++ [n]) x (data e) (el_disco s) (el_disco s') (match r with Ok _ => Ok 0 | Err e => Err e | Panic => Panic | Fuel => Fuel end).
Proof using Type.
  intros Hi Hr Hd Hn Hne Hq Hx Hs. unfold volcar_si_es_el_ultimo. set (fin := en_cache (cerrar i) ≫= _).
  assert (forall s0, exists s', fin s0 = (Ok tt, s') ∧ el_disco s' = el_disco s0) as Hfin.
  { intros s0. unfold fin. rewrite bind_eq. unfold en_cache, cerrar. destruct (la_cache s0 !! i) as [e0|]; [|by eexists]. by destruct (_ =? 0); eexists. }
  clearbody fin. rewrite bind_eq. cbn [gets]. unfold refs_de. rewrite Hi, Hr. change (1 <=? 1) with true. cbv iota. rewrite bind_eq, bind_eq. cbn [gets]. unfold pendiente. rewrite Hi. cbn. destruct (sucio e) eqn:Es.
  - rewrite Hd, Hn, bind_eq. cbn [gets]. generalize (Fcache.wall_secs s). intros t. rewrite bool_decide_eq_false_2 by done. rewrite bind_eq. unfold Fcache.with_vfs, OtaExclusion.with_vfs. cbn. unfold en_disco. change (k_disco s) with (mundo s).
    pose proof (create_ok d n (data e) t (el_disco s)) as Hc. destruct (LogFs.vfs_create_file d n (data e) t (el_disco s)) as [[j|u| |] d'].
    + destruct Hc as (q' & Hq' & _ & Ha & _). rewrite Hq in Hq'. injection Hq' as <-. cbn. match goal with |- context [fin ?s0] => destruct (Hfin s0) as (s' & -> & Ed) end. cbn in Ed. rewrite Ed. split.
      * intros r Hr'. unfold fichero, en_arbol. by rewrite Ha, lookup_insert_ne.
      * unfold fichero, en_arbol. by rewrite Ha, lookup_insert_eq.
    + destruct Hc as [Hc _]. cbn. split; [intros r _; by apply ficheros_igual|]. by rewrite (ficheros_igual _ _ _ Hc).
    + destruct Hc as [Hf Hc]. cbn. destruct Hc as [Hc|(q' & Hq' & _ & Ha & _)].
      * split; [intros r _; by apply ficheros_igual|]. split; [done|left]. by rewrite (ficheros_igual _ _ _ Hc).
      * rewrite Hq in Hq'. injection Hq' as <-. split; [intros r Hr'; unfold fichero, en_arbol; by rewrite Ha, lookup_insert_ne|]. split; [done|right]. unfold fichero, en_arbol. by rewrite Ha, lookup_insert_eq.
    + done.
  - destruct Hs as [|<-]; [done|]. cbn. destruct (Hfin s) as (s' & -> & ->). by split.
Qed.

Lemma close_run fd i d n pos w s : procs (mundo s) = false -> ranura s pid fd = Some (WriteBuf i d n pos w) ->
  (exists s1, la_cache s1 = la_cache s ∧ el_disco s1 = el_disco s ∧
     sys_close vive pid fd s = (let '(r, s2) := volcar_si_es_el_ultimo i s1 in (match r with Ok _ => Ok 0 | Err e => Err e | Panic => Panic | Fuel => Fuel end, s2))) ∨
  exists e s', sys_close vive pid fd s = (Err e, s') ∧ el_disco s' = el_disco s.
Proof using Type.
  intros Hp Hf. unfold sys_close. rewrite bind_eq. unfold con_cerrojo_de_procs, take_fd. rewrite Hp, bind_eq. unfold tabla, ranura in *. cbn. destruct (fds (mundo s) !! pid) as [t|]; [|done]. cbn in Hf. rewrite Hf. rewrite bind_eq. cbn.
  set (s1 := con_procs false _). assert (la_cache s1 = la_cache s ∧ el_disco s1 = el_disco s ∧ procs (mundo s1) = false) as (E1 & E2 & E3) by done. clearbody s1. unfold drop_fd. rewrite bind_eq, bind_eq.
  set (m := sigue_pudiendo_publicar vive pid w). assert (exists r e, m s1 = (r, mkKernel e (k_disco s1)) ∧ match r with Ok _ | Err _ => True | _ => False end) as (r & e & -> & Hr).
  { unfold m, sigue_pudiendo_publicar. destruct w; [|exists (Ok tt), (k_excl s1); by destruct s1]. rewrite E3. exists (comprobar_ruta_administrada vive pid (k_excl s1)).1, (comprobar_ruta_administrada vive pid (k_excl s1)).2. split.
    - destruct (estado (k_excl s1)); unfold en_excl; by destruct (comprobar_ruta_administrada vive pid (k_excl s1)).
    - unfold comprobar_ruta_administrada. destruct (vigente vive (k_excl s1)) as [[|o|] x]; try done. by destruct (o =? pid). }
  destruct r as [a|er| |]; try done.
  - left. exists (mkKernel e (k_disco s1)). split; [done|]. split; [done|]. by destruct (volcar_si_es_el_ultimo i _) as [[]].
  - right. by eexists er, _.
Qed.

(** C28. On a medium whose reads do not fail, a process opens to write an existing file
    of at most a mebibyte that nobody has open, it and others write, truncate, move
    and read through their descriptors of cached files, no write past the size of a
    stream and no position beyond an [i64], and it closes: on the disk
    the file is all of what the reference machine says when the close succeeds, the
    old one when it fails and one of the two when the power goes; and nothing else
    has changed. No [fsync] comes in between: it would publish before the close. *)
Theorem sesion_entera s0 s cwd raw l x fd s1 ts : arrancada s0 -> rtc paso s0 s ->
  Forall nombre_propio l -> abs_path cwd raw = Some (ruta_de l) -> arbol (el_disco s) !! l = Some (Some x) -> lenN x <= CARGA_MAX -> cerrado l s ->
  sys_open vive pid cwd raw O_WRONLY s = (Ok fd, s1) -> caben ts (ref_de s1) = true ->
  exists i F, r_desc (ref_de s1) pid fd = Some (i, 0, true) ∧ r_fich (corre_ref ts (ref_de s1)).2 i = Some F ∧
  exists y, es y F ∧ let '(r, s') := sys_close vive pid fd (corre vive ts s1).2 in deja_fichero l x y (el_disco s) (el_disco s') r.
Proof.
  intros Ha Hs Hl Hp Hx Hle Hc Ho Hts. pose proof (alcanza_vivos s0 s Hs (arrancada_vivos s0 Ha)) as Hv.
  pose proof (sys_open_run cwd raw l x s Hl Hp Hx Hle Hc (proj1 Hv)) as Hop. unfold si in Hop. rewrite Ho in Hop. destruct Hop as (q & n & i & d & w & -> & Hn & Hd & Hi & Hp1 & Hf & He).
  pose proof (todo_vivos _ _ s (todo_open vive pid cwd raw O_WRONLY) Hv) as Hv1. unfold tras_llamada in Hv1. rewrite Ho in Hv1. cbn in Hv1.
  destruct (corre_sigue vive ts s1 (ref_de s1) Hv1 (ref_de_refleja s1) Hts) as (_ & [R1 _] & (_ & C2 & C3 & C4 & C5)). set (s2 := (corre vive ts s1).2) in *. clearbody s2.
  specialize (R1 i). specialize (C4 i). specialize (C5 pid fd). rewrite He in C4. rewrite Hf in C5. destruct (ranura s2 pid fd) as [f2|] eqn:Hf2; [|done]. destruct C5 as [p2 ->]. cbn [con_pos] in Hf2.
  destruct (la_cache s2 !! i) as [e2|] eqn:He2; [|done]. destruct C4 as (Q1 & Q2 & Q3 & _ & _ & Q4). destruct (r_fich (corre_ref ts (ref_de s1)).2 i) as [F|] eqn:EF; [|done]. exists i, F.
  split; [cbn; by rewrite Hf|]. split; [done|]. exists (data e2). split; [done|].
  assert (fichero (el_disco s) (q ++ [n]) = Some x) as Hx0 by (unfold fichero, en_arbol; by rewrite Hx).
  assert (forall r, fichero (el_disco s1) r = fichero (el_disco s) r) as Hs1 by (intros r; by apply ficheros_igual).
  destruct (close_run fd i d n p2 w s2 C3 Hf2) as [(s3 & E1 & E2 & ->)|(e & s3 & -> & E)].
  - assert (nodo (el_disco s3) d = Some q) as Hd3 by (by rewrite E2, C2). assert (fichero (el_disco s3) (q ++ [n]) = Some x) as Hx3 by (by rewrite E2, C2, Hs1). rewrite <- E1 in He2.
    pose proof (volcar_run i q n d e2 x s3 He2 Q1 Q2 Q3 Hn Hd3 Hx3) as Hvo. destruct (volcar_si_es_el_ultimo i s3) as [r s4].
    destruct Hvo as [V1 V2]; [destruct Q4 as [->|]; [by right|by left]|]. split; [|done]. intros r' Hr'. rewrite V1 by done. by rewrite E2, C2, Hs1.
  - rewrite E, C2. split; [done|]. by rewrite Hs1.
Qed.
End Sesion.

(** ** Locks *)
Section Cerrojos.
Context {T : Type} `{Discos T}.
Implicit Types s : Kernel (Mundo T).
Abbreviation la_cache s := (cache (mundo s)).
(** Who holds the lock of an inode, and how. *)
Definition llave s i : option (list N * bool) := e ← la_cache s !! i; Some (titulares e, exclusivo e).

Lemma otros_de (p : N) l : NoDup l -> p ∈ l -> filter (fun t => t ≠ p) l = [] -> l = [p].
Proof using Type.
  intros Hn Hp Hf. destruct l as [|a l]; [by apply not_elem_of_nil in Hp|]. assert (forall b, b ∈ a :: l -> b = p) as Ha.
  { intros b Hb. destruct (decide (b = p)) as [|Hne]; [done|]. assert (b ∈ filter (fun t => t ≠ p) (a :: l)) as Hin by (by apply list_elem_of_filter). rewrite Hf in Hin. by apply not_elem_of_nil in Hin. }
  rewrite (Ha a) in * by left. destruct l as [|b l]; [done|]. apply NoDup_cons in Hn as [Hn _]. destruct Hn. rewrite (Ha b) by (right; left). left.
Qed.
Lemma con_uno (p : N) l : NoDup l -> filter (fun t => t ≠ p) l = [] -> (if bool_decide (p ∈ l) then l else l ++ [p]) = [p].
Proof using Type.
  intros Hn E0. case_bool_decide as Hp; [by apply otros_de|]. destruct l as [|a l]; [done|]. exfalso.
  assert (a ∈ filter (fun t => t ≠ p) (a :: l)) as Hin. { apply list_elem_of_filter. split; [intros ->; apply Hp; left|left]. } rewrite E0 in Hin. by apply not_elem_of_nil in Hin.
Qed.
Lemma bloquear_run {E} i p x e (c : Cache) : c !! i = Some e -> NoDup (titulares e) ->
  let otros := filter (fun t => t ≠ p) (titulares e) in
  let t := if bool_decide (p ∈ titulares e) then titulares e else titulares e ++ [p] in
  bloquear (E := E) i p x c =
    if bool_decide (otros = []) || negb (x || exclusivo e) then (Ok true, <[i := con_cerrojo e t (x && bool_decide (otros = []))]> c) else (Ok false, c).
Proof using Type.
  intros Hi Hn. cbv zeta. unfold bloquear. rewrite Hi. set (otros := filter _ _). set (t := if bool_decide _ then _ else _).
  assert ((0 <? lenN otros) = negb (bool_decide (otros = []))) as ->.
  { case_bool_decide as E0; [by rewrite E0|]. apply N.ltb_lt. destruct otros; [done|]. rewrite lenN_cons. lia. }
  assert (bool_decide (otros = []) = false -> x || exclusivo e = false -> x = false) as Hx by (by destruct x).
  assert (bool_decide (otros = []) = true -> lenN t = 1) as H1'.
  { intros E0%bool_decide_eq_true. unfold t. by rewrite con_uno. }
  destruct (bool_decide (otros = [])); cbn [negb andb orb]; [by rewrite H1'|]. destruct (x || exclusivo e) eqn:Ex; [done|]. cbn. by rewrite Hx.
Qed.

(** C30. On an open file, [flock] without waiting gives the exclusive lock exactly when
    nobody else holds it, and the shared one when nobody else holds it exclusively; who
    had it changes of mode without letting go; refused, it changes nothing; to let go
    always works and leaves the others; what asks for waiting is refused. *)
Theorem flock_exacto s0 s pid fd f i e op : arrancada s0 -> rtc paso s0 s -> ranura s pid fd = Some f -> clave f = Some i -> la_cache s !! i = Some e ->
  op ∈ [LOCK_SH; LOCK_EX; LOCK_SH + LOCK_NB; LOCK_EX + LOCK_NB; LOCK_UN; LOCK_UN + LOCK_NB] ->
  let otros := filter (fun t => t ≠ pid) (titulares e) in
  let con := if bool_decide (pid ∈ titulares e) then titulares e else titulares e ++ [pid] in
  let '(r, s') := sys_flock pid fd op s in
  (forall j, j ≠ i -> llave s' j = llave s j) ∧
  (r, llave s' i) =
    if decide (op = LOCK_SH ∨ op = LOCK_EX) then (Err ENOSYS, llave s i)
    else if decide (op = LOCK_SH + LOCK_NB) then if bool_decide (otros = []) || negb (exclusivo e) then (Ok 0, Some (con, false)) else (Err EAGAIN, llave s i)
    else if decide (op = LOCK_EX + LOCK_NB) then if bool_decide (otros = []) then (Ok 0, Some ([pid], true)) else (Err EAGAIN, llave s i)
    else (Ok 0, Some (otros, match otros with [] => false | _ => exclusivo e end)).
Proof using Type.
  intros Ha Hs Hf Hk He Hop otros con. pose proof (alcanza_vivos s0 s Hs (arrancada_vivos s0 Ha)) as [Hp [_ Hl]]. destruct (Hl i e He) as [Hn _].
  unfold sys_flock. rewrite bind_eq. set (m := yo ≫= _). destruct (with_fd_puesto pid fd f f i e m (Ok i) s Hp Hf) as (s1 & -> & [_ _ _ P4 _]).
  { unfold m. rewrite bind_eq. cbn [yo gets fst]. rewrite (igual_cache (con_procs true s)) by done. by destruct f; try done; injection Hk as ->. }
  rewrite (insert_id _ _ _ He) in P4. clear m Hs Ha Hf.
  assert (llave s i = Some (titulares e, exclusivo e)) as Hli by (unfold llave; by rewrite He). rewrite <- P4 in He.
  (* only the entry of [i] changes *)
  assert (forall r s', (s' = s1 ∨ exists e', s' = con_cache (fun _ => <[i := e']> (la_cache s1)) s1) -> forall q, (r : outcome Errno N, llave s' i) = q -> (forall j, j ≠ i -> llave s' j = llave s j) ∧ (r, llave s' i) = q) as Hsolo.
  { intros r s' Hs' q Hq. split; [|done]. intros j Hj. destruct Hs' as [->|[e' ->]]; unfold llave; cbn; by rewrite ?lookup_insert_ne, P4. }
  assert (llave s1 i = llave s i) as H1i by (unfold llave; by rewrite P4).
  assert (forall x, let '(r, s') := (b ← en_cache (bloquear i pid x); if b : bool then mret 0 else throw EAGAIN) s1 in (forall j, j ≠ i -> llave s' j = llave s j) ∧
    (r, llave s' i) = if bool_decide (otros = []) || negb (x || exclusivo e) then (Ok 0, Some (con, x && bool_decide (otros = []))) else (Err EAGAIN, llave s i)) as Hlock.
  { intros x. rewrite bind_eq. unfold en_cache. rewrite (bloquear_run (E := Errno) i pid x e (la_cache s1) He Hn). fold otros con. destruct (_ || _).
    - apply Hsolo; [right; by eexists|]. unfold llave. cbn. by rewrite lookup_insert_eq.
    - rewrite con_cache_igual by done. apply Hsolo; [by left|]. by rewrite H1i. }
  assert (bool_decide (otros = []) = true -> con = [pid]) as Hcon.
  { intros E0%bool_decide_eq_true. by apply con_uno. }
  assert (let '(r, s') := (modify (E := Errno) (con_cache (desbloquear i pid));; mret 0) s1 in (forall j, j ≠ i -> llave s' j = llave s j) ∧
    (r, llave s' i) = (Ok 0, Some (otros, match otros with [] => false | _ => exclusivo e end))) as Hun.
  { rewrite bind_eq. apply Hsolo; [right; exists (sin_titular pid e); unfold con_cache, con_mundo, desbloquear; by rewrite He|]. unfold llave, desbloquear. cbn. change (cache (k_disco s1)) with (la_cache s1). by rewrite He, lookup_insert_eq. }
  repeat (apply elem_of_cons in Hop as [->|Hop]); [..|by apply not_elem_of_nil in Hop].
  - apply Hsolo; [by left|]. by rewrite H1i.
  - apply Hsolo; [by left|]. by rewrite H1i.
  - specialize (Hlock false). cbn [orb andb] in Hlock. exact Hlock.
  - specialize (Hlock true). cbn [orb andb negb] in Hlock. rewrite orb_false_r in Hlock. destruct (bool_decide (otros = [])) eqn:E0; [rewrite (Hcon eq_refl) in Hlock|]; exact Hlock.
  - exact Hun.
  - exact Hun.
Qed.
End Cerrojos.

(** ** Concrete sessions *)
#[local] Existing Instances OtaArranqueTeoremas.Equipo_Vfs OtaArranqueTeoremas.Equipo_Maquina OtaArranqueTeoremas.Equipo_Spec OtaExclusion.Equipo_Disco OtaExclusion.Equipo_DiscoSpec.
Definition escrito : list (N * Peticion) := [(7, Write 1 (txt "NU")); (7, Seek 1 2 1); (7, Write 1 (txt "O y mas"))].
Definition lista_a : list str := [txt "bin"; txt "a"].
Definition abierta := (sys_open vive0 7 FcacheTeoremas.raiz ruta_a O_WRONLY (sesion Libre)).2.
Lemma sesion_entera_testigo : sys_open vive0 7 FcacheTeoremas.raiz ruta_a O_WRONLY (sesion Libre) = (Ok 1, abierta) ∧
  (exists i F, r_desc (ref_de abierta) 7 1 = Some (i, 0, true) ∧ r_fich (corre_ref escrito (ref_de abierta)).2 i = Some F ∧
   exists y, es y F ∧ let '(r, s') := sys_close vive0 7 1 (corre vive0 escrito abierta).2 in deja_fichero lista_a (txt "viejo") y (disco (mundo (sesion Libre))) (disco (mundo s')) r) ∧
  (sys_close vive0 7 1 (corre vive0 escrito abierta).2).1 = Ok 0 ∧
  fichero (disco (mundo (sys_close vive0 7 1 (corre vive0 escrito abierta).2).2)) lista_a = Some (txt "NUejO y mas").
Proof.
  assert (sys_open vive0 7 FcacheTeoremas.raiz ruta_a O_WRONLY (sesion Libre) = (Ok 1, abierta)) as Ho.
  { unfold abierta. assert ((sys_open vive0 7 FcacheTeoremas.raiz ruta_a O_WRONLY (sesion Libre)).1 = Ok 1) as E by by vm_compute. destruct (sys_open _ _ _ _ _ _). cbn in *. by rewrite E. }
  split; [exact Ho|]. split; [|split; by vm_compute].
  assert (Forall nombre_propio lista_a) as Hl by (apply (bool_decide_unpack _); by vm_compute).
  assert (abs_path FcacheTeoremas.raiz ruta_a = Some (ruta_de lista_a)) as Ha by by vm_compute.
  assert (arbol (disco (mundo (sesion Libre))) !! lista_a = Some (Some (txt "viejo"))) as Hx by by vm_compute.
  assert (caben escrito (ref_de abierta) = true) as Hts by by vm_compute.
  assert (cerrado lista_a (sesion Libre)) as Hc by (intros i e s' Hi; change (@None Entrada = Some e) in Hi; discriminate Hi).
  exact (sesion_entera OtaArranqueTeoremas.sin_averias0 vive0 7 (sesion Libre) (sesion Libre) FcacheTeoremas.raiz ruta_a lista_a (txt "viejo") 1 abierta escrito (sesion_arrancada _) (rtc_refl _ _) Hl Ha Hx ltac:(by vm_compute) Hc Ho Hts).
Defined.

Lemma flock_exacto_testigo : let s := tras abren Libre in let s1 := (sys_flock 7 1 (LOCK_EX + LOCK_NB) s).2 in
  (sys_flock 7 1 (LOCK_EX + LOCK_NB) s).1 = Ok 0 ∧ llave s1 ino_a = Some ([7], true) ∧ (sys_flock 8 1 (LOCK_SH + LOCK_NB) s1).1 = Err EAGAIN.
Proof.
  intros s s1. pose proof (flock_exacto (sesion Libre) s 7 1 (WriteBuf ino_a (OtaArranqueTeoremas.inodo [txt "bin"]) (txt "a") 0 true) ino_a
    (mkEntrada OtaArranqueTeoremas.viejo 3 false (OtaArranqueTeoremas.inodo [txt "bin"]) (txt "a") [] false) (LOCK_EX + LOCK_NB) (sesion_arrancada _) abren_alcanza) as Hf.
  specialize (Hf ltac:(by vm_compute) eq_refl ltac:(by vm_compute) ltac:(right; right; right; left)). unfold s1. destruct (sys_flock 7 1 _ s) as [r s'] eqn:E. destruct Hf as [_ Hf]. cbn in Hf. injection Hf as -> Hl. split; [done|]. split; [exact Hl|].
  replace s' with (sys_flock 7 1 (LOCK_EX + LOCK_NB) s).2 by (by rewrite E). by vm_compute.
Defined.

(** ** What does not hold *)

(** With an update armed nobody writes what it administers, but who only opened the
    file to read it writes it: [sys_pwrite] takes its descriptor and the close of a
    reader publishes without asking. Neither does [fsync] ask. *)
Definition a_de (s : Kernel (Mundo (OtaArranqueTeoremas.Equipo false false))) := fichero (disco (mundo s)) lista_a.
Definition arma (s : Kernel (Mundo (OtaArranqueTeoremas.Equipo false false))) := mkKernel (mkExclusion Armada 0) (k_disco s).
Theorem lector_publica :
  let s1 := (corre vive0 [(8, Open FcacheTeoremas.raiz ruta_a 0); (8, Pwrite 1 (txt "otro!") 0); (8, Close 1)] (arma (sesion Libre))).2 in
  let s2 := (corre vive0 [(7, Open FcacheTeoremas.raiz ruta_a O_WRONLY); (7, Write 1 (txt "otro!"))] (sesion Libre)).2 in
  let '(r, s3) := corre vive0 [(7, Fsync 1); (7, Close 1)] (arma s2) in
  administrado lista_a = true ∧ a_de (sesion Armada) = Some (txt "viejo") ∧ estado (k_excl s1) = Armada ∧ a_de s1 = Some (txt "otro!") ∧
  a_de s2 = Some (txt "viejo") ∧ r = [Ok (inl 0); Err EROFS] ∧ a_de s3 = Some (txt "otro!").
Proof. vm_compute. done. Qed.

(** A process that has a file of those open to write when another takes the
    exclusion cannot end: with the lock of the processes in hand, to close it is to ask
    for that lock. *)
Theorem salida_no_vuelve :
  let s := (corre vive0 [(7, Open FcacheTeoremas.raiz ruta_a O_WRONLY)] (sesion Libre)).2 in
  (atiende vive0 7 Exit s).1 = Ok (inl 0) ∧ (atiende vive0 7 Exit (mkKernel (mkExclusion (Dueno 8) 0) (k_disco s))).1 = Fuel.
Proof. vm_compute. done. Qed.

(** A buffer with nothing to publish has nothing when it becomes a stream: what the
    file had is lost. *)
Theorem conversion_pierde :
  let '(r, s) := corre vive0 [(7, Open FcacheTeoremas.raiz ruta_a O_WRONLY); (7, Seek 1 (Z.of_N THRESH) 0); (7, Write 1 (txt "x")); (7, Close 1)] (sesion Libre) in
  r = [Ok (inl 1); Ok (inl THRESH); Ok (inl 1); Ok (inl 0)] ∧ a_de s = Some (txt "x").
Proof. vm_compute. done. Qed.

(** A close that is refused forgets the descriptor and not the entry, whose contents
    nobody publishes any more; a file that was removed comes back when it is closed;
    and who closes keeps the lock. *)
Theorem cierres :
  let s1 := (corre vive0 [(7, Open FcacheTeoremas.raiz ruta_a O_WRONLY); (7, Write 1 (txt "otro!"))] (sesion Libre)).2 in
  let '(r1, s2) := corre vive0 [(7, Close 1)] (arma s1) in
  let '(r2, s3) := corre vive0 [(8, Open FcacheTeoremas.raiz ruta_a 0); (8, Read 1 9); (8, Close 1)] (mkKernel (mkExclusion Libre 0) (k_disco s2)) in
  let '(r4, s4) := corre vive0 [(8, Nombre (Unlink FcacheTeoremas.raiz ruta_a))] s1 in
  let '(r5, s5) := corre vive0 [(7, Close 1)] s4 in
  r1 = [Err EROFS] ∧ todos (fds (mundo s2)) = [Tty; Tty] ∧ refs_de ino_a (cache (mundo s2)) = 1 ∧ r2 = [Ok (inl 1); Ok (inr (txt "otro!")); Ok (inl 0)] ∧ a_de s3 = Some (txt "viejo") ∧
  a_de s4 = None ∧ a_de s5 = Some (txt "otro!") ∧
  (corre vive0 [(7, Flock 1 (LOCK_EX + LOCK_NB)); (7, Close 1); (7, Close 5); (8, Flock 1 (LOCK_SH + LOCK_NB))] (tras abren Libre)).1 = [Ok (inl 0); Ok (inl 0); Ok (inl 0); Err EAGAIN].
Proof. vm_compute. done. Qed.
