(* ===== verification/MemFrame.v ===== *)
(** * Physical frames

    [kernel/src/mm/frame.rs]: the allocator of physical frames, a cursor over
    the usable regions of the boot map and a list of returned frames. The frame
    type of the [x86_64] crate is a parameter. *)
From stdpp Require Import sorting.
From S2P Require Import Prelude.
Local Open Scope N_scope.

(** The part of the [x86_64] crate the allocator uses.
    [frame_at a] is [PhysFrame::containing_address(PhysAddr::new(a))], [None]
    being the panic of [PhysAddr::new]. *)
Class Fisica := {
  PhysFrame : Type;
  frame_at : N -> option PhysFrame;
  start_address : PhysFrame -> N;
}.
(** Physical addresses have at most 52 bits, and a frame is its address. *)
Class FisicaSpec `{Fisica} := {
  frame_at_ok a : a mod 4096 = 0 -> a < 2 ^ 52 -> exists f, frame_at a = Some f ∧ start_address f = a;
  start_aligned f : start_address f mod 4096 = 0 ∧ start_address f < 2 ^ 52;
  #[global] start_inj :: Inj eq eq start_address;
}.

Record MemoryRegion := mkRegion { r_start : N; r_end : N; r_usable : bool }.

(** [while cond(gap) { body(gap); gap += 4096; }] *)
Fixpoint recorre {S E} (fuel : nat) (cond : N -> M S E bool) (body : N -> M S E unit) (gap : N) : M S E unit :=
  match fuel with
  | O => no_fuel
  | S fuel =>
      c ← cond gap;
      if (c : bool) then body gap;; gap ← add64 gap 4096; recorre fuel cond body gap else mret tt
  end.

Section Marcos.
Context `{Fisica}.

Record BootInfoFrameAllocator := mkAlloc {
  regions : list MemoryRegion;
  region_idx : nat;
  next_addr : N;
  free : list PhysFrame;
  total_usable : N;
  cursor_consumed : N;
  free_ordenada : bool;
}.
Abbreviation F := (M BootInfoFrameAllocator unit).

Definition set_cursor (i : nat) (a : N) s :=
  mkAlloc (regions s) i a (free s) (total_usable s) (cursor_consumed s) (free_ordenada s).
Definition set_free (l : list PhysFrame) (o : bool) s :=
  mkAlloc (regions s) (region_idx s) (next_addr s) l (total_usable s) (cursor_consumed s) o.
Definition set_consumed (c : N) s :=
  mkAlloc (regions s) (region_idx s) (next_addr s) (free s) (total_usable s) c (free_ordenada s).

Definition frames_new (rs : list MemoryRegion) : M unit unit BootInfoFrameAllocator :=
  total ← mfold (fun acc r => n ← sub64 (r_end r) (r_start r); add64 acc (n / 4096)) 0 (filter (fun r => r_usable r = true) rs);
  mret (mkAlloc rs 0 0 [] total 0 true).

Definition es_memoria_baja (addr : N) : bool := addr <? 0x100000.

Definition push_free (frame : PhysFrame) : F unit :=
  if es_memoria_baja (start_address frame) then mret tt
  else
    s ← gets id;
    let o := match last (free s) with
             | Some l => if start_address frame <? start_address l then false else free_ordenada s
             | None => free_ordenada s
             end in
    modify (set_free (free s ++ [frame]) o).

Definition free_frames : F N :=
  s ← gets id;
  n ← sub64 (total_usable s) (cursor_consumed s);
  add64 n (lenN (free s)).
Definition total_usable_frames s : N := total_usable s.

Definition frame (a : N) : F PhysFrame := of_option panic (frame_at a).
Definition consumir (n : N) : F unit :=
  c ← gets cursor_consumed; c ← add64 c n; modify (set_consumed c).
(** A page the cursor skips goes to the free list. *)
Definition reciclar (gap : N) : F unit := f ← frame gap; push_free f;; consumir 1.
Definition siguiente_region : F unit := modify (fun s => set_cursor (S (region_idx s)) 0 s).
Definition cabe (fin gap : N) : F bool := g ← add64 gap 4096; mret (g <=? fin).

(** The loop over the regions; [None] is its end. *)
Fixpoint virgenes (fuel : nat) (count bytes align_bytes : N) : F (option PhysFrame) :=
  match fuel with
  | O => no_fuel
  | S fuel =>
      s ← gets id;
      match regions s !! region_idx s with
      | None => mret None
      | Some r =>
          if negb (r_usable r) then siguiente_region;; virgenes fuel count bytes align_bytes
          else
            let vueltas := S (N.to_nat (r_end r / 4096)) in
            base ← next_multiple_of (N.max (next_addr s) (r_start r)) 4096;
            if base <? 0x100000 then
              let hasta := N.min (r_end r) 0x100000 in
              recorre vueltas (cabe hasta) (fun _ => consumir 1) base;;
              (if r_end r <=? 0x100000 then siguiente_region
               else modify (set_cursor (region_idx s) 0x100000));;
              virgenes fuel count bytes align_bytes
            else
              aligned ← next_multiple_of base align_bytes;
              fin ← add64 aligned bytes;
              if fin <=? r_end r then
                recorre vueltas (fun gap => mret (gap <? aligned)) reciclar base;;
                modify (set_cursor (region_idx s) fin);;
                consumir count;;
                f ← frame aligned;
                mret (Some f)
              else
                recorre vueltas (cabe (r_end r)) reciclar base;;
                siguiente_region;;
                virgenes fuel count bytes align_bytes
      end
  end.

(** The length of the run that starts at [i]. *)
Fixpoint seguidos (fuel : nat) (base i count n : N) : F N :=
  match fuel with
  | O => no_fuel
  | S fuel =>
      if n <? count then
        l ← gets free;
        j ← add64 i n;
        f ← of_option panic (l !! N.to_nat j);
        d ← mul64 n 4096;
        a ← add64 base d;
        if start_address f =? a then n ← add64 n 1; seguidos fuel base i count n else mret n
      else mret n
  end.

Fixpoint buscar (fuel : nat) (count align i : N) : F (option PhysFrame) :=
  match fuel with
  | O => no_fuel
  | S fuel =>
      l ← gets free;
      fin ← add64 i count;
      if fin <=? lenN l then
        f ← of_option panic (l !! N.to_nat i);
        let base := start_address f in
        if es_memoria_baja base then i ← add64 i 1; buscar fuel count align i
        else if (4096 <? align) && negb (base mod align =? 0) then i ← add64 i 1; buscar fuel count align i
        else
          n ← seguidos (S (N.to_nat count)) base i count 1;
          if n =? count then
            modify (fun s => set_free (take (N.to_nat i) l ++ drop (N.to_nat fin) l) (free_ordenada s) s);;
            f ← frame base;
            mret (Some f)
          else i ← add64 i n; buscar fuel count align i
      else mret None
  end.

Definition por_direccion (f g : PhysFrame) : Prop := start_address f <= start_address g.
#[export] Instance por_direccion_dec f g : Decision (por_direccion f g).
Proof. unfold por_direccion. apply _. Defined.
Definition ordenar_libres : F unit :=
  s ← gets id;
  if free_ordenada s then mret tt else modify (set_free (merge_sort por_direccion (free s)) true).

Definition take_contiguous_from_free (count align_frames : N) : F (option PhysFrame) :=
  l ← gets free;
  if (count =? 0) || (lenN l <? count) then mret None
  else
    ordenar_libres;;
    align ← mul64 align_frames 4096;
    buscar (S (length l)) count align 0.

Definition take_contiguous (count align_frames : N) : F (option PhysFrame) :=
  align_bytes ← mul64 align_frames 4096;
  bytes ← mul64 count 4096;
  rs ← gets regions;
  o ← virgenes (S (2 * length rs)) count bytes align_bytes;
  match o with
  | Some f => mret (Some f)
  | None => take_contiguous_from_free count align_frames
  end.

Definition allocate_contiguous (count : N) : F (option PhysFrame) := take_contiguous count 1.
Definition allocate_2m : F (option PhysFrame) := take_contiguous 512 512.
Definition deallocate_2m (f : PhysFrame) : F unit :=
  mfor (fun i => d ← mul64 i 4096; a ← add64 (start_address f) d; f ← frame a; push_free f) (upto 512).

Definition allocate_frame : F (option PhysFrame) :=
  l ← gets free;
  match last l with
  | Some f => modify (fun s => set_free (removelast l) (free_ordenada s) s);; mret (Some f)
  | None => take_contiguous 1 1
  end.
Definition deallocate_frame (f : PhysFrame) : F unit := push_free f.
End Marcos.
