(* ===== verification/MemLibres.v ===== *)
(** * Which frames are free

    The pages of the boot map, the ones that are free, and what every operation
    of the allocator of physical frames does to them. *)
From stdpp Require Import sorting.
From S2P Require Import Prelude MemFrame.
Local Open Scope N_scope.

(** [a = m * q + r] with [r < m]. *)
Ltac divmod a m q r :=
  let Hd := fresh "Hd" in let Hm := fresh "Hm" in
  pose proof (N.div_mod a m ltac:(lia)) as Hd; pose proof (N.mod_lt a m ltac:(lia)) as Hm;
  generalize dependent (a mod m); generalize dependent (a / m); intros q r.

(** ** Pages *)
(** The whole pages of [[a, b)], from [a]. *)
Definition paginas (a b : N) : list N := (fun i => a + 4096 * i) <$> upto ((b - a) / 4096).
Definition arriba (a : N) : N := (a + 4095) / 4096 * 4096.

Lemma upto_cons n : upto (N.succ n) = 0 :: (N.succ <$> upto n).
Proof.
  unfold upto. rewrite N2Nat.inj_succ. cbn [seq fmap list_fmap]. f_equal.
  rewrite <- fmap_S_seq, <- !list_fmap_compose. apply list_fmap_ext. intros i x _. simpl. lia.
Qed.

Lemma paginas_nil a b : b < a + 4096 -> paginas a b = [].
Proof. intros Hl. unfold paginas. by rewrite N.div_small by lia. Qed.
Lemma paginas_cons a b : a + 4096 <= b -> paginas a b = a :: paginas (a + 4096) b.
Proof.
  intros Hl. unfold paginas.
  replace ((b - a) / 4096) with (N.succ ((b - (a + 4096)) / 4096)).
  - rewrite upto_cons. simpl. f_equal; [lia|]. rewrite <- list_fmap_compose. apply list_fmap_ext. intros i x _. simpl. lia.
  - replace (b - a) with (b - (a + 4096) + 1 * 4096) by lia. rewrite N.div_add by done. lia.
Qed.
Lemma paginas_length a b : lenN (paginas a b) = (b - a) / 4096.
Proof. unfold paginas, lenN, upto. rewrite !length_fmap, length_seq. lia. Qed.
Lemma elem_of_paginas x a b : x ∈ paginas a b ↔ exists i, x = a + 4096 * i ∧ x + 4096 <= b.
Proof.
  unfold paginas. rewrite list_elem_of_fmap. split.
  - intros (i & -> & Hi%elem_of_upto%lt_div_iff); [|done]. exists i. lia.
  - intros (i & -> & Hl). exists i. split; [done|]. apply elem_of_upto, lt_div_iff; lia.
Qed.
Lemma paginas_app a k b : a + 4096 * k <= b -> paginas a b = paginas a (a + 4096 * k) ++ paginas (a + 4096 * k) b.
Proof.
  revert a. induction k as [|k IH] using N.peano_ind; intros a Hl.
  { rewrite N.mul_0_r, N.add_0_r, (paginas_nil a a) by lia. done. }
  rewrite paginas_cons by lia. rewrite (paginas_cons a (a + 4096 * N.succ k)) by lia. simpl. f_equal.
  replace (a + 4096 * N.succ k) with (a + 4096 + 4096 * k) by lia. apply IH. lia.
Qed.
Lemma NoDup_paginas a b : NoDup (paginas a b).
Proof. unfold paginas, upto. apply NoDup_fmap_2; [intros x y ?; lia|]. apply NoDup_fmap_2; [intros x y ?; lia|]. apply NoDup_seq. Qed.

Lemma arriba_ge a : a <= arriba a.
Proof. unfold arriba. pose proof (N.div_mod (a + 4095) 4096 ltac:(done)). pose proof (N.mod_lt (a + 4095) 4096 ltac:(done)). lia. Qed.
Lemma arriba_lt a : arriba a < a + 4096.
Proof. unfold arriba. pose proof (N.Div0.mul_div_le (a + 4095) 4096). lia. Qed.
Lemma arriba_mod a : arriba a mod 4096 = 0.
Proof. unfold arriba. by rewrite N.Div0.mod_mul. Qed.
Lemma mult4096 a : a mod 4096 = 0 -> a = 4096 * (a / 4096).
Proof. intros Ha. pose proof (N.div_mod a 4096 ltac:(done)). lia. Qed.
Lemma arriba_le a b : a <= b -> b mod 4096 = 0 -> arriba a <= b.
Proof.
  intros Hl Hb. unfold arriba. rewrite (mult4096 b Hb) at 1. rewrite N.mul_comm.
  apply N.mul_le_mono_l. apply N.lt_succ_r, N.Div0.div_lt_upper_bound. pose proof (mult4096 b Hb). lia.
Qed.
Lemma arriba_id a : a mod 4096 = 0 -> arriba a = a.
Proof. intros Ha. apply N.le_antisymm; [by apply arriba_le|apply arriba_ge]. Qed.
Lemma paso_multiplo a b : a mod 4096 = 0 -> b mod 4096 = 0 -> a <= b -> b = a + 4096 * ((b - a) / 4096).
Proof.
  intros Ha Hb Hl. pose proof (mult4096 a Ha). pose proof (mult4096 b Hb).
  replace (b - a) with ((b / 4096 - a / 4096) * 4096) by lia. rewrite N.div_mul by done. lia.
Qed.

(** ** The usable pages of a map *)
Definition paginas_de (r : MemoryRegion) : list N :=
  if r_usable r then paginas (arriba (r_start r)) (r_end r) else [].
Definition todas (rs : list MemoryRegion) : list N := rs ≫= paginas_de.
Definition alta (a : N) : Prop := 0x100000 <= a.
#[export] Instance alta_dec a : Decision (alta a).
Proof. unfold alta. apply _. Defined.
(** The ones above the first mebibyte: those that can be given out. *)
Definition altas (rs : list MemoryRegion) : list N := filter alta (todas rs).
Definition total (rs : list MemoryRegion) : N :=
  foldl (fun acc r => acc + (r_end r - r_start r) / 4096) 0 (filter (fun r => r_usable r = true) rs).

(** Regions that do not overlap, of physical memory. *)
Record mapa_ok (rs : list MemoryRegion) : Prop := {
  mo_region : Forall (fun r => r_start r <= r_end r ∧ r_end r <= 2 ^ 52) rs;
  mo_disjuntas : NoDup (todas rs);
  mo_total : total rs < 2 ^ 52;
}.

#[local] Set Default Proof Using "Type*".
Section Libres.
Context `{FisicaSpec}.
Implicit Types s : BootInfoFrameAllocator.

Definition dirs s : list N := start_address <$> free s.
(** What the cursor has not reached. *)
Definition restan s : list N :=
  match drop (region_idx s) (regions s) with
  | r :: rs => (if r_usable r then paginas (arriba (N.max (next_addr s) (r_start r))) (r_end r) else []) ++ todas rs
  | [] => []
  end.
#[local] Arguments restan : simpl never.
Definition libres s : list N := dirs s ++ filter alta (restan s).

(** What holds between two operations. *)
Definition orden s : Prop := free_ordenada s = true -> StronglySorted N.le (dirs s).
Record bien s : Prop := {
  bi_mapa : mapa_ok (regions s);
  bi_cuenta : cursor_consumed s + lenN (restan s) = lenN (todas (regions s));
  bi_total : total_usable s = total (regions s);
  bi_next : next_addr s mod 4096 = 0 ∧ next_addr s <= 2 ^ 52;
  bi_orden : orden s;
}.
(** The frames in the hands of the rest of the kernel are [dados]. *)
Definition reparto (dados : list N) s : Prop := bien s ∧ dados ++ libres s ≡ₚ altas (regions s).

#[export] Instance reparto_proper : Proper ((≡ₚ) ==> eq ==> iff) reparto.
Proof. intros d d' Hd s s' <-. unfold reparto. by rewrite Hd. Qed.

(** ** Arithmetic of the cursor *)
Lemma next_4096 {S E} a (s : S) : a + 4096 < U64 -> next_multiple_of (E := E) a 4096 s = (Ok (arriba a), s).
Proof.
  intros Hl. unfold next_multiple_of. simpl. destruct (N.eqb_spec (a mod 4096) 0) as [Ha|Ha].
  { by rewrite arriba_id. }
  unfold add64. replace (a + (4096 - a mod 4096)) with (arriba a).
  { pose proof (arriba_lt a). by destruct (N.ltb_spec (arriba a) U64); [|lia]. }
  unfold arriba. revert Ha. divmod a 4096 q r. intros Hd Ha Hr.
  replace (a + 4095) with (r - 1 + (q + 1) * 4096) by lia.
  rewrite N.div_add by done. rewrite N.div_small by lia. lia.
Qed.
Lemma next_multiple {S E} a al (s : S) : 0 < al -> a + 4096 * al < U64 -> a mod 4096 = 0 ->
  exists x, next_multiple_of (E := E) a (al * 4096) s = (Ok x, s) ∧ a <= x ∧ x < a + 4096 * al ∧ x mod (al * 4096) = 0 ∧ x mod 4096 = 0.
Proof.
  intros Hal Hl Ha. unfold next_multiple_of. destruct (N.eqb_spec (al * 4096) 0); [lia|].
  set (m := al * 4096) in *. pose proof (N.div_mod a m ltac:(lia)) as Hd. pose proof (N.mod_lt a m ltac:(lia)) as Hm.
  assert (forall x, x mod m = 0 -> x mod 4096 = 0) as Hmm.
  { intros x Hx. pose proof (N.div_mod x m ltac:(lia)). rewrite H1, Hx, N.add_0_r. unfold m.
    rewrite (N.mul_comm al 4096), <- N.mul_assoc, N.mul_comm. by rewrite N.Div0.mod_mul. }
  destruct (N.eqb_spec (a mod m) 0) as [H0'|Hne].
  { exists a. split_and!; [done|lia|lia|done|done]. }
  exists (a + (m - a mod m)). pose proof (N.le_sub_l m (a mod m)) as Hle.
  assert ((a + (m - a mod m)) mod m = 0) as Hz.
  { replace (a + (m - a mod m)) with ((a / m + 1) * m) by lia. by rewrite N.Div0.mod_mul. }
  unfold add64. destruct (N.ltb_spec (a + (m - a mod m)) U64); [|lia]. split_and!; [done|lia|lia|done|by apply Hmm].
Qed.

(** ** The loops over pages *)
Lemma recorre_mfor {S E} (cond : N -> M S E bool) (body : N -> M S E unit) lim fuel : forall gap (s : S),
  lim + 4096 < U64 -> lenN (paginas gap lim) < N.of_nat fuel ->
  (forall k t, gap + 4096 * k <= N.max gap lim -> cond (gap + 4096 * k) (t : S) = (Ok (gap + 4096 * k + 4096 <=? lim), t)) ->
  recorre fuel cond body gap s = mfor body (paginas gap lim) s.
Proof.
  induction fuel as [|fuel IH]; intros gap s Hlim Hf Hc; [lia|]. cbn [recorre].
  rewrite bind_eq. pose proof (Hc 0 s ltac:(lia)) as Hc0. rewrite N.mul_0_r, N.add_0_r in Hc0. rewrite Hc0.
  destruct (N.leb_spec (gap + 4096) lim) as [Hl|Hl].
  2:{ by rewrite paginas_nil. }
  rewrite paginas_cons by done. rewrite (paginas_cons gap lim), lenN_cons in Hf by done. cbn [mfor]. rewrite !bind_eq.
  destruct (body gap s) as [[[]|e| |] s1]; try done. rewrite bind_eq. unfold add64.
  destruct (N.ltb_spec (gap + 4096) U64); [|lia]. cbn. apply IH; [done|lia|].
  intros k t Hk. replace (gap + 4096 + 4096 * k) with (gap + 4096 * (k + 1)) by lia. apply Hc. lia.
Qed.

Lemma frame_run a s : a mod 4096 = 0 -> a < 2 ^ 52 -> exists f, frame a s = (Ok f, s) ∧ start_address f = a.
Proof. intros Ha Hl. destruct (frame_at_ok a Ha Hl) as (f & Hf & Hs). exists f. unfold frame. by rewrite Hf. Qed.
Lemma consumir_run n s : cursor_consumed s + n < U64 -> consumir n s = (Ok tt, set_consumed (cursor_consumed s + n) s).
Proof. intros Hl. unfold consumir. rewrite bind_eq. cbn. unfold add64. rewrite bind_eq. by destruct (N.ltb_spec (cursor_consumed s + n) U64); [|lia]. Qed.

Lemma orden_cola s f o : orden s ->
  o = match last (free s) with Some l => if start_address f <? start_address l then false else free_ordenada s | None => free_ordenada s end ->
  o = true -> StronglySorted N.le (dirs s ++ [start_address f]).
Proof.
  intros Ho -> Hf. unfold orden, dirs in *. destruct (last (free s)) as [l|] eqn:El.
  2:{ apply last_None in El. rewrite El. simpl. repeat constructor. }
  destruct (N.ltb_spec (start_address f) (start_address l)) as [|Hle]; [done|]. specialize (Ho Hf).
  apply last_Some in El as (l' & El). rewrite El, fmap_app in *. simpl in *.
  apply StronglySorted_app_2; [|done|repeat constructor].
  intros x y Hx Hy. apply list_elem_of_singleton in Hy. subst y. apply elem_of_app in Hx as [Hx|Hx]; [|apply list_elem_of_singleton in Hx; by subst].
  pose proof (StronglySorted_app_1_elem_of N.le _ _ x _ Ho Hx ltac:(by left)). lia.
Qed.

Lemma push_free_run f s : alta (start_address f) -> exists o, push_free f s = (Ok tt, set_free (free s ++ [f]) o s) ∧
  (orden s -> o = true -> StronglySorted N.le (dirs s ++ [start_address f])).
Proof.
  intros Ha. unfold push_free, es_memoria_baja. destruct (N.ltb_spec (start_address f) 0x100000); [unfold alta in Ha; lia|].
  eexists. split; [done|]. intros Ho. by apply orden_cola.
Qed.

(** Nothing but the list of free frames, its mark and the count change. *)
Definition mismo_cursor s s' : Prop :=
  regions s' = regions s ∧ region_idx s' = region_idx s ∧ next_addr s' = next_addr s ∧ total_usable s' = total_usable s.
Definition reciclable (a : N) : Prop := alta a ∧ a mod 4096 = 0 ∧ a < 2 ^ 52.

Lemma reciclar_run l : forall s, Forall reciclable l -> cursor_consumed s + lenN l < U64 -> orden s ->
  exists s', mfor reciclar l s = (Ok tt, s') ∧ dirs s' = dirs s ++ l ∧ mismo_cursor s s' ∧
    cursor_consumed s' = cursor_consumed s + lenN l ∧ orden s'.
Proof.
  induction l as [|a l IH]; intros s Hl Hc Ho.
  { exists s. split_and!; try done; [by rewrite app_nil_r|rewrite lenN_nil; lia]. }
  apply Forall_cons in Hl as [(Hal & Ham & Hab) Hl]. rewrite lenN_cons in *.
  destruct (frame_run a s Ham Hab) as (f & Hf & Hfa). cbn [mfor].
  assert (reciclar a s = (consumir 1 ≫= fun _ => mret tt) (push_free f s).2 ∧ alta (start_address f)) as [Hr Hal'].
  { subst a. split; [|done]. unfold reciclar. rewrite bind_eq, Hf. rewrite bind_eq.
    destruct (push_free_run f s Hal) as (o & -> & _). cbn [snd]. rewrite bind_eq. rewrite consumir_run; [done|]. cbn. lia. }
  destruct (push_free_run f s Hal') as (o & Hp & Hos). rewrite Hp in Hr. cbn [snd] in Hr.
  rewrite bind_eq in Hr. rewrite consumir_run in Hr by (cbn; lia). cbn in Hr.
  rewrite bind_eq, Hr. cbn.
  destruct (IH (set_consumed (cursor_consumed s + 1) (set_free (free s ++ [f]) o s)) Hl) as (s' & -> & Hd & (H1 & H2 & H3 & H4) & Hc' & Ho').
  - cbn. lia.
  - intros Ht. unfold dirs. cbn. rewrite fmap_app. cbn. by apply Hos.
  - exists s'. split; [done|]. unfold dirs in *. cbn in *. rewrite fmap_app in Hd. cbn in Hd. rewrite Hfa, <- (assoc_L (++)) in Hd.
    split_and!; try done. lia.
Qed.

Lemma consumir_run_l (l : list N) : forall s, cursor_consumed s + lenN l < U64 ->
  mfor (fun _ => consumir 1) l s = (Ok tt, set_consumed (cursor_consumed s + lenN l) s).
Proof.
  induction l as [|a l IH]; intros s Hc; cbn [mfor].
  { rewrite lenN_nil, N.add_0_r. by destruct s. }
  rewrite lenN_cons in *. rewrite bind_eq, consumir_run by lia. cbv beta iota.
  rewrite IH by (cbn [cursor_consumed set_consumed]; lia). unfold set_consumed. cbn [cursor_consumed]. by rewrite N.add_assoc.
Qed.

(** ** The cursor moves on *)
(** It leaves behind low pages, pages that go to the list and pages given
    out. *)
Record avanza s (bajas rec dad : list N) s' : Prop := {
  av_regions : regions s' = regions s;
  av_total : total_usable s' = total_usable s;
  av_restan : restan s = bajas ++ rec ++ dad ++ restan s';
  av_dirs : dirs s' = dirs s ++ rec;
  av_consumed : cursor_consumed s' = cursor_consumed s + lenN (bajas ++ rec ++ dad);
  av_bajas : Forall (fun a => ¬ alta a) bajas;
  av_altas : Forall alta (rec ++ dad);
  av_next : next_addr s' mod 4096 = 0 ∧ next_addr s' <= 2 ^ 52;
  av_orden : orden s';
}.
Lemma filter_todos {A} (P : A -> Prop) `{!forall x, Decision (P x)} l : Forall P l -> filter P l = l.
Proof. induction 1 as [|x l Hx _ IH]; [done|]. by rewrite filter_cons_True, IH. Qed.
Lemma filter_ninguno {A} (P : A -> Prop) `{!forall x, Decision (P x)} l : Forall (fun x => ¬ P x) l -> filter P l = [].
Proof. induction 1 as [|x l Hx _ IH]; [done|]. by rewrite filter_cons_False. Qed.

Lemma avanza_bien s bajas rec dad s' : bien s -> avanza s bajas rec dad s' -> bien s' ∧ libres s ≡ₚ dad ++ libres s'.
Proof.
  intros [H1 H2 H3 H4 H5] [A1 A2 A3 A4 A5 A6 A7 A8 A9]. split.
  - split; [by rewrite A1| |by rewrite A2, A1|done|done]. rewrite A1, <- H2, A3, A5, !lenN_app. lia.
  - unfold libres. rewrite A3, A4, !filter_app, (filter_ninguno _ _ A6).
    apply Forall_app in A7 as [A7 A7']. rewrite !filter_todos by done. simpl.
    rewrite <- !(assoc_L (++)). rewrite (assoc_L (++) rec dad), (Permutation_app_comm rec dad). solve_Permutation.
Qed.

Lemma restan_at s r : regions s !! region_idx s = Some r ->
  restan s = (if r_usable r then paginas (arriba (N.max (next_addr s) (r_start r))) (r_end r) else []) ++ todas (drop (S (region_idx s)) (regions s)).
Proof. intros Hr. unfold restan. by rewrite (drop_S _ _ _ Hr). Qed.
Lemma restan_siguiente i s : restan (set_cursor (S i) 0 s) = todas (drop (S i) (regions s)).
Proof.
  unfold restan. cbn. destruct (drop (S i) (regions s)) as [|r rs]; [done|]. cbn. unfold paginas_de. by rewrite N.max_0_l.
Qed.
Lemma todas_lookup rs i r : rs !! i = Some r -> lenN (paginas_de r) <= lenN (todas rs).
Proof.
  intros Hr. rewrite <- (take_drop_middle rs i r Hr). unfold todas. rewrite bind_app, bind_cons, !lenN_app. lia.
Qed.
Lemma todas_total rs : lenN (todas rs) <= total rs.
Proof.
  unfold total. enough (forall acc, acc + lenN (todas rs) <= foldl (fun acc r => acc + (r_end r - r_start r) / 4096) acc (filter (fun r => r_usable r = true) rs)) as Hg.
  { specialize (Hg 0). lia. }
  induction rs as [|r rs IH]; intros acc; [change (acc + 0 <= acc); lia|].
  unfold todas in *. rewrite bind_cons, lenN_app. unfold paginas_de at 1.
  destruct (r_usable r) eqn:Er.
  - rewrite filter_cons_True by done. cbn [foldl]. etransitivity; [|apply IH]. rewrite paginas_length.
    pose proof (arriba_ge (r_start r)). pose proof (N.Div0.div_le_mono (r_end r - arriba (r_start r)) (r_end r - r_start r) 4096 ltac:(lia)). lia.
  - rewrite filter_cons_False by (by rewrite Er). etransitivity; [|apply IH]. rewrite lenN_nil. lia.
Qed.
Lemma bien_cuenta s : bien s -> cursor_consumed s + lenN (restan s) < U64.
Proof. intros [[_ _ Ht] H2 _ _ _]. rewrite H2. pose proof (todas_total (regions s)). assert (2 ^ 52 < U64) by done. lia. Qed.

(** ** One region *)
(** The run of [n] pages from [a]. *)
Definition corrida (a n : N) : list N := paginas a (a + 4096 * n).

Lemma cabe_run lim gap s : gap + 4096 < U64 -> cabe lim gap s = (Ok (gap + 4096 <=? lim), s).
Proof. intros Hl. unfold cabe, add64. by destruct (N.ltb_spec (gap + 4096) U64); [|lia]. Qed.
Lemma vueltas_bastan r a lim : lim <= r_end r -> lenN (paginas a lim) < N.of_nat (S (N.to_nat (r_end r / 4096))).
Proof. intros Hl. rewrite paginas_length. pose proof (N.Div0.div_le_mono (lim - a) (r_end r) 4096 ltac:(lia)). lia. Qed.
Lemma region_ok s i r : bien s -> regions s !! i = Some r -> r_start r <= r_end r ∧ r_end r <= 2 ^ 52.
Proof. intros [[Hm _ _] _ _ _ _] Hr. by apply (Forall_lookup_1 _ _ _ _ Hm Hr). Qed.

Lemma recorre_cabe lim fuel body base s : lim <= 2 ^ 52 -> base <= 2 ^ 52 -> lenN (paginas base lim) < N.of_nat fuel ->
  recorre fuel (cabe lim) body base s = mfor body (paginas base lim) s.
Proof. intros Hl Hb Hf. assert (2 ^ 52 + 8192 < U64) by done. apply recorre_mfor; [lia|done|]. intros k t Hk. apply cabe_run. lia. Qed.

(** Skipping the first mebibyte. *)
Lemma vuelta_baja s r base : bien s -> regions s !! region_idx s = Some r -> r_usable r = true ->
  base = arriba (N.max (next_addr s) (r_start r)) -> base < 0x100000 ->
  let hasta := N.min (r_end r) 0x100000 in
  exists bajas s', recorre (S (N.to_nat (r_end r / 4096))) (cabe hasta) (fun _ => consumir 1) base s = (Ok tt, s') ∧ mismo_cursor s s' ∧
    avanza s bajas [] [] (if r_end r <=? 0x100000 then set_cursor (S (region_idx s)) 0 s' else set_cursor (region_idx s) 0x100000 s').
Proof.
  intros Hb Hr Hu Hbase Hlow hasta. destruct (region_ok _ _ _ Hb Hr) as [Hse He].
  set (bajas := paginas base hasta). assert (restan s = paginas base (r_end r) ++ todas (drop (S (region_idx s)) (regions s))) as Hre.
  { rewrite (restan_at s r Hr), Hu. by subst base. }
  assert (exists cola, paginas base (r_end r) = bajas ++ cola ∧
    cola = if r_end r <=? 0x100000 then [] else paginas 0x100000 (r_end r)) as (cola & Hcola & Hcola').
  { unfold bajas, hasta. destruct (N.leb_spec (r_end r) 0x100000) as [Hl|Hl]; eexists; (split; [|done]).
    - by rewrite N.min_l, app_nil_r by done.
    - rewrite N.min_r by lia. assert (base mod 4096 = 0) as Hbm by (subst base; apply arriba_mod).
      pose proof (paso_multiplo base 0x100000 Hbm ltac:(done) ltac:(lia)) as Hp. rewrite Hp at 1 2. apply paginas_app. rewrite <- Hp. lia. }
  assert (cursor_consumed s + lenN bajas < U64).
  { pose proof (bien_cuenta s Hb) as Hc. rewrite Hre, Hcola, !lenN_app in Hc. lia. }
  exists bajas, (set_consumed (cursor_consumed s + lenN bajas) s). split.
  { assert (hasta <= r_end r) by apply N.le_min_l. assert (0x100000 < 2 ^ 52) by done.
    rewrite recorre_cabe by (try apply vueltas_bastan; lia). by apply consumir_run_l. }
  split; [done|].
  assert (Forall (fun a => ¬ alta a) bajas) as Hbajas.
  { apply Forall_forall. intros a (k & _ & Ha)%elem_of_paginas. unfold alta, hasta in *. lia. }
  destruct Hb as [Hb1 Hb2 Hb3 Hb4 Hb5].
  destruct (N.leb_spec (r_end r) 0x100000) as [Hl|Hl]; split; try done.
  - rewrite restan_siguiente. cbn. rewrite Hre, Hcola, Hcola', app_nil_r. done.
  - unfold dirs. cbn. by rewrite app_nil_r.
  - cbn. by rewrite app_nil_r.
  - rewrite Hre, Hcola, Hcola', (restan_at _ r) by done. cbn. rewrite Hu.
    pose proof (arriba_ge (N.max (next_addr s) (r_start r))). rewrite N.max_l by lia. by rewrite (assoc_L (++)).
  - unfold dirs. cbn. by rewrite app_nil_r.
  - cbn. by rewrite app_nil_r.
Qed.

(** The request fits: the gap before it goes to the list. *)
Lemma vuelta_cabe s r base aligned count : bien s -> regions s !! region_idx s = Some r -> r_usable r = true ->
  base = arriba (N.max (next_addr s) (r_start r)) -> 0x100000 <= base -> base <= aligned -> aligned mod 4096 = 0 ->
  0 < count -> aligned + 4096 * count <= r_end r ->
  exists s' rec, recorre (S (N.to_nat (r_end r / 4096))) (fun gap => mret (gap <? aligned)) reciclar base s = (Ok tt, s') ∧
    cursor_consumed s' + count < U64 ∧ mismo_cursor s s' ∧
    avanza s [] rec (corrida aligned count) (set_consumed (cursor_consumed s' + count) (set_cursor (region_idx s) (aligned + 4096 * count) s')).
Proof.
  intros Hb Hr Hu Hbase Halta Hba Ham Hc Hfin. destruct (region_ok _ _ _ Hb Hr) as [Hse He].
  assert (base mod 4096 = 0) as Hbm by (subst base; apply arriba_mod).
  set (rec := paginas base aligned). set (fin := aligned + 4096 * count) in *.
  pose proof (paso_multiplo base aligned Hbm Ham Hba) as Hp.
  assert (restan s = rec ++ corrida aligned count ++ paginas fin (r_end r) ++ todas (drop (S (region_idx s)) (regions s))) as Hre.
  { rewrite (restan_at s r Hr), Hu, <- Hbase. rewrite !(assoc_L (++)). f_equal. rewrite <- (assoc_L (++)). unfold corrida, fin.
    rewrite <- paginas_app by done. unfold rec. rewrite Hp at 1 2. apply paginas_app. rewrite <- Hp. lia. }
  assert (cursor_consumed s + lenN rec + count < U64) as Hcc.
  { pose proof (bien_cuenta s Hb) as Hcc. rewrite Hre, !lenN_app in Hcc. unfold corrida in Hcc. rewrite (paginas_length aligned) in Hcc.
    replace (aligned + 4096 * count - aligned) with (count * 4096) in Hcc by lia. rewrite N.div_mul in Hcc by done. lia. }
  assert (Forall reciclable rec) as Hrec.
  { apply Forall_forall. intros a (k & -> & Ha)%elem_of_paginas. split_and!; [unfold alta; lia| |lia].
    rewrite (mult4096 base Hbm), <- N.mul_add_distr_l, N.mul_comm. by rewrite N.Div0.mod_mul. }
  destruct (reciclar_run rec s Hrec ltac:(lia) (bi_orden _ Hb)) as (s' & Hrun & Hd & (H1 & H2 & H3 & H4) & Hc' & Ho).
  exists s', rec. split_and!; [|lia|done|].
  { rewrite <- Hrun. assert (2 ^ 52 + 8192 < U64) by done. apply recorre_mfor; [lia|apply vueltas_bastan; lia|].
    intros k t Hk. destruct (N.ltb_spec (base + 4096 * k) aligned) as [Hl|Hl].
    - destruct (N.leb_spec (base + 4096 * k + 4096) aligned) as [|Hl']; [done|]. generalize dependent ((aligned - base) / 4096). intros q. lia.
    - by destruct (N.leb_spec (base + 4096 * k + 4096) aligned); [lia|]. }
  split; cbn; try done.
  - rewrite Hre. f_equal. f_equal. rewrite (restan_at _ r) by (cbn; by rewrite ?H1). cbn. rewrite Hu, H1.
    pose proof (arriba_ge (N.max (next_addr s) (r_start r))). rewrite N.max_l by lia. f_equal. f_equal.
    symmetry. apply arriba_id. unfold fin. rewrite (N.mul_comm 4096), N.Div0.mod_add. done.
  - rewrite Hc', lenN_app. unfold corrida. rewrite (paginas_length aligned).
    replace (aligned + 4096 * count - aligned) with (count * 4096) by lia. rewrite N.div_mul by done. lia.
  - apply Forall_app. split; [eapply Forall_impl; [exact Hrec|by intros a [? _]]|].
    apply Forall_forall. intros a (k & -> & Ha)%elem_of_paginas. unfold alta. lia.
  - split; [|lia]. unfold fin. by rewrite (N.mul_comm 4096), N.Div0.mod_add.
Qed.

(** It does not: the rest of the region goes to the list. *)
Lemma vuelta_no_cabe s r base : bien s -> regions s !! region_idx s = Some r -> r_usable r = true ->
  base = arriba (N.max (next_addr s) (r_start r)) -> 0x100000 <= base -> base <= 2 ^ 52 ->
  exists s' rec, recorre (S (N.to_nat (r_end r / 4096))) (cabe (r_end r)) reciclar base s = (Ok tt, s') ∧ mismo_cursor s s' ∧
    avanza s [] rec [] (set_cursor (S (region_idx s)) 0 s').
Proof.
  intros Hb Hr Hu Hbase Halta Hb52. destruct (region_ok _ _ _ Hb Hr) as [Hse He].
  assert (base mod 4096 = 0) as Hbm by (subst base; apply arriba_mod).
  set (rec := paginas base (r_end r)).
  assert (restan s = rec ++ todas (drop (S (region_idx s)) (regions s))) as Hre.
  { by rewrite (restan_at s r Hr), Hu, <- Hbase. }
  assert (Forall reciclable rec) as Hrec.
  { apply Forall_forall. intros a (k & -> & Ha)%elem_of_paginas. split_and!; [unfold alta; lia| |lia].
    rewrite (mult4096 base Hbm), <- N.mul_add_distr_l, N.mul_comm. by rewrite N.Div0.mod_mul. }
  assert (cursor_consumed s + lenN rec < U64) as Hcc.
  { pose proof (bien_cuenta s Hb) as Hcc. rewrite Hre, !lenN_app in Hcc. lia. }
  destruct (reciclar_run rec s Hrec Hcc (bi_orden _ Hb)) as (s' & Hrun & Hd & (H1 & H2 & H3 & H4) & Hc' & Ho).
  exists s', rec. split_and!; [|done|].
  { rewrite <- Hrun. apply recorre_cabe; [done|done|by apply vueltas_bastan]. }
  split; cbn; try done.
  - by rewrite restan_siguiente, H1.
  - by rewrite app_nil_r.
  - rewrite app_nil_r. eapply Forall_impl; [exact Hrec|by intros a [? _]].
Qed.

(** ** The loop over the regions *)
Definition medida s : nat := 2 * (length (regions s) - region_idx s) - (if next_addr s <? 0x100000 then 0 else 1).
(** What a request of [count] pages does to the free ones. *)
Definition concede (count align : N) s (o : option PhysFrame) s' : Prop :=
  bien s' ∧ regions s' = regions s ∧
  match o with
  | Some f => libres s ≡ₚ corrida (start_address f) count ++ libres s' ∧ start_address f mod align = 0
  | None => libres s ≡ₚ libres s'
  end.
Lemma concede_tras count align s s1 o s' : libres s ≡ₚ libres s1 -> regions s1 = regions s -> concede count align s1 o s' -> concede count align s o s'.
Proof. intros Hl Hr (H1 & H2 & H3). split; [done|]. split; [by rewrite H2|]. destruct o; [|by rewrite Hl]. by rewrite Hl. Qed.

Lemma wp_run {S E A} Q (m : M S E A) (a : A) (s s1 : S) (Φ : A -> S -> Prop) : m s = (Ok a, s1) -> Φ a s1 -> wp Q m Φ s.
Proof. unfold wp. by intros ->. Qed.

Lemma virgenes_spec count al fuel : 0 < count -> 0 < al -> 4096 * count + 4096 * al + 2 ^ 53 < U64 -> forall s, bien s -> (medida s < fuel)%nat ->
  wp (fun _ => False) (virgenes fuel count (count * 4096) (al * 4096))
    (fun o s' => concede count (al * 4096) s o s' ∧ (o = None -> restan s' = [])) s.
Proof.
  intros Hcount Hal Hbig. assert (2 ^ 52 + 2 ^ 52 = 2 ^ 53) as H52 by done.
  induction fuel as [|fuel IH]; intros s Hb Hf; [lia|]. cbn [virgenes].
  assert (forall s1 bajas rec, avanza s bajas rec [] s1 -> (medida s1 < fuel)%nat ->
    wp (fun _ => False) (virgenes fuel count (count * 4096) (al * 4096))
      (fun o s' => concede count (al * 4096) s o s' ∧ (o = None -> restan s' = [])) s1) as Hsigue.
  { intros s1 bajas rec Ha Hm. destruct (avanza_bien _ _ _ _ _ Hb Ha) as [Hb1 Hl1].
    eapply wp_mono; [by apply IH|done|]. intros o s' [Hc Hn]. split; [|done]. eapply concede_tras; [exact Hl1|by apply (av_regions _ _ _ _ _ Ha)|done]. }
  apply wp_bind, wp_gets. destruct (regions s !! region_idx s) as [r|] eqn:Er; cbn [id].
  2:{ unfold id. rewrite Er. apply wp_ret. assert (restan s = []) as Hn.
      { unfold restan. by rewrite drop_ge by by apply lookup_ge_None_1. }
      by split. }
  unfold id. rewrite Er. pose proof (lookup_lt_Some _ _ _ Er) as Hlt.
  destruct (r_usable r) eqn:Eu; cbn [negb].
  2:{ apply wp_bind, wp_modify. apply (Hsigue _ [] []).
      - destruct Hb as [Hb1 Hb2 Hb3 Hb4 Hb5]. split; try done; cbn.
        + by rewrite restan_siguiente, (restan_at s r Er), Eu.
        + by rewrite app_nil_r.
        + rewrite N.add_0_r. done.
      - unfold medida in *. cbn. destruct (next_addr s <? 0x100000); lia. }
  destruct (region_ok _ _ _ Hb Er) as [Hse He]. destruct (bi_next _ Hb) as [_ Hn52].
  set (base := arriba (N.max (next_addr s) (r_start r))).
  assert (base <= 2 ^ 52) as Hb52 by (apply arriba_le; [lia|done]).
  apply wp_bind. eapply wp_run; [apply next_4096; lia|]. fold base.
  destruct (N.ltb_spec base 0x100000) as [Hlow|Halta].
  - destruct (vuelta_baja s r base Hb Er Eu eq_refl Hlow) as (bajas & s1 & Hrun & (H1 & H2 & H3 & H4) & Hav).
    apply wp_bind. eapply wp_run; [exact Hrun|]. apply wp_bind.
    pose proof (arriba_ge (N.max (next_addr s) (r_start r))) as Hag. fold base in Hag.
    destruct (N.leb_spec (r_end r) 0x100000).
    + unfold siguiente_region. apply wp_modify. rewrite H2. apply (Hsigue _ bajas []); [done|].
      unfold medida in *. cbn. rewrite H1. destruct (next_addr s <? 0x100000); lia.
    + apply wp_modify. apply (Hsigue _ bajas []); [done|]. unfold medida in *. cbn. rewrite H1.
      destruct (N.ltb_spec (next_addr s) 0x100000); lia.
  - destruct (next_multiple (E := unit) base al s Hal ltac:(lia) (arriba_mod _)) as (aligned & Hrun & Hba & Hau & Hal1 & Hal2).
    apply wp_bind. eapply wp_run; [exact Hrun|]. apply wp_bind, wp_add64; [lia|].
    destruct (N.leb_spec (aligned + count * 4096) (r_end r)) as [Hfit|Hno].
    + destruct (vuelta_cabe s r base aligned count Hb Er Eu eq_refl Halta Hba Hal2 Hcount ltac:(lia)) as (s1 & rec & Hr1 & Hc1 & (H1 & H2 & H3 & H4) & Hav).
      apply wp_bind. eapply wp_run; [exact Hr1|]. apply wp_bind, wp_modify. apply wp_bind.
      eapply wp_run; [apply consumir_run; done|]. apply wp_bind.
      destruct (frame_run aligned (set_consumed (cursor_consumed s1 + count) (set_cursor (region_idx s) (aligned + count * 4096) s1)) Hal2 ltac:(lia)) as (f & Hfr & Hfa).
      eapply wp_run; [exact Hfr|]. apply wp_ret. rewrite (N.mul_comm count 4096).
      destruct (avanza_bien _ _ _ _ _ Hb Hav) as [Hb1 Hl1]. split; [|done]. split; [done|]. split; [done|]. by rewrite Hfa.
    + destruct (vuelta_no_cabe s r base Hb Er Eu eq_refl Halta Hb52) as (s1 & rec & Hr1 & (H1 & H2 & H3 & H4) & Hav).
      apply wp_bind. eapply wp_run; [exact Hr1|]. apply wp_bind. unfold siguiente_region. apply wp_modify. rewrite H2.
      apply (Hsigue _ [] rec); [done|]. unfold medida in *. cbn. rewrite H1. destruct (next_addr s <? 0x100000); lia.
Qed.
End Libres.
