(* ===== verification/MemContiguo.v ===== *)
(** * Contiguous frames from the free list

    The search of [take_contiguous_from_free] finds a run exactly when there is
    one, and what each operation of the allocator does to the free frames. *)
From stdpp Require Import sorting.
From S2P Require Import Prelude MemFrame MemLibres.
Local Open Scope N_scope.

(** ** Runs in a sorted list *)
Lemma elem_of_corrida x a n : x ∈ corrida a n ↔ exists k, k < n ∧ x = a + 4096 * k.
Proof.
  unfold corrida. rewrite elem_of_paginas. split; intros (k & H1 & H2); exists k; lia.
Qed.
Lemma corrida_0 a : corrida a 0 = [].
Proof. unfold corrida. by rewrite paginas_nil by lia. Qed.
Lemma corrida_succ a n : corrida a (N.succ n) = a :: corrida (a + 4096) n.
Proof. unfold corrida. rewrite paginas_cons by lia. do 2 f_equal. lia. Qed.
Lemma NoDup_corrida a n : NoDup (corrida a n).
Proof. apply NoDup_paginas. Qed.

Lemma corrida_tramo (l : list N) n : forall i a,
  (forall k, k < N.of_nat n -> l !! (i + N.to_nat k)%nat = Some (a + 4096 * k)) -> take n (drop i l) = corrida a (N.of_nat n).
Proof.
  induction n as [|n IH]; intros i a Hl; [by rewrite corrida_0|]. rewrite Nat2N.inj_succ, corrida_succ.
  pose proof (Hl 0 ltac:(lia)) as H0. rewrite Nat.add_0_r, N.mul_0_r, N.add_0_r in H0.
  rewrite (drop_S _ _ _ H0). simpl. f_equal. apply IH. intros k Hk.
  specialize (Hl (k + 1) ltac:(lia)). replace (S i + N.to_nat k)%nat with (i + N.to_nat (k + 1))%nat by lia. rewrite Hl. f_equal. lia.
Qed.

Section Orden.
Context (l : list N) (Ho : StronglySorted N.le l) (Hnd : NoDup l) (Hm : Forall (fun a => a mod 4096 = 0) l).
#[local] Set Default Proof Using "All".

Lemma sorted_lookup i j x y : l !! i = Some x -> l !! j = Some y -> (i < j)%nat -> x < y.
Proof.
  intros Hi Hj Hij. assert (x <= y).
  { rewrite <- (take_drop j l) in Ho, Hi. apply (StronglySorted_app_1_elem_of N.le _ _ x y Ho).
    - apply list_elem_of_lookup_2 with i. rewrite lookup_app_l in Hi; [done|]. apply lookup_lt_Some in Hj. rewrite length_take. lia.
    - rewrite (drop_S _ _ _ Hj). left. }
  assert (x <> y) by (intros ->; pose proof (proj1 (NoDup_alt _) Hnd _ _ _ Hi Hj); lia). lia.
Qed.
Lemma sorted_index i j x y : l !! i = Some x -> l !! j = Some y -> x < y -> (i < j)%nat.
Proof.
  intros Hi Hj Hxy. destruct (lt_eq_lt_dec i j) as [[?| ->]|Hgt]; [done|simplify_eq; lia|].
  pose proof (sorted_lookup _ _ _ _ Hj Hi Hgt). lia.
Qed.

(** A run takes consecutive places. *)
Lemma corrida_cabe_en j a n : l !! j = Some a -> 0 < n -> corrida a n ⊆ l -> N.of_nat j + n <= lenN l.
Proof.
  intros Hj Hn Hr. assert (forall k, k < n -> exists m, (j + N.to_nat k <= m)%nat ∧ l !! m = Some (a + 4096 * k)) as Hk.
  { intros k. induction k as [|k IH] using N.peano_ind; intros Hk.
    - exists j. rewrite N.mul_0_r, N.add_0_r. split; [lia|done].
    - destruct (IH ltac:(lia)) as (m & Hm1 & Hm2).
      assert (a + 4096 * N.succ k ∈ l) as Hin by (apply Hr, elem_of_corrida; eauto).
      apply list_elem_of_lookup_1 in Hin as (m' & Hm'). exists m'. split; [|done].
      pose proof (sorted_index _ _ _ _ Hm2 Hm' ltac:(lia)). lia. }
  destruct (Hk (n - 1) ltac:(lia)) as (m & Hm1 & Hm2). apply lookup_lt_Some in Hm2. unfold lenN. lia.
Qed.

(** Where a run stops short, the runs that start within it stop too. *)
Lemma corte_de_corrida i base n y : (forall k, k < n -> l !! (i + N.to_nat k)%nat = Some (base + 4096 * k)) -> 0 < n ->
  l !! (i + N.to_nat n)%nat = Some y -> y ≠ base + 4096 * n -> base + 4096 * n ∉ l.
Proof.
  intros Hk Hn Hy Hne Hin. apply list_elem_of_lookup_1 in Hin as (m & Hm').
  pose proof (Hk (n - 1) ltac:(lia)) as Hprev.
  pose proof (sorted_index _ _ _ _ Hprev Hm' ltac:(lia)) as Hlt.
  pose proof (sorted_lookup _ _ _ _ Hprev Hy ltac:(lia)) as Hlt2.
  destruct (decide (m = (i + N.to_nat n)%nat)) as [->|Hmn]; [congruence|].
  pose proof (sorted_lookup _ _ _ _ Hy Hm' ltac:(lia)) as Hlt3.
  pose proof (Forall_lookup_1 _ _ _ _ Hm Hy) as Hym. pose proof (Forall_lookup_1 _ _ _ _ Hm Hm') as Hm2. cbv beta in Hym, Hm2.
  pose proof (mult4096 _ Hym). pose proof (mult4096 _ Hm2). lia.
Qed.
End Orden.

#[local] Set Default Proof Using "Type*".
Section Buscar.
Context `{FisicaSpec}.
Implicit Types s : BootInfoFrameAllocator.

Lemma dirs_lookup s i a : dirs s !! i = Some a -> exists f, free s !! i = Some f ∧ start_address f = a.
Proof. unfold dirs. intros Hd. apply list_lookup_fmap_Some_1 in Hd as (f & -> & Hf). eauto. Qed.
Lemma dirs_len s : lenN (dirs s) = lenN (free s).
Proof. unfold dirs, lenN. by rewrite length_fmap. Qed.
Lemma dirs_mod s : Forall (fun a => a mod 4096 = 0) (dirs s).
Proof. unfold dirs. apply Forall_fmap, Forall_forall. intros f _. apply start_aligned. Qed.

Lemma seguidos_spec base i count s fuel : i + count <= lenN (free s) -> i + count < U64 -> base + 4096 * count < U64 ->
  forall n, 0 < n -> n <= count -> (N.to_nat (count - n) < fuel)%nat ->
  (forall k, k < n -> dirs s !! (N.to_nat i + N.to_nat k)%nat = Some (base + 4096 * k)) ->
  exists n', seguidos fuel base i count n s = (Ok n', s) ∧ n <= n' ∧ n' <= count ∧
    (forall k, k < n' -> dirs s !! (N.to_nat i + N.to_nat k)%nat = Some (base + 4096 * k)) ∧
    (n' < count -> exists y, dirs s !! (N.to_nat i + N.to_nat n')%nat = Some y ∧ y ≠ base + 4096 * n').
Proof.
  intros Hlen Hi64 Hb64. induction fuel as [|fuel IH]; intros n Hn Hnc Hf Hk; [lia|]. cbn [seguidos].
  destruct (N.ltb_spec n count) as [Hlt|Hge].
  2:{ exists n. split_and!; try done; lia. }
  rewrite bind_eq. cbn [gets]. unfold gets. rewrite bind_eq. unfold add64 at 1.
  destruct (N.ltb_spec (i + n) U64); [|lia]. cbn [mret M_ret]. unfold mret, M_ret.
  destruct (lookup_lt_is_Some_2 (dirs s) (N.to_nat i + N.to_nat n)%nat) as [y Hy].
  { pose proof (dirs_len s). unfold lenN in *. lia. }
  destruct (dirs_lookup _ _ _ Hy) as (f & Hfr & Hfy).
  replace (N.to_nat (i + n)) with (N.to_nat i + N.to_nat n)%nat by lia. rewrite Hfr. cbn [of_option]. rewrite bind_eq.
  unfold mret, M_ret. rewrite bind_eq. unfold mul64. destruct (N.ltb_spec (n * 4096) U64); [|lia]. unfold mret, M_ret.
  rewrite bind_eq. unfold add64 at 1. destruct (N.ltb_spec (base + n * 4096) U64); [|lia]. unfold mret, M_ret.
  rewrite Hfy. destruct (N.eqb_spec y (base + n * 4096)) as [->|Hne].
  - rewrite bind_eq. unfold add64 at 1. destruct (N.ltb_spec (n + 1) U64); [|lia]. unfold mret, M_ret.
    destruct (IH (n + 1)) as (n' & Hr & H1' & H2' & H3' & H4'); [lia|lia|lia| |].
    { intros k Hkn. destruct (decide (k = n)) as [->|]; [rewrite Hy; f_equal; lia|apply Hk; lia]. }
    exists n'. split_and!; try done. lia.
  - exists n. split_and!; [done|lia|lia|done|]. intros _. exists y. split; [done|]. rewrite N.mul_comm. done.
Qed.

Lemma no_baja f s : Forall alta (dirs s) -> f ∈ free s -> es_memoria_baja (start_address f) = false.
Proof.
  intros Ha Hf. apply N.ltb_ge. apply (proj1 (Forall_forall _ _) Ha). unfold dirs. by apply list_elem_of_fmap_2.
Qed.

(** Taking [n] elements out of the middle. *)
Lemma quitar_tramo {A} (l : list A) i n : l ≡ₚ take n (drop i l) ++ take i l ++ drop (i + n) l.
Proof.
  rewrite <- (take_drop i l) at 1. rewrite <- (take_drop n (drop i l)) at 1. rewrite drop_drop. solve_Permutation.
Qed.

Definition hallado (count align : N) s (o : option PhysFrame) s' : Prop :=
  match o with
  | Some f => exists i : nat, s' = set_free (take i (free s) ++ drop (i + N.to_nat count) (free s)) (free_ordenada s) s ∧
      take (N.to_nat count) (drop i (dirs s)) = corrida (start_address f) count ∧ start_address f mod align = 0
  | None => s' = s ∧ forall a, a mod align = 0 -> ¬ corrida a count ⊆ dirs s
  end.

Lemma buscar_spec count al s : 0 < count -> 0 < al -> StronglySorted N.le (dirs s) -> NoDup (dirs s) -> Forall alta (dirs s) ->
  lenN (free s) + count + 1 < U64 -> 4096 * count + 2 ^ 53 < U64 ->
  forall fuel i, i <= lenN (free s) -> (N.to_nat (lenN (free s) - i) < fuel)%nat ->
  (forall j a, (j < N.to_nat i)%nat -> dirs s !! j = Some a -> a mod (al * 4096) = 0 -> ¬ corrida a count ⊆ dirs s) ->
  exists o s', buscar fuel count (al * 4096) i s = (Ok o, s') ∧ hallado count (al * 4096) s o s'.
Proof.
  intros Hcount Hal Hso Hnd Halta Hlen Hbig. assert (2 ^ 52 + 2 ^ 52 = 2 ^ 53) as H52 by done.
  induction fuel as [|fuel IH]; intros i Hi Hf Hprev; [lia|]. cbn [buscar].
  rewrite bind_eq. unfold gets. rewrite bind_eq. unfold add64 at 1. destruct (N.ltb_spec (i + count) U64); [|lia]. unfold mret, M_ret.
  destruct (N.leb_spec (i + count) (lenN (free s))) as [Hfit|Hend].
  2:{ exists None, s. split; [done|]. split; [done|]. intros a Ha Hr.
      assert (a ∈ dirs s) as Hin by (apply Hr, elem_of_corrida; exists 0; lia). apply list_elem_of_lookup_1 in Hin as (j & Hj).
      destruct (decide (j < N.to_nat i)%nat) as [Hji|Hji]; [by apply (Hprev j a)|].
      pose proof (corrida_cabe_en _ Hso Hnd (dirs_mod s) j a count Hj Hcount Hr) as Hc. rewrite dirs_len in Hc. lia. }
  destruct (lookup_lt_is_Some_2 (dirs s) (N.to_nat i)) as [base Hbase].
  { pose proof (dirs_len s). unfold lenN in *. lia. }
  destruct (dirs_lookup _ _ _ Hbase) as (f & Hfr & Hfb). rewrite Hfr. cbn [of_option]. rewrite bind_eq. unfold mret, M_ret.
  rewrite (no_baja f s Halta) by (by eapply list_elem_of_lookup_2). rewrite Hfb.
  destruct (start_aligned f) as [Hfm Hf52]. rewrite Hfb in Hfm, Hf52.
  destruct ((4096 <? al * 4096) && negb (base mod (al * 4096) =? 0)) eqn:Eal.
  { apply andb_true_iff in Eal as [_ Eal%negb_true_iff%N.eqb_neq]. rewrite bind_eq. unfold add64 at 1.
    destruct (N.ltb_spec (i + 1) U64); [|lia]. unfold mret, M_ret. apply IH; [lia|lia|].
    intros j a Hj Hja Ham. destruct (decide (j = N.to_nat i)) as [->|]; [congruence|]. apply Hprev with j; [lia|done|done]. }
  assert (base mod (al * 4096) = 0) as Hbal.
  { apply andb_false_iff in Eal as [Eal%N.ltb_ge|Eal%negb_false_iff%N.eqb_eq]; [|done]. replace al with 1 by lia. done. }
  destruct (seguidos_spec base i count s (S (N.to_nat count)) Hfit ltac:(lia) ltac:(lia) 1 ltac:(lia) ltac:(lia) ltac:(lia)) as (n & Hn & Hn1 & Hn2 & Hk & Hcut).
  { intros k Hk. replace k with 0 by lia. rewrite Nat.add_0_r, N.mul_0_r, N.add_0_r. done. }
  rewrite bind_eq, Hn. destruct (N.eqb_spec n count) as [->|Hne].
  - rewrite bind_eq. unfold modify. rewrite bind_eq. destruct (frame_run base (set_free (take (N.to_nat i) (free s) ++ drop (N.to_nat (i + count)) (free s)) (free_ordenada s) s) Hfm Hf52) as (g & -> & Hg).
    eexists _, _. split; [done|]. exists (N.to_nat i). rewrite Hg. split_and!; [by rewrite N2Nat.inj_add| |done].
    rewrite <- (N2Nat.id count) at 2. apply corrida_tramo. intros k Hkc. apply Hk. lia.
  - rewrite bind_eq. unfold add64 at 1. destruct (N.ltb_spec (i + n) U64); [|lia]. unfold mret, M_ret. apply IH; [lia|lia|].
    intros j a Hj Hja Ham Hr. destruct (decide (j < N.to_nat i)%nat) as [Hji|Hji]; [by apply (Hprev j a)|].
    destruct (Hcut ltac:(lia)) as (y & Hy & Hny).
    apply (corte_de_corrida _ Hso Hnd (dirs_mod s) (N.to_nat i) base n y Hk ltac:(lia) Hy Hny). apply Hr, elem_of_corrida.
    pose proof (Hk (N.of_nat j - i) ltac:(lia)) as Hja'. replace (N.to_nat i + N.to_nat (N.of_nat j - i))%nat with j in Hja' by lia.
    rewrite Hja in Hja'. injection Hja' as ->. exists (n - (N.of_nat j - i)). lia.
Qed.

(** ** Requests *)
Lemma reparto_NoDup dados s : reparto dados s -> NoDup (dados ++ libres s).
Proof. intros [[[_ Hd _] _ _ _ _] Hp]. rewrite Hp. by apply NoDup_filter. Qed.
Lemma reparto_alta dados s a : reparto dados s -> a ∈ dados ++ libres s -> alta a.
Proof. intros [_ Hp]. rewrite Hp. by intros [? _]%list_elem_of_filter. Qed.
Lemma reparto_dirs dados s : reparto dados s -> NoDup (dirs s) ∧ Forall alta (dirs s).
Proof.
  intros Hr. split.
  - pose proof (reparto_NoDup _ _ Hr) as Hn. apply NoDup_app in Hn as (_ & _ & Hn). unfold libres in Hn. by apply NoDup_app in Hn as [Hn _].
  - apply Forall_forall. intros a Ha. apply (reparto_alta _ _ a Hr). unfold libres. set_solver.
Qed.
Lemma reparto_len dados s : reparto dados s -> lenN (free s) < 2 ^ 52.
Proof.
  intros [Hb Hp]. rewrite <- dirs_len. apply Permutation_length in Hp. unfold libres, altas in Hp. rewrite !length_app in Hp.
  pose proof (length_filter alta (todas (regions s))) as Hl. pose proof (todas_total (regions s)). destruct Hb as [[_ _ Ht] _ _ _ _].
  unfold lenN in *. lia.
Qed.
Lemma reparto_da dados l s s' : reparto dados s -> bien s' -> regions s' = regions s -> libres s ≡ₚ l ++ libres s' -> reparto (l ++ dados) s'.
Proof.
  intros [_ Hp] Hb Hr Hl. split; [done|]. rewrite Hr, <- Hp, Hl. solve_Permutation.
Qed.

(** The list of free frames in another order, or without some. *)
Lemma bien_libres s l o : bien s -> (o = true -> StronglySorted N.le (start_address <$> l)) ->
  bien (set_free l o s).
Proof. intros [H1 H2 H3 H4 H5] Ho. by split. Qed.

Lemma ordenar_spec s : bien s -> exists s1, ordenar_libres s = (Ok tt, s1) ∧ bien s1 ∧ regions s1 = regions s ∧ restan s1 = restan s ∧
  dirs s1 ≡ₚ dirs s ∧ StronglySorted N.le (dirs s1).
Proof.
  intros Hb. unfold ordenar_libres. rewrite bind_eq. cbn [gets id]. unfold gets, id. destruct (free_ordenada s) eqn:Eo.
  { exists s. split_and!; try done. by apply (bi_orden _ Hb). }
  assert (StronglySorted N.le (start_address <$> merge_sort por_direccion (free s))) as Hs.
  { apply (StronglySorted_fmap _ por_direccion); [done|]. apply StronglySorted_merge_sort; intros x y; unfold por_direccion; [intros z|]; lia. }
  exists (set_free (merge_sort por_direccion (free s)) true s). split_and!; try done.
  - by apply bien_libres.
  - unfold dirs. cbn. by rewrite merge_sort_Permutation.
Qed.

(** What a request of [count] pages aligned to [align] answers. *)
Definition pedido (dados : list N) (count align : N) s (o : option PhysFrame) s' : Prop :=
  match o with
  | Some f => libres s ≡ₚ corrida (start_address f) count ++ libres s' ∧ start_address f mod align = 0 ∧
      reparto (corrida (start_address f) count ++ dados) s'
  | None => libres s ≡ₚ libres s' ∧ reparto dados s' ∧ forall a, a mod align = 0 -> ¬ corrida a count ⊆ libres s
  end.
(** Requests below 2^49 pages, aligned to less than 2^49. *)
Definition razonable (count al : N) : Prop := 0 < count ∧ count < 2 ^ 49 ∧ 0 < al ∧ al < 2 ^ 49.
Lemma razonable_U64 count al : razonable count al -> 4096 * count + 4096 * al + 2 ^ 53 < U64 ∧ count + 2 ^ 52 + 1 < U64 ∧ 4096 * count + 2 ^ 53 < U64.
Proof.
  intros (_ & H1 & _ & H2). assert (4096 * 2 ^ 49 + 4096 * 2 ^ 49 + 2 ^ 53 < U64) by done. assert (2 ^ 49 + 2 ^ 52 + 1 < U64) by done. lia.
Qed.
Lemma hallado_pedido dados count al s s1 o s' : reparto dados s -> restan s = [] -> 0 < count -> bien s1 -> regions s1 = regions s -> restan s1 = restan s ->
  dirs s1 ≡ₚ dirs s -> StronglySorted N.le (dirs s1) -> hallado count (al * 4096) s1 o s' -> pedido dados count (al * 4096) s o s'.
Proof.
  intros Hr Hres Hc Hb1 Hreg Hre Hd Hs Hh.
  assert (libres s1 ≡ₚ libres s) as Hl1 by (unfold libres; by rewrite Hre, Hd).
  destruct o as [f|]; cbn in *.
  - destruct Hh as (i & -> & Htr & Hal). set (s2 := set_free _ _ _).
    assert (dirs s2 = take i (dirs s1) ++ drop (i + N.to_nat count) (dirs s1)) as Hd2.
    { unfold dirs. cbn. by rewrite fmap_app, fmap_take, fmap_drop. }
    assert (libres s ≡ₚ corrida (start_address f) count ++ libres s2) as Hl.
    { rewrite <- Hl1. unfold libres. rewrite (quitar_tramo (dirs s1) i (N.to_nat count)), Htr, <- Hd2, <- (assoc_L (++)). done. }
    split; [done|]. split; [done|]. apply (reparto_da dados _ s); [done| |done|done].
    apply bien_libres; [done|]. intros _. fold (dirs s2). change (start_address <$> _) with (dirs s2). rewrite Hd2.
    rewrite <- (take_drop i (dirs s1)) in Hs. apply StronglySorted_app in Hs as (H1 & H2 & H3).
    rewrite <- drop_drop. rewrite <- (take_drop (N.to_nat count) (drop i (dirs s1))) in H3, H1. apply StronglySorted_app in H3 as (_ & _ & H3).
    apply StronglySorted_app_2; [|done|done]. intros x y Hx Hy. apply H1; set_solver.
  - destruct Hh as [-> Hno]. split; [done|]. split; [apply (reparto_da dados [] s); try done; by rewrite Hl1|].
    intros a Ha Hsub. apply (Hno a Ha). unfold libres in Hsub. rewrite Hres in Hsub. cbn in Hsub. rewrite app_nil_r in Hsub. by rewrite Hd.
Qed.

Lemma from_free_spec dados count al s : reparto dados s -> restan s = [] -> razonable count al ->
  exists o s', take_contiguous_from_free count al s = (Ok o, s') ∧ pedido dados count (al * 4096) s o s'.
Proof.
  intros Hr Hres Hra. destruct (razonable_U64 _ _ Hra) as (B1 & B2 & B3). destruct Hra as (Hc & _ & Hal & _).
  destruct (ordenar_spec s (proj1 Hr)) as (s1 & Ho & Hb1 & Hreg & Hre & Hd & Hs).
  destruct (reparto_dirs _ _ Hr) as [Hnd Halta]. pose proof (reparto_len _ _ Hr) as Hlen.
  unfold take_contiguous_from_free. rewrite bind_eq. unfold gets.
  assert (lenN (free s1) = lenN (free s)) as Hl1.
  { rewrite <- !dirs_len. unfold lenN. f_equal. by apply Permutation_length. }
  destruct (N.eqb_spec count 0) as [|_]; [lia|]. destruct (N.ltb_spec (lenN (free s)) count) as [Hshort|Hlong].
  - exists None, s. split; [done|]. split; [done|]. split; [done|]. intros a Ha Hsub.
    assert (corrida a count ⊆+ dirs s) as Hsm.
    { apply NoDup_submseteq; [apply NoDup_corrida|]. intros x Hx. specialize (Hsub x Hx). unfold libres in Hsub. rewrite Hres in Hsub. cbn in Hsub. by rewrite app_nil_r in Hsub. }
    apply submseteq_length in Hsm. pose proof (dirs_len s). unfold corrida in Hsm. pose proof (paginas_length a (a + 4096 * count)) as Hp.
    replace (a + 4096 * count - a) with (count * 4096) in Hp by lia. rewrite N.div_mul in Hp by done. unfold lenN in *. lia.
  - cbn [orb]. rewrite bind_eq, Ho, bind_eq, mul64_run by lia.
    destruct (buscar_spec count al s1 Hc Hal Hs) with (fuel := S (length (free s))) (i := 0) as (o & s' & Hrun & Hh).
    + by rewrite Hd.
    + by rewrite Hd.
    + rewrite Hl1. lia.
    + done.
    + lia.
    + rewrite Hl1. unfold lenN. lia.
    + intros j a Hj. lia.
    + exists o, s'. split; [done|]. by apply (hallado_pedido dados count al s s1).
Qed.

Lemma take_contiguous_spec dados count al s : reparto dados s -> razonable count al ->
  exists o s', take_contiguous count al s = (Ok o, s') ∧ pedido dados count (al * 4096) s o s'.
Proof.
  intros Hr Hra. destruct (razonable_U64 _ _ Hra) as (B1 & B2 & B3). destruct (Hra) as (Hc & _ & Hal & _).
  unfold take_contiguous. rewrite bind_eq, mul64_run by lia. rewrite bind_eq, mul64_run by lia. rewrite bind_eq. unfold gets.
  pose proof (virgenes_spec count al (S (2 * length (regions s))) Hc Hal B1 s (proj1 Hr)) as Hv.
  unfold wp in Hv. rewrite bind_eq. destruct (virgenes _ _ _ _ s) as [[o|e| |] s1].
  2-4: exfalso; apply Hv; unfold medida; lia.
  destruct Hv as [(Hb1 & Hreg & Hl) Hres]; [unfold medida; lia|]. destruct o as [f|].
  - destruct Hl as [Hl Ha]. eexists _, _. split; [done|]. split; [done|]. split; [done|]. by apply (reparto_da dados _ s).
  - destruct (from_free_spec dados count al s1) as (o & s' & Hrun & Hp); [by apply (reparto_da dados [] s)|by apply Hres|done|].
    exists o, s'. split; [done|]. destruct o as [f|]; cbn in *.
    + by rewrite Hl.
    + destruct Hp as (H1 & H2 & H3). split; [by rewrite Hl|]. split; [done|]. intros a Ha Hsub. apply (H3 a Ha).
      intros x Hx. rewrite <- Hl. by apply Hsub.
Qed.

(** ** One frame, and what comes back *)
Lemma altas_rango s a : mapa_ok (regions s) -> a ∈ altas (regions s) -> reciclable a.
Proof.
  intros [Hm _ _] [Ha Hin]%list_elem_of_filter. unfold todas in Hin. apply list_elem_of_bind in Hin as (r & Hin & Hr).
  pose proof (proj1 (Forall_forall _ _) Hm r Hr) as [_ He]. unfold paginas_de in Hin. destruct (r_usable r); [|set_solver].
  apply elem_of_paginas in Hin as (k & -> & Hk). split; [done|]. split; [|lia].
  rewrite (mult4096 _ (arriba_mod (r_start r))), <- N.mul_add_distr_l, N.mul_comm. by rewrite N.Div0.mod_mul.
Qed.
Lemma reparto_rango dados s a : reparto dados s -> a ∈ dados ++ libres s -> reciclable a.
Proof. intros [Hb Hp] Ha. apply (altas_rango s); [apply Hb|]. by rewrite <- Hp. Qed.

Lemma corrida_snoc a n : corrida a (N.succ n) = corrida a n ++ [a + 4096 * n].
Proof. unfold corrida. rewrite (paginas_app a n) by lia. f_equal. rewrite paginas_cons by lia. by rewrite paginas_nil by lia. Qed.
Lemma corrida_1 a : corrida a 1 = [a].
Proof. change 1 with (N.succ 0). by rewrite corrida_succ, corrida_0. Qed.

(** Frames that come back, one after another. *)
Lemma devolver_run f n s : bien s -> n <= 512 -> Forall reciclable (corrida (start_address f) n) ->
  exists s', mfor (fun i => d ← mul64 i 4096; a ← add64 (start_address f) d; f ← frame a; push_free f) (upto n) s = (Ok tt, s') ∧
    bien s' ∧ regions s' = regions s ∧ restan s' = restan s ∧ dirs s' = dirs s ++ corrida (start_address f) n.
Proof.
  intros Hb. induction n as [|n IH] using N.peano_ind; intros Hn Hr.
  { exists s. split_and!; try done. by rewrite corrida_0, app_nil_r. }
  rewrite corrida_snoc in Hr. apply Forall_app in Hr as [Hr [(Ha & Hm & Hl) _]%Forall_cons].
  destruct (IH ltac:(lia) Hr) as (s1 & Hrun & Hb1 & Hreg & Hre & Hd). rewrite upto_succ.
  assert (2 ^ 52 + 4096 * 512 < U64) as Hbig by done.
  rewrite mfor_app, bind_eq, Hrun. cbn [mfor]. rewrite bind_eq, bind_eq, mul64_run by lia. rewrite bind_eq. unfold add64.
  destruct (N.ltb_spec (start_address f + n * 4096) U64); [|lia]. unfold mret at 1, M_ret. rewrite bind_eq, (N.mul_comm n 4096).
  destruct (frame_run (start_address f + 4096 * n) s1 Hm Hl) as (g & -> & Hg).
  destruct (push_free_run g s1 ltac:(by rewrite Hg)) as (o & -> & Ho). eexists. split; [done|].
  split_and!; try done.
  - apply bien_libres; [done|]. intros Hot. rewrite fmap_app. apply Ho; [apply Hb1|done].
  - unfold dirs in *. cbn. rewrite fmap_app, Hd. cbn. rewrite Hg, corrida_snoc. by rewrite (assoc_L (++)).
Qed.
Lemma reparto_vuelve dados l s s' : reparto (l ++ dados) s -> bien s' -> regions s' = regions s -> restan s' = restan s -> dirs s' = dirs s ++ l -> reparto dados s'.
Proof.
  intros [_ Hp] Hb Hr Hre Hd. split; [done|]. rewrite Hr, <- Hp. unfold libres. rewrite Hre, Hd. solve_Permutation.
Qed.
Lemma deallocate_2m_spec dados f s : reparto (corrida (start_address f) 512 ++ dados) s ->
  exists s', deallocate_2m f s = (Ok tt, s') ∧ reparto dados s'.
Proof.
  intros Hr. destruct (devolver_run f 512 s (proj1 Hr) ltac:(done)) as (s' & Hrun & H1 & H2 & H3 & H4).
  { apply Forall_forall. intros a Ha. apply (reparto_rango _ _ _ Hr). set_solver. }
  exists s'. split; [done|]. by apply (reparto_vuelve dados (corrida (start_address f) 512) s).
Qed.
Lemma deallocate_frame_spec dados f s : reparto (start_address f :: dados) s -> exists s', deallocate_frame f s = (Ok tt, s') ∧ reparto dados s'.
Proof.
  intros Hr. destruct (push_free_run f s) as (o & Hp & Ho); [apply (reparto_alta _ _ _ Hr); left|].
  eexists. split; [exact Hp|]. apply (reparto_vuelve dados [start_address f] s); try done.
  - apply bien_libres; [apply Hr|]. intros Hot. rewrite fmap_app. apply Ho; [apply Hr|done].
  - unfold dirs. cbn. by rewrite fmap_app.
Qed.

Lemma allocate_frame_spec dados s : reparto dados s -> exists o s', allocate_frame s = (Ok o, s') ∧
  match o with
  | Some f => libres s ≡ₚ start_address f :: libres s' ∧ reparto (start_address f :: dados) s'
  | None => libres s = [] ∧ reparto dados s'
  end.
Proof.
  intros Hr. unfold allocate_frame. rewrite bind_eq. unfold gets. destruct (last (free s)) as [f|] eqn:El.
  - eexists (Some f), _. split; [done|]. apply last_Some in El as (l & El). rewrite El, removelast_last.
    set (s' := set_free l (free_ordenada s) s). assert (dirs s = dirs s' ++ [start_address f]) as Hd.
    { unfold dirs. rewrite El, fmap_app. done. }
    assert (libres s ≡ₚ start_address f :: libres s') as Hl.
    { unfold libres. change (restan s') with (restan s). rewrite Hd. solve_Permutation. }
    split; [done|]. apply (reparto_da dados [start_address f] s); try done. apply bien_libres; [apply Hr|].
    intros Ho. pose proof (bi_orden _ (proj1 Hr) Ho) as Hs. rewrite Hd in Hs. by apply StronglySorted_app_1_l in Hs.
  - destruct (take_contiguous_spec dados 1 1 s Hr) as (o & s' & Hrun & Hp); [done|]. exists o, s'. split; [done|].
    destruct o as [f|]; cbn [pedido] in Hp; rewrite ?corrida_1 in Hp.
    + by destruct Hp as (H1 & _ & H2).
    + destruct Hp as (H1 & H2 & H3). split; [|done]. destruct (libres s) as [|a l] eqn:Ea; [done|]. exfalso.
      apply (H3 a); [apply (reparto_rango _ _ a Hr); rewrite Ea; set_solver|]. rewrite corrida_1. set_solver.
Qed.

Lemma free_frames_spec dados s : reparto dados s ->
  free_frames s = (Ok (total (regions s) - lenN (todas (regions s)) + lenN (dirs s) + lenN (restan s)), s).
Proof.
  intros Hr. pose proof (reparto_len _ _ Hr). destruct Hr as [[[_ _ Ht] H2 H3 _ _] _]. pose proof (todas_total (regions s)).
  assert (2 ^ 52 + 2 ^ 52 < U64) by done. unfold free_frames. rewrite bind_eq. cbn [gets id]. unfold gets, id. rewrite bind_eq. unfold sub64.
  rewrite H3. destruct (N.leb_spec (cursor_consumed s) (total (regions s))); [|lia]. unfold mret, M_ret. unfold add64. rewrite dirs_len.
  destruct (N.ltb_spec (total (regions s) - cursor_consumed s + lenN (free s)) U64); [|lia]. unfold mret, M_ret. do 2 f_equal. lia.
Qed.
End Buscar.
