(* ===== verification/MemReclaim.v ===== *)
(** * Reclaiming pages

    [kernel/src/mm/reclaim.rs]: the clock over the mapped pages that can be read
    again, and [AddrSpace::evict_page] ([kernel/src/task/addrspace.rs]), which
    gives their frames back. The page tables are the ones of the [x86_64]
    crate, a parameter. *)
From S2P Require Import Prelude MemFrame MemLibres MemContiguo.
Local Open Scope N_scope.

(** A page of an address space: its PML4, its address and whether it is of
    2 MiB. *)
Definition Pagina : Type := N * N * bool.

(** The address spaces: which are alive ([Weak::upgrade]), the PML4 of each
    one, and [Mapper::unmap], which gives the frame of a mapped page. *)
Class Espacios (T : Type) `{Fisica} := {
  vivo : T -> N -> bool;
  pml4_phys : N -> N;
  unmap : Pagina -> T -> option PhysFrame * T;
}.
(** [unmap] documents that it removes the mapping and returns the frame. *)
Class EspaciosSpec (T : Type) `{Espacios T} := {
  mapeo : T -> gmap Pagina PhysFrame;
  unmap_ok k t : let '(o, t') := unmap k t in o = mapeo t !! k ∧ mapeo t' = delete k (mapeo t);
}.

Definition WATERMARK_FRAMES : N := 1024.
Definition CLOCK_SCAN : nat := 32.
Definition HUGE : N := 2 * 1024 * 1024.

Record CachedPage := mkPage { space : N; pml4 : N; va : N; is_2m : bool; referenced : bool }.
Definition con_ref (b : bool) (e : CachedPage) : CachedPage := mkPage (space e) (pml4 e) (va e) (is_2m e) b.

Section Reclaim.
Context {T : Type} `{Espacios T}.

(** The allocator, the address spaces, the queue and the pinned windows. *)
Record Mem := mkMem { marcos : option BootInfoFrameAllocator; esp : T; cola : list CachedPage; pinchadas : list (N * N * N) }.
Abbreviation K := (M Mem unit).
Definition set_marcos a m := mkMem (Some a) (esp m) (cola m) (pinchadas m).
Definition set_esp t m := mkMem (marcos m) t (cola m) (pinchadas m).
Definition set_cola q m := mkMem (marcos m) (esp m) q (pinchadas m).
Definition set_pinchadas p m := mkMem (marcos m) (esp m) (cola m) p.

(** [FRAME_ALLOC.get().unwrap().lock()] *)
Definition en_marcos {A} (f : M BootInfoFrameAllocator unit A) : K A :=
  o ← gets marcos;
  a ← of_option panic o;
  zoom (fun _ => a) set_marcos id f.

Definition evict_page (sp va : N) (is_2m : bool) : K unit :=
  m ← gets id;
  let page := if is_2m then N.ldiff va (HUGE - 1) else N.ldiff va 0xfff in
  let '(o, t) := unmap (pml4_phys sp, page, is_2m) (esp m) in
  modify (set_esp t);;
  match o with
  | Some f => en_marcos (if is_2m then deallocate_2m f else deallocate_frame f)
  | None => mret tt
  end.

Definition frames_de (e : CachedPage) : N := if is_2m e then 512 else 1.
Definition reclaimable_frames : K N :=
  m ← gets id;
  mfold (fun acc e => add64 acc (frames_de e)) 0 (filter (fun e => vivo (esp m) (space e) = true) (cola m)).

Definition register (sp va : N) (is_2m : bool) : K unit :=
  let va := if is_2m then N.ldiff va (HUGE - 1) else N.ldiff va 0xfff in
  modify (fun m => set_cola (cola m ++ [mkPage sp (pml4_phys sp) va is_2m true]) m).

Definition forget_range (sp start len : N) : K unit :=
  let fin := saturating_add64 start len in
  modify (fun m => set_cola (filter (fun e => negb ((pml4 e =? pml4_phys sp) && (start <=? va e) && (va e <? fin)) = true) (cola m)) m).
Definition forget_space (sp : N) : K unit :=
  modify (fun m => set_cola (filter (fun e => negb (pml4 e =? pml4_phys sp) = true) (cola m)) m).

Definition pin_range (sp va len : N) : K unit :=
  modify (fun m => set_pinchadas (pinchadas m ++ [(pml4_phys sp, va, saturating_add64 va len)]) m).
Definition unpin_range (sp va len : N) : K unit :=
  let clave := (pml4_phys sp, va, saturating_add64 va len) in
  modify (fun m => match list_find (fun e => e = clave) (pinchadas m) with
                   | Some (i, _) => set_pinchadas (delete i (pinchadas m)) m
                   | None => m
                   end).

Definition tamano (b : bool) : N := if b then HUGE else 4096.
Definition pinchada (e : CachedPage) : K bool :=
  ps ← gets pinchadas;
  if bool_decide (ps = []) then mret false
  else
    fin ← add64 (va e) (tamano (is_2m e));
    mret (existsb (fun '(p, ini, f) => (p =? pml4 e) && (va e <? f) && (ini <? fin)) ps).

Definition pop_front : K (option CachedPage) :=
  q ← gets cola;
  match q with
  | [] => mret None
  | e :: q => modify (set_cola q);; mret (Some e)
  end.
Definition push_back (e : CachedPage) : K unit := modify (fun m => set_cola (cola m ++ [e]) m).

(** [for _ in 0..n] *)
Fixpoint rotar_fijadas (n : nat) : K (option CachedPage) :=
  match n with
  | O => mret None
  | S n =>
      o ← pop_front;
      match o with
      | None => mret None
      | Some e => p ← pinchada e; if (p : bool) then push_back e;; rotar_fijadas n else mret (Some e)
      end
  end.
Definition primera_no_pinchada : K (option CachedPage) := q ← gets cola; rotar_fijadas (length q).

(** [while scanned < CLOCK_SCAN && !st.queue.is_empty() && victims.is_empty()]:
    [n] turns are left. *)
Fixpoint escanear (n : nat) : K (option CachedPage) :=
  match n with
  | O => mret None
  | S n =>
      o ← pop_front;
      match o with
      | None => mret None
      | Some e =>
          p ← pinchada e;
          if (p : bool) then push_back (con_ref true e);; escanear n
          else if referenced e then push_back (con_ref false e);; escanear n
          else mret (Some e)
      end
  end.

Definition desalojar (e : CachedPage) : K unit :=
  m ← gets id;
  if vivo (esp m) (space e) then evict_page (space e) (va e) (is_2m e) else mret tt.

Fixpoint liberar_hasta (fuel : nat) (need target : N) : K bool :=
  match fuel with
  | O => no_fuel
  | S fuel =>
      o ← gets marcos;
      free ← match o with Some _ => en_marcos free_frames | None => mret 0 end;
      if target <=? free then mret true
      else
        q ← gets cola;
        if bool_decide (q = []) then mret (need <=? free)
        else
          v ← escanear CLOCK_SCAN;
          v ← match v with Some e => mret (Some e) | None => primera_no_pinchada end;
          match v with
          | None => mret (need <=? free)
          | Some e => desalojar e;; liberar_hasta fuel need target
          end
  end.
Definition ensure_free_frames (need : N) : K bool :=
  q ← gets cola;
  liberar_hasta (S (length q)) need (saturating_add64 WATERMARK_FRAMES need).

(** [for _ in 0..max_pages] *)
Fixpoint victimas (n : nat) : K (list CachedPage) :=
  match n with
  | O => mret []
  | S n =>
      o ← primera_no_pinchada;
      match o with
      | Some e => vs ← victimas n; mret (e :: vs)
      | None => mret []
      end
  end.
Definition evict_batch (max_pages : N) : K unit := vs ← victimas (N.to_nat max_pages); mfor desalojar vs.
End Reclaim.

(** * What reclaiming keeps

    Reclaiming a page gives its frames back to the allocator, never touches a
    pinned window and ends. *)
#[local] Set Default Proof Using "Type*".

Section Fijadas.
Context {T : Type} `{EspaciosSpec T, !FisicaSpec}.
Implicit Types m : Mem (T := T).

Definition clave (e : CachedPage) : Pagina := (pml4 e, va e, is_2m e).
(** The page overlaps a pinned window of its space. *)
Definition fijada (ps : list (N * N * N)) (k : Pagina) : Prop :=
  exists ini f, (k.1.1, ini, f) ∈ ps ∧ k.1.2 < f ∧ ini < k.1.2 + tamano k.2.

(** An entry as [register] makes them. *)
Definition entrada_ok (e : CachedPage) : Prop :=
  pml4 e = pml4_phys (space e) ∧ (if is_2m e then N.ldiff (va e) (HUGE - 1) else N.ldiff (va e) 0xfff) = va e ∧ va e < 2 ^ 63.
(** The frames of the mapped pages. *)
Definition mapeados (v : gmap Pagina PhysFrame) : list N :=
  map_to_list v ≫= fun kv => corrida (start_address kv.2) (if (kv.1.2 : bool) then 512 else 1).
(** [otros]: the frames in other hands. *)
Definition mem_ok (otros : list N) m : Prop :=
  Forall entrada_ok (cola m) ∧ exists a, marcos m = Some a ∧ reparto (otros ++ mapeados (mapeo (esp m))) a.

(** From [m] to [m'] pages were unmapped, none of them pinned. *)
Record desaloja m m' : Prop := {
  de_pins : pinchadas m' = pinchadas m;
  de_sub : mapeo (esp m') ⊆ mapeo (esp m);
  de_fijas : forall k, fijada (pinchadas m) k -> mapeo (esp m') !! k = mapeo (esp m) !! k;
}.
Lemma desaloja_refl m m' : pinchadas m' = pinchadas m -> esp m' = esp m -> desaloja m m'.
Proof. intros Hp He. split; [done|by rewrite He|by rewrite He]. Qed.
Lemma desaloja_trans m1 m2 m3 : desaloja m1 m2 -> desaloja m2 m3 -> desaloja m1 m3.
Proof.
  intros [A1 A2 A3] [B1 B2 B3]. split; [congruence|by etrans|]. intros k Hk. rewrite <- A3 by done. apply B3. by rewrite A1.
Qed.

Lemma pinchada_run e m : va e < 2 ^ 63 -> exists b, pinchada e m = (Ok b, m) ∧ (b = true ↔ fijada (pinchadas m) (clave e)).
Proof.
  intros Hv. unfold pinchada. rewrite bind_eq. unfold gets. case_bool_decide as Hnil.
  { exists false. split; [done|]. split; [done|]. intros (i & f & Hin & _). rewrite Hnil in Hin. set_solver. }
  rewrite bind_eq. unfold add64.
  assert (va e + tamano (is_2m e) < U64) as Hb.
  { assert (2 ^ 63 + HUGE < U64) by done. assert (4096 < HUGE) by done. unfold tamano. destruct (is_2m e); lia. }
  rewrite (proj2 (N.ltb_lt _ _) Hb). unfold mret, M_ret. eexists. split; [done|]. rewrite existsb_exists. unfold fijada, clave. simpl. split.
  - intros ([[p i] f] & Hin & Hc). apply andb_true_iff in Hc as [[->%N.eqb_eq Ha%N.ltb_lt]%andb_true_iff Hb2%N.ltb_lt].
    exists i, f. split; [by apply list_elem_of_In|done].
  - intros (i & f & Hin & Ha & Hb2). exists (pml4 e, i, f). split; [by apply list_elem_of_In|].
    rewrite N.eqb_refl. apply N.ltb_lt in Ha, Hb2. by rewrite Ha, Hb2.
Qed.

(** ** One page *)
Lemma mapeados_delete (k : Pagina) (f : PhysFrame) (v : gmap Pagina PhysFrame) : v !! k = Some f ->
  mapeados v ≡ₚ corrida (start_address f) (if (k.2 : bool) then 512 else 1) ++ mapeados (delete k v).
Proof.
  intros Hk. unfold mapeados. rewrite <- (map_to_list_delete v k f Hk). done.
Qed.
Lemma en_marcos_run {A} (f : M BootInfoFrameAllocator unit A) m a r a' : marcos m = Some a -> f a = (Ok r, a') ->
  en_marcos f m = (Ok r, set_marcos a' m).
Proof. intros Hm Hf. unfold en_marcos. rewrite bind_eq. unfold gets. rewrite Hm. cbn [of_option]. rewrite bind_eq. unfold mret, M_ret, zoom. by rewrite Hf. Qed.

Lemma desalojar_spec otros e m : mem_ok otros m -> entrada_ok e -> ¬ fijada (pinchadas m) (clave e) ->
  exists m', desalojar e m = (Ok tt, m') ∧ mem_ok otros m' ∧ desaloja m m' ∧ cola m' = cola m.
Proof.
  intros [Hq (a & Ha & Hr)] (Hp & Hv & Hl) Hf. unfold desalojar. rewrite bind_eq. cbn [gets id]. unfold gets, id.
  destruct (vivo (esp m) (space e)).
  2:{ exists m. split_and!; [done|by split; eauto|by apply desaloja_refl|done]. }
  unfold evict_page. rewrite bind_eq. unfold gets, id. rewrite Hv, <- Hp. fold (clave e).
  pose proof (unmap_ok (clave e) (esp m)) as Hu. unfold clave in *. destruct (unmap (pml4 e, va e, is_2m e) (esp m)) as [o t']. destruct Hu as [Ek Ht]. symmetry in Ek.
  rewrite bind_eq. unfold modify.
  assert (desaloja m (set_esp t' m)) as Hd.
  { split; cbn; [done|rewrite Ht; apply delete_subseteq|]. intros k Hk. rewrite Ht. apply lookup_delete_ne. by intros <-. }
  destruct o as [f|].
  2:{ exists (set_esp t' m). split_and!; try done. split; [done|]. exists a. split; [done|]. cbn. rewrite Ht. by rewrite delete_id. }
  rewrite (mapeados_delete _ _ _ Ek) in Hr. cbn [snd] in Hr.
  assert (exists a', (if is_2m e then deallocate_2m f else deallocate_frame f) a = (Ok tt, a') ∧ reparto (otros ++ mapeados (mapeo t')) a') as (a' & Hrun & Hr').
  { rewrite <- Ht in Hr. destruct (is_2m e).
    - apply deallocate_2m_spec. rewrite (assoc_L (++)), (Permutation_app_comm _ otros), <- (assoc_L (++)). done.
    - apply deallocate_frame_spec. rewrite corrida_1 in Hr. by rewrite Permutation_middle. }
  exists (set_marcos a' (set_esp t' m)). split; [by apply (en_marcos_run _ _ a)|]. split_and!; [|by destruct Hd|done].
  split; [done|]. by exists a'.
Qed.

(** ** The queue *)
Definition claves m : list Pagina := clave <$> cola m.
(** An entry leaves the queue, or none does; its order and its marks may
    change. *)
Definition saca m (o : option CachedPage) m' : Prop :=
  marcos m' = marcos m ∧ esp m' = esp m ∧ pinchadas m' = pinchadas m ∧ Forall entrada_ok (cola m') ∧
  match o with
  | Some e => entrada_ok e ∧ ¬ fijada (pinchadas m) (clave e) ∧ claves m ≡ₚ clave e :: claves m'
  | None => claves m' ≡ₚ claves m
  end.
Lemma saca_refl m : Forall entrada_ok (cola m) -> saca m None m.
Proof. intros Hok. unfold saca. by split_and!. Qed.
(** The head goes to the back. *)
Lemma saca_rota m e e' q o m' : cola m = e :: q -> clave e' = clave e -> saca (set_cola (q ++ [e']) m) o m' -> saca m o m'.
Proof.
  intros Hq He (H1' & H2' & H3' & H4' & H5'). repeat (split; [done|]).
  assert (claves m ≡ₚ claves (set_cola (q ++ [e']) m)) as Hc.
  { unfold claves. cbn [cola set_cola]. rewrite Hq, fmap_app, fmap_cons. cbn. rewrite He. solve_Permutation. }
  destruct o; rewrite Hc; done.
Qed.
Lemma entrada_ok_ref b e : entrada_ok e -> entrada_ok (con_ref b e).
Proof. done. Qed.
Lemma pop_run m e q : cola m = e :: q -> pop_front m = (Ok (Some e), set_cola q m).
Proof. intros Hq. unfold pop_front. rewrite bind_eq. unfold gets. by rewrite Hq. Qed.

Lemma rotar_spec n : forall m q1 q2, cola m = q1 ++ q2 -> length q1 = n -> Forall entrada_ok (cola m) ->
  exists o m', rotar_fijadas n m = (Ok o, m') ∧ saca m o m' ∧ (o = None -> Forall (fun e => fijada (pinchadas m) (clave e)) q1).
Proof.
  induction n as [|n IH]; intros m q1 q2 Hq Hn Hok.
  { destruct q1; [|done]. exists None, m. split; [done|]. split; [by apply saca_refl|done]. }
  destruct q1 as [|e q1]; [done|]. injection Hn as Hn. cbn [app] in Hq. rewrite Hq in Hok. apply Forall_cons in Hok as [He Hok].
  cbn [rotar_fijadas]. rewrite bind_eq, (pop_run _ _ _ Hq), bind_eq.
  destruct (pinchada_run e (set_cola (q1 ++ q2) m)) as (b & -> & Hb); [apply He|]. destruct b.
  - rewrite bind_eq. unfold push_back, modify. cbn [cola set_cola].
    destruct (IH (set_cola ((q1 ++ q2) ++ [e]) m) q1 (q2 ++ [e])) as (o & m' & Hrun & Hs & Hall).
    { cbn. by rewrite (assoc_L (++)). } { done. } { apply Forall_app. by split; [|constructor]. }
    exists o, m'. split; [exact Hrun|]. split; [by apply (saca_rota _ e e (q1 ++ q2))|]. intros Ho. constructor; [by apply Hb|by apply Hall].
  - exists (Some e), (set_cola (q1 ++ q2) m). split; [done|]. split; [|done]. repeat (split; [done|]).
    split; [by intros Hf; apply Hb in Hf|]. unfold claves. by rewrite Hq.
Qed.
Lemma primera_spec m : Forall entrada_ok (cola m) -> exists o m', primera_no_pinchada m = (Ok o, m') ∧ saca m o m' ∧
  (o = None -> Forall (fun k => fijada (pinchadas m) k) (claves m)).
Proof.
  intros Hok. unfold primera_no_pinchada. rewrite bind_eq. unfold gets.
  destruct (rotar_spec (length (cola m)) m (cola m) []) as (o & m' & Hr & Hs & Hall); [by rewrite app_nil_r|done|done|].
  exists o, m'. split; [done|]. split; [done|]. intros Ho. apply Forall_fmap. by apply Hall.
Qed.
Lemma escanear_spec n : forall m, Forall entrada_ok (cola m) -> exists o m', escanear n m = (Ok o, m') ∧ saca m o m'.
Proof.
  induction n as [|n IH]; intros m Hok; [exists None, m; split; [done|by apply saca_refl]|].
  cbn [escanear]. rewrite bind_eq. destruct (cola m) as [|e q] eqn:Hq.
  { exists None, m. split; [unfold pop_front; rewrite bind_eq; unfold gets; by rewrite Hq|apply saca_refl; by rewrite Hq]. }
  apply Forall_cons in Hok as [He Hok]. rewrite (pop_run _ _ _ Hq), bind_eq.
  destruct (pinchada_run e (set_cola q m)) as (b & -> & Hb); [apply He|].
  assert (forall e', clave e' = clave e -> entrada_ok e' ->
    exists o m', (push_back e';; escanear n) (set_cola q m) = (Ok o, m') ∧ saca m o m') as Hvuelta.
  { intros e' Hce He'. rewrite bind_eq. unfold push_back, modify. cbn [cola set_cola].
    destruct (IH (set_cola (q ++ [e']) m)) as (o & m' & Hrun & Hs); [apply Forall_app; by split; [|constructor]|].
    exists o, m'. split; [exact Hrun|]. by apply (saca_rota _ e e' q). }
  destruct b; [by apply Hvuelta|]. destruct (referenced e); [by apply Hvuelta|].
  exists (Some e), (set_cola q m). split; [done|]. repeat (split; [done|]). split; [by intros Hf; apply Hb in Hf|].
  unfold claves. by rewrite Hq.
Qed.

(** ** Reclaiming *)
Definition libres_ahora m (n : N) : Prop := exists a, marcos m = Some a ∧ free_frames a = (Ok n, a).
Lemma saca_mem otros m o m' : mem_ok otros m -> saca m o m' -> mem_ok otros m' ∧ desaloja m m'.
Proof.
  intros [Hq (a & Ha & Hr)] (H1' & H2' & H3' & H4' & _). split; [|by apply desaloja_refl].
  split; [done|]. exists a. by rewrite H1', H2'.
Qed.

Lemma desalojar_tras otros m e m1 : mem_ok otros m -> saca m (Some e) m1 -> exists m2, desalojar e m1 = (Ok tt, m2) ∧
  mem_ok otros m2 ∧ desaloja m m2 ∧ claves m ≡ₚ clave e :: claves m2.
Proof.
  intros Hm Hs. destruct (saca_mem _ _ _ _ Hm Hs) as [Hm1 Hd1]. destruct Hs as (_ & _ & Hp & _ & He & Hf & Hc).
  destruct (desalojar_spec otros e m1 Hm1 He) as (m2 & Hrun & Hm2 & Hd2 & Hcola); [by rewrite Hp|].
  exists m2. split; [done|]. split; [done|]. split; [by eapply desaloja_trans|]. unfold claves at 2. by rewrite Hcola.
Qed.

Lemma liberar_spec otros need target fuel : forall m, mem_ok otros m -> need <= target -> (length (cola m) < fuel)%nat ->
  exists b m' n, liberar_hasta fuel need target m = (Ok b, m') ∧ mem_ok otros m' ∧ desaloja m m' ∧ libres_ahora m' n ∧
    (b = true ↔ need <= n) ∧ (n < target -> Forall (fun k => fijada (pinchadas m') k) (claves m')).
Proof.
  induction fuel as [|fuel IH]; intros m Hm Hnt Hf; [lia|]. pose proof Hm as [Hok (a & Ha & Hr)]. cbn [liberar_hasta].
  rewrite bind_eq. unfold gets at 1. rewrite Ha, bind_eq. pose proof (free_frames_spec _ _ Hr) as Hfree.
  set (n := total (regions a) - lenN (todas (regions a)) + lenN (dirs a) + lenN (restan a)) in *.
  rewrite (en_marcos_run _ _ _ _ _ Ha Hfree).
  assert (set_marcos a m = m) as -> by (destruct m; cbn in *; by rewrite Ha).
  assert (libres_ahora m n) as Hn by by exists a.
  destruct (N.leb_spec target n) as [Ht|Ht].
  { exists true, m, n. split; [done|]. split; [done|]. split; [by apply desaloja_refl|]. split; [done|]. split; [by split; [lia|]|lia]. }
  assert (forall m', saca m None m' -> Forall (fun k => fijada (pinchadas m) k) (claves m') ->
    exists b m2 n0, (mret (need <=? n) : M _ unit bool) m' = (Ok b, m2) ∧ mem_ok otros m2 ∧ desaloja m m2 ∧ libres_ahora m2 n0 ∧
      (b = true ↔ need <= n0) ∧ (n0 < target -> Forall (fun k => fijada (pinchadas m2) k) (claves m2))) as Hfin.
  { intros m' Hs Hall. destruct (saca_mem _ _ _ _ Hm Hs) as [Hm1 Hd1]. exists (need <=? n), m', n. split; [done|]. split; [done|]. split; [done|].
    split; [exists a; by destruct Hs as (-> & _)|]. split; [apply N.leb_le|]. intros _. destruct Hs as (_ & _ & -> & _). done. }
  rewrite bind_eq. unfold gets. case_bool_decide as Hnil.
  { apply Hfin; [by apply saca_refl|]. unfold claves. by rewrite Hnil. }
  rewrite bind_eq. destruct (escanear_spec CLOCK_SCAN m Hok) as (o & m1 & -> & Hs).
  assert (forall e m2, saca m (Some e) m2 -> exists b m' n, (desalojar e;; liberar_hasta fuel need target) m2 = (Ok b, m') ∧ mem_ok otros m' ∧
    desaloja m m' ∧ libres_ahora m' n ∧ (b = true ↔ need <= n) ∧ (n < target -> Forall (fun k => fijada (pinchadas m') k) (claves m'))) as Hvuelta.
  { intros e m2 Hs2. destruct (desalojar_tras _ _ _ _ Hm Hs2) as (m3 & Hrun & Hm3 & Hd3 & Hc3). rewrite bind_eq, Hrun.
    apply Permutation_length in Hc3. unfold claves in Hc3. rewrite length_cons, !length_fmap in Hc3.
    destruct (IH m3 Hm3 Hnt ltac:(lia)) as (b & m' & n' & Hrun' & HA & HB & HC & HD & HE). exists b, m', n'.
    split; [done|]. split; [done|]. split; [by eapply desaloja_trans|]. split; [done|]. split; [done|]. done. }
  destruct o as [e|].
  - rewrite bind_eq. unfold mret at 1, M_ret. by apply Hvuelta.
  - rewrite bind_eq. pose proof Hs as (S1 & S2 & S3 & S4 & S5). destruct (primera_spec m1 S4) as (o & m2 & -> & Hs2 & Hall).
    assert (saca m o m2) as Hs'.
    { destruct Hs2 as (T1 & T2 & T3 & T4 & T5). split; [congruence|]. split; [congruence|]. split; [congruence|]. split; [done|].
      destruct o; rewrite <- S5; [|done]. by rewrite <- S3. }
    destruct o as [e|]; [by apply Hvuelta|]. apply Hfin; [done|]. destruct Hs2 as (_ & _ & _ & _ & T5). rewrite T5, <- S3. by apply Hall.
Qed.

Lemma victimas_spec otros n : forall m, mem_ok otros m -> exists vs m', victimas n m = (Ok vs, m') ∧ mem_ok otros m' ∧
  marcos m' = marcos m ∧ esp m' = esp m ∧ pinchadas m' = pinchadas m ∧ Forall (fun e => entrada_ok e ∧ ¬ fijada (pinchadas m) (clave e)) vs ∧ (length vs <= n)%nat.
Proof.
  induction n as [|n IH]; intros m Hm; [by exists [], m|]. cbn [victimas]. rewrite bind_eq.
  destruct (primera_spec m (proj1 Hm)) as (o & m1 & -> & Hs & _). destruct (saca_mem _ _ _ _ Hm Hs) as [Hm1 _].
  destruct Hs as (S1 & S2 & S3 & S4 & S5). destruct o as [e|].
  2:{ exists [], m1. by split_and!; [..|simpl; lia]. }
  rewrite bind_eq. destruct (IH m1 Hm1) as (vs & m2 & -> & Hm2 & R1 & R2 & R3 & R4 & R5). exists (e :: vs), m2.
  split_and!; try done; [congruence|congruence|congruence| |simpl; lia]. constructor; [by destruct S5 as (? & ? & _)|]. by rewrite <- S3.
Qed.
Lemma evict_batch_spec otros n m : mem_ok otros m -> exists m', evict_batch n m = (Ok tt, m') ∧ mem_ok otros m' ∧ desaloja m m'.
Proof.
  intros Hm. unfold evict_batch. rewrite bind_eq. destruct (victimas_spec otros (N.to_nat n) m Hm) as (vs & m1 & -> & Hm1 & R1 & R2 & R3 & R4 & _).
  assert (desaloja m m1) as Hd by by apply desaloja_refl. rewrite <- R3 in R4. clear R1 R2 R3 Hm.
  assert (exists m', mfor desalojar vs m1 = (Ok tt, m') ∧ mem_ok otros m' ∧ desaloja m1 m') as (m' & ? & ? & ?).
  { clear Hd. revert m1 Hm1 R4. induction vs as [|e vs IH]; intros m1 Hm1 R4; [exists m1; split_and!; [done|done|by apply desaloja_refl]|].
    apply Forall_cons in R4 as [[He Hf] R4]. cbn [mfor]. rewrite bind_eq. destruct (desalojar_spec otros e m1 Hm1 He Hf) as (m2 & -> & Hm2 & Hd2 & _).
    rewrite <- (de_pins _ _ Hd2) in R4. destruct (IH m2 Hm2 R4) as (m' & ? & ? & ?). exists m'. split_and!; try done. by eapply desaloja_trans. }
  exists m'. split_and!; try done. by eapply desaloja_trans.
Qed.
End Fijadas.
