(* ===== verification/MemDma.v ===== *)
(** * Pages for devices

    [kernel/src/drivers/dma.rs]: contiguous pages, from a list of returned
    blocks, from the allocator of frames or after reclaiming. *)
From S2P Require Import Prelude MemFrame MemLibres MemContiguo MemReclaim.
Local Open Scope N_scope.
#[local] Set Default Proof Using "Type*".

Definition DMA_RECLAIM_LOTE : N := 512.
Definition DMA_RECLAIM_RONDAS : N := 3.

(** [v.swap_remove(i)] *)
Definition swap_remove {A} (i : nat) (l : list A) : list A :=
  match last l with Some x => removelast (<[i := x]> l) | None => l end.

Section Dma.
Context {T : Type} `{Espacios T}.

Record Dma := mkDma { mem : Mem (T := T); dma_free : list (N * N) }.
Abbreviation K := (M Dma unit).
Definition set_mem m d := mkDma m (dma_free d).
Definition set_dma_free l d := mkDma (mem d) l.
Definition en_mem {A} (f : M Mem unit A) : K A := zoom mem set_mem id f.

Definition de_la_free_list (pages : N) : K (option N) :=
  free ← gets dma_free;
  match list_find (fun e => e.2 = pages) free with
  | Some (i, e) => modify (set_dma_free (swap_remove i free));; mret (Some e.1)
  | None => mret None
  end.

Definition del_frame_alloc (pages : N) : K (option N) :=
  m ← gets mem;
  match marcos m with
  | None => mret None
  | Some _ => f ← en_mem (en_marcos (allocate_contiguous pages)); mret (start_address <$> f)
  end.

(** [irq]: whether a hardware interrupt is being served. *)
Definition alloc_pages (irq : bool) (pages : N) : K N :=
  let pages := N.max pages 1 in
  o ← de_la_free_list pages;
  match o with
  | Some p => mret p
  | None =>
      o ← del_frame_alloc pages;
      match o with
      | Some p => mret p
      | None =>
          if irq then panic
          else
            o ← mfind (fun ronda =>
                   n ← mul64 DMA_RECLAIM_LOTE ronda;
                   en_mem (evict_batch n);;
                   del_frame_alloc pages) (N.succ <$> upto DMA_RECLAIM_RONDAS);
            of_option panic o
      end
  end.

Definition free_pages (paddr pages : N) : K unit := modify (fun d => set_dma_free (dma_free d ++ [(paddr, N.max pages 1)]) d).
End Dma.

(** ** What the pool keeps *)
Lemma swap_remove_perm {A} (l : list A) i x : l !! i = Some x -> l ≡ₚ x :: swap_remove i l.
Proof.
  intros Hi. unfold swap_remove. destruct (last l) as [y|] eqn:El.
  2:{ apply last_None in El. by subst. }
  apply last_Some in El as (k & ->). destruct (decide (i = length k)) as [->|Hne].
  - rewrite list_lookup_middle in Hi by done. injection Hi as ->. rewrite insert_app_r_alt, Nat.sub_diag by done. cbn. rewrite removelast_last. solve_Permutation.
  - assert (i < length k)%nat as Hl by (apply lookup_lt_Some in Hi; rewrite length_app in Hi; simpl in Hi; lia).
    rewrite lookup_app_l in Hi by done. rewrite insert_app_l by done. rewrite removelast_last.
    rewrite <- (take_drop_middle k i x Hi) at 1. rewrite (insert_take_drop k i y Hl). solve_Permutation.
Qed.

Section Pool.
Context {T : Type} `{EspaciosSpec T, !FisicaSpec}.
Implicit Types d : Dma (T := T).

(** The pages that wait in the list. *)
Definition en_pool (l : list (N * N)) : list N := l ≫= fun e => corrida e.1 e.2.
(** The devices and the rest of the kernel hold [otros]. *)
Definition dma_ok (otros : list N) d : Prop := mem_ok (otros ++ en_pool (dma_free d)) (mem d).
#[export] Instance mem_ok_proper : Proper ((≡ₚ) ==> eq ==> iff) (mem_ok (T := T)).
Proof. intros o o' Ho m m' <-. unfold mem_ok. by setoid_rewrite Ho. Qed.

(** No run of that many free frames. *)
Definition sin_corrida (pages : N) d : Prop := exists a, marcos (mem d) = Some a ∧ forall b, b mod 4096 = 0 -> ¬ corrida b pages ⊆ libres a.

Lemma del_frame_alloc_spec otros pages d : dma_ok otros d -> 0 < pages -> pages < 2 ^ 49 ->
  exists o d', del_frame_alloc pages d = (Ok o, d') ∧ desaloja (mem d) (mem d') ∧ dma_free d' = dma_free d ∧
    match o with Some p => dma_ok (corrida p pages ++ otros) d' | None => dma_ok otros d' ∧ sin_corrida pages d' end.
Proof.
  intros [Hq (a & Ha & Hr)] H0' Hp. unfold del_frame_alloc. rewrite bind_eq. unfold gets. rewrite Ha.
  destruct (take_contiguous_spec _ pages 1 a Hr) as (o & a' & Hrun & Hpe); [by split_and!|].
  change (take_contiguous pages 1) with (allocate_contiguous pages) in Hrun.
  rewrite bind_eq. unfold en_mem, zoom. rewrite (en_marcos_run _ _ _ _ _ Ha Hrun). eexists _, _. split; [done|].
  split; [by apply desaloja_refl|]. split; [done|]. destruct o as [f|]; cbn [fmap option_fmap option_map pedido] in *.
  - split; [done|]. exists a'. split; [done|]. destruct Hpe as (_ & _ & Hpe). cbn. by rewrite <- !(assoc_L (++)) in *.
  - destruct Hpe as (Hl & Hr' & Hno). split; [split; [done|]; by exists a'|]. exists a'. split; [done|]. intros b Hb Hsub. apply (Hno b Hb). intros x Hx. rewrite Hl. by apply Hsub.
Qed.

Definition alloc_ok (otros : list N) (pages : N) d (r : outcome unit N * Dma) : Prop :=
  match r with
  | (Ok p, d') => dma_ok (corrida p pages ++ otros) d' ∧ desaloja (mem d) (mem d')
  | (Panic, d') => dma_ok otros d' ∧ desaloja (mem d) (mem d') ∧ sin_corrida pages d'
  | _ => False
  end.

Lemma alloc_ok_tras otros pages d d' r : desaloja (mem d) (mem d') -> alloc_ok otros pages d' r -> alloc_ok otros pages d r.
Proof.
  intros Hd. unfold alloc_ok. destruct r as [[p|e| |] d2]; try done.
  - intros [H3' H4']. split; [done|]. by eapply desaloja_trans.
  - intros (H3' & H4' & H5'). split_and!; try done. by eapply desaloja_trans.
Qed.

Lemma rondas_spec otros pages l : 0 < pages -> pages < 2 ^ 49 -> Forall (fun r => r < 2 ^ 32) l -> forall d, dma_ok otros d -> sin_corrida pages d ->
  alloc_ok otros pages d ((mfind (fun ronda => n ← mul64 DMA_RECLAIM_LOTE ronda; en_mem (evict_batch n);; del_frame_alloc pages) l ≫= of_option panic) d).
Proof.
  intros H0' Hp. induction 1 as [|r l Hr _ IH]; intros d Hd Hs.
  { cbn. split; [done|]. split; [by apply desaloja_refl|done]. }
  cbn [mfind]. rewrite !bind_eq. assert (512 * 2 ^ 32 < U64) by done. rewrite mul64_run by (unfold DMA_RECLAIM_LOTE; lia). rewrite bind_eq.
  unfold en_mem at 1, zoom. destruct (evict_batch_spec _ (DMA_RECLAIM_LOTE * r) (mem d) Hd) as (m' & -> & Hm' & Hde).
  destruct (del_frame_alloc_spec otros pages (set_mem m' d) Hm' H0' Hp) as (o & d' & -> & Hde' & Hf & Ho).
  assert (desaloja (mem d) (mem d')) as Hdd by by eapply desaloja_trans.
  destruct o as [p|]; [by split|]. destruct Ho as [Hd' Hs']. specialize (IH d' Hd' Hs'). rewrite bind_eq in IH.
  eapply alloc_ok_tras; [exact Hdd|]. destruct (mfind _ l d') as [[[q|]|e| |] d2]; exact IH.
Qed.

Lemma alloc_pages_spec irq otros pages d : dma_ok otros d -> pages < 2 ^ 49 -> alloc_ok otros (N.max pages 1) d (alloc_pages irq pages d).
Proof.
  intros Hd Hp. assert (1 < 2 ^ 49) by done. unfold alloc_pages. set (n := N.max pages 1). assert (0 < n ∧ n < 2 ^ 49) as [Hn Hn'] by lia.
  rewrite bind_eq. unfold de_la_free_list at 1. rewrite bind_eq. unfold gets.
  destruct (list_find _ (dma_free d)) as [[i e]|] eqn:Ef.
  { apply list_find_Some in Ef as (Hi & He & _). rewrite bind_eq. unfold modify. cbn. split; [|by apply desaloja_refl].
    unfold dma_ok in *. cbn. apply swap_remove_perm in Hi. unfold en_pool in *. rewrite Hi in Hd. cbn in Hd. rewrite He in Hd.
    eapply mem_ok_proper; [|done|exact Hd]. solve_Permutation. }
  unfold mret at 1, M_ret. rewrite bind_eq. destruct (del_frame_alloc_spec otros n d Hd Hn Hn') as (o & d' & -> & Hde & _ & Ho).
  destruct o as [p|]; [by split|]. destruct Ho as [Hd' Hs']. destruct irq; [by split_and!|].
  assert (Forall (fun r => r < 2 ^ 32) (N.succ <$> upto DMA_RECLAIM_RONDAS)) as Hrondas.
  { apply Forall_forall. intros r (k & -> & Hk%elem_of_upto)%list_elem_of_fmap. assert (4 < 2 ^ 32) by done. unfold DMA_RECLAIM_RONDAS in Hk. lia. }
  pose proof (rondas_spec otros n _ Hn Hn' Hrondas d' Hd' Hs') as Hr.
  eapply alloc_ok_tras; [exact Hde|exact Hr].
Qed.

Lemma free_pages_spec otros p pages d : dma_ok (corrida p (N.max pages 1) ++ otros) d -> exists d', free_pages p pages d = (Ok tt, d') ∧ dma_ok otros d' ∧ mem d' = mem d.
Proof.
  intros Hd. eexists. split; [done|]. split; [|done]. unfold dma_ok in *. cbn. unfold en_pool in *. rewrite bind_app. cbn. rewrite app_nil_r.
  eapply mem_ok_proper; [|done|exact Hd]. solve_Permutation.
Qed.
End Pool.
