(* ===== verification/MemTeoremas.v ===== *)
(** * Physical memory: the properties

    The allocator of frames, reclaiming and the pages for devices, with a
    machine of a few pages for the concrete runs. *)
From S2P Require Import Prelude MemFrame MemLibres MemContiguo MemReclaim MemDma.
Local Open Scope N_scope.
#[local] Set Default Proof Using "Type*".

Section Uso.
Context `{FisicaSpec}.
Implicit Types s : BootInfoFrameAllocator.

(** What the kernel does with the allocator since boot: [d] are the frames in
    its hands. It gives back only what it was given. *)
Inductive uso : list N -> BootInfoFrameAllocator -> Prop :=
| uso_new rs s : mapa_ok rs -> frames_new rs tt = (Ok s, tt) -> uso [] s
| uso_frame d s f s' : uso d s -> allocate_frame s = (Ok (Some f), s') -> uso (start_address f :: d) s'
| uso_sin_frame d s s' : uso d s -> allocate_frame s = (Ok None, s') -> uso d s'
| uso_contiguo d s n f s' : uso d s -> 0 < n -> n < 2 ^ 49 -> allocate_contiguous n s = (Ok (Some f), s') ->
    uso (corrida (start_address f) n ++ d) s'
| uso_sin_contiguo d s n s' : uso d s -> 0 < n -> n < 2 ^ 49 -> allocate_contiguous n s = (Ok None, s') -> uso d s'
| uso_2m d s f s' : uso d s -> allocate_2m s = (Ok (Some f), s') -> uso (corrida (start_address f) 512 ++ d) s'
| uso_sin_2m d s s' : uso d s -> allocate_2m s = (Ok None, s') -> uso d s'
| uso_devuelve d d' f s s' : uso d s -> d ≡ₚ start_address f :: d' -> deallocate_frame f s = (Ok tt, s') -> uso d' s'
| uso_devuelve_2m d d' f s s' : uso d s -> d ≡ₚ corrida (start_address f) 512 ++ d' -> deallocate_2m f s = (Ok tt, s') -> uso d' s'.

Lemma frames_new_spec rs : mapa_ok rs -> exists s, frames_new rs tt = (Ok s, tt) ∧ reparto [] s ∧ regions s = rs.
Proof.
  intros Hm. pose proof Hm as [Hr Hd Ht]. assert (2 ^ 52 < U64) as Hu by done.
  assert (forall l acc, Forall (fun r => r_start r <= r_end r) l -> foldl (fun acc r => acc + (r_end r - r_start r) / 4096) acc l < U64 ->
    mfold (S := unit) (E := unit) (fun acc r => n ← sub64 (r_end r) (r_start r); add64 acc (n / 4096)) acc l tt = (Ok (foldl (fun acc r => acc + (r_end r - r_start r) / 4096) acc l), tt)) as Hfold.
  { clear. intros l. induction l as [|r l IH]; intros acc Hl Hb; [done|]. apply Forall_cons in Hl as [Hr Hl]. cbn [mfold foldl] in *.
    rewrite bind_eq, bind_eq, sub64_run by done.
    assert (forall l acc, acc <= foldl (fun acc r => acc + (r_end r - r_start r) / 4096) acc l) as Hmono.
    { clear. intros l. induction l as [|r l IH]; intros acc; [done|]. cbn. etransitivity; [|apply IH]. apply N.le_add_r. }
    specialize (Hmono l (acc + (r_end r - r_start r) / 4096)). rewrite add64_run by lia. by apply IH. }
  unfold frames_new. rewrite bind_eq, Hfold; [|apply Forall_forall; intros r [_ Hin]%list_elem_of_filter; by apply (proj1 (Forall_forall _ _) Hr r Hin)|eapply N.lt_trans; [exact Ht|exact Hu]].
  eexists. split; [done|]. split; [|done]. set (s := mkAlloc _ _ _ _ _ _ _).
  assert (restan s = todas rs) as Hre.
  { unfold restan. cbn. destruct rs as [|r rs]; [done|]. cbn. unfold paginas_de. by rewrite N.max_0_l. }
  split; [|unfold libres, altas; rewrite Hre; done]. split; try done; [by rewrite Hre|intros _; constructor].
Qed.

Lemma uso_reparto d s : uso d s -> reparto d s.
Proof.
  assert (1 < 2 ^ 49 ∧ 512 < 2 ^ 49) as [B1 B2] by done.
  assert (forall d s n al o s', reparto d s -> 0 < n -> n < 2 ^ 49 -> 0 < al -> al < 2 ^ 49 -> take_contiguous n al s = (Ok o, s') -> pedido d n (al * 4096) s o s') as Ht.
  { intros d0 s0 n al o s' Hr Hn Hn' Ha Ha' Hrun. destruct (take_contiguous_spec d0 n al s0 Hr) as (o2 & s2 & Hrun2 & Hp); [by split_and!|].
    rewrite Hrun in Hrun2. by injection Hrun2 as -> ->. }
  induction 1 as [rs s Hm Hn|d s f s' _ IH Hrun|d s s' _ IH Hrun|d s n f s' _ IH Hn Hn' Hrun|d s n s' _ IH Hn Hn' Hrun|d s f s' _ IH Hrun|d s s' _ IH Hrun
    |d d' f s s' _ IH Hd Hrun|d d' f s s' _ IH Hd Hrun].
  - destruct (frames_new_spec rs Hm) as (s2 & Hrun & Hr & _). rewrite Hn in Hrun. by injection Hrun as ->.
  - destruct (allocate_frame_spec d s IH) as (o & s2 & Hrun2 & Ho). rewrite Hrun in Hrun2. injection Hrun2 as <- <-. apply Ho.
  - destruct (allocate_frame_spec d s IH) as (o & s2 & Hrun2 & Ho). rewrite Hrun in Hrun2. injection Hrun2 as <- <-. apply Ho.
  - apply (Ht d s n 1 (Some f) s'); done.
  - apply (Ht d s n 1 None s'); done.
  - apply (Ht d s 512 512 (Some f) s'); done.
  - apply (Ht d s 512 512 None s'); done.
  - rewrite Hd in IH. destruct (deallocate_frame_spec d' f s IH) as (s2 & Hrun2 & Hr). rewrite Hrun in Hrun2. by injection Hrun2 as ->.
  - rewrite Hd in IH. destruct (deallocate_2m_spec d' f s IH) as (s2 & Hrun2 & Hr). rewrite Hrun in Hrun2. by injection Hrun2 as ->.
Qed.

Lemma total_alineadas rs : Forall (fun r => r_start r mod 4096 = 0 ∧ r_start r <= r_end r) rs -> total rs = lenN (todas rs).
Proof.
  intros Hr. unfold total. enough (forall acc, foldl (fun acc r => acc + (r_end r - r_start r) / 4096) acc (filter (fun r => r_usable r = true) rs) = acc + lenN (todas rs)) as Hg by apply Hg.
  induction Hr as [|r rs [Hal _] _ IH]; intros acc; [symmetry; apply N.add_0_r|]. unfold todas in *. rewrite bind_cons, lenN_app. unfold paginas_de at 1.
  destruct (r_usable r) eqn:Er; [rewrite filter_cons_True by done|rewrite filter_cons_False by (by rewrite Er)]; cbn [foldl]; rewrite IH.
  - rewrite paginas_length, arriba_id by done. by rewrite N.add_assoc.
  - rewrite lenN_nil. by rewrite N.add_0_l.
Qed.

(** C10. However the kernel takes and returns frames (one, a contiguous run, a
    block of 2 MiB), a frame is in one place: in the hands of one owner, in the
    free list or ahead of the cursor; together they are exactly the usable
    pages of the map above the first mebibyte, so no frame is given out twice,
    none is lost and none of the first mebibyte is given out. The count of free
    frames is the length of the list plus what the cursor has not reached, and
    no request panics. *)
Theorem marcos_exclusivos d s : uso d s ->
  NoDup (d ++ libres s) ∧ d ++ libres s ≡ₚ altas (regions s) ∧ Forall (fun a => 0x100000 <= a ∧ a mod 4096 = 0) d ∧
  (Forall (fun r => r_start r mod 4096 = 0) (regions s) -> free_frames s = (Ok (lenN (dirs s) + lenN (restan s)), s)) ∧
  (exists o s', allocate_frame s = (Ok o, s')) ∧ (exists o s', allocate_2m s = (Ok o, s')) ∧
  forall n, 0 < n -> n < 2 ^ 49 -> exists o s', allocate_contiguous n s = (Ok o, s').
Proof.
  intros Hu%uso_reparto. split; [by apply reparto_NoDup|]. split; [apply Hu|]. split_and!.
  - apply Forall_forall. intros a Ha. destruct (reparto_rango d s a Hu) as (? & ? & _); [set_solver|done].
  - intros Hal. rewrite (free_frames_spec _ _ Hu). rewrite total_alineadas; [do 2 f_equal; lia|].
    destruct Hu as [[[Hr _ _] _ _ _ _] _]. apply Forall_forall. intros r Hin. rewrite Forall_forall in Hal, Hr. by specialize (Hal r Hin); specialize (Hr r Hin) as [? _].
  - destruct (allocate_frame_spec d s Hu) as (o & s' & Hrun & _). eauto.
  - destruct (take_contiguous_spec d 512 512 s Hu) as (o & s' & Hrun & _); [by split_and!|]. eauto.
  - intros n Hn Hn'. destruct (take_contiguous_spec d n 1 s Hu) as (o & s' & Hrun & _); [by split_and!|]. eauto.
Qed.

(** C11. A request of [n] contiguous frames aligned to [al] is served exactly
    when somewhere there are [n] free pages in a row at that alignment, in the
    free list, ahead of the cursor or partly in both; it takes those pages and
    no other, and a refusal leaves the free frames as they were. *)
Theorem contiguo_exacto d n al s : reparto d s -> 0 < n -> n < 2 ^ 49 -> 0 < al -> al < 2 ^ 49 ->
  exists o s', take_contiguous n al s = (Ok o, s') ∧
    (is_Some o ↔ exists a, a mod (al * 4096) = 0 ∧ corrida a n ⊆ libres s) ∧
    match o with
    | Some f => start_address f mod (al * 4096) = 0 ∧ libres s ≡ₚ corrida (start_address f) n ++ libres s'
    | None => libres s' ≡ₚ libres s
    end.
Proof.
  intros Hr H1 H2 H3 H4. destruct (take_contiguous_spec d n al s Hr) as (o & s' & Hrun & Hp); [by split_and!|].
  exists o, s'. split; [done|]. destruct o as [f|]; cbn in Hp.
  - destruct Hp as (Hl & Ha & _). split; [|done]. split; [|by eauto]. intros _. exists (start_address f). split; [done|].
    intros x Hx. rewrite Hl. set_solver.
  - destruct Hp as (Hl & _ & Hno). split; [|done]. split; [by intros [? [=]]|]. intros (a & Ha & Hsub). by destruct (Hno a Ha).
Qed.
End Uso.

Section Paginas.
Context {T : Type} `{EspaciosSpec T, !FisicaSpec}.

(** C12. Reclaiming ends; the frames of the pages it unmaps go back to the
    allocator and to nobody else; no page that overlaps a pinned window is
    unmapped, whatever its mark; and it answers whether there are now as many
    free frames as were asked for, giving up below its target only when nothing
    but pinned pages is left in the queue. *)
Theorem fijadas_a_salvo otros need (m : Mem (T := T)) : mem_ok otros m -> need < 2 ^ 63 ->
  exists b m' n, ensure_free_frames need m = (Ok b, m') ∧ mem_ok otros m' ∧ libres_ahora m' n ∧ (b = true ↔ need <= n) ∧
    (forall k, fijada (pinchadas m) k -> mapeo (esp m') !! k = mapeo (esp m) !! k) ∧ mapeo (esp m') ⊆ mapeo (esp m) ∧
    (n < 1024 + need -> Forall (fun k => fijada (pinchadas m') k) (claves m')).
Proof.
  intros Hm Hn. unfold ensure_free_frames. rewrite bind_eq. unfold gets.
  assert (saturating_add64 WATERMARK_FRAMES need = 1024 + need) as ->.
  { unfold saturating_add64, WATERMARK_FRAMES. assert (2 ^ 63 + 1024 < U64_MAX) by done. lia. }
  destruct (liberar_spec otros need (1024 + need) (S (length (cola m))) m Hm ltac:(lia) ltac:(lia)) as (b & m' & n & ? & ? & [_ ? ?] & ? & ? & ?).
  by exists b, m', n.
Qed.

(** C13. A device gets contiguous pages that nobody else holds, from the list of
    returned blocks, from the allocator, or after reclaiming; no pinned page is
    reclaimed for it; the code panics only when after reclaiming there is no run
    of that many free frames; and what is returned is held by nobody. *)
Theorem dma_exclusivo irq otros pages (d : Dma (T := T)) : dma_ok otros d -> pages < 2 ^ 49 ->
  match alloc_pages irq pages d with
  | (Ok p, d') => dma_ok (corrida p (N.max pages 1) ++ otros) d' ∧ desaloja (mem d) (mem d') ∧
      exists d2, free_pages p pages d' = (Ok tt, d2) ∧ dma_ok otros d2
  | (Panic, d') => dma_ok otros d' ∧ desaloja (mem d) (mem d') ∧ sin_corrida (N.max pages 1) d'
  | _ => False
  end.
Proof.
  intros Hd Hp. pose proof (alloc_pages_spec irq otros pages d Hd Hp) as Ha. unfold alloc_ok in Ha.
  destruct (alloc_pages irq pages d) as [[p|e| |] d']; try done. destruct Ha as [Ha Hde]. split; [done|]. split; [done|].
  destruct (free_pages_spec otros p pages d' Ha) as (d2 & Hrun & Hd2 & _). by exists d2.
Qed.
End Paginas.

(** ** A small machine *)
(** A frame as its address. *)
Definition es_marco (a : N) : bool := (a mod 4096 =? 0) && (a <? 2 ^ 52).
#[local] Instance Fisica_N : Fisica := {|
  PhysFrame := { a : N | es_marco a = true };
  frame_at a := if a <? 2 ^ 52 then match decide (es_marco (a / 4096 * 4096) = true) with left p => Some (exist _ _ p) | right _ => None end else None;
  start_address := proj1_sig;
|}.
#[local] Instance FisicaSpec_N : FisicaSpec.
Proof.
  split.
  - intros a Ha Hl. cbn. rewrite (proj2 (N.ltb_lt _ _) Hl). assert (a / 4096 * 4096 = a) as He by (pose proof (mult4096 a Ha); lia).
    rewrite He. destruct (decide (es_marco a = true)) as [p|Hn]; [by exists (exist _ a p)|]. destruct Hn. unfold es_marco.
    by rewrite Ha, (proj2 (N.ltb_lt _ _) Hl).
  - intros [a Ha]. cbn. by apply andb_true_iff in Ha as [?%N.eqb_eq ?%N.ltb_lt].
  - intros [a Ha] [b Hb]. cbn. intros ->. f_equal. apply proof_irrel.
Defined.
#[local] Instance Espacios_N : Espacios (gmap Pagina PhysFrame) := {|
  vivo _ _ := true; pml4_phys sp := sp; unmap k t := (t !! k, delete k t);
|}.
#[local] Instance EspaciosSpec_N : EspaciosSpec (gmap Pagina PhysFrame).
Proof. refine {| mapeo t := t |}. by intros k t. Defined.

(** Two pages of low memory, three pages and one more. *)
Definition mapa_chico : list MemoryRegion :=
  [mkRegion 0x1000 0x3000 true; mkRegion 0x100000 0x103000 true; mkRegion 0x103000 0x105000 false; mkRegion 0x105000 0x106000 true].
Lemma mapa_chico_ok : mapa_ok mapa_chico.
Proof. split; [by repeat constructor|apply (bool_decide_unpack _); by vm_compute|done]. Qed.

Definition arranque : BootInfoFrameAllocator := mkAlloc mapa_chico 0 0 [] 6 0 true.
(** After a run of two frames. *)
Definition con_dos : BootInfoFrameAllocator := (allocate_contiguous 2 arranque).2.
Lemma con_dos_run : exists f, allocate_contiguous 2 arranque = (Ok (Some f), con_dos) ∧ start_address f = 0x100000.
Proof.
  unfold con_dos. assert (match (allocate_contiguous 2 arranque).1 with Ok (Some f) => start_address f =? 0x100000 | _ => false end = true) as Hc by (vm_compute; done).
  destruct (allocate_contiguous 2 arranque) as [[[f|]|e| |] s']; try done. cbn [fst snd] in *. exists f. split; [done|]. by apply N.eqb_eq.
Qed.
Lemma uso_dos : uso (corrida 0x100000 2) con_dos.
Proof.
  destruct con_dos_run as (f & Hrun & Hf). rewrite <- (app_nil_r (corrida _ _)), <- Hf. apply (uso_contiguo [] arranque 2 f con_dos); [|done|done|done].
  apply (uso_new mapa_chico arranque mapa_chico_ok). unfold frames_new. erewrite bind_run; [reflexivity|]. vm_compute. reflexivity.
Qed.

Lemma marcos_exclusivos_testigo : uso (corrida 0x100000 2) con_dos ∧ (0x101000 ∈ corrida 0x100000 2) ∧ NoDup (corrida 0x100000 2 ++ libres con_dos).
Proof.
  split; [exact uso_dos|]. split; [apply elem_of_corrida; by exists 1|]. apply (marcos_exclusivos _ _ uso_dos).
Defined.

Lemma contiguo_exacto_testigo : reparto (corrida 0x100000 2) con_dos ∧
  exists s', take_contiguous 2 1 con_dos = (Ok None, s') ∧ libres s' ≡ₚ libres con_dos.
Proof.
  assert (reparto (corrida 0x100000 2) con_dos) as Hr by apply uso_reparto, uso_dos. split; [exact Hr|].
  destruct (contiguo_exacto (corrida 0x100000 2) 2 1 con_dos Hr ltac:(done) ltac:(done) ltac:(done) ltac:(done)) as (o & s' & Hrun & _ & Ho).
  assert (match (take_contiguous 2 1 con_dos).1 with Ok None => true | _ => false end = true) as Hc by (vm_compute; done).
  rewrite Hrun in Hc. destruct o; [done|]. by exists s'.
Defined.

(** A space with one page mapped on a frame, and a pinned window elsewhere. *)
Definition maquina (f : PhysFrame) (pins : list (N * N * N)) : Mem (T := gmap Pagina PhysFrame) :=
  mkMem (Some con_dos) {[ (7, 0x4000, false) := f ]} [mkPage 7 7 0x4000 false true] pins.
Lemma maquina_ok f pins : start_address f = 0x100000 -> mem_ok [0x101000] (maquina f pins).
Proof.
  intros Hf. split; [by repeat constructor|]. exists con_dos. split; [done|]. cbn [esp maquina mapeo EspaciosSpec_N]. unfold mapeados.
  rewrite map_to_list_singleton. cbn [mbind list_bind fst snd]. rewrite Hf, corrida_1. 
  pose proof (uso_reparto _ _ uso_dos) as Hr. change 2 with (N.succ 1) in Hr. rewrite corrida_succ, corrida_1 in Hr.
  eapply reparto_proper; [|done|exact Hr]. change (0x100000 + 4096) with 0x101000. solve_Permutation.
Qed.

Lemma fijadas_a_salvo_testigo : exists f, mem_ok [0x101000] (maquina f [(7, 0x4010, 0x4020)]) ∧ fijada [(7, 0x4010, 0x4020)] (7, 0x4000, false) ∧
  exists b m', ensure_free_frames 3 (maquina f [(7, 0x4010, 0x4020)]) = (Ok b, m') ∧ mapeo (esp m') !! (7, 0x4000, false) = Some f.
Proof.
  destruct con_dos_run as (f & _ & Hf). exists f. split; [by apply maquina_ok|].
  assert (fijada [(7, 0x4010, 0x4020)] (7, 0x4000, false)) as Hfi by (exists 0x4010, 0x4020; split; [left|done]). split; [exact Hfi|].
  destruct (fijadas_a_salvo [0x101000] 3 (maquina f [(7, 0x4010, 0x4020)]) (maquina_ok f _ Hf) ltac:(done)) as (b & m' & n & Hrun & _ & _ & _ & Hk & _).
  exists b, m'. split; [exact Hrun|]. etransitivity; [exact (Hk _ Hfi)|]. apply lookup_singleton_eq.
Defined.

Lemma dma_exclusivo_testigo : exists f, let d := mkDma (maquina f []) [] in dma_ok [0x101000] d ∧
  exists p d', alloc_pages false 1 d = (Ok p, d') ∧ dma_ok (corrida p 1 ++ [0x101000]) d'.
Proof.
  destruct con_dos_run as (f & _ & Hf). exists f. cbn zeta. assert (dma_ok [0x101000] (mkDma (maquina f []) [])) as Hd by exact (maquina_ok f [] Hf).
  split; [exact Hd|]. pose proof (dma_exclusivo false [0x101000] 1 _ Hd ltac:(done)) as Ha. revert Ha.
  assert (match (alloc_pages false 1 (mkDma (maquina f []) [])).1 with Ok _ => true | _ => false end = true) as Hc by (vm_compute; reflexivity).
  destruct (alloc_pages false 1 (mkDma (maquina f []) [])) as [[p|e| |] d']; try discriminate Hc.
  intros (Ha & _). exists p, d'. split; [done|exact Ha].
Defined.
