(* ===== verification/Gpt.v ===== *)
(** * GUID partition tables

    [crates/gptdisk/src/lib.rs]: the header and its two checksums, the entries,
    what the installer and the resizing do to a table. *)
From S2P Require Import Prelude Texto SosofsLayout.
Local Open Scope N_scope.

Definition SECTOR : N := 512.
Definition SIGNATURE : list byte := txt "EFI PART".
Definition MIN_HEADER_SIZE : N := 92.

Inductive GptError := BadSignature | BadHeader | ShortEntries | TooSmall.

(** ** GUID *)
(** The 16 bytes on disk. *)
Definition Guid : Type := list byte.
Definition guid_is_zero (g : Guid) : bool := forallb (fun b => Byte.eqb b x00) g.

Definition hex_val (c : byte) : option N :=
  if in_byte 48 57 c then Some (Byte.to_N c - 48)
  else if in_byte 97 102 c then Some (Byte.to_N c - 97 + 10)
  else if in_byte 65 70 c then Some (Byte.to_N c - 65 + 10)
  else None.

(** The digits of [b], dashes left out. *)
Fixpoint nibbles (b : list byte) : option (list N) :=
  match b with
  | [] => Some []
  | c :: b =>
      if Byte.eqb c x2d then nibbles b
      else v ← hex_val c; ns ← nibbles b; Some (v :: ns)
  end.

(** With the dashes at their places there are at most 32 digits; the ones
    missing stay 0. *)
Definition guid_parse (s : str) : option Guid :=
  if negb (length s =? 36)%nat || negb (bool_decide ((s !! 8%nat, s !! 13%nat, s !! 18%nat, s !! 23%nat) = (Some x2d, Some x2d, Some x2d, Some x2d)))
  then None
  else
    ns ← nibbles s;
    let nib := ns ++ replicate (32 - length ns) 0 in
    let byte_ (i : nat) := byte_of (N.lor (N.shiftl (nth (i * 2) nib 0) 4) (nth (i * 2 + 1) nib 0)) in
    Some (byte_ <$> [3; 2; 1; 0; 5; 4; 7; 6; 8; 9; 10; 11; 12; 13; 14; 15]%nat).

Definition hex_digit (v : N) : byte := byte_of (if v <? 10 then 48 + v else 55 + v).
(** [{:02X}] *)
Definition hex2 (b : byte) : str := [hex_digit (N.shiftr (Byte.to_N b) 4); hex_digit (N.land (Byte.to_N b) 0xf)].
Definition guid_display (g : Guid) : str :=
  let b (i : nat) := hex2 (nth i g x00) in
  b 3%nat ++ b 2%nat ++ b 1%nat ++ b 0%nat ++ [x2d] ++ b 5%nat ++ b 4%nat ++ [x2d] ++ b 7%nat ++ b 6%nat ++ [x2d] ++ b 8%nat ++ b 9%nat ++ [x2d] ++
  concat (hex2 <$> drop 10 g).

(** ** CRC-32 *)
Definition crc32_bit (crc : N) : N := N.lxor (N.shiftr crc 1) (if N.odd crc then 0xEDB88320 else 0).
Definition crc32_byte (crc : N) (b : byte) : N := Nat.iter 8 crc32_bit (N.lxor crc (Byte.to_N b)).
Definition crc32_ieee (data : list byte) : N := N.lxor (foldl crc32_byte 0xFFFFFFFF data) 0xFFFFFFFF.

(** ** Header *)
Record Header := mkHeader {
  revision : N; header_size : N; my_lba : N; alternate_lba : N; first_usable : N; last_usable : N;
  disk_guid : Guid; entries_lba : N; num_entries : N; entry_size : N;
}.

Definition header_parse {S} (sec : list byte) : M S GptError Header :=
  if lenN sec <? SECTOR then throw BadHeader
  else if negb (bool_decide (take 8 sec = SIGNATURE)) then throw BadSignature
  else
    let header_size := field 12 4 sec in
    if negb ((MIN_HEADER_SIZE <=? header_size) && (header_size <=? SECTOR)) then throw BadHeader
    else
      let num_entries := field 80 4 sec in
      let entry_size := field 84 4 sec in
      if (num_entries =? 0) || (512 <? num_entries) || (entry_size <? 128) || negb (entry_size mod 8 =? 0) then throw BadHeader
      else mret (mkHeader (field 8 4 sec) header_size (field 24 8 sec) (field 32 8 sec) (field 40 8 sec) (field 48 8 sec)
                   (take 16 (drop 56 sec)) (field 72 8 sec) num_entries entry_size).

Definition entries_bytes (h : Header) : N := num_entries h * entry_size h.
Definition entries_sectors (h : Header) : N := div_ceil (entries_bytes h) SECTOR.

(** The sector with [crc] as the checksum of the header and [crce] as the one
    of the entries. *)
Definition header_sector (h : Header) (crc crce : N) : list byte :=
  SIGNATURE ++ u32 (revision h) ++ u32 (header_size h) ++ u32 crc ++ zeros 4 ++ u64 (my_lba h) ++ u64 (alternate_lba h) ++
  u64 (first_usable h) ++ u64 (last_usable h) ++ disk_guid h ++ u64 (entries_lba h) ++ u32 (num_entries h) ++ u32 (entry_size h) ++
  u32 crce ++ zeros 420.
Definition render {S E} (h : Header) (entries : list byte) : M S E (list byte) :=
  let crce := crc32_ieee (take (N.to_nat (N.min (entries_bytes h) (lenN entries))) entries) in
  b ← of_option panic (slice 0 (header_size h) (header_sector h 0 crce));
  mret (header_sector h (crc32_ieee b) crce).

(** ** Entries *)
(** Offset of entry [i]; [None] is [checked_mul]. *)
Definition entry_off (h : Header) (i : N) : option N := if i * entry_size h <? U64 then Some (i * entry_size h) else None.
Definition entry {S E} (entries : list byte) (h : Header) (i : N) : M S E (option (list byte)) :=
  match entry_off h i with
  | None => mret None
  | Some off => _ ← add64 off (entry_size h); mret (slice off (entry_size h) entries)
  end.

Definition rd64 {S E} (b : list byte) (off : nat) : M S E N := _ ← of_option panic (slice (N.of_nat off) 8 b); mret (field off 8 b).
Definition wr64 {S E} (b : list byte) (off v : N) : M S E (list byte) := of_option panic (put_slice off (u64 v) b).
Definition entry_first_lba {S E} (e : list byte) : M S E N := rd64 e 32.
Definition entry_last_lba {S E} (e : list byte) : M S E N := rd64 e 40.
Definition set_entry_first_lba {S E} (e : list byte) (lba : N) : M S E (list byte) := wr64 e 32 lba.
Definition set_entry_last_lba {S E} (e : list byte) (lba : N) : M S E (list byte) := wr64 e 40 lba.
Definition entry_type {S E} (e : list byte) : M S E Guid := of_option panic (slice 0 16 e).
Definition entry_unique {S E} (e : list byte) : M S E Guid := of_option panic (slice 16 16 e).
Definition entry_used {S E} (e : list byte) : M S E bool := g ← entry_type e; mret (negb (guid_is_zero g)).

(** [if let Some(e) = entry_mut(entries, hdr, i) { f(e) }]: the array after. *)
Definition con_entrada {S E} (entries : list byte) (h : Header) (i : N) (f : list byte -> M S E (list byte)) : M S E (list byte) :=
  o ← entry entries h i;
  match o with
  | Some e => e' ← f e; of_option panic (put_slice (i * entry_size h) e' entries)
  | None => mret entries
  end.

(** UTF-16 code units as ASCII, other characters as [?]; [n] are left. *)
Fixpoint nombre_ascii (n : nat) (off : nat) (e : list byte) (max : nat) : str :=
  match n with
  | O => []
  | S n =>
      if (length e <=? off + 1)%nat || (max =? 0)%nat then []
      else
        let c := field off 2 e in
        if c =? 0 then []
        else (if (0x20 <=? c) && (c <? 0x7f) then byte_of c else x3f) :: nombre_ascii n (off + 2) e (max - 1)
  end.
Definition entry_name_ascii (e : list byte) (max : nat) : str := nombre_ascii 36 56 e max.

(** The indices of the loops [for i in 0..num_entries]. *)
Definition indices (h : Header) : list N := upto (num_entries h).

(** The entry whose end is the highest, the last of them if several. *)
Fixpoint mejor_usada {S E} (entries : list byte) (h : Header) (ks : list N) (best : option (N * N)) : M S E (option (N * N)) :=
  match ks with
  | [] => mret best
  | i :: ks =>
      o ← entry entries h i;
      match o with
      | None => mret best
      | Some e =>
          u ← entry_used e;
          if negb u then mejor_usada entries h ks best
          else
            last ← entry_last_lba e;
            mejor_usada entries h ks
              (match best with
               | Some (lba, _) => if lba <=? last then Some (last, i) else best
               | None => Some (last, i)
               end)
      end
  end.
Definition last_used {S E} (entries : list byte) (h : Header) : M S E (option N) :=
  b ← mejor_usada entries h (indices h) None; mret (snd <$> b).
Definition used_count {S E} (entries : list byte) (h : Header) : M S E N :=
  mfold (fun n i => o ← entry entries h i; match o with Some e => u ← entry_used e; mret (if u : bool then n + 1 else n) | None => mret n end) 0 (indices h).

(** ** Relayout *)
Record Plan := mkPlan {
  primary_header_lba : N; primary_entries_lba : N; backup_entries_lba : N; backup_header_lba : N; plan_sectors : N;
}.

(** No used entry leaves [[first, last]]. *)
Fixpoint caben {S} (entries : list byte) (h : Header) (first last : N) (ks : list N) : M S GptError unit :=
  match ks with
  | [] => mret tt
  | i :: ks =>
      o ← entry entries h i;
      match o with
      | None => mret tt
      | Some e =>
          u ← entry_used e;
          if negb u then caben entries h first last ks
          else
            l ← entry_last_lba e;
            if last <? l then throw TooSmall
            else
              f ← entry_first_lba e;
              if f <? first then throw TooSmall else caben entries h first last ks
      end
  end.

(** The header and the entries after it, and where they go. *)
Definition relayout {S} (h : Header) (entries : list byte) (disk_sectors : N) : M S GptError (Header * list byte * Plan) :=
  if lenN entries <? entries_bytes h then throw ShortEntries
  else
    let esec := entries_sectors h in
    if disk_sectors <? 2 * esec + 4 then throw TooSmall
    else
      backup_header_lba ← sub64 disk_sectors 1;
      backup_entries_lba ← sub64 backup_header_lba esec;
      last_usable ← sub64 backup_entries_lba 1;
      let first_usable := 2 + esec in
      if last_usable <=? first_usable then throw TooSmall
      else
        caben entries h first_usable last_usable (indices h);;
        o ← last_used entries h;
        entries ← match o with
                  | Some i => con_entrada entries h i (fun e => l ← entry_last_lba e; if l <? last_usable then wr64 e 40 last_usable else mret e)
                  | None => mret entries
                  end;
        mret (mkHeader (revision h) (header_size h) 1 backup_header_lba first_usable last_usable (disk_guid h) 2 (num_entries h) (entry_size h),
              entries, mkPlan 1 2 backup_entries_lba backup_header_lba esec).

Definition con_lbas (h : Header) (my alternate entries : N) : Header :=
  mkHeader (revision h) (header_size h) my alternate (first_usable h) (last_usable h) (disk_guid h) entries (num_entries h) (entry_size h).
Definition render_primary {S E} (h : Header) (entries : list byte) (p : Plan) : M S E (list byte) :=
  render (con_lbas h (primary_header_lba p) (backup_header_lba p) (primary_entries_lba p)) entries.
Definition render_backup {S E} (h : Header) (entries : list byte) (p : Plan) : M S E (list byte) :=
  render (con_lbas h (backup_header_lba p) (primary_header_lba p) (backup_entries_lba p)) entries.

(** [mbr] has 512 bytes. *)
Definition protective_mbr_fix {S E} (mbr : list byte) (disk_sectors : N) : M S E (list byte) :=
  d ← sub64 disk_sectors 1;
  of_option panic (
    m ← put_slice 446 [x00] mbr; m ← put_slice 450 [xee] m; m ← put_slice 454 (u32 1) m;
    m ← put_slice 458 (u32 (N.min d 0xFFFFFFFF)) m; put_slice 510 [x55; xaa] m).

(** ** Random identifiers *)
Record Rng := mkRng { s0 : N; s1 : N }.
Definition splitmix (z : N) : N :=
  let x := wrapping_mul64 (N.lxor z (N.shiftr z 30)) 0xBF58476D1CE4E5B9 in
  let x := wrapping_mul64 (N.lxor x (N.shiftr x 27)) 0x94D049BB133111EB in
  N.lxor x (N.shiftr x 31).
Definition rng_new (seed : N) : Rng :=
  let z := wrapping_add64 seed 0x9E3779B97F4A7C15 in
  let z1 := wrapping_add64 z 0x9E3779B97F4A7C15 in
  let z2 := wrapping_add64 z1 0x9E3779B97F4A7C15 in
  mkRng (splitmix z1) (splitmix z2).
Definition next_u64 (r : Rng) : N * Rng :=
  let x := s0 r in
  let y := s1 r in
  let x := N.lxor x (N.shiftl x 23 mod U64) in
  let s1 := N.lxor (N.lxor (N.lxor x y) (N.shiftr x 17)) (N.shiftr y 26) in
  (wrapping_add64 s1 y, mkRng y s1).
Definition rng_guid (r : Rng) : Guid * Rng :=
  let '(a, r) := next_u64 r in
  let '(b, r) := next_u64 r in
  let g := u64 a ++ u64 b in
  let g := alter (fun x => byte_of (N.lor (N.land (Byte.to_N x) 0x0f) 0x40)) 7%nat g in
  (alter (fun x => byte_of (N.lor (N.land (Byte.to_N x) 0x3f) 0x80)) 8%nat g, r).

Fixpoint reseed_entradas {S E} (h : Header) (ks : list N) (entries : list byte) (r : Rng) : M S E (list byte * Rng) :=
  match ks with
  | [] => mret (entries, r)
  | i :: ks =>
      o ← entry entries h i;
      match o with
      | None => mret (entries, r)
      | Some e =>
          u ← entry_used e;
          if u : bool then
            let '(g, r) := rng_guid r in
            entries ← con_entrada entries h i (fun e => of_option panic (put_slice 16 g e));
            reseed_entradas h ks entries r
          else reseed_entradas h ks entries r
      end
  end.
Definition reseed_guids {S E} (h : Header) (entries : list byte) (r : Rng) : M S E (Header * list byte * Rng) :=
  let '(g, r) := rng_guid r in
  let h := mkHeader (revision h) (header_size h) (my_lba h) (alternate_lba h) (first_usable h) (last_usable h) g (entries_lba h) (num_entries h) (entry_size h) in
  '(entries, r) ← reseed_entradas h (indices h) entries r;
  mret (h, entries, r).

(** ** A bigger root partition *)
Definition MAX_ROOT_SECTORS : N := 64 * 1024 * 1024 * 1024 / 512.
Definition GROW_ALIGN : N := 2048.
Record GrowRoot := mkGrow { head_sectors : N; delta : N }.

Definition plan_grow_root {S E} (h : Header) (entries : list byte) (root dst_sectors copy_sectors : N) : M S E GrowRoot :=
  let ninguno := mkGrow 0 0 in
  o ← entry entries h root;
  match o with
  | None => mret ninguno
  | Some e =>
      u ← entry_used e;
      if negb u then mret ninguno
      else
        l ← entry_last_lba e;
        head ← add64 l 1;
        if copy_sectors <? head then mret ninguno
        else
          f ← entry_first_lba e;
          actual ← sub64 head f;
          let deseado := N.max (N.min (dst_sectors / 4) MAX_ROOT_SECTORS) actual in
          c ← add64 copy_sectors GROW_ALIGN;
          let cabe := dst_sectors - c in
          d ← sub64 deseado actual;
          let delta := N.min d cabe in
          mret (mkGrow head (delta - delta mod GROW_ALIGN))
  end.

(** [for i in 0..num_entries] of [apply_grow_root]. *)
Fixpoint desplazar {S E} (h : Header) (root root_last delta tope : N) (ks : list N) (entries : list byte) : M S E (list byte) :=
  match ks with
  | [] => mret entries
  | i :: ks =>
      o ← entry entries h i;
      match o with
      | None => mret entries
      | Some e =>
          u ← entry_used e;
          if negb u then desplazar h root root_last delta tope ks entries
          else if i =? root then
            l ← add64 root_last delta;
            entries ← con_entrada entries h i (fun e => set_entry_last_lba e l);
            desplazar h root root_last delta tope ks entries
          else
            f ← entry_first_lba e;
            if root_last <? f then
              first ← add64 f delta;
              l ← entry_last_lba e;
              l ← add64 l delta;
              let last := N.max (N.min l tope) first in
              entries ← con_entrada entries h i (fun e => e ← set_entry_first_lba e first; set_entry_last_lba e last);
              desplazar h root root_last delta tope ks entries
            else desplazar h root root_last delta tope ks entries
      end
  end.
Definition apply_grow_root {S E} (h : Header) (entries : list byte) (root delta disk_sectors : N) : M S E (list byte) :=
  if delta =? 0 then mret entries
  else
    o ← entry entries h root;
    match o with
    | None => mret entries
    | Some e =>
        root_last ← entry_last_lba e;
        tope ← add64 (entries_sectors h) 2;
        desplazar h root root_last delta (disk_sectors - tope) (indices h) entries
    end.

(** ** Kinds of partition *)
Definition T_ESP : str := txt "C12A7328-F81F-11D2-BA4B-00A0C93EC93B".
Definition T_LINUX : str := txt "0FC63DAF-8483-4772-8E79-3D69D8477DE4".
Definition T_SWAP : str := txt "0657FD6D-A4AB-43C4-84E5-0933C84B4F4F".
Definition T_LVM : str := txt "E6D6D379-F507-44C2-A23C-238F2A3DF928".
Definition T_RAID : str := txt "A19D880F-05FC-4D3B-A006-743F0F84911E".
Definition T_MSDATA : str := txt "EBD0A0A2-B9E5-4433-87C0-68B6B72699C7".
Definition T_MSRESERVED : str := txt "E3C9E316-0B5C-4DB8-817D-F92DF00215AE".
Definition T_WINRE : str := txt "DE94BBA4-06D1-4D40-A16A-BFD50179D6AC".
Definition T_LINUX_HOME : str := txt "933AC7E1-2EB4-4F13-B844-0E14E2AEF915".
Definition T_LINUX_ROOT_X64 : str := txt "4F68BCE3-E8CD-4DB1-96E7-FBCAF984B709".
Definition T_BIOSBOOT : str := txt "21686148-6449-6E6F-744E-656564454649".

Definition known : list (str * str) :=
  [(T_ESP, txt "ESP"); (T_LINUX, txt "linux"); (T_LINUX_ROOT_X64, txt "linux-root"); (T_LINUX_HOME, txt "linux-home"); (T_SWAP, txt "swap");
   (T_LVM, txt "lvm"); (T_RAID, txt "raid"); (T_MSDATA, txt "windows"); (T_MSRESERVED, txt "ms-reserved"); (T_WINRE, txt "windows-recovery");
   (T_BIOSBOOT, txt "bios-boot")].
Definition type_label (t : Guid) : str :=
  match list_find (fun '(g, _) => guid_parse g = Some t) known with
  | Some (_, (_, label)) => label
  | None => txt "desconocido"
  end.
Definition is_foreign (t : Guid) : bool :=
  bool_decide (type_label t ∈ (txt <$> ["swap"; "lvm"; "raid"; "windows"; "ms-reserved"; "windows-recovery"; "linux-root"; "linux-home"; "bios-boot"]%string)).

Definition NAME_SOSOINSTALL : str := txt "SOSOINSTALL".
Definition entry_is_foreign {S E} (e : list byte) : M S E bool :=
  t ← entry_type e;
  if negb (is_foreign t) then mret false
  else mret (negb (bool_decide (type_label t = txt "windows") && bool_decide (entry_name_ascii e 36 = NAME_SOSOINSTALL))).
