(* ===== verification/GptTabla.v ===== *)
(** * Partition tables as lists of entries

    The array of bytes is the concatenation of its entries; reading, writing and
    rendering a table in those terms. *)
From S2P Require Import Prelude Texto SosofsLayout Gpt.
Local Open Scope N_scope.

(** ** Header *)
Record cabecera_wf (h : Header) : Prop := {
  cw_revision : revision h < 2 ^ 32;
  cw_size : MIN_HEADER_SIZE <= header_size h ∧ header_size h <= SECTOR;
  cw_lbas : my_lba h < U64 ∧ alternate_lba h < U64 ∧ first_usable h < U64 ∧ last_usable h < U64 ∧ entries_lba h < U64;
  cw_guid : length (disk_guid h) = 16%nat;
  cw_entries : 0 < num_entries h ∧ num_entries h <= 512;
  cw_entry : 128 <= entry_size h ∧ entry_size h < 2 ^ 32 ∧ entry_size h mod 8 = 0;
}.

Lemma header_sector_length h crc crce : length (disk_guid h) = 16%nat -> lenN (header_sector h crc crce) = 512.
Proof. intros Hg. unfold header_sector, lenN. rewrite !length_app, Hg. len_norm. done. Qed.

Lemma lxor_lt a b n : a < 2 ^ n -> b < 2 ^ n -> N.lxor a b < 2 ^ n.
Proof.
  intros Ha Hb. destruct (N.eq_dec (N.lxor a b) 0) as [->|Hn]; [apply N.neq_0_lt_0, N.pow_nonzero; done|].
  destruct (N.eq_dec n 0) as [->|Hn0]; [cbn in *; replace a with 0 in * by lia; replace b with 0 in * by lia; done|].
  apply N.log2_lt_pow2; [by apply N.neq_0_lt_0|]. eapply N.le_lt_trans; [apply N.log2_lxor|].
  assert (forall x, x < 2 ^ n -> N.log2 x < n) as Hl.
  { intros x Hx. destruct (N.eq_dec x 0) as [->|]; [cbn; lia|]. apply N.log2_lt_pow2; [by apply N.neq_0_lt_0|done]. }
  pose proof (Hl a Ha). pose proof (Hl b Hb). lia.
Qed.
Lemma crc32_bit_lt c : c < 2 ^ 32 -> crc32_bit c < 2 ^ 32.
Proof.
  intros Hc. unfold crc32_bit. apply lxor_lt; [|by destruct (N.odd c)].
  rewrite N.shiftr_div_pow2. eapply N.le_lt_trans; [|exact Hc]. by apply N.Div0.div_le_upper_bound; change (2 ^ 1) with 2; lia.
Qed.
Lemma crc32_lt data : crc32_ieee data < 2 ^ 32.
Proof.
  unfold crc32_ieee. apply lxor_lt; [|done]. assert (forall c, c < 2 ^ 32 -> foldl crc32_byte c data < 2 ^ 32) as Hf; [|by apply Hf].
  induction data as [|b data IH]; intros c Hc; [done|]. cbn. apply IH. unfold crc32_byte.
  apply (Nat.iter_invariant 8 N crc32_bit (fun c => c < 2 ^ 32)); [intros x; apply crc32_bit_lt|].
  apply lxor_lt; [done|]. pose proof (byte_to_N_lt b). eapply N.lt_trans; [eassumption|done].
Qed.

(** The check value of the algorithm. *)
Example crc32_ieee_check : crc32_ieee (txt "123456789") = 0xCBF43926.
Proof. vm_compute. reflexivity. Qed.

Section Campos.
Context (h : Header) (crc crce : N) (Hw : cabecera_wf h) (Hc : crc < 2 ^ 32) (Hce : crce < 2 ^ 32).
#[local] Set Default Proof Using "All".
#[local] Ltac campo :=
  unfold header_sector; destruct Hw as [H1 [H2a H2b] (H3 & H4 & H5 & H6 & H7) H8 [H9 H10] (H11 & H12 & H13)];
  assert (512 < 2 ^ 32) by done; unfold SECTOR in *; field_solve.
Lemma campo_revision : field 8 4 (header_sector h crc crce) = revision h. Proof. campo. Qed.
Lemma campo_size : field 12 4 (header_sector h crc crce) = header_size h. Proof. campo. Qed.
Lemma campo_crc : field 16 4 (header_sector h crc crce) = crc. Proof. campo. Qed.
Lemma campo_my : field 24 8 (header_sector h crc crce) = my_lba h. Proof. campo. Qed.
Lemma campo_alternate : field 32 8 (header_sector h crc crce) = alternate_lba h. Proof. campo. Qed.
Lemma campo_first : field 40 8 (header_sector h crc crce) = first_usable h. Proof. campo. Qed.
Lemma campo_last : field 48 8 (header_sector h crc crce) = last_usable h. Proof. campo. Qed.
Lemma campo_entries : field 72 8 (header_sector h crc crce) = entries_lba h. Proof. campo. Qed.
Lemma campo_num : field 80 4 (header_sector h crc crce) = num_entries h. Proof. campo. Qed.
Lemma campo_esize : field 84 4 (header_sector h crc crce) = entry_size h. Proof. campo. Qed.
Lemma campo_crce : field 88 4 (header_sector h crc crce) = crce. Proof. campo. Qed.
Lemma campo_guid : take 16 (drop 56 (header_sector h crc crce)) = disk_guid h.
Proof.
  destruct Hw as [_ _ _ H8 _ _]. unfold header_sector. unfold u32, u64.
  do 9 (rewrite drop_app_ge by (len_norm; simpl; lia); len_norm; simpl Nat.sub). rewrite drop_0. by apply take_app_length'.
Qed.

Lemma header_parse_sector {S} (s : S) : header_parse (header_sector h crc crce) s = (Ok h, s).
Proof.
  unfold header_parse. rewrite campo_size, campo_num, campo_esize, campo_revision, campo_my, campo_alternate, campo_first, campo_last, campo_entries, campo_guid.
  destruct Hw as [H1 [H2a H2b] H3 H8 [H9 H10] (H11 & H12 & H13)]. rewrite header_sector_length by done.
  change (512 <? SECTOR) with false. cbv iota. rewrite bool_decide_eq_true_2.
  2:{ unfold header_sector. by apply take_app_length'. }
  cbn [negb]. rewrite (proj2 (N.leb_le _ _) H2a), (proj2 (N.leb_le _ _) H2b). cbn [andb negb].
  destruct (N.eqb_spec (num_entries h) 0); [lia|]. destruct (N.ltb_spec 512 (num_entries h)); [lia|].
  destruct (N.ltb_spec (entry_size h) 128); [lia|]. rewrite H13. cbn. by destruct h.
Qed.
End Campos.

Lemma render_run {S E} h entries (s : S) : cabecera_wf h ->
  exists b, render (E := E) h entries s = (Ok (header_sector h (crc32_ieee b) (crc32_ieee (take (N.to_nat (N.min (entries_bytes h) (lenN entries))) entries))), s) ∧
    b = take (N.to_nat (header_size h)) (header_sector h 0 (crc32_ieee (take (N.to_nat (N.min (entries_bytes h) (lenN entries))) entries))).
Proof.
  intros Hw. unfold render. set (crce := crc32_ieee (take _ entries)). unfold slice. rewrite header_sector_length by apply Hw.
  destruct Hw as [_ [_ H2] _ _ _ _]. rewrite N.add_0_l. unfold SECTOR in H2. rewrite (proj2 (N.leb_le _ _) H2). cbn [of_option]. eexists. split; [reflexivity|].
  by rewrite drop_0.
Qed.

(** ** The array of entries *)
Lemma concat_uniforme_length (es : list (list byte)) sz : Forall (fun e => lenN e = sz) es -> lenN (concat es) = lenN es * sz.
Proof. induction 1 as [|e es He _ IH]; [done|]. cbn. rewrite lenN_app, lenN_cons, IH, He. lia. Qed.
Lemma slice_concat (es : list (list byte)) sz i : Forall (fun e => lenN e = sz) es -> 0 < sz ->
  slice (i * sz) sz (concat es) = es !! N.to_nat i.
Proof.
  intros Hes Hsz. destruct (es !! N.to_nat i) as [e|] eqn:Ei.
  - pose proof (take_drop_middle _ _ _ Ei) as Hm. rewrite <- Hm in Hes |- *. apply Forall_app in Hes as [Hpre [He Hsuf]%Forall_cons].
    rewrite concat_app. cbn. assert (lenN (take (N.to_nat i) es) = i) as Hi.
    { apply lookup_lt_Some in Ei. unfold lenN. rewrite length_take. lia. }
    pose proof (concat_uniforme_length _ _ Hpre) as Hl. rewrite Hi in Hl. rewrite slice_app_r by lia. rewrite Hl, N.sub_diag.
    rewrite slice_app_l by lia. by apply slice_all.
  - apply lookup_ge_None_1 in Ei. unfold slice. rewrite (concat_uniforme_length es sz) by done.
    destruct (N.leb_spec (i * sz + sz) (lenN es * sz)); [|done]. unfold lenN in *. nia.
Qed.
Lemma put_concat (es : list (list byte)) sz i e e' : Forall (fun e => lenN e = sz) es -> es !! N.to_nat i = Some e -> lenN e' = sz ->
  put_slice (i * sz) e' (concat es) = Some (concat (<[N.to_nat i := e']> es)).
Proof.
  intros Hes Ei He'. pose proof (lookup_lt_Some _ _ _ Ei) as Hlt.
  rewrite (insert_take_drop es _ e' Hlt). rewrite <- (take_drop_middle _ _ _ Ei) in Hes at 1. rewrite <- (take_drop_middle _ _ _ Ei) at 1.
  apply Forall_app in Hes as [Hpre [He Hsuf]%Forall_cons]. rewrite !concat_app. cbn. apply put_slice_app; [|lia].
  rewrite (concat_uniforme_length _ sz) by done. unfold lenN. rewrite length_take. replace (N.of_nat (N.to_nat i `min` length es)) with i by lia. done.
Qed.

(** A well-formed table: the entries have their size. *)
Record tabla (h : Header) (es : list (list byte)) : Prop := {
  ta_wf : cabecera_wf h;
  ta_num : lenN es = num_entries h;
  ta_size : Forall (fun e => lenN e = entry_size h) es;
}.
Definition usada (e : list byte) : bool := negb (guid_is_zero (take 16 e)).
Definition primero (e : list byte) : N := field 32 8 e.
Definition ultimo (e : list byte) : N := field 40 8 e.

Section Forma.
Context (h : Header) (es : list (list byte)) (Ht : tabla h es).
#[local] Set Default Proof Using "All".
Lemma tabla_bytes : lenN (concat es) = entries_bytes h.
Proof. destruct Ht as [_ Hn Hs]. rewrite (concat_uniforme_length _ _ Hs), Hn. done. Qed.
Lemma off_small i : i <= num_entries h -> i * entry_size h + entry_size h < U64.
Proof.
  destruct Ht as [[_ _ _ _ [_ H1] (_ & H2 & _)] _ _]. intros Hi. assert (512 * 2 ^ 32 + 2 ^ 32 < U64) by done.
  assert (i * entry_size h <= 512 * 2 ^ 32) by (apply N.mul_le_mono; lia). lia.
Qed.
Lemma tabla_lookup i e : es !! i = Some e -> lenN e = entry_size h ∧ 128 <= lenN e ∧ N.of_nat i < num_entries h.
Proof.
  intros He. destruct Ht as [[_ _ _ _ _ (H1 & _)] Hn Hs]. pose proof (Forall_lookup_1 _ _ _ _ Hs He) as Hl. cbv beta in Hl. apply lookup_lt_Some in He. unfold lenN in *. lia.
Qed.
Lemma tabla_insert i e' : lenN e' = entry_size h -> tabla h (<[i := e']> es).
Proof.
  intros Hl. destruct Ht as [Hw Hn Hs]. split; [done|unfold lenN in *; by rewrite length_insert|by apply Forall_insert].
Qed.
End Forma.

Section Tabla.
Context {S E : Type} (h : Header) (es : list (list byte)) (Ht : tabla h es).
#[local] Set Default Proof Using "All".
Implicit Types s : S.

Lemma entry_run i s : i <= num_entries h -> entry (E := E) (concat es) h i s = (Ok (es !! N.to_nat i), s).
Proof.
  intros Hi. pose proof (off_small h es Ht i Hi) as Ho. unfold entry, entry_off. rewrite (proj2 (N.ltb_lt _ _)) by lia.
  rewrite bind_eq, add64_run by done. destruct Ht as [[_ _ _ _ _ (H1 & _)] _ Hs]. rewrite slice_concat; [done|done|lia].
Qed.
Lemma con_entrada_run i e e' f s : es !! N.to_nat i = Some e -> f e s = (Ok e', s) -> lenN e' = entry_size h ->
  con_entrada (E := E) (concat es) h i f s = (Ok (concat (<[N.to_nat i := e']> es)), s).
Proof.
  intros He Hf Hl. destruct (tabla_lookup h es Ht _ _ He) as (_ & _ & Hi). unfold con_entrada. rewrite bind_eq, entry_run by lia. rewrite He, bind_eq, Hf.
  rewrite (put_concat es (entry_size h) i e e'); [done|apply Ht|done|done].
Qed.
End Tabla.

(** ** One entry *)
Section Entrada.
Context {S E : Type} (e : list byte) (He : 128 <= lenN e).
#[local] Set Default Proof Using "All".
Lemma rd64_run off (s : S) : (off <= 120)%nat -> rd64 (E := E) e off s = (Ok (field off 8 e), s).
Proof. intros Ho. unfold rd64, slice. rewrite (proj2 (N.leb_le _ _)) by lia. done. Qed.
Lemma first_run (s : S) : entry_first_lba (E := E) e s = (Ok (primero e), s). Proof. apply rd64_run. lia. Qed.
Lemma last_run (s : S) : entry_last_lba (E := E) e s = (Ok (ultimo e), s). Proof. apply rd64_run. lia. Qed.
Lemma used_run (s : S) : entry_used (E := E) e s = (Ok (usada e), s).
Proof. unfold entry_used, entry_type, slice. rewrite (proj2 (N.leb_le _ _)) by lia. done. Qed.
End Entrada.

(** The entry with another range. *)
Definition pon64 (e : list byte) (off : nat) (v : N) : list byte := take off e ++ u64 v ++ drop (off + 8) e.
Lemma wr64_run {S E} e off v (s : S) : N.of_nat off + 8 <= lenN e -> wr64 (E := E) e (N.of_nat off) v s = (Ok (pon64 e off v), s).
Proof.
  intros Ho. unfold wr64, put_slice. unfold lenN at 1, u64 at 1. rewrite le_bytes_length. rewrite (proj2 (N.leb_le _ _)) by lia. cbn [of_option].
  rewrite Nat2N.id. unfold u64. rewrite le_bytes_length. done.
Qed.
Lemma pon64_length e off v : N.of_nat off + 8 <= lenN e -> lenN (pon64 e off v) = lenN e.
Proof. intros Ho. unfold pon64, lenN in *. rewrite !length_app, length_take, length_drop. unfold u64. rewrite le_bytes_length. lia. Qed.
Lemma pon64_here e off v : N.of_nat off + 8 <= lenN e -> v < U64 -> field off 8 (pon64 e off v) = v.
Proof.
  intros Ho Hv. unfold pon64, lenN in *. rewrite field_skip by (rewrite length_take; lia). rewrite length_take.
  replace (off - off `min` length e)%nat with 0%nat by lia. by apply field_here.
Qed.
Lemma pon64_antes e off off2 n v : N.of_nat off + 8 <= lenN e -> (off2 + n <= off)%nat -> take n (drop off2 (pon64 e off v)) = take n (drop off2 e).
Proof.
  intros Ho Hl. unfold pon64, lenN in *. rewrite drop_app_le by (rewrite length_take; lia). rewrite take_app_le by (rewrite length_drop, length_take; lia).
  rewrite skipn_firstn_comm, firstn_firstn. f_equal. lia.
Qed.
Lemma pon64_despues e off off2 n v : N.of_nat off + 8 <= lenN e -> (off + 8 <= off2)%nat -> take n (drop off2 (pon64 e off v)) = take n (drop off2 e).
Proof.
  intros Ho Hl. unfold pon64, lenN in *. rewrite drop_app_ge by (rewrite length_take; lia). rewrite length_take.
  rewrite drop_app_ge by (unfold u64; rewrite le_bytes_length; lia). unfold u64. rewrite le_bytes_length, drop_drop. do 2 f_equal. lia.
Qed.
(** Setting the end keeps the rest, and the same for the start. *)
Definition pon_ultimo (e : list byte) (v : N) : list byte := pon64 e 40 v.
Definition pon_primero (e : list byte) (v : N) : list byte := pon64 e 32 v.
Section Rango.
Context (e : list byte) (v : N) (He : 128 <= lenN e) (Hv : v < U64).
#[local] Set Default Proof Using "All".
Lemma pon_ultimo_ok : ultimo (pon_ultimo e v) = v ∧ primero (pon_ultimo e v) = primero e ∧ usada (pon_ultimo e v) = usada e ∧ lenN (pon_ultimo e v) = lenN e.
Proof.
  split_and!; [by apply pon64_here; [lia|]| | |by apply pon64_length; lia].
  - unfold primero, field, pon_ultimo. rewrite pon64_antes; [done|lia|lia].
  - unfold usada, pon_ultimo. rewrite <- (drop_0 (pon64 e 40 v)), pon64_antes by lia. by rewrite drop_0.
Qed.
Lemma pon_primero_ok : primero (pon_primero e v) = v ∧ ultimo (pon_primero e v) = ultimo e ∧ usada (pon_primero e v) = usada e ∧ lenN (pon_primero e v) = lenN e.
Proof.
  split_and!; [by apply pon64_here; [lia|]| | |by apply pon64_length; lia].
  - unfold ultimo, field, pon_primero. rewrite pon64_despues; [done|lia|lia].
  - unfold usada, pon_primero. rewrite <- (drop_0 (pon64 e 32 v)), pon64_antes by lia. by rewrite drop_0.
Qed.
End Rango.
