(* ===== verification/GptTeoremas.v ===== *)
(** * Partition tables: what the operations do, and the properties

    Identifiers read back; relayout accepts exactly the tables that fit and
    stretches the last partition; growing the root moves what is behind it. *)
From S2P Require Import Prelude Texto SosofsLayout Gpt GptTabla.
Local Open Scope N_scope.

(** ** Identifiers *)
Lemma hex_digit_ok v : v < 16 -> hex_val (hex_digit v) = Some v ∧ Byte.eqb (hex_digit v) x2d = false.
Proof.
  intros Hv. assert (Forall (fun v => hex_val (hex_digit v) = Some v ∧ Byte.eqb (hex_digit v) x2d = false) (upto 16)) as Hf.
  { apply (bool_decide_unpack _). vm_compute. exact I. }
  apply (proj1 (Forall_forall _ _) Hf). by apply elem_of_upto.
Qed.
Definition nib_hi (b : byte) : N := N.shiftr (Byte.to_N b) 4.
Definition nib_lo (b : byte) : N := N.land (Byte.to_N b) 0xf.
Lemma nib_lt b : nib_hi b < 16 ∧ nib_lo b < 16.
Proof. by destruct b. Qed.
Lemma nib_byte b : byte_of (N.lor (N.shiftl (nib_hi b) 4) (nib_lo b)) = b.
Proof. by destruct b. Qed.
Lemma nibbles_hex2 b l : nibbles (hex2 b ++ l) = ns ← nibbles l; Some (nib_hi b :: nib_lo b :: ns).
Proof.
  destruct (nib_lt b) as [Hh Hl]. destruct (hex_digit_ok _ Hh) as [H1 H2], (hex_digit_ok _ Hl) as [H3 H4].
  unfold hex2. fold (nib_hi b) (nib_lo b). cbn [app nibbles]. rewrite H2, H1, H4, H3. cbn. by destruct (nibbles l).
Qed.
Lemma nibbles_dash l : nibbles (x2d :: l) = nibbles l.
Proof. done. Qed.
Lemma nibbles_hexs l r : nibbles (concat (hex2 <$> l) ++ r) = ns ← nibbles r; Some ((l ≫= fun b => [nib_hi b; nib_lo b]) ++ ns).
Proof.
  induction l as [|b l IH]; [cbn; by destruct (nibbles r)|]. rewrite fmap_cons, bind_cons. cbn [concat].
  rewrite <- (assoc_L (++)), nibbles_hex2, IH. by destruct (nibbles r).
Qed.
Lemma guid_redondo g : length g = 16%nat -> guid_parse (guid_display g) = Some g.
Proof.
  intros Hg. do 16 (destruct g as [|? g]; [done|]). destruct g; [|done].
  set (s := guid_display _).
  assert (length s = 36%nat) as Hl by reflexivity.
  assert ((s !! 8%nat, s !! 13%nat, s !! 18%nat, s !! 23%nat) = (Some x2d, Some x2d, Some x2d, Some x2d)) as Hd by reflexivity.
  unfold guid_parse. rewrite Hl, Hd, bool_decide_eq_true_2 by done. cbn [negb Nat.eqb orb].
  assert (nibbles s = Some ([b2; b1; b0; b; b4; b3; b6; b5; b7; b8; b9; b10; b11; b12; b13; b14] ≫= fun b => [nib_hi b; nib_lo b])) as ->.
  { unfold s, guid_display. cbn [nth drop]. rewrite !nibbles_hex2. cbn [app]. rewrite nibbles_dash, !nibbles_hex2, nibbles_dash, !nibbles_hex2, nibbles_dash, !nibbles_hex2, nibbles_dash.
    rewrite <- (app_nil_r (concat _)), nibbles_hexs. reflexivity. }
  cbn [mbind option_bind list_bind fmap list_fmap app length Nat.sub replicate nth Nat.mul Nat.add]. by rewrite !nib_byte.
Qed.

(** ** Loops over the entries *)
(** The entry is free or lies in [[first, last]]. *)
Definition dentro (first last : N) (e : list byte) : bool := negb (usada e) || ((ultimo e <=? last) && (first <=? primero e)).

Section Bucles.
Context {X : Type} (h : Header) (es : list (list byte)) (Ht : tabla h es).
#[local] Set Default Proof Using "Ht".
Implicit Types s : X.

(** A list of consecutive indices from [k] reads the entries from [k]. *)
Definition desde (k : nat) : list N := N.of_nat <$> seq k (length es - k).
Lemma indices_desde : indices h = desde 0.
Proof. unfold indices, upto, desde. do 2 f_equal. pose proof (ta_num _ _ Ht). unfold lenN in *. lia. Qed.
Lemma desde_cons k e : es !! k = Some e -> desde k = N.of_nat k :: desde (S k).
Proof.
  intros He%lookup_lt_Some. unfold desde. replace (length es - k)%nat with (S (length es - S k)) by lia. done.
Qed.
Lemma desde_nil k : es !! k = None -> desde k = [].
Proof. intros He%lookup_ge_None_1. unfold desde. by replace (length es - k)%nat with 0%nat by lia. Qed.

Lemma entrada_run {E} k e s : es !! k = Some e -> entry (E := E) (concat es) h (N.of_nat k) s = (Ok (Some e), s).
Proof. intros He. destruct (tabla_lookup h es Ht _ _ He) as (_ & _ & Hk). rewrite entry_run by (done || lia). by rewrite Nat2N.id, He. Qed.

Lemma caben_run first last n : forall k s, (length es - k = n)%nat ->
  caben (concat es) h first last (desde k) s = (if forallb (dentro first last) (drop k es) then Ok tt else Err TooSmall, s).
Proof.
  induction n as [|n IH]; intros k s Hn.
  { rewrite desde_nil by (apply lookup_ge_None_2; lia). rewrite drop_ge by lia. done. }
  destruct (lookup_lt_is_Some_2 es k ltac:(lia)) as [e He]. rewrite (desde_cons _ _ He), (drop_S _ _ _ He). cbn [caben forallb].
  rewrite bind_eq, (entrada_run _ _ _ He). destruct (tabla_lookup h es Ht _ _ He) as (_ & Hl & _).
  rewrite bind_eq, used_run by done. unfold dentro at 1. destruct (usada e); cbn [negb orb].
  2:{ apply IH. lia. }
  rewrite bind_eq, last_run by done. rewrite N.leb_antisym. destruct (last <? ultimo e); cbn [negb andb]; [done|].
  rewrite bind_eq, first_run by done. rewrite N.leb_antisym. destruct (primero e <? first); cbn [negb andb]; [done|]. apply IH. lia.
Qed.

(** The last of the used entries with the highest end. *)
Definition mejor (k : nat) (best : option (N * N)) : option (N * N) :=
  foldl (fun best ie => if usada ie.2 then match best with Some (lba, _) => if lba <=? ultimo ie.2 then Some (ultimo ie.2, ie.1) else best | None => Some (ultimo ie.2, ie.1) end else best)
    best (zip (desde k) (drop k es)).
Lemma mejor_run {E} n : forall k best s, (length es - k = n)%nat -> mejor_usada (E := E) (concat es) h (desde k) best s = (Ok (mejor k best), s).
Proof.
  unfold mejor. induction n as [|n IH]; intros k best s Hn.
  { rewrite desde_nil by (apply lookup_ge_None_2; lia). done. }
  destruct (lookup_lt_is_Some_2 es k ltac:(lia)) as [e He]. rewrite (desde_cons _ _ He), (drop_S _ _ _ He). cbn [mejor_usada zip foldl].
  rewrite bind_eq, (entrada_run _ _ _ He). destruct (tabla_lookup h es Ht _ _ He) as (_ & Hl & _).
  rewrite bind_eq, used_run by done. cbn [zip_with foldl fst snd]. destruct (usada e); cbn [negb]; [|apply IH; lia].
  rewrite bind_eq, last_run by done. apply IH. lia.
Qed.
(** The entries before [k] end no later than the best one. *)
Definition mejor_ok (k : nat) (best : option (N * N)) : Prop :=
  match best with
  | Some (l, i) => exists e, es !! N.to_nat i = Some e ∧ (N.to_nat i < k)%nat ∧ usada e = true ∧ ultimo e = l ∧
      forall j e', (j < k)%nat -> es !! j = Some e' -> usada e' = true -> ultimo e' <= l
  | None => forall j e', (j < k)%nat -> es !! j = Some e' -> usada e' = false
  end.
Lemma mejor_spec n : forall k best, (length es - k = n)%nat -> mejor_ok k best -> mejor_ok (length es) (mejor k best).
Proof.
  unfold mejor. induction n as [|n IH]; intros k best Hn Hb.
  { rewrite desde_nil by (apply lookup_ge_None_2; lia). cbn. destruct best as [[l i]|]; cbn in *.
    - destruct Hb as (e & H1 & H2 & H3 & H4 & H5). exists e. split_and!; try done; [by eapply lookup_lt_Some|]. intros j e' Hj He'. apply (H5 j); [apply lookup_lt_Some in He'; lia|done].
    - intros j e' Hj He'. apply (Hb j); [lia|done]. }
  destruct (lookup_lt_is_Some_2 es k ltac:(lia)) as [e He]. rewrite (desde_cons _ _ He), (drop_S _ _ _ He). cbn [zip_with zip foldl fst snd].
  apply IH; [lia|]. assert (forall j e', (j < S k)%nat -> es !! j = Some e' -> (j < k)%nat ∨ e' = e) as Hj.
  { intros j e' Hj Hje. destruct (decide (j = k)) as [->|]; [right; congruence|left; lia]. }
  destruct (usada e) eqn:Eu.
  - destruct best as [[l i]|]; cbn in Hb.
    + destruct Hb as (e0 & H1 & H2 & H3 & H4 & H5). destruct (N.leb_spec l (ultimo e)) as [Hle|Hgt]; cbn.
      * exists e. rewrite Nat2N.id. split_and!; try done; [lia|]. intros j e' Hjk Hje Hu. destruct (Hj _ _ Hjk Hje) as [Hjk'| ->]; [|done].
        etransitivity; [by apply (H5 j)|done].
      * exists e0. split_and!; try done; [lia|]. intros j e' Hjk Hje Hu. destruct (Hj _ _ Hjk Hje) as [Hjk'| ->]; [by apply (H5 j)|lia].
    + cbn. exists e. rewrite Nat2N.id. split_and!; try done; [lia|]. intros j e' Hjk Hje Hu. destruct (Hj _ _ Hjk Hje) as [Hjk'| ->]; [|done].
      rewrite (Hb j e') in Hu; done.
  - destruct best as [[l i]|]; cbn in *.
    + destruct Hb as (e0 & H1 & H2 & H3 & H4 & H5). exists e0. split_and!; try done; [lia|].
      intros j e' Hjk Hje Hu. destruct (Hj _ _ Hjk Hje) as [Hjk'| ->]; [by apply (H5 j)|congruence].
    + intros j e' Hjk Hje. destruct (Hj _ _ Hjk Hje) as [Hjk'| ->]; [by apply (Hb j)|done].
Qed.
Lemma last_used_run {E} s : exists o, last_used (E := E) (concat es) h s = (Ok o, s) ∧
  match o with
  | Some i => exists e, es !! N.to_nat i = Some e ∧ usada e = true ∧ forall j e', es !! j = Some e' -> usada e' = true -> ultimo e' <= ultimo e
  | None => forall j e', es !! j = Some e' -> usada e' = false
  end.
Proof.
  unfold last_used. rewrite bind_eq, indices_desde, (mejor_run (length es)) by lia. eexists. split; [reflexivity|].
  pose proof (mejor_spec (length es) 0 None ltac:(lia)) as Hm. destruct (mejor 0 None) as [[l i]|]; cbn in *.
  - destruct Hm as (e & H1 & H2 & H3 & H4 & H5); [intros; lia|]. exists e. split_and!; try done. intros j e' Hj Hu. rewrite H4. apply (H5 j); [by eapply lookup_lt_Some|done|done].
  - intros j e' Hj. apply (Hm ltac:(intros; lia) j); [by eapply lookup_lt_Some|done].
Qed.
End Bucles.

(** ** Relayout *)
(** Used entries do not overlap and are not empty. *)
Record disjunta (es : list (list byte)) : Prop := {
  dj_rango : forall i e, es !! i = Some e -> usada e = true -> primero e <= ultimo e;
  dj_sin_solape : forall i j e f, i ≠ j -> es !! i = Some e -> es !! j = Some f -> usada e = true -> usada f = true ->
    ultimo e < primero f ∨ ultimo f < primero e;
}.
(** What relayout may do to the entries: the end of a last one becomes
    [last]. *)
Inductive estirada (last : N) (es : list (list byte)) : list (list byte) -> Prop :=
| es_vacia : (forall i e, es !! i = Some e -> usada e = false) -> estirada last es es
| es_ultima i e e' : es !! i = Some e -> usada e = true -> (forall j f, es !! j = Some f -> usada f = true -> ultimo f <= ultimo e) ->
    ultimo e' = last -> primero e' = primero e -> usada e' = true -> take 32 e' = take 32 e -> drop 48 e' = drop 48 e -> estirada last es (<[i := e']> es).
Lemma estirada_disjunta last es es' : disjunta es -> (forall i e, es !! i = Some e -> usada e = true -> ultimo e <= last) -> estirada last es es' -> disjunta es'.
Proof.
  intros [Hr Hs] Hlast [Hno|i e e' Hi Hu Hmax Hl Hp Hu' _ _]; [done|]. pose proof (lookup_lt_Some _ _ _ Hi) as Hlt.
  pose proof (Hlast _ _ Hi Hu). pose proof (Hr _ _ Hi Hu). split.
  - intros j f Hj Huf. destruct (decide (i = j)) as [->|Hij].
    + rewrite list_lookup_insert_eq in Hj by done. simplify_eq. lia.
    + rewrite list_lookup_insert_ne in Hj by done. by apply (Hr j).
  - assert (forall j f, j ≠ i -> es !! j = Some f -> usada f = true -> ultimo f < primero e') as Hotro.
    { intros j f Hji Hj Huf. pose proof (Hmax _ _ Hj Huf). pose proof (Hr _ _ Hj Huf).
      destruct (Hs j i f e Hji Hj Hi Huf Hu); lia. }
    intros j k f g Hjk Hj Hk Huf Hug. destruct (decide (j = i)) as [->|Hji].
    + rewrite list_lookup_insert_eq in Hj by done. rewrite list_lookup_insert_ne in Hk by done. simplify_eq. right. by apply (Hotro k).
    + rewrite list_lookup_insert_ne in Hj by done. destruct (decide (k = i)) as [->|Hki].
      * rewrite list_lookup_insert_eq in Hk by done. simplify_eq. left. by apply (Hotro j).
      * rewrite list_lookup_insert_ne in Hk by done. by apply (Hs j k).
Qed.

(** The header for a disk of that many sectors, and the places of the table. *)
Definition en_disco (h : Header) (disk : N) : Header :=
  mkHeader (revision h) (header_size h) 1 (disk - 1) (2 + entries_sectors h) (disk - 2 - entries_sectors h) (disk_guid h) 2 (num_entries h) (entry_size h).
Definition plan_en (h : Header) (disk : N) : Plan := mkPlan 1 2 (disk - 1 - entries_sectors h) (disk - 1) (entries_sectors h).
Definition cabe_en (h : Header) (disk : N) (es : list (list byte)) : bool :=
  (2 * entries_sectors h + 4 <? disk) && forallb (dentro (2 + entries_sectors h) (disk - 2 - entries_sectors h)) es.

Lemma sectores_lt h : cabecera_wf h -> entries_sectors h < 2 ^ 33.
Proof.
  intros [_ _ _ _ [_ H1] (_ & H2 & _)]. unfold entries_sectors, entries_bytes. eapply N.le_lt_trans; [apply (div_ceil_le _ _ (2 ^ 32)); [done|]|done].
  change SECTOR with 512. rewrite (N.mul_comm (2 ^ 32)). apply N.mul_le_mono; lia.
Qed.
Lemma tabla_en_disco h disk es : tabla h es -> disk < U64 -> tabla (en_disco h disk) es.
Proof.
  intros [[H1 H2 H3 H4 H5 H6] Hn Hs] Hd. split; [|done|done]. split; try done. cbn.
  pose proof (sectores_lt h ltac:(by split)). assert (2 + 2 ^ 33 < U64) by done. assert (2 < U64 ∧ 1 < U64) as [? ?] by done. split_and!; lia.
Qed.

Lemma relayout_run {S} h es disk (s : S) : tabla h es -> disk < U64 ->
  if cabe_en h disk es
  then exists es', relayout h (concat es) disk s = (Ok (en_disco h disk, concat es', plan_en h disk), s) ∧ tabla (en_disco h disk) es' ∧
    estirada (disk - 2 - entries_sectors h) es es'
  else relayout h (concat es) disk s = (Err TooSmall, s).
Proof.
  intros Ht Hd. pose proof (sectores_lt h (ta_wf _ _ Ht)) as Hes. unfold relayout. rewrite (tabla_bytes h es Ht), N.ltb_irrefl.
  set (esec := entries_sectors h) in *. unfold cabe_en. fold esec.
  destruct (N.ltb_spec disk (2 * esec + 4)) as [Hs|Hs].
  { by destruct (N.ltb_spec (2 * esec + 4) disk); [lia|]. }
  rewrite bind_eq, sub64_run by lia. rewrite bind_eq, sub64_run by lia. rewrite bind_eq, sub64_run by lia.
  replace (disk - 1 - esec - 1) with (disk - 2 - esec) by lia.
  destruct (N.leb_spec (disk - 2 - esec) (2 + esec)) as [Hm|Hm].
  { by destruct (N.ltb_spec (2 * esec + 4) disk); [lia|]. }
  destruct (N.ltb_spec (2 * esec + 4) disk) as [_|]; [|lia]. cbn [andb].
  rewrite bind_eq, (indices_desde h es Ht), (caben_run h es Ht _ _ (length es)) by lia. rewrite drop_0.
  destruct (forallb (dentro (2 + esec) (disk - 2 - esec)) es) eqn:Hfit; [|done].
  destruct (last_used_run h es Ht (E := GptError) s) as (o & Ho & Hbest). rewrite bind_eq, Ho. rewrite bind_eq.
  assert (disk - 2 - esec < U64) as Hlu by lia.
  destruct o as [i|].
  2:{ exists es. split; [done|]. split; [by apply tabla_en_disco|]. by constructor. }
  destruct Hbest as (e & He & Hu & Hmax). destruct (tabla_lookup h es Ht _ _ He) as (Hel & Hl & _).
  set (e' := if ultimo e <? disk - 2 - esec then pon_ultimo e (disk - 2 - esec) else e).
  destruct (pon_ultimo_ok e (disk - 2 - esec) Hl Hlu) as (P1 & P2 & P3 & P4).
  assert (lenN e' = entry_size h) as He' by (unfold e'; destruct (ultimo e <? disk - 2 - esec); congruence).
  rewrite (con_entrada_run h es Ht i e e'); [|done| |done].
  2:{ rewrite bind_eq, last_run by done. unfold e'. destruct (ultimo e <? disk - 2 - esec); [|done]. apply (wr64_run e 40). lia. }
  exists (<[N.to_nat i := e']> es). split; [done|]. split; [by apply tabla_insert; [by apply tabla_en_disco|]|].
  assert (ultimo e <= disk - 2 - esec) as Hle.
  { apply forallb_forall with (x := e) in Hfit; [|apply list_elem_of_In; by eapply list_elem_of_lookup_2]. unfold dentro in Hfit. rewrite Hu in Hfit.
    cbn in Hfit. apply andb_true_iff in Hfit as [?%N.leb_le _]. done. }
  apply es_ultima with e; [done|done|done|..]; unfold e'; destruct (N.ltb_spec (ultimo e) (disk - 2 - esec)); try done; try congruence.
  - lia.
  - unfold pon_ultimo. rewrite <- (drop_0 (pon64 e 40 _)), pon64_antes by lia. by rewrite drop_0.
  - unfold pon_ultimo. rewrite <- (firstn_all (drop 48 (pon64 e 40 (disk - 2 - esec)))), pon64_despues by lia.
    rewrite take_ge; [done|]. rewrite !length_drop. unfold pon_ultimo, lenN in *. lia.
Qed.

(** ** Growing the root *)
Definition movida (root root_last delta tope : N) (i : N) (e : list byte) : list byte :=
  if negb (usada e) then e
  else if i =? root then pon_ultimo e (root_last + delta)
  else if root_last <? primero e
       then pon_ultimo (pon_primero e (primero e + delta)) (N.max (N.min (ultimo e + delta) tope) (primero e + delta))
       else e.
(** No end overflows when it moves. *)
Definition holgura (delta : N) (es : list (list byte)) : Prop :=
  Forall (fun e => usada e = true -> ultimo e + delta < U64 ∧ primero e <= ultimo e) es.

Section Mover.
Context (root root_last delta tope : N).
Lemma movida_ok i e : 128 <= lenN e -> root_last + delta < U64 -> (usada e = true -> ultimo e + delta < U64 ∧ primero e <= ultimo e) ->
  let e' := movida root root_last delta tope i e in
  lenN e' = lenN e ∧ usada e' = usada e ∧
  (usada e = true -> i = root -> primero e' = primero e ∧ ultimo e' = root_last + delta) ∧
  (usada e = true -> i ≠ root -> root_last < primero e -> primero e' = primero e + delta ∧ ultimo e' = N.max (N.min (ultimo e + delta) tope) (primero e + delta)) ∧
  (usada e = false ∨ (i ≠ root ∧ primero e <= root_last) -> e' = e).
Proof.
  intros Hl Hrl Hh. unfold movida. destruct (usada e) eqn:Eu; cbn [negb].
  2:{ split_and!; try done. }
  destruct (Hh eq_refl) as [Ho Hr]. destruct (N.eqb_spec i root) as [->|Hne].
  { destruct (pon_ultimo_ok e (root_last + delta) Hl Hrl) as (P1 & P2 & P3 & P4). split_and!; try done; [congruence|]. intros [|[? _]]; done. }
  destruct (N.ltb_spec root_last (primero e)) as [Hb|Hb].
  2:{ split_and!; try done. intros _ _. lia. }
  destruct (pon_primero_ok e (primero e + delta) Hl ltac:(lia)) as (Q1 & Q2 & Q3 & Q4).
  destruct (pon_ultimo_ok (pon_primero e (primero e + delta)) (N.max (N.min (ultimo e + delta) tope) (primero e + delta)) ltac:(lia) ltac:(lia)) as (P1 & P2 & P3 & P4).
  split_and!; try congruence; try done.
  - intros _ _ _. split; congruence.
  - intros [|[_ ?]]; [done|lia].
Qed.

Lemma desplazar_run {S} h es n : tabla h es -> holgura delta es -> root_last + delta < U64 -> forall k cur (s : S), (length es - k = n)%nat ->
  length cur = length es -> tabla h cur -> drop k cur = drop k es ->
  desplazar (E := GptError) h root root_last delta tope (desde es k) (concat cur) s =
    (Ok (concat (take k cur ++ imap (fun i e => movida root root_last delta tope (N.of_nat (k + i)) e) (drop k es))), s).
Proof.
  intros Ht Hh Hrl. induction n as [|n IH]; intros k cur s Hn Hlen Hc Hd.
  { rewrite (desde_nil h es Ht) by (apply lookup_ge_None_2; lia). rewrite (drop_ge es) by lia. cbn. rewrite take_ge by lia. by rewrite app_nil_r. }
  destruct (lookup_lt_is_Some_2 es k ltac:(lia)) as [e He].
  assert (cur !! k = Some e) as Hce.
  { rewrite <- (Nat.add_0_r k), <- lookup_drop, Hd, lookup_drop, Nat.add_0_r. done. }
  rewrite (desde_cons h es Ht _ _ He), (drop_S _ _ _ He). cbn [desplazar]. destruct (tabla_lookup h cur Hc _ _ Hce) as (Hle & Hl & _).
  pose proof (Forall_lookup_1 _ _ _ _ Hh He) as Hhe. cbv beta in Hhe.
  destruct (movida_ok (N.of_nat k) e Hl Hrl Hhe) as (M1 & M2 & _).
  set (e' := movida root root_last delta tope (N.of_nat k) e) in *.
  assert (forall cur', cur' = <[k := e']> cur -> desplazar (E := GptError) h root root_last delta tope (desde es (Datatypes.S k)) (concat cur') s =
    (Ok (concat (take k cur ++ imap (fun i e => movida root root_last delta tope (N.of_nat (k + i)) e) (e :: drop (Datatypes.S k) es))), s)) as Hsig.
  { intros cur' ->. rewrite IH; [|lia|by rewrite length_insert|apply tabla_insert; [done|congruence]|].
    - do 3 f_equal. rewrite imap_cons. rewrite Nat.add_0_r. fold e'.
      erewrite take_S_r by (apply list_lookup_insert_eq; lia). rewrite take_insert_ge by lia. rewrite <- (assoc_L (++)). cbn. do 2 f_equal.
      apply imap_ext. intros i x _. cbn. do 2 f_equal. lia.
    - rewrite drop_insert_lt by lia. replace (Datatypes.S k) with (k + 1)%nat by lia. by rewrite <- !drop_drop, Hd. }
  rewrite bind_eq, (entrada_run h cur Hc _ _ _ Hce), bind_eq, used_run by done.
  unfold movida in e'. destruct (usada e) eqn:Eu; cbn [negb] in *.
  2:{ apply Hsig. symmetry. by apply list_insert_id. }
  destruct (Hhe eq_refl) as [Ho Hr]. destruct (N.eqb_spec (N.of_nat k) root) as [Hkr|Hne].
  { rewrite bind_eq, add64_run by done. rewrite bind_eq. rewrite (con_entrada_run h cur Hc (N.of_nat k) e e').
    - rewrite Nat2N.id. by apply Hsig.
    - by rewrite Nat2N.id.
    - apply (wr64_run e 40). lia.
    - congruence. }
  rewrite bind_eq, first_run by done. destruct (N.ltb_spec root_last (primero e)) as [Hb|Hb].
  2:{ apply Hsig. symmetry. by apply list_insert_id. }
  rewrite bind_eq, add64_run by lia. rewrite bind_eq, last_run by done. rewrite bind_eq, add64_run by lia. rewrite bind_eq.
  rewrite (con_entrada_run h cur Hc (N.of_nat k) e e').
  - rewrite Nat2N.id. by apply Hsig.
  - by rewrite Nat2N.id.
  - rewrite bind_eq. unfold set_entry_first_lba. rewrite (wr64_run e 32) by lia. apply (wr64_run _ 40). rewrite pon64_length by lia. lia.
  - congruence.
Qed.
End Mover.

(** The table after: [r] ends [d] later, what was behind it starts [d] later. *)
Definition crecida (h : Header) (r : nat) (e : list byte) (d dst : N) (es es' : list (list byte)) : Prop :=
  forall i f, es !! i = Some f -> exists f', es' !! i = Some f' ∧ usada f' = usada f ∧
    (d = 0 ∨ usada f = false ∨ (i ≠ r ∧ primero f <= ultimo e) -> f' = f) ∧
    (usada f = true -> i = r -> primero f' = primero f ∧ ultimo f' = ultimo e + d) ∧
    (usada f = true -> i ≠ r -> ultimo e < primero f -> 0 < d ->
      primero f' = primero f + d ∧ ultimo f' = N.max (N.min (ultimo f + d) (dst - (entries_sectors h + 2))) (primero f + d)).

Lemma plan_grow_run {S} h es r e dst copy (s : S) : tabla h es -> es !! N.to_nat r = Some e -> usada e = true -> primero e <= ultimo e ->
  ultimo e + 1 < U64 -> copy + 2048 < U64 ->
  exists g, plan_grow_root (E := GptError) h (concat es) r dst copy s = (Ok g, s) ∧ delta g mod 2048 = 0 ∧
    (0 < delta g -> head_sectors g = ultimo e + 1 ∧ head_sectors g <= copy ∧ copy + 2048 + delta g <= dst).
Proof.
  intros Ht He Hu Hr Hb1 Hb2. destruct (tabla_lookup h es Ht _ _ He) as (_ & Hl & Hi). unfold plan_grow_root.
  rewrite bind_eq, entry_run by (done || lia). rewrite He, bind_eq, used_run by done. rewrite Hu. cbn [negb].
  rewrite bind_eq, last_run by done. rewrite bind_eq, add64_run by done.
  destruct (N.ltb_spec copy (ultimo e + 1)) as [Hc|Hc]; [by exists (mkGrow 0 0)|].
  rewrite bind_eq, first_run by done. rewrite bind_eq, sub64_run by lia. unfold GROW_ALIGN. rewrite bind_eq, add64_run by done.
  rewrite bind_eq, sub64_run by apply N.le_max_r. eexists. split; [reflexivity|]. cbn [delta head_sectors].
  set (d := N.min _ (dst - (copy + 2048))). pose proof (N.div_mod d 2048 ltac:(done)) as Hd. pose proof (N.mod_lt d 2048 ltac:(done)) as Hm.
  assert (d - d mod 2048 = d / 2048 * 2048) as -> by lia. split; [apply N.Div0.mod_mul|]. intros Hpos. split; [done|]. split; [done|].
  assert (d <= dst - (copy + 2048)) by apply N.le_min_r. assert (d / 2048 * 2048 <= d) by (pose proof (N.Div0.mul_div_le d 2048); lia). lia.
Qed.

Lemma apply_grow_run {S} h es r e d dst (s : S) : tabla h es -> es !! N.to_nat r = Some e -> usada e = true -> holgura d es ->
  entries_sectors h + 2 < U64 ->
  exists es', apply_grow_root (E := GptError) h (concat es) r d dst s = (Ok (concat es'), s) ∧ tabla h es' ∧ crecida h (N.to_nat r) e d dst es es'.
Proof.
  intros Ht He Hu Hh Hb. destruct (tabla_lookup h es Ht _ _ He) as (_ & Hl & Hi). unfold apply_grow_root.
  pose proof (Forall_lookup_1 _ _ _ _ Hh He Hu) as [Hrl _]. cbv beta in Hrl.
  destruct (N.eqb_spec d 0) as [->|Hd].
  { exists es. split; [done|]. split; [done|]. intros i f Hf. exists f. rewrite !N.add_0_r. split; [done|]. split; [done|]. split; [done|].
    split; [intros _ ->; by simplify_eq|intros _ _ _; lia]. }
  rewrite bind_eq, entry_run by (done || lia). rewrite He, bind_eq, last_run by done. rewrite bind_eq, add64_run by done.
  rewrite (indices_desde h es Ht). rewrite (desplazar_run r (ultimo e) d (dst - (entries_sectors h + 2)) h es (length es)) by (done || lia).
  rewrite drop_0. cbn [take app]. set (es' := imap _ es).
  assert (forall i f, es !! i = Some f -> es' !! i = Some (movida r (ultimo e) d (dst - (entries_sectors h + 2)) (N.of_nat i) f)) as Hlook.
  { intros i f Hf. unfold es'. by rewrite list_lookup_imap, Hf. }
  assert (forall i f, es !! i = Some f -> let f' := movida r (ultimo e) d (dst - (entries_sectors h + 2)) (N.of_nat i) f in
    lenN f' = lenN f ∧ usada f' = usada f ∧ (usada f = true -> N.of_nat i = r -> primero f' = primero f ∧ ultimo f' = ultimo e + d) ∧
    (usada f = true -> N.of_nat i ≠ r -> ultimo e < primero f -> primero f' = primero f + d ∧ ultimo f' = N.max (N.min (ultimo f + d) (dst - (entries_sectors h + 2))) (primero f + d)) ∧
    (usada f = false ∨ (N.of_nat i ≠ r ∧ primero f <= ultimo e) -> f' = f)) as Hmov.
  { intros i f Hf. apply movida_ok; [by apply (tabla_lookup h es Ht _ _ Hf)|done|exact (Forall_lookup_1 _ _ _ _ Hh Hf)]. }
  exists es'. split; [reflexivity|]. split.
  - destruct Ht as [Hw Hn Hs]. split; [done|unfold es', lenN in *; by rewrite length_imap|]. apply Forall_lookup_2. intros i f' Hf'.
    destruct (lookup_lt_is_Some_2 es i) as [f Hf]; [apply lookup_lt_Some in Hf'; unfold es' in Hf'; by rewrite length_imap in Hf'|].
    rewrite (Hlook _ _ Hf) in Hf'. injection Hf' as <-. destruct (Hmov _ _ Hf) as (-> & _). exact (Forall_lookup_1 _ _ _ _ Hs Hf).
  - intros i f Hf. destruct (Hmov _ _ Hf) as (M1 & M2 & M3 & M4 & M5). eexists. split; [by apply Hlook|]. split; [done|].
    split; [intros [?|[?|[? ?]]]; [done|apply M5; by left|apply M5; right; split; [lia|done]]|]. split; [intros ? ->; apply M3; [done|lia]|]. intros ? ? ? _. apply M4; [done|lia|done].
Qed.

Lemma crecida_disjunta h r e d dst es es' : disjunta es -> es !! r = Some e -> usada e = true -> length es' = length es ->
  crecida h r e d dst es es' -> disjunta es'.
Proof.
  intros [Hr Hs] He Hu Hlen Hc.
  (* every used entry: as it was, before the root; the root; or behind it *)
  assert (forall i f', es' !! i = Some f' -> usada f' = true -> exists f, es !! i = Some f ∧ usada f = true ∧
    ((i ≠ r ∧ (d = 0 ∨ primero f <= ultimo e) ∧ f' = f) ∨ (i = r ∧ f = e ∧ primero f' = primero e ∧ ultimo f' = ultimo e + d) ∨
     (i ≠ r ∧ ultimo e < primero f ∧ 0 < d ∧ primero f' = primero f + d ∧ primero f' <= ultimo f' ∧ ultimo f' <= ultimo f + d))) as Hcase.
  { intros i f' Hf' Huf'. destruct (lookup_lt_is_Some_2 es i) as [f Hf]; [apply lookup_lt_Some in Hf'; lia|].
    destruct (Hc i f Hf) as (f2 & Hf2 & Hu2 & C1 & C2 & C3). rewrite Hf' in Hf2. injection Hf2 as <-. rewrite Huf' in Hu2. symmetry in Hu2.
    exists f. split; [done|]. split; [done|]. destruct (decide (i = r)) as [->|Hir].
    - right. left. simplify_eq. split; [done|]. split; [done|]. by apply C2.
    - destruct (decide (d = 0 ∨ primero f <= ultimo e)) as [Hb|Hb].
      + left. split; [done|]. split; [done|]. apply C1. destruct Hb; [by left|right; by right].
      + right. right. pose proof (Hr _ _ Hf Hu2). destruct (C3 Hu2 Hir ltac:(lia) ltac:(lia)) as [-> ->]. split_and!; lia. }
  pose proof (Hr _ _ He Hu) as Hre. split.
  - intros i f' Hf' Huf'. destruct (Hcase i f' Hf' Huf') as (f & Hf & Huf & [(_ & _ & ->)|[(_ & -> & -> & ->)|(_ & _ & _ & _ & ? & _)]]); [by apply (Hr i)|lia|done].
  - intros i j f' g' Hij Hf' Hg' Huf' Hug'.
    destruct (Hcase i f' Hf' Huf') as (f & Hf & Huf & Kf), (Hcase j g' Hg' Hug') as (g & Hg & Hug & Kg).
    pose proof (Hs i j f g Hij Hf Hg Huf Hug) as Hd. pose proof (Hr _ _ Hf Huf). pose proof (Hr _ _ Hg Hug).
    assert (i ≠ r -> ultimo f < primero e ∨ ultimo e < primero f) as D1 by (intros Hir; apply (Hs i r f e Hir Hf He Huf Hu)).
    assert (j ≠ r -> ultimo g < primero e ∨ ultimo e < primero g) as D2 by (intros Hjr; apply (Hs j r g e Hjr Hg He Hug Hu)).
    destruct Kf as [(Ki & Kd & ->)|[(-> & -> & K1 & K2)|(Ki & K1 & K2 & K3 & K4 & K5)]],
      Kg as [(Kj & Kd' & ->)|[(-> & -> & L1 & L2)|(Kj & L1 & L2 & L3 & L4 & L5)]]; try done; try specialize (D1 Ki); try specialize (D2 Kj); lia.
Qed.

(** * A small table

    Four entries of 128 bytes on a disk of 40 sectors, for the concrete runs. *)
#[local] Set Default Proof Using "Type".

Definition cabecera_chica : Header := mkHeader 65536 92 1 39 3 37 (replicate 16 x11) 2 4 128.
Definition entrada_chica (t : byte) (f l : N) : list byte := replicate 16 t ++ replicate 16 x22 ++ u64 f ++ u64 l ++ zeros 80.
Definition esp_chica : list byte := entrada_chica xa1 3 3.
Definition raiz_chica : list byte := entrada_chica xa2 4 9.
Definition modelos_chica : list byte := entrada_chica xa3 10 19.
Definition instala_chica : list byte := entrada_chica xa4 20 23.
Definition tabla_chica : list (list byte) := [esp_chica; raiz_chica; modelos_chica; instala_chica].

Lemma tabla_chica_ok : tabla cabecera_chica tabla_chica.
Proof. split; [split; cbn; done || (split_and!; done)|done|]. repeat constructor. Defined.
Lemma tabla_chica_disjunta : disjunta tabla_chica.
Proof.
  split.
  - intros [|[|[|[|i]]]] e He _; cbn in He; simplify_eq; by vm_compute.
  - intros [|[|[|[|i]]]] [|[|[|[|j]]]] e f Hij He Hf _ _; cbn in He, Hf; simplify_eq; try done; first [left; by vm_compute|right; by vm_compute].
Qed.

(** * Partition tables: the properties *)
#[local] Set Default Proof Using "Type".

(** What is written as a header reads back as the same header, with the two
    checksums in their places: the one of the header over its own bytes with
    that field at zero, and the one of the entries over the array. And the
    canonical text of an identifier reads back as the same 16 bytes. *)
Theorem gpt_redonda {S : Type} h es (s : S) : tabla h es ->
  (exists sec, render (E := GptError) h (concat es) s = (Ok sec, s) ∧ lenN sec = 512 ∧ header_parse sec s = (Ok h, s) ∧
    field 88 4 sec = crc32_ieee (concat es) ∧
    field 16 4 sec = crc32_ieee (take (N.to_nat (header_size h)) (take 16 sec ++ zeros 4 ++ drop 20 sec))) ∧
  forall g, length g = 16%nat -> guid_parse (guid_display g) = Some g.
Proof.
  intros Ht. split; [|apply guid_redondo]. pose proof (ta_wf _ _ Ht) as Hw.
  destruct (render_run (E := GptError) h (concat es) s Hw) as (b & Hr & ->).
  rewrite (tabla_bytes h es Ht), N.min_id, <- (tabla_bytes h es Ht) in Hr. unfold lenN in Hr. rewrite Nat2N.id, firstn_all in Hr.
  set (crce := crc32_ieee (concat es)) in *. set (crc := crc32_ieee (take (N.to_nat (header_size h)) (header_sector h 0 crce))) in *.
  exists (header_sector h crc crce). split; [exact Hr|]. pose proof (crc32_lt (concat es)) as H1. fold crce in H1.
  assert (crc < 2 ^ 32) as H2 by apply crc32_lt.
  split; [by apply header_sector_length, Hw|]. split; [by apply header_parse_sector|]. split; [by apply campo_crce|].
  rewrite campo_crc by done. reflexivity.
Qed.

(** C37. Adapting a table to a disk succeeds exactly when the disk has room for
    both copies of the table and every partition lies between them. Then the
    header describes the disk, at most the partition with the highest end
    changes, and only its end, which reaches the last usable sector; partitions
    that did not overlap still do not. Otherwise it fails and changes nothing. *)
Theorem relayout_exacto {S : Type} h es disk (s : S) : tabla h es -> disk < U64 ->
  (if cabe_en h disk es
   then exists es', relayout h (concat es) disk s = (Ok (en_disco h disk, concat es', plan_en h disk), s) ∧ tabla (en_disco h disk) es' ∧
     estirada (disk - 2 - entries_sectors h) es es' ∧ (disjunta es -> disjunta es') ∧
     (forall i e, es' !! i = Some e -> usada e = true -> 2 + entries_sectors h <= primero e ∧ ultimo e <= disk - 2 - entries_sectors h)
   else relayout h (concat es) disk s = (Err TooSmall, s)).
Proof.
  intros Ht Hd. pose proof (relayout_run h es disk s Ht Hd) as Hr. destruct (cabe_en h disk es) eqn:Hc; [|exact Hr].
  destruct Hr as (es' & Hrun & Ht' & Hes). exists es'. split; [done|]. split; [done|]. split; [done|].
  assert (forall i e, es !! i = Some e -> usada e = true -> 2 + entries_sectors h <= primero e ∧ ultimo e <= disk - 2 - entries_sectors h) as Hin.
  { intros i e He Hu. unfold cabe_en in Hc. apply andb_true_iff in Hc as [_ Hc]. rewrite forallb_forall in Hc. specialize (Hc e).
    unfold dentro in Hc. rewrite Hu in Hc. cbn in Hc. apply andb_true_iff in Hc as [?%N.leb_le ?%N.leb_le]; [done|].
    apply list_elem_of_In. by eapply list_elem_of_lookup_2. }
  split; [intros Hdj; apply (estirada_disjunta (disk - 2 - entries_sectors h) es es' Hdj); [|done]; intros i e He Hu; by apply (Hin i)|].
  destruct Hes as [Hno|i e e' Hi Hu Hmax Hl Hp Hu' _ _]; [done|]. intros j f Hj Huf. destruct (decide (i = j)) as [->|Hij].
  - rewrite list_lookup_insert_eq in Hj by by eapply lookup_lt_Some. simplify_eq. rewrite Hp, Hl. split; [by apply (Hin j e)|done].
  - rewrite list_lookup_insert_ne in Hj by done. by apply (Hin j).
Qed.

(** Growing the root at installation: the plan is a multiple of 1 MiB, never
    more than fits behind what is copied, and zero when there is nothing to
    gain; applying it lengthens the root by that much, moves what lay behind it
    by the same distance, cuts what would leave the disk, leaves what lay before
    it alone, and partitions that did not overlap still do not. *)
Theorem crecer_raiz {S : Type} h es r e dst copy (s : S) : tabla h es -> disjunta es -> es !! N.to_nat r = Some e -> usada e = true ->
  dst < 2 ^ 62 -> copy < 2 ^ 62 -> Forall (fun f => usada f = true -> ultimo f < 2 ^ 62) es ->
  exists g, plan_grow_root (E := GptError) h (concat es) r dst copy s = (Ok g, s) ∧
    delta g mod 2048 = 0 ∧ (0 < delta g -> head_sectors g = ultimo e + 1 ∧ head_sectors g <= copy ∧ copy + 2048 + delta g <= dst) ∧
    exists es', apply_grow_root (E := GptError) h (concat es) r (delta g) dst s = (Ok (concat es'), s) ∧ tabla h es' ∧ disjunta es' ∧
      (forall i f, es !! i = Some f -> exists f', es' !! i = Some f' ∧ usada f' = usada f ∧
         (delta g = 0 ∨ usada f = false ∨ (i ≠ N.to_nat r ∧ primero f <= ultimo e) -> f' = f) ∧
         (usada f = true -> i = N.to_nat r -> primero f' = primero f ∧ ultimo f' = ultimo f + delta g) ∧
         (usada f = true -> i ≠ N.to_nat r -> ultimo e < primero f -> 0 < delta g ->
            primero f' = primero f + delta g ∧ ultimo f' = N.max (N.min (ultimo f + delta g) (dst - (entries_sectors h + 2))) (primero f + delta g))).
Proof.
  intros Ht Hdj He Hu Hdst Hcopy Hlim. assert (2 ^ 62 + 2 ^ 62 + 2 ^ 62 < U64) as Hbig by done.
  destruct (plan_grow_run h es r e dst copy s Ht He Hu) as (g & Hp & Hmod & Hg); [by apply (dj_rango _ Hdj (N.to_nat r))|..].
  { pose proof (Forall_lookup_1 _ _ _ _ Hlim He Hu). cbv beta in *. lia. } { assert (2048 < 2 ^ 62) by done. lia. }
  exists g. split; [exact Hp|]. split; [done|]. split; [exact Hg|].
  assert (delta g <= 2 ^ 62) as Hdl by (destruct (N.eq_dec (delta g) 0) as [->|]; [done|destruct (Hg ltac:(lia)) as (_ & _ & ?); lia]).
  destruct (apply_grow_run h es r e (delta g) dst s Ht He Hu) as (es' & Ha & Ht' & Hes').
  { apply Forall_forall. intros f Hf Huf. apply list_elem_of_lookup_1 in Hf as (i & Hf). pose proof (Forall_lookup_1 _ _ _ _ Hlim Hf Huf) as Hb. cbv beta in Hb.
    split; [lia|by apply (dj_rango _ Hdj i)]. }
  { pose proof (sectores_lt h (ta_wf _ _ Ht)). assert (2 ^ 33 + 2 < U64) by done. lia. }
  exists es'. split; [exact Ha|]. split; [done|]. split; [eapply crecida_disjunta; [exact Hdj|exact He|exact Hu| |exact Hes']; pose proof (ta_num _ _ Ht); pose proof (ta_num _ _ Ht'); unfold lenN in *; lia|]. intros i f Hf.
  destruct (Hes' i f Hf) as (f' & Hf' & Hu' & H1 & H2 & H3). exists f'. split; [done|]. split; [done|]. split; [done|]. split; [|done].
  intros Huf ->. simplify_eq. by apply H2.
Qed.

Lemma gpt_redonda_testigo : tabla cabecera_chica tabla_chica ∧
  exists sec, render (E := GptError) cabecera_chica (concat tabla_chica) tt = (Ok sec, tt) ∧ header_parse sec tt = (Ok cabecera_chica, tt).
Proof.
  split; [exact tabla_chica_ok|]. destruct (gpt_redonda cabecera_chica tabla_chica tt tabla_chica_ok) as [(sec & H1 & _ & H3 & _) _].
  exists sec. split; [exact H1|exact H3].
Defined.
(** On 40 sectors it fits, and the installer's partition reaches sector 37; on 20
    it does not. *)
Lemma relayout_exacto_testigo : tabla cabecera_chica tabla_chica ∧
  (exists es', relayout cabecera_chica (concat tabla_chica) 40 tt = (Ok (en_disco cabecera_chica 40, concat es', plan_en cabecera_chica 40), tt) ∧ disjunta es') ∧
  relayout cabecera_chica (concat tabla_chica) 20 tt = (Err TooSmall, tt).
Proof.
  split; [exact tabla_chica_ok|]. split.
  - destruct (relayout_exacto cabecera_chica tabla_chica 40 tt tabla_chica_ok ltac:(done)) as (es' & H1 & _ & _ & H4 & _).
    exists es'. split; [exact H1|]. apply H4, tabla_chica_disjunta.
  - exact (relayout_exacto cabecera_chica tabla_chica 20 tt tabla_chica_ok ltac:(done)).
Defined.
(** Copied to a disk of 10000 sectors, the root of the table grows. *)
Lemma crecer_raiz_testigo : usada raiz_chica = true ∧
  exists g, plan_grow_root (E := GptError) cabecera_chica (concat tabla_chica) 1 10000 40 tt = (Ok g, tt) ∧ delta g mod 2048 = 0 ∧
  exists es', apply_grow_root (E := GptError) cabecera_chica (concat tabla_chica) 1 (delta g) 10000 tt = (Ok (concat es'), tt) ∧ disjunta es'.
Proof.
  split; [by vm_compute|].
  destruct (crecer_raiz cabecera_chica tabla_chica 1 raiz_chica 10000 40 tt tabla_chica_ok tabla_chica_disjunta) as (g & H1 & H2 & _ & es' & H3 & _ & H4 & _);
    [done|by vm_compute|done|done|repeat constructor; intros _; by vm_compute|].
  exists g. split; [exact H1|]. split; [exact H2|]. exists es'. split; [exact H3|exact H4].
Defined.
