(* ===== verification/Resize.v ===== *)
(** * Resizing the partitions

    [crates/soso-resize-core/src/lib.rs]: the journal, the slide of a partition
    and the new table. The disk is a class of operations; what is done at each
    progress report is an argument, a function of the state of the caller. *)
From S2P Require Import Prelude Texto SosofsLayout Gpt.
Local Open Scope N_scope.

Definition RES_MAGIC : list byte := txt "SOSORES".
Definition JOURNAL_IDLE : N := 0.
Definition JOURNAL_SHRINK_MODELS : N := 1.
Definition JOURNAL_SLIDE_P3 : N := 2.
Definition JOURNAL_SLIDE_P4 : N := 3.
Definition JOURNAL_GPT : N := 4.
Definition JOURNAL_INTENT : N := 5.

Definition GPT_ESP : N := 0.
Definition GPT_ROOT : N := 1.
Definition GPT_MODELS : N := 2.
Definition GPT_INSTALL : N := 3.

Inductive ResizeError := Io | InvalidJournal | InvalidGeometry | OutOfRange.

(** ** Journal *)
Record Journal := mkJournal { phase : N; delta_sectors : N; slide_done : N }.
Definition journal_idle : Journal := mkJournal JOURNAL_IDLE 0 0.
Definition journal_encode (j : Journal) : list byte :=
  u8 (phase j) ++ RES_MAGIC ++ u64 (delta_sectors j) ++ u64 (slide_done j) ++ zeros 488.
Definition is_uninitialized (sec : list byte) : bool :=
  forallb (fun b => existsb (Byte.eqb b) [x00; x0a; x0d; x20; x09]) sec.
(** [sec] has 512 bytes. *)
Definition journal_decode (sec : list byte) : ResizeError + Journal :=
  if negb (bool_decide (take 7 (drop 1 sec) = RES_MAGIC)) then
    if is_uninitialized sec then inr journal_idle else inl InvalidJournal
  else inr (mkJournal (field 0 1 sec) (field 8 8 sec) (field 16 8 sec)).
Definition valid_phase (j : Journal) : bool :=
  existsb (N.eqb (phase j)) [JOURNAL_IDLE; JOURNAL_INTENT; JOURNAL_SHRINK_MODELS; JOURNAL_SLIDE_P3; JOURNAL_SLIDE_P4; JOURNAL_GPT].
Definition needs_recovery (j : Journal) : bool := valid_phase j && negb (phase j =? JOURNAL_IDLE).

Definition phase_rank (p : N) : option N :=
  if p =? JOURNAL_IDLE then Some 0
  else if p =? JOURNAL_INTENT then Some 1
  else if p =? JOURNAL_SHRINK_MODELS then Some 2
  else if p =? JOURNAL_SLIDE_P3 then Some 3
  else if p =? JOURNAL_SLIDE_P4 then Some 4
  else if p =? JOURNAL_GPT then Some 5
  else None.
Definition phase_at_most (p target : N) : bool :=
  match phase_rank p, phase_rank target with Some a, Some b => a <=? b | _, _ => false end.
Definition phase_before (p target : N) : bool :=
  match phase_rank p, phase_rank target with Some a, Some b => a <? b | _, _ => false end.

Record PartGeom := mkGeom { first : N; last : N; sectors : N }.
Definition from_lba {S E} (first last : N) : M S E PartGeom := n ← add64 (last - first) 1; mret (mkGeom first last n).

(** ** The disk *)
Class Disk512 (D : Type) := {
  read_sector : N -> M D ResizeError (list byte);
  write_sector : N -> list byte -> M D ResizeError unit;
  flush : M D ResizeError unit;
}.

Definition map_err {S E F A} (f : E -> F) (m : M S E A) : M S F A := zoom Datatypes.id (fun t _ => t) f m.
Definition geom_err {S A} (m : M S GptError A) : M S ResizeError A := map_err (fun _ => InvalidGeometry) m.

Section Resize.
Context {D : Type} `{Disk512 D}.

(** ** The slide *)
(** The disk and [*done]. *)
Definition en_disco {A} (m : M D ResizeError A) : M (D * N) ResizeError A := zoom fst (fun d s => (d, s.2)) Datatypes.id m.
Definition set_done (n : N) : M (D * N) ResizeError unit := modify (fun s => (s.1, n)).

Fixpoint deslizar (fuel : nat) (src_lba dst_lba sectors : N) : M (D * N) ResizeError unit :=
  match fuel with
  | O => no_fuel
  | S fuel =>
      done ← gets snd;
      if done <? sectors then
        i ← sub64 sectors 1; idx ← sub64 i done;
        a ← add64 src_lba idx;
        sec ← en_disco (read_sector a);
        b ← add64 dst_lba idx;
        en_disco (write_sector b sec);;
        n ← add64 done 1; set_done n;;
        deslizar fuel src_lba dst_lba sectors
      else mret tt
  end.
Definition slide_sectors (src_lba dst_lba sectors : N) : M (D * N) ResizeError unit :=
  if sectors =? 0 then mret tt
  else if dst_lba <=? src_lba then throw InvalidGeometry
  else
    start ← gets snd;
    if sectors <? start then throw OutOfRange
    else
      deslizar (S (N.to_nat (sectors - start))) src_lba dst_lba sectors;;
      r ← attempt (en_disco flush);
      match r with
      | inl e => set_done start;; throw e
      | inr _ => mret tt
      end.

(** ** The table *)
Definition leer_cabecera : M D ResizeError Header := sec ← read_sector 1; geom_err (header_parse sec).
Definition leer_entradas (h : Header) : M D ResizeError (list byte) :=
  es ← mfold (fun acc i => lba ← add64 (entries_lba h) i; sec ← read_sector lba; mret (acc ++ sec)) [] (upto (entries_sectors h));
  mret (take (N.to_nat (entries_bytes h)) es).

Definition read_part (entry_index : N) : M D ResizeError PartGeom :=
  h ← leer_cabecera;
  es ← leer_entradas h;
  o ← entry es h entry_index;
  e ← of_option (throw InvalidGeometry) o;
  f ← entry_first_lba e;
  l ← entry_last_lba e;
  from_lba f l.

Definition disk_sectors : M D ResizeError N := h ← leer_cabecera; add64 (alternate_lba h) 1.

(** The planned ranges, written in the order of the code. *)
Definition poner_rangos {S E} (h : Header) (es : list byte) (orden : list (N * option N * N)) : M S E (list byte) :=
  mfold (fun es '(i, f, l) => con_entrada es h i (fun e => e ← match f with Some f => set_entry_first_lba e f | None => mret e end; set_entry_last_lba e l)) es orden.

Definition validate_geometry (delta_sectors : N) : M D ResizeError unit :=
  p2 ← read_part GPT_ROOT;
  p3 ← read_part GPT_MODELS;
  p4 ← read_part GPT_INSTALL;
  if sectors p3 <=? delta_sectors then throw InvalidGeometry
  else
    new_p2_last ← add64 (last p2) delta_sectors;
    new_p3_first ← add64 (first p3) delta_sectors;
    let new_p3_last := last p3 in
    new_p4_first ← add64 (first p4) delta_sectors;
    new_p4_last ← add64 (last p4) delta_sectors;
    h ← leer_cabecera;
    es ← leer_entradas h;
    es ← poner_rangos h es [(GPT_ROOT, None, new_p2_last); (GPT_INSTALL, Some new_p4_first, new_p4_last); (GPT_MODELS, Some new_p3_first, new_p3_last)];
    n ← disk_sectors;
    '(h, _, _) ← geom_err (relayout h es n);
    if last_usable h <? new_p4_last then throw InvalidGeometry else mret tt.

(** [for (i, chunk) in buf.chunks(SECTOR)] *)
Definition write_gpt_sectors (lba : N) (buf : list byte) : M D ResizeError unit :=
  let trozos := chunks (length buf) 512 buf in
  mfor (fun '(i, chunk) => a ← add64 lba i; write_sector a (chunk ++ zeros (512 - lenN chunk))) (zip (upto (lenN trozos)) trozos).

Definition write_gpt_update (delta : N) (p2 p3 p4 : PartGeom) : M D ResizeError unit :=
  h ← leer_cabecera;
  es ← leer_entradas h;
  new_p2_last ← add64 (last p2) delta;
  new_p3_first ← add64 (first p3) delta;
  let new_p3_last := last p3 in
  new_p4_first ← add64 (first p4) delta;
  new_p4_last ← add64 (last p4) delta;
  es ← poner_rangos h es [(GPT_ROOT, None, new_p2_last); (GPT_INSTALL, Some new_p4_first, new_p4_last); (GPT_MODELS, Some new_p3_first, new_p3_last)];
  disk_sz ← disk_sectors;
  '(h, es, plan) ← geom_err (relayout h es disk_sz);
  es ← poner_rangos h es [(GPT_ROOT, None, new_p2_last); (GPT_MODELS, Some new_p3_first, new_p3_last); (GPT_INSTALL, Some new_p4_first, new_p4_last)];
  write_gpt_sectors (backup_entries_lba plan) es;;
  backup ← render_backup h es plan;
  write_sector (backup_header_lba plan) backup;;
  write_gpt_sectors (primary_entries_lba plan) es;;
  primary ← render_primary h es plan;
  write_sector (primary_header_lba plan) primary;;
  flush.

(** ** The phases *)
Section Fases.
Context {W : Type} (on_progress : Journal -> W -> W).
(** The disk, the journal in memory and what the reports did. *)
Record Obra := mkObra { disco : D; journal : Journal; mundo : W }.
Definition en_obra {A} (m : M D ResizeError A) : M Obra ResizeError A := zoom disco (fun d o => mkObra d (journal o) (mundo o)) Datatypes.id m.
(** [slide_sectors(disk, .., &mut journal.slide_done)] *)
Definition en_slide {A} (m : M (D * N) ResizeError A) : M Obra ResizeError A :=
  zoom (fun o => (disco o, slide_done (journal o)))
    (fun s o => mkObra s.1 (mkJournal (phase (journal o)) (delta_sectors (journal o)) s.2) (mundo o)) Datatypes.id m.
Definition set_phase (p : N) : M Obra ResizeError unit :=
  modify (fun o => mkObra (disco o) (mkJournal p (delta_sectors (journal o)) 0) (mundo o)).
Definition avisar : M Obra ResizeError unit := modify (fun o => mkObra (disco o) (journal o) (on_progress (journal o) (mundo o))).

Definition fase_slide (target : N) (src dst n : N) : M Obra ResizeError unit :=
  o ← gets Datatypes.id;
  (if phase_before (phase (journal o)) target then set_phase target;; avisar else mret tt);;
  en_slide (slide_sectors src dst n);;
  avisar.

Definition apply_gpt_and_slides (delta : N) : M Obra ResizeError unit :=
  p2 ← en_obra (read_part GPT_ROOT);
  p3 ← en_obra (read_part GPT_MODELS);
  p4 ← en_obra (read_part GPT_INSTALL);
  let p3_after := sectors p3 - delta in
  o ← gets Datatypes.id;
  (if phase_at_most (phase (journal o)) JOURNAL_SLIDE_P3
   then
     d3 ← add64 (first p3) delta;
     fase_slide JOURNAL_SLIDE_P3 (first p3) d3 p3_after
   else mret tt);;
  o ← gets Datatypes.id;
  (if (0 <? sectors p4) && phase_at_most (phase (journal o)) JOURNAL_SLIDE_P4
   then
     d4 ← add64 (first p4) delta;
     fase_slide JOURNAL_SLIDE_P4 (first p4) d4 (sectors p4)
   else mret tt);;
  o ← gets Datatypes.id;
  (if phase_at_most (phase (journal o)) JOURNAL_GPT
   then set_phase JOURNAL_GPT;; avisar;; en_obra (write_gpt_update delta p2 p3 p4)
   else mret tt);;
  set_phase JOURNAL_IDLE;;
  avisar.

Definition recover_slides_and_gpt : M Obra ResizeError unit :=
  o ← gets Datatypes.id;
  let j := journal o in
  if negb (valid_phase j) then throw InvalidJournal
  else if negb (needs_recovery j) then mret tt
  else
    rank ← of_option (throw InvalidJournal) (phase_rank (phase j));
    models ← of_option panic (phase_rank JOURNAL_SHRINK_MODELS);
    if rank <? models then throw InvalidJournal else apply_gpt_and_slides (delta_sectors j).
End Fases.

(** ** The geometry in memory *)
Record GeomCache := mkCache { parts : list (option PartGeom); reloads : N }.
Definition cache_default : GeomCache := mkCache [None; None; None; None] 0.
Definition en_parte {A} (m : M D ResizeError A) : M (D * GeomCache) ResizeError A := zoom fst (fun d s => (d, s.2)) Datatypes.id m.
Definition set_part (i : nat) (g : option PartGeom) : M (D * GeomCache) ResizeError unit :=
  modify (fun s => (s.1, mkCache (<[i := g]> (parts s.2)) (reloads s.2))).
Definition reload : M (D * GeomCache) ResizeError unit :=
  g ← en_parte (read_part GPT_ROOT); set_part 1 (Some g);;
  g ← en_parte (read_part GPT_MODELS); set_part 2 (Some g);;
  g ← attempt (en_parte (read_part GPT_ESP)); set_part 0 (match g with inr g => Some g | inl _ => None end);;
  g ← attempt (en_parte (read_part GPT_INSTALL)); set_part 3 (match g with inr g => Some g | inl _ => None end);;
  modify (fun s => (s.1, mkCache (parts s.2) (saturating_add64 (reloads s.2) 1))).
Definition cache_get (index : nat) (c : GeomCache) : option PartGeom := mjoin (parts c !! index).
End Resize.
