(* ===== verification/ResizeTabla.v ===== *)
(** * Sliding a partition

    The disk's view as an array of sectors, what each operation promises on it,
    and how far a slide that stopped has got. *)
From S2P Require Import Prelude Texto SosofsLayout Gpt GptTabla GptTeoremas Resize.
Local Open Scope N_scope.

(** What a disk promises: reading changes no sector, a write changes at most its
    own, also when it fails, and flushing changes none. A disk in good health
    fails nothing inside its size. *)
Class Disk512Spec (D : Type) `{Disk512 D} := {
  sector : D -> N -> list byte;
  tamano : N;
  sano : D -> Prop;
  sector_512 d a : lenN (sector d a) = 512;
  read_promete d a : acaba (read_sector a) d
    (fun s d' => s = sector d a ∧ (forall b, sector d' b = sector d b) ∧ (sano d -> sano d'))
    (fun d' => (forall b, sector d' b = sector d b) ∧ ~ (sano d ∧ a < tamano));
  write_promete d a s : lenN s = 512 -> acaba (write_sector a s) d
    (fun _ d' => (forall b, sector d' b = if b =? a then s else sector d b) ∧ (sano d -> sano d'))
    (fun d' => (forall b, b ≠ a -> sector d' b = sector d b) ∧ ~ (sano d ∧ a < tamano));
  flush_promete d : acaba flush d
    (fun _ d' => (forall b, sector d' b = sector d b) ∧ (sano d -> sano d'))
    (fun d' => (forall b, sector d' b = sector d b) ∧ ~ sano d);
}.

Section Deslizar.
Context {D : Type} `{Disk512Spec D}.

Lemma en_disco_acaba {A} (m : M D ResizeError A) d k (Φ : A -> D * N -> Prop) (Ψ : D * N -> Prop) :
  acaba m d (fun a d' => Φ a (d', k)) (fun d' => Ψ (d', k)) -> acaba (en_disco m) (d, k) Φ Ψ.
Proof. unfold acaba, en_disco, zoom, Datatypes.id. cbn. by destruct (m d) as [[]?]. Qed.

(** ** How far a slide has got *)
(** [orig] are the sectors before the first attempt: the last [k] of the [n]
    sectors are in place, the others are still whole, and nothing outside the
    destination changed. *)
Record progreso (orig : N -> list byte) (src dst n k : N) (d : D) : Prop := {
  pr_hechos i : i < n -> n - k <= i -> sector d (dst + i) = orig (src + i);
  pr_faltan i : i < n - k -> sector d (src + i) = orig (src + i);
  pr_fuera a : a < dst ∨ dst + n <= a -> sector d a = orig a;
}.

Lemma progreso_cero orig src dst n d : (forall a, sector d a = orig a) -> progreso orig src dst n 0 d.
Proof. intros Ho. split; intros; [lia|apply Ho..]. Qed.
Lemma progreso_igual orig src dst n k d d' : progreso orig src dst n k d -> (forall a, sector d' a = sector d a) -> progreso orig src dst n k d'.
Proof. intros [H1 H2 H3] He. split; intros; rewrite He; auto. Qed.
(** One more, or a write that failed half way. *)
Lemma progreso_uno orig src dst n k d d' : src < dst -> k < n -> progreso orig src dst n k d ->
  (forall b, sector d' b = if b =? dst + (n - 1 - k) then sector d (src + (n - 1 - k)) else sector d b) -> progreso orig src dst n (k + 1) d'.
Proof.
  intros Hlt Hk [H1 H2 H3] Hd. split.
  - intros i Hi Hki. rewrite Hd. destruct (N.eqb_spec (dst + i) (dst + (n - 1 - k))) as [He|Hne].
    + replace i with (n - 1 - k) by lia. apply H2. lia.
    + apply H1; lia.
  - intros i Hi. rewrite Hd. destruct (N.eqb_spec (src + i) (dst + (n - 1 - k))); [lia|]. apply H2. lia.
  - intros a Ha. rewrite Hd. destruct (N.eqb_spec a (dst + (n - 1 - k))); [lia|]. by apply H3.
Qed.
Lemma progreso_roto orig src dst n k d d' : src < dst -> k < n -> progreso orig src dst n k d ->
  (forall b, b ≠ dst + (n - 1 - k) -> sector d' b = sector d b) -> progreso orig src dst n k d'.
Proof.
  intros Hlt Hk [H1 H2 H3] Hd. split.
  - intros i Hi Hki. rewrite Hd by lia. by apply H1.
  - intros i Hi. rewrite Hd by lia. by apply H2.
  - intros a Ha. rewrite Hd by lia. by apply H3.
Qed.
(** Starting again is only sound while no source sector has been overwritten. *)
Lemma progreso_atras orig src dst n j k d : src < dst -> progreso orig src dst n k d -> k <= n -> j <= k -> n - j <= dst - src ->
  progreso orig src dst n j d.
Proof.
  intros Hlt [H1 H2 H3] Hk Hj Hn. split.
  - intros i Hi Hki. apply H1; lia.
  - intros i Hi. apply H3. lia.
  - exact H3.
Qed.

Lemma deslizar_acaba orig src dst n fuel : src < dst -> dst + n < U64 -> forall d k, progreso orig src dst n k d -> k <= n -> (N.to_nat (n - k) < fuel)%nat ->
  acaba (deslizar fuel src dst n) (d, k)
    (fun _ s => s.2 = n ∧ progreso orig src dst n n s.1 ∧ (sano d -> sano s.1))
    (fun s => k <= s.2 ∧ s.2 < n ∧ progreso orig src dst n s.2 s.1 ∧ ~ (sano d ∧ dst + n <= tamano)).
Proof.
  intros Hlt Hb. induction fuel as [|fuel IH]; intros d k Hp Hk Hf; [lia|]. cbn [deslizar].
  apply acaba_bind. unfold acaba at 1, gets. cbn [snd].
  destruct (N.ltb_spec k n) as [Hkn|Hkn].
  2: { unfold acaba. cbn. replace k with n in * by lia. auto. }
  apply acaba_bind, acaba_sub64; [lia|]. apply acaba_bind, acaba_sub64; [lia|]. apply acaba_bind, acaba_add64; [lia|].
  apply acaba_bind, en_disco_acaba. eapply acaba_mono; [apply read_promete|..]; cbv beta.
  2: { intros d1 [He Hn]. cbn. split; [lia|]. split; [done|]. split; [by eapply progreso_igual|]. intros [Hs Ht]. apply Hn. split; [done|lia]. }
  intros ? d1 (-> & He1 & Hs1). apply acaba_bind, acaba_add64; [lia|].
  apply acaba_bind, en_disco_acaba. eapply acaba_mono; [apply write_promete, sector_512|..]; cbv beta.
  2: { intros d2 [He Hn]. cbn. split; [lia|]. split; [done|]. split; [apply (progreso_roto _ _ _ _ _ d); [done..|]; intros b Hne; by rewrite He, He1|].
    intros [Hs Ht]. apply Hn. split; [auto|lia]. }
  intros _ d2 [He2 Hs2]. apply acaba_bind, acaba_add64; [lia|]. apply acaba_bind. unfold acaba at 1, set_done, modify. cbn [fst].
  assert (progreso orig src dst n (k + 1) d2) as Hp2.
  { apply (progreso_uno _ _ _ _ _ d); [done..|]. intros b. rewrite He2. by destruct (b =? _). }
  eapply acaba_mono; [apply IH; [exact Hp2|lia..]|..]; cbv beta.
  - intros _ s3 (H1 & H2 & H3). split; [done|]. split; [done|]. intros Hs. apply H3, Hs2, Hs1, Hs.
  - intros s3 (H1 & H2 & H3 & Hn). split; [lia|]. split; [done|]. split; [done|]. intros [Hs Ht]. apply Hn. split; [apply Hs2, Hs1, Hs|done].
Qed.

(** The whole slide, from wherever it was. *)
Lemma slide_acaba orig src dst n d k : src < dst -> dst + n < U64 -> progreso orig src dst n k d -> k <= n ->
  acaba (slide_sectors src dst n) (d, k)
    (fun _ s => (n = 0 ∨ s.2 = n) ∧ progreso orig src dst n n s.1 ∧ (sano d -> sano s.1))
    (fun s => (k <= s.2 ∧ s.2 < n ∧ progreso orig src dst n s.2 s.1 ∨ s.2 = k ∧ progreso orig src dst n n s.1) ∧ ~ (sano d ∧ dst + n <= tamano)).
Proof.
  intros Hlt Hb Hp Hk. unfold slide_sectors. destruct (N.eqb_spec n 0) as [->|Hn0].
  { unfold acaba. cbn. split; [by left|]. replace k with 0 in Hp by lia. auto. }
  destruct (N.leb_spec dst src); [lia|].
  apply acaba_bind. unfold acaba at 1, gets. cbn [snd]. destruct (N.ltb_spec n k); [lia|].
  apply acaba_bind. eapply acaba_mono; [apply (deslizar_acaba orig); [done|done|done|done|lia]|..]; cbv beta.
  2: { intros s (? & ? & ? & ?). auto. }
  intros _ [d1 k1] (Hk1 & Hp1 & Hs1). cbn in Hk1, Hp1, Hs1. subst k1. unfold acaba. rewrite bind_eq. unfold attempt.
  pose proof (flush_promete d1) as Hf. unfold acaba in Hf. unfold en_disco, zoom, Datatypes.id. cbn. destruct (flush d1) as [[[]|e| |] d2]; [| |done|done].
  - destruct Hf as [He Hs]. cbn. split; [by right|]. split; [by eapply progreso_igual|auto].
  - destruct Hf as [He Hs]. cbn. split; [right; split; [done|by eapply progreso_igual]|]. intros [? _]. auto.
Qed.
End Deslizar.

(** * The partition table on a disk

    What a healthy disk answers when the table is read, and what it holds after
    the table is written. *)
#[local] Set Default Proof Using "Type".

(** ** An array laid over sectors *)
Definition acolchado (buf : list byte) : list byte := buf ++ zeros (512 * div_ceil (lenN buf) 512 - lenN buf).
Definition trozo (buf : list byte) (i : N) : list byte := take 512 (drop (N.to_nat (512 * i)) (acolchado buf)).

Lemma acolchado_length buf : lenN (acolchado buf) = 512 * div_ceil (lenN buf) 512.
Proof. unfold acolchado. rewrite lenN_app, lenN_zeros. pose proof (div_ceil_mul (lenN buf) 512 ltac:(done)). lia. Qed.
Lemma trozo_length buf i : i < div_ceil (lenN buf) 512 -> lenN (trozo buf i) = 512.
Proof.
  intros Hi. pose proof (acolchado_length buf) as Hl. unfold trozo, lenN in *. rewrite length_take, length_drop. lia.
Qed.
Lemma trozos_concat buf m : concat (trozo buf <$> upto m) = take (N.to_nat (512 * m)) (acolchado buf).
Proof.
  induction m as [|m IH] using N.peano_ind; [by rewrite take_0|]. rewrite upto_succ, fmap_app, concat_app, IH. cbn. rewrite app_nil_r. unfold trozo.
  rewrite take_take_drop. f_equal. lia.
Qed.

Lemma chunks_lookup n : (0 < n)%nat -> forall fuel (l : list byte) i, (length l <= fuel)%nat ->
  chunks fuel n l !! i = if bool_decide (i * n < length l)%nat then Some (take n (drop (i * n) l)) else None.
Proof.
  intros Hn. induction fuel as [|fuel IH]; intros l i Hl.
  - destruct l; [|cbn in *; lia]. rewrite bool_decide_eq_false_2; [done|cbn; lia].
  - cbn [chunks]. destruct l as [|x l]; [rewrite bool_decide_eq_false_2; [done|cbn; lia]|]. remember (x :: l) as k eqn:Hk.
    assert (0 < length k)%nat by (subst; cbn; lia). destruct i as [|i]; cbn [lookup list_lookup].
    + rewrite bool_decide_eq_true_2 by lia. done.
    + etrans; [apply IH; rewrite length_drop; lia|]. rewrite length_drop, drop_drop.
      replace (n + i * n)%nat with (S i * n)%nat by lia. repeat case_bool_decide; done || lia.
Qed.
Lemma chunks_trozo (l : list byte) i : N.of_nat i < div_ceil (lenN l) 512 ->
  exists c, chunks (length l) 512 l !! i = Some c ∧ c ++ zeros (512 - lenN c) = trozo l (N.of_nat i).
Proof.
  intros Hi. assert (512 * N.of_nat i < lenN l) as Hb.
  { destruct (N.le_gt_cases (lenN l) (512 * N.of_nat i)); [|done]. pose proof (div_ceil_le (lenN l) 512 (N.of_nat i) ltac:(done) ltac:(lia)). lia. }
  rewrite chunks_lookup by lia. unfold lenN in Hb. rewrite bool_decide_eq_true_2 by lia. eexists. split; [done|].
  unfold trozo, acolchado. replace (N.to_nat (512 * N.of_nat i)) with (i * 512)%nat by lia.
  rewrite drop_app_le by lia. set (r := drop (i * 512) l). pose proof (div_ceil_mul (lenN l) 512 ltac:(done)) as Hd. fold (lenN l) in Hb.
  assert (lenN r = lenN l - 512 * N.of_nat i) as Hr by (unfold r, lenN; rewrite length_drop; lia).
  destruct (N.le_gt_cases 512 (lenN r)) as [Hge|Hlt].
  - rewrite take_app_le by (unfold lenN in *; lia). replace (512 - lenN (take 512 r)) with 0 by (unfold lenN in *; rewrite length_take; lia). apply app_nil_r.
  - rewrite (take_ge r) by (unfold lenN in *; lia). rewrite take_app_ge by (unfold lenN in *; lia). f_equal. unfold zeros. rewrite take_replicate. f_equal.
    assert (512 * (N.of_nat i + 1) <= 512 * div_ceil (lenN l) 512) by lia. unfold lenN in *. lia.
Qed.
Lemma chunks_count (l : list byte) : lenN (chunks (length l) 512 l) = div_ceil (lenN l) 512.
Proof.
  assert (forall i, N.of_nat i < div_ceil (lenN l) 512 <-> is_Some (chunks (length l) 512 l !! i)) as Hi.
  { intros i. split; [intros (c & -> & _)%chunks_trozo; eauto|]. rewrite chunks_lookup by lia. case_bool_decide as Hb; [intros _|by intros [? ?]].
    pose proof (div_ceil_mul (lenN l) 512 ltac:(done)). unfold lenN in *. lia. }
  pose proof (Hi (length (chunks (length l) 512 l))) as [H1 _]. rewrite lookup_ge_None_2 in H1 by lia.
  destruct (N.le_gt_cases (div_ceil (lenN l) 512) (lenN (chunks (length l) 512 l))) as [Hle|Hgt]; [|by destruct H1; [unfold lenN in *|]].
  destruct (N.eq_dec (lenN (chunks (length l) 512 l)) (div_ceil (lenN l) 512)) as [|Hne]; [done|].
  destruct (Hi (N.to_nat (div_ceil (lenN l) 512))) as [_ H2]. rewrite N2Nat.id in H2. exfalso. apply (N.lt_irrefl (div_ceil (lenN l) 512)), H2.
  apply lookup_lt_is_Some. unfold lenN in *. lia.
Qed.

(** The array is on those sectors. *)
Definition escrito (f : N -> list byte) (lba : N) (buf : list byte) : Prop := forall i, i < div_ceil (lenN buf) 512 -> f (lba + i) = trozo buf i.
(** The table [es] of header [h], as what is written at [my]. *)
Record tabla_en (f : N -> list byte) (my : N) (h : Header) (es : list (list byte)) : Prop := {
  te_tabla : tabla h es;
  te_cabecera : exists crc crce, crc < 2 ^ 32 ∧ crce < 2 ^ 32 ∧ f my = header_sector h crc crce;
  te_entradas : escrito f (entries_lba h) (concat es);
}.
Lemma tabla_en_local f g my h es : tabla_en f my h es -> g my = f my -> (forall i, i < entries_sectors h -> g (entries_lba h + i) = f (entries_lba h + i)) -> tabla_en g my h es.
Proof.
  intros [H1 (c & e & H2 & H3 & H4) H5] He Hi. split; [done|exists c, e; by rewrite He|]. intros i Hl. rewrite Hi; [by apply H5|].
  by rewrite (tabla_bytes h es H1) in Hl.
Qed.
Lemma tabla_en_igual f g my h es : tabla_en f my h es -> (forall b, g b = f b) -> tabla_en g my h es.
Proof. intros Ht He. eapply tabla_en_local; [exact Ht|..]; auto. Qed.

(** ** Reading, on a healthy disk *)
Section Leer.
Context {D : Type} `{Disk512Spec D}.

(** [m] answers [a] and changes no sector. *)
Definition lee {A} (m : M D ResizeError A) (d : D) (a : A) : Prop :=
  acaba m d (fun b d' => b = a ∧ sano d' ∧ forall x, sector d' x = sector d x) (fun _ => False).
Lemma lee_bind {A B} (m : M D ResizeError A) (f : A -> M D ResizeError B) d a Φ Ψ :
  lee m d a -> (forall d', sano d' -> (forall x, sector d' x = sector d x) -> acaba (f a) d' Φ Ψ) -> acaba (m ≫= f) d Φ Ψ.
Proof. intros Hm Hf. apply acaba_bind. eapply acaba_mono; [exact Hm|..]; cbv beta; [|done]. intros ? d' (-> & Hs & He). auto. Qed.
Lemma lee_luego {A B} (m : M D ResizeError A) (f : A -> M D ResizeError B) d a b :
  lee m d a -> (forall d', sano d' -> (forall x, sector d' x = sector d x) -> lee (f a) d' b) -> lee (m ≫= f) d b.
Proof.
  intros Hm Hf. eapply lee_bind; [exact Hm|]. intros d' Hs He. eapply acaba_mono; [exact (Hf d' Hs He)|..]; cbv beta; [|done].
  intros c d2 (-> & Hs2 & He2). split; [done|]. split; [done|]. intros x. by rewrite He2.
Qed.
Lemma lee_puro {A} (m : M D ResizeError A) d a : sano d -> m d = (Ok a, d) -> lee m d a.
Proof. intros Hs Hm. unfold lee, acaba. by rewrite Hm. Qed.
Lemma lee_sector d a : sano d -> a < tamano -> lee (read_sector a) d (sector d a).
Proof.
  intros Hs Ha. eapply acaba_mono; [apply read_promete|..]; cbv beta; [intros s d' (-> & He & Hk); auto|]. intros d' [_ Hn]. by apply Hn.
Qed.

Lemma leer_cabecera_lee d my h es : sano d -> my = 1 -> 1 < tamano -> tabla_en (sector d) my h es -> lee leer_cabecera d h.
Proof.
  intros Hs -> Ht [[Hw ? ?] (crc & crce & H1 & H2 & Hc) _]. unfold leer_cabecera. eapply lee_luego; [by apply lee_sector|]. intros d' Hs' _. apply lee_puro; [done|].
  rewrite Hc. unfold geom_err, map_err, zoom. by rewrite (header_parse_sector h crc crce Hw H1 H2).
Qed.
Lemma leer_entradas_lee d my h es : sano d -> tabla_en (sector d) my h es -> entries_lba h + entries_sectors h <= tamano ->
  entries_lba h + entries_sectors h < U64 -> lee (leer_entradas h) d (concat es).
Proof.
  intros Hs [Ht _ He] Hle Hb. unfold leer_entradas. pose proof (tabla_bytes h es Ht) as Hlen.
  assert (entries_sectors h = div_ceil (lenN (concat es)) 512) as Hn by (by rewrite Hlen).
  assert (forall l acc d, sano d -> escrito (sector d) (entries_lba h) (concat es) -> Forall (fun i => i < entries_sectors h) l ->
    lee (mfold (fun acc i => lba ← add64 (entries_lba h) i; sec ← read_sector lba; mret (acc ++ sec)) acc l) d (acc ++ concat (trozo (concat es) <$> l))) as Hfold.
  { induction l as [|i l IH]; intros acc d1 Hs1 He1 Hl; cbn [mfold fmap list_fmap concat]; [apply lee_puro; [done|by rewrite app_nil_r]|].
    apply Forall_cons in Hl as [Hi Hl]. apply (lee_luego _ _ _ (acc ++ sector d1 (entries_lba h + i))).
    - eapply lee_luego; [apply lee_puro; [done|apply add64_run; lia]|]. intros d2 Hs2 He2. eapply lee_luego; [apply lee_sector; [done|lia]|].
      intros d3 Hs3 _. rewrite He2. by apply lee_puro.
    - cbv beta. intros d2 Hs2 He2. rewrite He1 by lia. rewrite (assoc_L (++)). apply IH; [done| |done]. intros j Hj. by rewrite He2, He1. }
  eapply lee_luego; [apply (Hfold _ [] d Hs He); apply Forall_forall; intros i Hi; by apply elem_of_upto in Hi|].
  intros d' Hs' _. apply lee_puro; [done|]. cbn [app]. rewrite trozos_concat, Hn, (take_ge (acolchado _)) by (pose proof (acolchado_length (concat es)); unfold lenN in *; lia).
  unfold acolchado. rewrite take_app_le by (unfold lenN in *; lia). rewrite take_ge by (unfold lenN in *; lia). done.
Qed.

(** ** Writing, on a healthy disk *)
Definition pon (f : N -> list byte) (lba : N) (buf : list byte) (b : N) : list byte :=
  if (lba <=? b) && (b <? lba + div_ceil (lenN buf) 512) then trozo buf (b - lba) else f b.
Lemma escribe_sector d a s : sano d -> a < tamano -> lenN s = 512 ->
  acaba (write_sector a s) d (fun _ d' => sano d' ∧ forall b, sector d' b = if b =? a then s else sector d b) (fun _ => False).
Proof.
  intros Hs Ha Hl. eapply acaba_mono; [by apply write_promete|..]; cbv beta; [intros _ d' [He Hk]; auto|]. intros d' [_ Hn]. by apply Hn.
Qed.
Lemma escribe_tabla d lba buf : sano d -> lba + div_ceil (lenN buf) 512 <= tamano -> lba + div_ceil (lenN buf) 512 < U64 ->
  acaba (write_gpt_sectors lba buf) d (fun _ d' => sano d' ∧ forall b, sector d' b = pon (sector d) lba buf b) (fun _ => False).
Proof.
  intros Hs Ht Hb. unfold write_gpt_sectors. cbv zeta. rewrite chunks_count. set (n := div_ceil (lenN buf) 512) in *.
  assert (forall l k d, sano d -> (k + length l = N.to_nat n)%nat -> l = drop k (chunks (length buf) 512 buf) ->
    acaba (mfor (fun '(i, chunk) => a ← add64 lba i; write_sector a (chunk ++ zeros (512 - lenN chunk))) (zip (N.of_nat <$> seq k (length l)) l)) d
      (fun _ d' => sano d' ∧ forall b, sector d' b = if (lba + N.of_nat k <=? b) && (b <? lba + n) then trozo buf (b - lba) else sector d b) (fun _ => False)) as Hgen.
  { induction l as [|c l IH]; intros k d1 Hs1 Hk Hl; cbn [length seq fmap list_fmap zip zip_with mfor].
    - cbn in Hk. split; [done|]. intros b. destruct (N.leb_spec (lba + N.of_nat k) b), (N.ltb_spec b (lba + n)); try done. lia.
    - cbn in Hk. assert (chunks (length buf) 512 buf !! k = Some c) as Hc by (rewrite <- (Nat.add_0_r k), <- lookup_drop, <- Hl; done).
      destruct (chunks_trozo buf k) as (c' & Hc' & Hp); [fold n; lia|]. simplify_eq. apply acaba_bind. 
      apply acaba_bind, acaba_add64; [lia|]. rewrite Hp. eapply acaba_mono; [apply escribe_sector; [done|lia|apply trozo_length; fold n; lia]|..]; cbv beta; [|done].
      intros _ d2 [Hs2 He2]. eapply acaba_mono; [apply (IH (S k) d2 Hs2 ltac:(lia))|..]; cbv beta; [|intros _ d3 [Hs3 He3]; split; [done|]|done].
      + replace (S k) with (k + 1)%nat by lia. rewrite <- drop_drop, <- Hl. done.
      + intros b. rewrite He3, He2. destruct (N.eqb_spec b (lba + N.of_nat k)) as [->|Hne].
        * destruct (N.leb_spec (lba + N.of_nat (S k)) (lba + N.of_nat k)); [lia|]. cbn [andb].
          rewrite (proj2 (N.leb_le _ _)), (proj2 (N.ltb_lt _ _)) by lia. cbn [andb]. f_equal. lia.
        * destruct (N.leb_spec (lba + N.of_nat (S k)) b), (N.leb_spec (lba + N.of_nat k) b); try done; lia. }
  pose proof (chunks_count buf) as Hcnt. fold n in Hcnt. unfold upto.
  replace (N.to_nat n) with (length (chunks (length buf) 512 buf)) by (unfold lenN in *; lia).
  eapply acaba_mono; [apply (Hgen _ 0%nat d Hs); [unfold lenN in *; lia|done]|..]; cbv beta; [|done].
  intros _ d' [Hs' He]. split; [done|]. intros b. rewrite He. unfold pon. fold n. by rewrite N.add_0_r.
Qed.
End Leer.
