(* ===== verification/ResizeGpt.v ===== *)
(** * The new table

    Which ranges the resize writes, when it accepts them, and what the disk
    holds once the table has been replaced. *)
From S2P Require Import Prelude Texto SosofsLayout Gpt GptTabla GptTeoremas Resize ResizeTabla.
Local Open Scope N_scope.

(** ** Ranges of entries *)
Definition geom (e : list byte) : PartGeom := mkGeom (primero e) (ultimo e) (ultimo e - primero e + 1).
Definition con_rango (f : option N) (l : N) (e : list byte) : list byte := pon_ultimo (match f with Some f => pon_primero e f | None => e end) l.
Definition rango_puesto (es : list (list byte)) (o : N * option N * N) : list (list byte) := alter (con_rango o.1.2 o.2) (N.to_nat o.1.1) es.
Definition rangos (es : list (list byte)) (orden : list (N * option N * N)) : list (list byte) := foldl rango_puesto es orden.
Definition orden_ok (n : nat) (o : N * option N * N) : Prop := (N.to_nat o.1.1 < n)%nat ∧ o.2 < U64 ∧ match o.1.2 with Some f => f < U64 | None => True end.

Lemma con_rango_ok f l e : 128 <= lenN e -> l < U64 -> match f with Some f => f < U64 | None => True end ->
  ultimo (con_rango f l e) = l ∧ primero (con_rango f l e) = default (primero e) f ∧ usada (con_rango f l e) = usada e ∧ lenN (con_rango f l e) = lenN e.
Proof.
  intros He Hl Hf. unfold con_rango. destruct f as [f|].
  - destruct (pon_primero_ok e f He Hf) as (P1 & P2 & P3 & P4). destruct (pon_ultimo_ok (pon_primero e f) l ltac:(lia) Hl) as (Q1 & Q2 & Q3 & Q4). cbn. split_and!; congruence.
  - destruct (pon_ultimo_ok e l He Hl) as (Q1 & Q2 & Q3 & Q4). cbn. split_and!; congruence.
Qed.
Lemma con_rango_run {S E} f l e (s : S) : 128 <= lenN e ->
  (e ← match f with Some f => set_entry_first_lba (E := E) e f | None => mret e end; set_entry_last_lba e l) s = (Ok (con_rango f l e), s).
Proof.
  intros He. unfold set_entry_first_lba, set_entry_last_lba. rewrite bind_eq. destruct f as [f|].
  - pose proof (wr64_run (E := E) e 32 f s ltac:(lia)) as Hw. change (N.of_nat 32) with 32 in Hw. rewrite Hw.
    apply (wr64_run _ 40). rewrite pon64_length; lia.
  - apply (wr64_run _ 40). lia.
Qed.

Lemma alter_lookup {A} (f : A -> A) i (l : list A) x : l !! i = Some x -> alter f i l = <[i := f x]> l.
Proof. intros Hi. rewrite list_insert_alter. apply list_alter_ext; [|done]. intros y Hy. by simplify_eq. Qed.
Lemma orden_entrada h es o : tabla h es -> orden_ok (length es) o -> exists e, es !! N.to_nat o.1.1 = Some e ∧ 128 <= lenN e ∧ lenN (con_rango o.1.2 o.2 e) = entry_size h.
Proof.
  intros Ht (Hi & Hl & Hf). apply lookup_lt_is_Some in Hi as [e He]. destruct (tabla_lookup h es Ht _ _ He) as (L1 & L2 & _).
  destruct (con_rango_ok o.1.2 o.2 e L2 Hl Hf) as (_ & _ & _ & L). exists e. split; [done|]. split; [done|congruence].
Qed.
Lemma rango_puesto_tabla h es o : tabla h es -> orden_ok (length es) o -> tabla h (rango_puesto es o) ∧ length (rango_puesto es o) = length es.
Proof.
  intros Ht Ho. destruct (orden_entrada h es o Ht Ho) as (e & He & _ & L). unfold rango_puesto. split; [|apply length_alter].
  rewrite (alter_lookup _ _ _ e He). by apply tabla_insert.
Qed.
Lemma rangos_tabla h orden : forall es, tabla h es -> Forall (orden_ok (length es)) orden -> tabla h (rangos es orden) ∧ length (rangos es orden) = length es.
Proof.
  induction orden as [|o orden IH]; intros es Ht Ho; [done|]. apply Forall_cons in Ho as [Ho Hos].
  change (rangos es (o :: orden)) with (rangos (rango_puesto es o) orden). destruct (rango_puesto_tabla h es o Ht Ho) as [Ht' Hl]. destruct (IH (rango_puesto es o) Ht') as [? ?]; [by rewrite Hl|]. split; [done|congruence].
Qed.
Lemma poner_rangos_run {S E} h orden (s : S) : forall es, tabla h es -> Forall (orden_ok (length es)) orden ->
  poner_rangos (E := E) h (concat es) orden s = (Ok (concat (rangos es orden)), s).
Proof.
  induction orden as [|[[i f] l] orden IH]; intros es Ht Ho; [done|]. apply Forall_cons in Ho as [Ho Hos]. unfold poner_rangos. cbn [mfold].
  destruct (orden_entrada h es _ Ht Ho) as (e & He & H1 & L). cbn in He, L. rewrite bind_eq.
  rewrite (con_entrada_run h es Ht i e (con_rango f l e) _ s He); [|by apply con_rango_run|done].
  destruct (rango_puesto_tabla h es (i, f, l) Ht Ho) as [Ht' Hl]. unfold rango_puesto in Ht', Hl. cbn in Ht', Hl. rewrite (alter_lookup _ _ _ e He) in Ht', Hl.
  etrans; [apply IH; [done|by rewrite Hl]|]. do 3 f_equal. cbn. unfold rango_puesto. cbn. by rewrite (alter_lookup _ _ _ e He).
Qed.

(** ** The ranges of the resize *)
Definition orden_a (e2 e3 e4 : list byte) (delta : N) : list (N * option N * N) :=
  [(GPT_ROOT, None, ultimo e2 + delta); (GPT_INSTALL, Some (primero e4 + delta), ultimo e4 + delta); (GPT_MODELS, Some (primero e3 + delta), ultimo e3)].
Definition orden_b (e2 e3 e4 : list byte) (delta : N) : list (N * option N * N) :=
  [(GPT_ROOT, None, ultimo e2 + delta); (GPT_MODELS, Some (primero e3 + delta), ultimo e3); (GPT_INSTALL, Some (primero e4 + delta), ultimo e4 + delta)].
(** The last sector before the second copy of the table. *)
Definition tope (h : Header) : N := alternate_lba h + 1 - 2 - entries_sectors h.
(** What [validate_geometry] accepts. *)
Definition valida (h : Header) (es : list (list byte)) (e2 e3 e4 : list byte) (delta : N) : bool :=
  (delta <? sectors (geom e3)) && cabe_en h (alternate_lba h + 1) (rangos es (orden_a e2 e3 e4 delta)) && (ultimo e4 + delta <=? tope h).

(** The root longer, the models shorter from below, the installer displaced,
    and the others as they were but for one end that may reach [tope]. *)
Record redimensionada (delta tope : N) (es es' : list (list byte)) : Prop := {
  rd_largo : length es' = length es;
  rd_cada i e : es !! i = Some e -> exists e', es' !! i = Some e' ∧ usada e' = usada e ∧
    primero e' = primero e + (if (i =? 2)%nat || (i =? 3)%nat then delta else 0) ∧
    (ultimo e' = ultimo e + (if (i =? 1)%nat || (i =? 3)%nat then delta else 0) ∨ (3 < i ∨ i = 0)%nat ∧ usada e = true ∧ ultimo e' = tope);
}.

Lemma rangos_lookup es e2 e3 e4 delta i orden : orden = orden_a e2 e3 e4 delta ∨ orden = orden_b e2 e3 e4 delta -> rangos es orden !! i =
  match i with
  | 1%nat => con_rango None (ultimo e2 + delta) <$> es !! i
  | 2%nat => con_rango (Some (primero e3 + delta)) (ultimo e3) <$> es !! i
  | 3%nat => con_rango (Some (primero e4 + delta)) (ultimo e4 + delta) <$> es !! i
  | _ => es !! i
  end.
Proof.
  intros [-> | ->]; unfold rangos, orden_a, orden_b, rango_puesto; cbn [foldl fst snd]; rewrite !list_lookup_alter;
    change (N.to_nat GPT_ROOT) with 1%nat; change (N.to_nat GPT_MODELS) with 2%nat; change (N.to_nat GPT_INSTALL) with 3%nat;
    destruct i as [|[|[|[|i]]]]; repeat case_decide; done || lia.
Qed.
Lemma estirada_cada last es es' : estirada last es es' -> length es' = length es ∧ forall i e, es !! i = Some e ->
  exists e', es' !! i = Some e' ∧ usada e' = usada e ∧ primero e' = primero e ∧ (ultimo e' = ultimo e ∨ usada e = true ∧ ultimo e' = last).
Proof.
  intros [Hno|i e e' Hi Hu Hmax Hl Hp Hu' _ _]; [split; [done|]; intros; eauto 10|]. split; [apply length_insert|]. intros j f Hj.
  destruct (decide (i = j)) as [->|Hij].
  - rewrite list_lookup_insert_eq by (by eapply lookup_lt_Some). simplify_eq. exists e'. split; [done|]. split; [congruence|]. auto.
  - rewrite list_lookup_insert_ne by done. eauto 10.
Qed.

(** ** Reading and writing the table of a healthy disk *)
Section Tabla.
Context {D : Type} `{Disk512Spec D} (h : Header) (es : list (list byte)) (e2 e3 e4 : list byte) (delta : N).
(** The table, its three partitions, and a disk that holds all of it. *)
Record situacion (d : D) : Prop := {
  si_sano : sano d;
  si_tabla : tabla_en (sector d) 1 h es;
  si_cabe : 1 < tamano ∧ entries_lba h + entries_sectors h <= tamano ∧ alternate_lba h + 1 <= tamano ∧ tamano < U64;
  si_root : es !! 1%nat = Some e2;
  si_models : es !! 2%nat = Some e3;
  si_install : es !! 3%nat = Some e4;
  si_rangos : primero e2 <= ultimo e2 ∧ primero e3 <= ultimo e3 ∧ primero e4 <= ultimo e4;
  si_fin : ultimo e2 + delta < U64 ∧ ultimo e3 + delta < U64 ∧ ultimo e4 + delta < U64 ∧ 0 < delta;
}.
Lemma situacion_igual d d' : situacion d -> sano d' -> (forall b, sector d' b = sector d b) -> situacion d'.
Proof. intros [H1 H2 H3 H4 H5 H6 H7 H8] Hs He. split; try done. by eapply tabla_en_igual. Qed.

Section Lecturas.
Context (d : D) (Hd : situacion d).
#[local] Set Default Proof Using "Hd".
Lemma si_lee_cabecera : lee leer_cabecera d h.
Proof. destruct Hd as [H1 H2 (H3 & _)]. by eapply leer_cabecera_lee. Qed.
Lemma si_lee_entradas : lee (leer_entradas h) d (concat es).
Proof. destruct Hd as [H1 H2 (H3 & H4 & H5 & H6)]. eapply leer_entradas_lee; [done|exact H2|done|lia]. Qed.
Lemma si_disk_sectors : lee disk_sectors d (alternate_lba h + 1).
Proof.
  destruct Hd as [H1 H2 (H3 & H4 & H5 & H6)]. unfold disk_sectors. eapply lee_luego; [apply si_lee_cabecera|]. intros d' Hs _.
  apply lee_puro; [done|apply add64_run; lia].
Qed.
End Lecturas.

Lemma read_part_lee d i e : situacion d -> es !! N.to_nat i = Some e -> primero e <= ultimo e -> ultimo e + 1 < U64 -> lee (read_part i) d (geom e).
Proof.
  intros Hd He Hr Hu. pose proof (te_tabla _ _ _ _ (si_tabla _ Hd)) as Ht. destruct (tabla_lookup h es Ht _ _ He) as (_ & L & Hn). unfold read_part.
  eapply lee_luego; [by apply si_lee_cabecera|]. intros d1 Hs1 He1. pose proof (situacion_igual _ _ Hd Hs1 He1) as Hd1.
  eapply lee_luego; [by apply si_lee_entradas|]. intros d2 Hs2 _. apply lee_puro; [done|].
  rewrite bind_eq, (entry_run h es Ht) by lia. rewrite He. cbn [of_option]. rewrite bind_eq. cbn [mret M_ret].
  rewrite bind_eq, (first_run e L), bind_eq, (last_run e L). unfold from_lba. rewrite bind_eq, add64_run by lia. done.
Qed.
(** The three partitions, read one after another. *)
Lemma leer_tres {A} (f : PartGeom -> PartGeom -> PartGeom -> M D ResizeError A) d Φ Ψ : situacion d ->
  (forall d', situacion d' -> (forall b, sector d' b = sector d b) -> acaba (f (geom e2) (geom e3) (geom e4)) d' Φ Ψ) ->
  acaba (p2 ← read_part GPT_ROOT; p3 ← read_part GPT_MODELS; p4 ← read_part GPT_INSTALL; f p2 p3 p4) d Φ Ψ.
Proof.
  intros Hd Hf. destruct (si_rangos _ Hd) as (R2 & R3 & R4), (si_fin _ Hd) as (F2 & F3 & F4 & F).
  eapply lee_bind; [apply (read_part_lee d _ e2 Hd); [apply Hd|done|lia]|]. intros d1 Hs1 He1. pose proof (situacion_igual _ _ Hd Hs1 He1) as Hd1.
  eapply lee_bind; [apply (read_part_lee d1 _ e3 Hd1); [apply Hd|done|lia]|]. intros d2 Hs2 He2. pose proof (situacion_igual _ _ Hd1 Hs2 He2) as Hd2.
  eapply lee_bind; [apply (read_part_lee d2 _ e4 Hd2); [apply Hd|done|lia]|]. intros d3 Hs3 He3. apply Hf; [by eapply situacion_igual|].
  intros b. by rewrite He3, He2, He1.
Qed.

Lemma ordenes_ok d : situacion d -> Forall (orden_ok (length es)) (orden_a e2 e3 e4 delta) ∧ Forall (orden_ok (length es)) (orden_b e2 e3 e4 delta).
Proof.
  intros Hd. destruct (si_rangos _ Hd) as (R2 & R3 & R4), (si_fin _ Hd) as (F2 & F3 & F4 & F). pose proof (lookup_lt_Some _ _ _ (si_install _ Hd)).
  unfold orden_a, orden_b, orden_ok, GPT_ROOT, GPT_MODELS, GPT_INSTALL. split; repeat constructor; cbn; lia.
Qed.

Lemma rangos_redimensionada d tope es2 : situacion d -> estirada tope (rangos es (orden_a e2 e3 e4 delta)) es2 ->
  redimensionada delta tope es (rangos es2 (orden_b e2 e3 e4 delta)).
Proof.
  intros Hd Hes. destruct (ordenes_ok d Hd) as [Oa Ob]. pose proof (te_tabla _ _ _ _ (si_tabla _ Hd)) as Ht.
  destruct (rangos_tabla h _ es Ht Oa) as [Ht1 Hl1]. destruct (estirada_cada _ _ _ Hes) as [Hl2 Hc].
  assert (tabla h es2) as Ht2.
  { destruct Hes as [?|i e e' Hi _ _ _ _ _ Htk Hdr]; [done|]. apply tabla_insert; [done|].
    destruct (tabla_lookup h _ Ht1 _ _ Hi) as (L1 & L2 & _). rewrite <- L1. unfold lenN in *.
    apply (f_equal length) in Htk. apply (f_equal length) in Hdr. rewrite ?length_take, ?length_drop in *. lia. }
  destruct (rangos_tabla h _ es2 Ht2 ltac:(rewrite Hl2, Hl1; exact Ob)) as [Ht3 Hl3]. split; [congruence|].
  intros i e Hi. pose proof (si_root _ Hd) as E2. pose proof (si_models _ Hd) as E3. pose proof (si_install _ Hd) as E4.
  destruct (si_rangos _ Hd) as (R2 & R3 & R4), (si_fin _ Hd) as (F2 & F3 & F4 & F).
  destruct (tabla_lookup h es Ht _ _ Hi) as (_ & L & _). pose proof (rangos_lookup es e2 e3 e4 delta i _ (or_introl eq_refl)) as R1.
  pose proof (rangos_lookup es2 e2 e3 e4 delta i _ (or_intror eq_refl)) as R5.
  assert (forall f l, l < U64 -> match f with Some f => f < U64 | None => True end -> rangos es (orden_a e2 e3 e4 delta) !! i = Some (con_rango f l e) ->
    exists e', con_rango f l <$> es2 !! i = Some e' ∧ usada e' = usada e ∧ primero e' = default (primero e) f ∧ ultimo e' = l) as Hset.
  { intros f l Hl Hf H1. destruct (con_rango_ok f l e L Hl Hf) as (C1 & C2 & C3 & _). destruct (Hc _ _ H1) as (e' & He' & U1 & U2 & _).
    rewrite He'. cbn. destruct (tabla_lookup h _ Ht2 _ _ He') as (_ & L' & _). destruct (con_rango_ok f l e' L' Hl Hf) as (C1' & C2' & C3' & _).
    eexists. split; [done|]. rewrite C1', C2', C3'. split; [congruence|]. split; [|done]. destruct f; [done|cbn in *; congruence]. }
  destruct i as [|[|[|[|i]]]]; cbn [Nat.eqb orb]; rewrite Hi in R1; cbn [fmap option_fmap option_map] in R1; rewrite R5.
  1,5: destruct (Hc _ _ R1) as (e' & He' & U1 & U2 & U3); exists e'; rewrite !N.add_0_r; split_and!; [done..|];
    destruct U3 as [?|[? ?]]; [by left|right; split_and!; [lia|done|done]].
  all: simplify_eq; eapply Hset in R1; [|lia|first [exact I|lia]]; destruct R1 as (e' & He' & U1 & U2 & U3); exists e'; cbn in U2; rewrite ?N.add_0_r; split_and!; try done; by left.
Qed.

Lemma geom_err_run {S A} (m : M S GptError A) s r : m s = r -> geom_err m s = (match r.1 with Ok a => Ok a | Err _ => Err InvalidGeometry | Panic => Panic | Fuel => Fuel end, r.2).
Proof. intros Hm. unfold geom_err, map_err, zoom, Datatypes.id. rewrite Hm. by destruct r as [[]?]. Qed.

(** The table after the planned ranges were written over the one in memory. *)
Lemma orden_a_tabla d : situacion d -> tabla h (rangos es (orden_a e2 e3 e4 delta)).
Proof. intros Hd. apply rangos_tabla; [apply (si_tabla _ Hd)|by apply (ordenes_ok d)]. Qed.
Lemma orden_a_run {E} d (s : D) : situacion d -> poner_rangos (E := E) h (concat es) (orden_a e2 e3 e4 delta) s = (Ok (concat (rangos es (orden_a e2 e3 e4 delta))), s).
Proof. intros Hd. apply poner_rangos_run; [apply (si_tabla _ Hd)|by apply (ordenes_ok d)]. Qed.

Lemma validate_acaba d : situacion d ->
  acaba (validate_geometry delta) d
    (fun _ d' => valida h es e2 e3 e4 delta = true ∧ sano d' ∧ forall b, sector d' b = sector d b)
    (fun d' => valida h es e2 e3 e4 delta = false ∧ forall b, sector d' b = sector d b).
Proof.
  intros Hd. unfold validate_geometry. apply leer_tres; [done|]. intros d1 Hd1 Hi1. unfold valida. cbn [sectors geom].
  destruct (N.leb_spec (ultimo e3 - primero e3 + 1) delta) as [Hle|Hgt].
  { destruct (N.ltb_spec delta (ultimo e3 - primero e3 + 1)); [lia|]. split; [done|exact Hi1]. }
  destruct (N.ltb_spec delta (ultimo e3 - primero e3 + 1)) as [_|]; [|lia]. cbn [andb first last geom].
  destruct (si_rangos _ Hd) as (R2 & R3 & R4), (si_fin _ Hd) as (F2 & F3 & F4 & F).
  do 4 (apply acaba_bind, acaba_add64; [lia|]).
  eapply lee_bind; [by apply si_lee_cabecera|]. intros d2 Hs2 Hi2. pose proof (situacion_igual _ _ Hd1 Hs2 Hi2) as Hd2.
  eapply lee_bind; [by apply si_lee_entradas|]. intros d3 Hs3 Hi3. pose proof (situacion_igual _ _ Hd2 Hs3 Hi3) as Hd3.
  apply acaba_bind. unfold acaba at 1. rewrite (orden_a_run d3 d3 Hd3).
  eapply lee_bind; [by apply si_disk_sectors|]. intros d4 Hs4 Hi4.
  assert (forall b, sector d4 b = sector d b) as Hi by (intros b; by rewrite Hi4, Hi3, Hi2, Hi1).
  destruct (si_cabe _ Hd) as (C1 & C2 & C3 & C4).
  pose proof (relayout_run h _ (alternate_lba h + 1) d4 (orden_a_tabla d Hd) ltac:(lia)) as Hr.
  apply acaba_bind. unfold acaba at 1. destruct (cabe_en _ _ _).
  - destruct Hr as (es' & Hr & _). rewrite (geom_err_run _ _ _ Hr). cbn [fst snd last_usable GptTeoremas.en_disco]. unfold tope.
    destruct (N.ltb_spec (alternate_lba h + 1 - 2 - entries_sectors h) (ultimo e4 + delta)), (N.leb_spec (ultimo e4 + delta) (alternate_lba h + 1 - 2 - entries_sectors h)); try lia; unfold acaba, throw, mret, M_ret; by split.
  - rewrite (geom_err_run _ _ _ Hr). cbn [fst snd]. by split.
Qed.

(** ** The table once written *)
Definition cabecera_nueva : Header := GptTeoremas.en_disco h (alternate_lba h + 1).
Definition cabecera_copia : Header := con_lbas cabecera_nueva (alternate_lba h) 1 (alternate_lba h - entries_sectors h).
Definition fuera_tablas (b : N) : Prop := b < 1 ∨ 2 + entries_sectors h <= b ∧ b < alternate_lba h - entries_sectors h ∨ alternate_lba h < b.

Lemma escribe_copia d0 (hd : Header) my esx d (k : M D ResizeError unit) (Φ : unit -> D -> Prop) Ψ : tabla hd esx -> my_lba hd = my -> sano d ->
  entries_lba hd + entries_sectors hd <= tamano -> entries_lba hd + entries_sectors hd < U64 -> my < tamano -> 
  my < entries_lba hd ∨ entries_lba hd + entries_sectors hd <= my ->
  (forall b, sector d b = d0 b) ->
  (forall d', sano d' -> tabla_en (sector d') my hd esx -> (forall b, b ≠ my -> b < entries_lba hd ∨ entries_lba hd + entries_sectors hd <= b -> sector d' b = d0 b) -> acaba k d' Φ Ψ) ->
  acaba (write_gpt_sectors (entries_lba hd) (concat esx);; s ← render hd (concat esx); write_sector my s;; k) d Φ Ψ.
Proof.
  intros Ht Hmy Hs H1 H2 H3 H4 He HΦ. pose proof (tabla_bytes hd esx Ht) as Hlen.
  assert (div_ceil (lenN (concat esx)) 512 = entries_sectors hd) as Hn by (by rewrite Hlen).
  apply acaba_bind. eapply acaba_mono; [apply escribe_tabla; [done|lia|lia]|..]; cbv beta; [|done].
  intros _ d1 [Hs1 He1]. destruct (render_run (E := ResizeError) hd (concat esx) d1 (ta_wf _ _ Ht)) as (b & Hr & _).
  apply acaba_bind. unfold acaba at 1. rewrite Hr. set (sec := header_sector _ _ _).
  apply acaba_bind. eapply acaba_mono; [apply escribe_sector; [done|done|apply header_sector_length, Ht]|..]; cbv beta; [|done].
  intros [] d2 [Hs2 He2]. apply HΦ; [done|..].
  - split; [done|..].
    + eexists _, _. split; [|split]; [..|rewrite He2, N.eqb_refl; reflexivity]; apply crc32_lt.
    + intros i Hi. rewrite Hn in Hi. rewrite He2. destruct (N.eqb_spec (entries_lba hd + i) my); [lia|]. rewrite He1. unfold pon. rewrite Hn.
      rewrite (proj2 (N.leb_le _ _)), (proj2 (N.ltb_lt _ _)) by lia. cbn [andb]. f_equal. lia.
  - intros c Hc Hf. rewrite He2. destruct (N.eqb_spec c my); [done|]. rewrite He1. unfold pon. rewrite Hn.
    destruct (N.leb_spec (entries_lba hd) c), (N.ltb_spec c (entries_lba hd + entries_sectors hd)); try lia; apply He.
Qed.

Lemma update_acaba d : situacion d -> valida h es e2 e3 e4 delta = true ->
  acaba (write_gpt_update delta (geom e2) (geom e3) (geom e4)) d
    (fun _ d' => sano d' ∧ exists es', redimensionada delta (tope h) es es' ∧ tabla_en (sector d') 1 cabecera_nueva es' ∧
       tabla_en (sector d') (alternate_lba h) cabecera_copia es' ∧ forall b, fuera_tablas b -> sector d' b = sector d b)
    (fun _ => False).
Proof.
  intros Hd Hv. unfold write_gpt_update. cbn [first last geom]. destruct (si_rangos _ Hd) as (R2 & R3 & R4), (si_fin _ Hd) as (F2 & F3 & F4 & F).
  destruct (si_cabe _ Hd) as (C1 & C2 & C3 & C4). unfold valida in Hv. apply andb_true_iff in Hv as [[_ Hc]%andb_true_iff _].
  eapply lee_bind; [by apply si_lee_cabecera|]. intros d2 Hs2 Hi2. pose proof (situacion_igual _ _ Hd Hs2 Hi2) as Hd2.
  eapply lee_bind; [by apply si_lee_entradas|]. intros d3 Hs3 Hi3. pose proof (situacion_igual _ _ Hd2 Hs3 Hi3) as Hd3.
  do 4 (apply acaba_bind, acaba_add64; [lia|]). apply acaba_bind. unfold acaba at 1. rewrite (orden_a_run d3 d3 Hd3).
  eapply lee_bind; [by apply si_disk_sectors|]. intros d4 Hs4 Hi4. assert (forall b, sector d4 b = sector d b) as Hi by (intros b; by rewrite Hi4, Hi3, Hi2).
  pose proof (relayout_run h _ (alternate_lba h + 1) d4 (orden_a_tabla d Hd) ltac:(lia)) as Hr. rewrite Hc in Hr. destruct Hr as (es2 & Hr & Ht2 & Hes2).
  apply acaba_bind. unfold acaba at 1. rewrite (geom_err_run _ _ _ Hr). cbn [fst snd]. fold cabecera_nueva in Ht2 |- *.
  pose proof (estirada_cada _ _ _ Hes2) as [Hl2 _]. destruct (rangos_tabla h _ es (te_tabla _ _ _ _ (si_tabla _ Hd)) (proj1 (ordenes_ok d Hd))) as [_ Hl1].
  assert (Forall (orden_ok (length es2)) (orden_b e2 e3 e4 delta)) as Hob by (rewrite Hl2, Hl1; apply (ordenes_ok d Hd)).
  apply acaba_bind. unfold acaba at 1. rewrite (poner_rangos_run cabecera_nueva (orden_b e2 e3 e4 delta) d4 es2 Ht2 Hob : poner_rangos _ _ _ _ = _).
  destruct (rangos_tabla _ _ _ Ht2 Hob) as [Ht3 _]. set (es3 := rangos es2 _) in *.
  assert (redimensionada delta (tope h) es es3) as Hrd by (by apply (rangos_redimensionada d)).
  unfold cabe_en in Hc. apply andb_true_iff in Hc as [Hsz%N.ltb_lt _].
  assert (entries_sectors cabecera_nueva = entries_sectors h ∧ entries_sectors cabecera_copia = entries_sectors h) as [Hn1 Hn2] by done.
  assert (alternate_lba h + 1 - 1 = alternate_lba h) as Ha by lia.
  assert (tabla cabecera_copia es3) as Htc.
  { destruct Ht3 as [[W1 W2 W3 W4 W5 W6] W7 W8]. split; [|done|done]. split; try done. cbn in W3 |- *. assert (1 < U64) by done. lia. }
  change (primary_entries_lba _) with (entries_lba cabecera_nueva). change (primary_header_lba _) with 1.
  change (render_primary _ _ _) with (render (S := D) (E := ResizeError) cabecera_nueva (concat es3)).
  unfold render_backup, plan_en. cbn [backup_header_lba primary_header_lba backup_entries_lba]. rewrite Ha.
  change (con_lbas _ _ _ _) with cabecera_copia. change (alternate_lba h - entries_sectors h) with (entries_lba cabecera_copia).
  assert (entries_lba cabecera_copia = alternate_lba h - entries_sectors h ∧ entries_lba cabecera_nueva = 2) as [Hl3 Hl4] by done.
  eapply (escribe_copia (sector d)); [done..|rewrite ?Hl3, ?Hn2; lia|rewrite ?Hl3, ?Hn2; lia|lia|rewrite ?Hl3, ?Hn2; lia|exact Hi|].
  intros d5 Hs5 Hback Hi5. rewrite Hl3, Hn2 in Hi5.
  eapply (escribe_copia (sector d5)); [done..|rewrite ?Hl4, ?Hn1; lia|rewrite ?Hl4, ?Hn1; lia|lia|rewrite ?Hl4, ?Hn1; lia|done|].
  intros d6 Hs6 Hprim Hi6. rewrite Hl4, Hn1 in Hi6.
  eapply acaba_mono; [apply flush_promete|..]; cbv beta; [|intros ? [_ Hn]; by apply Hn].
  intros _ d7 [Hi7 Hs7]. split; [auto|]. exists es3. split; [done|]. split; [by eapply tabla_en_igual|]. split.
  - eapply tabla_en_local; [exact Hback|..]; [|rewrite Hl3, Hn2; intros i Hin]; rewrite Hi7; apply Hi6; lia.
  - intros b Hb. unfold fuera_tablas in Hb. rewrite Hi7, Hi6, Hi5; [done|lia..].
Qed.
End Tabla.
