(* ===== verification/ResizeTeoremas.v ===== *)
(** * Resizing: the phases, and the properties

    Each phase on a healthy disk, the whole sequence, and what cuts and failures
    leave. *)
From S2P Require Import Prelude Texto SosofsLayout Gpt GptTabla GptTeoremas Resize ResizeTabla ResizeGpt.
Local Open Scope N_scope.

Section Obra.
Context {D : Type} `{Disk512Spec D} {W : Type} (on_progress : Journal -> W -> W).

Lemma en_obra_acaba {A} (m : M D ResizeError A) (o : Obra (D := D) (W := W)) (Φ : A -> D -> Prop) (Ψ : D -> Prop) :
  acaba m (disco o) Φ Ψ -> acaba (en_obra m) o (fun a o' => Φ a (disco o') ∧ journal o' = journal o ∧ mundo o' = mundo o) (fun o' => Ψ (disco o')).
Proof. unfold acaba, en_obra, zoom, Datatypes.id. destruct (m (disco o)) as [[]?]; cbn; auto. Qed.
Lemma en_obra_lee {A B} (m : M D ResizeError A) (f : A -> M (Obra (D := D) (W := W)) ResizeError B) o a Φ Ψ : lee m (disco o) a ->
  (forall d', sano d' -> (forall x, sector d' x = sector (disco o) x) -> acaba (f a) (mkObra d' (journal o) (mundo o)) Φ Ψ) -> acaba (en_obra m ≫= f) o Φ Ψ.
Proof.
  intros Hm Hf. apply acaba_bind. eapply acaba_mono; [apply en_obra_acaba, Hm|..]; cbv beta; [|done].
  intros ? [d' j w] ((-> & Hs & He) & Hj & Hw). cbn in *. subst. by apply Hf.
Qed.
(** The reports, one after another. *)
Definition informes (js : list Journal) (w : W) : W := foldl (fun w j => on_progress j w) w js.

(** One slide that has not started. *)
Lemma fase_acaba target src dst n (o : Obra (D := D) (W := W)) : sano (disco o) -> phase_before (phase (journal o)) target = true ->
  src < dst -> 0 < n -> dst + n <= tamano -> tamano < U64 -> let j := mkJournal target (delta_sectors (journal o)) in
  acaba (fase_slide on_progress target src dst n) o
    (fun _ o' => sano (disco o') ∧ progreso (sector (disco o)) src dst n n (disco o') ∧ journal o' = j n ∧ mundo o' = informes [j 0; j n] (mundo o))
    (fun _ => False).
Proof.
  intros Hs Hb Hlt Hn Ht Hu j. unfold fase_slide. apply acaba_bind. unfold acaba at 1, gets, Datatypes.id. rewrite Hb.
  apply acaba_bind. unfold acaba at 1. unfold set_phase, avisar, modify. rewrite bind_eq. cbn [disco journal mundo].
  fold (j 0). apply acaba_bind. unfold acaba at 1, en_slide, zoom, Datatypes.id. cbn [disco journal mundo slide_done j].
  pose proof (slide_acaba (sector (disco o)) src dst n (disco o) 0 Hlt ltac:(lia) ltac:(by apply progreso_cero) ltac:(lia)) as Hsl. unfold acaba in Hsl.
  destruct (slide_sectors src dst n (disco o, 0)) as [[[]|e| |] [d' k]]; cbn [fst snd] in Hsl; [|destruct Hsl as [_ Hno]; by apply Hno|done|done].
  destruct Hsl as ([? | ->] & Hp & Hs'); [lia|]. unfold acaba. cbn. auto.
Qed.

Section Todo.
Context (h : Header) (es : list (list byte)) (e2 e3 e4 : list byte) (delta : N).
(** The root first, the other two in either order, all of them used, and none of
    them over the table. *)
Record colocada : Prop := {
  co_usadas : usada e2 = true ∧ usada e3 = true ∧ usada e4 = true;
  co_root : ultimo e2 < primero e3 ∧ ultimo e2 < primero e4;
  co_solape : ultimo e3 < primero e4 ∨ ultimo e4 < primero e3;
  co_tabla : 1 < primero e2 ∧ entries_lba h + entries_sectors h <= primero e2;
}.

Lemma valida_dentro (d : D) : situacion h es e2 e3 e4 delta d -> valida h es e2 e3 e4 delta = true -> colocada ->
  delta < sectors (geom e3) ∧ 2 * entries_sectors h + 4 < alternate_lba h + 1 ∧ 2 + entries_sectors h <= primero e2 ∧
  ultimo e2 + delta <= tope h ∧ ultimo e3 <= tope h ∧ ultimo e4 + delta <= tope h.
Proof.
  intros Hd Hv Hco. unfold valida in Hv. apply andb_true_iff in Hv as [[Hs%N.ltb_lt Hc]%andb_true_iff H4%N.leb_le].
  unfold cabe_en in Hc. apply andb_true_iff in Hc as [Hsz%N.ltb_lt Hf]. fold (tope h) in Hf. destruct (co_usadas Hco) as (U2 & U3 & U4).
  destruct (si_rangos _ _ _ _ _ _ _ Hd) as (R2 & R3 & R4), (si_fin _ _ _ _ _ _ _ Hd) as (F2 & F3 & F4 & F). pose proof (te_tabla _ _ _ _ (si_tabla _ _ _ _ _ _ _ Hd)) as Ht.
  assert (forall i e f l, es !! i = Some e -> usada e = true -> l < U64 -> match f with Some f => f < U64 | None => True end ->
    rangos es (orden_a e2 e3 e4 delta) !! i = Some (con_rango f l e) -> 2 + entries_sectors h <= default (primero e) f ∧ l <= tope h) as Hin.
  { intros i e f l He Hu Hl Hfl Hi. destruct (tabla_lookup h es Ht _ _ He) as (_ & L & _). destruct (con_rango_ok f l e L Hl Hfl) as (C1 & C2 & C3 & _).
    rewrite forallb_forall in Hf. specialize (Hf (con_rango f l e)). unfold dentro in Hf. rewrite C1, C2, C3, Hu in Hf. cbn [negb orb] in Hf.
    assert (In (con_rango f l e) (rangos es (orden_a e2 e3 e4 delta))) as Hel by (apply list_elem_of_In; by eapply list_elem_of_lookup_2).
    apply Hf in Hel. apply andb_true_iff in Hel as [?%N.leb_le ?%N.leb_le]. done. }
  pose proof (rangos_lookup es e2 e3 e4 delta 1 _ (or_introl eq_refl)) as L2. pose proof (rangos_lookup es e2 e3 e4 delta 2 _ (or_introl eq_refl)) as L3.
  rewrite (si_root _ _ _ _ _ _ _ Hd) in L2. rewrite (si_models _ _ _ _ _ _ _ Hd) in L3. cbn [fmap option_fmap option_map] in L2, L3.
  apply (Hin 1%nat e2) in L2; [|apply Hd|done|lia|done]. apply (Hin 2%nat e3) in L3; [|apply Hd|done|lia|lia]. cbn in L2. split_and!; try done; lia.
Qed.

(** What is on the disk when it is over. *)
Definition dentro_de (a f l : N) : Prop := f <= a ∧ a <= l.
Record terminada (d d' : D) : Prop := {
  tm_sano : sano d';
  tm_tabla : exists es', redimensionada delta (tope h) es es' ∧ tabla_en (sector d') 1 (cabecera_nueva h) es' ∧ tabla_en (sector d') (alternate_lba h) (cabecera_copia h) es';
  tm_models i : primero e3 + i + delta <= ultimo e3 -> sector d' (primero e3 + delta + i) = sector d (primero e3 + i);
  tm_install i : primero e4 + i <= ultimo e4 -> sector d' (primero e4 + delta + i) = sector d (primero e4 + i);
  tm_root a : dentro_de a (primero e2) (ultimo e2) -> sector d' a = sector d a;
  tm_resto a : fuera_tablas h a -> ~ dentro_de a (primero e3 + delta) (ultimo e3) -> ~ dentro_de a (primero e4 + delta) (ultimo e4 + delta) -> sector d' a = sector d a;
}.
(** After the two slides. *)
Lemma dos_pasos d d3 d4 d5 : situacion h es e2 e3 e4 delta d -> colocada -> delta < sectors (geom e3) -> (forall b, sector d3 b = sector d b) ->
  progreso (sector d3) (primero e3) (primero e3 + delta) (sectors (geom e3) - delta) (sectors (geom e3) - delta) d4 ->
  progreso (sector d4) (primero e4) (primero e4 + delta) (sectors (geom e4)) (sectors (geom e4)) d5 ->
  (forall i, primero e3 + i + delta <= ultimo e3 -> sector d5 (primero e3 + delta + i) = sector d (primero e3 + i)) ∧
  (forall i, primero e4 + i <= ultimo e4 -> sector d5 (primero e4 + delta + i) = sector d (primero e4 + i)) ∧
  (forall a, ~ dentro_de a (primero e3 + delta) (ultimo e3) -> ~ dentro_de a (primero e4 + delta) (ultimo e4 + delta) -> sector d5 a = sector d a).
Proof.
  intros Hd Hco Hlt Hi [A1 _ A3] [B1 _ B3]. destruct (si_rangos _ _ _ _ _ _ _ Hd) as (R2 & R3 & R4). unfold dentro_de. cbn [sectors geom] in *.
  pose proof (co_solape Hco). split_and!.
  - intros i Hb. rewrite B3 by lia. rewrite A1 by lia. apply Hi.
  - intros i Hb. rewrite B1 by lia. rewrite A3 by lia. apply Hi.
  - intros a Ha Hb. rewrite B3 by lia. rewrite A3 by lia. apply Hi.
Qed.

Definition diario (p k : N) : Journal := mkJournal p delta k.
Definition informes_todos : list Journal :=
  [diario JOURNAL_SLIDE_P3 0; diario JOURNAL_SLIDE_P3 (sectors (geom e3) - delta);
   diario JOURNAL_SLIDE_P4 0; diario JOURNAL_SLIDE_P4 (sectors (geom e4)); diario JOURNAL_GPT 0; diario JOURNAL_IDLE 0].

Lemma apply_acaba d w : situacion h es e2 e3 e4 delta d -> valida h es e2 e3 e4 delta = true -> colocada ->
  acaba (apply_gpt_and_slides on_progress delta) (mkObra d (diario JOURNAL_SHRINK_MODELS 0) w)
    (fun _ o' => terminada d (disco o') ∧ journal o' = diario JOURNAL_IDLE 0 ∧ mundo o' = informes informes_todos w) (fun _ => False).
Proof.
  intros Hd Hv Hco. destruct (valida_dentro d Hd Hv Hco) as (V1 & V2 & V3 & V4 & V5 & V6).
  destruct (si_rangos _ _ _ _ _ _ _ Hd) as (R2 & R3 & R4), (si_fin _ _ _ _ _ _ _ Hd) as (F2 & F3 & F4 & F), (si_cabe _ _ _ _ _ _ _ Hd) as (C1 & C2 & C3 & C4).
  destruct (co_root Hco) as [P1 P2], (co_tabla Hco) as [T1 T2]. assert (tope h = alternate_lba h - 1 - entries_sectors h) as Htope by (unfold tope; lia).
  unfold apply_gpt_and_slides.
  eapply en_obra_lee; [apply (read_part_lee h es e2 e3 e4 delta d _ e2 Hd); [apply Hd|done|lia]|]. intros d1 Hs1 He1. cbn [disco journal mundo] in *. pose proof (situacion_igual _ _ _ _ _ _ _ _ Hd Hs1 He1) as Hd1.
  eapply en_obra_lee; [apply (read_part_lee h es e2 e3 e4 delta d1 _ e3 Hd1); [apply Hd|done|lia]|]. intros d2 Hs2 He2. cbn [disco journal mundo] in *. pose proof (situacion_igual _ _ _ _ _ _ _ _ Hd1 Hs2 He2) as Hd2.
  eapply en_obra_lee; [apply (read_part_lee h es e2 e3 e4 delta d2 _ e4 Hd2); [apply Hd|done|lia]|]. intros d3 Hs3 He3. cbn [disco journal mundo] in *. pose proof (situacion_igual _ _ _ _ _ _ _ _ Hd2 Hs3 He3) as Hd3.
  assert (forall b, sector d3 b = sector d b) as Hi by (intros b; by rewrite He3, He2, He1). clear d1 d2 Hs1 Hs2 He1 He2 He3 Hd1 Hd2.
  cbv zeta. cbn [sectors first geom]. cbn [sectors geom] in V1.
  apply acaba_bind. unfold acaba at 1, gets, Datatypes.id. cbn [journal diario phase]. change (phase_at_most JOURNAL_SHRINK_MODELS JOURNAL_SLIDE_P3) with true. cbv iota.
  apply acaba_bind, acaba_bind, acaba_add64; [lia|]. eapply acaba_mono; [apply fase_acaba; cbn [disco journal phase diario]; [done|done|lia|lia|lia|lia]|..]; cbv beta; [|done].
  intros _ [d4 j4 w4]. cbn [disco journal mundo delta_sectors diario]. intros (Hs4 & Hp4 & -> & ->).
  apply acaba_bind. unfold acaba at 1, gets, Datatypes.id. cbn [journal phase].
  rewrite (proj2 (N.ltb_lt 0 _)) by lia. change (phase_at_most JOURNAL_SLIDE_P3 JOURNAL_SLIDE_P4) with true. cbn [andb].
  apply acaba_bind, acaba_bind, acaba_add64; [lia|]. eapply acaba_mono; [apply fase_acaba; cbn [disco journal phase]; [done|done|lia|lia|lia|lia]|..]; cbv beta; [|done].
  intros _ [d5 j5 w5]. cbn [disco journal mundo delta_sectors]. intros (Hs5 & Hp5 & -> & ->).
  apply acaba_bind. unfold acaba at 1, gets, Datatypes.id. cbn [journal phase].
  change (phase_at_most JOURNAL_SLIDE_P4 JOURNAL_GPT) with true. cbv iota.
  apply acaba_bind, acaba_bind. unfold acaba at 1, set_phase, modify. cbn [disco journal mundo delta_sectors].
  apply acaba_bind. unfold acaba at 1, avisar, modify. cbn [disco journal mundo].
  destruct (dos_pasos d d3 d4 d5 Hd Hco V1 Hi Hp4 Hp5) as (G3 & G4 & Gr). unfold dentro_de in Gr.
  assert (situacion h es e2 e3 e4 delta d5) as Hd5.
  { destruct Hd. split; try done. eapply tabla_en_local; [done|..]; [|intros i Hin]; apply Gr; lia. }
  eapply acaba_mono; [apply en_obra_acaba, (update_acaba h es e2 e3 e4 delta d5 Hd5 Hv)|..]; cbv beta; [|done].
  intros _ [d6 j6 w6] [(Hs6 & es' & Hrd & Ht1 & Ht2 & Hf) [Hj Hw]]. cbn [disco journal mundo] in *. subst j6 w6.
  unfold acaba, set_phase, avisar, modify. rewrite bind_eq. cbn [disco journal mundo delta_sectors]. split; [|done].
  unfold fuera_tablas in Hf. split; [done|by exists es'|..]; unfold dentro_de, fuera_tablas.
  - intros i Hb. rewrite Hf by lia. by apply G3.
  - intros i Hb. rewrite Hf by lia. by apply G4.
  - intros a Ha. rewrite Hf by lia. apply Gr; lia.
  - intros a Ha Ha3 Ha4. rewrite Hf by lia. by apply Gr.
Qed.
End Todo.
End Obra.

(** * A small disk to resize

    Forty sectors; writes and flushes can be told to fail. It satisfies what a
    disk promises. *)
#[local] Set Default Proof Using "Type".

Definition TAM : N := 40.
(** [corte]: the writes left before the power goes; [flush_malos]: the flushes
    that will fail. *)
Record Disco40 := mkDisco { sectores : list (list byte); corte : option N; flush_malos : N }.
Definition ver (d : Disco40) (a : N) : list byte :=
  match sectores d !! N.to_nat a with Some s => if lenN s =? 512 then s else zeros 512 | None => zeros 512 end.
#[export] Instance disco40 : Disk512 Disco40 := {
  read_sector a := d ← gets Datatypes.id; if a <? lenN (sectores d) then mret (ver d a) else throw OutOfRange;
  write_sector a s :=
    d ← gets Datatypes.id;
    match corte d with
    | Some 0 => throw Io
    | o =>
        if a <? lenN (sectores d)
        then modify (fun d => mkDisco (<[N.to_nat a := s]> (sectores d)) ((fun n => n - 1) <$> o) (flush_malos d))
        else throw OutOfRange
    end;
  flush := d ← gets Datatypes.id; if flush_malos d =? 0 then mret tt else modify (fun d => mkDisco (sectores d) (corte d) (flush_malos d - 1));; throw Io;
}.

Lemma ver_512 d a : lenN (ver d a) = 512.
Proof. unfold ver. destruct (sectores d !! N.to_nat a); [|done]. by destruct (N.eqb_spec (lenN l) 512). Qed.
Lemma ver_pon d a s o n b : lenN s = 512 -> a < lenN (sectores d) -> ver (mkDisco (<[N.to_nat a := s]> (sectores d)) o n) b = if b =? a then s else ver d b.
Proof.
  intros Hs Hl. unfold ver. cbn [sectores]. destruct (N.eqb_spec b a) as [->|Hne].
  - rewrite list_lookup_insert_eq by (unfold lenN in *; lia). by rewrite (proj2 (N.eqb_eq _ _) Hs).
  - rewrite list_lookup_insert_ne by lia. done.
Qed.
Definition sano40 (d : Disco40) : Prop := lenN (sectores d) = TAM ∧ corte d = None ∧ flush_malos d = 0.
#[export] Instance disco40_spec : Disk512Spec Disco40.
Proof.
  refine {| sector := ver; tamano := TAM; sano := sano40; sector_512 := ver_512 |}.
  - intros d a. unfold acaba. cbn [read_sector disco40]. unfold gets, Datatypes.id. rewrite bind_eq. destruct (N.ltb_spec a (lenN (sectores d))); cbn.
    + done.
    + split; [done|]. intros [(Hl & _) Ha]. lia.
  - intros d a s Hs. unfold acaba. cbn [write_sector disco40]. unfold gets, Datatypes.id. rewrite bind_eq. destruct (corte d) as [[|n]|] eqn:Hc.
    + cbn. split; [done|]. intros [(_ & Hn & _) _]. congruence.
    + destruct (N.ltb_spec a (lenN (sectores d))); cbn [modify throw].
      * split; [intros b; by apply ver_pon|]. intros (_ & Hn & _). congruence.
      * split; [done|]. intros [(Hl & _) Ha]. lia.
    + destruct (N.ltb_spec a (lenN (sectores d))); cbn [modify throw].
      * split; [intros b; by apply ver_pon|]. intros (Hl & _ & Hf). split; [|done]. cbn. rewrite <- Hl. unfold lenN. by rewrite length_insert.
      * split; [done|]. intros [(Hl & _) Ha]. lia.
  - intros d. unfold acaba. cbn [flush disco40]. unfold gets, Datatypes.id. rewrite bind_eq. destruct (N.eqb_spec (flush_malos d) 0) as [Hf|Hf]; cbn.
    + done.
    + split; [done|]. intros (_ & _ & Hn). done.
Defined.

(** Sector [i] full of byte [i], but for the two copies of the table. *)
Definition pintado (i : N) : list byte := replicate 512 (byte_of i).
Definition pintar (l : list (N * list byte)) : list (list byte) :=
  foldl (fun ss '(i, s) => <[N.to_nat i := s]> ss) (pintado <$> upto TAM) l.
Definition sector_de (h : Header) (es : list (list byte)) : list byte :=
  match render (S := unit) (E := unit) h (concat es) tt with (Ok s, _) => s | _ => [] end.
Definition con_tabla (es : list (list byte)) : list (list byte) :=
  pintar [(1, sector_de cabecera_chica es); (2, concat es); (38, concat es); (39, sector_de (con_lbas cabecera_chica 39 1 38) es)].
Definition disco_sano (es : list (list byte)) : Disco40 := mkDisco (con_tabla es) None 0.

Lemma disco_chico : situacion (D := Disco40) cabecera_chica tabla_chica raiz_chica modelos_chica instala_chica 3 (disco_sano tabla_chica).
Proof.
  split.
  - split_and!; vm_compute; reflexivity.
  - split; [exact tabla_chica_ok| |].
    + destruct (render_run (E := unit) cabecera_chica (concat tabla_chica) tt (ta_wf _ _ tabla_chica_ok)) as (b & Hr & _).
      eexists _, _. split; [apply crc32_lt|]. split; [apply crc32_lt|]. transitivity (sector_de cabecera_chica tabla_chica); [vm_compute; reflexivity|].
      unfold sector_de. by rewrite Hr.
    + intros i Hi. assert (i = 0) as -> by (vm_compute in Hi; destruct i; [done|destruct p; discriminate]). vm_compute. reflexivity.
  - split_and!; vm_compute; done.
  - done.
  - done.
  - done.
  - split_and!; vm_compute; done.
  - split_and!; vm_compute; done.
Defined.
Lemma chica_colocada : colocada cabecera_chica raiz_chica modelos_chica instala_chica.
Proof. split; [split_and!; by vm_compute|split; by vm_compute|left; by vm_compute|split; by vm_compute]. Defined.
Lemma chica_valida : valida cabecera_chica tabla_chica raiz_chica modelos_chica instala_chica 3 = true.
Proof. vm_compute. reflexivity. Defined.

(** * Resizing: the properties *)
(** The journal reads back as it was written, in one sector; a sector never
    written is a journal at rest, and what is recovered are exactly the phases
    that have a rank above the one at rest. *)
Theorem diario_resize_redondo j : phase j < 256 -> delta_sectors j < U64 -> slide_done j < U64 ->
  lenN (journal_encode j) = 512 ∧ journal_decode (journal_encode j) = inr j ∧ journal_decode (zeros 512) = inr journal_idle ∧
  (needs_recovery j = true <-> exists r, phase_rank (phase j) = Some r ∧ 0 < r).
Proof.
  intros Hp Hd Hs. split; [|split; [|split; [by vm_compute|]]].
  - unfold journal_encode, lenN. rewrite !length_app. len_norm. done.
  - unfold journal_decode. assert (take 7 (drop 1 (journal_encode j)) = RES_MAGIC) as ->.
    { unfold journal_encode, u8. rewrite drop_app_ge by (len_norm; lia). len_norm. rewrite Nat.sub_diag, drop_0. by apply take_app_length'. }
    rewrite bool_decide_eq_true_2 by done. cbn [negb]. destruct j as [p d s]. cbn in *. do 2 f_equal; unfold journal_encode, u8, u64; cbn [phase delta_sectors slide_done]; field_solve.
  - unfold needs_recovery, valid_phase, phase_rank. cbn [existsb].
    destruct (phase j =? JOURNAL_IDLE); [split; [done|intros (r & [= <-] & ?); lia]|].
    repeat (match goal with |- context [phase j =? ?x] => destruct (phase j =? x) end); cbn; split; try done; eauto.
    all: try (intros _; eexists; split; [reflexivity|lia]). all: intros (r & Hr & _); discriminate Hr.
Qed.

Definition diario_de_prueba : Journal := mkJournal JOURNAL_SLIDE_P3 128 64.
Lemma diario_resize_redondo_testigo : phase diario_de_prueba < 256 ∧ journal_decode (journal_encode diario_de_prueba) = inr diario_de_prueba.
Proof. split; [done|]. apply (diario_resize_redondo diario_de_prueba); done. Defined.

(** C9. Sliding a partition forward over itself, on a disk that may fail at any
    operation: when it says yes every sector is in its new place, and a healthy
    disk never makes it say no. When it fails, the progress it leaves is one from
    which the slide can go on, with the sectors already counted in place and the
    others intact, but for one case: the last flush failed and the attempt had
    more sectors to move than the partition advances. *)
Theorem slide_reanudable {D : Type} `{Disk512Spec D} orig src dst n d k :
  src < dst -> dst + n < U64 -> k <= n -> progreso orig src dst n k d ->
  match slide_sectors src dst n (d, k) with
  | (Ok _, (d', k')) => (forall i, i < n -> sector d' (dst + i) = orig (src + i)) ∧ (forall a, a < dst ∨ dst + n <= a -> sector d' a = orig a) ∧ (n = 0 ∨ k' = n)
  | (Err _, (d', k')) => ~ (sano d ∧ dst + n <= tamano) ∧ k <= k' ∧ k' <= n ∧
      (progreso orig src dst n k' d' ∨ k' = k ∧ dst - src < n - k ∧ progreso orig src dst n n d')
  | _ => False
  end.
Proof.
  intros Hlt Hb Hk Hp. pose proof (slide_acaba orig src dst n d k Hlt Hb Hp Hk) as Hs. unfold acaba in Hs.
  destruct (slide_sectors src dst n (d, k)) as [[[]|e| |] [d' k']]; cbn [fst snd] in Hs; try done.
  - destruct Hs as (Hn & [H1 _ H3] & _). split; [|done]. intros i Hi. apply H1; lia.
  - destruct Hs as ([(H1 & H2 & H3) | [-> Hp']] & Hno); split; try done; [split_and!; try lia; by left|].
    split_and!; [lia|lia|]. destruct (N.le_gt_cases (n - k) (dst - src)) as [Hle|Hgt]; [left|by right].
    by apply (progreso_atras _ _ _ _ _ n).
Qed.

(** Cut after five writes, ten sectors sliding by three. *)
Definition disco_cortado : Disco40 := mkDisco (con_tabla tabla_chica) (Some 5) 0.
Lemma slide_reanudable_testigo : progreso (ver disco_cortado) 10 13 10 0 disco_cortado ∧
  (exists d', slide_sectors 10 13 10 (disco_cortado, 0) = (Err Io, (d', 5)) ∧ progreso (ver disco_cortado) 10 13 10 5 d').
Proof.
  assert (progreso (ver disco_cortado) 10 13 10 0 disco_cortado) as Hp by (by apply progreso_cero). split; [exact Hp|].
  pose proof (slide_reanudable (ver disco_cortado) 10 13 10 disco_cortado 0 ltac:(done) ltac:(done) ltac:(done) Hp) as Hs.
  destruct (slide_sectors 10 13 10 (disco_cortado, 0)) as [r [d' k']] eqn:Hr.
  assert (match (slide_sectors 10 13 10 (disco_cortado, 0)).1 with Err Io => true | _ => false end = true) as H1 by (vm_compute; reflexivity).
  assert ((slide_sectors 10 13 10 (disco_cortado, 0)).2.2 = 5) as H2 by (vm_compute; reflexivity).
  rewrite Hr in H1, H2. cbn in H1, H2. subst k'. destruct r as [|[]| |]; try done. exists d'. split; [reflexivity|].
  destruct Hs as (_ & _ & _ & [?|[? _]]); [done|lia].
Defined.

(** C8. Growing the root from the end of the models, on a healthy disk whose table
    has the root first and the models and the installer's partition after it,
    apart from each other: when the geometry is accepted the whole sequence succeeds; the kept sectors of the
    models and all those of the installer's partition are at their new places,
    those of the root where they were, both copies of the table describe the new
    ranges, and the journal was reported at every phase and ends at rest. When
    it is not accepted nothing has been written. The check of the geometry does
    not ask for that order itself ([sin_cuarta_pisa]). *)
Theorem redimension_exacta {D W : Type} `{Disk512Spec D} (on_progress : Journal -> W -> W) h es e2 e3 e4 delta d w :
  situacion h es e2 e3 e4 delta d -> colocada h e2 e3 e4 ->
  match validate_geometry delta d with
  | (Ok _, d1) =>
      match apply_gpt_and_slides on_progress delta (mkObra d1 (diario delta JOURNAL_SHRINK_MODELS 0) w) with
      | (Ok _, o) => terminada h es e2 e3 e4 delta d (disco o) ∧ journal o = diario delta JOURNAL_IDLE 0 ∧
          mundo o = informes on_progress (informes_todos e3 e4 delta) w
      | _ => False
      end
  | (Err _, d1) => valida h es e2 e3 e4 delta = false ∧ forall a, sector d1 a = sector d a
  | _ => False
  end.
Proof.
  intros Hd Hco. pose proof (validate_acaba h es e2 e3 e4 delta d Hd) as Hv. unfold acaba in Hv.
  destruct (validate_geometry delta d) as [[[]|e| |] d1]; try done. destruct Hv as (Hv & Hs & Hi).
  pose proof (apply_acaba on_progress h es e2 e3 e4 delta d1 w (situacion_igual _ _ _ _ _ _ _ _ Hd Hs Hi) Hv Hco) as Ha. unfold acaba in Ha.
  destruct (apply_gpt_and_slides _ _ _) as [[[]|e| |] o]; try done. destruct Ha as ([T1 T2 T3 T4 T5 T6] & Hj & Hw).
  split; [|done]. split; try done; intros; rewrite <- Hi; auto.
Qed.

Lemma redimension_exacta_testigo :
  situacion (D := Disco40) cabecera_chica tabla_chica raiz_chica modelos_chica instala_chica 3 (disco_sano tabla_chica) ∧
  exists d1 o, validate_geometry 3 (disco_sano tabla_chica) = (Ok tt, d1) ∧
    apply_gpt_and_slides (fun j (l : list Journal) => j :: l) 3 (mkObra d1 (diario 3 JOURNAL_SHRINK_MODELS 0) []) = (Ok tt, o) ∧
    terminada cabecera_chica tabla_chica raiz_chica modelos_chica instala_chica 3 (disco_sano tabla_chica) (disco o).
Proof.
  split; [exact disco_chico|].
  pose proof (redimension_exacta (fun j (l : list Journal) => j :: l) cabecera_chica tabla_chica raiz_chica modelos_chica instala_chica 3 (disco_sano tabla_chica) [] disco_chico chica_colocada) as Hr.
  destruct (validate_geometry 3 (disco_sano tabla_chica)) as [[[]|e| |] d1] eqn:Hv; [|destruct Hr as [Hr _]|destruct Hr|destruct Hr].
  - destruct (apply_gpt_and_slides _ _ _) as [[[]|e| |] o] eqn:Ha; [|destruct Hr|destruct Hr|destruct Hr]. exists d1, o. split; [reflexivity|]. split; [exact Ha|apply Hr].
  - exfalso. rewrite chica_valida in Hr. discriminate Hr.
Defined.

(** * What a resize does not survive

    Concrete runs on the small disk. The journal that survives is the one in the
    ESP, which the kernel writes at each report and at no other moment. *)
#[local] Set Default Proof Using "Type".

(** [journal_write(j)] of [kernel/src/fs_resize.rs]: the sector of the ESP. *)
Definition en_esp (j : Journal) (_ : list byte) : list byte := journal_encode j.
Definition empezar (d : Disco40) : Obra := mkObra d (diario 3 JOURNAL_SHRINK_MODELS 0) (journal_encode (diario 3 JOURNAL_SHRINK_MODELS 0)).
(** The power comes back: the disk works, and the journal is read again. *)
Definition reparar (d : Disco40) : Disco40 := mkDisco (sectores d) None 0.
Definition rearrancar (o : Obra (D := Disco40) (W := list byte)) : option (Obra (D := Disco40) (W := list byte)) :=
  match journal_decode (mundo o) with inr j => Some (mkObra (reparar (disco o)) j (mundo o)) | inl _ => None end.
Definition fallo {S A} (r : outcome ResizeError A * S) : bool := match r.1 with Err Io => true | _ => false end.
Definition bien_acabado {S A} (r : outcome ResizeError A * S) : bool := match r.1 with Ok _ => true | _ => false end.
(** A first run that fails, a restart, a recovery that succeeds, and a fact of
    the disk it leaves. *)
Definition tras_recuperar (d : Disco40) (P : Disco40 -> bool) : bool :=
  let r := apply_gpt_and_slides en_esp 3 (empezar d) in
  fallo r &&
  match rearrancar r.2 with
  | Some o => let r := recover_slides_and_gpt en_esp o in bien_acabado r && (phase (journal r.2) =? JOURNAL_IDLE) && P (disco r.2)
  | None => false
  end.
Definition mismo (a b : list byte) : bool := bool_decide (a = b).
(** The seven sectors of the models that are kept. *)
Definition modelos_a_salvo (d0 d : Disco40) : bool := forallb (fun i => mismo (ver d (13 + i)) (ver d0 (10 + i))) (upto 7).
Definition primero_de (d : Disco40) (i : N) : N := match (read_part i d).1 with Ok g => first g | _ => 0 end.

(** Power cut while the models slide: the journal in the ESP still says that
    nothing has been moved, so the recovery starts the slide again over sectors
    already overwritten, reports success, and models are lost. *)
Theorem corte_pierde_modelos : exists n, let d := mkDisco (con_tabla tabla_chica) (Some n) 0 in
  valida cabecera_chica tabla_chica raiz_chica modelos_chica instala_chica 3 = true ∧
  tras_recuperar d (fun d' => negb (modelos_a_salvo d d')) = true.
Proof. exists 5. split; vm_compute; reflexivity. Qed.

(** The flush at the end of the slide fails: the progress goes back to where the
    attempt began, and going on from there loses models. *)
Theorem flush_pierde_modelos :
  let d := mkDisco (con_tabla tabla_chica) None 1 in let r := slide_sectors 10 13 7 (d, 0) in
  fallo r = true ∧ r.2.2 = 0 ∧ let r' := slide_sectors 10 13 7 r.2 in bien_acabado r' = true ∧ r'.2.2 = 7 ∧ modelos_a_salvo d r'.2.1 = false.
Proof. cbv zeta. split_and!; vm_compute; reflexivity. Qed.

(** Power cut once the new entries are on the disk: the recovery reads them as if
    they were the old ones and displaces the partitions again: the table now leaves out the first sectors
    of the models. *)
Theorem corte_dobla : let d := mkDisco (con_tabla tabla_chica) (Some 14) 0 in
  tras_recuperar d (fun d' => (primero_de d' GPT_MODELS =? 10 + 3 + 3)) = true.
Proof. cbv zeta. vm_compute. reflexivity. Qed.

(** A table without a fourth partition: its empty entry reads as the one sector
    0, which is copied over sector [delta], of another partition. *)
Definition sin_cuarta : list (list byte) := [esp_chica; raiz_chica; modelos_chica; zeros 128].
Theorem sin_cuarta_pisa : let d := disco_sano sin_cuarta in
  bien_acabado (validate_geometry 3 d) = true ∧
  let r := apply_gpt_and_slides en_esp 3 (empezar d) in bien_acabado r = true ∧ mismo (ver (disco r.2) 3) (ver d 0) = true ∧ mismo (ver d 3) (ver d 0) = false.
Proof. cbv zeta. split_and!; vm_compute; reflexivity. Qed.
