(* ===== verification/Mmap.v ===== *)
(** * The map of a process

    [kernel/src/task/mmap.rs], the list of regions of an address space, and the
    system calls of [kernel/src/task/syscall.rs] that give a program memory. *)
From S2P Require Import Prelude.
Local Open Scope N_scope.

Definition MMAP_BASE : N := 0x1000000000.
Definition MMAP_LIMIT : N := 0x7800000000.
Definition HUGE_ALIGN : N := 2 * 1024 * 1024.

Inductive UserProt := R | Rw | Rx | Rwx.
Record MmapRegion := mkRegion {
  virt_start : N; len : N; inode : N; file_offset : N; file_len : N; writable : bool; exec : bool; sin_acceso : bool; shm_id : N;
}.
Definition region_prot (r : MmapRegion) : UserProt :=
  if exec r then if writable r then Rwx else Rx
  else if writable r then Rw else R.
(** [r.virt_start.saturating_add(r.len)] *)
Definition rend (r : MmapRegion) : N := saturating_add64 (virt_start r) (len r).
(** The same region over another range, its file displaced. *)
Definition con_rango (r : MmapRegion) (start n avance : N) : MmapRegion :=
  mkRegion start n (inode r) (saturating_add64 (file_offset r) avance) (file_len r) (writable r) (exec r) (sin_acceso r) (shm_id r).

(** ** Where a region fits *)
Definition solapa (start fin : N) (r : MmapRegion) : bool := (start <? rend r) && (virt_start r <? fin).
Definition mayor (l : list N) : option N := foldr (fun a o => Some (match o with Some b => N.max a b | None => a end)) None l.
Definition first_overlap (regions : list MmapRegion) (start len : N) : option N :=
  fin ← checked_add64 start len;
  mayor (rend <$> filter (fun r => solapa start fin r = true) regions).

(** [loop] of [next_addr]. *)
Fixpoint hueco {X E} (fuel : nat) (regions : list MmapRegion) (len align addr : N) : M X E (option N) :=
  match fuel with
  | O => no_fuel
  | S fuel =>
      if match checked_add64 addr len with None => true | Some fin => MMAP_LIMIT <? fin end then mret None
      else
        match first_overlap regions addr len with
        | None => mret (Some addr)
        | Some region_end => addr ← next_multiple_of region_end align; hueco fuel regions len align addr
        end
  end.
Definition next_addr {X E} (regions : list MmapRegion) (hint len : N) : M X E (option N) :=
  len ← next_multiple_of len 4096;
  let align := if HUGE_ALIGN <=? len then HUGE_ALIGN else 4096 in
  let start := if hint =? 0 then MMAP_BASE else hint in
  addr ← next_multiple_of start align;
  hueco (S (S (length regions))) regions len align addr.

(** ** Which region an address belongs to *)
Definition contiene (addr : N) (r : MmapRegion) : bool := (virt_start r <=? addr) && (addr <? rend r).
(** [regions.iter().rev().find(..)]: the last one wins. *)
Definition find_region (regions : list MmapRegion) (addr : N) : option MmapRegion := snd <$> list_find (fun r => contiene addr r = true) (rev regions).

(** ** Changing a range *)
(** The pieces of [r] before, inside and after [[addr, fin)]. *)
Definition antes (r : MmapRegion) (addr : N) : list MmapRegion :=
  if virt_start r <? addr then [mkRegion (virt_start r) (addr - virt_start r) (inode r) (file_offset r) (file_len r) (writable r) (exec r) (sin_acceso r) (shm_id r)] else [].
Definition despues (r : MmapRegion) (fin : N) : list MmapRegion :=
  if fin <? rend r then [con_rango r fin (rend r - fin) (fin - virt_start r)] else [].
Definition medio (r : MmapRegion) (addr fin : N) (w x s : bool) : list MmapRegion :=
  let mid_start := N.max (virt_start r) addr in
  let mid_end := N.min (rend r) fin in
  if mid_start <? mid_end
  then [mkRegion mid_start (mid_end - mid_start) (inode r) (saturating_add64 (file_offset r) (mid_start - virt_start r)) (file_len r) w x s (shm_id r)]
  else [].
Definition fuera (r : MmapRegion) (addr fin : N) : bool := (rend r <=? addr) || (fin <=? virt_start r).

(** The answer and the regions after it. *)
Definition split_prot (regions : list MmapRegion) (addr len : N) (w x s : bool) : bool * list MmapRegion :=
  match checked_add64 addr len with
  | None => (false, regions)
  | Some fin =>
      (existsb (fun r => negb (fuera r addr fin)) regions,
       regions ≫= fun r => if fuera r addr fin then [r] else antes r addr ++ medio r addr fin w x s ++ despues r fin)
  end.
Definition remove_region (regions : list MmapRegion) (addr len : N) : bool * list MmapRegion :=
  match checked_add64 addr len with
  | None => (false, regions)
  | Some fin =>
      (existsb (fun r => negb (fuera r addr fin)) regions,
       regions ≫= fun r => if fuera r addr fin then [r] else antes r addr ++ despues r fin)
  end.

(** ** System calls *)
Definition EINVAL : Z := 22.
Definition ENOMEM : Z := 12.
Definition BRK_MAX : N := 0x60000000.
Definition checked_next_multiple_of (a m : N) : option N := if a mod m =? 0 then Some a else checked_add64 a (m - a mod m).

(** The pages of an address space ([addrspace.rs]), the queue of evictable pages
    ([mm/reclaim.rs]) and the shared segments ([shm.rs]): what these calls ask
    of them. [ensure_mapped] answers whether there was a frame. *)
Class Espacio (P : Type) := {
  ensure_mapped : N -> P -> bool * P;
  unmap_range : N -> N -> P -> P;
  unmap_range_keep_frames : N -> N -> P -> P;
  forget_range : N -> N -> P -> P;
  drop_ref : N -> P -> P;
}.

(** What these calls use of a process: the book of its address space, the break
    and its pages. [abierto] is the inode and size of the file open at a
    descriptor, or the error. *)
Section Llamadas.
Context {P : Type} `{Espacio P} (abierto : N -> Z + N * N).
Record Proceso := mkProceso { libro : list MmapRegion; next : N; brk : N; brk_min : N; espacio : P }.
Definition set_libro (l : list MmapRegion) p := mkProceso l (next p) (brk p) (brk_min p) (espacio p).
Definition set_next (n : N) p := mkProceso (libro p) n (brk p) (brk_min p) (espacio p).
Definition set_brk (b : N) p := mkProceso (libro p) (next p) b (brk_min p) (espacio p).
Definition en_espacio (f : P -> P) p := mkProceso (libro p) (next p) (brk p) (brk_min p) (f (espacio p)).
Abbreviation L := (M Proceso Z).

Definition paginas_entre (a b : N) : list N := (fun i => a + 4096 * i) <$> upto ((b - a) / 4096).
Definition asegura (va : N) : L unit :=
  fun p => let '(ok, e) := ensure_mapped va (espacio p) in (if ok : bool then Ok tt else Err (- ENOMEM)%Z, en_espacio (fun _ => e) p).
Definition sys_sbrk (delta : Z) : L N :=
  p ← gets id;
  let old := brk p in
  let n := (Z.of_N old + delta)%Z in
  let nuevo := Z.to_N n in
  if negb ((0 <=? n)%Z && (nuevo <? U64) && (brk_min p <=? nuevo) && (nuevo <=? BRK_MAX)) then throw (- ENOMEM)%Z
  else
    (if old <? nuevo
     then a ← next_multiple_of old 4096;
          b ← next_multiple_of nuevo 4096;
          mfor asegura (paginas_entre a b)
     else mret tt);;
    modify (set_brk nuevo);;
    mret old.

Definition sys_mmap (addr len fd offset : N) : L N :=
  if len =? 0 then throw (- EINVAL)%Z
  else
    len_aligned ← of_option (throw (- EINVAL)%Z) (checked_next_multiple_of len 4096);
    '(inode, file_len, writable) ←
      (if fd =? U64_MAX then mret (0, 0, true)
       else
         match abierto fd with
         | inl e => throw e
         | inr (ino, fsize) =>
             fin ← of_option (throw (- EINVAL)%Z) (checked_add64 offset len);
             if (fsize <=? offset) || (fsize <? fin) then throw (- EINVAL)%Z else mret (ino, fsize, false)
         end);
    p ← gets id;
    o ← next_addr (libro p) addr len_aligned;
    virt ← of_option (throw (- ENOMEM)%Z) o;
    modify (set_libro (libro p ++ [mkRegion virt len_aligned inode offset file_len writable false false 0]));;
    (if next p <=? virt then n ← add64 virt len_aligned; modify (set_next n) else mret tt);;
    mret virt.

(** [while va < end] *)
Fixpoint desmapar (fuel : nat) (shm : list MmapRegion) (va fin : N) : L unit :=
  match fuel with
  | O => no_fuel
  | S fuel =>
      if va <? fin then
        let n := N.min 4096 (fin - va) in
        modify (en_espacio (if existsb (fun r => negb (shm_id r =? 0) && contiene va r) shm then unmap_range_keep_frames va n else unmap_range va n));;
        va ← add64 va n;
        desmapar fuel shm va fin
      else mret tt
  end.
Definition sys_munmap (addr len : N) : L N :=
  if len =? 0 then throw (- EINVAL)%Z
  else if U64_MAX - 4096 <? len then throw (- EINVAL)%Z
  else
    len_aligned ← next_multiple_of len 4096;
    let fin := saturating_add64 addr len_aligned in
    regions ← gets libro;
    let shm_touch := filter (fun r => shm_id r ≠ 0 ∧ virt_start r < fin ∧ addr < rend r) regions in
    let '(ok, l) := remove_region regions addr len_aligned in
    modify (set_libro l);;
    if negb ok then throw (- EINVAL)%Z
    else
      desmapar (S (N.to_nat (len_aligned / 4096))) shm_touch addr fin;;
      mfor (fun r => if (addr <=? virt_start r) && (rend r <=? fin) then modify (en_espacio (drop_ref (shm_id r))) else mret tt) shm_touch;;
      modify (en_espacio (forget_range addr len_aligned));;
      mret 0.
End Llamadas.
Arguments Proceso P : clear implicits.
