(* ===== verification/MmapLibro.v ===== *)
(** * The book as a map from addresses to pages

    What each operation does to the last region that contains an address. *)
From S2P Require Import Prelude Mmap.
Local Open Scope N_scope.

(** What a region says of one of its addresses: the inode, the byte of the file,
    the size of the file, the permissions and the shared segment. *)
Definition pagina (r : MmapRegion) (a : N) : N * N * N * (bool * bool * bool) * N :=
  (inode r, saturating_add64 (file_offset r) (a - virt_start r), file_len r, (writable r, exec r, sin_acceso r), shm_id r).
Definition vista (rs : list MmapRegion) (a : N) : option (N * N * N * (bool * bool * bool) * N) := (fun r => pagina r a) <$> find_region rs a.
Definition region_u64 (r : MmapRegion) : Prop := virt_start r < U64.

Lemma vista_nil a : vista [] a = None.
Proof. done. Qed.
Lemma vista_snoc rs r a : vista (rs ++ [r]) a = if contiene a r then Some (pagina r a) else vista rs a.
Proof.
  unfold vista, find_region. rewrite rev_app_distr. cbn [rev app list_find]. destruct (contiene a r) eqn:Hc.
  - by rewrite decide_True.
  - rewrite decide_False by done. by destruct (list_find _ (rev rs)) as [[]|].
Qed.
Lemma vista_app l k a : vista (l ++ k) a = match vista k a with Some p => Some p | None => vista l a end.
Proof.
  induction k as [|r k IH] using rev_ind; [by rewrite app_nil_r|]. rewrite (assoc_L (++)), !vista_snoc. by destruct (contiene a r).
Qed.
Lemma vista_uno r a : vista [r] a = if contiene a r then Some (pagina r a) else None.
Proof. apply (vista_snoc [] r). Qed.
Lemma vista_Some rs a p : vista rs a = Some p -> exists r, r ∈ rs ∧ contiene a r = true.
Proof.
  induction rs as [|r rs IH] using rev_ind; [done|]. rewrite vista_snoc. destruct (contiene a r) eqn:Hc.
  - intros _. exists r. split; [set_solver|done].
  - intros (r' & ? & ?)%IH. exists r'. split; [set_solver|done].
Qed.
Lemma vista_None rs a : vista rs a = None <-> forall r, r ∈ rs -> contiene a r = false.
Proof.
  induction rs as [|r rs IH] using rev_ind; [split; [intros _ r Hr; by apply elem_of_nil in Hr|done]|]. rewrite vista_snoc. destruct (contiene a r) eqn:Hc.
  - split; [done|]. intros Hn. rewrite (Hn r) in Hc by set_solver. done.
  - rewrite IH. split; intros Hn s Hs; [apply elem_of_app in Hs as [?|?%list_elem_of_singleton]; [auto|by subst]|apply Hn; set_solver].
Qed.
(** Region by region. *)
Lemma vista_bind (f : MmapRegion -> list MmapRegion) (g : option _ -> option _) rs a : g None = None ->
  Forall (fun r => forall o, match vista (f r) a with Some p => Some p | None => g o end = g (match vista [r] a with Some p => Some p | None => o end)) rs ->
  vista (rs ≫= f) a = g (vista rs a).
Proof.
  intros Hg. induction rs as [|r rs IH] using rev_ind; [intros _; by rewrite vista_nil|]. intros [Hrs Hr]%Forall_app. apply Forall_cons in Hr as [Hr _].
  rewrite bind_app, !vista_app, (IH Hrs). cbn [mbind list_bind]. rewrite app_nil_r. apply Hr.
Qed.

Definition en_tramo (addr fin a : N) : bool := (addr <=? a) && (a <? fin).
#[local] Ltac casos := repeat match goal with
  | |- context [?x <? ?y] => destruct (N.ltb_spec x y)
  | |- context [?x <=? ?y] => destruct (N.leb_spec x y)
  end; cbn [andb orb negb]; try lia.

Lemma rend_le r : rend r <= U64_MAX.
Proof. unfold rend, saturating_add64. lia. Qed.
Lemma vista_antes r addr a : region_u64 r -> addr <= rend r -> vista (antes r addr) a = if contiene a r && (a <? addr) then Some (pagina r a) else None.
Proof.
  intros Hu Hle. pose proof (rend_le r). unfold antes. destruct (N.ltb_spec (virt_start r) addr).
  - rewrite vista_uno. match goal with |- context [contiene a ?q] => set (m := q) end.
    assert (contiene a m = contiene a r && (a <? addr)) as ->.
    { unfold contiene. assert (rend m = addr) as ->.
      { change (saturating_add64 (virt_start r) (addr - virt_start r) = addr). unfold saturating_add64. lia. }
      cbn [m virt_start]. casos; done. }
    by destruct (contiene a r && (a <? addr)).
  - unfold contiene. casos; done.
Qed.
Lemma vista_despues r fin a : region_u64 r -> virt_start r <= fin -> vista (despues r fin) a = if contiene a r && (fin <=? a) then Some (pagina r a) else None.
Proof.
  intros Hu Hle. pose proof (rend_le r). unfold despues. destruct (N.ltb_spec fin (rend r)).
  - rewrite vista_uno. assert (contiene a (con_rango r fin (rend r - fin) (fin - virt_start r)) = contiene a r && (fin <=? a)) as ->.
    { unfold contiene. assert (rend (con_rango r fin (rend r - fin) (fin - virt_start r)) = rend r) as ->.
      { change (saturating_add64 fin (rend r - fin) = rend r). unfold saturating_add64. lia. }
      cbn [con_rango virt_start]. casos; done. }
    destruct (contiene a r && (fin <=? a)) eqn:Hc; [|done]. apply andb_true_iff in Hc as [_ Hc%N.leb_le].
    unfold pagina, con_rango, saturating_add64. cbn [inode file_offset file_len writable exec sin_acceso shm_id virt_start]. do 5 f_equal. lia.
  - unfold contiene. casos; done.
Qed.
Lemma vista_medio r addr fin w x s a : region_u64 r -> vista (medio r addr fin w x s) a =
  if contiene a r && en_tramo addr fin a then Some (inode r, saturating_add64 (file_offset r) (a - virt_start r), file_len r, (w, x, s), shm_id r) else None.
Proof.
  intros Hu. pose proof (rend_le r). unfold medio. destruct (N.ltb_spec (N.max (virt_start r) addr) (N.min (rend r) fin)).
  - rewrite vista_uno. match goal with |- context [contiene a ?q] => set (m := q) end.
    assert (contiene a m = contiene a r && en_tramo addr fin a) as ->.
    { unfold contiene, en_tramo. assert (rend m = N.min (rend r) fin) as ->.
      { change (saturating_add64 (N.max (virt_start r) addr) (N.min (rend r) fin - N.max (virt_start r) addr) = N.min (rend r) fin). unfold saturating_add64. lia. }
      cbn [m virt_start]. casos; done. }
    destruct (contiene a r && en_tramo addr fin a) eqn:Hc; [|done]. apply andb_true_iff in Hc as [_ [Hc1%N.leb_le _]%andb_true_iff].
    unfold pagina, m, saturating_add64. cbn [inode file_offset file_len writable exec sin_acceso shm_id virt_start]. do 5 f_equal. lia.
  - unfold contiene, en_tramo. casos; done.
Qed.

(** ** The operations on the book *)
Definition con_permisos (w x s : bool) (p : N * N * N * (bool * bool * bool) * N) := let '(i, o, n, _, m) := p in (i, o, n, (w, x, s), m).

Lemma fuera_no r addr fin a : fuera r addr fin = true -> addr <= a -> a < fin -> contiene a r = false.
Proof. unfold fuera, contiene. intros [?%N.leb_le|?%N.leb_le]%orb_true_iff H1 H2; casos; done. Qed.
Lemma dentro_lindes r addr fin : fuera r addr fin = false -> addr <= rend r ∧ virt_start r <= fin.
Proof. unfold fuera. intros [?%N.leb_gt ?%N.leb_gt]%orb_false_iff. lia. Qed.

Lemma remove_vista rs addr n fin l a : Forall region_u64 rs -> checked_add64 addr n = Some fin -> (remove_region rs addr n).2 = l ->
  vista l a = if en_tramo addr fin a then None else vista rs a.
Proof.
  intros Hu Hc <-. unfold remove_region. rewrite Hc. cbn [snd].
  apply (vista_bind _ (fun o => if en_tramo addr fin a then None else o)); [by destruct (en_tramo addr fin a)|].
  eapply Forall_impl; [exact Hu|]. intros r Hr o. cbv beta. destruct (fuera r addr fin) eqn:Hf.
  - rewrite vista_uno. unfold en_tramo. destruct (N.leb_spec addr a), (N.ltb_spec a fin); cbn [andb]; try by destruct (contiene a r).
    by rewrite (fuera_no r addr fin).
  - destruct (dentro_lindes r addr fin Hf). rewrite vista_app, vista_antes, vista_despues, vista_uno by done. unfold en_tramo.
    destruct (contiene a r); cbn [andb]; casos; done.
Qed.
Lemma split_vista rs addr n fin w x s l a : Forall region_u64 rs -> checked_add64 addr n = Some fin -> (split_prot rs addr n w x s).2 = l ->
  vista l a = if en_tramo addr fin a then con_permisos w x s <$> vista rs a else vista rs a.
Proof.
  intros Hu Hc <-. unfold split_prot. rewrite Hc. cbn [snd].
  apply (vista_bind _ (fun o => if en_tramo addr fin a then con_permisos w x s <$> o else o)); [by destruct (en_tramo addr fin a)|].
  eapply Forall_impl; [exact Hu|]. intros r Hr o. cbv beta. destruct (fuera r addr fin) eqn:Hf.
  - rewrite vista_uno. unfold en_tramo. destruct (N.leb_spec addr a), (N.ltb_spec a fin); cbn [andb]; try by destruct (contiene a r).
    by rewrite (fuera_no r addr fin).
  - destruct (dentro_lindes r addr fin Hf). rewrite !vista_app, vista_antes, vista_despues, vista_medio, vista_uno by done. unfold en_tramo.
    destruct (contiene a r); cbn [andb]; casos; done.
Qed.

(** Both answer whether the range met a region that has addresses. *)
Lemma toca rs addr fin : addr < fin -> Forall (fun r => virt_start r < rend r) rs ->
  existsb (fun r => negb (fuera r addr fin)) rs = true <-> exists a, addr <= a ∧ a < fin ∧ vista rs a ≠ None.
Proof.
  intros Hlt Hne. rewrite existsb_exists. split.
  - intros (r & Hr & Hf). apply list_elem_of_In in Hr. pose proof (proj1 (Forall_forall _ _) Hne r Hr) as Hv. cbv beta in Hv.
    apply negb_true_iff in Hf. unfold fuera in Hf. apply orb_false_iff in Hf as [?%N.leb_gt ?%N.leb_gt].
    exists (N.max addr (virt_start r)). split; [lia|]. split; [lia|]. rewrite vista_None. intros Hn. specialize (Hn r Hr). revert Hn.
    unfold contiene. casos; done.
  - intros (a & H1 & H2 & Hv). destruct (vista rs a) as [p|] eqn:Hp; [|done]. destruct (vista_Some _ _ _ Hp) as (r & Hr & Hc).
    exists r. split; [by apply list_elem_of_In|]. destruct (fuera r addr fin) eqn:Hf; [|done]. by rewrite (fuera_no r addr fin a) in Hc.
Qed.

(** ** The first hole *)
(** No region has an address in the range. *)
Definition libre_de (rs : list MmapRegion) (a n : N) : Prop := forall r, r ∈ rs -> rend r <= a ∨ a + n <= virt_start r.
Lemma mayor_spec l : match mayor l with None => l = [] | Some m => m ∈ l ∧ forall x, x ∈ l -> x <= m end.
Proof.
  induction l as [|x l IH]; [done|]. unfold mayor. cbn [foldr]. fold (mayor l). destruct (mayor l) as [m|].
  - destruct IH as [H1 H2]. split; [destruct (N.max_spec x m) as [[_ ->]|[_ ->]]; set_solver|]. intros y [->|Hy]%elem_of_cons; [lia|]. specialize (H2 y Hy). lia.
  - subst. split; [set_solver|]. intros y [->|Hy]%elem_of_cons; [lia|]. by apply elem_of_nil in Hy.
Qed.
Lemma solapa_spec start fin r : solapa start fin r = true <-> start < rend r ∧ virt_start r < fin.
Proof. unfold solapa. by rewrite andb_true_iff, !N.ltb_lt. Qed.
Lemma first_overlap_spec rs a n : a + n < U64 ->
  match first_overlap rs a n with
  | None => libre_de rs a n
  | Some m => exists r, r ∈ rs ∧ m = rend r ∧ a < m ∧ virt_start r < a + n
  end.
Proof.
  intros Hl. unfold first_overlap, checked_add64. rewrite (proj2 (N.ltb_lt _ _) Hl). cbn [mbind option_bind].
  pose proof (mayor_spec (rend <$> filter (fun r => solapa a (a + n) r = true) rs)) as Hm. destruct (mayor _) as [m|].
  - destruct Hm as [Hm _]. apply list_elem_of_fmap in Hm as (r & -> & Hr). apply list_elem_of_filter in Hr as [Hs%solapa_spec Hr]. exists r. split; [done|]. split; [done|]. done.
  - intros r Hr. destruct (N.le_gt_cases (rend r) a); [by left|]. destruct (N.le_gt_cases (a + n) (virt_start r)); [by right|].
    exfalso. apply (f_equal length) in Hm. rewrite length_fmap in Hm. apply nil_length_inv in Hm.
    assert (r ∈ filter (fun r => solapa a (a + n) r = true) rs) as Hin by (apply list_elem_of_filter; split; [by apply solapa_spec|done]).
    rewrite Hm in Hin. by apply elem_of_nil in Hin.
Qed.

Definition quedan (rs : list MmapRegion) (a : N) : nat := length (filter (fun r => a < rend r) rs).
Lemma quedan_menos rs a b r : a <= b -> r ∈ rs -> a < rend r -> rend r <= b -> (quedan rs b < quedan rs a)%nat.
Proof.
  intros Hab Hr H1 H2. assert (forall l, quedan l b <= quedan l a)%nat as Hle.
  { intros l. unfold quedan. induction l as [|x l IH]; [done|]. rewrite !filter_cons. repeat case_decide; cbn; lia. }
  induction rs as [|q rs IH]; [by apply elem_of_nil in Hr|]. specialize (Hle rs). unfold quedan in *. rewrite !filter_cons. apply elem_of_cons in Hr as [<-|Hr].
  - rewrite decide_False by lia. rewrite decide_True by done. cbn. lia.
  - specialize (IH Hr). repeat case_decide; cbn; lia.
Qed.

(** The answer of a search from [addr]. *)
Definition primer_hueco (rs : list MmapRegion) (len align addr : N) (o : option N) : Prop :=
  match o with
  | Some a => addr <= a ∧ a mod align = 0 ∧ a + len <= MMAP_LIMIT ∧ libre_de rs a len ∧ forall b, addr <= b -> b < a -> b mod align = 0 -> ~ libre_de rs b len
  | None => forall b, addr <= b -> b mod align = 0 -> b + len <= MMAP_LIMIT -> ~ libre_de rs b len
  end.

Lemma busca_hueco_spec {X E} rs n align (s : X) : 0 < align -> (forall r, r ∈ rs -> rend r + align <= U64) ->
  forall fuel addr, addr mod align = 0 -> (quedan rs addr < fuel)%nat -> exists o, hueco (E := E) fuel rs n align addr s = (Ok o, s) ∧ primer_hueco rs n align addr o.
Proof.
  intros Hal Hr. induction fuel as [|fuel IH]; intros addr Ha Hf; [lia|]. cbn [hueco].
  unfold checked_add64. destruct (N.ltb_spec (addr + n) U64) as [Hl|Hl].
  2: { exists None. split; [done|]. intros b Hb _ Hlim. exfalso. assert (MMAP_LIMIT < U64) by done. lia. }
  destruct (N.ltb_spec MMAP_LIMIT (addr + n)) as [Hm|Hm]; [exists None; split; [done|]; intros b Hb _ Hlim; lia|].
  pose proof (first_overlap_spec rs addr n Hl) as Hov. destruct (first_overlap rs addr n) as [m|].
  2: { exists (Some addr). split; [done|]. split_and!; try done. intros b H1 H2. lia. }
  destruct Hov as (r & Hin & -> & H1 & H2). rewrite bind_eq, next_multiple_run by auto. cbv beta.
  pose proof (redondo_ge align Hal (rend r)) as Hge.
  destruct (IH (redondo align (rend r)) (redondo_mod align Hal _)) as (o & Ho & Hp).
  { pose proof (quedan_menos rs addr (redondo align (rend r)) r ltac:(lia) Hin H1 Hge). lia. }
  exists o. split; [exact Ho|].
  assert (forall b, addr <= b -> b < redondo align (rend r) -> b mod align = 0 -> ~ libre_de rs b n) as Hno.
  { intros b Hb1 Hb2 Hb3 Hfree. destruct (N.le_gt_cases (rend r) b) as [Hle|Hgt]; [pose proof (redondo_min align Hal _ _ Hle Hb3); lia|].
    destruct (Hfree r Hin); lia. }
  destruct o as [a|]; cbn in Hp |- *.
  - destruct Hp as (P1 & P2 & P3 & P4 & P5). split_and!; try done; [lia|]. intros b Hb1 Hb2 Hb3.
    destruct (N.lt_ge_cases b (redondo align (rend r))); [by apply Hno|by apply P5].
  - intros b Hb1 Hb2 Hb3. destruct (N.lt_ge_cases b (redondo align (rend r))); [by apply Hno|by apply Hp].
Qed.

(** The alignment and the start of a request. *)
Definition alinea (n : N) : N := if HUGE_ALIGN <=? redondo 4096 n then HUGE_ALIGN else 4096.
Definition desde (hint : N) : N := if hint =? 0 then MMAP_BASE else hint.
Definition libro_ok (rs : list MmapRegion) : Prop := forall r, r ∈ rs -> rend r + HUGE_ALIGN <= U64.
Lemma alinea_pos n : 0 < alinea n ∧ alinea n <= HUGE_ALIGN ∧ alinea n mod 4096 = 0.
Proof. unfold alinea. by destruct (HUGE_ALIGN <=? redondo 4096 n). Qed.
Lemma next_addr_spec {X E} rs hint n (s : X) : libro_ok rs -> hint + HUGE_ALIGN <= U64 -> n + 4096 <= U64 ->
  exists o, next_addr (E := E) rs hint n s = (Ok o, s) ∧ primer_hueco rs (redondo 4096 n) (alinea n) (redondo (alinea n) (desde hint)) o.
Proof.
  intros Hl Hh Hn. destruct (alinea_pos n) as (A1 & A2 & _). unfold next_addr. rewrite bind_eq, next_multiple_run by done. fold (alinea n) (desde hint). cbv zeta.
  assert (desde hint + alinea n <= U64) as Hd.
  { unfold desde. destruct (hint =? 0); [assert (MMAP_BASE + HUGE_ALIGN <= U64) by done; lia|lia]. }
  rewrite bind_eq, next_multiple_run by done. apply busca_hueco_spec; [done| |by apply redondo_mod|].
  - intros r Hr. specialize (Hl r Hr). lia.
  - unfold quedan. pose proof (length_filter (fun r => (redondo (alinea n) (desde hint) < rend r)%N) rs). lia.
Qed.
