(* ===== verification/MmapTeoremas.v ===== *)
(** * The map of a process: the properties *)
From S2P Require Import Prelude Mmap MmapLibro.
Local Open Scope N_scope.

Lemma libro_u64 rs : libro_ok rs -> Forall region_u64 rs.
Proof.
  intros Hl. apply Forall_forall. intros r Hr. specialize (Hl r Hr). assert (1 < HUGE_ALIGN) as Hh by done. assert (U64_MAX = U64 - 1) as Hm by done.
  unfold region_u64. revert Hl Hh Hm. unfold rend, saturating_add64. generalize HUGE_ALIGN U64 U64_MAX. lia.
Qed.
Lemma libro_snoc rs r : libro_ok rs -> rend r + HUGE_ALIGN <= U64 -> libro_ok (rs ++ [r]).
Proof. intros Hl Hr q [Hq| ->%list_elem_of_singleton]%elem_of_app; [by apply Hl|done]. Qed.
Lemma next_lindes a b : a < U64 -> checked_next_multiple_of a 4096 = Some b -> b = redondo 4096 a ∧ a + 4096 <= U64 ∧ b + 4096 <= U64.
Proof.
  intros Ha. assert (0 < 4096) as Hp by done. unfold checked_next_multiple_of, checked_add64.
  assert (forall x, x < U64 -> x mod 4096 = 0 -> x + 4096 <= U64) as Hm.
  { intros x Hx Hx0. pose proof (N.div_mod x 4096 ltac:(done)) as Hd. rewrite Hx0, N.add_0_r in Hd. assert (U64 = 4096 * 2 ^ 52) as E by done.
    rewrite E in *. revert Hx. rewrite Hd. generalize (x / 4096). intros q. lia. }
  destruct (N.eqb_spec (a mod 4096) 0) as [H0|H0].
  - intros [= <-]. rewrite redondo_id by done. auto.
  - pose proof (siguiente_multiplo 4096 Hp a H0) as Hs. pose proof (redondo_no 4096 Hp a H0) as Hr. pose proof (redondo_ge 4096 Hp a).
    destruct (N.ltb_spec (a + (4096 - a mod 4096)) U64); [|done]. intros [= <-]. specialize (Hm _ ltac:(done) Hs). split; [done|]. lia.
Qed.

(** Every region of the book has bytes. *)
Definition con_bytes (rs : list MmapRegion) : Prop := Forall (fun r => virt_start r < rend r) rs.

(** What a call maps: zeros to write on, or the bytes of a file, to read. *)
Definition respaldo (abierto : N -> Z + N * N) (fd off n : N) (que : N * N * bool) : Prop :=
  fd = U64_MAX ∧ que = (0, 0, true) ∨ fd ≠ U64_MAX ∧ exists ino tam, abierto fd = inr (ino, tam) ∧ off + n <= tam ∧ que = (ino, tam, false).
(** The reasons to refuse one before looking for a place. *)
Definition rechazo (abierto : N -> Z + N * N) (fd off n : N) (e : Z) : Prop :=
  e = (- EINVAL)%Z ∧ (n = 0 ∨ U64 < n + 4096 ∨ fd ≠ U64_MAX ∧ exists ino tam, abierto fd = inr (ino, tam) ∧ (tam <= off ∨ tam < off + n ∨ U64 <= off + n)) ∨
  fd ≠ U64_MAX ∧ abierto fd = inl e.

#[local] Set Default Proof Using "Type*".
Section Proceso.
Context {P : Type} `{Espacio P}.

Lemma colocar {E} addr t ino off tam w (p : Proceso P) : libro_ok (libro p) -> addr + HUGE_ALIGN <= U64 -> t + 4096 <= U64 -> redondo 4096 t = t ->
  exists o, next_addr (E := E) (libro p) addr t p = (Ok o, p) ∧ primer_hueco (libro p) t (alinea t) (redondo (alinea t) (desde addr)) o ∧
    forall v, o = Some v -> let r := mkRegion v t ino off tam w false false 0 in
      (forall a, en_tramo v (v + t) a = true -> vista (libro p) a = None) ∧ libro_ok (libro p ++ [r]) ∧ (0 < t -> con_bytes (libro p) -> con_bytes (libro p ++ [r])) ∧
      (forall a, vista (libro p ++ [r]) a = if en_tramo v (v + t) a then Some (ino, saturating_add64 off (a - v), tam, (w, false, false), 0) else vista (libro p) a).
Proof.
  intros Hl Ha Ht Hr. destruct (next_addr_spec (E := E) (libro p) addr t p Hl Ha Ht) as (o & Hrun & Hp). rewrite Hr in Hp. exists o. split; [done|]. split; [done|].
  intros v ->. cbn zeta. destruct Hp as (_ & _ & P3 & P4 & _). assert (MMAP_LIMIT + HUGE_ALIGN <= U64) as Hlim by done.
  assert (rend (mkRegion v t ino off tam w false false 0) = v + t) as Hre.
  { change (saturating_add64 v t = v + t). unfold saturating_add64. assert (MMAP_LIMIT <= U64_MAX) by done. lia. }
  split; [|split; [|split]].
  - intros a [H1%N.leb_le H2%N.ltb_lt]%andb_true_iff. apply vista_None. intros q Hq. unfold contiene.
    destruct (P4 q Hq); destruct (N.leb_spec (virt_start q) a), (N.ltb_spec a (rend q)); cbn; try done; lia.
  - apply libro_snoc; [done|]. rewrite Hre. lia.
  - intros Ht0 Hb. apply Forall_app. split; [done|]. apply Forall_singleton. rewrite Hre. cbn. lia.
  - intros a. rewrite vista_snoc. unfold contiene, en_tramo. by rewrite Hre.
Qed.

(** What a call to [mmap] does. *)
Lemma sys_mmap_spec abierto addr n fd off (p : Proceso P) : libro_ok (libro p) -> addr + HUGE_ALIGN <= U64 -> n < U64 ->
  let t := redondo 4096 n in
  let hueco o := primer_hueco (libro p) t (alinea t) (redondo (alinea t) (desde addr)) o in
  match sys_mmap abierto addr n fd off p with
  | (Ok v, p') => hueco (Some v) ∧ libro_ok (libro p') ∧ brk p' = brk p ∧ brk_min p' = brk_min p ∧ espacio p' = espacio p ∧ (con_bytes (libro p) -> con_bytes (libro p')) ∧ 0 < n ∧
      (forall a, en_tramo v (v + t) a = true -> vista (libro p) a = None) ∧
      exists ino tam w, respaldo abierto fd off n (ino, tam, w) ∧
        forall a, vista (libro p') a = if en_tramo v (v + t) a then Some (ino, saturating_add64 off (a - v), tam, (w, false, false), 0) else vista (libro p) a
  | (Err e, p') => p' = p ∧ (rechazo abierto fd off n e ∨ e = (- ENOMEM)%Z ∧ hueco None)
  | _ => False
  end.
Proof.
  intros Hl Ha Hn. cbn zeta. unfold sys_mmap. destruct (N.eqb_spec n 0) as [->|Hn0]; [split; [done|]; left; left; auto|].
  destruct (checked_next_multiple_of n 4096) as [t|] eqn:Hc.
  2: { split; [done|]. left. left. split; [done|]. right. left. revert Hc. unfold checked_next_multiple_of, checked_add64.
       destruct (N.eqb_spec (n mod 4096) 0) as [|H0]; [done|]. destruct (N.ltb_spec (n + (4096 - n mod 4096)) U64) as [|Hge]; [done|]. intros _. apply N.neq_0_lt_0 in H0.
       revert Hge H0. generalize (n mod 4096) U64. lia. }
  destruct (next_lindes n t Hn Hc) as (-> & Hn4 & Ht4). cbn [of_option]. rewrite bind_eq. cbn [mret M_ret].
  rewrite bind_eq. match goal with |- context [match ?m p with _ => _ end] =>
    assert (exists r, m p = (r, p) ∧ match r with Ok q => respaldo abierto fd off n q | Err e => rechazo abierto fd off n e | _ => False end) as (r & -> & Hq) end.
  { unfold respaldo, rechazo. destruct (N.eqb_spec fd U64_MAX) as [->|Hfd]; [eexists; split; [done|]; by left|].
    destruct (abierto fd) as [e|[ino tam]] eqn:Hab; [eexists; split; [done|]; by right|]. unfold checked_add64.
    destruct (N.ltb_spec (off + n) U64); cbn [of_option].
    - rewrite bind_eq. cbn [mret M_ret]. destruct (N.leb_spec tam off); cbn [orb]; [eexists; split; [done|]; left; eauto 10|].
      destruct (N.ltb_spec tam (off + n)); (eexists; split; [done|]); [left; eauto 10|right; split; [done|]; eauto].
    - eexists. split; [done|]. left. split; [done|]. right. right. eauto 10. }
  destruct r as [[[ino tam] w]|e| |]; [|by auto|done|done]. rewrite bind_eq. cbn [gets id].
  destruct (colocar (E := Z) addr (redondo 4096 n) ino off tam w p Hl Ha Ht4 (redondo_id 4096 ltac:(done) _ (redondo_mod 4096 ltac:(done) n))) as (o & Hrun & Hp & Hv).
  rewrite bind_eq, Hrun. destruct o as [v|]; [|split; [done|]; by right]. destruct (Hv v eq_refl) as (V1 & V2 & V3' & V3). clear Hv Hrun. assert (0 < redondo 4096 n) as Ht0 by (pose proof (redondo_ge 4096 ltac:(done) n); lia).
  cbn [of_option]. rewrite bind_eq. cbn [mret M_ret]. rewrite bind_eq. cbn [modify]. rewrite bind_eq.
  destruct (N.leb_spec (next p) v) as [Hnx|Hnx].
  - rewrite bind_eq, add64_run by (destruct Hp as (_ & _ & Hm & _); eapply N.le_lt_trans; [exact Hm|done]). cbn -[primer_hueco redondo]. do 8 (split; [first [exact Hp|done|lia|by apply V3']|]). eauto 10.
  - cbn -[primer_hueco redondo]. do 8 (split; [first [exact Hp|done|lia|by apply V3']|]). eauto 10.
Qed.

(** ** Giving back and protecting *)
(** What giving back a range asks of the pages of the process: each page of the
    range is unmapped, once, keeping the frames of the shared segments; the
    segments that lie whole in it lose a reference, and the queue of evictable
    pages forgets it. *)
Definition de_shm (rs : list MmapRegion) (va : N) : bool := existsb (fun r => negb (shm_id r =? 0) && contiene va r) rs.
Definition quita_pagina (rs : list MmapRegion) (e : P) (va : N) : P := if de_shm rs va then unmap_range_keep_frames va 4096 e else unmap_range va 4096 e.
Definition suelta_shm (addr fin : N) (e : P) (r : MmapRegion) : P := if (addr <=? virt_start r) && (rend r <=? fin) then drop_ref (shm_id r) e else e.
Definition tocadas (rs : list MmapRegion) (addr fin : N) : list MmapRegion := filter (fun r => shm_id r ≠ 0 ∧ virt_start r < fin ∧ addr < rend r) rs.
Definition sin_tramo (rs : list MmapRegion) (addr n : N) (e : P) : P :=
  let shm := tocadas rs addr (addr + n) in
  forget_range addr n (foldl (suelta_shm addr (addr + n)) (foldl (quita_pagina shm) e (paginas_entre addr (addr + n))) shm).

Lemma paginas_entre_cons a n : paginas_entre a (a + 4096 * N.succ n) = a :: paginas_entre (a + 4096) (a + 4096 * N.succ n).
Proof.
  unfold paginas_entre. replace (a + 4096 * N.succ n - a) with (N.succ n * 4096) by lia. replace (a + 4096 * N.succ n - (a + 4096)) with (n * 4096) by lia. rewrite !N.div_mul by done.
  unfold upto. rewrite N2Nat.inj_succ. cbn [seq fmap list_fmap]. f_equal; [lia|]. rewrite <- seq_shift. rewrite <- !list_fmap_compose. apply list_fmap_ext. intros _ i _. cbn. lia.
Qed.
Lemma desmapar_spec shm n : forall fuel va (p : Proceso P), va + 4096 * n < U64 -> (N.to_nat n < fuel)%nat ->
  desmapar fuel shm va (va + 4096 * n) p = (Ok tt, en_espacio (fun e => foldl (quita_pagina shm) e (paginas_entre va (va + 4096 * n))) p).
Proof.
  induction n as [|n IH] using N.peano_ind; intros fuel va p Hu Hf; (destruct fuel as [|fuel]; [lia|]); cbn [desmapar].
  - rewrite (proj2 (N.ltb_ge _ _)) by lia. unfold paginas_entre. replace (va + 4096 * 0 - va) with 0 by lia. by destruct p.
  - rewrite (proj2 (N.ltb_lt _ _)) by lia. cbv zeta. replace (N.min 4096 (va + 4096 * N.succ n - va)) with 4096 by lia. rewrite bind_eq. cbn [modify]. rewrite bind_eq, add64_run by lia.
    rewrite paginas_entre_cons. cbn [foldl]. replace (va + 4096 * N.succ n) with (va + 4096 + 4096 * n) by lia. rewrite IH by lia. unfold en_espacio, quita_pagina, de_shm. cbn. by destruct (existsb _ shm).
Qed.
Lemma sueltas_spec addr fin shm : forall p : Proceso P,
  mfor (E := Z) (fun r => if (addr <=? virt_start r) && (rend r <=? fin) then modify (en_espacio (drop_ref (shm_id r))) else mret tt) shm p = (Ok tt, en_espacio (fun e => foldl (suelta_shm addr fin) e shm) p).
Proof.
  induction shm as [|r shm IH]; intros p; [by destruct p|]. cbn [mfor foldl]. rewrite bind_eq. unfold suelta_shm at 2. destruct (_ && _); cbn [modify mret M_ret]; rewrite IH; [done|by destruct p].
Qed.

(** A piece of a region. *)
Definition pieza (r q : MmapRegion) : Prop := virt_start q < rend q ∧ rend q <= rend r.
Lemma pieza_tramo r a b i o n w x s m : a < b -> b <= rend r -> pieza r (mkRegion a (b - a) i o n w x s m).
Proof.
  intros Hab Hb. pose proof (rend_le r). assert (rend (mkRegion a (b - a) i o n w x s m) = b) as E.
  { change (saturating_add64 a (b - a) = b). unfold saturating_add64. lia. }
  split; rewrite E; [exact Hab|exact Hb].
Qed.
Lemma piezas r addr fin w x s q : fuera r addr fin = false -> q ∈ antes r addr ++ medio r addr fin w x s ++ despues r fin -> pieza r q.
Proof.
  intros Hf. destruct (dentro_lindes r addr fin Hf) as [H1 H2]. pose proof (rend_le r). rewrite !elem_of_app. unfold antes, medio, despues, con_rango.
  intros [Hq|[Hq|Hq]]; (case_match eqn:Hlt; [|by apply elem_of_nil in Hq]); apply N.ltb_lt in Hlt; apply list_elem_of_singleton in Hq as ->; apply pieza_tramo; lia.
Qed.
Lemma libro_piezas rs (f : MmapRegion -> list MmapRegion) : libro_ok rs -> con_bytes rs ->
  (forall r q, r ∈ rs -> q ∈ f r -> q = r ∨ pieza r q) -> libro_ok (rs ≫= f) ∧ con_bytes (rs ≫= f).
Proof.
  intros Hl Hb Hf. split; [intros q Hq|apply Forall_forall; intros q Hq]; apply list_elem_of_bind in Hq as (r & Hq & Hr);
    destruct (Hf r q Hr Hq) as [->|[P1 P2]]; [by apply Hl|specialize (Hl r Hr); lia|by apply (proj1 (Forall_forall _ _) Hb)|done].
Qed.
Lemma remove_ok rs addr n : libro_ok rs -> con_bytes rs -> libro_ok (remove_region rs addr n).2 ∧ con_bytes (remove_region rs addr n).2.
Proof.
  intros Hl Hb. unfold remove_region. destruct (checked_add64 addr n) as [fin|]; [|done]. apply libro_piezas; [done|done|].
  intros r q Hr. destruct (fuera r addr fin) eqn:Hf; [intros ->%list_elem_of_singleton; by left|]. intros Hq. right.
  apply (piezas r addr fin false false false); [done|]. set_solver.
Qed.
Lemma split_ok rs addr n w x s : libro_ok rs -> con_bytes rs -> libro_ok (split_prot rs addr n w x s).2 ∧ con_bytes (split_prot rs addr n w x s).2.
Proof.
  intros Hl Hb. unfold split_prot. destruct (checked_add64 addr n) as [fin|]; [|done]. apply libro_piezas; [done|done|].
  intros r q Hr. destruct (fuera r addr fin) eqn:Hf; [intros ->%list_elem_of_singleton; by left|]. intros Hq. right. by apply (piezas r addr fin w x s).
Qed.

(** What a call to [munmap] does. *)
Lemma sys_munmap_spec addr n (p : Proceso P) : libro_ok (libro p) -> con_bytes (libro p) -> addr < U64 ->
  let t := redondo 4096 n in
  match sys_munmap addr n p with
  | (Ok r, p') => r = 0 ∧ brk p' = brk p ∧ brk_min p' = brk_min p ∧ libro_ok (libro p') ∧ con_bytes (libro p') ∧
      (exists a, en_tramo addr (addr + t) a = true ∧ vista (libro p) a ≠ None) ∧
      (forall a, vista (libro p') a = if en_tramo addr (addr + t) a then None else vista (libro p) a) ∧
      espacio p' = sin_tramo (libro p) addr t (espacio p)
  | (Err e, p') => e = (- EINVAL)%Z ∧ p' = set_libro (libro p') p ∧ libro_ok (libro p') ∧ con_bytes (libro p') ∧ (forall a, vista (libro p') a = vista (libro p) a) ∧
      (U64_MAX - 4096 < n ∨ U64 <= addr + t ∨ forall a, en_tramo addr (addr + t) a = true -> vista (libro p) a = None)
  | _ => False
  end.
Proof.
  intros Hl Hb Ha. cbn zeta. assert (forall q : Proceso P, q = set_libro (libro q) q) as Hid by (by intros []).
  unfold sys_munmap. destruct (N.eqb_spec n 0) as [->|Hn].
  { split; [done|]. split; [apply Hid|]. do 3 (split; [done|]). right. right. intros a [H1%N.leb_le H2%N.ltb_lt]%andb_true_iff. change (redondo 4096 0) with 0 in H2. lia. }
  destruct (N.ltb_spec (U64_MAX - 4096) n) as [Hm|Hm]; [split; [done|]; split; [apply Hid|]; do 3 (split; [done|]); by left|].
  assert (n + 4096 <= U64) as Hn4 by (revert Hm; assert (U64_MAX = U64 - 1 ∧ 4096 < U64) as [-> ?] by done; generalize dependent U64; lia).
  assert (0 < 4096) as Hp by done. rewrite bind_eq, (next_multiple_run 4096 Hp) by done. cbv zeta. rewrite bind_eq. cbn [gets].
  pose proof (remove_ok (libro p) addr (redondo 4096 n) Hl Hb) as Hok. pose proof (redondo_ge 4096 Hp n) as Hge.
  destruct (remove_region (libro p) addr (redondo 4096 n)) as [ok l] eqn:Hr. cbn [snd] in Hok. rewrite bind_eq. cbn [modify].
  destruct (N.ltb_spec (addr + redondo 4096 n) U64) as [Hlt|Hov].
  - assert (checked_add64 addr (redondo 4096 n) = Some (addr + redondo 4096 n)) as Hc by (unfold checked_add64; by rewrite (proj2 (N.ltb_lt _ _) Hlt)).
    pose proof (toca (libro p) addr (addr + redondo 4096 n) ltac:(lia) Hb) as Ht.
    assert (forall a, vista l a = if en_tramo addr (addr + redondo 4096 n) a then None else vista (libro p) a) as Hvis.
    { intros a. apply (remove_vista (libro p) addr (redondo 4096 n)); [by apply libro_u64|done|]. by rewrite Hr. }
    unfold remove_region in Hr. rewrite Hc in Hr. injection Hr as Hr1 Hr2. rewrite Hr1 in Ht. destruct ok; cbn [negb].
    + assert (saturating_add64 addr (redondo 4096 n) = addr + redondo 4096 n) as -> by (unfold saturating_add64, U64_MAX; lia).
      pose proof (N.div_mod (redondo 4096 n) 4096 ltac:(done)) as Hd. rewrite (redondo_mod 4096 Hp), N.add_0_r in Hd.
      rewrite bind_eq. match goal with |- context [desmapar ?f ?sh _ _ ?q] => pose proof (desmapar_spec sh (redondo 4096 n / 4096) f addr q) as Hdes end.
      rewrite <- Hd in Hdes. rewrite Hdes by (exact Hlt || apply Nat.lt_succ_diag_r). rewrite bind_eq, sueltas_spec. rewrite bind_eq. cbn -[paginas_entre redondo]. do 3 (split; [done|]).
      split; [apply Hok|]. split; [apply Hok|]. split; [|done].
      destruct (proj1 Ht eq_refl) as (a & H1 & H2 & H3). exists a. split; [|done]. unfold en_tramo. by rewrite (proj2 (N.leb_le _ _) H1), (proj2 (N.ltb_lt _ _) H2).
    + split; [done|]. split; [done|]. split; [apply Hok|]. split; [apply Hok|]. cbn [set_libro libro]. assert (forall a, en_tramo addr (addr + redondo 4096 n) a = true -> vista (libro p) a = None) as Hno.
      { intros a [H1%N.leb_le H2%N.ltb_lt]%andb_true_iff. destruct (vista (libro p) a) eqn:E; [|done]. discriminate (proj2 Ht). exists a. split_and!; try done. by rewrite E. }
      split; [|by auto]. intros a. rewrite Hvis. destruct (en_tramo _ _ a) eqn:E; [by rewrite Hno|done].
  - unfold remove_region in Hr. assert (checked_add64 addr (redondo 4096 n) = None) as Hc by (unfold checked_add64; by rewrite (proj2 (N.ltb_ge _ _) Hov)).
    rewrite Hc in Hr. injection Hr as <- <-. cbn [negb]. do 5 (split; [done|]). right. by left.
Qed.

(** C14. A call to [mmap] with a hint that is not at the very top of the address
    space never panics, and leaves the process as it was when it says no. When
    it says yes, the address is the lowest aligned one from the hint on, inside
    the window, that meets no region: the book then maps there, and only there,
    what was asked for, where it mapped nothing; and giving those bytes back restores
    the map. It says ENOMEM exactly when no
    such address exists. *)
Theorem mmap_primer_hueco abierto addr n fd off (p : Proceso P) : libro_ok (libro p) -> con_bytes (libro p) -> addr + HUGE_ALIGN <= U64 -> n < U64 ->
  let t := redondo 4096 n in
  let hueco o := primer_hueco (libro p) t (alinea t) (redondo (alinea t) (desde addr)) o in
  match sys_mmap abierto addr n fd off p with
  | (Ok v, p') => hueco (Some v) ∧ libro_ok (libro p') ∧ con_bytes (libro p') ∧
      (forall a, en_tramo v (v + t) a = true -> vista (libro p) a = None) ∧
      (exists ino tam w, respaldo abierto fd off n (ino, tam, w) ∧
        forall a, vista (libro p') a = if en_tramo v (v + t) a then Some (ino, saturating_add64 off (a - v), tam, (w, false, false), 0) else vista (libro p) a) ∧
      exists p'', sys_munmap v n p' = (Ok 0, p'') ∧ forall a, vista (libro p'') a = vista (libro p) a
  | (Err e, p') => p' = p ∧ (rechazo abierto fd off n e ∨ e = (- ENOMEM)%Z ∧ hueco None)
  | _ => False
  end.
Proof.
  intros Hl Hb Ha Hn. pose proof (sys_mmap_spec abierto addr n fd off p Hl Ha Hn) as Hs. cbv zeta in *. destruct (sys_mmap abierto addr n fd off p) as [[v|e| |] p']; try exact Hs.
  destruct Hs as (S1 & S2 & _ & _ & _ & S6 & Hn0 & S3 & S4). specialize (S6 Hb). do 4 (split; [done|]). split; [exact S4|].
  destruct S4 as (ino & tam & w & _ & Hv). pose proof S1 as (_ & _ & Hlim & _). pose proof (redondo_ge 4096 ltac:(done) n) as Hge.
  assert (v < U64) as Hvu by (eapply N.le_lt_trans; [apply (N.le_add_r v (redondo 4096 n))|]; by eapply N.le_lt_trans).
  assert (en_tramo v (v + redondo 4096 n) v = true) as Hvv by (unfold en_tramo; rewrite andb_true_iff, N.leb_le, N.ltb_lt; lia).
  pose proof (sys_munmap_spec v n p' S2 S6 Hvu) as Hm. cbv zeta in Hm. destruct (sys_munmap v n p') as [[r|e| |] p'']; [| |done|done].
  - destruct Hm as (-> & _ & _ & _ & _ & _ & Hm & _). exists p''. split; [done|]. intros a. rewrite Hm, Hv. destruct (en_tramo v _ a) eqn:Hat; [by rewrite S3|done].
  - exfalso. destruct Hm as (_ & _ & _ & _ & _ & [Hm|[Hm|Hm]]).
    + assert (MMAP_LIMIT <= U64_MAX - 4096) by done. lia.
    + assert (MMAP_LIMIT < U64) by done. lia.
    + specialize (Hm v Hvv). by rewrite Hv, Hvv in Hm.
Qed.

(** C15. [munmap] and the change of permissions never panic and keep the book in
    order. [munmap] says yes exactly when the range, rounded up to pages, met a
    mapped byte, and then those bytes and no others leave the book; when it says
    no the map is the one before. Changing permissions changes them for the
    mapped bytes of the range and for no others: what backs each byte stays, and
    the answer says whether there was any. *)
Theorem libro_exacto addr n w x s (p : Proceso P) : libro_ok (libro p) -> con_bytes (libro p) -> addr < U64 ->
  (let fin := addr + redondo 4096 n in
   match sys_munmap addr n p with
   | (Ok _, p') => libro_ok (libro p') ∧ con_bytes (libro p') ∧ (exists a, en_tramo addr fin a = true ∧ vista (libro p) a ≠ None) ∧
       (forall a, vista (libro p') a = if en_tramo addr fin a then None else vista (libro p) a) ∧
       espacio p' = sin_tramo (libro p) addr (redondo 4096 n) (espacio p)
   | (Err e, p') => e = (- EINVAL)%Z ∧ (forall a, vista (libro p') a = vista (libro p) a) ∧
       (U64_MAX - 4096 < n ∨ U64 <= fin ∨ forall a, en_tramo addr fin a = true -> vista (libro p) a = None)
   | _ => False
   end) ∧
  (0 < n -> addr + n < U64 ->
   let '(ok, l) := split_prot (libro p) addr n w x s in
   libro_ok l ∧ con_bytes l ∧ (ok = true <-> exists a, en_tramo addr (addr + n) a = true ∧ vista (libro p) a ≠ None) ∧
   forall a, vista l a = if en_tramo addr (addr + n) a then con_permisos w x s <$> vista (libro p) a else vista (libro p) a).
Proof.
  intros Hl Hb Ha. split.
  - pose proof (sys_munmap_spec addr n p Hl Hb Ha) as Hm. cbv zeta in *. destruct (sys_munmap addr n p) as [[r|e| |] p']; try exact Hm; [by destruct Hm as (_ & _ & _ & ?)|].
    destruct Hm as (? & _ & _ & _ & ? & ?). done.
  - intros Hn Hlt. set (rs := libro p) in *. destruct (split_prot rs addr n w x s) as [ok l] eqn:Hr. assert (checked_add64 addr n = Some (addr + n)) as Hc.
    { unfold checked_add64. by rewrite (proj2 (N.ltb_lt _ _) Hlt). }
    pose proof (split_ok rs addr n w x s Hl Hb) as Hok. rewrite Hr in Hok. destruct Hok as [O1 O2]. split; [exact O1|]. split; [exact O2|]. split.
    + unfold split_prot in Hr. rewrite Hc in Hr. injection Hr as <- _. rewrite toca by (done || lia). unfold en_tramo.
      split; intros (a & Hz); exists a; rewrite andb_true_iff, N.leb_le, N.ltb_lt in *; tauto.
    + intros a. apply (split_vista rs addr n); [by apply libro_u64|done|by rewrite Hr].
Qed.

(** A hint in the last page of the address space that is not its first byte
    stops the machine: rounding it up does not fit in 64 bits, and the kernel is
    built with overflow checks. *)
Theorem mmap_pista_alta abierto addr n off (p : Proceso P) : U64 - 4096 < addr -> addr < U64 -> 0 < n -> n <= 4096 ->
  sys_mmap abierto addr n U64_MAX off p = (Panic, p).
Proof.
  intros H1 H2 Hn1 Hn2. assert (0 < 4096) as Hp by done.
  assert (checked_next_multiple_of n 4096 = Some 4096) as Hc.
  { unfold checked_next_multiple_of, checked_add64. destruct (N.eqb_spec (n mod 4096) 0) as [H0|H0].
    - pose proof (redondo_min 4096 Hp 1 n ltac:(lia) H0) as Hr. change (redondo 4096 1) with 4096 in Hr. f_equal. lia.
    - assert (n <> 4096) by (intros ->; by apply H0). rewrite N.mod_small by lia. replace (n + (4096 - n)) with 4096 by lia. done. }
  unfold sys_mmap. destruct (N.eqb_spec n 0); [lia|]. rewrite Hc. cbn [of_option]. rewrite bind_eq. cbn [mret M_ret].
  assert ((U64_MAX =? U64_MAX) = true) as -> by done. rewrite bind_eq. cbn [mret M_ret]. rewrite bind_eq. cbn [gets id]. rewrite bind_eq.
  assert (next_addr (E := Z) (libro p) addr 4096 p = (Panic, p)) as ->; [|done].
  unfold next_addr. rewrite bind_eq, (next_multiple_run 4096 Hp) by done. change (redondo 4096 4096) with 4096. change (HUGE_ALIGN <=? 4096) with false. cbv zeta.
  assert (0 < addr) as Ha by (eapply N.le_lt_trans; [apply N.le_0_l|exact H1]). destruct (N.eqb_spec addr 0); [lia|]. rewrite bind_eq.
  assert (forall x, x mod 4096 = 0 -> U64 - 4096 < x -> U64 <= x) as Hm.
  { intros x Hx0 Hx. pose proof (N.div_mod x 4096 ltac:(done)) as Hd. rewrite Hx0, N.add_0_r in Hd. assert (U64 = 4096 * 2 ^ 52) as E by done.
    rewrite E, Hd in *. revert Hx. generalize (x / 4096). intros q. lia. }
  unfold next_multiple_of. change (4096 =? 0) with false. cbv iota. destruct (N.eqb_spec (addr mod 4096) 0) as [H0|H0]; [specialize (Hm addr H0 H1); exfalso; revert H2 Hm; generalize U64; lia|].
  pose proof (Hm _ (siguiente_multiplo 4096 Hp addr H0)) as Hge. pose proof (N.mod_lt addr 4096 ltac:(done)) as Hlt.
  unfold add64. destruct (N.ltb_spec (addr + (4096 - addr mod 4096)) U64) as [Hl|]; [|done]. exfalso.
  assert (U64 - 4096 < addr + (4096 - addr mod 4096)) as Hgt by (eapply N.lt_le_trans; [exact H1|apply N.le_add_r]). specialize (Hge Hgt).
  apply N.lt_nge in Hl. by apply Hl.
Qed.

End Proceso.

(** ** The break *)
Section Break.
Context {P : Type} `{Espacio P}.
(** The pages between the old break and the new one, one by one, until one has no
    frame. *)
Lemma asegurar_spec l : forall p : Proceso P, exists e, (mfor asegura l p = (Ok tt, en_espacio (fun _ => e) p) ∨ mfor asegura l p = (Err (- ENOMEM)%Z, en_espacio (fun _ => e) p)).
Proof.
  induction l as [|va l IH]; intros p; [exists (espacio p); left; by destruct p|]. cbn [mfor]. rewrite bind_eq. unfold asegura at 1 3. destruct (ensure_mapped va (espacio p)) as [[] e].
  - destruct (IH (en_espacio (fun _ => e) p)) as [e' [->| ->]]; exists e'; auto.
  - exists e. by right.
Qed.
Lemma sbrk_spec d (p : Proceso P) : brk p <= BRK_MAX ->
  match sys_sbrk d p with
  | (Ok old, p') => old = brk p ∧ libro p' = libro p ∧ brk_min p' = brk_min p ∧ Z.of_N (brk p') = (Z.of_N (brk p) + d)%Z ∧ brk_min p <= brk p' ∧ brk p' <= BRK_MAX
  | (Err e, p') => e = (- ENOMEM)%Z ∧ libro p' = libro p ∧ brk_min p' = brk_min p ∧ brk p' = brk p
  | _ => False
  end.
Proof.
  intros Hb. assert (BRK_MAX + 4096 <= U64) as Hbm by done. assert (0 < 4096) as Hp by done. unfold sys_sbrk. rewrite bind_eq. cbn [gets id]. cbv zeta.
  destruct (negb _) eqn:Hg; [done|]. apply negb_false_iff in Hg.
  apply andb_true_iff in Hg as [Hg G4%N.leb_le]. apply andb_true_iff in Hg as [Hg G3%N.leb_le]. apply andb_true_iff in Hg as [G1%Z.leb_le G2%N.ltb_lt].
  set (b := Z.to_N (Z.of_N (brk p) + d)) in *. assert (Z.of_N b = (Z.of_N (brk p) + d)%Z) as Hz by (unfold b; lia). clearbody b.
  rewrite bind_eq. destruct (N.ltb_spec (brk p) b) as [Hlt|Hge]; [|cbn; by split_and!].
  rewrite bind_eq, (next_multiple_run 4096 Hp) by (etrans; [|exact Hbm]; lia). rewrite bind_eq, (next_multiple_run 4096 Hp) by (etrans; [|exact Hbm]; lia).
  destruct (asegurar_spec (paginas_entre (redondo 4096 (brk p)) (redondo 4096 b)) p) as [e [->| ->]]; cbn; by split_and!.
Qed.
End Break.

(** ** A concrete process: code read from a file and two pages of its own

    Its pages are not looked at. *)
#[export] Instance espacio_unit : Espacio unit := {|
  ensure_mapped _ e := (true, e); unmap_range _ _ e := e; unmap_range_keep_frames _ _ e := e; forget_range _ _ e := e; drop_ref _ e := e;
|}.
Definition proceso_prueba : Proceso unit :=
  mkProceso [mkRegion 0x1000000000 0x3000 5 0 9000 false true false 0; mkRegion 0x1000004000 0x2000 0 0 0 true false false 0] 0x1000006000 0x500000 0x400000 tt.
Definition sin_ficheros (fd : N) : Z + N * N := inl (-9)%Z.

Lemma prueba_ok : libro_ok (libro proceso_prueba) ∧ con_bytes (libro proceso_prueba).
Proof.
  assert (Forall (fun r => rend r + HUGE_ALIGN <= U64) (libro proceso_prueba)) as H by (apply Forall_cons; split; [vm_compute; discriminate|apply Forall_singleton; vm_compute; discriminate]).
  split; [intros r Hr; exact (proj1 (Forall_forall _ _) H r Hr)|by repeat constructor].
Qed.
Lemma mmap_primer_hueco_testigo : 8000 < U64 ∧ exists p', sys_mmap sin_ficheros 0 8000 U64_MAX 0 proceso_prueba = (Ok 0x1000006000, p') ∧
  primer_hueco (libro proceso_prueba) 8192 4096 MMAP_BASE (Some 0x1000006000).
Proof.
  split; [done|]. pose proof (mmap_primer_hueco sin_ficheros 0 8000 U64_MAX 0 proceso_prueba (proj1 prueba_ok) (proj2 prueba_ok)) as H. cbv zeta in H.
  assert (exists p', sys_mmap sin_ficheros 0 8000 U64_MAX 0 proceso_prueba = (Ok 0x1000006000, p')) as [p' Hr] by (eexists; vm_compute; reflexivity).
  rewrite Hr in H. exists p'. split; [done|]. destruct H as [H _]; [done|done|exact H].
Defined.
Lemma libro_exacto_testigo : 0x1000001000 < U64 ∧ (exists p', sys_munmap 0x1000001000 4000 proceso_prueba = (Ok 0, p') ∧
    vista (libro p') 0x1000001010 = None ∧ vista (libro p') 0x1000002000 = Some (5, 0x2000, 9000, (false, true, false), 0)) ∧
  vista (split_prot (libro proceso_prueba) 0x1000001000 4000 false false true).2 0x1000001008 = Some (5, 0x1008, 9000, (false, false, true), 0).
Proof.
  split; [done|]. destruct (libro_exacto 0x1000001000 4000 false false true proceso_prueba (proj1 prueba_ok) (proj2 prueba_ok) ltac:(done)) as [H1 H2]. split.
  - cbv zeta in H1. assert (exists p', sys_munmap 0x1000001000 4000 proceso_prueba = (Ok 0, p')) as [p' Hr] by (eexists; vm_compute; reflexivity).
    rewrite Hr in H1. exists p'. split; [done|]. destruct H1 as (_ & _ & _ & Hv & _). split; by rewrite Hv.
  - specialize (H2 ltac:(done) ltac:(done)). destruct (split_prot _ _ _ _ _ _) as [ok l]. destruct H2 as (_ & _ & _ & Hv). cbn [snd]. by rewrite Hv.
Defined.
Lemma mmap_pista_alta_testigo : U64 - 4096 < U64_MAX ∧ sys_mmap sin_ficheros U64_MAX 1 U64_MAX 0 proceso_prueba = (Panic, proceso_prueba).
Proof. split; [done|]. by apply (mmap_pista_alta sin_ficheros U64_MAX 1 0 proceso_prueba). Defined.
