(* ===== verification/Monton.v ===== *)
(** * The heap of a program

    [crates/soso-alloc/src/lib.rs], the allocator every program of the system
    uses, in its normal build (without [soso_heap_debug]). The list allocator it
    rests on (crate [linked_list_allocator]) and the system calls are classes of
    operations. The locks are not modelled: one call runs at a time. *)
From S2P Require Import Prelude.
Local Open Scope N_scope.

Definition HEAP_INIT_BYTES : N := 1024 * 1024.
Definition HEAP_GROW_BYTES : N := 4 * 1024 * 1024.
Definition MMAP_ALLOC_MIN : N := 1024 * 1024.
Definition ARENA_CHUNK : N := 256 * 1024.
Definition CLASE_MAX : N := 1024.
Definition N_CLASES : N := CLASE_MAX / 16.

Record Layout := mkLayout { l_size : N; l_align : N }.

Definition Bytes : Type := N -> byte.

(** [Ops]: what the kernel answers is an [i64]. It may change the memory of the
    process. *)
Class Ops (K : Type) := {
  sbrk : Z -> K * Bytes -> Z * (K * Bytes);
  mmap : N -> N -> N -> N -> K * Bytes -> Z * (K * Bytes);
  munmap : N -> N -> K * Bytes -> Z * (K * Bytes);
}.
(** [linked_list_allocator::Heap]. Its list lives in the free bytes. *)
Class Heap (H : Type) := {
  heap_empty : H;
  heap_init_with : N -> N -> H * Bytes -> H * Bytes;
  allocate_first_fit : Layout -> H * Bytes -> option N * (H * Bytes);
  heap_deallocate : N -> Layout -> H * Bytes -> H * Bytes;
  heap_extend : N -> H * Bytes -> H * Bytes;
  bottom : H -> N;
  top : H -> N;
  used : H -> N;
  heap_size : H -> N;
}.

Record ArenaState := mkArena { cur : N; a_end : N; last_start : N; last_end : N }.
Definition arena_vacia : ArenaState := mkArena 0 0 0 0.

(** ** Bytes *)
Definition leer_ptr (m : Bytes) (p : N) : N := le_val ((fun i => m (p + i)) <$> upto 8).
Definition escribir (m : Bytes) (p : N) (bs : list byte) : Bytes :=
  fun a => if p <=? a then match bs !! N.to_nat (a - p) with Some b => b | None => m a end else m a.
Definition escribir_ptr (m : Bytes) (p v : N) : Bytes := escribir m p (le_bytes 8 v).
Definition copiar (m : Bytes) (src dst n : N) : Bytes := fun a => if (dst <=? a) && (a <? dst + n) then m (src + (a - dst)) else m a.

Section Monton.
Context {K H : Type} `{Ops K, Heap H}.

(** The statics of the crate, the process and its memory. *)
Record Estado := mkEstado {
  heap : H; arena : ArenaState; cabeza : list N; heap_ready : bool; heap_brk : bool; nucleo : K; memoria : Bytes;
}.
Definition set_heap h s := mkEstado h (arena s) (cabeza s) (heap_ready s) (heap_brk s) (nucleo s) (memoria s).
Definition set_arena a s := mkEstado (heap s) a (cabeza s) (heap_ready s) (heap_brk s) (nucleo s) (memoria s).
Definition set_cabeza c s := mkEstado (heap s) (arena s) c (heap_ready s) (heap_brk s) (nucleo s) (memoria s).
Definition set_ready b s := mkEstado (heap s) (arena s) (cabeza s) b (heap_brk s) (nucleo s) (memoria s).
Definition set_brk b s := mkEstado (heap s) (arena s) (cabeza s) (heap_ready s) b (nucleo s) (memoria s).
Definition set_nucleo k s := mkEstado (heap s) (arena s) (cabeza s) (heap_ready s) (heap_brk s) k (memoria s).
Definition set_memoria m s := mkEstado (heap s) (arena s) (cabeza s) (heap_ready s) (heap_brk s) (nucleo s) m.
Abbreviation A := (M Estado unit).
Definition en_nucleo {X} (f : K * Bytes -> X * (K * Bytes)) : A X :=
  fun s => let '(x, (k, m)) := f (nucleo s, memoria s) in (Ok x, set_memoria m (set_nucleo k s)).
Definition en_heap {X} (f : H * Bytes -> X * (H * Bytes)) : A X :=
  fun s => let '(x, (h, m)) := f (heap s, memoria s) in (Ok x, set_memoria m (set_heap h s)).
(** [n as i64] *)
Definition as_i64 (n : N) : Z := if n <? 2 ^ 63 then Z.of_N n else (Z.of_N n - 2 ^ 64)%Z.

(** ** Start *)
Definition heap_init : A unit :=
  s ← gets Datatypes.id;
  if heap_ready s then mret tt
  else
    modify (set_ready true);;
    base ← en_nucleo (sbrk (as_i64 HEAP_INIT_BYTES));
    if (0 <? base)%Z then modify (set_brk true);; en_heap (fun h => (tt, heap_init_with (Z.to_N base) HEAP_INIT_BYTES h)) else mret tt.
Definition heap_init_mmap : A unit :=
  s ← gets Datatypes.id;
  if heap_ready s then mret tt
  else
    modify (set_ready true);;
    base ← en_nucleo (mmap 0 HEAP_INIT_BYTES U64_MAX 0);
    if (0 <? base)%Z then en_heap (fun h => (tt, heap_init_with (Z.to_N base) HEAP_INIT_BYTES h)) else mret tt.

Definition bytes_en_lista : A N := gets (fun s => used (heap s)).
Definition estado_lista : A (N * N) := gets (fun s => (used (heap s), heap_size (heap s))).
Definition ptr_in_linked_heap (ptr : N) : A bool := gets (fun s => negb (ptr =? 0) && (bottom (heap s) <=? ptr) && (ptr <? top (heap s))).
Definition en_lista (ptr : N) : A bool := ptr_in_linked_heap ptr.

(** ** The arena *)
(** [(a + align - 1) & !(align - 1)] *)
Definition alinear (a align : N) : A N := x ← add64 a align; x ← sub64 x 1; y ← sub64 align 1; mret (N.ldiff x y).

Definition bump (size align : N) : A N :=
  st ← gets arena;
  start ← alinear (cur st) align;
  fin ← add64 start size;
  if a_end st <? fin then
    sa ← add64 size align;
    let want := if ARENA_CHUNK <? sa then sa else ARENA_CHUNK in
    pedido ← next_multiple_of want 4096;
    base ← en_nucleo (mmap 0 pedido U64_MAX 0);
    if (base <=? 0)%Z then mret 0
    else
      e ← add64 (Z.to_N base) want;
      modify (fun s => set_arena (mkArena (Z.to_N base) e (last_start (arena s)) (last_end (arena s))) s);;
      start ← alinear (Z.to_N base) align;
      fin ← add64 start size;
      if e <? fin then mret 0
      else modify (fun s => set_arena (mkArena fin e start fin) s);; mret start
  else modify (fun s => set_arena (mkArena fin (a_end st) start fin) s);; mret start.

Definition arena_alloc (l : Layout) : A N := bump (l_size l) (N.max (l_align l) 16).
Definition es_ultimo (st : ArenaState) (p fin : N) : bool := (p =? last_start st) && (fin =? last_end st) && (cur st =? last_end st).
Definition arena_dealloc (ptr : N) (l : Layout) : A unit :=
  st ← gets arena;
  fin ← add64 ptr (l_size l);
  if es_ultimo st ptr fin then modify (set_arena (mkArena (last_start st) (a_end st) (last_start st) (last_start st))) else mret tt.
Definition arena_realloc (ptr : N) (l : Layout) (new_size : N) : A N :=
  st ← gets arena;
  fin ← add64 ptr (l_size l);
  nuevo ← add64 ptr new_size;
  if es_ultimo st ptr fin && (nuevo <=? a_end st)
  then modify (set_arena (mkArena nuevo (a_end st) (last_start st) nuevo));; mret ptr
  else
    dst ← arena_alloc (mkLayout new_size (l_align l));
    if dst =? 0 then mret dst
    else
      modify (fun s => set_memoria (copiar (memoria s) ptr dst (N.min (l_size l) new_size)) s);;
      arena_dealloc ptr l;;
      mret dst.

(** ** List, arena or kernel *)
(** The list, extended with [sbrk] when it has no room. *)
Definition de_la_lista (l : Layout) : A (option N) :=
  hecho ← en_heap (allocate_first_fit l);
  brk ← gets heap_brk;
  match hecho with
  | None =>
      if brk : bool then
        sa ← add64 (l_size l) (l_align l);
        r ← next_multiple_of sa 4096;
        let paso := N.max r HEAP_GROW_BYTES in
        tope ← gets (fun s => top (heap s));
        old ← en_nucleo (sbrk (as_i64 paso));
        if (0 <? old)%Z then
          if Z.to_N old =? tope
          then en_heap (fun h => (tt, heap_extend paso h));; en_heap (allocate_first_fit l)
          else en_nucleo (sbrk (- as_i64 paso));; mret None
        else mret None
      else mret None
  | Some p => mret (Some p)
  end.

Definition grande (l : Layout) : bool := (MMAP_ALLOC_MIN <=? l_size l) && (l_align l <=? 4096).
Definition alloc_base (l : Layout) : A N :=
  p ← (if grande l then en_nucleo (mmap 0 (l_size l) U64_MAX 0) else mret 0%Z);
  if (0 <? p)%Z then mret (Z.to_N p)
  else
    o ← (if l_align l <=? 4096 then de_la_lista l else mret None);
    match o with
    | Some p => mret p
    | None => bump (l_size l) (N.max (l_align l) 16)
    end.
Definition dealloc_base (ptr : N) (l : Layout) : A unit :=
  if grande l then
    n ← next_multiple_of (l_size l) 4096;
    en_nucleo (munmap ptr n);;
    mret tt
  else
    lista ← ptr_in_linked_heap ptr;
    if (l_align l <=? 4096) && lista then en_heap (fun h => (tt, heap_deallocate ptr l h))
    else arena_dealloc ptr l.
(** A new block, the bytes both have, and the old one given back. *)
Definition mudar (pedir : Layout -> A N) (soltar : N -> Layout -> A unit) (ptr : N) (l nuevo : Layout) : A N :=
  dst ← pedir nuevo;
  if (dst =? 0) || (ptr =? 0) then mret dst
  else
    modify (fun s => set_memoria (copiar (memoria s) ptr dst (N.min (l_size l) (l_size nuevo))) s);;
    soltar ptr l;;
    mret dst.
Definition realloc_base (ptr : N) (l : Layout) (new_size : N) : A N :=
  let nuevo := mkLayout new_size (l_align l) in
  if grande l then mudar alloc_base dealloc_base ptr l nuevo
  else
    lista ← ptr_in_linked_heap ptr;
    if (l_align l <=? 4096) && lista then mudar alloc_base dealloc_base ptr l nuevo
    else arena_realloc ptr l new_size.

(** ** Small blocks by class *)
Definition clase_de (l : Layout) : option N :=
  if (l_size l <=? CLASE_MAX) && (l_align l <=? 16) then Some (div_ceil (N.max (l_size l) 1) 16 - 1) else None.

Definition alloc (l : Layout) : A N :=
  match clase_de l with
  | None => alloc_base l
  | Some c =>
      cab ← gets cabeza;
      p ← of_option panic (cab !! N.to_nat c);
      if p =? 0 then alloc_base (mkLayout ((c + 1) * 16) 16)
      else modify (fun s => set_cabeza (<[N.to_nat c := leer_ptr (memoria s) p]> cab) s);; mret p
  end.
Definition alloc_zeroed (l : Layout) : A N :=
  ptr ← alloc l;
  (if ptr =? 0 then mret tt else modify (fun s => set_memoria (escribir (memoria s) ptr (zeros (l_size l))) s));;
  mret ptr.
Definition dealloc (ptr : N) (l : Layout) : A unit :=
  match clase_de l with
  | None => dealloc_base ptr l
  | Some c =>
      cab ← gets cabeza;
      p ← of_option panic (cab !! N.to_nat c);
      modify (fun s => set_cabeza (<[N.to_nat c := ptr]> cab) (set_memoria (escribir_ptr (memoria s) ptr p) s))
  end.
Definition realloc (ptr : N) (l : Layout) (new_size : N) : A N :=
  let nuevo := mkLayout new_size (l_align l) in
  match clase_de l, clase_de nuevo with
  | Some a, Some b => if a =? b then mret ptr else mudar alloc dealloc ptr l nuevo
  | None, None => realloc_base ptr l new_size
  | _, _ => mudar alloc dealloc ptr l nuevo
  end.
End Monton.
