(* ===== verification/MontonInv.v ===== *)
(** * The heap of a program: who owns each byte

    What the kernel and the list allocator promise, the invariant of the heap and
    what each of its sources of memory does to it. *)
From S2P Require Import Prelude Monton.
Local Open Scope N_scope.
#[local] Set Default Proof Using "Type*".

(** ** Blocks: an address and a size *)
Definition en (b : N * N) (a : N) : Prop := b.1 <= a ∧ a < b.1 + b.2.
Definition ocupa (bs : list (N * N)) (a : N) : Prop := exists b, b ∈ bs ∧ en b a.
Fixpoint apartados (bs : list (N * N)) : Prop :=
  match bs with [] => True | b :: bs => (forall a, en b a -> ~ ocupa bs a) ∧ apartados bs end.

Lemma ocupa_nil a : ~ ocupa [] a.
Proof. intros (b & Hb & _). by apply elem_of_nil in Hb. Qed.
Lemma ocupa_cons b bs a : ocupa (b :: bs) a <-> en b a ∨ ocupa bs a.
Proof.
  unfold ocupa. split.
  - intros (c & [->|Hc]%elem_of_cons & Ha); [by left|right; eauto].
  - intros [Ha|(c & Hc & Ha)]; [exists b|exists c]; (split; [set_solver|done]).
Qed.
Lemma ocupa_app bs cs a : ocupa (bs ++ cs) a <-> ocupa bs a ∨ ocupa cs a.
Proof.
  unfold ocupa. setoid_rewrite elem_of_app. split; [intros (b & [?|?] & ?); eauto|intros [(b & ? & ?)|(b & ? & ?)]; eauto].
Qed.
#[export] Instance ocupa_perm : Proper ((≡ₚ) ==> (=) ==> iff) ocupa.
Proof. intros bs cs Hp a ? <-. unfold ocupa. by setoid_rewrite Hp. Qed.
#[export] Instance apartados_perm : Proper ((≡ₚ) ==> iff) apartados.
Proof.
  assert (forall bs cs, bs ≡ₚ cs -> apartados bs -> apartados cs) as H; [|intros bs cs Hp; split; apply H; [done|by symmetry]].
  induction 1 as [|b bs cs Hp IH|b c bs|bs cs ds _ IH1 _ IH2]; [done| |cbn|by auto].
  - cbn. intros [Hb Hr]. split; [|by apply IH]. intros a. rewrite <- Hp. apply Hb.
  - intros [Hb [Hc Hr]]. split_and!; [|intros a Ha Ho; apply (Hb a Ha); rewrite ocupa_cons; by right|done].
    intros a Ha [Hba|Ho]%ocupa_cons; [|by apply (Hc a)]. apply (Hb a Hba). rewrite ocupa_cons. by left.
Qed.
Lemma filter_en_lista {X} (P Q : X -> Prop) `{forall x, Decision (P x), forall x, Decision (Q x)} (l : list X) :
  (forall x, x ∈ l -> P x <-> Q x) -> filter P l = filter Q l.
Proof.
  induction l as [|x l IH]; intros Hl; [done|]. rewrite !filter_cons, IH by (intros y Hy; apply Hl; by right).
  pose proof (Hl x (list_elem_of_here _ _)). by repeat case_decide; try tauto.
Qed.

(** ** What the kernel promises *)
(** The bytes that go from [su] to [su'], and what happens to the memory. *)
Record gana (su su' : N -> Prop) (m m' : Bytes) (b n : N) : Prop := {
  g_su : forall a, su' a <-> su a ∨ en (b, n) a;
  g_nuevo : forall a, en (b, n) a -> ~ su a;
  g_mem : forall a, su a -> m' a = m a;
}.
Definition pierde (su su' : N -> Prop) (m m' : Bytes) (b n : N) : Prop :=
  (forall a, su' a -> su a) ∧ forall a, su a -> ~ en (b, n) a -> su' a ∧ m' a = m a.

Class OpsSpec (K : Type) `{Ops K} := {
  bien : K -> Prop;
  suya : K -> N -> Prop;
  tope_brk : K -> N;
  suya_rango : forall k a, bien k -> suya k a -> 0 < a ∧ a < 2 ^ 47;
  sbrk_sube : forall k m d, bien k -> 0 < d -> d < 2 ^ 62 ->
    let '(r, (k', m')) := sbrk (Z.of_N d) (k, m) in
    bien k' ∧ if (0 <? r)%Z then Z.to_N r = tope_brk k ∧ tope_brk k' = tope_brk k + d ∧ gana (suya k) (suya k') m m' (Z.to_N r) d
              else pierde (suya k) (suya k') m m' 0 0;
  sbrk_baja : forall k m d, bien k -> 0 < d -> d < 2 ^ 62 ->
    let '(r, (k', m')) := sbrk (- Z.of_N d) (k, m) in
    bien k' ∧ pierde (suya k) (suya k') m m' (tope_brk k - d) d;
  mmap_ok : forall k m n, bien k -> 0 < n -> n <= 2 ^ 63 ->
    let '(r, (k', m')) := mmap 0 n U64_MAX 0 (k, m) in
    bien k' ∧ if (0 <? r)%Z then Z.to_N r mod 4096 = 0 ∧ gana (suya k) (suya k') m m' (Z.to_N r) (redondo 4096 n)
              else pierde (suya k) (suya k') m m' 0 0;
  munmap_ok : forall k m p n, bien k -> p mod 4096 = 0 -> p < 2 ^ 47 -> 0 < n -> n <= 2 ^ 63 -> n mod 4096 = 0 ->
    let '(r, (k', m')) := munmap p n (k, m) in bien k' ∧ pierde (suya k) (suya k') m m' p n;
}.

(** ** What the list allocator promises *)
Definition potencia (a : N) : Prop := exists k, a = 2 ^ k.
(** Rust's [Layout]: rounded up to its alignment, the size fits in an [isize]. *)
Definition valida (l : Layout) : Prop := potencia (l_align l) ∧ 0 < l_size l ∧ l_size l + l_align l <= 2 ^ 63.
Definition en_region {H} `{Heap H} (h : H) (a : N) : Prop := bottom h <= a ∧ a < top h.
#[export] Instance en_region_dec {H} `{Heap H} (h : H) a : Decision (en_region h a).
Proof. unfold en_region. apply _. Defined.

(** It writes only on its own free bytes. [tomados] are the blocks in the hands
    of its client. *)
Class HeapSpec (H : Type) `{Heap H} := {
  heap_ok : H -> Prop;
  tomados : H -> list (N * N);
  vacio_ok : heap_ok heap_empty ∧ tomados heap_empty = [] ∧ top heap_empty = 0;
  init_ok : forall h m b n, 0 < b -> tomados h = [] ->
    let '(h', m') := heap_init_with b n (h, m) in
    heap_ok h' ∧ tomados h' = [] ∧ b <= bottom h' ∧ top h' <= b + n ∧ forall a, ~ en (b, n) a -> m' a = m a;
  primero_ok : forall h m l, heap_ok h -> valida l ->
    let '(o, (h', m')) := allocate_first_fit l (h, m) in
    heap_ok h' ∧ bottom h' = bottom h ∧ top h' = top h ∧
    (forall a, ~ en_region h a ∨ ocupa (tomados h) a -> m' a = m a) ∧
    match o with
    | None => tomados h' ≡ₚ tomados h
    | Some p => bottom h <= p ∧ p + l_size l <= top h ∧ p mod l_align l = 0 ∧ (forall a, en (p, l_size l) a -> ~ ocupa (tomados h) a) ∧
        tomados h' ≡ₚ (p, l_size l) :: tomados h
    end;
  devuelve_ok : forall h m p l t, heap_ok h -> tomados h ≡ₚ (p, l_size l) :: t ->
    let '(h', m') := heap_deallocate p l (h, m) in
    heap_ok h' ∧ bottom h' = bottom h ∧ top h' = top h ∧ tomados h' ≡ₚ t ∧
    forall a, ~ en_region h a ∨ ocupa t a -> m' a = m a;
  extiende_ok : forall h m n, heap_ok h ->
    let '(h', m') := heap_extend n (h, m) in
    heap_ok h' ∧ bottom h' = bottom h ∧ top h' = top h + n ∧ tomados h' ≡ₚ tomados h ∧
    forall a, ~ en_region h' a ∨ ocupa (tomados h) a -> m' a = m a;
}.

(** ** The invariant *)
Section Invariante.
Context {K H : Type} `{OpsSpec K, HeapSpec H}.
Implicit Types (s : Estado (K := K) (H := H)) (bs : list (N * N)) (h : H) (k : K).

(** [bs] are the blocks that came out of the base allocator: those of the
    program and those kept by class. [[c, e)] is what is left of the arena. *)
Record base bs h (c e : N) k : Prop := {
  b_bien : bien k;
  b_heap : heap_ok h;
  b_pos : forall b, b ∈ bs -> 0 < b.2;
  b_apart : apartados bs;
  b_suyos : forall a, ocupa bs a -> suya k a;
  b_lista : tomados h ≡ₚ filter (fun b => en_region h b.1) bs;
  b_fuera : forall b a, b ∈ bs -> ~ en_region h b.1 -> en b a -> ~ en_region h a;
  b_region : forall a, en_region h a -> suya k a;
  b_lindes : c <= e ∧ e <= 2 ^ 47;
  b_arena : forall a, c <= a -> a < e -> suya k a ∧ ~ ocupa bs a ∧ ~ en_region h a;
}.
Definition montado bs s : Prop := base bs (heap s) (cur (arena s)) (a_end (arena s)) (nucleo s).
(** What the blocks of [bs] may count on from [s] to [s']. *)
Definition paso bs s s' : Prop :=
  cabeza s' = cabeza s ∧ forall a, ocupa bs a -> memoria s' a = memoria s a ∧ (en_region (heap s') a <-> en_region (heap s) a).
Definition hace {A} (m : M (Estado (K := K) (H := H)) unit A) s (Φ : A -> Estado -> Prop) : Prop := acaba m s Φ (fun _ => False).

Lemma base_perm bs cs h c e k : bs ≡ₚ cs -> base bs h c e k -> base cs h c e k.
Proof.
  intros Hp []. split; try done; by setoid_rewrite <- Hp.
Qed.
Lemma paso_refl bs s : paso bs s s.
Proof. done. Qed.
Lemma paso_trans bs s1 s2 s3 : paso bs s1 s2 -> paso bs s2 s3 -> paso bs s1 s3.
Proof.
  intros [C1 P1] [C2 P2]. split; [congruence|]. intros a Ha. destruct (P1 a Ha) as [E1 R1], (P2 a Ha) as [E2 R2]. split; [congruence|tauto].
Qed.
Lemma paso_mono bs cs s s' : (forall a, ocupa cs a -> ocupa bs a) -> paso bs s s' -> paso cs s s'.
Proof. intros Hb [C P]. split; [done|]. intros a Ha. auto. Qed.

(** ** Lemmas on the invariant *)
Lemma base_cabe b bs h c e k a : base (b :: bs) h c e k -> en b a -> 0 < a ∧ a < 2 ^ 47 ∧ suya k a ∧ ~ ocupa bs a.
Proof.
  intros B Ha. assert (suya k a) as Hs by (apply (b_suyos _ _ _ _ _ B), ocupa_cons; by left).
  destruct (suya_rango k a (b_bien _ _ _ _ _ B) Hs). split_and!; try done. by apply (b_apart _ _ _ _ _ B).
Qed.
Lemma base_dir p n bs h c e k : base ((p, n) :: bs) h c e k -> 0 < p ∧ p + n <= 2 ^ 47 ∧ 0 < n.
Proof.
  intros B. assert (0 < n) as Hn by (apply (b_pos _ _ _ _ _ B (p, n)); by left).
  destruct (base_cabe _ _ _ _ _ _ p B) as (? & _); [unfold en; cbn; lia|]. destruct (base_cabe _ _ _ _ _ _ (p + n - 1) B) as (_ & ? & _); [unfold en; cbn; lia|]. lia.
Qed.
Lemma base_sin b bs h c e k : base (b :: bs) h c e k -> ~ en_region h b.1 -> base bs h c e k.
Proof.
  intros [] Hf. split; try done.
  - intros b' Hb. apply b_pos0. by right.
  - apply b_apart0.
  - intros a Ha. apply b_suyos0, ocupa_cons. by right.
  - by rewrite filter_cons, decide_False in b_lista0.
  - intros b' a Hb. apply b_fuera0. by right.
  - intros a L1 L2. destruct (b_arena0 a L1 L2) as (? & Hn & ?). split_and!; try done. intros Ho. apply Hn, ocupa_cons. by right.
Qed.
(** A block on bytes nobody has. *)
Lemma base_con p n bs h c e k : base bs h c e k -> 0 < n -> (forall a, en (p, n) a -> suya k a ∧ ~ ocupa bs a ∧ ~ en_region h a ∧ ~ (c <= a ∧ a < e)) ->
  base ((p, n) :: bs) h c e k ∧ ~ en_region h p.
Proof.
  intros B Hn Hb. assert (en (p, n) p) as Hp by (unfold en; cbn; lia). destruct (Hb p Hp) as (_ & _ & Hr & _). destruct B. split; [|done]. split; try done.
  - intros b [->|Hin]%elem_of_cons; auto.
  - split; [|done]. intros a Ha. by destruct (Hb a Ha) as (_ & ? & _).
  - intros a [Ha|Ha]%ocupa_cons; [by destruct (Hb a Ha)|auto].
  - by rewrite filter_cons, decide_False.
  - intros b a [->|Hin]%elem_of_cons; [intros _ Ha; by destruct (Hb a Ha) as (_ & _ & ? & _)|eauto].
  - intros a L1 L2. destruct (b_arena0 a L1 L2) as (? & Hno & ?). split_and!; try done. intros [Ha|Ha]%ocupa_cons; [|done]. destruct (Hb a Ha) as (_ & _ & _ & Hq). by apply Hq.
Qed.
Lemma base_mas bs h c e k k' : base bs h c e k -> bien k' -> (forall a, suya k a -> suya k' a) -> base bs h c e k'.
Proof. intros [] Hb Hs. split; try done; auto. intros a L1 L2. destruct (b_arena0 a L1 L2) as (? & ? & ?). auto. Qed.
(** The kernel takes back a block that is not of the list. *)
Lemma base_menos p n bs h c e k k' m m' : base ((p, n) :: bs) h c e k -> ~ en_region h p -> bien k' -> pierde (suya k) (suya k') m m' p n -> base bs h c e k'.
Proof.
  intros B Hr Hb [_ Hp]. pose proof (base_sin _ _ _ _ _ _ B Hr) as []. split; try done.
  - intros a Ha. apply Hp; [auto|]. intros He. by destruct (base_cabe _ _ _ _ _ _ a B He) as (_ & _ & _ & Hn).
  - intros a Ha. apply Hp; [auto|]. intros He. by apply (b_fuera _ _ _ _ _ B (p, n) a (list_elem_of_here _ _) Hr He).
  - intros a L1 L2. destruct (b_arena0 a L1 L2) as (? & ? & ?). split_and!; try done. apply Hp; [done|]. intros He.
    destruct (b_arena _ _ _ _ _ B a L1 L2) as (_ & Hn & _). apply Hn, ocupa_cons. by left.
Qed.
Lemma base_arena bs h c e c' e' k : base bs h c e k -> c' <= e' -> e' <= 2 ^ 47 ->
  (forall a, c' <= a -> a < e' -> suya k a ∧ ~ ocupa bs a ∧ ~ en_region h a) -> base bs h c' e' k.
Proof. intros [] L1 L2 L3. by split. Qed.
(** Taking from the arena and giving back to it. *)
Lemma base_toma p n bs h c e k : base bs h c e k -> c <= p -> 0 < n -> p + n <= e -> base ((p, n) :: bs) h (p + n) e k ∧ ~ en_region h p.
Proof.
  intros B Hc Hn He. destruct (b_lindes _ _ _ _ _ B) as [_ Hl]. apply base_con; [|done|].
  - apply (base_arena _ _ c e); [done|done|done|]. intros a L1 L2. apply (b_arena _ _ _ _ _ B); lia.
  - intros a [L1 L2]. cbn in L1, L2. destruct (b_arena _ _ _ _ _ B a) as (? & ? & ?); [lia|lia|]. split_and!; try done. lia.
Qed.
Lemma base_suelta p n bs h e k : base ((p, n) :: bs) h (p + n) e k -> ~ en_region h p -> base bs h p e k.
Proof.
  intros B Hr. destruct (b_lindes _ _ _ _ _ B) as [Hl1 Hl2]. pose proof (base_sin _ _ _ _ _ _ B Hr) as Bs. apply (base_arena _ _ _ _ _ _ _ Bs); [lia|done|].
  intros a L1 L2. destruct (N.lt_ge_cases a (p + n)) as [Hlt|Hge]; [|by apply (b_arena _ _ _ _ _ Bs)].
  assert (en (p, n) a) as Ha by done. destruct (base_cabe _ _ _ _ _ _ a B Ha) as (_ & _ & ? & ?). split_and!; try done.
  by apply (b_fuera _ _ _ _ _ B (p, n) a (list_elem_of_here _ _)).
Qed.
Lemma base_region_dif bs h c e k a : base bs h c e k -> ocupa bs a -> ~ en_region h a ∨ ocupa (tomados h) a.
Proof.
  intros B (b & Hb & Ha). destruct (decide (en_region h b.1)) as [Hr|Hr]; [right|left; by apply (b_fuera _ _ _ _ _ B b)].
  rewrite (b_lista _ _ _ _ _ B). exists b. split; [|done]. by apply list_elem_of_filter.
Qed.
End Invariante.

(** * The heap of a program: the base allocator

    What the arena, the list and the kernel give and take back, as moves of the
    invariant. *)
#[local] Set Default Proof Using "Type*".

(** ** Rounding to a power of two *)
Lemma potencia_pos a : potencia a -> 0 < a.
Proof. intros [k ->]. apply N.neq_0_lt_0. by apply N.pow_nonzero. Qed.
Lemma potencia_max a : potencia a -> potencia (N.max a 16).
Proof. intros Ha. destruct (N.max_spec a 16) as [[_ ->]|[_ ->]]; [by exists 4|done]. Qed.
Lemma potencia_divide a b : potencia a -> potencia b -> a <= b -> exists q, b = a * q.
Proof.
  intros [i ->] [j ->] Hle. apply N.pow_le_mono_r_iff in Hle; [|done]. exists (2 ^ (j - i)). rewrite <- N.pow_add_r. f_equal. lia.
Qed.
Lemma mod_divide p a b : potencia a -> potencia b -> a <= b -> p mod b = 0 -> p mod a = 0.
Proof.
  intros Ha Hb Hle Hp. destruct (potencia_divide a b Ha Hb Hle) as [q ->]. pose proof (potencia_pos _ Ha). pose proof (potencia_pos _ Hb).
  pose proof (N.div_mod p (a * q) ltac:(lia)) as Hd. rewrite Hp, N.add_0_r in Hd. rewrite Hd, <- N.mul_assoc, N.mul_comm. apply N.Div0.mod_mul.
Qed.

Section Base.
Context {K H : Type} `{OpsSpec K, HeapSpec H}.
Implicit Types (s : Estado (K := K) (H := H)) (bs : list (N * N)).

Lemma hace_mono {A} (m : M _ unit A) s (Φ Φ' : A -> Estado -> Prop) : hace m s Φ -> (forall a s', Φ a s' -> Φ' a s') -> hace m s Φ'.
Proof. intros Hm HΦ. by eapply acaba_mono. Qed.
Lemma hace_ret {A} (a : A) s (Φ : A -> Estado -> Prop) : Φ a s -> hace (mret a) s Φ.
Proof. done. Qed.
Lemma hace_gets {A} (f : Estado -> A) s (Φ : A -> Estado -> Prop) : Φ (f s) s -> hace (gets f) s Φ.
Proof. done. Qed.
Lemma hace_modify f s (Φ : unit -> Estado -> Prop) : Φ tt (f s) -> hace (modify f) s Φ.
Proof. done. Qed.
Lemma hace_nucleo {A} (f : K * Bytes -> A * (K * Bytes)) s (Φ : A -> Estado -> Prop) :
  (forall x k m, f (nucleo s, memoria s) = (x, (k, m)) -> Φ x (set_memoria m (set_nucleo k s))) -> hace (en_nucleo f) s Φ.
Proof. intros Hf. unfold hace, acaba, en_nucleo. destruct (f _) as [x [k m]]. by apply Hf. Qed.
Lemma hace_heap {A} (f : H * Bytes -> A * (H * Bytes)) s (Φ : A -> Estado -> Prop) :
  (forall x h m, f (heap s, memoria s) = (x, (h, m)) -> Φ x (set_memoria m (set_heap h s))) -> hace (en_heap f) s Φ.
Proof. intros Hf. unfold hace, acaba, en_heap. destruct (f _) as [x [h m]]. by apply Hf. Qed.
Lemma hace_bind {A B} (m : M _ unit A) (f : A -> M _ unit B) s (Φ : B -> Estado -> Prop) : hace m s (fun a s' => hace (f a) s' Φ) -> hace (m ≫= f) s Φ.
Proof. apply acaba_bind. Qed.
Lemma hace_multiple m a s (Φ : N -> Estado -> Prop) : 0 < m -> a + m <= U64 -> Φ (redondo m a) s -> hace (next_multiple_of a m) s Φ.
Proof. intros Hm Ha HΦ. unfold hace, acaba. by rewrite next_multiple_run. Qed.

Ltac paso1 := lazymatch goal with
  | |- hace (_ ≫= _) _ _ => apply hace_bind
  | |- hace (gets _) _ _ => apply hace_gets
  | |- hace (modify _) _ _ => apply hace_modify
  | |- hace (mret _) _ _ => apply hace_ret
  end; cbv beta.
Ltac pasos := repeat paso1.

Lemma alinear_run a al s (Φ : N -> Estado -> Prop) : potencia al -> a + al < U64 -> Φ (redondo al a) s -> hace (alinear a al) s Φ.
Proof.
  intros Hal Ha HΦ. pose proof (potencia_pos al Hal). unfold alinear. paso1. apply acaba_add64; [done|]. paso1. apply acaba_sub64; [lia|]. paso1. apply acaba_sub64; [lia|].
  apply hace_ret. unfold redondo, div_ceil in HΦ. destruct Hal as [k ->].
  replace (2 ^ k - 1) with (N.ones k) by (rewrite N.ones_equiv; lia). by rewrite N.ldiff_ones_r, N.shiftl_mul_pow2, N.shiftr_div_pow2.
Qed.

(** The answer to a request of [n] bytes: nothing changed hands, or a block
    more. *)
Definition entrega bs (n p : N) s' (P : Prop) : Prop := if p =? 0 then montado bs s' else montado ((p, n) :: bs) s' ∧ P.
Lemma entrega_si bs n p s' (P : Prop) : montado ((p, n) :: bs) s' -> P -> entrega bs n p s' P.
Proof. intros B HP. destruct (base_dir _ _ _ _ _ _ _ B) as [Hp _]. unfold entrega. destruct (N.eqb_spec p 0); [lia|done]. Qed.

(** The kernel gave bytes: nobody had them. *)
Lemma nuevos_fuera bs h c e k k' m m' b n : base bs h c e k -> gana (suya k) (suya k') m m' b n -> forall a, en (b, n) a ->
  suya k' a ∧ ~ ocupa bs a ∧ ~ en_region h a ∧ ~ (c <= a ∧ a < e).
Proof.
  intros B [G1 G2 _] a Ha. specialize (G2 a Ha). split; [apply G1; by right|]. split; [intros Ho; by apply G2, (b_suyos _ _ _ _ _ B)|].
  split; [intros Hr; by apply G2, (b_region _ _ _ _ _ B)|]. intros [L1 L2]. by apply G2, (b_arena _ _ _ _ _ B).
Qed.
Lemma paso_nucleo bs s k m : (forall a, ocupa bs a -> m a = memoria s a) -> paso bs s (set_memoria m (set_nucleo k s)).
Proof. intros Hm. split; [done|]. intros a Ha. by split; [apply Hm|]. Qed.

(** A map of the kernel, whole, for a block. *)
Lemma mmap_bloque bs s n r k m : montado bs s -> 0 < n -> n <= 2 ^ 63 -> mmap 0 n U64_MAX 0 (nucleo s, memoria s) = (r, (k, m)) ->
  let s' := set_memoria m (set_nucleo k s) in paso bs s s' ∧
  if (0 <? r)%Z then Z.to_N r mod 4096 = 0 ∧ montado bs s' ∧ montado ((Z.to_N r, redondo 4096 n) :: bs) s' ∧ ~ en_region (heap s') (Z.to_N r) ∧
    Z.to_N r + redondo 4096 n <= 2 ^ 47 ∧ forall a, en (Z.to_N r, redondo 4096 n) a -> suya (nucleo s') a ∧ ~ ocupa bs a ∧ ~ en_region (heap s') a
  else montado bs s'.
Proof.
  intros B Hn Hm Hrun. cbv zeta. pose proof (mmap_ok (nucleo s) (memoria s) n (b_bien _ _ _ _ _ B) Hn Hm) as Hok. rewrite Hrun in Hok. destruct Hok as [Hb Hok].
  assert (0 < redondo 4096 n) as Hr by (pose proof (redondo_ge 4096 ltac:(done) n); lia).
  destruct (0 <? r)%Z.
  - destruct Hok as [Ha G]. pose proof (nuevos_fuera _ _ _ _ _ _ _ _ _ _ B G) as Hf.
    assert (montado bs (set_memoria m (set_nucleo k s))) as B' by (apply (base_mas _ _ _ _ (nucleo s)); [done|done|]; intros a Hs; apply (g_su _ _ _ _ _ _ G); by left).
    destruct (base_con (Z.to_N r) (redondo 4096 n) _ _ _ _ _ B' Hr Hf) as [Bc Hreg].
    split; [apply paso_nucleo; intros a Ho; apply (g_mem _ _ _ _ _ _ G), (b_suyos _ _ _ _ _ B a Ho)|].
    destruct (base_dir _ _ _ _ _ _ _ Bc) as (_ & Hd & _). split_and!; try done. intros a He. destruct (Hf a He) as (? & ? & ? & _). done.
  - destruct Hok as [P1 P2]. assert (forall a, ~ en (0, 0) a) as Hno by (intros a [_ L]; cbn in L; lia).
    split; [apply paso_nucleo; intros a Ho; by apply P2; [apply (b_suyos _ _ _ _ _ B a Ho)|]|]. apply (base_mas _ _ _ _ (nucleo s)); [done|done|]. intros a Hs. by apply P2.
Qed.

(** ** The arena *)
Lemma bump_corta bs s size al : montado bs s -> 0 < size -> potencia al -> redondo al (cur (arena s)) + size <= a_end (arena s) ->
  let p := redondo al (cur (arena s)) in
  forall l1 l2, entrega bs size p (set_arena (mkArena (p + size) (a_end (arena s)) l1 l2) s) (p mod al = 0 ∧ ~ en_region (heap s) p).
Proof.
  intros B Hs Hal He. cbv zeta. intros l1 l2. pose proof (potencia_pos _ Hal) as Hp.
  destruct (base_toma (redondo al (cur (arena s))) size _ _ _ _ _ B (redondo_ge al Hp _) Hs He) as [Bt Hr].
  apply entrega_si; [done|]. split; [by apply redondo_mod|done].
Qed.
Lemma lindes_arena bs s : montado bs s -> cur (arena s) <= 2 ^ 47.
Proof. intros B. destruct (b_lindes _ _ _ _ _ B). by etrans. Qed.

Lemma bump_spec bs s size al : montado bs s -> 0 < size -> potencia al -> size + al <= 2 ^ 63 ->
  hace (bump size al) s (fun p s' => paso bs s s' ∧ heap s' = heap s ∧ entrega bs size p s' (p mod al = 0 ∧ ~ en_region (heap s') p)).
Proof.
  intros B Hs Hal Hsz. pose proof (potencia_pos _ Hal) as Hp. pose proof (lindes_arena _ _ B) as Hc.
  assert (2 ^ 47 + 2 ^ 63 < U64 ∧ 2 ^ 63 + 4096 <= U64 ∧ ARENA_CHUNK <= 2 ^ 63 ∧ 0 < 4096) as (C1 & C2 & C3 & C4) by done.
  unfold bump. pasos. apply alinear_run; [done|lia|]. pose proof (redondo_lt al Hp (cur (arena s))) as Hlt. pasos. apply acaba_add64; [lia|].
  destruct (N.ltb_spec (a_end (arena s)) (redondo al (cur (arena s)) + size)) as [Hno|Hsi].
  2: { pasos. split; [done|]. split; [done|]. exact (bump_corta bs s size al B Hs Hal Hsi _ _). }
  pasos. apply acaba_add64; [lia|]. set (want := if ARENA_CHUNK <? size + al then size + al else ARENA_CHUNK).
  assert (size + al <= want ∧ want <= 2 ^ 63) as [W1 W2] by (unfold want; destruct (N.ltb_spec ARENA_CHUNK (size + al)); lia). clearbody want. cbv zeta. pasos.
  apply hace_multiple; [done|lia|]. pose proof (redondo_ge 4096 C4 want) as R1. pose proof (redondo_min 4096 C4 want (2 ^ 63) W2 ltac:(done)) as R2.
  pasos. apply hace_nucleo. intros r k m Hrun. destruct (mmap_bloque bs s (redondo 4096 want) r k m B ltac:(lia) R2 Hrun) as [Hpa Hr]. rewrite Z.leb_antisym.
  destruct (0 <? r)%Z; cbn [negb]; [|by pasos]. destruct Hr as (_ & B' & _ & _ & Hle & Hb). set (s1 := set_memoria m (set_nucleo k s)) in *.
  rewrite (redondo_id 4096 C4 _ (redondo_mod 4096 C4 want)) in Hle, Hb. set (b := Z.to_N r) in *. clearbody b.
  pasos. apply acaba_add64; [lia|]. pasos. apply alinear_run; [done|lia|]. pose proof (redondo_lt al Hp b) as Hlt2. pasos. apply acaba_add64; [lia|].
  destruct (N.ltb_spec (b + want) (redondo al b + size)); [lia|]. pasos. split; [done|]. split; [done|].
  set (s2 := set_arena (mkArena b (b + want) (last_start (arena s1)) (last_end (arena s1))) s1).
  assert (montado bs s2) as B2.
  { apply (base_arena _ _ _ _ _ _ _ B'); [cbn; lia|cbn; lia|]. cbn [cur a_end arena s2 set_arena]. intros a L1 L2. apply Hb. unfold en. cbn. lia. }
  apply (bump_corta bs s2 size al B2 Hs Hal). cbn. lia.
Qed.

(** A block that goes back to the arena. *)
Lemma arena_dealloc_spec bs s p l : montado ((p, l_size l) :: bs) s -> ~ en_region (heap s) p ->
  hace (arena_dealloc p l) s (fun _ s' => paso bs s s' ∧ heap s' = heap s ∧ memoria s' = memoria s ∧ montado bs s').
Proof.
  intros B Hr. destruct (base_dir _ _ _ _ _ _ _ B) as (_ & Hd & _). assert (2 ^ 47 < U64) by done. unfold arena_dealloc. pasos. apply acaba_add64; [lia|].
  unfold es_ultimo. destruct (N.eqb_spec p (last_start (arena s))) as [E1|E1], (N.eqb_spec (p + l_size l) (last_end (arena s))) as [E2|E2], (N.eqb_spec (cur (arena s)) (last_end (arena s))) as [E3|E3];
    cbn [andb]; pasos; (split; [done|]; split; [done|]; split; [done|]); try by apply (base_sin _ _ _ _ _ _ B).
  unfold montado in *. cbn. rewrite <- E1. apply (base_suelta _ (l_size l)); [|done]. by rewrite E2, <- E3.
Qed.

(** ** The list *)
Lemma filter_region bs h h' c e k : base bs h c e k -> (forall a, ocupa bs a -> en_region h' a <-> en_region h a) ->
  filter (fun b => en_region h' b.1) bs = filter (fun b => en_region h b.1) bs.
Proof.
  intros B Hr. apply filter_en_lista. intros b Hb. apply Hr. exists b. split; [done|]. pose proof (b_pos _ _ _ _ _ B b Hb). unfold en. lia.
Qed.
Lemma primero_spec bs s l : montado bs s -> valida l ->
  hace (en_heap (allocate_first_fit l)) s (fun o s' => paso bs s s' ∧ nucleo s' = nucleo s ∧ heap_brk s' = heap_brk s ∧ arena s' = arena s ∧
    match o with None => montado bs s' | Some p => montado ((p, l_size l) :: bs) s' ∧ p mod l_align l = 0 ∧ en_region (heap s') p end).
Proof.
  intros B Hl. apply hace_heap. intros o h m Hrun. pose proof (primero_ok (heap s) (memoria s) l (b_heap _ _ _ _ _ B) Hl) as Hok. rewrite Hrun in Hok.
  destruct Hok as (O1 & O2 & O3 & O4 & O5). assert (forall a, en_region h a <-> en_region (heap s) a) as Hreg by (intros a; unfold en_region; by rewrite O2, O3).
  split; [split; [done|]; intros a Ha; cbn; split; [apply O4; by apply (base_region_dif _ _ _ _ _ _ B)|done]|]. do 3 (split; [done|]).
  pose proof (filter_region bs (heap s) h _ _ _ B (fun a _ => Hreg a)) as Hfil. destruct o as [p|].
  - destruct O5 as (A1 & A2 & A3 & A4 & A5). destruct Hl as (_ & Hs & _). assert (forall a, en (p, l_size l) a -> en_region (heap s) a) as Hin by (intros a [L1 L2]; cbn in *; unfold en_region; lia).
    assert (en_region (heap s) p) as Hp by (apply Hin; unfold en; cbn; lia). split; [|split; [done|by apply Hreg]]. pose proof B as [B1 B2 B3 B4 B5 B6 B7 B8 B9 B10]. split; try done.
    + intros b [->|Hb]%elem_of_cons; auto.
    + split; [|done]. intros a Ha Ho. destruct (base_region_dif _ _ _ _ _ _ B Ho) as [Hn|Ht]; [by apply Hn, Hin|by apply (A4 a)].
    + intros a [Ha|Ha]%ocupa_cons; [by apply B8, Hin|auto].
    + change (tomados h ≡ₚ filter (fun b => en_region h b.1) ((p, l_size l) :: bs)). rewrite filter_cons, decide_True by (by apply Hreg). by rewrite A5, B6, Hfil.
    + intros b a [->|Hb]%elem_of_cons; [intros Hn; by destruct Hn; apply Hreg|]. cbn. rewrite !Hreg. by apply B7.
    + intros a. cbn. rewrite Hreg. auto.
    + intros a L1 L2. destruct (B10 a L1 L2) as (? & Hn & Hnr). cbn. rewrite Hreg. split_and!; try done. intros [Ha|Ha]%ocupa_cons; [by apply Hnr, Hin|done].
  - pose proof B as [B1 B2 B3 B4 B5 B6 B7 B8 B9 B10]. split; try done.
    + cbn. by rewrite O5, B6, Hfil.
    + intros b a Hb. cbn. rewrite !Hreg. by apply B7.
    + intros a. cbn. rewrite Hreg. auto.
    + intros a L1 L2. cbn. rewrite Hreg. auto.
Qed.
(** A block that goes back to the list. *)
Lemma devuelve_spec bs s p l : montado ((p, l_size l) :: bs) s -> en_region (heap s) p ->
  hace (en_heap (fun h => (tt, heap_deallocate p l h))) s (fun _ s' => paso bs s s' ∧ montado bs s').
Proof.
  intros B Hp. apply hace_heap. intros [] h m Hrun. pose proof (b_lista _ _ _ _ _ B) as Hli. rewrite filter_cons, decide_True in Hli by done.
  pose proof (devuelve_ok (heap s) (memoria s) p l _ (b_heap _ _ _ _ _ B) Hli) as Hok. destruct (heap_deallocate p l _) as [h2 m2]. injection Hrun as -> ->.
  destruct Hok as (O1 & O2 & O3 & O4 & O5). assert (forall a, en_region h a <-> en_region (heap s) a) as Hreg by (intros a; unfold en_region; by rewrite O2, O3).
  assert (forall a, ocupa bs a -> ~ en_region (heap s) a ∨ ocupa (filter (fun b => en_region (heap s) b.1) bs) a) as Hdif.
  { intros a (b & Hb & Ha). destruct (decide (en_region (heap s) b.1)) as [Hr|Hr]; [right|left; apply (b_fuera _ _ _ _ _ B b); [by right|done|done]].
    exists b. split; [by apply list_elem_of_filter|done]. }
  split; [split; [done|]; intros a Ha; cbn; split; [by apply O5, Hdif|done]|].
  assert (filter (fun b => en_region h b.1) bs = filter (fun b => en_region (heap s) b.1) bs) as Hfil by (apply filter_en_lista; intros b _; apply Hreg).
  destruct B as [B1 B2 B3 [B4 B4'] B5 B6 B7 B8 B9 B10]. split; try done.
  - intros b Hb. apply B3. by right.
  - intros a Ha. apply B5, ocupa_cons. by right.
  - cbn. by rewrite O4, Hfil.
  - intros b a Hb. cbn. rewrite !Hreg. apply B7. by right.
  - intros a. cbn. rewrite Hreg. auto.
  - intros a L1 L2. cbn. rewrite Hreg. destruct (B10 a L1 L2) as (? & Hn & ?). split_and!; try done. intros Ho. apply Hn, ocupa_cons. by right.
Qed.
(** The list grows over bytes nobody has. *)
Lemma extiende_spec bs s n : montado bs s -> (forall a, en (top (heap s), n) a -> suya (nucleo s) a ∧ ~ ocupa bs a ∧ ~ (cur (arena s) <= a ∧ a < a_end (arena s))) ->
  hace (en_heap (fun h => (tt, heap_extend n h))) s (fun _ s' => paso bs s s' ∧ montado bs s').
Proof.
  intros B Hn. apply hace_heap. intros [] h m Hrun. pose proof (extiende_ok (heap s) (memoria s) n (b_heap _ _ _ _ _ B)) as Hok.
  destruct (heap_extend n _) as [h2 m2]. injection Hrun as -> ->. destruct Hok as (O1 & O2 & O3 & O4 & O5).
  assert (forall a, en_region h a -> en_region (heap s) a ∨ en (top (heap s), n) a) as Hreg.
  { intros a [L1 L2]. rewrite O2 in L1. rewrite O3 in L2. unfold en_region, en. cbn. destruct (N.lt_ge_cases a (top (heap s))); [left|right]; lia. }
  assert (forall a, en_region (heap s) a -> en_region h a) as Hreg' by (intros a [L1 L2]; unfold en_region; rewrite O2, O3; lia).
  assert (forall a, ocupa bs a -> en_region h a <-> en_region (heap s) a) as Hst.
  { intros a Ho. split; [|auto]. intros [Hr|He]%Hreg; [done|]. by destruct (Hn a He) as (_ & ? & _). }
  split; [split; [done|]; intros a Ha; cbn; split; [|by apply Hst]; apply O5; rewrite (Hst a Ha); by apply (base_region_dif _ _ _ _ _ _ B)|].
  pose proof (filter_region bs (heap s) h _ _ _ B Hst) as Hfil. pose proof B as [B1 B2 B3 B4 B5 B6 B7 B8 B9 B10]. split; try done.
  - cbn. by rewrite O4, Hfil.
  - intros b a Hb Hr He. cbn in *. assert (ocupa bs a) as Ho by (by exists b). rewrite (Hst a Ho). apply (B7 b a Hb); [|done]. intros Hrb. by apply Hr, Hreg'.
  - intros a [Hr|He]%Hreg; [by apply B8|by apply Hn].
  - intros a L1 L2. cbn. destruct (B10 a L1 L2) as (? & ? & ?). split_and!; try done. intros [Hr|He]%Hreg; [done|]. destruct (Hn a He) as (_ & _ & Ha). by apply Ha.
Qed.

(** ** List, arena or kernel *)
(** The process has more bytes and nobody took them. *)
Lemma montado_mas bs s k m : montado bs s -> bien k -> (forall a, suya (nucleo s) a -> suya k a ∧ m a = memoria s a) ->
  montado bs (set_memoria m (set_nucleo k s)) ∧ paso bs s (set_memoria m (set_nucleo k s)).
Proof.
  intros B Hb Hs. split; [apply (base_mas _ _ _ _ (nucleo s)); [done|done|]; intros a Ha; by apply Hs|].
  apply paso_nucleo. intros a Ho. apply Hs. by apply (b_suyos _ _ _ _ _ B).
Qed.
Lemma pierde_nada k k' m m' a : pierde (suya k) (suya k') m m' 0 0 -> suya k a -> suya k' a ∧ m' a = m a.
Proof. intros [_ P] Ha. apply P; [done|]. intros [_ L]. cbn in L. lia. Qed.
(** The outcome of asking the list. *)
Definition de_lista bs l (o : option N) s' : Prop :=
  match o with None => montado bs s' | Some p => montado ((p, l_size l) :: bs) s' ∧ p mod l_align l = 0 ∧ en_region (heap s') p end.

Lemma de_la_lista_spec bs s l : montado bs s -> valida l -> l_size l < MMAP_ALLOC_MIN -> l_align l <= 4096 ->
  hace (de_la_lista l) s (fun o s' => paso bs s s' ∧ de_lista bs l o s').
Proof.
  intros B Hl Hs Ha. assert (HEAP_GROW_BYTES = 2 ^ 22 ∧ MMAP_ALLOC_MIN = 2 ^ 20 ∧ U64 = 2 ^ 64 ∧ 0 < 4096) as (C1 & C2 & C3 & C4) by done.
  unfold de_la_lista. pasos. eapply hace_mono; [by apply primero_spec|]. intros o s1 (P1 & N1 & _ & _ & O1). cbv beta. pasos.
  destruct o as [p|]; [by pasos|]. destruct (heap_brk s1); [|by pasos]. pasos. apply acaba_add64; [rewrite C3; lia|].
  pasos. apply hace_multiple; [done|rewrite C3; lia|]. cbv zeta.
  set (avance := N.max (redondo 4096 (l_size l + l_align l)) HEAP_GROW_BYTES).
  assert (0 < avance ∧ avance < 2 ^ 62) as [Q1 Q2].
  { pose proof (redondo_lt 4096 C4 (l_size l + l_align l)). unfold avance. lia. }
  assert (as_i64 avance = Z.of_N avance) as Hi by (unfold as_i64; by rewrite (proj2 (N.ltb_lt _ _)) by lia). rewrite Hi. clearbody avance. pasos.
  apply hace_nucleo. intros r k m Hrun. pose proof (sbrk_sube (nucleo s1) (memoria s1) avance (b_bien _ _ _ _ _ O1) Q1 Q2) as Hok. rewrite Hrun in Hok. destruct Hok as [Hb Hok].
  destruct (0 <? r)%Z.
  2: { destruct (montado_mas bs s1 k m O1 Hb) as [M1 M2]; [intros a; by apply pierde_nada|]. pasos. split; [by eapply paso_trans|done]. }
  destruct Hok as (R1 & R2 & G). pose proof (nuevos_fuera _ _ _ _ _ _ _ _ _ _ O1 G) as Hf.
  destruct (montado_mas bs s1 k m O1 Hb) as [M1 M2]; [intros a Hsu; split; [apply (g_su _ _ _ _ _ _ G); by left|by apply (g_mem _ _ _ _ _ _ G)]|].
  assert (paso bs s (set_memoria m (set_nucleo k s1))) as P2 by (by eapply paso_trans).
  destruct (N.eqb_spec (Z.to_N r) (top (heap s1))) as [E|E].
  - pasos. eapply hace_mono; [apply (extiende_spec bs _ avance M1)|].
    + intros a He. cbn [heap set_memoria set_nucleo] in He. rewrite <- E in He. destruct (Hf a He) as (? & ? & _ & ?). done.
    + intros [] s2 [P3 M3]. cbv beta. eapply hace_mono; [by apply (primero_spec bs)|]. intros o s3 (P4 & _ & _ & _ & O4). split; [|done]. eapply paso_trans; [done|]. by eapply paso_trans.
  - pasos. apply hace_nucleo. intros r2 k2 m2 Hrun2. pose proof (sbrk_baja k m avance Hb Q1 Q2) as Hok2. cbn [nucleo memoria set_memoria set_nucleo] in Hrun2. rewrite Hrun2 in Hok2.
    destruct Hok2 as [Hb2 [_ Hp]]. rewrite R2, <- R1, N.add_sub in Hp. pasos.
    destruct (montado_mas bs s1 k2 m2 O1 Hb2) as [M3 M4].
    { intros a Hsu. assert (~ en (Z.to_N r, avance) a) as Hne by (intros He; by apply (g_nuevo _ _ _ _ _ _ G) in He).
      destruct (Hp a) as [S1 S2]; [apply (g_su _ _ _ _ _ _ G); by left|done|]. split; [done|]. rewrite S2. by apply (g_mem _ _ _ _ _ _ G). }
    split; [|exact M3]. eapply paso_trans; [exact P1|exact M4].
Qed.

(** What a layout takes, and where it may be. *)
Definition reserva_base (l : Layout) : N := if grande l then redondo 4096 (l_size l) else l_size l.
Definition lugar (l : Layout) (p : N) s : Prop :=
  (grande l = true ∨ 4096 < l_align l -> ~ en_region (heap s) p) ∧ (grande l = true -> p mod 4096 = 0).
(** The kernel does not refuse a big block. *)
Definition sin_caida (l : Layout) s : Prop := grande l = true -> (0 < (mmap 0 (l_size l) U64_MAX 0 (nucleo s, memoria s)).1)%Z.

Lemma alloc_base_spec bs s l : montado bs s -> valida l -> sin_caida l s ->
  hace (alloc_base l) s (fun p s' => paso bs s s' ∧ entrega bs (reserva_base l) p s' (p mod l_align l = 0 ∧ lugar l p s')).
Proof.
  intros B Hl Hc. pose proof Hl as (Hp & Hs & Hm). pose proof (potencia_pos _ Hp). unfold alloc_base, reserva_base, sin_caida, lugar in *. destruct (grande l) eqn:Hg.
  - pasos. apply hace_nucleo. intros r k m Hrun. rewrite Hrun in Hc. destruct (mmap_bloque bs s (l_size l) r k m B Hs ltac:(lia) Hrun) as [Hpa Hr].
    specialize (Hc eq_refl). cbn [fst] in Hc. apply Z.ltb_lt in Hc. rewrite Hc in *. pasos. split; [done|]. destruct Hr as (R1 & _ & R3 & R4 & _). apply entrega_si; [done|].
    unfold grande in Hg. apply andb_true_iff in Hg as [_ Hg%N.leb_le]. split; [|done]. apply (mod_divide _ _ 4096); [done|by exists 12|done|done].
  - assert (hace (o ← (if l_align l <=? 4096 then de_la_lista l else mret None); match o with Some p => mret p | None => bump (l_size l) (N.max (l_align l) 16) end) s
      (fun p s' => paso bs s s' ∧ entrega bs (l_size l) p s' (p mod l_align l = 0 ∧ (false = true ∨ 4096 < l_align l -> ~ en_region (heap s') p) ∧ (false = true -> p mod 4096 = 0)))) as Hgo; [|pasos; exact Hgo].
    pasos. apply (hace_mono _ _ (fun o s' => paso bs s s' ∧ de_lista bs l o s' ∧ (o ≠ None -> l_align l <= 4096))).
    { destruct (N.leb_spec (l_align l) 4096) as [Hle|]; [|by apply hace_ret]. eapply hace_mono; [apply (de_la_lista_spec bs); [done|done| |done]|].
      - unfold grande in Hg. rewrite (proj2 (N.leb_le _ _) Hle), andb_true_r in Hg. by apply N.leb_gt.
      - intros o s' [? ?]. done. }
    intros [p|] s1 (P1 & O1 & A1); cbn [de_lista] in O1.
    + pasos. split; [done|]. destruct O1 as (O1 & O2 & O3). apply entrega_si; [done|]. split; [done|]. split; [|done]. intros [|Hbig]; [done|]. specialize (A1 ltac:(done)). lia.
    + assert (l_size l + N.max (l_align l) 16 <= 2 ^ 63) as Hsz.
      { unfold grande in Hg. assert (2 ^ 20 + 4096 <= 2 ^ 63 ∧ MMAP_ALLOC_MIN = 2 ^ 20) as [? Hmin] by done. destruct (N.leb_spec (l_align l) 4096); [|lia].
        rewrite andb_true_r in Hg. apply N.leb_gt in Hg. rewrite Hmin in Hg. lia. }
      eapply hace_mono; [apply (bump_spec bs); [done|done|by apply potencia_max|done]|]. intros p s2 (P2 & _ & E2). split; [by eapply paso_trans|].
      unfold entrega in *. destruct (p =? 0); [done|]. destruct E2 as (E2 & E3 & E4). split; [done|]. split; [|done].
      apply (mod_divide _ _ (N.max (l_align l) 16)); [done|by apply potencia_max|lia|done].
Qed.

Lemma en_region_run s p (Φ : bool -> Estado -> Prop) : p ≠ 0 -> (forall b : bool, (b = true <-> en_region (heap s) p) -> Φ b s) -> hace (ptr_in_linked_heap p) s Φ.
Proof.
  intros Hp HΦ. apply hace_gets, HΦ. rewrite (proj2 (N.eqb_neq _ _) Hp). unfold en_region. cbn. by rewrite andb_true_iff, N.leb_le, N.ltb_lt.
Qed.
Lemma dealloc_base_spec bs s p l : montado ((p, reserva_base l) :: bs) s -> valida l -> lugar l p s ->
  hace (dealloc_base p l) s (fun _ s' => paso bs s s' ∧ montado bs s').
Proof.
  intros B (Hp & Hs & Hm) [G1 G2]. destruct (base_dir _ _ _ _ _ _ _ B) as (D1 & D2 & D3). pose proof (potencia_pos _ Hp).
  assert (2 ^ 63 + 4096 <= U64 ∧ 0 < 4096) as [C1 C2] by done. unfold dealloc_base, reserva_base in *. destruct (grande l).
  - pasos. apply hace_multiple; [done|lia|]. pasos. apply hace_nucleo. intros r k m Hrun. pasos.
    pose proof (munmap_ok (nucleo s) (memoria s) p (redondo 4096 (l_size l)) (b_bien _ _ _ _ _ B) (G2 eq_refl) ltac:(lia) D3 (redondo_min 4096 C2 (l_size l) (2 ^ 63) ltac:(lia) ltac:(done)) (redondo_mod 4096 C2 _)) as Hok.
    rewrite Hrun in Hok. destruct Hok as [Hb Hpi]. split; [|apply (base_menos p (redondo 4096 (l_size l)) _ _ _ _ (nucleo s) k (memoria s) m); [done|by apply G1; left|done|done]].
    apply paso_nucleo. intros a Ho. apply (proj2 Hpi); [apply (b_suyos _ _ _ _ _ B), ocupa_cons; by right|]. intros He. by destruct (base_cabe _ _ _ _ _ _ a B He) as (_ & _ & _ & Hn).
  - pasos. apply en_region_run; [lia|]. intros b Hb. destruct ((l_align l <=? 4096) && b) eqn:E.
    + apply andb_true_iff in E as [_ ->]. apply devuelve_spec; [done|]. by apply Hb.
    + eapply hace_mono; [apply (arena_dealloc_spec bs); [done|]|by intros ? s' (? & _ & _ & ?)].
      apply andb_false_iff in E as [E%N.leb_gt| ->]; [apply G1; by right|]. intros Hr. discriminate (proj2 Hb Hr).
Qed.

(** ** A block of the arena that changes size *)
Lemma copiar_dentro m src dst n i : i < n -> copiar m src dst n (dst + i) = m (src + i).
Proof.
  intros Hi. unfold copiar. rewrite (proj2 (N.leb_le _ _)), (proj2 (N.ltb_lt _ _)) by lia. cbn. f_equal. lia.
Qed.
Lemma copiar_fuera m src dst n a : ~ en (dst, n) a -> copiar m src dst n a = m a.
Proof. intros Hn. unfold copiar. destruct (N.leb_spec dst a), (N.ltb_spec a (dst + n)); try done. exfalso. apply Hn. unfold en. cbn. lia. Qed.

Lemma arena_realloc_spec bs s p l n : montado ((p, l_size l) :: bs) s -> ~ en_region (heap s) p -> valida l -> p mod l_align l = 0 -> 0 < n -> n + N.max (l_align l) 16 <= 2 ^ 63 ->
  hace (arena_realloc p l n) s (fun q s' => paso bs s s' ∧ heap s' = heap s ∧
    if q =? 0 then montado ((p, l_size l) :: bs) s' ∧ forall i, i < l_size l -> memoria s' (p + i) = memoria s (p + i)
    else montado ((q, n) :: bs) s' ∧ q mod l_align l = 0 ∧ ~ en_region (heap s') q ∧ forall i, i < N.min (l_size l) n -> memoria s' (q + i) = memoria s (p + i)).
Proof.
  intros B Hr Hl Ha Hn Hm. pose proof Hl as (Hp & Hs & _). destruct (base_dir _ _ _ _ _ _ _ B) as (D1 & D2 & _). pose proof (potencia_pos _ Hp).
  assert (2 ^ 47 + 2 ^ 63 < U64) as C1 by done. unfold arena_realloc. pasos. apply acaba_add64; [lia|]. pasos. apply acaba_add64; [lia|].
  destruct (es_ultimo (arena s) p (p + l_size l) && (p + n <=? a_end (arena s))) eqn:E.
  - apply andb_true_iff in E as [E E4%N.leb_le]. unfold es_ultimo in E. apply andb_true_iff in E as [E E3%N.eqb_eq]. apply andb_true_iff in E as [E1%N.eqb_eq E2%N.eqb_eq].
    pasos. split; [done|]. split; [done|]. destruct (N.eqb_spec p 0); [lia|]. unfold montado in *. rewrite E3, <- E2 in B. pose proof (base_suelta _ _ _ _ _ _ B Hr) as B'.
    destruct (base_toma p n _ _ _ _ _ B' ltac:(lia) Hn E4) as [B2 _]. done.
  - pasos. unfold arena_alloc. cbn [l_size l_align]. eapply hace_mono; [apply (bump_spec ((p, l_size l) :: bs)); [done|done|by apply potencia_max|done]|].
    intros q s1 (P1 & H1' & E1). cbv beta. unfold entrega in E1. destruct (N.eqb_spec q 0) as [->|Hq].
    + pasos. split; [by eapply paso_mono; [|exact P1]; intros a Ho; apply ocupa_cons; right|]. split; [done|]. cbn. split; [done|].
      intros i Hi. apply P1. apply ocupa_cons. left. unfold en. cbn. lia.
    + destruct E1 as (E1 & E2 & E3). pasos. set (s2 := set_memoria _ s1).
      assert (montado ((p, l_size l) :: (q, n) :: bs) s2) as B2 by (apply (base_perm ((q, n) :: (p, l_size l) :: bs)); [apply perm_swap|exact E1]).
      eapply hace_mono; [apply (arena_dealloc_spec ((q, n) :: bs)); [exact B2|cbn; by rewrite H1']|].
      intros [] s3 (P3 & H3' & M3 & B3). cbv beta. apply hace_ret. assert (heap s3 = heap s) as Hh by (by rewrite H3').
      split; [|split; [done|]].
      * split; [rewrite (proj1 P3); apply (proj1 P1)|]. intros a Ho. rewrite Hh, M3. split; [|done]. cbn. rewrite copiar_fuera; [apply P1, ocupa_cons; by right|].
        intros [L1 L2]. cbn in L1, L2. destruct (base_cabe _ _ _ _ _ _ a E1) as (_ & _ & _ & Hno); [unfold en; cbn; lia|]. apply Hno, ocupa_cons. by right.
      * destruct (N.eqb_spec q 0); [done|]. split; [done|]. split; [apply (mod_divide _ _ (N.max (l_align l) 16)); [done|by apply potencia_max|lia|done]|].
        split; [by rewrite Hh, <- H1'|]. intros i Hi. rewrite M3. cbn. rewrite copiar_dentro by done. apply P1, ocupa_cons. left. unfold en. cbn. lia.
Qed.
End Base.
