(* ===== verification/MontonClases.v ===== *)
(** * The heap of a program: small blocks by class

    The blocks in the hands of the program, those kept to be used again, and what
    each call does to them. *)
From S2P Require Import Prelude Monton MontonInv.
Local Open Scope N_scope.
#[local] Set Default Proof Using "Type*".

(** ** Chains of free blocks *)
(** Each one holds the address of the next in its first bytes. *)
Fixpoint cadena (m : Bytes) (p : N) (l : list N) : Prop :=
  match l with [] => p = 0 | q :: l => p = q ∧ q ≠ 0 ∧ cadena m (leer_ptr m q) l end.
Lemma leer_ext m m' p : (forall i, i < 8 -> m' (p + i) = m (p + i)) -> leer_ptr m' p = leer_ptr m p.
Proof. intros Hm. unfold leer_ptr. f_equal. apply list_fmap_ext. intros _ i Hi%list_elem_of_lookup_2%elem_of_upto. auto. Qed.
Lemma cadena_ext m m' l p : (forall q i, q ∈ l -> i < 8 -> m' (q + i) = m (q + i)) -> cadena m p l -> cadena m' p l.
Proof.
  revert p. induction l as [|q l IH]; intros p Hm; [done|]. cbn. intros (-> & Hq & Hc). split_and!; [done|done|].
  rewrite (leer_ext m) by (intros i Hi; apply Hm; [left|done]). apply IH; [|done]. intros x i Hx. apply Hm. by right.
Qed.
Lemma escribir_dentro m p bs i : i < lenN bs -> escribir m p bs (p + i) = default x00 (bs !! N.to_nat i).
Proof.
  intros Hi. unfold escribir. rewrite (proj2 (N.leb_le _ _)) by lia. replace (p + i - p) with i by lia.
  destruct (lookup_lt_is_Some_2 bs (N.to_nat i)) as [b ->]; [|done]. unfold lenN in Hi. lia.
Qed.
Lemma escribir_fuera m p bs a : ~ en (p, lenN bs) a -> escribir m p bs a = m a.
Proof.
  intros Hn. unfold escribir. destruct (N.leb_spec p a); [|done]. rewrite lookup_ge_None_2; [done|]. unfold en, lenN in *. cbn in Hn. lia.
Qed.
Lemma leer_escribir m p v : v < U64 -> leer_ptr (escribir_ptr m p v) p = v.
Proof.
  intros Hv. transitivity (le_val (le_bytes 8 v)); [|by apply le_val_bytes]. unfold leer_ptr, escribir_ptr. f_equal.
  pose proof (le_bytes_length 8 v) as Hlen. revert Hlen. generalize (le_bytes 8 v). clear. intros bs Hlen.
  do 8 (destruct bs as [|? bs]; [done|]). destruct bs; [|done]. change (upto 8) with [0; 1; 2; 3; 4; 5; 6; 7]. cbn [fmap list_fmap].
  by rewrite !escribir_dentro.
Qed.

(** ** Blocks by class *)
Definition pon {X} (cs : N -> X) (c : N) (x : X) : N -> X := fun d => if d =? c then x else cs d.
Definition cacheados (cs : N -> list N) : list (N * N) := upto N_CLASES ≫= fun c => (fun p => (p, (c + 1) * 16)) <$> cs c.
Lemma upto_saca n c : c < n -> exists r, upto n ≡ₚ c :: r ∧ c ∉ r.
Proof.
  intros Hc. destruct (list_elem_of_split (upto n) c (proj2 (elem_of_upto c n) Hc)) as (l1 & l2 & Hl).
  exists (l1 ++ l2). split; [rewrite Hl; by rewrite <- Permutation_middle|].
  assert (NoDup (upto n)) as Hn by (apply NoDup_fmap_2; [intros ?? ?; lia|apply NoDup_seq]). rewrite Hl in Hn.
  rewrite <- Permutation_middle in Hn. by apply NoDup_cons in Hn as [? _].
Qed.
Lemma cacheados_pon cs c x l : c < N_CLASES -> cacheados (pon cs c (x :: l)) ≡ₚ (x, (c + 1) * 16) :: cacheados (pon cs c l).
Proof.
  intros Hc. destruct (upto_saca N_CLASES c Hc) as (r & Hr & Hn). unfold cacheados. rewrite Hr. cbn [mbind list_bind]. unfold pon at 1 3. rewrite N.eqb_refl. cbn [fmap list_fmap app].
  f_equiv. f_equiv. assert (forall l', r ≫= (fun d => (fun p => (p, (d + 1) * 16)) <$> pon cs c l' d) = r ≫= (fun d => (fun p => (p, (d + 1) * 16)) <$> cs d)) as Ho; [|by rewrite !Ho].
  intros l'. revert Hn. clear. induction r as [|d r IH]; intros Hn; [done|]. apply not_elem_of_cons in Hn as [Hd Hn]. cbn [mbind list_bind]. rewrite IH by done.
  unfold pon. by rewrite (proj2 (N.eqb_neq _ _)) by done.
Qed.
Lemma pon_igual {X} (cs : N -> X) c d : pon cs c (cs c) d = cs d.
Proof. unfold pon. by destruct (N.eqb_spec d c) as [->|]. Qed.
Lemma cacheados_ext cs ds : (forall c, cs c = ds c) -> cacheados cs = cacheados ds.
Proof. intros He. unfold cacheados. induction (upto N_CLASES) as [|c l IH]; [done|]. cbn [mbind list_bind]. by rewrite He, IH. Qed.
Lemma cacheados_en cs c q : c < N_CLASES -> q ∈ cs c -> (q, (c + 1) * 16) ∈ cacheados cs.
Proof. intros Hc Hq. apply list_elem_of_bind. exists c. split; [apply list_elem_of_fmap; eauto|by apply elem_of_upto]. Qed.

(** The bytes set aside for a layout. *)
Definition reserva (l : Layout) : N := match clase_de l with Some c => (c + 1) * 16 | None => reserva_base l end.
(** Where it may start. *)
Definition alineado (l : Layout) : N := match clase_de l with Some _ => 16 | None => l_align l end.
Definition vivos (v : list (N * Layout)) : list (N * N) := (fun x => (x.1, reserva x.2)) <$> v.
Definition bloques (v : list (N * Layout)) (cs : N -> list N) : list (N * N) := vivos v ++ cacheados cs.
#[export] Instance bloques_perm : Proper ((≡ₚ) ==> (=) ==> (≡ₚ)) bloques.
Proof. intros v w Hp cs ? <-. unfold bloques, vivos. by rewrite Hp. Qed.

Lemma clase_spec l c : clase_de l = Some c -> c < N_CLASES ∧ l_size l <= (c + 1) * 16 ∧ 16 <= (c + 1) * 16 ∧ l_align l <= 16 ∧ (c + 1) * 16 <= CLASE_MAX.
Proof.
  unfold clase_de. destruct (_ && _) eqn:Hc; [|done]. apply andb_true_iff in Hc as [H1%N.leb_le H2%N.leb_le]. intros [= <-].
  assert (N_CLASES = 64 ∧ CLASE_MAX = 1024) as [E1 E2] by done. rewrite E1, E2 in *.
  pose proof (div_ceil_mul (N.max (l_size l) 1) 16 ltac:(done)). pose proof (div_ceil_le (N.max (l_size l) 1) 16 64 ltac:(done) ltac:(lia)). lia.
Qed.
Lemma reserva_cabe l : l_size l <= reserva l.
Proof.
  unfold reserva. destruct (clase_de l) as [c|] eqn:Hc; [by apply clase_spec in Hc as (_ & ? & _)|]. unfold reserva_base. destruct (grande l); [by apply redondo_ge|done].
Qed.
Lemma clase_chica l c : clase_de l = Some c -> grande l = false.
Proof.
  intros Hc%clase_spec. unfold grande. assert (CLASE_MAX < MMAP_ALLOC_MIN) by done. rewrite (proj2 (N.leb_gt _ _)); [done|]. lia.
Qed.

Section Clases.
Context {K H : Type} `{OpsSpec K, HeapSpec H}.
Implicit Types (s : Estado (K := K) (H := H)) (v : list (N * Layout)) (cs : N -> list N).

(** [v] is what the program has and [cs] the blocks kept by class. *)
Record en_orden v cs s : Prop := {
  e_base : montado (bloques v cs) s;
  e_vivos : forall p l, (p, l) ∈ v -> valida l ∧ p mod alineado l = 0 ∧ lugar l p s;
  e_cabeza : length (cabeza s) = N.to_nat N_CLASES;
  e_cadenas : forall c, c < N_CLASES -> exists p, cabeza s !! N.to_nat c = Some p ∧ cadena (memoria s) p (cs c) ∧ Forall (fun q => q mod 16 = 0) (cs c);
}.
(** The bytes of the blocks of [v] are as they were. *)
Definition conserva v s s' : Prop := forall a, ocupa (vivos v) a -> memoria s' a = memoria s a.

Lemma orden_perm v w cs s : v ≡ₚ w -> en_orden v cs s -> en_orden w cs s.
Proof.
  intros Hp []. split; [by apply (base_perm (bloques v cs)); [rewrite Hp|]| |done|done]. intros p l. rewrite <- Hp. auto.
Qed.
Lemma bloques_cons p l v cs : bloques ((p, l) :: v) cs = (p, reserva l) :: bloques v cs.
Proof. done. Qed.
Lemma ocupa_vivos v cs a : ocupa (vivos v) a -> ocupa (bloques v cs) a.
Proof. intros Ha. apply ocupa_app. by left. Qed.
Lemma ocupa_vivo v p l i : (p, l) ∈ v -> i < reserva l -> ocupa (vivos v) (p + i).
Proof. intros Hv Hi. exists (p, reserva l). split; [apply list_elem_of_fmap; by exists (p, l)|]. unfold en. cbn. lia. Qed.
Lemma ocupa_cacheado v cs c q i : c < N_CLASES -> q ∈ cs c -> i < 8 -> ocupa (bloques v cs) (q + i).
Proof.
  intros Hc Hq Hi. apply ocupa_app. right. exists (q, (c + 1) * 16). split; [by apply cacheados_en|]. unfold en. cbn. lia.
Qed.
Lemma lugar_paso l p bs s s' : paso bs s s' -> ocupa bs p -> lugar l p s -> lugar l p s'.
Proof. intros [_ P] Ho [L1 L2]. split; [|done]. intros Hl. rewrite (proj2 (P p Ho)). auto. Qed.
Lemma vivo_ocupa v cs p l : (p, l) ∈ v -> 0 < l_size l -> ocupa (bloques v cs) p.
Proof.
  intros Hv Hl. apply ocupa_vivos. rewrite <- (N.add_0_r p). apply (ocupa_vivo v p l); [done|]. pose proof (reserva_cabe l). lia.
Qed.
(** What the base did, seen by the blocks of the program and the chains. *)
Lemma orden_sube z v w cs s s' : en_orden (z ++ v) cs s -> paso (bloques v cs) s s' -> montado (bloques w cs) s' ->
  (forall p l, (p, l) ∈ w -> (p, l) ∈ v ∨ valida l ∧ p mod alineado l = 0 ∧ lugar l p s') -> en_orden w cs s'.
Proof.
  intros [B V C D] P B' Hw. split; [done| |by rewrite (proj1 P)|].
  - intros p l [Hv|?]%Hw; [|done]. destruct (V p l) as (V1 & V2 & V3); [by apply elem_of_app; right|]. split; [done|]. split; [done|].
    apply (lugar_paso l p (bloques v cs) s); [done| |done]. by apply (vivo_ocupa v cs p l); [|apply V1].
  - intros c Hc. destruct (D c Hc) as (p & Hp & Hd & Ha). exists p. split; [by rewrite (proj1 P)|]. split; [|done]. apply (cadena_ext (memoria s)); [|done].
    intros q i Hq Hi. by apply P, (ocupa_cacheado v cs c).
Qed.
Lemma paso_conserva v cs s s' : paso (bloques v cs) s s' -> conserva v s s'.
Proof. intros P a Ha. by apply P, ocupa_vivos. Qed.
(** Writing inside a block of the program. *)
Lemma orden_escribe v cs s p l m : en_orden ((p, l) :: v) cs s -> (forall a, ~ en (p, reserva l) a -> m a = memoria s a) ->
  en_orden ((p, l) :: v) cs (set_memoria m s) ∧ conserva v s (set_memoria m s).
Proof.
  intros [B V C D] Hm. assert (forall a, ocupa (bloques v cs) a -> m a = memoria s a) as Ho.
  { intros a Ha. apply Hm. intros He. by destruct (base_cabe _ _ _ _ _ _ a B He) as (_ & _ & _ & Hn). }
  split; [|intros a Ha; by apply Ho, ocupa_vivos]. split; [done|done|done|].
  intros c Hc. destruct (D c Hc) as (q & Hq & Hd & Ha). exists q. split; [done|]. split; [|done]. apply (cadena_ext (memoria s)); [|done]. intros x i Hx Hi. by apply Ho, (ocupa_cacheado v cs c).
Qed.

(** ** The calls *)
Lemma mem_clase {A} s c cs v (f : N -> M (Estado (K := K) (H := H)) unit A) (Φ : A -> Estado -> Prop) : en_orden v cs s -> c < N_CLASES ->
  (forall p, cabeza s !! N.to_nat c = Some p -> cadena (memoria s) p (cs c) -> Forall (fun q => q mod 16 = 0) (cs c) -> hace (f p) s Φ) -> hace (of_option panic (cabeza s !! N.to_nat c) ≫= f) s Φ.
Proof. intros E Hc Hf. destruct (e_cadenas _ _ _ E c Hc) as (p & Hp & Hd & Ha). rewrite Hp. apply hace_bind, hace_ret. by apply Hf. Qed.
Definition en_cadena (m : Bytes) (p : N) (l : list N) : Prop := cadena m p l ∧ Forall (fun q => q mod 16 = 0) l.
Lemma cabeza_pon (cab : list N) c x l cs m : length cab = N.to_nat N_CLASES -> c < N_CLASES -> en_cadena m x l ->
  (forall d, d < N_CLASES -> d ≠ c -> exists q, cab !! N.to_nat d = Some q ∧ en_cadena m q (cs d)) ->
  forall d, d < N_CLASES -> exists q, <[N.to_nat c := x]> cab !! N.to_nat d = Some q ∧ en_cadena m q (pon cs c l d).
Proof.
  intros Hlen Hc Hl Ho d Hd. unfold pon. destruct (N.eqb_spec d c) as [->|Hne]; [exists x; split; [|done]; apply list_lookup_insert_eq; lia|].
  rewrite list_lookup_insert_ne by lia. auto.
Qed.
(** What [alloc] and [realloc] answer: the null pointer and nothing given, or
    one more block. *)
Definition nuevo_vivo v p l s' : Prop := exists cs, if p =? 0 then en_orden v cs s' else en_orden ((p, l) :: v) cs s'.

Lemma entrega_orden v cs s s' p l n : en_orden v cs s -> paso (bloques v cs) s s' -> valida l -> n = reserva l ->
  entrega (bloques v cs) n p s' (p mod alineado l = 0 ∧ lugar l p s') -> nuevo_vivo v p l s' ∧ conserva v s s'.
Proof.
  intros E P Hl -> Hen. split; [|by apply (paso_conserva v cs)]. unfold entrega, nuevo_vivo in *. exists cs. destruct (p =? 0).
  - apply (orden_sube [] v v cs s); auto.
  - destruct Hen as (B & Ha & Hlu). apply (orden_sube [] v _ cs s); [done|done|done|]. intros q m [[= -> ->]|Hv]%elem_of_cons; auto.
Qed.

Lemma alloc_spec v cs s l : en_orden v cs s -> valida l -> sin_caida l s -> hace (alloc l) s (fun p s' => nuevo_vivo v p l s' ∧ conserva v s s').
Proof.
  intros E Hl Hc. unfold alloc. destruct (clase_de l) as [c|] eqn:Hcl.
  2: { eapply hace_mono; [apply (alloc_base_spec (bloques v cs)); [apply E|done|done]|]. intros p s' [P He]. apply (entrega_orden v cs s s' p l (reserva_base l)); try done.
       - unfold reserva. by rewrite Hcl.
       - unfold alineado. by rewrite Hcl. }
  assert (reserva l = (c + 1) * 16) as Hres by (unfold reserva; by rewrite Hcl). pose proof (clase_chica _ _ Hcl) as Hgr.
  assert (alineado l = 16) as Hal by (unfold alineado; by rewrite Hcl).
  destruct (clase_spec l c Hcl) as (C1 & C2 & C3 & C4 & C5). apply hace_bind, hace_gets. cbv beta. apply (mem_clase s c cs v); [done|done|].
  intros p Hp Hcad Hali. destruct (N.eqb_spec p 0) as [->|Hp0].
  - assert (potencia 16) as H16 by (by exists 4). assert (CLASE_MAX + 16 <= 2 ^ 63) as Hmax by done.
    set (l' := mkLayout ((c + 1) * 16) 16). assert (grande l' = false) as Hg.
    { unfold grande. cbn [l_size l_align l']. assert (CLASE_MAX < MMAP_ALLOC_MIN) by done. rewrite (proj2 (N.leb_gt _ _)); [done|lia]. }
    eapply hace_mono; [apply (alloc_base_spec (bloques v cs) s l'); [apply E|split_and!; [done|cbn; lia|cbn; lia]|by unfold sin_caida; rewrite Hg]|].
    intros p s' [P He]. unfold reserva_base in He. rewrite Hg in He. apply (entrega_orden v cs s s' p l ((c + 1) * 16)); [done|done|done|done|].
    unfold entrega in *. destruct (p =? 0); [done|]. destruct He as (B & Ha & _). split; [exact B|]. split.
    + rewrite Hal. exact Ha.
    + split; rewrite Hgr; [|done]. intros [|Hbig]; [done|]. lia.
  - destruct (cs c) as [|q r] eqn:Hcs; [done|]. destruct Hcad as (-> & _ & Hr). apply Forall_cons in Hali as [Ha1 Ha2]. apply hace_bind, hace_modify, hace_ret.
    split; [|done]. exists (pon cs c r). rewrite (proj2 (N.eqb_neq _ _) Hp0). destruct E as [B V C D].
    assert (bloques v cs ≡ₚ bloques ((q, l) :: v) (pon cs c r)) as Hb.
    { rewrite bloques_cons, Hres. unfold bloques. rewrite Permutation_middle. apply Permutation_app_head. rewrite <- cacheados_pon by done. rewrite <- Hcs.
      by rewrite (cacheados_ext (pon cs c (cs c)) cs) by (intros d; apply pon_igual). }
    assert (montado (bloques ((q, l) :: v) (pon cs c r)) s) as B' by (by apply (base_perm (bloques v cs))). split; [done| |cbn; by rewrite length_insert|].
    + intros x m [[= -> ->]|Hv]%elem_of_cons; [|by apply V]. rewrite Hal. split; [done|]. split; [done|]. split; rewrite Hgr; [|done]. intros [|Hbig]; [done|lia].
    + apply cabeza_pon; [done|done|done|]. intros d Hd _. by apply D.
Qed.

Lemma alloc_zeroed_spec v cs s l : en_orden v cs s -> valida l -> sin_caida l s ->
  hace (alloc_zeroed l) s (fun p s' => nuevo_vivo v p l s' ∧ conserva v s s' ∧ (p ≠ 0 -> forall i, i < l_size l -> memoria s' (p + i) = x00)).
Proof.
  intros E Hl Hc. unfold alloc_zeroed. apply hace_bind. eapply hace_mono; [by apply (alloc_spec v cs)|]. intros p s1 [[cs1 E1] C1]. cbv beta.
  apply hace_bind. destruct (N.eqb_spec p 0) as [->|Hp]; [apply hace_ret, hace_ret; split; [by exists cs1|]; done|].
  apply hace_modify, hace_ret. set (m := escribir _ _ _). pose proof (reserva_cabe l).
  destruct (orden_escribe v cs1 s1 p l m E1) as [E2 C2].
  { intros a Ha. unfold m. apply escribir_fuera. rewrite lenN_zeros. unfold en in *. cbn in *. lia. }
  split; [exists cs1; by rewrite (proj2 (N.eqb_neq _ _) Hp)|]. split; [intros a Ha; etrans; [by apply C2|by apply C1]|].
  intros _ i Hi. cbn. unfold m. rewrite escribir_dentro by (by rewrite lenN_zeros). unfold zeros. destruct (replicate _ _ !! _) as [b|] eqn:Hb; [|done]. by apply lookup_replicate in Hb as [-> _].
Qed.

Lemma dealloc_spec v cs s p l : en_orden ((p, l) :: v) cs s -> hace (dealloc p l) s (fun _ s' => (exists cs', en_orden v cs' s') ∧ conserva v s s').
Proof.
  intros E. destruct (e_vivos _ _ _ E p l (list_elem_of_here _ _)) as (Hl & Ha & Hlu). pose proof (e_base _ _ _ E) as B. rewrite bloques_cons in B.
  unfold dealloc. destruct (clase_de l) as [c|] eqn:Hcl.
  - destruct (clase_spec l c Hcl) as (C1 & C2 & C3 & C4 & C5). apply hace_bind, hace_gets. cbv beta. apply (mem_clase s c cs ((p, l) :: v)); [done|done|].
    intros q Hq Hcad Hali. apply hace_modify. assert (reserva l = (c + 1) * 16) as Hres by (unfold reserva; by rewrite Hcl). assert (alineado l = 16) as Hal by (unfold alineado; by rewrite Hcl).
    destruct (base_dir _ _ _ _ _ _ _ B) as (D1 & D2 & _). set (m := escribir_ptr (memoria s) p q).
    assert (forall a, ~ en (p, reserva l) a -> m a = memoria s a) as Hm.
    { intros a Hn. unfold m, escribir_ptr. apply escribir_fuera. unfold lenN. rewrite le_bytes_length, Hres in *. unfold en in *. cbn [fst snd] in *. lia. }
    assert (forall a, ocupa (bloques v cs) a -> m a = memoria s a) as Ho.
    { intros a Hoc. apply Hm. intros He. by destruct (base_cabe _ _ _ _ _ _ a B He) as (_ & _ & _ & Hn). }
    split; [|intros a Hoc; by apply Ho, ocupa_vivos]. exists (pon cs c (p :: cs c)).
    assert ((p, reserva l) :: bloques v cs ≡ₚ bloques v (pon cs c (p :: cs c))) as Hb.
    { rewrite Hres. unfold bloques. rewrite Permutation_middle. apply Permutation_app_head. rewrite cacheados_pon by done. by rewrite (cacheados_ext (pon cs c (cs c)) cs) by (intros d; apply pon_igual). }
    destruct E as [_ V C D]. split; [by apply (base_perm ((p, reserva l) :: bloques v cs))|intros x y Hv; apply V; by right|cbn; by rewrite length_insert|].
    assert (forall d z, d < N_CLASES -> cadena (memoria s) z (cs d) -> cadena m z (cs d)) as Hext.
    { intros d z Hd. apply cadena_ext. intros x i Hx Hi. by apply Ho, (ocupa_cacheado v cs d). }
    apply cabeza_pon; [done|done| |].
    + split; [|constructor; [by rewrite Hal in Ha|done]]. cbn. split; [done|]. split; [lia|]. assert (leer_ptr m p = q) as ->; [apply leer_escribir|by apply (Hext c)].
      destruct (cs c) as [|x r] eqn:Hcs; [cbn in Hcad; by subst|]. destruct Hcad as (-> & _ & _).
      assert (ocupa (bloques v cs) x) as Hox by (rewrite <- (N.add_0_r x); apply (ocupa_cacheado v cs c); [done|rewrite Hcs; by left|done]).
      destruct (suya_rango (nucleo s) x (b_bien _ _ _ _ _ B)) as [_ Hlt]; [apply (b_suyos _ _ _ _ _ B), ocupa_cons; by right|]. by etrans.
    + intros d Hd _. destruct (D d Hd) as (z & Hz & Hc1 & Hc2). exists z. split; [done|]. split; [by apply Hext|done].
  - assert (reserva l = reserva_base l) as Hres by (unfold reserva; by rewrite Hcl). rewrite Hres in B.
    eapply hace_mono; [by apply (dealloc_base_spec (bloques v cs))|]. intros _ s' [P B']. split; [|by apply (paso_conserva v cs)]. exists cs.
    apply (orden_sube [(p, l)] v v cs s); auto.
Qed.

(** ** Changing the size of a block *)
(** The answer of [realloc]: the null pointer and the block as it was, or a block
    with the bytes both have. *)
Definition mudado v p l nuevo q s s' : Prop :=
  conserva v s s' ∧ exists cs,
  if q =? 0 then en_orden ((p, l) :: v) cs s' ∧ forall i, i < l_size l -> memoria s' (p + i) = memoria s (p + i)
  else en_orden ((q, nuevo) :: v) cs s' ∧ forall i, i < N.min (l_size l) (l_size nuevo) -> memoria s' (q + i) = memoria s (p + i).

Lemma conserva_cons b v s s' : conserva (b :: v) s s' -> conserva v s s'.
Proof. intros C a Ha. apply C. apply ocupa_cons. by right. Qed.
Lemma conserva_byte v s s' p l i : conserva v s s' -> (p, l) ∈ v -> i < l_size l -> memoria s' (p + i) = memoria s (p + i).
Proof. intros C Hv Hi. apply C, (ocupa_vivo v p l); [done|]. pose proof (reserva_cabe l). lia. Qed.

Lemma mudar_spec v cs s p l nuevo : en_orden ((p, l) :: v) cs s -> valida nuevo -> sin_caida nuevo s ->
  hace (mudar alloc dealloc p l nuevo) s (fun q s' => mudado v p l nuevo q s s').
Proof.
  intros E Hn Hc. pose proof (e_base _ _ _ E) as B. rewrite bloques_cons in B. destruct (base_dir _ _ _ _ _ _ _ B) as (D1 & _ & _).
 unfold mudar. apply hace_bind. eapply hace_mono; [by apply (alloc_spec ((p, l) :: v) cs)|].
  intros q s1 [[cs1 E1] C1]. cbv beta. rewrite (proj2 (N.eqb_neq p 0)), orb_false_r by lia. destruct (N.eqb_spec q 0) as [->|Hq].
  - apply hace_ret. split; [by apply (conserva_cons (p, l))|]. exists cs1. split; [done|]. intros i Hi. apply (conserva_byte _ _ _ p l i C1); [by left|done].
  - apply hace_bind, hace_modify. set (m := copiar _ _ _ _). pose proof (reserva_cabe nuevo).
    destruct (orden_escribe ((p, l) :: v) cs1 s1 q nuevo m E1) as [E2 C2].
    { intros a Ha. unfold m. apply copiar_fuera. unfold en in *. cbn in *. lia. }
    apply (orden_perm _ ((p, l) :: (q, nuevo) :: v)) in E2; [|apply perm_swap]. apply hace_bind. eapply hace_mono; [exact (dealloc_spec ((q, nuevo) :: v) cs1 _ p l E2)|].
    intros [] s3 [[cs3 E3] C3]. cbv beta. apply hace_ret. split.
    + intros a Ha. rewrite (conserva_cons _ _ _ _ C3 a Ha), (conserva_cons _ _ _ _ C2 a Ha). by apply (conserva_cons _ _ _ _ C1).
    + exists cs3. rewrite (proj2 (N.eqb_neq _ _) Hq). split; [done|]. intros i Hi. rewrite (conserva_byte _ _ _ q nuevo i C3) by (by left || lia). cbn. unfold m.
      rewrite copiar_dentro by done. apply (conserva_byte _ _ _ p l i C1); [by left|lia].
Qed.

(** A block of the arena does not grow to the size the kernel serves. *)
Definition no_salta (p : N) (l nuevo : Layout) s : Prop :=
  clase_de l = None -> clase_de nuevo = None -> grande l = false -> grande nuevo = true -> en_region (heap s) p.
Lemma realloc_spec v cs s p l n : en_orden ((p, l) :: v) cs s -> let nuevo := mkLayout n (l_align l) in valida nuevo -> sin_caida nuevo s -> no_salta p l nuevo s ->
  hace (realloc p l n) s (fun q s' => mudado v p l nuevo q s s').
Proof.
  intros E nuevo Hn Hc Hns. pose proof (e_base _ _ _ E) as B. rewrite bloques_cons in B. destruct (base_dir _ _ _ _ _ _ _ B) as (D1 & _ & _).
  destruct (e_vivos _ _ _ E p l (list_elem_of_here _ _)) as (Hl & Ha & Hlu).
  unfold realloc. fold nuevo. destruct (clase_de l) as [a|] eqn:Hcl, (clase_de nuevo) as [b|] eqn:Hcn; try by apply (mudar_spec v cs).
  - destruct (N.eqb_spec a b) as [->|]; [|by apply (mudar_spec v cs)]. apply hace_ret. split; [done|]. exists cs. rewrite (proj2 (N.eqb_neq p 0)) by lia.
    split; [|done]. assert (reserva nuevo = reserva l ∧ alineado nuevo = alineado l) as [R1 R2] by (unfold reserva, alineado; by rewrite Hcl, Hcn).
    destruct E as [B' V C D]. split; [by rewrite bloques_cons, R1| |done|done]. intros q m [[= -> ->]|Hv]%elem_of_cons; [|apply V; by right].
    rewrite R2. split; [done|]. split; [done|]. split; [|by rewrite (clase_chica _ _ Hcn)]. intros [Hg|Hbig]; [by rewrite (clase_chica _ _ Hcn) in Hg|]. apply Hlu. by right.
  - assert (mudar alloc_base dealloc_base p l nuevo s = mudar alloc dealloc p l nuevo s) as Hmud.
    { unfold mudar, alloc, dealloc. by rewrite Hcl, Hcn. }
    unfold realloc_base. fold nuevo. destruct (grande l) eqn:Hg; [unfold hace, acaba; rewrite Hmud; by apply (mudar_spec v cs)|].
    apply hace_bind, en_region_run; [lia|]. intros b Hb. destruct ((l_align l <=? 4096) && b) eqn:Eb; [unfold hace, acaba; rewrite Hmud; by apply (mudar_spec v cs)|].
    assert (~ en_region (heap s) p) as Hr.
    { apply andb_false_iff in Eb as [Eb%N.leb_gt| ->]; [apply Hlu; by right|]. intros Hr. discriminate (proj2 Hb Hr). }
    assert (grande nuevo = false) as Hgn by (destruct (grande nuevo) eqn:Hgn; [by destruct Hr; apply Hns|done]).
    assert (reserva l = l_size l ∧ reserva nuevo = n ∧ alineado l = l_align l ∧ alineado nuevo = l_align l) as (R1 & R2 & R3 & R4).
    { unfold reserva, reserva_base, alineado. by rewrite Hcl, Hcn, Hg, Hgn. }
    rewrite R1 in B. rewrite R3 in Ha. destruct Hn as (Hp & Hn1 & Hn2). cbn [l_size l_align nuevo] in Hp, Hn1, Hn2.
    assert (n + N.max (l_align l) 16 <= 2 ^ 63) as Hsz.
    { unfold grande in Hgn. cbn [l_size l_align nuevo] in Hgn. assert (2 ^ 20 + 4096 <= 2 ^ 63 ∧ MMAP_ALLOC_MIN = 2 ^ 20) as [? Hmin] by done. destruct (N.leb_spec (l_align l) 4096); [|lia].
      rewrite andb_true_r in Hgn. apply N.leb_gt in Hgn. rewrite Hmin in Hgn. lia. }
    eapply hace_mono; [by apply (arena_realloc_spec (bloques v cs))|]. intros q s' (P & Hh & Hq). split; [by apply (paso_conserva v cs)|]. exists cs.
    destruct (q =? 0); destruct Hq as [Bq Hq].
    + split; [|done]. apply (orden_sube [(p, l)] v _ cs s); [done|done|by rewrite bloques_cons, R1|]. intros x y [[= -> ->]|Hv]%elem_of_cons; [right|by left].
      rewrite R3. split; [done|]. split; [done|]. unfold lugar. by rewrite Hh.
    + destruct Hq as (Q1 & Q2 & Q3). split; [|done]. apply (orden_sube [(p, l)] v _ cs s); [done|done|by rewrite bloques_cons, R2|]. intros x y [[= -> ->]|Hv]%elem_of_cons; [right|by left].
      rewrite R4. split; [done|]. split; [done|]. split; [done|by rewrite Hgn].
Qed.
End Clases.
