(* ===== verification/MontonTeoremas.v ===== *)
(** * The heap of a program: over the kernel, and the properties

    The calls of [Mmap.v] as the operations the heap asks for, the proof that they
    keep what the heap relies on, and what holds of any life of a program. *)
From S2P Require Import Prelude Mmap MmapLibro MmapTeoremas Monton MontonInv MontonClases.
Local Open Scope N_scope.
#[local] Set Default Proof Using "Type*".

(** [fresco] is what the bytes of a new page hold. Anonymous maps open no file. *)
Section Nucleo.
Context {Pg : Type} `{Espacio Pg} (fresco : N -> byte).

(** The register a call leaves: the address, or the error with its sign. A
    machine that panics answers nothing; that case does not arise below. *)
Definition respuesta (x : outcome Z N * Proceso Pg) : Z * Proceso Pg :=
  match x with (Ok v, p) => (Z.of_N v, p) | (Err e, p) => (e, p) | (_, p) => (0%Z, p) end.
Definition rellena (b n : N) (m : Bytes) : Bytes := fun a => if en_tramo b (b + n) a then fresco a else m a.

#[export] Instance ops_proceso : Ops (Proceso Pg) := {|
  sbrk d x := let '(r, p) := respuesta (sys_sbrk d x.1) in (r, (p, if (0 <? r)%Z then rellena (Z.to_N r) (Z.to_N d) x.2 else x.2));
  mmap addr len fd off x := let '(r, p) := respuesta (sys_mmap sin_ficheros addr len fd off x.1) in
    (r, (p, if (0 <? r)%Z then rellena (Z.to_N r) (redondo 4096 len) x.2 else x.2));
  munmap addr len x := let '(r, p) := respuesta (sys_munmap addr len x.1) in (r, (p, x.2));
|}.

(** The bytes the program may write: those below the break and those of the maps
    to write on. *)
Definition escribible (p : Proceso Pg) (a : N) : Prop :=
  brk_min p <= a ∧ a < brk p ∨ exists i o n x m, vista (libro p) a = Some (i, o, n, (true, x, false), m).
(** The book of a process that asks for memory without hints: nothing is mapped
    where the break moves. *)
Record proceso_ok (p : Proceso Pg) : Prop := {
  po_libro : libro_ok (libro p);
  po_bytes : con_bytes (libro p);
  po_rango : forall a, vista (libro p) a ≠ None -> 0 < a ∧ a < 2 ^ 47;
  po_brk : 0 < brk_min p ∧ brk_min p <= brk p ∧ brk p <= BRK_MAX;
  po_hueco : forall a, brk_min p <= a -> a <= BRK_MAX -> vista (libro p) a = None;
}.

Lemma escribible_rango p a : proceso_ok p -> escribible p a -> 0 < a ∧ a < 2 ^ 47.
Proof.
  intros [_ _ Hr (B1 & B2 & B3) _] [[L1 L2]|(i & o & n & x & m & Hv)]; [|apply Hr; by rewrite Hv]. assert (BRK_MAX < 2 ^ 47) by done. lia.
Qed.
Lemma rellena_fuera b n m a : ~ en (b, n) a -> rellena b n m a = m a.
Proof. intros Hn. unfold rellena, en_tramo. destruct (N.leb_spec b a), (N.ltb_spec a (b + n)); cbn; try done. exfalso. apply Hn. unfold en. cbn. lia. Qed.
Lemma en_tramo_en b n a : en_tramo b (b + n) a = true <-> en (b, n) a.
Proof. unfold en_tramo, en. cbn. by rewrite andb_true_iff, N.leb_le, N.ltb_lt. Qed.
Lemma igual_pierde (su : N -> Prop) m : pierde su su m m 0 0.
Proof. done. Qed.
Lemma proceso_mismo p q : proceso_ok p -> (forall a, vista (libro q) a = vista (libro p) a) -> libro_ok (libro q) -> con_bytes (libro q) -> brk_min q = brk_min p ->
  brk_min p <= brk q -> brk q <= BRK_MAX -> proceso_ok q.
Proof.
  intros [_ _ P3 P4 P5] Hv Hl Hb Hm L1 L2. split; [done|done| | |].
  - intros a. rewrite Hv. apply P3.
  - rewrite Hm. destruct P4. auto.
  - intros a. rewrite Hm, Hv. apply P5.
Qed.

Lemma sbrk_no p p' m e : proceso_ok p -> e = (- ENOMEM)%Z ∧ libro p' = libro p ∧ brk_min p' = brk_min p ∧ brk p' = brk p ->
  (0 <? e)%Z = false ∧ proceso_ok p' ∧ pierde (escribible p) (escribible p') m m 0 0.
Proof.
  intros P (-> & El & Em & Eb). split; [done|]. split; [|unfold escribible; by rewrite El, Em, Eb].
  apply (proceso_mismo p); rewrite ?El, ?Eb; try done; apply P.
Qed.
Lemma sbrk_sube_ok p m d : proceso_ok p -> 0 < d -> d < 2 ^ 62 ->
  let '(r, (p', m')) := sbrk (Z.of_N d) (p, m) in
  proceso_ok p' ∧ if (0 <? r)%Z then Z.to_N r = brk p ∧ brk p' = brk p + d ∧ gana (escribible p) (escribible p') m m' (Z.to_N r) d
                  else pierde (escribible p) (escribible p') m m' 0 0.
Proof.
  intros P Hd _. pose proof (po_brk _ P) as (B1 & B2 & B3). cbn [sbrk ops_proceso fst snd]. pose proof (sbrk_spec (Z.of_N d) p B3) as Hs.
  destruct (sys_sbrk (Z.of_N d) p) as [[old|e| |] p']; cbn [respuesta]; [|by destruct (sbrk_no p p' m e P Hs) as (-> & ? & ?)|done|done].
  destruct Hs as (-> & El & Em & Hz & S1 & S2). assert (brk p' = brk p + d) as Hbrk by lia. rewrite (proj2 (Z.ltb_lt _ _)), N2Z.id by lia. split.
  - apply (proceso_mismo p); rewrite ?El, ?Em; try done; [apply P|apply P].
  - split; [done|]. split; [done|]. rewrite N2Z.id.
    assert (forall a, en (brk p, d) a -> ~ escribible p a) as Hnew.
    { intros a [L1 L2] [[? ?]|(i & o & n & x & k & Hv)]; cbn in L1, L2; [lia|]. rewrite (po_hueco _ P) in Hv by lia. done. }
    split; [|done|].
    + intros a. unfold escribible, en. cbn. rewrite El, Em, Hbrk. split; [intros [?|?]; [|by auto]|intros [[?|?]|?]; [|by auto|]]; [|left; lia|left; lia].
      destruct (N.lt_ge_cases a (brk p)); [left; left|right]; lia.
    + intros a Ha. apply rellena_fuera. intros He. by apply (Hnew a).
Qed.

Lemma sbrk_baja_ok p m d : proceso_ok p -> 0 < d -> d < 2 ^ 62 ->
  let '(r, (p', m')) := sbrk (- Z.of_N d) (p, m) in proceso_ok p' ∧ pierde (escribible p) (escribible p') m m' (brk p - d) d.
Proof.
  intros P Hd _. pose proof (po_brk _ P) as (B1 & B2 & B3). cbn [sbrk ops_proceso fst snd]. pose proof (sbrk_spec (- Z.of_N d) p B3) as Hs.
  destruct (sys_sbrk (- Z.of_N d) p) as [[old|e| |] p']; cbn [respuesta].
  2: { destruct (sbrk_no p p' m e P Hs) as (-> & S1 & S2 & S3). split; [exact S1|]. split; [exact S2|]. intros a Ha _. apply S3; [done|]. intros [_ L]. cbn in L. lia. }
  2-3: done.
  destruct Hs as (-> & El & Em & Hz & S1 & S2).
  assert (brk p' = brk p - d ∧ d <= brk p) as [Hbrk Hle] by lia. split.
  - apply (proceso_mismo p); rewrite ?El, ?Em; try done; [apply P|apply P].
  - unfold escribible. rewrite El, Em, Hbrk. split; [intros a [?|?]; [left; lia|by right]|]. intros a Ha Hn. split.
    + destruct Ha as [[L1 L2]|?]; [left|by right]. unfold en in Hn. cbn in Hn. lia.
    + destruct (0 <? _)%Z; [|done]. apply rellena_fuera. intros [L1 L2]. cbn in L1, L2. lia.
Qed.

Lemma mmap_proceso_ok p m n : proceso_ok p -> 0 < n -> n <= 2 ^ 63 ->
  let '(r, (p', m')) := mmap 0 n U64_MAX 0 (p, m) in
  proceso_ok p' ∧ if (0 <? r)%Z then Z.to_N r mod 4096 = 0 ∧ gana (escribible p) (escribible p') m m' (Z.to_N r) (redondo 4096 n)
                  else pierde (escribible p) (escribible p') m m' 0 0.
Proof.
  intros P Hn Hn2. assert (0 + HUGE_ALIGN <= U64 ∧ 2 ^ 63 < U64) as [C1 C2] by done. cbn [mmap ops_proceso fst snd].
  pose proof (sys_mmap_spec sin_ficheros 0 n U64_MAX 0 p (po_libro _ P) C1 ltac:(lia)) as Hs. cbv zeta in Hs.
  destruct (sys_mmap sin_ficheros 0 n U64_MAX 0 p) as [[v|e| |] p']; cbn [respuesta]; [| |done|done].
  2: { destruct Hs as [-> He]. split; [done|]. assert ((0 <? e)%Z = false) as ->; [|apply igual_pierde]. apply Z.ltb_ge.
       destruct He as [[[-> _]|[He _]]|[-> _]]; done. }
  destruct Hs as ((S1 & S2 & S3 & _ & _) & Hl & Hb & Hm & _ & Hcb & _ & Hno & ino & tam & w & Hre & Hv). specialize (Hcb (po_bytes _ P)).
  destruct (alinea_pos (redondo 4096 n)) as (A1 & _ & A3). pose proof (redondo_ge (alinea (redondo 4096 n)) A1 MMAP_BASE) as Hge. change (desde 0) with MMAP_BASE in S1.
  assert (0 < MMAP_BASE ∧ BRK_MAX < MMAP_BASE ∧ MMAP_LIMIT < 2 ^ 47) as (C3 & C4 & C5) by done.
  destruct Hre as [[_ [= -> -> ->]]|[[] _]]; [|done]. set (t := redondo 4096 n) in *. rewrite (proj2 (Z.ltb_lt _ _)), N2Z.id by lia. split.
  - destruct P as [_ _ P3 (P4 & P5 & P6) P7]. split; [done|done| | |].
    + intros a. rewrite Hv. destruct (en_tramo v (v + t) a) eqn:Ha; [|apply P3]. intros _. apply en_tramo_en in Ha as [L1 L2]. cbn in L1, L2. lia.
    + rewrite Hb, Hm. auto.
    + intros a. rewrite Hm, Hv. intros L1 L2. destruct (en_tramo v (v + t) a) eqn:Ha; [|by apply P7]. apply en_tramo_en in Ha as [L3 L4]. cbn in L3, L4. lia.
  - assert (forall a, en (v, t) a -> ~ escribible p a) as Hnew.
    { intros a Ha [[L1 L2]|(i & o & k & x & sh & Hvi)]; [|rewrite Hno in Hvi by (by apply en_tramo_en); done]. destruct Ha as [L3 L4]. cbn in L3, L4. pose proof (po_brk _ P) as (_ & _ & ?). lia. }
    split; [|split; [|done|]].
    + apply N.Div0.mod_divides in A3 as [q Hq]. rewrite (N.mul_comm 4096) in Hq. pose proof (N.div_mod v (alinea t) ltac:(lia)) as Hd. rewrite S2, N.add_0_r in Hd. rewrite Hd, Hq, (N.mul_comm q), <- N.mul_assoc, N.mul_comm. apply N.Div0.mod_mul.
    + intros a. unfold escribible. rewrite Hb, Hm, Hv. destruct (en_tramo v (v + t) a) eqn:Ha.
      * split; [intros _; right; by apply en_tramo_en|intros _; right; eauto 10].
      * split; [by left|intros [?|He]; [done|]]. apply en_tramo_en in He. congruence.
    + intros a Ha. apply rellena_fuera. intros He. by apply (Hnew a).
Qed.

Lemma munmap_proceso_ok p m a n : proceso_ok p -> a mod 4096 = 0 -> a < 2 ^ 47 -> 0 < n -> n <= 2 ^ 63 -> n mod 4096 = 0 ->
  let '(r, (p', m')) := munmap a n (p, m) in proceso_ok p' ∧ pierde (escribible p) (escribible p') m m' a n.
Proof.
  intros P _ Ha _ _ Hn. assert (2 ^ 47 < U64) as C1 by done. cbn [munmap ops_proceso fst snd].
  pose proof (sys_munmap_spec a n p (po_libro _ P) (po_bytes _ P) ltac:(lia)) as Hs. cbv zeta in Hs. rewrite (redondo_id 4096 ltac:(done) n Hn) in Hs.
  pose proof (po_brk _ P) as (_ & B2 & B3). destruct (sys_munmap a n p) as [[r|e| |] p']; cbn [respuesta]; [| |done|done].
  - destruct Hs as (_ & Eb & Em & Hl & Hb & _ & Hv & _). split.
    + destruct P as [_ _ P3 P4 P5]. split; [done|done| | |].
      * intros x. rewrite Hv. destruct (en_tramo _ _ _); [done|apply P3].
      * by rewrite Eb, Em.
      * intros x. rewrite Em, Hv. destruct (en_tramo _ _ _); [done|apply P5].
    + unfold escribible. rewrite Eb, Em. split; [intros x; rewrite Hv; destruct (en_tramo _ _ _); [intros [?|(? & ? & ? & ? & ? & ?)]; [by left|done]|done]|].
      intros x Hx Hne. rewrite Hv. destruct (en_tramo a (a + n) x) eqn:He; [apply en_tramo_en in He; done|done].
  - destruct Hs as (_ & E & Hl & Hb & Hv & _). assert (brk p' = brk p ∧ brk_min p' = brk_min p) as [Eb Em] by (by rewrite E). split.
    + apply (proceso_mismo p); rewrite ?Eb; try done.
    + unfold escribible. rewrite Eb, Em. split; [intros x; by rewrite Hv|]. intros x Hx _. by rewrite Hv.
Qed.

#[export] Instance spec_proceso : OpsSpec (Proceso Pg) := {|
  bien := proceso_ok; suya := escribible; tope_brk := brk;
  suya_rango := escribible_rango; sbrk_sube := sbrk_sube_ok; sbrk_baja := sbrk_baja_ok; mmap_ok := mmap_proceso_ok; munmap_ok := munmap_proceso_ok;
|}.
End Nucleo.

(** * A list allocator to run the heap with

    The plainest one that keeps the promises of [HeapSpec], for the concrete
    runs: it remembers the blocks it gave and tries after each of them. It is not
    the code of the crate the heap uses. *)
#[local] Set Default Proof Using "Type".

Record Lista := mkLista { li_bottom : N; li_top : N; li_tomados : list (N * N) }.
Fixpoint quita (b : N * N) (l : list (N * N)) : list (N * N) :=
  match l with [] => [] | c :: l => if decide (b = c) then l else c :: quita b l end.
Definition sirve (h : Lista) (n p : N) : bool :=
  (p + n <=? li_top h) && forallb (fun b => (p + n <=? b.1) || (b.1 + b.2 <=? p)) (li_tomados h).
Definition candidatos (h : Lista) (al : N) : list N := redondo al <$> li_bottom h :: ((fun b => b.1 + b.2) <$> li_tomados h).
Definition busca (h : Lista) (l : Layout) : option N := snd <$> list_find (fun p => sirve h (l_size l) p = true) (candidatos h (l_align l)).

#[export] Instance heap_lista : Heap Lista := {|
  heap_empty := mkLista 0 0 [];
  heap_init_with b n x := (mkLista b (b + n) [], x.2);
  allocate_first_fit l x :=
    match busca x.1 l with
    | Some p => (Some p, (mkLista (li_bottom x.1) (li_top x.1) ((p, l_size l) :: li_tomados x.1), x.2))
    | None => (None, x)
    end;
  heap_deallocate p l x := (mkLista (li_bottom x.1) (li_top x.1) (quita (p, l_size l) (li_tomados x.1)), x.2);
  heap_extend n x := (mkLista (li_bottom x.1) (li_top x.1 + n) (li_tomados x.1), x.2);
  bottom := li_bottom;
  top := li_top;
  used h := foldr (fun b n => b.2 + n) 0 (li_tomados h);
  heap_size h := li_top h - li_bottom h;
|}.
Definition lista_ok (h : Lista) : Prop := forall b, b ∈ li_tomados h -> li_bottom h <= b.1.

Lemma quita_perm b l : b ∈ l -> l ≡ₚ b :: quita b l.
Proof.
  induction l as [|c l IH]; intros Hb; [by apply elem_of_nil in Hb|]. cbn. case_decide as Hd; [by subst|].
  apply elem_of_cons in Hb as [?|Hb]; [done|]. rewrite (IH Hb) at 1. apply perm_swap.
Qed.
Lemma lista_primero h m l : lista_ok h -> valida l ->
  let '(o, (h', m')) := allocate_first_fit l (h, m) in
  lista_ok h' ∧ bottom h' = bottom h ∧ top h' = top h ∧
  (forall a, ~ en_region h a ∨ ocupa (li_tomados h) a -> m' a = m a) ∧
  match o with
  | None => li_tomados h' ≡ₚ li_tomados h
  | Some p => bottom h <= p ∧ p + l_size l <= top h ∧ p mod l_align l = 0 ∧ (forall a, en (p, l_size l) a -> ~ ocupa (li_tomados h) a) ∧
      li_tomados h' ≡ₚ (p, l_size l) :: li_tomados h
  end.
Proof.
  intros Hok (Hp & Hs & _). pose proof (potencia_pos _ Hp) as Ha. cbn -[busca]. destruct (busca h l) as [p|] eqn:Hb; [|by split_and!].
  unfold busca in Hb. destruct (list_find _ _) as [[i q]|] eqn:Hf; [|done]. injection Hb as ->. apply list_find_Some in Hf as (Hi & Hsi & _).
  apply list_elem_of_lookup_2 in Hi. unfold candidatos in Hi. apply list_elem_of_fmap in Hi as (x & -> & Hx).
  unfold sirve in Hsi. apply andb_true_iff in Hsi as [S1%N.leb_le S2]. rewrite forallb_forall in S2.
  assert (li_bottom h <= redondo (l_align l) x) as Hle.
  { etrans; [|by apply redondo_ge]. apply elem_of_cons in Hx as [->|(b & -> & Hb)%list_elem_of_fmap]; [done|]. specialize (Hok b Hb). lia. }
  split; [intros b [->|Hin]%elem_of_cons; [exact Hle|by apply Hok]|]. split_and!; try done; [by apply redondo_mod|].
  intros a [L1 L2] (b & Hb & L3 & L4). cbn in L1, L2. specialize (S2 b (proj1 (list_elem_of_In _ _) Hb)). apply orb_true_iff in S2 as [S2%N.leb_le|S2%N.leb_le]; lia.
Qed.
Lemma lista_devuelve h m p l t : lista_ok h -> li_tomados h ≡ₚ (p, l_size l) :: t ->
  let '(h', m') := heap_deallocate p l (h, m) in
  lista_ok h' ∧ bottom h' = bottom h ∧ top h' = top h ∧ li_tomados h' ≡ₚ t ∧ forall a, ~ en_region h a ∨ ocupa t a -> m' a = m a.
Proof.
  intros Hok Ht. cbn. assert ((p, l_size l) ∈ li_tomados h) as Hin by (rewrite Ht; by left). pose proof (quita_perm _ _ Hin) as Hq. split_and!; try done.
  - intros b Hb. cbn in *. apply Hok. rewrite Hq. by right.
  - rewrite Hq in Ht. by apply Permutation_cons_inv in Ht.
Qed.
#[export] Instance spec_lista : HeapSpec Lista.
Proof.
  refine {| heap_ok := lista_ok; tomados := li_tomados; primero_ok := lista_primero; devuelve_ok := lista_devuelve |}.
  - split; [|done]. intros b Hb. by apply elem_of_nil in Hb.
  - intros h m b n _ _. cbn. split_and!; try done; try lia. intros x Hx. by apply elem_of_nil in Hx.
  - intros h m n Hok. cbn. split_and!; done.
Defined.

(** * The heap of a program: the properties

    What holds of any life of a program that keeps the contract of its allocator,
    over any kernel and any list allocator that keep their promises, and what
    happens in the two cases the contract leaves out. *)
#[local] Set Default Proof Using "Type*".

(** ** The life of a program *)
Section Vida.
Context {K H : Type} `{OpsSpec K, HeapSpec H}.
Implicit Types (s : Estado (K := K) (H := H)) (v w : list (N * Layout)).

Definition inicial (k : K) (m : Bytes) : Estado := mkEstado heap_empty arena_vacia (replicate (N.to_nat N_CLASES) 0) false false k m.
Definition tras (v : list (N * Layout)) (p : N) (l : Layout) : list (N * Layout) := if p =? 0 then v else (p, l) :: v.
(** [v] are the blocks in the hands of the program: what it was given and has not
    given back. It asks for layouts Rust can build, gives back only what it has,
    with the layout it has it with, and writes only on its blocks. Two cases are
    left out: a block of a mebibyte or more that the kernel refuses to map, and a
    block of the arena that grows to a mebibyte or more. *)
Inductive vida : list (N * Layout) -> Estado (K := K) (H := H) -> Prop :=
| vida_brk k m s : bien k -> heap_init (inicial k m) = (Ok tt, s) -> vida [] s
| vida_mmap k m s : bien k -> heap_init_mmap (inicial k m) = (Ok tt, s) -> vida [] s
| vida_alloc v s l p s' : vida v s -> valida l -> sin_caida l s -> alloc l s = (Ok p, s') -> vida (tras v p l) s'
| vida_zeroed v s l p s' : vida v s -> valida l -> sin_caida l s -> alloc_zeroed l s = (Ok p, s') -> vida (tras v p l) s'
| vida_dealloc v w s p l s' : vida v s -> v ≡ₚ (p, l) :: w -> dealloc p l s = (Ok tt, s') -> vida w s'
| vida_realloc v w s p l n q s' : vida v s -> v ≡ₚ (p, l) :: w -> valida (mkLayout n (l_align l)) -> sin_caida (mkLayout n (l_align l)) s ->
    no_salta p l (mkLayout n (l_align l)) s -> realloc p l n s = (Ok q, s') -> vida (if q =? 0 then v else (q, mkLayout n (l_align l)) :: w) s'
| vida_escribe v s p l m : vida v s -> (p, l) ∈ v -> (forall a, ~ en (p, l_size l) a -> m a = memoria s a) -> vida v (set_memoria m s).

Lemma hace_run {A} (m : M _ unit A) s (Φ : A -> Estado -> Prop) : hace m s Φ -> exists a s', m s = (Ok a, s') ∧ Φ a s'.
Proof. unfold hace, acaba. destruct (m s) as [[a|e| |] s']; try done. eauto. Qed.
Lemma hace_Ok {A} (m : M _ unit A) s (Φ : A -> Estado -> Prop) a s' : hace m s Φ -> m s = (Ok a, s') -> Φ a s'.
Proof. unfold hace, acaba. intros Hh Hm. by rewrite Hm in Hh. Qed.

(** The list over the bytes the kernel just gave, or no list. *)
Lemma inicio_orden (h : H) k' s : bien k' -> heap_ok h -> tomados h = [] -> (forall a, en_region h a -> suya k' a) ->
  heap s = h -> arena s = arena_vacia -> cabeza s = replicate (N.to_nat N_CLASES) 0 -> nucleo s = k' -> en_orden [] (fun _ => []) s.
Proof.
  intros Hb Hh Ht Hr E1 E2 E3 E4. assert (cacheados (fun _ => []) = []) as Hc by (unfold cacheados; induction (upto N_CLASES) as [|c l IH]; [done|exact IH]).
  split.
  - unfold montado, bloques. rewrite Hc, E1, E2, E4. split; try done; try (intros b0 Hb0; by apply elem_of_nil in Hb0).
    + intros a Ha. by apply ocupa_nil in Ha.
    + by rewrite Ht.
    + intros b0 a Hb0. by apply elem_of_nil in Hb0.
    + cbn. intros a L1 L2. lia.
  - intros p l Hl. by apply elem_of_nil in Hl.
  - by rewrite E3, length_replicate.
  - intros c Hc'. exists 0. split; [|done]. rewrite E3. apply lookup_replicate_2. lia.
Qed.
Lemma vacia_region a : ~ en_region (heap_empty (H := H)) a.
Proof. intros [_ L]. destruct vacio_ok as (_ & _ & Ht). rewrite Ht in L. lia. Qed.
Definition recien (k : K) s : Prop := heap s = heap_empty ∧ arena s = arena_vacia ∧ cabeza s = replicate (N.to_nat N_CLASES) 0 ∧ nucleo s = k.
Lemma sin_lista k s : bien k -> recien k s -> en_orden [] (fun _ => []) s.
Proof. intros Hb (E1 & E2 & E3 & E4). destruct vacio_ok as (V1 & V2 & _). apply (inicio_orden heap_empty k); try done. intros a Ha. by apply vacia_region in Ha. Qed.
Lemma con_lista b k k' m m' n s : bien k' -> recien k' s -> 0 < b -> gana (suya k) (suya k') m m' b n ->
  hace (en_heap (fun h => (tt, heap_init_with b n h))) s (fun _ s' => en_orden [] (fun _ => []) s').
Proof.
  intros Hb (E1 & E2 & E3 & E4) Hp Hg. destruct vacio_ok as (V1 & V2 & _). apply hace_heap. intros [] h m2 Hrun.
  pose proof (init_ok (heap_empty (H := H)) (memoria s) b n Hp V2) as Hi. rewrite E1 in Hrun. destruct (heap_init_with _ _ _) as [h2 m3]. injection Hrun as -> ->.
  destruct Hi as (I1 & I2 & I3 & I4 & _). apply (inicio_orden h k'); try done. intros a [L1 L2]. apply (g_su _ _ _ _ _ _ Hg). right. unfold en. cbn. lia.
Qed.
Lemma init_brk_orden k m : bien k -> hace heap_init (inicial k m) (fun _ s => en_orden [] (fun _ => []) s).
Proof.
  intros Hb. unfold heap_init. apply hace_bind, hace_gets. cbn [heap_ready inicial]. apply hace_bind, hace_modify, hace_bind, hace_nucleo. intros r k' m' Hrun.
  pose proof (sbrk_sube k m HEAP_INIT_BYTES Hb ltac:(done) ltac:(done)) as Hs. change (Z.of_N HEAP_INIT_BYTES) with (as_i64 HEAP_INIT_BYTES) in Hs.
  cbn [nucleo memoria set_ready inicial] in Hrun. rewrite Hrun in Hs. destruct Hs as [Hb' Hs]. destruct (Z.ltb_spec 0 r).
  - apply hace_bind, hace_modify. apply (con_lista _ k k' m m'); [done|done|lia|apply Hs].
  - apply hace_ret. by apply (sin_lista k').
Qed.
Lemma init_mmap_orden k m : bien k -> hace heap_init_mmap (inicial k m) (fun _ s => en_orden [] (fun _ => []) s).
Proof.
  intros Hb. unfold heap_init_mmap. apply hace_bind, hace_gets. cbn [heap_ready inicial]. apply hace_bind, hace_modify, hace_bind, hace_nucleo. intros r k' m' Hrun.
  pose proof (mmap_ok k m HEAP_INIT_BYTES Hb ltac:(done) ltac:(done)) as Hs. cbn [nucleo memoria set_ready inicial] in Hrun. rewrite Hrun in Hs. destruct Hs as [Hb' Hs].
  destruct (Z.ltb_spec 0 r); [|apply hace_ret; by apply (sin_lista k')].
  change (redondo 4096 HEAP_INIT_BYTES) with HEAP_INIT_BYTES in Hs. apply (con_lista _ k k' m m'); [done|done|lia|apply Hs].
Qed.

Lemma nuevo_tras v p l s : nuevo_vivo v p l s -> exists cs, en_orden (tras v p l) cs s.
Proof. intros [cs E]. exists cs. unfold tras. by destruct (p =? 0). Qed.
(** Every life is in order. *)
Lemma vida_orden v s : vida v s -> exists cs, en_orden v cs s.
Proof.
  induction 1 as [k m s Hb Hr|k m s Hb Hr|v s l p s' _ [cs E] Hl Hc Hr|v s l p s' _ [cs E] Hl Hc Hr|v w s p l s' _ [cs E] Hp Hr|v w s p l n q s' _ [cs E] Hp Hl Hc Hn Hr|v s p l m _ [cs E] Hin Hm].
  - exists (fun _ => []). exact (hace_Ok _ _ _ _ _ (init_brk_orden k m Hb) Hr).
  - exists (fun _ => []). exact (hace_Ok _ _ _ _ _ (init_mmap_orden k m Hb) Hr).
  - apply nuevo_tras. apply (hace_Ok _ _ _ _ _ (alloc_spec v cs s l E Hl Hc) Hr).
  - apply nuevo_tras. apply (hace_Ok _ _ _ _ _ (alloc_zeroed_spec v cs s l E Hl Hc) Hr).
  - apply (orden_perm _ _ _ _ Hp) in E. apply (hace_Ok _ _ _ _ _ (dealloc_spec w cs s p l E) Hr).
  - pose proof (orden_perm _ _ _ _ Hp E) as E'. destruct (hace_Ok _ _ _ _ _ (realloc_spec w cs s p l n E' Hl Hc Hn) Hr) as [_ [cs' Hq]]. exists cs'.
    destruct (q =? 0); [|apply Hq]. apply (orden_perm ((p, l) :: w)); [by symmetry|apply Hq].
  - destruct (list_elem_of_split _ _ Hin) as (v1 & v2 & ->). exists cs. apply (orden_perm ((p, l) :: v1 ++ v2)); [by rewrite Permutation_middle|].
    apply (orden_perm _ ((p, l) :: v1 ++ v2)) in E; [|by rewrite <- Permutation_middle]. apply (orden_escribe (v1 ++ v2) cs s p l m E).
    intros a Ha. apply Hm. intros [L1 L2]. apply Ha. pose proof (reserva_cabe l). unfold en. cbn in *. lia.
Qed.

(** ** What the program may count on *)
Definition tramos v : list (N * N) := (fun x => (x.1, l_size x.2)) <$> v.
(** The bytes of the blocks of [v] are as they were. *)
Definition mismos v s s' : Prop := forall p l i, (p, l) ∈ v -> i < l_size l -> memoria s' (p + i) = memoria s (p + i).
Lemma conserva_mismos v s s' : conserva v s s' -> mismos v s s'.
Proof. intros C p l i Hv Hi. by apply (conserva_byte v s s' p l). Qed.
Lemma ocupa_tramos v a : ocupa (tramos v) a -> ocupa (vivos v) a.
Proof.
  intros (b & Hb & Ha). apply list_elem_of_fmap in Hb as ((p & l) & -> & Hv). exists (p, reserva l). split; [apply list_elem_of_fmap; by exists (p, l)|].
  pose proof (reserva_cabe l). unfold en in *. cbn in *. lia.
Qed.
Lemma tramos_apartados v cs : apartados (bloques v cs) -> apartados (tramos v).
Proof.
  induction v as [|[p l] v IH]; [done|]. cbn. intros [Hp Hv]. split; [|by apply IH]. intros a Ha Ho. apply (Hp a).
  - pose proof (reserva_cabe l). unfold en in *. cbn in *. lia.
  - by apply ocupa_vivos, ocupa_tramos.
Qed.
Lemma vida_bloques v s : vida v s -> (forall p l, (p, l) ∈ v -> p ≠ 0 ∧ p mod l_align l = 0 ∧ forall a, en (p, l_size l) a -> suya (nucleo s) a) ∧ apartados (tramos v).
Proof.
  intros [cs E]%vida_orden. split; [|apply (tramos_apartados v cs), (e_base _ _ _ E)]. intros p l Hv. destruct (e_vivos _ _ _ E p l Hv) as ((Hp & Hs & _) & Ha & _).
  assert (forall a, en (p, l_size l) a -> suya (nucleo s) a) as Hsu.
  { intros a Hen. apply (b_suyos _ _ _ _ _ (e_base _ _ _ E)), ocupa_vivos, ocupa_tramos. exists (p, l_size l). split; [|done]. apply list_elem_of_fmap. by exists (p, l). }
  split; [|split; [|done]].
  - destruct (suya_rango (nucleo s) p (b_bien _ _ _ _ _ (e_base _ _ _ E))) as [? _]; [apply Hsu; unfold en; cbn; lia|lia].
  - unfold alineado in Ha. destruct (clase_de l) as [c|] eqn:Hc; [|done]. apply (mod_divide _ _ 16); [done|by exists 4|by apply (clase_spec l c)|done].
Qed.

(** C16. However long a program asks for memory, gives it back, changes its size
    and writes on it, as long as [mmap] refuses it no block of a mebibyte or more
    and [realloc] makes none of the arena grow to that size, the blocks in its
    hands share no byte, start where their alignment says and lie in memory the
    kernel gave the process. [fuera_del_contrato] is what happens otherwise. *)
Theorem monton_exclusivo v s : vida v s ->
  (forall p l, (p, l) ∈ v -> p ≠ 0 ∧ p mod l_align l = 0 ∧ forall a, en (p, l_size l) a -> suya (nucleo s) a) ∧ apartados (tramos v).
Proof. apply vida_bloques. Qed.

(** Asking for memory never panics, and touches no byte of the blocks the
    program has; [alloc_zeroed] answers zeros. *)
Theorem reserva_respeta v s l : vida v s -> valida l -> sin_caida l s ->
  (exists p s', alloc l s = (Ok p, s') ∧ mismos v s s') ∧
  exists p s', alloc_zeroed l s = (Ok p, s') ∧ mismos v s s' ∧ (p ≠ 0 -> forall i, i < l_size l -> memoria s' (p + i) = x00).
Proof.
  intros [cs E]%vida_orden Hl Hc. split.
  - destruct (hace_run _ _ _ (alloc_spec v cs s l E Hl Hc)) as (p & s' & Hr & _ & C). exists p, s'. split; [done|]. by apply conserva_mismos.
  - destruct (hace_run _ _ _ (alloc_zeroed_spec v cs s l E Hl Hc)) as (p & s' & Hr & _ & C & Hz). exists p, s'. split; [done|]. split; [by apply conserva_mismos|done].
Qed.

(** C17. In such a life giving back a block and changing its size, again without a
    refused map or a block of the arena growing to a mebibyte, never panic and
    touch no byte of the others. After [realloc] the block holds the bytes the old
    and the new one have in common, or the answer is null and the old one is as
    it was. A small block given back is the next one its class hands out. *)
Theorem realloc_conserva v w s p l : vida v s -> v ≡ₚ (p, l) :: w ->
  (exists s', dealloc p l s = (Ok tt, s') ∧ mismos w s s' ∧ forall c l', clase_de l = Some c -> clase_de l' = Some c -> exists s'', alloc l' s' = (Ok p, s'')) ∧
  forall n, let nuevo := mkLayout n (l_align l) in valida nuevo -> sin_caida nuevo s -> no_salta p l nuevo s ->
    exists q s', realloc p l n s = (Ok q, s') ∧ mismos w s s' ∧
      if q =? 0 then mismos v s s' else forall i, i < N.min (l_size l) n -> memoria s' (q + i) = memoria s (p + i).
Proof.
  intros [cs E]%vida_orden Hp. apply (orden_perm _ _ _ _ Hp) in E. split.
  - destruct (hace_run _ _ _ (dealloc_spec w cs s p l E)) as ([] & s' & Hr & _ & C). exists s'. split; [done|]. split; [by apply conserva_mismos|].
    intros c l' Hcl Hcl'. pose proof (e_base _ _ _ E) as B. rewrite bloques_cons in B. destruct (base_dir _ _ _ _ _ _ _ B) as (D1 & _ & _).
    destruct (clase_spec l c Hcl) as (C1 & _). destruct (e_cadenas _ _ _ E c C1) as (x & Hx & _).
    unfold dealloc in Hr. rewrite Hcl in Hr. rewrite bind_eq in Hr. cbn [gets] in Hr. rewrite Hx in Hr. cbn [of_option] in Hr. rewrite bind_eq in Hr. cbn in Hr. injection Hr as <-.
    unfold alloc. rewrite Hcl', bind_eq. cbn [gets set_cabeza cabeza]. rewrite list_lookup_insert_eq by (rewrite (e_cabeza _ _ _ E); lia). cbn [of_option]. rewrite bind_eq. cbn [mret M_ret].
    rewrite (proj2 (N.eqb_neq _ _)) by lia. by eexists.
  - intros n nuevo Hl Hc Hn. destruct (hace_run _ _ _ (realloc_spec w cs s p l n E Hl Hc Hn)) as (q & s' & Hr & C & cs' & Hq). exists q, s'. split; [done|].
    split; [by apply conserva_mismos|]. destruct (q =? 0); [|apply Hq]. destruct Hq as [_ Hq]. intros x y i Hv Hi. rewrite Hp in Hv. apply elem_of_cons in Hv as [[= -> ->]|Hv]; [by apply Hq|]. by apply (conserva_mismos _ _ _ C x y).
Qed.
End Vida.

(** ** Over the kernel of the system *)
(** C18. Over the calls of the kernel, in such a life (no map of a mebibyte or more
    refused, no block of the arena grown to that size), every byte of every block of
    the program is below the break or in a map of its book it may write on. *)
Theorem monton_en_el_mapa {Pg H} `{Espacio Pg} `{HeapSpec H} fresco (v : list (N * Layout)) (s : Estado (K := Proceso Pg) (H := H)) :
  vida (H0 := ops_proceso fresco) (H1 := spec_proceso fresco) v s -> forall p l a, (p, l) ∈ v -> p <= a -> a < p + l_size l ->
  brk_min (nucleo s) <= a ∧ a < brk (nucleo s) ∨ exists i o n x m, vista (libro (nucleo s)) a = Some (i, o, n, (true, x, false), m).
Proof. intros [Hb _]%vida_bloques p l a Hv L1 L2. destruct (Hb p l Hv) as (_ & _ & Hs). by apply Hs. Qed.

(** ** Concrete runs *)
(** A process whose break starts at 4 MiB, with all the memory it wants. *)
Definition de_ceros (a : N) : byte := x00.
#[local] Existing Instance heap_lista.
#[local] Instance ops_prueba : Ops (Proceso unit) := ops_proceso de_ceros.
#[local] Instance spec_prueba : OpsSpec (Proceso unit) := spec_proceso de_ceros.
Abbreviation Maquina := (Estado (K := Proceso unit) (H := Lista)).
Definition proceso_nuevo : Proceso unit := mkProceso [] MMAP_BASE 0x400000 0x400000 tt.
Definition maquina : Maquina := inicial proceso_nuevo de_ceros.
Lemma nuevo_ok : bien proceso_nuevo.
Proof.
  split.
  - intros r Hr. cbn in Hr. by apply elem_of_nil in Hr.
  - cbn. by apply Forall_nil.
  - intros a Ha. by destruct Ha.
  - cbn. split; [|split]; by vm_compute.
  - intros a _ _. reflexivity.
Qed.
(** A call and the machine after it. *)
Definition da {A} (m : M Maquina unit A) (s : Maquina) : outcome unit A := (m s).1.
Definition deja {A} (m : M Maquina unit A) (s : Maquina) : Maquina := (m s).2.
Lemma corre {A} (m : M Maquina unit A) s a : da m s = Ok a -> m s = (Ok a, deja m s).
Proof. unfold da, deja. destruct (m s). cbn. by intros ->. Qed.

Definition L32 : Layout := mkLayout 32 8.
Definition LGrande : Layout := mkLayout 2000000 16.
Definition m1 : Maquina := deja heap_init maquina.
Definition m2 : Maquina := deja (alloc L32) m1.
Definition m3 : Maquina := deja (alloc LGrande) m2.
Lemma valida_16 n k : 0 < n -> n + 2 ^ k <= 2 ^ 63 -> valida (mkLayout n (2 ^ k)).
Proof. intros Hn Hk. split; [by exists k|done]. Qed.
(** One more block, by a run whose answer is known. *)
Lemma vida_da v s l p : vida v s -> valida l -> sin_caida l s -> (p =? 0) = false -> da (alloc l) s = Ok p -> vida ((p, l) :: v) (deja (alloc l) s).
Proof. intros V Hl Hc Hp Hd. pose proof (vida_alloc v s l p _ V Hl Hc (corre _ _ _ Hd)) as V'. unfold tras in V'. by rewrite Hp in V'. Qed.
Lemma vida_prueba : vida [(0x1000000000, LGrande); (0x400000, L32)] m3.
Proof.
  assert (vida [] m1) as V1 by exact (vida_brk proceso_nuevo de_ceros m1 nuevo_ok (corre heap_init maquina tt ltac:(by vm_compute))).
  assert (vida [(0x400000, L32)] m2) as V2 by (apply (vida_da [] m1 L32 0x400000 V1); [by apply (valida_16 32 3)|intros Hg; discriminate Hg|done|by vm_compute]).
  apply (vida_da _ m2 LGrande 0x1000000000 V2); [by apply (valida_16 2000000 4)|intros _; by vm_compute|done|by vm_compute].
Qed.
Definition LLena : Layout := mkLayout 1048568 8.
Definition LMedia : Layout := mkLayout 2000 8.
Definition LCrecida : Layout := mkLayout 1048688 8.
Definition L16 : Layout := mkLayout 16 8.
Definition n1 : Maquina := deja heap_init_mmap maquina.
Definition n2 : Maquina := deja (alloc LLena) n1.
Definition n3 : Maquina := deja (alloc LMedia) n2.
Definition n4 : Maquina := deja (realloc 68720525312 LMedia 1048688) n3.
Definition n5 : Maquina := deja (dealloc 68720787456 LCrecida) n4.
Definition n6 : Maquina := deja (alloc L16) n5.
(** A process with no room left for maps. *)
Definition LMega : Layout := mkLayout 1048576 16.
Definition proceso_lleno : Proceso unit := mkProceso [mkRegion MMAP_BASE (MMAP_LIMIT - MMAP_BASE) 0 0 0 true false false 0] MMAP_LIMIT 0x400000 0x400000 tt.
Definition l1 : Maquina := deja heap_init (inicial proceso_lleno de_ceros).
Definition l2 : Maquina := deja (alloc LMega) l1.
Definition l3 : Maquina := deja (dealloc 0x400000 LMega) l2.
Lemma lleno_ok : bien proceso_lleno.
Proof.
  assert (forall a, vista (libro proceso_lleno) a ≠ None -> MMAP_BASE <= a ∧ a < MMAP_LIMIT) as Hv.
  { intros a. cbn [libro proceso_lleno]. rewrite vista_uno. destruct (contiene a _) eqn:Hc; [|done]. intros _. apply andb_true_iff in Hc as [H1%N.leb_le H2%N.ltb_lt]. done. }
  assert (MMAP_LIMIT < 2 ^ 47 ∧ 0 < MMAP_BASE ∧ BRK_MAX < MMAP_BASE) as (C1 & C2 & C3) by done. split.
  - intros r ->%list_elem_of_singleton. by vm_compute.
  - by apply Forall_singleton.
  - intros a Ha. specialize (Hv a Ha). lia.
  - done.
  - intros a _ Ha. destruct (vista (libro proceso_lleno) a) eqn:E; [|done]. destruct (Hv a) as [? _]; [by rewrite E|]. lia.
Qed.

Lemma crece_da : da (realloc 68720525312 LMedia 1048688) n3 = Ok 68720787456.
Proof. by vm_compute. Qed.
Lemma suelta_da : da (dealloc 68720787456 LCrecida) n4 = Ok tt.
Proof. by vm_compute. Qed.
Lemma otra_da : da (alloc L16) n5 = Ok 68721836144.
Proof. by vm_compute. Qed.
Lemma mega_da : da (alloc LMega) l1 = Ok 0x400000.
Proof. by vm_compute. Qed.
Lemma mega_suelta_da : da (dealloc 0x400000 LMega) l2 = Ok tt.
Proof. by vm_compute. Qed.

(** The two cases left out are real. A block of the arena that [realloc]
    makes of a mebibyte or more is given back to the kernel with [munmap], and
    the arena then hands out what was left behind it, which is no longer mapped.
    And a big block the list served because the kernel refused the map is never
    given back to the list. *)
Theorem fuera_del_contrato :
  (vida [(68720525312, LMedia); (0x1000000000, LLena)] n3 ∧ realloc 68720525312 LMedia 1048688 n3 = (Ok 68720787456, n4) ∧
   dealloc 68720787456 LCrecida n4 = (Ok tt, n5) ∧ alloc L16 n5 = (Ok 68721836144, n6) ∧
   forall i, i < 16 -> ~ escribible (nucleo n6) (68721836144 + i)) ∧
  (vida [] l1 ∧ alloc LMega l1 = (Ok 0x400000, l2) ∧ dealloc 0x400000 LMega l2 = (Ok tt, l3) ∧ li_tomados (heap l3) = [(0x400000, 1048576)]).
Proof.
  split.
  - split; [|split; [exact (corre _ _ _ crece_da)|split; [exact (corre _ _ _ suelta_da)|split; [exact (corre _ _ _ otra_da)|]]]].
    + assert (vida [] n1) as V1 by exact (vida_mmap proceso_nuevo de_ceros n1 nuevo_ok (corre heap_init_mmap maquina tt ltac:(by vm_compute))).
      assert (vida [(0x1000000000, LLena)] n2) as V2 by (apply (vida_da [] n1 LLena 0x1000000000 V1); [by apply (valida_16 1048568 3)|intros Hg; discriminate Hg|done|by vm_compute]).
      apply (vida_da _ n2 LMedia 68720525312 V2); [by apply (valida_16 2000 3)|intros Hg; discriminate Hg|done|by vm_compute].
    + assert (libro (nucleo n6) = [mkRegion 68719476736 1048576 0 0 0 true false false 0; mkRegion 68720525312 262144 0 0 0 true false false 0] ∧ brk (nucleo n6) = 0x400000) as [El Eb] by (split; by vm_compute).
      intros i Hi. unfold escribible. rewrite El, Eb. intros [[L1 L2]|(x1 & x2 & x3 & x4 & x5 & Hv)]; [lia|].
      destruct (vista_Some _ _ _ Hv) as (r & Hr & Hc). unfold contiene in Hc. apply andb_true_iff in Hc as [_ Hc%N.ltb_lt].
      apply elem_of_cons in Hr as [->|Hr]; [|apply list_elem_of_singleton in Hr as ->].
      * change (rend _) with 68720525312 in Hc. lia.
      * change (rend _) with 68720787456 in Hc. lia.
  - split; [|split; [exact (corre _ _ _ mega_da)|split; [exact (corre _ _ _ mega_suelta_da)|by vm_compute]]].
    exact (vida_brk proceso_lleno de_ceros l1 lleno_ok (corre heap_init (inicial proceso_lleno de_ceros) tt ltac:(by vm_compute))).
Qed.

(** *** Witnesses *)
Lemma monton_exclusivo_testigo : vida [(0x1000000000, LGrande); (0x400000, L32)] m3 ∧ apartados [(0x1000000000, 2000000); (0x400000, 32)].
Proof. split; [exact vida_prueba|]. exact (proj2 (monton_exclusivo _ _ vida_prueba)). Defined.
Lemma reserva_respeta_testigo : valida L32 ∧ exists p s', alloc L32 m3 = (Ok p, s') ∧ mismos [(0x1000000000, LGrande); (0x400000, L32)] m3 s'.
Proof.
  assert (valida L32) as Hl by (by apply (valida_16 32 3)). split; [exact Hl|].
  exact (proj1 (reserva_respeta _ _ L32 vida_prueba Hl (fun Hg => match Bool.diff_false_true Hg with end))).
Defined.
Lemma realloc_conserva_testigo : exists q s', realloc 0x1000000000 LGrande 3000000 m3 = (Ok q, s') ∧ q ≠ 0 ∧
  forall i, i < 2000000 -> memoria s' (q + i) = memoria m3 (0x1000000000 + i).
Proof.
  destruct (realloc_conserva _ [(0x400000, L32)] m3 0x1000000000 LGrande vida_prueba (reflexivity _)) as [_ H].
  destruct (H 3000000) as (q & s' & Hr & _ & Hq); [by apply (valida_16 3000000 4)|intros _; by vm_compute|intros _ _ Hg; discriminate Hg|].
  exists q, s'. split; [exact Hr|]. assert (da (realloc 0x1000000000 LGrande 3000000) m3 = Ok 68721573888) as Hd by (by vm_compute).
  unfold da in Hd. rewrite Hr in Hd. cbn [fst] in Hd. injection Hd as ->. split; [done|]. intros i Hi. apply Hq. exact Hi.
Defined.
Lemma monton_en_el_mapa_testigo : vida [(0x1000000000, LGrande); (0x400000, L32)] m3 ∧
  (brk_min (nucleo m3) <= 0x400000 + 31 ∧ 0x400000 + 31 < brk (nucleo m3) ∨ exists i o n x m, vista (libro (nucleo m3)) (0x400000 + 31) = Some (i, o, n, (true, x, false), m)).
Proof.
  split; [exact vida_prueba|]. apply (monton_en_el_mapa de_ceros _ m3 vida_prueba 0x400000 L32); [by right; left|done|done].
Defined.
